(* ===== verification/_CoqProject ===== *)
-Q . S2P
Prelude.v
LearnerPlanner.v
PyValue.v
Contracts.v
Events.v
Ledger.v
Coordinator.v
CoordinatorExample.v
CoordinatorProofs.v
CoordinatorLimits.v
CoordinatorBalance.v
CoordinatorLiveness.v
Stream.v
StreamExample.v
StreamProofs.v
StreamSafety.v
StreamProgress.v
Training.v
TrainingProofs.v
Grpo.v
GrpoResults.v
Manager.v
ManagerProofs.v
ManagerClient.v
StateRes.v
GenerationFailure.v
RelayJobs.v
RelayGpu.v
RelayGpuProofs.v
RelayGpuResults.v
RelayCpu.v
RelayCpuProofs.v
InputCache.v
InputCacheProofs.v
InputCacheResults.v
Torch.v
TorchFacts.v
ExpertDispatch.v
ExpertDispatchProofs.v
MoeDispatch.v
MoeDispatchProofs.v
RowSharded.v
RowShardedProofs.v
NgramHash.v
NgramHashProofs.v
ContextParallel.v
ContextProofs.v
ContextResults.v
RLConfig.v
RLConfigResults.v
LoraConfig.v
GenerationContract.v
GenerationContractResults.v
PromptData.v
Generate.v
GenerateResults.v
ModelConfig.v
Workloads.v
WorkloadsResults.v
HostMemory.v
EngramCache.v
EngramCacheProofs.v
EngramCacheResults.v
EngramState.v
EngramStateResults.v
PolicyArtifact.v
PolicyArtifactResults.v
PolicyController.v
PolicyControllerResults.v
BenchmarkAssembler.v
BenchmarkProvider.v
BenchmarkProviderResults.v
OrderedKv.v
CompressedAttention.v
SftCheckpoint.v
SftCheckpointResults.v
SftResume.v
Transport.v
TransportResults.v
