(* ===== verification/Prelude.v ===== *)
(** * A verification development of the Tiny-DSV41 trainer and rollout manager

    Paths below are under [src/].  The repository trains a mixture-of-experts
    language model ([dsv41_train/]) with rollouts that a separate manager
    schedules ([rollout_manager/]).  A learner process asks the manager for
    groups of episodes; the manager's coordinator admits the episodes of a group
    to executors within their resources, backends run them, and a relay between
    a CPU host and a GPU host carries model requests exactly once.  Finished
    groups come back as training records.  The trainer shards the model: tokens
    over context-parallel ranks, experts and embedding rows over others.

    ** Shared files

    - [Prelude]: exceptions, results and their monad, stable sorting, Python
      strings, lists and integers, the tactics and hints of the development.
    - [PyValue]: dynamic Python values; a finite float is an exact multiple of
      2^-1074 together with its [repr].
    - [StateRes]: methods that change an object and then return or raise.
    - [Torch], [TorchFacts]: the tensor operations and collectives the source
      calls, as a class with the documented laws, an instance on lists, and the
      consequences the components share.

    ** Rollout manager

    - [Contracts], [GenerationFailure] ([contracts.py],
      [generation_failure.py]): the records of a rollout and when a request may
      still be running.  A request counts as certain only when a bound receipt
      proves it.
    - [Events] ([events.py]): the event log.  It only grows, with gapless
      sequence numbers, and a result file is never overwritten.
    - [Ledger], [Coordinator*] ([coordinator.py], [Coordinator.run]): the batch
      coordinator as a sequential program over environment values.  A run
      returns one result per plan, respects its limits whenever it waits, its
      ledger balances, and it ends.
    - [Stream*] ([coordinator.py], streams): the coroutines of a persistent
      stream as a transition system over every interleaving.  Credits, capacity,
      order of results, sequence numbers, progress of groups of one style, and
      the deadlock of mixed styles.
    - [GenerationContract*] ([generation_training.py], [model_completion.py]):
      the evidence a served completion must carry to become a trace, and the
      parse of shell calls.
    - [Transport], [TransportResults] ([transports.py], [network.py]): the TLS
      route of one generation.  The client process, its ledger of requests, the
      messages and the relay's handlers, between their locked section and the
      writes outside it, are one transition system, over lossy connections,
      failed writes and restarts of either process: a post is dispatched at most
      once and stays accounted for, and a trace always binds the recorded
      request and answer.  It composes [Contracts] and [GenerationContract].
    - [PolicyController*] ([backends/pytorch_controller.py]): the serving
      controller serves one policy at a time and changes it only when drained.
    - [BenchmarkAssembler], [BenchmarkProvider*] ([benchmark_training.py]): the
      provider between the manager and a coordinator stream: it assembles the
      episodes of a group into training records, keeps finished groups until
      the learner commits them, and changes the policy between groups only.  It
      is composed with the coordinator stream of [Stream]; the controller's
      answers are environment values.
    - [Training], [TrainingProofs] ([training.py]): the training records with
      their constructors' checks; serialising and parsing gives them back.
    - [RelayJobs], [RelayGpu*], [RelayCpu*] ([relay_server.py] of
      [terminal_bench/browser_relay]): handlers as state changes of a spool and
      a journal, decomposed into atomic steps on which the invariants are proved,
      restarts included.  Nothing is posted twice, capacity holds, a restart
      turns running requests into uncertain ones, a job is claimed once.
    - [InputCache*] ([input_cache.py]): the bounded input cache.  Its size stays
      within the budget and a leased entry is not evicted.
    - [HostMemory] ([host_memory.py]): byte reservations are granted in order of
      arrival, never above the budget.
    - [Workloads*] ([workloads.py]): the schedule hands every sample out once and
      ends every group with all its results; the coverage report accepts exactly
      the external results that match the schedule.

    ** Trainer

    - [LearnerPlanner] ([rl/learner_batch_planner.py]): microbatches cover every
      response once within qualified shapes.
    - [Manager], [ManagerProofs], [ManagerClient] ([rl/manager.py]): the
      manager's mailbox and its client.  From ordered cursors no group is lost,
      repeated or reordered, and reported recovery states have ordered cursors
      again; a snapshot restores; commits advance exactly.
    - [Grpo*] ([rl/algorithm.py], [rl/distributed_grpo.py]): advantages, the
      clipped loss and the update of a group, in exact arithmetic: one update
      applies exactly the loss of the whole group, however the planner splits
      and pads its responses.
    - [PolicyArtifact*] ([rl/checkpoint.py]): what a published policy holds and
      what its activation checks; a published artifact activates.
    - [SftCheckpoint], [SftCheckpointResults], [SftResume]
      ([sft_checkpoint.py]): the ranks' snapshot as a sequence of file operations
      between collectives, any of which can fail or be the last.  A load gives
      every rank exactly its saved state or changes none, and a snapshot whose
      save returned resumes every restarted job.
    - [RLConfig*], [LoraConfig], [ModelConfig] ([rl/config.py],
      [rl/lora_config.py], [models/dsv4/config.py]): configurations as
      dictionaries; the run configurations that are returned are exactly the
      valid ones.
    - [PromptData], [Generate*] ([rl/data.py], [rl/rollout.py]): prompt records,
      token rewards and serial generation, which stops exactly when it should.
    - [ExpertDispatch*] ([dispatch.py]), [MoeDispatch*]
      ([models/dsv4/moe/]): expert-parallel dispatch equals the computation of
      one rank, which in the former raises on a rank without tokens.
    - [RowSharded*] ([models/dsv4/model.py]): a sharded lookup is a lookup in the
      whole table.
    - [NgramHash*] ([NgramHash] of [models/dsv4/model.py]): windows stay in
      their sequence, addresses in the rows of their head, and the prime search
      ends.
    - [Context*] ([cp.py]): shards, halos and windows give every query the keys
      of a single rank; the hand-written backwards are adjoints.
    - [EngramCache*] ([engram_offload.py]): a cached lookup refines the plain one.
    - [EngramState*] ([rl/engram_state.py]): an actor's Engram tables equal the
      learner's at the time its payload was made, and a refused payload changes
      nothing.
    - [OrderedKv] ([models/dsv4/attention/ordered_kv.py] and the stores of
      [sparse_attention.py]): ordered key gradients equal the atomic ones.
    - [CompressedAttention] ([models/dsv4/attention/module.py]): which
      compressed entries a query attends to; none pools a later token when the
      layers have the ratio of their compressor.

    ** Conventions

    An operation that can raise returns [res]; what a shared object keeps after
    an exception is part of the model.  Threads and coroutines are sequences of
    critical sections in any order.  Programs that run on every rank are
    functions of the rank.  Clocks, files that already exist, answers of
    backends, random generators, hashes, tokenizers, [json.loads] and the text
    of floats are parameters or environment values; file operations succeed
    unless the model says otherwise.  Values the kernels would round are
    integers or elements of an abstract monoid, so the equalities are those of
    exact arithmetic.

    ** Fuel

    [Coordinator.run] waits at most as often as there are plans when every wait
    reports a task ([run_returns]).  The prime searches of [NgramHash] take
    fuel; the bound that [ngram_hash_terminates] gives follows from a prime
    between n and n! + 1.  Other loops are structural or follow an explicit
    sequence of environment steps.

    ** Not modelled

    Floating-point numerics over autograd or Triton (attention, hyper-connections,
    policies' log-probabilities, optimisers, quantised weights), because their
    meaning is rounding that the source leaves to the kernels.  FSDP wrapping,
    the vLLM and Ray adapters and the Qwen model, whose behaviour is that of
    libraries outside [src/].  The containers, shell scripts, sealed archives and
    browser pages of the Terminal-Bench harness, whose steps are commands of
    other programs.  Answer rewards and the tokenizer, which rest on the regular
    expressions of Python's engine.  Command lines, reports and analyses, which
    only read and print.  The frozen copy of the native runtime, an earlier
    version of files under [dsv41_train/]. *)

From stdpp Require Export base list strings gmap sorting.
From Stdlib Require Export Ascii ZArith Lia.

(** ** Exceptions and results

    A Python call either returns or raises.  [exn] names the exception classes
    that the modelled code raises or catches; the string is the message. *)

Inductive exn : Type :=
| ValueError (message : string)
| TypeError (message : string)
| KeyError (message : string)
| AttributeError (message : string)
| RuntimeError (message : string)
| TimeoutError (message : string)
| ConflictError (message : string)
| CapacityError (message : string)
| GoneError (message : string)
| OSError (message : string)
| EOFError (message : string)
| OverflowError (message : string)
| IndexError (message : string)
| AssertionError (message : string).

#[export] Instance exn_eq_dec : EqDecision exn.
Proof. solve_decision. Defined.

Inductive res (A : Type) : Type :=
| Ok (value : A)
| Err (error : exn).
Arguments Ok {A} value.
Arguments Err {A} error.

Definition is_ok {A} (r : res A) : bool :=
  match r with Ok _ => true | Err _ => false end.

#[export] Instance res_ret : MRet res := @Ok.
#[export] Instance res_bind : MBind res := fun _ _ f r =>
  match r with Ok a => f a | Err e => Err e end.
#[export] Instance res_fmap : FMap res := fun _ _ f r =>
  match r with Ok a => Ok (f a) | Err e => Err e end.

(** [raise_if b e]: the statement [if b: raise e]. *)
Definition raise_if (b : bool) (e : exn) : res unit :=
  if b then Err e else Ok tt.

Declare Scope py_scope.
Delimit Scope py_scope with py.
Notation "'raise_when' b 'with_exn' e ; k" :=
  (if b then Err e else k)
  (at level 100, b at level 200, e at level 200, k at level 200,
   format "'[v' 'raise_when'  b  'with_exn'  e ; '/' k ']'") : py_scope.
Notation "x '<-?' r ; k" :=
  (match r with Ok x => k | Err e => Err e end)
  (at level 100, r at level 99, k at level 200, right associativity) : py_scope.

(** [traverse f l] runs [f] on the elements in order and stops at the first
    exception, as a Python comprehension does. *)
Fixpoint traverse {A B} (f : A -> res B) (l : list A) : res (list B) :=
  match l with
  | [] => Ok []
  | a :: l' =>
      match f a with
      | Err e => Err e
      | Ok b => match traverse f l' with
                | Err e => Err e
                | Ok bs => Ok (b :: bs)
                end
      end
  end.

(** ** Booleans *)

Ltac destr_bool :=
  repeat match goal with
  | H : (_ && _)%bool = true |- _ => apply andb_prop in H; destruct H
  | H : (_ || _)%bool = false |- _ => apply orb_false_elim in H; destruct H
  | H : negb _ = true |- _ => apply negb_true_iff in H
  | H : negb _ = false |- _ => apply negb_false_iff in H
  | H : bool_decide _ = true |- _ => apply bool_decide_eq_true in H
  | H : bool_decide _ = false |- _ => apply bool_decide_eq_false in H
  | H : (_ <=? _)%Z = true |- _ => apply Z.leb_le in H
  | H : (_ <=? _)%Z = false |- _ => apply Z.leb_gt in H
  | H : (_ <? _)%Z = true |- _ => apply Z.ltb_lt in H
  | H : (_ <? _)%Z = false |- _ => apply Z.ltb_ge in H
  | H : (_ =? _)%Z = true |- _ => apply Z.eqb_eq in H
  | H : (_ =? _)%Z = false |- _ => apply Z.eqb_neq in H
  | H : (_ <=? _)%nat = true |- _ => apply Nat.leb_le in H
  | H : (_ <=? _)%nat = false |- _ => apply Nat.leb_gt in H
  | H : (_ <? _)%nat = true |- _ => apply Nat.ltb_lt in H
  | H : (_ <? _)%nat = false |- _ => apply Nat.ltb_ge in H
  | H : (_ =? _)%nat = true |- _ => apply Nat.eqb_eq in H
  | H : (_ =? _)%nat = false |- _ => apply Nat.eqb_neq in H
  end.

Lemma existsb_false {A} (p : A -> bool) l : existsb p l = false <-> Forall (fun x => p x = false) l.
Proof.
  induction l as [|x l IH]; simpl; [by split|]. rewrite orb_false_iff, Forall_cons, IH. done.
Qed.

(** [res_inv H] walks through a computation that returned: every guard that
    could have raised is refuted and recorded as a hypothesis. *)
Ltac res_inv H :=
  repeat first
  [ discriminate H
  | match type of H with
    | Ok _ = Ok _ => injection H as H
    | context [if ?b then Err _ else _] =>
        let E := fresh "G" in destruct b eqn:E; [discriminate H|]
    | context [match ?r with Ok _ => _ | Err _ => Err _ end] =>
        let E := fresh "R" in destruct r eqn:E; [|discriminate H]
    end ].

(** [d[k]] of an association list. *)
Fixpoint assoc {A B} `{EqDecision A} (k : A) (l : list (A * B)) : option B :=
  match l with [] => None | (x, v) :: l => if bool_decide (k = x) then Some v else assoc k l end.

Section Assoc.
Context {A B : Type} `{EqDecision A}.
Implicit Types (k : A) (v : B) (l : list (A * B)).

Lemma assoc_some k l v : assoc k l = Some v -> (k, v) ∈ l.
Proof. induction l as [|[x w] l IH]; simpl; [done|]. case_bool_decide; [intros [= ->]; subst; by left|right; auto]. Qed.
Lemma assoc_none k l : assoc k l = None <-> k ∉ map fst l.
Proof.
  induction l as [|[x w] l IH]; simpl; [split; [intros _; apply not_elem_of_nil|done]|]. rewrite not_elem_of_cons, <- IH. case_bool_decide; naive_solver.
Qed.
Lemma assoc_in k l v : NoDup (map fst l) -> (k, v) ∈ l -> assoc k l = Some v.
Proof.
  induction l as [|[x w] l IH]; simpl; intros Hn Hin; [by apply elem_of_nil in Hin|]. apply NoDup_cons in Hn as [Hx Hn].
  apply elem_of_cons in Hin as [[= -> ->]|Hin]; [by rewrite bool_decide_eq_true_2|].
  rewrite bool_decide_eq_false_2; [auto|]. intros ->. apply Hx. by apply (list_elem_of_fmap_2 fst _ (x, v)).
Qed.
End Assoc.

(** ** Strings *)

Lemma string_app_nil (t : string) : "" +:+ t = t.
Proof. done. Qed.
Lemma string_app_cons x (s t : string) : String x s +:+ t = String x (s +:+ t).
Proof. done. Qed.
Lemma string_app_length s t : String.length (s +:+ t) = (String.length s + String.length t)%nat.
Proof. induction s as [|x s IH]; [done|]. rewrite string_app_cons. cbn. by rewrite IH. Qed.
Lemma string_app_inj_l s t u : s +:+ u = t +:+ u -> s = t.
Proof.
  revert t; induction s as [|x s IH]; intros [|y t] H; [done| | |].
  - apply (f_equal String.length) in H. rewrite !string_app_length in H. cbn in H. lia.
  - apply (f_equal String.length) in H. rewrite !string_app_length in H. cbn in H. lia.
  - rewrite !string_app_cons in H. injection H as -> H. f_equal. by apply IH.
Qed.

Lemma prefix_self p r : String.prefix p (p +:+ r) = true.
Proof. induction p as [|a p IH]; [by destruct r|]. rewrite string_app_cons. cbn. by destruct (ascii_dec a a). Qed.

Lemma substring_after p r : String.substring (String.length p) (String.length (p +:+ r) - String.length p) (p +:+ r) = r.
Proof.
  induction p as [|a p IH]; [|rewrite string_app_cons; exact IH]. rewrite string_app_nil. cbn. rewrite Nat.sub_0_r. induction r as [|x r IH]; [done|]. cbn. by rewrite IH.
Qed.

(** ** Integer ranges *)

Section Ranges.
Local Open Scope Z_scope.

(** [range(a, b)] *)
Definition range (a b : Z) : list Z := map (fun k => a + Z.of_nat k) (seq 0 (Z.to_nat (b - a))).

Lemma range_length a b : length (range a b) = Z.to_nat (b - a).
Proof. unfold range. by rewrite length_map, length_seq. Qed.

Lemma range_nil a : range a a = [].
Proof. unfold range. by rewrite Z.sub_diag. Qed.

Lemma range_snoc a b : a <= b -> range a (b + 1) = range a b ++ [b].
Proof.
  intros H. unfold range. replace (Z.to_nat (b + 1 - a)) with (S (Z.to_nat (b - a))) by lia.
  rewrite seq_S, map_app. simpl. do 2 f_equal. lia.
Qed.

Lemma range_cons a b : a < b -> range a b = a :: range (a + 1) b.
Proof.
  intros H. unfold range. replace (Z.to_nat (b - a)) with (S (Z.to_nat (b - (a + 1)))) by lia.
  simpl. f_equal; [lia|]. rewrite <- seq_shift, map_map. apply map_ext. intros k. lia.
Qed.

Lemma elem_of_range i a b : i ∈ range a b <-> a <= i < b.
Proof.
  unfold range. rewrite list_elem_of_fmap. split.
  - intros (k & -> & Hk%elem_of_seq). lia.
  - intros H. exists (Z.to_nat (i - a)). rewrite elem_of_seq. lia.
Qed.

Lemma range_app a b d : a <= b <= d -> range a b ++ range b d = range a d.
Proof.
  remember (Z.to_nat (b - a)) as n eqn:Hn. revert a Hn; induction n as [|n IH]; intros a Hn H.
  - replace b with a by lia. by rewrite range_nil.
  - rewrite (range_cons a b), (range_cons a d) by lia. simpl. f_equal. apply IH; lia.
Qed.

Lemma range_sorted a b : StronglySorted (fun x y => Z.leb x y = true) (range a b).
Proof.
  unfold range. generalize 0%nat as s. induction (Z.to_nat (b - a)) as [|n IH]; intros s; simpl; constructor; [apply IH|].
  apply Forall_forall. intros z Hz. apply list_elem_of_fmap in Hz as (k & -> & Hk%elem_of_seq). apply Z.leb_le. lia.
Qed.

Lemma NoDup_range a b : NoDup (range a b).
Proof. unfold range. apply NoDup_fmap_2; [|apply NoDup_seq]. intros x y. lia. Qed.

Lemma last_range a b : a < b -> last (range a b) = Some (b - 1).
Proof.
  intros H. replace b with (b - 1 + 1) at 1 by lia. rewrite range_snoc by lia. by rewrite last_snoc.
Qed.

Lemma drop_range n a b : (n <= Z.to_nat (b - a))%nat -> drop n (range a b) = range (a + Z.of_nat n) b.
Proof.
  revert a; induction n as [|n IH]; intros a Hn; [by rewrite Z.add_0_r|].
  rewrite range_cons by lia. simpl. rewrite IH by lia. f_equal. lia.
Qed.

Lemma take_range n a b : (n <= Z.to_nat (b - a))%nat -> take n (range a b) = range a (a + Z.of_nat n).
Proof.
  revert a; induction n as [|n IH]; intros a Hn; [simpl; by rewrite Z.add_0_r, range_nil|].
  rewrite range_cons by lia. simpl. rewrite IH by lia. rewrite (range_cons a) by lia. do 2 f_equal. lia.
Qed.

End Ranges.

(** ** Python's [sorted]: a stable sort by a boolean preorder on keys *)

Section StableSort.
Context {A : Type} (le : A -> A -> bool).

Fixpoint insert_before (x : A) (l : list A) : list A :=
  match l with
  | [] => [x]
  | y :: l' => if le x y then x :: y :: l' else y :: insert_before x l'
  end.

Definition sorted_by (l : list A) : list A := foldr insert_before [] l.

Lemma insert_before_perm x l : insert_before x l ≡ₚ x :: l.
Proof.
  induction l as [|y l IH]; simpl; [done|].
  destruct (le x y); [done|]. rewrite IH. apply Permutation_swap.
Qed.

Lemma sorted_by_perm l : sorted_by l ≡ₚ l.
Proof.
  induction l as [|x l IH]; simpl; [done|]. by rewrite insert_before_perm, IH.
Qed.

Lemma sorted_by_length l : length (sorted_by l) = length l.
Proof. apply Permutation_length, sorted_by_perm. Qed.

Context (le_total : forall x y, le x y = true \/ le y x = true).
Context (le_trans : forall x y z, le x y = true -> le y z = true -> le x z = true).

Lemma insert_before_sorted x l :
  StronglySorted (fun a b => le a b = true) l ->
  StronglySorted (fun a b => le a b = true) (insert_before x l).
Proof.
  induction 1 as [|y l Hl IH Hy]; simpl; [by repeat constructor|].
  destruct (le x y) eqn:E.
  - constructor; [by constructor|]. constructor; [done|].
    eapply Forall_impl; [exact Hy|]. intros z Hz. by eapply le_trans.
  - constructor; [done|]. rewrite insert_before_perm. constructor; [|done].
    destruct (le_total x y) as [H|H]; congruence.
Qed.

Lemma sorted_by_sorted l :
  StronglySorted (fun a b => le a b = true) (sorted_by l).
Proof. induction l; simpl; [constructor|]. by apply insert_before_sorted. Qed.
End StableSort.

(** A list that is already in order is left alone. *)
Lemma sorted_by_id {A} (le : A -> A -> bool) l :
  StronglySorted (fun a b => le a b = true) l -> sorted_by le l = l.
Proof.
  induction 1 as [|x l Hl IH Hx]; simpl; [done|]. rewrite IH.
  destruct l as [|y l]; simpl; [done|].
  inversion Hx as [|?? Hxy]; subst. by rewrite Hxy.
Qed.

(** ** Strings *)

(** [py_split c s] is Python's [s.split(c)] for a one-character separator. *)
Fixpoint py_split (c : Ascii.ascii) (s : string) : list string :=
  match s with
  | EmptyString => [""]
  | String a s' =>
      if Ascii.eqb a c then "" :: py_split c s'
      else match py_split c s' with
           | [] => [String a ""]
           | w :: ws => String a w :: ws
           end
  end.

Definition is_digit (a : Ascii.ascii) : bool :=
  let n := Ascii.nat_of_ascii a in (48 <=? n)%nat && (n <=? 57)%nat.

Definition string_forall (p : Ascii.ascii -> bool) (s : string) : bool :=
  forallb p (String.list_ascii_of_string s).

(** [int(s)] for a nonempty string of ASCII decimal digits. *)
Fixpoint digits_value (acc : Z) (s : string) : Z :=
  match s with
  | EmptyString => acc
  | String a s' => digits_value (acc * 10 + Z.of_nat (Ascii.nat_of_ascii a - 48)) s'
  end.

Definition decimal_string (s : string) : bool :=
  negb (bool_decide (s = "")) && string_forall is_digit s.

(** ** Lists and ranges *)

Definition list_sum_Z (l : list Z) : Z := foldr Z.add 0%Z l.

Lemma list_sum_Z_app l k : list_sum_Z (l ++ k) = (list_sum_Z l + list_sum_Z k)%Z.
Proof. induction l; simpl; [done|]. rewrite IHl. lia. Qed.

#[export] Instance list_sum_Z_proper : Proper ((≡ₚ) ==> (=)) list_sum_Z.
Proof. induction 1; simpl; lia. Qed.

Lemma list_sum_Z_cons x l : list_sum_Z (x :: l) = (x + list_sum_Z l)%Z.
Proof. done. Qed.

Lemma list_sum_Z_nil : list_sum_Z [] = 0%Z.
Proof. done. Qed.

Arguments list_sum_Z : simpl never.

(** All elements pairwise distinct: Python's [len(set(l)) == len(l)]. *)
Definition distinct {A} `{EqDecision A} (l : list A) : bool := bool_decide (NoDup l).

Create HintDb pylib.
#[export] Hint Resolve sorted_by_perm sorted_by_length : pylib.
