(* ===== verification/LearnerPlanner.v ===== *)
(** * Learner batch planner ([dsv41_train/rl/learner_batch_planner.py])

    The distributed learner packs the responses of one group into physical
    microbatches.  [parse_learner_batch_shapes] reads the operator's list of
    qualified B:T cells, [plan_learner_microbatches] covers every response
    exactly once with batches that stay inside a qualified cell. *)

From S2P Require Import Prelude.
Local Open Scope Z_scope.
Local Open Scope py_scope.

(** A cell [{"max_batch_size": B, "max_model_input_tokens": T}]. *)
Record cell := Cell { max_batch_size : Z; max_model_input_tokens : Z }.

#[export] Instance cell_eq_dec : EqDecision cell.
Proof. solve_decision. Defined.

(** One planned microbatch: the original response indices and the cell that
    qualifies it ([None] for the fixed-size plan). *)
Record microbatch := Microbatch {
  response_indices : list nat;
  qualified_shape_cell : option cell }.

(** ** Reading the qualified shapes *)

Definition shapes_syntax_error : exn :=
  ValueError "learner batch shapes require comma-separated integer B:T cells".

Definition cell_in_bounds (width tokens : Z) : bool :=
  (1 <=? width) && (width <=? 32) && (1 <=? tokens) && (tokens <=? 2047).

(** One [item] of [text.split(",")]; [cells] are the cells read so far. *)
Definition parse_cell (cells : list cell) (item : string) : res (list cell) :=
  match py_split ":"%char item with
  | [w; t] =>
      raise_when negb (decimal_string w && decimal_string t) with_exn shapes_syntax_error;
      let width := digits_value 0 w in
      let tokens := digits_value 0 t in
      raise_when negb (cell_in_bounds width tokens) with_exn
        ValueError "learner batch shape bounds must be B1..32:T1..2047";
      raise_when bool_decide (Cell width tokens ∈ cells) with_exn
        ValueError "duplicate learner batch shape cell";
      Ok (cells ++ [Cell width tokens])
  | _ => Err shapes_syntax_error
  end.

Fixpoint parse_cells (cells : list cell) (items : list string) : res (list cell) :=
  match items with
  | [] => Ok cells
  | item :: rest => cells' <-? parse_cell cells item; parse_cells cells' rest
  end.

(** The sort key [(max_batch_size, max_model_input_tokens)]. *)
Definition cell_le (a b : cell) : bool :=
  (max_batch_size a <? max_batch_size b)
  || ((max_batch_size a =? max_batch_size b)
      && (max_model_input_tokens a <=? max_model_input_tokens b)).

Definition parse_learner_batch_shapes (text : option string) : res (option (list cell)) :=
  match text with
  | None => Ok None
  | Some text =>
      raise_when bool_decide (text = "") with_exn shapes_syntax_error;
      cells <-? parse_cells [] (py_split ","%char text);
      Ok (Some (sorted_by cell_le cells))
  end.

(** ** Planning *)

Definition length_of (input_lengths : list Z) (i : nat) : Z := input_lengths !!! i.

(** [range(start, min(start + fixed_size, n))] for [start] in
    [range(0, n, fixed_size)]; [fuel] bounds the number of steps of the outer
    range, of which there are at most [n]. *)
Fixpoint fixed_plan (fuel start size n : nat) : list microbatch :=
  match fuel with
  | O => []
  | S fuel =>
      if (start <? n)%nat
      then Microbatch (seq start (Nat.min (start + size) n - start)) None
           :: fixed_plan fuel (start + size)%nat size n
      else []
  end.

(** The [while count < B and ... and length <= T] loop over the remaining
    responses of the sorted order. *)
Fixpoint fit_count (budget : nat) (tokens : Z) (lens : list Z) : nat :=
  match budget, lens with
  | S budget, n :: lens => if n <=? tokens then S (fit_count budget tokens lens) else O
  | _, _ => O
  end.

(** The rows [(count, cell)] with a positive count. *)
Definition candidates (shapes : list cell) (lens : list Z) : list (nat * cell) :=
  omap (fun c =>
          let count := fit_count (Z.to_nat (max_batch_size c)) (max_model_input_tokens c) lens in
          if (0 <? count)%nat then Some (count, c) else None) shapes.

(** Strictly smaller key [(-count, T, B)]. *)
Definition row_lt (a b : nat * cell) : bool :=
  (b.1 <? a.1)%nat
  || ((a.1 =? b.1)%nat
      && ((max_model_input_tokens a.2 <? max_model_input_tokens b.2)
          || ((max_model_input_tokens a.2 =? max_model_input_tokens b.2)
              && (max_batch_size a.2 <? max_batch_size b.2)))).

(** Python's [min]: the first row of least key. *)
Fixpoint min_row (best : nat * cell) (rows : list (nat * cell)) : nat * cell :=
  match rows with
  | [] => best
  | r :: rows => min_row (if row_lt r best then r else best) rows
  end.

(** [while cursor < len(order)]: [order] is the unplanned suffix.  Each pass
    consumes at least one response, so [length order] passes are enough. *)
Fixpoint pack (fuel : nat) (input_lengths : list Z) (shapes : list cell) (order : list nat)
  : res (list microbatch) :=
  match order with
  | [] => Ok []
  | _ :: _ =>
      match fuel with
      | O => Err (RuntimeError "out of fuel")
      | S fuel =>
          match candidates shapes (map (length_of input_lengths) order) with
          | [] => Err (ValueError "min() arg is an empty sequence")
          | row :: rows =>
              let best := min_row row rows in
              rest <-? pack fuel input_lengths shapes (drop best.1 order);
              Ok (Microbatch (take best.1 order) (Some best.2) :: rest)
          end
      end
  end.

Definition index_le (input_lengths : list Z) (i j : nat) : bool :=
  (length_of input_lengths i <? length_of input_lengths j)
  || ((length_of input_lengths i =? length_of input_lengths j) && (i <=? j)%nat).

Definition covered (shapes : list cell) (n : Z) : bool :=
  existsb (fun c => n <=? max_model_input_tokens c) shapes.

Definition plan_learner_microbatches (input_lengths : list Z) (fixed_size : Z)
    (shapes : option (list cell)) : res (list microbatch) :=
  raise_when negb ((1 <=? fixed_size) && (fixed_size <=? 32))
             || bool_decide (input_lengths = [])
             || negb (forallb (fun n => (1 <=? n) && (n <=? 2047)) input_lengths) with_exn
    ValueError "learner planner requires physical B1..32 and nonempty input lengths1..2047";
  match shapes with
  | None =>
      let n := length input_lengths in
      Ok (fixed_plan n 0 (Z.to_nat fixed_size) n)
  | Some shapes =>
      raise_when bool_decide (shapes = [])
                 || negb (forallb (fun c => cell_in_bounds (max_batch_size c)
                                              (max_model_input_tokens c)) shapes) with_exn
        ValueError "learner planner requires explicit qualified B:T cells";
      raise_when negb (forallb (covered shapes) input_lengths) with_exn
        ValueError "qualified learner batch shapes do not cover every actual response length";
      let order := sorted_by (index_le input_lengths) (seq 0 (length input_lengths)) in
      pack (length order) input_lengths shapes order
  end.

(** ** The abstract promise of a plan *)

(** Every response index is planned exactly once. *)
Definition covers_once (n : nat) (plan : list microbatch) : Prop :=
  concat (map response_indices plan) ≡ₚ seq 0 n.

(** A microbatch stays inside the cell it names, which is one of [shapes]. *)
Definition within_cell (input_lengths : list Z) (shapes : list cell) (b : microbatch) : Prop :=
  exists c, qualified_shape_cell b = Some c /\ c ∈ shapes
    /\ (0 < length (response_indices b))%nat
    /\ Z.of_nat (length (response_indices b)) <= max_batch_size c
    /\ Forall (fun i => length_of input_lengths i <= max_model_input_tokens c)
              (response_indices b).

(** ** Lemmas *)

Lemma fit_count_le_budget budget tokens lens :
  (fit_count budget tokens lens <= budget)%nat.
Proof. revert lens; induction budget as [|b IH]; intros [|n lens]; simpl; try lia.
  destruct (n <=? tokens); [|lia]. specialize (IH lens). lia. Qed.

Lemma fit_count_le_length budget tokens lens :
  (fit_count budget tokens lens <= length lens)%nat.
Proof. revert lens; induction budget as [|b IH]; intros [|n lens]; simpl; try lia.
  destruct (n <=? tokens); [|lia]. specialize (IH lens). lia. Qed.

Lemma fit_count_fits budget tokens lens :
  Forall (fun n => n <= tokens) (take (fit_count budget tokens lens) lens).
Proof.
  revert lens; induction budget as [|b IH]; intros [|n lens]; simpl; try constructor.
  destruct (n <=? tokens) eqn:E; destr_bool; simpl; constructor; auto.
Qed.

Lemma min_row_elem best rows : min_row best rows ∈ best :: rows.
Proof.
  revert best; induction rows as [|r rows IH]; intros best; simpl; [set_solver|].
  specialize (IH (if row_lt r best then r else best)).
  destruct (row_lt r best); set_solver.
Qed.

Lemma row_lt_count a b : row_lt a b = true -> (b.1 <= a.1)%nat.
Proof.
  unfold row_lt. intros H. apply orb_true_iff in H as [H|H]; destr_bool; lia.
Qed.

Lemma row_lt_false_count a b : row_lt a b = false -> (a.1 <= b.1)%nat.
Proof. unfold row_lt. intros H. destr_bool. lia. Qed.

(** [min] picks a row of the widest count. *)
Lemma min_row_widest best rows :
  Forall (fun r => (r.1 <= (min_row best rows).1)%nat) (best :: rows).
Proof.
  revert best; induction rows as [|r rows IH]; intros best; simpl.
  - by repeat constructor.
  - specialize (IH (if row_lt r best then r else best)).
    apply Forall_cons in IH as [Hb Hr].
    destruct (row_lt r best) eqn:E.
    + apply row_lt_count in E. repeat constructor; try done; lia.
    + apply row_lt_false_count in E. repeat constructor; try done; lia.
Qed.

Lemma candidates_spec shapes lens row :
  row ∈ candidates shapes lens ->
  row.2 ∈ shapes /\ (0 < row.1)%nat
  /\ row.1 = fit_count (Z.to_nat (max_batch_size row.2)) (max_model_input_tokens row.2) lens.
Proof.
  unfold candidates. intros [c [Hc H]]%list_elem_of_omap.
  destruct (0 <? _)%nat eqn:E; simplify_eq; simpl. destr_bool. auto.
Qed.

(** A covered, in-bounds front response always yields a candidate. *)
Lemma candidates_nonempty shapes n lens :
  forallb (fun c => cell_in_bounds (max_batch_size c) (max_model_input_tokens c)) shapes = true ->
  covered shapes n = true ->
  candidates shapes (n :: lens) <> [].
Proof.
  intros Hb Hc Hnil. unfold covered in Hc.
  apply existsb_exists in Hc as [c [Hin Hle]].
  assert (Hb' : cell_in_bounds (max_batch_size c) (max_model_input_tokens c) = true)
    by (rewrite forallb_forall in Hb; auto).
  unfold cell_in_bounds in Hb'. destr_bool.
  assert (Hrow : (S (fit_count (pred (Z.to_nat (max_batch_size c))) (max_model_input_tokens c) lens), c)
                 ∈ candidates shapes (n :: lens)).
  { unfold candidates. apply list_elem_of_omap. exists c.
    split; [by apply list_elem_of_In|].
    destruct (Z.to_nat (max_batch_size c)) as [|b] eqn:E; [lia|]. simpl.
    destruct (n <=? max_model_input_tokens c) eqn:E'; [done|]. destr_bool; lia. }
  rewrite Hnil in Hrow. set_solver.
Qed.

Section Pack.
Context (input_lengths : list Z) (shapes : list cell).
Context (bounded : forallb (fun c => cell_in_bounds (max_batch_size c)
                                       (max_model_input_tokens c)) shapes = true).

Definition plan_ok (order : list nat) (plan : list microbatch) : Prop :=
  concat (map response_indices plan) = order
  /\ Forall (within_cell input_lengths shapes) plan.

Lemma best_within_cell order row rows :
  candidates shapes (map (length_of input_lengths) order) = row :: rows ->
  let best := min_row row rows in
  (0 < best.1 <= length order)%nat
  /\ within_cell input_lengths shapes (Microbatch (take best.1 order) (Some best.2)).
Proof.
  intros Hcand best. assert (Hin : best ∈ candidates shapes (map (length_of input_lengths) order)).
  { rewrite Hcand. apply min_row_elem. }
  apply candidates_spec in Hin as (Hs & Hpos & Hcount).
  pose proof (fit_count_le_length (Z.to_nat (max_batch_size best.2))
    (max_model_input_tokens best.2) (map (length_of input_lengths) order)) as Hlen.
  rewrite length_map in Hlen.
  pose proof (fit_count_le_budget (Z.to_nat (max_batch_size best.2))
    (max_model_input_tokens best.2) (map (length_of input_lengths) order)) as Hbud.
  pose proof (fit_count_fits (Z.to_nat (max_batch_size best.2))
    (max_model_input_tokens best.2) (map (length_of input_lengths) order)) as Hfit.
  rewrite <- Hcount in *. split; [lia|].
  exists best.2. simpl. rewrite length_take. repeat split; try done; try lia.
  rewrite <- fmap_take in Hfit. by rewrite Forall_fmap in Hfit.
Qed.

Lemma pack_ok fuel order :
  (length order <= fuel)%nat ->
  Forall (fun i => covered shapes (length_of input_lengths i) = true) order ->
  exists plan, pack fuel input_lengths shapes order = Ok plan /\ plan_ok order plan.
Proof.
  revert order; induction fuel as [|fuel IH]; intros order Hlen Hcov.
  - destruct order; [|simpl in Hlen; lia]. exists []. by repeat split.
  - destruct order as [|i order]; [exists []; by repeat split|].
    apply Forall_cons in Hcov as Hcov'. destruct Hcov' as [Hi _]. simpl pack.
    destruct (candidates shapes _) as [|row rows] eqn:Hcand.
    { exfalso. by eapply candidates_nonempty in Hi. }
    change (length_of input_lengths i :: map (length_of input_lengths) order)
      with (map (length_of input_lengths) (i :: order)) in Hcand.
    destruct (best_within_cell _ _ _ Hcand) as [Hpos Hcell].
    set (best := min_row row rows) in *.
    destruct (IH (drop best.1 (i :: order))) as [plan [-> [Hc Hf]]].
    + rewrite length_drop. simpl in *. lia.
    + by apply Forall_drop.
    + eexists. split; [done|]. split.
      * simpl. rewrite Hc. apply take_drop.
      * by constructor.
Qed.
End Pack.

Lemma index_le_total lens i j : index_le lens i j = true \/ index_le lens j i = true.
Proof.
  unfold index_le.
  destruct (Z.lt_trichotomy (length_of lens i) (length_of lens j)) as [H|[H|H]].
  - left. apply orb_true_iff; left. by apply Z.ltb_lt.
  - rewrite H, Z.ltb_irrefl, Z.eqb_refl. simpl. rewrite !Nat.leb_le. lia.
  - right. apply orb_true_iff; left. by apply Z.ltb_lt.
Qed.

Lemma fixed_plan_covers fuel start size n :
  (0 < size)%nat -> (start <= n)%nat -> (n - start <= fuel)%nat ->
  concat (map response_indices (fixed_plan fuel start size n)) = seq start (n - start).
Proof.
  intros Hsize. revert start; induction fuel as [|fuel IH]; intros start Hle Hfuel; simpl.
  - by replace (n - start)%nat with 0%nat by lia.
  - destruct (start <? n)%nat eqn:E; destr_bool.
    + simpl. destruct (decide (start + size <= n)%nat).
      * rewrite IH by lia. rewrite Nat.min_l by lia.
        replace (n - start)%nat with (size + (n - (start + size)))%nat by lia.
        rewrite seq_app. f_equal. f_equal. lia.
      * rewrite Nat.min_r by lia.
        replace (fixed_plan fuel (start + size) size n) with (@nil microbatch).
        { simpl. by rewrite app_nil_r. }
        destruct fuel; simpl; [done|].
        by rewrite (proj2 (Nat.ltb_ge _ _)) by lia.
    + by replace (n - start)%nat with 0%nat by lia.
Qed.

Lemma fixed_plan_width fuel start size n :
  Forall (fun b => (length (response_indices b) <= size)%nat /\ qualified_shape_cell b = None)
         (fixed_plan fuel start size n).
Proof.
  revert start; induction fuel as [|fuel IH]; intros start; simpl; [constructor|].
  destruct (start <? n)%nat; [|constructor]. constructor; [|apply IH].
  simpl. rewrite length_seq. split; [lia|done].
Qed.

(** The widest count any cell reaches on the remaining responses. *)
Definition widest (input_lengths : list Z) (shapes : list cell) (order : list nat) (width : nat) : Prop :=
  Forall (fun c => (fit_count (Z.to_nat (max_batch_size c)) (max_model_input_tokens c)
                      (map (length_of input_lengths) order) <= width)%nat) shapes.

(** Each batch of [plan] is as wide as the cells allow on what was left. *)
Fixpoint greedy (input_lengths : list Z) (shapes : list cell) (order : list nat)
    (plan : list microbatch) : Prop :=
  match plan with
  | [] => order = []
  | b :: plan =>
      widest input_lengths shapes order (length (response_indices b))
      /\ greedy input_lengths shapes (drop (length (response_indices b)) order) plan
  end.

Lemma candidates_widest shapes lens row rows :
  candidates shapes lens = row :: rows ->
  Forall (fun c => (fit_count (Z.to_nat (max_batch_size c)) (max_model_input_tokens c) lens
                    <= (min_row row rows).1)%nat) shapes.
Proof.
  intros Hcand. apply Forall_forall. intros c Hc.
  destruct (decide (0 < fit_count (Z.to_nat (max_batch_size c)) (max_model_input_tokens c) lens)%nat)
    as [Hp|Hp]; [|lia].
  assert (Hrow : (fit_count (Z.to_nat (max_batch_size c)) (max_model_input_tokens c) lens, c)
                 ∈ candidates shapes lens).
  { unfold candidates. apply list_elem_of_omap. exists c. split; [done|].
    apply Nat.ltb_lt in Hp. simpl in *. by rewrite Hp. }
  rewrite Hcand in Hrow. pose proof (min_row_widest row rows) as Hw.
  rewrite Forall_forall in Hw. exact (Hw _ Hrow).
Qed.

Lemma pack_greedy fuel lens shapes order plan :
  pack fuel lens shapes order = Ok plan -> greedy lens shapes order plan.
Proof.
  revert order plan; induction fuel as [|fuel IH]; intros [|i order] plan H;
    try (simpl in H; simplify_eq; done).
  simpl in H. destruct (candidates shapes _) as [|row rows] eqn:Hcand; [done|].
  destruct (pack fuel lens shapes _) as [rest|] eqn:Hrest; [|done]. injection H as <-.
  set (best := min_row row rows) in *.
  assert (Hlen : length (take best.1 (i :: order)) = best.1).
  { rewrite length_take. assert (Hin : best ∈ candidates shapes (length_of lens i :: map (length_of lens) order)).
    { rewrite Hcand. apply min_row_elem. }
    apply candidates_spec in Hin as (_ & _ & ->).
    match goal with |- Nat.min (fit_count ?b ?t ?l) _ = _ => pose proof (fit_count_le_length b t l) end.
    simpl in *. rewrite length_map in *. lia. }
  simpl greedy. rewrite Hlen. split.
  - unfold widest. by apply candidates_widest.
  - by apply IH.
Qed.

Lemma parse_cell_inv cells item cells' :
  parse_cell cells item = Ok cells' ->
  exists c, cells' = cells ++ [c] /\ c ∉ cells
    /\ cell_in_bounds (max_batch_size c) (max_model_input_tokens c) = true.
Proof.
  unfold parse_cell. destruct (py_split _ item) as [|w [|t [|]]]; try done.
  intros H. res_inv H. destr_bool. subst. eexists. repeat split; done.
Qed.

Lemma parse_cells_inv cells items cells' :
  parse_cells cells items = Ok cells' ->
  NoDup cells ->
  forallb (fun c => cell_in_bounds (max_batch_size c) (max_model_input_tokens c)) cells = true ->
  NoDup cells' /\ (length cells' = length cells + length items)%nat
  /\ forallb (fun c => cell_in_bounds (max_batch_size c) (max_model_input_tokens c)) cells' = true.
Proof.
  revert cells; induction items as [|item items IH]; intros cells H Hnd Hb; simpl in H.
  - injection H as <-. simpl. split_and!; [done|lia|done].
  - destruct (parse_cell cells item) as [mid|] eqn:E; [|done].
    apply parse_cell_inv in E as (c & -> & Hc & Hcb).
    destruct (IH _ H) as (? & Hl & ?).
    + apply NoDup_app. split_and!; [done| |apply NoDup_singleton]. set_solver.
    + rewrite forallb_app, Hb. simpl. by rewrite Hcb.
    + rewrite length_app in Hl. simpl in *. split_and!; [done|lia|done].
Qed.

(** ** Properties *)

(** Planning with qualified cells is total once the guards pass: the plan
    exists, covers every response index exactly once, and every microbatch
    stays within the width and token ceiling of one of the supplied cells. *)
Theorem plan_qualified_total input_lengths fixed_size shapes :
  1 <= fixed_size <= 32 -> input_lengths <> [] ->
  forallb (fun n => (1 <=? n) && (n <=? 2047)) input_lengths = true ->
  shapes <> [] ->
  forallb (fun c => cell_in_bounds (max_batch_size c) (max_model_input_tokens c)) shapes = true ->
  forallb (covered shapes) input_lengths = true ->
  exists plan, plan_learner_microbatches input_lengths fixed_size (Some shapes) = Ok plan
    /\ covers_once (length input_lengths) plan
    /\ Forall (within_cell input_lengths shapes) plan
    /\ greedy input_lengths shapes
         (sorted_by (index_le input_lengths) (seq 0 (length input_lengths))) plan.
Proof.
  intros Hfixed Hne Hlens Hshapes Hbounds Hcov.
  unfold plan_learner_microbatches. rewrite Hlens, Hbounds, Hcov.
  rewrite (proj2 (Z.leb_le 1 fixed_size)), (proj2 (Z.leb_le fixed_size 32)) by lia.
  rewrite !bool_decide_eq_false_2 by done. simpl.
  set (order := sorted_by (index_le input_lengths) (seq 0 (length input_lengths))).
  assert (Hperm : order ≡ₚ seq 0 (length input_lengths)) by apply sorted_by_perm.
  destruct (pack_ok input_lengths shapes Hbounds (length order) order) as [plan [Hp [Hc Hf]]].
  - lia.
  - rewrite Hperm. apply Forall_forall. intros i Hi. apply elem_of_seq in Hi.
    rewrite forallb_forall in Hcov. apply Hcov.
    unfold length_of. apply list_elem_of_In, list_elem_of_lookup_total. exists i. split; [lia|done].
  - exists plan. rewrite Hp. split_and!; try done.
    + unfold covers_once. by rewrite Hc.
    + by eapply pack_greedy.
Qed.

Lemma plan_qualified_total_witness :
  exists plan, plan_learner_microbatches [300; 10; 20; 900] 4 (Some [Cell 2 1000; Cell 8 400]) = Ok plan
    /\ covers_once 4 plan /\ Forall (within_cell [300; 10; 20; 900] [Cell 2 1000; Cell 8 400]) plan
    /\ greedy [300; 10; 20; 900] [Cell 2 1000; Cell 8 400]
         (sorted_by (index_le [300; 10; 20; 900]) (seq 0 4)) plan.
Proof.
  apply (plan_qualified_total [300; 10; 20; 900] 4 [Cell 2 1000; Cell 8 400]);
    first [lia | done | reflexivity].
Defined.

(** A length that no qualified cell covers is rejected before planning:
    with valid arguments the planner returns exactly when every length is
    covered, and otherwise raises [ValueError]. *)
Theorem plan_rejects_uncovered input_lengths fixed_size shapes :
  1 <= fixed_size <= 32 -> input_lengths <> [] ->
  forallb (fun n => (1 <=? n) && (n <=? 2047)) input_lengths = true ->
  shapes <> [] ->
  forallb (fun c => cell_in_bounds (max_batch_size c) (max_model_input_tokens c)) shapes = true ->
  forallb (covered shapes) input_lengths = false ->
  plan_learner_microbatches input_lengths fixed_size (Some shapes)
  = Err (ValueError "qualified learner batch shapes do not cover every actual response length").
Proof.
  intros Hfixed Hne Hlens Hshapes Hbounds Hcov.
  unfold plan_learner_microbatches. rewrite Hlens, Hbounds, Hcov.
  rewrite (proj2 (Z.leb_le 1 fixed_size)), (proj2 (Z.leb_le fixed_size 32)) by lia.
  by rewrite !bool_decide_eq_false_2.
Qed.

Lemma plan_rejects_uncovered_witness :
  plan_learner_microbatches [300; 1500] 4 (Some [Cell 2 1000]) 
  = Err (ValueError "qualified learner batch shapes do not cover every actual response length").
Proof. apply plan_rejects_uncovered; first [lia | done | reflexivity]. Defined.

(** Reading the operator's cells: a successful parse yields distinct cells,
    each inside B1..32:T1..2047, ordered by width and then token ceiling. *)
Theorem parse_shapes_sound text cells :
  parse_learner_batch_shapes (Some text) = Ok (Some cells) ->
  NoDup cells
  /\ forallb (fun c => cell_in_bounds (max_batch_size c) (max_model_input_tokens c)) cells = true
  /\ StronglySorted (fun a b => cell_le a b = true) cells
  /\ length cells = length (py_split ","%char text).
Proof.
  unfold parse_learner_batch_shapes. intros H. res_inv H. subst.
  destruct (parse_cells_inv _ _ _ R) as (Hnd & Hlen & Hb); [constructor|done|].
  split_and!.
  - by rewrite sorted_by_perm.
  - rewrite forallb_forall in *. intros c Hc. apply Hb.
    apply list_elem_of_In. rewrite <- (sorted_by_perm cell_le value). by apply list_elem_of_In.
  - apply sorted_by_sorted; unfold cell_le.
    + intros [a b] [c d]; simpl.
      destruct (Z.lt_trichotomy a c) as [?|[->|?]];
        rewrite ?Z.ltb_irrefl, ?Z.eqb_refl; simpl;
        repeat match goal with |- context [?x <? ?y] => destruct (Z.ltb_spec x y) end;
        repeat match goal with |- context [?x <=? ?y] => destruct (Z.leb_spec x y) end;
        simpl; auto; lia.
    + intros [a b] [c d] [e f]; simpl. rewrite !orb_true_iff, !andb_true_iff, !Z.ltb_lt, !Z.eqb_eq, !Z.leb_le. lia.
  - rewrite sorted_by_length. simpl in Hlen. lia.
Qed.

Lemma parse_shapes_sound_witness :
  parse_learner_batch_shapes (Some "8:1023,4:2047") = Ok (Some [Cell 4 2047; Cell 8 1023])
  /\ NoDup [Cell 4 2047; Cell 8 1023].
Proof.
  assert (H : parse_learner_batch_shapes (Some "8:1023,4:2047") = Ok (Some [Cell 4 2047; Cell 8 1023]))
    by reflexivity.
  split; [exact H|]. exact (proj1 (parse_shapes_sound _ _ H)).
Defined.
