(* ===== verification/PyValue.v ===== *)
(** * Python values

    The JSON-like data that crosses the rollout manager's boundaries: receipts,
    request states, serialised records.  Dictionaries keep insertion order and
    have string keys.  A finite double is an exact multiple of 2^-1074, so
    [FFin n] stands for [n * 2^-1074] and comparisons with integers are exact;
    a float also carries the text [repr] gives it. *)

From stdpp Require Import pretty.
From S2P Require Import Prelude.
Local Open Scope Z_scope.

Inductive fval : Type :=
| FNan
| FInf (negative : bool)
| FFin (units : Z).

#[export] Instance fval_eq_dec : EqDecision fval.
Proof. solve_decision. Defined.

Record pyfloat := PyFloat { float_text : string; float_value : fval }.

Inductive pyval : Type :=
| PNone
| PBool (b : bool)
| PInt (z : Z)
| PFloat (f : pyfloat)
| PStr (s : string)
| PList (l : list pyval)
| PDict (items : list (string * pyval)).

(** The items of a dictionary, in insertion order. *)
Abbreviation pydict := (list (string * pyval)).

(** Induction that reaches inside lists and dictionaries. *)
Section PyvalInd.
Context (P : pyval -> Prop).
Context (P_none : P PNone) (P_bool : forall b, P (PBool b)) (P_int : forall z, P (PInt z))
  (P_float : forall f, P (PFloat f)) (P_str : forall s, P (PStr s))
  (P_list : forall l, Forall P l -> P (PList l))
  (P_dict : forall d, Forall (fun kv => P kv.2) d -> P (PDict d)).

Fixpoint pyval_rect_nested (v : pyval) : P v :=
  match v with
  | PNone => P_none
  | PBool b => P_bool b
  | PInt z => P_int z
  | PFloat f => P_float f
  | PStr s => P_str s
  | PList l => P_list l
      ((fix go l : Forall P l :=
          match l with
          | [] => Forall_nil_2 _
          | x :: l => Forall_cons_2 _ _ _ (pyval_rect_nested x) (go l)
          end) l)
  | PDict d => P_dict d
      ((fix go (d : list (string * pyval)) : Forall (fun kv => P kv.2) d :=
          match d with
          | [] => Forall_nil_2 _
          | kv :: d => Forall_cons_2 _ _ _ (pyval_rect_nested kv.2) (go d)
          end) d)
  end.
End PyvalInd.

(** ** Numbers *)

(** 1.0 in units of 2^-1074. *)
Definition float_unit : Z := 2 ^ 1074.
Arguments float_unit : simpl never.

(** The numeric value of an [int], [bool] or [float]. *)
Definition number (v : pyval) : option fval :=
  match v with
  | PBool b => Some (FFin (if b then float_unit else 0))
  | PInt z => Some (FFin (z * float_unit))
  | PFloat f => Some (float_value f)
  | _ => None
  end.

(** [==] on numbers: a NaN differs from everything. *)
Definition fval_eqb (a b : fval) : bool :=
  match a, b with
  | FFin m, FFin n => m =? n
  | FInf a, FInf b => Bool.eqb a b
  | _, _ => false
  end.

(** [type(v) is int]: a [bool] is not one. *)
Definition is_int (v : pyval) : option Z :=
  match v with PInt z => Some z | _ => None end.

(** [type(v) in (int, float)], with its exact value. *)
Definition strict_number (v : pyval) : option fval :=
  match v with PInt _ | PFloat _ => number v | _ => None end.

(** [math.isfinite], as the units of the value. *)
Definition finite_units (f : fval) : option Z :=
  match f with FFin n => Some n | _ => None end.

(** ** Dictionaries *)

Fixpoint dict_get (k : string) (d : list (string * pyval)) : option pyval :=
  match d with
  | [] => None
  | (k', v) :: d => if bool_decide (k = k') then Some v else dict_get k d
  end.

(** [d.get(k)] is [None] when the key is absent. *)
Definition get_none (k : string) (d : list (string * pyval)) : pyval :=
  default PNone (dict_get k d).

Definition dict_keys (d : list (string * pyval)) : list string := map fst d.

(** [d[k]] *)
Definition dict_item (k : string) (d : list (string * pyval)) : res pyval :=
  match dict_get k d with Some v => Ok v | None => Err (KeyError k) end.

(** [d[k] = v]: in place when the key exists, else at the end. *)
Fixpoint dict_set (k : string) (v : pyval) (d : list (string * pyval)) : list (string * pyval) :=
  match d with
  | [] => [(k, v)]
  | (k', w) :: d => if bool_decide (k = k') then (k', v) :: d else (k', w) :: dict_set k v d
  end.

(** [set(d) == {...}] for a dictionary with distinct keys. *)
Definition same_keys (d : list (string * pyval)) (names : list string) : bool :=
  forallb (fun k => bool_decide (k ∈ names)) (dict_keys d)
  && forallb (fun k => bool_decide (k ∈ dict_keys d)) names.

(** ** Equality and truth *)

Fixpoint py_eqb (a b : pyval) {struct a} : bool :=
  match a, b with
  | PNone, PNone => true
  | PStr s, PStr t => bool_decide (s = t)
  | PList l, PList k =>
      (fix go (l k : list pyval) : bool :=
         match l, k with
         | [], [] => true
         | x :: l, y :: k => py_eqb x y && go l k
         | _, _ => false
         end) l k
  | PDict d, PDict e =>
      (length d =? length e)%nat
      && (fix go (d : list (string * pyval)) : bool :=
            match d with
            | [] => true
            | (k, v) :: d =>
                match dict_get k e with Some w => py_eqb v w | None => false end && go d
            end) d
  | _, _ => match number a, number b with
            | Some x, Some y => fval_eqb x y
            | _, _ => false
            end
  end.

Definition py_truthy (v : pyval) : bool :=
  match v with
  | PNone => false
  | PBool b => b
  | PInt z => negb (z =? 0)
  | PFloat f => match float_value f with FFin n => negb (n =? 0) | _ => true end
  | PStr s => negb (bool_decide (s = ""))
  | PList l => negb (length l =? 0)%nat
  | PDict d => negb (length d =? 0)%nat
  end.

(** [v is True], [v is False] *)
Definition is_true (v : pyval) : bool := match v with PBool true => true | _ => false end.
Definition is_false (v : pyval) : bool := match v with PBool false => true | _ => false end.
Definition is_none (v : pyval) : bool := match v with PNone => true | _ => false end.
Definition is_str (v : pyval) (s : string) : bool :=
  match v with PStr t => bool_decide (t = s) | _ => false end.

(** ** [str] and [repr] *)

Definition ascii_lower (a : ascii) : ascii :=
  let n := nat_of_ascii a in
  if (65 <=? n)%nat && (n <=? 90)%nat then ascii_of_nat (n + 32) else a.

Fixpoint string_map (f : ascii -> ascii) (s : string) : string :=
  match s with EmptyString => EmptyString | String a s => String (f a) (string_map f s) end.

Definition py_lower : string -> string := string_map ascii_lower.

Fixpoint contains (sub s : string) : bool :=
  String.prefix sub s || match s with EmptyString => false | String _ s => contains sub s end.

Definition hex_digit (n : nat) : ascii :=
  ascii_of_nat (if (n <? 10)%nat then 48 + n else 87 + n).

Definition repr_char (quote a : ascii) : string :=
  let n := nat_of_ascii a in
  if Ascii.eqb a quote || (n =? 92)%nat then String "\" (String a "")
  else if (n =? 10)%nat then "\n" else if (n =? 13)%nat then "\r" else if (n =? 9)%nat then "\t"
  else if (n <? 32)%nat || ((127 <=? n)%nat && (n <=? 160)%nat) || (n =? 173)%nat
  then String "\" (String "x" (String (hex_digit (n / 16)) (String (hex_digit (n mod 16)) "")))
  else String a "".

(** [repr] of a string: single quotes unless it holds one and no double quote. *)
Definition repr_str (s : string) : string :=
  let chars := String.list_ascii_of_string s in
  let squote := ascii_of_nat 39 in
  let dquote := ascii_of_nat 34 in
  let quote := if existsb (Ascii.eqb squote) chars && negb (existsb (Ascii.eqb dquote) chars)
               then dquote else squote in
  String quote (String.concat "" (map (repr_char quote) chars) +:+ String quote "").

Fixpoint py_repr (v : pyval) : string :=
  match v with
  | PNone => "None"
  | PBool true => "True"
  | PBool false => "False"
  | PInt z => pretty z
  | PFloat f => float_text f
  | PStr s => repr_str s
  | PList l => "[" +:+ String.concat ", " (map py_repr l) +:+ "]"
  | PDict d =>
      "{" +:+ String.concat ", "
        (map (fun kv => repr_str kv.1 +:+ ": " +:+ py_repr kv.2) d) +:+ "}"
  end.

Definition py_str (v : pyval) : string :=
  match v with PStr s => s | _ => py_repr v end.

(** [json.dumps(..., allow_nan=False)] succeeds. *)
Fixpoint json_finite (v : pyval) : bool :=
  match v with
  | PFloat f => match float_value f with FFin _ => true | _ => false end
  | PList l => forallb json_finite l
  | PDict d => forallb (fun kv => json_finite kv.2) d
  | _ => true
  end.

(** ** Lemmas *)

Lemma dict_get_app k d e :
  dict_get k (d ++ e) = match dict_get k d with Some v => Some v | None => dict_get k e end.
Proof.
  induction d as [|[k' v] d IH]; simpl; [done|]. by case_bool_decide.
Qed.

Lemma dict_get_set k k' v d : dict_get k (dict_set k' v d) = if bool_decide (k = k') then Some v else dict_get k d.
Proof.
  induction d as [|[k0 w] d IH]; simpl.
  - done.
  - destruct (decide (k' = k0)) as [<-|Hne].
    + rewrite (bool_decide_eq_true_2 (k' = k')) by done. simpl. by destruct (bool_decide (k = k')).
    + rewrite (bool_decide_eq_false_2 (k' = k0)) by done. simpl. destruct (decide (k = k0)) as [->|Hk].
      * rewrite (bool_decide_eq_true_2 (k0 = k0)) by done. rewrite bool_decide_eq_false_2; [done|congruence].
      * by rewrite (bool_decide_eq_false_2 (k = k0)), IH.
Qed.

Lemma dict_get_Some_keys k d v : dict_get k d = Some v -> k ∈ dict_keys d.
Proof.
  induction d as [|[k' w] d IH]; simpl; [done|].
  case_bool_decide; [subst; set_solver|]. intros H'. apply IH in H'. set_solver.
Qed.

Lemma dict_get_None_keys k d : dict_get k d = None <-> k ∉ dict_keys d.
Proof.
  induction d as [|[k' w] d IH]; simpl; [set_solver|].
  case_bool_decide; set_solver.
Qed.

Lemma dict_get_in k v d : NoDup (dict_keys d) -> (k, v) ∈ d -> dict_get k d = Some v.
Proof.
  induction d as [|[k' w] d IH]; simpl; intros Hnd Hin; [set_solver|].
  apply NoDup_cons in Hnd as [Hk Hnd]. apply elem_of_cons in Hin as [Hin|Hin].
  - simplify_eq. by rewrite bool_decide_eq_true_2.
  - rewrite bool_decide_eq_false_2; [auto|]. intros ->. apply Hk.
    unfold dict_keys. apply list_elem_of_fmap. by exists (k', v).
Qed.

Lemma fval_eqb_eq a b : fval_eqb a b = true -> a = b.
Proof. destruct a, b; simpl; intros; destr_bool; try done; subst; try done.
  apply eqb_prop in H. by subst. Qed.

Lemma is_true_inv v : is_true v = true -> v = PBool true.
Proof. by destruct v as [|[]| | | | |]. Qed.

Lemma is_str_inv v s : is_str v s = true -> v = PStr s.
Proof. destruct v; simpl; try done. intros H. destr_bool. by subst. Qed.

Lemma dict_item_inv k d v : dict_item k d = Ok v -> dict_get k d = Some v.
Proof. unfold dict_item. destruct (dict_get k d); by intros [=->]. Qed.

(** ** JSON text

    [json.dumps(v, sort_keys=True, separators=(",", ":"), ensure_ascii=True,
    allow_nan=False)], the canonical text the manager hashes and stores. *)

Definition hex4 (n : nat) : string :=
  String (hex_digit (n / 4096 mod 16)) (String (hex_digit (n / 256 mod 16))
    (String (hex_digit (n / 16 mod 16)) (String (hex_digit (n mod 16)) ""))).

Definition json_char (a : ascii) : string :=
  let n := nat_of_ascii a in
  if (n =? 34)%nat || (n =? 92)%nat then String "\" (String a "")
  else if (n =? 10)%nat then "\n" else if (n =? 13)%nat then "\r" else if (n =? 9)%nat then "\t"
  else if (n =? 8)%nat then "\b" else if (n =? 12)%nat then "\f"
  else if (n <? 32)%nat || (126 <? n)%nat then "\u" +:+ hex4 n
  else String a "".

Definition dquote : string := String (ascii_of_nat 34) "".

Definition json_string (s : string) : string :=
  dquote +:+ String.concat "" (map json_char (String.list_ascii_of_string s)) +:+ dquote.

Definition key_le (a b : string * string) : bool := String.leb a.1 b.1.

Fixpoint json_text (v : pyval) : string :=
  match v with
  | PNone => "null"
  | PBool true => "true"
  | PBool false => "false"
  | PInt z => pretty z
  | PFloat f => float_text f
  | PStr s => json_string s
  | PList l => "[" +:+ String.concat "," (map json_text l) +:+ "]"
  | PDict d =>
      "{" +:+ String.concat ","
        (map (fun kt => json_string kt.1 +:+ ":" +:+ kt.2)
           (sorted_by key_le (map (fun kv => (kv.1, json_text kv.2)) d))) +:+ "}"
  end.

Definition json_dumps (v : pyval) : res string :=
  if json_finite v then Ok (json_text v)
  else Err (ValueError "Out of range float values are not JSON compliant").

(** ** Reflexivity of [==] *)

(** Every dictionary inside has distinct keys, as a Python dictionary has. *)
Fixpoint distinct_keys (v : pyval) : bool :=
  match v with
  | PList l => forallb distinct_keys l
  | PDict d => distinct (dict_keys d) && forallb (fun kv => distinct_keys kv.2) d
  | _ => true
  end.

Lemma fval_eqb_refl n : fval_eqb (FFin n) (FFin n) = true.
Proof. simpl. apply Z.eqb_refl. Qed.

Lemma py_eqb_list l k :
  py_eqb (PList l) (PList k) = true <-> Forall2 (fun a b => py_eqb a b = true) l k.
Proof.
  revert k; induction l as [|x l IH]; intros [|y k]; simpl; split; intros H; try done; try (by inversion H).
  - apply andb_true_iff in H as [Hx H]. constructor; [done|]. by apply IH.
  - inversion H as [|? ? ? ? Hx Hl]; subst. rewrite Hx. simpl. by apply IH.
Qed.

Lemma py_eqb_dict d e :
  (length d =? length e)%nat = true ->
  Forall (fun kv => exists w, dict_get kv.1 e = Some w /\ py_eqb kv.2 w = true) d ->
  py_eqb (PDict d) (PDict e) = true.
Proof.
  intros Hlen Hd. simpl. rewrite Hlen. simpl. clear Hlen.
  induction Hd as [|[k v] d (w & Hw & Hvw) _ IH]; [done|]. simpl in *. by rewrite Hw, Hvw, IH.
Qed.

Lemma py_eqb_refl v : json_finite v = true -> distinct_keys v = true -> py_eqb v v = true.
Proof.
  induction v as [|b|z|f|s|l IH|d IH] using pyval_rect_nested; intros Hf Hd.
  - done.
  - destruct b; exact (fval_eqb_refl _).
  - exact (fval_eqb_refl _).
  - simpl in *. destruct (float_value f); try done. apply Z.eqb_refl.
  - simpl. by rewrite bool_decide_eq_true_2.
  - apply py_eqb_list. simpl in Hf, Hd. induction IH as [|x l Hx _ IHl]; constructor;
      simpl in Hf, Hd; apply andb_true_iff in Hf as [], Hd as []; auto.
  - apply py_eqb_dict; [apply Nat.eqb_refl|]. simpl in Hf, Hd. apply andb_true_iff in Hd as [Hk Hd].
    unfold distinct in Hk. apply bool_decide_eq_true in Hk.
    rewrite Forall_forall in *. intros [k v] Hin. exists v. split; [by apply dict_get_in|].
    rewrite forallb_forall in Hf, Hd. apply (IH (k, v) Hin).
    + apply (Hf (k, v)). by apply list_elem_of_In.
    + apply (Hd (k, v)). by apply list_elem_of_In.
Qed.
