(* ===== verification/Contracts.v ===== *)
(** * Rollout contracts ([rollout_manager/contracts.py],
    [rollout_manager/generation_failure.py])

    The immutable records that the coordinator and its backends exchange, the
    cancellation token, and [request_uncertain], the test that decides whether a
    model request may still be running somewhere. *)

From S2P Require Import Prelude PyValue.
Local Open Scope Z_scope.
Local Open Scope py_scope.

Definition BENCHMARKS : list string :=
  ["kernelbench"; "cuda-agent"; "terminal-bench"; "prompt-response"].

(** ** Resources

    The four quantities are integers or floats in the source; the record keeps
    their exact values in units of 2^-1074. *)
Record ResourceRequirements := {
  executor : string;
  cpu : Z;
  memory_bytes : Z;
  storage_bytes : Z;
  gpu_count : Z;
  accounting : string }.

(** A quantity is an [int] or a finite [float], not a [bool], and nonnegative. *)
Definition quantity (v : pyval) : option Z :=
  match strict_number v with
  | Some (FFin n) => if n <? 0 then None else Some n
  | _ => None
  end.

Definition new_resources (executor : string) (cpu memory_bytes storage_bytes gpu_count : pyval)
    (accounting : string) : res ResourceRequirements :=
  raise_when bool_decide (executor = "")
             || negb (bool_decide (accounting ∈ ["episode"; "backend-stage"])) with_exn
    ValueError "resources require an executor and supported accounting scope";
  match quantity cpu, quantity memory_bytes, quantity storage_bytes, quantity gpu_count with
  | Some c, Some m, Some s, Some g =>
      Ok {| executor := executor; cpu := c; memory_bytes := m; storage_bytes := s;
            gpu_count := g; accounting := accounting |}
  | _, _, _, _ => Err (ValueError "resource quantities must be finite and nonnegative")
  end.

(** ** Tasks and episodes *)

Record TaskSpec := {
  task_benchmark : string;
  task_id : string;
  source_sha256 : string;
  task_payload : pydict;
  resources : ResourceRequirements;
  budgets : pydict;
  provenance : pydict }.

Definition new_task (benchmark task_id source_sha256 : string) (payload : pydict)
    (resources : ResourceRequirements) (budgets provenance : pydict) : res TaskSpec :=
  raise_when negb (bool_decide (benchmark ∈ BENCHMARKS)) || bool_decide (task_id = "")
             || bool_decide (source_sha256 = "") with_exn
    ValueError "task requires a supported benchmark, pinned identity and source hash";
  let kind := if bool_decide (benchmark = "terminal-bench") then "task_path"
              else if bool_decide (benchmark = "prompt-response") then "prompt_response"
              else "native_case" in
  raise_when negb (bool_decide (kind ∈ dict_keys payload)) with_exn
    ValueError (benchmark +:+ " payload requires " +:+ kind);
  raise_when bool_decide (benchmark = "terminal-bench")
             && bool_decide ("code" ∈ dict_keys payload) with_exn
    ValueError "Terminal-Bench does not have a CUDA reference-code contract";
  Ok {| task_benchmark := benchmark; task_id := task_id; source_sha256 := source_sha256;
        task_payload := payload; resources := resources; budgets := budgets;
        provenance := provenance |}.

Record EpisodeIdentity := {
  run_id : string;
  benchmark : string;
  episode_task_id : string;
  group_id : string;
  sample_index : Z;
  pass_index : Z;
  trial_id : option string;
  sampling_seed : option Z }.

#[export] Instance EpisodeIdentity_eq_dec : EqDecision EpisodeIdentity.
Proof. solve_decision. Defined.

Definition new_identity (run_id benchmark task_id group_id : string) (sample_index pass_index : Z)
    (trial_id : option string) (sampling_seed : option Z) : res EpisodeIdentity :=
  raise_when bool_decide (run_id = "") || bool_decide (task_id = "") || bool_decide (group_id = "")
             || negb (bool_decide (benchmark ∈ BENCHMARKS)) with_exn
    ValueError "episode requires run, benchmark, task and group identities";
  raise_when (sample_index <? 0) || (pass_index <? 0) with_exn
    ValueError "sample and pass indices must be nonnegative";
  Ok {| run_id := run_id; benchmark := benchmark; episode_task_id := task_id;
        group_id := group_id; sample_index := sample_index; pass_index := pass_index;
        trial_id := trial_id; sampling_seed := sampling_seed |}.

Record EpisodePlan := { identity : EpisodeIdentity; task : TaskSpec; plan_payload : pyval }.

Definition new_plan (identity : EpisodeIdentity) (task : TaskSpec) (payload : pyval)
  : res EpisodePlan :=
  raise_when negb (bool_decide ((benchmark identity, episode_task_id identity)
                                = (task_benchmark task, task_id task))) with_exn
    ValueError "episode and task identities disagree";
  Ok {| identity := identity; task := task; plan_payload := payload |}.

Record EpisodeResult := {
  result_identity : EpisodeIdentity;
  execution_state : string;
  verification_state : string;
  score_eligible : bool;
  cleanup_state : string;
  native_outcome : pydict;
  native_artifacts : pyval;
  usage : pyval;
  timings : pyval;
  failure_category : option string;
  model_identity : option string;
  request_state : option pydict;
  configuration_sha256 : option string;
  result_source_sha256 : option string }.

(** ** The cancellation token: the first reason wins, the event is never cleared *)

Record CancellationToken := { event_set : bool; reason : option string }.

Definition new_token : CancellationToken := {| event_set := false; reason := None |}.

Definition cancelled (t : CancellationToken) : bool := event_set t.

Definition cancel (why : string) (t : CancellationToken) : CancellationToken :=
  {| event_set := true;
     reason := match reason t with None => Some why | Some r => Some r end |}.

(** ** Terminal failure receipts *)

(** [receipt[k] == s], or [KeyError]. *)
Definition item_is (k s : string) (receipt : pydict) : res bool :=
  v <-? dict_item k receipt; Ok (is_str v s).

(** [and] and [or] on fallible operands evaluate the right one only when needed. *)
Definition res_and (a b : res bool) : res bool :=
  x <-? a; if x then b else Ok false.
Definition res_or (a b : res bool) : res bool :=
  x <-? a; if x then Ok true else b.

Definition failure_is_terminal (receipt : pydict) : res bool :=
  res_and (v <-? dict_item "sampler_drained" receipt; Ok (is_true v))
  (res_and (v <-? dict_item "actual_actor_drain_proven" receipt; Ok (is_true v))
  (res_or
    (res_and (item_is "sampler_outcome" "not_admitted" receipt)
             (item_is "proof_kind" "controller_rejected_before_sampler_dispatch" receipt))
    (res_and (item_is "sampler_outcome" "completed" receipt)
             (item_is "proof_kind" "owned_vllm_final_request_output" receipt)))).

(** The condition under which a [terminal_failure_received] state stays
    uncertain; the source catches every exception it raises. *)
Definition failure_unproven (state : pydict) : bool :=
  if negb (is_str (get_none "generation_failure" state) "validated") then true
  else match get_none "failure_receipt" state with
       | PDict receipt =>
           match
             res_or (v <-? dict_item "request_id" receipt;
                     Ok (negb (py_eqb v (get_none "id" state))))
             (res_or (v <-? dict_item "request_payload_sha256" receipt;
                      Ok (negb (py_eqb v (get_none "request_payload_sha256" state))))
             (t <-? failure_is_terminal receipt; Ok (negb t)))
           with
           | Ok b => b
           | Err _ => true
           end
       | _ => true
       end.

(** ["unknown" in str(state.get(key, "")).lower()] and the same for "uncertain". *)
Definition mentions_unknown (key : string) (state : pydict) : bool :=
  let value := py_lower (py_str (default (PStr "") (dict_get key state))) in
  contains "unknown" value || contains "uncertain" value.

Definition uncertain_here (state : pydict) : bool :=
  is_true (get_none "uncertain" state)
  || is_false (get_none "spool_terminal" state)
  || (is_str (get_none "state" state) "terminal_failure_received" && failure_unproven state)
  || mentions_unknown "state" state
  || mentions_unknown "delivery_state" state.

(** The recursion over nested mappings: an empty mapping is certain. *)
Fixpoint mapping_uncertain (v : pyval) : bool :=
  match v with
  | PDict [] => false
  | PDict state =>
      uncertain_here state || existsb (fun kv => mapping_uncertain kv.2) state
  | _ => false
  end.

(** [request_uncertain(state)] on any value: a nonempty value that is not a
    mapping has no [get]. *)
Definition request_uncertain (state : pyval) : res bool :=
  if negb (py_truthy state) then Ok false
  else match state with
       | PDict _ => Ok (mapping_uncertain state)
       | _ => Err (AttributeError "get")
       end.

(** The call on an [EpisodeResult.request_state]. *)
Definition state_uncertain (state : option pydict) : bool :=
  match state with None => false | Some d => mapping_uncertain (PDict d) end.

Lemma request_uncertain_state state :
  request_uncertain (match state with None => PNone | Some d => PDict d end)
  = Ok (state_uncertain state).
Proof. destruct state as [[|kv d]|]; done. Qed.

Lemma cancel_cancelled why t : cancelled (cancel why t) = true.
Proof. done. Qed.

Lemma cancel_reason_kept why t r : reason t = Some r -> reason (cancel why t) = Some r.
Proof. unfold cancel. by intros ->. Qed.

(** A nested mapping at any depth. *)
Inductive nested_in : pyval -> pyval -> Prop :=
| nested_refl v : nested_in v v
| nested_step k v d w : (k, v) ∈ d -> nested_in w v -> nested_in w (PDict d).

Lemma mapping_uncertain_nested w v :
  nested_in w v -> mapping_uncertain w = true -> mapping_uncertain v = true.
Proof.
  induction 1 as [|k v d w Hin _ IH]; [done|]. intros Hw. specialize (IH Hw).
  destruct d as [|kv d]; [set_solver|]. simpl.
  apply orb_true_iff; right.
  change (existsb (fun kv => mapping_uncertain kv.2) (kv :: d) = true).
  apply existsb_exists. exists (k, v). split; [by apply list_elem_of_In|done].
Qed.

Lemma mapping_uncertain_inv v :
  mapping_uncertain v = true ->
  exists d, nested_in (PDict d) v /\ uncertain_here d = true.
Proof.
  induction v as [| | | | | |d IH] using pyval_rect_nested; try done.
  intros H. destruct d as [|kv d]; [done|].
  change (uncertain_here (kv :: d) || existsb (fun kv => mapping_uncertain kv.2) (kv :: d) = true) in H.
  apply orb_true_iff in H as [H|H].
  - eexists. split; [constructor|done].
  - apply existsb_exists in H as [[k w] [Hin Hw]]. apply list_elem_of_In in Hin.
    rewrite Forall_forall in IH. destruct (IH _ Hin Hw) as [e [He Hu]].
    exists e. split; [by econstructor|done].
Qed.

Lemma res_and_inv a b : res_and a b = Ok true -> a = Ok true /\ b = Ok true.
Proof. unfold res_and. destruct a as [[]|]; by intros [=]. Qed.

Lemma res_or_false a b : res_or a b = Ok false -> a = Ok false /\ b = Ok false.
Proof. unfold res_or. destruct a as [[]|]; by intros [=]. Qed.

Lemma res_or_inv a b : res_or a b = Ok true -> a = Ok true \/ b = Ok true.
Proof. unfold res_or. destruct a as [[]|]; intros H; auto; discriminate. Qed.

Lemma item_is_inv k s d : item_is k s d = Ok true -> dict_get k d = Some (PStr s).
Proof.
  unfold item_is. intros H. res_inv H. apply is_str_inv in H. subst. by apply dict_item_inv.
Qed.

Lemma failure_is_terminal_inv receipt :
  failure_is_terminal receipt = Ok true ->
  dict_get "sampler_drained" receipt = Some (PBool true)
  /\ dict_get "actual_actor_drain_proven" receipt = Some (PBool true)
  /\ ((dict_get "sampler_outcome" receipt = Some (PStr "not_admitted")
       /\ dict_get "proof_kind" receipt = Some (PStr "controller_rejected_before_sampler_dispatch"))
      \/ (dict_get "sampler_outcome" receipt = Some (PStr "completed")
          /\ dict_get "proof_kind" receipt = Some (PStr "owned_vllm_final_request_output"))).
Proof.
  unfold failure_is_terminal. intros H.
  apply res_and_inv in H as [Hs H]. apply res_and_inv in H as [Ha H].
  res_inv Hs. apply is_true_inv in Hs. subst.
  res_inv Ha. apply is_true_inv in Ha. subst.
  split_and!; [by apply dict_item_inv..|].
  apply res_or_inv in H as [H|H]; apply res_and_inv in H as [?%item_is_inv ?%item_is_inv]; auto.
Qed.

Lemma state_certain_here d : state_uncertain (Some d) = false -> uncertain_here d = false.
Proof.
  destruct d as [|kv d]; [done|]. intros H.
  change (uncertain_here (kv :: d) || existsb (fun kv => mapping_uncertain kv.2) (kv :: d) = false) in H.
  by destr_bool.
Qed.

(** ** Properties *)

(** C19. [request_uncertain] is exact on mappings: a request is uncertain
    if and only if some nonempty mapping reachable inside the state carries an
    uncertainty mark of its own (an explicit flag, a spool that is not terminal,
    an unproven terminal failure, or a state text naming unknown/uncertain). *)
Theorem request_uncertain_iff_marked d :
  state_uncertain (Some d) = true
  <-> exists e, nested_in (PDict e) (PDict d) /\ e <> [] /\ uncertain_here e = true.
Proof.
  change (mapping_uncertain (PDict d) = true
          <-> exists e, nested_in (PDict e) (PDict d) /\ e <> [] /\ uncertain_here e = true).
  split.
  - intros H. apply mapping_uncertain_inv in H as [e [He Hu]].
    exists e. split_and!; try done. by intros ->.
  - intros (e & He & Hne & Hu). apply (mapping_uncertain_nested _ _ He).
    destruct e as [|kv e]; [done|].
    change (uncertain_here (kv :: e) || existsb (fun kv => mapping_uncertain kv.2) (kv :: e) = true).
    by rewrite Hu.
Qed.

(** A terminal-failure state counts as certain only with a receipt for the
    same request and payload whose sampler and actor drains are both proven and
    whose outcome matches its proof kind. *)
Theorem terminal_failure_needs_proof d :
  dict_get "state" d = Some (PStr "terminal_failure_received") ->
  state_uncertain (Some d) = false ->
  exists receipt,
    dict_get "failure_receipt" d = Some (PDict receipt)
    /\ dict_get "sampler_drained" receipt = Some (PBool true)
    /\ dict_get "actual_actor_drain_proven" receipt = Some (PBool true)
    /\ (exists rid, dict_get "request_id" receipt = Some rid /\ py_eqb rid (get_none "id" d) = true)
    /\ ((dict_get "sampler_outcome" receipt = Some (PStr "not_admitted")
         /\ dict_get "proof_kind" receipt = Some (PStr "controller_rejected_before_sampler_dispatch"))
        \/ (dict_get "sampler_outcome" receipt = Some (PStr "completed")
            /\ dict_get "proof_kind" receipt = Some (PStr "owned_vllm_final_request_output"))).
Proof.
  intros Hstate Hcert%state_certain_here. unfold uncertain_here in Hcert.
  unfold get_none in Hcert at 3. rewrite Hstate in Hcert.
  apply orb_false_elim in Hcert as [Hcert _]. apply orb_false_elim in Hcert as [Hcert _].
  apply orb_false_elim in Hcert as [_ Hcert].
  change (failure_unproven d = false) in Hcert. unfold failure_unproven in Hcert.
  destruct (negb _); [done|].
  destruct (get_none "failure_receipt" d) as [| | | | | |receipt] eqn:Hrec; try done.
  destruct (res_or _ _) as [b|] eqn:Hor; [subst b|done].
  apply res_or_false in Hor as [Hid Hor]. apply res_or_false in Hor as [_ Hterm].
  exists receipt. res_inv Hid. res_inv Hterm. destr_bool. subst.
  apply dict_item_inv in R. apply failure_is_terminal_inv in R0 as (? & ? & ?).
  split_and!; eauto.
  unfold get_none in Hrec. destruct (dict_get "failure_receipt" d); simpl in Hrec; congruence.
Qed.

Definition drained_failure_state : pydict :=
  [("state", PStr "terminal_failure_received"); ("id", PStr "r1");
   ("request_payload_sha256", PStr "p1"); ("generation_failure", PStr "validated");
   ("failure_receipt", PDict [("request_id", PStr "r1"); ("request_payload_sha256", PStr "p1");
      ("sampler_drained", PBool true); ("actual_actor_drain_proven", PBool true);
      ("sampler_outcome", PStr "completed"); ("proof_kind", PStr "owned_vllm_final_request_output")])].

Lemma terminal_failure_needs_proof_witness :
  state_uncertain (Some drained_failure_state) = false
  /\ exists receipt, dict_get "failure_receipt" drained_failure_state = Some (PDict receipt).
Proof.
  assert (H : state_uncertain (Some drained_failure_state) = false) by (vm_compute; reflexivity).
  split; [exact H|].
  destruct (terminal_failure_needs_proof drained_failure_state eq_refl H) as [r [Hr _]].
  exists r. exact Hr.
Defined.
