(* ===== verification/Events.v ===== *)
(** * The event store ([rollout_manager/events.py])

    An append-only JSON-lines log with a sequence number per record, and result
    files that are created once ([open("x")]).  Paths are relative to the store's
    root; the file system below it is a map from path to content, where [None]
    is a file whose JSON dump raised half way. *)

From S2P Require Import Prelude PyValue Contracts.
Local Open Scope Z_scope.
Local Open Scope py_scope.

Definition SCHEMA_VERSION : Z := 1.

(** [json_value] of the dataclasses: a dictionary of their fields. *)
Definition opt_str (o : option string) : pyval := match o with None => PNone | Some s => PStr s end.
Definition opt_int (o : option Z) : pyval := match o with None => PNone | Some z => PInt z end.

Definition identity_json (i : EpisodeIdentity) : pydict :=
  [("run_id", PStr (run_id i)); ("benchmark", PStr (benchmark i));
   ("task_id", PStr (episode_task_id i)); ("group_id", PStr (group_id i));
   ("sample_index", PInt (sample_index i)); ("pass_index", PInt (pass_index i));
   ("trial_id", opt_str (trial_id i)); ("sampling_seed", opt_int (sampling_seed i))].

Definition result_json (r : EpisodeResult) : pydict :=
  [("identity", PDict (identity_json (result_identity r)));
   ("execution_state", PStr (execution_state r)); ("verification_state", PStr (verification_state r));
   ("score_eligible", PBool (score_eligible r)); ("cleanup_state", PStr (cleanup_state r));
   ("native_outcome", PDict (native_outcome r)); ("native_artifacts", native_artifacts r);
   ("usage", usage r); ("timings", timings r);
   ("failure_category", opt_str (failure_category r)); ("model_identity", opt_str (model_identity r));
   ("request_state", match request_state r with None => PNone | Some d => PDict d end);
   ("configuration_sha256", opt_str (configuration_sha256 r));
   ("source_sha256", opt_str (result_source_sha256 r))].

(** One JSON line: its sequence number and the whole record. *)
Record event_line := EventLine { line_sequence : Z; line_record : pydict }.

Record EventStore := {
  store_run_id : string;
  sequence : Z;
  lines : list event_line;
  files : gmap string (option pyval) }.

(** The keyword arguments of [append] and the two clock readings it takes. *)
Record append_args := {
  event : string;
  event_identity : option EpisodeIdentity;
  turn_id : pyval;
  request_id : pyval;
  tool_call_id : pyval;
  event_trial_id : pyval;
  details : pydict;
  unix_ns : Z;
  monotonic_ns : Z }.

(** The record before its sequence number is assigned. *)
Definition event_record (run_id : string) (a : append_args) : pydict :=
  let episode := match event_identity a with None => PNone | Some i => PDict (identity_json i) end in
  [("schema_version", PInt SCHEMA_VERSION); ("run_id", PStr run_id);
   ("clock_domain", PStr "coordinator_monotonic"); ("unix_ns", PInt (unix_ns a));
   ("monotonic_ns", PInt (monotonic_ns a)); ("event", PStr (event a));
   ("identity", episode); ("turn_id", turn_id a); ("request_id", request_id a);
   ("tool_call_id", tool_call_id a);
   ("trial_id", if is_none (event_trial_id a)
                then match episode with PDict d => get_none "trial_id" d | _ => PNone end
                else event_trial_id a);
   ("details", PDict (details a))].

(** The sequence number is consumed before the record is serialised, so a record
    that JSON refuses leaves a gap and no line. *)
Definition append (a : append_args) (s : EventStore) : res pydict * EventStore :=
  let record := event_record (store_run_id s) a ++ [("sequence", PInt (sequence s))] in
  if json_finite (PDict record)
  then (Ok record,
        {| store_run_id := store_run_id s; sequence := sequence s + 1;
           lines := lines s ++ [EventLine (sequence s) record]; files := files s |})
  else (Err (ValueError "Out of range float values are not JSON compliant"),
        {| store_run_id := store_run_id s; sequence := sequence s + 1;
           lines := lines s; files := files s |}).

Definition write_new (path : string) (value : pyval) (s : EventStore) : res string * EventStore :=
  match files s !! path with
  | Some _ => (Err (OSError "File exists"), s)
  | None =>
      let content := if json_finite value then Some value else None in
      (if json_finite value then Ok path
       else Err (ValueError "Out of range float values are not JSON compliant"),
       {| store_run_id := store_run_id s; sequence := sequence s; lines := lines s;
          files := <[path := content]> (files s) |})
  end.

Section Hashing.
(** SHA-256 in hexadecimal. *)
Context (sha256_hex : string -> string).

Definition result_path (i : EpisodeIdentity) : string :=
  "results/" +:+ sha256_hex (json_text (PDict (identity_json i))) +:+ ".json".

Definition write_result (r : EpisodeResult) (s : EventStore) : res string * EventStore :=
  write_new (result_path (result_identity r))
    (PDict (("schema_version", PInt SCHEMA_VERSION) :: result_json r)) s.

Definition write_summary (summary : pydict) (s : EventStore) : res string * EventStore :=
  write_new "summary.json"
    (PDict (("schema_version", PInt SCHEMA_VERSION) :: ("run_id", PStr (store_run_id s)) :: summary)) s.

Definition open_store (run_id : string) (created : append_args) : res pydict * EventStore :=
  append created {| store_run_id := run_id; sequence := 0; lines := []; files := ∅ |}.

(** ** Histories of one store *)

Inductive store_op :=
| OpAppend (a : append_args)
| OpResult (r : EpisodeResult)
| OpSummary (d : pydict).

Definition apply_op (op : store_op) (s : EventStore) : EventStore :=
  match op with
  | OpAppend a => (append a s).2
  | OpResult r => (write_result r s).2
  | OpSummary d => (write_summary d s).2
  end.

Definition run_ops (ops : list store_op) (s : EventStore) : EventStore :=
  foldl (fun s op => apply_op op s) s ops.

(** Sequence numbers increase along the log and stay below the next one. *)
Definition log_ordered (s : EventStore) : Prop :=
  StronglySorted Z.lt (map line_sequence (lines s))
  /\ Forall (fun l => line_sequence l < sequence s
                      /\ dict_get "sequence" (line_record l) = Some (PInt (line_sequence l)))
            (lines s).

(** What an operation may do to a store: extend the log, add files. *)
Definition extends (s s' : EventStore) : Prop :=
  lines s `prefix_of` lines s' /\ files s ⊆ files s' /\ sequence s <= sequence s'
  /\ store_run_id s = store_run_id s'.

#[export] Instance extends_preorder : PreOrder extends.
Proof.
  split.
  - intros s. repeat split; reflexivity.
  - intros a b c (? & ? & ? & ?) (? & ? & ? & ?). repeat split; [by etrans|by etrans|lia|congruence].
Qed.

Lemma write_new_extends path v s : extends s (write_new path v s).2.
Proof.
  unfold write_new. destruct (files s !! path) eqn:E; simpl; [reflexivity|].
  repeat split; simpl; [done| |lia]. by apply insert_subseteq.
Qed.

Lemma apply_op_extends op s : extends s (apply_op op s).
Proof.
  destruct op; simpl; [|apply write_new_extends..].
  unfold append. destruct (json_finite _); repeat split; simpl; try done; try lia.
  by apply prefix_app_r.
Qed.

Lemma StronglySorted_snoc {A} (R : A -> A -> Prop) l x :
  StronglySorted R l -> Forall (fun y => R y x) l -> StronglySorted R (l ++ [x]).
Proof.
  induction 1 as [|y l Hl IH Hy]; simpl; intros Hx; [by repeat constructor|].
  apply Forall_cons in Hx as [Hyx Hx]. constructor; [auto|].
  apply Forall_app. split; [done|by constructor].
Qed.

Lemma append_ordered a s : log_ordered s -> log_ordered (append a s).2.
Proof.
  intros [Hs Hf]. unfold append. destruct (json_finite _); split; simpl; try done.
  - rewrite map_app. apply StronglySorted_snoc; [done|].
    apply Forall_fmap. eapply Forall_impl; [exact Hf|]. simpl. tauto.
  - apply Forall_app. split.
    + eapply Forall_impl; [exact Hf|]. intros l [? ?]; split; [lia|done].
    + constructor; [|constructor]. simpl. split; [lia|done].
  - eapply Forall_impl; [exact Hf|]. intros l [? ?]; split; [lia|done].
Qed.

Lemma apply_op_ordered op s : log_ordered s -> log_ordered (apply_op op s).
Proof.
  destruct op; simpl; [apply append_ordered| |]; intros H;
    unfold write_result, write_summary, write_new; by destruct (files s !! _).
Qed.

Lemma run_ops_extends ops s : extends s (run_ops ops s).
Proof.
  revert s; induction ops as [|op ops IH]; intros s; simpl; [reflexivity|].
  etrans; [apply apply_op_extends|apply IH].
Qed.

Lemma run_ops_ordered ops s : log_ordered s -> log_ordered (run_ops ops s).
Proof.
  revert s; induction ops as [|op ops IH]; intros s Hs; simpl; [done|].
  by apply IH, apply_op_ordered.
Qed.

(** ** Properties *)

(** Whatever is appended or written, an event store only grows: its log is
    extended at the end, its sequence numbers strictly increase (a record that
    cannot be serialised consumes a number but no line), and a result or
    summary file once created keeps its content. *)
Theorem store_append_only run_id created ops ops' :
  let s := run_ops ops (open_store run_id created).2 in
  log_ordered s /\ extends s (run_ops ops' s).
Proof.
  simpl. split; [|apply run_ops_extends].
  apply run_ops_ordered, append_ordered. split; simpl; constructor.
Qed.
End Hashing.
