(* ===== verification/Ledger.v ===== *)
(** * The coordinator's resource ledger
    ([Coordinator._fits], [_charge], [_quarantine], [_wave_fits] of
    [rollout_manager/coordinator.py])

    Three tables map an executor to four quantities: what admitted episodes hold
    ([reserved]), the high-water mark ([peak_reserved]) and what can no longer be
    released ([quarantined]). *)

From S2P Require Import Prelude PyValue Contracts.
Local Open Scope Z_scope.

(** ** Quantities *)

Inductive qty := Cpu | MemoryBytes | StorageBytes | GpuCount.

Definition QUANTITIES : list qty := [Cpu; MemoryBytes; StorageBytes; GpuCount].

Definition amount (k : qty) (r : ResourceRequirements) : Z :=
  match k with
  | Cpu => cpu r | MemoryBytes => memory_bytes r
  | StorageBytes => storage_bytes r | GpuCount => gpu_count r
  end.

Record quantities := Quantities { q_cpu : Z; q_memory : Z; q_storage : Z; q_gpu : Z }.

Definition qget (k : qty) (q : quantities) : Z :=
  match k with
  | Cpu => q_cpu q | MemoryBytes => q_memory q | StorageBytes => q_storage q | GpuCount => q_gpu q
  end.

Definition qmake (f : qty -> Z) : quantities :=
  Quantities (f Cpu) (f MemoryBytes) (f StorageBytes) (f GpuCount).

Lemma qget_qmake k f : qget k (qmake f) = f k.
Proof. by destruct k. Qed.

Definition zero_quantities : quantities := qmake (fun _ => 0).

Lemma forallb_QUANTITIES (p : qty -> bool) :
  forallb p QUANTITIES = true <-> forall k, p k = true.
Proof.
  simpl. rewrite !andb_true_iff. split; [by intros (?&?&?&?&_) []|by auto].
Qed.

Arguments QUANTITIES : simpl never.

(** ** The ledger *)

Record Ledger := {
  reserved : gmap string quantities;
  peak_reserved : gmap string quantities;
  quarantined : gmap string quantities }.

Definition empty_ledger : Ledger :=
  {| reserved := ∅; peak_reserved := ∅; quarantined := ∅ |}.

Definition held (m : gmap string quantities) (e : string) : quantities :=
  default zero_quantities (m !! e).

(** [requirement.accounting == "backend-stage"]: the backend accounts for it. *)
Definition staged (r : ResourceRequirements) : bool :=
  bool_decide (accounting r = "backend-stage").

Section Capacities.
Context (capacities : gmap string ResourceRequirements).

Definition fits (l : Ledger) (r : ResourceRequirements) : bool :=
  if staged r then true
  else match capacities !! executor r with
       | None => true
       | Some capacity =>
           forallb (fun k => qget k (held (reserved l) (executor r)) + amount k r
                             <=? amount k capacity) QUANTITIES
       end.

Definition charge (r : ResourceRequirements) (sign : Z) (l : Ledger) : Ledger :=
  if staged r then l
  else
    let used := qmake (fun k => qget k (held (reserved l) (executor r)) + sign * amount k r) in
    let peak := qmake (fun k => Z.max (qget k (held (peak_reserved l) (executor r))) (qget k used)) in
    {| reserved := <[executor r := used]> (reserved l);
       peak_reserved := <[executor r := peak]> (peak_reserved l);
       quarantined := quarantined l |}.

Definition quarantine (r : ResourceRequirements) (l : Ledger) : Ledger :=
  if staged r then l
  else {| reserved := reserved l; peak_reserved := peak_reserved l;
          quarantined := <[executor r :=
            qmake (fun k => qget k (held (quarantined l) (executor r)) + amount k r)]>
            (quarantined l) |}.

(** The totals of one wave, by executor. *)
Definition add_total (totals : gmap string quantities) (r : ResourceRequirements)
  : gmap string quantities :=
  if staged r then totals
  else <[executor r := qmake (fun k => qget k (held totals (executor r)) + amount k r)]> totals.

Definition wave_totals (rs : list ResourceRequirements) : gmap string quantities :=
  foldl add_total ∅ rs.

Definition wave_fits (l : Ledger) (rs : list ResourceRequirements) : bool :=
  forallb (fun et : string * quantities =>
             match capacities !! et.1 with
             | None => true
             | Some capacity =>
                 forallb (fun k => qget k (held (reserved l) et.1) + qget k et.2
                                   <=? amount k capacity) QUANTITIES
             end) (map_to_list (wave_totals rs)).

(** ** What a list of requirements holds *)

(** The share of one requirement in executor [e]'s quantity [k]. *)
Definition share (e : string) (k : qty) (r : ResourceRequirements) : Z :=
  if staged r || negb (bool_decide (executor r = e)) then 0 else amount k r.

Definition total (e : string) (k : qty) (rs : list ResourceRequirements) : Z :=
  list_sum_Z (map (share e k) rs).

Definition charge_all (rs : list ResourceRequirements) (sign : Z) (l : Ledger) : Ledger :=
  foldl (fun l r => charge r sign l) l rs.

Definition quarantine_all (rs : list ResourceRequirements) (l : Ledger) : Ledger :=
  foldl (fun l r => quarantine r l) l rs.

Lemma held_insert m e e' q :
  held (<[e := q]> m) e' = if bool_decide (e = e') then q else held m e'.
Proof. unfold held. rewrite lookup_insert. by repeat case_decide; case_bool_decide. Qed.

Lemma total_cons e k r rs : total e k (r :: rs) = share e k r + total e k rs.
Proof. done. Qed.

Lemma total_app e k rs rs' : total e k (rs ++ rs') = total e k rs + total e k rs'.
Proof. unfold total. by rewrite map_app, list_sum_Z_app. Qed.

#[export] Instance total_proper e k : Proper ((≡ₚ) ==> (=)) (total e k).
Proof. intros rs rs' H. unfold total. by rewrite H. Qed.

Lemma reserved_charge r sign l e k :
  qget k (held (reserved (charge r sign l)) e)
  = qget k (held (reserved l) e) + sign * share e k r.
Proof.
  unfold charge, share. destruct (staged r); simpl; [lia|].
  rewrite held_insert. case_bool_decide; simpl; [subst; by rewrite qget_qmake|lia].
Qed.

Lemma quarantined_charge r sign l : quarantined (charge r sign l) = quarantined l.
Proof. unfold charge. by destruct (staged r). Qed.

Lemma reserved_quarantine r l : reserved (quarantine r l) = reserved l.
Proof. unfold quarantine. by destruct (staged r). Qed.

Lemma quarantined_quarantine r l e k :
  qget k (held (quarantined (quarantine r l)) e)
  = qget k (held (quarantined l) e) + share e k r.
Proof.
  unfold quarantine, share. destruct (staged r); simpl; [lia|].
  rewrite held_insert. case_bool_decide; simpl; [subst; by rewrite qget_qmake|lia].
Qed.

Lemma reserved_charge_all rs sign l e k :
  qget k (held (reserved (charge_all rs sign l)) e)
  = qget k (held (reserved l) e) + sign * total e k rs.
Proof.
  revert l; induction rs as [|r rs IH]; intros l; simpl.
  - unfold total. simpl. rewrite list_sum_Z_nil. lia.
  - rewrite IH, reserved_charge, total_cons. lia.
Qed.

Lemma quarantined_charge_all rs sign l : quarantined (charge_all rs sign l) = quarantined l.
Proof.
  revert l; induction rs as [|r rs IH]; intros l; simpl; [done|].
  by rewrite IH, quarantined_charge.
Qed.

Lemma reserved_quarantine_all rs l : reserved (quarantine_all rs l) = reserved l.
Proof.
  revert l; induction rs as [|r rs IH]; intros l; simpl; [done|].
  by rewrite IH, reserved_quarantine.
Qed.

Lemma quarantined_quarantine_all rs l e k :
  qget k (held (quarantined (quarantine_all rs l)) e)
  = qget k (held (quarantined l) e) + total e k rs.
Proof.
  revert l; induction rs as [|r rs IH]; intros l; simpl.
  - unfold total. simpl. rewrite list_sum_Z_nil. lia.
  - rewrite IH, quarantined_quarantine, total_cons. lia.
Qed.

Lemma held_add_total totals r e k :
  qget k (held (add_total totals r) e) = qget k (held totals e) + share e k r.
Proof.
  unfold add_total, share. destruct (staged r); simpl; [lia|].
  rewrite held_insert. case_bool_decide; simpl; [subst; by rewrite qget_qmake|lia].
Qed.

Lemma held_wave_totals rs e k : qget k (held (wave_totals rs) e) = total e k rs.
Proof.
  unfold wave_totals.
  assert (H : forall m, qget k (held (foldl add_total m rs) e) = qget k (held m e) + total e k rs).
  { induction rs as [|r rs IH]; intros m; simpl; [unfold total; simpl; rewrite list_sum_Z_nil; lia|].
    rewrite IH, held_add_total, total_cons. lia. }
  rewrite H. unfold held. rewrite lookup_empty. simpl. by destruct k.
Qed.

Lemma wave_totals_lookup rs e :
  wave_totals rs !! e = None -> Forall (fun r => staged r = true \/ executor r <> e) rs.
Proof.
  unfold wave_totals.
  assert (H : forall m, foldl add_total m rs !! e = None ->
                        m !! e = None /\ Forall (fun r => staged r = true \/ executor r <> e) rs).
  { induction rs as [|r rs IH]; intros m Hm; simpl in Hm; [done|].
    apply IH in Hm as [Hm Hf]. unfold add_total in Hm. destruct (staged r) eqn:E.
    - split; [done|]. constructor; auto.
    - apply lookup_insert_None in Hm as [Hm Hne]. split; [done|]. constructor; auto. }
  intros Hl. by apply H in Hl as [_ ?].
Qed.

Lemma total_zero e k rs :
  Forall (fun r => staged r = true \/ executor r <> e) rs -> total e k rs = 0.
Proof.
  induction 1 as [|r rs Hr Hf IH]; [done|]. rewrite total_cons, IH. unfold share.
  destruct Hr as [->|Hne]; simpl; [done|]. rewrite bool_decide_eq_false_2 by done.
  rewrite orb_true_r. done.
Qed.

(** ** Capacity safety *)

(** No executor with a declared capacity is over it, where it holds anything. *)
Definition within_capacity (l : Ledger) : Prop :=
  forall e capacity k, capacities !! e = Some capacity ->
    qget k (held (reserved l) e) <= Z.max 0 (amount k capacity).

Lemma fits_within l r :
  within_capacity l -> fits l r = true -> within_capacity (charge r 1 l).
Proof.
  intros Hw Hf e capacity k Hc. rewrite reserved_charge.
  specialize (Hw e capacity k Hc). unfold fits in Hf. unfold share.
  destruct (staged r); simpl; [lia|]. case_bool_decide; simpl; [subst|lia].
  rewrite Hc in Hf. rewrite forallb_QUANTITIES in Hf. specialize (Hf k). destr_bool. lia.
Qed.

Lemma wave_fits_within l rs :
  within_capacity l -> wave_fits l rs = true -> within_capacity (charge_all rs 1 l).
Proof.
  intros Hw Hf e capacity k Hc. rewrite reserved_charge_all.
  specialize (Hw e capacity k Hc).
  destruct (wave_totals rs !! e) as [q|] eqn:E.
  - unfold wave_fits in Hf. rewrite forallb_forall in Hf.
    specialize (Hf (e, q)). cbn [fst snd] in Hf. rewrite Hc in Hf.
    assert (Hin : (e, q) ∈ map_to_list (wave_totals rs)) by by apply elem_of_map_to_list.
    apply list_elem_of_In, Hf in Hin. rewrite forallb_QUANTITIES in Hin. specialize (Hin k).
    destr_bool. rewrite <- held_wave_totals. unfold held at 2. rewrite E. simpl. lia.
  - rewrite (total_zero e k rs (wave_totals_lookup _ _ E)). lia.
Qed.
End Capacities.

(** ** Facts about the two tables used by the coordinator's invariants *)

Lemma within_release caps r l :
  (forall k, 0 <= amount k r) -> within_capacity caps l -> within_capacity caps (charge r (-1) l).
Proof.
  intros Hr Hw e capacity k Hc. rewrite reserved_charge. specialize (Hw e capacity k Hc).
  unfold share. specialize (Hr k). destruct (_ || _); lia.
Qed.

Lemma within_release_all caps rs l :
  Forall (fun r => forall k, 0 <= amount k r) rs -> within_capacity caps l ->
  within_capacity caps (charge_all rs (-1) l).
Proof.
  intros Hrs. revert l. induction Hrs as [|r rs Hr Hrs IH]; intros l Hw; simpl; [done|].
  by apply IH, within_release.
Qed.

Lemma within_same_reserved caps l l' :
  reserved l' = reserved l -> within_capacity caps l -> within_capacity caps l'.
Proof. unfold within_capacity. by intros ->. Qed.

(** [wave_fits] looks only at what executors hold. *)
Lemma wave_fits_ext caps l l' rs :
  (forall e k, qget k (held (reserved l) e) = qget k (held (reserved l') e)) ->
  wave_fits caps l rs = wave_fits caps l' rs.
Proof.
  intros H. unfold wave_fits. induction (map_to_list (wave_totals rs)) as [|[e q] tl IH]; [done|].
  cbn [forallb fst snd]. rewrite IH. f_equal. destruct (caps !! e) as [capacity|]; [|done].
  clear IH. generalize QUANTITIES as ks. induction ks as [|k ks IHk]; [done|].
  cbn [forallb]. rewrite H. f_equal. apply IHk.
Qed.

Lemma empty_within caps : within_capacity caps empty_ledger.
Proof.
  intros e capacity k _. unfold held. simpl. rewrite lookup_empty. simpl.
  destruct k; simpl; lia.
Qed.

Lemma held_empty e k : qget k (held ∅ e) = 0.
Proof. unfold held. rewrite lookup_empty. by destruct k. Qed.

Lemma new_resources_nonneg e c m s g a r :
  new_resources e c m s g a = Ok r -> forall k, 0 <= amount k r.
Proof.
  assert (Hq : forall v z, quantity v = Some z -> 0 <= z).
  { intros v z. unfold quantity. destruct (strict_number v) as [[]|]; try done.
    destruct (_ <? 0) eqn:E; intros [=]; subst. destr_bool. lia. }
  unfold new_resources. destruct (_ || _); [done|].
  destruct (quantity c) eqn:E1; [|done]. destruct (quantity m) eqn:E2; [|done].
  destruct (quantity s) eqn:E3; [|done]. destruct (quantity g) eqn:E4; [|done].
  intros [= <-] []; simpl; eauto.
Qed.
