(* ===== verification/Coordinator.v ===== *)
(** * The rollout coordinator ([rollout_manager/coordinator.py]): batch runs

    [Coordinator.run] admits episodes under worker, group and executor limits,
    waits for their results, and accounts for every plan exactly once.  The
    coroutine is one sequential program; everything it awaits is answered by an
    environment value: the outcome of each backend hook, the tasks that
    [asyncio.wait] reports and what their backends returned or raised, clock
    readings, and cancellations that other tasks perform on the shared token.
    The theorems quantify over all environments. *)

From S2P Require Import Prelude PyValue Contracts Ledger.
Local Open Scope Z_scope.
Local Open Scope py_scope.

(** ** Configuration *)

Record Config := {
  backends : list (string * nat);
  max_workers : Z;
  max_groups : Z;
  capacities : gmap string ResourceRequirements;
  drain_timeout : Z;
  policy : string }.

(** [Coordinator.__init__]: a backend object is its identity, a number. *)
Definition new_coordinator (backends : list (string * nat)) (max_workers max_groups : Z)
    (capacities : gmap string ResourceRequirements) (drain_timeout : fval) (policy : string)
  : res Config :=
  match finite_units drain_timeout with
  | Some timeout =>
      raise_when (max_workers <? 1) || (max_groups <? 1) || (timeout <=? 0) with_exn
        ValueError "worker/group limits and drain timeout must be positive";
      raise_when negb (bool_decide (policy ∈ ["native-groups"; "terminal-waves"]))
                 || (bool_decide (policy = "terminal-waves") && negb (max_groups =? 1)) with_exn
        ValueError "terminal waves require max_groups=1; unsupported admission policy";
      Ok {| backends := backends; max_workers := max_workers; max_groups := max_groups;
            capacities := capacities; drain_timeout := timeout; policy := policy |}
  | None => Err (ValueError "worker/group limits and drain timeout must be positive")
  end.

Fixpoint backend_of (name : string) (bs : list (string * nat)) : option nat :=
  match bs with
  | [] => None
  | (n, b) :: bs => if bool_decide (name = n) then Some b else backend_of name bs
  end.

(** [a or b] on optional strings: the empty string is false. *)
Definition str_or (a b : option string) : option string :=
  match a with Some s => if bool_decide (s = "") then b else a | None => b end.

(** ** Groups and results *)

Abbreviation group_key := (string * string * Z)%type.

Definition group (p : EpisodePlan) : group_key :=
  (benchmark (identity p), group_id (identity p), pass_index (identity p)).

Definition requirement (p : EpisodePlan) : ResourceRequirements := resources (task p).

Definition unresolved (p : EpisodePlan) (why : string) : EpisodeResult :=
  {| result_identity := identity p; execution_state := "failed"; verification_state := "unknown";
     score_eligible := false; cleanup_state := "unknown"; native_outcome := [("reason", PStr why)];
     native_artifacts := PDict []; usage := PNone; timings := PNone;
     failure_category := Some "infrastructure"; model_identity := None; request_state := None;
     configuration_sha256 := None; result_source_sha256 := Some (source_sha256 (task p)) |}.

Definition not_admitted (p : EpisodePlan) (why : string) : EpisodeResult :=
  {| result_identity := identity p; execution_state := "not_admitted";
     verification_state := "not_performed"; score_eligible := false;
     cleanup_state := "not_required"; native_outcome := [("reason", PStr why)];
     native_artifacts := PDict []; usage := PNone; timings := PNone;
     failure_category := None; model_identity := None; request_state := None;
     configuration_sha256 := None; result_source_sha256 := Some (source_sha256 (task p)) |}.

(** What awaiting a backend's [execute] can give. *)
Inductive backend_outcome :=
| Returned (r : EpisodeResult)
| ReturnedOther
| ExecuteCancelled
| ExecuteRaised (name message : string).

Definition contract_error : string :=
  "ValueError: backend returned a different episode identity or result contract".

(** [_execute] never raises: every outcome becomes a result for this plan. *)
Definition execute (p : EpisodePlan) (o : backend_outcome) : EpisodeResult :=
  match o with
  | Returned r =>
      if bool_decide (result_identity r = identity p) then r else unresolved p contract_error
  | ReturnedOther => unresolved p contract_error
  | ExecuteCancelled => unresolved p "backend_cancelled_without_cleanup_proof"
  | ExecuteRaised name message => unresolved p (name +:+ ": " +:+ message)
  end.

(** [_safe]: cleanup is proven and no request may still be running. *)
Definition safe (r : EpisodeResult) : bool :=
  bool_decide (cleanup_state r ∈ ["verified"; "not_required"])
  && negb (state_uncertain (request_state r)).

(** What awaiting a lifecycle hook can give, with an outside [token.cancel]
    that happened meanwhile. *)
Inductive hook_outcome :=
| HookReturned (v : pyval)
| HookRaised (name message : string)
| HookCancelled.

Record hook := { outcome : hook_outcome; outside : option string }.

Definition outside_cancel (o : option string) (t : CancellationToken) : CancellationToken :=
  match o with None => t | Some why => cancel why t end.

(** ** The state of one run *)

Inductive run_event :=
| EvAdmitted (i : nat)
| EvDrainUnproven (i : nat)
| EvQuarantined (i : nat)
| EvGroupFinished (i : nat) (cleanup_verified : bool)
| EvFinished (i : nat)
| EvNotAdmitted (i : nat).

Record run_state := {
  token : CancellationToken;
  ledger : Ledger;
  pending : list nat;
  active : list nat;
  results : gmap nat EpisodeResult;
  completed : gmap group_key nat;
  held_groups : gset group_key;
  stopped : option string;
  drain_deadline : option Z;
  started : list nat;
  draining_tasks : list nat;
  lifecycle_failures : list string;
  log : list run_event }.

(** How a piece of the loop body ends. *)
Inductive flow :=
| Go
| Break
| RaisedCancelled
| RaisedError (name message : string).

(** Field updates. *)
Definition set_token t s := {| token := t; ledger := ledger s; pending := pending s;
  active := active s; results := results s; completed := completed s; held_groups := held_groups s;
  stopped := stopped s; drain_deadline := drain_deadline s; started := started s;
  draining_tasks := draining_tasks s; lifecycle_failures := lifecycle_failures s; log := log s |}.
Definition set_ledger l s := {| token := token s; ledger := l; pending := pending s;
  active := active s; results := results s; completed := completed s; held_groups := held_groups s;
  stopped := stopped s; drain_deadline := drain_deadline s; started := started s;
  draining_tasks := draining_tasks s; lifecycle_failures := lifecycle_failures s; log := log s |}.
Definition set_queue p a r s := {| token := token s; ledger := ledger s; pending := p;
  active := a; results := r; completed := completed s; held_groups := held_groups s;
  stopped := stopped s; drain_deadline := drain_deadline s; started := started s;
  draining_tasks := draining_tasks s; lifecycle_failures := lifecycle_failures s; log := log s |}.
Definition set_groups c h s := {| token := token s; ledger := ledger s; pending := pending s;
  active := active s; results := results s; completed := c; held_groups := h;
  stopped := stopped s; drain_deadline := drain_deadline s; started := started s;
  draining_tasks := draining_tasks s; lifecycle_failures := lifecycle_failures s; log := log s |}.
Definition set_stop st d s := {| token := token s; ledger := ledger s; pending := pending s;
  active := active s; results := results s; completed := completed s; held_groups := held_groups s;
  stopped := st; drain_deadline := d; started := started s;
  draining_tasks := draining_tasks s; lifecycle_failures := lifecycle_failures s; log := log s |}.
Definition set_started st s := {| token := token s; ledger := ledger s; pending := pending s;
  active := active s; results := results s; completed := completed s; held_groups := held_groups s;
  stopped := stopped s; drain_deadline := drain_deadline s; started := st;
  draining_tasks := draining_tasks s; lifecycle_failures := lifecycle_failures s; log := log s |}.
Definition set_failures d f s := {| token := token s; ledger := ledger s; pending := pending s;
  active := active s; results := results s; completed := completed s; held_groups := held_groups s;
  stopped := stopped s; drain_deadline := drain_deadline s; started := started s;
  draining_tasks := d; lifecycle_failures := f; log := log s |}.
Definition record_event e s := {| token := token s; ledger := ledger s; pending := pending s;
  active := active s; results := results s; completed := completed s; held_groups := held_groups s;
  stopped := stopped s; drain_deadline := drain_deadline s; started := started s;
  draining_tasks := draining_tasks s; lifecycle_failures := lifecycle_failures s; log := log s ++ [e] |}.

(** [stopped = stopped or why] *)
Definition stop_with (why : option string) (s : run_state) : run_state :=
  set_stop (str_or (stopped s) why) (drain_deadline s) s.
Definition cancel_token (why : string) (s : run_state) : run_state :=
  set_token (cancel why (token s)) s.
Definition outside_cancel_s (o : option string) (s : run_state) : run_state :=
  set_token (outside_cancel o (token s)) s.

Definition remove_index (i : nat) (l : list nat) : list nat := filter (fun j => j <> i) l.

#[export] Instance plan_inhabited : Inhabited EpisodePlan.
Proof.
  apply populate.
  exact {| identity := {| run_id := ""; benchmark := ""; episode_task_id := ""; group_id := "";
                          sample_index := 0; pass_index := 0; trial_id := None; sampling_seed := None |};
           task := {| task_benchmark := ""; task_id := ""; source_sha256 := ""; task_payload := [];
                      resources := {| executor := ""; cpu := 0; memory_bytes := 0; storage_bytes := 0;
                                      gpu_count := 0; accounting := "" |};
                      budgets := []; provenance := [] |};
           plan_payload := PNone |}.
Defined.

Section Run.
Context (c : Config) (plans : list EpisodePlan).

Definition plan_at (i : nat) : EpisodePlan := plans !!! i.
Definition group_at (i : nat) : group_key := group (plan_at i).
Definition need (i : nat) : ResourceRequirements := requirement (plan_at i).
Definition native : bool := bool_decide (policy c = "native-groups").
Definition waves : bool := bool_decide (policy c = "terminal-waves").

(** [indices_by_group[g]] and [expected[g]] *)
Definition indices_of (g : group_key) : list nat :=
  filter (fun i => group_at i = g) (seq 0 (length plans)).
Definition expected (g : group_key) : nat := length (indices_of g).

(** ** Validation before anything starts *)

Definition exceeds (r capacity : ResourceRequirements) : bool :=
  existsb (fun k => amount k capacity <? amount k r) QUANTITIES.

(** One pass of the validation loop over plans; [owners] is [stage_owners]. *)
Definition check_plan (owners : gmap string nat) (p : EpisodePlan) : res (gmap string nat) :=
  match backend_of (task_benchmark (task p)) (backends c) with
  | None => Err (ValueError ("no backend registered for " +:+ task_benchmark (task p)))
  | Some b =>
      let r := requirement p in
      let owner := default b (owners !! executor r) in
      raise_when staged r && negb (owner =? b)%nat with_exn
        ValueError ("backend-stage executor requires one authoritative backend owner: " +:+ executor r);
      raise_when match capacities c !! executor r with
                 | Some capacity => bool_decide (accounting r = "episode") && exceeds r capacity
                 | None => false
                 end with_exn
        ValueError ("episode exceeds executor capacity: " +:+ task_id (task p));
      Ok (if staged r then <[executor r := owner]> owners else owners)
  end.

Fixpoint check_plans (owners : gmap string nat) (ps : list EpisodePlan) : res unit :=
  match ps with
  | [] => Ok tt
  | p :: ps => owners' <-? check_plan owners p; check_plans owners' ps
  end.

(** A terminal wave must fit the workers and the (still empty) ledger. *)
Definition wave_ok (i : nat) : bool :=
  (Z.of_nat (expected (group_at i)) <=? max_workers c)
  && wave_fits (capacities c) empty_ledger (map need (indices_of (group_at i))).

Definition validate_run : res unit :=
  raise_when negb (distinct (map identity plans)) with_exn
    ValueError "duplicate episode identities";
  raise_when match plans with
             | [] => false
             | p :: ps => existsb (fun q => negb (bool_decide (run_id (identity q) = run_id (identity p)))) ps
             end with_exn
    ValueError "one coordinator cannot combine run identities";
  checked <-? check_plans ∅ plans;
  raise_when waves && negb (forallb wave_ok (seq 0 (length plans))) with_exn
    ValueError "terminal wave exceeds worker or executor capacity";
  Ok checked.

(** ** Admission *)

(** Charge the ledger, move the index from pending to active, log it. *)
Definition admit_plan (i : nat) (s : run_state) : run_state :=
  let s := set_ledger (charge (need i) 1 (ledger s)) s in
  let s := set_queue (remove_index i (pending s)) (active s ++ [i]) (results s) s in
  record_event (EvAdmitted i) s.

Definition hold (g : group_key) (s : run_state) : run_state :=
  set_groups (completed s) ({[g]} ∪ held_groups s) s.

(** The [for index in list(pending)] scan of the native policy. *)
Fixpoint admit_native (candidates : list nat) (blocked : list string) (s : run_state) : run_state :=
  match candidates with
  | [] => s
  | i :: rest =>
      if max_workers c <=? Z.of_nat (length (active s)) then s
      else if negb (bool_decide (group_at i ∈ held_groups s))
              && (max_groups c <=? Z.of_nat (size (held_groups s)))
      then admit_native rest blocked s
      else if bool_decide (executor (need i) ∈ blocked) then admit_native rest blocked s
      else if negb (fits (capacities c) (ledger s) (need i))
      then admit_native rest (executor (need i) :: blocked) s
      else admit_native rest blocked (admit_plan i (hold (group_at i) s))
  end.

(** A whole terminal wave, when no group is held. *)
Definition admit_wave (h : hook) (s : run_state) : run_state * flow :=
  match pending s with
  | i :: _ =>
      if waves && bool_decide (held_groups s = ∅) then
        let s := outside_cancel_s (outside h) s in
        match outcome h with
        | HookCancelled => (s, RaisedCancelled)
        | HookRaised name message =>
            (set_stop (Some ("group_admission_failure:" +:+ name +:+ ": " +:+ message))
                      (drain_deadline s) s, Go)
        | HookReturned _ =>
            if cancelled (token s)
            then (set_stop (str_or (reason (token s)) (Some "cancelled_during_group_admission"))
                           (drain_deadline s) s, Go)
            else (foldl (fun s j => admit_plan j s) (hold (group_at i) s) (indices_of (group_at i)), Go)
        end
      else (s, Go)
  | [] => (s, Go)
  end.

(** ** Drain deadline *)

Definition abandon (s : run_state) (i : nat) : run_state :=
  let s := if native then set_ledger (quarantine (need i) (ledger s)) s else s in
  let s := set_queue (pending s) (active s)
             (<[i := unresolved (plan_at i) "drain_timeout; worker termination remains unproven"]>
                (results s)) s in
  let s := record_event (EvDrainUnproven i) s in
  set_failures (i :: draining_tasks s) (lifecycle_failures s) s.

Definition abandon_all (s : run_state) : run_state :=
  let s := foldl abandon s (active s) in
  let s := if waves
           then set_ledger (quarantine_all
                  (map need (filter (fun i => group_at i ∈ held_groups s) (seq 0 (length plans))))
                  (ledger s)) s
           else s in
  set_queue (pending s) [] (results s) s.

(** ** Completion *)

(** What the environment says about one finished task: its index, what its
    backend gave, and the answer of [finish_group] should it be asked. *)
Record finished := { index : nat; backend : backend_outcome; closure : hook }.

(** Lines 515-518 and 476-485: the result decides whether its resources are
    released, stay quarantined, or wait for the wave, and whether admission stops. *)
Definition settle (i : nat) (r : EpisodeResult) (s : run_state) : run_state :=
  if negb (safe r) then
    let s := if native then set_ledger (quarantine (need i) (ledger s)) s else s in
    let why := if state_uncertain (request_state r)
               then "uncertain_model_request" else "cleanup_unproven" in
    let s := stop_with (Some why) s in
    let s := cancel_token (default "" (stopped s)) s in
    record_event (EvQuarantined i) s
  else if native then set_ledger (charge (need i) (-1) (ledger s)) s
  else s.

Definition stop_reasons (r : EpisodeResult) (s : run_state) : run_state :=
  let s := if bool_decide (failure_category r ∈ [Some "infrastructure"; Some "infrastructure_error"])
           then stop_with (Some "infrastructure_failure") s else s in
  let s := if bool_decide (execution_state r = "not_admitted")
           then stop_with (Some (py_str (default (PStr "backend_admission_stopped")
                                   (dict_get "reason" (native_outcome r))))) s else s in
  if bool_decide (verification_state r = "review_required")
  then stop_with (Some "verifier_review_required") s else s.

(** The closure a wave gets from [finish_group]: an exception is an uncertain one. *)
Definition closure_value (h : hook) : pyval :=
  match outcome h with
  | HookReturned v => v
  | HookCancelled => PDict [("uncertain", PBool true); ("error_type", PStr "CancelledError")]
  | HookRaised name _ => PDict [("uncertain", PBool true); ("error_type", PStr name)]
  end.

(** Release or quarantine the whole wave. *)
Definition close_wave (g : group_key) (i : nat) (h : hook) (s : run_state) : run_state * flow :=
  match mapM (fun j => results s !! j) (indices_of g) with
  | None => (s, RaisedError "KeyError" "")
  | Some observed =>
      let s := outside_cancel_s (outside h) s in
      let s := match outcome h with
               | HookCancelled => cancel_token "coordinator_cancelled_during_group_closure" s
               | _ => s
               end in
      let all_safe := forallb safe observed in
      match (if all_safe then request_uncertain (closure_value h) else Ok true) with
      | Err _ => (s, RaisedError "AttributeError" "get")
      | Ok unproven =>
          let verified := all_safe && negb unproven in
          let s := set_ledger
                     (if verified then charge_all (map need (indices_of g)) (-1) (ledger s)
                      else quarantine_all (map need (indices_of g)) (ledger s)) s in
          let s := if verified then s
                   else let s := stop_with (Some "group_closure_unproven") s in
                        cancel_token (default "" (stopped s)) s in
          (record_event (EvGroupFinished i verified) s, Go)
      end
  end.

Definition count_completed (g : group_key) (s : run_state) : run_state :=
  set_groups (<[g := S (default 0%nat (completed s !! g))]> (completed s)) (held_groups s) s.

(** [held_groups.remove(group)] raises [KeyError] when the group is not held. *)
Definition release_group (g : group_key) (s : run_state) : run_state * flow :=
  if bool_decide (g ∈ held_groups s)
  then (set_groups (completed s) (held_groups s ∖ {[g]}) s, Go)
  else (s, RaisedError "KeyError" "").

Definition finish_group (i : nat) (h : hook) (s : run_state) : run_state * flow :=
  let g := group_at i in
  if (default 0%nat (completed s !! g) =? expected g)%nat then
    match (if waves then close_wave g i h s else (s, Go)) with
    | (s, Go) => release_group g s
    | other => other
    end
  else (s, Go).

(** One pass of [for task in done]; [asyncio.wait] only reports active tasks. *)
Definition finish_task (f : finished) (s : run_state) : run_state * flow :=
  let i := index f in
  if negb (bool_decide (i ∈ active s)) then (s, Go)
  else
    let r := execute (plan_at i) (backend f) in
    let s := set_queue (pending s) (remove_index i (active s)) (<[i := r]> (results s)) s in
    let s := stop_reasons r (settle i r s) in
    let s := count_completed (group_at i) s in
    match finish_group i (closure f) s with
    | (s, Go) => (record_event (EvFinished i) s, Go)
    | other => other
    end.

Fixpoint finish_tasks (done : list finished) (s : run_state) : run_state * flow :=
  match done with
  | [] => (s, Go)
  | f :: done =>
      match finish_task f s with
      | (s, Go) => finish_tasks done s
      | other => other
      end
  end.

(** ** The loop *)

Inductive wait_outcome :=
| WaitCancelled
| WaitDone (done : list finished).

(** The answers to one pass of the loop. *)
Record pass := {
  outside_top : option string;
  now_cancelled : Z;
  admission : hook;
  now_drain : Z;
  waited : wait_outcome;
  outside_wait : option string }.

Definition observe_cancellation (e : pass) (s : run_state) : run_state :=
  let s := outside_cancel_s (outside_top e) s in
  if cancelled (token s)
  then set_stop (str_or (str_or (stopped s) (reason (token s))) (Some "cancelled"))
                (Some (default (now_cancelled e + drain_timeout c) (drain_deadline s))) s
  else s.

Definition admissions (e : pass) (s : run_state) : run_state * flow :=
  match stopped s with
  | Some _ => (s, Go)
  | None =>
      match admit_wave (admission e) s with
      | (s, Go) => (if native then admit_native (pending s) [] s else s, Go)
      | other => other
      end
  end.

Definition overdue (e : pass) (s : run_state) : bool :=
  match drain_deadline s with Some d => d <=? now_drain e | None => false end.

Definition loop_body (e : pass) (s : run_state) : run_state * flow :=
  match admissions e (observe_cancellation e s) with
  | (s, Go) =>
      if bool_decide (active s = []) then (s, Break)
      else if overdue e s then (abandon_all s, Break)
      else
        let s := outside_cancel_s (outside_wait e) s in
        match waited e with
        | WaitCancelled => (cancel_token "coordinator_cancelled" s, Go)
        | WaitDone done => finish_tasks done s
        end
  | other => other
  end.

(** [while pending or active]: [None] when the environment answers run out
    before the loop ends. *)
Fixpoint run_loop (passes : list pass) (s : run_state) : option (run_state * flow) :=
  if bool_decide (pending s = []) && bool_decide (active s = []) then Some (s, Break)
  else match passes with
       | [] => None
       | e :: passes =>
           match loop_body e s with
           | (s, Go) => run_loop passes s
           | other => Some other
           end
       end.

(** ** Starting and closing backends *)

(** [dict.fromkeys(plan.task.benchmark for plan in plans)] *)
Fixpoint first_uses (seen : list string) (names : list string) : list string :=
  match names with
  | [] => []
  | n :: names => if bool_decide (n ∈ seen) then first_uses seen names
                  else n :: first_uses (n :: seen) names
  end.

Fixpoint start_backends (names : list string) (hooks : list hook) (s : run_state)
  : run_state * flow :=
  match names with
  | [] => (s, Go)
  | n :: names =>
      if cancelled (token s)
      then (set_stop (str_or (reason (token s)) (Some "cancelled")) (drain_deadline s) s, Go)
      else
        match backend_of n (backends c) with
        | None => (s, RaisedError "KeyError" n)
        | Some b =>
            if bool_decide (b ∈ started s) then start_backends names hooks s
            else
              let s := set_started (started s ++ [b]) s in
              let (h, hooks) := match hooks with
                                | h :: hooks => (h, hooks)
                                | [] => ({| outcome := HookReturned PNone; outside := None |}, [])
                                end in
              let s := outside_cancel_s (outside h) s in
              match outcome h with
              | HookReturned _ => start_backends names hooks s
              | HookCancelled => (s, RaisedCancelled)
              | HookRaised name message => (s, RaisedError name message)
              end
        end
  end.

(** [_close_backend]: how the teardown of one backend ends, and whether the
    coordinator itself was cancelled while waiting for it. *)
Inductive close_end := CloseReturned | CloseTimeout | CloseCancelled | CloseRaised (name message : string).
Record close_answer := { close_result : close_end; close_waiter_cancelled : bool }.

Definition close_failure (e : close_end) : option string :=
  match e with
  | CloseReturned => None
  | CloseTimeout => Some "backend_close_timeout; cleanup remains unproven"
  | CloseCancelled => Some "backend_close_cancelled; cleanup remains unproven"
  | CloseRaised name message => Some ("backend_close_failure:" +:+ name +:+ ": " +:+ message)
  end.

Definition close_backend (b : nat) (a : close_answer) (s : run_state) : run_state * option string :=
  let s := if close_waiter_cancelled a
           then cancel_token "coordinator_cancelled_during_close" s else s in
  let s := match close_result a with
           | CloseTimeout => set_failures (b :: draining_tasks s) (lifecycle_failures s) s
           | _ => s
           end in
  (s, close_failure (close_result a)).

Fixpoint close_backends (bs : list nat) (answers : list close_answer) (s : run_state) : run_state :=
  match bs with
  | [] => s
  | b :: bs =>
      let (a, answers) := match answers with
                          | a :: answers => (a, answers)
                          | [] => ({| close_result := CloseReturned; close_waiter_cancelled := false |}, [])
                          end in
      match close_backend b a s with
      | (s, None) => close_backends bs answers s
      | (s, Some failure) =>
          close_backends bs answers
            (stop_with (Some failure)
               (set_failures (draining_tasks s) (lifecycle_failures s ++ [failure]) s))
      end
  end.

(** ** The exception handlers and the [finally] block *)

Definition handle (f : flow) (s : run_state) : run_state :=
  match f with
  | RaisedCancelled =>
      let s := cancel_token "coordinator_cancelled_during_lifecycle" s in
      set_stop (reason (token s)) (drain_deadline s) s
  | RaisedError name message =>
      let s := stop_with (Some ("coordinator_infrastructure_failure:" +:+ name +:+ ": " +:+ message)) s in
      set_failures (draining_tasks s) (lifecycle_failures s ++ [default "" (stopped s)]) s
  | Go | Break => s
  end.

(** An unexpected failure cannot prove that the active workers stopped. *)
Definition give_up_active (s : run_state) (i : nat) : run_state :=
  let why := default "" (str_or (stopped s) (Some "coordinator_infrastructure_failure")) in
  let s := cancel_token why s in
  let s := set_queue (pending s) (active s) (<[i := unresolved (plan_at i) why]> (results s)) s in
  let s := set_ledger (quarantine (need i) (ledger s)) s in
  set_failures (i :: draining_tasks s) (lifecycle_failures s) s.

Definition reject_pending (s : run_state) (i : nat) : run_state :=
  let why := default "" (str_or (stopped s) (Some "not_admitted")) in
  let s := set_queue (pending s) (active s) (<[i := not_admitted (plan_at i) why]> (results s)) s in
  record_event (EvNotAdmitted i) s.

Definition finalize (closes : list close_answer) (s : run_state) : run_state :=
  let s := foldl give_up_active s (active s) in
  let s := if bool_decide (draining_tasks s = [])
           then close_backends (rev (started s)) closes s else s in
  let s := if cancelled (token s)
           then stop_with (str_or (reason (token s)) (Some "cancelled")) s else s in
  foldl reject_pending s (pending s).

(** [[results[index] for index in range(len(plans))]] *)
Definition ordered (s : run_state) : res (list EpisodeResult) :=
  match mapM (fun i => results s !! i) (seq 0 (length plans)) with
  | Some rs => Ok rs
  | None => Err (KeyError "")
  end.

Definition initial (t : CancellationToken) : run_state :=
  {| token := t; ledger := empty_ledger; pending := seq 0 (length plans); active := [];
     results := ∅; completed := ∅; held_groups := ∅; stopped := None; drain_deadline := None;
     started := []; draining_tasks := []; lifecycle_failures := []; log := [] |}.

Record run_answers := {
  start_hooks : list hook;
  passes : list pass;
  close_answers : list close_answer }.

(** The body of the [try]: start the backends, then loop. *)
Definition try_body (a : run_answers) (t : CancellationToken) : option (run_state * flow) :=
  match start_backends (first_uses [] (map (fun p => task_benchmark (task p)) plans))
          (start_hooks a) (initial t) with
  | (s, Go) => run_loop (passes a) s
  | other => Some other
  end.

(** [Coordinator.run] on a fresh coordinator. *)
Definition run (a : run_answers) (t : CancellationToken)
  : option (res (list EpisodeResult) * run_state) :=
  match validate_run with
  | Err e => Some (Err e, initial t)
  | Ok _ =>
      match try_body a t with
      | None => None
      | Some (s, f) =>
          let s := finalize (close_answers a) (handle f s) in
          Some (ordered s, s)
      end
  end.
End Run.
