(* ===== verification/CoordinatorExample.v ===== *)
(** * Concrete coordinator runs

    Two episodes of one group on one executor, used as inputs of the witnesses:
    the first episode succeeds, the second backend raises. *)

From S2P Require Import Prelude PyValue Contracts Ledger Coordinator.
Local Open Scope Z_scope.

Definition example_resources (cpus : Z) : ResourceRequirements :=
  {| executor := "cpu-pool"; cpu := cpus; memory_bytes := cpus; storage_bytes := 0; gpu_count := 0;
     accounting := "episode" |}.

Definition example_plan (sample : Z) : EpisodePlan :=
  {| identity := {| run_id := "run"; benchmark := "kernelbench"; episode_task_id := "t"; group_id := "g";
                    sample_index := sample; pass_index := 0; trial_id := None; sampling_seed := None |};
     task := {| task_benchmark := "kernelbench"; task_id := "t"; source_sha256 := ""; task_payload := [];
                resources := example_resources 2; budgets := []; provenance := [] |};
     plan_payload := PNone |}.

Definition example_plans : list EpisodePlan := [example_plan 0; example_plan 1].

Definition example_config (policy : string) : Config :=
  {| backends := [("kernelbench", 7%nat)]; max_workers := 2; max_groups := 1;
     capacities := {["cpu-pool" := example_resources 4]}; drain_timeout := 30; policy := policy |}.

Definition example_result (p : EpisodePlan) : EpisodeResult :=
  {| result_identity := identity p; execution_state := "completed"; verification_state := "passed";
     score_eligible := true; cleanup_state := "verified"; native_outcome := [];
     native_artifacts := PDict []; usage := PNone; timings := PNone; failure_category := None;
     model_identity := None; request_state := None; configuration_sha256 := None;
     result_source_sha256 := None |}.

Definition quiet : hook := {| outcome := HookReturned PNone; outside := None |}.

Definition example_done : list finished :=
  [{| index := 0; backend := Returned (example_result (example_plan 0)); closure := quiet |};
   {| index := 1; backend := ExecuteRaised "RuntimeError" "boom"; closure := quiet |}].

Definition example_pass (now : Z) (done : list finished) : pass :=
  {| outside_top := None; now_cancelled := now; admission := quiet; now_drain := now;
     waited := WaitDone done; outside_wait := None |}.

Definition example_answers : run_answers :=
  {| start_hooks := [quiet]; passes := [example_pass 0 example_done; example_pass 1 []; example_pass 2 []];
     close_answers := [] |}.


