(* ===== verification/CoordinatorProofs.v ===== *)
(** * Correctness of coordinator runs

    Invariants of [Coordinator.run] over every environment: each plan gets one
    result of its own identity, the limits hold whenever the coordinator waits,
    and the ledger balances when the run ends. *)

From S2P Require Import Prelude PyValue Contracts Ledger Coordinator CoordinatorExample.
Local Open Scope Z_scope.

Section Proofs.
Context (c : Config) (plans : list EpisodePlan).
Local Abbreviation n := (length plans).
Local Abbreviation plan_at := (plan_at plans).
Local Abbreviation need := (need plans).
Local Abbreviation group_at := (group_at plans).

(** ** Which functions touch the queues *)

Definition same_queue (s s' : run_state) : Prop :=
  pending s' = pending s /\ active s' = active s /\ results s' = results s.

#[export] Instance same_queue_preorder : PreOrder same_queue.
Proof.
  split; [by repeat split|]. intros a b d (? & ? & ?) (? & ? & ?). repeat split; congruence.
Qed.

Ltac frame := repeat first [case_match | case_bool_decide | simplify_eq | progress simpl]; by repeat split.

Lemma settle_queue i r s : same_queue s (settle c plans i r s).
Proof. unfold settle. destruct (negb _), (native c); by repeat split. Qed.

Lemma stop_reasons_queue r s : same_queue s (stop_reasons r s).
Proof. unfold stop_reasons. repeat case_bool_decide; by repeat split. Qed.

Lemma close_wave_queue g i h s : same_queue s (close_wave plans g i h s).1.
Proof.
  unfold close_wave. destruct (mapM _ _); [|by repeat split].
  repeat case_match; by repeat split.
Qed.

Lemma finish_group_queue i h s : same_queue s (finish_group c plans i h s).1.
Proof.
  unfold finish_group, release_group. destruct (_ =? _)%nat; [|by repeat split].
  destruct (waves c).
  - pose proof (close_wave_queue (group_at i) i h s) as H.
    destruct (close_wave _ _ _ _ _) as [s' []]; simpl in *; try done.
    case_bool_decide; simpl; done.
  - case_bool_decide; by repeat split.
Qed.

Lemma observe_queue e s : same_queue s (observe_cancellation c e s).
Proof. unfold observe_cancellation. destruct (cancelled _); by repeat split. Qed.

(** ** Every plan is accounted for *)

Record Accounted (s : run_state) : Prop := {
  acc_nodup : NoDup (pending s ++ active s);
  acc_waiting : forall i, i ∈ pending s ++ active s -> (i < n)%nat /\ results s !! i = None;
  acc_covered : forall i, (i < n)%nat -> i ∈ pending s ++ active s \/ is_Some (results s !! i);
  acc_identity : forall i r, results s !! i = Some r -> result_identity r = identity (plan_at i) }.

Lemma Accounted_frame s s' : same_queue s s' -> Accounted s -> Accounted s'.
Proof. intros (Hp & Ha & Hr) [? ? ? ?]. constructor; rewrite ?Hp, ?Ha, ?Hr; done. Qed.

Lemma unresolved_identity p why : result_identity (unresolved p why) = identity p.
Proof. done. Qed.

Lemma execute_identity p o : result_identity (execute p o) = identity p.
Proof. destruct o; simpl; try done. by case_bool_decide. Qed.

Lemma initial_accounted t : Accounted (initial plans t).
Proof.
  constructor; simpl; rewrite ?app_nil_r.
  - apply NoDup_seq.
  - intros i Hi%elem_of_seq. split; [lia|apply lookup_empty].
  - intros i Hi. left. apply elem_of_seq. lia.
  - intros i r Hr. by rewrite lookup_empty in Hr.
Qed.

Lemma elem_of_remove_index j i l : j ∈ remove_index i l <-> j <> i /\ j ∈ l.
Proof. unfold remove_index. by rewrite list_elem_of_filter. Qed.

Lemma NoDup_remove_index i l : NoDup l -> NoDup (remove_index i l).
Proof. apply NoDup_filter. Qed.

Lemma admit_queue i s :
  pending (admit_plan plans i s) = remove_index i (pending s)
  /\ active (admit_plan plans i s) = active s ++ [i] /\ results (admit_plan plans i s) = results s.
Proof. done. Qed.

Lemma admit_accounted i s : i ∈ pending s -> Accounted s -> Accounted (admit_plan plans i s).
Proof.
  intros Hi [Hnd Hw Hc Hid].
  assert (Helem : forall j, j ∈ pending (admit_plan plans i s) ++ active (admit_plan plans i s)
                            <-> j ∈ pending s ++ active s).
  { intros j. simpl. rewrite !elem_of_app, elem_of_remove_index, list_elem_of_singleton.
    destruct (decide (j = i)) as [->|]; tauto. }
  constructor; simpl.
  - apply NoDup_app in Hnd as (Hp & Hx & Ha). apply NoDup_app. split_and!.
    + by apply NoDup_remove_index.
    + intros j [Hne Hj]%elem_of_remove_index Hja. apply elem_of_app in Hja as [Hja|Hja].
      * by eapply Hx. * by apply list_elem_of_singleton in Hja.
    + apply NoDup_app. split_and!; [done| |apply NoDup_singleton].
      intros j Hj ->%list_elem_of_singleton. by eapply Hx.
  - intros j Hj. apply Hw, Helem, Hj.
  - intros j Hj. destruct (Hc j Hj) as [?|?]; [|by right]. left. by apply Helem.
  - done.
Qed.

Lemma hold_queue g s : same_queue s (hold g s).
Proof. by repeat split. Qed.

Lemma admit_native_accounted cands blocked s :
  Accounted s -> NoDup cands -> (forall i, i ∈ cands -> i ∈ pending s) ->
  Accounted (admit_native c plans cands blocked s).
Proof.
  revert blocked s; induction cands as [|i cands IH]; intros blocked s Hs Hnd Hin; simpl; [done|].
  apply NoDup_cons in Hnd as [Hi Hnd].
  destruct (_ <=? _); [done|]. destruct (_ && _); [apply IH; set_solver|].
  case_bool_decide; [apply IH; set_solver|].
  destruct (negb _); [apply IH; set_solver|].
  apply IH; [|done|].
  - apply admit_accounted; [set_solver|]. by eapply Accounted_frame; [apply hold_queue|].
  - intros j Hj. simpl. apply elem_of_remove_index. split; [|set_solver]. by intros ->.
Qed.

Lemma admit_fold_accounted l s :
  Accounted s -> NoDup l -> (forall i, i ∈ l -> i ∈ pending s) ->
  Accounted (foldl (fun s j => admit_plan plans j s) s l).
Proof.
  revert s; induction l as [|i l IH]; intros s Hs Hnd Hin; simpl; [done|].
  apply NoDup_cons in Hnd as [Hi Hnd]. apply IH; [|done|].
  - apply admit_accounted; [set_solver|done].
  - intros j Hj. simpl. apply elem_of_remove_index. split; [|set_solver]. by intros ->.
Qed.

Lemma admit_fold_fields l s :
  let s' := foldl (fun s j => admit_plan plans j s) s l in
  (forall j, j ∈ pending s' <-> j ∈ pending s /\ j ∉ l) /\ active s' = active s ++ l
  /\ results s' = results s /\ held_groups s' = held_groups s /\ completed s' = completed s
  /\ stopped s' = stopped s /\ token s' = token s
  /\ ledger s' = charge_all (map need l) 1 (ledger s).
Proof.
  revert s; induction l as [|i l IH]; intros s; simpl.
  - rewrite app_nil_r. split_and!; try done. set_solver.
  - destruct (IH (admit_plan plans i s)) as (Hp & Ha & Hr & Hh & Hc & Hst & Ht & Hl).
    rewrite Ha, Hr, Hh, Hc, Hst, Ht, Hl. simpl. rewrite <- app_assoc. split_and!; try done.
    intros j. rewrite Hp. simpl. rewrite elem_of_remove_index. set_solver.
Qed.

(** The members of a group that have a result. *)
Definition finished_in (r : gmap nat EpisodeResult) (g : group_key) : list nat :=
  filter (fun i => is_Some (r !! i)) (indices_of plans g).

(** The loop invariant: plans are accounted for, a terminal wave is pending as a
    whole or not at all, active episodes' groups are held, and [completed]
    counts the finished members of each group. *)
Record Settled (s : run_state) : Prop := {
  settled_accounted : Accounted s;
  settled_whole : waves c = true -> forall i j, i ∈ pending s -> (j < n)%nat ->
                  group_at j = group_at i -> j ∈ pending s;
  settled_held : forall i, i ∈ active s -> group_at i ∈ held_groups s;
  settled_count : forall g, default 0%nat (completed s !! g) = length (finished_in (results s) g) }.

Lemma elem_of_indices_of g i : i ∈ indices_of plans g <-> group_at i = g /\ (i < n)%nat.
Proof.
  unfold indices_of. rewrite list_elem_of_filter, elem_of_seq. unfold Coordinator.group_at.
  split; intros [? ?]; split; try done; lia.
Qed.

Lemma NoDup_indices_of g : NoDup (indices_of plans g).
Proof. apply NoDup_filter, NoDup_seq. Qed.

Lemma initial_settled t : Settled (initial plans t).
Proof.
  constructor; simpl.
  - apply initial_accounted.
  - intros _ i j _ Hj _. apply elem_of_seq. lia.
  - set_solver.
  - intros g. rewrite lookup_empty. simpl. unfold finished_in.
    induction (indices_of plans g) as [|i l IH]; [done|].
    rewrite filter_cons_False; [done|]. rewrite lookup_empty. by intros [? ?].
Qed.

(** Fields that the loop invariant reads. *)
Definition same_shape (s s' : run_state) : Prop :=
  same_queue s s' /\ held_groups s' = held_groups s /\ completed s' = completed s.

Lemma Settled_frame s s' : same_shape s s' -> Settled s -> Settled s'.
Proof.
  intros (Hq & Hh & Hc) [Ha Hw Hheld Hcount]. pose proof Hq as (Hp & Hac & Hr).
  constructor; rewrite ?Hp, ?Hac, ?Hr, ?Hh, ?Hc; try done. by eapply Accounted_frame.
Qed.

Lemma observe_shape e s : same_shape s (observe_cancellation c e s).
Proof. unfold observe_cancellation. destruct (cancelled _); by repeat split. Qed.

Lemma settle_shape i r s : same_shape s (settle c plans i r s).
Proof. unfold settle. destruct (negb _), (native c); by repeat split. Qed.

Lemma stop_reasons_shape r s : same_shape s (stop_reasons r s).
Proof. unfold stop_reasons. repeat case_bool_decide; by repeat split. Qed.

Lemma close_wave_shape g i h s : same_shape s (close_wave plans g i h s).1.
Proof.
  unfold close_wave. destruct (mapM _ _); [|by repeat split]. repeat case_match; by repeat split.
Qed.

#[export] Instance same_shape_preorder : PreOrder same_shape.
Proof.
  split; [by repeat split|]. intros a b d (? & ? & ?) (? & ? & ?).
  split; [by etrans|]. split; congruence.
Qed.

Lemma native_not_waves : native c = true -> waves c = false.
Proof.
  unfold native, waves. intros H. apply bool_decide_eq_true in H. rewrite H.
  by apply bool_decide_eq_false.
Qed.

Lemma admit_native_settled cands blocked s :
  native c = true -> Settled s -> NoDup cands -> (forall i, i ∈ cands -> i ∈ pending s) ->
  Settled (admit_native c plans cands blocked s).
Proof.
  intros Hnat. revert blocked s; induction cands as [|i cands IH]; intros blocked s Hs Hnd Hin;
    simpl; [done|].
  apply NoDup_cons in Hnd as [Hi Hnd].
  destruct (_ <=? _); [done|]. destruct (_ && _); [apply IH; set_solver|].
  case_bool_decide; [apply IH; set_solver|].
  destruct (negb _); [apply IH; set_solver|].
  apply IH; [|done|].
  - destruct Hs as [Ha Hw Hheld Hcount]. constructor; simpl.
    + apply (admit_accounted i (hold (group_at i) s)); [set_solver|].
      by eapply Accounted_frame; [apply hold_queue|].
    + rewrite native_not_waves by done. done.
    + intros j. rewrite elem_of_app, list_elem_of_singleton. intros [Hj| ->]; set_solver.
    + done.
  - intros j Hj. simpl. apply elem_of_remove_index. split; [|set_solver]. by intros ->.
Qed.

Lemma admit_wave_settled h s : Settled s -> Settled (admit_wave c plans h s).1.
Proof.
  intros Hs. unfold admit_wave. destruct (pending s) as [|i rest] eqn:Hp; [done|].
  destruct (waves c) eqn:Hwav; simpl; [|done]. case_bool_decide as Hheld0; [|done].
  assert (Ho : same_shape s (outside_cancel_s (outside h) s)) by by repeat split.
  destruct (outcome h); [|by eapply Settled_frame; [|exact Hs]..].
  destruct (cancelled _); [by eapply Settled_frame; [|exact Hs]|]. simpl.
  set (s1 := hold (group_at i) (outside_cancel_s (outside h) s)).
  assert (Hs1 : Accounted s1) by (eapply Accounted_frame; [|apply Hs]; by repeat split).
  assert (Hsub : forall j, j ∈ indices_of plans (group_at i) -> j ∈ pending s1).
  { intros j [Hg Hj]%elem_of_indices_of. eapply (settled_whole s Hs Hwav i); try done.
    rewrite Hp. set_solver. }
  destruct (admit_fold_fields (indices_of plans (group_at i)) s1)
    as (Hpd & Ha & Hr & Hh & Hc & _ & _ & _).
  constructor.
  - apply admit_fold_accounted; [done|apply NoDup_indices_of|done].
  - intros _ k j Hk Hj Hg. apply Hpd in Hk as [Hk Hkn]. apply Hpd. split.
    + by eapply (settled_whole s Hs Hwav k).
    + intros [Hgj _]%elem_of_indices_of. apply Hkn, elem_of_indices_of. split; [congruence|].
      apply (acc_waiting s (settled_accounted s Hs)). by apply elem_of_app; left.
  - intros j. rewrite Ha, Hh. simpl. intros [Hj|Hj]%elem_of_app.
    + apply (settled_held s Hs) in Hj. set_solver.
    + apply elem_of_indices_of in Hj as [-> _]. set_solver.
  - intros g. rewrite Hc, Hr. apply (settled_count s Hs).
Qed.

Lemma admissions_settled e s : Settled s -> Settled (admissions c plans e s).1.
Proof.
  intros Hs. unfold admissions. destruct (stopped s); [done|].
  pose proof (admit_wave_settled (admission e) s Hs) as Hw.
  destruct (admit_wave _ _ _ _) as [s' []]; simpl in *; try done.
  destruct (native c) eqn:Hnat; [|done]. apply admit_native_settled; try done.
  pose proof (acc_nodup _ (settled_accounted _ Hw)) as Hnd. by apply NoDup_app in Hnd as [? _].
Qed.

(** ** Completions *)

Lemma finished_in_insert r g i x :
  r !! i = None -> (i < n)%nat ->
  length (finished_in (<[i := x]> r) g)
  = (length (finished_in r g) + if bool_decide (group_at i = g) then 1 else 0)%nat.
Proof.
  intros Hi Hn. unfold finished_in.
  assert (H : forall l, NoDup l ->
    length (filter (fun j => is_Some (<[i := x]> r !! j)) l)
    = (length (filter (fun j => is_Some (r !! j)) l) + if bool_decide (i ∈ l) then 1 else 0)%nat).
  { induction l as [|j l IH]; intros Hnd; [done|]. apply NoDup_cons in Hnd as [Hj Hnd].
    specialize (IH Hnd). rewrite !filter_cons.
    destruct (decide (i = j)) as [<-|Hne].
    - rewrite decide_True by (rewrite lookup_insert_eq; eauto).
      rewrite decide_False by (rewrite Hi; by intros [? ?]).
      rewrite (bool_decide_eq_true_2 (i ∈ i :: l)) by set_solver.
      rewrite bool_decide_eq_false_2 in IH by done. simpl. lia.
    - rewrite lookup_insert_ne by done.
      assert (Heq : bool_decide (i ∈ j :: l) = bool_decide (i ∈ l)).
      { apply bool_decide_ext. set_solver. }
      rewrite Heq. destruct (decide (is_Some (r !! j))); simpl; lia. }
  rewrite H by apply NoDup_indices_of. f_equal.
  rewrite (bool_decide_ext (i ∈ indices_of plans g) (group_at i = g)); [done|].
  rewrite elem_of_indices_of. tauto.
Qed.

(** The state after a task is taken from [active] and its result recorded. *)
Definition popped (i : nat) (r : EpisodeResult) (s : run_state) : run_state :=
  count_completed (group_at i)
    (stop_reasons r (settle c plans i r
      (set_queue (pending s) (remove_index i (active s)) (<[i := r]> (results s)) s))).

Lemma popped_shape i r s :
  pending (popped i r s) = pending s /\ active (popped i r s) = remove_index i (active s)
  /\ results (popped i r s) = <[i := r]> (results s)
  /\ held_groups (popped i r s) = held_groups s
  /\ completed (popped i r s)
     = <[group_at i := S (default 0%nat (completed s !! group_at i))]> (completed s).
Proof.
  unfold popped.
  set (s0 := set_queue _ _ _ _).
  destruct (settle_shape i r s0) as ((Hp & Ha & Hr) & Hh & Hc).
  destruct (stop_reasons_shape r (settle c plans i r s0)) as ((Hp' & Ha' & Hr') & Hh' & Hc').
  simpl. by rewrite Hp', Ha', Hr', Hh', Hc', Hp, Ha, Hr, Hh, Hc.
Qed.

Lemma popped_accounted i r s :
  i ∈ active s -> result_identity r = identity (plan_at i) -> Accounted s ->
  Accounted (popped i r s).
Proof.
  intros Hi Hid [Hnd Hw Hc Hres]. destruct (popped_shape i r s) as (Hp & Ha & Hr & _ & _).
  constructor; rewrite ?Hp, ?Ha, ?Hr.
  - apply NoDup_app in Hnd as (Hpn & Hx & Han). apply NoDup_app.
    split_and!; [done| |by apply NoDup_remove_index].
    intros j Hj Hja%elem_of_remove_index. by eapply Hx, Hja.
  - intros j Hj. apply elem_of_app in Hj as [Hj|Hj].
    + destruct (Hw j) as [? Hn]; [by apply elem_of_app; left|]. split; [done|].
      rewrite lookup_insert_ne; [done|]. intros <-.
      apply NoDup_app in Hnd as (_ & Hx & _). by eapply Hx.
    + apply elem_of_remove_index in Hj as [Hne Hj].
      destruct (Hw j) as [? Hn]; [by apply elem_of_app; right|]. split; [done|].
      by rewrite lookup_insert_ne.
  - intros j Hj. destruct (decide (i = j)) as [<-|Hne].
    + right. rewrite lookup_insert_eq. eauto.
    + rewrite lookup_insert_ne by done. destruct (Hc j Hj) as [Hin|?]; [left|by right].
      rewrite elem_of_app, elem_of_remove_index in *. naive_solver.
  - intros j r' Hj. destruct (decide (i = j)) as [<-|Hne].
    + rewrite lookup_insert_eq in Hj. by simplify_eq.
    + rewrite lookup_insert_ne in Hj by done. by apply Hres.
Qed.

Lemma finish_task_unfold f s :
  finish_task c plans f s
  = if negb (bool_decide (index f ∈ active s)) then (s, Go)
    else match finish_group c plans (index f) (closure f)
                 (popped (index f) (execute (plan_at (index f)) (backend f)) s) with
         | (s, Go) => (record_event (EvFinished (index f)) s, Go)
         | other => other
         end.
Proof. done. Qed.

Lemma finish_task_accounted f s : Accounted s -> Accounted (finish_task c plans f s).1.
Proof.
  intros Hs. rewrite finish_task_unfold. case_bool_decide as Hi; simpl; [|done].
  set (r := execute _ _).
  pose proof (popped_accounted (index f) r s Hi (execute_identity _ _) Hs) as Hpop.
  pose proof (finish_group_queue (index f) (closure f) (popped (index f) r s)) as Hq.
  destruct (finish_group _ _ _ _ _) as [s' []]; simpl in *;
    by eapply Accounted_frame; [|exact Hpop].
Qed.

(** A complete group has no active member left. *)
Lemma complete_group_inactive i r s :
  Settled s -> i ∈ active s -> result_identity r = identity (plan_at i) ->
  default 0%nat (completed (popped i r s) !! group_at i) = expected plans (group_at i) ->
  forall j, j ∈ active (popped i r s) -> group_at j <> group_at i.
Proof.
  intros Hs Hi Hid Hcount j Hj Hg. pose proof (popped_accounted i r s Hi Hid (settled_accounted s Hs)) as Hacc.
  destruct (acc_waiting _ Hacc j) as [Hjn Hnone]; [by apply elem_of_app; right|].
  destruct (popped_shape i r s) as (_ & _ & Hr & _ & Hc).
  rewrite Hc, lookup_insert_eq in Hcount. simpl in Hcount.
  rewrite (settled_count s Hs) in Hcount.
  destruct (acc_waiting s (settled_accounted s Hs) i) as [Hin Hinone]; [by apply elem_of_app; right|].
  assert (Hlen : length (finished_in (<[i := r]> (results s)) (group_at i)) = length (indices_of plans (group_at i))).
  { rewrite finished_in_insert, bool_decide_eq_true_2 by done. unfold expected in Hcount. lia. }
  unfold finished_in in Hlen. rewrite <- Hr in Hlen.
  assert (Hall : forall l, length (filter (fun j => is_Some (results (popped i r s) !! j)) l) = length l ->
                 Forall (fun j => is_Some (results (popped i r s) !! j)) l).
  { induction l as [|k l IH]; [constructor|]. rewrite filter_cons.
    pose proof (length_filter (fun j => is_Some (results (popped i r s) !! j)) l) as Hle.
    destruct (decide (is_Some (results (popped i r s) !! k))); cbn [length]; intros Hk; [|lia].
    constructor; [done|]. apply IH. lia. }
  apply Hall in Hlen. rewrite Forall_forall in Hlen.
  destruct (Hlen j) as [x Hx]; [by apply elem_of_indices_of|]. congruence.
Qed.

Lemma popped_settled_count i r s :
  Settled s -> i ∈ active s ->
  forall g, default 0%nat (completed (popped i r s) !! g)
            = length (finished_in (results (popped i r s)) g).
Proof.
  intros Hs Hi g. destruct (popped_shape i r s) as (_ & _ & -> & _ & ->).
  destruct (acc_waiting s (settled_accounted s Hs) i) as [Hin Hnone]; [by apply elem_of_app; right|].
  rewrite finished_in_insert by done.
  destruct (decide (group_at i = g)) as [<-|Hne].
  - rewrite lookup_insert_eq, bool_decide_eq_true_2 by done. simpl.
    rewrite (settled_count s Hs). lia.
  - rewrite lookup_insert_ne, bool_decide_eq_false_2 by done.
    rewrite (settled_count s Hs). lia.
Qed.

(** The pieces of [finish_group] on a settled state: no [KeyError], and the
    only fields it changes are the ledger, the token, the stop reason, the log
    and, when the group is complete, the set of held groups. *)
Lemma finish_group_go i h s s' :
  finish_group c plans i h s = (s', Go) ->
  same_queue s s' /\ completed s' = completed s
  /\ ((held_groups s' = held_groups s
       /\ default 0%nat (completed s !! group_at i) <> expected plans (group_at i))
      \/ (held_groups s' = held_groups s ∖ {[group_at i]}
          /\ default 0%nat (completed s !! group_at i) = expected plans (group_at i))).
Proof.
  intros H. pose proof (finish_group_queue i h s) as Hq. rewrite H in Hq. simpl in Hq.
  split; [done|]. unfold finish_group in H.
  destruct (_ =? _)%nat eqn:E; destr_bool; [|simplify_eq; auto].
  unfold release_group in H. destruct (waves c).
  - pose proof (close_wave_shape (group_at i) i h s) as (_ & Hh & Hc).
    destruct (close_wave _ _ _ _ _) as [s1 []]; simpl in *; try done.
    case_bool_decide; simplify_eq. simpl. rewrite Hc, Hh. auto.
  - case_bool_decide; simplify_eq. simpl. auto.
Qed.

Lemma finish_task_settled f s s' :
  Settled s -> finish_task c plans f s = (s', Go) -> Settled s'.
Proof.
  intros Hs. pose proof (finish_task_accounted f s (settled_accounted s Hs)) as Hacc.
  intros H. rewrite H in Hacc. simpl in Hacc. rewrite finish_task_unfold in H.
  case_bool_decide as Hi; simpl in H; [|by simplify_eq].
  set (i := index f) in *. set (r := execute (plan_at i) (backend f)) in *.
  destruct (finish_group _ _ _ _ _) as [s1 []] eqn:Hfg; simplify_eq.
  apply finish_group_go in Hfg as ((Hp & Ha & Hr) & Hc & Hcase).
  pose proof (popped_shape i r s) as (Hpp & Hpa & Hpr & Hph & Hpc).
  constructor; simpl.
  - done.
  - rewrite Hp, Hpp. apply (settled_whole s Hs).
  - rewrite Ha. intros j Hj. assert (Hheld : group_at j ∈ held_groups s).
    { apply (settled_held s Hs). rewrite Hpa in Hj. by apply elem_of_remove_index in Hj as [_ ?]. }
    rewrite <- Hph in Hheld. destruct Hcase as [[-> _]|[-> Hcount]]; [done|].
    apply elem_of_difference. split; [done|]. rewrite elem_of_singleton.
    by eapply complete_group_inactive; [| |apply execute_identity|exact Hcount|].
  - intros g. rewrite Hc, Hr. by apply popped_settled_count.
Qed.

Lemma finish_tasks_accounted done s : Accounted s -> Accounted (finish_tasks c plans done s).1.
Proof.
  revert s; induction done as [|f done IH]; intros s Hs; simpl; [done|].
  pose proof (finish_task_accounted f s Hs) as Hf.
  destruct (finish_task _ _ _ _) as [s' []]; simpl in *; auto.
Qed.

Lemma finish_tasks_settled done s s' :
  Settled s -> finish_tasks c plans done s = (s', Go) -> Settled s'.
Proof.
  revert s; induction done as [|f done IH]; intros s Hs H; simpl in H; [by simplify_eq|].
  destruct (finish_task _ _ _ _) as [s1 []] eqn:Hf; try done.
  eapply IH; [|exact H]. by eapply finish_task_settled.
Qed.

(** ** Drain, loop, and end of run *)

(** Every plan has a result or is still pending; identities are right. *)
Record Closed (s : run_state) : Prop := {
  closed_covered : forall i, (i < n)%nat -> i ∈ pending s ++ active s \/ is_Some (results s !! i);
  closed_identity : forall i r, results s !! i = Some r -> result_identity r = identity (plan_at i) }.

Lemma Accounted_Closed s : Accounted s -> Closed s.
Proof. intros [? ? ? ?]. by constructor. Qed.

Lemma abandon_fold l s :
  Closed s ->
  let s' := foldl (abandon c plans) s l in
  Closed s' /\ pending s' = pending s /\ active s' = active s
  /\ (forall i, i ∈ l -> is_Some (results s' !! i))
  /\ (forall i, is_Some (results s !! i) -> is_Some (results s' !! i)).
Proof.
  revert s; induction l as [|i l IH]; intros s Hs; simpl.
  - split_and!; try done. set_solver.
  - assert (Hs' : Closed (abandon c plans s i)).
    { destruct Hs as [Hc Hid]. unfold abandon. destruct (native c); constructor; simpl.
      all: try (intros j Hj; destruct (Hc j Hj) as [?|?]; [by left|right];
        destruct (decide (i = j)) as [<-|]; [rewrite lookup_insert_eq; eauto|by rewrite lookup_insert_ne]).
      all: intros j r Hj; destruct (decide (i = j)) as [<-|];
        [rewrite lookup_insert_eq in Hj; by simplify_eq|rewrite lookup_insert_ne in Hj by done; by apply Hid]. }
    destruct (IH _ Hs') as (Hcl & Hp & Ha & Hin & Hkeep).
    assert (Hq : pending (abandon c plans s i) = pending s /\ active (abandon c plans s i) = active s
                 /\ results (abandon c plans s i)
                    = <[i := unresolved (plan_at i) "drain_timeout; worker termination remains unproven"]> (results s)).
    { unfold abandon. by destruct (native c). }
    destruct Hq as (Hq1 & Hq2 & Hq3). rewrite Hp, Ha, Hq1, Hq2.
    split_and!; try done.
    + intros j [->|Hj]%elem_of_cons; [|by apply Hin]. apply Hkeep. rewrite Hq3, lookup_insert_eq. eauto.
    + intros j Hj. apply Hkeep. rewrite Hq3. destruct (decide (i = j)) as [<-|];
        [rewrite lookup_insert_eq; eauto|by rewrite lookup_insert_ne].
Qed.

Lemma abandon_all_closed s : Accounted s -> Closed (abandon_all c plans s).
Proof.
  intros Hs. unfold abandon_all.
  destruct (abandon_fold (active s) s (Accounted_Closed s Hs)) as (Hcl & Hp & Ha & Hin & Hkeep).
  destruct Hcl as [Hc Hid].
  destruct (waves c); constructor; simpl; try done; intros i Hi;
    (destruct (Hc i Hi) as [Hx|?]; [|by right]);
    rewrite app_nil_r; apply elem_of_app in Hx as [?|Hx]; auto; right; apply Hin;
    by rewrite Ha in Hx.
Qed.

Lemma loop_body_go e s s' :
  Settled s -> loop_body c plans e s = (s', Go) -> Settled s'.
Proof.
  intros Hs H. unfold loop_body in H.
  assert (Ho : Settled (observe_cancellation c e s)) by (eapply Settled_frame; [apply observe_shape|done]).
  pose proof (admissions_settled e _ Ho) as Had.
  destruct (admissions _ _ _ _) as [s1 []]; simpl in *; try done.
  case_bool_decide; [done|]. destruct (overdue e s1); [done|].
  assert (Hout : Settled (outside_cancel_s (outside_wait e) s1))
    by (eapply Settled_frame; [|exact Had]; by repeat split).
  destruct (waited e) as [|done].
  - simplify_eq. eapply Settled_frame; [|exact Hout]. by repeat split.
  - by eapply finish_tasks_settled.
Qed.

Lemma loop_body_closed e s : Settled s -> Closed (loop_body c plans e s).1.
Proof.
  intros Hs. unfold loop_body.
  assert (Ho : Settled (observe_cancellation c e s)) by (eapply Settled_frame; [apply observe_shape|done]).
  pose proof (admissions_settled e _ Ho) as Had.
  destruct (admissions _ _ _ _) as [s1 f] eqn:E. simpl in Had.
  assert (Hcl : Closed s1) by apply Accounted_Closed, Had.
  destruct f; simpl; try done.
  case_bool_decide; simpl; [done|]. destruct (overdue e s1); simpl.
  - apply abandon_all_closed, Had.
  - assert (Hout : Accounted (outside_cancel_s (outside_wait e) s1))
      by (eapply Accounted_frame; [|apply Had]; by repeat split).
    destruct (waited e) as [|done]; simpl.
    + apply Accounted_Closed. eapply Accounted_frame; [|exact Hout]. by repeat split.
    + by apply Accounted_Closed, finish_tasks_accounted.
Qed.

Lemma run_loop_closed passes s s' f :
  Settled s -> run_loop c plans passes s = Some (s', f) -> Closed s'.
Proof.
  revert s; induction passes as [|e passes IH]; intros s Hs H; simpl in H.
  - destruct (_ && _); simplify_eq. apply Accounted_Closed, Hs.
  - destruct (_ && _); [simplify_eq; apply Accounted_Closed, Hs|].
    pose proof (loop_body_closed e s Hs) as Hcl.
    destruct (loop_body _ _ _ _) as [s1 []] eqn:E; simpl in *; simplify_eq; try done.
    eapply IH; [|exact H]. by eapply loop_body_go.
Qed.

(** A fold that records one result per listed index. *)
Lemma record_fold (step : run_state -> nat -> run_state) (value : run_state -> nat -> EpisodeResult) :
  (forall s i, pending (step s i) = pending s /\ active (step s i) = active s
               /\ results (step s i) = <[i := value s i]> (results s)) ->
  (forall s i, result_identity (value s i) = identity (plan_at i)) ->
  forall l s, Closed s ->
  let s' := foldl step s l in
  Closed s' /\ pending s' = pending s /\ active s' = active s
  /\ (forall i, i ∈ l -> is_Some (results s' !! i))
  /\ (forall i, is_Some (results s !! i) -> is_Some (results s' !! i)).
Proof.
  intros Hq Hid. induction l as [|i l IH]; intros s Hs; simpl; [by split_and!; set_solver|].
  destruct (Hq s i) as (Hp & Ha & Hr).
  assert (Hs' : Closed (step s i)).
  { destruct Hs as [Hc Hi]. constructor; rewrite ?Hp, ?Ha, ?Hr.
    - intros j Hj. destruct (Hc j Hj) as [?|?]; [by left|right].
      destruct (decide (i = j)) as [<-|]; [rewrite lookup_insert_eq; eauto|by rewrite lookup_insert_ne].
    - intros j r Hj. destruct (decide (i = j)) as [<-|];
        [rewrite lookup_insert_eq in Hj; by simplify_eq|rewrite lookup_insert_ne in Hj by done; by apply Hi]. }
  destruct (IH _ Hs') as (Hcl & Hp' & Ha' & Hin & Hkeep). rewrite Hp', Ha', Hp, Ha.
  split_and!; try done.
  - intros j [->|Hj]%elem_of_cons; [|by apply Hin]. apply Hkeep. rewrite Hr, lookup_insert_eq. eauto.
  - intros j Hj. apply Hkeep. rewrite Hr. destruct (decide (i = j)) as [<-|];
      [rewrite lookup_insert_eq; eauto|by rewrite lookup_insert_ne].
Qed.

Lemma close_backends_queue bs answers s : same_queue s (close_backends bs answers s).
Proof.
  revert answers s; induction bs as [|b bs IH]; intros answers s; simpl; [by repeat split|].
  destruct answers as [|a answers]; simpl.
  - etrans; [|apply IH]. by repeat split.
  - unfold close_backend. destruct (close_result a); simpl; (etrans; [|apply IH]);
      destruct (close_waiter_cancelled a); by repeat split.
Qed.

Lemma handle_queue f s : same_queue s (handle f s).
Proof. destruct f; by repeat split. Qed.

Lemma Closed_frame s s' : same_queue s s' -> Closed s -> Closed s'.
Proof. intros (Hp & Ha & Hr) [? ?]. constructor; rewrite ?Hp, ?Ha, ?Hr; done. Qed.

Lemma finalize_complete closes s :
  Closed s ->
  (forall i, (i < n)%nat -> is_Some (results (finalize plans closes s) !! i))
  /\ Closed (finalize plans closes s).
Proof.
  intros Hs. unfold finalize.
  set (s1 := foldl (give_up_active plans) s (active s)).
  destruct (record_fold (give_up_active plans)
    (fun s i => unresolved (plan_at i)
       (default "" (str_or (stopped s) (Some "coordinator_infrastructure_failure")))))
    with (l := active s) (s := s) as (Hc1 & Hp1 & Ha1 & Hin1 & Hk1); try done.
  fold s1 in Hc1, Hp1, Ha1, Hin1, Hk1.
  set (s2 := if bool_decide (draining_tasks s1 = []) then _ else _).
  assert (Hq2 : same_queue s1 s2) by (unfold s2; case_bool_decide; [apply close_backends_queue|done]).
  set (s3 := if cancelled (token s2) then _ else _).
  assert (Hq3 : same_queue s2 s3) by (unfold s3; destruct (cancelled _); by repeat split).
  assert (Hq : same_queue s1 s3) by by etrans.
  assert (Hc3 : Closed s3) by by eapply Closed_frame.
  destruct (record_fold (reject_pending plans)
    (fun s i => not_admitted (plan_at i) (default "" (str_or (stopped s) (Some "not_admitted")))))
    with (l := pending s3) (s := s3) as (Hc4 & Hp4 & Ha4 & Hin4 & Hk4); try done.
  split; [|done]. intros i Hi. destruct Hq as (Hqp & Hqa & Hqr).
  destruct (closed_covered _ Hc3 i Hi) as [Hx|Hx]; [|by apply Hk4].
  apply elem_of_app in Hx as [Hx|Hx]; [by apply Hin4|].
  apply Hk4. rewrite Hqr. apply Hin1. by rewrite Hqa, Ha1 in Hx.
Qed.

Lemma start_backends_shape names hooks s : same_shape s (start_backends c names hooks s).1.
Proof.
  revert hooks s; induction names as [|x names IH]; intros hooks s; simpl; [by repeat split|].
  destruct (cancelled _); [by repeat split|]. destruct (backend_of _ _); [|by repeat split].
  case_bool_decide; [apply IH|].
  destruct hooks as [|h hooks]; simpl.
  - etrans; [|apply IH]. by repeat split.
  - destruct (outcome h); simpl; [etrans; [|apply IH]|..]; by repeat split.
Qed.

Lemma try_body_closed a t s f : try_body c plans a t = Some (s, f) -> Closed s.
Proof.
  unfold try_body. pose proof (start_backends_shape
    (first_uses [] (map (fun p => task_benchmark (task p)) plans)) (start_hooks a) (initial plans t)) as Hsh.
  destruct (start_backends _ _ _ _) as [s0 []]; simpl in Hsh; intros H; simplify_eq;
    try (apply Accounted_Closed; eapply Accounted_frame; [apply Hsh|apply initial_accounted]).
  eapply run_loop_closed; [|exact H]. eapply Settled_frame; [exact Hsh|apply initial_settled].
Qed.

Lemma ordered_complete s :
  (forall i, (i < n)%nat -> is_Some (results s !! i)) -> Closed s ->
  exists rs, ordered plans s = Ok rs /\ map result_identity rs = map identity plans.
Proof.
  intros Hall Hcl. unfold ordered.
  assert (H : forall k m, (m + k <= n)%nat ->
    exists rs, mapM (fun i => results s !! i) (seq m k) = Some rs
               /\ map result_identity rs = map identity (take k (drop m plans))).
  { induction k as [|k IH]; intros m Hm; [by exists []|].
    destruct (Hall m) as [r Hr]; [lia|]. destruct (IH (S m)) as [rs [Hrs Hid]]; [lia|].
    exists (r :: rs). simpl. rewrite Hr. simpl. rewrite Hrs. split; [done|].
    assert (Hp : plans !! m = Some (plan_at m)).
    { unfold Coordinator.plan_at. apply list_lookup_lookup_total_lt. lia. }
    rewrite (drop_S _ _ _ Hp). simpl. rewrite Hid. by rewrite (closed_identity s Hcl m r Hr). }
  destruct (H n 0%nat) as [rs [Hrs Hid]]; [lia|]. exists rs. rewrite Hrs. split; [done|].
  rewrite Hid. simpl. by rewrite firstn_all.
Qed.
End Proofs.

(** C1. A run that ends gives every plan exactly one result: whatever the
    backends, hooks, clocks and cancellations do, once validation passes the
    results are complete, in plan order, and carry the plans' identities. *)
Theorem run_accounts_for_every_plan c plans a t r s :
  validate_run c plans = Ok tt -> run c plans a t = Some (r, s) ->
  exists rs, r = Ok rs /\ map result_identity rs = map identity plans.
Proof.
  intros Hv. unfold run. rewrite Hv. destruct (try_body _ _ _ _) as [[s0 f]|] eqn:Htry; [|done].
  intros [= <- <-]. apply try_body_closed in Htry.
  assert (Hh : Closed plans (handle f s0)) by (eapply Closed_frame; [apply handle_queue|done]).
  destruct (finalize_complete plans (close_answers a) (handle f s0) Hh) as [Hall Hcl].
  by apply ordered_complete.
Qed.

Lemma run_accounts_for_every_plan_witness :
  validate_run (example_config "terminal-waves") example_plans = Ok tt
  /\ exists r s, run (example_config "terminal-waves") example_plans example_answers new_token = Some (r, s)
     /\ exists rs, r = Ok rs /\ map result_identity rs = map identity example_plans.
Proof.
  assert (Hv : validate_run (example_config "terminal-waves") example_plans = Ok tt) by reflexivity.
  split; [exact Hv|].
  destruct (run (example_config "terminal-waves") example_plans example_answers new_token)
    as [[r s]|] eqn:E; [|vm_compute in E; discriminate E].
  exists r, s. split; [reflexivity|]. exact (run_accounts_for_every_plan _ _ _ _ _ _ Hv E).
Defined.
