(* ===== verification/CoordinatorLimits.v ===== *)
(** * Limits and ledger balance of coordinator runs

    Whenever the coordinator waits, the worker, group and executor limits hold;
    when a native run ends, exactly what is quarantined is still reserved. *)

From S2P Require Import Prelude PyValue Contracts Ledger Coordinator CoordinatorExample CoordinatorProofs.
Local Open Scope Z_scope.

Section Limits.
Context (c : Config) (plans : list EpisodePlan).
Local Abbreviation n := (length plans).
Local Abbreviation need := (need plans).
Local Abbreviation group_at := (group_at plans).

(** States at the head of the loop. *)
Inductive reachable : run_state -> Prop :=
| reach_start hooks t s :
    start_backends c (first_uses [] (map (fun p => task_benchmark (task p)) plans)) hooks (initial plans t)
    = (s, Go) -> reachable s
| reach_pass e s s' : reachable s -> loop_body c plans e s = (s', Go) -> reachable s'.

(** The state in which a pass waits for its active tasks. *)
Definition waiting (e : pass) (s : run_state) : run_state :=
  (admissions c plans e (observe_cancellation c e s)).1.

(** The members of the held groups. *)
Definition held_members (h : gset group_key) : list nat :=
  filter (fun i => group_at i ∈ h) (seq 0 n).

Record Limits (s : run_state) : Prop := {
  limit_workers : Z.of_nat (length (active s)) <= max_workers c;
  limit_groups : Z.of_nat (size (held_groups s)) <= max_groups c;
  limit_capacity : within_capacity (capacities c) (ledger s);
  limit_wave : waves c = true -> stopped s = None -> forall e k,
    qget k (held (reserved (ledger s)) e) = total e k (map need (held_members (held_groups s))) }.

Lemma total_map_filter e k (P : nat -> bool) l :
  total e k (map need (filter (fun i => P i = true) l))
  = list_sum_Z (map (fun i => if P i then share e k (need i) else 0) l).
Proof.
  induction l as [|i l IH]; [done|]. rewrite filter_cons.
  destruct (P i) eqn:E.
  - rewrite decide_True by done. cbn [map]. rewrite list_sum_Z_cons, total_cons, IH, E. done.
  - rewrite decide_False by congruence. cbn [map]. rewrite list_sum_Z_cons, IH, E. done.
Qed.

Lemma held_members_total e k h :
  total e k (map need (held_members h))
  = list_sum_Z (map (fun i => if bool_decide (group_at i ∈ h) then share e k (need i) else 0) (seq 0 n)).
Proof.
  rewrite <- total_map_filter. unfold held_members. do 2 f_equal.
  apply list_filter_iff. intros i. by rewrite bool_decide_eq_true.
Qed.

Lemma indices_total e k g :
  total e k (map need (indices_of plans g))
  = list_sum_Z (map (fun i => if bool_decide (group_at i = g) then share e k (need i) else 0) (seq 0 n)).
Proof.
  rewrite <- total_map_filter. unfold indices_of. do 2 f_equal.
  apply list_filter_iff. intros i. by rewrite bool_decide_eq_true.
Qed.

(** Removing a held group removes its members' share. *)
Lemma held_members_remove e k g h :
  g ∈ h ->
  total e k (map need (held_members (h ∖ {[g]})))
  = total e k (map need (held_members h)) - total e k (map need (indices_of plans g)).
Proof.
  intros Hg. rewrite !held_members_total, indices_total.
  induction (seq 0 n) as [|i l IH]; [done|]. cbn [map]. rewrite !list_sum_Z_cons, IH.
  destruct (decide (group_at i = g)) as [<-|Hne].
  - rewrite (bool_decide_eq_true_2 (group_at i = group_at i)), (bool_decide_eq_true_2 (group_at i ∈ h)) by done.
    rewrite bool_decide_eq_false_2 by set_solver. lia.
  - rewrite (bool_decide_eq_false_2 (group_at i = g)) by done.
    rewrite (bool_decide_ext (group_at i ∈ h ∖ {[g]}) (group_at i ∈ h)) by set_solver. lia.
Qed.

Lemma held_members_single g e k :
  total e k (map need (held_members ({[g]} ∪ ∅))) = total e k (map need (indices_of plans g)).
Proof.
  rewrite held_members_total, indices_total. f_equal. apply map_ext. intros i.
  by rewrite (bool_decide_ext (group_at i ∈ {[g]} ∪ ∅) (group_at i = g)) by set_solver.
Qed.

Lemma held_members_empty e k : total e k (map need (held_members ∅)) = 0.
Proof.
  rewrite held_members_total. induction (seq 0 n) as [|i l IH]; [done|]. cbn [map].
  rewrite list_sum_Z_cons, IH, bool_decide_eq_false_2 by set_solver. done.
Qed.

(** What the constructors of the arguments guarantee. *)
Context (workers_pos : 1 <= max_workers c) (groups_pos : 1 <= max_groups c).
Context (one_wave : waves c = true -> max_groups c = 1).
Context (nonneg : Forall (fun p => forall k, 0 <= amount k (requirement p)) plans).
Context (validated : validate_run c plans = Ok tt).

Lemma need_nonneg i k : (i < n)%nat -> 0 <= amount k (need i).
Proof.
  intros Hi. rewrite Forall_forall in nonneg. apply nonneg.
  apply list_elem_of_lookup_2 with i. by apply list_lookup_lookup_total_lt.
Qed.

Lemma validated_wave i : waves c = true -> (i < n)%nat -> wave_ok c plans i = true.
Proof.
  intros Hw Hi. revert validated. unfold validate_run.
  destruct (negb (distinct _)); [done|]. destruct (match plans with [] => _ | _ => _ end); [done|].
  destruct (check_plans _ _ _); [|done]. rewrite Hw. simpl.
  destruct (forallb _ _) eqn:E; [|done]. intros _. rewrite forallb_forall in E.
  apply E. apply list_elem_of_In, elem_of_seq. lia.
Qed.

Lemma Forall_need l : Forall (fun i => (i < n)%nat) l ->
  Forall (fun r => forall k, 0 <= amount k r) (map need l).
Proof.
  intros Hl. apply Forall_fmap. eapply Forall_impl; [exact Hl|]. intros i Hi k. by apply need_nonneg.
Qed.

Lemma Forall_indices_of g : Forall (fun i => (i < n)%nat) (indices_of plans g).
Proof. apply Forall_forall. intros i Hi. by apply elem_of_indices_of in Hi as [_ ?]. Qed.

(** ** Preservation *)

Definition same_limits (s s' : run_state) : Prop :=
  active s' = active s /\ held_groups s' = held_groups s /\ ledger s' = ledger s
  /\ (stopped s' = None -> stopped s = None).

Lemma Limits_frame s s' : same_limits s s' -> Limits s -> Limits s'.
Proof.
  intros (Ha & Hh & Hl & Hst) [? ? ? Hw]. constructor; rewrite ?Ha, ?Hh, ?Hl; auto.
Qed.

Lemma initial_limits t : Limits (initial plans t).
Proof.
  constructor; simpl; [lia| | |].
  - change (Z.of_nat (size (∅ : gset group_key)) <= max_groups c). rewrite size_empty. lia.
  - apply empty_within.
  - intros _ _ e k. by rewrite held_empty, held_members_empty.
Qed.

Lemma str_or_some a b : str_or a (Some b) <> None.
Proof. destruct a; simpl; [by case_bool_decide|done]. Qed.

Lemma observe_limits e s : Limits s -> Limits (observe_cancellation c e s).
Proof.
  apply Limits_frame. unfold observe_cancellation. destruct (cancelled _); [|done].
  repeat split. simpl. intros Hs. by apply str_or_some in Hs.
Qed.

Lemma admit_native_limits cands blocked s :
  native c = true -> Limits s -> Limits (admit_native c plans cands blocked s).
Proof.
  intros Hnat. revert blocked s; induction cands as [|i cands IH]; intros blocked s Hs; simpl; [done|].
  destruct (_ <=? _) eqn:Hwk; [done|]. destruct (negb _ && _) eqn:Hgr; [by apply IH|].
  destruct (bool_decide (executor (need i) ∈ blocked)); [by apply IH|].
  destruct (fits _ _ _) eqn:Hfit; simpl; [|by apply IH]. apply IH.
  destruct Hs as [Hlw Hlg Hlc Hlv]. destr_bool. constructor; simpl.
  - rewrite length_app. simpl. lia.
  - destruct (decide (group_at i ∈ held_groups s)) as [Hin|Hin].
    + by replace ({[group_at i]} ∪ held_groups s) with (held_groups s) by set_solver.
    + rewrite size_union by set_solver. rewrite size_singleton.
      rewrite bool_decide_eq_false_2 in Hgr by done. simpl in Hgr. destr_bool. lia.
  - by apply fits_within.
  - rewrite native_not_waves by done. done.
Qed.

Lemma admit_wave_limits h s :
  Settled c plans s -> stopped s = None -> Limits s -> Limits (admit_wave c plans h s).1.
Proof.
  intros Hset Hst Hs. unfold admit_wave. destruct (pending s) as [|i rest] eqn:Hp; [done|].
  destruct (waves c) eqn:Hwav in |- *; simpl; [|done]. case_bool_decide as Hheld0; [|done].
  destruct (outcome h); try (eapply Limits_frame; [|exact Hs]; by repeat split).
  destruct (cancelled _).
  { simpl. eapply Limits_frame; [|exact Hs]. repeat split. simpl. intros H. by apply str_or_some in H. }
  simpl. set (s1 := hold (group_at i) (outside_cancel_s (outside h) s)).
  destruct (admit_fold_fields plans (indices_of plans (group_at i)) s1)
    as (_ & Ha & _ & Hh & _ & Hst' & _ & Hl).
  assert (Hi : (i < n)%nat).
  { apply (acc_waiting plans s (settled_accounted c plans s Hset)). rewrite Hp. set_solver. }
  pose proof (validated_wave i Hwav Hi) as Hok. unfold wave_ok in Hok. destr_bool.
  assert (Hact : active s = []).
  { destruct (active s) as [|j l] eqn:E; [done|].
    assert (Hj : group_at j ∈ held_groups s) by (apply (settled_held c plans s Hset); rewrite E; set_solver).
    rewrite Hheld0 in Hj. set_solver. }
  assert (Hzero : forall e k, qget k (held (reserved (ledger s)) e) = 0).
  { intros e k. by rewrite (limit_wave s Hs Hwav Hst), Hheld0, held_members_empty. }
  constructor.
  - rewrite Ha. simpl. rewrite Hact. done.
  - rewrite Hh. simpl. rewrite Hheld0, (right_id_L ∅ (∪)), size_singleton. lia.
  - rewrite Hl. apply wave_fits_within; [apply Hs|].
    rewrite <- H0. apply wave_fits_ext. intros e k. simpl. rewrite Hzero. by rewrite held_empty.
  - intros _ _ e k. rewrite Hl, Hh, reserved_charge_all. simpl.
    rewrite Hzero, Hheld0, held_members_single. lia.
Qed.

Lemma admissions_limits e s :
  Settled c plans s -> Limits s -> Limits (admissions c plans e s).1.
Proof.
  intros Hset Hs. unfold admissions. destruct (stopped s) eqn:Hst; [done|].
  pose proof (admit_wave_limits (admission e) s Hset Hst Hs) as Hw.
  destruct (admit_wave _ _ _ _) as [s' []]; simpl in *; try done.
  destruct (native c) eqn:Hnat; [|done]. by apply admit_native_limits.
Qed.

Lemma settle_limits i r s : (i < n)%nat -> Limits s -> Limits (settle c plans i r s).
Proof.
  intros Hi Hs. unfold settle. destruct (negb (safe r)).
  - destruct (native c) eqn:Hnat.
    + destruct Hs as [? ? Hc _]. constructor; simpl; try done.
      * eapply within_same_reserved; [apply reserved_quarantine|done].
      * by rewrite native_not_waves.
    + eapply Limits_frame; [|exact Hs]. repeat split. simpl. intros H. by apply str_or_some in H.
  - destruct (native c) eqn:Hnat; [|done].
    destruct Hs as [? ? Hc _]. constructor; simpl; try done.
    + apply within_release; [|done]. intros k. by apply need_nonneg.
    + by rewrite native_not_waves.
Qed.

Lemma stop_reasons_limits r s : Limits s -> Limits (stop_reasons r s).
Proof.
  apply Limits_frame. unfold stop_reasons. repeat case_bool_decide; repeat split; simpl;
    intros H'; first [done | by apply str_or_some in H'].
Qed.

Lemma queue_limits i r s :
  Limits s -> Limits (set_queue (pending s) (remove_index i (active s)) r s).
Proof.
  intros [? ? ? ?]. constructor; simpl; try done.
  assert ((length (remove_index i (active s)) <= length (active s))%nat) by apply length_filter. lia.
Qed.

Lemma popped_limits i r s : (i < n)%nat -> Limits s -> Limits (popped c plans i r s).
Proof.
  intros Hi Hs. unfold popped. eapply Limits_frame with (s := stop_reasons r _); [by repeat split|].
  apply stop_reasons_limits, settle_limits; [done|]. by apply queue_limits.
Qed.

Lemma finish_group_limits i h s s' :
  group_at i ∈ held_groups s -> Limits s ->
  finish_group c plans i h s = (s', Go) -> Limits s'.
Proof.
  intros Hheld Hs. unfold finish_group, release_group. destruct (_ =? _)%nat; [|by intros [= <-]].
  assert (Hsize : Z.of_nat (size (held_groups s ∖ {[group_at i]})) <= max_groups c).
  { pose proof (subseteq_size (held_groups s ∖ {[group_at i]}) (held_groups s)).
    pose proof (limit_groups s Hs). specialize (H ltac:(set_solver)). lia. }
  destruct (waves c) eqn:Hwav in |- *.
  - unfold close_wave. destruct (mapM _ _) as [observed|]; [|done].
    destruct (if forallb safe observed then _ else _) as [u|]; [|done].
    set (s0 := match outcome h with HookCancelled => _ | _ => _ end).
    assert (Hs0 : Limits s0 /\ held_groups s0 = held_groups s).
    { unfold s0. destruct (outcome h); (split; [|done]); (eapply Limits_frame; [|exact Hs]); by repeat split. }
    destruct Hs0 as [Hs0 Hh0]. destruct (forallb safe observed && negb u); simpl;
      rewrite Hh0, bool_decide_eq_true_2 by done; intros [= <-];
      destruct Hs0 as [Hlw Hlg Hlc Hlv]; constructor; simpl; rewrite ?Hh0; try done.
    + apply within_release_all; [apply Forall_need, Forall_indices_of|done].
    + intros Hw Hst e k. rewrite reserved_charge_all, held_members_remove by done.
      rewrite (Hlv Hw Hst), Hh0. lia.
    + eapply within_same_reserved; [apply reserved_quarantine_all|done].
    + intros _ H. by apply str_or_some in H.
  - rewrite bool_decide_eq_true_2 by done. intros [= <-]. destruct Hs as [? ? ? _].
    constructor; simpl; try done. rewrite Hwav. done.
Qed.

Lemma finish_task_limits f s s' :
  Settled c plans s -> Limits s -> finish_task c plans f s = (s', Go) -> Limits s'.
Proof.
  intros Hset Hs H. rewrite finish_task_unfold in H. case_bool_decide as Hi; simpl in H; [|by simplify_eq].
  destruct (finish_group _ _ _ _ _) as [s1 []] eqn:Hfg; simplify_eq.
  eapply Limits_frame with (s := s1); [by repeat split|].
  eapply finish_group_limits; [| |exact Hfg].
  - destruct (popped_shape c plans (index f) (execute (plan_at plans (index f)) (backend f)) s) as (_ & _ & _ & -> & _).
    by apply (settled_held c plans s Hset).
  - apply popped_limits; [|done].
    apply (acc_waiting plans s (settled_accounted c plans s Hset)). by apply elem_of_app; right.
Qed.

Lemma finish_tasks_limits done s s' :
  Settled c plans s -> Limits s -> finish_tasks c plans done s = (s', Go) -> Limits s'.
Proof.
  revert s; induction done as [|f done IH]; intros s Hset Hs H; simpl in H; [by simplify_eq|].
  destruct (finish_task _ _ _ _) as [s1 []] eqn:Hf; try done.
  eapply IH; [| |exact H]; [by eapply finish_task_settled|by eapply finish_task_limits].
Qed.

Lemma loop_body_limits e s s' :
  Settled c plans s -> Limits s -> loop_body c plans e s = (s', Go) -> Limits s'.
Proof.
  intros Hset Hs H. unfold loop_body in H.
  assert (Hset' : Settled c plans (observe_cancellation c e s))
    by (eapply Settled_frame; [apply observe_shape|done]).
  pose proof (admissions_settled c plans e _ Hset') as Had.
  pose proof (admissions_limits e _ Hset' (observe_limits e s Hs)) as Hal.
  destruct (admissions _ _ _ _) as [s1 []]; simpl in *; try done.
  case_bool_decide; [done|]. destruct (overdue e s1); [done|].
  assert (Hout : Settled c plans (outside_cancel_s (outside_wait e) s1))
    by (eapply Settled_frame; [|exact Had]; by repeat split).
  assert (Hol : Limits (outside_cancel_s (outside_wait e) s1))
    by (eapply Limits_frame; [|exact Hal]; by repeat split).
  destruct (waited e) as [|done].
  - simplify_eq. eapply Limits_frame; [|exact Hol]. by repeat split.
  - by eapply finish_tasks_limits.
Qed.

Lemma start_backends_stop names hooks s s' :
  start_backends c names hooks s = (s', Go) ->
  ledger s' = ledger s /\ active s' = active s /\ held_groups s' = held_groups s
  /\ (stopped s' = None -> stopped s = None).
Proof.
  revert hooks s; induction names as [|x names IH]; intros hooks s H; simpl in H; [by simplify_eq|].
  destruct (cancelled _).
  { simplify_eq. repeat split. simpl. intros H'. by apply str_or_some in H'. }
  destruct (backend_of _ _); [|done]. case_bool_decide; [by apply (IH hooks)|].
  destruct hooks as [|h hooks]; simpl in H.
  - apply IH in H as (? & ? & ? & ?). by repeat split.
  - destruct (outcome h); try done. apply IH in H as (? & ? & ? & ?). by repeat split.
Qed.

Lemma reachable_invariant s : reachable s -> Settled c plans s /\ Limits s.
Proof.
  induction 1 as [hooks t s H|e s s' _ [Hset Hl] H].
  - split.
    + pose proof (start_backends_shape c (first_uses [] (map (fun p => task_benchmark (task p)) plans))
        hooks (initial plans t)) as Hsh. rewrite H in Hsh.
      eapply Settled_frame; [exact Hsh|apply initial_settled].
    + apply start_backends_stop in H as (Hl & Ha & Hh & Hst).
      eapply Limits_frame; [|apply (initial_limits t)]. by repeat split.
  - split; [by eapply loop_body_go|by eapply loop_body_limits].
Qed.
End Limits.

(** C15. Admission control: at every point where a run waits for its episodes,
    at most [max_workers] are running, at most [max_groups] groups are held and
    no executor with a declared capacity is over it, under both policies and
    for every behaviour of backends, hooks, clocks and cancellations. *)
Theorem run_respects_limits c plans s e :
  1 <= max_workers c -> 1 <= max_groups c -> (waves c = true -> max_groups c = 1) ->
  Forall (fun p => forall k, 0 <= amount k (requirement p)) plans ->
  validate_run c plans = Ok tt ->
  reachable c plans s ->
  Z.of_nat (length (active (waiting c plans e s))) <= max_workers c
  /\ Z.of_nat (size (held_groups (waiting c plans e s))) <= max_groups c
  /\ within_capacity (capacities c) (ledger (waiting c plans e s)).
Proof.
  intros Hw Hg Hone Hnn Hv Hr.
  destruct (reachable_invariant c plans Hw Hg Hone Hnn Hv s Hr) as [Hset Hl].
  assert (H : Limits c plans (waiting c plans e s)).
  { unfold waiting. apply admissions_limits; try done.
    - eapply Settled_frame; [apply observe_shape|done].
    - by apply observe_limits. }
  split_and!; apply H.
Qed.

Lemma run_respects_limits_witness :
  exists s, reachable (example_config "native-groups") example_plans s
  /\ active (waiting (example_config "native-groups") example_plans (example_pass 0 []) s) = [0; 1]%nat
  /\ Z.of_nat (length (active (waiting (example_config "native-groups") example_plans (example_pass 0 []) s))) <= 2.
Proof.
  eexists. split; [|split].
  - eapply (reach_start _ _ [quiet] new_token). reflexivity.
  - reflexivity.
  - apply (run_respects_limits (example_config "native-groups") example_plans _ (example_pass 0 [])).
    + simpl. lia.
    + simpl. lia.
    + discriminate.
    + repeat constructor; intros k; destruct k; simpl; lia.
    + reflexivity.
    + eapply (reach_start _ _ [quiet] new_token). reflexivity.
Defined.
