(* ===== verification/CoordinatorBalance.v ===== *)
(** * The resource ledger of a coordinator run balances

    Reservations of [Coordinator.run] are never lost: while the loop runs, what
    is reserved is what is quarantined plus what the admitted work still owes,
    and at the end of a run exactly the quarantined amounts are still reserved. *)

From S2P Require Import Prelude PyValue Contracts Ledger Coordinator CoordinatorExample CoordinatorProofs CoordinatorLimits.
Local Open Scope Z_scope.

Section Balance.
Context (c : Config) (plans : list EpisodePlan).
Local Abbreviation n := (length plans).
Local Abbreviation need := (need plans).
Local Abbreviation group_at := (group_at plans).
Local Abbreviation held_members := (held_members plans).

(** What admitted work will still release or quarantine: the active episodes
    under the native policy, whole held groups under terminal waves. *)
Definition owed (s : run_state) (e : string) (k : qty) : Z :=
  if native c then total e k (map need (active s))
  else total e k (map need (held_members (held_groups s))).

Record Balanced (s : run_state) : Prop := {
  balanced_ledger : forall e k, qget k (held (reserved (ledger s)) e)
                     = qget k (held (quarantined (ledger s)) e) + owed s e k;
  balanced_held : native c = false -> forall g, g ∈ held_groups s ->
                  exists i, i ∈ active s /\ group_at i = g }.

(** Nothing is running and everything still reserved is quarantined. *)
Definition Level (s : run_state) : Prop :=
  active s = [] /\ forall e k, qget k (held (reserved (ledger s)) e)
                               = qget k (held (quarantined (ledger s)) e).

Definition same_accounts (s s' : run_state) : Prop :=
  active s' = active s /\ held_groups s' = held_groups s /\ ledger s' = ledger s.

Lemma Balanced_frame s s' : same_accounts s s' -> Balanced s -> Balanced s'.
Proof.
  intros (Ha & Hh & Hl) [Hb Hact]. constructor; rewrite ?Ha, ?Hh; [|done].
  intros e k. unfold owed. rewrite Hl, Ha, Hh. apply Hb.
Qed.

Lemma total_nil e k : total e k (map need []) = 0.
Proof. done. Qed.

Lemma initial_balanced t : Balanced (initial plans t).
Proof.
  constructor; simpl; [|intros _ g; set_solver].
  intros e k. unfold owed. simpl. rewrite held_empty, held_members_empty. by destruct (native c).
Qed.

(** With no active work a balanced state is level. *)
Lemma Balanced_level s : Balanced s -> active s = [] -> Level s.
Proof.
  intros [Hb Hact] Ha. split; [done|]. intros e k. rewrite Hb. unfold owed.
  destruct (native c) eqn:Hn; rewrite ?Ha; [rewrite total_nil; lia|].
  assert (Hh : held_groups s = ∅).
  { apply set_eq. intros g. split; [|set_solver]. intros Hg.
    destruct (Hact eq_refl g Hg) as (i & Hi & _). rewrite Ha in Hi. set_solver. }
  rewrite Hh, held_members_empty. lia.
Qed.

Lemma observe_accounts e s : same_accounts s (observe_cancellation c e s).
Proof. unfold observe_cancellation. destruct (cancelled _); by repeat split. Qed.

Lemma total_remove_index e k i l :
  NoDup l -> i ∈ l -> total e k (map need l) = share e k (need i) + total e k (map need (remove_index i l)).
Proof.
  intros Hnd Hi. assert (Hp : l ≡ₚ i :: remove_index i l).
  { apply NoDup_Permutation; [done| |].
    - constructor; [|by apply NoDup_remove_index]. rewrite elem_of_remove_index. tauto.
    - intros j. rewrite elem_of_cons, elem_of_remove_index.
      destruct (decide (j = i)) as [->|]; tauto. }
  transitivity (total e k (map need (i :: remove_index i l))); [|done].
  apply total_proper. by apply (fmap_Permutation need).
Qed.

(** ** Admission *)

Lemma admit_native_balanced cands blocked s :
  native c = true -> Balanced s -> Balanced (admit_native c plans cands blocked s).
Proof.
  intros Hnat. revert blocked s; induction cands as [|i cands IH]; intros blocked s Hs; simpl; [done|].
  destruct (_ <=? _); [done|]. destruct (_ && _); [by apply IH|].
  case_bool_decide; [by apply IH|]. destruct (negb _); [by apply IH|].
  apply IH. destruct Hs as [Hb _]. constructor; [|by rewrite Hnat].
  intros e k. specialize (Hb e k). unfold owed in *. rewrite Hnat in *. simpl.
  rewrite reserved_charge, quarantined_charge, map_app, total_app. cbn [map].
  rewrite total_cons, total_nil. lia.
Qed.

Lemma admit_wave_balanced h s :
  Settled c plans s -> Balanced s -> native c = false -> Balanced (admit_wave c plans h s).1.
Proof.
  intros Hset Hs Hnat. unfold admit_wave. destruct (pending s) as [|i rest] eqn:Hp; [done|].
  destruct (waves c) eqn:Hwav; simpl; [|done]. case_bool_decide as Hheld0; [|done].
  destruct (outcome h); try (by eapply Balanced_frame; [|exact Hs]).
  destruct (cancelled _); [by eapply Balanced_frame; [|exact Hs]|]. simpl.
  set (s1 := hold (group_at i) (outside_cancel_s (outside h) s)).
  destruct (admit_fold_fields plans (indices_of plans (group_at i)) s1)
    as (_ & Ha & _ & Hh & _ & _ & _ & Hl).
  destruct Hs as [Hb Hact]. constructor.
  - intros e k. specialize (Hb e k). unfold owed in *. rewrite Hnat in *.
    rewrite Hl, Hh, reserved_charge_all, quarantined_charge_all. simpl.
    rewrite Hheld0, held_members_empty in Hb. rewrite Hheld0, held_members_single. lia.
  - intros _ g. rewrite Hh, Ha. simpl. rewrite Hheld0. intros [Hg|Hg]%elem_of_union; [|set_solver].
    apply elem_of_singleton in Hg as ->. exists i. split; [|done].
    apply elem_of_app; right. apply elem_of_indices_of. split; [done|].
    apply (acc_waiting plans s (settled_accounted c plans s Hset)). rewrite Hp. set_solver.
Qed.

Lemma admit_wave_native h s : native c = true -> admit_wave c plans h s = (s, Go).
Proof.
  intros Hnat. unfold admit_wave. rewrite native_not_waves by done. simpl. by destruct (pending s).
Qed.

Lemma admissions_balanced e s :
  Settled c plans s -> Balanced s -> Balanced (admissions c plans e s).1.
Proof.
  intros Hset Hs. unfold admissions. destruct (stopped s); [done|].
  destruct (native c) eqn:Hnat.
  - rewrite admit_wave_native by done. by apply admit_native_balanced.
  - pose proof (admit_wave_balanced (admission e) s Hset Hs Hnat).
    by destruct (admit_wave _ _ _ _) as [s' []].
Qed.

(** The one way admission itself can raise leaves nothing running. *)
Lemma admit_wave_flow h s s' f :
  Settled c plans s -> admit_wave c plans h s = (s', f) -> f = Go \/ f = RaisedCancelled /\ active s' = [].
Proof.
  intros Hset H. unfold admit_wave in H. destruct (pending s) as [|i rest] eqn:Hp; [simplify_eq; auto|].
  destruct (waves c && bool_decide (held_groups s = ∅)) eqn:E; [|simplify_eq; auto]. destr_bool.
  assert (Hact : active s = []).
  { destruct (active s) as [|j l] eqn:Ea; [done|].
    assert (Hj : group_at j ∈ held_groups s) by (apply (settled_held c plans s Hset); rewrite Ea; set_solver).
    set_solver. }
  destruct (outcome h); [destruct (cancelled _)|..]; simplify_eq; auto.
Qed.

(** ** Completion *)

(** After a completed task leaves a group that is not complete, another member
    of the group is still active: waves are admitted as a whole. *)
Lemma incomplete_group_active i r s :
  waves c = true -> Settled c plans s -> i ∈ active s ->
  result_identity r = identity (plan_at plans i) ->
  default 0%nat (completed (popped c plans i r s) !! group_at i) <> expected plans (group_at i) ->
  exists j, j ∈ active (popped c plans i r s) /\ group_at j = group_at i.
Proof.
  intros Hwav Hs Hi Hid Hne.
  pose proof (popped_accounted c plans i r s Hi Hid (settled_accounted _ _ _ Hs)) as Hacc.
  rewrite (popped_settled_count c plans i r s Hs Hi) in Hne. unfold expected in Hne.
  destruct (decide (Exists (fun j => results (popped c plans i r s) !! j = None) (indices_of plans (group_at i))))
    as [Hex|Hall].
  - apply Exists_exists in Hex as (j & Hj & Hnone). apply elem_of_indices_of in Hj as [Hg Hn].
    exists j. split; [|done].
    destruct (acc_covered _ _ Hacc j Hn) as [Hx|[x Hx]]; [|congruence].
    apply elem_of_app in Hx as [Hx|]; [|done]. exfalso.
    destruct (popped_shape c plans i r s) as (Hp & _). rewrite Hp in Hx.
    pose proof (acc_nodup _ _ (settled_accounted _ _ _ Hs)) as (_ & Hd & _)%NoDup_app.
    apply (Hd i); [|done]. eapply (settled_whole _ _ _ Hs Hwav j); [done| |done].
    apply (acc_waiting _ _ (settled_accounted _ _ _ Hs)). by apply elem_of_app; right.
  - exfalso. apply Hne. unfold finished_in. f_equal. apply not_Exists_Forall in Hall; [|intros ?; apply _].
    clear Hne. revert Hall. generalize (indices_of plans (group_at i)) as l.
    induction 1 as [|j l Hj _ IH]; [done|]. rewrite filter_cons_True; [by f_equal|].
    by apply not_eq_None_Some.
Qed.

Lemma settle_reserved i r s :
  native c = true -> forall e k,
  let l := ledger (settle c plans i r s) in
  qget k (held (reserved l) e) - qget k (held (quarantined l) e)
  = qget k (held (reserved (ledger s)) e) - qget k (held (quarantined (ledger s)) e)
    - share e k (need i).
Proof.
  intros Hnat e k. unfold settle. rewrite Hnat. destruct (negb _); simpl.
  - rewrite reserved_quarantine, quarantined_quarantine. lia.
  - rewrite reserved_charge, quarantined_charge. lia.
Qed.

Lemma settle_waves_ledger i r s : native c = false -> ledger (settle c plans i r s) = ledger s.
Proof. intros Hnat. unfold settle. rewrite Hnat. by destruct (negb _). Qed.

Lemma stop_reasons_ledger r s : ledger (stop_reasons r s) = ledger s.
Proof. unfold stop_reasons. by repeat case_bool_decide. Qed.

Lemma popped_ledger i r s :
  ledger (popped c plans i r s)
  = ledger (settle c plans i r (set_queue (pending s) (remove_index i (active s)) (<[i := r]> (results s)) s)).
Proof. unfold popped. simpl. by rewrite stop_reasons_ledger. Qed.

(** The ledger equation survives taking a task from [active] under the native
    policy, and is untouched by it under waves. *)
Lemma popped_ledger_balance i r s :
  Settled c plans s -> i ∈ active s -> Balanced s -> forall e k,
  qget k (held (reserved (ledger (popped c plans i r s))) e)
  = qget k (held (quarantined (ledger (popped c plans i r s))) e) + owed (popped c plans i r s) e k.
Proof.
  intros Hset Hi [Hb _] e k. specialize (Hb e k). unfold owed in *.
  destruct (popped_shape c plans i r s) as (_ & Ha & _ & Hh & _). rewrite popped_ledger, Ha, Hh.
  destruct (native c) eqn:Hnat.
  - set (s0 := set_queue _ _ _ _). pose proof (settle_reserved i r s0 Hnat e k) as Hst.
    change (ledger s0) with (ledger s) in Hst. simpl in Hst.
    pose proof (acc_nodup _ _ (settled_accounted _ _ _ Hset)) as (_ & _ & Hnd)%NoDup_app.
    rewrite (total_remove_index e k i (active s)) in Hb by done. lia.
  - by rewrite settle_waves_ledger.
Qed.

(** [request_uncertain] has an answer for the closure that a hook returned. *)
Definition answerable (f : finished) : Prop := exists u, request_uncertain (closure_value (closure f)) = Ok u.

Lemma close_wave_balance g i f s :
  answerable f -> g ∈ held_groups s -> (forall j, j ∈ indices_of plans g -> is_Some (results s !! j)) ->
  exists s', close_wave plans g i (closure f) s = (s', Go) /\ held_groups s' = held_groups s
  /\ active s' = active s
  /\ forall e k, qget k (held (reserved (ledger s')) e) - qget k (held (quarantined (ledger s')) e)
     = qget k (held (reserved (ledger s)) e) - qget k (held (quarantined (ledger s)) e)
       - total e k (map need (indices_of plans g)).
Proof.
  intros [u Hu] Hg Hres. unfold close_wave.
  assert (Hm : is_Some (mapM (fun j => results s !! j) (indices_of plans g))).
  { apply mapM_is_Some, Forall_forall. done. }
  destruct Hm as [observed ->]. rewrite Hu.
  set (s0 := match outcome (closure f) with HookCancelled => _ | _ => _ end).
  assert (H0 : ledger s0 = ledger s /\ held_groups s0 = held_groups s /\ active s0 = active s).
  { unfold s0. by destruct (outcome (closure f)). }
  destruct H0 as (Hl & Hh & Ha).
  destruct (forallb safe observed); [destruct u|]; simpl; eexists;
    (split; [reflexivity|]); simpl; rewrite ?Hl, ?Hh, ?Ha; (split; [done|]); (split; [done|]);
    intros e k; rewrite ?reserved_quarantine_all, ?quarantined_quarantine_all,
      ?reserved_charge_all, ?quarantined_charge_all; lia.
Qed.

(** ** One completed task *)

Lemma finish_group_balanced f s :
  let i := index f in
  let r := execute (plan_at plans i) (backend f) in
  (native c = true \/ waves c = true) -> answerable f ->
  Settled c plans s -> i ∈ active s -> Balanced s ->
  exists s', finish_group c plans i (closure f) (popped c plans i r s) = (s', Go) /\ Balanced s'.
Proof.
  intros i r Hpol Hans Hset Hi Hs.
  pose proof (popped_ledger_balance i r s Hset Hi Hs) as Hb.
  destruct (popped_shape c plans i r s) as (_ & Ha & Hr & Hh & _).
  assert (Hheld : group_at i ∈ held_groups (popped c plans i r s))
    by (rewrite Hh; by apply (settled_held _ _ _ Hset)).
  assert (Hother : forall g, g <> group_at i -> native c = false -> g ∈ held_groups s ->
                   exists j, j ∈ remove_index i (active s) /\ group_at j = g).
  { intros g Hg Hn Hgh. destruct (balanced_held s Hs Hn g Hgh) as (j & Hj & <-).
    exists j. split; [|done]. apply elem_of_remove_index. split; [congruence|done]. }
  unfold finish_group. destruct (_ =? _)%nat eqn:Hcount.
  - apply Nat.eqb_eq in Hcount. destruct (waves c) eqn:Hwav in |- *.
    + assert (Hnat : native c = false).
      { destruct (native c) eqn:E; [|done]. apply native_not_waves in E. congruence. }
      destruct (close_wave_balance (group_at i) i f (popped c plans i r s) Hans Hheld)
        as (s1 & Hcw & Hh1 & Ha1 & Hb1).
      { intros j Hj. rewrite popped_settled_count in Hcount by done. unfold expected in Hcount.
        destruct (results (popped c plans i r s) !! j) eqn:E; [eauto|]. exfalso.
        assert (Hlt : (length (finished_in plans (results (popped c plans i r s)) (group_at i))
                       < length (indices_of plans (group_at i)))%nat).
        { unfold finished_in. apply length_filter_lt with j; [done|]. rewrite E. by intros [? ?]. }
        lia. }
      rewrite Hcw. unfold release_group. rewrite bool_decide_eq_true_2 by (by rewrite Hh1).
      eexists. split; [done|]. constructor; simpl.
      * intros e k. specialize (Hb e k). specialize (Hb1 e k). unfold owed in *. rewrite Hnat in *. simpl.
        rewrite held_members_remove by (by rewrite Hh1). rewrite Hh1. lia.
      * intros _ g. rewrite Hh1, Ha1, Ha, Hh. intros [Hg Hne]%elem_of_difference.
        apply Hother; [|done..]. intros ->. by apply Hne, elem_of_singleton.
    + assert (Hnat : native c = true) by (destruct Hpol; congruence).
      unfold release_group. rewrite bool_decide_eq_true_2 by done. eexists. split; [done|].
      constructor; [|by rewrite Hnat]. simpl. intros e k. specialize (Hb e k).
      unfold owed in *. rewrite Hnat in *. done.
  - apply Nat.eqb_neq in Hcount. eexists. split; [done|]. constructor; [done|].
    rewrite Hh, Ha. intros Hn g Hg. destruct (decide (g = group_at i)) as [->|Hne]; [|by apply Hother].
    rewrite <- Ha. apply incomplete_group_active; try done; [|by apply execute_identity].
    destruct Hpol; congruence.
Qed.

Lemma finish_tasks_balanced done s :
  (native c = true \/ waves c = true) -> Forall answerable done -> Settled c plans s -> Balanced s ->
  exists s', finish_tasks c plans done s = (s', Go) /\ Balanced s'.
Proof.
  intros Hpol Hans. revert s; induction Hans as [|f done Hf _ IH]; intros s Hset Hs; simpl; [by exists s|].
  assert (H : exists s1, finish_task c plans f s = (s1, Go) /\ Balanced s1).
  { rewrite finish_task_unfold. case_bool_decide as Hi; simpl; [|by exists s].
    destruct (finish_group_balanced f s Hpol Hf Hset Hi Hs) as (s1 & Hg & Hb1).
    rewrite Hg. eexists. split; [done|]. by eapply Balanced_frame; [|exact Hb1]. }
  destruct H as (s1 & H1 & Hb1). rewrite H1. apply IH; [|done]. by eapply finish_task_settled.
Qed.

(** ** Drain *)

Lemma abandon_fold_ledger l s :
  let s' := foldl (abandon c plans) s l in
  held_groups s' = held_groups s /\
  forall e k,
    qget k (held (reserved (ledger s')) e) = qget k (held (reserved (ledger s)) e)
    /\ qget k (held (quarantined (ledger s')) e)
       = qget k (held (quarantined (ledger s)) e) + (if native c then total e k (map need l) else 0).
Proof.
  revert s; induction l as [|i l IH]; intros s; simpl.
  - split; [done|]. intros e k. rewrite total_nil. destruct (native c); lia.
  - destruct (IH (abandon c plans s i)) as [Hh H]. split; [by rewrite Hh; unfold abandon; destruct (native c)|].
    intros e k. destruct (H e k) as [-> ->]. unfold abandon. destruct (native c); simpl; [|done].
    rewrite reserved_quarantine, quarantined_quarantine. cbn [map]. rewrite total_cons. lia.
Qed.

Lemma abandon_all_level s :
  (native c = true \/ waves c = true) -> Balanced s -> Level (abandon_all c plans s).
Proof.
  intros Hpol [Hb _]. destruct (abandon_fold_ledger (active s) s) as [Hh Hl].
  split; [done|]. intros e k. destruct (Hl e k) as [Hr Hq]. specialize (Hb e k). unfold owed in Hb.
  unfold abandon_all. destruct (waves c) eqn:Hwav; simpl.
  - assert (Hnat : native c = false).
    { destruct (native c) eqn:E; [|done]. apply native_not_waves in E. congruence. }
    rewrite Hnat in *. rewrite reserved_quarantine_all, quarantined_quarantine_all, Hh, Hr, Hq, Hb.
    unfold CoordinatorLimits.held_members. lia.
  - destruct Hpol as [Hnat|]; [|done]. rewrite Hnat in *. rewrite Hr, Hq, Hb. lia.
Qed.

(** ** The loop *)

Definition answerable_pass (e : pass) : Prop :=
  match waited e with WaitDone done => Forall answerable done | WaitCancelled => True end.

Lemma loop_body_balanced e s s' f :
  (native c = true \/ waves c = true) -> answerable_pass e -> Settled c plans s -> Balanced s ->
  loop_body c plans e s = (s', f) ->
  (f = Go /\ Balanced s') \/ ((f = Break \/ f = RaisedCancelled) /\ Level s').
Proof.
  intros Hpol Hans Hset Hs H. unfold loop_body in H.
  assert (Hset0 : Settled c plans (observe_cancellation c e s))
    by (eapply Settled_frame; [apply observe_shape|done]).
  assert (Hs0 : Balanced (observe_cancellation c e s)) by (eapply Balanced_frame; [apply observe_accounts|done]).
  pose proof (admissions_settled c plans e _ Hset0) as Hset1.
  pose proof (admissions_balanced e _ Hset0 Hs0) as Hs1.
  assert (Hflow : forall s1 f1, admissions c plans e (observe_cancellation c e s) = (s1, f1) ->
            f1 = Go \/ f1 = RaisedCancelled /\ active s1 = []).
  { unfold admissions. intros s1 f1. destruct (stopped _); [intros; simplify_eq; auto|].
    destruct (admit_wave _ _ _ _) as [s2 f2] eqn:Hw. pose proof (admit_wave_flow _ _ _ _ Hset0 Hw).
    destruct f2; intros; simplify_eq; naive_solver. }
  destruct (admissions _ _ _ _) as [s1 f1]. simpl in *.
  destruct (Hflow s1 f1 eq_refl) as [->|[-> Ha]].
  2:{ simplify_eq. right. split; [auto|]. by apply Balanced_level. }
  case_bool_decide as Ha; [simplify_eq; right; split; [auto|]; by apply Balanced_level|].
  destruct (overdue e s1); [simplify_eq; right; split; [auto|]; by apply abandon_all_level|].
  unfold answerable_pass in Hans. destruct (waited e) as [|done].
  - simplify_eq. left. split; [done|]. by eapply Balanced_frame; [|exact Hs1].
  - destruct (finish_tasks_balanced done (outside_cancel_s (outside_wait e) s1) Hpol Hans) as (s2 & H2 & Hb2).
    + eapply Settled_frame; [|exact Hset1]. by repeat split.
    + by eapply Balanced_frame; [|exact Hs1].
    + rewrite H2 in H. simplify_eq. auto.
Qed.

Lemma run_loop_level passes s s' f :
  (native c = true \/ waves c = true) -> Forall answerable_pass passes ->
  Settled c plans s -> Balanced s -> run_loop c plans passes s = Some (s', f) -> Level s'.
Proof.
  intros Hpol Hans. revert s; induction Hans as [|e passes He _ IH]; intros s Hset Hs H; simpl in H.
  - destruct (_ && _) eqn:E; simplify_eq. destr_bool. by apply Balanced_level.
  - destruct (_ && _) eqn:E; [simplify_eq; destr_bool; by apply Balanced_level|].
    destruct (loop_body c plans e s) as [s1 f1] eqn:Hl.
    destruct (loop_body_balanced e s s1 f1 Hpol He Hset Hs Hl) as [[-> Hb]|[[->| ->] Hlev]];
      simplify_eq; try done.
    apply IH in H; [done| |done]. by eapply loop_body_go.
Qed.

(** ** Start and end of the run *)

Lemma start_backends_accounts names hooks s : same_accounts s (start_backends c names hooks s).1.
Proof.
  revert hooks s; induction names as [|x names IH]; intros hooks s; simpl; [by repeat split|].
  destruct (cancelled _); [by repeat split|]. destruct (backend_of _ _) as [b|]; [|by repeat split].
  case_bool_decide; [apply IH|].
  destruct hooks as [|h hooks]; simpl.
  - destruct (IH [] (outside_cancel_s None (set_started (started s ++ [b]) s))) as (? & ? & ?). by repeat split.
  - destruct (outcome h); simpl; try by repeat split.
    destruct (IH hooks (outside_cancel_s (outside h) (set_started (started s ++ [b]) s))) as (? & ? & ?).
    by repeat split.
Qed.

Lemma try_body_level a t s f :
  (native c = true \/ waves c = true) -> Forall answerable_pass (passes a) ->
  try_body c plans a t = Some (s, f) -> Level s.
Proof.
  intros Hpol Hans. unfold try_body.
  set (names := first_uses _ _).
  pose proof (start_backends_accounts names (start_hooks a) (initial plans t)) as Hacc.
  pose proof (start_backends_shape c names (start_hooks a) (initial plans t)) as Hsh.
  destruct (start_backends _ _ _ _) as [s0 f0]. simpl in Hacc, Hsh.
  assert (Hb : Balanced s0) by (eapply Balanced_frame; [exact Hacc|apply initial_balanced]).
  assert (Hse : Settled c plans s0) by (eapply Settled_frame; [exact Hsh|apply initial_settled]).
  destruct f0; intros H; simplify_eq; try (apply Balanced_level; [done|apply Hacc]).
  by eapply run_loop_level.
Qed.

Lemma close_backends_accounts bs answers s : same_accounts s (close_backends bs answers s).
Proof.
  revert answers s; induction bs as [|b bs IH]; intros answers s; simpl; [by repeat split|].
  destruct answers as [|a answers]; simpl; [apply IH|].
  unfold close_backend. destruct (close_result a), (close_waiter_cancelled a); simpl;
    match goal with |- same_accounts _ (close_backends bs answers ?x) =>
      destruct (IH answers x) as (Ha & Hh & Hl) end; by repeat split.
Qed.

Lemma reject_fold_accounts l s : same_accounts s (foldl (reject_pending plans) s l).
Proof.
  revert s; induction l as [|i l IH]; intros s; simpl; [by repeat split|].
  destruct (IH (reject_pending plans s i)) as (? & ? & ?). by repeat split.
Qed.

Lemma finalize_accounts closes s : active s = [] -> same_accounts s (finalize plans closes s).
Proof.
  intros Ha. unfold finalize. rewrite Ha. simpl.
  set (s1 := if bool_decide (draining_tasks s = []) then _ else s).
  assert (H1 : same_accounts s s1).
  { unfold s1. case_bool_decide; [apply close_backends_accounts|by repeat split]. }
  set (s2 := if cancelled (token s1) then _ else s1).
  assert (H2 : same_accounts s1 s2) by (unfold s2; destruct (cancelled _); by repeat split).
  destruct (reject_fold_accounts (pending s2) s2) as (Ha3 & Hh3 & Hl3).
  destruct H1 as (? & ? & ?), H2 as (? & ? & ?). repeat split; congruence.
Qed.

Lemma handle_accounts f s : same_accounts s (handle f s).
Proof. destruct f; by repeat split. Qed.
End Balance.

(** C14. Conservation of reservations: when a run ends, every executor's
    reservation equals what is quarantined for it, quantity by quantity, so no
    safe episode leaves resources held and no quarantined one is handed back.
    The one assumption is that wave closures are mappings or falsy values, as
    the hook's contract says. *)
Theorem run_ledger_balances c plans a t r s :
  policy c ∈ ["native-groups"; "terminal-waves"] ->
  Forall answerable_pass (passes a) ->
  run c plans a t = Some (r, s) ->
  forall e k, qget k (held (reserved (ledger s)) e) = qget k (held (quarantined (ledger s)) e).
Proof.
  intros Hpol Hans. unfold run. destruct (validate_run c plans); [|intros [= <- <-] e k; done].
  destruct (try_body _ _ _ _) as [[s0 f]|] eqn:Htry; [|done]. intros [= <- <-].
  apply try_body_level in Htry as [Ha Hl]; [|unfold native, waves; rewrite !bool_decide_eq_true; set_solver|done].
  destruct (handle_accounts f s0) as (Ha1 & _ & Hl1).
  destruct (finalize_accounts plans (close_answers a) (handle f s0)) as (_ & _ & Hl2); [congruence|].
  intros e k. rewrite Hl2, Hl1. apply Hl.
Qed.

Lemma run_ledger_balances_witness :
  exists r s, run (example_config "native-groups") example_plans example_answers new_token = Some (r, s)
  /\ qget Cpu (held (quarantined (ledger s)) "cpu-pool") = 2
  /\ forall e k, qget k (held (reserved (ledger s)) e) = qget k (held (quarantined (ledger s)) e).
Proof.
  destruct (run (example_config "native-groups") example_plans example_answers new_token)
    as [[r s]|] eqn:E; [|vm_compute in E; discriminate E].
  exists r, s. split; [reflexivity|]. split.
  - revert E. vm_compute. intros E. injection E as _ <-. reflexivity.
  - apply (run_ledger_balances (example_config "native-groups") example_plans example_answers new_token r s).
    + simpl; left.
    + repeat constructor; exists false; reflexivity.
    + exact E.
Defined.
