(* ===== verification/CoordinatorLiveness.v ===== *)
(** * Coordinator runs end

    [Coordinator.run] waits in a loop.  It returns after as many passes as there
    are plans when every wait reports an active task, and it stops waiting at
    the drain deadline even for backends that never come back. *)

From S2P Require Import Prelude PyValue Contracts Ledger Coordinator CoordinatorExample CoordinatorProofs CoordinatorLimits.
Local Open Scope Z_scope.

Section Liveness.
Context (c : Config) (plans : list EpisodePlan).
Local Abbreviation n := (length plans).

(** The episodes that have no result yet. *)
Definition unfinished (s : run_state) : nat := length (pending s ++ active s).

Lemma Accounted_unfinished s s' :
  Accounted plans s -> Accounted plans s' -> results s' = results s -> unfinished s' = unfinished s.
Proof.
  intros Hs Hs' Hr. unfold unfinished. apply Permutation_length.
  assert (Hiff : forall x, Accounted plans x -> forall i,
            i ∈ pending x ++ active x <-> (i < n)%nat /\ results x !! i = None).
  { intros x Hx i. split; [by apply acc_waiting|]. intros [Hi Hn].
    destruct (acc_covered plans x Hx i Hi) as [?|[? ?]]; [done|congruence]. }
  apply NoDup_Permutation; [by apply (acc_nodup plans)..|].
  intros i. rewrite !Hiff by done. by rewrite Hr.
Qed.

Lemma admit_native_results cands blocked s :
  results (admit_native c plans cands blocked s) = results s.
Proof.
  revert blocked s; induction cands as [|i cands IH]; intros blocked s; simpl; [done|].
  repeat case_match; try done; by rewrite IH.
Qed.

Lemma admissions_results e s : results (admissions c plans e s).1 = results s.
Proof.
  unfold admissions. destruct (stopped s); [done|].
  assert (Hw : results (admit_wave c plans (admission e) s).1 = results s).
  { unfold admit_wave. destruct (pending s) as [|i l]; [done|].
    destruct (waves c && _); [|done]. destruct (outcome _); [|done..].
    destruct (cancelled _); [done|]. cbn [fst].
    set (s1 := hold _ _). by destruct (admit_fold_fields plans (indices_of plans (group_at plans i)) s1)
      as (_ & _ & -> & _). }
  destruct (admit_wave _ _ _ _) as [s' []]; simpl in *; try done.
  destruct (native c); [by rewrite admit_native_results|done].
Qed.

Lemma length_remove_index i l : NoDup l -> i ∈ l -> S (length (remove_index i l)) = length l.
Proof.
  intros Hnd Hi. assert (Hp : l ≡ₚ i :: remove_index i l).
  { apply NoDup_Permutation; [done| |].
    - constructor; [|by apply NoDup_remove_index]. rewrite elem_of_remove_index. tauto.
    - intros j. rewrite elem_of_cons, elem_of_remove_index. destruct (decide (j = i)) as [->|]; tauto. }
  apply Permutation_length in Hp. done.
Qed.

Lemma remove_index_absent i l : i ∉ l -> remove_index i l = l.
Proof.
  unfold remove_index. induction l as [|j l IH]; intros Hi; [done|].
  rewrite filter_cons_True by set_solver. rewrite IH; [done|set_solver].
Qed.

(** A reported active task leaves the queues; any other report changes nothing. *)
Lemma finish_task_unfinished f s s' :
  Settled c plans s -> finish_task c plans f s = (s', Go) ->
  pending s' = pending s
  /\ active s' = remove_index (index f) (active s)
  /\ unfinished s' = (unfinished s - if bool_decide (index f ∈ active s) then 1 else 0)%nat.
Proof.
  intros Hset H. rewrite finish_task_unfold in H. case_bool_decide as Hi; simpl in H.
  - destruct (finish_group _ _ _ _ _) as [s1 []] eqn:Hfg; simplify_eq.
    apply finish_group_go in Hfg as ((Hp & Ha & _) & _).
    destruct (popped_shape c plans (index f) (execute (plan_at plans (index f)) (backend f)) s)
      as (Hpp & Hpa & _).
    simpl. rewrite Hp, Ha, Hpp, Hpa. split_and!; [done..|]. unfold unfinished. simpl.
    rewrite !length_app, Hp, Ha, Hpp, Hpa.
    pose proof (acc_nodup _ _ (settled_accounted _ _ _ Hset)) as (_ & _ & Hnd)%NoDup_app.
    pose proof (length_remove_index (index f) (active s) Hnd Hi). lia.
  - simplify_eq. split_and!; [done| |lia]. symmetry. by apply remove_index_absent.
Qed.

Lemma finish_tasks_unfinished done s s' :
  Settled c plans s -> finish_tasks c plans done s = (s', Go) ->
  (unfinished s' <= unfinished s)%nat
  /\ ((exists f, f ∈ done /\ index f ∈ active s) -> (unfinished s' < unfinished s)%nat).
Proof.
  revert s; induction done as [|f done IH]; intros s Hset H; simpl in H.
  { simplify_eq. split; [done|]. intros (f & Hf & _). set_solver. }
  destruct (finish_task c plans f s) as [s1 []] eqn:Hf; try done.
  destruct (IH s1) as [Hle Hlt]; [by eapply finish_task_settled|done|].
  destruct (finish_task_unfinished f s s1 Hset Hf) as (Hp & Ha & Hu).
  split; [lia|]. intros (g & [->|Hg]%elem_of_cons & Hact).
  - rewrite bool_decide_eq_true_2 in Hu by done.
    assert (0 < unfinished s)%nat; [|lia].
    unfold unfinished. rewrite length_app. destruct (active s); [set_solver|simpl; lia].
  - destruct (decide (index g = index f)) as [Heq|Hne].
    + rewrite Heq in Hact. rewrite bool_decide_eq_true_2 in Hu by done.
      assert (0 < unfinished s)%nat; [|lia].
      unfold unfinished. rewrite length_app. destruct (active s); [set_solver|simpl; lia].
    + assert (unfinished s' < unfinished s1)%nat; [|lia].
      apply Hlt. exists g. split; [done|]. rewrite Ha. by apply elem_of_remove_index.
Qed.

(** The wait of this pass reports at least one active task, or the drain
    deadline has passed. *)
Definition productive_pass (e : pass) (s : run_state) : Prop :=
  forall s1, admissions c plans e (observe_cancellation c e s) = (s1, Go) ->
  overdue e s1 = true \/ exists done f, waited e = WaitDone done /\ f ∈ done /\ index f ∈ active s1.

Fixpoint productive (ps : list pass) (s : run_state) : Prop :=
  match ps with
  | [] => True
  | e :: ps => productive_pass e s /\ forall s', loop_body c plans e s = (s', Go) -> productive ps s'
  end.

Lemma loop_body_progress e s s' :
  Settled c plans s -> productive_pass e s -> loop_body c plans e s = (s', Go) ->
  (unfinished s' < unfinished s)%nat.
Proof.
  intros Hset Hprod H. unfold loop_body in H.
  assert (Hset0 : Settled c plans (observe_cancellation c e s))
    by (eapply Settled_frame; [apply observe_shape|done]).
  pose proof (admissions_settled c plans e _ Hset0) as Had.
  pose proof (admissions_results e (observe_cancellation c e s)) as Hres.
  specialize (Hprod (admissions c plans e (observe_cancellation c e s)).1).
  destruct (admissions _ _ _ _) as [s1 []]; simpl in *; try done.
  assert (Hu : unfinished s1 = unfinished s).
  { apply Accounted_unfinished; [by apply Hset|apply Had|]. rewrite Hres.
    by destruct (observe_queue c e s) as (_ & _ & ?). }
  case_bool_decide; [done|].
  destruct (Hprod eq_refl) as [Ho|(done & f & Hw & Hf & Hact)]; [by rewrite Ho in H|].
  destruct (overdue e s1); [done|]. rewrite Hw in H.
  apply finish_tasks_unfinished in H; [|eapply Settled_frame; [|exact Had]; by repeat split].
  destruct H as [_ Hlt]. rewrite <- Hu. apply Hlt. by exists f.
Qed.

Lemma run_loop_ends ps s :
  Settled c plans s -> productive ps s -> (unfinished s <= length ps)%nat ->
  is_Some (run_loop c plans ps s).
Proof.
  revert s; induction ps as [|e ps IH]; intros s Hset Hprod Hlen; simpl in *.
  - unfold unfinished in Hlen. destruct (pending s), (active s); simpl in *; try lia. done.
  - destruct (_ && _); [done|]. destruct Hprod as [He Hnext].
    destruct (loop_body c plans e s) as [s1 []] eqn:Hl; try done.
    apply IH; [by eapply loop_body_go|by apply Hnext|].
    pose proof (loop_body_progress e s s1 Hset He Hl). lia.
Qed.
End Liveness.

(** C30. Termination: if every wait reports an active task (or the drain
    deadline has passed), the run returns within one pass per plan, and its
    results are complete and in plan order. *)
Theorem run_returns c plans a t :
  validate_run c plans = Ok tt ->
  (forall s, start_backends c (first_uses [] (map (fun p => task_benchmark (task p)) plans))
               (start_hooks a) (initial plans t) = (s, Go) -> productive c plans (passes a) s) ->
  (length plans <= length (passes a))%nat ->
  exists r s, run c plans a t = Some (Ok r, s) /\ map result_identity r = map identity plans.
Proof.
  intros Hv Hprod Hlen.
  assert (Htry : exists s f, try_body c plans a t = Some (s, f)).
  { unfold try_body. set (names := first_uses _ _) in *.
    pose proof (start_backends_shape c names (start_hooks a) (initial plans t)) as Hsh.
    destruct (start_backends _ _ _ _) as [s0 []] eqn:Hst; try (by eexists _, _); simpl in Hsh.
    assert (Hset : Settled c plans s0) by (eapply Settled_frame; [exact Hsh|apply initial_settled]).
    destruct (run_loop_ends c plans (passes a) s0 Hset) as [[s f] ->]; [by apply Hprod| |by eexists _, _].
    destruct Hsh as ((Hp & Ha & _) & _). unfold unfinished. rewrite Hp, Ha. simpl.
    rewrite app_nil_r, length_seq. done. }
  destruct Htry as (s0 & f & Htry). pose proof (try_body_closed _ _ _ _ _ _ Htry) as Hcl.
  unfold run. rewrite Hv, Htry.
  assert (Hh : Closed plans (handle f s0)) by (eapply Closed_frame; [apply handle_queue|done]).
  destruct (finalize_complete plans (close_answers a) (handle f s0) Hh) as [Hall Hcl'].
  destruct (ordered_complete plans _ Hall Hcl') as (rs & -> & Hid). by eexists rs, _.
Qed.

Lemma run_returns_witness :
  exists r s, run (example_config "native-groups") [example_plan 0]
    {| start_hooks := [quiet]; passes := [example_pass 0 example_done]; close_answers := [] |} new_token
    = Some (Ok r, s) /\ map result_identity r = [identity (example_plan 0)].
Proof.
  apply (run_returns (example_config "native-groups") [example_plan 0]).
  - reflexivity.
  - intros s Hs. vm_compute in Hs. injection Hs as <-. split; [|intros s' _; exact I].
    intros s1 H1. right. exists example_done, {| index := 0;
      backend := Returned (example_result (example_plan 0)); closure := quiet |}.
    split; [reflexivity|]. split; [left|]. vm_compute in H1. injection H1 as <-. left.
  - simpl. lia.
Defined.

Lemma abandon_fold_results c plans l s i :
  i ∈ l -> results (foldl (abandon c plans) s l) !! i
           = Some (unresolved (plan_at plans i) "drain_timeout; worker termination remains unproven").
Proof.
  assert (Hkeep : forall l s, results s !! i
      = Some (unresolved (plan_at plans i) "drain_timeout; worker termination remains unproven") ->
    results (foldl (abandon c plans) s l) !! i
      = Some (unresolved (plan_at plans i) "drain_timeout; worker termination remains unproven")).
  { clear. induction l as [|j l IH]; intros s Hs; simpl; [done|]. apply IH. unfold abandon. simpl.
    destruct (native c); simpl; destruct (decide (j = i)) as [->|];
      by rewrite ?lookup_insert_eq, ?lookup_insert_ne. }
  revert s; induction l as [|j l IH]; intros s Hi; [set_solver|]. simpl.
  apply elem_of_cons in Hi as [<-|Hi]; [|by apply IH].
  apply Hkeep. unfold abandon. simpl. destruct (native c); simpl; by rewrite lookup_insert_eq.
Qed.

(** Cancellation drains in bounded time: once the token is cancelled and
    the clock is past the drain deadline (set [drain_timeout] after the
    cancellation is first observed), the pass ends the loop whatever the
    backends do, nothing stays active, and each episode that was still running
    gets an unresolved result that claims no termination. *)
Theorem drain_is_bounded c plans e s :
  cancelled (token s) = true ->
  default (now_cancelled e + drain_timeout c) (drain_deadline s) <= now_drain e ->
  exists s', loop_body c plans e s = (s', Break) /\ active s' = []
  /\ forall i, i ∈ active s ->
       results s' !! i = Some (unresolved (plan_at plans i)
                                 "drain_timeout; worker termination remains unproven").
Proof.
  intros Hc Hd. unfold loop_body.
  assert (Hc' : cancelled (token (outside_cancel_s (outside_top e) s)) = true)
    by (simpl; destruct (outside_top e); done).
  set (s0 := observe_cancellation c e s).
  assert (H0 : s0 = set_stop (str_or (str_or (stopped s) (reason (outside_cancel (outside_top e) (token s)))) (Some "cancelled"))
                (Some (default (now_cancelled e + drain_timeout c) (drain_deadline s)))
                (outside_cancel_s (outside_top e) s)).
  { unfold s0, observe_cancellation. by rewrite Hc'. }
  assert (Hstop : stopped s0 <> None).
  { rewrite H0. apply str_or_some. }
  unfold admissions. destruct (stopped s0) eqn:Hs0; [|done]. case_bool_decide as Ha.
  - exists s0. split_and!; [done..|]. intros i Hi. rewrite H0 in Ha. simpl in Ha. rewrite Ha in Hi. set_solver.
  - assert (Ho : overdue e s0 = true) by (rewrite H0; simpl; by apply Z.leb_le).
    rewrite Ho. eexists. split_and!; [done..|]. intros i Hi.
    assert (Hact : active s0 = active s) by (rewrite H0; done).
    pose proof (abandon_fold_results c plans (active s0) s0 i) as Hr. rewrite Hact in Hr at 1.
    specialize (Hr Hi). unfold abandon_all. by destruct (waves c).
Qed.

Lemma drain_is_bounded_witness :
  let c := example_config "native-groups" in
  let s := admit_plan example_plans 0 (cancel_token "stop" (initial example_plans new_token)) in
  (cancelled (token s) = true /\ default (1 + drain_timeout c) (drain_deadline s) <= 31)
  /\ exists s', loop_body c example_plans
       {| outside_top := None; now_cancelled := 1; admission := quiet; now_drain := 31;
          waited := WaitCancelled; outside_wait := None |} s = (s', Break)
     /\ active s' = []
     /\ forall i, i ∈ active s ->
       results s' !! i = Some (unresolved (plan_at example_plans i)
                                 "drain_timeout; worker termination remains unproven").
Proof.
  split; [split; [reflexivity|simpl; lia]|].
  apply drain_is_bounded; [reflexivity|simpl; lia].
Defined.
