(* ===== verification/Stream.v ===== *)
(** * The rollout coordinator's persistent stream ([rollout_manager/coordinator.py])

    [open_stream], [execute_stream_group], [pause_stream], [resume_stream] and
    [close_stream] run many coroutines over shared credits.  A stream is a state
    and each stretch of code between two awaits is one [action]; a run of the
    program is a sequence of enabled actions, in any interleaving.  A blocked
    coroutine is one whose action is not enabled. *)

From S2P Require Import Prelude PyValue Contracts Ledger Coordinator.
Local Open Scope Z_scope.
Local Open Scope py_scope.

(** ** State *)

Inductive episode_state :=
| EpWorker                     (* waits for a worker credit *)
| EpFit                        (* holds a worker, waits for its resources *)
| EpRunning                    (* the backend executes it *)
| EpDone (r : EpisodeResult).

Record episode := { ep_plan : EpisodePlan; ep_state : episode_state }.

(** Where a group task stands; waves carry the results of earlier waves. *)
Inductive group_phase :=
| GQueued
| GCollect (eps : list episode)
| GWaveFit (earlier : list EpisodeResult) (rest : list EpisodePlan)
| GWaveAdmit (earlier : list EpisodeResult) (selected rest : list EpisodePlan)
| GWaveCollect (earlier : list EpisodeResult) (eps : list episode) (rest : list EpisodePlan)
| GDone (outcome : res (list EpisodeResult)).

Record group_task := { gt_sequence : Z; gt_plans : list EpisodePlan; gt_phase : group_phase }.

(** What every episode touches: the token, the ledger and the worker semaphore. *)
Record credits := { c_token : CancellationToken; c_ledger : Ledger; c_workers : Z }.

Record stream := {
  st_credits : credits;
  st_groups : Z;
  st_limit : Z;
  st_pending : Z;
  st_sequence : Z;
  st_run : option string;
  st_owners : gmap string nat;
  st_paused : bool;
  st_closed : bool;
  st_started : list nat;
  st_failures : list string;
  st_tasks : list group_task }.

Definition set_credits cr s := {| st_credits := cr; st_groups := st_groups s; st_limit := st_limit s;
  st_pending := st_pending s; st_sequence := st_sequence s; st_run := st_run s; st_owners := st_owners s;
  st_paused := st_paused s; st_closed := st_closed s; st_started := st_started s;
  st_failures := st_failures s; st_tasks := st_tasks s |}.
Definition set_tasks g p ts s := {| st_credits := st_credits s; st_groups := g; st_limit := st_limit s;
  st_pending := p; st_sequence := st_sequence s; st_run := st_run s; st_owners := st_owners s;
  st_paused := st_paused s; st_closed := st_closed s; st_started := st_started s;
  st_failures := st_failures s; st_tasks := ts |}.
Definition set_submission q r o s := {| st_credits := st_credits s; st_groups := st_groups s;
  st_limit := st_limit s; st_pending := st_pending s; st_sequence := q; st_run := r; st_owners := o;
  st_paused := st_paused s; st_closed := st_closed s; st_started := st_started s;
  st_failures := st_failures s; st_tasks := st_tasks s |}.
Definition set_flags p c f s := {| st_credits := st_credits s; st_groups := st_groups s;
  st_limit := st_limit s; st_pending := st_pending s; st_sequence := st_sequence s; st_run := st_run s;
  st_owners := st_owners s; st_paused := p; st_closed := c; st_started := st_started s;
  st_failures := f; st_tasks := st_tasks s |}.

Definition cancel_credits (why : string) (cr : credits) : credits :=
  {| c_token := cancel why (c_token cr); c_ledger := c_ledger cr; c_workers := c_workers cr |}.
Definition cancel_stream (why : string) (s : stream) : stream :=
  set_credits (cancel_credits why (st_credits s)) s.
Definition on_ledger (f : Ledger -> Ledger) (cr : credits) : credits :=
  {| c_token := c_token cr; c_ledger := f (c_ledger cr); c_workers := c_workers cr |}.
Definition on_workers (d : Z) (cr : credits) : credits :=
  {| c_token := c_token cr; c_ledger := c_ledger cr; c_workers := c_workers cr + d |}.

(** The stream is admitting no more work. *)
Definition halted (cr : credits) : bool := cancelled (c_token cr).

Section Stream.
(** [has_admit_group b]: whether backend [b] has a callable [admit_group]. *)
Context (c : Config) (has_admit_group : nat -> bool).

(** ** Opening *)

Fixpoint start_stream_backends (bs : list (string * nat)) (hooks : list hook_outcome) (started : list nat)
  : list nat * res unit :=
  match bs with
  | [] => (started, Ok tt)
  | (_, b) :: bs =>
      if bool_decide (b ∈ started) then start_stream_backends bs hooks started
      else match hooks with
           | HookRaised name message :: _ => (started ++ [b], Err (RuntimeError (name +:+ ": " +:+ message)))
           | HookCancelled :: _ => (started ++ [b], Err (RuntimeError "CancelledError: "))
           | HookReturned _ :: hooks => start_stream_backends bs hooks (started ++ [b])
           | [] => start_stream_backends bs [] (started ++ [b])
           end
  end.

Definition fresh_stream (max_pending : Z) (t : CancellationToken) : stream :=
  {| st_credits := {| c_token := t; c_ledger := empty_ledger; c_workers := max_workers c |};
     st_groups := max_groups c; st_limit := max_pending; st_pending := 0; st_sequence := -1;
     st_run := None; st_owners := ∅; st_paused := false; st_closed := false; st_started := [];
     st_failures := []; st_tasks := [] |}.

Definition with_started (l : list nat) (s : stream) : stream :=
  {| st_credits := st_credits s; st_groups := st_groups s; st_limit := st_limit s;
     st_pending := st_pending s; st_sequence := st_sequence s; st_run := st_run s;
     st_owners := st_owners s; st_paused := st_paused s; st_closed := st_closed s; st_started := l;
     st_failures := st_failures s; st_tasks := st_tasks s |}.

(** ** Closing *)

(** The failures of closing the started backends, in reverse order; missing
    answers are quiet closes. *)
Fixpoint close_failures (bs : list nat) (hooks : list hook_outcome) : list string :=
  match bs, hooks with
  | _ :: bs, HookRaised name message :: hooks => (name +:+ ": " +:+ message) :: close_failures bs hooks
  | _ :: bs, HookCancelled :: hooks => "CancelledError: " :: close_failures bs hooks
  | _ :: bs, HookReturned _ :: hooks => close_failures bs hooks
  | _, _ => []
  end.

Fixpoint join (sep : string) (l : list string) : string :=
  match l with
  | [] => ""
  | [x] => x
  | x :: l => x +:+ sep +:+ join sep l
  end.

(** The part of [close_stream] after [pause_stream] returned. *)
Definition close_stream (hooks : list hook_outcome) (s : stream) : stream * res unit :=
  let failures := close_failures (rev (st_started s)) hooks in
  let s := set_flags (st_paused s) true (st_failures s ++ failures) s in
  (s, match failures with
      | [] => Ok tt
      | _ => Err (RuntimeError ("stream backend cleanup failed: " +:+ join "; " failures))
      end).

Definition open_stream (used : bool) (max_pending : Z) (t : CancellationToken)
    (starts closes : list hook_outcome) : res stream * option stream :=
  if used || (max_pending <? 1)
  then (Err (ValueError "coordinator is single-use and stream capacity must be positive"), None)
  else
    match start_stream_backends (backends c) starts [] with
    | (started, Ok _) =>
        let s := with_started started (fresh_stream max_pending t) in (Ok s, Some s)
    | (started, Err e) =>
        let s := set_flags true false [] (with_started started (fresh_stream max_pending t)) in
        match close_stream closes s with
        | (s, Ok _) => (Err e, Some s)
        | (s, Err e') => (Err e', Some s)
        end
    end.

(** [resume_stream]. *)
Definition resume_stream (s : stream) : stream * res unit :=
  if st_closed s || halted (st_credits s)
  then (s, Err (RuntimeError "stream is closed or admission is stopped"))
  else (set_flags false (st_closed s) (st_failures s) s, Ok tt).

(** ** Submission *)

(** One plan of the validation loop; a refused submission keeps the owners that
    earlier plans registered. *)
Definition check_stream_plan (owners : gmap string nat) (p : EpisodePlan) : gmap string nat * res unit :=
  match backend_of (task_benchmark (task p)) (backends c) with
  | None => (owners, Err (ValueError ("no backend registered for " +:+ task_benchmark (task p))))
  | Some b =>
      let r := requirement p in
      let owners' := if staged r then <[executor r := default b (owners !! executor r)]> owners else owners in
      if staged r && negb (default b (owners !! executor r) =? b)%nat
      then (owners', Err (ValueError "backend-stage executor requires one authoritative backend owner"))
      else if match capacities c !! executor r with
              | Some capacity => bool_decide (accounting r = "episode") && exceeds r capacity
              | None => false
              end
      then (owners', Err (ValueError "episode exceeds executor capacity"))
      else (owners', Ok tt)
  end.

Fixpoint check_stream_plans (owners : gmap string nat) (ps : list EpisodePlan) : gmap string nat * res unit :=
  match ps with
  | [] => (owners, Ok tt)
  | p :: ps =>
      match check_stream_plan owners p with
      | (owners, Ok _) => check_stream_plans owners ps
      | other => other
      end
  end.

(** The part of [execute_stream_group] before its first await. *)
Definition submit (plans : list EpisodePlan) (sequence : Z) (s : stream) : stream * res unit :=
  if st_closed s || st_paused s
  then (s, Err (ValueError "stream admission is unavailable"))
  else match plans with
  | [] => (s, Err (ValueError "stream requires a new monotonic sequence and one unique complete group"))
  | p :: _ =>
      if (sequence <=? st_sequence s) || negb (distinct (map identity plans))
         || negb (forallb (fun q => bool_decide (group q = group p)) plans)
      then (s, Err (ValueError "stream requires a new monotonic sequence and one unique complete group"))
      else if negb (forallb (fun q => bool_decide (run_id (identity q) = run_id (identity p))) plans)
           || negb (bool_decide (st_run s ∈ [None; Some (run_id (identity p))]))
      then (s, Err (ValueError "a stream cannot combine run identities"))
      else if st_limit s <? st_pending s + Z.of_nat (length plans)
      then (s, Err (ValueError "bounded stream input credit exhausted"))
      else match check_stream_plans (st_owners s) plans with
           | (owners, Err e) => (set_submission (st_sequence s) (st_run s) owners s, Err e)
           | (owners, Ok _) =>
               let s := set_submission sequence (Some (run_id (identity p))) owners s in
               (set_tasks (st_groups s) (st_pending s + Z.of_nat (length plans))
                  (st_tasks s ++ [{| gt_sequence := sequence; gt_plans := plans; gt_phase := GQueued |}]) s,
                Ok tt)
           end
  end.

(** ** One episode: the nested [execute] *)

Inductive episode_action :=
| TakeWorker
| AdmitEpisode
| FinishEpisode (o : backend_outcome).

Definition fresh_episode (p : EpisodePlan) : episode := {| ep_plan := p; ep_state := EpWorker |}.
Definition at_state (e : episode) (x : episode_state) : episode := {| ep_plan := ep_plan e; ep_state := x |}.

(** Lines 239-250: the effect of an executed episode's result. *)
Definition settle_episode (wave_owned : bool) (r : EpisodeResult) (p : EpisodePlan) (cr : credits) : credits :=
  let cr := if safe r && negb wave_owned then on_ledger (charge (requirement p) (-1)) cr
            else if negb (safe r)
            then cancel_credits "stream_cleanup_or_request_unproven"
                   (if wave_owned then cr else on_ledger (quarantine (requirement p)) cr)
            else cr in
  let cr := if bool_decide (failure_category r ∈ [Some "infrastructure"; Some "infrastructure_error"])
            then cancel_credits "stream_infrastructure_failure" cr else cr in
  if bool_decide (verification_state r = "review_required")
  then cancel_credits "stream_verifier_review_required" cr else cr.

Definition episode_step (wave_owned : bool) (a : episode_action) (e : episode) (cr : credits)
  : option (episode * credits) :=
  match a, ep_state e with
  | TakeWorker, EpWorker =>
      if 0 <? c_workers cr then Some (at_state e EpFit, on_workers (-1) cr) else None
  | AdmitEpisode, EpFit =>
      if halted cr
      then Some (at_state e (EpDone (not_admitted (ep_plan e) "stream admission stopped")), on_workers 1 cr)
      else if wave_owned then Some (at_state e EpRunning, cr)
      else if fits (capacities c) (c_ledger cr) (requirement (ep_plan e))
      then Some (at_state e EpRunning, on_ledger (charge (requirement (ep_plan e)) 1) cr)
      else None
  | FinishEpisode o, EpRunning =>
      let r := execute (ep_plan e) o in
      Some (at_state e (EpDone r), on_workers 1 (settle_episode wave_owned r (ep_plan e) cr))
  | _, _ => None
  end.

(** ** Waves *)

(** The nested [fits_capacity]. *)
Definition fits_capacity (ps : list EpisodePlan) : bool :=
  forallb (fun et : string * quantities =>
             match capacities c !! et.1 with
             | None => true
             | Some capacity => forallb (fun k => qget k et.2 <=? amount k capacity) QUANTITIES
             end) (map_to_list (wave_totals (map requirement ps))).

Fixpoint extend_selection (selected candidates : list EpisodePlan) : list EpisodePlan :=
  match candidates with
  | [] => selected
  | p :: candidates =>
      if fits_capacity (selected ++ [p]) then extend_selection (selected ++ [p]) candidates else selected
  end.

(** The next physical wave: [plans[offset:offset + max_workers]] cut at the
    first plan that does not fit. *)
Definition next_wave (rest : list EpisodePlan) : list EpisodePlan :=
  extend_selection [] (take (Z.to_nat (max_workers c)) rest).

(** Lines 334-338: an unproven closure makes every result of the wave unproven. *)
Definition taint (closure : pyval) (r : EpisodeResult) : EpisodeResult :=
  {| result_identity := result_identity r; execution_state := execution_state r;
     verification_state := verification_state r; score_eligible := false; cleanup_state := "unknown";
     native_outcome := dict_set "group_closure" closure (native_outcome r);
     native_artifacts := native_artifacts r; usage := usage r; timings := timings r;
     failure_category := failure_category r; model_identity := model_identity r;
     request_state := Some [("state", PStr "group_closure_unknown");
       ("original", match request_state r with None => PNone | Some d => PDict d end);
       ("closure", closure)];
     configuration_sha256 := configuration_sha256 r; result_source_sha256 := result_source_sha256 r |}.

(** Lines 324-342: close one wave and move on to the next, or finish. *)
Definition close_stream_wave (closure : pyval) (earlier observed : list EpisodeResult)
    (selected rest : list EpisodePlan) (cr : credits) : group_phase * credits :=
  match (if forallb safe observed then request_uncertain closure else Ok true) with
  | Err e => (GDone (Err e), cr)
  | Ok unproven =>
      let verified := forallb safe observed && negb unproven in
      let cr := if verified then on_ledger (charge_all (map requirement selected) (-1)) cr
                else cancel_credits "stream_group_closure_unproven"
                       (on_ledger (quarantine_all (map requirement selected)) cr) in
      let results := earlier ++ (if verified then observed else map (taint closure) observed) in
      (match rest with [] => GDone (Ok results) | _ => GWaveFit results rest end, cr)
  end.

(** ** One group: the nested [group] *)

Inductive group_action :=
| StartGroup
| OnEpisode (j : nat) (a : episode_action)
| EndCollect
| StartWave
| WaveAdmitted (h : hook_outcome)
| EndWave (h : hook_outcome).

Definition group_backend (ps : list EpisodePlan) : option (nat) :=
  match ps with p :: _ => backend_of (task_benchmark (task p)) (backends c) | [] => None end.

Definition one_benchmark (ps : list EpisodePlan) : bool :=
  match ps with
  | p :: _ => forallb (fun q => bool_decide (task_benchmark (task q) = task_benchmark (task p))) ps
  | [] => false
  end.

Definition wave_hooks (ps : list EpisodePlan) : bool :=
  waves c || match group_backend ps with Some b => has_admit_group b | None => false end.

Fixpoint done_results (eps : list episode) : option (list EpisodeResult) :=
  match eps with
  | [] => Some []
  | e :: eps => match ep_state e, done_results eps with
                | EpDone r, Some rs => Some (r :: rs)
                | _, _ => None
                end
  end.

Definition hook_error (h : hook_outcome) : option string :=
  match h with
  | HookReturned _ => None
  | HookRaised name _ => Some name
  | HookCancelled => Some "CancelledError"
  end.

Definition uncertain_closure (name : string) : pyval :=
  PDict [("uncertain", PBool true); ("error_type", PStr name)].

Definition wave_closure (h : hook_outcome) : pyval :=
  match h with
  | HookReturned v => v
  | HookRaised name _ => uncertain_closure name
  | HookCancelled => uncertain_closure "CancelledError"
  end.

Definition in_episodes (wave_owned : bool) (j : nat) (a : episode_action) (eps : list episode) (cr : credits)
  : option (list episode * credits) :=
  match eps !! j with
  | None => None
  | Some e => match episode_step wave_owned a e cr with
              | Some (e', cr') => Some (<[j := e']> eps, cr')
              | None => None
              end
  end.

(** A step of a group that holds its group credit. *)
Definition phase_step (a : group_action) (ph : group_phase) (cr : credits) : option (group_phase * credits) :=
  match a, ph with
  | OnEpisode j ea, GCollect eps =>
      match in_episodes false j ea eps cr with
      | Some (eps, cr) => Some (GCollect eps, cr)
      | None => None
      end
  | EndCollect, GCollect eps =>
      match done_results eps with Some rs => Some (GDone (Ok rs), cr) | None => None end
  | StartWave, GWaveFit earlier rest =>
      if halted cr
      then let why := default "" (str_or (reason (c_token cr)) (Some "cancelled")) in
           Some (GDone (Ok (earlier ++ map (fun p => not_admitted p why) rest)), cr)
      else match next_wave rest with
           | [] => Some (GDone (Err (ValueError "one streamed episode exceeds physical wave capacity")), cr)
           | selected =>
               if wave_fits (capacities c) (c_ledger cr) (map requirement selected)
               then Some (GWaveAdmit earlier selected (drop (length selected) rest),
                          on_ledger (charge_all (map requirement selected) 1) cr)
               else None
           end
  | WaveAdmitted h, GWaveAdmit earlier selected rest =>
      match hook_error h with
      | None => Some (GWaveCollect earlier (map fresh_episode selected) rest, cr)
      | Some name =>
          let observed := map (fun p => unresolved p ("group admission: " +:+ name)) selected in
          Some (close_stream_wave (uncertain_closure name) earlier observed selected rest
                  (cancel_credits "stream_group_admission_failure" cr))
      end
  | OnEpisode j ea, GWaveCollect earlier eps rest =>
      match in_episodes true j ea eps cr with
      | Some (eps, cr) => Some (GWaveCollect earlier eps rest, cr)
      | None => None
      end
  | EndWave h, GWaveCollect earlier eps rest =>
      match done_results eps with
      | Some observed => Some (close_stream_wave (wave_closure h) earlier observed (map ep_plan eps) rest cr)
      | None => None
      end
  | _, _ => None
  end.

(** Entering the group once the group credit is held. *)
Definition enter_group (ps : list EpisodePlan) : group_phase :=
  if negb (one_benchmark ps)
  then GDone (Err (ValueError "one streamed semantic group requires one backend"))
  else if wave_hooks ps then GWaveFit [] ps
  else GCollect (map fresh_episode ps).

Definition finished_phase (ph : group_phase) : bool := match ph with GDone _ => true | _ => false end.

Definition with_phase (t : group_task) (ph : group_phase) : group_task :=
  {| gt_sequence := gt_sequence t; gt_plans := gt_plans t; gt_phase := ph |}.

(** ** Actions of the stream *)

Inductive action :=
| Submit (plans : list EpisodePlan) (sequence : Z)
| OnGroup (i : nat) (a : group_action)
| Return (i : nat)
| Cancel (why : string)
| Pause
| Resume
| Close (hooks : list hook_outcome).

Definition group_step (i : nat) (a : group_action) (s : stream) : option stream :=
  match st_tasks s !! i with
  | None => None
  | Some t =>
      match a, gt_phase t with
      | StartGroup, GQueued =>
          if 0 <? st_groups s
          then let ph := enter_group (gt_plans t) in
               Some (set_tasks (if finished_phase ph then st_groups s else st_groups s - 1) (st_pending s)
                       (<[i := with_phase t ph]> (st_tasks s)) s)
          else None
      | _, ph =>
          match phase_step a ph (st_credits s) with
          | None => None
          | Some (ph', cr) =>
              Some (set_tasks (if finished_phase ph' then st_groups s + 1 else st_groups s) (st_pending s)
                      (<[i := with_phase t ph']> (st_tasks s)) (set_credits cr s))
          end
      end
  end.

(** The [finally] of [execute_stream_group]: the caller gets the outcome. *)
Definition return_group (i : nat) (s : stream) : option (stream * res (list EpisodeResult)) :=
  match st_tasks s !! i with
  | Some t =>
      match gt_phase t with
      | GDone r => Some (set_tasks (st_groups s) (st_pending s - Z.of_nat (length (gt_plans t)))
                           (delete i (st_tasks s)) s, r)
      | _ => None
      end
  | None => None
  end.

Definition step (a : action) (s : stream) : option stream :=
  match a with
  | Submit plans sequence => Some (submit plans sequence s).1
  | OnGroup i a => group_step i a s
  | Return i => fst <$> return_group i s
  | Cancel why => Some (cancel_stream why s)
  | Pause => if st_closed s then None else Some (set_flags true (st_closed s) (st_failures s) s)
  | Resume => Some (resume_stream s).1
  | Close hooks =>
      if st_closed s || negb (st_paused s) then None
      else match st_tasks s with [] => Some (close_stream hooks s).1 | _ => None end
  end.

Fixpoint steps (actions : list action) (s : stream) : option stream :=
  match actions with
  | [] => Some s
  | a :: actions => match step a s with Some s => steps actions s | None => None end
  end.
End Stream.
