(* ===== verification/StreamExample.v ===== *)
(** * Concrete stream runs

    A group of two episodes that completes, and the mixed-style schedule in which
    two groups block each other. *)

From S2P Require Import Prelude PyValue Contracts Ledger Coordinator CoordinatorExample Stream.
Local Open Scope Z_scope.

Definition no_waves (b : nat) : bool := false.

Definition on_episode (i j : nat) (o : backend_outcome) : list action :=
  map (fun a => OnGroup i (OnEpisode j a)) [TakeWorker; AdmitEpisode; FinishEpisode o].

(** One group of two episodes, run to the point where it can return. *)
Definition example_actions : list action :=
  [Submit example_plans 0; OnGroup 0 StartGroup]
  ++ on_episode 0 1 (Returned (example_result (example_plan 1)))
  ++ on_episode 0 0 (ExecuteRaised "RuntimeError" "boom")
  ++ [OnGroup 0 EndCollect].

Definition opened (c : Config) (max_pending : Z) : stream :=
  with_started (start_stream_backends (backends c) [] []).1 (fresh_stream c max_pending new_token).

Definition after (c : Config) (hag : nat -> bool) (actions : list action) : stream :=
  default (opened c 4) (steps c hag actions (opened c 4)).

(** Two groups of different admission styles on one executor. *)
Definition styled_plan (bench : string) : EpisodePlan :=
  {| identity := {| run_id := "run"; benchmark := bench; episode_task_id := "t"; group_id := bench;
                    sample_index := 0; pass_index := 0; trial_id := None; sampling_seed := None |};
     task := {| task_benchmark := bench; task_id := "t"; source_sha256 := "s"; task_payload := [];
                resources := example_resources 2; budgets := []; provenance := [] |};
     plan_payload := PNone |}.

Definition mixed_config : Config :=
  {| backends := [("kernelbench", 1%nat); ("terminal-bench", 2%nat)]; max_workers := 1; max_groups := 2;
     capacities := {["cpu-pool" := example_resources 2]}; drain_timeout := 30; policy := "native-groups" |}.

(** Only the terminal-bench backend has an [admit_group] hook. *)
Definition mixed_hooks (b : nat) : bool := (b =? 2)%nat.

Definition mixed_actions : list action :=
  [Submit [styled_plan "terminal-bench"] 0; Submit [styled_plan "kernelbench"] 1;
   OnGroup 0 StartGroup; OnGroup 1 StartGroup;
   OnGroup 0 StartWave;
   OnGroup 1 (OnEpisode 0 TakeWorker);
   OnGroup 0 (WaveAdmitted (HookReturned PNone))].

Lemma after_steps c hag actions :
  is_Some (steps c hag actions (opened c 4)) ->
  steps c hag actions (opened c 4) = Some (after c hag actions).
Proof. intros [s Hs]. unfold after. by rewrite Hs. Qed.
