(* ===== verification/StreamProofs.v ===== *)
(** * Safety of the coordinator's stream, for every interleaving

    Credits, ledger and results of a stream stay consistent through any
    sequence of enabled actions of its coroutines. *)

From S2P Require Import Prelude PyValue Contracts Ledger Coordinator CoordinatorExample Stream.
Local Open Scope Z_scope.

(** ** Sums over lists with an updated element *)

Lemma list_sum_insert {A} (f : A -> Z) l i x y :
  l !! i = Some x -> list_sum_Z (map f (<[i := y]> l)) = list_sum_Z (map f l) - f x + f y.
Proof.
  revert i; induction l as [|z l IH]; intros [|i] H; simpl in *; simplify_eq; rewrite !list_sum_Z_cons.
  - lia.
  - rewrite (IH i H). lia.
Qed.

Lemma list_sum_delete {A} (f : A -> Z) l i x :
  l !! i = Some x -> list_sum_Z (map f (delete i l)) = list_sum_Z (map f l) - f x.
Proof.
  revert i; induction l as [|z l IH]; intros [|i] H; simpl in *; simplify_eq; rewrite !list_sum_Z_cons.
  - lia.
  - rewrite (IH i H). lia.
Qed.

Lemma list_sum_nonneg {A} (f : A -> Z) l : (forall x, x ∈ l -> 0 <= f x) -> 0 <= list_sum_Z (map f l).
Proof.
  induction l as [|x l IH]; intros H; simpl; [by rewrite list_sum_Z_nil|]. rewrite list_sum_Z_cons.
  assert (0 <= f x) by (apply H; set_solver). assert (0 <= list_sum_Z (map f l)) by (apply IH; set_solver). lia.
Qed.

Lemma list_sum_member {A} (f : A -> Z) l x :
  (forall y, y ∈ l -> 0 <= f y) -> x ∈ l -> f x <= list_sum_Z (map f l).
Proof.
  induction l as [|y l IH]; intros H Hx; [set_solver|]. simpl. rewrite list_sum_Z_cons.
  assert (0 <= list_sum_Z (map f l)) by (apply list_sum_nonneg; set_solver).
  apply elem_of_cons in Hx as [->|Hx]; [lia|].
  assert (f x <= list_sum_Z (map f l)) by (apply IH; set_solver).
  assert (0 <= f y) by (apply H; set_solver). lia.
Qed.

Section StreamProofs.
Context (c : Config) (has_admit_group : nat -> bool).

(** ** What a phase holds *)

Definition ep_holds (e : episode) : Z :=
  match ep_state e with EpFit | EpRunning => 1 | _ => 0 end.
Definition ep_owes (x : string) (k : qty) (e : episode) : Z :=
  match ep_state e with EpRunning => share x k (requirement (ep_plan e)) | _ => 0 end.

Definition eps_hold (eps : list episode) : Z := list_sum_Z (map ep_holds eps).

Definition phase_workers (ph : group_phase) : Z :=
  match ph with GCollect eps | GWaveCollect _ eps _ => eps_hold eps | _ => 0 end.

Definition phase_owes (x : string) (k : qty) (ph : group_phase) : Z :=
  match ph with
  | GCollect eps => list_sum_Z (map (ep_owes x k) eps)
  | GWaveAdmit _ selected _ => total x k (map requirement selected)
  | GWaveCollect _ eps _ => total x k (map requirement (map ep_plan eps))
  | _ => 0
  end.

Definition phase_group (ph : group_phase) : Z :=
  match ph with GQueued | GDone _ => 0 | _ => 1 end.

(** A closure that [request_uncertain] can judge. *)
Definition answerable_action (a : group_action) : Prop :=
  match a with
  | EndWave h => exists u, request_uncertain (wave_closure h) = Ok u
  | _ => True
  end.

Definition balance (l : Ledger) (x : string) (k : qty) : Z :=
  qget k (held (reserved l) x) - qget k (held (quarantined l) x).

(** ** Effects on the ledger *)

Lemma balance_charge r sign l x k : balance (charge r sign l) x k = balance l x k + sign * share x k r.
Proof. unfold balance. rewrite reserved_charge, quarantined_charge. lia. Qed.

Lemma balance_quarantine r l x k : balance (quarantine r l) x k = balance l x k - share x k r.
Proof. unfold balance. rewrite reserved_quarantine, quarantined_quarantine. lia. Qed.

Lemma balance_charge_all rs sign l x k :
  balance (charge_all rs sign l) x k = balance l x k + sign * total x k rs.
Proof. unfold balance. rewrite reserved_charge_all, quarantined_charge_all. lia. Qed.

Lemma balance_quarantine_all rs l x k :
  balance (quarantine_all rs l) x k = balance l x k - total x k rs.
Proof. unfold balance. rewrite reserved_quarantine_all, quarantined_quarantine_all. lia. Qed.

(** ** Episodes *)

Lemma settle_episode_workers w r p cr : c_workers (settle_episode w r p cr) = c_workers cr.
Proof.
  unfold settle_episode. destruct (safe r), w; simpl; by repeat case_bool_decide.
Qed.

Lemma settle_episode_balance w r p cr x k :
  balance (c_ledger (settle_episode w r p cr)) x k
  = balance (c_ledger cr) x k - (if w then 0 else share x k (requirement p)).
Proof.
  unfold settle_episode. destruct (safe r), w; simpl; repeat case_bool_decide; simpl;
    rewrite ?balance_charge, ?balance_quarantine; lia.
Qed.

Lemma episode_step_effect w a e cr e' cr' :
  episode_step c w a e cr = Some (e', cr') ->
  ep_plan e' = ep_plan e
  /\ c_workers cr' = c_workers cr + ep_holds e - ep_holds e'
  /\ (0 <= c_workers cr -> 0 <= c_workers cr')
  /\ forall x k, balance (c_ledger cr') x k
       = balance (c_ledger cr) x k + (if w then 0 else ep_owes x k e' - ep_owes x k e).
Proof.
  unfold episode_step, ep_holds, ep_owes. intros H. destruct a as [| |o], (ep_state e); try done.
  - destruct (0 <? c_workers cr) eqn:E; simplify_eq; destr_bool. simpl. split_and!; [done|lia|lia|].
    intros x k. destruct w; lia.
  - destruct (halted cr); [|destruct w; [|destruct (fits _ _ _)]]; simplify_eq; simpl;
      (split_and!; [done|lia|lia|]); intros x k; rewrite ?balance_charge; try destruct w; lia.
  - simplify_eq. simpl. rewrite settle_episode_workers. split_and!; [done|lia|lia|].
    intros x k. rewrite settle_episode_balance. destruct w; lia.
Qed.

Lemma in_episodes_effect w j a eps cr eps' cr' :
  in_episodes c w j a eps cr = Some (eps', cr') ->
  map ep_plan eps' = map ep_plan eps
  /\ c_workers cr' = c_workers cr + eps_hold eps - eps_hold eps'
  /\ (0 <= c_workers cr -> 0 <= c_workers cr')
  /\ forall x k, balance (c_ledger cr') x k = balance (c_ledger cr) x k
       + (if w then 0 else list_sum_Z (map (ep_owes x k) eps') - list_sum_Z (map (ep_owes x k) eps)).
Proof.
  unfold in_episodes. destruct (eps !! j) as [e|] eqn:Hj; [|done].
  destruct (episode_step _ _ _ _ _) as [[e' cr1]|] eqn:Hs; [|done]. intros; simplify_eq.
  apply episode_step_effect in Hs as (Hp & Hw & Hpos & Hb). split_and!.
  - change (ep_plan <$> <[j:=e']> eps = ep_plan <$> eps). rewrite list_fmap_insert, Hp.
    apply list_insert_id. by rewrite list_lookup_fmap, Hj.
  - unfold eps_hold. rewrite (list_sum_insert _ _ _ _ _ Hj). lia.
  - done.
  - intros x k. rewrite Hb, (list_sum_insert _ _ _ _ _ Hj). destruct w; lia.
Qed.

Lemma fresh_hold ps : eps_hold (map fresh_episode ps) = 0.
Proof. unfold eps_hold. induction ps as [|p ps IH]; [done|]. simpl. by rewrite list_sum_Z_cons, IH. Qed.

Lemma fresh_owes x k ps : list_sum_Z (map (ep_owes x k) (map fresh_episode ps)) = 0.
Proof. induction ps as [|p ps IH]; [done|]. simpl. by rewrite list_sum_Z_cons, IH. Qed.

Lemma fresh_plans ps : map ep_plan (map fresh_episode ps) = ps.
Proof. induction ps as [|p ps IH]; [done|]. simpl. by rewrite IH. Qed.

Lemma done_results_spec eps rs :
  done_results eps = Some rs ->
  eps_hold eps = 0 /\ (forall x k, list_sum_Z (map (ep_owes x k) eps) = 0)
  /\ Forall2 (fun e r => ep_state e = EpDone r) eps rs.
Proof.
  revert rs; induction eps as [|e eps IH]; intros rs H; simpl in H; [by simplify_eq|].
  destruct (ep_state e) as [| | |r] eqn:E; try done.
  destruct (done_results eps) as [rs'|]; [|done]. simplify_eq.
  destruct (IH rs' eq_refl) as (Hh & Ho & Hf). split_and!.
  - unfold eps_hold in *. simpl. rewrite list_sum_Z_cons, Hh. unfold ep_holds. by rewrite E.
  - intros x k. simpl. rewrite list_sum_Z_cons, Ho. unfold ep_owes. by rewrite E.
  - by constructor.
Qed.

(** ** Waves *)

Lemma extend_selection_spec sel ps :
  exists k, extend_selection c sel ps = sel ++ take k ps /\ (k <= length ps)%nat.
Proof.
  revert sel; induction ps as [|p ps IH]; intros sel; simpl.
  - exists 0%nat. by rewrite app_nil_r.
  - destruct (fits_capacity c (sel ++ [p])).
    + destruct (IH (sel ++ [p])) as (k & -> & Hk). exists (S k). simpl. rewrite <- app_assoc. split; [done|lia].
    + exists 0%nat. simpl. rewrite app_nil_r. split; [done|lia].
Qed.

Lemma next_wave_prefix rest :
  exists k, next_wave c rest = take k rest /\ (k <= Z.to_nat (max_workers c))%nat /\ (k <= length rest)%nat.
Proof.
  unfold next_wave.
  destruct (extend_selection_spec [] (take (Z.to_nat (max_workers c)) rest)) as (k & -> & Hk).
  rewrite length_take in Hk. exists k. rewrite app_nil_l, take_take. split; [f_equal; lia|lia].
Qed.

Lemma next_wave_split rest : next_wave c rest ++ drop (length (next_wave c rest)) rest = rest.
Proof.
  destruct (next_wave_prefix rest) as (k & -> & _ & Hk). rewrite length_take, Nat.min_l by done.
  apply take_drop.
Qed.

Lemma close_stream_wave_effect closure earlier observed selected rest cr ph' cr' :
  (forallb safe observed = true -> exists u, request_uncertain closure = Ok u) ->
  close_stream_wave closure earlier observed selected rest cr = (ph', cr') ->
  c_workers cr' = c_workers cr /\ phase_workers ph' = 0
  /\ forall x k, balance (c_ledger cr') x k = balance (c_ledger cr) x k - total x k (map requirement selected)
     /\ phase_owes x k ph' = 0.
Proof.
  intros Hans. unfold close_stream_wave. destruct (forallb safe observed).
  - destruct (Hans eq_refl) as [[] ->]; simpl; intros; simplify_eq;
      (split; [done|]); (split; [by destruct rest|]); intros x k; simpl;
      rewrite ?balance_charge_all, ?balance_quarantine_all; (split; [lia|by destruct rest]).
  - simpl. intros; simplify_eq. split; [done|]. split; [by destruct rest|]. intros x k. simpl.
    rewrite balance_quarantine_all. split; [lia|by destruct rest].
Qed.

Lemma unresolved_unsafe p why : safe (unresolved p why) = false.
Proof. done. Qed.

(** ** One step of a group *)

Lemma phase_step_effect a ph cr ph' cr' :
  answerable_action a ->
  phase_step c a ph cr = Some (ph', cr') ->
  (forall earlier selected rest, ph = GWaveAdmit earlier selected rest -> selected <> []) ->
  c_workers cr' = c_workers cr + phase_workers ph - phase_workers ph'
  /\ (0 <= c_workers cr -> 0 <= c_workers cr')
  /\ (forall x k, balance (c_ledger cr') x k = balance (c_ledger cr) x k + phase_owes x k ph' - phase_owes x k ph).
Proof.
  intros Hans H Hne. destruct a as [|j ea| | |h|h], ph as [|eps|earlier rest|earlier sel rest|earlier eps rest|o];
    simpl in H; try done.
  - destruct (in_episodes _ _ _ _ _ _) as [[eps' cr1]|] eqn:E; simplify_eq.
    apply in_episodes_effect in E as (_ & Hw & Hp & Hb). simpl. split_and!; [lia|done|].
    intros x k. rewrite Hb. lia.
  - destruct (in_episodes _ _ _ _ _ _) as [[eps' cr1]|] eqn:E; simplify_eq.
    apply in_episodes_effect in E as (Hm & Hw & Hp & Hb). simpl. split_and!; [lia|done|].
    intros x k. rewrite Hb, Hm. lia.
  - destruct (done_results eps) as [rs|] eqn:E; simplify_eq.
    apply done_results_spec in E as (Hh & Ho & _). simpl. split_and!; [lia|done|]. intros x k. rewrite Ho. lia.
  - destruct (halted cr); [simplify_eq; simpl; split_and!; [lia|done|intros; lia]|].
    destruct (next_wave c rest) as [|p sel]; [simplify_eq; simpl; split_and!; [lia|done|intros; lia]|].
    destruct (wave_fits _ _ _); [|done]. injection H as <- <-.
    split_and!; [simpl; lia|done|]. intros x k. cbn [phase_owes c_ledger on_ledger].
    rewrite balance_charge_all. cbn [map]. lia.
  - specialize (Hne earlier sel rest eq_refl). destruct (hook_error h) as [name|] eqn:E.
    + injection H as H. apply close_stream_wave_effect in H as (Hw & Hpw & Hb).
      2:{ by destruct sel. }
      simpl in *. split_and!; [lia|lia|]. intros x k. destruct (Hb x k) as [-> ->]. lia.
    + injection H as <- <-. simpl. rewrite fresh_hold. split_and!; [lia|done|]. intros x k.
      rewrite fresh_plans. lia.
  - destruct (done_results eps) as [rs|] eqn:E; [|done]. injection H as H.
    apply done_results_spec in E as (Hh & _ & _).
    apply close_stream_wave_effect in H as (Hw & Hpw & Hb); [|by intros _; apply Hans].
    simpl in *. split_and!; [lia|lia|]. intros x k. destruct (Hb x k) as [-> ->]. lia.
Qed.

(** ** The stream's credits *)

Definition sum_tasks (f : group_phase -> Z) (ts : list group_task) : Z :=
  list_sum_Z (map (fun t => f (gt_phase t)) ts).
Definition task_size (t : group_task) : Z := Z.of_nat (length (gt_plans t)).

Definition wave_selected (ph : group_phase) : Prop :=
  forall earlier selected rest, ph = GWaveAdmit earlier selected rest -> selected <> [].

Record Credits (s : stream) : Prop := {
  cr_workers : c_workers (st_credits s) = max_workers c - sum_tasks phase_workers (st_tasks s);
  cr_workers_pos : 0 <= c_workers (st_credits s);
  cr_groups : st_groups s = max_groups c - sum_tasks phase_group (st_tasks s);
  cr_groups_pos : 0 <= st_groups s;
  cr_pending : st_pending s = list_sum_Z (map task_size (st_tasks s));
  cr_limit : st_pending s <= st_limit s;
  cr_balance : forall x k, balance (c_ledger (st_credits s)) x k = sum_tasks (phase_owes x k) (st_tasks s);
  cr_selected : Forall (fun t => wave_selected (gt_phase t)) (st_tasks s) }.

Definition answerable_step (a : action) : Prop :=
  match a with OnGroup _ a => answerable_action a | _ => True end.

Lemma sum_tasks_insert f ts i t ph :
  ts !! i = Some t -> sum_tasks f (<[i := with_phase t ph]> ts) = sum_tasks f ts - f (gt_phase t) + f ph.
Proof. intros H. unfold sum_tasks. by rewrite (list_sum_insert (fun t => f (gt_phase t)) _ _ _ _ H). Qed.

Lemma size_insert ts i t ph :
  ts !! i = Some t -> list_sum_Z (map task_size (<[i := with_phase t ph]> ts)) = list_sum_Z (map task_size ts).
Proof. intros H. rewrite (list_sum_insert _ _ _ _ _ H). unfold task_size. simpl. lia. Qed.

Lemma sum_tasks_snoc f ts t : sum_tasks f (ts ++ [t]) = sum_tasks f ts + f (gt_phase t).
Proof. unfold sum_tasks. rewrite map_app, list_sum_Z_app. simpl. rewrite list_sum_Z_cons, list_sum_Z_nil. lia. Qed.

Lemma Forall_insert_phase (P : group_task -> Prop) ts i t :
  Forall P ts -> P t -> Forall P (<[i := t]> ts).
Proof. intros. by apply Forall_insert. Qed.

Lemma enter_group_effect ps :
  let ph := enter_group c has_admit_group ps in
  phase_workers ph = 0 /\ (forall x k, phase_owes x k ph = 0) /\ wave_selected ph
  /\ phase_group ph = (if finished_phase ph then 0 else 1).
Proof.
  unfold enter_group. destruct (negb _); [by split_and!|]. destruct (wave_hooks _ _ _); [by split_and!|].
  simpl. rewrite fresh_hold. split_and!; try done. intros x k. apply fresh_owes.
Qed.

Lemma phase_step_selected a ph cr ph' cr' :
  phase_step c a ph cr = Some (ph', cr') -> wave_selected ph'.
Proof.
  intros H e s r ->. destruct a, ph; simpl in H; repeat case_match; simplify_eq; try done;
    unfold close_stream_wave in *; repeat case_match; simplify_eq; done.
Qed.

Lemma phase_step_group a ph cr ph' cr' :
  phase_step c a ph cr = Some (ph', cr') ->
  phase_group ph = 1 /\ phase_group ph' = (if finished_phase ph' then 0 else 1).
Proof.
  intros H. destruct a, ph; simpl in H; repeat case_match; simplify_eq; try done;
    unfold close_stream_wave in *; repeat case_match; simplify_eq; done.
Qed.

Lemma group_step_credits i a s s' :
  answerable_action a -> Credits s -> group_step c has_admit_group i a s = Some s' -> Credits s'.
Proof.
  intros Hans [Hw Hwp Hg Hgp Hp Hl Hb Hsel] H. unfold group_step in H.
  destruct (st_tasks s !! i) as [t|] eqn:Ht; [|done].
  assert (Hsame : forall ph', match phase_step c a (gt_phase t) (st_credits s) with
      | None => None
      | Some (ph', cr) =>
          Some (set_tasks (if finished_phase ph' then st_groups s + 1 else st_groups s) (st_pending s)
                  (<[i := with_phase t ph']> (st_tasks s)) (set_credits cr s))
      end = Some ph' -> Credits ph').
  { intros s1 H1. destruct (phase_step _ _ _ _) as [[ph' cr]|] eqn:Hs; [|done]. simplify_eq.
    assert (Hwsel : wave_selected (gt_phase t)) by (rewrite Forall_forall in Hsel; apply Hsel, (list_elem_of_lookup_2 _ _ _ Ht)).
    destruct (phase_step_effect _ _ _ _ _ Hans Hs Hwsel) as (Hw' & Hwp' & Hb').
    destruct (phase_step_group _ _ _ _ _ Hs) as [Hg1 Hg2].
    constructor; simpl; rewrite ?size_insert, ?(sum_tasks_insert _ _ _ _ _ Ht) by done;
      try lia; try done.
    - destruct (finished_phase ph'); lia.
    - destruct (finished_phase ph'); lia.
    - intros x k. rewrite (sum_tasks_insert _ _ _ _ _ Ht), Hb', Hb. lia.
    - apply Forall_insert_phase; [done|]. simpl. by eapply phase_step_selected. }
  destruct (gt_phase t) eqn:Hph.
  - destruct a; try (by apply Hsame).
    destruct (0 <? st_groups s) eqn:E; [|done]. simplify_eq. destr_bool.
    destruct (enter_group_effect (gt_plans t)) as (He1 & He2 & He3 & He4).
    constructor; simpl; rewrite ?size_insert, ?(sum_tasks_insert _ _ _ _ _ Ht), ?Hph by done;
      cbn [phase_workers phase_owes phase_group]; try done; try lia.
    + destruct (finished_phase _); lia.
    + destruct (finished_phase _); lia.
    + intros x k. rewrite (sum_tasks_insert _ _ _ _ _ Ht), Hph, He2, Hb. cbn [phase_owes]. lia.
    + by apply Forall_insert_phase.
  - destruct a; by apply Hsame.
  - destruct a; by apply Hsame.
  - destruct a; by apply Hsame.
  - destruct a; by apply Hsame.
  - destruct a; by apply Hsame.
Qed.

Definition same_credits (s s' : stream) : Prop :=
  c_workers (st_credits s') = c_workers (st_credits s) /\ c_ledger (st_credits s') = c_ledger (st_credits s)
  /\ st_groups s' = st_groups s /\ st_pending s' = st_pending s /\ st_limit s' = st_limit s
  /\ st_tasks s' = st_tasks s /\ st_sequence s' = st_sequence s
  /\ (halted (st_credits s') = false -> halted (st_credits s) = false).

Lemma Credits_frame s s' : same_credits s s' -> Credits s -> Credits s'.
Proof. intros (Hw & Hl & Hg & Hp & Hli & Ht & _) []. constructor; rewrite ?Hw, ?Hl, ?Hg, ?Hp, ?Hli, ?Ht; done. Qed.

Lemma close_stream_frame hooks s : same_credits s (close_stream hooks s).1.
Proof. by repeat split. Qed.

Lemma resume_frame s : same_credits s (resume_stream s).1.
Proof. unfold resume_stream. destruct (_ || _); by repeat split. Qed.

(** What a submission does: nothing but a queued group. *)
Lemma submit_cases plans q s :
  (same_credits s (submit c plans q s).1 /\ exists e, (submit c plans q s).2 = Err e)
  \/ ((submit c plans q s).2 = Ok tt /\ plans <> [] /\ st_sequence s < q
      /\ distinct (map identity plans) = true
      /\ st_pending s + Z.of_nat (length plans) <= st_limit s
      /\ (check_stream_plans c (st_owners s) plans).2 = Ok tt
      /\ c_workers (st_credits (submit c plans q s).1) = c_workers (st_credits s)
      /\ st_credits (submit c plans q s).1 = st_credits s
      /\ st_groups (submit c plans q s).1 = st_groups s /\ st_limit (submit c plans q s).1 = st_limit s
      /\ st_pending (submit c plans q s).1 = st_pending s + Z.of_nat (length plans)
      /\ st_sequence (submit c plans q s).1 = q
      /\ st_tasks (submit c plans q s).1
         = st_tasks s ++ [{| gt_sequence := q; gt_plans := plans; gt_phase := GQueued |}]).
Proof.
  unfold submit. destruct (_ || _); [left; split; [by repeat split|by eexists]|].
  destruct plans as [|p plans]; [left; split; [by repeat split|by eexists]|].
  destruct ((_ || _) || _) eqn:E1; [left; split; [by repeat split|by eexists]|].
  destruct (negb (forallb _ _) || _) eqn:E2; [left; split; [by repeat split|by eexists]|].
  destruct (_ <? _) eqn:E3; [left; split; [by repeat split|by eexists]|].
  destruct (check_stream_plans _ _ _) as [owners [[]|e]] eqn:E4;
    [|left; split; [by repeat split|by eexists]].
  right. destr_bool. by split_and!.
Qed.

Lemma step_credits a s s' :
  answerable_step a -> Credits s -> step c has_admit_group a s = Some s' -> Credits s'.
Proof.
  intros Hans Hs H. destruct a as [plans q|i ga|i|why| | |hooks]; simpl in H.
  - injection H as <-. destruct (submit_cases plans q s)
      as [[Hf _]|(_ & _ & _ & _ & Hlim & _ & _ & Hcr & Hg & Hl & Hp & _ & Ht)]; [by eapply Credits_frame|].
    destruct Hs. constructor; rewrite ?Hcr, ?Hg, ?Hl, ?Hp, ?Ht, ?sum_tasks_snoc; simpl; try done; try lia.
    + rewrite map_app, list_sum_Z_app. simpl. rewrite list_sum_Z_cons, list_sum_Z_nil. unfold task_size at 2. simpl. lia.
    + intros x k. rewrite sum_tasks_snoc. simpl. rewrite cr_balance0. lia.
    + apply Forall_app. split; [done|]. by constructor.
  - by eapply group_step_credits.
  - unfold return_group in H. destruct (st_tasks s !! i) as [t|] eqn:Ht; [|done].
    destruct (gt_phase t) as [| | | | |r] eqn:Hph; try done. simpl in H. simplify_eq.
    assert (Hsum : forall f, f (GDone r) = 0 -> sum_tasks f (delete i (st_tasks s)) = sum_tasks f (st_tasks s)).
    { intros f Hf. unfold sum_tasks. rewrite (list_sum_delete _ _ _ _ Ht), Hph, Hf. lia. }
    destruct Hs. constructor; simpl; rewrite ?Hsum by done; try done.
    + rewrite (list_sum_delete _ _ _ _ Ht). unfold task_size at 2. lia.
    + lia.
    + intros x k. by rewrite Hsum.
    + by apply Forall_delete.
  - simplify_eq. eapply Credits_frame; [|exact Hs]. by repeat split.
  - destruct (st_closed s); [done|]. simplify_eq. eapply Credits_frame; [|exact Hs]. by repeat split.
  - injection H as <-. eapply Credits_frame; [apply resume_frame|done].
  - destruct (_ || _); [done|]. destruct (st_tasks s); [|done]. injection H as <-.
    eapply Credits_frame; [apply close_stream_frame|done].
Qed.

Lemma fresh_credits max_pending t started :
  0 <= max_workers c -> 0 <= max_groups c -> 0 <= max_pending ->
  Credits (with_started started (fresh_stream c max_pending t)).
Proof.
  intros. constructor; simpl; unfold sum_tasks; simpl; rewrite ?list_sum_Z_nil; try lia; try done.
  intros x k. unfold balance. simpl. by rewrite held_empty.
Qed.

Lemma steps_credits actions s s' :
  Forall answerable_step actions -> Credits s -> steps c has_admit_group actions s = Some s' -> Credits s'.
Proof.
  intros Ha. revert s; induction Ha as [|a actions Ha _ IH]; intros s Hs H; simpl in H; [by simplify_eq|].
  destruct (step _ _ _ _) as [s1|] eqn:E; [|done]. eapply IH; [|exact H]. by eapply step_credits.
Qed.
End StreamProofs.

(** * Capacity, quarantine, order of results and sequence numbers of a stream *)

(** A plan as its constructor leaves it: nonnegative quantities, known scope. *)
Definition wf_plan (p : EpisodePlan) : Prop :=
  (forall k, 0 <= amount k (requirement p))
  /\ accounting (requirement p) ∈ ["episode"; "backend-stage"].

Section Results.
Context (c : Config) (has_admit_group : nat -> bool).

(** ** Results follow the caller's order *)

Definition ep_ok (e : episode) : Prop :=
  forall r, ep_state e = EpDone r -> result_identity r = identity (ep_plan e).

(** [earlier] answers the plans before [remaining], in order. *)
Definition answered (earlier : list EpisodeResult) (remaining plans : list EpisodePlan) : Prop :=
  exists before, plans = before ++ remaining /\ map result_identity earlier = map identity before.

Definition phase_ok (plans : list EpisodePlan) (ph : group_phase) : Prop :=
  match ph with
  | GQueued | GDone (Err _) => True
  | GCollect eps => map ep_plan eps = plans /\ Forall ep_ok eps
  | GWaveFit earlier rest => answered earlier rest plans
  | GWaveAdmit earlier selected rest => answered earlier (selected ++ rest) plans
  | GWaveCollect earlier eps rest => answered earlier (map ep_plan eps ++ rest) plans /\ Forall ep_ok eps
  | GDone (Ok rs) => map result_identity rs = map identity plans
  end.

Lemma ep_ok_fresh ps : Forall ep_ok (map fresh_episode ps).
Proof. apply Forall_fmap, Forall_true. intros p r H. done. Qed.

Lemma in_episodes_ok w j a eps cr eps' cr' :
  Forall ep_ok eps -> in_episodes c w j a eps cr = Some (eps', cr') -> Forall ep_ok eps'.
Proof.
  intros Hok H. unfold in_episodes in H. destruct (eps !! j) as [e|] eqn:Hj; [|done].
  destruct (episode_step _ _ _ _ _) as [[e' cr1]|] eqn:Hs; [|done]. simplify_eq.
  apply Forall_insert; [done|]. intros r Hr. unfold episode_step in Hs.
  destruct a, (ep_state e); repeat case_match; simplify_eq; simpl in *; simplify_eq; try done.
  by destruct o as [x| | |]; simpl; [case_bool_decide|..].
Qed.

Lemma done_results_identities eps rs :
  Forall ep_ok eps -> done_results eps = Some rs ->
  map result_identity rs = map identity (map ep_plan eps).
Proof.
  intros Hok H. apply done_results_spec in H as (_ & _ & H). induction H as [|e r eps rs Her _ IH]; [done|].
  apply Forall_cons in Hok as [He Hok]. simpl. rewrite IH by done. f_equal. by apply He.
Qed.

Lemma answered_app earlier observed selected rest plans :
  answered earlier (selected ++ rest) plans ->
  map result_identity observed = map identity selected ->
  answered (earlier ++ observed) rest plans.
Proof.
  intros (before & -> & He) Ho. exists (before ++ selected).
  by rewrite <- app_assoc, !map_app, He, Ho.
Qed.

Lemma answered_all earlier plans : answered earlier [] plans -> map result_identity earlier = map identity plans.
Proof. intros (before & -> & ->). by rewrite app_nil_r. Qed.

Lemma taint_identities closure rs : map result_identity (map (taint closure) rs) = map result_identity rs.
Proof. rewrite map_map. by apply map_ext. Qed.

Lemma close_stream_wave_ok closure earlier observed selected rest cr ph' cr' plans :
  answered earlier (selected ++ rest) plans ->
  map result_identity observed = map identity selected ->
  close_stream_wave closure earlier observed selected rest cr = (ph', cr') -> phase_ok plans ph'.
Proof.
  intros Ha Ho H. unfold close_stream_wave in H.
  destruct (if forallb safe observed then _ else _) as [u|]; [|by simplify_eq].
  set (out := if _ && _ then observed else _) in H.
  assert (Hout : map result_identity out = map identity selected).
  { unfold out. destruct (_ && _); [done|]. by rewrite taint_identities. }
  pose proof (answered_app earlier out selected rest plans Ha Hout) as Hn.
  destruct rest; simplify_eq; [by apply answered_all|done].
Qed.

Lemma phase_step_ok a ph cr ph' cr' plans :
  phase_ok plans ph -> phase_step c a ph cr = Some (ph', cr') -> phase_ok plans ph'.
Proof.
  intros Hok H. destruct a as [|j ea| | |h|h], ph as [|eps|earlier rest|earlier sel rest|earlier eps rest|o];
    simpl in H, Hok; try done.
  - destruct (in_episodes _ _ _ _ _ _) as [[eps' cr1]|] eqn:E; simplify_eq. destruct Hok as [Hm Hf].
    split; [|by eapply in_episodes_ok]. by apply in_episodes_effect in E as (-> & _).
  - destruct (in_episodes _ _ _ _ _ _) as [[eps' cr1]|] eqn:E; simplify_eq. destruct Hok as [Hm Hf].
    split; [|by eapply in_episodes_ok]. by apply in_episodes_effect in E as (-> & _).
  - destruct (done_results eps) as [rs|] eqn:E; simplify_eq. destruct Hok as [Hm Hf]. simpl. rewrite <- Hm.
    by apply done_results_identities.
  - destruct (halted cr).
    + simplify_eq. simpl. destruct Hok as (before & -> & He). rewrite !map_app, He, map_map. done.
    + destruct (next_wave c rest) as [|p sel] eqn:En; [by simplify_eq|].
      destruct (wave_fits _ _ _); [|done]. injection H as <- <-. simpl.
      pose proof (next_wave_split c rest) as Hsp. rewrite En in Hsp. simpl in Hsp. simpl. by rewrite Hsp.
  - destruct (hook_error h) as [name|].
    + injection H as H. eapply close_stream_wave_ok; [exact Hok| |exact H]. by rewrite map_map.
    + injection H as <- <-. simpl. rewrite fresh_plans. split; [done|apply ep_ok_fresh].
  - destruct (done_results eps) as [rs|] eqn:E; [|done]. injection H as H. destruct Hok as [Ha Hf].
    eapply close_stream_wave_ok; [exact Ha| |exact H]. by apply done_results_identities.
Qed.

(** ** Capacity *)

Definition phase_plans (ph : group_phase) : list EpisodePlan :=
  match ph with
  | GCollect eps => map ep_plan eps
  | GWaveFit _ rest => rest
  | GWaveAdmit _ selected rest => selected ++ rest
  | GWaveCollect _ eps rest => map ep_plan eps ++ rest
  | _ => []
  end.

Lemma phase_plans_wf plans ph : phase_ok plans ph -> Forall wf_plan plans -> Forall wf_plan (phase_plans ph).
Proof.
  destruct ph as [|eps|e r|e s r|e eps r|[]]; simpl; intros Hok Hp; try done.
  - by destruct Hok as [<- _].
  - destruct Hok as (b & -> & _). by apply Forall_app in Hp as [_ ?].
  - destruct Hok as (b & -> & _). by apply Forall_app in Hp as [_ ?].
  - destruct Hok as [(b & -> & _) _]. by apply Forall_app in Hp as [_ ?].
Qed.

Lemma wf_requirements ps : Forall wf_plan ps -> Forall (fun r => forall k, 0 <= amount k r) (map requirement ps).
Proof. intros H. apply Forall_fmap. eapply Forall_impl; [exact H|]. by intros p [? _]. Qed.

Local Abbreviation within := (within_capacity (capacities c)).

Lemma settle_episode_within w r p cr :
  wf_plan p -> within (c_ledger cr) -> within (c_ledger (settle_episode w r p cr)).
Proof.
  intros [Hp _] Hw. unfold settle_episode.
  destruct (safe r), w; simpl; repeat case_bool_decide; simpl; try done;
    try (by apply within_release); eapply within_same_reserved; try exact Hw; apply reserved_quarantine.
Qed.

Lemma episode_step_within w a e cr e' cr' :
  wf_plan (ep_plan e) -> within (c_ledger cr) -> episode_step c w a e cr = Some (e', cr') ->
  within (c_ledger cr').
Proof.
  intros Hp Hw H. unfold episode_step in H. destruct a, (ep_state e); try done.
  - destruct (_ <? _); by simplify_eq.
  - destruct (halted cr); [by simplify_eq|]. destruct w; [by simplify_eq|].
    destruct (fits _ _ _) eqn:E; simplify_eq. simpl. by apply fits_within.
  - simplify_eq. simpl. by apply settle_episode_within.
Qed.

Lemma in_episodes_within w j a eps cr eps' cr' :
  Forall wf_plan (map ep_plan eps) -> within (c_ledger cr) ->
  in_episodes c w j a eps cr = Some (eps', cr') -> within (c_ledger cr').
Proof.
  intros Hp Hw H. unfold in_episodes in H. destruct (eps !! j) as [e|] eqn:Hj; [|done].
  destruct (episode_step _ _ _ _ _) as [[e' cr1]|] eqn:Hs; [|done]. simplify_eq.
  eapply episode_step_within; [|exact Hw|exact Hs].
  apply (Forall_lookup_1 _ (ep_plan <$> eps) j); [done|]. by rewrite list_lookup_fmap, Hj.
Qed.

Lemma close_stream_wave_within closure earlier observed selected rest cr :
  Forall wf_plan selected -> within (c_ledger cr) ->
  within (c_ledger (close_stream_wave closure earlier observed selected rest cr).2).
Proof.
  intros Hp Hw. unfold close_stream_wave. destruct (if forallb safe observed then _ else _) as [u|]; [|done].
  simpl. destruct (_ && _); simpl.
  - apply within_release_all; [by apply wf_requirements|done].
  - eapply within_same_reserved; [apply reserved_quarantine_all|done].
Qed.

Lemma phase_step_within a ph cr ph' cr' :
  Forall wf_plan (phase_plans ph) -> within (c_ledger cr) ->
  phase_step c a ph cr = Some (ph', cr') -> within (c_ledger cr').
Proof.
  intros Hp Hw H. destruct a as [|j ea| | |h|h], ph as [|eps|earlier rest|earlier sel rest|earlier eps rest|o];
    simpl in H, Hp; try done; try (apply Forall_app in Hp as [Hp _]).
  - destruct (in_episodes _ _ _ _ _ _) as [[eps' cr1]|] eqn:E; simplify_eq. by eapply in_episodes_within.
  - destruct (in_episodes _ _ _ _ _ _) as [[eps' cr1]|] eqn:E; simplify_eq. by eapply in_episodes_within.
  - destruct (done_results eps); by simplify_eq.
  - destruct (halted cr); [by simplify_eq|]. destruct (next_wave c rest) as [|p sel]; [by simplify_eq|].
    destruct (wave_fits _ _ _) eqn:E; [|done]. injection H as <- <-. by apply wave_fits_within.
  - destruct (hook_error h).
    + injection H as H. pose proof (close_stream_wave_within (uncertain_closure s) earlier
        (map (fun p => unresolved p ("group admission: " +:+ s)) sel) sel rest
        (cancel_credits "stream_group_admission_failure" cr) Hp Hw) as Hx. by rewrite H in Hx.
    + by simplify_eq.
  - destruct (done_results eps) as [rs|]; [|done]. injection H as H.
    pose proof (close_stream_wave_within (wave_closure h) earlier rs (map ep_plan eps) rest cr Hp Hw) as Hx.
    by rewrite H in Hx.
Qed.

(** ** Nothing is quarantined while the stream still admits work *)

Definition unhalted_keeps (cr cr' : credits) : Prop :=
  halted cr' = false -> halted cr = false /\ quarantined (c_ledger cr') = quarantined (c_ledger cr).

#[export] Instance unhalted_keeps_preorder : PreOrder unhalted_keeps.
Proof.
  split; [by intros cr|]. intros a b d Hab Hbd Hd. destruct (Hbd Hd) as [Hb ->]. destruct (Hab Hb) as [? ->]. done.
Qed.

Lemma settle_episode_keeps w r p cr : unhalted_keeps cr (settle_episode w r p cr).
Proof.
  unfold settle_episode, unhalted_keeps. destruct (safe r), w; simpl; repeat case_bool_decide; simpl; try done;
    rewrite ?quarantined_charge; done.
Qed.

Lemma close_stream_wave_keeps closure earlier observed selected rest cr :
  unhalted_keeps cr (close_stream_wave closure earlier observed selected rest cr).2.
Proof.
  unfold close_stream_wave. destruct (if forallb safe observed then _ else _) as [u|]; [|done].
  cbn [snd]. destruct (_ && _); intros Hh; [|done]. split; [done|].
  cbn [c_ledger on_ledger]. by rewrite quarantined_charge_all.
Qed.

Lemma in_episodes_keeps w j a eps cr eps' cr' :
  in_episodes c w j a eps cr = Some (eps', cr') -> unhalted_keeps cr cr'.
Proof.
  intros H. unfold in_episodes in H. destruct (eps !! j) as [e|] eqn:Hj; [|done].
  destruct (episode_step _ _ _ _ _) as [[e' cr1]|] eqn:Hs; [|done]. simplify_eq.
  unfold episode_step in Hs. destruct a, (ep_state e); try done.
  - destruct (_ <? _); by simplify_eq.
  - destruct (halted cr) eqn:Eh; [simplify_eq; intros Hx; unfold halted in *; simpl in *; congruence|].
    destruct w; [by simplify_eq|]. destruct (fits _ _ _); simplify_eq.
    intros _. simpl. by rewrite quarantined_charge.
  - simplify_eq. intros Hx. by apply settle_episode_keeps.
Qed.

Lemma phase_step_keeps a ph cr ph' cr' : phase_step c a ph cr = Some (ph', cr') -> unhalted_keeps cr cr'.
Proof.
  intros H. destruct a as [|j ea| | |h|h], ph as [|eps|earlier rest|earlier sel rest|earlier eps rest|o];
    simpl in H; try done.
  - destruct (in_episodes _ _ _ _ _ _) as [[eps' cr1]|] eqn:E; simplify_eq. by eapply in_episodes_keeps.
  - destruct (in_episodes _ _ _ _ _ _) as [[eps' cr1]|] eqn:E; simplify_eq. by eapply in_episodes_keeps.
  - destruct (done_results eps); by simplify_eq.
  - destruct (halted cr) eqn:Eh; [simplify_eq; intros Hx; congruence|].
    destruct (next_wave c rest) as [|p sel]; [by simplify_eq|].
    destruct (wave_fits _ _ _) eqn:E; [|done]. injection H as <- <-. intros _.
    cbn [c_ledger on_ledger]. by rewrite quarantined_charge_all.
  - destruct (hook_error h) as [name|]; [|by simplify_eq].
    injection H as H. transitivity (cancel_credits "stream_group_admission_failure" cr); [by intros Hx|].
    pose proof (close_stream_wave_keeps (uncertain_closure name) earlier
        (map (fun p => unresolved p ("group admission: " +:+ name)) sel) sel rest
        (cancel_credits "stream_group_admission_failure" cr)) as Hx. by rewrite H in Hx.
  - destruct (done_results eps) as [rs|]; [|done]. injection H as H.
    pose proof (close_stream_wave_keeps (wave_closure h) earlier rs (map ep_plan eps) rest cr) as Hx.
    by rewrite H in Hx.
Qed.
End Results.
