(* ===== verification/StreamSafety.v ===== *)
(** * What the stream guarantees to its callers

    The theorems about streams that any sequence of enabled actions can reach
    after [open_stream]. *)

From S2P Require Import Prelude PyValue Contracts Ledger Coordinator CoordinatorExample Stream StreamExample StreamProofs.
Local Open Scope Z_scope.

Section Safety.
Context (c : Config) (has_admit_group : nat -> bool).

(** An episode that was accepted has a backend and fits its executor when
    nothing else runs. *)
Definition plan_fits (p : EpisodePlan) : Prop :=
  is_Some (backend_of (task_benchmark (task p)) (backends c))
  /\ (staged (requirement p) = true
      \/ forall capacity k, capacities c !! executor (requirement p) = Some capacity ->
           amount k (requirement p) <= amount k capacity).

Definition task_ok (top : Z) (t : group_task) : Prop :=
  phase_ok (gt_plans t) (gt_phase t) /\ Forall wf_plan (gt_plans t) /\ gt_plans t <> []
  /\ Forall plan_fits (gt_plans t) /\ gt_sequence t <= top.

Record Safe (s : stream) : Prop := {
  sf_credits : Credits c s;
  sf_tasks : Forall (task_ok (st_sequence s)) (st_tasks s);
  sf_within : within_capacity (capacities c) (c_ledger (st_credits s));
  sf_quarantine : halted (st_credits s) = false ->
                  forall x k, qget k (held (quarantined (c_ledger (st_credits s))) x) = 0 }.

(** Callers submit plans that their constructors built; closures are mappings
    or falsy. *)
Definition wf_step (a : action) : Prop :=
  answerable_step a /\ match a with Submit plans _ => Forall wf_plan plans | _ => True end.

Lemma check_stream_plan_fits owners p owners' :
  wf_plan p -> check_stream_plan c owners p = (owners', Ok tt) -> plan_fits p.
Proof.
  intros [_ Hacc] H. unfold check_stream_plan in H. destruct (backend_of _ _) as [b|] eqn:Hb; [|done].
  unfold plan_fits. rewrite Hb. split; [done|]. destruct (staged (requirement p)) eqn:Hst; [by left|right].
  intros capacity k Hc. simpl in H. rewrite Hc in H.
  unfold staged in Hst. destr_bool.
  assert (Hep : accounting (requirement p) = "episode") by set_solver.
  rewrite (bool_decide_eq_true_2 _ Hep) in H. simpl in H.
  destruct (exceeds (requirement p) capacity) eqn:Hex; [done|].
  destruct (Z.le_gt_cases (amount k (requirement p)) (amount k capacity)) as [|Hlt]; [done|exfalso].
  assert (exceeds (requirement p) capacity = true); [|congruence].
  unfold exceeds. apply existsb_exists. exists k. split; [|by apply Z.ltb_lt].
  destruct k; unfold QUANTITIES; simpl; auto.
Qed.

Lemma check_stream_plans_fits owners ps :
  Forall wf_plan ps -> (check_stream_plans c owners ps).2 = Ok tt -> Forall plan_fits ps.
Proof.
  intros Hwf. revert owners. induction Hwf as [|p ps Hp _ IH]; intros owners H; [constructor|].
  simpl in H. destruct (check_stream_plan c owners p) as [owners' [[]|e]] eqn:E; [|done].
  constructor; [by eapply check_stream_plan_fits|by eapply IH].
Qed.

Lemma task_ok_top q q' t : q <= q' -> task_ok q t -> task_ok q' t.
Proof. intros Hq (? & ? & ? & ? & ?). unfold task_ok. split_and!; try done. lia. Qed.

(** A step keeps the tasks of a safe stream well formed and its ledger within
    capacity; the four groups of actions are treated one by one. *)
Lemma group_step_safe i a s s' :
  answerable_action a -> Safe s -> group_step c has_admit_group i a s = Some s' -> Safe s'.
Proof.
  intros Hans Hs H. pose proof (group_step_credits c has_admit_group i a s s' Hans (sf_credits s Hs) H) as Hcr.
  destruct Hs as [_ Htasks Hwithin Hq]. unfold group_step in H.
  destruct (st_tasks s !! i) as [t|] eqn:Ht; [|done].
  pose proof (Forall_lookup_1 _ _ _ _ Htasks Ht) as (Hok & Hwf & Hne & Hfit & Hseq).
  assert (Hsame : match phase_step c a (gt_phase t) (st_credits s) with
      | None => None
      | Some (ph', cr) =>
          Some (set_tasks (if finished_phase ph' then st_groups s + 1 else st_groups s) (st_pending s)
                  (<[i := with_phase t ph']> (st_tasks s)) (set_credits cr s))
      end = Some s' -> Safe s').
  { destruct (phase_step _ _ _ _) as [[ph' cr]|] eqn:Hst; [|done]. intros; simplify_eq.
    constructor; simpl; [done| | |].
    - apply Forall_insert; [done|]. split_and!; try done. simpl. by eapply phase_step_ok.
    - eapply phase_step_within; [|exact Hwithin|exact Hst]. by eapply phase_plans_wf.
    - intros Hh x k. destruct (phase_step_keeps _ _ _ _ _ _ Hst Hh) as [Hh' ->]. by apply Hq. }
  destruct (gt_phase t) eqn:Hph; destruct a; try (by apply Hsame).
  destruct (0 <? st_groups s); [|done]. simplify_eq. constructor; simpl; try done.
  apply Forall_insert; [done|]. split_and!; try done. simpl. unfold enter_group.
  destruct (negb _); [done|]. destruct (wave_hooks _ _ _); simpl.
  - by exists [].
  - split; [apply fresh_plans|apply ep_ok_fresh].
Qed.


Lemma Safe_frame s s' : same_credits s s' -> Safe s -> Safe s'.
Proof.
  intros Hf [Hcr Ht Hw Hq]. pose proof (Credits_frame _ _ _ Hf Hcr).
  destruct Hf as (_ & Hl & _ & _ & _ & Hts & Hseq & Hh).
  constructor; rewrite ?Hl, ?Hts, ?Hseq; auto.
Qed.

Lemma submit_safe plans q s : Forall wf_plan plans -> Safe s -> Safe (submit c plans q s).1.
Proof.
  intros Hwf Hs.
  pose proof (step_credits c has_admit_group (Submit plans q) s _ I (sf_credits s Hs) eq_refl) as Hcr.
  destruct (submit_cases c plans q s)
      as [[Hf _]|(_ & Hne & Hq & _ & _ & Hchk & _ & Hst & _ & _ & _ & Hseq & Ht)]; [by eapply Safe_frame|].
  destruct Hs as [_ Htasks Hw Hqu]. constructor; rewrite ?Hst, ?Hseq, ?Ht; try done.
  apply Forall_app. split.
  - eapply Forall_impl; [exact Htasks|]. intros t. apply task_ok_top. lia.
  - constructor; [|constructor]. split_and!; simpl; try done. by eapply check_stream_plans_fits.
Qed.

Lemma step_safe a s s' : wf_step a -> Safe s -> step c has_admit_group a s = Some s' -> Safe s'.
Proof.
  intros [Hans Hwf] Hs H.
  pose proof (step_credits c has_admit_group a s s' Hans (sf_credits s Hs) H) as Hcr.
  destruct a as [plans q|i ga|i|why| | |hooks]; simpl in H.
  - injection H as <-. by apply submit_safe.
  - by eapply group_step_safe.
  - unfold return_group in H. destruct (st_tasks s !! i) as [t|] eqn:Ht; [|done].
    destruct (gt_phase t); try done. simpl in H. simplify_eq. destruct Hs as [_ Htasks Hw Hqu].
    constructor; simpl; try done. by apply Forall_delete.
  - simplify_eq. eapply Safe_frame; [|exact Hs]. by repeat split.
  - destruct (st_closed s); [done|]. simplify_eq. eapply Safe_frame; [|exact Hs]. by repeat split.
  - injection H as <-. eapply Safe_frame; [apply resume_frame|done].
  - destruct (_ || _); [done|]. destruct (st_tasks s); [|done]. injection H as <-.
    eapply Safe_frame; [apply close_stream_frame|done].
Qed.

Lemma steps_safe actions s s' :
  Forall wf_step actions -> Safe s -> steps c has_admit_group actions s = Some s' -> Safe s'.
Proof.
  intros Ha. revert s; induction Ha as [|a actions Ha _ IH]; intros s Hs H; simpl in H; [by simplify_eq|].
  destruct (step _ _ _ _) as [s1|] eqn:E; [|done]. eapply IH; [|exact H]. by eapply step_safe.
Qed.

(** A stream after [open_stream] and any sequence of enabled actions. *)
Definition reachable_stream (actions : list action) (s : stream) : Prop :=
  exists max_pending t starts closes s0,
    (open_stream c false max_pending t starts closes).2 = Some s0
    /\ Forall wf_step actions /\ steps c has_admit_group actions s0 = Some s.

Context (workers_pos : 1 <= max_workers c) (groups_pos : 1 <= max_groups c).

Lemma fresh_safe max_pending t started :
  1 <= max_pending -> Safe (with_started started (fresh_stream c max_pending t)).
Proof.
  intros Hp. constructor; simpl; try done.
  - apply fresh_credits; lia.
  - apply empty_within.
  - intros _ x k. by rewrite held_empty.
Qed.

Lemma open_stream_safe used max_pending t starts closes s :
  (open_stream c used max_pending t starts closes).2 = Some s ->
  Safe s /\ st_tasks s = [] /\ st_sequence s = -1.
Proof.
  unfold open_stream. destruct (used || (max_pending <? 1)) eqn:E; [done|]. destr_bool.
  destruct (start_stream_backends _ _ _) as [started [[]|e]]; simpl.
  - intros; simplify_eq. split; [by apply fresh_safe|done].
  - destruct (close_failures _ _); simpl; intros; simplify_eq;
      (split; [|done]); (eapply Safe_frame; [|by apply (fresh_safe max_pending t started)]); by repeat split.
Qed.

Lemma reachable_safe actions s : reachable_stream actions s -> Safe s.
Proof.
  intros (mp & t & st & cl & s0 & Ho & Ha & Hs). apply open_stream_safe in Ho as [Ho _].
  by eapply steps_safe.
Qed.
End Safety.


(** C21. Order of results: whatever the interleaving, a group that returns
    results returns one per submitted plan, in the caller's order, across all
    its physical waves. *)
Theorem stream_results_in_order c has_admit_group actions s i t s' rs :
  1 <= max_workers c -> 1 <= max_groups c -> reachable_stream c has_admit_group actions s ->
  st_tasks s !! i = Some t -> return_group i s = Some (s', Ok rs) ->
  map result_identity rs = map identity (gt_plans t).
Proof.
  intros Hw Hg Hr Ht H. destruct (reachable_safe c has_admit_group Hw Hg actions s Hr) as [_ Htasks _ _].
  pose proof (Forall_lookup_1 _ _ _ _ Htasks Ht) as (Hok & _). unfold return_group in H. rewrite Ht in H.
  destruct (gt_phase t) as [| | | | |[]]; try done. by simplify_eq.
Qed.

Lemma example_reachable :
  reachable_stream (example_config "native-groups") no_waves example_actions
    (after (example_config "native-groups") no_waves example_actions).
Proof.
  exists 4, new_token, [], [], (opened (example_config "native-groups") 4). split; [reflexivity|].
  split; [|apply after_steps; vm_compute; by eexists].
  repeat constructor; try (intros k; destruct k; simpl; lia).
Defined.


Lemma stream_results_in_order_witness :
  exists s' rs, return_group 0 (after (example_config "native-groups") no_waves example_actions) = Some (s', Ok rs)
  /\ map result_identity rs = map identity example_plans.
Proof.
  destruct (return_group 0 (after (example_config "native-groups") no_waves example_actions))
    as [[s' [rs|e]]|] eqn:E; [|vm_compute in E; discriminate E..].
  exists s', rs. split; [reflexivity|].
  refine (stream_results_in_order (example_config "native-groups") no_waves example_actions
    (after (example_config "native-groups") no_waves example_actions) 0
    {| gt_sequence := 0; gt_plans := example_plans; gt_phase := GDone (Ok rs) |} s' rs _ _ _ _ E).
  - simpl. lia.
  - simpl. lia.
  - apply example_reachable.
  - revert E. vm_compute. intros E. injection E as _ <-. reflexivity.
Defined.
