(* ===== verification/StreamProgress.v ===== *)
(** * Progress of the stream

    Groups of one admission style never deadlock; groups of the two styles that
    share an executor can.  Sequence numbers are never replayed. *)

From S2P Require Import Prelude PyValue Contracts Ledger Coordinator CoordinatorExample Stream StreamExample StreamProofs StreamSafety.
Local Open Scope Z_scope.

Section Progress.
Context (c : Config) (has_admit_group : nat -> bool).







(** ** Which actions are enabled *)










(** ** With nothing owed, everything accepted fits *)









Definition internal (a : action) : Prop :=
  match a with OnGroup _ _ | Return _ => True | _ => False end.

Definition can_move (s : stream) : Prop :=
  exists a, internal a /\ is_Some (step c has_admit_group a s).

Context (workers_pos : 1 <= max_workers c) (groups_pos : 1 <= max_groups c).







(** ** Sequence numbers *)

(** The sequence numbers of the accepted submissions, in order. *)
Fixpoint accepted (actions : list action) (s : stream) : list Z :=
  match actions with
  | [] => []
  | a :: actions =>
      match step c has_admit_group a s with
      | None => []
      | Some s' =>
          match a with
          | Submit plans q => if is_ok (submit c plans q s).2 then q :: accepted actions s' else accepted actions s'
          | _ => accepted actions s'
          end
      end
  end.

Lemma step_sequence a s s' :
  step c has_admit_group a s = Some s' ->
  st_sequence s <= st_sequence s'
  /\ match a with
     | Submit plans q => is_ok (submit c plans q s).2 = true -> st_sequence s < q /\ st_sequence s' = q
     | _ => True
     end.
Proof.
  intros H. destruct a as [plans q|i ga|i|why| | |hooks]; simpl in H.
  - injection H as <-. destruct (submit_cases c plans q s)
      as [[(_ & _ & _ & _ & _ & _ & -> & _) [e ->]]|(-> & _ & Hq & _ & _ & _ & _ & _ & _ & _ & _ & -> & _)].
    + split; [lia|done].
    + split; [lia|]. intros _. lia.
  - unfold group_step in H. repeat case_match; simplify_eq; simpl; split; try done; lia.
  - unfold return_group in H. repeat case_match; simpl in H; simplify_eq; simpl; split; try done; lia.
  - simplify_eq. simpl. split; [lia|done].
  - destruct (st_closed s); simplify_eq. simpl. split; [lia|done].
  - unfold resume_stream in H. destruct (_ || _); simplify_eq; simpl; split; try done; lia.
  - destruct (_ || _); [done|]. destruct (st_tasks s); [|done]. injection H as <-. simpl. split; [lia|done].
Qed.

Lemma accepted_above actions s : Forall (fun q => st_sequence s < q) (accepted actions s).
Proof.
  revert s; induction actions as [|a actions IH]; intros s; simpl; [constructor|].
  destruct (step _ _ _ _) as [s'|] eqn:E; [|constructor].
  destruct (step_sequence a s s' E) as [Hle Hsub].
  assert (Hrest : Forall (fun q => st_sequence s < q) (accepted actions s')).
  { eapply Forall_impl; [apply IH|]. simpl. lia. }
  destruct a; try done. destruct (is_ok _); [|done]. constructor; [|done]. by apply Hsub.
Qed.

Lemma accepted_sorted actions s : StronglySorted Z.lt (accepted actions s).
Proof.
  revert s; induction actions as [|a actions IH]; intros s; simpl; [constructor|].
  destruct (step _ _ _ _) as [s'|] eqn:E; [|constructor].
  destruct (step_sequence a s s' E) as [_ Hsub].
  destruct a; try apply IH. destruct (is_ok _); [|apply IH]. constructor; [apply IH|].
  destruct (Hsub eq_refl) as [_ <-]. apply accepted_above.
Qed.
End Progress.


(** No replay: over any run of a stream, the sequence numbers of the accepted
    submissions strictly increase, so no sequence number is accepted twice. *)
Theorem stream_never_replays c has_admit_group actions s :
  StronglySorted Z.lt (accepted c has_admit_group actions s).
Proof. apply accepted_sorted. Qed.


(** C29. The uniformity assumption is needed: with one worker, an executor that
    fits one episode, and two backends of which one has [admit_group], the native
    episode can hold the only worker while it waits for the executor, which the
    wave holds while its episode waits for the worker.  No coroutine of either
    group can move although the stream is not cancelled. *)
Theorem mixed_stream_deadlocks :
  let s := after mixed_config mixed_hooks mixed_actions in
  new_coordinator [("kernelbench", 1%nat); ("terminal-bench", 2%nat)] 1 2 {["cpu-pool" := example_resources 2]}
    (FFin 30) "native-groups" = Ok mixed_config
  /\ reachable_stream mixed_config mixed_hooks mixed_actions s
  /\ halted (st_credits s) = false /\ length (st_tasks s) = 2%nat
  /\ ~ can_move mixed_config mixed_hooks s.
Proof.
  split_and!; [reflexivity| |reflexivity|reflexivity|].
  - exists 4, new_token, [], [], (opened mixed_config 4). split; [reflexivity|].
    split; [|apply after_steps; vm_compute; by eexists]. repeat constructor; try (intros k; destruct k; simpl; lia).
  - intros (a & Hi & Hm). destruct a as [| i ga | i | | | |]; try done.
    + destruct i as [|[|i]], ga as [|[|j] []| | |h|h]; vm_compute in Hm; by destruct Hm.
    + destruct i as [|[|i]]; vm_compute in Hm; by destruct Hm.
Qed.
