(* ===== verification/Training.v ===== *)
(** * Training records ([rollout_manager/training.py])

    Policy receipts, turn traces, trajectories and groups, with the checks of
    their constructors, their dictionaries and the conversion of legacy groups.
    A record field holds the normalised value the constructor stores: token
    lists, finite floats, JSON evidence. *)

From stdpp Require Import pretty.
From S2P Require Import Prelude PyValue.
Local Open Scope Z_scope.
Local Open Scope py_scope.

Definition SCHEMA_VERSION : Z := 1.

(** ** Field checks *)

Definition integer (minimum : Z) (name : string) (v : pyval) : res Z :=
  match v with
  | PInt z => if z <? minimum then Err (ValueError (name +:+ " must be an integer >= " +:+ pretty minimum)) else Ok z
  | _ => Err (ValueError (name +:+ " must be an integer >= " +:+ pretty minimum))
  end.

Definition is_lower_hex (a : ascii) : bool :=
  is_digit a || let n := nat_of_ascii a in (97 <=? n)%nat && (n <=? 102)%nat.

(** [re.fullmatch(r"[0-9a-f]{64}", s)] *)
Definition sha256_text (s : string) : bool :=
  (String.length s =? 64)%nat && string_forall is_lower_hex s.

Definition digest (name : string) (v : pyval) : res string :=
  match v with
  | PStr s => if sha256_text s then Ok s else Err (ValueError (name +:+ " must be a lowercase SHA256 digest"))
  | _ => Err (ValueError (name +:+ " must be a lowercase SHA256 digest"))
  end.

(** [tuple(v)]: what iterating a value gives. *)
Definition iterate (v : pyval) : res (list pyval) :=
  match v with
  | PList l => Ok l
  | PDict d => Ok (map PStr (dict_keys d))
  | PStr s => Ok (map (fun a => PStr (String a "")) (String.list_ascii_of_string s))
  | _ => Err (TypeError "object is not iterable")
  end.

Definition token (name : string) (v : pyval) : res Z :=
  match v with
  | PInt z => if z <? 0 then Err (ValueError (name +:+ " requires nonempty nonnegative integer token IDs")) else Ok z
  | _ => Err (ValueError (name +:+ " requires nonempty nonnegative integer token IDs"))
  end.

Definition tokens (name : string) (v : pyval) : res (list Z) :=
  match v with
  | PStr _ => Err (ValueError (name +:+ " requires exact token IDs"))
  | _ =>
      values <-? iterate v;
      raise_when bool_decide (values = []) with_exn
        ValueError (name +:+ " requires nonempty nonnegative integer token IDs");
      traverse (token name) values
  end.

(** [float(n)] rounds a big integer to 53 bits, ties to even. *)
Definition round_float (n : Z) : Z :=
  let a := Z.abs n in
  if a <? 2 ^ 53 then n
  else
    let e := Z.log2 a - 52 in
    let q := a / 2 ^ e in
    let r := a mod 2 ^ e in
    let up := (2 ^ (e - 1) <? r) || ((r =? 2 ^ (e - 1)) && Z.odd q) in
    Z.sgn n * ((if up then q + 1 else q) * 2 ^ e).

Section Training.
(** [repr] of a finite float, and the SHA-256 digest of a text. *)
Context (float_repr : Z -> string) (sha256_hex : string -> string).

Definition float_of_units (n : Z) : pyfloat := PyFloat (float_repr n) (FFin n).

Definition finite (name : string) (v : pyval) : res pyfloat :=
  match v with
  | PInt z =>
      let m := round_float z in
      if 2 ^ 1024 <=? Z.abs m then Err (OverflowError "int too large to convert to float")
      else Ok (float_of_units (m * float_unit))
  | PFloat f =>
      match float_value f with FFin _ => Ok f | _ => Err (ValueError (name +:+ " must be finite")) end
  | _ => Err (ValueError (name +:+ " must be finite"))
  end.

(** The units of a finite float, and a comparison with zero. *)
Definition units (f : pyfloat) : Z := match float_value f with FFin n => n | _ => 0 end.

Definition fields (v : pyval) (names : list string) : res pydict :=
  match v with
  | PDict d => if same_keys d names then Ok d
               else Err (ValueError "training record has missing or unknown fields")
  | _ => Err (ValueError "training record has missing or unknown fields")
  end.

Definition ints (l : list Z) : pyval := PList (map PInt l).
Definition floats (l : list pyfloat) : pyval := PList (map PFloat l).
Definition opt_value {A} (f : A -> pyval) (o : option A) : pyval :=
  match o with None => PNone | Some a => f a end.

(** [token_digest] of a validated token list. *)
Definition token_digest (l : list Z) : string := sha256_hex (json_text (ints l)).

(** [dict(v)]: a mapping, or pairs with string keys. *)
Definition dict_pair (v : pyval) : res (string * pyval) :=
  pair <-? iterate v;
  match pair with
  | [PStr k; w] => Ok (k, w)
  | [_; _] => Err (TypeError "the model's dictionaries have string keys")
  | _ => Err (ValueError "dictionary update sequence element has the wrong length")
  end.

Definition py_dict (v : pyval) : res pydict :=
  match v with
  | PDict d => Ok d
  | _ =>
      items <-? iterate v;
      pairs <-? traverse dict_pair items;
      Ok (foldl (fun d kv => dict_set kv.1 kv.2 d) [] pairs)
  end.

(** A nonempty string field. *)
Definition nonempty (message : string) (v : pyval) : res string :=
  match v with
  | PStr s => if bool_decide (s = "") then Err (ValueError message) else Ok s
  | _ => Err (ValueError message)
  end.

(** ** Policy receipts *)

Record PolicyRef := {
  version : Z;
  policy_digest : string;
  lineage : string;
  identities : pydict;
  temperature : pyfloat }.

Definition identity_entry (kv : string * pyval) : bool :=
  negb (bool_decide (kv.1 = ""))
  && match kv.2 with PStr s => negb (bool_decide (s = "")) | _ => false end.

Definition equals_one (v : pyval) : bool :=
  match strict_number v with Some (FFin n) => n =? float_unit | _ => false end.

Definition new_policy (version digest_ lineage identities sampling : pyval) : res PolicyRef :=
  version <-? integer 0 "policy version" version;
  digest_ <-? digest "policy digest" digest_;
  lineage <-? nonempty "policy requires run lineage" lineage;
  identities <-? py_dict identities;
  raise_when negb (forallb identity_entry identities) with_exn
    ValueError "policy identities require nonempty string names and values";
  sampling <-? py_dict sampling;
  sampling <-? fields (PDict sampling) ["temperature"; "top_p"; "top_k"];
  temperature <-? finite "temperature" (get_none "temperature" sampling);
  raise_when (units temperature <=? 0) || negb (equals_one (get_none "top_p" sampling))
             || negb (bool_decide (is_int (get_none "top_k" sampling) = Some 0)) with_exn
    ValueError "training requires positive temperature and full categorical sampling";
  Ok {| version := version; policy_digest := digest_; lineage := lineage; identities := identities;
        temperature := temperature |}.

Definition one : pyval := PFloat (float_of_units float_unit).

Definition sampling_dict (p : PolicyRef) : pyval :=
  PDict [("temperature", PFloat (temperature p)); ("top_p", one); ("top_k", PInt 0)].

Definition policy_to_dict (p : PolicyRef) : pyval :=
  PDict [("version", PInt (version p)); ("digest", PStr (policy_digest p)); ("lineage", PStr (lineage p));
         ("identities", PDict (identities p)); ("sampling", sampling_dict p)].

Definition policy_from_dict (v : pyval) : res PolicyRef :=
  d <-? fields v ["version"; "digest"; "lineage"; "identities"; "sampling"];
  new_policy (get_none "version" d) (get_none "digest" d) (get_none "lineage" d)
             (get_none "identities" d) (get_none "sampling" d).

(** Dataclass equality: field by field, mappings without regard to order. *)
Definition policy_eqb (p q : PolicyRef) : bool :=
  (version p =? version q) && bool_decide (policy_digest p = policy_digest q)
  && bool_decide (lineage p = lineage q) && py_eqb (PDict (identities p)) (PDict (identities q))
  && fval_eqb (float_value (temperature p)) (float_value (temperature q)).

(** ** Turns *)

Record TurnTrace := {
  turn_id : Z;
  request_id : string;
  context_token_ids : list Z;
  action_token_ids : list Z;
  behavior_log_probs : list pyfloat;
  turn_policy : PolicyRef;
  finish_reason : string;
  stop_token_count : Z;
  context_truncation : string }.

Definition FINISH_REASONS : list string := ["eos"; "stop"; "length"; "tool_calls"].

(** [v in {...}] on strings; an unhashable value raises. *)
Definition member (v : pyval) (names : list string) : res (option string) :=
  match v with
  | PStr s => Ok (if bool_decide (s ∈ names) then Some s else None)
  | PList _ | PDict _ => Err (TypeError "unhashable type")
  | _ => Ok None
  end.

Definition new_turn (turn_id request_id context actions probabilities : pyval) (policy : PolicyRef)
    (finish_reason stop_token_count truncation : pyval) : res TurnTrace :=
  turn_id <-? integer 1 "turn_id" turn_id;
  request_id <-? nonempty "turn requires a request identity" request_id;
  context <-? tokens "context_token_ids" context;
  actions <-? tokens "action_token_ids" actions;
  values <-? iterate probabilities;
  probabilities <-? traverse (finite "behavior log probability") values;
  raise_when negb (length actions =? length probabilities)%nat
             || existsb (fun f => 0 <? units f) probabilities with_exn
    ValueError "each action token requires one nonpositive behavior log probability";
  reason <-? member finish_reason FINISH_REASONS;
  match reason with
  | None => Err (ValueError "unsupported sampled finish reason")
  | Some reason =>
      stop <-? integer 0 "stop_token_count" stop_token_count;
      raise_when Z.of_nat (length actions) <? stop with_exn
        ValueError "stop_token_count exceeds sampled actions";
      truncation <-? nonempty "context truncation rule must be explicit" truncation;
      Ok {| turn_id := turn_id; request_id := request_id; context_token_ids := context;
            action_token_ids := actions; behavior_log_probs := probabilities; turn_policy := policy;
            finish_reason := reason; stop_token_count := stop; context_truncation := truncation |}
  end.

Definition TURN_FIELDS : list string :=
  ["turn_id"; "request_id"; "context_token_ids"; "action_token_ids"; "behavior_log_probs"; "policy";
   "finish_reason"; "stop_token_count"; "context_truncation"].

Definition turn_to_dict (t : TurnTrace) : pyval :=
  PDict [("turn_id", PInt (turn_id t)); ("request_id", PStr (request_id t));
         ("context_token_ids", ints (context_token_ids t)); ("action_token_ids", ints (action_token_ids t));
         ("behavior_log_probs", floats (behavior_log_probs t)); ("policy", policy_to_dict (turn_policy t));
         ("finish_reason", PStr (finish_reason t)); ("stop_token_count", PInt (stop_token_count t));
         ("context_truncation", PStr (context_truncation t))].

Definition turn_from_dict (v : pyval) : res TurnTrace :=
  d <-? fields v TURN_FIELDS;
  policy <-? policy_from_dict (get_none "policy" d);
  new_turn (get_none "turn_id" d) (get_none "request_id" d) (get_none "context_token_ids" d)
    (get_none "action_token_ids" d) (get_none "behavior_log_probs" d) policy (get_none "finish_reason" d)
    (get_none "stop_token_count" d) (get_none "context_truncation" d).

(** ** Trajectories *)

Record TrainingTrajectory := {
  group_id : Z;
  task_id : string;
  initial_context_sha256 : string;
  reset_sha256 : string;
  sample_index : Z;
  turns : list TurnTrace;
  reward : option pyfloat;
  reward_eligible : bool;
  exclusion_reason : pyval;
  evidence : pydict;
  sample_id : string;
  raw_reward : option pyfloat;
  sampling_seed : option Z }.

(** [None] stays [None]; anything else is checked. *)
Definition optional {A} (check : pyval -> res A) (v : pyval) : res (option A) :=
  match v with PNone => Ok None | _ => a <-? check v; Ok (Some a) end.

(** [json.loads(json.dumps(v, allow_nan=False))] is the identity on JSON data. *)
Definition json_copy (d : pydict) : res pydict :=
  if json_finite (PDict d) then Ok d else Err (ValueError "Out of range float values are not JSON compliant").

Definition is_nonempty (v : pyval) : bool :=
  match v with PStr s => negb (bool_decide (s = "")) | _ => false end.

Definition new_trajectory (group_id task_id initial_context reset sample_index : pyval)
    (turns : list TurnTrace) (reward reward_eligible exclusion_reason evidence sample_id raw_reward
    sampling_seed : pyval) : res TrainingTrajectory :=
  group_id <-? integer 0 "training group_id" group_id;
  sample_index <-? integer 0 "sample_index" sample_index;
  task_id <-? nonempty "trajectory requires task identity" task_id;
  initial_context <-? digest "initial context digest" initial_context;
  reset <-? digest "reset digest" reset;
  match turns with
  | [] => Err (ValueError "trajectory requires exact turn traces")
  | first :: _ =>
      raise_when negb (bool_decide (map turn_id turns = map Z.of_nat (seq 1 (length turns)))) with_exn
        ValueError "trajectory turn IDs must be consecutive and ordered";
      raise_when negb (distinct (map request_id turns)) with_exn
        ValueError "trajectory has duplicate request identities";
      raise_when existsb (fun t => negb (policy_eqb (turn_policy t) (turn_policy first))) turns with_exn
        ValueError "all trajectory turns require one policy receipt";
      raise_when negb (bool_decide (token_digest (context_token_ids first) = initial_context)) with_exn
        ValueError "initial context digest differs from actual tokens";
      match reward_eligible with
      | PBool eligible =>
          reward <-? optional (finite "reward") reward;
          raw_reward <-? optional (finite "raw reward") raw_reward;
          raise_when negb eligible && negb (is_nonempty exclusion_reason) with_exn
            ValueError "excluded trajectory requires a reason";
          raise_when eligible && negb (is_none exclusion_reason) with_exn
            ValueError "eligible trajectory cannot have an exclusion reason";
          sampling_seed <-? optional (integer 0 "sampling_seed") sampling_seed;
          sample_id <-? nonempty "trajectory requires sample identity"
            (match sample_id with
             | PNone => PStr (pretty group_id +:+ ":" +:+ pretty sample_index)
             | _ => sample_id
             end);
          evidence <-? py_dict evidence;
          evidence <-? json_copy evidence;
          Ok {| group_id := group_id; task_id := task_id; initial_context_sha256 := initial_context;
                reset_sha256 := reset; sample_index := sample_index; turns := turns; reward := reward;
                reward_eligible := eligible; exclusion_reason := exclusion_reason; evidence := evidence;
                sample_id := sample_id; raw_reward := raw_reward; sampling_seed := sampling_seed |}
      | _ => Err (ValueError "reward eligibility must be explicit")
      end
  end.

Definition TRAJECTORY_FIELDS : list string :=
  ["group_id"; "task_id"; "initial_context_sha256"; "reset_sha256"; "sample_index"; "turns"; "reward";
   "reward_eligible"; "exclusion_reason"; "evidence"; "sample_id"; "raw_reward"; "sampling_seed"].

Definition trajectory_to_dict (t : TrainingTrajectory) : pyval :=
  PDict [("group_id", PInt (group_id t)); ("task_id", PStr (task_id t));
         ("initial_context_sha256", PStr (initial_context_sha256 t)); ("reset_sha256", PStr (reset_sha256 t));
         ("sample_index", PInt (sample_index t)); ("sample_id", PStr (sample_id t));
         ("turns", PList (map turn_to_dict (turns t))); ("reward", opt_value PFloat (reward t));
         ("reward_eligible", PBool (reward_eligible t)); ("exclusion_reason", exclusion_reason t);
         ("evidence", PDict (evidence t)); ("raw_reward", opt_value PFloat (raw_reward t));
         ("sampling_seed", opt_value PInt (sampling_seed t))].

Definition trajectory_from_dict (v : pyval) : res TrainingTrajectory :=
  d <-? fields v TRAJECTORY_FIELDS;
  values <-? iterate (get_none "turns" d);
  turns <-? traverse turn_from_dict values;
  new_trajectory (get_none "group_id" d) (get_none "task_id" d) (get_none "initial_context_sha256" d)
    (get_none "reset_sha256" d) (get_none "sample_index" d) turns (get_none "reward" d)
    (get_none "reward_eligible" d) (get_none "exclusion_reason" d) (get_none "evidence" d)
    (get_none "sample_id" d) (get_none "raw_reward" d) (get_none "sampling_seed" d).

(** ** Groups *)

Record TrainingGroup := {
  tg_group_id : Z;
  tg_task_id : string;
  tg_initial_context : string;
  tg_reset : string;
  tg_policy : PolicyRef;
  expected_size : Z;
  samples : list TrainingTrajectory }.

(** [trajectory.policy]: the first turn's. *)
Definition trajectory_policy (t : TrainingTrajectory) : res PolicyRef :=
  match turns t with
  | turn :: _ => Ok (turn_policy turn)
  | [] => Err (IndexError "tuple index out of range")
  end.

Definition sample_matches (group_id : Z) (task_id context reset : pyval) (policy : PolicyRef)
    (s : TrainingTrajectory) : res unit :=
  own <-? trajectory_policy s;
  raise_when negb ((Training.group_id s =? group_id) && py_eqb (PStr (Training.task_id s)) task_id
                   && py_eqb (PStr (initial_context_sha256 s)) context
                   && py_eqb (PStr (reset_sha256 s)) reset && policy_eqb own policy) with_exn
    ValueError "training group requires the same task, initial context, reset and policy";
  raise_when negb (reward_eligible s) || match reward s with None => true | Some _ => false end with_exn
    ValueError "training requires G eligible finite rewards; missing is not zero";
  Ok tt.

Definition index_le (a b : TrainingTrajectory) : bool := sample_index a <=? sample_index b.

(** The three text fields of a group are whatever equals its samples' fields. *)
Definition as_text (v : pyval) : string := match v with PStr s => s | _ => "" end.

Definition new_group (group_id task_id context reset : pyval) (policy : PolicyRef) (size : pyval)
    (samples : list TrainingTrajectory) : res TrainingGroup :=
  group_id <-? integer 0 "training group_id" group_id;
  size <-? integer 2 "expected group size" size;
  raise_when negb (Z.of_nat (length samples) =? size) with_exn
    ValueError "training requires a complete group of exactly G trajectories";
  raise_when negb (forallb (fun i => bool_decide (i ∈ map sample_index samples))
                     (map Z.of_nat (seq 0 (Z.to_nat size))))
             || negb (forallb (fun i => bool_decide (i ∈ map Z.of_nat (seq 0 (Z.to_nat size))))
                     (map sample_index samples))
             || negb (distinct (map sample_id samples)) with_exn
    ValueError "training group requires unique sample identities and indices 0..G-1";
  raise_when negb (distinct (map request_id (mbind turns samples))) with_exn
    ValueError "training group has duplicate request identities";
  checked <-? traverse (sample_matches group_id task_id context reset policy) samples;
  Ok {| tg_group_id := group_id; tg_task_id := as_text task_id; tg_initial_context := as_text context;
        tg_reset := as_text reset; tg_policy := policy; expected_size := size;
        samples := sorted_by index_le samples |}.

Definition GROUP_FIELDS : list string :=
  ["group_id"; "task_id"; "initial_context_sha256"; "reset_sha256"; "policy"; "expected_size"; "samples"].

Definition group_to_dict (g : TrainingGroup) : pyval :=
  PDict [("group_id", PInt (tg_group_id g)); ("task_id", PStr (tg_task_id g));
         ("initial_context_sha256", PStr (tg_initial_context g)); ("reset_sha256", PStr (tg_reset g));
         ("policy", policy_to_dict (tg_policy g)); ("expected_size", PInt (expected_size g));
         ("samples", PList (map trajectory_to_dict (samples g)))].

Definition group_from_dict (v : pyval) : res TrainingGroup :=
  d <-? fields v GROUP_FIELDS;
  policy <-? policy_from_dict (get_none "policy" d);
  values <-? iterate (get_none "samples" d);
  samples <-? traverse trajectory_from_dict values;
  new_group (get_none "group_id" d) (get_none "task_id" d) (get_none "initial_context_sha256" d)
    (get_none "reset_sha256" d) policy (get_none "expected_size" d) samples.

(** ** Serialized records: [dumps] and the checks of [loads] *)

Inductive record :=
| RecPolicy (p : PolicyRef)
| RecTurn (t : TurnTrace)
| RecTrajectory (t : TrainingTrajectory)
| RecGroup (g : TrainingGroup).

Definition kind (r : record) : string :=
  match r with
  | RecPolicy _ => "PolicyRef" | RecTurn _ => "TurnTrace"
  | RecTrajectory _ => "TrainingTrajectory" | RecGroup _ => "TrainingGroup"
  end.

Definition to_dict (r : record) : pyval :=
  match r with
  | RecPolicy p => policy_to_dict p | RecTurn t => turn_to_dict t
  | RecTrajectory t => trajectory_to_dict t | RecGroup g => group_to_dict g
  end.

(** The payload of [dumps], and its text. *)
Definition dumps_payload (r : record) : pyval :=
  PDict [("schema_version", PInt SCHEMA_VERSION); ("kind", PStr (kind r)); ("record", to_dict r)].

Definition dumps (r : record) : res string := json_dumps (dumps_payload r).

(** [loads] on the payload that [json.loads] parsed. *)
Definition loads_payload (payload : pyval) : res record :=
  d <-? fields payload ["schema_version"; "kind"; "record"];
  name <-? (if bool_decide (is_int (get_none "schema_version" d) = Some SCHEMA_VERSION)
            then member (get_none "kind" d) ["PolicyRef"; "TurnTrace"; "TrainingTrajectory"; "TrainingGroup"]
            else Ok None);
  let value := get_none "record" d in
  match name with
  | Some "PolicyRef" => p <-? policy_from_dict value; Ok (RecPolicy p)
  | Some "TurnTrace" => t <-? turn_from_dict value; Ok (RecTurn t)
  | Some "TrainingTrajectory" => t <-? trajectory_from_dict value; Ok (RecTrajectory t)
  | Some "TrainingGroup" => g <-? group_from_dict value; Ok (RecGroup g)
  | _ => Err (ValueError "unsupported training record schema or kind")
  end.

(** ** Legacy groups ([dsv41_train/rl/rollout.py]) *)

Record Sample := {
  prompt_ids : list Z;
  response_ids : list Z;
  sample_log_probs : list pyfloat;
  sample_reward : pyfloat;
  policy_version : Z;
  sample_finish_reason : string;
  sample_stop_tokens : Z;
  sample_raw_reward : pyfloat }.

(** 1e-6 as a float. *)
Definition micro : Z := 4722366482869645 * 2 ^ 1002.

Definition validate_token_ids (l : list Z) : bool :=
  negb (bool_decide (l = [])) && forallb (fun t => 0 <=? t) l.

(** [Sample.__post_init__] on fields of the declared types. *)
Definition new_sample (prompt response : list Z) (log_probs : list pyfloat) (reward : pyfloat)
    (policy_version : Z) (finish_reason : string) (stop_tokens : Z) (raw_reward : option pyfloat) : res Sample :=
  raise_when negb (validate_token_ids prompt) with_exn
    ValueError "prompt_ids must be a nonempty list of nonnegative integer token IDs";
  raise_when negb (validate_token_ids response) with_exn
    ValueError "response_ids must be a nonempty list of nonnegative integer token IDs";
  raise_when negb (length response =? length log_probs)%nat with_exn
    ValueError "each response token requires one behavior log probability";
  raise_when existsb (fun f => match float_value f with FFin n => micro <? n | _ => true end) log_probs with_exn
    ValueError "behavior log probabilities must be finite and nonpositive";
  raise_when match float_value reward with FFin _ => false | _ => true end with_exn
    ValueError "reward must be finite";
  let raw := default reward raw_reward in
  raise_when match float_value raw with FFin _ => false | _ => true end with_exn
    ValueError "raw reward must be finite";
  raise_when negb (bool_decide (finish_reason ∈ ["eos"; "stop"; "length"])) with_exn
    ValueError "finish_reason must be eos, stop or length";
  raise_when (stop_tokens <? 0) || (Z.of_nat (length response) <? stop_tokens) with_exn
    ValueError "invalid stop_token_count";
  raise_when policy_version <? 0 with_exn ValueError "policy_version must be a nonnegative integer";
  Ok {| prompt_ids := prompt; response_ids := response; sample_log_probs := log_probs;
        sample_reward := reward; policy_version := policy_version; sample_finish_reason := finish_reason;
        sample_stop_tokens := stop_tokens; sample_raw_reward := raw |}.

Record RolloutGroup := { rg_samples : list Sample; rg_group_id : Z; rg_policy_version : Z }.

Definition new_rollout_group (samples : list Sample) (group_id version : Z) : res RolloutGroup :=
  match samples with
  | [] => Err (ValueError "a rollout group must not be empty")
  | first :: _ =>
      raise_when group_id <? 0 with_exn ValueError "group_id must be a nonnegative integer";
      raise_when version <? 0 with_exn ValueError "policy_version must be a nonnegative integer";
      raise_when existsb (fun s => negb (policy_version s =? version)) samples with_exn
        ValueError "all group samples must have the group policy_version";
      raise_when existsb (fun s => negb (bool_decide (prompt_ids s = prompt_ids first))) samples with_exn
        ValueError "all group samples must have the same prompt";
      Ok {| rg_samples := samples; rg_group_id := group_id; rg_policy_version := version |}
  end.

(** One sample of [from_rollout_group] becomes a single-turn trajectory. *)
Definition from_sample (group_id : Z) (policy : PolicyRef) (task_id reset prefix context : string)
    (index : nat) (s : Sample) : res TrainingTrajectory :=
  raise_when negb (policy_version s =? version policy) with_exn
    ValueError "legacy sample differs from acknowledged policy version";
  turn <-? new_turn (PInt 1) (PStr (prefix +:+ "-s" +:+ pretty index)) (ints (prompt_ids s))
             (ints (response_ids s)) (floats (sample_log_probs s)) policy
             (PStr (sample_finish_reason s)) (PInt (sample_stop_tokens s)) (PStr "none");
  new_trajectory (PInt group_id) (PStr task_id) (PStr context) (PStr reset) (PInt (Z.of_nat index)) [turn]
    (PFloat (sample_reward s)) (PBool true) PNone (PDict []) PNone (PFloat (sample_raw_reward s)) PNone.

Fixpoint from_samples (make : nat -> Sample -> res TrainingTrajectory) (index : nat) (l : list Sample)
  : res (list TrainingTrajectory) :=
  match l with
  | [] => Ok []
  | s :: l => t <-? make index s; ts <-? from_samples make (S index) l; Ok (t :: ts)
  end.

Definition request_prefix_of (policy : PolicyRef) (group_id : Z) (request_prefix : option string) : string :=
  match request_prefix with
  | Some p => if bool_decide (p = "")
              then String.substring 0 12 (sha256_hex (lineage policy)) +:+ "-g" +:+ pretty group_id else p
  | None => String.substring 0 12 (sha256_hex (lineage policy)) +:+ "-g" +:+ pretty group_id
  end.

Definition from_rollout_group (group : RolloutGroup) (policy : PolicyRef) (task_id reset : string)
    (request_prefix : option string) : res TrainingGroup :=
  raise_when negb (rg_policy_version group =? version policy) with_exn
    ValueError "legacy group differs from acknowledged policy version";
  raise_when (length (rg_samples group) <? 2)%nat with_exn
    ValueError "training requires a complete group of at least two samples";
  context <-? match rg_samples group with
              | s :: _ => l <-? tokens "tokens" (ints (prompt_ids s)); Ok (token_digest l)
              | [] => Err (IndexError "list index out of range")
              end;
  let prefix := request_prefix_of policy (rg_group_id group) request_prefix in
  samples <-? from_samples (from_sample (rg_group_id group) policy task_id reset prefix context) 0
                (rg_samples group);
  new_group (PInt (rg_group_id group)) (PStr task_id) (PStr context) (PStr reset) policy
    (PInt (Z.of_nat (length samples))) samples.

Definition single_turn (t : TrainingTrajectory) : res TurnTrace :=
  match turns t with
  | [turn] => Ok turn
  | _ => Err (ValueError "multi-turn trajectories require per-turn contexts, not flattened responses")
  end.

Definition to_sample (t : TrainingTrajectory) : res Sample :=
  turn <-? single_turn t;
  raise_when bool_decide (finish_reason turn = "tool_calls") with_exn
    ValueError "legacy Sample does not represent tool-call finish reasons";
  match reward t with
  | None => Err (TypeError "float() argument must be a string or a real number")
  | Some r =>
      new_sample (context_token_ids turn) (action_token_ids turn) (behavior_log_probs turn) r
        (version (turn_policy turn)) (finish_reason turn) (stop_token_count turn) (raw_reward t)
  end.

Definition to_rollout_group (g : TrainingGroup) : res RolloutGroup :=
  samples <-? traverse to_sample (samples g);
  new_rollout_group samples (tg_group_id g) (version (tg_policy g)).

(** [TrainingTrajectory.content_ids]: a single response without its stop tokens. *)
Definition content_ids (t : TrainingTrajectory) : res (list Z) :=
  turn <-? single_turn t;
  let response := action_token_ids turn in
  Ok (take (length response - Z.to_nat (stop_token_count turn)) response).
End Training.
