(* ===== verification/TrainingProofs.v ===== *)
(** * Training records survive serialization and hold what training needs *)

From stdpp Require Import pretty.
From S2P Require Import Prelude PyValue Training.
Local Open Scope Z_scope.

(** ** Field checks accept the values they return *)

Lemma integer_inv m name v z : integer m name v = Ok z -> v = PInt z /\ m <= z.
Proof. destruct v; simpl; try done. destruct (_ <? m) eqn:E; [done|]. intros [= <-]. destr_bool. done. Qed.

Lemma integer_again m name name' v z : integer m name v = Ok z -> integer m name' (PInt z) = Ok z.
Proof. intros [_ H]%integer_inv. simpl. destruct (z <? m) eqn:E; destr_bool; [lia|done]. Qed.

Lemma digest_inv name v s : digest name v = Ok s -> v = PStr s /\ sha256_text s = true.
Proof. destruct v; simpl; try done. destruct (sha256_text _) eqn:E; [|done]. by intros [= <-]. Qed.

Lemma digest_again name name' v s : digest name v = Ok s -> digest name' (PStr s) = Ok s.
Proof. intros [_ H]%digest_inv. simpl. by rewrite H. Qed.

Lemma nonempty_inv m v s : nonempty m v = Ok s -> v = PStr s /\ s <> "".
Proof. destruct v; simpl; try done. case_bool_decide; [done|]. by intros [= <-]. Qed.

Lemma nonempty_again m m' v s : nonempty m v = Ok s -> nonempty m' (PStr s) = Ok s.
Proof. intros [_ H]%nonempty_inv. simpl. by rewrite bool_decide_eq_false_2. Qed.

Lemma traverse_inv {A B} (f : A -> res B) l r :
  traverse f l = Ok r -> Forall2 (fun a b => f a = Ok b) l r.
Proof.
  revert r; induction l as [|a l IH]; intros r H; simpl in H; [by simplify_eq|].
  destruct (f a) eqn:E; [|done]. destruct (traverse f l); [|done]. simplify_eq. constructor; auto.
Qed.

Lemma traverse_ok {A B} (f : A -> res B) l r :
  Forall2 (fun a b => f a = Ok b) l r -> traverse f l = Ok r.
Proof. induction 1 as [|a b l r H _ IH]; [done|]. simpl. by rewrite H, IH. Qed.

(** Reading back a list that a checker produced. *)
Lemma traverse_again {A B} (f : A -> res B) (g : B -> A) l r :
  (forall a b, f a = Ok b -> f (g b) = Ok b) -> traverse f l = Ok r -> traverse f (map g r) = Ok r.
Proof.
  intros Hfg H%traverse_inv. apply traverse_ok.
  induction H as [|a b l r Hab _ IH]; constructor; eauto.
Qed.

Lemma token_again name name' v z : token name v = Ok z -> token name' (PInt z) = Ok z.
Proof. destruct v as [| |n| | | |]; simpl; try done. destruct (n <? 0) eqn:E; [done|]. intros [= <-]. by rewrite E. Qed.

Lemma tokens_again name name' v l : tokens name v = Ok l -> tokens name' (ints l) = Ok l.
Proof.
  intros H. assert (Hv : exists vs, vs <> [] /\ traverse (token name) vs = Ok l).
  { destruct v; simpl in H; try done; case_bool_decide; try done; by eexists. }
  destruct Hv as (vs & Hne & Hl). unfold ints. simpl. rewrite bool_decide_eq_false_2.
  - apply traverse_inv in Hl. apply traverse_ok. clear H Hne.
    induction Hl as [|x z vs l Hx _ IH]; constructor; [|done]. by eapply token_again.
  - destruct l; [|done]. destruct vs; [done|]. apply traverse_inv in Hl. by inversion Hl.
Qed.

(** ** Reading literal dictionaries *)

Lemma get_none_here k v d : get_none k ((k, v) :: d) = v.
Proof. unfold get_none. simpl. by rewrite bool_decide_eq_true_2. Qed.

Lemma get_none_next k k' v d : bool_decide (k = k') = false -> get_none k ((k', v) :: d) = get_none k d.
Proof. unfold get_none. simpl. by intros ->. Qed.

Lemma fields_ok d names : same_keys d names = true -> fields (PDict d) names = Ok d.
Proof. unfold fields. by intros ->. Qed.

Ltac read_fields :=
  rewrite fields_ok by reflexivity; cbv beta iota;
  repeat first [rewrite get_none_here | rewrite get_none_next by reflexivity].

Section Proofs.
Context (float_repr : Z -> string) (sha256_hex : string -> string).
Local Abbreviation finite := (finite float_repr).
Local Abbreviation new_policy := (new_policy float_repr).
Local Abbreviation policy_from_dict := (policy_from_dict float_repr).
Local Abbreviation policy_to_dict := (policy_to_dict float_repr).
Local Abbreviation new_turn := (new_turn float_repr).
Local Abbreviation turn_from_dict := (turn_from_dict float_repr).
Local Abbreviation turn_to_dict := (turn_to_dict float_repr).
Local Abbreviation new_trajectory := (new_trajectory float_repr sha256_hex).
Local Abbreviation trajectory_from_dict := (trajectory_from_dict float_repr sha256_hex).
Local Abbreviation trajectory_to_dict := (trajectory_to_dict float_repr).
Local Abbreviation group_from_dict := (group_from_dict float_repr sha256_hex).
Local Abbreviation group_to_dict := (group_to_dict float_repr).

Lemma finite_again name name' v f : finite name v = Ok f -> finite name' (PFloat f) = Ok f.
Proof.
  destruct v as [| |z|g| | |]; cbn [Training.finite]; try done.
  - cbv zeta. destruct (2 ^ 1024 <=? _); [done|]. by intros [= <-].
  - destruct (float_value g) eqn:E; try done. intros [= <-]. by rewrite E.
Qed.

Lemma optional_again {A} (check check' : pyval -> res A) (f : A -> pyval) v o :
  (forall v a, check v = Ok a -> check' (f a) = Ok a) -> (forall a, is_none (f a) = false) ->
  optional check v = Ok o -> optional check' (opt_value f o) = Ok o.
Proof.
  intros Hc Hf H. destruct o as [a|]; simpl; [|done].
  assert (Ha : exists w, check w = Ok a) by (destruct v; simpl in H; try done; repeat case_match; simplify_eq; eauto).
  destruct Ha as [w Hw]. specialize (Hf a). pose proof (Hc w a Hw) as Hx. by destruct (f a); simpl; try rewrite Hx.
Qed.

(** ** Records as their constructors build them *)

Definition built_policy (p : PolicyRef) : Prop :=
  exists a b d e f, new_policy a b d e f = Ok p.

Definition built_turn (t : TurnTrace) : Prop :=
  built_policy (turn_policy t)
  /\ exists a b d e f g h i, new_turn a b d e f (turn_policy t) g h i = Ok t.

Definition built_trajectory (t : TrainingTrajectory) : Prop :=
  Forall built_turn (turns t)
  /\ exists a b d e f g h i j k l m, new_trajectory a b d e f (turns t) g h i j k l m = Ok t.

Definition built_group (g : TrainingGroup) : Prop :=
  built_policy (tg_policy g)
  /\ exists a b d e f ss, Forall built_trajectory ss /\ new_group a b d e (tg_policy g) f ss = Ok g.

(** ** Round trips *)

(** Replays one checker on the value it returned. *)
Ltac again :=
  match goal with
  | H : integer ?m ?n ?v = Ok ?z |- context [integer ?m ?n' (PInt ?z)] =>
      rewrite (integer_again m n n' v z H)
  | H : digest ?n ?v = Ok ?z |- context [digest ?n' (PStr ?z)] => rewrite (digest_again n n' v z H)
  | H : nonempty ?n ?v = Ok ?z |- context [nonempty ?n' (PStr ?z)] => rewrite (nonempty_again n n' v z H)
  | H : tokens ?n ?v = Ok ?z |- context [tokens ?n' (ints ?z)] => rewrite (tokens_again n n' v z H)
  | H : Training.finite _ ?n ?v = Ok ?z |- context [Training.finite _ ?n' (PFloat ?z)] =>
      rewrite (finite_again n n' v z H)
  | H : ?b = false |- context [if ?b then _ else _] => rewrite H
  end; cbv beta iota.

Lemma policy_roundtrip p : built_policy p -> policy_from_dict (policy_to_dict p) = Ok p.
Proof.
  intros (a & b & d & e & f & H). unfold Training.new_policy in H. res_inv H. subst p.
  unfold Training.policy_from_dict, Training.policy_to_dict, Training.new_policy. read_fields.
  cbn [version policy_digest lineage identities]. do 3 again. cbn [py_dict]. cbv beta iota. again.
  unfold sampling_dict. cbn [py_dict]. cbv beta iota. read_fields. cbn [temperature]. again.
  apply orb_false_iff in G0 as [G0 _]. apply orb_false_iff in G0 as [-> _]. reflexivity.
Qed.

Lemma turn_roundtrip t : built_turn t -> turn_from_dict (turn_to_dict t) = Ok t.
Proof.
  intros [Hp (a & b & d & e & f & g & h & i & H)]. revert H Hp. generalize (turn_policy t) as p. intros p H Hp.
  unfold Training.new_turn in H. res_inv H.
  destruct value5 as [reason|]; [|done]. res_inv H. subst t.
  unfold Training.turn_from_dict, Training.turn_to_dict, TURN_FIELDS. read_fields.
  cbn [turn_id request_id context_token_ids action_token_ids behavior_log_probs turn_policy finish_reason
       stop_token_count context_truncation] in *.
  rewrite policy_roundtrip by done. cbv beta iota. unfold Training.new_turn. do 4 again.
  unfold floats. cbn [iterate]. cbv beta iota.
  erewrite traverse_again by (exact R4 || intros; by eapply finite_again). cbv beta iota. again.
  assert (Hm : member (PStr reason) FINISH_REASONS = Ok (Some reason)).
  { destruct g; simpl in R5; try done. simpl. case_bool_decide; simplify_eq. by rewrite bool_decide_eq_true_2. }
  rewrite Hm. cbv beta iota. do 3 again. reflexivity.
Qed.

Lemma turns_roundtrip l : Forall built_turn l -> traverse turn_from_dict (map turn_to_dict l) = Ok l.
Proof.
  intros H. apply traverse_ok. induction H; constructor; [by apply turn_roundtrip|done].
Qed.

Lemma trajectory_roundtrip t : built_trajectory t -> trajectory_from_dict (trajectory_to_dict t) = Ok t.
Proof.
  intros [Ht (a & b & d & e & f & g & h & i & j & k & l & m & H)]. revert H Ht. generalize (turns t) as ts.
  intros ts H Ht. unfold Training.new_trajectory in H.
  res_inv H. destruct ts as [|first rest] eqn:Eturns; [done|]. res_inv H.
  destruct h as [|eligible| | | | |]; try done. res_inv H. rewrite <- Eturns in *. subst t.
  unfold Training.trajectory_from_dict, Training.trajectory_to_dict, TRAJECTORY_FIELDS. read_fields.
  cbn [turns]. cbn [iterate]. cbv beta iota. rewrite turns_roundtrip by done. cbv beta iota.
  cbn [group_id task_id initial_context_sha256 reset_sha256 sample_index reward reward_eligible
       exclusion_reason evidence sample_id raw_reward sampling_seed].
  subst ts. unfold Training.new_trajectory. do 9 again.
  rewrite (optional_again _ (finite "reward") PFloat g value4) by (done || intros; by eapply finite_again).
  cbv beta iota.
  rewrite (optional_again _ (finite "raw reward") PFloat l value5) by (done || intros; by eapply finite_again).
  cbv beta iota. do 2 again.
  rewrite (optional_again _ (integer 0 "sampling_seed") PInt m value6) by (done || intros; by eapply integer_again).
  cbv beta iota. again. cbn [py_dict]. cbv beta iota.
  assert (Hj : json_copy value9 = Ok value9).
  { unfold json_copy in *. destruct (json_finite (PDict value8)) eqn:E; [|done]. injection R9 as <-. by rewrite E. }
  rewrite Hj. reflexivity.
Qed.

Lemma trajectories_roundtrip l :
  Forall built_trajectory l -> traverse trajectory_from_dict (map trajectory_to_dict l) = Ok l.
Proof.
  intros H. apply traverse_ok. induction H; constructor; [by apply trajectory_roundtrip|done].
Qed.

End Proofs.

(** ** Groups *)

Lemma sample_le_total x y : index_le x y = true \/ index_le y x = true.
Proof. unfold index_le. rewrite !Z.leb_le. lia. Qed.
Lemma sample_le_trans x y z : index_le x y = true -> index_le y z = true -> index_le x z = true.
Proof. unfold index_le. rewrite !Z.leb_le. lia. Qed.

Lemma sorted_samples ss : StronglySorted (fun a b => index_le a b = true) (sorted_by index_le ss).
Proof. apply sorted_by_sorted; [apply sample_le_total|apply sample_le_trans]. Qed.

Lemma forallb_perm {A} (f : A -> bool) l l' : l ≡ₚ l' -> forallb f l = forallb f l'.
Proof.
  induction 1 as [|x l l' _ IH|x y l|l1 l2 l3 _ IH1 _ IH2]; simpl; [done|by rewrite IH| |by rewrite IH1].
  by rewrite !andb_assoc, (andb_comm (f y)).
Qed.

Lemma distinct_perm {A} `{EqDecision A} (l l' : list A) : l ≡ₚ l' -> distinct l = distinct l'.
Proof. intros H. unfold distinct. apply bool_decide_ext. by rewrite H. Qed.

(** What a successful [new_group] says, in terms of the given samples. *)
Record group_checks (g : TrainingGroup) (ss : list TrainingTrajectory) : Prop := {
  gc_group_id : 0 <= tg_group_id g;
  gc_size : 2 <= expected_size g;
  gc_length : Z.of_nat (length ss) = expected_size g;
  gc_indices : forall i, i ∈ map sample_index ss <-> 0 <= i < expected_size g;
  gc_ids : distinct (map sample_id ss) = true;
  gc_requests : distinct (map request_id (mbind turns ss)) = true;
  gc_matches : Forall (fun s => sample_matches (tg_group_id g) (PStr (tg_task_id g)) (PStr (tg_initial_context g))
                        (PStr (tg_reset g)) (tg_policy g) s = Ok tt) ss;
  gc_samples : samples g = sorted_by index_le ss }.

Lemma elem_of_sample_range i size : 0 <= size -> i ∈ map Z.of_nat (seq 0 (Z.to_nat size)) <-> 0 <= i < size.
Proof.
  intros Hs. rewrite list_elem_of_fmap. split.
  - intros (k & -> & Hk%elem_of_seq). lia.
  - intros Hi. exists (Z.to_nat i). rewrite elem_of_seq. lia.
Qed.

Lemma range_checks size (idx : list Z) :
  0 <= size ->
  forallb (fun i => bool_decide (i ∈ idx)) (map Z.of_nat (seq 0 (Z.to_nat size))) = true
  /\ forallb (fun i => bool_decide (i ∈ map Z.of_nat (seq 0 (Z.to_nat size)))) idx = true
  <-> (forall i, i ∈ idx <-> 0 <= i < size).
Proof.
  intros Hs. rewrite !forallb_forall. setoid_rewrite bool_decide_eq_true. setoid_rewrite <- list_elem_of_In.
  setoid_rewrite elem_of_sample_range; [|done|done]. naive_solver.
Qed.

(** An ordered list of [size] indices that are the numbers below [size]. *)
Lemma indices_exact (idx : list Z) n :
  StronglySorted Z.le idx -> length idx = n -> (forall i, 0 <= i < Z.of_nat n -> i ∈ idx) -> idx = map Z.of_nat (seq 0 n).
Proof.
  intros Hs Hl Hi. apply (StronglySorted_unique Z.le); [done| |].
  - clear. generalize 0%nat as k.
    induction n as [|n IH]; intros k; simpl; constructor; [apply IH|].
    apply Forall_forall. intros z Hz. apply list_elem_of_fmap in Hz as (j & -> & Hj%elem_of_seq). lia.
  - symmetry. apply submseteq_length_Permutation; [|rewrite length_map, length_seq; lia].
    apply NoDup_submseteq; [apply (NoDup_fmap_2 Z.of_nat), NoDup_seq|].
    intros i (j & -> & Hj%elem_of_seq)%list_elem_of_fmap. apply Hi. lia.
Qed.

Lemma sample_matches_text gid a b d p s :
  sample_matches gid a b d p s = Ok tt ->
  a = PStr (as_text a) /\ b = PStr (as_text b) /\ d = PStr (as_text d).
Proof.
  unfold sample_matches. destruct (trajectory_policy s); [|done]. destruct (negb _) eqn:E; [done|]. intros _.
  destr_bool. destruct a, b, d; simpl in *; try done.
Qed.

Lemma new_group_checks a b d e p f ss g :
  new_group a b d e p f ss = Ok g ->
  group_checks g ss /\ tg_policy g = p /\ a = PInt (tg_group_id g).
Proof.
  unfold new_group. intros H. res_inv H. apply integer_inv in R as [-> Hg], R0 as [-> Hsz].
  apply orb_false_iff in G0 as [G0 G2]. apply orb_false_iff in G0 as [G0 G3]. destr_bool.
  apply traverse_inv in R1.
  assert (Hall : Forall (fun s => sample_matches value b d e p s = Ok tt) ss).
  { clear -R1. induction R1 as [|s [] ss l Hs _ IH]; by constructor. }
  assert (Htext : b = PStr (as_text b) /\ d = PStr (as_text d) /\ e = PStr (as_text e)).
  { destruct Hall as [|s ss Hs _]; [simpl in *; lia|]. by eapply sample_matches_text. }
  subst g. split; [|done]. constructor; simpl; try done.
  - apply range_checks; [lia|done].
  - destruct Htext as (<- & <- & <-). done.
Qed.

Lemma checks_new_group g ss :
  group_checks g ss ->
  new_group (PInt (tg_group_id g)) (PStr (tg_task_id g)) (PStr (tg_initial_context g)) (PStr (tg_reset g))
    (tg_policy g) (PInt (expected_size g)) ss = Ok g.
Proof.
  intros [Hg Hsz Hlen Hidx Hids Hreq Hm Hs]. unfold new_group. cbn [integer].
  destruct (tg_group_id g <? 0) eqn:E1; destr_bool; [lia|].
  destruct (expected_size g <? 2) eqn:E2; destr_bool; [lia|]. cbv beta iota.
  destruct (Z.of_nat (length ss) =? expected_size g) eqn:E3; destr_bool; [|lia]. cbn [negb].
  apply range_checks in Hidx as [-> ->]; [|lia]. rewrite Hids, Hreq. cbn [negb orb].
  rewrite (traverse_ok _ ss (map (fun _ => tt) ss)).
  - rewrite <- Hs. by destruct g.
  - clear -Hm. induction Hm; by constructor.
Qed.

(** The checks do not depend on the order of the samples. *)
Lemma group_checks_perm g ss ss' :
  ss ≡ₚ ss' -> sorted_by index_le ss' = sorted_by index_le ss -> group_checks g ss -> group_checks g ss'.
Proof.
  intros Hp Hsort [Hg Hsz Hlen Hidx Hids Hreq Hm Hs]. constructor; try done.
  - by rewrite <- Hp.
  - intros i. rewrite <- Hidx. by rewrite (fmap_Permutation sample_index _ _ Hp).
  - rewrite <- Hids. apply distinct_perm. by rewrite Hp.
  - rewrite <- Hreq. apply distinct_perm. by rewrite Hp.
  - by rewrite <- Hp.
  - by rewrite Hsort.
Qed.

Lemma group_sorted_again g ss : group_checks g ss -> group_checks g (samples g).
Proof.
  intros H. pose proof (gc_samples g ss H) as Hs. rewrite Hs.
  apply (group_checks_perm g ss); [by rewrite sorted_by_perm| |done].
  apply sorted_by_id, sorted_samples.
Qed.
Section Legacy.
Context (float_repr : Z -> string) (sha256_hex : string -> string).

Definition built_record (r : record) : Prop :=
  match r with
  | RecPolicy p => built_policy float_repr p
  | RecTurn t => built_turn float_repr t
  | RecTrajectory t => built_trajectory float_repr sha256_hex t
  | RecGroup g => built_group float_repr sha256_hex g
  end.

Lemma group_roundtrip g :
  built_group float_repr sha256_hex g ->
  group_from_dict float_repr sha256_hex (group_to_dict float_repr g) = Ok g.
Proof.
  intros (Hp & a & b & d & e & f & ss & Hss & H). apply new_group_checks in H as [Hc _].
  pose proof (gc_samples g ss Hc) as Hs.
  assert (Hbuilt : Forall (built_trajectory float_repr sha256_hex) (samples g))
    by (rewrite Hs; by rewrite sorted_by_perm).
  unfold group_from_dict, group_to_dict, GROUP_FIELDS. read_fields.
  rewrite policy_roundtrip by done. cbn [iterate]. cbv beta iota.
  rewrite trajectories_roundtrip by done. cbv beta iota.
  exact (checks_new_group g (samples g) (group_sorted_again g ss Hc)).
Qed.

(** A sample as its constructor leaves it. *)
Definition built_sample (s : Sample) : Prop :=
  new_sample (prompt_ids s) (response_ids s) (sample_log_probs s) (sample_reward s) (policy_version s)
    (sample_finish_reason s) (sample_stop_tokens s) (Some (sample_raw_reward s)) = Ok s.

Lemma tokens_ints name l l' : tokens name (ints l) = Ok l' -> l' = l.
Proof.
  unfold ints, tokens. simpl. case_bool_decide as Hne; [done|]. intros H%traverse_inv. clear Hne.
  revert l' H; induction l as [|z l IH]; intros l' H; simpl in H; inversion H as [|x y l1 l2 Hz Hl]; subst; [done|].
  simpl in Hz. destruct (z <? 0); [done|]. injection Hz as <-. f_equal. by apply IH.
Qed.

Lemma finite_float name f f' : finite float_repr name (PFloat f) = Ok f' -> f' = f.
Proof. simpl. destruct (float_value f); by intros [=]. Qed.

Lemma finite_floats name l l' : traverse (finite float_repr name) (map PFloat l) = Ok l' -> l' = l.
Proof.
  intros H%traverse_inv. revert l' H; induction l as [|f l IH]; intros l' H; simpl in H;
    inversion H as [|x y l1 l2 Hf Hl]; subst; [done|].
  apply finite_float in Hf as ->. f_equal. by apply IH.
Qed.

Lemma new_sample_reason a b d e f g h i s :
  new_sample a b d e f g h i = Ok s -> g <> "tool_calls".
Proof.
  unfold new_sample. intros H. res_inv H. intros ->. apply negb_false_iff, bool_decide_eq_true in G5. set_solver.
Qed.

(** What a single-turn trajectory made from a sample holds. *)
Lemma from_sample_inv gid p task reset prefix context i s t :
  from_sample float_repr sha256_hex gid p task reset prefix context i s = Ok t ->
  sample_index t = Z.of_nat i /\ reward t = Some (sample_reward s)
  /\ raw_reward t = Some (sample_raw_reward s) /\ version p = policy_version s
  /\ exists turn, turns t = [turn] /\ turn_policy turn = p /\ context_token_ids turn = prompt_ids s
     /\ action_token_ids turn = response_ids s /\ behavior_log_probs turn = sample_log_probs s
     /\ finish_reason turn = sample_finish_reason s /\ stop_token_count turn = sample_stop_tokens s.
Proof.
  unfold from_sample. intros H. res_inv H. destr_bool. rename value into turn.
  unfold new_turn in R. res_inv R. destruct value5 as [reason|]; [|done]. res_inv R.
  apply tokens_ints in R2 as ->. apply tokens_ints in R3 as ->. injection R4 as <-.
  apply finite_floats in R5 as ->.
  apply integer_inv in R7 as [[= <-] _].
  assert (reason = sample_finish_reason s) as ->.
  { simpl in R6. case_bool_decide; by simplify_eq. }
  unfold new_trajectory in H. res_inv H.
  repeat match goal with
  | H : integer _ _ (PInt _) = Ok _ |- _ => apply integer_inv in H as [[= <-] _]
  | H : optional _ (PFloat _) = Ok _ |- _ => cbn [optional] in H; res_inv H
  | H : finite _ _ (PFloat _) = Ok _ |- _ => apply finite_float in H
  end.
  subst.
  simpl. split_and!; try done; try lia. by eexists.
Qed.

(** Trajectories converted from samples are built by the constructors. *)
Lemma from_sample_built gid p task reset prefix context i s t :
  built_policy float_repr p ->
  from_sample float_repr sha256_hex gid p task reset prefix context i s = Ok t ->
  built_trajectory float_repr sha256_hex t.
Proof.
  intros Hp H. pose proof (from_sample_inv _ _ _ _ _ _ _ _ _ H) as (_ & _ & _ & _ & turn & Ht & Htp & _).
  unfold from_sample in H. res_inv H.
  assert (Hv : turns t = [value]) by (unfold new_trajectory in H; res_inv H; by subst t).
  rewrite Ht in Hv. injection Hv as ->. split.
  - rewrite Ht. constructor; [|constructor]. split; [by rewrite Htp|]. rewrite Htp. by do 8 eexists.
  - rewrite Ht. by do 12 eexists.
Qed.

Lemma from_samples_built gid p task reset prefix context k l ts :
  built_policy float_repr p ->
  from_samples (from_sample float_repr sha256_hex gid p task reset prefix context) k l = Ok ts ->
  Forall (built_trajectory float_repr sha256_hex) ts.
Proof.
  intros Hp. revert k ts; induction l as [|s l IH]; intros k ts H; simpl in H; [by simplify_eq|].
  destruct (from_sample _ _ _ _ _ _ _ _ _ _) as [t|] eqn:E; [|done].
  destruct (from_samples _ (S k) l) as [ts'|] eqn:E'; [|done]. simplify_eq.
  constructor; [by eapply from_sample_built|by eapply IH].
Qed.

Lemma from_rollout_built rg p task reset prefix g :
  built_policy float_repr p ->
  from_rollout_group float_repr sha256_hex rg p task reset prefix = Ok g -> built_group float_repr sha256_hex g.
Proof.
  intros Hp H. unfold from_rollout_group in H. res_inv H.
  pose proof (new_group_checks _ _ _ _ _ _ _ _ H) as (_ & Hpol & _).
  split; [by rewrite Hpol|]. rewrite Hpol. do 6 eexists. split; [by eapply from_samples_built|exact H].
Qed.

Lemma from_to_sample gid p task reset prefix context i s t :
  built_sample s ->
  from_sample float_repr sha256_hex gid p task reset prefix context i s = Ok t -> to_sample t = Ok s.
Proof.
  intros Hs H. apply from_sample_inv in H as (_ & Hr & Hraw & Hv & turn & Ht & Hp & Hc & Ha & Hb & Hf & Hst).
  unfold to_sample, single_turn. rewrite Ht. cbv beta iota. rewrite Hf.
  rewrite bool_decide_eq_false_2 by by eapply new_sample_reason.
  rewrite Hr, Hc, Ha, Hb, Hp, Hst, Hraw, Hv. exact Hs.
Qed.

Lemma from_samples_inv make k l ts :
  from_samples make k l = Ok ts ->
  Forall2 (fun s t => exists i, make i s = Ok t) l ts
  /\ (forall s t i, i < length l -> l !! i = Some s -> ts !! i = Some t -> make (k + i) s = Ok t)%nat.
Proof.
  revert k ts; induction l as [|s l IH]; intros k ts H; simpl in H; [by simplify_eq|].
  destruct (make k s) as [t|] eqn:E; [|done]. destruct (from_samples make (S k) l) as [ts'|] eqn:E'; [|done].
  simplify_eq. destruct (IH _ _ E') as [Hf Hi]. split; [constructor; eauto|].
  intros s' t' [|i] Hlen Hs Ht; simpl in *; simplify_eq; [by rewrite Nat.add_0_r|].
  replace (k + S i)%nat with (S k + i)%nat by lia. eapply Hi; try done. lia.
Qed.

Lemma from_samples_indices gid p task reset prefix context k l ts :
  from_samples (from_sample float_repr sha256_hex gid p task reset prefix context) k l = Ok ts ->
  map sample_index ts = map Z.of_nat (seq k (length l)).
Proof.
  revert k ts; induction l as [|s l IH]; intros k ts H; simpl in H; [by simplify_eq|].
  destruct (from_sample _ _ _ _ _ _ _ _ _ _) as [t|] eqn:E; [|done].
  destruct (from_samples _ (S k) l) as [ts'|] eqn:E'; [|done]. simplify_eq. simpl.
  apply from_sample_inv in E as [-> _]. by rewrite (IH _ _ E').
Qed.

Lemma indices_in_order k m ts :
  map sample_index ts = map Z.of_nat (seq k m) -> StronglySorted (fun a b => index_le a b = true) ts.
Proof.
  revert k m; induction ts as [|t ts IH]; intros k m H; [constructor|].
  destruct m as [|m]; [done|]. simpl in H. injection H as Ht H. constructor; [by eapply IH|].
  apply Forall_forall. intros u Hu. unfold index_le. apply Z.leb_le. rewrite Ht.
  assert (Hin : sample_index u ∈ map sample_index ts) by by apply list_elem_of_fmap_2.
  rewrite H in Hin. apply list_elem_of_fmap in Hin as (j & -> & Hj%elem_of_seq). lia.
Qed.
End Legacy.

(** C31. Round trip of durable records: for every record built by its
    constructors, the checks of [loads] accept the payload that [dumps] writes
    and rebuild the same record. *)
Theorem training_records_roundtrip float_repr sha256_hex r :
  built_record float_repr sha256_hex r ->
  loads_payload float_repr sha256_hex (dumps_payload float_repr r) = Ok r.
Proof.
  intros Hr. unfold loads_payload, dumps_payload. read_fields. cbn [is_int].
  rewrite bool_decide_eq_true_2 by done. destruct r as [p|t|t|g]; cbn [kind to_dict member];
    rewrite bool_decide_eq_true_2 by set_solver; cbv beta iota; simpl in Hr.
  - by rewrite policy_roundtrip.
  - by rewrite turn_roundtrip.
  - by rewrite trajectory_roundtrip.
  - by rewrite group_roundtrip.
Qed.

(** A training group is complete and coherent: a group accepted by its
    constructor holds exactly the samples 0..G-1 in order, each with a finite
    reward and eligible, all with the group's task, context, reset and policy,
    and no request identity occurs twice. *)
Theorem training_group_complete a b d e p f ss g :
  new_group a b d e p f ss = Ok g ->
  map sample_index (samples g) = map Z.of_nat (seq 0 (Z.to_nat (expected_size g)))
  /\ samples g ≡ₚ ss
  /\ NoDup (map sample_id (samples g)) /\ NoDup (map request_id (mbind turns (samples g)))
  /\ Forall (fun s => reward_eligible s = true /\ is_Some (reward s) /\ group_id s = tg_group_id g
       /\ task_id s = tg_task_id g /\ initial_context_sha256 s = tg_initial_context g
       /\ reset_sha256 s = tg_reset g
       /\ exists q, trajectory_policy s = Ok q /\ policy_eqb q p = true) (samples g).
Proof.
  intros H. apply new_group_checks in H as (Hc & Hp & _).
  pose proof (gc_samples g ss Hc) as Hs. pose proof (group_sorted_again g ss Hc) as Hc'.
  split_and!.
  - pose proof (gc_size _ _ Hc') as Hsz. pose proof (gc_length _ _ Hc') as Hl. apply indices_exact.
    + rewrite Hs. clear. pose proof (sorted_samples ss) as Hso. induction Hso as [|s l _ IH Hall]; simpl; constructor; [done|].
      apply Forall_fmap. eapply Forall_impl; [exact Hall|]. intros u Hu. by apply Z.leb_le.
    + rewrite length_map. lia.
    + intros i Hi. apply (gc_indices _ _ Hc'). lia.
  - rewrite Hs. apply sorted_by_perm.
  - exact (bool_decide_eq_true_1 _ (gc_ids _ _ Hc')).
  - exact (bool_decide_eq_true_1 _ (gc_requests _ _ Hc')).
  - eapply Forall_impl; [exact (gc_matches _ _ Hc')|]. intros s Hm. cbv beta in Hm. unfold sample_matches in Hm.
    destruct (trajectory_policy s) as [q|] eqn:Eq; [|done]. rewrite Hp in Hm.
    destruct (negb (_ && _)) eqn:E1; [done|]. destruct (negb (reward_eligible s) || _) eqn:E2; [done|].
    destr_bool. simpl in *. destr_bool. destruct (reward s); [|done].
    split_and!; eauto.
Qed.

(** Legacy groups survive the conversion: what [from_rollout_group] makes of a
    valid legacy group, [to_rollout_group] turns back into the same group,
    sample by sample and in order. *)
Theorem legacy_group_roundtrip float_repr sha256_hex rg p task reset prefix g :
  Forall built_sample (rg_samples rg) ->
  new_rollout_group (rg_samples rg) (rg_group_id rg) (rg_policy_version rg) = Ok rg ->
  from_rollout_group float_repr sha256_hex rg p task reset prefix = Ok g ->
  to_rollout_group g = Ok rg.
Proof.
  intros Hb Hrg H. unfold from_rollout_group in H. res_inv H. destr_bool.
  apply new_group_checks in H as (Hc & Hp & [= Hg]). pose proof (gc_samples _ _ Hc) as Hs.
  pose proof (from_samples_indices _ _ _ _ _ _ _ _ _ _ _ R0) as Hidx.
  rewrite sorted_by_id in Hs by (by eapply indices_in_order).
  unfold to_rollout_group. rewrite Hs, Hp. rewrite (traverse_ok to_sample value0 (rg_samples rg)).
  - by rewrite <- Hg, <- G.
  - apply from_samples_inv in R0 as [Hf _]. clear -Hb Hf.
    induction Hf as [|s t l ts [i Hi] _ IH]; constructor; apply Forall_cons in Hb as [Hs Hb].
    + by eapply from_to_sample.
    + by apply IH.
Qed.

(** ** Concrete records *)

Definition zeros64 : string := "0000000000000000000000000000000000000000000000000000000000000000".
Definition toy_repr (n : Z) : string := "1.0".
Definition toy_sha256 (s : string) : string := zeros64.
Definition float_one : pyfloat := PyFloat "1.0" (FFin float_unit).
Definition float_minus_one : pyfloat := PyFloat "-1.0" (FFin (- float_unit)).

Definition example_policy : PolicyRef :=
  {| version := 3; policy_digest := zeros64; lineage := "run"; identities := []; temperature := float_one |}.

Definition example_legacy_sample (token : Z) : Sample :=
  {| prompt_ids := [5; 6]; response_ids := [token]; sample_log_probs := [float_minus_one];
     sample_reward := float_one; policy_version := 3; sample_finish_reason := "stop";
     sample_stop_tokens := 0; sample_raw_reward := float_one |}.

Definition example_legacy : RolloutGroup :=
  {| rg_samples := [example_legacy_sample 7; example_legacy_sample 8]; rg_group_id := 4; rg_policy_version := 3 |}.

Definition example_group : res TrainingGroup :=
  from_rollout_group toy_repr toy_sha256 example_legacy example_policy "task" zeros64 (Some "req").

Lemma example_policy_built : built_policy toy_repr example_policy.
Proof.
  exists (PInt 3), (PStr zeros64), (PStr "run"), (PDict []),
    (PDict [("temperature", PFloat float_one); ("top_p", PInt 1); ("top_k", PInt 0)]).
  vm_compute. reflexivity.
Defined.

Lemma training_records_roundtrip_witness :
  built_record toy_repr toy_sha256 (RecPolicy example_policy)
  /\ loads_payload toy_repr toy_sha256 (dumps_payload toy_repr (RecPolicy example_policy))
     = Ok (RecPolicy example_policy).
Proof.
  split; [exact example_policy_built|]. apply training_records_roundtrip. exact example_policy_built.
Defined.

Lemma legacy_group_roundtrip_witness :
  exists g, example_group = Ok g /\ to_rollout_group g = Ok example_legacy.
Proof.
  destruct example_group as [g|] eqn:E; [|vm_compute in E; discriminate E].
  exists g. split; [reflexivity|].
  apply (legacy_group_roundtrip toy_repr toy_sha256 example_legacy example_policy "task" zeros64 (Some "req") g).
  - repeat constructor; vm_compute; reflexivity.
  - vm_compute. reflexivity.
  - exact E.
Defined.

Definition example_trajectory (i : Z) (request : string) : TrainingTrajectory :=
  {| group_id := 4; task_id := "task"; initial_context_sha256 := zeros64; reset_sha256 := zeros64;
     sample_index := i;
     turns := [{| turn_id := 1; request_id := request; context_token_ids := [5; 6]; action_token_ids := [7];
                  behavior_log_probs := [float_minus_one]; turn_policy := example_policy;
                  finish_reason := "stop"; stop_token_count := 0; context_truncation := "none" |}];
     reward := Some float_one; reward_eligible := true; exclusion_reason := PNone; evidence := [];
     sample_id := request; raw_reward := None; sampling_seed := None |}.

Lemma training_group_complete_witness :
  exists g, new_group (PInt 4) (PStr "task") (PStr zeros64) (PStr zeros64) example_policy (PInt 2)
      [example_trajectory 1 "b"; example_trajectory 0 "a"] = Ok g
  /\ map sample_index (samples g) = [0; 1].
Proof.
  destruct (new_group (PInt 4) (PStr "task") (PStr zeros64) (PStr zeros64) example_policy (PInt 2)
      [example_trajectory 1 "b"; example_trajectory 0 "a"]) as [g|] eqn:E; [|vm_compute in E; discriminate E].
  exists g. split; [reflexivity|].
  pose proof (training_group_complete _ _ _ _ _ _ _ g E) as [H _].
  replace (expected_size g) with 2 in H by (vm_compute in E; injection E as <-; reflexivity). exact H.
Defined.
