(* ===== verification/Grpo.v ===== *)
(** * GRPO: scores, losses and the update of a group

    [dsv41_train/rl/algorithm.py] scores responses (one at a time, or padded
    into one forward pass) and computes the clipped losses;
    [dsv41_train/rl/distributed_grpo.py] accumulates them over planned
    microbatches.  Scalars are exact rationals, [None] is a non-finite value;
    rounding is not modelled.  The model, [exp], [expm1], [log_softmax] and the
    square root are parameters; devices and dtypes are left out. *)

From Stdlib Require Import Qcanon.
From stdpp Require Import numbers list_numbers.
From S2P Require Import Prelude PyValue Training LearnerPlanner.
Local Open Scope py_scope.

(** ** Scalars and vectors *)

Notation num := (option Qc).

Definition qc (z : Z) : Qc := Qc_of_Z z.
Definition total (l : list Qc) : Qc := foldr Qcplus 0%Qc l.
Definition mean (l : list Qc) : Qc := (total l / qc (Z.of_nat (length l)))%Qc.
Definition qle (x y : Qc) : bool := bool_decide (x <= y)%Qc.
Definition qlt (x y : Qc) : bool := bool_decide (x < y)%Qc.
Definition qmin (x y : Qc) : Qc := if qle x y then x else y.
Definition qmax (x y : Qc) : Qc := if qle x y then y else x.
Definition qabs (x : Qc) : Qc := if qle 0 x then x else (- x)%Qc.
(** [x.clamp(lo, hi)] *)
Definition clamp (lo hi x : Qc) : Qc := qmin (qmax x lo) hi.
(** The greatest and the least element of a nonempty list. *)
Definition qmax_list (l : list Qc) : Qc := match l with [] => 0%Qc | x :: l => foldr qmax x l end.
Definition qmin_list (l : list Qc) : Qc := match l with [] => 0%Qc | x :: l => foldr qmin x l end.

(** [_finite(tensor, name)], giving the values. *)
Definition all_finite (l : list num) (name : string) : res (list Qc) :=
  match mapM id l with Some v => Ok v | None => Err (ValueError (name +:+ " contains non-finite values")) end.

(** The tolerance of a log probability. *)
Definition tolerance : Qc := (1 / qc 1000000)%Qc.
Definition nonpositive (l : list Qc) : bool := forallb (fun p => qle p tolerance) l.

(** ** Scoring *)

(** What the learner calls of a model: the replay hook, the fused token scores
    ([supports_token_log_probs]; the target mask is where a target is not
    [-100]), and the logits. *)
Record policy := {
  hook : option (list Z -> list Z -> Qc -> res (list num));
  token_scores : option (list (list Z) -> list (list bool) -> list (list Z) -> Qc -> res (list (list num)));
  logits : list (list Z) -> list (list bool) -> res (list (list (list num))) }.

Section Scoring.
Context (log_softmax : list num -> list num) (m : policy).

(** [validate_token_ids] of a list of integers. *)
Definition valid_ids (name : string) (l : list Z) : res (list Z) :=
  raise_when bool_decide (l = []) with_exn ValueError (name +:+ " must not be empty");
  raise_when negb (forallb (fun t => (0 <=? t)%Z) l) with_exn ValueError (name +:+ " must contain only nonnegative integer token IDs");
  Ok l.

Definition validate_temperature (t : Qc) : res unit := raise_if (qle t 0) (ValueError "temperature must be finite and positive").

Definition input_ids (prompt response : list Z) : list Z := prompt ++ take (length response - 1) response.
(** The targets of one row: [-100] outside the response. *)
Definition target_ids (prompt response : list Z) : list Z := replicate (length prompt - 1) (-100)%Z ++ response.

Definition same_shape {A B} (s : list (list A)) (t : list (list B)) : bool := bool_decide (map length s = map length t).

(** [(logits / temperature).log_softmax(-1)] at the target of each row. *)
Definition gathered (t : Qc) (rows : list (list num)) (targets : list Z) : list num :=
  zip_with (fun row target => default None (log_softmax (map (fmap (fun x => (x / t)%Qc)) row) !! Z.to_nat target)) rows targets.

(** [logits.shape[-1]] *)
Definition vocabulary (s : list (list (list num))) : Z := match s with (row :: _) :: _ => Z.of_nat (length row) | _ => 0 end.

Definition outside_vocabulary (targets : list Z) (size : Z) : bool := existsb (fun t => (size <=? t)%Z) targets.

Definition response_log_probs (prompt response : list Z) (temperature : Qc) : res (list Qc) :=
  _ <-? validate_temperature temperature;
  prompt <-? valid_ids "prompt_ids" prompt;
  response <-? valid_ids "response_ids" response;
  match hook m with
  | Some f =>
      scores <-? f prompt response temperature;
      raise_when negb (length scores =? length response)%nat with_exn ValueError "model response_log_probs hook must return one tensor value per action";
      values <-? all_finite scores "response log probabilities";
      raise_when negb (nonpositive values) with_exn ValueError "response log probabilities must be nonpositive";
      Ok values
  | None =>
      let tokens := [input_ids prompt response] in
      let mask := [map (fun _ => true) (input_ids prompt response)] in
      match token_scores m with
      | Some f =>
          scores <-? f tokens mask [target_ids prompt response] temperature;
          raise_when negb (same_shape scores tokens) with_exn ValueError "model must return one log probability per input token";
          all_finite (drop (length prompt - 1) (scores !!! 0%nat)) "response log probabilities"
      | None =>
          l <-? logits m tokens mask;
          raise_when negb (length l =? 1)%nat || bool_decide (l !!! 0%nat = []) || (vocabulary l =? 0)%Z with_exn
            ValueError "model logits must have shape [1, sequence_length, vocabulary_size]";
          raise_when negb (same_shape l tokens) with_exn ValueError "model must return one logits vector per input token";
          raise_when outside_vocabulary response (vocabulary l) with_exn ValueError "response token ID is outside the model vocabulary";
          all_finite (gathered temperature (drop (length prompt - 1) (l !!! 0%nat)) response) "response log probabilities"
      end
  end.

(** [t[mask]] in row-major order. *)
Definition masked {A} (mask : list (list bool)) (t : list (list A)) : list A :=
  concat (zip_with (fun m row => omap (fun x => if x.1 : bool then Some x.2 else None) (zip m row)) mask t).

(** [t.split(sizes)] *)
Fixpoint split_sizes {A} (sizes : list nat) (l : list A) : list (list A) :=
  match sizes with [] => [] | n :: sizes => take n l :: split_sizes sizes (drop n l) end.

(** A row of [width] that starts with [l] and is [x] after it. *)
Definition padded {A} (x : A) (width : nat) (l : list A) : list A := l ++ replicate (width - length l) x.

(** What [train_group] compares of the metadata. *)
Record layout := {
  input_shape : nat * nat; valid_input_tokens : nat; padded_input_tokens : nat; response_tokens : nat; model_forward_calls : nat }.

Definition response_log_probs_batch (prompts responses : list (list Z)) (temperature : Qc) : res (list (list Qc) * layout) :=
  _ <-? validate_temperature temperature;
  raise_when bool_decide (prompts = []) || negb (length responses =? length prompts)%nat with_exn
    ValueError "prompt and response batches require the same nonzero size";
  prompts <-? traverse (valid_ids "prompt_ids") prompts;
  responses <-? traverse (valid_ids "response_ids") responses;
  raise_when bool_decide (is_Some (hook m)) with_exn
    ValueError "a sampling-prefix response hook cannot use the teacher-forced batch path";
  let rows := zip_with input_ids prompts responses in
  let width := max_list (map length rows) in
  let tokens := map (padded 0%Z width) rows in
  let token_mask := map (fun row => padded false width (map (fun _ => true) row)) rows in
  let targets := map (padded (-100)%Z width) (zip_with target_ids prompts responses) in
  let target_mask := map (map (fun t => negb (t =? -100)%Z)) targets in
  selected <-? match token_scores m with
    | Some f =>
        scores <-? f tokens token_mask targets temperature;
        raise_when negb (same_shape scores tokens) with_exn ValueError "model must return one log probability per input token";
        Ok (masked target_mask scores)
    | None =>
        l <-? logits m tokens token_mask;
        raise_when negb (same_shape l tokens) || (vocabulary l =? 0)%Z with_exn
          ValueError "model logits must have shape [batch, sequence_length, vocabulary_size]";
        let selected_targets := masked target_mask targets in
        raise_when outside_vocabulary selected_targets (vocabulary l) with_exn ValueError "response token ID is outside the model vocabulary";
        Ok (gathered temperature (masked target_mask l) selected_targets)
    end;
  selected <-? all_finite selected "response log probabilities";
  raise_when negb (nonpositive selected) with_exn ValueError "response log probabilities must be nonpositive";
  let valid := sum_list (map length rows) in
  Ok (split_sizes (map length responses) selected,
      {| input_shape := (length rows, width); valid_input_tokens := valid; padded_input_tokens := length rows * width - valid;
         response_tokens := sum_list (map length responses); model_forward_calls := 1 |}).
End Scoring.

(** ** Advantages *)

Section Advantages.
Context (sqrt : Qc -> Qc).

(** [values.std(unbiased=False)] *)
Definition deviation (l : list Qc) : Qc := sqrt (mean (map (fun x => (x - mean l) * (x - mean l))%Qc l)).

Definition group_advantages (rewards : list num) (eps : Qc) : res (list Qc) :=
  raise_when qle eps 0 with_exn ValueError "advantage epsilon must be finite and positive";
  raise_when bool_decide (rewards = []) with_exn ValueError "rewards must be a nonempty vector";
  values <-? all_finite rewards "rewards";
  Ok (map (fun x => (x - mean values) / (deviation values + eps))%Qc values).
End Advantages.

(** ** Losses *)

Section Losses.
Context (exp expm1 : Qc -> num).

(** A vector over the tokens of a response. *)
Definition pointwise (f : Qc -> Qc -> Qc) (a b : list Qc) : list Qc := zip_with f a b.
Definition frac (p : Qc -> bool) (l : list Qc) : Qc := mean (map (fun x => if p x then 1%Qc else 0%Qc) l).
Definition surrogate (clip_eps advantage ratio : Qc) : Qc :=
  qmin (ratio * advantage)%Qc (clamp (1 - clip_eps) (1 + clip_eps) ratio * advantage)%Qc.
Definition clip_range (clip_eps : Qc) : bool := qle 0 clip_eps && qlt clip_eps 1.
Definition beyond (clip_eps ratio : Qc) : bool := qlt clip_eps (qabs (ratio - 1)%Qc).

(** *** [grpo_loss] *)

Record grpo_metrics := {
  g_loss : Qc; g_policy_loss : Qc; g_kl : Qc; g_clip_fraction : Qc; g_importance_ratio : Qc; g_approx_kl : Qc }.

(** What one response adds to the lists of [grpo_loss]. *)
Record grpo_term := { policy_term : Qc; kl_term : Qc; clip_fraction : Qc; ratio_mean : Qc; approx_kl : Qc }.

Definition grpo_response (clip_eps kl_beta : Qc) (current behavior : list num) (advantage : Qc) (reference : option (list num)) : res grpo_term :=
  raise_when bool_decide (current = []) with_exn ValueError "each policy log-probability tensor must be a nonempty vector";
  current <-? all_finite current "policy log probabilities";
  raise_when negb (length behavior =? length current)%nat with_exn ValueError "behavior and policy response lengths must match";
  behavior <-? all_finite behavior "behavior log probabilities";
  let log_ratio := pointwise Qcminus current behavior in
  ratio <-? all_finite (map exp log_ratio) "importance ratios (reduce policy lag or learning rate)";
  kl <-? match reference with
    | Some reference =>
        if bool_decide (kl_beta = 0%Qc) then Ok 0%Qc else
        (raise_when negb (length reference =? length current)%nat with_exn ValueError "reference and policy response lengths must match";
         reference <-? all_finite reference "reference log probabilities";
         let delta := pointwise Qcminus reference current in
         weighted <-? all_finite (zip_with (fun r d => (fun e => r * (e - d))%Qc <$> expm1 d) ratio delta) "importance-weighted reference KL";
         Ok (mean weighted))
    | None => Ok 0%Qc
    end;
  Ok {| policy_term := (- mean (map (surrogate clip_eps advantage) ratio))%Qc; kl_term := kl;
        clip_fraction := frac (beyond clip_eps) ratio; ratio_mean := mean ratio;
        approx_kl := mean (map Qcopp log_ratio) |}.

Definition grpo_loss (policy behavior : list (list num)) (advantages : list num) (clip_eps : Qc) (ref : option (list (list num))) (kl_beta : Qc)
    : res (Qc * grpo_metrics) :=
  raise_when negb (clip_range clip_eps) with_exn ValueError "clip_eps must be finite and in [0, 1)";
  raise_when qlt kl_beta 0 with_exn ValueError "kl_beta must be finite and nonnegative";
  raise_when bool_decide (policy = []) || negb (length behavior =? length policy)%nat with_exn
    ValueError "policy and behavior must contain the same nonzero number of responses";
  raise_when negb (length advantages =? length policy)%nat with_exn ValueError "one scalar advantage is required per response";
  advantages <-? all_finite advantages "advantages";
  raise_when match ref with Some l => negb (length l =? length policy)%nat | None => false end with_exn
    ValueError "one reference log-probability vector is required per response";
  raise_when negb (bool_decide (kl_beta = 0%Qc)) && bool_decide (ref = None) with_exn
    ValueError "positive kl_beta requires reference log probabilities";
  let references := match ref with Some l => map Some l | None => map (fun _ => None) policy end in
  terms <-? traverse (fun x => grpo_response clip_eps kl_beta x.1.1.1 x.1.1.2 x.1.2 x.2) (zip (zip (zip policy behavior) advantages) references);
  let policy_loss := mean (map policy_term terms) in
  let kl := mean (map kl_term terms) in
  let loss := (policy_loss + kl_beta * kl)%Qc in
  Ok (loss, {| g_loss := loss; g_policy_loss := policy_loss; g_kl := kl; g_clip_fraction := mean (map clip_fraction terms);
               g_importance_ratio := mean (map ratio_mean terms); g_approx_kl := mean (map approx_kl terms) |}).

(** *** [decoupled_token_tis_loss] *)

Record tis_metrics := {
  t_loss : Qc; t_response_count : Qc; t_token_count : Qc; t_is_cap : Qc;
  t_weight_sum : Qc; t_weight_square_sum : Qc; t_weight_mean : Qc; t_weight_min : Qc; t_weight_max : Qc;
  t_raw_sum : Qc; t_raw_min : Qc; t_raw_max : Qc; t_clipped_tokens : Qc; t_clipped_fraction : Qc;
  t_dropped_mass : Qc; t_dropped_fraction : Qc; t_ess : Qc; t_ess_fraction : Qc;
  t_delta_mean : Qc; t_delta_max_abs : Qc; t_ratio_mean : Qc; t_clip_fraction : Qc }.

(** What one response adds to the lists of the loss. *)
Record tis_term := { tis_policy_term : Qc; weights : list Qc; raw_weights : list Qc; ratios : list Qc; deltas : list Qc }.

Definition log_probs_of (name : string) (l : list num) : res (list Qc) :=
  v <-? all_finite l (name +:+ " log probabilities");
  raise_when negb (nonpositive v) with_exn ValueError (name +:+ " log probabilities must be nonpositive");
  Ok v.

Definition underflows (l : list Qc) : bool := existsb (fun x => bool_decide (x = 0%Qc)) l.

Definition tis_response (clip_eps is_cap : Qc) (current old behavior : list num) (advantage : Qc) : res tis_term :=
  raise_when bool_decide (current = []) with_exn ValueError "each policy log-probability tensor must be a nonempty vector";
  raise_when negb (length old =? length current)%nat || negb (length behavior =? length current)%nat with_exn
    ValueError "native-old, behavior and policy response lengths must match";
  current <-? log_probs_of "policy" current;
  old <-? log_probs_of "native-old" old;
  behavior <-? log_probs_of "behavior" behavior;
  let delta := pointwise Qcminus old behavior in
  raw <-? all_finite (map exp delta) "raw rollout importance weights";
  raise_when underflows raw with_exn ValueError "raw rollout importance weights underflowed";
  let weights := map (fun x => qmin x is_cap) raw in
  raise_when underflows weights with_exn ValueError "training rollout importance weights underflowed";
  ratio <-? all_finite (map exp (pointwise Qcminus current old)) "native PPO ratios";
  raise_when underflows ratio with_exn ValueError "native PPO ratios underflowed";
  Ok {| tis_policy_term := (- mean (pointwise Qcmult weights (map (surrogate clip_eps advantage) ratio)))%Qc;
        weights := weights; raw_weights := raw; ratios := ratio; deltas := delta |}.

Definition count_true (p : Qc -> bool) (l : list Qc) : Qc := qc (Z.of_nat (length (filter (fun x => p x = true) l))).
Definition square (x : Qc) : Qc := (x * x)%Qc.

Definition tis_metrics_of (clip_eps is_cap : Qc) (terms : list tis_term) : tis_metrics :=
  let w := concat (map weights terms) in
  let raw := concat (map raw_weights terms) in
  let ratio := concat (map ratios terms) in
  let delta := concat (map deltas terms) in
  let n := qc (Z.of_nat (length w)) in
  let ess := (square (total w) / total (map square w))%Qc in
  let dropped := qmax (total raw - total w)%Qc 0 in
  {| t_loss := mean (map tis_policy_term terms); t_response_count := qc (Z.of_nat (length terms)); t_token_count := n; t_is_cap := is_cap;
     t_weight_sum := total w; t_weight_square_sum := total (map square w); t_weight_mean := mean w; t_weight_min := qmin_list w; t_weight_max := qmax_list w;
     t_raw_sum := total raw; t_raw_min := qmin_list raw; t_raw_max := qmax_list raw;
     t_clipped_tokens := count_true (fun x => qlt is_cap x) raw; t_clipped_fraction := frac (fun x => qlt is_cap x) raw;
     t_dropped_mass := dropped; t_dropped_fraction := (dropped / total raw)%Qc; t_ess := ess; t_ess_fraction := (ess / n)%Qc;
     t_delta_mean := mean delta; t_delta_max_abs := qmax_list (map qabs delta); t_ratio_mean := mean ratio; t_clip_fraction := frac (beyond clip_eps) ratio |}.

Definition decoupled_token_tis_loss (policy native_old behavior : list (list num)) (advantages : list num) (clip_eps is_cap : Qc) : res (Qc * tis_metrics) :=
  raise_when negb (clip_range clip_eps) with_exn ValueError "clip_eps must be finite and in [0, 1)";
  raise_when qle is_cap 0 with_exn ValueError "is_cap must be finite and positive";
  raise_when bool_decide (policy = []) || negb (length native_old =? length policy)%nat || negb (length behavior =? length policy)%nat with_exn
    ValueError "current, native-old and behavior require the same nonzero response count";
  raise_when negb (length advantages =? length policy)%nat with_exn ValueError "one scalar advantage is required per response";
  advantages <-? all_finite advantages "advantages";
  terms <-? traverse (fun x => tis_response clip_eps is_cap x.1.1.1 x.1.1.2 x.1.2 x.2) (zip (zip (zip policy native_old) behavior) advantages);
  Ok (mean (map tis_policy_term terms), tis_metrics_of clip_eps is_cap terms).

(** [aggregate_token_tis_metrics]; [sum] starts at the first row. *)
Definition sum_of {A} (f : A -> Qc) (rows : list A) : Qc := total (map f rows).
Definition weighted_mean {A} (f weight : A -> Qc) (rows : list A) : Qc := (sum_of (fun row => f row * weight row)%Qc rows / sum_of weight rows)%Qc.

Definition aggregate_token_tis_metrics (rows : list tis_metrics) : tis_metrics :=
  let tokens := sum_of t_token_count rows in
  let weight := sum_of t_weight_sum rows in
  let squared := sum_of t_weight_square_sum rows in
  let raw := sum_of t_raw_sum rows in
  let clipped := sum_of t_clipped_tokens rows in
  let dropped := sum_of t_dropped_mass rows in
  let n := qc (Z.of_nat (length rows)) in
  {| t_loss := (sum_of t_loss rows / n)%Qc; t_response_count := n; t_token_count := tokens; t_is_cap := match rows with row :: _ => t_is_cap row | [] => 0%Qc end;
     t_weight_sum := weight; t_weight_square_sum := squared; t_weight_mean := (weight / tokens)%Qc;
     t_weight_min := qmin_list (map t_weight_min rows); t_weight_max := qmax_list (map t_weight_max rows);
     t_raw_sum := raw; t_raw_min := qmin_list (map t_raw_min rows); t_raw_max := qmax_list (map t_raw_max rows);
     t_clipped_tokens := clipped; t_clipped_fraction := (clipped / tokens)%Qc;
     t_dropped_mass := dropped; t_dropped_fraction := (dropped / raw)%Qc; t_ess := (weight * weight / squared)%Qc; t_ess_fraction := (weight * weight / squared / tokens)%Qc;
     t_delta_mean := weighted_mean t_delta_mean t_token_count rows; t_delta_max_abs := qmax_list (map t_delta_max_abs rows);
     t_ratio_mean := weighted_mean t_ratio_mean t_token_count rows; t_clip_fraction := weighted_mean t_clip_fraction t_token_count rows |}.
End Losses.

(** ** The update of a group ([train_group]) *)

Record rollout_result := {
  context_token_ids : list Z; action_token_ids : list Z; behavior_log_probs : list num; policy_ack : pyval }.

Record train_args := {
  rollout_correction : string; rollout_is_cap : Qc; kl_beta : Qc; clip_eps : Qc; temperature : Qc;
  learner_microbatch_size : Z; learner_batch_shapes : option string; disable_prefetch : bool }.

Section Training.
Context (log_softmax : list num -> list num) (exp expm1 : Qc -> num) (args : train_args).

(** [validate_correction_configuration] *)
Definition validate_correction_configuration : res string :=
  let mode := rollout_correction args in
  raise_when negb (bool_decide (mode = "none") || bool_decide (mode = "decoupled-token-tis")) with_exn ValueError "unknown rollout correction mode";
  raise_when bool_decide (mode = "decoupled-token-tis") && negb (bool_decide (kl_beta args = 0%Qc)) with_exn ValueError "Token-TIS qualification requires kl_beta=0";
  raise_when bool_decide (mode = "decoupled-token-tis") && qle (rollout_is_cap args) 0 with_exn
    ValueError "rollout importance cap must be finite and positive";
  Ok mode.

Definition corrected : bool := bool_decide (rollout_correction args = "decoupled-token-tis").

(** The lag between the learner's policy and the one that generated, whose
    acknowledgement every result carries; [strict] tells which of the two
    messages a different lineage has. *)
Definition lag_between (strict : bool) (message1 message2 : string) (expected generating : pyval) (results : list rollout_result) (update : Z) : res Z :=
  match expected, generating with
  | PDict e, PDict g =>
      match py_eqb (get_none "version" e) (PInt (update - 1)), get_none "version" g with
      | true, PInt version =>
          raise_when strict && negb (py_eqb (get_none "lineage" g) (get_none "lineage" e)) || existsb (fun r => negb (py_eqb (policy_ack r) generating)) results with_exn
            ValueError message1;
          let lag := (update - 1 - version)%Z in
          raise_when negb ((0 <=? lag)%Z && (lag <=? (if disable_prefetch args then 0 else 1))%Z)
                     || negb (py_eqb (get_none "lineage" g) (get_none "lineage" e))
                     || ((lag =? 0)%Z && negb (py_eqb generating expected)) with_exn ValueError message2;
          Ok lag
      | _, _ => Err (ValueError message1)
      end
  | _, _ => Err (ValueError message1)
  end.

Definition policy_lag (results : list rollout_result) (update : Z) (expected_ack snapshot_ack : option pyval) : res (option Z) :=
  if corrected then
    lag <-? lag_between false "Token-TIS native-old anchor must match every response's generating policy" "Token-TIS generating policy has an invalid lineage or policy lag"
      (default PNone expected_ack) (default (default PNone expected_ack) snapshot_ack) results update;
    Ok (Some lag)
  else match expected_ack with
  | Some expected =>
      lag <-? lag_between true "strict policy lag requires consistent learner and generating ACKs" "strict generating policy has an invalid policy lag or ACK"
        expected (match results with r :: _ => policy_ack r | [] => PNone end) results update;
      Ok (Some lag)
  | None => Ok None
  end.

(** [score]: one response alone, several in one padded pass, and the check of
    what came back. *)
Definition score (m : policy) (prompts responses : list (list Z)) : res (list (list Qc)) :=
  let lengths := map length (zip_with input_ids prompts responses) in
  scored <-? match prompts, responses with
    | [prompt], [response] =>
        values <-? response_log_probs log_softmax m prompt response (temperature args);
        Ok ([values], {| input_shape := (1, max_list lengths); valid_input_tokens := sum_list lengths; padded_input_tokens := 0;
                         response_tokens := length response; model_forward_calls := 1 |})
    | _, _ => response_log_probs_batch log_softmax m prompts responses (temperature args)
    end;
  let '(values, l) := scored in
  raise_when negb (length values =? length prompts)%nat || negb (bool_decide (input_shape l = (length prompts, max_list lengths)))
             || negb (valid_input_tokens l =? sum_list lengths)%nat
             || negb (padded_input_tokens l =? length prompts * max_list lengths - sum_list lengths)%nat
             || negb (response_tokens l =? sum_list (map length responses))%nat || negb (model_forward_calls l =? 1)%nat
             || negb (bool_decide (map length values = map length responses)) with_exn
    ValueError "learner scorer did not return one physical aligned response microbatch";
  Ok values.

(** The row of metrics of a response. *)
Inductive metrics_row := GrpoRow (m : grpo_metrics) | TisRow (m : tis_metrics).

(** The loss of one response and its row. *)
Definition response_loss (result : rollout_result) (advantage : num) (current : list Qc) (native_old reference : option (list Qc)) : res (Qc * metrics_row) :=
  if corrected then
    l <-? decoupled_token_tis_loss exp [map Some current] [map Some (default [] native_old)] [behavior_log_probs result] [advantage] (clip_eps args) (rollout_is_cap args);
    Ok (l.1, TisRow l.2)
  else
    l <-? grpo_loss exp expm1 [map Some current] [behavior_log_probs result] [advantage] (clip_eps args) ((fun r => [map Some r]) <$> reference) (kl_beta args);
    Ok (l.1, GrpoRow l.2).

Definition no_result : rollout_result :=
  {| context_token_ids := []; action_token_ids := []; behavior_log_probs := []; policy_ack := PNone |}.

(** One microbatch: its response indices with their losses and rows.
    [native_old] is the model under the parameters of the generating policy
    and [reference] the base model. *)
Definition train_microbatch (current native_old reference : policy) (results : list rollout_result) (advantages : list num) (indices : list nat)
    : res (list (nat * (Qc * metrics_row))) :=
  let batch := map (fun i => nth i results no_result) indices in
  let prompts := map context_token_ids batch in
  let responses := map action_token_ids batch in
  old <-? (if corrected then v <-? score native_old prompts responses; Ok (map Some v) else Ok (map (fun _ => None) indices));
  base <-? (if bool_decide (kl_beta args = 0%Qc) then Ok (map (fun _ => None) indices) else v <-? score reference prompts responses; Ok (map Some v));
  values <-? score current prompts responses;
  traverse (fun x => l <-? response_loss (nth x.1.1.1 results no_result) (nth x.1.1.1 advantages None) x.1.1.2 x.1.2 x.2; Ok (x.1.1.1, l))
    (zip (zip (zip indices values) old) base).

(** The mean of the rows, or their aggregate. *)
Definition grpo_rows (rows : list metrics_row) : list grpo_metrics := omap (fun r => match r with GrpoRow m => Some m | _ => None end) rows.
Definition tis_rows (rows : list metrics_row) : list tis_metrics := omap (fun r => match r with TisRow m => Some m | _ => None end) rows.
Definition pooled (rows : list metrics_row) : metrics_row :=
  if corrected then TisRow (aggregate_token_tis_metrics (tis_rows rows))
  else let over f := (sum_of f (grpo_rows rows) / qc 32)%Qc in
       GrpoRow {| g_loss := over g_loss; g_policy_loss := over g_policy_loss; g_kl := over g_kl; g_clip_fraction := over g_clip_fraction;
                  g_importance_ratio := over g_importance_ratio; g_approx_kl := over g_approx_kl |}.

(** The loss whose gradient the optimiser step applies: the sum of what every
    [backward] adds; with the pooled metrics and the lag.  The optimiser, the
    adapter snapshot and the gradient norm are not modelled. *)
Definition train_group (current native_old reference : policy) (results : list rollout_result) (advantages : list num) (update : Z)
    (expected_ack snapshot_ack : option pyval) : res (Qc * metrics_row * option Z) :=
  _ <-? validate_correction_configuration;
  raise_when negb ((1 <=? learner_microbatch_size args)%Z && (learner_microbatch_size args <=? 32)%Z) with_exn
    ValueError "learner microbatch size must be an integer from 1 to 32";
  raise_when negb (length results =? 32)%nat || negb (length advantages =? 32)%nat || negb (is_ok (all_finite advantages "")) with_exn
    ValueError "a logical learner update requires all 32 responses and finite advantages";
  lag <-? policy_lag results update expected_ack snapshot_ack;
  shapes <-? parse_learner_batch_shapes (learner_batch_shapes args);
  plan <-? plan_learner_microbatches (map (fun r => Z.of_nat (length (context_token_ids r)) + Z.of_nat (length (action_token_ids r)) - 1)%Z results)
             (learner_microbatch_size args) shapes;
  let native_old := match lag with Some 0%Z => current | _ => native_old end in
  batches <-? traverse (fun b => train_microbatch current native_old reference results advantages (response_indices b)) plan;
  let metrics := foldl (fun rows x => <[x.1 := Some x.2.2]> rows) (replicate 32 None) (concat batches) in
  match mapM id metrics with
  | Some rows => Ok (total (map (fun batch => total (map (fun x => x.2.1) batch) / qc 32)%Qc batches), pooled rows, lag)
  | None => Err (TypeError "'NoneType' object is not subscriptable")
  end.
End Training.
