(* ===== verification/GrpoResults.v ===== *)
(** * One update equals the loss of its group

    Scoring a padded batch gives every response the log probabilities of
    scoring it alone, and the losses of the planned microbatches add up to the
    loss of the whole group, however the planner splits it. *)

From Stdlib Require Import Qcanon.
From stdpp Require Import numbers list_numbers.
From S2P Require Import Prelude PyValue Training LearnerPlanner Grpo TrainingProofs.
Local Open Scope py_scope.

(** ** Sums *)

#[local] Arguments total : simpl never.
#[local] Arguments Qcplus : simpl never.
#[local] Arguments Qcmult : simpl never.

Lemma qtotal_cons x l : total (x :: l) = (x + total l)%Qc.
Proof. done. Qed.

Lemma qtotal_app l k : total (l ++ k) = (total l + total k)%Qc.
Proof. induction l as [|x l IH]; cbn [app map]; rewrite ?qtotal_cons; [unfold total; cbn [foldr]; ring|]. rewrite IH. ring. Qed.

#[export] Instance total_proper : Proper ((≡ₚ) ==> (=)) total.
Proof. induction 1; rewrite ?qtotal_cons; [done|congruence|ring|congruence]. Qed.

Lemma total_concat (ls : list (list Qc)) : total (concat ls) = total (map total ls).
Proof. induction ls as [|l ls IH]; cbn [concat map]; [done|]. by rewrite qtotal_cons, qtotal_app, IH. Qed.

Lemma total_scale {A} (f : A -> Qc) k l : total (map (fun x => f x / k)%Qc l) = (total (map f l) / k)%Qc.
Proof. induction l as [|x l IH]; cbn [map]; rewrite ?qtotal_cons; unfold Qcdiv in *; [unfold total; cbn [foldr]; ring|]. rewrite IH. ring. Qed.

Lemma total_times {A} (f : A -> Qc) k l : total (map (fun x => k * f x)%Qc l) = (k * total (map f l))%Qc.
Proof. induction l as [|x l IH]; cbn [app map]; rewrite ?qtotal_cons; [unfold total; cbn [foldr]; ring|]. rewrite IH. ring. Qed.

Lemma total_plus {A} (f g : A -> Qc) l : total (map (fun x => f x + g x)%Qc l) = (total (map f l) + total (map g l))%Qc.
Proof. induction l as [|x l IH]; cbn [app map]; rewrite ?qtotal_cons; [unfold total; cbn [foldr]; ring|]. rewrite IH. ring. Qed.

Lemma qc_of_nat_S n : qc (Z.of_nat (S n)) = (1 + qc (Z.of_nat n))%Qc.
Proof. unfold qc. rewrite Nat2Z.inj_succ, <- Z.add_1_l, Z2Qc_inj_add. done. Qed.

(** ** Values *)

Lemma all_finite_ok l name v : all_finite l name = Ok v <-> l = map Some v.
Proof.
  unfold all_finite. split.
  - destruct (mapM id l) as [w|] eqn:E; [|done]. intros [= <-]. apply mapM_Some in E. induction E as [|x y l w Hx _ IH]; [done|]. cbn in *. by rewrite Hx, IH.
  - intros ->. assert (mapM id (map Some v) = Some v) as ->; [|done]. induction v as [|x v IH]; [done|]. cbn. by rewrite IH.
Qed.

Lemma map_Some_inj {A} (l k : list A) : map Some l = map Some k -> l = k.
Proof. revert k. induction l as [|x l IH]; intros [|y k]; try done. cbn. intros [= -> E]. f_equal. by apply IH. Qed.

Lemma all_finite_concat (ls : list (list num)) name v : all_finite (concat ls) name = Ok v <->
  exists vs, v = concat vs /\ ls = map (map Some) vs.
Proof.
  rewrite all_finite_ok. revert v. induction ls as [|l ls IH]; intros v; cbn.
  - split; [|by intros ([|? ?] & -> & ?)]. intros E. exists []. by destruct v.
  - split.
    + intros E. symmetry in E. apply map_eq_app in E as (v1 & v2 & -> & <- & E). symmetry in E. apply IH in E as (vs & -> & ->). by exists (v1 :: vs).
    + intros ([|v1 vs] & -> & E); [done|]. injection E as -> ->. cbn. rewrite map_app. f_equal. apply IH. by exists vs.
Qed.

(** ** Selecting the response of a row *)

Section Select.
Context {A : Type}.
#[local] Notation selected mask x := (omap (fun p => if p.1 : bool then Some p.2 else None) (zip mask x)).

Lemma select_false n (x : list A) : selected (replicate n false) x = [].
Proof. revert x. induction n as [|n IH]; intros [|a x]; try done. apply IH. Qed.

Lemma select_middle n k j (x : list A) : selected (replicate n false ++ replicate k true ++ replicate j false) x = take k (drop n x).
Proof.
  revert x. induction n as [|n IH]; intros x; cbn [replicate app].
  2: { destruct x as [|a x]; [by rewrite drop_nil, take_nil|]. apply IH. }
  - revert x. induction k as [|k IHk]; intros x; cbn [replicate app]; [apply select_false|]. destruct x as [|a x]; [done|]. cbn. f_equal. apply IHk.
Qed.
End Select.

Definition is_target (t : Z) : bool := negb (t =? -100)%Z.

Lemma response_mask n response j : Forall (fun t => (0 <= t)%Z) response ->
  map is_target ((replicate n (-100)%Z ++ response) ++ replicate j (-100)%Z) = replicate n false ++ replicate (length response) true ++ replicate j false.
Proof.
  intros Hr. rewrite !map_app, <- app_assoc. f_equal; [induction n; cbn; congruence|]. f_equal; [|induction j; cbn; congruence].
  induction Hr as [|t r Ht _ IH]; [done|]. cbn. rewrite IH. f_equal. unfold is_target. apply negb_true_iff, Z.eqb_neq. lia.
Qed.

Lemma length_input_ids prompt response : prompt <> [] -> response <> [] -> length (input_ids prompt response) = (length prompt + length response - 1)%nat.
Proof. intros Hp Hr. unfold input_ids. rewrite length_app, length_take. destruct response; [done|]. cbn. lia. Qed.

Lemma length_target_ids prompt response : prompt <> [] -> response <> [] -> length (target_ids prompt response) = length (input_ids prompt response).
Proof. intros Hp Hr. rewrite length_input_ids by done. unfold target_ids. rewrite length_app, length_replicate. destruct prompt; [done|]. cbn. lia. Qed.

(** What the target mask selects of a row of the scored tensor. *)
Lemma select_response {A} prompt response width (x : list A) : prompt <> [] -> response <> [] -> Forall (fun t => (0 <= t)%Z) response ->
  (length (input_ids prompt response) <= width)%nat ->
  omap (fun p => if p.1 : bool then Some p.2 else None) (zip (map is_target (padded (-100)%Z width (target_ids prompt response))) x)
  = drop (length prompt - 1) (take (length (input_ids prompt response)) x).
Proof.
  intros Hp Hr Hv Hw. unfold padded, target_ids. rewrite response_mask, select_middle, length_input_ids by done.
  rewrite take_drop_commute. do 2 f_equal. destruct prompt; [done|]. cbn. lia.
Qed.

Lemma split_sizes_concat {A} (ls : list (list A)) : split_sizes (map length ls) (concat ls) = ls.
Proof. induction ls as [|l ls IH]; [done|]. cbn. by rewrite take_app_length, drop_app_length, IH. Qed.

Lemma gathered_length log_softmax t rows targets : length rows = length targets -> length (gathered log_softmax t rows targets) = length targets.
Proof. intros H. unfold gathered. by rewrite length_zip_with, H, Nat.min_id. Qed.

Lemma gathered_app log_softmax t rows rows' targets targets' : length rows = length targets ->
  gathered log_softmax t (rows ++ rows') (targets ++ targets') = gathered log_softmax t rows targets ++ gathered log_softmax t rows' targets'.
Proof. intros H. unfold gathered. by apply zip_with_app. Qed.

Lemma valid_ids_ok name l : valid_ids name l = Ok l <-> l <> [] /\ Forall (fun t => (0 <= t)%Z) l.
Proof.
  unfold valid_ids. case_bool_decide as E; [naive_solver|]. destruct (forallb _ l) eqn:F; cbn.
  - split; [|done]. intros _. split; [done|]. apply Forall_forall. intros t Ht. rewrite forallb_forall in F. apply list_elem_of_In, F in Ht. lia.
  - split; [done|]. intros [_ Hf]. rewrite <- not_true_iff_false, forallb_forall in F. destruct F. intros t Ht%list_elem_of_In.
    rewrite Forall_forall in Hf. specialize (Hf t Ht). lia.
Qed.

Lemma valid_ids_inv name l l' : valid_ids name l = Ok l' -> l' = l /\ valid_ids name l = Ok l.
Proof. unfold valid_ids. repeat case_match; try done. by intros [= ->]. Qed.

(** ** What the batch path relies on: right padding is invisible

    The scores of a row at its own positions depend only on that row, and the
    fused scores are defined for every batch. *)
Class RowModel (m : policy) := {
  row_scores : list Z -> list Z -> Qc -> list num;
  row_logits : list Z -> list (list num);
  vocab : nat;
  vocab_pos : (0 < vocab)%nat;
  no_hook : hook m = None;
  scores_law : forall f rows width t, token_scores m = Some f ->
    Forall (fun r => r.1 <> [] /\ length r.2 = length r.1 /\ (length r.1 <= width)%nat) rows -> exists s,
    f (map (padded 0%Z width) (map fst rows)) (map (fun r => padded false width (map (fun _ => true) r)) (map fst rows))
      (map (padded (-100)%Z width) (map snd rows)) t = Ok s
    /\ Forall2 (fun x r => length x = width /\ take (length r.1) x = row_scores r.1 r.2 t) s rows;
  logits_law : forall rows width,
    Forall (fun r => r <> [] /\ (length r <= width)%nat) rows -> exists s,
    logits m (map (padded 0%Z width) rows) (map (fun r => padded false width (map (fun _ => true) r)) rows) = Ok s
    /\ Forall2 (fun x r => length x = width /\ Forall (fun v => length v = vocab) x /\ take (length r) x = row_logits r) s rows }.

Section Scores.
Context (log_softmax : list num -> list num) (m : policy) `{!RowModel m}.

(** A prompt and its response. *)
Definition usable (x : list Z * list Z) : Prop :=
  x.1 <> [] /\ x.2 <> [] /\ Forall (fun t => (0 <= t)%Z) x.1 /\ Forall (fun t => (0 <= t)%Z) x.2.

Definition fused : bool := bool_decide (is_Some (token_scores m)).

(** The log probabilities of a response, before they are known to be finite. *)
Definition own_scores (t : Qc) (x : list Z * list Z) : list num :=
  if fused then drop (length x.1 - 1) (row_scores (input_ids x.1 x.2) (target_ids x.1 x.2) t)
  else gathered log_softmax t (drop (length x.1 - 1) (row_logits (input_ids x.1 x.2))) x.2.

Definition too_large (responses : list (list Z)) : bool := negb fused && outside_vocabulary (concat responses) (Z.of_nat vocab).

Lemma input_ids_nonempty x : usable x -> input_ids x.1 x.2 <> [].
Proof. intros (Hp & _). unfold input_ids. by destruct x.1. Qed.

Lemma own_scores_length t x : usable x -> length (own_scores t x) = length x.2.
Proof.
  intros Hx. pose proof Hx as (Hp & Hr & _ & _). pose proof (input_ids_nonempty x Hx) as Hne. unfold own_scores, fused.
  pose proof (length_input_ids x.1 x.2 Hp Hr) as Hl. assert (0 < length x.1)%nat by (destruct x.1; [done|cbn; lia]). assert (0 < length x.2)%nat by (destruct x.2; [done|cbn; lia]).
  case_bool_decide as E.
  - destruct E as [f Ef]. destruct (scores_law f [(input_ids x.1 x.2, target_ids x.1 x.2)] (length (input_ids x.1 x.2)) t Ef) as (s & _ & Hs).
    { constructor; [|done]. cbn. rewrite length_target_ids by done. done. }
    apply Forall2_cons_inv_r in Hs as (y & s' & [Hy1 Hy2] & _ & ->). cbn in *. rewrite <- Hy2, length_drop, length_take. lia.
  - apply gathered_length. destruct (logits_law [input_ids x.1 x.2] (length (input_ids x.1 x.2))) as (s & _ & Hs); [by repeat constructor|].
    apply Forall2_cons_inv_r in Hs as (y & s' & (Hy1 & _ & Hy2) & _ & ->). rewrite <- Hy2, length_drop, length_take. lia.
Qed.

Lemma padded_self {A} (x : A) l : padded x (length l) l = l.
Proof. unfold padded. by rewrite Nat.sub_diag, app_nil_r. Qed.

Lemma padded_mask (l : list Z) : padded false (length l) (map (fun _ => true) l) = map (fun _ => true) l.
Proof. rewrite <- (length_map (fun _ => true) l) at 1. apply padded_self. Qed.

Lemma single_scored t x : usable x -> qle t 0 = false ->
  response_log_probs log_softmax m x.1 x.2 t
  = if too_large [x.2] then Err (ValueError "response token ID is outside the model vocabulary") else all_finite (own_scores t x) "response log probabilities".
Proof.
  intros Hx Ht. pose proof Hx as (Hp & Hr & Hpv & Hrv). pose proof (input_ids_nonempty x Hx) as Hne. unfold response_log_probs, Grpo.validate_temperature, raise_if.
  rewrite Ht, (proj2 (valid_ids_ok "prompt_ids" x.1)), (proj2 (valid_ids_ok "response_ids" x.2)), no_hook by done.
  unfold too_large, own_scores, fused. destruct (token_scores m) as [f|] eqn:Ef.
  - rewrite bool_decide_eq_true_2 by eauto. destruct (scores_law f [(input_ids x.1 x.2, target_ids x.1 x.2)] (length (input_ids x.1 x.2)) t Ef) as (s & Hs & Hf).
    { constructor; [|done]. cbn. by rewrite length_target_ids. }
    cbn [map fst snd] in Hs. rewrite padded_mask, padded_self in Hs. rewrite <- (length_target_ids x.1 x.2), padded_self in Hs by done. rewrite Hs.
    apply Forall2_cons_inv_r in Hf as (y & s' & [Hy1 Hy2] & Hn & ->). apply Forall2_nil_inv_r in Hn as ->. cbn in Hy1, Hy2. unfold same_shape. cbn [map].
    rewrite Hy1, bool_decide_eq_true_2 by done. cbn [negb andb lookup_total list_lookup_total]. rewrite <- Hy1, firstn_all in Hy2. by rewrite Hy2.
  - rewrite bool_decide_eq_false_2 by (intros [? ?]; done). destruct (logits_law [input_ids x.1 x.2] (length (input_ids x.1 x.2))) as (s & Hs & Hf); [by repeat constructor|].
    cbn [map] in Hs. rewrite padded_mask, padded_self in Hs. rewrite Hs.
    apply Forall2_cons_inv_r in Hf as (y & s' & (Hy1 & Hy2 & Hy3) & Hn & ->). apply Forall2_nil_inv_r in Hn as ->. rewrite <- Hy1, firstn_all in Hy3.
    assert (vocabulary [y] = Z.of_nat vocab) as Hv. { unfold vocabulary. destruct y as [|v y]; [by destruct (input_ids x.1 x.2)|]. by apply Forall_cons in Hy2 as [-> _]. }
    pose proof vocab_pos. assert (y <> []) by (intros ->; by destruct (input_ids x.1 x.2)). cbn [length Nat.eqb negb lookup_total list_lookup_total orb]. rewrite Hv, bool_decide_eq_false_2 by done.
    destruct (Z.eqb_spec (Z.of_nat vocab) 0); [lia|]. unfold same_shape. cbn [map orb]. rewrite Hy1, bool_decide_eq_true_2 by done. cbn [negb andb concat].
    rewrite app_nil_r. destruct (outside_vocabulary _ _); [done|]. by rewrite Hy3.
Qed.

(** The padded batch: widths, masks and what they select. *)
Lemma masked_rows {A} (xs : list (list Z * list Z)) width (s : list (list A)) : Forall usable xs ->
  Forall (fun x => (length (input_ids x.1 x.2) <= width)%nat) xs -> length s = length xs ->
  masked (map (map is_target) (map (padded (-100)%Z width) (map (fun x => target_ids x.1 x.2) xs))) s
  = concat (zip_with (fun x row => drop (length x.1 - 1) (take (length (input_ids x.1 x.2)) row)) xs s).
Proof.
  intros Hu Hw. revert s. induction xs as [|x xs IH]; intros [|y s] Hl; try done. apply Forall_cons in Hu as [Hx Hu]. apply Forall_cons in Hw as [Hwx Hw].
  unfold masked. cbn [map zip_with concat]. destruct Hx as (Hp & Hr & _ & Hv). rewrite (select_response x.1 x.2 width y) by done. f_equal. apply IH; [done|done|]. by injection Hl.
Qed.

Lemma zip_with_pairs {A B C} (f : A -> B -> C) (xs : list (A * B)) : zip_with f (map fst xs) (map snd xs) = map (fun x => f x.1 x.2) xs.
Proof. induction xs as [|x xs IH]; [done|]. cbn. by rewrite IH. Qed.

Lemma traverse_valid name l : Forall (fun r => valid_ids name r = Ok r) l -> traverse (valid_ids name) l = Ok l.
Proof. intros H. apply traverse_ok. induction H; by constructor. Qed.

Definition rows_of (xs : list (list Z * list Z)) : list (list Z) := map (fun x => input_ids x.1 x.2) xs.

Definition batch_layout (xs : list (list Z * list Z)) : layout :=
  let lengths := map length (rows_of xs) in
  {| input_shape := (length xs, max_list lengths); valid_input_tokens := sum_list lengths;
     padded_input_tokens := length xs * max_list lengths - sum_list lengths; response_tokens := sum_list (map length (map snd xs)); model_forward_calls := 1 |}.

Lemma max_list_bound l n : n ∈ l -> (n <= max_list l)%nat.
Proof. induction l as [|x l IH]; [by intros ?%elem_of_nil|]. intros [->|H]%elem_of_cons; cbn; [lia|]. specialize (IH H). lia. Qed.

Lemma rows_bounded xs : Forall (fun x => (length (input_ids x.1 x.2) <= max_list (map length (rows_of xs)))%nat) xs.
Proof.
  apply Forall_forall. intros x Hx. apply max_list_bound, list_elem_of_fmap. exists (input_ids x.1 x.2). split; [done|]. apply list_elem_of_fmap. by exists x.
Qed.

Lemma row_logits_length r : r <> [] -> length (row_logits r) = length r.
Proof.
  intros Hr. destruct (logits_law [r] (length r)) as (s & _ & Hs); [by repeat constructor|].
  apply Forall2_cons_inv_r in Hs as (y & s' & (Hy1 & _ & Hy2) & _ & ->). by rewrite <- Hy2, <- Hy1, firstn_all.
Qed.

(** What the forward pass selects. *)
Lemma forward_selects t xs : Forall usable xs ->
  let width := max_list (map length (rows_of xs)) in
  let tokens := map (padded 0%Z width) (rows_of xs) in
  let token_mask := map (fun row => padded false width (map (fun _ => true) row)) (rows_of xs) in
  let targets := map (padded (-100)%Z width) (map (fun x => target_ids x.1 x.2) xs) in
  match token_scores m with
  | Some f => exists s, f tokens token_mask targets t = Ok s /\ same_shape s tokens = true
      /\ masked (map (map is_target) targets) s = concat (map (own_scores t) xs)
  | None => exists l, logits m tokens token_mask = Ok l /\ same_shape l tokens = true /\ (xs <> [] -> vocabulary l = Z.of_nat vocab)
      /\ masked (map (map is_target) targets) targets = concat (map snd xs)
      /\ gathered log_softmax t (masked (map (map is_target) targets) l) (concat (map snd xs)) = concat (map (own_scores t) xs)
  end.
Proof.
  intros Hu width tokens token_mask targets. pose proof (rows_bounded xs) as Hb. fold width in Hb. clearbody width.
  assert (map length tokens = map (fun _ => width) xs) as Hlen.
  { unfold tokens, rows_of. rewrite !map_map. apply map_ext_in. intros x Hx%list_elem_of_In. pose proof (proj1 (Forall_forall _ _) Hb x Hx) as Hle. cbn in Hle.
    unfold padded. rewrite length_app, length_replicate. lia. }
  destruct (token_scores m) as [f|] eqn:Ef.
  - destruct (scores_law f (map (fun x => (input_ids x.1 x.2, target_ids x.1 x.2)) xs) width t Ef) as (s & Hs & Hf).
    { apply Forall_fmap, Forall_forall. intros x Hx. pose proof (proj1 (Forall_forall _ _) Hu x Hx) as Hux. pose proof (proj1 (Forall_forall _ _) Hb x Hx). cbn.
      split; [by apply input_ids_nonempty|]. split; [apply length_target_ids; apply Hux|done]. }
    rewrite !map_map in Hs. cbn [fst snd] in Hs. exists s. split; [unfold tokens, token_mask, targets, rows_of; rewrite !map_map; exact Hs|]. apply Forall2_fmap_r in Hf.
    assert (length s = length xs) as Hls by (by apply Forall2_length in Hf). split.
    + apply bool_decide_eq_true. rewrite Hlen. clear -Hf. induction Hf as [|y x s xs0 [Hy _] _ IH]; [done|]. cbn. by rewrite Hy, IH.
    + unfold targets. rewrite masked_rows by done. f_equal. unfold own_scores, fused. rewrite bool_decide_eq_true_2 by eauto.
      clear -Hf. induction Hf as [|y x s xs0 [_ Hy] _ IH]; [done|]. cbn in *. by rewrite Hy, IH.
  - destruct (logits_law (rows_of xs) width) as (s & Hs & Hf).
    { apply Forall_fmap, Forall_forall. intros x Hx. pose proof (proj1 (Forall_forall _ _) Hu x Hx) as Hux. pose proof (proj1 (Forall_forall _ _) Hb x Hx). cbn.
      split; [by apply input_ids_nonempty|done]. }
    exists s. split; [exact Hs|]. unfold rows_of in Hf. apply Forall2_fmap_r in Hf. assert (length s = length xs) as Hls by (by apply Forall2_length in Hf). split; [|split; [|split]].
    + apply bool_decide_eq_true. rewrite Hlen. clear -Hf. induction Hf as [|y x s xs0 [Hy _] _ IH]; [done|]. cbn. by rewrite Hy, IH.
    + intros Hne. destruct Hf as [|y x s xs0 (Hy & Hv & Ht) Hf]; [done|]. unfold vocabulary. destruct y as [|v y]; [|by apply Forall_cons in Hv as [-> _]].
      apply Forall_cons in Hu as [Hx _]. apply Forall_cons in Hb as [Hbx _]. cbn in Hy, Hbx. pose proof (input_ids_nonempty x Hx). destruct (input_ids x.1 x.2); [done|]. cbn in Hbx. lia.
    + unfold targets at 1. rewrite masked_rows; [|done|done|by unfold targets; rewrite !length_map]. f_equal. unfold targets. clear -Hu Hb. induction xs as [|x xs IH]; [done|].
      apply Forall_cons in Hu as [Hx Hu]. apply Forall_cons in Hb as [Hbx Hb]. cbn [map zip_with]. rewrite IH by done. f_equal. destruct Hx as (Hp & Hr & _).
      unfold padded. rewrite <- (length_target_ids x.1 x.2), take_app_length by done. unfold target_ids.
      rewrite <- (length_replicate (length x.1 - 1) (-100)%Z) at 1. apply drop_app_length.
    + unfold targets. rewrite masked_rows by done. unfold own_scores, fused. rewrite bool_decide_eq_false_2 by (rewrite Ef; intros [? ?]; done). clear -Hf Hu.
      induction Hf as [|y x s xs0 (_ & _ & Hy) Hf IH]; [done|]. apply Forall_cons in Hu as [Hx Hu]. cbn [map zip_with concat]. rewrite <- IH by done. rewrite Hy.
      apply gathered_app. pose proof (input_ids_nonempty x Hx). destruct Hx as (Hp & Hr & _). rewrite length_drop, row_logits_length, length_input_ids by done.
      assert (0 < length x.1)%nat by (destruct x.1; [done|cbn; lia]). lia.
Qed.

Lemma batch_scored t xs : xs <> [] -> Forall usable xs -> qle t 0 = false ->
  response_log_probs_batch log_softmax m (map fst xs) (map snd xs) t
  = if too_large (map snd xs) then Err (ValueError "response token ID is outside the model vocabulary") else
    match all_finite (concat (map (own_scores t) xs)) "response log probabilities" with
    | Ok v => if nonpositive v then Ok (split_sizes (map length (map snd xs)) v, batch_layout xs)
              else Err (ValueError "response log probabilities must be nonpositive")
    | Err e => Err e
    end.
Proof.
  intros Hne Hu Ht. unfold response_log_probs_batch, Grpo.validate_temperature, raise_if. rewrite Ht, !length_map, Nat.eqb_refl, bool_decide_eq_false_2 by (by destruct xs).
  cbn [orb negb]. rewrite !traverse_valid.
  2,3: apply Forall_fmap, (Forall_impl _ _ _ Hu); intros x (?&?&?&?); by apply valid_ids_ok.
  rewrite no_hook, bool_decide_eq_false_2 by (intros [? ?]; done). rewrite !zip_with_pairs. fold (rows_of xs).
  pose proof (forward_selects t xs Hu) as Hf. cbv zeta in Hf. fold is_target.
  change (map (fun t0 : Z => negb (t0 =? -100)%Z)) with (map is_target). unfold too_large, fused. destruct (token_scores m) as [f|].
  - destruct Hf as (s & -> & -> & ->). rewrite bool_decide_eq_true_2 by eauto. cbn [negb andb]. destruct (all_finite _ _) as [v|]; [|done].
    destruct (nonpositive v); [|done]. cbn [negb]. unfold batch_layout. by rewrite (length_map (fun x => input_ids x.1 x.2)).
  - destruct Hf as (l & -> & -> & Hv & -> & ->). rewrite Hv, bool_decide_eq_false_2 by (done || by intros [? ?]). pose proof vocab_pos.
    destruct (Z.eqb_spec (Z.of_nat vocab) 0); [lia|]. cbn [negb andb orb]. destruct (outside_vocabulary _ _); [done|]. destruct (all_finite _ _) as [v|]; [|done].
    destruct (nonpositive v); [|done]. cbn [negb]. unfold batch_layout. by rewrite (length_map (fun x => input_ids x.1 x.2)).
Qed.

Lemma outside_concat ls size : outside_vocabulary (concat ls) size = existsb (fun l => outside_vocabulary l size) ls.
Proof. induction ls as [|l ls IH]; [done|]. cbn [concat existsb]. unfold outside_vocabulary in *. by rewrite existsb_app, IH. Qed.

Lemma nonpositive_concat ls : nonpositive (concat ls) = true <-> Forall (fun l => nonpositive l = true) ls.
Proof. unfold nonpositive. induction ls as [|l ls IH]; [by split|]. cbn [concat]. rewrite forallb_app, andb_true_iff, IH. split; [by intros [? ?]; constructor|by intros [? ?]%Forall_cons]. Qed.

(** A batch is scored exactly when each of its responses can be scored alone
    with nonpositive values, and those are its values. *)
Lemma batch_iff_singles t xs : xs <> [] -> Forall usable xs -> qle t 0 = false -> forall vs l,
  response_log_probs_batch log_softmax m (map fst xs) (map snd xs) t = Ok (vs, l) <->
  l = batch_layout xs /\ Forall2 (fun x v => response_log_probs log_softmax m x.1 x.2 t = Ok v /\ nonpositive v = true) xs vs.
Proof.
  intros Hne Hu Ht vs l. rewrite batch_scored by done.
  assert (forall x v, usable x -> response_log_probs log_softmax m x.1 x.2 t = Ok v <-> negb fused && outside_vocabulary x.2 (Z.of_nat vocab) = false /\ own_scores t x = map Some v) as Hs.
  { intros x v Hx. rewrite single_scored by done. unfold too_large. cbn [concat]. rewrite app_nil_r. destruct (_ && _); [naive_solver|]. rewrite all_finite_ok. naive_solver. }
  assert (too_large (map snd xs) = false <-> Forall (fun x => negb fused && outside_vocabulary x.2 (Z.of_nat vocab) = false) xs) as Hl.
  { unfold too_large. rewrite outside_concat. destruct (negb fused); cbn [andb]; [|split; [by intros _; apply Forall_true|done]]. rewrite existsb_false. apply Forall_fmap. }
  split.
  - destruct (too_large _); [done|]. destruct (all_finite _ _) as [v|] eqn:Ef; [|done]. destruct (nonpositive v) eqn:Ep; [|done]. intros [= <- <-]. split; [done|].
    apply all_finite_concat in Ef as (ws & -> & Hw). apply nonpositive_concat in Ep. pose proof (proj1 Hl eq_refl) as Hb. clear Hl.
    assert (map length (map snd xs) = map length ws) as ->.
    { assert (map length (map (own_scores t) xs) = map length ws) as <- by (rewrite Hw, map_map; apply map_ext; intros; by rewrite length_map).
      rewrite !map_map. apply map_ext_in. intros x Hx%list_elem_of_In. symmetry. apply own_scores_length. by apply (proj1 (Forall_forall _ _) Hu). }
    rewrite split_sizes_concat. clear Hne Ht. revert ws Hw Ep. induction xs as [|x xs IH]; intros [|w ws] Hw Ep; try done. injection Hw as Hx Hw. apply Forall_cons in Ep as [Ew Ep].
    apply Forall_cons in Hu as [Hux Hu]. apply Forall_cons in Hb as [Hbx Hb]. constructor; [|by apply IH]. split; [|done]. by apply Hs.
  - intros [-> Hf]. assert (too_large (map snd xs) = false) as ->.
    { apply Hl. apply Forall_forall. intros x Hx. apply list_elem_of_lookup in Hx as [i Hi]. destruct (Forall2_lookup_l _ _ _ _ _ Hf Hi) as (v & _ & Hv & _).
      apply Hs in Hv; [apply Hv|]. by eapply Forall_lookup_1. }
    assert (map (own_scores t) xs = map (map Some) vs) as ->.
    { clear Hl Hne Ht. induction Hf as [|x v xs vs [Hv _] Hf IH]; [done|]. apply Forall_cons in Hu as [Hx Hu]. cbn. rewrite IH by done. f_equal. by apply Hs in Hv as [_ ?]. }
    rewrite (proj2 (all_finite_concat _ _ (concat vs))) by eauto. rewrite (proj2 (nonpositive_concat vs)).
    2: { clear -Hf. induction Hf as [|x v xs vs [_ Hv] Hf IH]; by constructor. }
    f_equal. f_equal. assert (map length (map snd xs) = map length vs) as ->; [|apply split_sizes_concat].
    clear Hl Hne Ht. induction Hf as [|x v xs vs [Hv _] Hf IH]; [done|]. apply Forall_cons in Hu as [Hx Hu]. cbn [map]. rewrite IH by done. f_equal.
    apply Hs in Hv as [_ Hv]; [|done]. by rewrite <- (own_scores_length t x Hx), Hv, length_map.
Qed.
End Scores.

(** ** Microbatches *)

Section Training.
Context (log_softmax : list num -> list num) (exp expm1 : Qc -> num) (args : train_args).
#[local] Notation single m x := (response_log_probs log_softmax m x.1 x.2 (temperature args)).

Lemma single_usable m x v `{!RowModel m} : single m x = Ok v -> usable x /\ qle (temperature args) 0 = false /\ length v = length x.2.
Proof.
  intros Hv. assert (usable x /\ qle (temperature args) 0 = false) as [Hx Ht].
  { unfold response_log_probs, Grpo.validate_temperature, raise_if in Hv. destruct (qle _ _); [done|]. destruct (valid_ids _ x.1) as [p|] eqn:E1; [|done]. destruct (valid_ids _ x.2) as [r|] eqn:E2; [|done].
    apply valid_ids_inv in E1 as [_ [? ?]%valid_ids_ok]. apply valid_ids_inv in E2 as [_ [? ?]%valid_ids_ok]. done. }
  split; [done|]. split; [done|]. rewrite (single_scored log_softmax m (temperature args) x Hx Ht) in Hv. destruct (too_large _ _); [done|]. apply all_finite_ok in Hv.
  by rewrite <- (own_scores_length log_softmax m (temperature args) x Hx), Hv, length_map.
Qed.

Lemma batch_usable m xs vs l : response_log_probs_batch log_softmax m (map fst xs) (map snd xs) (temperature args) = Ok (vs, l) ->
  xs <> [] /\ Forall usable xs /\ qle (temperature args) 0 = false.
Proof.
  unfold response_log_probs_batch, Grpo.validate_temperature, raise_if. destruct (qle _ _); [done|]. destruct (_ || _) eqn:En; [done|]. destruct (traverse _ (map fst xs)) as [ps|] eqn:E1; [|done].
  destruct (traverse _ (map snd xs)) as [rs|] eqn:E2; [|done]. intros _. destr_bool. split; [by intros ->|]. split; [|done].
  apply traverse_inv in E1, E2. apply Forall_forall. intros x [i Hi]%list_elem_of_lookup.
  assert (map fst xs !! i = Some x.1 /\ map snd xs !! i = Some x.2) as [H1 H2] by (by rewrite !list_lookup_fmap, Hi).
  destruct (Forall2_lookup_l _ _ _ _ _ E1 H1) as (p & _ & Hp). destruct (Forall2_lookup_l _ _ _ _ _ E2 H2) as (r & _ & Hr).
  apply valid_ids_inv in Hp as [_ [? ?]%valid_ids_ok]. apply valid_ids_inv in Hr as [_ [? ?]%valid_ids_ok]. done.
Qed.

Lemma score_check (xs : list (list Z * list Z)) (vs : list (list Qc)) l : length vs = length xs -> l = batch_layout xs -> map length vs = map length (map snd xs) ->
  (negb (length vs =? length (map fst xs))%nat || negb (bool_decide (input_shape l = (length (map fst xs), max_list (map length (zip_with input_ids (map fst xs) (map snd xs))))))
   || negb (valid_input_tokens l =? sum_list (map length (zip_with input_ids (map fst xs) (map snd xs))))%nat
   || negb (padded_input_tokens l =? length (map fst xs) * max_list (map length (zip_with input_ids (map fst xs) (map snd xs))) - sum_list (map length (zip_with input_ids (map fst xs) (map snd xs))))%nat
   || negb (response_tokens l =? sum_list (map length (map snd xs)))%nat || negb (model_forward_calls l =? 1)%nat
   || negb (bool_decide (map length vs = map length (map snd xs)))) = false.
Proof.
  intros Hv -> Hl. rewrite zip_with_pairs. fold (rows_of xs). unfold batch_layout. cbn [input_shape valid_input_tokens padded_input_tokens response_tokens model_forward_calls].
  rewrite Hv, !length_map, !Nat.eqb_refl, !bool_decide_eq_true_2 by done. done.
Qed.

Lemma score_sound m xs vs `{!RowModel m} : score log_softmax args m (map fst xs) (map snd xs) = Ok vs -> Forall2 (fun x v => single m x = Ok v) xs vs.
Proof.
  unfold score. destruct xs as [|x [|y xs]].
  - cbn [map]. unfold response_log_probs_batch. by destruct (Grpo.validate_temperature _).
  - cbn [map]. destruct (single m x) as [v|] eqn:Ev; [|done]. destruct (_ || _); [done|]. intros [= <-]. by repeat constructor.
  - set (xs' := x :: y :: xs). change (map fst xs') with (x.1 :: y.1 :: map fst xs). change (map snd xs') with (x.2 :: y.2 :: map snd xs). cbn iota.
    change (x.1 :: y.1 :: map fst xs) with (map fst xs'). change (x.2 :: y.2 :: map snd xs) with (map snd xs').
    destruct (response_log_probs_batch _ _ _ _ _) as [[ws l]|] eqn:Eb; [|done]. destruct (_ || _); [done|]. intros [= <-].
    destruct (batch_usable m xs' ws l Eb) as (Hne & Hu & Ht). apply (batch_iff_singles log_softmax m (temperature args) xs' Hne Hu Ht) in Eb as [_ Hf].
    eapply Forall2_impl; [exact Hf|]. by intros ?? [? ?].
Qed.

Lemma score_complete m xs vs `{!RowModel m} : xs <> [] -> Forall2 (fun x v => single m x = Ok v /\ nonpositive v = true) xs vs ->
  score log_softmax args m (map fst xs) (map snd xs) = Ok vs.
Proof.
  intros Hne Hf. assert (map length vs = map length (map snd xs)) as Hlen.
  { clear Hne. induction Hf as [|x v xs vs [Hv _] Hf IH]; [done|]. cbn [map]. rewrite IH. f_equal. by apply single_usable in Hv as (_ & _ & ->). }
  assert (length vs = length xs) as Hl by (by apply Forall2_length in Hf). pose proof (score_check xs vs (batch_layout xs) Hl eq_refl Hlen) as Hc.
  unfold score. destruct xs as [|x [|y xs]]; [done| |].
  - apply Forall2_cons_inv_l in Hf as (v & vs' & [Hv _] & Hn & ->). apply Forall2_nil_inv_l in Hn as ->. cbn [map] in *. rewrite Hv.
    assert ({| input_shape := (1%nat, max_list [length (input_ids x.1 x.2)]); valid_input_tokens := sum_list [length (input_ids x.1 x.2)]; padded_input_tokens := 0; response_tokens := length x.2; model_forward_calls := 1 |}
      = batch_layout [x]) as El by (unfold batch_layout; cbn; f_equal; lia).
    cbn [zip_with map]. rewrite El. cbn [zip_with map] in Hc. by rewrite Hc.
  - set (xs' := x :: y :: xs) in *. change (map fst xs') with (x.1 :: y.1 :: map fst xs). change (map snd xs') with (x.2 :: y.2 :: map snd xs). cbn iota.
    change (x.1 :: y.1 :: map fst xs) with (map fst xs'). change (x.2 :: y.2 :: map snd xs) with (map snd xs').
    assert (Forall usable xs' /\ qle (temperature args) 0 = false) as [Hu Ht].
    { split; [|apply Forall2_cons_inv_l in Hf as (v & ? & [Hv _] & _); by apply single_usable in Hv as (_ & ? & _)].
      clear -Hf RowModel0. clearbody xs'. induction Hf as [|z v zs vs [Hv _] Hf IH]; [done|]. constructor; [by apply single_usable in Hv as (? & _)|done]. }
    rewrite (proj2 (batch_iff_singles log_softmax m (temperature args) xs' Hne Hu Ht vs (batch_layout xs')) (conj eq_refl Hf)). by rewrite Hc.
Qed.

Context (current native_old reference : policy) `{!RowModel current} `{!RowModel native_old} `{!RowModel reference}.
Implicit Types (results : list rollout_result) (advantages : list num).
#[local] Notation corrected := (corrected args).

Definition ids_of (r : rollout_result) : list Z * list Z := (context_token_ids r, action_token_ids r).

(** The scores of one response, alone, under the models its loss uses. *)
Definition scored_alone (ok : list Qc -> bool) (r : rollout_result) (v : list Qc) (old base : option (list Qc)) : Prop :=
  single current (ids_of r) = Ok v /\ ok v = true
  /\ match old with Some o => corrected = true /\ single native_old (ids_of r) = Ok o /\ ok o = true | None => corrected = false end
  /\ match base with Some b => kl_beta args <> 0%Qc /\ single reference (ids_of r) = Ok b /\ ok b = true | None => kl_beta args = 0%Qc end.

(** The loss of one response, scored alone. *)
Definition alone (ok : list Qc -> bool) (r : rollout_result) (a : num) (l : Qc * metrics_row) : Prop :=
  exists v old base, scored_alone ok r v old base /\ response_loss exp expm1 args r a v old base = Ok l.

Definition entry (ok : list Qc -> bool) results advantages (i : nat) (x : nat * (Qc * metrics_row)) : Prop :=
  x.1 = i /\ alone ok (nth i results no_result) (nth i advantages None) x.2.

Lemma alone_det ok ok' r a l l' : alone ok r a l -> alone ok' r a l' -> l = l'.
Proof.
  intros (v & o & b & (Hv & _ & Ho & Hb) & Hl) (v' & o' & b' & (Hv' & _ & Ho' & Hb') & Hl'). assert (v = v') as <- by congruence.
  assert (o = o') as <- by (destruct o, o'; naive_solver congruence). assert (b = b') as <- by (destruct b, b'; naive_solver congruence). congruence.
Qed.

(** An optional score: [None] for every response where it is not wanted. *)
Lemma optional_sound (wanted : bool) m results indices o `{!RowModel m} :
  (if wanted then Ok (map (fun _ => None) indices)
   else v <-? score log_softmax args m (map context_token_ids (map (fun i => nth i results no_result) indices)) (map action_token_ids (map (fun i => nth i results no_result) indices));
        Ok (map Some v)) = Ok o ->
  Forall2 (fun i x => match x with Some v => wanted = false /\ single m (ids_of (nth i results no_result)) = Ok v | None => wanted = true end) indices o.
Proof.
  destruct wanted; [intros [= <-]; induction indices; by constructor|].
  destruct (score _ _ _ _ _) as [v|] eqn:E; [|done]. intros [= <-].
  assert (Forall2 (fun x v => single m x = Ok v) (map (fun i => ids_of (nth i results no_result)) indices) v) as Hf.
  { apply score_sound; [done|]. rewrite !map_map in *. exact E. }
  clear E. apply Forall2_fmap_l in Hf. apply Forall2_fmap_r. eapply Forall2_impl; [exact Hf|]. done.
Qed.

Lemma optional_complete (wanted : bool) m results indices o `{!RowModel m} : indices <> [] ->
  Forall2 (fun i x => match x with Some v => wanted = false /\ single m (ids_of (nth i results no_result)) = Ok v /\ nonpositive v = true | None => wanted = true end) indices o ->
  (if wanted then Ok (map (fun _ => None) indices)
   else v <-? score log_softmax args m (map context_token_ids (map (fun i => nth i results no_result) indices)) (map action_token_ids (map (fun i => nth i results no_result) indices));
        Ok (map Some v)) = Ok o.
Proof.
  intros Hne Hf. destruct wanted.
  - f_equal. clear Hne. induction Hf as [|i x indices o Hx Hf IH]; [done|]. cbn. rewrite IH. by destruct x as [v|]; [destruct Hx|].
  - assert (exists vs, o = map Some vs /\ Forall2 (fun i v => single m (ids_of (nth i results no_result)) = Ok v /\ nonpositive v = true) indices vs) as (vs & -> & Hvs).
    { clear Hne. induction Hf as [|i x indices o Hx Hf IH]; [by exists []|]. destruct IH as (vs & -> & Hvs). destruct x as [v|]; [|done]. destruct Hx as (_ & Hx). exists (v :: vs). split; [done|by constructor]. }
    rewrite !map_map. change (map (fun x => context_token_ids (nth x results no_result)) indices) with (map (fun x => (ids_of (nth x results no_result)).1) indices).
    change (map (fun x => action_token_ids (nth x results no_result)) indices) with (map (fun x => (ids_of (nth x results no_result)).2) indices).
    rewrite <- !(map_map (fun i => ids_of (nth i results no_result))). rewrite (score_complete m (map (fun i => ids_of (nth i results no_result)) indices) vs); [done|by destruct indices|].
    by apply Forall2_fmap_l.
Qed.

Lemma microbatch_sound results advantages indices ps :
  train_microbatch log_softmax exp expm1 args current native_old reference results advantages indices = Ok ps ->
  Forall2 (entry (fun _ => true) results advantages) indices ps.
Proof.
  unfold train_microbatch. cbv zeta. intros Hm. destruct (if corrected then _ else _) as [old|] eqn:Eo; [|done]. destruct (if bool_decide _ then _ else _) as [base|] eqn:Eb; [|done].
  destruct (score _ _ current _ _) as [values|] eqn:Ev; [|done]. apply traverse_inv in Hm.
  assert (Forall2 (fun i v => single current (ids_of (nth i results no_result)) = Ok v) indices values) as Hv.
  { apply (Forall2_fmap_l (fun i => ids_of (nth i results no_result)) (fun x v => single current x = Ok v)). apply score_sound; [done|]. rewrite !map_map in *. exact Ev. }
  assert (Forall2 (fun i x => match x with Some v => corrected = true /\ single native_old (ids_of (nth i results no_result)) = Ok v | None => corrected = false end) indices old) as Ho.
  { assert (Forall2 (fun i x => match x with Some v => negb corrected = false /\ single native_old (ids_of (nth i results no_result)) = Ok v | None => negb corrected = true end) indices old) as Hf
      by (apply optional_sound; [done|]; destruct corrected; exact Eo).
    eapply Forall2_impl; [exact Hf|]. intros i [v|]; destruct corrected; naive_solver. }
  apply optional_sound in Eb; [|done]. clear Ev Eo. revert old base ps Ho Eb Hm.
  induction Hv as [|i v indices values Hv Hvs IH]; intros old base ps Ho Hb Hm.
  - inversion Hm. constructor.
  - apply Forall2_cons_inv_l in Ho as (o & old' & Ho & Hos & ->). apply Forall2_cons_inv_l in Hb as (b & base' & Hb & Hbs & ->). cbn [zip zip_with] in Hm.
    apply Forall2_cons_inv_l in Hm as (p & ps' & Hp & Hps & ->). constructor; [|by eapply IH]. cbn [fst snd] in Hp. destruct (response_loss _ _ _ _ _ _ _ _) as [l|] eqn:El; [|done].
    injection Hp as <-. split; [done|]. exists v, o, b. split; [|exact El]. split; [done|]. split; [done|]. split.
    + destruct o; [|done]. by destruct Ho.
    + destruct b; [|by apply bool_decide_eq_true in Hb]. destruct Hb as [Hb ?]. by apply bool_decide_eq_false in Hb.
Qed.

Lemma microbatch_complete results advantages indices ps : indices <> [] ->
  Forall2 (entry nonpositive results advantages) indices ps ->
  train_microbatch log_softmax exp expm1 args current native_old reference results advantages indices = Ok ps.
Proof.
  intros Hne Hf. unfold train_microbatch. cbv zeta.
  assert (exists values old base, Forall2 (fun i v => single current (ids_of (nth i results no_result)) = Ok v /\ nonpositive v = true) indices values
    /\ Forall2 (fun i x => match x with Some v => negb corrected = false /\ single native_old (ids_of (nth i results no_result)) = Ok v /\ nonpositive v = true | None => negb corrected = true end) indices old
    /\ Forall2 (fun i x => match x with Some v => bool_decide (kl_beta args = 0%Qc) = false /\ single reference (ids_of (nth i results no_result)) = Ok v /\ nonpositive v = true
         | None => bool_decide (kl_beta args = 0%Qc) = true end) indices base
    /\ traverse (fun x => l <-? response_loss exp expm1 args (nth x.1.1.1 results no_result) (nth x.1.1.1 advantages None) x.1.1.2 x.1.2 x.2; Ok (x.1.1.1, l))
         (zip (zip (zip indices values) old) base) = Ok ps) as (values & old & base & Hv & Ho & Hb & Ht).
  { clear Hne. induction Hf as [|i x indices ps [Hi (v & o & b & (Hv & Hnv & Ho & Hb) & Hl)] Hf IH]; [by exists [], [], []|].
    destruct IH as (values & old & base & IHv & IHo & IHb & IHt). exists (v :: values), (o :: old), (b :: base). split; [by constructor|]. split; [|split].
    - constructor; [|done]. destruct o; [|by apply negb_true_iff]. destruct Ho as (-> & ? & ?). done.
    - constructor; [|done]. destruct b; [|by apply bool_decide_eq_true]. destruct Hb as (? & ? & ?). by rewrite bool_decide_eq_false.
    - cbn [zip zip_with traverse fst snd]. rewrite Hl. cbn [zip] in IHt. rewrite IHt. destruct x as [i' l']. cbn in Hi. by subst i'. }
  apply optional_complete in Ho; [|done|done]. apply optional_complete in Hb; [|done|done]. rewrite Hb.
  assert (score log_softmax args current (map context_token_ids (map (fun i => nth i results no_result) indices)) (map action_token_ids (map (fun i => nth i results no_result) indices)) = Ok values) as Hs.
  { apply (Forall2_fmap_l (fun i => ids_of (nth i results no_result)) (fun x v => single current x = Ok v /\ nonpositive v = true)) in Hv.
    apply score_complete in Hv; [|done|by destruct indices]. rewrite !map_map in *. exact Hv. }
  rewrite Hs. destruct corrected; cbn [negb] in Ho; [by rewrite Ho|by injection Ho as <-].
Qed.

(** Filling the list of metrics: every index once. *)
Lemma fill_rows {A} (f : nat -> A) indices (rows : list (option A)) i :
  foldl (fun rows x => <[x.1 := Some x.2]> rows) rows (map (fun i => (i, f i)) indices) !! i
  = if bool_decide (i ∈ indices /\ i < length rows)%nat then Some (Some (f i)) else rows !! i.
Proof.
  revert rows. induction indices as [|j indices IH]; intros rows; cbn [map foldl fst snd].
  - rewrite bool_decide_eq_false_2; [done|]. by intros [?%elem_of_nil _].
  - rewrite IH, length_insert. destruct (decide (i ∈ indices /\ i < length rows)%nat) as [H|H].
    + rewrite !bool_decide_eq_true_2; [done| |done]. destruct H. split; [by right|done].
    + rewrite (bool_decide_eq_false_2 _ H). destruct (decide (i = j)) as [->|Hij].
      * destruct (decide (j < length rows)%nat) as [Hl|Hl].
        -- rewrite list_lookup_insert_eq, bool_decide_eq_true_2 by done || (split; [by left|done]). done.
        -- rewrite list_insert_ge, bool_decide_eq_false_2 by (lia || by intros [_ ?]). done.
      * rewrite list_lookup_insert_ne, bool_decide_eq_false_2 by (done || (intros [[?|?]%elem_of_cons ?]; tauto)). done.
Qed.

Lemma fill_all {A} (f : nat -> A) indices n : indices ≡ₚ seq 0 n ->
  foldl (fun rows x => <[x.1 := Some x.2]> rows) (replicate n None) (map (fun i => (i, f i)) indices) = map (fun i => Some (f i)) (seq 0 n).
Proof.
  intros Hp. apply list_eq. intros i. rewrite fill_rows, length_replicate, list_lookup_fmap. destruct (decide (i < n)%nat) as [Hi|Hi].
  - rewrite bool_decide_eq_true_2, lookup_seq_lt by (done || (split; [rewrite Hp; apply elem_of_seq; lia|done])). done.
  - rewrite bool_decide_eq_false_2, lookup_seq_ge by (lia || by intros [_ ?]). by apply lookup_replicate_None, Nat.nlt_ge.
Qed.

Lemma mapM_id_Some {A} (l : list A) : mapM id (map Some l) = Some l.
Proof. induction l as [|x l IH]; [done|]. cbn. by rewrite IH. Qed.

Lemma seq_nth {A} (l : list A) d : map (fun i => nth i l d) (seq 0 (length l)) = l.
Proof.
  apply list_eq. intros i. rewrite list_lookup_fmap. destruct (decide (i < length l)%nat).
  - rewrite lookup_seq_lt by done. cbn. destruct (nth_lookup_or_length l i d) as [->|]; [done|lia].
  - rewrite lookup_seq_ge by lia. symmetry. by apply lookup_ge_None, Nat.nlt_ge.
Qed.

(** The losses of all microbatches, put back in the order of the responses. *)
Lemma reorder ok results advantages plan batches : concat plan ≡ₚ seq 0 (length results) ->
  Forall2 (fun indices ps => Forall2 (entry ok results advantages) indices ps) plan batches ->
  exists f, concat batches = map (fun i => (i, f i)) (concat plan)
    /\ Forall (fun i => alone ok (nth i results no_result) (nth i advantages None) (f i)) (seq 0 (length results)).
Proof.
  intros Hp Hf. assert (Forall2 (entry ok results advantages) (concat plan) (concat batches)) as Hc.
  { clear Hp. induction Hf; [constructor|]. cbn. by apply Forall2_app. }
  clear Hf. set (pairs := concat batches) in *. clearbody pairs. assert (NoDup (concat plan)) as Hnd by (rewrite Hp; apply NoDup_ListNoDup, seq_NoDup).
  exists (fun i => match list_find (fun x => x.1 = i) pairs with Some (_, x) => x.2 | None => (0%Qc, GrpoRow (Build_grpo_metrics 0 0 0 0 0 0)) end).
  assert (forall i x, (i, x) ∈ pairs -> alone ok (nth i results no_result) (nth i advantages None) x) as Hal.
  { intros i x [k Hk]%list_elem_of_lookup. destruct (Forall2_lookup_r _ _ _ _ _ Hc Hk) as (j & _ & Hj & Ha). cbn in *. by subst. }
  assert (map fst pairs = concat plan) as Hfst by (clear -Hc; induction Hc as [|i x l ps [Hi _] _ IH]; [done|]; cbn; by rewrite Hi, IH).
  assert (forall i x, (i, x) ∈ pairs -> list_find (fun x => x.1 = i) pairs = Some (default 0%nat (fst <$> list_find (fun x => x.1 = i) pairs), (i, x))) as Hfind.
  { intros i x Hin. destruct (list_find _ pairs) as [[k [i' x']]|] eqn:E.
    - apply list_find_Some in E as (Hk & Hi & _). cbn in *. subst i'. do 3 f_equal. eapply alone_det; apply Hal; [by eapply list_elem_of_lookup_2|done].
    - exfalso. rewrite list_find_None, Forall_forall in E. by apply (E (i, x)). }
  split.
  - rewrite <- Hfst, map_map. symmetry. etransitivity; [|apply map_id]. apply map_ext_in. intros [i x] Hin%list_elem_of_In. cbn. by rewrite (Hfind i x Hin).
  - rewrite <- Hp, <- Hfst. apply Forall_fmap, Forall_forall. intros [i x] Hin. cbn. rewrite (Hfind i x Hin). by apply Hal.
Qed.
End Training.

(** ** The losses, response by response *)

Lemma qc_0 : qc 0 = 0%Qc. Proof. by apply Qc_is_canon. Qed.
Lemma qc_nonzero n : n <> 0%nat -> qc (Z.of_nat n) <> 0%Qc.
Proof. intros Hn E. apply Hn. rewrite <- qc_0 in E. unfold qc in E. apply Z2Qc_inj in E. lia. Qed.

Lemma mean_single x : mean [x] = x.
Proof. unfold mean. cbn [length]. rewrite qc_of_nat_S. change (qc (Z.of_nat 0)) with (qc 0). rewrite qc_0, qtotal_cons. unfold total. cbn [foldr]. rewrite !Qcplus_0_r. apply (right_id 1%Qc Qcdiv). Qed.

Lemma mean_map {A} (f : A -> Qc) l : mean (map f l) = (total (map f l) / qc (Z.of_nat (length l)))%Qc.
Proof. unfold mean. by rewrite length_map. Qed.

Section Responses.
Context (exp expm1 : Qc -> num) (clip_eps : Qc).

Definition grpo_of (kl_beta : Qc) (terms : list grpo_term) : Qc * grpo_metrics :=
  let policy_loss := mean (map policy_term terms) in
  let kl := mean (map kl_term terms) in
  let loss := (policy_loss + kl_beta * kl)%Qc in
  (loss, {| g_loss := loss; g_policy_loss := policy_loss; g_kl := kl; g_clip_fraction := mean (map clip_fraction terms);
            g_importance_ratio := mean (map ratio_mean terms); g_approx_kl := mean (map approx_kl terms) |}).

Definition reference_rows (ref : option (list (list num))) (policy : list (list num)) : list (option (list num)) :=
  match ref with Some l => map Some l | None => map (fun _ => None) policy end.

Definition grpo_guards (kl_beta : Qc) (ref : option (list (list num))) : Prop :=
  clip_range clip_eps = true /\ qlt kl_beta 0 = false /\ (ref = None -> kl_beta = 0%Qc).

Lemma grpo_iff kl_beta policy behavior advantages ref l : length behavior = length policy -> length advantages = length policy ->
  (forall r, ref = Some r -> length r = length policy) -> policy <> [] ->
  grpo_loss exp expm1 policy behavior advantages clip_eps ref kl_beta = Ok l <->
  grpo_guards kl_beta ref /\ exists a terms, advantages = map Some a
    /\ Forall2 (fun x t => grpo_response exp expm1 clip_eps kl_beta x.1.1.1 x.1.1.2 x.1.2 x.2 = Ok t) (zip (zip (zip policy behavior) a) (reference_rows ref policy)) terms
    /\ l = grpo_of kl_beta terms.
Proof.
  intros Hb Ha Hr Hne. unfold grpo_loss, grpo_guards. rewrite Hb, Ha, Nat.eqb_refl, bool_decide_eq_false_2 by done. cbn [negb orb].
  destruct (clip_range clip_eps); [|naive_solver]. cbn [negb]. destruct (qlt kl_beta 0); [naive_solver|].
  destruct (all_finite advantages "advantages") as [a|] eqn:Ea.
  2: { split; [done|]. intros (_ & a & terms & -> & _). by rewrite (proj2 (all_finite_ok _ _ a)) in Ea. }
  apply all_finite_ok in Ea as ->. assert (match ref with Some l0 => negb (length l0 =? length policy)%nat | None => false end = false) as ->.
  { destruct ref as [r|]; [|done]. rewrite (Hr r eq_refl), Nat.eqb_refl. done. }
  destruct (negb (bool_decide (kl_beta = 0%Qc)) && bool_decide (ref = None)) eqn:Eg.
  { apply andb_true_iff in Eg as [E1 E2]. destr_bool. split; [done|]. intros ((_ & _ & Hk) & _). naive_solver. }
  assert (ref = None -> kl_beta = 0%Qc) as Hk.
  { intros ->. rewrite (bool_decide_eq_true_2 (None = None)), andb_true_r in Eg by done. by destr_bool. }
  fold (reference_rows ref policy). split.
  - destruct (traverse _ _) as [terms|] eqn:Et; [|done]. intros [= <-]. split; [done|]. apply traverse_inv in Et. by exists a, terms.
  - intros (_ & a' & terms & <-%map_Some_inj & Ht & ->). by rewrite (traverse_ok _ _ _ Ht).
Qed.

Lemma tis_iff is_cap policy old behavior advantages l : length old = length policy -> length behavior = length policy -> length advantages = length policy -> policy <> [] ->
  decoupled_token_tis_loss exp policy old behavior advantages clip_eps is_cap = Ok l <->
  (clip_range clip_eps = true /\ qle is_cap 0 = false) /\ exists a terms, advantages = map Some a
    /\ Forall2 (fun x t => tis_response exp clip_eps is_cap x.1.1.1 x.1.1.2 x.1.2 x.2 = Ok t) (zip (zip (zip policy old) behavior) a) terms
    /\ l = (mean (map tis_policy_term terms), tis_metrics_of clip_eps is_cap terms).
Proof.
  intros Ho Hb Ha Hne. unfold decoupled_token_tis_loss. rewrite Ho, Hb, Ha, Nat.eqb_refl, bool_decide_eq_false_2 by done. cbn [negb orb].
  destruct (clip_range clip_eps); [|naive_solver]. cbn [negb]. destruct (qle is_cap 0); [naive_solver|].
  destruct (all_finite advantages "advantages") as [a|] eqn:Ea.
  2: { split; [done|]. intros (_ & a & terms & -> & _). by rewrite (proj2 (all_finite_ok _ _ a)) in Ea. }
  apply all_finite_ok in Ea as ->. split.
  - destruct (traverse _ _) as [terms|] eqn:Et; [|done]. intros [= <-]. split; [done|]. apply traverse_inv in Et. by exists a, terms.
  - intros (_ & a' & terms & <-%map_Some_inj & Ht & ->). by rewrite (traverse_ok _ _ _ Ht).
Qed.

(** *** Pooling *)

Lemma over_mean {A} (f : A -> Qc) (l : list A) n : length l = n -> (total (map f l) / qc (Z.of_nat n))%Qc = mean (map f l).
Proof. intros <-. by rewrite mean_map. Qed.

Lemma pool_grpo kl_beta terms : length terms = 32%nat -> let rows := map (fun t => (grpo_of kl_beta [t]).2) terms in
  {| g_loss := sum_of g_loss rows / qc 32; g_policy_loss := sum_of g_policy_loss rows / qc 32; g_kl := sum_of g_kl rows / qc 32;
     g_clip_fraction := sum_of g_clip_fraction rows / qc 32; g_importance_ratio := sum_of g_importance_ratio rows / qc 32;
     g_approx_kl := sum_of g_approx_kl rows / qc 32 |}%Qc = (grpo_of kl_beta terms).2
  /\ mean (map (fun t => (grpo_of kl_beta [t]).1) terms) = (grpo_of kl_beta terms).1.
Proof.
  intros Hl. cbv zeta. unfold sum_of, grpo_of. cbn [fst snd g_loss g_policy_loss g_kl g_clip_fraction g_importance_ratio g_approx_kl map]. rewrite !map_map.
  cbn [g_loss g_policy_loss g_kl g_clip_fraction g_importance_ratio g_approx_kl].
  assert (forall f : grpo_term -> Qc, (total (map (fun x => mean [f x]) terms) / qc 32)%Qc = mean (map f terms)) as Hm.
  { intros f. change (qc 32) with (qc (Z.of_nat 32)). rewrite <- (over_mean f terms 32) by done. do 2 f_equal. apply map_ext. intros x. apply mean_single. }
  rewrite !Hm. assert (mean (map (fun t => mean [policy_term t] + kl_beta * mean [kl_term t])%Qc terms) = (mean (map policy_term terms) + kl_beta * mean (map kl_term terms))%Qc) as E.
  { rewrite !mean_map. rewrite (map_ext _ (fun t => policy_term t + kl_beta * kl_term t)%Qc) by (intros; by rewrite !mean_single). rewrite total_plus, total_times. unfold Qcdiv. ring. }
  split; [|exact E]. f_equal. rewrite <- E. change (qc 32) with (qc (Z.of_nat 32)). by rewrite <- (over_mean (fun t => mean [policy_term t] + kl_beta * mean [kl_term t])%Qc terms 32).
Qed.
End Responses.

Lemma qdiv_mul x k : k <> 0%Qc -> (x / k * k)%Qc = x.
Proof. intros Hk. unfold Qcdiv. by rewrite <- Qcmult_assoc, Qcmult_inv_l, Qcmult_1_r. Qed.

(** *** Minima and maxima of several lists *)

(** An operation that gives greatest lower bounds of an order. *)
Section Bounds.
Context (R : Qc -> Qc -> Prop) `{!PartialOrder R} (op : Qc -> Qc -> Qc).
Context (op_l : forall x y, R (op x y) x) (op_r : forall x y, R (op x y) y) (op_glb : forall x y z, R z x -> R z y -> R z (op x y)).

Lemma bound_comm x y : op x y = op y x.
Proof. apply (anti_symm R); auto. Qed.

Lemma bound_assoc x y z : op x (op y z) = op (op x y) z.
Proof.
  assert (forall x y z, R x y -> R y z -> R x z) as Htr by (intros ??? ? ?; by etransitivity).
  apply (anti_symm R); repeat apply op_glb; eauto.
Qed.

Definition bound_list (l : list Qc) : Qc := match l with [] => 0%Qc | x :: l => foldr op x l end.

Lemma bound_foldr l x y : foldr op (op x y) l = op (foldr op x l) y.
Proof. induction l as [|z l IH]; [done|]. cbn. by rewrite IH, bound_assoc. Qed.

Lemma bound_app l k : l <> [] -> k <> [] -> bound_list (l ++ k) = op (bound_list k) (bound_list l).
Proof.
  destruct l as [|x l], k as [|y k]; try done. intros _ _. cbn. rewrite foldr_app. cbn.
  by rewrite (bound_comm y), <- bound_foldr, (bound_comm x), bound_foldr, (bound_comm _ x), bound_foldr, bound_comm.
Qed.

Lemma bound_concat ls : Forall (fun l => l <> []) ls -> bound_list (map bound_list ls) = bound_list (concat ls).
Proof.
  intros Hf. destruct ls as [|l ls]; [done|]. apply Forall_cons in Hf as [Hl Hf].
  assert (forall l, l <> [] -> foldr op (bound_list l) (map bound_list ls) = bound_list (l ++ concat ls)) as Hg; [|by apply Hg].
  clear l Hl. induction Hf as [|k ls Hk Hf IH]; intros l Hl; cbn [concat map foldr]; [by rewrite app_nil_r|].
  rewrite IH by done. destruct (decide (concat ls = [])) as [->|Hc].
  - rewrite !app_nil_r. symmetry. by apply bound_app.
  - assert (k ++ concat ls <> []) by (by destruct k). rewrite (bound_app l (concat ls)), (bound_app l (k ++ concat ls)), (bound_app k (concat ls)) by done.
    by rewrite bound_assoc, (bound_comm (bound_list k)).
Qed.
End Bounds.

Lemma qmin_l x y : (qmin x y <= x)%Qc.
Proof. unfold qmin, qle. destruct (bool_decide_reflect (x <= y)%Qc) as [?|Hn]; [done|]. by apply Qclt_le_weak, Qcnot_le_lt. Qed.
Lemma qmin_r x y : (qmin x y <= y)%Qc.
Proof. unfold qmin, qle. by destruct (bool_decide_reflect (x <= y)%Qc). Qed.
Lemma qmax_l x y : (x <= qmax x y)%Qc.
Proof. unfold qmax, qle. by destruct (bool_decide_reflect (x <= y)%Qc). Qed.
Lemma qmax_r x y : (y <= qmax x y)%Qc.
Proof. unfold qmax, qle. destruct (bool_decide_reflect (x <= y)%Qc) as [?|Hn]; [done|]. by apply Qclt_le_weak, Qcnot_le_lt. Qed.

Lemma qmin_concat ls : Forall (fun l => l <> []) ls -> qmin_list (map qmin_list ls) = qmin_list (concat ls).
Proof. apply (bound_concat Qcle qmin qmin_l qmin_r). intros x y z. unfold qmin. by case_match. Qed.

#[local] Instance flip_qcle_po : PartialOrder (flip Qcle).
Proof. split; [split; [by intros x; cbn|intros x y z H1 H2; cbn in *; by etransitivity]|]. intros x y H1 H2. by apply (anti_symm Qcle). Qed.

Lemma qmax_concat ls : Forall (fun l => l <> []) ls -> qmax_list (map qmax_list ls) = qmax_list (concat ls).
Proof. apply (bound_concat (flip Qcle) qmax qmax_l qmax_r). intros x y z. unfold qmax. by case_match. Qed.

(** *** The pooled Token-TIS metrics *)

Section PoolTis.
Context (clip_eps is_cap : Qc).

(** What [tis_response] returns. *)
Definition tis_shape (t : tis_term) : Prop :=
  raw_weights t <> [] /\ weights t = map (fun x => qmin x is_cap) (raw_weights t) /\ length (ratios t) = length (raw_weights t)
  /\ length (deltas t) = length (raw_weights t).

Lemma total_length ls : total (map (fun l : list Qc => qc (Z.of_nat (length l))) ls) = qc (Z.of_nat (length (concat ls))).
Proof.
  induction ls as [|l ls IH]; [by apply Qc_is_canon|]. cbn [map concat]. rewrite qtotal_cons, IH, length_app, Nat2Z.inj_add. unfold qc. by rewrite Z2Qc_inj_add.
Qed.

Lemma count_total p l : count_true p l = total (map (fun x => if p x then 1%Qc else 0%Qc) l).
Proof.
  unfold count_true. induction l as [|x l IH]; [by apply Qc_is_canon|]. cbn [map]. rewrite qtotal_cons, <- IH. destruct (p x) eqn:E.
  - rewrite filter_cons_True by done. cbn [length]. apply qc_of_nat_S.
  - rewrite filter_cons_False by congruence. by rewrite Qcplus_0_l.
Qed.

Lemma clipped_total l : (0 <= total l - total (map (fun x => qmin x is_cap) l))%Qc.
Proof.
  induction l as [|x l IH]; cbn [map]; rewrite ?qtotal_cons; [unfold Qcminus; by rewrite Qcplus_opp_r|].
  assert (0 <= x - qmin x is_cap)%Qc by (apply (proj1 (Qcle_minus_iff _ _)), qmin_l).
  replace (x + total l - (qmin x is_cap + total (map (fun x => qmin x is_cap) l)))%Qc with (x - qmin x is_cap + (total l - total (map (fun x => qmin x is_cap) l)))%Qc by ring.
  by apply Qcplus_nonneg_nonneg.
Qed.

Lemma qmax_nonneg x : (0 <= x)%Qc -> qmax x 0 = x.
Proof. unfold qmax, qle. destruct (bool_decide_reflect (x <= 0)%Qc); [|done]. intros. by apply (anti_symm Qcle). Qed.

(** A mean over all tokens from the means of the responses. *)
Lemma weighted_mean_exact {A} (f : A -> list Qc) (n : A -> list Qc) (ts : list A) : Forall (fun t => length (f t) = length (n t) /\ n t <> []) ts ->
  total (map (fun t => mean (f t) * qc (Z.of_nat (length (n t))))%Qc ts) = total (concat (map f ts)).
Proof.
  induction 1 as [|t ts [Hl Hn] _ IH]; [done|]. cbn [map concat]. rewrite qtotal_cons, qtotal_app, IH. f_equal. unfold mean. rewrite Hl. apply qdiv_mul, qc_nonzero. by destruct (n t).
Qed.

Lemma same_lengths {A B C} (f : A -> list B) (g : A -> list C) ts : Forall (fun t => length (f t) = length (g t)) ts -> length (concat (map f ts)) = length (concat (map g ts)).
Proof. induction 1 as [|t ts Hl _ IH]; [done|]. cbn. by rewrite !length_app, Hl, IH. Qed.

(** The metrics of one response. *)
Definition one_row (t : tis_term) : tis_metrics :=
  let w := weights t in let raw := raw_weights t in
  let n := qc (Z.of_nat (length w)) in
  let ess := (square (total w) / total (map square w))%Qc in
  let dropped := (total raw - total w)%Qc in
  {| t_loss := tis_policy_term t; t_response_count := qc 1; t_token_count := n; t_is_cap := is_cap;
     t_weight_sum := total w; t_weight_square_sum := total (map square w); t_weight_mean := mean w; t_weight_min := qmin_list w; t_weight_max := qmax_list w;
     t_raw_sum := total raw; t_raw_min := qmin_list raw; t_raw_max := qmax_list raw;
     t_clipped_tokens := total (map (fun x => if qlt is_cap x then 1%Qc else 0%Qc) raw); t_clipped_fraction := frac (fun x => qlt is_cap x) raw;
     t_dropped_mass := dropped; t_dropped_fraction := (dropped / total raw)%Qc; t_ess := ess; t_ess_fraction := (ess / n)%Qc;
     t_delta_mean := mean (deltas t); t_delta_max_abs := qmax_list (map qabs (deltas t)); t_ratio_mean := mean (ratios t);
     t_clip_fraction := mean (map (fun x => if beyond clip_eps x then 1%Qc else 0%Qc) (ratios t)) |}.

Lemma one_row_ok t : tis_shape t -> tis_metrics_of clip_eps is_cap [t] = one_row t.
Proof.
  intros (_ & Hw & _). unfold tis_metrics_of, one_row. cbn [map concat length]. rewrite !app_nil_r, mean_single, count_total. cbv zeta.
  pose proof (clipped_total (raw_weights t)) as Hc. rewrite <- Hw in Hc. by rewrite qmax_nonneg.
Qed.

(** *** Facts on the lists of several responses *)

Section Lists.
Context (ts : list tis_term) (Hs : Forall tis_shape ts).

Lemma sum_concat (f : tis_term -> list Qc) : total (map (fun t => total (f t)) ts) = total (concat (map f ts)).
Proof. by rewrite total_concat, map_map. Qed.

Lemma concat_mapped (g : Qc -> Qc) (f : tis_term -> list Qc) : concat (map (fun t => map g (f t)) ts) = map g (concat (map f ts)).
Proof. by rewrite concat_map, map_map. Qed.

Lemma sum_mapped (g : Qc -> Qc) (f : tis_term -> list Qc) : total (map (fun t => total (map g (f t))) ts) = total (map g (concat (map f ts))).
Proof. rewrite <- concat_mapped. apply (sum_concat (fun t => map g (f t))). Qed.

(** A list of every response as long as its raw weights. *)
Definition aligned (f : tis_term -> list Qc) : Prop := Forall (fun t => length (f t) = length (raw_weights t)) ts.

Lemma aligned_all : aligned weights /\ aligned ratios /\ aligned deltas /\ aligned raw_weights.
Proof.
  unfold aligned. split; [|split; [|split]]; eapply Forall_impl; try exact Hs; [|by intros t (_ & _ & ? & _)|by intros t (_ & _ & _ & ?)|done].
  intros t (_ & -> & _). by rewrite length_map.
Qed.

Lemma aligned_map g f : aligned f -> aligned (fun t => map g (f t)).
Proof. intros H. eapply Forall_impl; [exact H|]. intros t <-. apply length_map. Qed.

Lemma aligned_nonempty f : aligned f -> Forall (fun l => l <> []) (map f ts).
Proof.
  intros Hf. apply Forall_fmap. eapply Forall_impl; [apply Forall_and; split; [exact Hf|exact Hs]|]. intros t [Hl (Hr & _)] E.
  cbn in E. rewrite E in Hl. by destruct (raw_weights t).
Qed.

Lemma pooled_mean f : aligned f ->
  (total (map (fun t => mean (f t) * qc (Z.of_nat (length (weights t))))%Qc ts) / qc (Z.of_nat (length (concat (map weights ts)))))%Qc = mean (concat (map f ts)).
Proof.
  intros Hf. destruct aligned_all as (Hw & _). rewrite weighted_mean_exact.
  - unfold mean. by rewrite (same_lengths f raw_weights ts Hf), (same_lengths weights raw_weights ts Hw).
  - eapply Forall_impl; [apply Forall_and; split; [exact Hf|apply Forall_and; split; [exact Hw|apply (Forall_fmap weights (fun l => l <> [])), aligned_nonempty, Hw]]|].
    intros t (-> & -> & ?). done.
Qed.

Lemma pooled_min f : aligned f -> qmin_list (map (fun t => qmin_list (f t)) ts) = qmin_list (concat (map f ts)).
Proof. intros Hf. rewrite <- (map_map f qmin_list). by apply qmin_concat, aligned_nonempty. Qed.

Lemma pooled_max f : aligned f -> qmax_list (map (fun t => qmax_list (f t)) ts) = qmax_list (concat (map f ts)).
Proof. intros Hf. rewrite <- (map_map f qmax_list). by apply qmax_concat, aligned_nonempty. Qed.

Lemma pooled_dropped : total (map (fun t => total (raw_weights t) - total (weights t))%Qc ts)
  = qmax (total (concat (map raw_weights ts)) - total (concat (map weights ts)))%Qc 0.
Proof.
  assert (concat (map weights ts) = map (fun x => qmin x is_cap) (concat (map raw_weights ts))) as Hwr.
  { rewrite <- concat_mapped. f_equal. apply map_ext_in. intros t Ht%list_elem_of_In. by apply (proj1 (Forall_forall _ _) Hs t Ht). }
  pose proof (clipped_total (concat (map raw_weights ts))) as Hpos. rewrite <- Hwr in Hpos. rewrite qmax_nonneg by done.
  rewrite <- !sum_concat. clear. induction ts as [|t l IH]; cbn [map]; rewrite ?qtotal_cons; [unfold total; cbn [foldr]; ring|]. rewrite IH. ring.
Qed.
End Lists.

Lemma pool_tis ts : ts <> [] -> Forall tis_shape ts ->
  aggregate_token_tis_metrics (map (fun t => tis_metrics_of clip_eps is_cap [t]) ts) = tis_metrics_of clip_eps is_cap ts.
Proof.
  intros Hne Hs. assert (map (fun t => tis_metrics_of clip_eps is_cap [t]) ts = map one_row ts) as ->.
  { apply map_ext_in. intros t Ht%list_elem_of_In. apply one_row_ok. by apply (proj1 (Forall_forall _ _) Hs). }
  destruct (aligned_all ts Hs) as (Hw & Hr & Hd & Hraw).
  unfold aggregate_token_tis_metrics, weighted_mean, sum_of. rewrite !map_map, length_map.
  cbn [one_row t_loss t_response_count t_token_count t_is_cap t_weight_sum t_weight_square_sum t_weight_mean t_weight_min t_weight_max t_raw_sum t_raw_min
    t_raw_max t_clipped_tokens t_clipped_fraction t_dropped_mass t_dropped_fraction t_ess t_ess_fraction t_delta_mean t_delta_max_abs t_ratio_mean t_clip_fraction].
  assert (total (map (fun x => qc (Z.of_nat (length (weights x)))) ts) = qc (Z.of_nat (length (concat (map weights ts))))) as -> by (rewrite <- total_length, map_map; done).
  rewrite !(pooled_mean ts Hs ratios), !(pooled_mean ts Hs deltas) by done.
  rewrite (pooled_mean ts Hs (fun t => map (fun x => if beyond clip_eps x then 1%Qc else 0%Qc) (ratios t))), (concat_mapped _ _ ratios) by (by apply aligned_map).
  rewrite !(sum_mapped _ _ raw_weights), !(sum_mapped _ _ weights), !sum_concat, (pooled_dropped ts Hs).
  rewrite (pooled_min ts Hs weights), (pooled_max ts Hs weights), (pooled_min ts Hs raw_weights), (pooled_max ts Hs raw_weights) by done.
  rewrite (pooled_max ts Hs (fun t => map qabs (deltas t))), (concat_mapped _ qabs deltas) by (by apply aligned_map).
  unfold tis_metrics_of. rewrite count_total. unfold frac. rewrite !mean_map. unfold mean.
  pose proof (same_lengths weights raw_weights ts Hw) as Hlen. destruct ts as [|t0 ts0]; [done|]. change (t_is_cap (one_row t0)) with is_cap. f_equal; try done.
  by rewrite Hlen.
Qed.
End PoolTis.

Lemma tis_response_shape exp clip_eps is_cap current old behavior a t : tis_response exp clip_eps is_cap current old behavior a = Ok t -> tis_shape is_cap t.
Proof.
  unfold tis_response. case_bool_decide as Hne; [done|]. destruct (_ || _) eqn:El; [done|]. destr_bool.
  destruct (log_probs_of _ current) as [c|] eqn:E1; [|done]. destruct (log_probs_of _ old) as [o|] eqn:E2; [|done]. destruct (log_probs_of _ behavior) as [b|] eqn:E3; [|done].
  destruct (all_finite (map exp _) "raw rollout importance weights") as [raw|] eqn:E4; [|done]. destruct (underflows raw); [done|]. destruct (underflows _); [done|].
  destruct (all_finite (map exp _) "native PPO ratios") as [ratio|] eqn:E5; [|done]. destruct (underflows ratio); [done|]. intros [= <-].
  assert (forall name l v, log_probs_of name l = Ok v -> length v = length l) as Hl.
  { intros name l v. unfold log_probs_of. destruct (all_finite l _) as [w|] eqn:E; [|done]. destruct (negb (nonpositive w)); [done|]. intros [= <-]. apply all_finite_ok in E as ->. by rewrite length_map. }
  apply Hl in E1, E2, E3. apply all_finite_ok in E4, E5. apply (f_equal length) in E4, E5. unfold pointwise in *. rewrite !length_map, !length_zip_with in E4, E5.
  assert (0 < length current)%nat by (destruct current; [done|cbn; lia]). unfold tis_shape. cbn. rewrite length_zip_with. split; [intros ->; cbn in E4; lia|]. split; [done|]. lia.
Qed.

(** ** The group *)

Section Group.
Context (log_softmax : list num -> list num) (exp expm1 : Qc -> num) (args : train_args) (current native_old reference : policy).
#[local] Notation corrected := (corrected args).
#[local] Notation single m r := (response_log_probs log_softmax m (context_token_ids r) (action_token_ids r) (temperature args)).
#[local] Notation alone := (alone log_softmax exp expm1 args current native_old reference).

(** The loss of a whole group, each response scored alone. *)
Definition group_loss (results : list rollout_result) (advantages : list num) : res (Qc * metrics_row) :=
  values <-? traverse (fun r => single current r) results;
  if corrected then
    old <-? traverse (fun r => single native_old r) results;
    l <-? decoupled_token_tis_loss exp (map (map Some) values) (map (map Some) old) (map behavior_log_probs results) advantages (clip_eps args) (rollout_is_cap args);
    Ok (l.1, TisRow l.2)
  else
    base <-? (if bool_decide (kl_beta args = 0%Qc) then Ok None else b <-? traverse (fun r => single reference r) results; Ok (Some (map (map Some) b)));
    l <-? grpo_loss exp expm1 (map (map Some) values) (map behavior_log_probs results) advantages (clip_eps args) base (kl_beta args);
    Ok (l.1, GrpoRow l.2).

Definition row_of {M} (row : M -> metrics_row) (l : Qc * M) : Qc * metrics_row := (l.1, row l.2).

(** *** Token-TIS *)

Definition tis_parts (r : rollout_result) (a : num) (v o : list Qc) (t : tis_term) : Prop :=
  single current r = Ok v /\ single native_old r = Ok o
  /\ exists a', a = Some a' /\ tis_response exp (clip_eps args) (rollout_is_cap args) (map Some v) (map Some o) (behavior_log_probs r) a' = Ok t.

Definition tis_row (t : tis_term) : Qc * tis_metrics := (tis_policy_term t, tis_metrics_of (clip_eps args) (rollout_is_cap args) [t]).

Lemma alone_tis ok r a l : corrected = true -> alone ok r a l ->
  (clip_range (clip_eps args) = true /\ qle (rollout_is_cap args) 0 = false) /\ exists v o t, tis_parts r a v o t /\ l = row_of TisRow (tis_row t).
Proof.
  intros Hc (v & old & base & (Hv & _ & Ho & _) & Hl). destruct old as [o|]; [|congruence]. destruct Ho as (_ & Ho & _). unfold response_loss in Hl. rewrite Hc in Hl.
  destruct (decoupled_token_tis_loss _ _ _ _ _ _ _) as [l'|] eqn:E; [|done]. injection Hl as <-. apply tis_iff in E as (Hg & a' & terms & Ha & Ht & ->); [|done..].
  split; [done|]. cbn [default from_option id] in Ht. destruct a' as [|a' [|]]; try done. injection Ha as ->. cbn [zip zip_with] in Ht.
  apply Forall2_cons_inv_l in Ht as (t & terms' & Ht & Hn & ->). apply Forall2_nil_inv_l in Hn as ->. cbn [fst snd] in Ht. exists v, o, t. split.
  - split; [done|]. split; [done|]. by exists a'.
  - unfold row_of, tis_row. cbn [map fst snd]. by rewrite mean_single.
Qed.

Lemma tis_collect ras xs : Forall2 (fun ra l => exists v o t, tis_parts ra.1 ra.2 v o t /\ l = row_of TisRow (tis_row t)) ras xs ->
  exists values olds a terms, Forall2 (fun ra v => single current ra.1 = Ok v) ras values /\ Forall2 (fun ra v => single native_old ra.1 = Ok v) ras olds
    /\ map snd ras = map Some a
    /\ Forall2 (fun x t => tis_response exp (clip_eps args) (rollout_is_cap args) x.1.1.1 x.1.1.2 x.1.2 x.2 = Ok t)
         (zip (zip (zip (map (map Some) values) (map (map Some) olds)) (map (fun ra => behavior_log_probs ra.1) ras)) a) terms
    /\ xs = map (fun t => row_of TisRow (tis_row t)) terms /\ length terms = length ras.
Proof.
  induction 1 as [|ra l ras xs (v & o & t & (Hv & Ho & a & Ha & Ht) & ->) _ IH]; [by exists [], [], [], []|].
  destruct IH as (values & olds & a' & terms & IH1 & IH2 & IH3 & IH4 & -> & IH6). exists (v :: values), (o :: olds), (a :: a'), (t :: terms).
  split; [by constructor|]. split; [by constructor|]. split; [cbn; by rewrite IH3, Ha|]. split; [by constructor|]. split; [done|]. cbn. by rewrite IH6.
Qed.

Lemma tis_distribute ras values olds a terms : Forall2 (fun ra v => single current ra.1 = Ok v) ras values -> Forall2 (fun ra v => single native_old ra.1 = Ok v) ras olds ->
  map snd ras = map Some a ->
  Forall2 (fun x t => tis_response exp (clip_eps args) (rollout_is_cap args) x.1.1.1 x.1.1.2 x.1.2 x.2 = Ok t)
    (zip (zip (zip (map (map Some) values) (map (map Some) olds)) (map (fun ra => behavior_log_probs ra.1) ras)) a) terms ->
  Forall2 (fun ra t => exists v o, tis_parts ra.1 ra.2 v o t) ras terms.
Proof.
  intros Hv. revert olds a terms. induction Hv as [|ra v ras values Hv _ IH]; intros olds a terms Ho Ha Ht.
  - inversion Ht. constructor.
  - apply Forall2_cons_inv_l in Ho as (o & olds' & Ho & Hos & ->). destruct a as [|a0 a]; [done|]. injection Ha as Ha0 Ha. cbn [map zip zip_with] in Ht.
    apply Forall2_cons_inv_l in Ht as (t & terms' & Ht & Hts & ->). constructor; [|by eapply IH]. exists v, o. split; [done|]. split; [done|]. by exists a0.
Qed.

Lemma pooled_tis terms : corrected = true -> terms <> [] -> Forall (tis_shape (rollout_is_cap args)) terms ->
  (mean (map fst (map (fun t => row_of TisRow (tis_row t)) terms)), pooled args (map snd (map (fun t => row_of TisRow (tis_row t)) terms)))
  = row_of TisRow (mean (map tis_policy_term terms), tis_metrics_of (clip_eps args) (rollout_is_cap args) terms).
Proof.
  intros Hc Hne Hs. unfold pooled. rewrite Hc, !map_map. cbn [fst snd row_of tis_row]. unfold row_of. cbn [fst snd]. do 2 f_equal.
  rewrite <- (pool_tis _ _ terms) by done. f_equal. unfold tis_rows. clear. induction terms as [|t terms IH]; [done|]. cbn. by rewrite IH.
Qed.

Lemma tis_shapes (values olds behavior : list (list num)) a terms :
  Forall2 (fun x t => tis_response exp (clip_eps args) (rollout_is_cap args) x.1.1.1 x.1.1.2 x.1.2 x.2 = Ok t) (zip (zip (zip values olds) behavior) a) terms ->
  Forall (tis_shape (rollout_is_cap args)) terms.
Proof. intros Hf. induction Hf as [|x t l ts Ht _ IH]; constructor; [by eapply tis_response_shape|done]. Qed.

Lemma zip_snd {A B} (l : list A) (k : list B) : length k = length l -> map snd (zip l k) = k /\ map fst (zip l k) = l.
Proof. revert k. induction l as [|a l IH]; intros [|b k] Hl; try done. injection Hl as Hl. destruct (IH k Hl) as [E1 E2]. cbn. by rewrite E1, E2. Qed.

Lemma traverse_firsts (f : rollout_result -> res (list Qc)) (results : list rollout_result) (advantages : list num) values : length advantages = length results ->
  Forall2 (fun ra v => f ra.1 = Ok v) (zip results advantages) values <-> traverse f results = Ok values.
Proof.
  intros Hl. destruct (zip_snd results advantages Hl) as [_ E]. rewrite <- E at 2. split.
  - intros Hf. apply traverse_ok. by apply Forall2_fmap_l.
  - intros Ht%traverse_inv. by apply Forall2_fmap_l in Ht.
Qed.

Lemma tis_alone ok r a v o t : corrected = true -> kl_beta args = 0%Qc -> clip_range (clip_eps args) = true /\ qle (rollout_is_cap args) 0 = false ->
  tis_parts r a v o t -> ok v = true -> ok o = true -> alone ok r a (row_of TisRow (tis_row t)).
Proof.
  intros Hc Hkl Hg (Hv & Ho & a' & -> & Ht) Hov Hoo. exists v, (Some o), None. split; [done|]. unfold response_loss. rewrite Hc. cbn [default from_option id].
  rewrite (proj2 (tis_iff exp expm1 (clip_eps args) (rollout_is_cap args) [map Some v] [map Some o] [behavior_log_probs r] [Some a'] (tis_row t) eq_refl eq_refl eq_refl ltac:(done))); [done|].
  split; [done|]. exists [a'], [t]. split; [done|]. split; [by repeat constructor|]. unfold tis_row. cbn [map]. by rewrite mean_single.
Qed.

(** Every response of [results] that is scored has values that pass [ok]. *)
Definition all_pass (ok : list Qc -> bool) (m : policy) (results : list rollout_result) : Prop := forall r v, r ∈ results -> single m r = Ok v -> ok v = true.

Lemma zip_elem (results : list rollout_result) (advantages : list num) i r a : zip results advantages !! i = Some (r, a) -> r ∈ results.
Proof. intros Hi%list_elem_of_lookup_2. by apply elem_of_zip_l in Hi. Qed.

Lemma group_tis ok results advantages x : corrected = true -> kl_beta args = 0%Qc -> length results = 32%nat -> length advantages = 32%nat ->
  all_pass ok current results -> all_pass ok native_old results ->
  group_loss results advantages = Ok x <->
  exists xs, Forall2 (fun ra l => alone ok ra.1 ra.2 l) (zip results advantages) xs /\ x = (mean (map fst xs), pooled args (map snd xs)).
Proof.
  intros Hc Hkl Hr Ha Hok1 Hok2. assert (length advantages = length results) as Hl by congruence. destruct (zip_snd results advantages Hl) as [Es Ef]. unfold group_loss. rewrite Hc.
  assert (map behavior_log_probs results = map (fun ra => behavior_log_probs ra.1) (zip results advantages)) as -> by (rewrite <- Ef at 1; apply map_map). split.
  - destruct (traverse _ results) as [values|] eqn:Ev; [|done]. destruct (traverse (fun r => single native_old r) results) as [olds|] eqn:Eo; [|done].
    destruct (decoupled_token_tis_loss _ _ _ _ _ _ _) as [l|] eqn:El; [|done]. intros [= <-]. pose proof (proj2 (traverse_firsts _ _ _ _ Hl) Ev) as Hv. pose proof (proj2 (traverse_firsts _ _ _ _ Hl) Eo) as Ho.
    apply traverse_inv in Ev, Eo. apply Forall2_length in Ev, Eo. apply tis_iff in El as (Hg & a & terms & Hadv & Ht & ->);
      [|exact expm1|rewrite ?length_map, ?length_zip_with; lia..|by destruct values; [cbn in Ev; lia|]].
    pose proof (tis_shapes _ _ _ _ _ Ht) as Hs. pose proof (tis_distribute _ _ _ _ _ Hv Ho ltac:(rewrite Es; exact Hadv) Ht) as Hd.
    assert (terms <> []) as Hne by (intros ->; inversion Hd as [E|]; destruct results, advantages; done).
    exists (map (fun t => row_of TisRow (tis_row t)) terms). rewrite pooled_tis by done. split; [|done]. apply Forall2_fmap_r.
    apply Forall2_same_length_lookup. split; [by apply Forall2_length in Hd|]. intros i [r a0] t Hi Hti. destruct (Forall2_lookup_lr _ _ _ _ _ _ Hd Hi Hti) as (v & o & Hp).
    apply zip_elem in Hi. eapply tis_alone; try done; [apply (Hok1 r)|apply (Hok2 r)]; try done; apply Hp.
  - intros (xs & Hf & ->). assert (clip_range (clip_eps args) = true /\ qle (rollout_is_cap args) 0 = false) as Hg.
    { clear Ef Es. destruct results as [|r0 rs], advantages as [|a0 l0]; try done. cbn in Hf. apply Forall2_cons_inv_l in Hf as (l & ? & Hal & _). by apply (alone_tis ok r0 a0 l Hc) in Hal as [? _]. }
    assert (Forall2 (fun ra l => exists v o t, tis_parts ra.1 ra.2 v o t /\ l = row_of TisRow (tis_row t)) (zip results advantages) xs) as Hp.
    { eapply Forall2_impl; [exact Hf|]. intros [r a] l Hal. by apply (alone_tis ok r a l Hc) in Hal as [_ ?]. }
    apply tis_collect in Hp as (values & olds & a & terms & Hv & Ho & Hsnd & Ht & -> & Hlen). rewrite Es in Hsnd. pose proof (tis_shapes _ _ _ _ _ Ht) as Hs.
    assert (terms <> []) as Hne by (intros ->; destruct results, advantages; done).
    rewrite (proj1 (traverse_firsts _ _ _ _ Hl) Hv), (proj1 (traverse_firsts _ _ _ _ Hl) Ho). apply Forall2_length in Hv, Ho. rewrite length_zip_with in Hv, Ho.
    assert (decoupled_token_tis_loss exp (map (map Some) values) (map (map Some) olds) (map (fun ra => behavior_log_probs ra.1) (zip results advantages)) advantages
      (clip_eps args) (rollout_is_cap args) = Ok (mean (map tis_policy_term terms), tis_metrics_of (clip_eps args) (rollout_is_cap args) terms)) as E.
    { apply (tis_iff exp expm1); [rewrite ?length_map, ?length_zip_with; lia..|by destruct values; [cbn in Hv; lia|]|]. split; [done|]. by exists a, terms. }
    rewrite E, pooled_tis by done. done.
Qed.

(** *** GRPO *)

Definition reference_ok (r : rollout_result) (b : option (list Qc)) : Prop :=
  match b with Some w => kl_beta args <> 0%Qc /\ single reference r = Ok w | None => kl_beta args = 0%Qc end.

Definition grpo_parts (r : rollout_result) (a : num) (v : list Qc) (b : option (list Qc)) (t : grpo_term) : Prop :=
  single current r = Ok v /\ reference_ok r b
  /\ exists a', a = Some a' /\ grpo_response exp expm1 (clip_eps args) (kl_beta args) (map Some v) (behavior_log_probs r) a' (map Some <$> b) = Ok t.

Definition grpo_row (t : grpo_term) : Qc * grpo_metrics := grpo_of (kl_beta args) [t].
Definition grpo_bounds : Prop := clip_range (clip_eps args) = true /\ qlt (kl_beta args) 0 = false.

Lemma grpo_one r a v b t : grpo_bounds -> reference_ok r b ->
  (exists a', a = Some a' /\ grpo_response exp expm1 (clip_eps args) (kl_beta args) (map Some v) (behavior_log_probs r) a' (map Some <$> b) = Ok t) ->
  grpo_loss exp expm1 [map Some v] [behavior_log_probs r] [a] (clip_eps args) ((fun w => [map Some w]) <$> b) (kl_beta args) = Ok (grpo_row t).
Proof.
  intros [Hc Hk] Hb (a' & -> & Ht). apply grpo_iff; [done|done|intros ? E; destruct b; [by injection E as <-|done]|done|]. split.
  - split; [done|]. split; [done|]. by destruct b.
  - exists [a'], [t]. split; [done|]. split; [|done]. destruct b; by repeat constructor.
Qed.

Lemma alone_grpo ok r a l : corrected = false -> alone ok r a l -> grpo_bounds /\ exists v b t, grpo_parts r a v b t /\ l = row_of GrpoRow (grpo_row t).
Proof.
  intros Hc (v & old & b & (Hv & _ & _ & Hb) & Hl). unfold response_loss in Hl. rewrite Hc in Hl. destruct (grpo_loss _ _ _ _ _ _ _ _) as [l'|] eqn:E; [|done]. injection Hl as <-.
  apply grpo_iff in E as ((Hg1 & Hg2 & _) & a' & terms & Ha & Ht & ->); [|done|done|intros ? E'; destruct b; [by injection E' as <-|done]|done]. split; [done|].
  destruct a' as [|a' [|]]; try done. injection Ha as ->.
  assert (exists t, terms = [t] /\ grpo_response exp expm1 (clip_eps args) (kl_beta args) (map Some v) (behavior_log_probs r) a' (map Some <$> b) = Ok t) as (t & -> & Hr).
  { destruct b as [w|]; cbn in Ht; apply Forall2_cons_inv_l in Ht as (t & ? & Ht & Hn & ->); apply Forall2_nil_inv_l in Hn as ->; eauto. }
  exists v, b, t. split; [|done]. split; [done|]. split; [destruct b; [split; apply Hb|done]|]. by exists a'.
Qed.

Lemma grpo_alone ok r a v b t : corrected = false -> grpo_bounds -> grpo_parts r a v b t -> ok v = true -> (forall w, b = Some w -> ok w = true) ->
  alone ok r a (row_of GrpoRow (grpo_row t)).
Proof.
  intros Hc Hg (Hv & Hb & Ht) Hov Hob. exists v, None, b. split.
  - split; [done|]. split; [done|]. split; [done|]. destruct b; [|done]. destruct Hb. eauto.
  - unfold response_loss. rewrite Hc. rewrite (grpo_one r a v b t Hg Hb Ht). done.
Qed.

Lemma grpo_collect ras xs : Forall2 (fun ra l => exists v b t, grpo_parts ra.1 ra.2 v b t /\ l = row_of GrpoRow (grpo_row t)) ras xs ->
  exists values bases a terms, Forall2 (fun ra v => single current ra.1 = Ok v) ras values /\ Forall2 (fun ra b => reference_ok ra.1 b) ras bases
    /\ map snd ras = map Some a
    /\ Forall2 (fun x t => grpo_response exp expm1 (clip_eps args) (kl_beta args) x.1.1.1 x.1.1.2 x.1.2 x.2 = Ok t)
         (zip (zip (zip (map (map Some) values) (map (fun ra => behavior_log_probs ra.1) ras)) a) (map (fmap (map Some)) bases)) terms
    /\ xs = map (fun t => row_of GrpoRow (grpo_row t)) terms /\ length terms = length ras.
Proof.
  induction 1 as [|ra l ras xs (v & b & t & (Hv & Hb & a & Ha & Ht) & ->) _ IH]; [by exists [], [], [], []|].
  destruct IH as (values & bases & a' & terms & IH1 & IH2 & IH3 & IH4 & -> & IH6). exists (v :: values), (b :: bases), (a :: a'), (t :: terms).
  split; [by constructor|]. split; [by constructor|]. split; [cbn; by rewrite IH3, Ha|]. split; [by constructor|]. split; [done|]. cbn. by rewrite IH6.
Qed.

Lemma grpo_distribute ras values bases a terms : Forall2 (fun ra v => single current ra.1 = Ok v) ras values -> Forall2 (fun ra b => reference_ok ra.1 b) ras bases ->
  map snd ras = map Some a ->
  Forall2 (fun x t => grpo_response exp expm1 (clip_eps args) (kl_beta args) x.1.1.1 x.1.1.2 x.1.2 x.2 = Ok t)
    (zip (zip (zip (map (map Some) values) (map (fun ra => behavior_log_probs ra.1) ras)) a) (map (fmap (map Some)) bases)) terms ->
  Forall2 (fun ra t => exists v b, grpo_parts ra.1 ra.2 v b t) ras terms.
Proof.
  intros Hv. revert bases a terms. induction Hv as [|ra v ras values Hv _ IH]; intros bases a terms Ho Ha Ht.
  - inversion Ht. constructor.
  - apply Forall2_cons_inv_l in Ho as (b & bases' & Ho & Hos & ->). destruct a as [|a0 a]; [done|]. injection Ha as Ha0 Ha. cbn [map zip zip_with] in Ht.
    apply Forall2_cons_inv_l in Ht as (t & terms' & Ht & Hts & ->). constructor; [|by eapply IH]. exists v, b. split; [done|]. split; [done|]. by exists a0.
Qed.

Lemma pooled_grpo terms : corrected = false -> length terms = 32%nat ->
  (mean (map fst (map (fun t => row_of GrpoRow (grpo_row t)) terms)), pooled args (map snd (map (fun t => row_of GrpoRow (grpo_row t)) terms)))
  = row_of GrpoRow (grpo_of (kl_beta args) terms).
Proof.
  intros Hc Hl. unfold pooled. rewrite Hc, !map_map. destruct (pool_grpo (kl_beta args) terms Hl) as [E1 E2]. unfold row_of. rewrite <- E1, <- E2. f_equal. cbn [fst snd].
  assert (grpo_rows (map (fun t => GrpoRow (grpo_row t).2) terms) = map (fun t => (grpo_of (kl_beta args) [t]).2) terms) as ->; [|done].
  unfold grpo_rows. clear. induction terms as [|t terms IH]; [done|]. exact (f_equal (cons (grpo_of (kl_beta args) [t]).2) IH).
Qed.

(** The reference scores as [grpo_loss] takes them. *)
Lemma references_as_rows (ras : list (rollout_result * num)) bases (policy : list (list num)) : length policy = length ras -> Forall2 (fun ra b => reference_ok ra.1 b) ras bases ->
  exists base, (if bool_decide (kl_beta args = 0%Qc) then Ok None else b <-? traverse (fun ra => single reference ra.1) ras; Ok (Some (map (map Some) b))) = Ok base
    /\ map (fmap (map Some)) bases = reference_rows base policy /\ (forall r, base = Some r -> length r = length policy) /\ (base = None -> kl_beta args = 0%Qc).
Proof.
  intros Hl Hb. destruct (decide (kl_beta args = 0%Qc)) as [Hk|Hk].
  - rewrite bool_decide_eq_true_2 by done. exists None. split; [done|]. split; [|done]. cbn. revert policy Hl. induction Hb as [|ra b ras bases Hb _ IH]; intros [|p policy] Hl; try done.
    destruct b as [w|]; [by destruct Hb|]. cbn. f_equal. apply IH. by injection Hl.
  - rewrite bool_decide_eq_false_2 by done. assert (exists ws, bases = map Some ws /\ traverse (fun ra => single reference ra.1) ras = Ok ws /\ length ws = length ras) as (ws & -> & -> & Hw).
    { clear Hl. induction Hb as [|ra b ras bases Hb _ (ws & -> & IH & IHl)]; [by exists []|]. destruct b as [w|]; [|done]. destruct Hb as [_ Hb]. exists (w :: ws). split; [done|]. cbn. by rewrite Hb, IH, IHl. }
    eexists. split; [done|]. split; [cbn; rewrite !map_map; done|]. split; [|done]. intros r [= <-]. rewrite length_map. lia.
Qed.

Lemma traverse_map {X Y B} (f : Y -> res B) (g : X -> Y) l : traverse f (map g l) = traverse (fun x => f (g x)) l.
Proof. induction l as [|x l IH]; [done|]. cbn [map traverse]. by rewrite IH. Qed.

Lemma bases_of (ras : list (rollout_result * num)) base :
  (if bool_decide (kl_beta args = 0%Qc) then Ok None else b <-? traverse (fun ra => single reference ra.1) ras; Ok (Some (map (map Some) b))) = Ok base ->
  exists bases, Forall2 (fun ra b => reference_ok ra.1 b) ras bases.
Proof.
  destruct (decide (kl_beta args = 0%Qc)) as [Hk|Hk].
  - intros _. exists (map (fun _ => None) ras). apply Forall2_fmap_r. apply Forall_Forall2_diag. by apply Forall_true.
  - rewrite bool_decide_eq_false_2 by done. destruct (traverse _ ras) as [b|] eqn:Eb; [|done]. intros _. exists (map Some b). apply Forall2_fmap_r.
    eapply Forall2_impl; [apply traverse_inv, Eb|]. done.
Qed.

Lemma group_grpo ok results advantages x : corrected = false -> length results = 32%nat -> length advantages = 32%nat ->
  all_pass ok current results -> all_pass ok reference results ->
  group_loss results advantages = Ok x <->
  exists xs, Forall2 (fun ra l => alone ok ra.1 ra.2 l) (zip results advantages) xs /\ x = (mean (map fst xs), pooled args (map snd xs)).
Proof.
  intros Hc Hr Ha Hok1 Hok2. assert (length advantages = length results) as Hl by congruence. destruct (zip_snd results advantages Hl) as [Es Ef]. unfold group_loss. rewrite Hc.
  assert (map behavior_log_probs results = map (fun ra => behavior_log_probs ra.1) (zip results advantages)) as -> by (rewrite <- Ef at 1; apply map_map).
  assert (traverse (fun r => single reference r) results = traverse (fun ra => single reference ra.1) (zip results advantages)) as -> by (rewrite <- Ef at 1; apply traverse_map).
  assert (length (zip results advantages) = 32%nat) as Hz by (rewrite length_zip_with; lia). split.
  - destruct (traverse _ results) as [values|] eqn:Ev; [|done]. pose proof (proj2 (traverse_firsts _ _ _ _ Hl) Ev) as Hv.
    destruct (if bool_decide (kl_beta args = 0%Qc) then _ else _) as [base|] eqn:Eb; [|done]. destruct (bases_of _ _ Eb) as [bases Hb].
    destruct (grpo_loss _ _ _ _ _ _ _ _) as [l|] eqn:El; [|done]. intros [= <-]. apply traverse_inv, Forall2_length in Ev.
    destruct (references_as_rows (zip results advantages) bases (map (map Some) values) ltac:(rewrite length_map; lia) Hb) as (base' & Eb' & Hrows & Hbl & _).
    assert (base' = base) as -> by congruence.
    apply grpo_iff in El as ((Hg1 & Hg2 & _) & a & terms & Hadv & Ht & ->); [|rewrite ?length_map; lia..|done|by destruct values; [cbn in Ev; lia|]].
    rewrite <- Hrows in Ht. pose proof (grpo_distribute _ _ _ _ _ Hv Hb ltac:(rewrite Es; exact Hadv) Ht) as Hd.
    assert (length terms = 32%nat) as Hlt by (apply Forall2_length in Hd; lia).
    exists (map (fun t => row_of GrpoRow (grpo_row t)) terms). rewrite pooled_grpo by done. split; [|done]. apply Forall2_fmap_r.
    apply Forall2_same_length_lookup. split; [lia|]. intros i [r a0] t Hi Hti. destruct (Forall2_lookup_lr _ _ _ _ _ _ Hd Hi Hti) as (v & b & Hp).
    apply zip_elem in Hi. eapply grpo_alone; try done; [apply (Hok1 r); [done|]; apply Hp|]. intros w ->. apply (Hok2 r); [done|]. apply Hp.
  - intros (xs & Hf & ->). assert (grpo_bounds) as Hg.
    { clear Ef Es. destruct results as [|r0 rs], advantages as [|a0 l0]; try done. cbn in Hf. apply Forall2_cons_inv_l in Hf as (l & ? & Hal & _). by apply (alone_grpo ok r0 a0 l Hc) in Hal as [? _]. }
    assert (Forall2 (fun ra l => exists v b t, grpo_parts ra.1 ra.2 v b t /\ l = row_of GrpoRow (grpo_row t)) (zip results advantages) xs) as Hp.
    { eapply Forall2_impl; [exact Hf|]. intros [r a] l Hal. by apply (alone_grpo ok r a l Hc) in Hal as [_ ?]. }
    apply grpo_collect in Hp as (values & bases & a & terms & Hv & Hb & Hsnd & Ht & -> & Hlen). rewrite Es in Hsnd.
    rewrite (proj1 (traverse_firsts _ _ _ _ Hl) Hv). apply Forall2_length in Hv.
    destruct (references_as_rows (zip results advantages) bases (map (map Some) values) ltac:(rewrite length_map; lia) Hb) as (base & -> & Hrows & Hbl & Hbn).
    assert (grpo_loss exp expm1 (map (map Some) values) (map (fun ra => behavior_log_probs ra.1) (zip results advantages)) advantages (clip_eps args) base (kl_beta args)
      = Ok (grpo_of (kl_beta args) terms)) as ->.
    { apply grpo_iff; [rewrite !length_map; lia..|done|by destruct values; [cbn in Hv; lia|]|]. split; [by split; [apply Hg|split; [apply Hg|]]|]. exists a, terms. rewrite <- Hrows. done. }
    rewrite pooled_grpo by (done || lia). done.
Qed.
End Group.

(** ** Advantages *)

(** Advantages sum to zero, and a group of equal rewards has none. *)
Lemma advantages_centred sqrt rewards eps a : group_advantages sqrt rewards eps = Ok a ->
  length a = length rewards /\ total a = 0%Qc /\ forall r, Forall (fun x => x = Some r) rewards -> Forall (fun x => x = 0%Qc) a.
Proof.
  unfold group_advantages. destruct (qle eps 0); [done|]. case_bool_decide as Hne; [done|]. destruct (all_finite _ _) as [v|] eqn:Ev; [|done]. intros [= <-].
  apply all_finite_ok in Ev as ->. rewrite !length_map. split; [done|]. set (k := (deviation sqrt v + eps)%Qc). assert (length v <> 0%nat) as Hl by (by destruct v).
  assert (total v = mean v * qc (Z.of_nat (length v)))%Qc as Htot by (unfold mean; by rewrite qdiv_mul by (by apply qc_nonzero)).
  assert (forall l m, total (map (fun x => x - m)%Qc l) = (total l - m * qc (Z.of_nat (length l)))%Qc) as Hsub.
  { intros l m. induction l as [|x l IH]; cbn [map length]; [|rewrite !qtotal_cons, IH, qc_of_nat_S; ring].
    change (qc (Z.of_nat 0)) with (qc 0). rewrite qc_0. unfold total. cbn [foldr]. ring. }
  split.
  - rewrite (total_scale (fun x => x - mean v)%Qc k), Hsub, <- Htot. unfold Qcdiv. ring.
  - intros r Hr%Forall_fmap. assert (forall l, Forall (fun x => x = r) l -> total l = (r * qc (Z.of_nat (length l)))%Qc) as Hc.
    { intros l Hf. induction Hf as [|x l -> _ IH]; cbn [length]; [change (qc (Z.of_nat 0)) with (qc 0); rewrite qc_0; unfold total; cbn [foldr]; ring|].
      rewrite qtotal_cons, IH, qc_of_nat_S. ring. }
    assert (Forall (fun x => x = r) v) as Hv by (eapply Forall_impl; [exact Hr|]; by intros x [= ->]).
    assert (mean v = r) as Hm. { unfold mean. rewrite (Hc v Hv). unfold Qcdiv. rewrite <- Qcmult_assoc, Qcmult_inv_r, Qcmult_1_r by (by apply qc_nonzero). done. }
    apply Forall_fmap. eapply Forall_impl; [exact Hv|]. intros x ->. unfold compose. rewrite Hm. unfold Qcdiv. ring.
Qed.

(** ** Plans *)

Lemma fixed_plan_nonempty fuel start size n : (0 < size)%nat -> Forall (fun b => response_indices b <> []) (fixed_plan fuel start size n).
Proof.
  intros Hs. revert start. induction fuel as [|fuel IH]; intros start; cbn [fixed_plan]; [done|]. destruct (start <? n)%nat eqn:E; [|done]. constructor; [|apply IH].
  destr_bool. cbn. intros Hn. apply (f_equal length) in Hn. rewrite length_seq in Hn. cbn in Hn. lia.
Qed.

(** Every plan covers each response once with nonempty microbatches. *)
Lemma plan_covers lens size shapes plan : plan_learner_microbatches lens size shapes = Ok plan ->
  covers_once (length lens) plan /\ Forall (fun b => response_indices b <> []) plan.
Proof.
  unfold plan_learner_microbatches. intros Hplan. destruct shapes as [shapes|]; res_inv Hplan; destr_bool.
  - rename Hplan into Hpack. assert (forallb (covered shapes) lens = true) as Ec by done.
    set (order := sorted_by (index_le lens) (seq 0 (length lens))). assert (order ≡ₚ seq 0 (length lens)) as Hp by apply sorted_by_perm.
    destruct (pack_ok lens shapes ltac:(done) (length order) order) as (plan' & Hpack' & Hc & Hw); [lia| |].
    + apply Forall_forall. intros i Hi. rewrite Hp in Hi. apply elem_of_seq in Hi. rewrite forallb_forall in Ec. apply Ec. unfold length_of.
      apply list_elem_of_In, list_elem_of_lookup_total. exists i. split; [lia|done].
    + assert (plan' = plan) as -> by (unfold order in Hpack'; congruence). split; [unfold covers_once; by rewrite Hc|]. eapply Forall_impl; [exact Hw|]. intros b (c & _ & _ & Hl & _) E. rewrite E in Hl. cbn in Hl. lia.
  - subst plan. split; [|apply fixed_plan_nonempty; lia]. unfold covers_once. rewrite fixed_plan_covers by lia. by rewrite Nat.sub_0_r.
Qed.

(** ** One update *)

Section Update.
Context (log_softmax : list num -> list num) (exp expm1 : Qc -> num) (args : train_args) (current native_old reference : policy).
Context `{!RowModel current} `{!RowModel native_old} `{!RowModel reference}.
#[local] Notation alone := (alone log_softmax exp expm1 args current native_old reference).
#[local] Notation microbatch := (train_microbatch log_softmax exp expm1 args current native_old reference).
#[local] Notation group_loss := (group_loss log_softmax exp expm1 args current native_old reference).
#[local] Notation passes m results := (all_pass log_softmax args nonpositive m results).

Lemma zip_nth (results : list rollout_result) (advantages : list num) : length advantages = length results ->
  zip results advantages = map (fun i => (nth i results no_result, nth i advantages None)) (seq 0 (length results)).
Proof.
  intros Hl. apply list_eq. intros i. rewrite list_lookup_fmap, lookup_zip_with. destruct (decide (i < length results)%nat) as [Hi|Hi].
  - rewrite lookup_seq_lt by done. cbn. destruct (nth_lookup_or_length results i no_result) as [->|]; [|lia]. cbn.
    destruct (nth_lookup_or_length advantages i None) as [->|]; [done|lia].
  - rewrite lookup_seq_ge by lia. by rewrite (proj2 (lookup_ge_None results i)) by lia.
Qed.

Lemma group_any ok results advantages x : (corrected args = true -> kl_beta args = 0%Qc) -> length results = 32%nat -> length advantages = 32%nat ->
  all_pass log_softmax args ok current results -> all_pass log_softmax args ok native_old results -> all_pass log_softmax args ok reference results ->
  group_loss results advantages = Ok x <->
  exists xs, Forall2 (fun ra l => alone ok ra.1 ra.2 l) (zip results advantages) xs /\ x = (mean (map fst xs), pooled args (map snd xs)).
Proof. intros Hk Hr Ha H1 H2 H3. destruct (corrected args) eqn:Hc; [apply group_tis; auto|by apply group_grpo]. Qed.

(** What the loop over the plan leaves. *)
Definition batches_result (results : list rollout_result) (batches : list (list (nat * (Qc * metrics_row)))) : option (Qc * metrics_row) :=
  let metrics := foldl (fun rows x => <[x.1 := Some x.2.2]> rows) (replicate 32 None) (concat batches) in
  match mapM id metrics with
  | Some rows => Some (total (map (fun batch => total (map (fun x => x.2.1) batch) / qc 32)%Qc batches), pooled args rows)
  | None => None
  end.

Lemma batches_result_ok results indices batches (f : nat -> Qc * metrics_row) : length results = 32%nat -> indices ≡ₚ seq 0 32 ->
  concat batches = map (fun i => (i, f i)) indices ->
  batches_result results batches = Some (mean (map fst (map f (seq 0 32))), pooled args (map snd (map f (seq 0 32)))).
Proof.
  intros Hr Hp Hc. unfold batches_result. rewrite Hc.
  assert (foldl (fun rows x => <[x.1 := Some x.2.2]> rows) (replicate 32 None) (map (fun i => (i, f i)) indices) = map (fun i => Some (f i).2) (seq 0 32)) as ->.
  { rewrite <- (fill_all (fun i => (f i).2) indices 32 Hp). generalize (replicate (A := option metrics_row) 32 None). induction indices as [|i l IH] in |- *; [done|]. intros rows. cbn [map foldl fst snd]. apply IH. }
  rewrite <- (map_map (fun i => (f i).2) Some), mapM_id_Some, <- (map_map f snd). do 2 f_equal.
  rewrite (total_scale (fun batch => total (map (fun x => x.2.1) batch)) (qc 32)), <- (map_map (map (fun x => x.2.1)) total), <- total_concat, <- concat_map, Hc, map_map.
  cbn [fst snd]. rewrite mean_map, length_map, length_seq, map_map. change (qc 32) with (qc (Z.of_nat 32)). f_equal. by rewrite Hp.
Qed.

Lemma update_sound results advantages plan batches : length results = 32%nat -> length advantages = 32%nat -> (corrected args = true -> kl_beta args = 0%Qc) ->
  concat plan ≡ₚ seq 0 32 -> Forall2 (fun indices ps => microbatch results advantages indices = Ok ps) plan batches ->
  exists x, batches_result results batches = Some x /\ group_loss results advantages = Ok x.
Proof.
  intros Hr Ha Hk Hp Hf. destruct (reorder log_softmax exp expm1 args current native_old reference (fun _ => true) results advantages plan batches) as (f & Hc & Hal); [by rewrite Hr| |].
  { eapply Forall2_impl; [exact Hf|]. intros indices ps Hm. by apply microbatch_sound. }
  eexists. split; [by eapply batches_result_ok|]. apply (group_any (fun _ => true)); [done..|]. exists (map f (seq 0 32)). split; [|done].
  rewrite zip_nth by congruence. rewrite Hr in Hal |- *. apply Forall2_fmap. by apply Forall_Forall2_diag.
Qed.

Lemma update_complete results advantages plan x : length results = 32%nat -> length advantages = 32%nat -> (corrected args = true -> kl_beta args = 0%Qc) ->
  concat plan ≡ₚ seq 0 32 -> Forall (fun indices => indices <> []) plan -> passes current results -> passes native_old results -> passes reference results ->
  group_loss results advantages = Ok x ->
  exists batches, Forall2 (fun indices ps => microbatch results advantages indices = Ok ps) plan batches /\ batches_result results batches = Some x.
Proof.
  intros Hr Ha Hk Hp Hne H1 H2 H3 Hg. apply (group_any nonpositive) in Hg as (xs & Hf & ->); [|done..].
  set (d := (0%Qc, GrpoRow (Build_grpo_metrics 0 0 0 0 0 0))). assert (length xs = 32%nat) as Hxs by (apply Forall2_length in Hf; rewrite length_zip_with in Hf; lia).
  exists (map (map (fun i => (i, nth i xs d))) plan). split.
  - apply Forall2_fmap_r, Forall_Forall2_diag, Forall_forall. intros indices Hin. apply microbatch_complete; [done..|by apply (proj1 (Forall_forall _ _) Hne)|].
    apply Forall2_fmap_r, Forall_Forall2_diag, Forall_forall. intros i Hi. assert (i ∈ seq 0 32) as Hi32 by (rewrite <- Hp; apply list_elem_of_In, in_concat; exists indices; by rewrite <- !list_elem_of_In).
    apply elem_of_seq in Hi32. split; [done|]. rewrite zip_nth in Hf by congruence. apply Forall2_fmap_l in Hf. rewrite Hr in Hf.
    apply (Forall2_lookup_lr _ _ _ i i (nth i xs d) Hf); [apply lookup_seq_lt; lia|]. destruct (nth_lookup_or_length xs i d); [done|lia].
  - rewrite (batches_result_ok results (concat plan) _ (fun i => nth i xs d)); [|done|done|by rewrite concat_map]. rewrite <- Hxs, seq_nth. done.
Qed.
End Update.

Lemma lag_bounds args strict message1 message2 expected generating results update lag :
  lag_between args strict message1 message2 expected generating results update = Ok lag -> (0 <= lag <= if disable_prefetch args then 0 else 1)%Z.
Proof. unfold lag_between. repeat case_match; try done; intros [= <-]; destr_bool; lia. Qed.

Lemma policy_lag_bounds args results update expected snapshot lag : policy_lag args results update expected snapshot = Ok (Some lag) ->
  (0 <= lag <= if disable_prefetch args then 0 else 1)%Z.
Proof.
  unfold policy_lag. destruct (corrected args).
  - destruct (lag_between _ _ _ _ _ _ _ _) as [l|] eqn:E; [|done]. intros [= <-]. by eapply lag_bounds.
  - destruct expected as [e|]; [|done]. destruct (lag_between _ _ _ _ _ _ _ _) as [l|] eqn:E; [|done]. intros [= <-]. by eapply lag_bounds.
Qed.

Lemma correction_kl args mode : validate_correction_configuration args = Ok mode -> corrected args = true -> kl_beta args = 0%Qc.
Proof.
  unfold validate_correction_configuration, corrected. intros Hv Hc. rewrite Hc in Hv. cbn [andb] in Hv.
  destruct (bool_decide (kl_beta args = 0%Qc)) eqn:E; [by apply bool_decide_eq_true in E|]. by res_inv Hv.
Qed.

(** The model under the parameters of the generating policy. *)
Definition generating (current native_old : policy) (lag : option Z) : policy := match lag with Some 0%Z => current | _ => native_old end.

(** C2. For models that ignore right padding, one update applies exactly the
    loss of the whole group: however the planner splits the 32 responses and
    pads the microbatches, the accumulated loss and the pooled metrics (GRPO or
    Token-TIS) are those of scoring every response alone and taking the loss of
    all 32 at once, with a policy lag of at most one.  And the update goes
    through whenever that loss is defined and the guards and the plan hold. *)
Theorem train_group_exact log_softmax exp expm1 args current native_old reference `{!RowModel current} `{!RowModel native_old} `{!RowModel reference}
    results advantages update expected snapshot :
  let update_of := train_group log_softmax exp expm1 args current native_old reference results advantages update expected snapshot in
  let loss_of lag := group_loss log_softmax exp expm1 args current (generating current native_old lag) reference results advantages in
  (forall loss row lag, update_of = Ok (loss, row, lag) ->
     loss_of lag = Ok (loss, row) /\ (forall n, lag = Some n -> (0 <= n <= if disable_prefetch args then 0 else 1)%Z))
  /\ (forall mode a lag shapes plan loss row,
       validate_correction_configuration args = Ok mode -> (1 <= learner_microbatch_size args <= 32)%Z -> length results = 32%nat -> length advantages = 32%nat ->
       advantages = map Some a -> policy_lag args results update expected snapshot = Ok lag -> parse_learner_batch_shapes (learner_batch_shapes args) = Ok shapes ->
       plan_learner_microbatches (map (fun r => Z.of_nat (length (context_token_ids r)) + Z.of_nat (length (action_token_ids r)) - 1)%Z results)
         (learner_microbatch_size args) shapes = Ok plan ->
       (forall m, m ∈ [current; native_old; reference] -> all_pass log_softmax args nonpositive m results) ->
       loss_of lag = Ok (loss, row) -> update_of = Ok (loss, row, lag)).
Proof.
  intros update_of loss_of. unfold update_of, train_group. cbv zeta. split.
  - intros loss row lag. destruct (validate_correction_configuration args) as [mode|] eqn:Ev; [|done]. destruct (negb _) eqn:Em; [done|]. destruct (_ || _) eqn:El; [done|].
    destruct (policy_lag _ _ _ _ _) as [lag'|] eqn:Elag; [|done]. destruct (parse_learner_batch_shapes _) as [shapes|] eqn:Es; [|done].
    destruct (plan_learner_microbatches _ _ _) as [plan|] eqn:Ep; [|done]. fold (generating current native_old lag'). destruct (traverse _ plan) as [batches|] eqn:Et; [|done].
    intros Hr. destr_bool. apply plan_covers in Ep as [Hcov _]. unfold covers_once in Hcov. rewrite length_map in Hcov.
    assert (RowModel (generating current native_old lag')) as Hrm by (unfold generating; destruct lag' as [[]|]; assumption).
    destruct (update_sound log_softmax exp expm1 args current (generating current native_old lag') reference results advantages (map response_indices plan) batches)
      as (x & Hx & Hg); [done|done|by eapply correction_kl|congruence|apply Forall2_fmap_l; by apply traverse_inv|].
    unfold batches_result in Hx. destruct (mapM id _) as [rows|]; [|done]. injection Hx as <-. injection Hr as <- <- <-. split; [exact Hg|].
    intros n ->. by eapply policy_lag_bounds.
  - intros mode a lag shapes plan loss row Hv Hm Hr Ha Hfin Hlag Hs Hplan Hpass Hg. rewrite Hv, Hr, Ha, Hlag, Hs, Hplan.
    rewrite (proj2 (Z.leb_le 1 _)), (proj2 (Z.leb_le _ 32)) by lia. rewrite (proj2 (all_finite_ok advantages "" a) Hfin). cbn [andb negb orb Nat.eqb is_ok].
    apply plan_covers in Hplan as [Hcov Hne]. unfold covers_once in Hcov. rewrite length_map, Hr in Hcov. fold (generating current native_old lag).
    assert (RowModel (generating current native_old lag)) as Hrm by (unfold generating; destruct lag as [[]|]; assumption).
    destruct (update_complete log_softmax exp expm1 args current (generating current native_old lag) reference results advantages (map response_indices plan) (loss, row))
      as (batches & Hb & Hx); [done|done|by eapply correction_kl|done|by apply Forall_fmap| | | |exact Hg|].
    1-3: apply Hpass; unfold generating; repeat case_match; set_solver.
    rewrite (traverse_ok _ plan batches) by (by apply Forall2_fmap_l in Hb). unfold batches_result in Hx. destruct (mapM id _) as [rows|]; [|done]. by injection Hx as <- <-.
Qed.

(** ** Witness: 32 responses of lengths 1 to 4 in microbatches of at most 5 *)

Definition toy_log_softmax (row : list num) : list num := map (fmap (fun x => x - qc 6)%Qc) row.
Definition toy_exp (x : Qc) : num := Some (1 + x + x * x / qc 2)%Qc.
Definition toy_expm1 (x : Qc) : num := Some (x + x * x / qc 2)%Qc.
Definition toy_policy (shift : Z) : policy :=
  {| hook := None; token_scores := None;
     logits := fun tokens _ => Ok (map (map (fun t => map (fun j => Some (qc ((t + shift + j) mod 4))) (seqZ 0 4))) tokens) |}.

#[local] Instance toy_row_model shift : RowModel (toy_policy shift).
Proof.
  refine {| row_scores _ _ _ := []; row_logits := map (fun t => map (fun j => Some (qc ((t + shift + j) mod 4))) (seqZ 0 4)); vocab := 4 |}; [lia|done|done|].
  intros rows width Hrows. eexists. split; [reflexivity|]. rewrite map_map. apply Forall2_fmap_l, Forall_Forall2_diag. eapply Forall_impl; [exact Hrows|]. intros r [_ Hw].
  unfold compose, padded. rewrite map_app, length_app, !length_map, length_replicate, Forall_app. split; [lia|]. split.
  - split; apply Forall_fmap, Forall_true; intros t; cbn; done.
  - rewrite <- (length_map (fun t => map (fun j => Some (qc ((t + shift + j) mod 4))) (seqZ 0 4)) r) at 1. apply take_app_length.
Defined.

Definition toy_ack (version : Z) : pyval := PDict [("version", PInt version); ("lineage", PStr "run")].
Definition toy_results : list rollout_result :=
  map (fun i => {| context_token_ids := [1; 2]%Z; action_token_ids := map (fun j => (j + Z.of_nat i) mod 4)%Z (seqZ 0 (1 + Z.of_nat i mod 4));
                   behavior_log_probs := replicate (S (i mod 4)) (Some (- qc 4)%Qc); policy_ack := toy_ack 6 |}) (seq 0 32).
Definition toy_advantages : list num := map (fun i => Some (qc (Z.of_nat i mod 3) - 1)%Qc) (seq 0 32).
Definition toy_args (mode : string) (kl : Qc) : train_args :=
  {| rollout_correction := mode; rollout_is_cap := 2; kl_beta := kl; clip_eps := 1 / qc 5; temperature := 1; learner_microbatch_size := 5;
     learner_batch_shapes := Some "5:4,2:2047"; disable_prefetch := false |}%Qc.
Definition toy_update (mode : string) (kl : Qc) :=
  train_group toy_log_softmax toy_exp toy_expm1 (toy_args mode kl) (toy_policy 0) (toy_policy 1) (toy_policy 2) toy_results toy_advantages 8 (Some (toy_ack 7)) (Some (toy_ack 6)).
Definition toy_group (mode : string) (kl : Qc) :=
  group_loss toy_log_softmax toy_exp toy_expm1 (toy_args mode kl) (toy_policy 0) (toy_policy 1) (toy_policy 2) toy_results toy_advantages.

Lemma toy_passes mode kl m : forallb (fun r => match response_log_probs toy_log_softmax m (context_token_ids r) (action_token_ids r) (temperature (toy_args mode kl)) with
    Ok v => nonpositive v | Err _ => true end) toy_results = true -> all_pass toy_log_softmax (toy_args mode kl) nonpositive m toy_results.
Proof. intros Hf r v Hr Hv. rewrite forallb_forall in Hf. specialize (Hf r). rewrite Hv in Hf. apply Hf. by apply list_elem_of_In. Qed.

Definition toy_shapes : option (list cell) := match parse_learner_batch_shapes (Some "5:4,2:2047") with Ok s => s | Err _ => None end.
Definition toy_plan : list microbatch :=
  match plan_learner_microbatches (map (fun r => Z.of_nat (length (context_token_ids r)) + Z.of_nat (length (action_token_ids r)) - 1)%Z toy_results) 5 toy_shapes with
  | Ok p => p | Err _ => [] end.

(** Both directions, with a reference penalty and with Token-TIS, at lag 1. *)
Lemma train_group_exact_witness : exists row row',
  toy_update "none" (1 / qc 10) = Ok (qc 1043 / qc 1920, row, Some 1%Z)%Qc /\ toy_group "none" (1 / qc 10) = Ok (qc 1043 / qc 1920, row)%Qc
  /\ toy_group "decoupled-token-tis" 0 = Ok (qc 181 / qc 160, row')%Qc /\ toy_update "decoupled-token-tis" 0 = Ok (qc 181 / qc 160, row', Some 1%Z)%Qc.
Proof.
  destruct (toy_update "none" (1 / qc 10)) as [[[loss row] lag]|e] eqn:E; [|by vm_compute in E].
  destruct (toy_group "decoupled-token-tis" 0) as [[loss' row']|e] eqn:E'; [|by vm_compute in E'].
  assert (match toy_update "none" (1 / qc 10) with Ok (l, _, g) => bool_decide (l = qc 1043 / qc 1920 /\ g = Some 1%Z)%Qc | Err _ => false end = true) as Hv by (vm_compute; reflexivity).
  assert (match toy_group "decoupled-token-tis" 0 with Ok (l, _) => bool_decide (l = qc 181 / qc 160)%Qc | Err _ => false end = true) as Hv' by (vm_compute; reflexivity).
  rewrite E in Hv. rewrite E' in Hv'. apply bool_decide_eq_true in Hv as [-> ->]. apply bool_decide_eq_true in Hv' as ->. exists row, row'.
  split; [done|]. split; [|split; [done|]].
  - destruct (train_group_exact toy_log_softmax toy_exp toy_expm1 (toy_args "none" (1 / qc 10)) (toy_policy 0) (toy_policy 1) (toy_policy 2) toy_results toy_advantages
      8 (Some (toy_ack 7)) (Some (toy_ack 6))) as [Hsound _]. by destruct (Hsound _ _ _ E) as [Hg _].
  - destruct (train_group_exact toy_log_softmax toy_exp toy_expm1 (toy_args "decoupled-token-tis" 0) (toy_policy 0) (toy_policy 1) (toy_policy 2) toy_results toy_advantages
      8 (Some (toy_ack 7)) (Some (toy_ack 6))) as [_ Hcomplete].
    apply (Hcomplete "decoupled-token-tis" (map (fun i => qc (Z.of_nat i mod 3) - 1)%Qc (seq 0 32)) (Some 1%Z) toy_shapes toy_plan); try exact E'.
    + vm_compute. reflexivity.
    + cbn. lia.
    + reflexivity.
    + reflexivity.
    + unfold toy_advantages. by rewrite map_map.
    + vm_compute. reflexivity.
    + vm_compute. reflexivity.
    + vm_compute. reflexivity.
    + clear. intros m Hm. apply toy_passes. rewrite !elem_of_cons in Hm. destruct Hm as [->|[->|[->|Hm]]]; [| | |by apply elem_of_nil in Hm]; vm_compute; reflexivity.
Defined.
