(* ===== verification/Manager.v ===== *)
(** * The manager's mailbox ([dsv41_train/rl/manager.py])

    The child process [_serve] issues rollout groups one at a time, keeps each
    finished group until the learner commits it, and can be snapshotted and
    restored at a drained boundary.  The loop is a state machine: commands come
    from the learner, and the backend's answers come from the environment. *)

From stdpp Require Import pretty.
From S2P Require Import Prelude PyValue Training.
Local Open Scope Z_scope.
Local Open Scope py_scope.

(** ** Packets *)

Record packet := {
  pk_group : RolloutGroup;
  pk_training : TrainingGroup;
  pk_ack : pyval;
  pk_rest : pydict }.

Section Manager.
Context (float_repr : Z -> string) (sha256_hex : string -> string).
(** [float(s)] of a string. *)
Context (float_of_string : string -> res pyfloat).

(** [asdict] of a legacy group. *)
Definition sample_dict (s : Sample) : pyval :=
  PDict [("prompt_ids", ints (prompt_ids s)); ("response_ids", ints (response_ids s));
         ("behavior_log_probs", floats (sample_log_probs s)); ("reward", PFloat (sample_reward s));
         ("policy_version", PInt (policy_version s)); ("finish_reason", PStr (sample_finish_reason s));
         ("stop_token_count", PInt (sample_stop_tokens s)); ("raw_reward", PFloat (sample_raw_reward s))].

Definition group_dict (g : RolloutGroup) : pyval :=
  PDict [("samples", PList (map sample_dict (rg_samples g))); ("group_id", PInt (rg_group_id g));
         ("policy_version", PInt (rg_policy_version g))].

Definition encode_packet (p : packet) : pyval :=
  PDict (pk_rest p ++ [("policy_ack", pk_ack p); ("group", group_dict (pk_group p));
                       ("training_group", group_to_dict float_repr (pk_training p))]).

(** [float(v)]; a result that is not finite is refused by [Sample]. *)
Definition py_float (v : pyval) : res pyfloat :=
  match v with
  | PFloat f => Ok f
  | PStr s => float_of_string s
  | PBool b => finite float_repr "float" (PInt (if b then 1 else 0))
  | PInt _ => finite float_repr "float" v
  | _ => Err (TypeError "float() argument must be a string or a real number")
  end.

Definition token_list (name : string) (v : pyval) : res (list Z) :=
  match v with
  | PList ((_ :: _) as l) =>
      traverse (fun t => match t with
                         | PInt z => if z <? 0 then Err (ValueError (name +:+ " must contain only nonnegative integer token IDs")) else Ok z
                         | _ => Err (ValueError (name +:+ " must contain only nonnegative integer token IDs"))
                         end) l
  | PList [] => Err (ValueError (name +:+ " must not be empty"))
  | _ => Err (ValueError (name +:+ " must be a list of nonnegative integer token IDs"))
  end.

Definition SAMPLE_FIELDS : list string :=
  ["prompt_ids"; "response_ids"; "behavior_log_probs"; "reward"; "policy_version"; "finish_reason";
   "stop_token_count"; "raw_reward"].

(** [Sample] from keyword arguments; when several arguments are bad, only that
    it raises is modelled, not which error comes first. *)
Definition sample_of_dict (v : pyval) : res Sample :=
  match v with
  | PDict d =>
      raise_when negb (forallb (fun k => bool_decide (k ∈ SAMPLE_FIELDS)) (dict_keys d))
                 || negb (forallb (fun k => bool_decide (k ∈ dict_keys d)) (take 5 SAMPLE_FIELDS)) with_exn
        TypeError "Sample() got unexpected or missing arguments";
      prompt <-? token_list "prompt_ids" (get_none "prompt_ids" d);
      response <-? token_list "response_ids" (get_none "response_ids" d);
      values <-? iterate (get_none "behavior_log_probs" d);
      log_probs <-? traverse py_float values;
      reward <-? py_float (get_none "reward" d);
      raw <-? optional py_float (get_none "raw_reward" d);
      reason <-? member (default (PStr "length") (dict_get "finish_reason" d)) ["eos"; "stop"; "length"];
      match reason, default (PInt 0) (dict_get "stop_token_count" d), get_none "policy_version" d with
      | Some reason, PInt stop, PInt version =>
          new_sample prompt response log_probs reward version reason stop raw
      | None, _, _ => Err (ValueError "finish_reason must be eos, stop or length")
      | _, PInt _, _ => Err (ValueError "policy_version must be a nonnegative integer")
      | _, _, _ => Err (ValueError "invalid stop_token_count")
      end
  | _ => Err (TypeError "argument after ** must be a mapping")
  end.

Definition group_of_dict (v : pyval) : res RolloutGroup :=
  match v with
  | PDict d =>
      values <-? dict_item "samples" d;
      items <-? iterate values;
      samples <-? traverse sample_of_dict items;
      gid <-? dict_item "group_id" d;
      version <-? dict_item "policy_version" d;
      match gid, version with
      | PInt gid, PInt version => new_rollout_group samples gid version
      | PInt _, _ => Err (ValueError "policy_version must be a nonnegative integer")
      | _, _ => Err (ValueError "group_id must be a nonnegative integer")
      end
  | _ => Err (TypeError "group is not a mapping")
  end.

(** The acknowledgement that a trace's policy implies. *)
Definition trace_ack (g : TrainingGroup) : pyval :=
  PDict [("version", PInt (version (tg_policy g))); ("digest", PStr (policy_digest (tg_policy g)));
         ("lineage", PStr (lineage (tg_policy g)))].

Definition packet_rest (d : pydict) : pydict :=
  filter (fun kv => bool_decide (kv.1 ∉ ["policy_ack"; "group"; "training_group"]) = true) d.

Definition decode_packet (v : pyval) : res packet :=
  match v with
  | PDict d =>
      encoded <-? dict_item "group" d;
      group <-? group_of_dict encoded;
      encoded <-? dict_item "training_group" d;
      trace <-? group_from_dict float_repr sha256_hex encoded;
      legacy <-? to_rollout_group trace;
      disagree <-? (if py_eqb (group_dict legacy) (group_dict group)
                    then ack <-? dict_item "policy_ack" d; Ok (negb (py_eqb (trace_ack trace) ack))
                    else Ok true);
      raise_when disagree with_exn
        ValueError "restored training trace, native group and policy acknowledgement disagree";
      Ok {| pk_group := group; pk_training := trace; pk_ack := get_none "policy_ack" d;
            pk_rest := packet_rest d |}
  | _ => Err (TypeError "packet is not a mapping")
  end.

(** ** State *)

Record row := { row_packet : packet; delivered : bool }.

(** The mailbox's dictionary in insertion order, the cursors and the flags. *)
Record manager := {
  next_group : Z;
  committed : Z;
  dropped : Z;
  retained : list (Z * row);
  active : option Z;
  paused : bool;
  closing : bool;
  pause_waiters : list Z;
  close_waiters : list Z;
  stream_paused : bool }.

Record limits := { queue_capacity : Z; groups_per_step : Z }.
Definition bound (c : limits) : Z := queue_capacity c + groups_per_step c.

Definition key_le (a b : Z * row) : bool := a.1 <=? b.1.
Definition in_order (l : list (Z * row)) : list (Z * row) := sorted_by key_le l.
Definition keys (l : list (Z * row)) : list Z := map fst l.
(** [sorted(retained)] *)
Definition sorted_keys (l : list (Z * row)) : list Z := sorted_by Z.leb (keys l).

Fixpoint find_row (i : Z) (l : list (Z * row)) : option row :=
  match l with
  | [] => None
  | (j, r) :: l => if i =? j then Some r else find_row i l
  end.

Definition drop_rows (ids : list Z) (l : list (Z * row)) : list (Z * row) :=
  filter (fun kr => bool_decide (kr.1 ∉ ids) = true) l.

Fixpoint mark_delivered (i : Z) (l : list (Z * row)) : list (Z * row) :=
  match l with
  | [] => []
  | (j, r) :: l => if i =? j then (j, {| row_packet := row_packet r; delivered := true |}) :: l
                   else (j, r) :: mark_delivered i l
  end.

Definition set_retained r m := {| next_group := next_group m; committed := committed m;
  dropped := dropped m; retained := r; active := active m; paused := paused m; closing := closing m;
  pause_waiters := pause_waiters m; close_waiters := close_waiters m; stream_paused := stream_paused m |}.
Definition set_cursors n c d m := {| next_group := n; committed := c;
  dropped := d; retained := retained m; active := active m; paused := paused m; closing := closing m;
  pause_waiters := pause_waiters m; close_waiters := close_waiters m; stream_paused := stream_paused m |}.
Definition set_active a m := {| next_group := next_group m; committed := committed m;
  dropped := dropped m; retained := retained m; active := a; paused := paused m; closing := closing m;
  pause_waiters := pause_waiters m; close_waiters := close_waiters m; stream_paused := stream_paused m |}.
Definition set_paused p c m := {| next_group := next_group m; committed := committed m;
  dropped := dropped m; retained := retained m; active := active m; paused := p; closing := c;
  pause_waiters := pause_waiters m; close_waiters := close_waiters m; stream_paused := stream_paused m |}.
Definition set_waiters pw cw sp m := {| next_group := next_group m; committed := committed m;
  dropped := dropped m; retained := retained m; active := active m; paused := paused m; closing := closing m;
  pause_waiters := pw; close_waiters := cw; stream_paused := sp |}.

(** ** Recovery *)

(** A recovery state: the cursors and the encoded packets; the model configuration
    and the random generator's state are carried along by the backend. *)
Record recovery := {
  rc_next : Z;
  rc_committed : option Z;
  rc_dropped : Z;
  rc_packets : list pyval }.

Fixpoint restore_packets (committed next : Z) (encoded : list pyval) (l : list (Z * row))
  : res (list (Z * row)) :=
  match encoded with
  | [] => Ok l
  | e :: encoded =>
      p <-? decode_packet e;
      let i := rg_group_id (pk_group p) in
      raise_when bool_decide (i ∈ keys l) || negb ((committed <=? i) && (i <? next)) with_exn
        ValueError "invalid or duplicate restored group cursor";
      restore_packets committed next encoded (l ++ [(i, {| row_packet := p; delivered := false |})])
  end.

(** Lines 46-58 and 77-78: the manager before its loop starts. *)
Definition restore (c : limits) (start_paused : bool) (r : recovery) : res manager :=
  let committed := default (rc_next r) (rc_committed r) in
  l <-? restore_packets committed (rc_next r) (rc_packets r) [];
  raise_when (bound c <? Z.of_nat (length l))
             || negb (bool_decide (sorted_keys l = range committed (rc_next r))) with_exn
    ValueError "restored mailbox exceeds capacity or has a cursor gap";
  Ok {| next_group := rc_next r; committed := committed; dropped := rc_dropped r; retained := l;
        active := None; paused := start_paused; closing := false; pause_waiters := []; close_waiters := [];
        stream_paused := start_paused |}.

(** [snapshot()]: only at a drained boundary. *)
Definition snapshot (busy : bool) (m : manager) : res recovery :=
  raise_when negb (bool_decide (active m = None)) || busy with_exn
    RuntimeError "recovery snapshot requires an actual drained group boundary";
  Ok {| rc_next := next_group m; rc_committed := Some (committed m); rc_dropped := dropped m;
        rc_packets := map (fun kr => encode_packet (row_packet kr.2)) (in_order (retained m)) |}.

(** ** Commands *)

Inductive command :=
| CmdGet
| CmdPause
| CmdCommit (consumed rejected : list Z)
| CmdActivate
| CmdEvaluate
| CmdResume
| CmdClose
| CmdUnknown (name : string).

Inductive reply :=
| NoPacket
| Packet (id : Z) (v : pyval)
| Cursors (committed dropped : Z)
| Value (v : pyval)
| Snapshot (r : recovery)
| Closed (r : recovery).

Definition first_undelivered (l : list (Z * row)) : option (Z * row) :=
  head (filter (fun kr => delivered kr.2 = false) (in_order l)).

Definition commit (consumed rejected : list Z) (m : manager) : res manager :=
  let ids := sorted_by Z.leb (consumed ++ rejected) in
  raise_when negb (distinct ids)
             || negb (bool_decide (ids = take (length ids) (sorted_keys (retained m))))
             || existsb (fun i => match find_row i (retained m) with
                                  | Some r => negb (delivered r) | None => false end) ids with_exn
    ValueError "commit requires the delivered oldest group prefix without duplicates";
  let m := set_retained (drop_rows ids (retained m)) m in
  Ok (set_cursors (next_group m) (match last ids with Some i => i + 1 | None => committed m end)
        (dropped m + Z.of_nat (length rejected)) m).

(** What the backend says when a command reaches it: its controls may raise. *)
Record backend_answer := { ack : pyval; control : res pyval; can_evaluate : bool; resume_ok : res unit }.

(** One command of the loop; [Err] ends the process with that exception. *)
Definition handle_command (request : Z) (cmd : command) (b : backend_answer) (m : manager)
  : res (manager * list (Z * reply)) :=
  match cmd with
  | CmdGet =>
      match first_undelivered (retained m) with
      | None => Ok (m, [(request, NoPacket)])
      | Some (i, r) => Ok (set_retained (mark_delivered i (retained m)) m,
                           [(request, Packet i (encode_packet (row_packet r)))])
      end
  | CmdPause => Ok (set_waiters (pause_waiters m ++ [request]) (close_waiters m) (stream_paused m)
                      (set_paused true (closing m) m), [])
  | CmdCommit consumed rejected =>
      m <-? commit consumed rejected m;
      Ok (m, [(request, Cursors (committed m) (dropped m))])
  | CmdActivate =>
      raise_when negb (paused m) || negb (bool_decide (active m = None)) with_exn
        ValueError "activation requires pause() to finish draining";
      v <-? control b; Ok (m, [(request, Value v)])
  | CmdEvaluate =>
      raise_when negb (paused m) || negb (bool_decide (active m = None)) || negb (can_evaluate b) with_exn
        ValueError "actor evaluation requires a drained paused vLLM manager";
      v <-? control b; Ok (m, [(request, Value v)])
  | CmdResume =>
      raise_when closing m with_exn ValueError "manager is closing";
      v <-? control b;
      resumed <-? resume_ok b;
      Ok (set_paused false (closing m) (set_waiters (pause_waiters m) (close_waiters m) false m),
          [(request, Value (ack b))])
  | CmdClose => Ok (set_waiters (pause_waiters m) (close_waiters m ++ [request]) (stream_paused m)
                      (set_paused true true m), [])
  | CmdUnknown name => Err (ValueError ("unknown manager command: " +:+ name))
  end.

(** ** One pass after the commands *)

(** What the active group did: still running, or its single result, whether it is
    eligible and safe, and the packet the backend holds for it. *)
Inductive group_answer :=
| StillRunning
| GroupRaised (e : exn)
| GroupDone (eligible safe : bool) (taken : res packet).

Definition collect (g : group_answer) (m : manager) : res manager :=
  match active m, g with
  | Some i, GroupDone eligible safe taken =>
      raise_when negb eligible || negb safe with_exn RuntimeError "manager group failed";
      p <-? taken;
      Ok (set_active None (set_retained (retained m ++ [(i, {| row_packet := p; delivered := false |})]) m))
  | Some _, GroupRaised e => Err e
  | _, _ => Ok m
  end.

(** The drained boundary: answer the pause waiters; when closing, stop. *)
Definition settle_pause (busy : bool) (pause_control close_stream : res pyval) (m : manager)
  : res (manager * list (Z * reply) * bool) :=
  if paused m && bool_decide (active m = None) then
    let m := set_waiters (pause_waiters m) (close_waiters m) true m in
    controlled <-? match pause_waiters m with [] => Ok PNone | _ => pause_control end;
    replies <-? traverse (fun w => s <-? snapshot busy m; Ok (w, Snapshot s)) (pause_waiters m);
    let m := set_waiters [] (close_waiters m) true m in
    if closing m then
      closed <-? close_stream;
      final <-? traverse (fun w => s <-? snapshot busy m; Ok (w, Closed s)) (close_waiters m);
      Ok (m, replies ++ final, true)
    else Ok (m, replies, false)
  else Ok (m, [], false).

Definition queued (l : list (Z * row)) : Z :=
  Z.of_nat (length (filter (fun kr => delivered kr.2 = false) l)).

(** Reserve the next cursor, then start its group. *)
Definition launch (c : limits) (m : manager) : manager :=
  if negb (paused m) && bool_decide (active m = None)
     && (Z.of_nat (length (retained m)) <? bound c) && (queued (retained m) <? queue_capacity c)
  then set_active (Some (next_group m)) (set_cursors (next_group m + 1) (committed m) (dropped m) m)
  else m.

(** The answers to one pass of [while True]. *)
Record pass := {
  requests : list (Z * command * backend_answer);
  channel_closed : bool;
  group_answered : group_answer;
  backend_busy : bool;
  pause_answer : res pyval;
  close_answer : res pyval }.

Fixpoint handle_commands (rs : list (Z * command * backend_answer)) (m : manager)
  : res (manager * list (Z * reply)) :=
  match rs with
  | [] => Ok (m, [])
  | (request, cmd, b) :: rs =>
      first <-? handle_command request cmd b m;
      rest <-? handle_commands rs first.1;
      Ok (rest.1, first.2 ++ rest.2)
  end.

Definition serve_pass (c : limits) (e : pass) (m : manager) : res (manager * list (Z * reply) * bool) :=
  handled <-? handle_commands (requests e) m;
  let m := if channel_closed e then set_paused true true handled.1 else handled.1 in
  m <-? collect (group_answered e) m;
  settled <-? settle_pause (backend_busy e) (pause_answer e) (close_answer e) m;
  let '(m, replies, stop) := settled in
  Ok (if stop then m else launch c m, handled.2 ++ replies, stop).

(** The loop over a list of passes: the state reached and every reply sent. *)
Fixpoint serve (c : limits) (passes : list pass) (m : manager) : res (manager * list (Z * reply)) :=
  match passes with
  | [] => Ok (m, [])
  | e :: passes =>
      r <-? serve_pass c e m;
      let '(m, replies, stop) := r in
      if stop then Ok (m, replies)
      else rest <-? serve c passes m; Ok (rest.1, replies ++ rest.2)
  end.
End Manager.
