(* ===== verification/ManagerProofs.v ===== *)
(** * The mailbox never loses, repeats or reorders a group

    Invariants of the manager's loop over every environment, and the round trip
    of its recovery snapshot. *)

From S2P Require Import Prelude PyValue Training TrainingProofs Manager.
Local Open Scope Z_scope.

(** ** The loop invariant *)

(** The identifiers between the cursors are exactly the retained groups, in
    insertion order, then the active one; what was delivered is a prefix. *)
Record Mailbox (c : limits) (m : manager) : Prop := {
  mb_cursors : committed m <= next_group m;
  mb_keys : keys (retained m) ++ option_list (active m) = range (committed m) (next_group m);
  mb_bound : next_group m - committed m <= bound c;
  mb_prefix : exists l1 l2, retained m = l1 ++ l2
    /\ Forall (fun kr => delivered kr.2 = true) l1 /\ Forall (fun kr => delivered kr.2 = false) l2 }.

Lemma keys_range c m : Mailbox c m ->
  keys (retained m) = range (committed m) (next_group m - Z.of_nat (length (option_list (active m)))).
Proof.
  intros [Hc Hk _ _]. destruct (active m) as [i|]; simpl in *.
  - assert (Hlt : committed m < next_group m).
    { apply (f_equal length) in Hk. rewrite length_app, range_length in Hk. simpl in Hk. lia. }
    replace (next_group m) with (next_group m - 1 + 1) in Hk by lia.
    rewrite range_snoc in Hk by lia. apply app_inj_2 in Hk as [Hk _]; [|done]. exact Hk.
  - rewrite app_nil_r in Hk. rewrite Hk. f_equal. lia.
Qed.

Lemma active_last c m i : Mailbox c m -> active m = Some i -> i = next_group m - 1 /\ committed m < next_group m.
Proof.
  intros [Hc Hk _ _] Ha. rewrite Ha in Hk. simpl in Hk.
  assert (Hlt : committed m < next_group m).
  { apply (f_equal length) in Hk. rewrite length_app, range_length in Hk. simpl in Hk. lia. }
  replace (next_group m) with (next_group m - 1 + 1) in Hk by lia.
  rewrite range_snoc in Hk by lia. apply app_inj_2 in Hk as [_ [= ->]]; [|done]. done.
Qed.

Lemma sorted_keys_id c m : Mailbox c m -> sorted_keys (retained m) = keys (retained m).
Proof. intros H. unfold sorted_keys. apply sorted_by_id. rewrite (keys_range c m H). apply range_sorted. Qed.

Lemma in_order_id c m : Mailbox c m -> in_order (retained m) = retained m.
Proof.
  intros H. unfold in_order. apply sorted_by_id. pose proof (keys_range c m H) as Hk.
  pose proof (range_sorted (committed m) (next_group m - Z.of_nat (length (option_list (active m))))) as Hs.
  rewrite <- Hk in Hs. unfold keys in Hs. clear -Hs.
  induction (retained m) as [|kr l IH]; [constructor|]. simpl in Hs. inversion Hs as [|? ? Hl Hall]; subst.
  constructor; [by apply IH|]. by apply Forall_fmap in Hall.
Qed.

(** *** Rows *)

Lemma keys_mark i l : keys (mark_delivered i l) = keys l.
Proof. induction l as [|[j r] l IH]; simpl; [done|]. destruct (i =? j); simpl; [done|by rewrite IH]. Qed.

Lemma mark_split i r l1 l2 :
  i ∉ keys l1 -> mark_delivered i (l1 ++ (i, r) :: l2)
  = l1 ++ (i, {| row_packet := row_packet r; delivered := true |}) :: l2.
Proof.
  induction l1 as [|[j q] l1 IH]; intros Hi; simpl; [by rewrite Z.eqb_refl|].
  destruct (i =? j) eqn:E; destr_bool; [subst; simpl in Hi; set_solver|]. rewrite IH; [done|]. simpl in Hi. set_solver.
Qed.

Lemma drop_rows_nil l : drop_rows [] l = l.
Proof.
  unfold drop_rows. induction l as [|kr l IH]; [done|]. rewrite filter_cons_True; [by f_equal|].
  apply bool_decide_eq_true. set_solver.
Qed.

Lemma drop_rows_absent j ids l : j ∉ keys l -> drop_rows (j :: ids) l = drop_rows ids l.
Proof.
  unfold drop_rows. induction l as [|kr l IH]; intros Hj; [done|]. simpl in Hj. rewrite !filter_cons.
  rewrite IH by set_solver.
  assert (Hiff : bool_decide (kr.1 ∉ j :: ids) = bool_decide (kr.1 ∉ ids)) by (apply bool_decide_ext; set_solver).
  by rewrite Hiff.
Qed.

Lemma drop_prefix k l : NoDup (keys l) -> drop_rows (take k (keys l)) l = drop k l.
Proof.
  revert k; induction l as [|[j r] l IH]; intros [|k] Hnd; simpl; try done; [apply drop_rows_nil|].
  apply NoDup_cons in Hnd as [Hj Hnd]. simpl in Hj.
  unfold drop_rows at 1. rewrite filter_cons_False by (simpl; rewrite bool_decide_eq_true; set_solver).
  fold (drop_rows (j :: take k (keys l)) l). rewrite drop_rows_absent by done. by apply IH.
Qed.

(** *** Commands *)

Definition same_mailbox (m m' : manager) : Prop :=
  next_group m' = next_group m /\ committed m' = committed m /\ retained m' = retained m /\ active m' = active m.

Lemma Mailbox_frame c m m' : same_mailbox m m' -> Mailbox c m -> Mailbox c m'.
Proof. intros (Hn & Hc & Hr & Ha) []. constructor; rewrite ?Hn, ?Hc, ?Hr, ?Ha; done. Qed.

(** The cursor of the next delivery. *)
Definition delivered_upto (m : manager) : Z :=
  committed m + Z.of_nat (length (filter (fun kr => delivered kr.2 = true) (retained m))).

Lemma filter_delivered l1 l2 :
  Forall (fun kr : Z * row => delivered kr.2 = true) l1 -> Forall (fun kr : Z * row => delivered kr.2 = false) l2 ->
  filter (fun kr => delivered kr.2 = true) (l1 ++ l2) = l1
  /\ filter (fun kr => delivered kr.2 = false) (l1 ++ l2) = l2.
Proof.
  intros H1 H2. rewrite !filter_app. split.
  - replace (filter _ l2) with (@nil (Z * row)).
    + rewrite app_nil_r. induction H1; [done|]. rewrite filter_cons_True by done. by f_equal.
    + symmetry. induction H2 as [|kr l Hk _ IH]; [done|]. rewrite filter_cons_False by congruence. done.
  - replace (filter _ l1) with (@nil (Z * row)).
    + simpl. induction H2; [done|]. rewrite filter_cons_True by done. by f_equal.
    + symmetry. induction H1 as [|kr l Hk _ IH]; [done|]. rewrite filter_cons_False by congruence. done.
Qed.

Definition packet_ids (rs : list (Z * reply)) : list Z :=
  omap (fun r => match r.2 with Packet i _ => Some i | _ => None end) rs.

(** The first undelivered row carries the delivery cursor. *)
Lemma first_undelivered_spec c m i r :
  Mailbox c m -> first_undelivered (retained m) = Some (i, r) ->
  i = delivered_upto m /\ exists l1 l2, retained m = l1 ++ (i, r) :: l2
    /\ Forall (fun kr => delivered kr.2 = true) l1
    /\ Forall (fun kr => delivered kr.2 = false) ((i, r) :: l2).
Proof.
  intros Hm H. unfold first_undelivered in H. rewrite (in_order_id c m Hm) in H.
  pose proof (keys_range c m Hm) as Hk.
  destruct (mb_prefix c m Hm) as (l1 & l2 & Hr & H1 & H2).
  unfold delivered_upto. rewrite Hr in H, Hk |- *. destruct (filter_delivered l1 l2 H1 H2) as [-> Hf].
  rewrite Hf in H. destruct l2 as [|kr l2]; [done|]. simpl in H. simplify_eq.
  split; [|by exists l1, l2].
  unfold keys in Hk. rewrite map_app in Hk. simpl in Hk.
  assert (Hi : (map fst l1 ++ i :: map fst l2) !! length l1 = Some i).
  { rewrite lookup_app_r by (by rewrite length_map). by rewrite length_map, Nat.sub_diag. }
  rewrite Hk in Hi. unfold range in Hi.
  rewrite (list_lookup_fmap (fun k => committed m + Z.of_nat k)) in Hi.
  destruct (seq _ _ !! length l1) as [x|] eqn:Ex; [|done]. simpl in Hi. injection Hi as <-.
  apply lookup_seq in Ex as [-> _]. lia.
Qed.

Lemma get_step c m i r :
  Mailbox c m -> first_undelivered (retained m) = Some (i, r) ->
  Mailbox c (set_retained (mark_delivered i (retained m)) m)
  /\ delivered_upto (set_retained (mark_delivered i (retained m)) m) = delivered_upto m + 1.
Proof.
  intros Hm H. destruct (first_undelivered_spec c m i r Hm H) as (_ & l1 & l2 & Hr & H1 & H2).
  pose proof (keys_range c m Hm) as Hk.
  assert (Hni : i ∉ keys l1).
  { pose proof (NoDup_range (committed m) (next_group m - Z.of_nat (length (option_list (active m))))) as Hnd.
    rewrite <- Hk, Hr in Hnd. unfold keys in Hnd. rewrite map_app in Hnd. simpl in Hnd.
    apply NoDup_app in Hnd as (_ & Hx & _). intros Hin. apply (Hx i); [exact Hin|set_solver]. }
  set (r' := {| row_packet := row_packet r; delivered := true |}).
  assert (Hmark : mark_delivered i (retained m) = (l1 ++ [(i, r')]) ++ l2).
  { rewrite Hr, mark_split by done. by rewrite <- app_assoc. }
  apply Forall_cons in H2 as [_ H2].
  assert (H1' : Forall (fun kr => delivered kr.2 = true) (l1 ++ [(i, r')])).
  { apply Forall_app. split; [done|]. by repeat constructor. }
  destruct Hm as [Hc Hkeys Hb Hp]. split.
  - constructor; simpl; try done.
    + by rewrite keys_mark.
    + rewrite Hmark. by exists (l1 ++ [(i, r')]), l2.
  - unfold delivered_upto. simpl. rewrite Hmark.
    destruct (filter_delivered _ _ H1' H2) as [-> _].
    pose proof H as H0. clear H0. rewrite Hr.
    destruct (filter_delivered l1 ((i, r) :: l2)) as [-> _]; [done|constructor; [|done]|].
    + assert (Hx : (i, r) ∈ filter (fun kr => delivered kr.2 = false) (in_order (retained m))).
      { unfold first_undelivered in H. destruct (filter _ _); simplify_eq/=; set_solver. }
      by apply list_elem_of_filter in Hx as [? _].
    + rewrite length_app. simpl. lia.
Qed.

Lemma find_row_in i r l : NoDup (keys l) -> (i, r) ∈ l -> find_row i l = Some r.
Proof.
  induction l as [|[j q] l IH]; intros Hnd Hin; [set_solver|]. simpl in *. apply NoDup_cons in Hnd as [Hj Hnd].
  apply elem_of_cons in Hin as [[= <- <-]|Hin]; [by rewrite Z.eqb_refl|].
  destruct (i =? j) eqn:E; destr_bool; [|by apply IH]. subst. exfalso. apply Hj.
  by apply (list_elem_of_fmap_2 fst l (j, r)).
Qed.

Lemma NoDup_keys c m : Mailbox c m -> NoDup (keys (retained m)).
Proof. intros H. rewrite (keys_range c m H). apply NoDup_range. Qed.

(** A commit removes exactly a delivered prefix and moves the cursor past it. *)
Lemma commit_spec c m consumed rejected m' :
  Mailbox c m -> commit consumed rejected m = Ok m' ->
  exists n, retained m' = drop n (retained m) /\ (n <= length (retained m))%nat
  /\ committed m' = committed m + Z.of_nat n /\ next_group m' = next_group m /\ active m' = active m
  /\ Forall (fun kr => delivered kr.2 = true) (take n (retained m))
  /\ sorted_by Z.leb (consumed ++ rejected) = take n (keys (retained m))
  /\ dropped m' = dropped m + Z.of_nat (length rejected).
Proof.
  intros Hm H. pose proof (NoDup_keys c m Hm) as Hnd. pose proof (keys_range c m Hm) as Hk.
  unfold commit in H. set (ids := sorted_by Z.leb (consumed ++ rejected)) in *. res_inv H.
  rewrite (sorted_keys_id c m Hm) in G. apply orb_false_iff in G as [G Hdel].
  apply orb_false_iff in G as [_ Hids]. destr_bool.
  set (n := length ids) in *.
  assert (Hn : (n <= length (retained m))%nat).
  { unfold n. rewrite Hids, length_take. unfold keys. rewrite length_map. lia. }
  exists n. subst m'. simpl. split_and!; try done.
  - rewrite Hids. by apply drop_prefix.
  - assert (Hlen : (n <= Z.to_nat (next_group m - Z.of_nat (length (option_list (active m))) - committed m))%nat).
    { rewrite <- range_length, <- Hk. unfold keys. by rewrite length_map. }
    rewrite Hids, Hk, take_range by done. clearbody n. destruct n as [|n'].
    + rewrite Z.add_0_r, range_nil. done.
    + rewrite last_range by lia. lia.
  - apply Forall_forall. intros [i r] Hin.
    assert (Hrow : find_row i (retained m) = Some r).
    { apply find_row_in; [done|]. rewrite <- (take_drop n (retained m)). set_solver. }
    assert (Hi : i ∈ ids).
    { rewrite Hids. unfold keys. rewrite firstn_map. by apply (list_elem_of_fmap_2 fst _ (i, r)). }
    destruct (delivered r) eqn:E; [done|exfalso].
    assert (existsb (fun i => match find_row i (retained m) with Some r => negb (delivered r) | None => false end) ids
            = true); [|congruence].
    apply existsb_exists. exists i. rewrite <- list_elem_of_In, Hrow, E. done.
Qed.

Lemma commit_step c m consumed rejected m' :
  Mailbox c m -> commit consumed rejected m = Ok m' -> Mailbox c m' /\ delivered_upto m' = delivered_upto m.
Proof.
  intros Hm H. destruct (commit_spec c m consumed rejected m' Hm H) as (n & Hr & Hn & Hc & Hnx & Ha & Hdel & _).
  pose proof (keys_range c m Hm) as Hk. destruct (mb_prefix c m Hm) as (l1 & l2 & Hl & H1 & H2).
  assert (Hn1 : (n <= length l1)%nat).
  { destruct (decide (n <= length l1)%nat) as [|Hgt]; [done|exfalso].
    destruct l2 as [|kr l2].
    - rewrite Hl, app_nil_r in Hn. lia.
    - rewrite Hl in Hdel. apply Forall_cons in H2 as [Hkr _]. rewrite Forall_forall in Hdel.
      rewrite (Hdel kr) in Hkr; [done|]. rewrite take_app_ge by lia. apply elem_of_app; right.
      replace (n - length l1)%nat with (S (n - length l1 - 1)) by lia. simpl. set_solver. }
  assert (Hdrop : retained m' = drop n l1 ++ l2) by (by rewrite Hr, Hl, drop_app_le).
  assert (Hd1 : Forall (fun kr => delivered kr.2 = true) (drop n l1)) by by apply Forall_drop.
  split.
  - destruct Hm as [Hcu Hkeys Hb _].
    assert (Hle : (n <= Z.to_nat (next_group m - committed m))%nat).
    { rewrite <- range_length, <- Hkeys, length_app. unfold keys. rewrite length_map. lia. }
    constructor; rewrite ?Hc, ?Hnx, ?Ha.
    + lia.
    + rewrite Hr. rewrite <- drop_range by lia. rewrite <- Hkeys. unfold keys. rewrite <- skipn_map.
      rewrite drop_app_le; [done|]. by rewrite length_map.
    + lia.
    + by exists (drop n l1), l2.
  - unfold delivered_upto. rewrite Hdrop, Hc, Hl.
    destruct (filter_delivered _ _ Hd1 H2) as [-> _]. destruct (filter_delivered _ _ H1 H2) as [-> _].
    rewrite length_drop. lia.
Qed.

Lemma delivered_frame m m' : same_mailbox m m' -> delivered_upto m' = delivered_upto m.
Proof. intros (_ & Hc & Hr & _). unfold delivered_upto. by rewrite Hc, Hr. Qed.

Section Proofs.
Context (float_repr : Z -> string).
Local Abbreviation handle_command := (handle_command float_repr).
Local Abbreviation serve_pass := (serve_pass float_repr).
Local Abbreviation serve := (serve float_repr).

(** What a stretch of the loop does: it keeps the mailbox and delivers the next
    identifiers in order. *)
Definition delivers (c : limits) (m m' : manager) (rs : list (Z * reply)) : Prop :=
  Mailbox c m' /\ delivered_upto m <= delivered_upto m'
  /\ packet_ids rs = range (delivered_upto m) (delivered_upto m').

Lemma delivers_none c m m' rs :
  Mailbox c m' -> delivered_upto m' = delivered_upto m -> packet_ids rs = [] -> delivers c m m' rs.
Proof. intros Hm Hd Hp. split_and!; [done|lia|]. by rewrite Hp, Hd, range_nil. Qed.

Lemma delivers_trans c m1 m2 m3 rs1 rs2 :
  delivers c m1 m2 rs1 -> delivers c m2 m3 rs2 -> delivers c m1 m3 (rs1 ++ rs2).
Proof.
  intros (_ & Hle1 & Hp1) (Hm & Hle2 & Hp2). split_and!; [done|lia|].
  unfold packet_ids in *. rewrite omap_app, Hp1, Hp2. apply range_app. lia.
Qed.

Lemma handle_command_delivers c request cmd b m m' rs :
  Mailbox c m -> handle_command request cmd b m = Ok (m', rs) -> delivers c m m' rs.
Proof.
  intros Hm H. destruct cmd as [| |consumed rejected| | | | |name]; simpl in H.
  - destruct (first_undelivered (retained m)) as [[i r]|] eqn:E; simplify_eq; [|by apply delivers_none].
    destruct (get_step c m i r Hm E) as [Hm' Hd]. destruct (first_undelivered_spec c m i r Hm E) as [-> _].
    split_and!; [done|lia|]. rewrite Hd. simpl. rewrite range_cons, range_nil by lia. done.
  - simplify_eq. apply delivers_none; [|by apply delivered_frame|done]. eapply Mailbox_frame; [|exact Hm]. by repeat split.
  - destruct (commit _ _ _) as [m1|] eqn:E; [|done]. simplify_eq.
    destruct (commit_step c m consumed rejected m' Hm E). by apply delivers_none.
  - res_inv H. simplify_eq. by apply delivers_none.
  - res_inv H. simplify_eq. by apply delivers_none.
  - res_inv H. simplify_eq. apply delivers_none; [|by apply delivered_frame|done].
    eapply Mailbox_frame; [|exact Hm]. by repeat split.
  - simplify_eq. apply delivers_none; [|by apply delivered_frame|done]. eapply Mailbox_frame; [|exact Hm]. by repeat split.
  - done.
Qed.

Lemma handle_commands_delivers c rs m m' out :
  Mailbox c m -> handle_commands float_repr rs m = Ok (m', out) -> delivers c m m' out.
Proof.
  revert m m' out; induction rs as [|[[request cmd] b] rs IH]; intros m m' out Hm H; simpl in H.
  - simplify_eq. by apply delivers_none.
  - destruct (handle_command request cmd b m) as [[m1 out1]|] eqn:E; [|done].
    destruct (handle_commands _ rs _) as [[m2 out2]|] eqn:E2; [|done]. simplify_eq. simpl in *.
    pose proof (handle_command_delivers c _ _ _ _ _ _ Hm E) as Hd1.
    eapply delivers_trans; [exact Hd1|]. apply IH; [apply Hd1|done].
Qed.

Lemma collect_delivers c g m m' : Mailbox c m -> collect g m = Ok m' -> delivers c m m' [].
Proof.
  intros Hm H. unfold collect in H. destruct (active m) as [i|] eqn:Ha; [|simplify_eq; by apply delivers_none].
  destruct g as [|e|eligible sf taken]; simplify_eq; [by apply delivers_none|].
  destruct (_ || _); [done|]. destruct taken as [p|]; [|done]. simplify_eq.
  destruct Hm as [Hc Hk Hb (l1 & l2 & Hr & H1 & H2)].
  set (new := (i, {| row_packet := p; delivered := false |})).
  assert (H2' : Forall (fun kr => delivered kr.2 = false) (l2 ++ [new])) by (apply Forall_app; split; [done|by repeat constructor]).
  apply delivers_none; [|unfold delivered_upto; simpl; rewrite Hr, <- app_assoc;
    destruct (filter_delivered _ _ H1 H2') as [-> _]; by destruct (filter_delivered _ _ H1 H2) as [-> _]|done].
  constructor; simpl; try done.
  - unfold keys. rewrite map_app. rewrite Ha in Hk. simpl in *. by rewrite app_nil_r.
  - exists l1, (l2 ++ [new]). split_and!; [by rewrite Hr, app_assoc|done|done].
Qed.

Lemma launch_delivers c m : Mailbox c m -> delivers c m (launch c m) [].
Proof.
  intros Hm. unfold launch. destruct (_ && _) eqn:E; [|by apply delivers_none]. destr_bool.
  apply delivers_none; [|done|done]. pose proof (keys_range c m Hm) as Hk. destruct Hm as [Hc Hkeys Hb Hp].
  rewrite H2 in *. simpl in *. constructor; simpl; try done; try lia.
  - rewrite range_snoc by lia. f_equal. by rewrite app_nil_r in Hkeys.
  - assert (Hlen : length (retained m) = Z.to_nat (next_group m - committed m)).
    { apply (f_equal length) in Hkeys. rewrite app_nil_r, range_length in Hkeys. unfold keys in Hkeys. by rewrite length_map in Hkeys. }
    lia.
Qed.

Lemma traverse_packet_ids {A} (f : A -> res (Z * reply)) l rs :
  traverse f l = Ok rs -> (forall a x, f a = Ok x -> match x.2 with Packet _ _ => False | _ => True end) ->
  packet_ids rs = [].
Proof.
  intros H%traverse_inv Hf. induction H as [|a x l rs Hax _ IH]; [done|]. unfold packet_ids in *. simpl.
  specialize (Hf a x Hax). by destruct (x.2).
Qed.

Lemma settle_pause_delivers c busy pc cs m m' rs stop :
  Mailbox c m -> settle_pause float_repr busy pc cs m = Ok (m', rs, stop) -> delivers c m m' rs.
Proof.
  intros Hm H. unfold settle_pause in H. destruct (_ && _); [|simplify_eq; by apply delivers_none].
  set (m0 := set_waiters (pause_waiters m) (close_waiters m) true m) in H.
  res_inv H.
  assert (Hw : forall m1 ws (f : recovery -> reply) out,
    (forall r, match f r with Packet _ _ => False | _ => True end) ->
    traverse (fun w => s <-? snapshot float_repr busy m1; Ok (w, f s))%py ws = Ok out -> packet_ids out = []).
  { intros m1 ws f out Hf Hout. eapply traverse_packet_ids; [exact Hout|]. intros w x Hx.
    cbv beta in Hx. destruct (snapshot float_repr busy m1) as [r|]; [|done]. injection Hx as <-. apply Hf. }
  destruct (closing _); res_inv H; simplify_eq; (apply delivers_none; [|by apply delivered_frame|]);
    try (eapply Mailbox_frame; [|exact Hm]; by repeat split).
  - unfold packet_ids. rewrite omap_app. pose proof (Hw _ _ Snapshot _ (fun _ => I) R0) as Hx.
    pose proof (Hw _ _ Closed _ (fun _ => I) R2) as Hy. unfold packet_ids in Hx, Hy. by rewrite Hx, Hy.
  - by apply (Hw _ _ Snapshot _ (fun _ => I) R0).
Qed.

Lemma serve_pass_delivers c e m m' rs stop :
  Mailbox c m -> serve_pass c e m = Ok (m', rs, stop) -> delivers c m m' rs.
Proof.
  intros Hm H. unfold Manager.serve_pass in H.
  destruct (handle_commands _ _ _) as [[m1 out]|] eqn:E1; [|done]. cbn [fst snd] in H.
  pose proof (handle_commands_delivers c _ _ _ _ Hm E1) as Hd1.
  set (m2 := if channel_closed e then set_paused true true m1 else m1) in H.
  assert (Hd2 : delivers c m1 m2 []).
  { assert (Hsame : same_mailbox m1 m2) by (unfold m2; destruct (channel_closed e); by repeat split).
    apply delivers_none; [eapply Mailbox_frame; [exact Hsame|apply Hd1]|by apply delivered_frame|done]. }
  destruct (collect _ m2) as [m3|] eqn:E3; [|done].
  pose proof (collect_delivers c _ _ _ (proj1 Hd2) E3) as Hd3.
  destruct (settle_pause _ _ _ _ m3) as [[[m4 out4] stop4]|] eqn:E4; [|done]. simplify_eq.
  pose proof (settle_pause_delivers c _ _ _ _ _ _ _ (proj1 Hd3) E4) as Hd4.
  assert (Hd5 : delivers c m4 (if stop then m4 else launch c m4) []).
  { destruct stop; [apply delivers_none; [apply Hd4|done|done]|apply launch_delivers, Hd4]. }
  pose proof (delivers_trans _ _ _ _ _ _ Hd2 (delivers_trans _ _ _ _ _ _ Hd3 (delivers_trans _ _ _ _ _ _ Hd4 Hd5))) as Hd.
  simpl in Hd. rewrite app_nil_r in Hd. by apply (delivers_trans _ _ _ _ _ _ Hd1).
Qed.

Lemma serve_delivers c passes m m' rs :
  Mailbox c m -> serve c passes m = Ok (m', rs) -> delivers c m m' rs.
Proof.
  revert m m' rs; induction passes as [|e passes IH]; intros m m' rs Hm H; simpl in H.
  - simplify_eq. by apply delivers_none.
  - destruct (Manager.serve_pass _ c e m) as [[[m1 out] stop]|] eqn:E; [|done].
    pose proof (serve_pass_delivers c _ _ _ _ _ Hm E) as Hd. destruct stop; [by simplify_eq|].
    destruct (serve c passes m1) as [[m2 out2]|] eqn:E2; [|done]. simplify_eq. simpl.
    eapply delivers_trans; [exact Hd|]. apply IH; [apply Hd|done].
Qed.

(** ** Recovery *)

Context (sha256_hex : string -> string) (float_of_string : string -> res pyfloat).

Lemma restore_packets_undelivered a b encoded l l' :
  restore_packets float_repr sha256_hex float_of_string a b encoded l = Ok l' ->
  Forall (fun kr => delivered kr.2 = false) l -> Forall (fun kr => delivered kr.2 = false) l'.
Proof.
  revert l; induction encoded as [|e encoded IH]; intros l H Hl; simpl in H; [by simplify_eq|].
  destruct (decode_packet _ _ _ e) as [p|]; [|done]. res_inv H. eapply IH; [exact H|].
  apply Forall_app. split; [done|]. by repeat constructor.
Qed.

(** ** Recovery states *)

(** The committed cursor is not beyond the next group. *)
Definition ordered_cursors (r : recovery) : Prop := default (rc_next r) (rc_committed r) <= rc_next r.
Definition ordered_reply (x : Z * reply) : Prop := match x.2 with Snapshot r | Closed r => ordered_cursors r | _ => True end.

Lemma snapshots_ordered c m busy ws (f : recovery -> reply) out : Mailbox c m -> (forall r, ordered_cursors r -> match f r with Snapshot r | Closed r => ordered_cursors r | _ => True end) ->
  traverse (fun w => s <-? snapshot float_repr busy m; Ok (w, f s))%py ws = Ok out -> Forall ordered_reply out.
Proof.
  intros Hm Hf H%traverse_inv. induction H as [|w x ws out Hx _ IH]; constructor; [|done]. cbv beta in Hx. unfold snapshot in Hx. destruct (_ || busy); [done|].
  injection Hx as <-. apply Hf. apply (mb_cursors c m Hm).
Qed.

Lemma handle_command_ordered request cmd b m m' rs : handle_command request cmd b m = Ok (m', rs) -> Forall ordered_reply rs.
Proof.
  intros H. destruct cmd; simpl in H; try (destruct (first_undelivered _) as [[??]|]); try (res_inv H); simplify_eq; by repeat constructor.
Qed.

Lemma handle_commands_ordered rs m m' out : handle_commands float_repr rs m = Ok (m', out) -> Forall ordered_reply out.
Proof.
  revert m out; induction rs as [|[[request cmd] b] rs IH]; intros m out H; simpl in H; [by simplify_eq|].
  destruct (handle_command request cmd b m) as [[m1 out1]|] eqn:E; [|done]. destruct (handle_commands _ rs _) as [[m2 out2]|] eqn:E2; [|done]. simplify_eq.
  apply Forall_app. split; [by eapply handle_command_ordered|by eapply IH].
Qed.

Lemma settle_pause_ordered c busy pc cs m m' rs stop : Mailbox c m -> settle_pause float_repr busy pc cs m = Ok (m', rs, stop) -> Forall ordered_reply rs.
Proof.
  intros Hm H. unfold settle_pause in H. destruct (_ && _); [|by simplify_eq]. res_inv H.
  assert (forall m1, same_mailbox m m1 -> Mailbox c m1) as Hf by (intros m1 Hs; by eapply Mailbox_frame).
  destruct (closing _); res_inv H; simplify_eq; [apply Forall_app; split|];
    (eapply snapshots_ordered; [| |eassumption]; [by apply Hf|by intros r Hr]).
Qed.

Lemma serve_ordered c passes m m' rs : Mailbox c m -> serve c passes m = Ok (m', rs) -> Forall ordered_reply rs.
Proof.
  revert m rs; induction passes as [|e passes IH]; intros m rs Hm H; simpl in H; [by simplify_eq|].
  destruct (Manager.serve_pass _ c e m) as [[[m1 out] stop]|] eqn:E; [|done]. pose proof (serve_pass_delivers c _ _ _ _ _ Hm E) as [Hm1 _].
  assert (Forall ordered_reply out) as Hout.
  { unfold Manager.serve_pass in E. destruct (handle_commands _ _ _) as [[m2 out2]|] eqn:E1; [|done]. cbn [fst snd] in E.
    pose proof (handle_commands_delivers c _ _ _ _ Hm E1) as [Hm2 _]. set (m3 := if channel_closed e then set_paused true true m2 else m2) in E.
    assert (Mailbox c m3) as Hm3 by (eapply Mailbox_frame; [|exact Hm2]; unfold m3; destruct (channel_closed e); by repeat split).
    destruct (collect _ m3) as [m4|] eqn:E3; [|done]. pose proof (collect_delivers c _ _ _ Hm3 E3) as [Hm4 _].
    destruct (settle_pause _ _ _ _ m4) as [[[m5 out5] stop5]|] eqn:E4; [|done]. simplify_eq. apply Forall_app.
    split; [by eapply handle_commands_ordered|by eapply settle_pause_ordered]. }
  destruct stop; [by simplify_eq|]. destruct (serve c passes m1) as [[m2 out2]|] eqn:E2; [|done]. simplify_eq. apply Forall_app. split; [done|by eapply IH].
Qed.

(** ** The order of the rows *)

(** The dictionary's insertion order does not show: rows that are only ordered
    differently give the same replies and stay so. *)
Definition reordered (l : list (Z * row)) (m : manager) : Prop := l ≡ₚ retained m /\ NoDup (keys (retained m)).

Lemma in_order_perm l k : l ≡ₚ k -> NoDup (keys k) -> in_order l = in_order k.
Proof.
  intros Hp Hnd. unfold in_order. eapply (StronglySorted_unique_strong (fun a b => key_le a b = true)); [|apply sorted_by_sorted|apply sorted_by_sorted|by rewrite !sorted_by_perm].
  - intros [i r] [j q] Hx Hy Hij Hji. unfold key_le in *. cbn in *. assert (i = j) as <- by lia. rewrite sorted_by_perm in Hx, Hy. rewrite Hp in Hx.
    pose proof (find_row_in _ _ _ Hnd Hx). pose proof (find_row_in _ _ _ Hnd Hy). congruence.
  - unfold key_le. intros; lia.
  - unfold key_le. intros; lia.
  - unfold key_le. intros; lia.
  - unfold key_le. intros; lia.
Qed.

Lemma mark_map i l : NoDup (keys l) -> mark_delivered i l = map (fun kr => if i =? kr.1 then (kr.1, {| row_packet := row_packet kr.2; delivered := true |}) else kr) l.
Proof.
  induction l as [|[j r] l IH]; intros Hnd; [done|]. simpl in *. apply NoDup_cons in Hnd as [Hj Hnd]. destruct (i =? j) eqn:E; [|by rewrite IH].
  f_equal. apply Z.eqb_eq in E as ->. symmetry. transitivity (map id l); [|apply map_id]. apply map_ext_in. intros [k q] Hin%list_elem_of_In. cbn.
  destruct (Z.eqb_spec j k) as [->|]; [|done]. exfalso. apply Hj. by apply (list_elem_of_fmap_2 fst _ (k, q)).
Qed.

Lemma mark_perm i l k : l ≡ₚ k -> NoDup (keys k) -> mark_delivered i l ≡ₚ mark_delivered i k.
Proof.
  intros Hp Hnd. assert (NoDup (keys l)) as Hl by (unfold keys in *; by rewrite Hp). rewrite !mark_map by done. by rewrite Hp.
Qed.

Lemma find_row_perm i l k : l ≡ₚ k -> NoDup (keys k) -> find_row i l = find_row i k.
Proof.
  intros Hp Hnd. assert (NoDup (keys l)) as Hl by (unfold keys in *; by rewrite Hp).
  assert (forall l, NoDup (keys l) -> forall r, find_row i l = Some r <-> (i, r) ∈ l) as Hiff.
  { clear. intros l Hl r. split; [|by apply find_row_in]. induction l as [|[j q] l IH]; [done|]. simpl. apply NoDup_cons in Hl as [_ Hl].
    destruct (Z.eqb_spec i j) as [->|]; [intros [= ->]; left|]. intros H. right. by apply IH. }
  apply option_eq. intros r. rewrite (Hiff l Hl), (Hiff k Hnd). by rewrite Hp.
Qed.

Lemma sorted_keys_perm l k : l ≡ₚ k -> sorted_keys l = sorted_keys k.
Proof.
  intros Hp. unfold sorted_keys. eapply (StronglySorted_unique_strong (fun a b => (a <=? b) = true)); [|apply sorted_by_sorted|apply sorted_by_sorted|].
  - intros a b _ _ Ha Hb. lia.
  - intros; lia.
  - intros; lia.
  - intros; lia.
  - intros; lia.
  - rewrite !sorted_by_perm. unfold keys. by rewrite Hp.
Qed.

Lemma reordered_mailbox c l m : Mailbox c (set_retained l m) -> l ≡ₚ retained m -> reordered l m.
Proof. intros Hm Hp. split; [done|]. pose proof (NoDup_keys c _ Hm) as H. cbn in H. unfold keys in *. by rewrite <- Hp. Qed.

Lemma commit_reordered consumed rejected l m m' : reordered l m -> commit consumed rejected m = Ok m' ->
  exists l', commit consumed rejected (set_retained l m) = Ok (set_retained l' m') /\ l' ≡ₚ retained m'.
Proof.
  intros [Hp Hnd]. unfold commit. set (ids := sorted_by Z.leb (consumed ++ rejected)). cbn [retained set_retained]. rewrite (sorted_keys_perm l _ Hp).
  assert (existsb (fun i => match find_row i l with Some r => negb (delivered r) | None => false end) ids
          = existsb (fun i => match find_row i (retained m) with Some r => negb (delivered r) | None => false end) ids) as ->.
  { clear -Hp Hnd. induction ids as [|i ids IH]; [done|]. cbn. by rewrite (find_row_perm i l (retained m) Hp Hnd), IH. }
  destruct (_ || _); [done|]. intros [= <-]. exists (drop_rows ids l). split; [done|]. cbn. unfold drop_rows. by rewrite Hp.
Qed.

Lemma handle_command_reordered request cmd b l m m' rs : reordered l m -> handle_command request cmd b m = Ok (m', rs) ->
  exists l', handle_command request cmd b (set_retained l m) = Ok (set_retained l' m', rs) /\ l' ≡ₚ retained m'.
Proof.
  intros Hre H. pose proof Hre as [Hp Hnd]. destruct cmd; simpl in *.
  - unfold first_undelivered in *. rewrite (in_order_perm l _ Hp Hnd). destruct (head _) as [[i r]|]; simplify_eq; [|by exists l].
    exists (mark_delivered i l). split; [done|]. cbn. by apply mark_perm.
  - simplify_eq. by exists l.
  - destruct (commit _ _ m) as [m1|] eqn:E; [|done]. destruct (commit_reordered _ _ _ _ _ Hre E) as (l' & -> & Hl'). simplify_eq. by exists l'.
  - res_inv H. simplify_eq. by exists l.
  - res_inv H. simplify_eq. by exists l.
  - res_inv H. simplify_eq. by exists l.
  - simplify_eq. by exists l.
  - done.
Qed.

Lemma handle_commands_reordered c rs l m m' out : Mailbox c (set_retained l m) -> l ≡ₚ retained m -> handle_commands float_repr rs m = Ok (m', out) ->
  exists l', handle_commands float_repr rs (set_retained l m) = Ok (set_retained l' m', out) /\ l' ≡ₚ retained m'.
Proof.
  revert l m out; induction rs as [|[[request cmd] b] rs IH]; intros l m out Hm Hp H; simpl in H; [simplify_eq; by exists l|].
  destruct (handle_command request cmd b m) as [[m1 out1]|] eqn:E; [|done]. destruct (handle_commands _ rs _) as [[m2 out2]|] eqn:E2; [|done]. simplify_eq. cbn [fst snd] in *.
  destruct (handle_command_reordered request cmd b l m m1 out1) as (l1 & E1 & Hl1); [by apply (reordered_mailbox c)|done|].
  destruct (IH l1 m1 out2) as (l2 & E3 & Hl2); [exact (proj1 (handle_command_delivers c _ _ _ _ _ _ Hm E1))|done|done|]. exists l2. simpl. rewrite E1. cbn [fst snd]. by rewrite E3.
Qed.

Lemma settle_reordered c busy pc cs l m m' rs stop : Mailbox c (set_retained l m) -> l ≡ₚ retained m -> settle_pause float_repr busy pc cs m = Ok (m', rs, stop) ->
  settle_pause float_repr busy pc cs (set_retained l m) = Ok (set_retained l m', rs, stop) /\ retained m' = retained m.
Proof.
  intros Hm Hp. destruct (reordered_mailbox c l m Hm Hp) as [_ Hnd]. assert (forall m1 m2, retained m1 = retained m -> m2 = set_retained l m1 -> snapshot float_repr busy m2 = snapshot float_repr busy m1) as Hs.
  { intros m1 m2 Hr ->. unfold snapshot. cbn [active set_retained]. destruct (_ || busy); [done|]. cbn [retained set_retained next_group committed dropped]. by rewrite Hr, (in_order_perm l _ Hp Hnd). }
  assert (forall m1 m2 (ws : list Z) (f : recovery -> reply), retained m1 = retained m -> m2 = set_retained l m1 ->
    traverse (fun w => s <-? snapshot float_repr busy m2; Ok (w, f s))%py ws = traverse (fun w => s <-? snapshot float_repr busy m1; Ok (w, f s))%py ws) as Ht.
  { intros m1 m2 ws f Hr Hm2. induction ws as [|w ws IH]; [done|]. cbn [traverse]. by rewrite IH, (Hs m1 m2 Hr Hm2). }
  unfold settle_pause. cbn [paused active set_retained]. destruct (_ && _); [|intros [= <- <- <-]; done].
  set (m0 := set_waiters (pause_waiters m) (close_waiters m) true m). set (m0' := set_waiters _ _ true (set_retained l m)).
  change (pause_waiters m0') with (pause_waiters m0). destruct (match pause_waiters m0 with [] => _ | _ => _ end); [|done].
  rewrite (Ht m0 m0') by done. destruct (traverse _ (pause_waiters m0)) as [replies|]; [|done]. cbn [closing set_waiters m0 m0' set_retained].
  destruct (closing m); [|intros [= <- <- <-]; done]. destruct cs; [|done].
  match goal with |- context [traverse (fun w => s <-? snapshot _ _ ?a; _)%py (close_waiters ?b)] => rewrite (Ht (set_waiters [] (close_waiters m0) true m0) a) by done end.
  destruct (traverse _ (close_waiters _)); [|done]. intros [= <- <- <-]. done.
Qed.

Lemma queued_perm l k : l ≡ₚ k -> queued l = queued k.
Proof. intros Hp. unfold queued. by rewrite Hp. Qed.

Lemma collect_reordered g l m m' : l ≡ₚ retained m -> collect g m = Ok m' ->
  exists l', collect g (set_retained l m) = Ok (set_retained l' m') /\ l' ≡ₚ retained m'.
Proof.
  intros Hp H. unfold collect in *. cbn [active set_retained]. destruct (active m); [|simplify_eq; by exists l].
  destruct g as [| |eligible safe taken]; try done; [simplify_eq; by exists l|]. destruct (_ || _); [done|]. destruct taken; [|done].
  simplify_eq. eexists. split; [reflexivity|]. cbn. by rewrite Hp.
Qed.

Lemma serve_pass_reordered c e l m m' rs stop : Mailbox c (set_retained l m) -> l ≡ₚ retained m -> serve_pass c e m = Ok (m', rs, stop) ->
  exists l', serve_pass c e (set_retained l m) = Ok (set_retained l' m', rs, stop) /\ l' ≡ₚ retained m'.
Proof.
  intros Hm Hp H. unfold Manager.serve_pass in *. destruct (handle_commands _ _ m) as [[m1 out]|] eqn:E1; [|done]. cbn [fst snd] in H.
  destruct (handle_commands_reordered c _ _ _ _ _ Hm Hp E1) as (l1 & E1' & Hl1). rewrite E1'. pose proof (handle_commands_delivers c _ _ _ _ Hm E1') as [Hm1 _]. cbn [fst snd].
  set (m2 := if channel_closed e then set_paused true true m1 else m1) in *.
  assert ((if channel_closed e then set_paused true true (set_retained l1 m1) else set_retained l1 m1) = set_retained l1 m2 /\ Mailbox c (set_retained l1 m2) /\ retained m2 = retained m1) as (-> & Hm2 & Er2).
  { unfold m2. destruct (channel_closed e); split_and!; try done. eapply Mailbox_frame; [|exact Hm1]. by repeat split. }
  destruct (collect _ m2) as [m3|] eqn:E3; [|done]. rewrite <- Er2 in Hl1. destruct (collect_reordered _ _ _ _ Hl1 E3) as (l3 & E3' & Hl3). rewrite E3'.
  pose proof (collect_delivers c _ _ _ Hm2 E3') as [Hm3 _].
  destruct (settle_pause _ _ _ _ m3) as [[[m4 out4] stop4]|] eqn:E4; [|done]. simplify_eq.
  destruct (settle_reordered c _ _ _ _ _ _ _ _ Hm3 Hl3 E4) as [-> Er4]. exists l3. rewrite <- Er4 in Hl3. destruct stop; [done|].
  unfold launch. cbn [paused active retained set_retained]. rewrite (queued_perm l3 _ Hl3), (Permutation_length Hl3). by destruct (_ && _).
Qed.

Lemma serve_reordered c passes l m m' rs : Mailbox c (set_retained l m) -> l ≡ₚ retained m -> serve c passes m = Ok (m', rs) ->
  exists l', serve c passes (set_retained l m) = Ok (set_retained l' m', rs) /\ l' ≡ₚ retained m'.
Proof.
  revert l m rs; induction passes as [|e passes IH]; intros l m rs Hm Hp H; simpl in H; [simplify_eq; by exists l|].
  destruct (Manager.serve_pass _ c e m) as [[[m1 out] stop]|] eqn:E; [|done]. destruct (serve_pass_reordered c e l m m1 out stop Hm Hp E) as (l1 & E1 & Hl1).
  simpl. rewrite E1. destruct stop; [simplify_eq; by exists l1|]. destruct (serve c passes m1) as [[m2 out2]|] eqn:E2; [|done]. simplify_eq.
  destruct (IH l1 m1 out2) as (l2 & -> & Hl2); [exact (proj1 (serve_pass_delivers c _ _ _ _ _ Hm E1))|done|done|]. by exists l2.
Qed.

(** ** A restored mailbox *)

Lemma keys_in_order l : keys (in_order l) = sorted_keys l.
Proof.
  unfold sorted_keys. eapply (StronglySorted_unique_strong (fun a b => (a <=? b) = true)); [| |apply sorted_by_sorted|].
  - intros a b _ _ Ha Hb. lia.
  - unfold keys, in_order. assert (StronglySorted (fun a b => key_le a b = true) (sorted_by key_le l)) as Hs by (apply sorted_by_sorted; unfold key_le; intros; lia).
    induction Hs as [|a k _ IH Ha]; cbn; constructor; [done|]. by apply Forall_fmap.
  - intros; lia.
  - intros; lia.
  - unfold keys, in_order. by rewrite !sorted_by_perm.
Qed.

Lemma restore_mailbox c sp r m :
  restore float_repr sha256_hex float_of_string c sp r = Ok m -> ordered_cursors r ->
  Mailbox c (set_retained (in_order (retained m)) m) /\ delivered_upto (set_retained (in_order (retained m)) m) = committed m.
Proof.
  intros H Hle. unfold restore in H. res_inv H. subst m. unfold ordered_cursors in Hle.
  apply orb_false_iff in G as [Hb Hk]. destr_bool. rename value into l.
  assert (Forall (fun kr => delivered kr.2 = false) (in_order l)) as Hund.
  { unfold in_order. rewrite sorted_by_perm. exact (restore_packets_undelivered _ _ _ _ _ R ltac:(constructor)). }
  split.
  - constructor; simpl; try done.
    + rewrite app_nil_r, keys_in_order. exact Hk.
    + apply (f_equal length) in Hk. rewrite range_length, <- keys_in_order in Hk. unfold keys, in_order in Hk. rewrite length_map, sorted_by_length in Hk. lia.
    + by exists [], (in_order l).
  - unfold delivered_upto. cbn [retained set_retained committed]. destruct (filter_delivered [] (in_order l)) as [Hx _]; [done|done|].
    simpl in Hx. rewrite Hx. simpl. lia.
Qed.
End Proofs.

(** C32. Exactly-once delivery: from a fresh mailbox, or one restored from a
    recovery state whose committed cursor is not beyond the next group, whatever
    the order of its packets, over any run of the manager's loop the groups that
    [get] hands out are the consecutive identifiers from the committed cursor on,
    each once and in order; what lies between the cursors is exactly the
    retained groups and the active one, and never exceeds the mailbox bound; and
    every recovery state that the run reports has its cursors in order again.
    [restore] does not check that order: it accepts cursors that are the other
    way round ([inverted_cursors_accepted]), which no manager reports. *)
Theorem manager_delivers_once float_repr sha256_hex float_of_string c sp r m passes m' rs :
  restore float_repr sha256_hex float_of_string c sp r = Ok m ->
  ordered_cursors r ->
  serve float_repr c passes m = Ok (m', rs) ->
  packet_ids rs = range (committed m) (delivered_upto m')
  /\ sorted_keys (retained m') ++ option_list (active m') = range (committed m') (next_group m')
  /\ next_group m' - committed m' <= bound c
  /\ forall request r', (request, Snapshot r') ∈ rs \/ (request, Closed r') ∈ rs -> ordered_cursors r'.
Proof.
  intros Hr Hle H. destruct (restore_mailbox _ _ _ _ _ _ _ Hr Hle) as [Hm Hd]. set (m0 := set_retained (in_order (retained m)) m) in *.
  destruct (serve_reordered float_repr c passes (in_order (retained m)) m m' rs Hm (sorted_by_perm _ _) H) as (l & Hs & Hl).
  destruct (serve_delivers _ c passes m0 _ rs Hm Hs) as (Hm' & _ & Hp). pose proof (serve_ordered _ c passes m0 _ rs Hm Hs) as Ho. rewrite Forall_forall in Ho.
  rewrite Hd in Hp. split_and!.
  - rewrite Hp. f_equal. unfold delivered_upto. cbn [committed retained set_retained]. by rewrite Hl.
  - rewrite <- (sorted_keys_perm _ _ Hl), (sorted_keys_id c _ Hm' : sorted_keys l = keys l). apply (mb_keys c _ Hm').
  - apply Hm'.
  - intros request r' [Hin|Hin]; exact (Ho _ Hin).
Qed.

(** A commit is exact: it succeeds only for the oldest delivered groups
    without duplicates, removes exactly those from the mailbox, advances the
    committed cursor by their number and leaves every other group in place. *)
Theorem manager_commit_exact c m consumed rejected m' :
  Mailbox c m -> commit consumed rejected m = Ok m' ->
  let n := length (consumed ++ rejected) in
  consumed ++ rejected ≡ₚ range (committed m) (committed m + Z.of_nat n)
  /\ Forall (fun kr => delivered kr.2 = true) (take n (retained m))
  /\ retained m' = drop n (retained m) /\ committed m' = committed m + Z.of_nat n
  /\ dropped m' = dropped m + Z.of_nat (length rejected).
Proof.
  intros Hm H n. destruct (commit_spec c m consumed rejected m' Hm H)
    as (k & Hr & Hk & Hc & _ & _ & Hdel & Hids & Hdrop).
  assert (Hn : n = k).
  { apply (f_equal length) in Hids. rewrite sorted_by_length, length_take in Hids.
    unfold keys in Hids. rewrite length_map in Hids. unfold n. lia. }
  subst k. split_and!; try done.
  rewrite <- (sorted_by_perm Z.leb (consumed ++ rejected)), Hids, (keys_range c m Hm).
  rewrite take_range; [done|].
  rewrite <- range_length, <- (keys_range c m Hm). unfold keys. by rewrite length_map.
Qed.

(** ** Concrete mailboxes *)

Definition no_float (s : string) : res pyfloat := Err (ValueError "could not convert string to float").

Definition example_training : TrainingGroup :=
  match example_group with
  | Ok g => g
  | Err _ => {| tg_group_id := 0; tg_task_id := ""; tg_initial_context := ""; tg_reset := "";
                tg_policy := example_policy; expected_size := 0; samples := [] |}
  end.

Definition example_packet : packet :=
  {| pk_group := example_legacy; pk_training := example_training; pk_ack := trace_ack example_training;
     pk_rest := [("sequence", PInt 4)] |}.

Definition example_limits : limits := {| queue_capacity := 2; groups_per_step := 1 |}.

Definition quiet_pass (rs : list (Z * command * backend_answer)) (g : group_answer) : pass :=
  {| requests := rs; channel_closed := false; group_answered := g; backend_busy := false;
     pause_answer := Ok PNone; close_answer := Ok PNone |}.

Definition no_answer : backend_answer :=
  {| ack := PNone; control := Ok PNone; can_evaluate := false; resume_ok := Ok tt |}.

Definition example_passes : list pass :=
  [quiet_pass [] StillRunning; quiet_pass [] (GroupDone true true (Ok example_packet));
   quiet_pass [(1, CmdGet, no_answer); (2, CmdGet, no_answer); (3, CmdCommit [4] [], no_answer)] StillRunning].

Definition example_recovery : recovery :=
  {| rc_next := 4; rc_committed := None; rc_dropped := 0; rc_packets := [] |}.

Definition example_mailbox : manager :=
  {| next_group := 5; committed := 4; dropped := 0;
     retained := [(4, {| row_packet := example_packet; delivered := true |})]; active := None;
     paused := true; closing := false; pause_waiters := []; close_waiters := []; stream_paused := true |}.

Lemma example_mailbox_ok : Mailbox example_limits example_mailbox.
Proof.
  constructor; simpl; [lia|reflexivity|unfold bound; simpl; lia|].
  exists [(4, {| row_packet := example_packet; delivered := true |})], []. repeat constructor.
Defined.

Lemma manager_delivers_once_witness :
  exists m rs m', restore toy_repr toy_sha256 no_float example_limits false example_recovery = Ok m
  /\ serve toy_repr example_limits example_passes m = Ok (m', rs)
  /\ packet_ids rs = range 4 (delivered_upto m') /\ packet_ids rs = [4].
Proof.
  destruct (restore toy_repr toy_sha256 no_float example_limits false example_recovery) as [m|] eqn:E;
    [|vm_compute in E; discriminate E].
  assert (Hm : m = {| next_group := 4; committed := 4; dropped := 0; retained := []; active := None;
    paused := false; closing := false; pause_waiters := []; close_waiters := []; stream_paused := false |})
    by (vm_compute in E; injection E as <-; reflexivity).
  destruct (serve toy_repr example_limits example_passes m) as [[m' rs]|] eqn:Es;
    [|rewrite Hm in Es; vm_compute in Es; discriminate Es].
  exists m, rs, m'. split; [reflexivity|]. split; [exact Es|].
  assert (Hp : packet_ids rs = [4]) by (rewrite Hm in Es; vm_compute in Es; injection Es as _ <-; reflexivity).
  split; [|exact Hp].
  replace 4 with (committed m) by (rewrite Hm; reflexivity).
  apply (manager_delivers_once toy_repr toy_sha256 no_float example_limits false example_recovery m example_passes m' rs E).
  - unfold ordered_cursors. simpl. lia.
  - exact Es.
Defined.

Lemma manager_commit_exact_witness :
  exists m', Mailbox example_limits example_mailbox /\ commit [] [4] example_mailbox = Ok m'
  /\ committed m' = 5 /\ dropped m' = 1.
Proof.
  destruct (commit [] [4] example_mailbox) as [m'|] eqn:E; [|vm_compute in E; discriminate E].
  exists m'. split; [exact example_mailbox_ok|]. split; [reflexivity|].
  destruct (manager_commit_exact example_limits example_mailbox [] [4] m' example_mailbox_ok E)
    as (_ & _ & _ & Hc & Hd).
  split; [exact Hc|exact Hd].
Defined.

(** A recovery state whose committed cursor lies beyond the next group passes the
    cursor check: the range between them is empty. *)
Lemma inverted_cursors_accepted :
  is_ok (restore toy_repr toy_sha256 no_float example_limits false
    {| rc_next := 4; rc_committed := Some 9; rc_dropped := 0; rc_packets := [] |}) = true.
Proof. reflexivity. Qed.

(** * Manager snapshots can be restored

    A packet that the backend delivered decodes to itself, and a mailbox
    restored from its own snapshot has the same cursors and packets, all of them
    to be delivered again. *)

Section Recovery.
Context (float_repr : Z -> string) (sha256_hex : string -> string) (float_of_string : string -> res pyfloat).
Local Abbreviation decode_packet := (decode_packet float_repr sha256_hex float_of_string).
Local Abbreviation encode_packet := (encode_packet float_repr).
Local Abbreviation sample_of_dict := (sample_of_dict float_repr float_of_string).
Local Abbreviation group_of_dict := (group_of_dict float_repr float_of_string).
Local Abbreviation restore := (restore float_repr sha256_hex float_of_string).
Local Abbreviation snapshot := (snapshot float_repr).

(** ** Samples and groups *)

Lemma traverse_ints (f : pyval -> res Z) l :
  (forall z, 0 <= z -> f (PInt z) = Ok z) -> forallb (fun t => 0 <=? t) l = true ->
  traverse f (map PInt l) = Ok l.
Proof.
  intros Hf. induction l as [|z l IH]; intros H; [done|]. simpl in *. apply andb_true_iff in H as [Hz H].
  apply Z.leb_le in Hz. by rewrite Hf, IH.
Qed.

Lemma token_list_ints name l : validate_token_ids l = true -> token_list name (ints l) = Ok l.
Proof.
  unfold validate_token_ids, ints. intros H. apply andb_true_iff in H as [Hne Hpos].
  destruct l as [|z l]; [done|]. unfold token_list. apply (traverse_ints _ (z :: l)); [|done].
  intros x Hx. destruct (x <? 0) eqn:E; destr_bool; [lia|done].
Qed.

Lemma py_float_floats l : traverse (py_float float_repr float_of_string) (map PFloat l) = Ok l.
Proof. induction l as [|f l IH]; [done|]. simpl. by rewrite IH. Qed.

Lemma built_sample_facts s :
  built_sample s ->
  validate_token_ids (prompt_ids s) = true /\ validate_token_ids (response_ids s) = true
  /\ sample_finish_reason s ∈ ["eos"; "stop"; "length"].
Proof.
  unfold built_sample, new_sample. intros H. res_inv H. destr_bool. done.
Qed.

Lemma sample_roundtrip s : built_sample s -> sample_of_dict (sample_dict s) = Ok s.
Proof.
  intros Hs. destruct (built_sample_facts s Hs) as (Hp & Hr & Hreason).
  unfold Manager.sample_of_dict, sample_dict. cbn [dict_keys map fst].
  change (negb (forallb _ _) || negb (forallb _ _)) with false. cbv iota.
  repeat first [rewrite get_none_here | rewrite get_none_next by reflexivity].
  rewrite (token_list_ints _ _ Hp), (token_list_ints _ _ Hr). cbv beta iota. unfold floats. cbn [iterate].
  cbv beta iota. rewrite py_float_floats. cbv beta iota. cbn [py_float optional]. cbv beta iota.
  cbn [dict_get default]. unfold member.
  change (default (PStr "length") _) with (PStr (sample_finish_reason s)). cbv beta iota.
  rewrite bool_decide_eq_true_2 by done. cbv beta iota. exact Hs.
Qed.

(** A legacy group as its constructors build it. *)
Definition built_legacy (g : RolloutGroup) : Prop :=
  Forall built_sample (rg_samples g)
  /\ new_rollout_group (rg_samples g) (rg_group_id g) (rg_policy_version g) = Ok g.

Lemma legacy_dict_roundtrip g : built_legacy g -> group_of_dict (group_dict g) = Ok g.
Proof.
  intros [Hs Hg]. unfold Manager.group_of_dict, group_dict. unfold dict_item. cbn [dict_get].
  rewrite bool_decide_eq_true_2 by done. cbv beta iota. cbn [iterate]. cbv beta iota.
  assert (Ht : traverse sample_of_dict (map sample_dict (rg_samples g)) = Ok (rg_samples g)).
  { apply traverse_ok. clear Hg. induction Hs; constructor; [by apply sample_roundtrip|done]. }
  rewrite Ht. exact Hg.
Qed.

(** Dictionaries of legacy groups are equal to themselves. *)
Lemma sample_dict_plain s : built_sample s ->
  json_finite (sample_dict s) = true /\ distinct_keys (sample_dict s) = true.
Proof.
  unfold built_sample, new_sample. intros H. res_inv H. clear -G2 G3 G4.
  assert (Hints : forall l, json_finite (ints l) = true /\ distinct_keys (ints l) = true).
  { intros l. unfold ints. simpl. induction l as [|z l [IH1 IH2]]; simpl; done. }
  assert (Hfl : json_finite (floats (sample_log_probs s)) = true /\ distinct_keys (floats (sample_log_probs s)) = true).
  { clear -G2. unfold floats. simpl. induction (sample_log_probs s) as [|f l IH]; [done|].
    cbn [existsb] in G2. apply orb_false_iff in G2 as [Hf Hl]. cbn [map forallb].
    destruct (IH Hl) as [-> ->]. cbn [json_finite distinct_keys]. by destruct (float_value f). }
  destruct Hfl as [Hf1 Hf2]. destruct (Hints (prompt_ids s)) as [Hp1 Hp2], (Hints (response_ids s)) as [Hr1 Hr2].
  assert (Hrw : json_finite (PFloat (sample_reward s)) = true) by (simpl; by destruct (float_value (sample_reward s))).
  assert (Hrr : json_finite (PFloat (sample_raw_reward s)) = true) by (simpl in *; by destruct (float_value (sample_raw_reward s))).
  unfold sample_dict. split.
  - cbn -[json_finite ints floats]. change (json_finite (PDict ?d)) with (forallb (fun kv => json_finite kv.2) d).
    cbn [forallb snd]. rewrite Hp1, Hr1, Hf1, Hrw, Hrr. done.
  - change (distinct_keys (PDict ?d)) with (distinct (dict_keys d) && forallb (fun kv => distinct_keys kv.2) d)%bool.
    cbn [dict_keys map fst forallb snd]. rewrite Hp2, Hr2, Hf2. done.
Qed.

Lemma group_dict_refl g : built_legacy g -> py_eqb (group_dict g) (group_dict g) = true.
Proof.
  intros [Hs _].
  assert (H : forallb json_finite (map sample_dict (rg_samples g)) = true
              /\ forallb distinct_keys (map sample_dict (rg_samples g)) = true).
  { induction Hs as [|s l Hx _ [IH1 IH2]]; [done|]. destruct (sample_dict_plain s Hx) as [Hf Hd].
    cbn [map forallb]. by rewrite Hf, Hd, IH1, IH2. }
  destruct H as [H1 H2]. apply py_eqb_refl; unfold group_dict.
  - change (json_finite (PDict ?d)) with (forallb (fun kv => json_finite kv.2) d).
    cbn [forallb snd]. change (json_finite (PList ?l)) with (forallb json_finite l). by rewrite H1.
  - change (distinct_keys (PDict ?d)) with (distinct (dict_keys d) && forallb (fun kv => distinct_keys kv.2) d)%bool.
    cbn [dict_keys map fst forallb snd]. change (distinct_keys (PList ?l)) with (forallb distinct_keys l). by rewrite H2.
Qed.

(** ** Packets *)

(** A packet as the backend hands it over: the native group is the trace's, the
    acknowledgement names the trace's policy. *)
Record built_packet (p : packet) : Prop := {
  bp_training : built_group float_repr sha256_hex (pk_training p);
  bp_group : to_rollout_group (pk_training p) = Ok (pk_group p);
  bp_legacy : built_legacy (pk_group p);
  bp_ack : pk_ack p = trace_ack (pk_training p);
  bp_rest : forall k, k ∈ dict_keys (pk_rest p) -> k ∉ ["policy_ack"; "group"; "training_group"] }.

Lemma rest_lookup p k :
  built_packet p -> k ∈ ["policy_ack"; "group"; "training_group"] -> dict_get k (pk_rest p) = None.
Proof.
  intros Hp Hk. destruct (dict_get k (pk_rest p)) eqn:E; [|done].
  apply dict_get_Some_keys in E. by apply (bp_rest p Hp) in E.
Qed.

Lemma packet_rest_encode p : built_packet p ->
  packet_rest (pk_rest p ++ [("policy_ack", pk_ack p); ("group", group_dict (pk_group p));
                       ("training_group", group_to_dict float_repr (pk_training p))]) = pk_rest p.
Proof.
  intros Hp. unfold packet_rest. rewrite filter_app.
  assert (H1 : filter (fun kv => bool_decide (kv.1 ∉ ["policy_ack"; "group"; "training_group"]) = true) (pk_rest p) = pk_rest p).
  { pose proof (bp_rest p Hp) as Hr. clear Hp. induction (pk_rest p) as [|kv l IH]; [done|].
    rewrite filter_cons_True; [f_equal; apply IH; intros k Hk; apply Hr; simpl; set_solver|].
    apply bool_decide_eq_true. apply Hr. simpl. set_solver. }
  rewrite H1. rewrite !filter_cons_False by done.
  by rewrite app_nil_r.
Qed.

Lemma packet_roundtrip p : built_packet p -> decode_packet (encode_packet p) = Ok p.
Proof.
  intros Hp. unfold Manager.decode_packet, Manager.encode_packet. pose proof (packet_rest_encode p Hp) as Hrest.
  set (d := pk_rest p ++ _) in *.
  assert (Hget : dict_get "group" d = Some (group_dict (pk_group p))
    /\ dict_get "training_group" d = Some (group_to_dict float_repr (pk_training p))
    /\ dict_get "policy_ack" d = Some (pk_ack p)).
  { unfold d. rewrite !dict_get_app. rewrite !(rest_lookup p) by (done || set_solver). split_and!; reflexivity. }
  destruct Hget as (Hg & Ht & Ha). unfold dict_item, get_none. rewrite Hg, Ht, Ha.
  cbv beta iota. rewrite legacy_dict_roundtrip by apply Hp. cbv beta iota.
  rewrite group_roundtrip by apply Hp. cbv beta iota. rewrite (bp_group p Hp). cbv beta iota.
  rewrite group_dict_refl by apply Hp. cbv beta iota. rewrite (bp_ack p Hp).
  assert (Hack : py_eqb (trace_ack (pk_training p)) (trace_ack (pk_training p)) = true) by by apply py_eqb_refl.
  rewrite Hack. cbn [negb]. cbv beta iota. rewrite Hrest. cbn [default]. rewrite <- (bp_ack p Hp).
  by destruct p.
Qed.

(** ** Snapshots *)

(** Rows hold packets of the backend under their own group identifiers. *)
Definition good_rows (l : list (Z * row)) : Prop :=
  Forall (fun kr => built_packet (row_packet kr.2) /\ rg_group_id (pk_group (row_packet kr.2)) = kr.1) l.

Definition undelivered (l : list (Z * row)) : list (Z * row) :=
  map (fun kr => (kr.1, {| row_packet := row_packet kr.2; delivered := false |})) l.

Lemma keys_undelivered l : keys (undelivered l) = keys l.
Proof. unfold keys, undelivered. rewrite map_map. by apply map_ext. Qed.

Lemma restore_packets_rows a b l acc :
  good_rows l -> NoDup (keys (acc ++ l)) -> (forall i, i ∈ keys l -> a <= i < b) ->
  restore_packets float_repr sha256_hex float_of_string a b (map (fun kr => encode_packet (row_packet kr.2)) l) acc
  = Ok (acc ++ undelivered l).
Proof.
  intros Hg. revert acc; induction Hg as [|[i r] l [Hp Hi] _ IH]; intros acc Hnd Hin; [simpl; by rewrite app_nil_r|].
  cbn [map restore_packets snd row_packet]. rewrite packet_roundtrip by done. simpl in Hi. cbv beta iota zeta. rewrite Hi.
  unfold keys in Hnd. rewrite map_app in Hnd. simpl in Hnd.
  assert (Hni : i ∉ keys acc).
  { apply NoDup_app in Hnd as (_ & Hx & _). intros Hacc. apply (Hx i Hacc). set_solver. }
  rewrite bool_decide_eq_false_2 by done. simpl.
  destruct (Hin i) as [H1 H2]; [simpl; set_solver|]. apply Z.leb_le in H1. apply Z.ltb_lt in H2.
  rewrite H1, H2. simpl. rewrite IH.
  - by rewrite <- app_assoc.
  - unfold keys. rewrite <- app_assoc, map_app. simpl. done.
  - intros j Hj. apply Hin. simpl. set_solver.
Qed.
End Recovery.

(** Recovery round trip: a snapshot of a drained mailbox is always accepted
    back, and the restored mailbox has the same cursors, the same dropped count
    and the same packets under the same identifiers, to be delivered again. *)
Theorem manager_snapshot_restores float_repr sha256_hex float_of_string c sp busy m r :
  Mailbox c m -> good_rows float_repr sha256_hex (retained m) ->
  snapshot float_repr busy m = Ok r ->
  exists m', restore float_repr sha256_hex float_of_string c sp r = Ok m'
  /\ next_group m' = next_group m /\ committed m' = committed m /\ dropped m' = dropped m
  /\ retained m' = undelivered (retained m) /\ active m' = None.
Proof.
  intros Hm Hg H. unfold snapshot in H. res_inv H. destr_bool. subst r.
  unfold restore. cbn [rc_committed rc_next rc_dropped rc_packets default].
  pose proof (keys_range c m Hm) as Hk. rewrite H0 in Hk. simpl in Hk. rewrite Z.sub_0_r in Hk.
  rewrite (in_order_id c m Hm), (restore_packets_rows _ _ _ _ _ _ []); [|done| |].
  - simpl. assert (Hs : sorted_keys (undelivered (retained m)) = range (committed m) (next_group m)).
    { unfold sorted_keys. rewrite keys_undelivered. change (sorted_keys (retained m) = range (committed m) (next_group m)).
      by rewrite (sorted_keys_id c m Hm). }
    rewrite Hs, bool_decide_eq_true_2 by done. rewrite orb_false_r.
    assert (Hlen : Z.of_nat (length (undelivered (retained m))) <= bound c).
    { pose proof (mb_bound c m Hm). unfold undelivered. rewrite length_map.
      apply (f_equal length) in Hk. rewrite range_length in Hk. unfold keys in Hk. rewrite length_map in Hk.
      pose proof (mb_cursors c m Hm). lia. }
    destruct (bound c <? _) eqn:E; destr_bool; [lia|]. eexists. by split_and!.
  - simpl. by apply (NoDup_keys c).
  - intros i Hi. rewrite Hk in Hi. by apply elem_of_range in Hi.
Qed.

Lemma example_packet_built : built_packet toy_repr toy_sha256 example_packet.
Proof.
  assert (Hg : example_group = Ok example_training).
  { unfold example_training. destruct example_group eqn:E; [reflexivity|vm_compute in E; discriminate E]. }
  constructor.
  - exact (from_rollout_built toy_repr toy_sha256 _ _ _ _ _ _ example_policy_built Hg).
  - vm_compute. reflexivity.
  - split; [repeat constructor; vm_compute; reflexivity|vm_compute; reflexivity].
  - reflexivity.
  - intros k Hk. simpl in Hk. apply list_elem_of_singleton in Hk as ->. by apply (bool_decide_eq_true_1 _).
Defined.

Lemma manager_snapshot_restores_witness :
  exists r m', snapshot toy_repr false example_mailbox = Ok r
  /\ restore toy_repr toy_sha256 no_float example_limits true r = Ok m'
  /\ committed m' = 4 /\ length (retained m') = 1%nat.
Proof.
  destruct (snapshot toy_repr false example_mailbox) as [r|] eqn:E; [|vm_compute in E; discriminate E].
  destruct (manager_snapshot_restores toy_repr toy_sha256 no_float example_limits true false example_mailbox r)
    as (m' & Hr & _ & Hc & _ & Hret & _).
  - exact example_mailbox_ok.
  - constructor; [split; [exact example_packet_built|reflexivity]|constructor].
  - exact E.
  - exists r, m'. split; [reflexivity|]. split; [exact Hr|]. split; [exact Hc|]. rewrite Hret. reflexivity.
Defined.
