(* ===== verification/ManagerClient.v ===== *)
(** * The learner's side of the manager channel ([dsv41_train/rl/manager.py])

    [RolloutManager._rpc] and [_receive]: a synchronous client that sends one
    command at a time and stops for good after the first failure. *)

From S2P Require Import Prelude PyValue.
Local Open Scope Z_scope.

(** What one turn of the receive loop sees. *)
Inductive channel_event :=
| NothingYet (process_alive : bool)
| ChannelEof
| Fatal (traceback : string)
| Response (id : Z) (value : pyval).

Record client := {
  started : bool;
  request_id : Z;
  closed : bool;
  failed : bool;
  sent : list (Z * string) }.

Definition new_client : client :=
  {| started := false; request_id := 0; closed := false; failed := false; sent := [] |}.

Definition fail_client (cl : client) : client :=
  {| started := started cl; request_id := request_id cl; closed := closed cl; failed := true; sent := sent cl |}.

(** [_receive(request_id, timeout)]: each event comes with the time before it. *)
Fixpoint receive (deadline : Z) (id : Z) (events : list (Z * channel_event)) (cl : client)
  : option (client * res pyval) :=
  match events with
  | [] => None
  | (now, e) :: events =>
      if deadline <=? now
      then Some (fail_client cl, Err (TimeoutError "rollout worker failed: manager command acknowledgement timed out"))
      else match e with
           | NothingYet true => receive deadline id events cl
           | NothingYet false =>
               Some (fail_client cl, Err (RuntimeError "rollout worker failed: manager process exited"))
           | ChannelEof =>
               Some (fail_client cl, Err (RuntimeError "rollout worker failed: manager process closed its channel"))
           | Fatal traceback =>
               Some (fail_client cl, Err (RuntimeError ("rollout worker failed: " +:+ traceback)))
           | Response rid value =>
               if rid =? id then Some (cl, Ok value)
               else Some (fail_client cl, Err (RuntimeError "rollout worker failed: manager command identity differs"))
           end
  end.

(** How the send went: delivered, or a broken channel that may still hold the
    child's last message. *)
Inductive send_outcome := Delivered | Broken (readable : bool).

Definition rpc (timeout now : Z) (command : string) (s : send_outcome) (events : list (Z * channel_event))
    (cl : client) : option (client * res pyval) :=
  if negb (started cl) || closed cl || failed cl
  then Some (cl, Err (RuntimeError "manager is not running"))
  else
    let id := request_id cl + 1 in
    let attempted := {| started := started cl; request_id := id; closed := closed cl; failed := failed cl;
                        sent := match s with Delivered => sent cl ++ [(id, command)] | Broken _ => sent cl end |} in
    match s with
    | Delivered | Broken true => receive (now + timeout) id events attempted
    | Broken false =>
        Some (fail_client attempted, Err (RuntimeError "rollout worker failed: manager command channel closed"))
    end.

(** [start]: single-use; the first message answers request 0. *)
Definition start (timeout now : Z) (events : list (Z * channel_event)) (cl : client)
  : option (client * res pyval) :=
  if started cl || closed cl then Some (cl, Err (ValueError "manager start is single-use"))
  else receive (now + timeout) 0 events
         {| started := true; request_id := request_id cl; closed := closed cl; failed := failed cl; sent := sent cl |}.

(** A sequence of calls, stopping when the environment gives no more events. *)
Record call := { c_timeout : Z; c_now : Z; c_command : string; c_send : send_outcome;
                 c_events : list (Z * channel_event) }.

Fixpoint calls (l : list call) (cl : client) : option (client * list (res pyval)) :=
  match l with
  | [] => Some (cl, [])
  | x :: l =>
      match rpc (c_timeout x) (c_now x) (c_command x) (c_send x) (c_events x) cl with
      | None => None
      | Some (cl, r) =>
          match calls l cl with
          | None => None
          | Some (cl, rs) => Some (cl, r :: rs)
          end
      end
  end.

Lemma receive_cases deadline id events cl cl' r :
  receive deadline id events cl = Some (cl', r) ->
  (exists v, cl' = cl /\ r = Ok v /\ exists now, (now, Response id v) ∈ events)
  \/ (cl' = fail_client cl /\ is_ok r = false).
Proof.
  induction events as [|[now e] events IH]; intros H; simpl in H; [done|].
  destruct (deadline <=? now); [simplify_eq; by right|].
  destruct e as [[]| |tb|rid v]; [|simplify_eq; by right..|].
  - destruct (IH H) as [(v & -> & -> & t & Ht)|?]; [left|by right]. exists v. split_and!; [done..|]. exists t. set_solver.
  - destruct (rid =? id) eqn:E; simplify_eq; [|by right]. destr_bool. subst. left. exists v. split_and!; [done..|].
    exists now. set_solver.
Qed.

Lemma failed_rpc timeout now command s events cl :
  failed cl = true -> rpc timeout now command s events cl = Some (cl, Err (RuntimeError "manager is not running")).
Proof. intros H. unfold rpc. rewrite H, orb_true_r. done. Qed.

Lemma failed_calls l cl cl' rs :
  failed cl = true -> calls l cl = Some (cl', rs) ->
  cl' = cl /\ rs = map (fun _ => Err (RuntimeError "manager is not running")) l.
Proof.
  intros Hf. revert rs; induction l as [|x l IH]; intros rs H; simpl in H; [by simplify_eq|].
  rewrite failed_rpc in H by done. destruct (calls l cl) as [[cl1 rs1]|]; [|done]. simplify_eq.
  by destruct (IH rs1 eq_refl) as [-> ->].
Qed.

(** Fail-stop client: a call either returns the value of a response to its
    own request, or raises; and after any call that raised over a running
    channel, every later call raises without sending anything. *)
Theorem client_fails_stop timeout now command s events cl cl' r l cl'' rs :
  started cl = true -> closed cl = false -> failed cl = false ->
  rpc timeout now command s events cl = Some (cl', r) ->
  calls l cl' = Some (cl'', rs) ->
  match r with
  | Ok v => exists t, (t, Response (request_id cl + 1) v) ∈ events
  | Err _ => sent cl'' = sent cl' /\ Forall (fun r => is_ok r = false) rs
  end.
Proof.
  intros Hs Hc Hf H Hl. unfold rpc in H. rewrite Hs, Hc, Hf in H. simpl in H.
  assert (Hcase : (exists v t, r = Ok v /\ (t, Response (request_id cl + 1) v) ∈ events)
                  \/ (failed cl' = true /\ is_ok r = false)).
  { destruct s as [|[]]; [| |simplify_eq; by right];
      apply receive_cases in H as [(v & -> & -> & t & Ht)|[-> ?]]; eauto. }
  destruct Hcase as [(v & t & -> & Ht)|[Hfail Hr]]; [by exists t|].
  destruct r; [done|]. destruct (failed_calls l cl' cl'' rs Hfail Hl) as [-> ->].
  split; [done|]. apply Forall_fmap. by apply Forall_true.
Qed.

Lemma client_fails_stop_witness :
  let cl := {| started := true; request_id := 3; closed := false; failed := false; sent := [] |} in
  exists cl' r cl'' rs,
    rpc 10 0 "get" Delivered [(1, NothingYet true); (2, Response 9 PNone)] cl = Some (cl', r)
    /\ calls [{| c_timeout := 10; c_now := 3; c_command := "close"; c_send := Delivered; c_events := [] |}] cl'
       = Some (cl'', rs)
    /\ sent cl'' = [(4, "get")].
Proof.
  do 4 eexists. split; [reflexivity|]. split; [reflexivity|].
  exact (proj1 (client_fails_stop 10 0 "get" Delivered [(1, NothingYet true); (2, Response 9 PNone)]
    {| started := true; request_id := 3; closed := false; failed := false; sent := [] |} _ _
    [{| c_timeout := 10; c_now := 3; c_command := "close"; c_send := Delivered; c_events := [] |}] _ _
    eq_refl eq_refl eq_refl eq_refl eq_refl)).
Defined.
