(* ===== verification/StateRes.v ===== *)
(** * Stateful handlers that can raise

    A method of a shared object reads and changes the object's state and either
    returns or raises; what it changed before raising stays changed. *)

From S2P Require Import Prelude.

Definition stateful (S A : Type) : Type := S -> S * res A.

Section Stateful.
Context {S : Type}.

Definition returning {A} (a : A) : stateful S A := fun s => (s, Ok a).
Definition raising {A} (e : exn) : stateful S A := fun s => (s, Err e).
Definition sequence {A B} (m : stateful S A) (k : A -> stateful S B) : stateful S B := fun s =>
  match m s with
  | (s, Ok a) => k a s
  | (s, Err e) => (s, Err e)
  end.
(** [with s as the current state: k] *)
Definition reading {A} (k : S -> stateful S A) : stateful S A := fun s => k s s.
Definition changing (f : S -> S) : stateful S unit := fun s => (f s, Ok tt).
(** A computation that does not touch the state. *)
Definition computing {A} (r : res A) : stateful S A := fun s => (s, r).
Definition raising_if (b : bool) (e : exn) : stateful S unit := computing (raise_if b e).

(** [for x in l: body x] *)
Fixpoint for_each {A} (body : A -> stateful S unit) (l : list A) : stateful S unit :=
  match l with
  | [] => returning tt
  | x :: l => sequence (body x) (fun _ => for_each body l)
  end.

(** Every state a handler can leave behind, returning or raising. *)
Definition keeps {A} (I : S -> S -> Prop) (m : stateful S A) : Prop := forall s, I s (m s).1.

Section Keeps.
Context (I : S -> S -> Prop) (I_refl : forall s, I s s)
  (I_trans : forall s t u, I s t -> I t u -> I s u).

Lemma keeps_returning {A} (a : A) : keeps I (returning a).
Proof. intros s. apply I_refl. Qed.
Lemma keeps_raising {A} e : keeps I (@raising A e).
Proof. intros s. apply I_refl. Qed.
Lemma keeps_computing {A} (r : res A) : keeps I (computing r).
Proof. intros s. apply I_refl. Qed.
Lemma keeps_sequence {A B} (m : stateful S A) (k : A -> stateful S B) :
  keeps I m -> (forall a, keeps I (k a)) -> keeps I (sequence m k).
Proof.
  intros Hm Hk s. unfold sequence. specialize (Hm s). destruct (m s) as [t [a|e]]; [|done].
  eapply I_trans; [exact Hm|apply Hk].
Qed.
Lemma keeps_reading {A} (k : S -> stateful S A) : (forall s, keeps I (k s)) -> keeps I (reading k).
Proof. intros Hk s. apply Hk. Qed.
Lemma keeps_if {A} (b : bool) (m k : stateful S A) : keeps I m -> keeps I k -> keeps I (if b then m else k).
Proof. by destruct b. Qed.
Lemma keeps_for_each {A} (body : A -> stateful S unit) l :
  (forall x, keeps I (body x)) -> keeps I (for_each body l).
Proof.
  intros Hb. induction l; simpl; [apply keeps_returning|]. by apply keeps_sequence.
Qed.
End Keeps.

(** A handler that returned went through each of its parts. *)
Lemma sequence_ok {A B} (m : stateful S A) (k : A -> stateful S B) s s' b :
  sequence m k s = (s', Ok b) -> exists t a, m s = (t, Ok a) /\ k a t = (s', Ok b).
Proof. unfold sequence. destruct (m s) as [t [a|e]] eqn:E; [|done]. eauto. Qed.
Lemma raising_if_ok b e s s' u : raising_if b e s = (s', Ok u) -> s' = s /\ b = false.
Proof. unfold raising_if, computing, raise_if. by destruct b; intros [= -> _]. Qed.
Lemma computing_ok {A} (r : res A) s s' a : computing r s = (s', Ok a) -> s' = s /\ r = Ok a.
Proof. unfold computing. by intros [= -> ->]. Qed.
End Stateful.

Declare Scope handler_scope.
Delimit Scope handler_scope with handler.
Notation "x <~ m ; k" := (sequence m (fun x => k))
  (at level 100, m at level 99, k at level 200, right associativity) : handler_scope.
Notation "'do' m ; k" := (sequence m (fun _ => k))
  (at level 100, m at level 99, k at level 200, right associativity) : handler_scope.
Notation "'raise_when' b 'with_exn' e ; k" := (if b then raising e else k)
  (at level 100, b at level 200, e at level 200, k at level 200) : handler_scope.
