(* ===== verification/GenerationFailure.v ===== *)
(** * Failure receipts of a generation ([rollout_manager/generation_failure.py])

    A serving controller that refuses or loses a generation returns a receipt.
    Relay and trainer accept it only when it is bound to the request and either
    proves that the sampler has nothing left to do or claims nothing at all.
    [failure_is_terminal] itself is in [Contracts]. *)

From S2P Require Import Prelude PyValue Contracts Training.
Local Open Scope Z_scope.
Local Open Scope py_scope.

(** [re.fullmatch(r"[a-f0-9]{32}", s)] *)
Definition request_id_text (s : string) : bool :=
  (String.length s =? 32)%nat && string_forall is_lower_hex s.

(** [[a-z0-9_]] *)
Definition is_stage_char (a : ascii) : bool :=
  let n := nat_of_ascii a in is_digit a || (97 <=? n)%nat && (n <=? 122)%nat || (n =? 95)%nat.

(** [re.fullmatch(r"[a-z0-9_]{1,64}", s)] *)
Definition stage_text (v : pyval) : bool :=
  match v with
  | PStr s => (1 <=? String.length s)%nat && (String.length s <=? 64)%nat && string_forall is_stage_char s
  | _ => false
  end.

Definition sha256_value (v : pyval) : bool :=
  match v with PStr s => sha256_text s | _ => false end.

Definition is_bool (v : pyval) : bool := match v with PBool _ => true | _ => false end.

Definition nonempty_text (v : pyval) : bool :=
  match v with PStr s => negb (bool_decide (s = "")) | _ => false end.

Definition int_at_least (low : Z) (v : pyval) : bool :=
  match v with PInt z => low <=? z | _ => false end.

Definition FAILURE_KEYS : list string :=
  ["schema_version"; "request_id"; "request_payload_sha256"; "policy_ack"; "stage"; "sampler_outcome";
   "sampler_drained"; "actual_actor_drain_proven"; "drain_scope"; "proof_kind"; "automatic_replay"].

Section Failure.
Context (sha256_hex : string -> string).

(** [evidence_digest] of [generation_training.py]. *)
Definition evidence_digest (v : pyval) : res string :=
  t <-? json_dumps v; Ok (sha256_hex t).

(** The acknowledged policy of a receipt. *)
Definition ack_valid (ack : pyval) (expected : option pyval) : bool :=
  match ack with
  | PDict a =>
      same_keys a ["version"; "digest"; "lineage"]
      && int_at_least 0 (get_none "version" a)
      && sha256_value (get_none "digest" a)
      && nonempty_text (get_none "lineage" a)
      && match expected with Some e => py_eqb ack e | None => true end
  | _ => false
  end.

Definition validate_generation_failure (receipt payload : pyval) (request_id : string)
    (expected : option pyval) : res pydict :=
  let invalid := ValueError "invalid bound generation failure receipt" in
  match receipt with
  | PDict r =>
      let item k := get_none k r in
      raise_when negb (same_keys r FAILURE_KEYS)
                 || negb (match item "schema_version" with PInt z => z =? 1 | _ => false end)
                 || negb (is_str (item "request_id") request_id)
                 || negb (request_id_text request_id) with_exn invalid;
      payload_sha256 <-? evidence_digest payload;
      raise_when negb (is_str (item "request_payload_sha256") payload_sha256)
                 || negb (is_str (item "drain_scope") "request")
                 || negb (is_false (item "automatic_replay"))
                 || negb (stage_text (item "stage")) with_exn invalid;
      outcome <-? member (item "sampler_outcome") ["not_admitted"; "completed"; "unknown"];
      raise_when negb (match outcome with Some _ => true | None => false end)
                 || negb (is_bool (item "sampler_drained"))
                 || negb (is_bool (item "actual_actor_drain_proven")) with_exn invalid;
      raise_when negb (ack_valid (item "policy_ack") expected) with_exn
        ValueError "generation failure differs from the leased policy";
      if is_str (item "sampler_outcome") "unknown" then
        raise_when negb (is_str (item "proof_kind") "none")
                   || py_truthy (item "sampler_drained")
                   || py_truthy (item "actual_actor_drain_proven") with_exn
          ValueError "unknown generation cannot claim sampler drain";
        Ok r
      else
        terminal <-? failure_is_terminal r;
        raise_when negb terminal with_exn
          ValueError "known generation failure requires actual request closure proof";
        Ok r
  | _ => Err invalid
  end.

(** ** What an accepted receipt says *)

Lemma is_bool_inv v : is_bool v = true -> exists b, v = PBool b.
Proof. destruct v; try done. eauto. Qed.

Lemma item_of_keys k r : same_keys r FAILURE_KEYS = true -> k ∈ FAILURE_KEYS ->
  dict_item k r = Ok (get_none k r).
Proof.
  unfold same_keys. intros Hk Hin. apply andb_prop in Hk as [_ Hk].
  rewrite forallb_forall in Hk. specialize (Hk k (proj1 (list_elem_of_In _ _) Hin)).
  apply bool_decide_eq_true in Hk. unfold dict_item, get_none.
  destruct (dict_get k r) eqn:E; [done|]. by apply dict_get_None_keys in E.
Qed.

(** An unknown outcome is not a terminal proof. *)
Lemma unknown_not_terminal r : same_keys r FAILURE_KEYS = true ->
  py_truthy (get_none "sampler_drained" r) = false -> failure_is_terminal r = Ok false.
Proof.
  intros Hk Hd. unfold failure_is_terminal, res_and at 1.
  rewrite (item_of_keys "sampler_drained") by (done || set_solver).
  by destruct (get_none "sampler_drained" r) as [|[]| | | | |].
Qed.

Lemma failure_guards receipt payload request_id expected r :
  validate_generation_failure receipt payload request_id expected = Ok r ->
  receipt = PDict r /\ same_keys r FAILURE_KEYS = true
  /\ get_none "request_id" r = PStr request_id /\ request_id_text request_id = true
  /\ (exists d, evidence_digest payload = Ok d /\ get_none "request_payload_sha256" r = PStr d)
  /\ get_none "automatic_replay" r = PBool false
  /\ ack_valid (get_none "policy_ack" r) expected = true
  /\ failure_is_terminal r = Ok (negb (is_str (get_none "sampler_outcome" r) "unknown")).
Proof.
  unfold validate_generation_failure. destruct receipt as [| | | | | |d]; try done.
  intros H. res_inv H; subst; destr_bool.
  all: repeat match goal with H : is_str _ _ = true |- _ => apply is_str_inv in H end.
  all: match goal with H : is_false ?v = true |- _ => destruct v as [|[]| | | | |] eqn:?; try discriminate H end.
  assert (d = r /\ failure_is_terminal d = Ok (negb (is_str (get_none "sampler_outcome" d) "unknown"))) as [<- ?].
  { destruct (is_str (get_none "sampler_outcome" d) "unknown"); res_inv H; subst; destr_bool.
    - split; [done|]. by apply unknown_not_terminal.
    - by subst. }
  repeat split; try done. by eexists.
Qed.
End Failure.

(** An accepted failure receipt closes one request only: it is returned
    unchanged, never asks for a replay, is accepted for no other request
    identifier and for no payload of another digest, and it counts as a
    terminal proof exactly when its sampler outcome is not unknown. *)
Theorem failure_receipt_binds_one_request sha256_hex receipt payload request_id expected r :
  validate_generation_failure sha256_hex receipt payload request_id expected = Ok r ->
  receipt = PDict r
  /\ get_none "automatic_replay" r = PBool false
  /\ failure_is_terminal r = Ok (negb (is_str (get_none "sampler_outcome" r) "unknown"))
  /\ forall payload' request_id' expected' r',
       validate_generation_failure sha256_hex receipt payload' request_id' expected' = Ok r' ->
       r' = r /\ request_id' = request_id
       /\ evidence_digest sha256_hex payload' = evidence_digest sha256_hex payload.
Proof.
  intros H. apply failure_guards in H as (-> & _ & Hid & _ & (dg & Hd & Hdg) & Hr & _ & Ht).
  repeat split; [done|done|..].
  all: intros; match goal with H : validate_generation_failure _ _ _ _ _ = _ |- _ =>
         apply failure_guards in H as ([= <-] & _ & Hid' & _ & (dg' & Hd' & Hdg') & _) end; congruence.
Qed.

Definition example_request_id : string := "0123456789abcdef0123456789abcdef".

Definition example_failure (sha : string) : pyval :=
  PDict [("schema_version", PInt 1); ("request_id", PStr example_request_id);
         ("request_payload_sha256", PStr sha);
         ("policy_ack", PDict [("version", PInt 4);
            ("digest", PStr "0000000000000000000000000000000000000000000000000000000000000000");
            ("lineage", PStr "run")]);
         ("stage", PStr "sampling"); ("sampler_outcome", PStr "completed");
         ("sampler_drained", PBool true); ("actual_actor_drain_proven", PBool true);
         ("drain_scope", PStr "request"); ("proof_kind", PStr "owned_vllm_final_request_output");
         ("automatic_replay", PBool false)].

Lemma failure_receipt_binds_one_request_witness :
  exists r, failure_is_terminal r = Ok true.
Proof.
  pose (sha := fun s : string => s).
  destruct (validate_generation_failure sha (example_failure "{}") (PDict []) example_request_id None)
    as [r|] eqn:E; [|discriminate E].
  pose proof (failure_receipt_binds_one_request sha _ _ _ _ r E) as (Hr & _ & Ht & _).
  exists r. rewrite Ht. injection Hr as <-. reflexivity.
Defined.
