(* ===== verification/RelayJobs.v ===== *)
(** * Jobs of the browser relay ([browser_relay/relay_server.py], validation)

    The checks a job and a generation payload pass before the relay acts on
    them, and the spool files they travel in.  [time.time()] is a reading given
    by the environment, in units of 2^-1074 seconds; a function that reads the
    clock several times takes its readings as a function of their order. *)

From S2P Require Import Prelude PyValue Training GenerationFailure.
Local Open Scope Z_scope.
Local Open Scope py_scope.

Definition MAX_BODY : Z := 512 * 1024.
Definition MAX_RESPONSE : Z := 2 * 1024 * 1024.
Definition MAX_INFLIGHT : Z := 64.
Definition MAX_TRACKED : nat := 10000.
Definition MAX_GENERATION_SECONDS : Z := 600.

(** [n] seconds, and [n] milliseconds on a clock that counts milliseconds. *)
Definition seconds (n : Z) : Z := n * float_unit.

(** [ID.fullmatch(s)] *)
Definition ID : string -> bool := request_id_text.

(** [isinstance(v, str) and ID.fullmatch(v)] *)
Definition id_value (v : pyval) : option string :=
  match v with PStr s => if ID s then Some s else None | _ => None end.

(** [encoded(v)], and its length in bytes: the text is ASCII. *)
Definition encoded (v : pyval) : string := json_text v.
Definition encoded_size (v : pyval) : Z := Z.of_nat (String.length (encoded v)).

(** ** Spool files *)

(** What a path of the spool holds: its size, whether it is a regular file and
    not a link, and the JSON value its bytes parse to. *)
Record file := {
  file_size : Z;
  file_regular : bool;
  file_json : option pyval }.

Definition written (v : pyval) : file :=
  {| file_size := encoded_size v; file_regular := true; file_json := Some v |}.

Definition read_json (limit : Z) (f : option file) : res pyval :=
  match f with
  | None => Err (ValueError "Invalid or oversized spool file")
  | Some f =>
      raise_when negb (file_regular f) || (limit <? file_size f) with_exn
        ValueError "Invalid or oversized spool file";
      match file_json f with
      | Some v => Ok v
      | None => Err (ValueError "Expecting value")
      end
  end.

(** ** Numbers *)

(** [math.isfinite(v)] of an int or a float, with the exact units of [v]. *)
Definition isfinite (v : pyval) : res (option Z) :=
  match v with
  | PInt z => if 2 ^ 1024 <=? Z.abs (round_float z)
              then Err (OverflowError "int too large to convert to float")
              else Ok (Some (z * float_unit))
  | PFloat f => Ok (finite_units (float_value f))
  | _ => Ok None
  end.

(** ** Generation payloads *)

Definition GENERATION_FIELDS : list string :=
  ["model"; "messages"; "max_tokens"; "temperature"; "top_p"; "stop"; "stream"; "seed"; "tools";
   "tool_choice"; "parallel_tool_calls"; "chat_template_kwargs"].
Definition ROLES : list string := ["system"; "user"; "assistant"; "tool"].
Definition MESSAGE_FIELDS : list string :=
  ["role"; "content"; "name"; "tool_calls"; "tool_call_id"; "reasoning_content"].

(** [set(d) - names] is empty. *)
Definition keys_within (d : pydict) (names : list string) : bool :=
  forallb (fun k => bool_decide (k ∈ names)) (dict_keys d).

(** [v in (...)] for a tuple of strings. *)
Definition one_of (v : pyval) (names : list string) : bool := existsb (is_str v) names.

Definition is_text (v : pyval) : bool := match v with PStr _ => true | _ => false end.

Definition check_message (message : pyval) : res unit :=
  match message with
  | PDict m =>
      raise_when negb (one_of (get_none "role" m) ROLES) with_exn ValueError "Invalid message role";
      raise_when negb (keys_within m MESSAGE_FIELDS) with_exn ValueError "Unsupported message field";
      raise_when negb (is_none (get_none "content" m)) && negb (is_text (get_none "content" m)) with_exn
        ValueError "Only text messages are supported";
      match dict_get "reasoning_content" m with
      | Some v => raise_if (negb (is_str (get_none "role" m) "assistant") || negb (is_text v))
                    (ValueError "Reasoning content must be an assistant string")
      | None => Ok tt
      end
  | _ => Err (ValueError "Invalid message role")
  end.

Definition check_generation (payload : pyval) (model : string) : res unit :=
  match payload with
  | PDict p =>
      raise_when negb (keys_within p GENERATION_FIELDS) with_exn
        ValueError "Unsupported generation fields";
      raise_when negb (is_str (get_none "model" p) model)
                 || negb (is_false (default (PBool false) (dict_get "stream" p))) with_exn
        ValueError "The fixed model and buffered generation are required";
      raise_when negb (is_false (default (PBool false) (dict_get "parallel_tool_calls" p))) with_exn
        ValueError "Parallel tool calls are disabled for this pilot";
      raise_when match dict_get "chat_template_kwargs" p with
                 | Some v => negb (py_eqb v (PDict [("enable_thinking", PBool false)]))
                 | None => false
                 end with_exn ValueError "Only disabling thinking is supported by the pilot";
      raise_when negb (match get_none "max_tokens" p with
                       | PInt n => (1 <=? n) && (n <=? 2048)
                       | _ => false
                       end) with_exn ValueError "max_tokens must be between 1 and 2048";
      match get_none "messages" p with
      | PList messages =>
          raise_when negb ((1 <=? length messages)%nat && (length messages <=? 256)%nat) with_exn
            ValueError "Invalid messages";
          _ <-? traverse check_message messages;
          raise_if (MAX_BODY <? encoded_size payload) (ValueError "Generation payload too large")
      | _ => Err (ValueError "Invalid messages")
      end
  | _ => Err (ValueError "Unsupported generation fields")
  end.

(** ** Jobs *)

Record job := { job_id : string; operation : string; job_payload : pyval; deadline_unix : Z }.

(** [deadline_unix] of a job: a finite positive number at most an hour away,
    and, unless [allow_expired], not yet passed. *)
Definition check_deadline (v : pyval) (allow_expired : bool) (now : nat -> Z) : res Z :=
  let invalid := ValueError "Expired or excessive job deadline" in
  deadline <-? isfinite v;
  match deadline with
  | None => Err invalid
  | Some n =>
      raise_when (n <=? 0) || (now 0%nat + seconds 3600 <? n)
                 || negb allow_expired && (n <=? now 1%nat) with_exn invalid;
      Ok n
  end.

(** [check_job]; the fields it has checked are returned with it. *)
Definition check_job (v : pyval) (model : string) (allow_expired : bool) (now : nat -> Z) : res job :=
  match v with
  | PDict d =>
      raise_when negb (same_keys d ["id"; "operation"; "payload"; "deadline_unix"]) with_exn
        ValueError "Invalid job fields";
      match id_value (get_none "id" d) with
      | None => Err (ValueError "Invalid job ID")
      | Some id =>
          deadline <-? check_deadline (get_none "deadline_unix" d) allow_expired now;
          let payload := get_none "payload" d in
          if is_str (get_none "operation" d) "echo" then
            raise_when negb (py_eqb payload (PDict [("chunks", PInt 3)])) with_exn
              ValueError "Invalid qualification payload";
            Ok {| job_id := id; operation := "echo"; job_payload := payload; deadline_unix := deadline |}
          else if is_str (get_none "operation" d) "generate" then
            _ <-? check_generation payload model;
            Ok {| job_id := id; operation := "generate"; job_payload := payload; deadline_unix := deadline |}
          else Err (ValueError "Unsupported operation")
      end
  | _ => Err (ValueError "Invalid job fields")
  end.

Lemma id_value_inv v s : id_value v = Some s -> v = PStr s /\ ID s = true.
Proof. destruct v; try done. simpl. destruct (ID _) eqn:?; naive_solver. Qed.

Lemma check_job_guards v model allow now j :
  check_job v model allow now = Ok j ->
  exists d, v = PDict d /\ get_none "id" d = PStr (job_id j) /\ ID (job_id j) = true
    /\ get_none "payload" d = job_payload j
    /\ check_deadline (get_none "deadline_unix" d) allow now = Ok (deadline_unix j)
    /\ (operation j = "echo" \/ operation j = "generate" /\ check_generation (job_payload j) model = Ok tt).
Proof.
  unfold check_job. destruct v as [| | | | | |d]; try done. intros H. exists d.
  destruct (same_keys d _); [|done]. cbn [negb] in H.
  destruct (id_value _) as [id|] eqn:Eid; [|done]. apply id_value_inv in Eid as [-> Hid].
  destruct (check_deadline _ _ _) as [n|] eqn:En; [|done].
  destruct (is_str (get_none "operation" d) "echo") eqn:Eo.
  { destruct (py_eqb _ _); [|done]. injection H as <-. simpl. tauto. }
  destruct (is_str (get_none "operation" d) "generate"); [|done].
  destruct (check_generation _ model) as [[]|] eqn:Eg; [|done]. injection H as <-. simpl. tauto.
Qed.

Lemma check_deadline_bounds v allow now n :
  check_deadline v allow now = Ok n ->
  0 < n /\ n <= now 0%nat + seconds 3600 /\ (allow = false -> now 1%nat < n).
Proof.
  unfold check_deadline. intros H. res_inv H. destruct value as [m|]; [|done]. res_inv H. subst m.
  destr_bool. repeat split; [lia|lia|]. intros ->. simpl in *. destr_bool. lia.
Qed.
