(* ===== verification/RelayGpu.v ===== *)
(** * The GPU side of the browser relay ([browser_relay/relay_server.py])

    A GPU relay admits generations, posts each to the model once, keeps its
    result until the delivery is acknowledged, and journals every request so
    that a restart never replays one.  The steps of a generation's own thread
    and of the HTTP handlers interleave; each is a critical section of the
    source.  Clock readings are arguments in the order the source takes them:
    [time.monotonic()] counts units of 2^-1074 milliseconds. *)

From stdpp Require Import pretty.
From S2P Require Import Prelude StateRes PyValue Contracts Training GenerationFailure RelayJobs.
Local Open Scope Z_scope.
Local Open Scope handler_scope.

(** ** State *)

Record configuration := {
  model : string;
  max_inflight : nat;
  generation_seconds : Z;
  serving_profile : string }.

Inductive connection_state := NoConnection | Open | Closed.

(** What runs a generation: a thread of its own, the handler that admitted it,
    or the echo handler. *)
Inductive runner := Background | Inline | Echo.

#[export] Instance runner_eq_dec : EqDecision runner.
Proof. solve_decision. Defined.

(** How far the runner is: [Unstarted] before [Thread.start], [Preparing] until
    its connection is recorded, [Connecting] until the dispatch decision, [Waiting] while the upstream owns the request. *)
Inductive phase := Unstarted | Preparing | Connecting | Waiting | Echoing (sent : nat) | Ended.

(** The context object of an admitted generation together with the position of
    the thread that serves it. *)
Record context := {
  ctx_request : string;
  ctx_payload : pyval;
  ctx_runner : runner;
  ctx_phase : phase;
  cancel : bool;
  connection : connection_state;
  dispatched : bool;
  ctx_deadline : Z }.

(** [requests] is the journal directory; [posts] the requests sent upstream and
    [trace] the names and requests of the trace events, oldest first. *)
Record relay := {
  boot_id : string;
  lifetime : Z;
  stopped : bool;
  requests : gmap string file;
  gpu_journal : gmap string pydict;
  contexts : list context;
  active_generations : gmap string nat;
  completions : gmap string (option pyval);
  posts : list string;
  trace : list (string * string) }.

Definition set_journal (j : gmap string pydict) (r : gmap string file) (s : relay) : relay :=
  {| boot_id := boot_id s; lifetime := lifetime s; stopped := stopped s; requests := r;
     gpu_journal := j; contexts := contexts s; active_generations := active_generations s;
     completions := completions s; posts := posts s; trace := trace s |}.

Definition set_contexts (f : list context -> list context) (s : relay) : relay :=
  {| boot_id := boot_id s; lifetime := lifetime s; stopped := stopped s; requests := requests s;
     gpu_journal := gpu_journal s; contexts := f (contexts s); active_generations := active_generations s;
     completions := completions s; posts := posts s; trace := trace s |}.

Definition set_active (f : gmap string nat -> gmap string nat) (s : relay) : relay :=
  {| boot_id := boot_id s; lifetime := lifetime s; stopped := stopped s; requests := requests s;
     gpu_journal := gpu_journal s; contexts := contexts s; active_generations := f (active_generations s);
     completions := completions s; posts := posts s; trace := trace s |}.

Definition set_completions (f : gmap string (option pyval) -> gmap string (option pyval))
    (s : relay) : relay :=
  {| boot_id := boot_id s; lifetime := lifetime s; stopped := stopped s; requests := requests s;
     gpu_journal := gpu_journal s; contexts := contexts s; active_generations := active_generations s;
     completions := f (completions s); posts := posts s; trace := trace s |}.

Definition add_post (id : string) (s : relay) : relay :=
  {| boot_id := boot_id s; lifetime := lifetime s; stopped := stopped s; requests := requests s;
     gpu_journal := gpu_journal s; contexts := contexts s; active_generations := active_generations s;
     completions := completions s; posts := posts s ++ [id]; trace := trace s |}.

Definition add_trace (name id : string) (s : relay) : relay :=
  {| boot_id := boot_id s; lifetime := lifetime s; stopped := stopped s; requests := requests s;
     gpu_journal := gpu_journal s; contexts := contexts s; active_generations := active_generations s;
     completions := completions s; posts := posts s; trace := trace s ++ [(name, id)] |}.

Definition set_stopped (s : relay) : relay :=
  {| boot_id := boot_id s; lifetime := lifetime s; stopped := true; requests := requests s;
     gpu_journal := gpu_journal s; contexts := contexts s; active_generations := active_generations s;
     completions := completions s; posts := posts s; trace := trace s |}.

Definition with_phase (p : phase) (c : context) : context :=
  {| ctx_request := ctx_request c; ctx_payload := ctx_payload c; ctx_runner := ctx_runner c;
     ctx_phase := p; cancel := cancel c; connection := connection c; dispatched := dispatched c;
     ctx_deadline := ctx_deadline c |}.

Definition with_connection (n : connection_state) (c : context) : context :=
  {| ctx_request := ctx_request c; ctx_payload := ctx_payload c; ctx_runner := ctx_runner c;
     ctx_phase := ctx_phase c; cancel := cancel c; connection := n; dispatched := dispatched c;
     ctx_deadline := ctx_deadline c |}.

Definition with_cancel (c : context) : context :=
  {| ctx_request := ctx_request c; ctx_payload := ctx_payload c; ctx_runner := ctx_runner c;
     ctx_phase := ctx_phase c; cancel := true;
     connection := match connection c with NoConnection => NoConnection | _ => Closed end;
     dispatched := dispatched c; ctx_deadline := ctx_deadline c |}.

Definition with_dispatch (c : context) : context :=
  {| ctx_request := ctx_request c; ctx_payload := ctx_payload c; ctx_runner := ctx_runner c;
     ctx_phase := Waiting; cancel := cancel c; connection := connection c; dispatched := true;
     ctx_deadline := ctx_deadline c |}.

(** ** The journal *)

Definition status_is (s : string) (record : pydict) : bool := is_str (get_none "status" record) s.

(** [record["status"] in ("running", "uncertain")] *)
Definition reserves (record : pydict) : bool := status_is "running" record || status_is "uncertain" record.

Definition occupied (j : gmap string pydict) : gset string :=
  dom (filter (fun kr => reserves kr.2 = true) j).

(** The requests that hold capacity: unresolved ones and unacknowledged results. *)
Definition holding (s : relay) : gset string := occupied (gpu_journal s) ∪ dom (completions s).

(** Write a record to the journal directory and to [gpu_journal]. *)
Definition journal (id : string) (record : pydict) : stateful relay unit :=
  changing (fun s => set_journal (<[id := record]> (gpu_journal s))
                       (<[id := written (PDict record)]> (requests s)) s).

Definition tracing (name id : string) : stateful relay unit := changing (add_trace name id).

Section Gpu.
Context (sha256_hex : string -> string).
Context (cfg : configuration).

Definition controlled : bool :=
  bool_decide (serving_profile cfg ∈ ["native-pytorch-v1"; "vllm-training-v1"]).

Definition payload_sha256 (payload : pyval) : string := sha256_hex (encoded payload).

(** ** Admission *)

Definition admit_generation (request_id : string) (payload timeout_ms : pyval) (kind : runner)
    (now : nat -> Z) : stateful relay nat :=
  let maximum := match kind with Echo => 20000 | _ => generation_seconds cfg * 1000 end in
  let invalid := ValueError ("timeout_ms must be finite and within " +:+ pretty maximum) in
  limit <~ computing (isfinite timeout_ms);
  match limit with
  | None => raising invalid
  | Some timeout =>
      do raising_if ((timeout <=? 0) || (maximum * float_unit <? timeout)) invalid;
      reading (fun s =>
      do raising_if (stopped s || (lifetime s <=? now 0%nat)) (ValueError "Relay service lifetime ended");
      let deadline := Z.min (now 1%nat + timeout) (lifetime s) in
      match gpu_journal s !! request_id with
      | Some _ =>
          do tracing "generation_rejected" request_id;
          raising (ConflictError "GPU request ID already admitted; no replay")
      | None =>
          do raising_if (max_inflight cfg <=? size (holding s))%nat
               (CapacityError "GPU relay capacity occupied; uncertain requests retain reservations");
          do raising_if (MAX_TRACKED <=? size (gpu_journal s))%nat
               (CapacityError "GPU journal limit reached; offline reconciliation required");
          do journal request_id
               [("id", PStr request_id); ("status", PStr "running"); ("boot_id", PStr (boot_id s));
                ("payload_sha256", PStr (payload_sha256 payload))];
          let ref := length (contexts s) in
          do changing (set_contexts (fun l => l ++
               [{| ctx_request := request_id; ctx_payload := payload; ctx_runner := kind;
                   ctx_phase := match kind with Background => Unstarted | Inline => Preparing | Echo => Echoing 0 end;
                   cancel := false; connection := NoConnection; dispatched := false;
                   ctx_deadline := deadline |}]));
          do changing (set_active <[request_id := ref]>);
          do tracing "generation_admitted" request_id;
          returning ref
      end)
  end.

(** ** Completion and delivery *)

Definition completion_entry (request_id : string) : stateful relay (option pyval) :=
  reading (fun s =>
    match completions s !! request_id with
    | Some entry => returning entry
    | None =>
        match gpu_journal s !! request_id with
        | None => raising (KeyError "Unknown request ID")
        | Some _ => raising (GoneError "Completion unavailable or acknowledged; no replay")
        end
    end).

Definition delivery_acknowledged (record : pydict) : bool :=
  py_truthy (get_none "delivery_acknowledged" record).

Definition acknowledge_delivery (request_id : string) : stateful relay pyval :=
  let acknowledged := PDict [("acknowledged", PBool true)] in
  reading (fun s =>
    let record := gpu_journal s !! request_id in
    if match record with Some r => delivery_acknowledged r | None => false end
    then returning acknowledged
    else
      entry <~ completion_entry request_id;
      match entry, record with
      | None, _ => raising (ConflictError "Generation has not completed")
      | Some _, None => raising (TypeError "'NoneType' object is not a mapping")
      | Some _, Some r =>
          do journal request_id (dict_set "delivery_acknowledged" (PBool true) r);
          do changing (set_completions (delete request_id));
          do tracing "generation_delivery_ack" request_id;
          returning acknowledged
      end).

(** ** Cancellation and completion of a generation *)

Definition cancel_generation (request_id : string) : stateful relay pyval :=
  reading (fun s =>
    do match gpu_journal s !! request_id with
       | Some _ => returning tt
       | None =>
           do raising_if (MAX_TRACKED <=? size (gpu_journal s))%nat
                (CapacityError "GPU journal limit reached");
           journal request_id
             [("id", PStr request_id); ("status", PStr "cancelled"); ("boot_id", PStr (boot_id s))]
       end;
    do match active_generations s !! request_id with
       | Some ref => changing (set_contexts (alter with_cancel ref))
       | None => returning tt
       end;
    do tracing "generation_cancel" request_id;
    returning (PDict [("cancel_requested", PBool true); ("upstream_stop_confirmed", PBool false)])).

Definition finish_generation (request_id : string) (ref : nat) (status : string) : stateful relay unit :=
  reading (fun s =>
    do raising_if (negb (bool_decide (active_generations s !! request_id = Some ref)))
         (ConflictError "Generation ownership changed");
    match gpu_journal s !! request_id with
    | None => raising (KeyError request_id)
    | Some record =>
        do journal request_id (dict_set "status" (PStr status) record);
        do changing (set_active (delete request_id));
        tracing "generation_terminal" request_id
    end).

(** ** Serving one generation *)

(** What the environment answers when the runner connects, and after it has
    posted the request. *)
Inductive connecting := Connected | Connection_refused | Connection_broken (e : exn).
Inductive upstream :=
| Transport_error
| Unexpected (e : exn)
| Response (status size : Z) (complete : bool) (body : option pyval).

(** [except (OSError, http.client.HTTPException, ValueError)] *)
Definition caught (e : exn) : bool :=
  match e with
  | ValueError _ | OSError _ | TimeoutError _ | ConflictError _ | GoneError _ => true
  | _ => false
  end.

Definition failed_reply : Z * pydict :=
  (502, [("error", PStr "Loopback model service failed, cancelled, or timed out; no replay")]).

(** What a caught exception returns; another one escapes. *)
Definition excepting (terminal : string) (e : exn) : string * res (Z * pydict) :=
  (terminal, if caught e then Ok failed_reply else Err e).

(** The terminal status and the reply for what the upstream answered;
    [expired] is the check of the cancel event and of the deadline. *)
Definition judge (request_id : string) (payload : pyval) (expired : bool) (answer : upstream)
    : string * res (Z * pydict) :=
  let lost := excepting "uncertain" (ValueError "") in
  match answer with
  | Transport_error => excepting "uncertain" (OSError "")
  | Unexpected e => excepting "uncertain" e
  | Response status size complete body =>
      if MAX_RESPONSE <? size then lost
      else if expired then excepting "uncertain" (TimeoutError "Request completed after cancellation or deadline")
      else if negb complete then lost
      else if negb (status =? 200) then
        if controlled then
          match body with
          | Some (PDict b) =>
              match dict_get "generation_failure" b with
              | Some receipt =>
                  match validate_generation_failure sha256_hex receipt payload request_id None with
                  | Ok r =>
                      (match failure_is_terminal r with Ok true => "failed" | _ => "uncertain" end,
                       Ok (502, [("error", PStr "Loopback model service rejected generation; no replay");
                                 ("generation_failure", PDict r)]))
                  | Err e => excepting "uncertain" e
                  end
              | None => lost
              end
          | _ => lost
          end
        else excepting "failed" (ValueError "Fixed loopback upstream rejected the request")
      else
        match body with
        | Some (PDict b) =>
            match get_none "choices" b with
            | PList _ => if MAX_RESPONSE <? encoded_size (PDict b) then lost else ("finished", Ok (200, b))
            | _ => lost
            end
        | _ => lost
        end
  end.

(** The [finally] clause: the generation is finished whatever happened. *)
Definition leave (request_id : string) (ref : nat) (terminal : string) (r : res (Z * pydict))
    : stateful relay (Z * pydict) :=
  do changing (set_contexts (alter (with_phase Ended) ref));
  do finish_generation request_id ref terminal;
  computing r.

(** A background worker publishes what [execute_generation] returned or raised. *)
Definition completion_value (request_id : string) (code : Z) (result : pydict) : pyval :=
  PDict ([("id", PStr request_id); ("pending", PBool false); ("ok", PBool (code =? 200));
          if code =? 200 then ("response", PDict result) else ("error", get_none "error" result)]
         ++ if code =? 200 then [] else
            match dict_get "generation_failure" result with
            | Some f => [("generation_failure", f)]
            | None => []
            end).

Definition publish (request_id : string) (v : pyval) : stateful relay unit :=
  changing (set_completions (alter (fun _ => Some v) request_id)).

Definition worker (c : context) (ref : nat) (run : stateful relay (Z * pydict)) : stateful relay unit :=
  fun s =>
    match run s with
    | (s, Ok (code, result)) => publish (ctx_request c) (completion_value (ctx_request c) code result) s
    | (s, Err _) =>
        let still := bool_decide (active_generations s !! ctx_request c = Some ref) in
        match (if still then finish_generation (ctx_request c) ref
                               (if dispatched c then "uncertain" else "failed")
               else returning tt) s with
        | (s, Err e) => (s, Err e)
        | (s, Ok _) =>
            publish (ctx_request c)
              (completion_value (ctx_request c) 500 [("error", PStr "Generation worker failed; no replay")]) s
        end
    end.

(** The end of a generation in the thread that runs it. *)
Definition conclude (c : context) (ref : nat) (terminal : string) (r : res (Z * pydict))
    : stateful relay pyval :=
  let run := leave (ctx_request c) ref terminal r in
  match ctx_runner c with
  | Background => do worker c ref run; returning PNone
  | _ => cr <~ run; returning (PDict [("code", PInt cr.1); ("body", PDict cr.2)])
  end.

(** A step of the runner of [ref], when it is at [p]. *)
Definition at_phase (ref : nat) (p : phase -> bool) (k : context -> stateful relay pyval)
    : stateful relay pyval :=
  reading (fun s =>
    match contexts s !! ref with
    | Some c => if p (ctx_phase c) then k c else raising (RuntimeError "the runner is elsewhere")
    | None => raising (RuntimeError "no such generation")
    end).

Definition preparing (p : phase) : bool := match p with Preparing => true | _ => false end.
Definition connecting_phase (p : phase) : bool := match p with Connecting => true | _ => false end.
Definition waiting (p : phase) : bool := match p with Waiting => true | _ => false end.
Definition unstarted (p : phase) : bool := match p with Unstarted => true | _ => false end.
Definition echoing (p : phase) : bool := match p with Echoing _ => true | _ => false end.

(** The start of [execute_generation]: the deadline timer (its thread may fail
    to start) and the connection object. *)
Definition begin_generation (ref : nat) (timer : bool) : stateful relay pyval :=
  at_phase ref preparing (fun c =>
    do tracing "generation_begin" (ctx_request c);
    if timer then
      do changing (set_contexts (alter (fun c => with_phase Connecting (with_connection Open c)) ref));
      returning PNone
    else
      let (t, r) := excepting "failed" (RuntimeError "can't start new thread") in conclude c ref t r).

(** Connect, then decide under the lock whether to post. *)
Definition dispatch (ref : nat) (connect : connecting) (now : Z) : stateful relay pyval :=
  at_phase ref connecting_phase (fun c =>
    match connect with
    | Connection_refused => let (t, r) := excepting "failed" (OSError "") in conclude c ref t r
    | Connection_broken e => let (t, r) := excepting "failed" e in conclude c ref t r
    | Connected =>
        if cancel c || (ctx_deadline c <=? now) then
          let (t, r) := excepting "failed" (TimeoutError "Request cancelled before dispatch") in
          conclude c ref t r
        else
          do changing (set_contexts (alter with_dispatch ref));
          do changing (add_post (ctx_request c));
          returning PNone
    end).

(** From the post to the end of [execute_generation]. *)
Definition answered (ref : nat) (answer : upstream) (now : Z) : stateful relay pyval :=
  at_phase ref waiting (fun c =>
    let (t, r) := judge (ctx_request c) (ctx_payload c) (cancel c || (ctx_deadline c <=? now)) answer in
    conclude c ref t r).

(** ** Handlers *)

Definition validate_generation (value : pydict) : res (string * pyval * pyval) :=
  if negb (same_keys value ["id"; "payload"; "timeout_ms"])
  then Err (ValueError "Invalid generation request")
  else match id_value (get_none "id" value) with
       | None => Err (ValueError "Invalid generation request")
       | Some id =>
           match check_generation (get_none "payload" value) (model cfg) with
           | Ok _ => Ok (id, get_none "payload" value, get_none "timeout_ms" value)
           | Err e => Err e
           end
       end.

(** [submit_generation] up to [Thread.start]. *)
Definition submit_generation (value : pydict) (now : nat -> Z) : stateful relay pyval :=
  v <~ computing (validate_generation value);
  let '(id, payload, timeout) := v in
  do admit_generation id payload timeout Background now;
  do changing (set_completions <[id := None]>);
  returning (PDict [("id", PStr id); ("admitted", PBool true)]).

(** [Thread.start]: when it fails the generation is finished as failed. *)
Definition start_worker (ref : nat) (started : bool) : stateful relay pyval :=
  at_phase ref unstarted (fun c =>
    if started then
      do changing (set_contexts (alter (with_phase Preparing) ref)); returning PNone
    else
      do changing (set_contexts (alter (with_phase Ended) ref));
      do finish_generation (ctx_request c) ref "failed";
      do changing (set_completions (delete (ctx_request c)));
      raising (RuntimeError "can't start new thread")).

Definition generate (value : pydict) (now : nat -> Z) : stateful relay pyval :=
  v <~ computing (validate_generation value);
  let '(id, payload, timeout) := v in
  do admit_generation id payload timeout Inline now;
  returning PNone.

Definition single_id (value : pydict) (e : exn) : res string :=
  if negb (same_keys value ["id"]) then Err e
  else match id_value (get_none "id" value) with Some id => Ok id | None => Err e end.

Definition echo (value : pydict) (now : nat -> Z) : stateful relay pyval :=
  id <~ computing (single_id value (ValueError "Invalid qualification ID"));
  do admit_generation id (PDict [("operation", PStr "echo")]) (PInt 20000) Echo now;
  do tracing "echo_begin" id;
  returning PNone.

(** One turn of the echo loop; [sent] tells whether the write succeeded. *)
Definition echo_turn (ref : nat) (now : Z) (sent : bool) : stateful relay pyval :=
  at_phase ref echoing (fun c =>
    let turns := match ctx_phase c with Echoing n => S n | _ => 0%nat end in
    let ending t :=
      do changing (set_contexts (alter (with_phase Ended) ref));
      do finish_generation (ctx_request c) ref t; returning PNone in
    if cancel c || (ctx_deadline c <=? now) then ending "failed"
    else if negb sent then do ending "failed"; raising (OSError "")
    else if (turns =? 3)%nat then do tracing "echo_end" (ctx_request c); ending "finished"
    else do changing (set_contexts (alter (with_phase (Echoing turns)) ref)); returning PNone).

(** ** Polls: they only read *)

Definition completion_poll (request_id : string) : stateful relay pyval :=
  entry <~ completion_entry request_id;
  returning (default (PDict [("id", PStr request_id); ("pending", PBool true)]) entry).

Definition unavailable (request_id : string) : pyval :=
  PDict [("id", PStr request_id); ("pending", PBool false); ("ok", PBool false);
         ("error", PStr "Completion unknown or unavailable; no replay")].

(** One scan of [completions_response]: the first request that has an answer. *)
Fixpoint shared_poll (s : relay) (ids : list string) : option pyval :=
  match ids with
  | [] => None
  | id :: ids =>
      match completions s !! id with
      | None => Some (unavailable id)
      | Some (Some v) => Some v
      | Some None => shared_poll s ids
      end
  end.

(** ** Restart *)

Definition STATUSES : list string := ["running"; "uncertain"; "finished"; "failed"; "cancelled"].

(** [recover]: the files of the journal directory in the order [names] lists them. *)
Definition recover_one (name : string) : stateful relay unit :=
  reading (fun s =>
    v <~ computing (read_json MAX_BODY (requests s !! name));
    match v with
    | PDict record =>
        do raising_if (negb (ID name && is_str (get_none "id" record) name
                             && one_of (get_none "status" record) STATUSES))
             (ValueError "Invalid GPU dispatch journal");
        do (if status_is "running" record
            then journal name (dict_set "status" (PStr "uncertain") record)
            else changing (set_journal (<[name := record]> (gpu_journal s)) (requests s)));
        reading (fun s => raising_if (MAX_TRACKED <? size (gpu_journal s))%nat
                            (ValueError "GPU journal requires offline reconciliation"))
    | _ => raising (ValueError "Invalid GPU dispatch journal")
    end).

(** A new process on the directory [disk]. *)
Definition fresh (boot : string) (deadline : Z) (disk : gmap string file) (log : list (string * string))
    (sent : list string) : relay :=
  {| boot_id := boot; lifetime := deadline; stopped := false; requests := disk; gpu_journal := ∅;
     contexts := []; active_generations := ∅; completions := ∅; posts := sent; trace := log |}.

Definition recover (names : list string) : stateful relay unit := for_each recover_one names.

(** ** Steps *)

(** [Expire] is the deadline timer of a generation calling [cancel_generation]. *)
Inductive action :=
| Submit (value : pydict) (now : nat -> Z)
| Start (ref : nat) (started : bool)
| Generate (value : pydict) (now : nat -> Z)
| EchoBegin (value : pydict) (now : nat -> Z)
| EchoTurn (ref : nat) (now : Z) (sent : bool)
| Begin (ref : nat) (timer : bool)
| Dispatch (ref : nat) (connect : connecting) (now : Z)
| Answer (ref : nat) (answer : upstream) (now : Z)
| Cancel (value : pydict)
| Expire (ref : nat)
| Acknowledge (value : pydict)
| Poll (id : string)
| Stop.

Definition handle (a : action) : stateful relay pyval :=
  match a with
  | Submit v now => submit_generation v now
  | Start ref b => start_worker ref b
  | Generate v now => generate v now
  | EchoBegin v now => echo v now
  | EchoTurn ref now sent => echo_turn ref now sent
  | Begin ref timer => begin_generation ref timer
  | Dispatch ref connect now => dispatch ref connect now
  | Answer ref u now => answered ref u now
  | Cancel v =>
      id <~ computing (single_id v (ValueError "Invalid cancellation ID"));
      cancel_generation id
  | Expire ref => at_phase ref (fun _ => true) (fun c => cancel_generation (ctx_request c))
  | Acknowledge v =>
      id <~ computing (single_id v (ValueError "Invalid delivery acknowledgment"));
      acknowledge_delivery id
  | Poll id => completion_poll id
  | Stop => do changing set_stopped; returning PNone
  end.

Definition steps (l : list action) (s : relay) : relay := fold_left (fun s a => (handle a s).1) l s.

(** One life of the process: boot on the disk, recover the files as [readdir]
    lists them, serve.  A boot that raises serves nothing. *)
Context (readdir : gset string -> list string).

Record life := { l_boot : string; l_deadline : Z; l_actions : list action }.

Definition boot (l : life) (s : relay) : relay * res unit :=
  recover (readdir (dom (requests s))) (fresh (l_boot l) (l_deadline l) (requests s) (trace s) (posts s)).

Definition live (s : relay) (l : life) : relay :=
  match boot l s with
  | (s, Ok _) => steps (l_actions l) s
  | (s, Err _) => s
  end.

Definition lives (ls : list life) (s : relay) : relay := fold_left live ls s.
End Gpu.
