(* ===== verification/RelayGpuProofs.v ===== *)
(** * The GPU relay: abstract steps and the invariant they keep

    Every handler of [RelayGpu] is a sequence of a few atomic changes
    ([gstep]); the invariant [Serving] is proved on those. *)

From stdpp Require Import fin_maps fin_map_dom relations.
From S2P Require Import Prelude PyValue Contracts Training StateRes GenerationFailure RelayJobs RelayGpu.
Local Open Scope Z_scope.

(** ** Atomic changes *)

Definition record_of (id status boot : string) (rest : pydict) : pydict :=
  [("id", PStr id); ("status", PStr status); ("boot_id", PStr boot)] ++ rest.

Definition journaled (id : string) (r : pydict) (s : relay) : relay :=
  set_journal (<[id := r]> (gpu_journal s)) (<[id := written (PDict r)]> (requests s)) s.

Definition new_context (id : string) (payload : pyval) (kind : runner) (deadline : Z) : context :=
  {| ctx_request := id; ctx_payload := payload; ctx_runner := kind;
     ctx_phase := match kind with Background => Unstarted | Inline => Preparing | Echo => Echoing 0 end;
     cancel := false; connection := NoConnection; dispatched := false; ctx_deadline := deadline |}.

Definition admitted_by (id : string) (r : pydict) (c : context) (s : relay) : relay :=
  add_trace "generation_admitted" id
    (set_active <[id := length (contexts s)]> (set_contexts (fun l => l ++ [c]) (journaled id r s))).

Definition ended_by (ref : nat) (id status : string) (r : pydict) (s : relay) : relay :=
  add_trace "generation_terminal" id
    (set_active (delete id)
       (journaled id (dict_set "status" (PStr status) r)
          (set_contexts (alter (with_phase Ended) ref) s))).

Definition is_ended (p : phase) : bool := match p with Ended => true | _ => false end.
Definition before_post (p : phase) : bool :=
  match p with Unstarted | Preparing | Connecting => true | _ => false end.

(** The identities admitted so far, read off the trace. *)
Definition admitted (s : relay) : list string :=
  map snd (filter (fun e => e.1 = "generation_admitted") (trace s)).

(** A record that [recover] accepts under the name [id]. *)
Definition well_recorded (id : string) (r : pydict) : Prop :=
  ID id = true /\ is_str (get_none "id" r) id = true /\ one_of (get_none "status" r) STATUSES = true.

Definition TERMINAL : list string := ["finished"; "failed"; "uncertain"].

(** Only a background thread waits to be started, only the echo handler echoes. *)
Definition well_phased (c : context) : Prop :=
  match ctx_phase c with
  | Unstarted => ctx_runner c = Background
  | Echoing _ => ctx_runner c = Echo
  | _ => True
  end.

(** A change of a context that keeps its identity and does not move it back
    before the post, nor across its end. *)
Definition same_runner (c d : context) : Prop :=
  ctx_request d = ctx_request c /\ ctx_runner d = ctx_runner c
  /\ is_ended (ctx_phase d) = is_ended (ctx_phase c)
  /\ (before_post (ctx_phase d) = true -> before_post (ctx_phase c) = true)
  /\ (well_phased c -> well_phased d).

Inductive gstep (cfg : configuration) (s : relay) : relay -> Prop :=
| G_trace name id : name <> "generation_admitted" -> gstep cfg s (add_trace name id s)
| G_stop : gstep cfg s (set_stopped s)
| G_admit id r payload kind deadline :
    gpu_journal s !! id = None -> (size (holding s) < max_inflight cfg)%nat ->
    (size (gpu_journal s) < MAX_TRACKED)%nat -> stopped s = false -> status_is "running" r = true ->
    well_recorded id r ->
    let s' := admitted_by id r (new_context id payload kind deadline) s in
    gstep cfg s (match kind with Background => set_completions <[id := None]> s' | _ => s' end)
| G_tombstone id r :
    gpu_journal s !! id = None -> (size (gpu_journal s) < MAX_TRACKED)%nat ->
    status_is "cancelled" r = true -> well_recorded id r -> gstep cfg s (journaled id r s)
| G_context ref f :
    (forall c, contexts s !! ref = Some c -> same_runner c (f c)) ->
    gstep cfg s (set_contexts (alter f ref) s)
| G_post ref c :
    contexts s !! ref = Some c -> ctx_phase c = Connecting -> cancel c = false ->
    gstep cfg s (add_post (ctx_request c) (set_contexts (alter with_dispatch ref) s))
| G_end ref c r status v :
    contexts s !! ref = Some c -> is_ended (ctx_phase c) = false ->
    active_generations s !! ctx_request c = Some ref ->
    gpu_journal s !! ctx_request c = Some r -> status ∈ TERMINAL ->
    let s' := ended_by ref (ctx_request c) status r s in
    gstep cfg s (match ctx_runner c with
                 | Background => set_completions (alter (fun _ => Some v) (ctx_request c)) s'
                 | _ => s'
                 end)
| G_drop ref c r :
    contexts s !! ref = Some c -> ctx_phase c = Unstarted -> ctx_runner c = Background ->
    active_generations s !! ctx_request c = Some ref -> gpu_journal s !! ctx_request c = Some r ->
    gstep cfg s (set_completions (delete (ctx_request c)) (ended_by ref (ctx_request c) "failed" r s))
| G_acknowledge id r v :
    completions s !! id = Some (Some v) -> gpu_journal s !! id = Some r ->
    gstep cfg s (add_trace "generation_delivery_ack" id
                   (set_completions (delete id)
                      (journaled id (dict_set "delivery_acknowledged" (PBool true) r) s))).

(** ** The invariant *)

Record Serving (s : relay) : Prop := {
  sv_disk : dom (requests s) = dom (gpu_journal s);
  sv_copy : forall id r, gpu_journal s !! id = Some r ->
    file_json <$> requests s !! id = Some (Some (PDict r));
  sv_admitted : NoDup (admitted s);
  sv_admitted_journal : forall id, id ∈ admitted s -> is_Some (gpu_journal s !! id);
  sv_posts : NoDup (posts s);
  sv_posted : forall id, id ∈ posts s -> id ∈ admitted s;
  sv_context : forall ref c, contexts s !! ref = Some c -> ctx_request c ∈ admitted s;
  sv_unique : forall i j c d, contexts s !! i = Some c -> contexts s !! j = Some d ->
    ctx_request c = ctx_request d -> i = j;
  sv_phase : forall ref c, contexts s !! ref = Some c -> well_phased c;
  sv_unposted : forall ref c, contexts s !! ref = Some c -> before_post (ctx_phase c) = true ->
    ctx_request c ∉ posts s;
  sv_active : forall id ref, active_generations s !! id = Some ref <->
    exists c, contexts s !! ref = Some c /\ ctx_request c = id /\ is_ended (ctx_phase c) = false;
  sv_running : forall id ref, active_generations s !! id = Some ref ->
    exists r, gpu_journal s !! id = Some r /\ status_is "running" r = true;
  sv_record : forall id r, gpu_journal s !! id = Some r -> well_recorded id r;
  sv_tracked : (size (gpu_journal s) <= MAX_TRACKED)%nat;
  sv_completion : forall id e, completions s !! id = Some e -> is_Some (gpu_journal s !! id);
  sv_pending : forall id, completions s !! id = Some None <->
    exists ref c, active_generations s !! id = Some ref /\ contexts s !! ref = Some c
                  /\ ctx_runner c = Background }.

Lemma sv_posts_journal s : Serving s -> forall id, id ∈ posts s -> is_Some (gpu_journal s !! id).
Proof. intros HS id Hid. by apply (sv_admitted_journal s HS), (sv_posted s HS). Qed.
Lemma sv_context_journal s : Serving s ->
  forall ref c, contexts s !! ref = Some c -> is_Some (gpu_journal s !! ctx_request c).
Proof. intros HS ref c Hc. by eapply (sv_admitted_journal s HS), (sv_context s HS). Qed.

(** ** Preservation *)

Definition known (s : relay) (id : string) : Prop := is_Some (gpu_journal s !! id).

Lemma known_journaled id r s x : known s x -> known (journaled id r s) x.
Proof. unfold known. simpl. rewrite lookup_insert. intros. case_decide; eauto. Qed.
Lemma known_journaled_here id r s : known (journaled id r s) id.
Proof. unfold known. simpl. rewrite lookup_insert_eq. eauto. Qed.

Lemma admitted_trace name id s :
  admitted (add_trace name id s)
  = admitted s ++ (if bool_decide (name = "generation_admitted") then [id] else []).
Proof.
  unfold admitted. simpl. rewrite filter_app, map_app. f_equal.
  rewrite filter_cons. simpl. case_bool_decide; by case_decide.
Qed.

Lemma alter_context (f : context -> context) ref (l : list context) i c :
  alter f ref l !! i = Some c ->
  exists b, l !! i = Some b /\ (i = ref /\ c = f b \/ i <> ref /\ c = b).
Proof.
  destruct (decide (ref = i)) as [<-|Hne].
  - rewrite list_lookup_alter_eq. destruct (l !! ref) eqn:E; [|done]. intros [= <-]. eauto.
  - rewrite list_lookup_alter_ne by done. eauto 6.
Qed.

(** A context and its altered version serve the same request. *)
Lemma alter_unique (f : context -> context) ref (l : list context) :
  (forall c, l !! ref = Some c -> ctx_request (f c) = ctx_request c) ->
  (forall i j c d, l !! i = Some c -> l !! j = Some d -> ctx_request c = ctx_request d -> i = j) ->
  forall i j c d, alter f ref l !! i = Some c -> alter f ref l !! j = Some d ->
    ctx_request c = ctx_request d -> i = j.
Proof.
  intros Hf H i j c d Hc Hd.
  assert (forall i c, alter f ref l !! i = Some c -> exists b, l !! i = Some b /\ ctx_request c = ctx_request b) as Hb.
  { intros k e He. apply alter_context in He as (b & Hb & [[-> ->]|[_ ->]]); eauto. }
  destruct (Hb i c Hc) as (b & Hi & ->), (Hb j d Hd) as (b' & Hj & ->). by apply (H i j b b').
Qed.

Lemma status_set s r : status_is s (dict_set "status" (PStr s) r) = true.
Proof.
  unfold status_is, get_none. assert (dict_get "status" (dict_set "status" (PStr s) r) = Some (PStr s)) as ->.
  { induction r as [|[k v] r IH]; simpl; [done|]. case_bool_decide as E; simpl; [by rewrite bool_decide_eq_true_2|].
    by rewrite bool_decide_eq_false_2. }
  simpl. by apply bool_decide_eq_true.
Qed.

Lemma status_kept s k v r : k <> "status" -> status_is s (dict_set k v r) = status_is s r.
Proof.
  intros Hk. unfold status_is, get_none. f_equal. f_equal. induction r as [|[k' w] r IH]; simpl.
  - by rewrite bool_decide_eq_false_2.
  - case_bool_decide as E; simpl; [subst k'; by rewrite bool_decide_eq_false_2|].
    case_bool_decide; [done|apply IH].
Qed.

Lemma get_set k k' v r : get_none k (dict_set k' v r) = if bool_decide (k = k') then v else get_none k r.
Proof. unfold get_none. rewrite dict_get_set. by case_bool_decide. Qed.

Lemma well_recorded_status id st r : st ∈ STATUSES -> well_recorded id r ->
  well_recorded id (dict_set "status" (PStr st) r).
Proof.
  intros Hst (Hid & Hi & _). unfold well_recorded. rewrite !get_set. split; [done|]. split; [done|].
  rewrite bool_decide_eq_true_2 by done. unfold one_of. apply existsb_exists. exists st.
  split; [by apply list_elem_of_In|]. simpl. by apply bool_decide_eq_true.
Qed.

Lemma well_recorded_other id k v r : k <> "status" -> k <> "id" -> well_recorded id r ->
  well_recorded id (dict_set k v r).
Proof.
  intros Hs Hi. unfold well_recorded. rewrite !get_set, !bool_decide_eq_false_2 by congruence. done.
Qed.

Lemma journaled_record id r s : well_recorded id r ->
  (forall x q, gpu_journal s !! x = Some q -> well_recorded x q) ->
  forall x q, gpu_journal (journaled id r s) !! x = Some q -> well_recorded x q.
Proof.
  simpl. intros Hr H x q. rewrite lookup_insert. destruct (decide (id = x)) as [<-|]; [|auto]. by intros [= <-].
Qed.

Lemma terminal_status st : st ∈ TERMINAL -> st ∈ STATUSES.
Proof. unfold TERMINAL, STATUSES. set_solver. Qed.

(** The part of the invariant about the journal. *)
Lemma journaled_disk id r s : dom (requests s) = dom (gpu_journal s) ->
  dom (requests (journaled id r s)) = dom (gpu_journal (journaled id r s)).
Proof. simpl. rewrite !dom_insert_L. congruence. Qed.

Lemma journaled_copy id r s :
  (forall x q, gpu_journal s !! x = Some q -> file_json <$> requests s !! x = Some (Some (PDict q))) ->
  forall x q, gpu_journal (journaled id r s) !! x = Some q ->
    file_json <$> requests (journaled id r s) !! x = Some (Some (PDict q)).
Proof.
  simpl. intros H x q. rewrite !lookup_insert. case_decide; [|auto]. by intros [= ->].
Qed.

Lemma journaled_running id r s :
  status_is "running" r = true ->
  (forall x ref, active_generations s !! x = Some ref ->
     exists q, gpu_journal s !! x = Some q /\ status_is "running" q = true) ->
  forall x ref, active_generations s !! x = Some ref ->
    exists q, gpu_journal (journaled id r s) !! x = Some q /\ status_is "running" q = true.
Proof.
  simpl. intros Hr H x ref Hx. rewrite lookup_insert. case_decide; eauto.
Qed.

Lemma serving_trace_stop s s' : Serving s ->
  (exists name id, name <> "generation_admitted" /\ s' = add_trace name id s) \/ s' = set_stopped s ->
  Serving s'.
Proof.
  intros [] [(name & id & Hn & ->)| ->]; split; simpl; try done.
  all: try rewrite admitted_trace, bool_decide_eq_false_2, app_nil_r by done; auto.
Qed.

Lemma serving_context s ref f : Serving s ->
  (forall c, contexts s !! ref = Some c -> same_runner c (f c)) ->
  Serving (set_contexts (alter f ref) s).
Proof.
  intros [] Hf. split; simpl; auto.
  - intros i d Hd. apply alter_context in Hd as (b & Hb & [[-> ->]|[_ ->]]); [|eauto].
    rewrite (proj1 (Hf b Hb)). eauto.
  - apply alter_unique; [|done]. intros c Hc. apply (Hf c Hc).
  - intros i d Hd. apply alter_context in Hd as (b & Hb & [[-> ->]|[_ ->]]); [|eauto].
    destruct (Hf b Hb) as (_ & _ & _ & _ & Hw). eauto.
  - intros i d Hd Hbd. apply alter_context in Hd as (b & Hb & [[-> ->]|[_ ->]]); [|eauto].
    destruct (Hf b Hb) as (-> & _ & _ & ? & _). eauto.
  - intros id i. rewrite sv_active0. split.
    + intros (c & Hc & Hid & He). destruct (decide (i = ref)) as [->|Hne].
      * exists (f c). rewrite list_lookup_alter_eq, Hc. destruct (Hf c Hc) as (-> & _ & -> & _). eauto.
      * exists c. by rewrite list_lookup_alter_ne.
    + intros (c & Hc & Hid & He). apply alter_context in Hc as (b & Hb & [[-> ->]|[_ ->]]); [|eauto].
      destruct (Hf b Hb) as (Hq & _ & Hp & _). exists b. rewrite <- Hp. split; [done|]. by rewrite <- Hq.
  - intros id. rewrite sv_pending0. split; intros (i & d & Ha & Hd & Hr).
    + destruct (decide (i = ref)) as [->|Hne].
      * exists ref, (f d). rewrite list_lookup_alter_eq, Hd. by rewrite (proj1 (proj2 (Hf d Hd))).
      * exists i, d. by rewrite list_lookup_alter_ne.
    + apply alter_context in Hd as (b & Hb & [[-> ->]|[_ ->]]); [|eauto].
      rewrite (proj1 (proj2 (Hf b Hb))) in Hr. eauto.
Qed.

Lemma serving_tombstone s id r : Serving s -> gpu_journal s !! id = None ->
  (size (gpu_journal s) < MAX_TRACKED)%nat -> well_recorded id r -> Serving (journaled id r s).
Proof.
  intros HS Hn Hsz Hw. pose proof HS as [].
  split; try done.
  - by apply journaled_disk.
  - by apply journaled_copy.
  - intros x Hx. apply known_journaled. by apply sv_admitted_journal0.
  - intros x ref Hx. destruct (sv_running0 _ _ Hx) as (q & Hq & Hr). exists q. split; [|done]. simpl.
    rewrite lookup_insert_ne; [done|]. congruence.
  - exact (journaled_record _ _ s Hw sv_record0).
  - simpl. rewrite map_size_insert_None by done. lia.
  - intros x e Hx. eapply known_journaled, sv_completion0. eauto.
Qed.

(** Two live contexts never share a request. *)
Lemma live_unique s i j c d : Serving s ->
  contexts s !! i = Some c -> contexts s !! j = Some d -> ctx_request c = ctx_request d ->
  is_ended (ctx_phase c) = false -> is_ended (ctx_phase d) = false -> i = j.
Proof.
  intros [] Hc Hd Hq Hec Hed.
  assert (active_generations s !! ctx_request c = Some i) as Hi by (apply sv_active0; eauto).
  assert (active_generations s !! ctx_request c = Some j) as Hj by (apply sv_active0; rewrite Hq; eauto).
  congruence.
Qed.

Lemma before_post_live p : before_post p = true -> is_ended p = false.
Proof. by destruct p. Qed.

Lemma serving_post s ref c : Serving s ->
  contexts s !! ref = Some c -> ctx_phase c = Connecting ->
  Serving (add_post (ctx_request c) (set_contexts (alter with_dispatch ref) s)).
Proof.
  intros HS Hc Hp.
  assert (Serving (set_contexts (alter with_dispatch ref) s)) as HS'.
  { apply serving_context; [done|]. intros d Hd. simplify_eq. unfold same_runner. by rewrite Hp. }
  destruct HS' as []. split; try assumption; cbn [add_post posts contexts set_contexts] in *.
  - apply NoDup_app. repeat split; [done| |apply NoDup_singleton].
    intros x Hx ->%list_elem_of_singleton. revert Hx. eapply sv_unposted; eauto. by rewrite Hp.
  - intros id [?| ->%list_elem_of_singleton]%elem_of_app; [by apply (sv_posted s HS)|].
    by eapply (sv_context s HS).
  - intros i d Hd Hb [?|Heq%list_elem_of_singleton]%elem_of_app; [by eapply sv_unposted0|].
    apply alter_context in Hd as (b & Hb' & [[-> ->]|[Hne ->]]); [done|].
    apply Hne. eapply live_unique; [exact HS|exact Hb'|exact Hc|done|by apply before_post_live|by rewrite Hp].
Qed.

Lemma serving_acknowledge s id r v : Serving s ->
  completions s !! id = Some (Some v) -> gpu_journal s !! id = Some r ->
  Serving (add_trace "generation_delivery_ack" id
    (set_completions (delete id) (journaled id (dict_set "delivery_acknowledged" (PBool true) r) s))).
Proof.
  intros HS Hv Hj. pose proof HS as []. split; simpl; auto.
  - exact (journaled_disk _ _ s sv_disk0).
  - exact (journaled_copy _ _ s sv_copy0).
  - rewrite admitted_trace, app_nil_r. auto.
  - intros x. rewrite admitted_trace, app_nil_r. intros Hx. apply (known_journaled _ _ s). unfold known. auto.
  - intros x Hx. rewrite admitted_trace, app_nil_r. auto.
  - intros i c Hc. rewrite admitted_trace, app_nil_r. eauto.
  - intros x ref Hx. destruct (sv_running0 _ _ Hx) as (q & Hq & Hr). rewrite lookup_insert.
    case_decide as E; [|eauto]. subst x. simplify_eq. eexists. split; [done|]. by rewrite status_kept.
  - refine (journaled_record _ _ s _ sv_record0). apply well_recorded_other; [done|done|by apply sv_record0].
  - rewrite map_size_insert_Some by eauto. done.
  - intros x e. rewrite lookup_delete_Some. intros [_ Hx]. apply (known_journaled _ _ s). unfold known. eauto.
  - intros x. rewrite lookup_delete_Some, sv_pending0. split; [by intros []|]. intros H. split; [|done].
    intros <-. apply sv_pending0 in H. congruence.
Qed.

(** What ending a generation leaves, without its completion. *)
Lemma ended_pending s ref c status r id i d : Serving s ->
  contexts s !! ref = Some c -> active_generations s !! ctx_request c = Some ref ->
  (active_generations (ended_by ref (ctx_request c) status r s) !! id = Some i
   /\ contexts (ended_by ref (ctx_request c) status r s) !! i = Some d /\ ctx_runner d = Background)
  <-> (id <> ctx_request c /\ active_generations s !! id = Some i /\ contexts s !! i = Some d
       /\ ctx_runner d = Background).
Proof.
  intros [] Hc Ha. simpl. rewrite lookup_delete_Some.
  assert (id <> ctx_request c -> active_generations s !! id = Some i -> i <> ref) as Hne.
  { intros Hn Hi ->. apply sv_active0 in Hi as (x & Hx & <- & _). congruence. }
  split.
  - intros ([Hn Hi] & Hd & Hr). rewrite list_lookup_alter_ne in Hd; [done|]. symmetry. auto.
  - intros (Hn & Hi & Hd & Hr). rewrite list_lookup_alter_ne; [done|]. symmetry. auto.
Qed.

Lemma serving_end s ref c status r f : Serving s -> status ∈ STATUSES ->
  contexts s !! ref = Some c -> is_ended (ctx_phase c) = false ->
  active_generations s !! ctx_request c = Some ref -> gpu_journal s !! ctx_request c = Some r ->
  (ctx_runner c = Background -> f (completions s) !! ctx_request c <> Some None) ->
  (ctx_runner c <> Background -> f (completions s) = completions s) ->
  (forall id, id <> ctx_request c -> f (completions s) !! id = completions s !! id) ->
  Serving (set_completions f (ended_by ref (ctx_request c) status r s)).
Proof.
  intros HS Hst Hc He Ha Hj Hf Hf' Hk. pose proof HS as [].
  assert (admitted (set_completions f (ended_by ref (ctx_request c) status r s)) = admitted s) as Hadm.
  { transitivity (admitted (add_trace "generation_terminal" (ctx_request c) s)); [done|].
    by rewrite admitted_trace, app_nil_r. }
  split; rewrite ?Hadm; simpl; auto.
  - exact (journaled_disk _ _ s sv_disk0).
  - exact (journaled_copy _ _ s sv_copy0).
  - intros x Hx. apply (known_journaled _ _ s). unfold known. auto.
  - intros i d Hd.
    apply alter_context in Hd as (b & Hb & [[-> ->]|[_ ->]]); simpl; eauto.
  - by apply alter_unique.
  - intros i d Hd. apply alter_context in Hd as (b & Hb & [[-> ->]|[_ ->]]); [done|eauto].
  - intros i d Hd Hbp. apply alter_context in Hd as (b & Hb & [[-> ->]|[_ ->]]); [done|eauto].
  - intros id i. rewrite lookup_delete_Some, sv_active0. split.
    + intros (Hn & d & Hd & Hid & Hed). exists d. rewrite list_lookup_alter_ne; [done|].
      intros <-. congruence.
    + intros (d & Hd & Hid & Hed). apply alter_context in Hd as (b & Hb & [[-> ->]|[Hne ->]]); [done|].
      split; [|eauto]. intros Heq. apply Hne. eapply live_unique; eauto. congruence.
  - intros x i. rewrite lookup_delete_Some. intros [Hn Hi]. rewrite lookup_insert_ne by done. eauto.
  - refine (journaled_record _ _ s _ sv_record0). apply well_recorded_status; [done|by apply sv_record0].
  - rewrite map_size_insert_Some by eauto. done.
  - intros x e Hx. destruct (decide (x = ctx_request c)) as [->|Hn]; [apply (known_journaled_here _ _ s)|].
    apply (known_journaled _ _ s). unfold known. rewrite Hk in Hx by done. eauto.
  - intros id. transitivity (id <> ctx_request c /\ completions s !! id = Some None).
    + destruct (decide (id = ctx_request c)) as [->|Hn]; [|rewrite Hk by done; tauto].
      split; [|tauto]. intros Hn. destruct (decide (ctx_runner c = Background)) as [E|E]; [by apply Hf in E|].
      rewrite Hf' in Hn by done. apply sv_pending0 in Hn as (i & d & Hi & Hd & Hr). congruence.
    + rewrite sv_pending0. setoid_rewrite (fun i d => ended_pending s ref c status r id i d HS Hc Ha).
      naive_solver.
Qed.

(** The state of an admission, its completion entry included. *)
Lemma serving_admit s id r payload kind deadline :
  Serving s -> gpu_journal s !! id = None -> (size (gpu_journal s) < MAX_TRACKED)%nat ->
  status_is "running" r = true -> well_recorded id r ->
  let s' := admitted_by id r (new_context id payload kind deadline) s in
  Serving (match kind with Background => set_completions <[id := None]> s' | _ => s' end).
Proof.
  intros HS Hn Hsz Hr Hw. cbv zeta.
  set (c := new_context id payload kind deadline).
  set (s' := match kind with Background => _ | _ => _ end).
  assert (is_ended (ctx_phase c) = false) as Hlive by (by destruct kind).
  pose proof (serving_tombstone s id r HS Hn Hsz Hw) as [].
  assert (contexts s' = contexts s ++ [c]) as Hctx by (by destruct kind).
  assert (active_generations s' = <[id := length (contexts s)]> (active_generations s)) as Hact by (by destruct kind).
  assert (gpu_journal s' = gpu_journal (journaled id r s)) as Hjou by (by destruct kind).
  assert (requests s' = requests (journaled id r s)) as Hreq by (by destruct kind).
  assert (posts s' = posts s) as Hpost by (by destruct kind).
  assert (admitted s' = admitted s ++ [id]) as Hadm.
  { transitivity (admitted (add_trace "generation_admitted" id s)); [by destruct kind|].
    by rewrite admitted_trace. }
  assert (forall x, completions s' !! x
                    = if decide (kind = Background /\ x = id) then Some None else completions s !! x) as Hcom.
  { intros x. destruct kind; simpl; rewrite ?lookup_insert; repeat case_decide; naive_solver. }
  assert (forall ref d, contexts s !! ref = Some d -> ctx_request d <> id) as Hctxn.
  { intros ref d Hd <-. destruct (sv_context_journal s HS _ _ Hd) as [x Hx]. congruence. }
  assert (active_generations s !! id = None) as Hactn.
  { destruct (active_generations s !! id) as [ref|] eqn:E; [|done].
    apply (sv_active s HS) in E as (d & Hd & Hid & _). by apply Hctxn in Hd. }
  assert (completions s !! id = None) as Hcomn.
  { destruct (completions s !! id) eqn:E; [|done]. apply (sv_completion s HS) in E as [x Hx]. congruence. }
  clearbody s'. split; rewrite ?Hctx, ?Hact, ?Hjou, ?Hreq, ?Hpost, ?Hadm.
  - done.
  - done.
  - apply NoDup_app. split; [apply HS|]. split; [|apply NoDup_singleton].
    intros x Hx ->%list_elem_of_singleton. apply (sv_admitted_journal s HS) in Hx as [q Hq]. congruence.
  - intros x [Hx| ->%list_elem_of_singleton]%elem_of_app; [auto|apply known_journaled_here].
  - apply HS.
  - intros x Hx. apply elem_of_app. left. by apply (sv_posted s HS).
  - intros ref d [Hd|[_ Hd]]%lookup_app_Some; apply elem_of_app; [left; by eapply (sv_context s HS)|right].
    apply list_lookup_singleton_Some in Hd as [_ <-]. by apply list_elem_of_singleton.
  - intros i j b d [Hb|[Hi Hb]]%lookup_app_Some [Hd|[Hj Hd]]%lookup_app_Some Hq.
    + by eapply (sv_unique s HS).
    + apply list_lookup_singleton_Some in Hd as [_ <-]. by apply Hctxn in Hb.
    + apply list_lookup_singleton_Some in Hb as [_ <-]. by apply Hctxn in Hd.
    + apply list_lookup_singleton_Some in Hb as [Hi' _], Hd as [Hj' _]. lia.
  - intros ref d [Hd|[_ Hd]]%lookup_app_Some; [eauto|].
    apply list_lookup_singleton_Some in Hd as [_ <-]. by destruct kind.
  - intros ref d [Hd|[_ Hd]]%lookup_app_Some Hb; [by eapply (sv_unposted s HS)|].
    apply list_lookup_singleton_Some in Hd as [_ <-]. intros Hin%(sv_posts_journal s HS).
    destruct Hin as [q Hq]. simpl in Hq. congruence.
  - intros x ref. destruct (decide (id = x)) as [<-|E];
      [rewrite lookup_insert_eq|rewrite lookup_insert_ne by done].
    + split.
      * intros [= <-]. exists c. rewrite lookup_app_r, Nat.sub_diag by done. done.
      * intros (d & [Hd|[Hge Hd]]%lookup_app_Some & Hid & _); [by apply Hctxn in Hd|].
        apply list_lookup_singleton_Some in Hd as [Hz _]. f_equal. lia.
    + rewrite (sv_active s HS). split; intros (d & Hd & Hid & He); exists d.
      * by rewrite (lookup_app_l_Some _ _ _ _ Hd).
      * apply lookup_app_Some in Hd as [Hd|[_ Hd]]; [done|].
        apply list_lookup_singleton_Some in Hd as [_ <-]. by simpl in Hid.
  - intros x ref. destruct (decide (id = x)) as [<-|E];
      [rewrite lookup_insert_eq|rewrite lookup_insert_ne by done; eauto].
    intros _. exists r. simpl. by rewrite lookup_insert_eq.
  - done.
  - done.
  - intros x e. rewrite Hcom. destruct (decide (kind = Background /\ x = id)) as [[Ek ->]|E]; [|eauto].
    intros _. apply known_journaled_here.
  - intros x. rewrite Hcom. destruct (decide (x = id)) as [->|Hne].
    + rewrite lookup_insert_eq. split.
      * destruct (decide (kind = Background /\ id = id)) as [[Ek _]|E]; [|congruence].
        intros _. exists (length (contexts s)), c. by rewrite lookup_app_r, Nat.sub_diag.
      * intros (ref & d & [= <-] & Hd & Hk). rewrite lookup_app_r, Nat.sub_diag in Hd by done.
        injection Hd as <-. simpl in Hk. by rewrite decide_True.
    + rewrite decide_False by tauto. rewrite lookup_insert_ne by done. rewrite (sv_pending s HS).
      split; intros (ref & d & Ha & Hd & Hk); exists ref, d.
      * by rewrite (lookup_app_l_Some _ _ _ _ Hd).
      * split; [done|]. split; [|done]. apply (sv_active s HS) in Ha as (e & He & _).
        rewrite (lookup_app_l_Some _ _ _ _ He) in Hd. by simplify_eq.
Qed.

Lemma gstep_serving cfg s s' : gstep cfg s s' -> Serving s -> Serving s'.
Proof.
  intros [] HS.
  - eapply serving_trace_stop; eauto 6.
  - eapply serving_trace_stop; eauto.
  - by apply serving_admit.
  - by apply serving_tombstone.
  - by apply serving_context.
  - by apply serving_post.
  - destruct (ctx_runner c) eqn:E.
    + apply serving_end; try done; [by apply terminal_status|..].
      * intros _. rewrite lookup_alter_eq. by destruct (completions s !! _).
      * intros id Hid. by rewrite lookup_alter_ne.
    + apply (serving_end s ref c status r (fun m => m)); try done; [by apply terminal_status|by rewrite E].
    + apply (serving_end s ref c status r (fun m => m)); try done; [by apply terminal_status|by rewrite E].
  - apply serving_end; try done.
    + unfold STATUSES. set_solver.
    + by rewrite H0.
    + intros _. by rewrite lookup_delete_eq.
    + intros id Hid. by rewrite lookup_delete_ne.
  - by eapply serving_acknowledge.
Qed.

(** * The GPU relay: its handlers refine the abstract steps

    [handle_refines] shows that whatever an action does, returning or raising,
    is a sequence of the atomic changes of [RelayGpuProofs]; so every run of the
    relay keeps the invariant. *)

Section Steps.
Context (sha256_hex : string -> string) (cfg : configuration).
Local Abbreviation gsteps := (rtc (gstep cfg)).

Lemma gsteps_serving s s' : gsteps s s' -> Serving s -> Serving s'.
Proof. induction 1; eauto using gstep_serving. Qed.

Lemma one_step s s' : gstep cfg s s' -> gsteps s s'.
Proof. apply rtc_once. Qed.

(** ** Admission *)

Lemma one_of_status st r : st ∈ STATUSES -> status_is st r = true -> one_of (get_none "status" r) STATUSES = true.
Proof.
  intros Hst Hr. unfold one_of. apply existsb_exists. exists st. split; [by apply list_elem_of_In|done].
Qed.

Lemma fresh_record id st boot rest : ID id = true -> st ∈ STATUSES ->
  well_recorded id (("id", PStr id) :: ("status", PStr st) :: ("boot_id", PStr boot) :: rest)
  /\ status_is st (("id", PStr id) :: ("status", PStr st) :: ("boot_id", PStr boot) :: rest) = true.
Proof.
  intros Hid Hst. set (r := _ :: _ :: _).
  assert (status_is st r = true) as Hr.
  { unfold status_is, get_none. simpl. by apply bool_decide_eq_true. }
  split; [|done]. split; [done|]. split; [|by eapply one_of_status].
  unfold get_none. simpl. by apply bool_decide_eq_true.
Qed.

Lemma admit_cases id payload timeout kind now s : ID id = true ->
  match admit_generation sha256_hex cfg id payload timeout kind now s with
  | (s', Err _) => s' = s \/ s' = add_trace "generation_rejected" id s
  | (s', Ok ref) =>
      exists r deadline, ref = length (contexts s) /\ gpu_journal s !! id = None
        /\ (size (holding s) < max_inflight cfg)%nat /\ (size (gpu_journal s) < MAX_TRACKED)%nat
        /\ stopped s = false /\ status_is "running" r = true /\ well_recorded id r
        /\ s' = admitted_by id r (new_context id payload kind deadline) s
  end.
Proof.
  intros Hid. unfold admit_generation, sequence, computing. destruct (isfinite timeout) as [[n|]|e]; [|by left..].
  unfold raising_if, computing, raise_if, reading.
  destruct (_ || _); [by left|].
  destruct (stopped s || (lifetime s <=? now 0%nat)) eqn:Es; [by left|]. apply orb_false_elim in Es as [Es _].
  destruct (gpu_journal s !! id) eqn:Ej; [by right|].
  destruct (max_inflight cfg <=? _)%nat eqn:Em; [by left|].
  destruct (MAX_TRACKED <=? _)%nat eqn:Et; [by left|].
  apply Nat.leb_gt in Em, Et. eexists _, (Z.min (now 1%nat + n) (lifetime s)).
  pose proof (fresh_record id "running" (boot_id s) [("payload_sha256", PStr (payload_sha256 sha256_hex payload))] Hid) as [Hw Hst].
  { unfold STATUSES. set_solver. }
  by repeat (split; [done|]).
Qed.

Lemma validate_id v id payload timeout : validate_generation cfg v = Ok (id, payload, timeout) -> ID id = true.
Proof.
  unfold validate_generation. destruct (negb _); [done|]. destruct (id_value _) as [i|] eqn:E; [|done].
  apply id_value_inv in E as [_ E]. destruct (check_generation _ _); [|done]. by intros [= <- _ _].
Qed.

Lemma single_id_ok v e id : single_id v e = Ok id -> ID id = true.
Proof.
  unfold single_id. destruct (negb _); [done|]. destruct (id_value _) as [i|] eqn:E; [|done].
  apply id_value_inv in E as [_ E]. by intros [= <-].
Qed.

Lemma admit_inline id payload timeout kind now s s' r : ID id = true -> kind <> Background ->
  admit_generation sha256_hex cfg id payload timeout kind now s = (s', r) -> gsteps s s'.
Proof.
  intros Hid Hk E. pose proof (admit_cases id payload timeout kind now s Hid) as H. rewrite E in H.
  destruct r as [ref|e].
  - destruct H as (rec & d & _ & Hn & Hh & Hs & Hst & Hr & Hw & ->). apply one_step.
    pose proof (G_admit cfg s id rec payload kind d Hn Hh Hs Hst Hr Hw) as G. by destruct kind.
  - destruct H as [-> | ->]; [done|]. apply one_step. by constructor.
Qed.

Lemma submit_refines v now s : gsteps s (submit_generation sha256_hex cfg v now s).1.
Proof.
  unfold submit_generation, sequence, computing.
  destruct (validate_generation cfg v) as [[[id payload] timeout]|e] eqn:Ev; [|done].
  apply validate_id in Ev. pose proof (admit_cases id payload timeout Background now s Ev) as H.
  destruct (admit_generation _ _ _ _ _ _ _ _) as [s' [ref|e]].
  - destruct H as (rec & d & _ & Hn & Hh & Hs & Hst & Hr & Hw & ->). apply one_step.
    exact (G_admit cfg s id rec payload Background d Hn Hh Hs Hst Hr Hw).
  - destruct H as [-> | ->]; [done|]. apply one_step. by constructor.
Qed.

Lemma generate_refines v now s : gsteps s (generate sha256_hex cfg v now s).1.
Proof.
  unfold generate, sequence, computing.
  destruct (validate_generation cfg v) as [[[id payload] timeout]|e] eqn:Ev; [|done].
  apply validate_id in Ev.
  destruct (admit_generation _ _ _ _ _ _ _ _) as [s' r] eqn:E. apply admit_inline in E; [|done..].
  by destruct r.
Qed.

Lemma echo_refines v now s : gsteps s (echo sha256_hex cfg v now s).1.
Proof.
  unfold echo, sequence, computing. destruct (single_id v _) as [id|e] eqn:Ev; [|done].
  apply single_id_ok in Ev.
  destruct (admit_generation _ _ _ _ _ _ _ _) as [s' r] eqn:E. apply admit_inline in E; [|done..].
  destruct r; [|done]. eapply rtc_r; [exact E|]. by constructor.
Qed.

(** ** The end of a generation *)

Lemma live_active s ref c : Serving s -> contexts s !! ref = Some c -> is_ended (ctx_phase c) = false ->
  active_generations s !! ctx_request c = Some ref.
Proof. intros HS Hc He. apply (sv_active s HS). eauto. Qed.

Lemma finish_ok id ref status s r :
  active_generations s !! id = Some ref -> gpu_journal s !! id = Some r ->
  finish_generation id ref status s
  = (add_trace "generation_terminal" id
       (set_active (delete id) (journaled id (dict_set "status" (PStr status) r) s)), Ok tt).
Proof.
  intros Ha Hj. unfold finish_generation, reading, sequence, raising_if, computing.
  rewrite bool_decide_eq_true_2 by done. simpl. by rewrite Hj.
Qed.

Lemma leave_ok s ref c status r q :
  active_generations s !! ctx_request c = Some ref -> gpu_journal s !! ctx_request c = Some q ->
  leave (ctx_request c) ref status r s = (ended_by ref (ctx_request c) status q s, r).
Proof.
  intros Ha Hj. unfold leave, sequence at 1, changing at 1. unfold sequence.
  by rewrite (finish_ok _ ref status (set_contexts (alter (with_phase Ended) ref) s) q Ha Hj).
Qed.

Lemma conclude_step s ref c status r : Serving s ->
  contexts s !! ref = Some c -> is_ended (ctx_phase c) = false -> status ∈ TERMINAL ->
  gstep cfg s (conclude c ref status r s).1.
Proof.
  intros HS Hc He Hst. pose proof (live_active s ref c HS Hc He) as Ha.
  destruct (sv_running s HS _ _ Ha) as (q & Hq & _).
  pose proof (leave_ok s ref c status r q Ha Hq) as El.
  pose proof (fun v => G_end cfg s ref c q status v Hc He Ha Hq Hst) as G.
  unfold conclude. destruct (ctx_runner c).
  - unfold sequence, worker. rewrite El. destruct r as [[code result]|e].
    + apply G.
    + rewrite bool_decide_eq_false_2; [apply G|]. simpl. by rewrite lookup_delete_eq.
  - unfold sequence. rewrite El. destruct r; apply (G PNone).
  - unfold sequence. rewrite El. destruct r; apply (G PNone).
Qed.

Lemma finish_step s ref c status : Serving s ->
  contexts s !! ref = Some c -> is_ended (ctx_phase c) = false -> ctx_runner c <> Background ->
  status ∈ TERMINAL ->
  exists s', finish_generation (ctx_request c) ref status (set_contexts (alter (with_phase Ended) ref) s) = (s', Ok tt)
    /\ gstep cfg s s'.
Proof.
  intros HS Hc He Hr Hst. pose proof (live_active s ref c HS Hc He) as Ha.
  destruct (sv_running s HS _ _ Ha) as (q & Hq & _). eexists. split; [by apply finish_ok|].
  pose proof (G_end cfg s ref c q status PNone Hc He Ha Hq Hst) as G. by destruct (ctx_runner c).
Qed.

(** ** The runner's steps *)

Lemma at_phase_refines ref p k s :
  (forall c, contexts s !! ref = Some c -> p (ctx_phase c) = true -> gsteps s (k c s).1) ->
  gsteps s (at_phase ref p k s).1.
Proof.
  intros H. unfold at_phase, reading. destruct (contexts s !! ref) as [c|] eqn:E; [|done].
  destruct (p (ctx_phase c)) eqn:Ep; [by apply H|done].
Qed.

Lemma excepting_terminal t e : t ∈ TERMINAL -> (excepting t e).1 ∈ TERMINAL.
Proof. done. Qed.

Lemma judge_terminal id payload expired u : (judge sha256_hex cfg id payload expired u).1 ∈ TERMINAL.
Proof.
  assert ("uncertain" ∈ TERMINAL /\ "failed" ∈ TERMINAL /\ "finished" ∈ TERMINAL) as (Hu & Hf & Hd).
  { unfold TERMINAL. set_solver. }
  destruct u as [|e|status size complete body]; simpl; [done|done|].
  repeat match goal with
  | |- (match ?x with _ => _ end).1 ∈ TERMINAL => destruct x; try done
  | |- ((match ?x with _ => _ end), _).1 ∈ TERMINAL => destruct x; try done
  end.
  all: simpl; by repeat match goal with |- (match ?x with _ => _ end) ∈ TERMINAL => destruct x end.
Qed.

Lemma failed_terminal : "failed" ∈ TERMINAL.
Proof. unfold TERMINAL. set_solver. Qed.

Lemma start_refines ref b s : Serving s -> gsteps s (start_worker ref b s).1.
Proof.
  intros HS. apply at_phase_refines. intros c Hc Hp. destruct (ctx_phase c) eqn:E; try done.
  pose proof (sv_phase s HS _ _ Hc) as Hw. unfold well_phased in Hw. rewrite E in Hw.
  assert (is_ended (ctx_phase c) = false) as He by (by rewrite E).
  destruct b.
  - apply one_step. apply (G_context cfg s ref). intros d Hd. simplify_eq. unfold same_runner, well_phased.
    rewrite E. done.
  - pose proof (live_active s ref c HS Hc He) as Ha. destruct (sv_running s HS _ _ Ha) as (q & Hq & _).
    unfold sequence at 1, changing at 1. unfold sequence.
    rewrite (finish_ok _ ref "failed" (set_contexts (alter (with_phase Ended) ref) s) q Ha Hq).
    apply one_step. exact (G_drop cfg s ref c q Hc E Hw Ha Hq).
Qed.

Lemma concluding s s' ref c t r : gsteps s s' -> Serving s' ->
  contexts s' !! ref = Some c -> is_ended (ctx_phase c) = false -> t ∈ TERMINAL ->
  gsteps s (conclude c ref t r s').1.
Proof. intros Hs HS Hc He Ht. eapply rtc_r; [exact Hs|]. by apply conclude_step. Qed.

Lemma begin_refines ref b s : Serving s -> gsteps s (begin_generation ref b s).1.
Proof.
  intros HS. apply at_phase_refines. intros c Hc Hp. destruct (ctx_phase c) eqn:E; try done.
  assert (gsteps s (add_trace "generation_begin" (ctx_request c) s)) as G
    by (apply one_step; by constructor).
  unfold sequence at 1, tracing, changing at 1. destruct b.
  - eapply rtc_r; [exact G|]. apply (G_context cfg _ ref). intros d Hd. simpl in Hd. simplify_eq.
    unfold same_runner, well_phased. rewrite E. done.
  - apply concluding; try done; [by eapply gsteps_serving|by rewrite E|apply failed_terminal].
Qed.

Lemma dispatch_refines ref connect now s : Serving s -> gsteps s (dispatch ref connect now s).1.
Proof.
  intros HS. apply at_phase_refines. intros c Hc Hp. destruct (ctx_phase c) eqn:E; try done.
  assert (is_ended (ctx_phase c) = false) as He by (by rewrite E).
  destruct connect; simpl excepting; [|apply concluding; eauto using failed_terminal; done..].
  destruct (cancel c) eqn:Ec; [apply concluding; eauto using failed_terminal; done|].
  destruct (_ || _); [apply concluding; eauto using failed_terminal; done|].
  apply one_step. exact (G_post cfg s ref c Hc E Ec).
Qed.

Lemma answered_refines ref u now s : Serving s -> gsteps s (answered sha256_hex cfg ref u now s).1.
Proof.
  intros HS. apply at_phase_refines. intros c Hc Hp. destruct (ctx_phase c) eqn:E; try done.
  pose proof (judge_terminal (ctx_request c) (ctx_payload c) (cancel c || (ctx_deadline c <=? now)) u) as Ht.
  destruct (judge _ _ _ _ _ _) as [t r]. apply concluding; [done|done|done|by rewrite E|done].
Qed.

Lemma echo_turn_refines ref now sent s : Serving s -> gsteps s (echo_turn ref now sent s).1.
Proof.
  intros HS. apply at_phase_refines. intros c Hc Hp. destruct (ctx_phase c) eqn:E; try done.
  pose proof (sv_phase s HS _ _ Hc) as Hw. unfold well_phased in Hw. rewrite E in Hw.
  assert (is_ended (ctx_phase c) = false) as He by (by rewrite E).
  assert (ctx_runner c <> Background) as Hb by (by rewrite Hw).
  destruct (finish_step s ref c "failed" HS Hc He Hb failed_terminal) as (s1 & E1 & G1).
  cbv beta iota zeta.
  destruct (_ || _).
  { unfold sequence at 1, changing at 1. unfold sequence. rewrite E1. by apply one_step. }
  destruct (negb sent).
  { unfold sequence, changing. rewrite E1. by apply one_step. }
  destruct (S sent0 =? 3)%nat.
  - set (s0 := add_trace "echo_end" (ctx_request c) s).
    assert (gstep cfg s s0) as G0 by (by constructor).
    assert (Serving s0) as HS0 by (by eapply gstep_serving).
    assert ("finished" ∈ TERMINAL) as Hf by (unfold TERMINAL; set_solver).
    destruct (finish_step s0 ref c "finished" HS0 Hc He Hb Hf) as (s2 & E2 & G2).
    unfold sequence, tracing, changing. fold s0. rewrite E2. by eapply rtc_l, one_step.
  - apply one_step. apply (G_context cfg s ref). intros d Hd. simplify_eq. unfold same_runner, well_phased.
    rewrite E. done.
Qed.

(** ** Cancellation and acknowledgement *)

Lemma cancel_refines id s : Serving s -> ID id = true -> gsteps s (cancel_generation id s).1.
Proof.
  intros HS Hid. unfold cancel_generation, reading. unfold sequence at 1.
  set (m := match gpu_journal s !! id with Some _ => returning tt | None => _ end).
  assert (match m s with
          | (s', Ok _) => gsteps s s' /\ active_generations s' = active_generations s
          | (s', Err _) => s' = s
          end) as H.
  { unfold m. destruct (gpu_journal s !! id) eqn:E; [done|].
    unfold sequence, raising_if, computing, raise_if. destruct (MAX_TRACKED <=? _)%nat eqn:Et; [done|].
    apply Nat.leb_gt in Et. split; [|done]. apply one_step. 
    destruct (fresh_record id "cancelled" (boot_id s) [] Hid) as [Hw Hst]; [unfold STATUSES; set_solver|].
    by apply (G_tombstone cfg s id). }
  destruct (m s) as [s' [u|e]]; [|by subst]. destruct H as [H _]. unfold sequence at 1.
  destruct (active_generations s !! id) as [ref|]; simpl.
  - eapply rtc_r; [|by constructor]. eapply rtc_r; [exact H|]. apply (G_context cfg s' ref).
    intros c Hc. by destruct c.
  - eapply rtc_r; [exact H|]. by constructor.
Qed.

Lemma acknowledge_refines id s : gsteps s (acknowledge_delivery id s).1.
Proof.
  unfold acknowledge_delivery, reading. destruct (match gpu_journal s !! id with Some _ => _ | None => _ end); [done|].
  unfold sequence at 1, completion_entry, reading.
  destruct (completions s !! id) as [[v|]|] eqn:Ec; [| |destruct (gpu_journal s !! id)]; simpl; try done.
  destruct (gpu_journal s !! id) as [r|] eqn:Ej; [|done].
  apply one_step. exact (G_acknowledge cfg s id r v Ec Ej).
Qed.

(** Every action is a sequence of abstract steps. *)
Theorem handle_refines a s : Serving s -> gsteps s (handle sha256_hex cfg a s).1.
Proof.
  intros HS. destruct a; cbn [handle].
  - apply submit_refines.
  - by apply start_refines.
  - apply generate_refines.
  - apply echo_refines.
  - by apply echo_turn_refines.
  - by apply begin_refines.
  - by apply dispatch_refines.
  - by apply answered_refines.
  - unfold sequence, computing. destruct (single_id _ _) eqn:E; [|done].
    apply cancel_refines; [done|by eapply single_id_ok].
  - apply at_phase_refines. intros c Hc _. apply cancel_refines; [done|].
    destruct (sv_context_journal s HS _ _ Hc) as [r Hr]. apply (sv_record s HS _ _ Hr).
  - unfold sequence, computing. destruct (single_id _ _); [apply acknowledge_refines|done].
  - unfold completion_poll, completion_entry, sequence, reading.
    destruct (completions s !! id); [done|]. by destruct (gpu_journal s !! id).
  - apply one_step. constructor.
Qed.

Lemma steps_refine l s : Serving s -> gsteps s (steps sha256_hex cfg l s).
Proof.
  revert s. induction l as [|a l IH]; intros s HS; [done|]. simpl.
  pose proof (handle_refines a s HS) as H. etransitivity; [exact H|]. apply IH.
  by eapply gsteps_serving.
Qed.
End Steps.

(** * The GPU relay across restarts

    What survives a restart is the journal directory.  The theorems here follow
    the relay through any number of lives: nothing is admitted or posted twice,
    the capacity is never exceeded, and a restart turns what was running into
    an uncertain outcome. *)

(** ** What an abstract step leaves on the disk *)

(** The requests of the directory that reserve capacity. *)
Definition reserving_file (f : file) : bool :=
  match file_json f with Some (PDict r) => reserves r | _ => false end.
Definition disk_occupied (d : gmap string file) : gset string :=
  dom (filter (fun kf => reserving_file kf.2 = true) d).

Lemma elem_of_occupied j id :
  id ∈ occupied j <-> exists r, j !! id = Some r /\ reserves r = true.
Proof.
  unfold occupied. rewrite elem_of_dom. split.
  - intros [r [Hr Hp]%map_lookup_filter_Some]. eauto.
  - intros (r & Hr & Hp). exists r. by apply map_lookup_filter_Some.
Qed.

Lemma elem_of_disk_occupied d id :
  id ∈ disk_occupied d <-> exists f, d !! id = Some f /\ reserving_file f = true.
Proof.
  unfold disk_occupied. rewrite elem_of_dom. split.
  - intros [r [Hr Hp]%map_lookup_filter_Some]. eauto.
  - intros (r & Hr & Hp). exists r. by apply map_lookup_filter_Some.
Qed.

Lemma serving_occupied s : Serving s -> occupied (gpu_journal s) = disk_occupied (requests s).
Proof.
  intros HS. apply set_eq. intros id. rewrite elem_of_occupied, elem_of_disk_occupied. split.
  - intros (r & Hr & Hp). pose proof (sv_copy s HS id r Hr) as Hc.
    destruct (requests s !! id) as [f|] eqn:E; [|done]. simpl in Hc. injection Hc as Hc.
    exists f. split; [done|]. unfold reserving_file. by rewrite Hc.
  - intros (f & Hf & Hp).
    assert (id ∈ dom (gpu_journal s)) as [r Hr]%elem_of_dom by (rewrite <- (sv_disk s HS); apply elem_of_dom; eauto).
    exists r. split; [done|]. pose proof (sv_copy s HS id r Hr) as Hc. rewrite Hf in Hc. simpl in Hc.
    injection Hc as Hc. unfold reserving_file in Hp. by rewrite Hc in Hp.
Qed.

(** Later states keep every file and admit only requests that had none. *)
Definition progress (s s' : relay) : Prop :=
  dom (requests s) ⊆ dom (requests s') /\
  forall id, id ∈ admitted s' -> id ∈ admitted s \/ id ∉ dom (requests s).

Lemma progress_refl s : progress s s.
Proof. split; auto. Qed.
Lemma progress_trans s t u : progress s t -> progress t u -> progress s u.
Proof. intros [H1 H2] [H3 H4]. split; [set_solver|]. intros id [?|?]%H4; [auto|]. right. set_solver. Qed.

Lemma admitted_same s s' : trace s' = trace s -> admitted s' = admitted s.
Proof. unfold admitted. by intros ->. Qed.

Lemma gstep_progress cfg s s' : Serving s -> gstep cfg s s' -> progress s s'.
Proof.
  intros HS []; unfold progress.
  - split; [done|]. rewrite admitted_trace, bool_decide_eq_false_2, app_nil_r by done. auto.
  - split; [done|]. auto.
  - assert (admitted (match kind with Background => set_completions <[id := None]> s'0 | _ => s'0 end)
            = admitted s ++ [id]) as ->.
    { transitivity (admitted (add_trace "generation_admitted" id s)); [by destruct kind|by rewrite admitted_trace]. }
    split; [destruct kind; simpl; rewrite dom_insert_L; set_solver|].
    intros x [?| ->%list_elem_of_singleton]%elem_of_app; [auto|]. right. rewrite (sv_disk s HS).
    by apply not_elem_of_dom.
  - split; [simpl; rewrite dom_insert_L; set_solver|auto].
  - split; [done|auto].
  - split; [done|auto].
  - assert (admitted (match ctx_runner c with
                      | Background => set_completions (alter (fun _ => Some v) (ctx_request c)) s'0
                      | _ => s'0 end) = admitted s) as ->.
    { transitivity (admitted (add_trace "generation_terminal" (ctx_request c) s));
        [by destruct (ctx_runner c)|by rewrite admitted_trace, app_nil_r]. }
    split; [|auto]. destruct (ctx_runner c); simpl; rewrite dom_insert_L; set_solver.
  - split; [simpl; rewrite dom_insert_L; set_solver|].
    intros x. change (x ∈ admitted (add_trace "generation_terminal" (ctx_request c) s) -> x ∈ admitted s \/ x ∉ dom (requests s)).
    rewrite admitted_trace, app_nil_r. auto.
  - split; [simpl; rewrite dom_insert_L; set_solver|].
    intros x. rewrite admitted_trace, app_nil_r. auto.
Qed.

Lemma steps_progress sha cfg l s : Serving s -> progress s (steps sha cfg l s).
Proof.
  intros HS. pose proof (steps_refine sha cfg l s HS) as H.
  induction H as [s|s t u H _ IH]; [apply progress_refl|].
  eapply progress_trans; [by eapply gstep_progress|]. apply IH. by eapply gstep_serving.
Qed.

(** ** Capacity *)

Lemma reserves_kept k v r : k <> "status" -> reserves (dict_set k v r) = reserves r.
Proof. intros H. unfold reserves. by rewrite !status_kept. Qed.

Lemma running_reserves r : status_is "running" r = true -> reserves r = true.
Proof. unfold reserves. by intros ->. Qed.

Lemma status_exclusive s s' r : s <> s' -> status_is s r = true -> status_is s' r = false.
Proof.
  unfold status_is. intros Hs H. apply is_str_inv in H as ->. simpl. by apply bool_decide_eq_false_2.
Qed.

Lemma occupied_insert id r j : occupied (<[id := r]> j) ⊆ {[id]} ∪ occupied j.
Proof.
  intros x. rewrite elem_of_occupied. intros (q & Hq & Hp). rewrite lookup_insert in Hq.
  destruct (decide (id = x)); [set_solver|]. apply elem_of_union_r, elem_of_occupied. eauto.
Qed.

Lemma occupied_replace id r q j : j !! id = Some q -> (reserves r = true -> reserves q = true) ->
  occupied (<[id := r]> j) ⊆ occupied j.
Proof.
  intros Hq Hr x. rewrite !elem_of_occupied. intros (p & Hp & Hpr). rewrite lookup_insert in Hp.
  destruct (decide (id = x)) as [<-|]; [|eauto]. injection Hp as <-. eauto.
Qed.

Definition Bounded (cfg : configuration) (s : relay) : Prop := (size (holding s) <= max_inflight cfg)%nat.

Lemma bounded_subset cfg s s' : holding s' ⊆ holding s -> Bounded cfg s -> Bounded cfg s'.
Proof. unfold Bounded. intros H%subseteq_size. lia. Qed.

Lemma gstep_bounded cfg s s' : Serving s -> gstep cfg s s' -> Bounded cfg s -> Bounded cfg s'.
Proof.
  intros HS [].
  - done.
  - done.
  - intros HB. unfold Bounded. transitivity (size (holding s ∪ {[id]})).
    + apply subseteq_size. unfold holding.
      destruct kind; simpl; pose proof (occupied_insert id r (gpu_journal s)); rewrite ?dom_insert_L; set_solver.
    + pose proof (size_union_alt (holding s) ({[id]} : gset string)) as E. rewrite E.
      assert (({[id]} ∖ holding s : gset string) ⊆ {[id]}) as Hsub%subseteq_size by set_solver.
      rewrite size_singleton in Hsub. lia.
  - apply bounded_subset. unfold holding. simpl. intros x. rewrite !elem_of_union, elem_of_occupied.
    intros [(q & Hq & Hp)|?]; [|auto]. left. rewrite lookup_insert in Hq. apply elem_of_occupied.
    destruct (decide (id = x)); [|eauto]. injection Hq as <-. exfalso. unfold reserves in Hp.
    by rewrite (status_exclusive "cancelled" "running"), (status_exclusive "cancelled" "uncertain") in Hp.
  - done.
  - done.
  - apply bounded_subset.
    assert (occupied (<[ctx_request c := dict_set "status" (PStr status) r]> (gpu_journal s)) ⊆ occupied (gpu_journal s)).
    { eapply occupied_replace; [done|]. intros _. destruct (sv_running s HS _ _ H1) as (q & Hq & Hr).
      simplify_eq. by apply running_reserves. }
    unfold holding. destruct (ctx_runner c); simpl; rewrite ?dom_alter_L; set_solver.
  - apply bounded_subset.
    assert (occupied (<[ctx_request c := dict_set "status" (PStr "failed") r]> (gpu_journal s)) ⊆ occupied (gpu_journal s)).
    { eapply occupied_replace; [done|]. intros _. destruct (sv_running s HS _ _ H2) as (q & Hq & Hr).
      simplify_eq. by apply running_reserves. }
    unfold holding. simpl. rewrite dom_delete_L. set_solver.
  - apply bounded_subset.
    assert (occupied (<[id := dict_set "delivery_acknowledged" (PBool true) r]> (gpu_journal s)) ⊆ occupied (gpu_journal s)).
    { eapply occupied_replace; [done|]. by rewrite reserves_kept. }
    unfold holding. simpl. rewrite dom_delete_L. set_solver.
Qed.

Lemma steps_bounded sha cfg l s : Serving s -> Bounded cfg s -> Bounded cfg (steps sha cfg l s).
Proof.
  intros HS. pose proof (steps_refine sha cfg l s HS) as H.
  induction H as [s|s t u H _ IH]; [done|]. intros HB. apply IH; [by eapply gstep_serving|].
  by eapply gstep_bounded.
Qed.

(** ** Recovery *)

Definition recovered (r : pydict) : pydict :=
  if status_is "running" r then dict_set "status" (PStr "uncertain") r else r.

(** What recovery never changes. *)
Definition same_history (s s' : relay) : Prop :=
  trace s' = trace s /\ posts s' = posts s /\ dom (requests s') = dom (requests s)
  /\ disk_occupied (requests s') = disk_occupied (requests s).

Lemma same_history_trans s t u : same_history s t -> same_history t u -> same_history s u.
Proof. unfold same_history. intuition congruence. Qed.

Record Recovering (s : relay) : Prop := {
  rc_idle : contexts s = [] /\ active_generations s = ∅ /\ completions s = ∅;
  rc_copy : forall id r, gpu_journal s !! id = Some r ->
    file_json <$> requests s !! id = Some (Some (PDict r));
  rc_settled : forall id r, gpu_journal s !! id = Some r -> status_is "running" r = false;
  rc_record : forall id r, gpu_journal s !! id = Some r -> well_recorded id r;
  rc_tracked : (size (gpu_journal s) <= MAX_TRACKED)%nat }.

Lemma recovered_reserves r : reserves (recovered r) = reserves r.
Proof.
  unfold recovered. destruct (status_is "running" r) eqn:E; [|done].
  unfold reserves at 1. by rewrite status_set, orb_true_r, running_reserves.
Qed.

Lemma recovered_settled r : status_is "running" (recovered r) = false.
Proof.
  unfold recovered. destruct (status_is "running" r) eqn:E; [|done].
  eapply status_exclusive; [|apply status_set]. done.
Qed.

Lemma disk_occupied_insert d id f g : d !! id = Some g -> reserving_file f = reserving_file g ->
  disk_occupied (<[id := f]> d) = disk_occupied d.
Proof.
  intros Hg Hf. apply set_eq. intros x. rewrite !elem_of_disk_occupied. rewrite lookup_insert.
  destruct (decide (id = x)) as [<-|]; [|done]. rewrite Hg.
  split; intros (h & [= <-] & Hh); (eexists; split; [done|]); congruence.
Qed.

(** The record of a journal file that recovery accepts. *)
Definition journal_file (name : string) (f : option file) (r : pydict) : Prop :=
  read_json MAX_BODY f = Ok (PDict r) /\ ID name = true /\ is_str (get_none "id" r) name = true
  /\ one_of (get_none "status" r) STATUSES = true.

(** The state once [name] is recovered. *)
Definition recovered_as (name : string) (r : pydict) (s s' : relay) : Prop :=
  s' = set_journal (<[name := recovered r]> (gpu_journal s))
         (if status_is "running" r then <[name := written (PDict (recovered r))]> (requests s) else requests s) s.

Lemma recover_one_cases name s :
  match recover_one name s with
  | (s', Ok _) => exists r, journal_file name (requests s !! name) r /\ recovered_as name r s s'
      /\ (size (gpu_journal s') <= MAX_TRACKED)%nat
  | (s', Err _) => s' = s \/ exists r, journal_file name (requests s !! name) r /\ recovered_as name r s s'
      /\ (MAX_TRACKED < size (gpu_journal s'))%nat
  end.
Proof.
  unfold recover_one, reading, sequence, computing, raising_if, computing, raise_if.
  destruct (read_json MAX_BODY (requests s !! name)) as [v|e] eqn:Er; [|by left].
  destruct v as [| | | | | |r]; try by left.
  destruct (negb _) eqn:Eg; [by left|]. apply negb_false_iff in Eg. destr_bool.
  assert (journal_file name (requests s !! name) r) as Hj by done.
  unfold recovered_as, recovered.
  destruct (status_is "running" r) eqn:Er'; cbn [journal changing];
    (destruct (MAX_TRACKED <? _)%nat eqn:Et; [apply Nat.ltb_lt in Et; right|apply Nat.ltb_ge in Et]);
    exists r; by rewrite Er'.
Qed.

Lemma read_json_inv limit f v : read_json limit f = Ok v -> exists g, f = Some g /\ file_json g = Some v.
Proof.
  unfold read_json. destruct f as [g|]; [|done]. destruct (_ || _); [done|].
  destruct (file_json g) eqn:E; [|done]. intros [= ->]. eauto.
Qed.

Lemma recovered_as_history name r s s' :
  journal_file name (requests s !! name) r -> recovered_as name r s s' -> same_history s s'.
Proof.
  intros (Hr & _) ->. apply read_json_inv in Hr as (g & Hg & Hj). unfold same_history. simpl.
  destruct (status_is "running" r) eqn:E; [|done]. split; [done|]. split; [done|]. split.
  - rewrite dom_insert_L. assert (name ∈ dom (requests s)) by (apply elem_of_dom; eauto). set_solver.
  - eapply disk_occupied_insert; [done|]. unfold reserving_file. simpl. rewrite Hj. apply recovered_reserves.
Qed.

Lemma recovered_as_recovering name r s s' :
  journal_file name (requests s !! name) r -> recovered_as name r s s' ->
  (size (gpu_journal s') <= MAX_TRACKED)%nat -> Recovering s -> Recovering s'.
Proof.
  intros (Hr & Hw) -> Hsz []. apply read_json_inv in Hr as (g & Hg & Hj). split; [done| | | |done]; simpl.
  - intros id q. rewrite lookup_insert. destruct (decide (name = id)) as [<-|Hne].
    + intros [= <-]. destruct (status_is "running" r) eqn:E; [by rewrite lookup_insert_eq|].
      rewrite Hg. simpl. rewrite Hj. unfold recovered. by rewrite E.
    + destruct (status_is "running" r); [rewrite lookup_insert_ne by done|]; auto.
  - intros id q. rewrite lookup_insert. destruct (decide (name = id)); [|eauto].
    intros [= <-]. apply recovered_settled.
  - intros id q. rewrite lookup_insert. destruct (decide (name = id)) as [<-|]; [|eauto].
    intros [= <-]. unfold recovered. destruct (status_is "running" r); [|done].
    apply well_recorded_status; [unfold STATUSES; set_solver|done].
Qed.

(** The loop: every listed file ends up in the journal, recovered. *)
Lemma recover_list names s : NoDup names -> Recovering s ->
  let '(s', r) := recover names s in
  same_history s s' /\
  (r = Ok tt -> Recovering s' /\
     (forall id, id ∈ names -> exists q, journal_file id (requests s !! id) q
        /\ gpu_journal s' !! id = Some (recovered q)) /\
     (forall id, id ∉ names -> gpu_journal s' !! id = gpu_journal s !! id) /\ stopped s' = stopped s).
Proof.
  revert s. induction names as [|n names IH]; intros s Hnd HR.
  { split; [by repeat split|]. intros _. split; [done|]. split; [|done]. intros id Hid. set_solver. }
  apply NoDup_cons in Hnd as [Hn Hnd]. unfold recover in *. simpl. unfold sequence.
  pose proof (recover_one_cases n s) as H. destruct (recover_one n s) as [s1 [u|e]].
  - destruct H as (q & Hq & Has & Hsz).
    pose proof (recovered_as_history _ _ _ _ Hq Has) as Hh.
    pose proof (recovered_as_recovering _ _ _ _ Hq Has Hsz HR) as HR1. specialize (IH s1 Hnd HR1).
    destruct (for_each recover_one names s1) as [s2 r]. destruct IH as [Hh2 IH].
    split; [by eapply same_history_trans|]. intros Hr. destruct (IH Hr) as (HR2 & Hin & Hout & Hst).
    split; [done|]. rewrite Has in Hst. split; [|split; [|done]].
    + intros id [->|Hid]%elem_of_cons.
      * exists q. split; [done|]. rewrite Hout, Has by done. simpl. by rewrite lookup_insert_eq.
      * destruct (Hin id Hid) as (q' & Hq' & Hj). exists q'. split; [|done].
        rewrite Has in Hq'. simpl in Hq'. assert (n <> id) by (intros ->; done).
        destruct (status_is "running" q); [by rewrite lookup_insert_ne in Hq'|done].
    + intros id Hid. rewrite Hout by set_solver. rewrite Has. simpl. apply lookup_insert_ne. set_solver.
  - split; [|done]. destruct H as [->|(q & Hq & Has & _)]; [by repeat split|].
    by eapply recovered_as_history.
Qed.

(** Recovery of a readable directory does not raise. *)
Lemma recover_total names s : NoDup names ->
  (forall id, id ∈ names -> exists q, journal_file id (requests s !! id) q) ->
  (size (gpu_journal s) + length names <= MAX_TRACKED)%nat ->
  (recover names s).2 = Ok tt.
Proof.
  revert s. induction names as [|n names IH]; intros s Hnd Hin Hsz; [done|].
  apply NoDup_cons in Hnd as [Hn Hnd]. unfold recover in *. simpl in *. unfold sequence.
  pose proof (recover_one_cases n s) as H. destruct (recover_one n s) as [s1 [u|e]] eqn:E1.
  - destruct H as (q & Hq & -> & Hs1). apply IH; [done| |].
    + intros id Hid. destruct (Hin id) as (q' & Hq'); [by apply elem_of_cons; right|]. exists q'. simpl.
      destruct (status_is "running" q); [|done]. rewrite lookup_insert_ne; [done|]. by intros ->.
    + simpl. rewrite map_size_insert. destruct (gpu_journal s !! n); simpl; lia.
  - exfalso. destruct H as [->|(q & Hq & -> & Hs1)].
    + destruct (Hin n) as (q & Hq); [by apply elem_of_cons; left|].
      destruct Hq as (Hr & Hid & Hi & Hst). unfold recover_one, reading, sequence, computing, raising_if, computing, raise_if in E1.
      rewrite Hr, Hid, Hi, Hst in E1. cbn [negb andb] in E1.
      assert (forall r, (size (<[n := r]> (gpu_journal s)) <= MAX_TRACKED)%nat) as Hle.
      { intros r. rewrite map_size_insert. destruct (gpu_journal s !! n); simpl; lia. }
      destruct (status_is "running" q); cbn [journal changing] in E1;
        (destruct (MAX_TRACKED <? _)%nat eqn:Et; [|done]); apply Nat.ltb_lt in Et; simpl in Et;
        [pose proof (Hle (dict_set "status" (PStr "uncertain") q))|pose proof (Hle q)]; lia.
    + simpl in Hs1. rewrite map_size_insert in Hs1. destruct (gpu_journal s !! n); simpl in Hs1; lia.
Qed.

(** ** Booting *)

(** What the directory and the trace guarantee between two lives. *)
Record Durable (s : relay) : Prop := {
  du_admitted : NoDup (admitted s);
  du_known : forall id, id ∈ admitted s -> id ∈ dom (requests s);
  du_posts : NoDup (posts s);
  du_posted : forall id, id ∈ posts s -> id ∈ admitted s }.

Lemma serving_durable s : Serving s -> Durable s.
Proof.
  intros HS. split; try apply HS. intros id Hid. rewrite (sv_disk s HS). apply elem_of_dom.
  by apply (sv_admitted_journal s HS).
Qed.

Lemma same_history_durable s s' : same_history s s' -> Durable s -> Durable s'.
Proof.
  intros (Ht & Hp & Hd & _) []. pose proof (admitted_same s s' Ht) as Ha.
  split; by rewrite ?Ha, ?Hp, ?Hd.
Qed.

Section Boot.
Context (readdir : gset string -> list string) (readdir_ok : forall X, readdir X ≡ₚ elements X).

Lemma elem_of_readdir X id : id ∈ readdir X <-> id ∈ X.
Proof. rewrite readdir_ok. apply elem_of_elements. Qed.

Lemma boot_cases l s :
  let '(s', r) := boot readdir l s in
  same_history s s' /\
  (r = Ok tt ->
     contexts s' = [] /\ active_generations s' = ∅ /\ completions s' = ∅ /\ stopped s' = false /\
     (forall id f, requests s !! id = Some f -> exists q, journal_file id (Some f) q
        /\ gpu_journal s' !! id = Some (recovered q)) /\
     (forall id, requests s !! id = None -> gpu_journal s' !! id = None) /\
     (Durable s -> Serving s')).
Proof.
  unfold boot. set (s0 := fresh _ _ _ _ _).
  assert (Recovering s0) as HR0 by (split; simpl; try done; rewrite map_size_empty; unfold MAX_TRACKED; lia).
  assert (NoDup (readdir (dom (requests s)))) as Hnd by (rewrite readdir_ok; apply NoDup_elements).
  pose proof (recover_list _ s0 Hnd HR0) as H. destruct (recover _ s0) as [s' r]. destruct H as [Hh H].
  split; [exact Hh|]. intros Hr. destruct (H Hr) as (HR & Hin & Hout & Hst).
  destruct (rc_idle s' HR) as (Hc & Ha & Hcm). split; [done|]. split; [done|]. split; [done|]. split; [done|].
  assert (forall id f, requests s !! id = Some f -> exists q, journal_file id (Some f) q
        /\ gpu_journal s' !! id = Some (recovered q)) as Hrec.
  { intros id f Hf. destruct (Hin id) as (q & Hq & Hj); [by apply elem_of_readdir, elem_of_dom; eauto|].
    simpl in Hq. rewrite Hf in Hq. eauto. }
  assert (forall id, requests s !! id = None -> gpu_journal s' !! id = None) as Hnone.
  { intros id Hf. rewrite Hout; [done|]. rewrite elem_of_readdir. by apply not_elem_of_dom. }
  split; [done|]. split; [done|]. intros HD.
  apply (same_history_durable s s' Hh) in HD. destruct HD.
  assert (dom (requests s') = dom (gpu_journal s')) as Hdom.
  { destruct Hh as (_ & _ & -> & _). simpl. apply set_eq. intros id. rewrite !elem_of_dom. split.
    - intros [f Hf]. destruct (Hrec id f Hf) as (q & _ & Hj). eauto.
    - intros [q Hq]. destruct (requests s !! id) eqn:E; [eauto|]. rewrite Hnone in Hq by done. done. }
  assert (forall id, id ∈ admitted s' -> is_Some (gpu_journal s' !! id)) as Hadm.
  { intros id Hid. apply elem_of_dom. rewrite <- Hdom. auto. }
  split; rewrite ?Hc, ?Ha, ?Hcm; try done; try apply HR.
  - intros id ref. rewrite lookup_empty. split; [done|]. intros (c & Hc' & _). done.
  - intros id. rewrite lookup_empty. split; [done|]. intros (ref & c & Ha' & _). done.
Qed.
End Boot.
