(* ===== verification/RelayGpuResults.v ===== *)
(** * What the GPU relay guarantees

    The properties of the GPU relay over any sequence of lives and actions,
    each with a concrete run. *)

From stdpp Require Import fin_maps fin_map_dom relations.
From S2P Require Import Prelude StateRes PyValue Contracts Training GenerationFailure RelayJobs RelayGpu RelayGpuProofs.
Local Open Scope Z_scope.

Section Lives.
Context (sha : string -> string) (cfg : configuration).
Context (readdir : gset string -> list string) (readdir_ok : forall X, readdir X ≡ₚ elements X).

Lemma live_cases l s : Durable s ->
  Durable (live sha cfg readdir s l) /\ progress s (live sha cfg readdir s l)
  /\ ((size (disk_occupied (requests s)) <= max_inflight cfg)%nat ->
      (size (disk_occupied (requests (live sha cfg readdir s l))) <= max_inflight cfg)%nat).
Proof.
  intros HD. unfold live. pose proof (boot_cases readdir readdir_ok l s) as H.
  destruct (boot readdir l s) as [s1 r]. destruct H as [Hh H].
  pose proof Hh as (Ht & _ & Hdom & Hocc).
  assert (progress s s1) as Hp by (split; [by rewrite Hdom|rewrite (admitted_same s s1 Ht); auto]).
  destruct r as [[]|e].
  - destruct H as (_ & Ha & Hc & _ & _ & _ & HS); [done|]. specialize (HS HD).
    split; [|split].
    + apply serving_durable. eapply gsteps_serving; [by apply steps_refine|done].
    + eapply progress_trans; [exact Hp|by apply steps_progress].
    + intros Hb. assert (Bounded cfg s1) as HB.
      { unfold Bounded, holding. rewrite Hc, dom_empty_L, union_empty_r_L, serving_occupied, Hocc by done. done. }
      pose proof (steps_bounded sha cfg (l_actions l) s1 HS HB) as HB'.
      rewrite <- serving_occupied; [|eapply gsteps_serving; [by apply steps_refine|done]].
      etransitivity; [|exact HB']. apply subseteq_size. unfold holding. set_solver.
  - split; [by eapply same_history_durable|]. split; [done|]. by rewrite Hocc.
Qed.

Lemma lives_cases ls s : Durable s ->
  Durable (lives sha cfg readdir ls s) /\ progress s (lives sha cfg readdir ls s)
  /\ ((size (disk_occupied (requests s)) <= max_inflight cfg)%nat ->
      (size (disk_occupied (requests (lives sha cfg readdir ls s))) <= max_inflight cfg)%nat).
Proof.
  revert s. induction ls as [|l ls IH]; intros s HD.
  { split; [done|]. split; [apply progress_refl|done]. }
  simpl. destruct (live_cases l s HD) as (HD1 & Hp1 & Hb1). destruct (IH _ HD1) as (HD2 & Hp2 & Hb2).
  split; [done|]. split; [by eapply progress_trans|auto].
Qed.
End Lives.

Lemma no_history_durable s : trace s = [] -> posts s = [] -> Durable s.
Proof.
  intros Ht Hp. assert (admitted s = []) as Ha by (unfold admitted; by rewrite Ht).
  split; rewrite ?Ha, ?Hp; try apply NoDup_nil_2; set_solver.
Qed.

(** C18. Over any number of restarts and any interleaving of submissions,
    cancellations, polls and thread steps, the relay admits a request
    identifier at most once and posts it upstream at most once, posts nothing
    it did not admit, and never admits an identifier that the journal
    directory already held. *)
Theorem relay_never_replays sha cfg readdir s ls :
  (forall X, readdir X ≡ₚ elements X) -> trace s = [] -> posts s = [] ->
  let s' := lives sha cfg readdir ls s in
  NoDup (admitted s') /\ NoDup (posts s') /\ (forall id, id ∈ posts s' -> id ∈ admitted s')
  /\ forall id, id ∈ admitted s' -> requests s !! id = None /\ is_Some (requests s' !! id).
Proof.
  intros Hr Ht Hp s'. pose proof (no_history_durable s Ht Hp) as HD.
  destruct (lives_cases sha cfg readdir Hr ls s HD) as (HD' & [_ Hnew] & _). fold s' in HD', Hnew.
  repeat split; [apply HD'..| |].
  - destruct (Hnew id H) as [Hold|Hold]; [|by apply not_elem_of_dom].
    unfold admitted in Hold. rewrite Ht in Hold. set_solver.
  - apply elem_of_dom. by apply (du_known s' HD').
Qed.

(** The requests that hold capacity, running or uncertain ones and results
    not yet acknowledged, never exceed [max_inflight]: a restart keeps the
    reservations of what was running. *)
Theorem relay_capacity_bounded sha cfg readdir s ls l s1 actions :
  (forall X, readdir X ≡ₚ elements X) -> trace s = [] -> posts s = [] ->
  (size (disk_occupied (requests s)) <= max_inflight cfg)%nat ->
  boot readdir l (lives sha cfg readdir ls s) = (s1, Ok tt) ->
  (size (holding (steps sha cfg actions s1)) <= max_inflight cfg)%nat.
Proof.
  intros Hr Ht Hp Hb E. pose proof (no_history_durable s Ht Hp) as HD.
  destruct (lives_cases sha cfg readdir Hr ls s HD) as (HD' & _ & Hb').
  pose proof (boot_cases readdir Hr l (lives sha cfg readdir ls s)) as H. rewrite E in H.
  destruct H as [(_ & _ & _ & Hocc) H]. destruct H as (_ & _ & Hc & _ & _ & _ & HS); [done|].
  specialize (HS HD'). apply steps_bounded; [done|].
  unfold Bounded, holding. rewrite Hc, dom_empty_L, union_empty_r_L, serving_occupied, Hocc by done. auto.
Qed.

Lemma written_journal_file s id r : Serving s -> gpu_journal s !! id = Some r ->
  (forall id f, requests s !! id = Some f -> file_regular f = true /\ file_size f <= MAX_BODY) ->
  journal_file id (requests s !! id) r.
Proof.
  intros HS Hr Hsz. pose proof (sv_copy s HS id r Hr) as Hc. destruct (requests s !! id) as [f|] eqn:E; [|done].
  simpl in Hc. injection Hc as Hc. destruct (Hsz id f E) as [Hreg Hle]. split; [|by apply (sv_record s HS)].
  unfold read_json. rewrite Hreg, Hc, (proj2 (Z.ltb_ge _ _) Hle). done.
Qed.

(** C25. Restarting a relay whose journal files are readable always succeeds and
    restores every record: what was running becomes uncertain, everything else
    is as it was, and no generation is active or awaiting an answer. *)
Theorem relay_restart_restores readdir l s :
  (forall X, readdir X ≡ₚ elements X) -> Serving s ->
  (forall id f, requests s !! id = Some f -> file_regular f = true /\ file_size f <= MAX_BODY) ->
  exists s1, boot readdir l s = (s1, Ok tt)
    /\ (forall id, gpu_journal s1 !! id = recovered <$> gpu_journal s !! id)
    /\ active_generations s1 = ∅ /\ completions s1 = ∅ /\ Serving s1.
Proof.
  intros Hr HS Hsz. pose proof (boot_cases readdir Hr l s) as H.
  assert ((boot readdir l s).2 = Ok tt) as Hok.
  { apply recover_total.
    - rewrite Hr. apply NoDup_elements.
    - intros id Hid. apply (elem_of_readdir readdir Hr) in Hid. rewrite (sv_disk s HS) in Hid.
      apply elem_of_dom in Hid as [r Hj]. exists r. exact (written_journal_file s id r HS Hj Hsz).
    - simpl. rewrite map_size_empty, Hr. change (size (dom (requests s)) <= MAX_TRACKED)%nat.
      rewrite (sv_disk s HS), size_dom. apply HS. }
  destruct (boot readdir l s) as [s1 r]. simpl in Hok. subst r.
  destruct H as [Hh H]. destruct H as (_ & Ha & Hc & _ & Hsome & Hnone & HS'); [done|].
  exists s1. split; [done|]. split; [|split; [done|split; [done|by apply HS', serving_durable]]].
  intros id. destruct (gpu_journal s !! id) as [r|] eqn:E.
  - pose proof (sv_copy s HS id r E) as Hcp. destruct (requests s !! id) as [f|] eqn:Ef; [|done].
    simpl in Hcp. injection Hcp as Hcp. destruct (Hsome id f Ef) as (q & (Hq & _) & ->).
    apply read_json_inv in Hq as (g & [= <-] & Hg). simpl. congruence.
  - simpl. apply Hnone, not_elem_of_dom. rewrite (sv_disk s HS). by apply not_elem_of_dom.
Qed.

Lemma cancel_effect id s s1 v : cancel_generation id s = (s1, Ok v) ->
  admitted s1 = admitted s /\ is_Some (gpu_journal s1 !! id).
Proof.
  unfold cancel_generation, reading. unfold sequence at 1.
  set (m := match gpu_journal s !! id with Some _ => returning tt | None => _ end).
  assert (forall s', m s = (s', Ok tt) -> admitted s' = admitted s /\ is_Some (gpu_journal s' !! id)) as Hm.
  { unfold m. intros s'. destruct (gpu_journal s !! id) eqn:E.
    - intros [= <-]. rewrite E. eauto.
    - unfold sequence, raising_if, computing, raise_if. destruct (_ <=? _)%nat; [done|].
      intros [= <-]. simpl. rewrite lookup_insert_eq. eauto. }
  destruct (m s) as [s' [[]|e]]; [|done]. destruct (Hm s' eq_refl) as [Ha Hj].
  unfold sequence at 1. destruct (active_generations s !! id); intros [= <- _]; rewrite admitted_trace, app_nil_r;
    by split.
Qed.

(** Once a cancellation has been acknowledged, an identifier that was not
    yet admitted is never admitted: neither a delayed submission nor a
    restarted relay can start the cancelled request. *)
Theorem relay_cancel_blocks sha cfg readdir id s s1 v actions ls :
  (forall X, readdir X ≡ₚ elements X) -> Serving s -> ID id = true ->
  cancel_generation id s = (s1, Ok v) -> id ∉ admitted s ->
  id ∉ admitted (lives sha cfg readdir ls (steps sha cfg actions s1)).
Proof.
  intros Hr HS Hid E Hn. destruct (cancel_effect id s s1 v E) as [Ha [r Hj]].
  assert (Serving s1) as HS1.
  { pose proof (cancel_refines sha cfg id s HS Hid) as H. rewrite E in H. by eapply gsteps_serving. }
  assert (Serving (steps sha cfg actions s1)) as HS2 by (eapply gsteps_serving; [by apply steps_refine|done]).
  destruct (lives_cases sha cfg readdir Hr ls _ (serving_durable _ HS2)) as (_ & Hp & _).
  pose proof (progress_trans _ _ _ (steps_progress sha cfg actions s1 HS1) Hp) as [_ H].
  intros [Hin|Hin]%H; [by rewrite Ha in Hin|]. apply Hin. rewrite (sv_disk s1 HS1). apply elem_of_dom. eauto.
Qed.

(** ** The verdict on an upstream answer *)

(** After a request was posted, the relay calls it failed only when the
    upstream rejected it in time with a complete answer, which a controlled
    upstream must back with a receipt of terminal closure; it calls it finished
    only for a complete answer 200 in time that lists choices, which it then
    returns; in every other case the outcome stays uncertain. *)
Theorem relay_verdict_proven sha cfg id payload expired answer :
  let '(terminal, reply) := judge sha cfg id payload expired answer in
  (terminal = "uncertain" \/ expired = false /\
   exists status size body, answer = Response status size true body /\ size <= MAX_RESPONSE /\
     ((terminal = "failed" /\ status <> 200 /\
       (controlled cfg = false \/
        exists b receipt r, body = Some (PDict b) /\ dict_get "generation_failure" b = Some receipt
          /\ validate_generation_failure sha receipt payload id None = Ok r
          /\ failure_is_terminal r = Ok true))
      \/ (terminal = "finished" /\ status = 200 /\
          exists b choices, body = Some (PDict b) /\ reply = Ok (200, b)
            /\ get_none "choices" b = PList choices /\ encoded_size (PDict b) <= MAX_RESPONSE))).
Proof.
  destruct answer as [|e|status size complete body]; simpl; [by left..|].
  destruct (MAX_RESPONSE <? size) eqn:Es; [by left|]. apply Z.ltb_ge in Es.
  destruct expired; [by left|]. destruct complete; [|by left]. cbn [negb].
  destruct (status =? 200) eqn:E2; cbn [negb].
  - apply Z.eqb_eq in E2. destruct body as [[| | | | | |b]|]; try by left.
    destruct (get_none "choices" b) as [| | | | |choices|] eqn:Ec; try by left.
    destruct (MAX_RESPONSE <? encoded_size (PDict b)) eqn:Eb; [by left|]. apply Z.ltb_ge in Eb.
    right. split; [done|]. eexists status, size, _. split; [done|]. split; [done|]. right. eauto 8.
  - apply Z.eqb_neq in E2. destruct (controlled cfg) eqn:Ecf.
    + destruct body as [[| | | | | |b]|]; try by left.
      destruct (dict_get "generation_failure" b) as [receipt|] eqn:Eg; [|by left].
      destruct (validate_generation_failure sha receipt payload id None) as [r|] eqn:Ev; [|by left].
      destruct (failure_is_terminal r) as [[]|] eqn:Et; [|by left..]. right. split; [done|].
      eexists status, size, _. split; [done|]. split; [done|]. left. split; [done|]. split; [done|]. right. eauto 8.
    + right. split; [done|]. eexists status, size, _. split; [done|]. split; [done|]. left. eauto.
Qed.

(** ** Every generation comes to an end *)

Definition rank (p : phase) : nat :=
  match p with Unstarted => 4 | Preparing => 3 | Connecting => 2 | Waiting => 1 | Echoing _ => 5 | Ended => 0 end.

Lemma at_phase_other ref p k s c : contexts s !! ref = Some c -> p (ctx_phase c) = false ->
  (at_phase ref p k s).1 = s.
Proof. intros Hc Hp. unfold at_phase, reading. by rewrite Hc, Hp. Qed.

Lemma at_phase_here ref p k s c : contexts s !! ref = Some c -> p (ctx_phase c) = true ->
  at_phase ref p k s = k c s.
Proof. intros Hc Hp. unfold at_phase, reading. by rewrite Hc, Hp. Qed.

Lemma conclude_ends s ref c status r : Serving s -> contexts s !! ref = Some c ->
  is_ended (ctx_phase c) = false ->
  exists d, contexts (conclude c ref status r s).1 !! ref = Some d /\ ctx_phase d = Ended /\ ctx_request d = ctx_request c.
Proof.
  intros HS Hc He. pose proof (live_active s ref c HS Hc He) as Ha.
  destruct (sv_running s HS _ _ Ha) as (q & Hq & _).
  pose proof (leave_ok s ref c status r q Ha Hq) as El.
  exists (with_phase Ended c). split; [|done].
  assert (contexts (conclude c ref status r s).1 = alter (with_phase Ended) ref (contexts s)) as ->.
  { unfold conclude. destruct (ctx_runner c); unfold sequence; [unfold worker|..]; rewrite El; destruct r as [[]|]; try done.
    rewrite bool_decide_eq_false_2; [done|]. simpl. by rewrite lookup_delete_eq. }
  by rewrite list_lookup_alter_eq, Hc.
Qed.

(** The rank of [ref] after a step of its runner. *)
Definition ranked (n : nat) (id : string) (ref : nat) (s : relay) : Prop :=
  exists c, contexts s !! ref = Some c /\ ctx_request c = id /\ (rank (ctx_phase c) <= n)%nat.

Lemma ranked_conclude s n id ref c status r : Serving s -> contexts s !! ref = Some c ->
  is_ended (ctx_phase c) = false -> ctx_request c = id -> ranked n id ref (conclude c ref status r s).1.
Proof.
  intros HS Hc He Hid. destruct (conclude_ends s ref c status r HS Hc He) as (d & Hd & Hp & Hq).
  exists d. split; [done|]. split; [congruence|]. rewrite Hp. simpl. lia.
Qed.

Lemma ranked_alter s n id ref c f : contexts s !! ref = Some c -> ctx_request (f c) = id ->
  (rank (ctx_phase (f c)) <= n)%nat -> ranked n id ref (set_contexts (alter f ref) s).
Proof. intros Hc Hq Hn. exists (f c). simpl. by rewrite list_lookup_alter_eq, Hc. Qed.

Section Ends.
Context (sha : string -> string) (cfg : configuration).

Lemma start_ranked s id ref b : Serving s -> ranked 4 id ref s -> ranked 3 id ref (start_worker ref b s).1.
Proof.
  intros HS (c & Hc & Hid & Hk). unfold start_worker. destruct (unstarted (ctx_phase c)) eqn:Ep.
  - rewrite (at_phase_here ref _ _ s c Hc Ep). destruct (ctx_phase c) eqn:E; try done.
    destruct b; [eapply ranked_alter; [done|done|simpl; lia]|].
    assert (is_ended (ctx_phase c) = false) as He by (by rewrite E).
    pose proof (live_active s ref c HS Hc He) as Ha. destruct (sv_running s HS _ _ Ha) as (q & Hq & _).
    unfold sequence at 1, changing at 1. unfold sequence.
    rewrite (finish_ok _ ref "failed" (set_contexts (alter (with_phase Ended) ref) s) q Ha Hq).
    exists (with_phase Ended c). simpl. rewrite list_lookup_alter_eq, Hc. simpl. repeat split; [done|lia].
  - rewrite (at_phase_other ref _ _ s c Hc Ep). exists c. repeat split; [done|done|].
    destruct (ctx_phase c); simpl in *; try done; lia.
Qed.

Lemma begin_ranked s id ref b : Serving s -> ranked 3 id ref s -> ranked 2 id ref (begin_generation ref b s).1.
Proof.
  intros HS (c & Hc & Hid & Hk). unfold begin_generation. destruct (preparing (ctx_phase c)) eqn:Ep.
  - rewrite (at_phase_here ref _ _ s c Hc Ep). destruct (ctx_phase c) eqn:E; try done.
    unfold sequence at 1, tracing, changing at 1.
    destruct b; [eapply (ranked_alter (add_trace _ _ s)); [done|done|simpl; lia]|].
    apply ranked_conclude; [|done|by rewrite E|done].
    eapply (gstep_serving cfg s); [by constructor|done].
  - rewrite (at_phase_other ref _ _ s c Hc Ep). exists c. repeat split; [done|done|].
    destruct (ctx_phase c); simpl in *; try done; lia.
Qed.

Lemma dispatch_ranked s id ref connect now : Serving s -> ranked 2 id ref s ->
  ranked 1 id ref (dispatch ref connect now s).1.
Proof.
  intros HS (c & Hc & Hid & Hk). unfold dispatch. destruct (connecting_phase (ctx_phase c)) eqn:Ep.
  - rewrite (at_phase_here ref _ _ s c Hc Ep). destruct (ctx_phase c) eqn:E; try done.
    assert (is_ended (ctx_phase c) = false) as He by (by rewrite E).
    destruct connect; simpl excepting; try (by apply ranked_conclude).
    destruct (_ || _); [by apply ranked_conclude|].
    unfold sequence, changing. eapply ranked_alter; [done|done|simpl; lia].
  - rewrite (at_phase_other ref _ _ s c Hc Ep). exists c. repeat split; [done|done|].
    destruct (ctx_phase c); simpl in *; try done; lia.
Qed.

Lemma answered_ranked s id ref u now : Serving s -> ranked 1 id ref s ->
  ranked 0 id ref (answered sha cfg ref u now s).1.
Proof.
  intros HS (c & Hc & Hid & Hk). unfold answered. destruct (waiting (ctx_phase c)) eqn:Ep.
  - rewrite (at_phase_here ref _ _ s c Hc Ep). destruct (ctx_phase c) eqn:E; try done.
    destruct (judge _ _ _ _ _ _) as [t r]. apply ranked_conclude; [done|done|by rewrite E|done].
  - rewrite (at_phase_other ref _ _ s c Hc Ep). exists c. repeat split; [done|done|].
    destruct (ctx_phase c); simpl in *; try done; lia.
Qed.
End Ends.

(** A submitted generation that is still pending ends within the four steps
    of its own thread, whatever the thread start, the timer, the connection
    and the upstream do: afterwards it is no longer active or pending, so its
    poll answers or reports it gone. *)
Theorem relay_generation_ends sha cfg s id started timer connect now answer now' :
  Serving s -> completions s !! id = Some None ->
  exists ref, active_generations s !! id = Some ref /\
  let s' := steps sha cfg [Start ref started; Begin ref timer; Dispatch ref connect now; Answer ref answer now'] s in
  Serving s' /\ active_generations s' !! id = None /\ completions s' !! id <> Some None.
Proof.
  intros HS Hp. apply (sv_pending s HS) in Hp as (ref & c & Ha & Hc & Hb). exists ref. split; [done|].
  pose proof Ha as (c' & Hc' & Hid & He)%(sv_active s HS). simplify_eq.
  assert (ranked 4 (ctx_request c) ref s) as H4.
  { exists c. repeat split; [done|]. pose proof (sv_phase s HS _ _ Hc) as Hw. unfold well_phased in Hw.
    destruct (ctx_phase c); simpl; try lia. congruence. }
  simpl. set (s1 := (start_worker ref started s).1). set (s2 := (begin_generation ref timer s1).1).
  set (s3 := (dispatch ref connect now s2).1). set (s4 := (answered sha cfg ref answer now' s3).1).
  assert (Serving s1) as HS1 by (eapply gsteps_serving; [by apply (start_refines cfg)|done]).
  assert (Serving s2) as HS2 by (eapply gsteps_serving; [by apply (begin_refines cfg)|done]).
  assert (Serving s3) as HS3 by (eapply gsteps_serving; [by apply (dispatch_refines cfg)|done]).
  assert (Serving s4) as HS4 by (eapply gsteps_serving; [by apply answered_refines|done]).
  assert (ranked 0 (ctx_request c) ref s4) as (d & Hd & Hdq & Hdk).
  { by apply answered_ranked, dispatch_ranked, (begin_ranked cfg), start_ranked. }
  assert (ctx_phase d = Ended) as Hdp by (destruct (ctx_phase d); simpl in Hdk; lia || done).
  split; [done|].
  assert (active_generations s4 !! ctx_request c = None) as Hn.
  { destruct (active_generations s4 !! ctx_request c) as [i|] eqn:E; [|done]. exfalso.
    apply (sv_active s4 HS4) in E as (e & He' & Heq & Hlive).
    assert (i = ref) as -> by (eapply (sv_unique s4 HS4); [exact He'|exact Hd|congruence]).
    simplify_eq. by rewrite Hdp in Hlive. }
  split; [done|]. intros Hq. apply (sv_pending s4 HS4) in Hq as (i & e & Hi & _). congruence.
Qed.

(** ** Concrete runs *)

Definition example_config : configuration :=
  {| model := "m"; max_inflight := 1; generation_seconds := 120; serving_profile := "vllm-v1" |}.

Definition example_generation : pyval :=
  PDict [("model", PStr "m"); ("messages", PList [PDict [("role", PStr "user"); ("content", PStr "hi")]]);
         ("max_tokens", PInt 5)].

Definition example_submission (id : string) : pydict :=
  [("id", PStr id); ("payload", example_generation); ("timeout_ms", PInt 1000)].

Definition other_request_id : string := "fedcba9876543210fedcba9876543210".

Definition no_sha (s : string) : string := "".

Definition empty_relay : relay := fresh "boot" (10000 * float_unit) ∅ [] [].

(** Submit, post, and stop before the answer; then restart and submit again. *)
Definition interrupted : life :=
  {| l_boot := "first"; l_deadline := 10000 * float_unit;
     l_actions := [Submit (example_submission example_request_id) (fun _ => 0); Start 0 true; Begin 0 true;
                   Dispatch 0 Connected 1] |}.
Definition resumed : life :=
  {| l_boot := "second"; l_deadline := 10000 * float_unit;
     l_actions := [Submit (example_submission example_request_id) (fun _ => 0);
                   Submit (example_submission other_request_id) (fun _ => 0)] |}.

Definition readdir_elements : gset string -> list string := fun X => elements X.

Lemma readdir_elements_ok X : readdir_elements X ≡ₚ elements X.
Proof. done. Qed.

Lemma fresh_serving b d : Serving (fresh b d ∅ [] []).
Proof.
  split; simpl; try done.
  - apply NoDup_nil_2.
  - intros id Hid. unfold admitted in Hid. simpl in Hid. set_solver.
  - apply NoDup_nil_2.
  - intros id ref. rewrite lookup_empty. split; [done|]. by intros (c & Hc & _).
  - rewrite map_size_empty. lia.
  - intros id. rewrite lookup_empty. split; [done|]. by intros (ref & c & Ha & _).
Qed.

Lemma serving_steps l b d : Serving (steps no_sha example_config l (fresh b d ∅ [] [])).
Proof. eapply gsteps_serving; [by apply steps_refine, fresh_serving|apply fresh_serving]. Qed.

(** The restarted relay refuses the interrupted request and, its capacity still
    reserved, the other one too. *)
Lemma relay_never_replays_witness :
  let s' := lives no_sha example_config readdir_elements [interrupted; resumed] empty_relay in
  admitted s' = [example_request_id] /\ posts s' = [example_request_id] /\ NoDup (posts s').
Proof.
  split; [vm_compute; reflexivity|]. split; [vm_compute; reflexivity|].
  exact (proj1 (proj2 (relay_never_replays no_sha example_config readdir_elements empty_relay
    [interrupted; resumed] readdir_elements_ok eq_refl eq_refl))).
Defined.

Lemma relay_capacity_bounded_witness :
  exists s1, boot readdir_elements resumed
               (lives no_sha example_config readdir_elements [interrupted] empty_relay) = (s1, Ok tt)
    /\ (size (holding (steps no_sha example_config (l_actions resumed) s1)) <= 1)%nat.
Proof.
  destruct (boot readdir_elements resumed
              (lives no_sha example_config readdir_elements [interrupted] empty_relay)) as [s1 r] eqn:E.
  assert (r = Ok tt) as -> by (transitivity (boot readdir_elements resumed
    (lives no_sha example_config readdir_elements [interrupted] empty_relay)).2; [by rewrite E|vm_compute; reflexivity]).
  exists s1. split; [reflexivity|].
  apply (relay_capacity_bounded no_sha example_config readdir_elements empty_relay [interrupted] resumed s1
           (l_actions resumed) readdir_elements_ok); try reflexivity; [|exact E].
  apply Nat.leb_le. vm_compute. reflexivity.
Defined.

Definition interrupted_state : relay := steps no_sha example_config (l_actions interrupted) empty_relay.

Lemma relay_restart_restores_witness :
  exists s1, boot readdir_elements resumed interrupted_state = (s1, Ok tt) /\
    status_is "running" (default [] (gpu_journal interrupted_state !! example_request_id)) = true /\
    status_is "uncertain" (default [] (gpu_journal s1 !! example_request_id)) = true.
Proof.
  destruct (relay_restart_restores readdir_elements resumed interrupted_state readdir_elements_ok) as
    (s1 & E & Hj & _).
  - apply serving_steps.
  - assert (forallb (fun kf => file_regular kf.2 && (file_size kf.2 <=? MAX_BODY))
              (map_to_list (requests interrupted_state)) = true) as H by (vm_compute; reflexivity).
    rewrite forallb_forall in H. intros id f Hf.
    specialize (H (id, f) (proj1 (list_elem_of_In _ _) (proj2 (elem_of_map_to_list _ _ _) Hf))).
    apply andb_prop in H as [Hreg Hsize]. split; [exact Hreg|apply Z.leb_le; exact Hsize].
  - exists s1. split; [exact E|]. rewrite Hj. split; vm_compute; reflexivity.
Defined.

(** A cancellation that overtakes its submission. *)
Lemma relay_cancel_blocks_witness :
  exists s1 v, cancel_generation example_request_id empty_relay = (s1, Ok v) /\
    example_request_id ∉ admitted (lives no_sha example_config readdir_elements [resumed]
      (steps no_sha example_config [Submit (example_submission example_request_id) (fun _ => 0)] s1)).
Proof.
  destruct (cancel_generation example_request_id empty_relay) as [s1 [v|e]] eqn:E; [|discriminate E].
  exists s1, v. split; [reflexivity|].
  eapply (relay_cancel_blocks no_sha example_config readdir_elements example_request_id empty_relay s1 v);
    [exact readdir_elements_ok|apply fresh_serving|reflexivity|exact E|].
  vm_compute. intros H. inversion H.
Defined.

Definition submitted_state : relay :=
  steps no_sha example_config [Submit (example_submission example_request_id) (fun _ => 0)] empty_relay.

Lemma relay_generation_ends_witness :
  completions submitted_state !! example_request_id = Some None /\
  let s' := steps no_sha example_config
              [Start 0 true; Begin 0 true; Dispatch 0 Connected 1; Answer 0 Transport_error 2] submitted_state in
  active_generations s' !! example_request_id = None.
Proof.
  assert (completions submitted_state !! example_request_id = Some None) as Hp by (vm_compute; reflexivity).
  split; [exact Hp|].
  destruct (relay_generation_ends no_sha example_config submitted_state example_request_id true true Connected 1
              Transport_error 2 (serving_steps _ _ _) Hp) as (ref & Hr & _ & Ha & _).
  assert (ref = 0%nat) as -> by (assert (active_generations submitted_state !! example_request_id = Some 0%nat)
    as H0 by (vm_compute; reflexivity); congruence).
  exact Ha.
Defined.
