(* ===== verification/RelayCpu.v ===== *)
(** * The CPU side of the browser relay ([browser_relay/relay_server.py])

    Jobs arrive as files of [inbox]; claiming one moves it to [inflight]; its
    result is a file of [outbox].  A claim may be bound to a claim operation,
    whose receipt lets the browser ask again without claiming twice.
    [time.monotonic()] counts units of 2^-1074 milliseconds and [time.time()]
    units of 2^-1074 seconds; a function that reads the wall clock for several
    files takes, per file, its readings in order. *)

From S2P Require Import Prelude StateRes PyValue Training GenerationFailure RelayJobs.
Local Open Scope Z_scope.
Local Open Scope handler_scope.

(** ** State *)

Inductive receipt_status := Pending | Complete | Failed.

#[export] Instance receipt_status_eq_dec : EqDecision receipt_status.
Proof. solve_decision. Defined.

Record claim_entry := {
  parameters : pyval * pyval;
  entry_status : receipt_status;
  entry_job : option string;
  expires : Z;
  dispatch_deadline : Z }.

Record cpu_config := { cpu_model : string; cpu_inflight : nat; cpu_generation_seconds : Z }.

Record spool := {
  inbox : gmap string file;
  inflight : gmap string file;
  outbox : gmap string file;
  claim_receipts : gmap string claim_entry;
  cpu_boot_id : string;
  cpu_deadline : Z;
  cpu_stopped : bool;
  cpu_trace : list (string * string) }.

Definition set_inbox (f : gmap string file -> gmap string file) (s : spool) : spool :=
  {| inbox := f (inbox s); inflight := inflight s; outbox := outbox s; claim_receipts := claim_receipts s;
     cpu_boot_id := cpu_boot_id s; cpu_deadline := cpu_deadline s; cpu_stopped := cpu_stopped s;
     cpu_trace := cpu_trace s |}.
Definition set_inflight (f : gmap string file -> gmap string file) (s : spool) : spool :=
  {| inbox := inbox s; inflight := f (inflight s); outbox := outbox s; claim_receipts := claim_receipts s;
     cpu_boot_id := cpu_boot_id s; cpu_deadline := cpu_deadline s; cpu_stopped := cpu_stopped s;
     cpu_trace := cpu_trace s |}.
Definition set_outbox (f : gmap string file -> gmap string file) (s : spool) : spool :=
  {| inbox := inbox s; inflight := inflight s; outbox := f (outbox s); claim_receipts := claim_receipts s;
     cpu_boot_id := cpu_boot_id s; cpu_deadline := cpu_deadline s; cpu_stopped := cpu_stopped s;
     cpu_trace := cpu_trace s |}.
Definition set_receipts (f : gmap string claim_entry -> gmap string claim_entry) (s : spool) : spool :=
  {| inbox := inbox s; inflight := inflight s; outbox := outbox s; claim_receipts := f (claim_receipts s);
     cpu_boot_id := cpu_boot_id s; cpu_deadline := cpu_deadline s; cpu_stopped := cpu_stopped s;
     cpu_trace := cpu_trace s |}.
Definition log (name id : string) (s : spool) : spool :=
  {| inbox := inbox s; inflight := inflight s; outbox := outbox s; claim_receipts := claim_receipts s;
     cpu_boot_id := cpu_boot_id s; cpu_deadline := cpu_deadline s; cpu_stopped := cpu_stopped s;
     cpu_trace := cpu_trace s ++ [(name, id)] |}.
Definition stop_spool (s : spool) : spool :=
  {| inbox := inbox s; inflight := inflight s; outbox := outbox s; claim_receipts := claim_receipts s;
     cpu_boot_id := cpu_boot_id s; cpu_deadline := cpu_deadline s; cpu_stopped := true;
     cpu_trace := cpu_trace s |}.

(** [os.rename] from [inbox] to [inflight]. *)
Definition move_in (id : string) (f : file) (s : spool) : spool :=
  set_inflight <[id := f]> (set_inbox (delete id) s).

Definition exists_in (m : gmap string file) (id : string) : bool :=
  match m !! id with Some _ => true | None => false end.

Section Cpu.
Context (sha256_hex : string -> string) (cfg : cpu_config) (readdir : gset string -> list string).
Local Abbreviation wall_clock := (string -> nat -> Z).

(** ** Results *)

Definition failure_result (request_id message : string) : pyval :=
  PDict [("id", PStr request_id); ("ok", PBool false); ("error", PStr message)].

Definition fail_claim (request_id message : string) : stateful spool unit :=
  reading (fun s =>
    if exists_in (outbox s) request_id then returning tt
    else
      do changing (set_outbox <[request_id := written (failure_result request_id message)]>);
      changing (log "job_result" request_id)).

(** A job read from the spool whose file is named after it. *)
Definition spool_job (f : option file) (name mismatch : string) (now : nat -> Z) : res job :=
  match read_json MAX_BODY f with
  | Err e => Err e
  | Ok v =>
      match check_job v (cpu_model cfg) true now with
      | Err e => Err e
      | Ok j => if bool_decide (job_id j = name) then Ok j else Err (ValueError mismatch)
      end
  end.

Fixpoint unfinished_in (names : list string) (wall : wall_clock) : stateful spool (list string) :=
  match names with
  | [] => returning []
  | name :: names =>
      reading (fun s =>
        if exists_in (outbox s) name then unfinished_in names wall
        else
          j <~ computing (spool_job (inflight s !! name) name "Invalid claimed job identity" (wall name));
          if deadline_unix j <=? wall name 2%nat
          then do fail_claim (job_id j) "CPU deadline expired; no replay"; unfinished_in names wall
          else active <~ unfinished_in names wall; returning (job_id j :: active))
  end.

Definition unfinished_claims (wall : wall_clock) : stateful spool (list string) :=
  reading (fun s => unfinished_in (readdir (dom (inflight s))) wall).

(** ** Claiming *)

(** Order of the paths of [inbox], which are compared with their suffix. *)
Definition path_le (a b : string) : bool := String.leb (a +:+ ".json") (b +:+ ".json").

Fixpoint claim_first (paths : list string) (wall : wall_clock) : stateful spool (option job) :=
  match paths with
  | [] => returning None
  | path :: paths =>
      reading (fun s =>
        match inbox s !! path with
        | None => claim_first paths wall
        | Some f =>
            j <~ computing (spool_job (Some f) path "Spool filename does not match ID" (wall path));
            if exists_in (inflight s) path || exists_in (outbox s) path
            then raising (ValueError "Duplicate job ID")
            else
              do changing (move_in path f);
              if deadline_unix j <=? wall path 2%nat
              then do fail_claim (job_id j) "CPU deadline expired before dispatch; no replay";
                   claim_first paths wall
              else do changing (log "job_claim" (job_id j)); returning (Some j)
        end)
  end.

(** [requested] is the identifier asked for, if any; the files of [inflight] and
    of [inbox] are read at different times. *)
Definition claim (requested : pyval) (wall wall' : wall_clock) : stateful spool (option job) :=
  match requested, id_value requested with
  | PNone, _ | _, Some _ =>
      active <~ unfinished_claims wall;
      if (cpu_inflight cfg <=? length active)%nat then returning None
      else reading (fun s =>
        let paths := match id_value requested with
                     | Some id => [id]
                     | None => sorted_by path_le (readdir (dom (inbox s)))
                     end in
        claim_first paths wall')
  | _, None => raising (ValueError "Invalid requested ID")
  end.

(** ** Claim operations *)

Definition CLAIM_RECEIPT_TTL : Z := 30 * 1000 * float_unit.

Definition put_receipt (claim_id : string) (e : claim_entry) : stateful spool unit :=
  changing (set_receipts <[claim_id := e]>).

(** What a lookup of a claim operation returns: whether it is still pending, the
    job and the time that remains to dispatch it. *)
Definition claim_receipt (claim_id : string) (boot_id : pyval) (mono : nat -> Z) (wall : nat -> Z)
    : stateful spool (bool * option job * Z) :=
  reading (fun s =>
    do raising_if (negb (ID claim_id)) (ValueError "Invalid claim operation ID");
    do raising_if (negb (is_str boot_id (cpu_boot_id s)))
         (ConflictError "CPU relay boot changed; no claim recovery");
    match claim_receipts s !! claim_id with
    | None => raising (KeyError claim_id)
    | Some e =>
        do raising_if (cpu_stopped s || (expires e <=? mono 0%nat))
             (GoneError "Claim receipt expired; no replay");
        do raising_if (bool_decide (entry_status e = Failed))
             (GoneError "Claim outcome unavailable; reconcile without replay");
        if bool_decide (entry_status e = Pending) then returning (true, None, 0)
        else
          match entry_job e with
          | None => returning (false, None, 0)
          | Some request_id =>
              do raising_if (exists_in (outbox s) request_id)
                   (GoneError "Claim already completed or cancelled; no replay");
              let remaining := Z.min (dispatch_deadline e) (cpu_deadline s) - mono 1%nat in
              do raising_if (remaining <=? 0) (GoneError "Claim dispatch deadline expired; no replay");
              v <~ computing (read_json MAX_BODY (inflight s !! request_id));
              j <~ computing (check_job v (cpu_model cfg) false wall);
              do raising_if (negb (bool_decide (job_id j = request_id)))
                   (ValueError "Claim receipt job identity changed");
              returning (false, Some j, Z.min remaining ((deadline_unix j - wall 2%nat) * 1000))
          end
    end).

(** [begin_claim_receipt]: [true] when the caller owns a new entry. *)
Definition begin_claim_receipt (value : pydict) (mono : nat -> Z) (wall : nat -> Z) : stateful spool bool :=
  let boot_id := get_none "boot_id" value in
  let parameters' := (get_none "id" value, default (PInt 0) (dict_get "wait_ms" value)) in
  match id_value (get_none "claim_id" value) with
  | None => raising (ValueError "Invalid claim operation ID")
  | Some claim_id =>
      reading (fun s =>
        do raising_if (negb (is_str boot_id (cpu_boot_id s)))
             (ConflictError "CPU relay boot changed; no claim recovery");
        match claim_receipts s !! claim_id with
        | Some e =>
            do raising_if (negb (py_eqb (parameters e).1 parameters'.1 && py_eqb (parameters e).2 parameters'.2))
                 (ConflictError "Claim operation parameters changed");
            do claim_receipt claim_id boot_id mono wall;
            returning false
        | None =>
            do raising_if (MAX_TRACKED <=? size (claim_receipts s))%nat
                 (CapacityError "Claim receipt limit reached; drain before restarting");
            do put_receipt claim_id
                 {| parameters := parameters'; entry_status := Pending; entry_job := None;
                    expires := Z.min (mono 0%nat + CLAIM_RECEIPT_TTL) (cpu_deadline s);
                    dispatch_deadline := 0 |};
            returning true
        end)
  end.

Definition finish_claim_receipt (claim_id : string) (j : option job) (mono wall : nat -> Z)
    : stateful spool unit :=
  reading (fun s =>
    match claim_receipts s !! claim_id with
    | None => raising (KeyError claim_id)
    | Some e =>
        let maximum := match j with
                       | Some j => if bool_decide (operation j = "generate") then cpu_generation_seconds cfg else 120
                       | None => 120
                       end in
        do put_receipt claim_id
             {| parameters := parameters e; entry_status := Complete; entry_job := job_id <$> j;
                expires := expires e;
                dispatch_deadline :=
                  Z.min (Z.min (mono 0%nat + maximum * 1000 * float_unit) (cpu_deadline s))
                    (match j with
                     | Some j => mono 1%nat + (deadline_unix j - wall 0%nat) * 1000
                     | None => cpu_deadline s
                     end) |};
        changing (log "claim_receipt_recorded" (default "" (job_id <$> j)))
    end).

(** One locked attempt of the loop of [claim_response] for the operation
    [claim_id]: it completes when a job was found or the wait is over.  An
    exception abandons the operation. *)
Definition claim_attempt (claim_id : string) (over : bool) (w w' : wall_clock) (mono wall : nat -> Z)
    : stateful spool bool := fun s =>
  match claim_receipts s !! claim_id with
  | Some e =>
      if bool_decide (entry_status e = Pending) then
        match (j <~ claim (parameters e).1 w w';
               if bool_decide (j = None) && negb over then returning false
               else do finish_claim_receipt claim_id j mono wall; returning true) s with
        | (s', Ok b) => (s', Ok b)
        | (s', Err x) => (set_receipts (alter (fun e => {| parameters := parameters e; entry_status := Failed;
                            entry_job := entry_job e; expires := expires e;
                            dispatch_deadline := dispatch_deadline e |}) claim_id) s', Err x)
        end
      else raising (RuntimeError "no pending claim operation") s
  | None => raising (RuntimeError "no pending claim operation") s
  end.

(** The end of a handler whose client left or whose service ended. *)
Definition abandon_claim (claim_id : string) : stateful spool unit :=
  changing (set_receipts (alter (fun e =>
    if bool_decide (entry_status e = Pending)
    then {| parameters := parameters e; entry_status := Failed; entry_job := entry_job e;
            expires := expires e; dispatch_deadline := dispatch_deadline e |}
    else e) claim_id)).

(** ** Results and cancellations *)

Definition text_within (limit : nat) (v : pyval) : bool :=
  match v with PStr s => (String.length s <=? limit)%nat | _ => false end.

(** The shape of a result: its identifier, and whether it carries a failure receipt. *)
Definition check_result (value : pydict) : res (string * bool) :=
  match id_value (get_none "id" value), get_none "ok" value with
  | None, _ => Err (ValueError "Invalid result ID")
  | Some id, PBool ok =>
      let failure := match dict_get "generation_failure" value with Some _ => true | None => false end in
      let required := if ok then ["id"; "ok"; "response"]
                      else ["id"; "ok"; "error"] ++ if failure then ["generation_failure"] else [] in
      if negb (same_keys value required) then Err (ValueError "Invalid result fields")
      else if ok && negb (match get_none "response" value with PDict _ => true | _ => false end)
      then Err (ValueError "Response must be an object")
      else if negb ok && negb (text_within 1000 (get_none "error" value))
      then Err (ValueError "Invalid error")
      else Ok (id, failure)
  | Some _, _ => Err (ValueError "Invalid result status")
  end.

(** The claimed generation that a failure receipt refers to. *)
Definition check_failure (value : pydict) (id : string) (pending : option file) (now : nat -> Z) : res unit :=
  match read_json MAX_BODY pending with
  | Err e => Err e
  | Ok v =>
      match check_job v (cpu_model cfg) true now with
      | Err e => Err e
      | Ok j =>
          if negb (bool_decide (job_id j = id)) || negb (bool_decide (operation j = "generate"))
          then Err (ValueError "Failure receipt has no matching generation claim")
          else match validate_generation_failure sha256_hex (get_none "generation_failure" value)
                       (job_payload j) id None with
               | Err e => Err e
               | Ok _ => Ok tt
               end
      end
  end.

(** The duplicate flag of the reply. *)
Definition result (value : pydict) (wall : wall_clock) (now : nat -> Z) : stateful spool bool :=
  checked <~ computing (check_result value);
  let '(id, failure) := checked in
  do unfinished_claims wall;
  reading (fun s =>
    do computing (if failure then check_failure value id (inflight s !! id) now else Ok tt);
    match outbox s !! id with
    | Some f =>
        v <~ computing (read_json (MAX_RESPONSE + MAX_BODY) (Some f));
        if negb (py_eqb v (PDict value)) then raising (ValueError "Conflicting result already committed")
        else returning true
    | None =>
        if negb (exists_in (inflight s) id) then raising (ValueError "No matching claimed job")
        else
          do changing (set_outbox <[id := written (PDict value)]>);
          do changing (log "job_result" id);
          returning false
    end).

Definition cancel_claim (request_id : string) (now : nat -> Z) : stateful spool unit :=
  do reading (fun s =>
       match inflight s !! request_id, inbox s !! request_id with
       | None, Some f =>
           do computing (spool_job (Some f) request_id "Invalid queued identity" now);
           changing (move_in request_id f)
       | _, _ => returning tt
       end);
  reading (fun s =>
    if negb (exists_in (inflight s) request_id) then raising (ValueError "Unknown claim")
    else fail_claim request_id "Request cancelled; no replay").

(** ** Restart *)

Definition recover_claim (wall : wall_clock) (name : string) : stateful spool unit :=
  reading (fun s =>
    if exists_in (outbox s) name then returning tt
    else
      j <~ computing (spool_job (inflight s !! name) name "Invalid recovered claim identity" (wall name));
      fail_claim (job_id j) "CPU relay restarted; outcome uncertain, no replay").

Definition recover (wall : wall_clock) : stateful spool unit :=
  reading (fun s => for_each (recover_claim wall) (readdir (dom (inflight s)))).

Definition restarted (boot_id : string) (deadline : Z) (s : spool) : spool :=
  {| inbox := inbox s; inflight := inflight s; outbox := outbox s; claim_receipts := ∅;
     cpu_boot_id := boot_id; cpu_deadline := deadline; cpu_stopped := false; cpu_trace := cpu_trace s |}.

(** ** Steps *)

(** [Enqueue] is another process writing a job file, [Restart] the end of this
    process and the start of the next one on the same spool. *)
Inductive action :=
| Enqueue (name : string) (f : file)
| Claim (requested : pyval) (w w' : wall_clock)
| BeginClaim (value : pydict) (mono wall : nat -> Z)
| ClaimAttempt (claim_id : string) (over : bool) (w w' : wall_clock) (mono wall : nat -> Z)
| Abandon (claim_id : string)
| Lookup (claim_id : string) (boot_id : pyval) (mono wall : nat -> Z)
| Commit (value : pydict) (w : wall_clock) (now : nat -> Z)
| CancelClaim (request_id : string) (now : nat -> Z)
| StopService
| Restart (boot_id : string) (deadline : Z) (w : wall_clock).

(** What an action returns: the job handed out, the reply of a lookup, the
    duplicate flag of a result. *)
Inductive reply :=
| Handed (j : option job)
| Owner (new : bool)
| Completed (done : bool)
| Found (pending : bool) (j : option job) (remaining : Z)
| Committed (duplicate : bool)
| Done.

Definition handle (a : action) : stateful spool reply :=
  match a with
  | Enqueue name f => do changing (set_inbox <[name := f]>); returning Done
  | Claim requested w w' => j <~ claim requested w w'; returning (Handed j)
  | BeginClaim v mono wall => b <~ begin_claim_receipt v mono wall; returning (Owner b)
  | ClaimAttempt c over w w' mono wall => b <~ claim_attempt c over w w' mono wall; returning (Completed b)
  | Abandon c => do abandon_claim c; returning Done
  | Lookup c b mono wall => r <~ claim_receipt c b mono wall; returning (Found r.1.1 r.1.2 r.2)
  | Commit v w now => b <~ result v w now; returning (Committed b)
  | CancelClaim id now => do cancel_claim id now; returning Done
  | StopService => do changing stop_spool; returning Done
  | Restart b d w => do changing (restarted b d); do recover w; returning Done
  end.

Definition steps (l : list action) (s : spool) : spool := fold_left (fun s a => (handle a s).1) l s.
End Cpu.
