(* ===== verification/RelayCpuProofs.v ===== *)
(** * The CPU relay: abstract steps, invariant and refinement

    As on the GPU side, the handlers of [RelayCpu] are sequences of atomic
    changes of the spool ([cstep]). *)

From stdpp Require Import fin_maps fin_map_dom relations.
From S2P Require Import Prelude PyValue Training StateRes GenerationFailure RelayJobs RelayCpu.
Local Open Scope Z_scope.

(** The jobs handed out so far, and the claims that have no result yet. *)
Definition claimed (s : spool) : list string :=
  map snd (filter (fun e => e.1 = "job_claim") (cpu_trace s)).
Definition open_claims (s : spool) : gset string := dom (inflight s) ∖ dom (outbox s).

Definition resolve (id : string) (f : file) (s : spool) : spool :=
  log "job_result" id (set_outbox <[id := f]> s).

(** [fail_claim] on a spool that may already hold the result. *)
Definition resolved (id : string) (f : file) (s : spool) : spool :=
  if exists_in (outbox s) id then s else resolve id f s.

Definition handed (id : string) (f : file) (s : spool) : spool := log "job_claim" id (move_in id f s).

(** A claim operation that has not completed, or does not exist yet. *)
Definition unsettled (o : option claim_entry) : Prop :=
  match o with Some e => entry_status e = Pending /\ entry_job e = None | None => True end.

Inductive cstep (cfg : cpu_config) (s : spool) : spool -> Prop :=
| C_enqueue name f : cstep cfg s (set_inbox <[name := f]> s)
| C_retire id f v : inbox s !! id = Some f -> inflight s !! id = None ->
    cstep cfg s (resolved id v (move_in id f s))
| C_resolve id v : is_Some (inflight s !! id) -> outbox s !! id = None -> cstep cfg s (resolve id v s)
| C_claim id f : inbox s !! id = Some f -> inflight s !! id = None -> outbox s !! id = None ->
    (size (open_claims s) < cpu_inflight cfg)%nat -> cstep cfg s (handed id f s)
| C_claim_receipt id f c e : inbox s !! id = Some f -> inflight s !! id = None -> outbox s !! id = None ->
    (size (open_claims s) < cpu_inflight cfg)%nat ->
    is_Some (claim_receipts s !! c) -> unsettled (claim_receipts s !! c) ->
    entry_status e = Complete -> entry_job e = Some id ->
    cstep cfg s (log "claim_receipt_recorded" id (set_receipts <[c := e]> (handed id f s)))
| C_receipt c e : unsettled (claim_receipts s !! c) -> entry_job e = None ->
    cstep cfg s (set_receipts <[c := e]> s)
| C_log name id : name <> "job_claim" -> cstep cfg s (log name id s)
| C_stop : cstep cfg s (stop_spool s).

Record Spooled (s : spool) : Prop := {
  sp_claimed : NoDup (claimed s);
  sp_inflight : forall id, id ∈ claimed s -> is_Some (inflight s !! id);
  sp_receipt : forall c e id, claim_receipts s !! c = Some e -> entry_job e = Some id ->
    entry_status e = Complete /\ id ∈ claimed s;
  sp_unique : forall c c' e e' id, claim_receipts s !! c = Some e -> claim_receipts s !! c' = Some e' ->
    entry_job e = Some id -> entry_job e' = Some id -> c = c';
  sp_pending : forall c e, claim_receipts s !! c = Some e -> entry_status e = Pending -> entry_job e = None }.

Lemma claimed_log name id s :
  claimed (log name id s) = claimed s ++ (if bool_decide (name = "job_claim") then [id] else []).
Proof.
  unfold claimed. simpl. rewrite filter_app, map_app. f_equal.
  rewrite filter_cons. simpl. case_bool_decide; by case_decide.
Qed.

Lemma exists_in_true m id : exists_in m id = true <-> is_Some (m !! id).
Proof. unfold exists_in. destruct (m !! id); split; naive_solver. Qed.
Lemma exists_in_false m id : exists_in m id = false <-> m !! id = None.
Proof. unfold exists_in. by destruct (m !! id). Qed.

(** Two states with the same jobs, as far as the invariant sees them. *)
Lemma spooled_same s s' : claimed s' = claimed s -> claim_receipts s' = claim_receipts s ->
  (forall id, is_Some (inflight s !! id) -> is_Some (inflight s' !! id)) -> Spooled s -> Spooled s'.
Proof.
  intros Hc Hr Hi []. split; rewrite ?Hc, ?Hr; auto.
Qed.

Lemma claimed_resolved id v s : claimed (resolved id v s) = claimed s.
Proof.
  unfold resolved, resolve. destruct (exists_in _ _); [done|]. rewrite claimed_log, app_nil_r. done.
Qed.
Lemma inflight_resolved id v s : inflight (resolved id v s) = inflight s.
Proof. unfold resolved. by destruct (exists_in _ _). Qed.
Lemma inbox_resolved id v s : inbox (resolved id v s) = inbox s.
Proof. unfold resolved. by destruct (exists_in _ _). Qed.
Lemma receipts_resolved id v s : claim_receipts (resolved id v s) = claim_receipts s.
Proof. unfold resolved. by destruct (exists_in _ _). Qed.
Lemma outbox_resolved id v s : is_Some (outbox (resolved id v s) !! id).
Proof.
  unfold resolved. destruct (exists_in _ _) eqn:E; [by apply exists_in_true|].
  simpl. rewrite lookup_insert_eq. eauto.
Qed.
Lemma outbox_resolved_kept id v s x f : outbox s !! x = Some f -> outbox (resolved id v s) !! x = Some f.
Proof.
  intros Hx. unfold resolved. destruct (exists_in _ _) eqn:E; [done|]. apply exists_in_false in E.
  simpl. rewrite lookup_insert_ne; [done|]. congruence.
Qed.
Lemma outbox_resolved_other id v s x : x <> id -> outbox (resolved id v s) !! x = outbox s !! x.
Proof. intros Hx. unfold resolved. destruct (exists_in _ _); [done|]. simpl. by apply lookup_insert_ne. Qed.

Lemma moved_kept id f s x : inflight s !! id = None ->
  is_Some (inflight s !! x) -> is_Some (inflight (move_in id f s) !! x).
Proof. simpl. intros Hn Hx. rewrite lookup_insert. destruct (decide (id = x)); eauto. Qed.

Lemma spooled_handed id f s : Spooled s -> inflight s !! id = None -> Spooled (handed id f s).
Proof.
  intros HS Hn. pose proof HS as []. unfold handed.
  assert (claimed (log "job_claim" id (move_in id f s)) = claimed s ++ [id]) as Hc by (by rewrite claimed_log).
  split; rewrite ?Hc.
  - apply NoDup_app. split; [done|]. split; [|apply NoDup_singleton].
    intros x Hx ->%list_elem_of_singleton. apply sp_inflight0 in Hx as [g Hg]. congruence.
  - intros x [Hx| ->%list_elem_of_singleton]%elem_of_app; simpl.
    + apply (moved_kept id f s x Hn). auto.
    + rewrite lookup_insert_eq. eauto.
  - simpl. intros c e x He Hj. destruct (sp_receipt0 c e x He Hj). split; [done|]. set_solver.
  - done.
  - done.
Qed.

Lemma spooled_receipt c e s : Spooled s -> unsettled (claim_receipts s !! c) ->
  (entry_status e = Pending -> entry_job e = None) ->
  (forall id, entry_job e = Some id -> entry_status e = Complete /\ id ∈ claimed s
     /\ forall c' e', claim_receipts s !! c' = Some e' -> entry_job e' <> Some id) ->
  Spooled (set_receipts <[c := e]> s).
Proof.
  intros [] Hu Hp Hj. split; try done; simpl.
  - intros c' e' id. rewrite lookup_insert. destruct (decide (c = c')); [|eauto].
    intros [= <-] Hid. destruct (Hj id Hid) as (? & ? & _). done.
  - intros c1 c2 e1 e2 id. rewrite !lookup_insert.
    destruct (decide (c = c1)) as [<-|], (decide (c = c2)) as [<-|]; [done| | |eauto].
    + intros [= <-] H2 H1' H2'. destruct (Hj id H1') as (_ & _ & Hne). by destruct (Hne c2 e2).
    + intros H1 [= <-] H1' H2'. destruct (Hj id H2') as (_ & _ & Hne). by destruct (Hne c1 e1).
  - intros c' e'. rewrite lookup_insert. destruct (decide (c = c')); [|eauto]. by intros [= <-].
Qed.

Lemma cstep_spooled cfg s s' : cstep cfg s s' -> Spooled s -> Spooled s'.
Proof.
  intros [] HS.
  - by apply (spooled_same s).
  - apply (spooled_same s); [by rewrite claimed_resolved|by rewrite receipts_resolved| |done].
    intros x Hx. rewrite inflight_resolved. by apply moved_kept.
  - apply (spooled_same s); try done. unfold resolve. by rewrite claimed_log, app_nil_r.
  - by apply spooled_handed.
  - apply (spooled_same (set_receipts <[c := e]> (handed id f s))); try done.
    { unfold claimed at 1. simpl. rewrite !filter_app. simpl. rewrite app_nil_r. unfold claimed. simpl.
      by rewrite filter_app. }
    apply spooled_receipt; [by apply spooled_handed|done|congruence|].
    intros x Hx. assert (x = id) as -> by congruence. split; [done|]. split.
    + unfold handed. rewrite claimed_log. set_solver.
    + intros c' e' He' Hj. destruct (sp_receipt s HS c' e' id He' Hj) as [_ Hin].
      apply (sp_inflight s HS) in Hin as [g Hg]. congruence.
  - apply spooled_receipt; [done|done|done|]. intros x Hx. congruence.
  - apply (spooled_same s); try done. by rewrite claimed_log, bool_decide_eq_false_2, app_nil_r.
  - by apply (spooled_same s).
Qed.

Lemma restarted_spooled b d s : Spooled s -> Spooled (restarted b d s).
Proof. intros []. by split. Qed.

(** ** Results are final, claims are bounded *)

(** Results and claimed files never change or disappear. *)
Definition settled_kept (s s' : spool) : Prop :=
  (forall id f, outbox s !! id = Some f -> outbox s' !! id = Some f) /\
  (forall id f, inflight s !! id = Some f -> inflight s' !! id = Some f) /\
  (forall id, is_Some (outbox s' !! id) -> is_Some (outbox s !! id) \/ is_Some (inflight s' !! id)).

Lemma settled_refl s : settled_kept s s.
Proof. split; auto. Qed.
Lemma settled_trans s t u : settled_kept s t -> settled_kept t u -> settled_kept s u.
Proof.
  intros (A1 & A2 & A3) (B1 & B2 & B3). split; [auto|]. split; [auto|].
  intros id [H|H]%B3; [|auto]. apply A3 in H as [H|[f H]]; [auto|]. right. eauto.
Qed.

Lemma move_settled id f s : inflight s !! id = None -> settled_kept s (move_in id f s).
Proof.
  intros Hn. split; [done|]. split; [|by left].
  simpl. intros x g Hx. rewrite lookup_insert_ne; [done|]. congruence.
Qed.

Lemma resolve_settled id v s : is_Some (inflight s !! id) -> outbox s !! id = None -> settled_kept s (resolve id v s).
Proof.
  intros Hi Ho. split; [|split; [done|]]; simpl.
  - intros x g Hx. rewrite lookup_insert_ne; [done|]. congruence.
  - intros x. rewrite lookup_insert. destruct (decide (id = x)) as [<-|]; auto.
Qed.

Lemma cstep_settled cfg s s' : cstep cfg s s' -> settled_kept s s'.
Proof.
  intros [|id f v Hb Hi|id v Hi Ho|id f Hb Hi|id f c e Hb Hi| | |]; 
    try (by split; [|split; [|by left]]).
  - eapply settled_trans; [by apply (move_settled id f)|]. unfold resolved.
    destruct (exists_in _ _) eqn:E; [apply settled_refl|]. apply exists_in_false in E.
    apply resolve_settled; [|done]. simpl. rewrite lookup_insert_eq. eauto.
  - by apply resolve_settled.
  - by apply (move_settled id f).
  - by apply (move_settled id f).
Qed.

Lemma elem_of_open s id : id ∈ open_claims s <-> is_Some (inflight s !! id) /\ outbox s !! id = None.
Proof. unfold open_claims. by rewrite elem_of_difference, elem_of_dom, not_elem_of_dom. Qed.

Definition Limited (cfg : cpu_config) (s : spool) : Prop := (size (open_claims s) <= cpu_inflight cfg)%nat.

Lemma limited_subset cfg s s' : open_claims s' ⊆ open_claims s -> Limited cfg s -> Limited cfg s'.
Proof. unfold Limited. intros H%subseteq_size. lia. Qed.

Lemma retire_open id f v s : open_claims (resolved id v (move_in id f s)) ⊆ open_claims s.
Proof.
  intros x. rewrite !elem_of_open, inflight_resolved. intros [Hi Ho].
  assert (x <> id) as Hne by (intros ->; destruct (outbox_resolved id v (move_in id f s)) as [g Hg]; congruence).
  rewrite outbox_resolved_other in Ho by done. simpl in *. by rewrite lookup_insert_ne in Hi.
Qed.

Lemma claim_open id f s : open_claims (handed id f s) ⊆ {[id]} ∪ open_claims s.
Proof.
  intros x. rewrite elem_of_union, elem_of_singleton, !elem_of_open. simpl. rewrite lookup_insert.
  destruct (decide (id = x)); [by left|by right].
Qed.

Lemma limited_claim cfg id f s s' : open_claims s' = open_claims (handed id f s) ->
  (size (open_claims s) < cpu_inflight cfg)%nat -> Limited cfg s'.
Proof.
  intros He Hs. unfold Limited. rewrite He.
  assert (size (open_claims (handed id f s)) <= size ({[id]} ∪ open_claims s : gset string))%nat as H
    by apply subseteq_size, claim_open.
  pose proof (size_union_alt ({[id]} : gset string) (open_claims s)) as E. rewrite size_singleton in E.
  assert (size (open_claims s ∖ {[id]}) <= size (open_claims s))%nat by (apply subseteq_size; set_solver). lia.
Qed.

Lemma cstep_limited cfg s s' : cstep cfg s s' -> Limited cfg s -> Limited cfg s'.
Proof.
  intros [] HL; try (by apply (limited_subset cfg s)).
  - apply (limited_subset cfg s); [apply retire_open|done].
  - apply (limited_subset cfg s); [|done]. intros x. rewrite !elem_of_open. simpl. intros [Hi Ho].
    split; [done|]. by apply lookup_insert_None in Ho as [].
  - by eapply limited_claim.
  - by eapply limited_claim.
Qed.

(** * The CPU relay: its handlers refine the abstract steps *)

Section Steps.
Context (sha256_hex : string -> string) (cfg : cpu_config).
Context (readdir : gset string -> list string) (readdir_ok : forall X, readdir X ≡ₚ elements X).
Local Abbreviation csteps := (rtc (cstep cfg)).

Lemma csteps_spooled s s' : csteps s s' -> Spooled s -> Spooled s'.
Proof. induction 1; eauto using cstep_spooled. Qed.
Lemma csteps_settled s s' : csteps s s' -> settled_kept s s'.
Proof. induction 1; eauto using settled_refl, settled_trans, cstep_settled. Qed.
Lemma csteps_limited s s' : csteps s s' -> Limited cfg s -> Limited cfg s'.
Proof. induction 1; eauto using cstep_limited. Qed.

(** ** Reading the spool *)

Lemma spool_job_ok f name e now j : spool_job cfg f name e now = Ok j ->
  job_id j = name /\ exists g v, f = Some g /\ file_json g = Some v
    /\ check_job v (cpu_model cfg) true now = Ok j.
Proof.
  unfold spool_job. destruct (read_json MAX_BODY f) as [v|] eqn:Er; [|done].
  destruct (check_job v _ _ _) as [k|] eqn:Ec; [|done]. case_bool_decide as E; [|done].
  intros [= <-]. split; [done|]. unfold read_json in Er. destruct f as [g|]; [|done].
  destruct (_ || _); [done|]. destruct (file_json g) eqn:Eg; [|done]. injection Er as ->. eauto.
Qed.

Lemma fail_claim_eq id m s : fail_claim id m s = (resolved id (written (failure_result id m)) s, Ok tt).
Proof. unfold fail_claim, reading, resolved. by destruct (exists_in (outbox s) id). Qed.

Lemma resolved_step id v s : is_Some (inflight s !! id) -> csteps s (resolved id v s).
Proof.
  intros Hi. unfold resolved. destruct (exists_in _ _) eqn:E; [done|]. apply exists_in_false in E.
  apply rtc_once. by constructor.
Qed.

(** Only results change. *)
Definition only_results (s s' : spool) : Prop :=
  inflight s' = inflight s /\ inbox s' = inbox s /\ claim_receipts s' = claim_receipts s.

Lemma only_results_resolved id v s : only_results s (resolved id v s).
Proof. split; [apply inflight_resolved|]. split; [apply inbox_resolved|apply receipts_resolved]. Qed.

Lemma only_results_trans s t u : only_results s t -> only_results t u -> only_results s u.
Proof. unfold only_results. intuition congruence. Qed.

Lemma unfinished_in_steps names wall s :
  let '(s', r) := unfinished_in cfg names wall s in
  csteps s s' /\ only_results s s' /\
  forall l, r = Ok l -> forall id, id ∈ names -> outbox s' !! id = None -> id ∈ l.
Proof.
  revert s. induction names as [|n names IH]; intros s.
  { split; [done|]. split; [done|]. intros l _ id Hid. set_solver. }
  cbn [unfinished_in]. unfold reading at 1. destruct (exists_in (outbox s) n) eqn:E.
  - specialize (IH s). destruct (unfinished_in cfg names wall s) as [s' r]. destruct IH as (Hs & Hr & Hl).
    split; [done|]. split; [done|]. intros l Hok id [->|Hid]%elem_of_cons Hn; [|eauto].
    apply exists_in_true in E as [f Hf]. apply (csteps_settled s s' Hs) in Hf. congruence.
  - unfold sequence at 1, computing.
    destruct (spool_job cfg (inflight s !! n) n _ _) as [j|] eqn:Ej; [|done].
    apply spool_job_ok in Ej as (<- & g & v & Hg & _). destruct (_ <=? _).
    + unfold sequence at 1. rewrite fail_claim_eq. set (s1 := resolved _ _ s).
      assert (csteps s s1) as H1 by (apply resolved_step; eauto).
      specialize (IH s1). destruct (unfinished_in cfg names wall s1) as [s' r]. destruct IH as (Hs & Hr & Hl).
      split; [by etransitivity|]. split; [eapply only_results_trans; [apply only_results_resolved|done]|].
      intros l Hok id [->|Hid]%elem_of_cons Hn; [|eauto].
      destruct (outbox_resolved (job_id j) (written (failure_result (job_id j) "CPU deadline expired; no replay")) s) as [f Hf].
      apply (csteps_settled s1 s' Hs) in Hf. congruence.
    + unfold sequence. specialize (IH s). destruct (unfinished_in cfg names wall s) as [s' [l|e]];
        destruct IH as (Hs & Hr & Hl); (split; [done|]); (split; [done|]); [|done].
      intros l' [= <-] id [->|Hid]%elem_of_cons Hn; [by left|right; eauto].
Qed.

Lemma size_list_to_set_le (l : list string) : (size (list_to_set l : gset string) <= length l)%nat.
Proof.
  induction l as [|x l IH]; [by rewrite list_to_set_nil, size_empty|]. rewrite list_to_set_cons. simpl length.
  pose proof (size_union_alt ({[x]} : gset string) (list_to_set l)) as E. rewrite size_singleton in E.
  assert (size ((list_to_set l : gset string) ∖ {[x]}) <= size (list_to_set l : gset string))%nat
    by (apply subseteq_size; set_solver). lia.
Qed.

Lemma unfinished_claims_steps wall s :
  let '(s', r) := unfinished_claims cfg readdir wall s in
  csteps s s' /\ only_results s s' /\ forall l, r = Ok l -> (size (open_claims s') <= length l)%nat.
Proof.
  unfold unfinished_claims, reading. pose proof (unfinished_in_steps (readdir (dom (inflight s))) wall s) as H.
  destruct (unfinished_in _ _ _ _) as [s' r]. destruct H as (Hs & Hr & Hl). split; [done|]. split; [done|].
  intros l Hok. etransitivity; [|apply (size_list_to_set_le l)]. apply subseteq_size.
  intros id [Hi Ho]%elem_of_open. apply elem_of_list_to_set. apply (Hl l Hok); [|done].
  rewrite readdir_ok. apply elem_of_elements, elem_of_dom. destruct Hr as [<- _]. done.
Qed.

(** ** Claiming *)

Lemma claim_first_steps paths wall s : (size (open_claims s) < cpu_inflight cfg)%nat ->
  let '(s', r) := claim_first cfg paths wall s in
  match r with
  | Ok (Some j) => exists t f, csteps s t /\ claim_receipts t = claim_receipts s
      /\ inbox t !! job_id j = Some f /\ inflight t !! job_id j = None /\ outbox t !! job_id j = None
      /\ (size (open_claims t) < cpu_inflight cfg)%nat /\ s' = handed (job_id j) f t
      /\ spool_job cfg (Some f) (job_id j) "Spool filename does not match ID" (wall (job_id j)) = Ok j
      /\ wall (job_id j) 2%nat < deadline_unix j
  | _ => csteps s s' /\ claim_receipts s' = claim_receipts s
  end.
Proof.
  revert s. induction paths as [|p paths IH]; intros s Hsz; [done|].
  cbn [claim_first]. unfold reading at 1. destruct (inbox s !! p) as [f|] eqn:Eb; [|by apply IH].
  unfold sequence at 1, computing.
  destruct (spool_job cfg (Some f) p _ _) as [j|] eqn:Ej; [|done].
  pose proof (spool_job_ok _ _ _ _ _ Ej) as (<- & _).
  destruct (exists_in (inflight s) _ || exists_in (outbox s) _) eqn:Ed; [done|].
  apply orb_false_elim in Ed as [Hi Ho]. apply exists_in_false in Hi, Ho.
  unfold sequence at 1, changing at 1. destruct (_ <=? _) eqn:Et.
  - unfold sequence at 1. rewrite fail_claim_eq. set (s1 := resolved _ _ _).
    assert (csteps s s1) as H1 by (apply rtc_once; by apply C_retire).
    assert (claim_receipts s1 = claim_receipts s) as Hr1 by (unfold s1; by rewrite receipts_resolved).
    assert (size (open_claims s1) < cpu_inflight cfg)%nat as Hsz1.
    { eapply Nat.le_lt_trans; [apply subseteq_size, retire_open|done]. }
    specialize (IH s1 Hsz1). destruct (claim_first cfg paths wall s1) as [s' [[k|]|e]].
    + destruct IH as (t & g & Ht & Hrt & IH). exists t, g. split; [by etransitivity|]. split; [congruence|done].
    + destruct IH as [Ht Hrt]. split; [by etransitivity|congruence].
    + destruct IH as [Ht Hrt]. split; [by etransitivity|congruence].
  - apply Z.leb_gt in Et. exists s, f. by repeat (split; [done|]).
Qed.

(** What a claim does: nothing beyond abstract steps, and a job handed out is
    one the spool held, valid and not expired. *)
Lemma claim_steps requested w w' s :
  let '(s', r) := claim cfg readdir requested w w' s in
  match r with
  | Ok (Some j) => exists t f, csteps s t /\ claim_receipts t = claim_receipts s
      /\ inbox t !! job_id j = Some f /\ inflight t !! job_id j = None /\ outbox t !! job_id j = None
      /\ (size (open_claims t) < cpu_inflight cfg)%nat /\ s' = handed (job_id j) f t
      /\ spool_job cfg (Some f) (job_id j) "Spool filename does not match ID" (w' (job_id j)) = Ok j
      /\ w' (job_id j) 2%nat < deadline_unix j
  | _ => csteps s s' /\ claim_receipts s' = claim_receipts s
  end.
Proof.
  unfold claim. set (body := sequence _ _).
  assert (let '(s', r) := body s in
    match r with
    | Ok (Some j) => exists t f, csteps s t /\ claim_receipts t = claim_receipts s
        /\ inbox t !! job_id j = Some f /\ inflight t !! job_id j = None /\ outbox t !! job_id j = None
        /\ (size (open_claims t) < cpu_inflight cfg)%nat /\ s' = handed (job_id j) f t
        /\ spool_job cfg (Some f) (job_id j) "Spool filename does not match ID" (w' (job_id j)) = Ok j
        /\ w' (job_id j) 2%nat < deadline_unix j
    | _ => csteps s s' /\ claim_receipts s' = claim_receipts s
    end) as Hbody.
  { unfold body, sequence. pose proof (unfinished_claims_steps w s) as H.
    destruct (unfinished_claims cfg readdir w s) as [s1 [active|e]]; destruct H as (H1 & (_ & _ & Hr1) & Hl); [|done].
    destruct (_ <=? _)%nat eqn:El; [done|]. apply Nat.leb_gt in El.
    unfold reading. set (paths := match id_value requested with Some id => [id] | None => _ end).
    assert (size (open_claims s1) < cpu_inflight cfg)%nat as Hsz by (pose proof (Hl active eq_refl); lia).
    pose proof (claim_first_steps paths w' s1 Hsz) as H2. destruct (claim_first cfg paths w' s1) as [s2 [[k|]|e]].
    - destruct H2 as (t & g & Ht & Hrt & H2). exists t, g. split; [by etransitivity|]. split; [congruence|done].
    - destruct H2 as [Ht Hrt]. split; [by etransitivity|congruence].
    - destruct H2 as [Ht Hrt]. split; [by etransitivity|congruence]. }
  destruct requested as [| | | |x| |]; try done. unfold id_value in *. destruct (ID x); [exact Hbody|done].
Qed.

Lemma claim_refines requested w w' s : csteps s (claim cfg readdir requested w w' s).1.
Proof.
  pose proof (claim_steps requested w w' s) as H.
  destruct (claim cfg readdir requested w w' s) as [s' [[j|]|e]]; [|apply H..].
  destruct H as (t & f & Ht & _ & Hb & Hi & Ho & Hsz & -> & _). eapply rtc_r; [exact Ht|]. by constructor.
Qed.

(** ** Claim operations *)

Lemma claim_receipt_reads c b mono wall s : (claim_receipt cfg c b mono wall s).1 = s.
Proof.
  unfold claim_receipt, reading, sequence, raising_if, computing, raise_if.
  repeat match goal with
  | |- (match ?x with _ => _ end _).1 = s => destruct x; try done
  | |- (match ?x with _ => _ end).1 = s => destruct x; try done
  end.
Qed.

Lemma begin_claim_refines v mono wall s : csteps s (begin_claim_receipt cfg v mono wall s).1.
Proof.
  unfold begin_claim_receipt. destruct (id_value _) as [c|]; [|done].
  unfold reading, sequence at 1, raising_if, computing, raise_if. destruct (negb _); [done|].
  destruct (claim_receipts s !! c) as [e|] eqn:Ec.
  - unfold sequence at 1. destruct (negb _); [done|]. unfold sequence.
    pose proof (claim_receipt_reads c (get_none "boot_id" v) mono wall s) as H.
    destruct (claim_receipt _ _ _ _ _ _) as [s' [r|x]]; simpl in H; by subst.
  - unfold sequence at 1. destruct (_ <=? _)%nat; [done|]. unfold sequence, put_receipt, changing, returning.
    apply rtc_once. apply C_receipt; [by rewrite Ec|done].
Qed.

Lemma finish_eq c j mono wall s e : claim_receipts s !! c = Some e ->
  exists e', entry_status e' = Complete /\ entry_job e' = job_id <$> j /\
    finish_claim_receipt cfg c j mono wall s
    = (log "claim_receipt_recorded" (default "" (job_id <$> j)) (set_receipts <[c := e']> s), Ok tt).
Proof.
  intros He. unfold finish_claim_receipt, reading. rewrite He. eexists. split; [|split; [|reflexivity]]; done.
Qed.

Lemma attempt_refines c over w w' mono wall s : Spooled s ->
  csteps s (claim_attempt cfg readdir c over w w' mono wall s).1.
Proof.
  intros HS. unfold claim_attempt. destruct (claim_receipts s !! c) as [e|] eqn:Ec; [|done].
  case_bool_decide as Ep; [|done]. pose proof (sp_pending s HS c e Ec Ep) as Hn.
  assert (unsettled (claim_receipts s !! c)) as Hu by (by rewrite Ec).
  pose proof (claim_steps (parameters e).1 w w' s) as H. unfold sequence at 1.
  destruct (claim cfg readdir _ w w' s) as [s1 [[j|]|x]].
  - destruct H as (t & f & Ht & Hr & Hb & Hi & Ho & Hsz & -> & _). rewrite bool_decide_eq_false_2 by done.
    unfold sequence. cbn [andb]. cbv beta iota.
    destruct (finish_eq c (Some j) mono wall (handed (job_id j) f t) e) as (e' & He' & Hj' & ->);
      [simpl; by rewrite Hr|].
    eapply rtc_r; [exact Ht|]. apply (C_claim_receipt cfg t (job_id j) f c e'); try done; rewrite Hr; [by eexists|done].
  - destruct H as [Ht Hr]. rewrite bool_decide_eq_true_2 by done. destruct (negb over); [done|].
    unfold sequence. cbn [andb]. cbv beta iota.
    destruct (finish_eq c None mono wall s1 e) as (e' & He' & Hj' & ->); [by rewrite Hr|].
    eapply rtc_r; [eapply rtc_r; [exact Ht|]|by constructor]. apply C_receipt; [by rewrite Hr|done].
  - destruct H as [Ht Hr]. eapply rtc_r; [exact Ht|].
    assert (forall g, set_receipts (alter g c) s1 = set_receipts <[c := g e]> s1) as Ha.
    { intros g. unfold set_receipts. f_equal. apply map_eq. intros x'. rewrite lookup_insert, lookup_alter.
      destruct (decide (c = x')) as [<-|]; [|done]. by rewrite Hr, Ec. }
    rewrite Ha. apply C_receipt; [by rewrite Hr|done].
Qed.

Lemma abandon_refines c s : Spooled s -> csteps s (abandon_claim c s).1.
Proof.
  intros HS. unfold abandon_claim, changing. simpl.
  destruct (claim_receipts s !! c) as [e|] eqn:Ec.
  - assert (forall g, set_receipts (alter g c) s = set_receipts <[c := g e]> s) as Ha.
    { intros g. unfold set_receipts. f_equal. apply map_eq. intros x'. rewrite lookup_insert, lookup_alter.
      destruct (decide (c = x')) as [<-|]; [|done]. by rewrite Ec. }
    rewrite Ha. case_bool_decide as Ep.
    + pose proof (sp_pending s HS c e Ec Ep) as Hn. apply rtc_once. apply C_receipt; [by rewrite Ec|done].
    + assert (set_receipts <[c := e]> s = s) as ->; [|done]. destruct s. unfold set_receipts. simpl in *. f_equal.
      by apply insert_id.
  - assert (forall g, set_receipts (alter g c) s = s) as ->; [|done]. intros g. destruct s. unfold set_receipts.
    simpl in *. f_equal. apply map_eq. intros x'. rewrite lookup_alter.
    destruct (decide (c = x')) as [<-|]; [|done]. by rewrite Ec.
Qed.

(** ** Results, cancellation, restart *)

Lemma result_refines v w now s : csteps s (result sha256_hex cfg readdir v w now s).1.
Proof.
  unfold result. unfold sequence at 1, computing at 1. destruct (check_result v) as [[id failure]|]; [|done].
  unfold sequence at 1. pose proof (unfinished_claims_steps w s) as H.
  destruct (unfinished_claims cfg readdir w s) as [s1 [l|e]]; destruct H as (H1 & _); [|done].
  unfold reading, sequence at 1, computing at 1. destruct (if failure then _ else _); [|done].
  destruct (outbox s1 !! id) as [f|] eqn:Eo.
  - unfold sequence, computing. destruct (read_json _ _); [|done]. by destruct (negb _).
  - destruct (exists_in (inflight s1) id) eqn:Ei; [|done]. apply exists_in_true in Ei.
    eapply rtc_r; [exact H1|]. by apply (C_resolve cfg s1 id (written (PDict v))).
Qed.

Lemma cancel_claim_refines id now s : csteps s (cancel_claim cfg id now s).1.
Proof.
  unfold cancel_claim. unfold sequence at 1, reading at 1.
  destruct (inflight s !! id) as [g|] eqn:Ei.
  - unfold reading, returning. unfold exists_in at 1. rewrite Ei. cbn [negb]. rewrite fail_claim_eq.
    apply resolved_step. eauto.
  - destruct (inbox s !! id) as [f|] eqn:Eb.
    + unfold sequence, computing. destruct (spool_job _ _ _ _ _); [|done]. unfold reading, changing.
      assert (exists_in (inflight (move_in id f s)) id = true) as ->.
      { apply exists_in_true. simpl. rewrite lookup_insert_eq. eauto. }
      cbn [negb]. rewrite fail_claim_eq. apply rtc_once. by apply C_retire.
    + unfold reading, returning. unfold exists_in. by rewrite Ei.
Qed.

Lemma recover_claim_steps w name s :
  let '(s', r) := recover_claim cfg w name s in
  csteps s s' /\ inflight s' = inflight s /\ (r = Ok tt -> is_Some (outbox s' !! name)).
Proof.
  unfold recover_claim, reading. destruct (exists_in (outbox s) name) eqn:E.
  { split; [done|]. split; [done|]. intros _. by apply exists_in_true. }
  unfold sequence, computing. destruct (spool_job cfg (inflight s !! name) _ _ _) as [j|] eqn:Ej; [|done].
  apply spool_job_ok in Ej as (<- & g & v & Hg & _). rewrite fail_claim_eq.
  split; [apply resolved_step; eauto|]. split; [apply inflight_resolved|]. intros _. apply outbox_resolved.
Qed.

Lemma recover_steps w s :
  let '(s', r) := recover cfg readdir w s in
  csteps s s' /\ (r = Ok tt -> open_claims s' = ∅).
Proof.
  unfold recover, reading.
  assert (forall names s, let '(s', r) := for_each (recover_claim cfg w) names s in
    csteps s s' /\ inflight s' = inflight s /\
    (r = Ok tt -> forall id, id ∈ names -> is_Some (outbox s' !! id))) as H.
  { clear s. induction names as [|n names IH]; intros s.
    { split; [done|]. split; [done|]. intros _ id Hid. set_solver. }
    simpl. unfold sequence. pose proof (recover_claim_steps w n s) as Hn.
    destruct (recover_claim cfg w n s) as [s1 [[]|e]]; destruct Hn as (H1 & Hi1 & Hn); [|done].
    specialize (IH s1). destruct (for_each _ names s1) as [s2 r]. destruct IH as (H2 & Hi2 & IH).
    split; [by etransitivity|]. split; [congruence|]. intros Hr id [->|Hid]%elem_of_cons; [|eauto].
    destruct (Hn eq_refl) as [f Hf]. apply (csteps_settled s1 s2 H2) in Hf. eauto. }
  specialize (H (readdir (dom (inflight s))) s). destruct (for_each _ _ s) as [s' r].
  destruct H as (Hs & Hi & H). split; [done|]. intros Hr. apply set_eq. intros id.
  rewrite elem_of_open. split; [|set_solver]. intros [Hid Ho]. exfalso.
  destruct (H Hr id) as [f Hf]; [|congruence]. rewrite readdir_ok. apply elem_of_elements, elem_of_dom. by rewrite <- Hi.
Qed.

(** Where an action starts: a restart begins with a fresh process. *)
Definition before (a : action) (s : spool) : spool :=
  match a with Restart b d _ => restarted b d s | _ => s end.

(** Every action is a sequence of abstract steps. *)
Theorem cpu_handle_refines a s : Spooled s -> csteps (before a s) (handle sha256_hex cfg readdir a s).1.
Proof.
  intros HS. destruct a; cbn [handle before]; unfold sequence at 1.
  - apply rtc_once. constructor.
  - pose proof (claim_refines requested w w' s). by destruct (claim _ _ _ _ _ _) as [? []].
  - pose proof (begin_claim_refines value mono wall s). by destruct (begin_claim_receipt _ _ _ _ _) as [? []].
  - pose proof (attempt_refines claim_id over w w' mono wall s HS). by destruct (claim_attempt _ _ _ _ _ _ _ _ _) as [? []].
  - pose proof (abandon_refines claim_id s HS). by destruct (abandon_claim _ _) as [? []].
  - pose proof (claim_receipt_reads claim_id boot_id mono wall s) as H.
    destruct (claim_receipt _ _ _ _ _ _) as [s' []]; simpl in *; by subst.
  - pose proof (result_refines value w now s). by destruct (result _ _ _ _ _ _ _) as [? []].
  - pose proof (cancel_claim_refines request_id now s). by destruct (cancel_claim _ _ _ _) as [? []].
  - apply rtc_once. constructor.
  - unfold changing at 1. unfold sequence. pose proof (recover_steps w (restarted boot_id deadline s)) as H.
    destruct (recover _ _ _ _) as [s' r]. destruct H as [H _]. by destruct r.
Qed.

Lemma before_spooled a s : Spooled s -> Spooled (before a s).
Proof. destruct a; try done. apply restarted_spooled. Qed.

Lemma handle_spooled a s : Spooled s -> Spooled (handle sha256_hex cfg readdir a s).1.
Proof.
  intros HS. eapply csteps_spooled; [by apply cpu_handle_refines|]. by apply before_spooled.
Qed.

Lemma steps_spooled l s : Spooled s -> Spooled (steps sha256_hex cfg readdir l s).
Proof. revert s. induction l as [|a l IH]; intros s HS; [done|]. simpl. by apply IH, handle_spooled. Qed.

Lemma handle_settled a s : Spooled s -> settled_kept s (handle sha256_hex cfg readdir a s).1.
Proof.
  intros HS. pose proof (csteps_settled _ _ (cpu_handle_refines a s HS)) as H. by destruct a.
Qed.

Lemma steps_settled l s : Spooled s -> settled_kept s (steps sha256_hex cfg readdir l s).
Proof.
  revert s. induction l as [|a l IH]; intros s HS; [apply settled_refl|]. simpl.
  eapply settled_trans; [by apply handle_settled|]. by apply IH, handle_spooled.
Qed.

Lemma steps_limited l s : Spooled s -> Limited cfg s -> Limited cfg (steps sha256_hex cfg readdir l s).
Proof.
  revert s. induction l as [|a l IH]; intros s HS HL; [done|]. simpl. apply IH; [by apply handle_spooled|].
  eapply csteps_limited; [by apply cpu_handle_refines|]. by destruct a.
Qed.
End Steps.

(** * What the CPU relay guarantees

    The properties of the CPU relay over any sequence of actions, restarts
    included, each with a concrete run. *)

Section Results.
Context (sha : string -> string) (cfg : cpu_config).
Context (readdir : gset string -> list string) (readdir_ok : forall X, readdir X ≡ₚ elements X).

(** A newly claimed job had no claim before. *)
Lemma cstep_claimed s s' id : cstep cfg s s' -> id ∈ claimed s' -> id ∈ claimed s \/ inflight s !! id = None.
Proof.
  assert (forall x f, id ∈ claimed (handed x f s) -> inflight s !! x = None ->
    id ∈ claimed s \/ inflight s !! id = None) as Hh.
  { intros x f. unfold handed. rewrite claimed_log. simpl.
    intros [?| ->%list_elem_of_singleton]%elem_of_app; [by left|by right]. }
  intros [x f|x f v Hb Hi|x v Hi Ho|x f Hb Hi|x f c e Hb Hi|c e|name x Hn|].
  - by left.
  - rewrite claimed_resolved. by left.
  - unfold resolve. rewrite claimed_log, app_nil_r. by left.
  - intros Hin. by apply (Hh x f).
  - rewrite claimed_log, app_nil_r. intros Hin. by apply (Hh x f).
  - by left.
  - rewrite claimed_log, bool_decide_eq_false_2, app_nil_r by done. by left.
  - by left.
Qed.

Lemma csteps_claimed s s' id : rtc (cstep cfg) s s' -> id ∈ claimed s' -> id ∈ claimed s \/ inflight s !! id = None.
Proof.
  induction 1 as [|s t u Hs _ IH]; [auto|]. intros [Hin|Hn]%IH.
  - by eapply cstep_claimed.
  - right. destruct (inflight s !! id) as [f|] eqn:E; [|done].
    apply (cstep_settled cfg s t Hs) in E. congruence.
Qed.

Lemma steps_claimed l s id : Spooled s -> id ∈ claimed (steps sha cfg readdir l s) ->
  id ∈ claimed s \/ inflight s !! id = None.
Proof.
  revert s. induction l as [|a l IH]; intros s HS; [auto|]. simpl. intros Hin.
  pose proof (handle_settled sha cfg readdir readdir_ok a s HS) as (_ & Hk & _).
  apply IH in Hin; [|by apply handle_spooled]. destruct Hin as [Hin|Hn].
  - pose proof (csteps_claimed _ _ id (cpu_handle_refines sha cfg readdir readdir_ok a s HS) Hin) as H.
    by destruct a.
  - right. destruct (inflight s !! id) as [f|] eqn:E; [|done]. apply Hk in E. congruence.
Qed.

(** A completed claim operation is never changed. *)
Lemma cstep_receipt s s' c e : cstep cfg s s' -> claim_receipts s !! c = Some e -> entry_status e = Complete ->
  claim_receipts s' !! c = Some e /\ cpu_boot_id s' = cpu_boot_id s.
Proof.
  intros [|x f v|x v|x f|x f c' e' Hb Hi Ho Hsz Hsome Hu| c' e' Hu| |] He Hc; try done.
  - rewrite receipts_resolved. split; [done|]. unfold resolved. by destruct (exists_in _ _).
  - split; [|done]. simpl. rewrite lookup_insert_ne; [done|]. intros ->. rewrite He in Hu. destruct Hu. congruence.
  - split; [|done]. simpl. rewrite lookup_insert_ne; [done|]. intros ->. rewrite He in Hu. destruct Hu. congruence.
Qed.

Lemma csteps_receipt s s' c e : rtc (cstep cfg) s s' -> claim_receipts s !! c = Some e ->
  entry_status e = Complete -> claim_receipts s' !! c = Some e /\ cpu_boot_id s' = cpu_boot_id s.
Proof.
  induction 1 as [|s t u Hs _ IH]; [done|]. intros He Hc.
  destruct (cstep_receipt s t c e Hs He Hc) as [Ht Hb]. destruct (IH Ht Hc). split; [done|congruence].
Qed.

(** The boot identity of a run whose restarts avoid [b]. *)
Definition avoids (b : string) (a : action) : Prop := match a with Restart b' _ _ => b' <> b | _ => True end.

Lemma cstep_boot s s' : cstep cfg s s' -> cpu_boot_id s' = cpu_boot_id s.
Proof. intros []; try done. unfold resolved. by destruct (exists_in _ _). Qed.

Lemma handle_boot a s : Spooled s -> cpu_boot_id (handle sha cfg readdir a s).1 = cpu_boot_id (before a s).
Proof.
  intros HS. pose proof (cpu_handle_refines sha cfg readdir readdir_ok a s HS) as H.
  induction H as [|s1 t u Hs _ IH]; [done|]. by rewrite IH, (cstep_boot s1 t).
Qed.

Lemma steps_receipt b l s c e : Spooled s -> Forall (avoids b) l ->
  (cpu_boot_id s = b -> claim_receipts s !! c = Some e /\ entry_status e = Complete) ->
  cpu_boot_id (steps sha cfg readdir l s) = b -> claim_receipts (steps sha cfg readdir l s) !! c = Some e.
Proof.
  intros HS Hl. revert s HS. induction Hl as [|a l Ha Hl IH]; intros s HS He Hb; [by apply He|].
  simpl in *. apply IH; [by apply handle_spooled| |done]. intros Hb1. rewrite handle_boot in Hb1 by done.
  destruct a; try (destruct (He Hb1) as [He1 He2]; split; [|done];
    eapply csteps_receipt; [apply (cpu_handle_refines sha cfg readdir readdir_ok _ s HS)|exact He1|exact He2]).
  simpl in *. congruence.
Qed.

Lemma lookup_found c b mono wall s s' p j n :
  claim_receipt cfg c b mono wall s = (s', Ok (p, Some j, n)) ->
  b = PStr (cpu_boot_id s) /\ p = false /\ outbox s !! job_id j = None
  /\ exists e, claim_receipts s !! c = Some e /\ entry_status e = Complete /\ entry_job e = Some (job_id j).
Proof.
  unfold claim_receipt, reading, sequence, raising_if, computing, raise_if.
  destruct (negb (ID c)); [done|]. destruct (is_str b _) eqn:Eb; [|done]. apply is_str_inv in Eb. cbn [negb].
  destruct (claim_receipts s !! c) as [e|] eqn:Ec; [|done]. destruct (_ || _); [done|].
  case_bool_decide as Ef; [done|]. case_bool_decide as Ep; [done|].
  destruct (entry_job e) as [r|] eqn:Ej; [|done]. destruct (exists_in _ _) eqn:Eo; [done|].
  apply exists_in_false in Eo. destruct (_ <=? _); [done|]. destruct (read_json _ _); [|done].
  destruct (check_job _ _ _ _) as [k|]; [|done]. case_bool_decide as Ek; [|done]. cbn [negb].
  intros [= _ <- <- _]. subst r. split; [done|]. split; [done|]. split; [done|].
  exists e. split; [done|]. split; [|done]. by destruct (entry_status e).
Qed.
End Results.

Lemma empty_history_spooled s : cpu_trace s = [] -> claim_receipts s = ∅ -> Spooled s.
Proof.
  intros Ht Hr. assert (claimed s = []) as Hc by (unfold claimed; by rewrite Ht).
  split; rewrite ?Hc, ?Hr; try done; [apply NoDup_nil_2|]. intros id Hid. set_solver.
Qed.

(** C33. Whatever the interleaving of claims, claim operations, results,
    cancellations and restarts, a job is handed out at most once: its identity
    had no claim when the run began and stays claimed for ever. *)
Theorem relay_claims_once sha cfg readdir l s :
  (forall X, readdir X ≡ₚ elements X) -> cpu_trace s = [] -> claim_receipts s = ∅ ->
  let s' := steps sha cfg readdir l s in
  NoDup (claimed s') /\ forall id, id ∈ claimed s' -> inflight s !! id = None /\ is_Some (inflight s' !! id).
Proof.
  intros Hr Ht Hc s'. pose proof (empty_history_spooled s Ht Hc) as HS.
  assert (Spooled s') as HS' by (by apply steps_spooled).
  split; [apply HS'|]. intros id Hid. split; [|by apply (sp_inflight s' HS')].
  apply (steps_claimed sha cfg readdir Hr l s id HS) in Hid as [Hid|?]; [|done].
  unfold claimed in Hid. rewrite Ht in Hid. set_solver.
Qed.

(** A committed result is final: an accepted result is the one stored, or
    an equal one stored before; nothing later changes or removes it, and a
    result is stored only for a job that was claimed. *)
Theorem relay_results_final sha cfg readdir l s value w now s1 duplicate :
  (forall X, readdir X ≡ₚ elements X) -> Spooled s ->
  result sha cfg readdir value w now s = (s1, Ok duplicate) ->
  exists id f v, get_none "id" value = PStr id
    /\ outbox (steps sha cfg readdir l s1) !! id = Some f
    /\ file_json f = Some v /\ (v = PDict value \/ duplicate = true /\ py_eqb v (PDict value) = true)
    /\ (is_Some (outbox s !! id) \/ is_Some (inflight s1 !! id)).
Proof.
  intros Hr HS E. pose proof (result_refines sha cfg readdir Hr value w now s) as Hs. rewrite E in Hs.
  assert (Spooled s1) as HS1 by (by eapply csteps_spooled).
  destruct (steps_settled sha cfg readdir Hr l s1 HS1) as (Hout & _ & _).
  destruct (csteps_settled cfg _ _ Hs) as (_ & _ & Hnew).
  revert E. unfold result. unfold sequence at 1, computing at 1.
  destruct (check_result value) as [[id failure]|] eqn:Ec; [|done].
  assert (get_none "id" value = PStr id) as Hid.
  { unfold check_result in Ec. destruct (id_value _) as [i|] eqn:Ei; [|done]. apply id_value_inv in Ei as [-> _].
    destruct (get_none "ok" value); try done. res_inv Ec. by simplify_eq. }
  unfold sequence at 1. destruct (unfinished_claims cfg readdir w s) as [t [a|e]]; [|done].
  unfold reading, sequence at 1, computing at 1. destruct (if failure then _ else _); [|done].
  destruct (outbox t !! id) as [f|] eqn:Eo.
  - unfold sequence, computing. destruct (read_json _ _) as [v|] eqn:Er; [|done].
    destruct (py_eqb v (PDict value)) eqn:Ev; [|done]. intros [= <- <-].
    unfold read_json in Er. destruct (_ || _); [done|]. destruct (file_json f) eqn:Ef; [|done]. injection Er as ->.
    exists id, f, v. repeat split; eauto.
  - destruct (exists_in (inflight t) id) eqn:Ei; [|done]. intros [= <- <-].
    exists id, (written (PDict value)), (PDict value). split; [done|]. split; [|split; [done|split; [by left|]]].
    + apply Hout. simpl. apply lookup_insert_eq.
    + apply Hnew. simpl. rewrite lookup_insert_eq. eauto.
Qed.

(** A restart that succeeds leaves no claim without a result, and from then
    on the claims without a result never exceed [max_inflight]. *)
Theorem relay_claims_bounded sha cfg readdir l s b d w s1 :
  (forall X, readdir X ≡ₚ elements X) -> Spooled s ->
  handle sha cfg readdir (Restart b d w) s = (s1, Ok Done) ->
  open_claims s1 = ∅ /\ (size (open_claims (steps sha cfg readdir l s1)) <= cpu_inflight cfg)%nat.
Proof.
  intros Hr HS E. assert (Spooled s1) as HS1.
  { pose proof (handle_spooled sha cfg readdir Hr (Restart b d w) s HS) as H. by rewrite E in H. }
  assert (open_claims s1 = ∅) as Ho.
  { revert E. cbn [handle]. unfold sequence at 1, changing. unfold sequence.
    pose proof (recover_steps cfg readdir Hr w (restarted b d s)) as H.
    destruct (recover cfg readdir w (restarted b d s)) as [t [[]|e]]; [|done]. intros [= <-]. by apply H. }
  split; [done|]. apply steps_limited; [done|done|]. unfold Limited. rewrite Ho, size_empty. lia.
Qed.

(** A claim operation stands for one job: every later lookup of the
    operation in the same boot that returns a job returns that job, and the
    lookups of two operations never return the same one. *)
Theorem relay_operation_one_job sha cfg readdir l s c c' b mono wall mono' wall' s1 s2 p p' j j' n n' :
  (forall X, readdir X ≡ₚ elements X) -> Spooled s ->
  Forall (avoids (cpu_boot_id s)) l ->
  claim_receipt cfg c b mono wall s = (s1, Ok (p, Some j, n)) ->
  claim_receipt cfg c' b mono' wall' (steps sha cfg readdir l s) = (s2, Ok (p', Some j', n')) ->
  c = c' <-> job_id j = job_id j'.
Proof.
  intros Hr HS Hl E1 E2.
  apply lookup_found in E1 as (Hb & _ & _ & e & He & Hst & Hj).
  apply lookup_found in E2 as (Hb' & _ & _ & e' & He' & Hst' & Hj').
  assert (claim_receipts (steps sha cfg readdir l s) !! c = Some e) as Hkept.
  { eapply (steps_receipt sha cfg readdir Hr (cpu_boot_id s)); [done|done|done|]. congruence. }
  split.
  - intros <-. congruence.
  - intros Heq. eapply (sp_unique (steps sha cfg readdir l s)); [by apply steps_spooled|done|done|done|].
    congruence.
Qed.

(** ** Concrete runs *)

Definition job_a : string := "0123456789abcdef0123456789abcdef".
Definition job_b : string := "fedcba9876543210fedcba9876543210".
Definition operation_1 : string := "11111111111111111111111111111111".
Definition operation_2 : string := "22222222222222222222222222222222".

Definition echo_job (id : string) : file :=
  written (PDict [("id", PStr id); ("operation", PStr "echo"); ("payload", PDict [("chunks", PInt 3)]);
                  ("deadline_unix", PInt 100)]).

Definition example_cpu : cpu_config := {| cpu_model := "m"; cpu_inflight := 2; cpu_generation_seconds := 120 |}.
Definition no_sha256 (s : string) : string := "".
Definition list_dir : gset string -> list string := fun X => elements X.

(** The wall clock stands at 50 seconds, the monotonic one at zero. *)
Definition at_50 : string -> nat -> Z := fun _ _ => seconds 50.
Definition wall_50 : nat -> Z := fun _ => seconds 50.
Definition mono_0 : nat -> Z := fun _ => 0.

Definition example_spool : spool :=
  {| inbox := {[job_a := echo_job job_a; job_b := echo_job job_b]}; inflight := ∅; outbox := ∅;
     claim_receipts := ∅; cpu_boot_id := "boot"; cpu_deadline := 10000000 * float_unit;
     cpu_stopped := false; cpu_trace := [] |}.

Lemma example_spooled : Spooled example_spool.
Proof. by apply empty_history_spooled. Qed.

Definition begin_operation (c : string) : action :=
  BeginClaim [("claim_id", PStr c); ("boot_id", PStr "boot")] mono_0 wall_50.

Definition ok_result (id : string) : pydict := [("id", PStr id); ("ok", PBool true); ("response", PDict [])].

(** Claim [job_a] twice, restart, and offer it again. *)
Definition claim_run : list action :=
  [Claim (PStr job_a) at_50 at_50; Claim (PStr job_a) at_50 at_50; Claim PNone at_50 at_50;
   Restart "next" (10000000 * float_unit) at_50; Enqueue job_a (echo_job job_a); Claim (PStr job_a) at_50 at_50].

Lemma relay_claims_once_witness :
  claimed (steps no_sha256 example_cpu list_dir claim_run example_spool) = [job_a; job_b]
  /\ NoDup (claimed (steps no_sha256 example_cpu list_dir claim_run example_spool)).
Proof.
  split; [vm_compute; reflexivity|].
  exact (proj1 (relay_claims_once no_sha256 example_cpu list_dir claim_run example_spool
                  (fun X => reflexivity _) eq_refl eq_refl)).
Defined.

Definition claimed_spool : spool :=
  steps no_sha256 example_cpu list_dir
    [begin_operation operation_1; ClaimAttempt operation_1 false at_50 at_50 mono_0 wall_50] example_spool.

Lemma claimed_spooled : Spooled claimed_spool.
Proof. apply steps_spooled; [done|apply example_spooled]. Qed.

(** The result of [job_a] survives a cancellation and a conflicting result. *)
Lemma relay_results_final_witness :
  let s1 := (result no_sha256 example_cpu list_dir (ok_result job_a) at_50 wall_50 claimed_spool).1 in
  exists f, outbox (steps no_sha256 example_cpu list_dir
    [CancelClaim job_a wall_50; Commit [("id", PStr job_a); ("ok", PBool false); ("error", PStr "no")] at_50 wall_50]
    s1) !! job_a = Some f /\ file_json f = Some (PDict (ok_result job_a)).
Proof.
  cbv zeta.
  destruct (result no_sha256 example_cpu list_dir (ok_result job_a) at_50 wall_50 claimed_spool) as [s1 r] eqn:E.
  assert (r = Ok false) as ->.
  { transitivity (result no_sha256 example_cpu list_dir (ok_result job_a) at_50 wall_50 claimed_spool).2;
      [rewrite E; reflexivity|vm_compute; reflexivity]. }
  destruct (relay_results_final no_sha256 example_cpu list_dir
    [CancelClaim job_a wall_50; Commit [("id", PStr job_a); ("ok", PBool false); ("error", PStr "no")] at_50 wall_50]
    claimed_spool (ok_result job_a) at_50 wall_50 s1 false (fun X => reflexivity _) claimed_spooled E)
    as (id & f & v & [= <-] & Hf & Hv & Heq & _).
  exists f. split; [exact Hf|]. destruct Heq as [->|[Heq _]]; [exact Hv|discriminate Heq].
Defined.

Lemma relay_claims_bounded_witness :
  exists s1, handle no_sha256 example_cpu list_dir (Restart "next" (10000000 * float_unit) at_50) claimed_spool
             = (s1, Ok Done)
    /\ is_Some (outbox s1 !! job_a) /\ open_claims s1 = ∅.
Proof.
  destruct (handle no_sha256 example_cpu list_dir (Restart "next" (10000000 * float_unit) at_50) claimed_spool)
    as [s1 r] eqn:E.
  assert (r = Ok Done) as ->.
  { transitivity (handle no_sha256 example_cpu list_dir (Restart "next" (10000000 * float_unit) at_50) claimed_spool).2;
      [rewrite E; reflexivity|vm_compute; reflexivity]. }
  exists s1. split; [reflexivity|]. split.
  - replace s1 with (handle no_sha256 example_cpu list_dir (Restart "next" (10000000 * float_unit) at_50) claimed_spool).1
      by (rewrite E; reflexivity).
    assert (exists_in (outbox (handle no_sha256 example_cpu list_dir
      (Restart "next" (10000000 * float_unit) at_50) claimed_spool).1) job_a = true) as H by (vm_compute; reflexivity).
    apply exists_in_true. exact H.
  - exact (proj1 (relay_claims_bounded no_sha256 example_cpu list_dir [] claimed_spool "next"
                    (10000000 * float_unit) at_50 s1 (fun X => reflexivity _) claimed_spooled E)).
Defined.

(** Two operations claim two different jobs, and the first one asks again. *)
Lemma relay_operation_one_job_witness :
  let more := [begin_operation operation_2; ClaimAttempt operation_2 false at_50 at_50 mono_0 wall_50] in
  exists s1 j n s2 j' n',
    claim_receipt example_cpu operation_1 (PStr "boot") mono_0 wall_50 claimed_spool = (s1, Ok (false, Some j, n))
    /\ claim_receipt example_cpu operation_2 (PStr "boot") mono_0 wall_50
         (steps no_sha256 example_cpu list_dir more claimed_spool) = (s2, Ok (false, Some j', n'))
    /\ job_id j <> job_id j'.
Proof.
  cbv zeta. set (more := [begin_operation operation_2; _]).
  destruct (claim_receipt example_cpu operation_1 (PStr "boot") mono_0 wall_50 claimed_spool)
    as [s1 [[[p [j|]] n]|e]] eqn:E1;
    try (exfalso; assert (is_ok (claim_receipt example_cpu operation_1 (PStr "boot") mono_0 wall_50 claimed_spool).2
           && match (claim_receipt example_cpu operation_1 (PStr "boot") mono_0 wall_50 claimed_spool).2 with
              | Ok (_, Some _, _) => true | _ => false end = true) as H by (vm_compute; reflexivity);
         rewrite E1 in H; discriminate H).
  destruct (claim_receipt example_cpu operation_2 (PStr "boot") mono_0 wall_50
              (steps no_sha256 example_cpu list_dir more claimed_spool)) as [s2 [[[p' [j'|]] n']|e]] eqn:E2;
    try (exfalso; assert (match (claim_receipt example_cpu operation_2 (PStr "boot") mono_0 wall_50
              (steps no_sha256 example_cpu list_dir more claimed_spool)).2 with
              | Ok (_, Some _, _) => true | _ => false end = true) as H by (vm_compute; reflexivity);
         rewrite E2 in H; discriminate H).
  pose proof (lookup_found _ _ _ _ _ _ _ _ _ _ E1) as (_ & -> & _).
  pose proof (lookup_found _ _ _ _ _ _ _ _ _ _ E2) as (_ & -> & _).
  exists s1, j, n, s2, j', n'. split; [reflexivity|]. split; [reflexivity|]. intros Heq.
  assert (operation_1 = operation_2) as Hc; [|discriminate Hc].
  eapply (relay_operation_one_job no_sha256 example_cpu list_dir more claimed_spool operation_1 operation_2);
    [intros X; reflexivity|exact claimed_spooled|repeat constructor|exact E1|exact E2|exact Heq].
Defined.
