(* ===== verification/InputCache.v ===== *)
(** * The input cache ([rollout_manager/input_cache.py])

    A bounded store of generated inputs shared by harness processes.  An entry
    is first generating, owned by the consumer that missed, then ready and
    leased to the consumers that hit it; only ready entries without leases are
    evicted.  Every request runs under one lock; the wait of [acquire] releases
    it and is modelled by asking again. *)

From S2P Require Import Prelude StateRes PyValue GenerationFailure.
Local Open Scope Z_scope.
Local Open Scope handler_scope.

(** ** State *)

Inductive tier := Ram | Disk.
Inductive entry_state := Generating | Ready.

#[export] Instance tier_eq_dec : EqDecision tier.
Proof. solve_decision. Defined.
#[export] Instance entry_state_eq_dec : EqDecision entry_state.
Proof. solve_decision. Defined.

Record entry := {
  e_bytes : Z;
  e_tier : tier;
  e_state : entry_state;
  e_producer : string;
  e_leases : gset string;
  e_metadata : pyval;
  e_metadata_bytes : Z }.

Record consumer := { copy_limit : Z; leases : list (string * string) }.

(** [entries] is an [OrderedDict], in its order. *)
Record cache := {
  ram_capacity : Z;
  disk_capacity : Z;
  max_entries : nat;
  entries : list (string * entry);
  consumers : gmap string consumer;
  metrics : gmap string Z }.

Definition capacity (s : cache) (t : tier) : Z := match t with Ram => ram_capacity s | Disk => disk_capacity s end.

Definition set_entries (l : list (string * entry)) (s : cache) : cache :=
  {| ram_capacity := ram_capacity s; disk_capacity := disk_capacity s; max_entries := max_entries s;
     entries := l; consumers := consumers s; metrics := metrics s |}.
Definition set_consumers (m : gmap string consumer) (s : cache) : cache :=
  {| ram_capacity := ram_capacity s; disk_capacity := disk_capacity s; max_entries := max_entries s;
     entries := entries s; consumers := m; metrics := metrics s |}.
(** [metrics[name] += n] *)
Definition bump (name : string) (n : Z) (s : cache) : cache :=
  {| ram_capacity := ram_capacity s; disk_capacity := disk_capacity s; max_entries := max_entries s;
     entries := entries s; consumers := consumers s;
     metrics := <[name := default 0 (metrics s !! name) + n]> (metrics s) |}.

(** ** Ordered dictionaries *)

Fixpoint od_get {A} (k : string) (l : list (string * A)) : option A :=
  match l with
  | [] => None
  | (k', v) :: l => if bool_decide (k = k') then Some v else od_get k l
  end.
Definition od_remove {A} (k : string) (l : list (string * A)) : list (string * A) :=
  filter (fun kv => bool_decide (kv.1 = k) = false) l.
(** The value of an existing key, changed in place. *)
Definition od_update {A} (k : string) (f : A -> A) (l : list (string * A)) : list (string * A) :=
  map (fun kv => if bool_decide (kv.1 = k) then (kv.1, f kv.2) else kv) l.
(** [move_to_end] *)
Definition od_to_end {A} (k : string) (l : list (string * A)) : list (string * A) :=
  match od_get k l with Some v => od_remove k l ++ [(k, v)] | None => l end.

Definition with_leases (f : gset string -> gset string) (e : entry) : entry :=
  {| e_bytes := e_bytes e; e_tier := e_tier e; e_state := e_state e; e_producer := e_producer e;
     e_leases := f (e_leases e); e_metadata := e_metadata e; e_metadata_bytes := e_metadata_bytes e |}.

(** ** Space *)

Definition used_in (l : list (string * entry)) (t : tier) : Z :=
  list_sum_Z (map (fun kv => if bool_decide (e_tier kv.2 = t) then e_bytes kv.2 else 0) l).
Definition used (s : cache) (t : tier) : Z := used_in (entries s) t.

(** [_remove]; the entry is known to exist. *)
Definition remove (key : string) (item : entry) (evict : bool) (s : cache) : cache :=
  let s := set_entries (od_remove key (entries s)) s in
  if evict then bump "evicted_bytes" (e_bytes item) (bump "evictions" 1 s) else s.

Definition room (t : tier) (size : Z) (s : cache) : bool :=
  (used s t + size <=? capacity s t) && (length (entries s) <? max_entries s)%nat.

Definition evictable (t : tier) (e : entry) : bool :=
  bool_decide (e_tier e = t) && bool_decide (e_state e = Ready) && bool_decide (e_leases e = ∅).

Fixpoint make_room (t : tier) (size : Z) (items : list (string * entry)) (s : cache) : cache * bool :=
  match items with
  | [] => (s, room t size s)
  | (key, item) :: items =>
      if room t size s then (s, true)
      else make_room t size items (if evictable t item then remove key item true s else s)
  end.

Definition space (t : tier) (size : Z) (s : cache) : cache * bool :=
  if capacity s t <? size then (s, false) else make_room t size (entries s) s.

(** [next((t for t in ("ram", "disk") if capacity[t] and _space(t, size)), None)] *)
Definition choose_tier (size : Z) (s : cache) : cache * option tier :=
  let '(s, r) := if capacity s Ram =? 0 then (s, false) else space Ram size s in
  if r then (s, Some Ram)
  else let '(s, d) := if capacity s Disk =? 0 then (s, false) else space Disk size s in
       (s, if d then Some Disk else None).

(** [isinstance(v, int)]: a [bool] is one. *)
Definition as_int (v : pyval) : option Z :=
  match v with PInt z => Some z | PBool b => Some (if b then 1 else 0) | _ => None end.

(** The check of [__init__]. *)
Definition open_cache (ram disk : Z) (limit : pyval) (soft_limit : Z) : res cache :=
  if (Z.min ram disk <? 0) || (ram + disk <=? 0) then Err (ValueError "cache capacity must be positive")
  else match as_int limit with
       | Some n =>
           if n <? 1 then Err (ValueError "positive cache entry limit required")
           else Ok {| ram_capacity := ram; disk_capacity := disk;
                      max_entries := Z.to_nat (if 0 <? soft_limit then Z.min n (Z.max 1 (soft_limit - 128)) else n);
                      entries := []; consumers := ∅; metrics := ∅ |}
       | None => Err (ValueError "positive cache entry limit required")
       end.

Section Cache.
Context (sha256_hex : string -> string).

Definition IDENTITY_KEYS : list string :=
  ["task_sha256"; "generator_sha256"; "configuration"; "namespace"; "seed"; "trial_index";
   "input_contract"; "adapter_version"; "runtime"; "rng_before"].

Definition cache_key (value : pydict) : res string :=
  if negb (same_keys value IDENTITY_KEYS)
     || negb (is_str (get_none "namespace" value) "development"
              || is_str (get_none "namespace" value) "final-verification")
  then Err (ValueError "incomplete cache identity or invalid verification namespace")
  else evidence_digest sha256_hex (PDict value).

(** ** Consumers and leases *)

(** [token] is the [uuid4] the call draws. *)
Definition begin (limit : pyval) (token : string) : stateful cache string :=
  match as_int limit with
  | Some n =>
      if n <? 0 then raising (ValueError "nonnegative consumer copy budget required")
      else do changing (fun s => set_consumers (<[token := {| copy_limit := n; leases := [] |}]> (consumers s)) s);
           returning token
  | None => raising (ValueError "nonnegative consumer copy budget required")
  end.

(** [release] of a known consumer. *)
Definition release (c lease : string) : stateful cache unit :=
  reading (fun s =>
    match consumers s !! c with
    | None => raising (KeyError c)
    | Some record =>
        do changing (fun s => set_consumers
             (<[c := {| copy_limit := copy_limit record; leases := od_remove lease (leases record) |}]> (consumers s)) s);
        match od_get lease (leases record) with
        | Some key =>
            changing (fun s => set_entries (od_update key (with_leases (fun l => l ∖ {[lease]})) (entries s)) s)
        | None => returning tt
        end
    end).

(** Drop every entry that [p] selects, as an aborted generation. *)
Definition drop_entries (p : string -> entry -> bool) (s : cache) : cache :=
  set_entries (filter (fun kv => p kv.1 kv.2 = false) (entries s)) s.

Definition generating_by (c : string) (e : entry) : bool :=
  bool_decide (e_state e = Generating) && bool_decide (e_producer e = c).

Definition end_consumer (c : string) : stateful cache bool :=
  reading (fun s =>
    match consumers s !! c with
    | None => returning false
    | Some record =>
        do for_each (fun kv => release c kv.1) (leases record);
        do changing (drop_entries (fun _ e => generating_by c e));
        do changing (fun s => set_consumers (delete c (consumers s)) s);
        returning true
    end).

(** ** Acquiring *)

Inductive acquired :=
| Wait
| Bypass (reason : string)
| Hit (key lease : string) (item : entry)
| Miss (key : string) (bytes : Z) (t : tier).

(** One critical section of [acquire], up to the wait or to the answer; [over]
    tells whether the waiting time is exhausted and [lease] is the [uuid4] of a
    hit. *)
Definition acquire (c : string) (identity : pydict) (size : pyval) (over : bool) (lease : string)
    : stateful cache acquired :=
  key <~ computing (cache_key identity);
  match as_int size with
  | None => raising (ValueError "invalid cache storage reservation")
  | Some size =>
      do raising_if (size <? 0) (ValueError "invalid cache storage reservation");
      reading (fun s =>
      let item := od_get key (entries s) in
      match item, consumers s !! c with
      | Some {| e_state := Generating |}, None => raising (RuntimeError "consumer cancelled")
      | Some {| e_state := Generating |}, Some _ =>
          if over then do changing (bump "bypasses" 1); returning (Bypass "generation_wait_timeout")
          else returning Wait
      | _, None => raising (KeyError c)
      | Some e, Some record =>
          match traverse (fun kv => match od_get kv.2 (entries s) with
                                    | Some e => Ok (e_bytes e)
                                    | None => Err (KeyError kv.2)
                                    end) (leases record) with
          | Err x => raising x
          | Ok sizes =>
              if copy_limit record <? list_sum_Z sizes + e_bytes e
              then do changing (bump "bypasses" 1); returning (Bypass "consumer_copy_budget")
              else
                do changing (fun s => set_consumers
                     (<[c := {| copy_limit := copy_limit record; leases := leases record ++ [(lease, key)] |}]>
                        (consumers s)) s);
                do changing (fun s => set_entries
                     (od_to_end key (od_update key (with_leases (fun l => l ∪ {[lease]})) (entries s))) s);
                do changing (fun s => bump "generation_bytes_saved" (e_bytes e) (bump "hits" 1 s));
                match e_metadata e with
                | PDict m => do computing (dict_item "generation_seconds" m); returning (Hit key lease e)
                | _ => raising (TypeError "metadata is not a mapping")
                end
          end
      | None, Some _ =>
          do changing (bump "misses" 1);
          reading (fun s =>
          let '(s', t) := choose_tier size s in
          do changing (fun _ => s');
          match t with
          | None => do changing (bump "bypasses" 1); returning (Bypass "capacity_or_pinned_entries")
          | Some t =>
              do changing (fun s => set_entries (entries s ++
                   [(key, {| e_bytes := size; e_tier := t; e_state := Generating; e_producer := c;
                             e_leases := ∅; e_metadata := PNone; e_metadata_bytes := 0 |})]) s);
              returning (Miss key size t)
          end)
      end)
  end.

(** ** Publishing *)

Definition METADATA_BOUND : Z := 128 * 1024.

Definition published (size : Z) (metadata : pyval) (n : Z) (e : entry) : entry :=
  {| e_bytes := size; e_tier := e_tier e; e_state := Ready; e_producer := e_producer e;
     e_leases := e_leases e; e_metadata := metadata; e_metadata_bytes := n |}.

Definition publish (c key : string) (metadata : pyval) (size : Z) : stateful cache bool :=
  reading (fun s =>
    match od_get key (entries s) with
    | None => raising (KeyError key)
    | Some item =>
        do raising_if (negb (generating_by c item) || (size <? 0) || (e_bytes item <? size))
             (ValueError "invalid cache publication");
        text <~ computing (json_dumps metadata);
        let metadata_bytes := Z.of_nat (String.length text) in
        do raising_if (METADATA_BOUND <? metadata_bytes)
             (ValueError "cache metadata exceeds its per-entry bound");
        do changing (fun s => set_entries (od_update key (published size metadata metadata_bytes) (entries s)) s);
        do changing (bump "publications" 1);
        match metadata with
        | PDict m =>
            do computing (dict_item "publication_copy_bytes" m);
            do computing (dict_item "publication_copy_seconds" m);
            returning true
        | _ => raising (TypeError "metadata is not a mapping")
        end
    end).

Definition abort_entry (c key : string) : stateful cache unit :=
  changing (drop_entries (fun k e => bool_decide (k = key) && generating_by c e)).

Definition clear : stateful cache unit :=
  reading (fun s =>
    do raising_if (negb (bool_decide (consumers s = ∅)))
         (RuntimeError "cannot clear a cache with live consumers");
    changing (set_entries [])).

(** ** Requests *)

Inductive request :=
| RBegin (limit : pyval) (token : string)
| RAcquire (c : string) (identity : pydict) (size : pyval) (over : bool) (lease : string)
| RResume (c : string) (identity : pydict) (size : pyval) (over : bool) (lease : string)
| RPublish (c key : string) (metadata : pyval) (size : Z)
| RRelease (c lease : string)
| REnd (c : string)
| RAbort (c key : string)
| RClear.

Inductive answer := Token (t : string) | Acquired (a : acquired) | Flag (b : bool).

(** [dispatch]: every operation but [begin] names a live consumer. *)
Definition known_consumer (c : string) (k : stateful cache answer) : stateful cache answer :=
  reading (fun s =>
    match consumers s !! c with
    | None => raising (ValueError "unknown or retired cache consumer")
    | Some _ => k
    end).

(** [RResume] is an [acquire] that comes back from its wait: [dispatch] checked
    the consumer when the request arrived and does not check it again. *)
Definition dispatch (r : request) : stateful cache answer :=
  match r with
  | RBegin limit token => t <~ begin limit token; returning (Token t)
  | RAcquire c identity size over lease =>
      known_consumer c (a <~ acquire c identity size over lease; returning (Acquired a))
  | RResume c identity size over lease =>
      a <~ acquire c identity size over lease; returning (Acquired a)
  | RPublish c key metadata size => known_consumer c (b <~ publish c key metadata size; returning (Flag b))
  | RRelease c lease => known_consumer c (do release c lease; returning (Flag true))
  | REnd c => known_consumer c (b <~ end_consumer c; returning (Flag b))
  | RAbort c key => known_consumer c (do abort_entry c key; returning (Flag true))
  | RClear => do clear; returning (Flag true)
  end.

Definition serve (l : list request) (s : cache) : cache := fold_left (fun s r => (dispatch r s).1) l s.
End Cache.
