(* ===== verification/InputCacheProofs.v ===== *)
(** * The input cache: atomic changes and the invariant they keep *)

From stdpp Require Import fin_maps fin_map_dom relations.
From S2P Require Import Prelude PyValue StateRes GenerationFailure InputCache.
Local Open Scope Z_scope.

(** ** Ordered dictionaries *)

Section Od.
Context {A : Type}.
Implicit Type l : list (string * A).

Lemma od_get_in k v l : od_get k l = Some v -> (k, v) ∈ l.
Proof.
  induction l as [|[k' w] l IH]; simpl; [done|]. case_bool_decide; [intros [= ->]; subst; by left|].
  intros H'. right. auto.
Qed.

Lemma od_get_key k v l : od_get k l = Some v -> k ∈ map fst l.
Proof. intros H%od_get_in. apply list_elem_of_fmap. by exists (k, v). Qed.

Lemma in_od_get k v l : NoDup (map fst l) -> (k, v) ∈ l -> od_get k l = Some v.
Proof.
  induction l as [|[k' w] l IH]; simpl; intros Hnd Hin; [set_solver|].
  apply NoDup_cons in Hnd as [Hk Hnd]. apply elem_of_cons in Hin as [[= -> ->]|Hin].
  - by rewrite bool_decide_eq_true_2.
  - rewrite bool_decide_eq_false_2; [auto|]. intros ->. apply Hk. apply list_elem_of_fmap. by exists (k', v).
Qed.

Lemma od_get_none k l : od_get k l = None <-> k ∉ map fst l.
Proof.
  induction l as [|[k' w] l IH]; simpl; [set_solver|]. case_bool_decide; set_solver.
Qed.

Lemma filter_keys (p : string * A -> bool) l : NoDup (map fst l) -> NoDup (map fst (filter (fun kv => p kv = false) l)).
Proof.
  induction l as [|[k v] l IH]; simpl; [done|]. intros [Hk Hnd]%NoDup_cons.
  rewrite filter_cons. destruct (decide _); simpl; [|auto]. apply NoDup_cons. split; [|auto].
  intros Hin. apply Hk. apply list_elem_of_fmap in Hin as ([k' w] & -> & Hin).
  apply list_elem_of_filter in Hin as [_ Hin]. apply list_elem_of_fmap. by exists (k', w).
Qed.

Lemma od_get_filter (p : string -> A -> bool) k l : NoDup (map fst l) ->
  od_get k (filter (fun kv => p kv.1 kv.2 = false) l)
  = match od_get k l with Some v => if p k v then None else Some v | None => None end.
Proof.
  induction l as [|[k' v] l IH]; simpl; [done|]. intros [Hk Hnd]%NoDup_cons.
  rewrite filter_cons. simpl. case_bool_decide as E.
  - subst k'. destruct (decide (p k v = false)) as [Hp|Hp]; simpl.
    + by rewrite bool_decide_eq_true_2, Hp.
    + apply not_false_is_true in Hp. rewrite Hp, IH by done. by rewrite (proj2 (od_get_none k l) Hk).
  - destruct (decide (p k' v = false)); simpl; [rewrite bool_decide_eq_false_2 by done|]; auto.
Qed.

Lemma od_get_remove k k' l : od_get k (od_remove k' l) = if bool_decide (k = k') then None else od_get k l.
Proof.
  unfold od_remove. induction l as [|[k0 v] l IH]; simpl; [by case_bool_decide|].
  rewrite filter_cons. simpl. destruct (decide (k0 = k')) as [->|Hne].
  - rewrite bool_decide_eq_true_2 by done. rewrite decide_False by done. rewrite IH.
    by repeat case_bool_decide.
  - rewrite (bool_decide_eq_false_2 (k0 = k')) by done. rewrite decide_True by done. simpl. rewrite IH.
    destruct (decide (k = k0)) as [->|]; [by rewrite (bool_decide_eq_true_2 (k0 = k0)), (bool_decide_eq_false_2 (k0 = k'))|].
    by rewrite (bool_decide_eq_false_2 (k = k0)).
Qed.

Lemma od_get_update k k' f l : od_get k (od_update k' f l) = if bool_decide (k = k') then f <$> od_get k l else od_get k l.
Proof.
  unfold od_update. induction l as [|[k0 v] l IH]; simpl; [by case_bool_decide|].
  destruct (decide (k0 = k')) as [->|Hne].
  - rewrite (bool_decide_eq_true_2 (k' = k')) by done. simpl. rewrite IH. by case_bool_decide.
  - rewrite (bool_decide_eq_false_2 (k0 = k')) by done. simpl. rewrite IH.
    destruct (decide (k = k0)) as [->|]; [by rewrite (bool_decide_eq_true_2 (k0 = k0)), (bool_decide_eq_false_2 (k0 = k'))|].
    by rewrite (bool_decide_eq_false_2 (k = k0)).
Qed.

Lemma od_update_keys k f l : map fst (od_update k f l) = map fst l.
Proof. unfold od_update. rewrite map_map. apply map_ext. intros [k' v]. by case_bool_decide. Qed.

Lemma od_remove_keys k l : NoDup (map fst l) -> NoDup (map fst (od_remove k l)).
Proof. apply (filter_keys (fun kv => bool_decide (kv.1 = k))). Qed.

Lemma od_get_app k l l' : od_get k (l ++ l') = match od_get k l with Some v => Some v | None => od_get k l' end.
Proof. induction l as [|[k' v] l IH]; simpl; [done|]. by case_bool_decide. Qed.

Lemma od_to_end_perm k l : NoDup (map fst l) -> od_to_end k l ≡ₚ l.
Proof.
  unfold od_to_end. intros Hnd. destruct (od_get k l) as [v|] eqn:E; [|done].
  induction l as [|[k' w] l IH]; simpl in *; [done|]. apply NoDup_cons in Hnd as [Hk Hnd].
  unfold od_remove in *. rewrite filter_cons. simpl. case_bool_decide as Ek.
  - subst k'. injection E as ->. rewrite bool_decide_eq_true_2 by done. rewrite decide_False by done.
    assert (filter (fun kv => bool_decide (kv.1 = k) = false) l = l) as ->.
    { clear IH. induction l as [|[k' w] l IHl]; [done|]. simpl in Hk. rewrite filter_cons. simpl.
      rewrite bool_decide_eq_false_2 by set_solver. rewrite decide_True by done. f_equal. apply IHl; [set_solver|].
      by apply NoDup_cons in Hnd as []. }
    by rewrite Permutation_app_comm.
  - rewrite bool_decide_eq_false_2 by congruence. rewrite decide_True by done. simpl. f_equiv. auto.
Qed.

Lemma od_get_perm k l l' : NoDup (map fst l) -> l ≡ₚ l' -> od_get k l = od_get k l'.
Proof.
  intros Hnd Hp. assert (NoDup (map fst l')) as Hnd' by (by rewrite <- Hp).
  destruct (od_get k l) as [v|] eqn:E.
  - symmetry. apply in_od_get; [done|]. rewrite <- Hp. by apply od_get_in.
  - symmetry. apply od_get_none. rewrite <- Hp. by apply od_get_none.
Qed.
End Od.

(** ** Sizes *)

Lemma used_in_perm l l' t : l ≡ₚ l' -> used_in l t = used_in l' t.
Proof. intros H. unfold used_in. by rewrite H. Qed.

Lemma used_in_app l l' t : used_in (l ++ l') t = used_in l t + used_in l' t.
Proof. unfold used_in. by rewrite map_app, list_sum_Z_app. Qed.

Lemma used_in_filter (p : string * entry -> bool) l t : Forall (fun kv => 0 <= e_bytes kv.2) l ->
  used_in (filter (fun kv => p kv = false) l) t <= used_in l t.
Proof.
  unfold used_in. induction 1 as [|kv l Hkv Hl IH]; [done|]. rewrite filter_cons.
  destruct (decide _); simpl; rewrite ?list_sum_Z_cons; case_bool_decide; lia.
Qed.

(** An update that does not grow the entry. *)
Lemma used_in_update k f l t : (forall e, od_get k l = Some e -> e_tier (f e) = e_tier e /\ e_bytes (f e) <= e_bytes e) ->
  NoDup (map fst l) -> used_in (od_update k f l) t <= used_in l t.
Proof.
  unfold used_in, od_update. induction l as [|[k' e] l IH]; intros Hf Hnd; [done|].
  simpl in *. apply NoDup_cons in Hnd as [Hk Hnd]. rewrite !list_sum_Z_cons.
  destruct (decide (k' = k)) as [->|Hne].
  - rewrite (bool_decide_eq_true_2 (k = k)) by done.
    destruct (Hf e) as [Ht Hb]; [by rewrite bool_decide_eq_true_2|].
    assert (map (fun kv => if bool_decide (kv.1 = k) then (kv.1, f kv.2) else kv) l = l) as ->.
    { clear -Hk. induction l as [|[k0 w] l IHl]; [done|]. simpl in *. rewrite bool_decide_eq_false_2 by set_solver.
      f_equal. apply IHl. set_solver. }
    simpl. rewrite Ht. repeat case_bool_decide; try done; lia.
  - rewrite (bool_decide_eq_false_2 (k' = k)) by done.
    assert (forall e, od_get k l = Some e -> e_tier (f e) = e_tier e /\ e_bytes (f e) <= e_bytes e) as Hf'.
    { intros e' He'. apply Hf. by rewrite bool_decide_eq_false_2. }
    specialize (IH Hf' Hnd). simpl. lia.
Qed.

(** ** The invariant *)

Definition size_of (l : list (string * entry)) (k : string) : Z :=
  match od_get k l with Some e => e_bytes e | None => 0 end.

(** The bytes a consumer's leases cover. *)
Definition held_bytes (l : list (string * entry)) (r : consumer) : Z :=
  list_sum_Z (map (fun kv => size_of l kv.2) (leases r)).

Record Cached (s : cache) : Prop := {
  ca_keys : NoDup (map fst (entries s));
  ca_nonneg : forall k e, od_get k (entries s) = Some e -> 0 <= e_bytes e;
  ca_capacity : forall t, used s t <= capacity s t;
  ca_length : (length (entries s) <= max_entries s)%nat;
  ca_lease_keys : forall c r, consumers s !! c = Some r -> NoDup (map fst (leases r));
  ca_leased : forall c r l k, consumers s !! c = Some r -> od_get l (leases r) = Some k ->
    exists e, od_get k (entries s) = Some e /\ e_state e = Ready /\ l ∈ e_leases e;
  ca_holder : forall k e l, od_get k (entries s) = Some e -> l ∈ e_leases e ->
    exists c r, consumers s !! c = Some r /\ od_get l (leases r) = Some k;
  ca_owner : forall c c' r r' l k k', consumers s !! c = Some r -> consumers s !! c' = Some r' ->
    od_get l (leases r) = Some k -> od_get l (leases r') = Some k' -> c = c';
  ca_generating : forall k e, od_get k (entries s) = Some e -> e_state e = Generating ->
    e_leases e = ∅ /\ is_Some (consumers s !! e_producer e);
  ca_copies : forall c r, consumers s !! c = Some r -> held_bytes (entries s) r <= copy_limit r }.

Definition replace_leases (r : consumer) (l : list (string * string)) : consumer :=
  {| copy_limit := copy_limit r; leases := l |}.

Definition leased_state (c : string) (r : consumer) (l k : string) (s : cache) : cache :=
  set_entries (od_to_end k (od_update k (with_leases (fun x => x ∪ {[l]})) (entries s)))
    (set_consumers (<[c := replace_leases r (leases r ++ [(l, k)])]> (consumers s)) s).

Definition unleased_state (c : string) (r : consumer) (l : string) (s : cache) : cache :=
  let s' := set_consumers (<[c := replace_leases r (od_remove l (leases r))]> (consumers s)) s in
  match od_get l (leases r) with
  | Some k => set_entries (od_update k (with_leases (fun x => x ∖ {[l]})) (entries s)) s'
  | None => s'
  end.

(** [may c l] tells which leases a request may give back. *)
Inductive kstep (may : string -> string -> Prop) (s : cache) : cache -> Prop :=
| K_begin c n : consumers s !! c = None -> 0 <= n ->
    kstep may s (set_consumers (<[c := {| copy_limit := n; leases := [] |}]> (consumers s)) s)
| K_drop p : (forall k e, od_get k (entries s) = Some e -> p k e = true -> e_leases e = ∅) ->
    kstep may s (drop_entries p s)
| K_lease c r l k e : consumers s !! c = Some r -> od_get k (entries s) = Some e -> e_state e = Ready ->
    (forall k e, od_get k (entries s) = Some e -> l ∉ e_leases e) ->
    held_bytes (entries s) r + e_bytes e <= copy_limit r -> kstep may s (leased_state c r l k s)
| K_unlease c r l : may c l -> consumers s !! c = Some r -> kstep may s (unleased_state c r l s)
| K_add k e : od_get k (entries s) = None -> 0 <= e_bytes e -> e_state e = Generating -> e_leases e = ∅ ->
    is_Some (consumers s !! e_producer e) -> room (e_tier e) (e_bytes e) s = true ->
    kstep may s (set_entries (entries s ++ [(k, e)]) s)
| K_publish k e size metadata n : od_get k (entries s) = Some e -> e_state e = Generating ->
    0 <= size <= e_bytes e ->
    kstep may s (set_entries (od_update k (published size metadata n) (entries s)) s)
| K_retire c r : consumers s !! c = Some r -> leases r = [] ->
    (forall k e, od_get k (entries s) = Some e -> generating_by c e = false) ->
    kstep may s (set_consumers (delete c (consumers s)) s)
| K_bump name n : kstep may s (bump name n s).

Lemma entries_nonneg s : Cached s -> Forall (fun kv => 0 <= e_bytes kv.2) (entries s).
Proof.
  intros HC. apply Forall_forall. intros [k e] Hin. apply (ca_nonneg s HC k).
  apply in_od_get; [apply HC|done].
Qed.

Lemma held_ext l l' r : (forall x k, od_get x (leases r) = Some k -> size_of l k = size_of l' k) ->
  NoDup (map fst (leases r)) -> held_bytes l r = held_bytes l' r.
Proof.
  intros H Hnd. unfold held_bytes. f_equal. apply map_ext_in. intros [x k] Hin. simpl.
  apply (H x). apply in_od_get; [done|by apply list_elem_of_In].
Qed.

Lemma cached_begin s c n : Cached s -> consumers s !! c = None -> 0 <= n ->
  Cached (set_consumers (<[c := {| copy_limit := n; leases := [] |}]> (consumers s)) s).
Proof.
  intros [] Hc Hn. split; try done; simpl.
  - intros c' r. rewrite lookup_insert. destruct (decide (c = c')); [|eauto]. intros [= <-]. apply NoDup_nil_2.
  - intros c' r l k. rewrite lookup_insert. destruct (decide (c = c')); [|eauto]. by intros [= <-].
  - intros k e l He Hl. destruct (ca_holder0 k e l He Hl) as (c' & r & Hc' & Hr).
    exists c', r. rewrite lookup_insert_ne; [done|]. congruence.
  - intros c1 c2 r1 r2 l k k'. rewrite !lookup_insert.
    destruct (decide (c = c1)), (decide (c = c2)); try (intros [= <-]); try (intros ? [= <-]); try done; eauto.
  - intros k e He Hs. destruct (ca_generating0 k e He Hs) as [Hl [r Hr]]. split; [done|].
    rewrite lookup_insert. destruct (decide (c = e_producer e)); eauto.
  - intros c' r. rewrite lookup_insert. destruct (decide (c = c')); [|eauto]. intros [= <-]. exact Hn.
Qed.

Lemma cached_drop s p : Cached s ->
  (forall k e, od_get k (entries s) = Some e -> p k e = true -> e_leases e = ∅) -> Cached (drop_entries p s).
Proof.
  intros HC Hp. pose proof HC as [].
  assert (forall k e, od_get k (entries (drop_entries p s)) = Some e -> od_get k (entries s) = Some e /\ p k e = false) as Hg.
  { intros k e. simpl. rewrite od_get_filter by done. destruct (od_get k (entries s)) as [e'|]; [|done].
    destruct (p k e') eqn:E; [done|]. by intros [= <-]. }
  assert (forall k e l, od_get k (entries s) = Some e -> l ∈ e_leases e -> od_get k (entries (drop_entries p s)) = Some e) as Hk.
  { intros k e l He Hl. simpl. rewrite od_get_filter, He by done. destruct (p k e) eqn:E; [|done].
    rewrite (Hp k e He E) in Hl. set_solver. }
  split; try done.
  - by apply (filter_keys (fun kv => p kv.1 kv.2)).
  - intros k e He. apply Hg in He as [He _]. eauto.
  - intros t. unfold used. etransitivity; [by apply (used_in_filter (fun kv => p kv.1 kv.2)), entries_nonneg|].
    apply ca_capacity0.
  - etransitivity; [apply length_filter|done].
  - intros c r l k Hc Hl. destruct (ca_leased0 c r l k Hc Hl) as (e & He & Hs & Hin). exists e. eauto.
  - intros k e l He Hl. apply Hg in He as [He _]. eauto.
  - intros k e He Hs. apply Hg in He as [He _]. eauto.
  - intros c r Hc. rewrite <- (held_ext (entries s)); [by apply (ca_copies0 c)| |by eapply ca_lease_keys0].
    intros x k Hx. destruct (ca_leased0 c r x k Hc Hx) as (e & He & _ & Hin). unfold size_of.
    by rewrite He, (Hk k e x He Hin).
Qed.

Lemma cached_bump s name n : Cached s -> Cached (bump name n s).
Proof. intros []. by split. Qed.

Lemma od_get_snoc {A} k k' (v : A) l : od_get k l = None \/ k' <> k ->
  od_get k' (l ++ [(k, v)]) = if bool_decide (k' = k) then Some v else od_get k' l.
Proof.
  intros H. rewrite od_get_app. simpl. case_bool_decide as E.
  - subst. destruct H as [->|H]; [done|by destruct H].
  - by destruct (od_get k' l).
Qed.

(** The entries after a lease: only the leases of [k] change. *)
Lemma leased_entries s k f k' : NoDup (map fst (entries s)) ->
  od_get k' (od_to_end k (od_update k f (entries s)))
  = if bool_decide (k' = k) then f <$> od_get k' (entries s) else od_get k' (entries s).
Proof.
  intros Hnd. rewrite <- od_get_update. symmetry. apply od_get_perm.
  - by rewrite od_update_keys.
  - symmetry. apply od_to_end_perm. by rewrite od_update_keys.
Qed.

Lemma cached_lease s c r l k e : Cached s -> consumers s !! c = Some r -> od_get k (entries s) = Some e ->
  e_state e = Ready -> (forall k e, od_get k (entries s) = Some e -> l ∉ e_leases e) ->
  held_bytes (entries s) r + e_bytes e <= copy_limit r -> Cached (leased_state c r l k s).
Proof.
  intros HC Hc He Hs Hl Hb. pose proof HC as [].
  set (f := with_leases (fun x => x ∪ {[l]})).
  pose proof (fun k' => leased_entries s k f k' ca_keys0) as Hg.
  assert (od_to_end k (od_update k f (entries s)) ≡ₚ od_update k f (entries s)) as Hperm
    by (apply od_to_end_perm; by rewrite od_update_keys).
  assert (forall c r x, consumers s !! c = Some r -> od_get x (leases r) <> None -> x <> l) as Hfresh.
  { intros c' r' x Hc' Hx ->. destruct (od_get l (leases r')) as [k'|] eqn:E; [|done].
    destruct (ca_leased0 c' r' l k' Hc' E) as (e' & He' & _ & Hin). by apply (Hl k' e'). }
  assert (od_get l (leases r) = None) as Hnl.
  { destruct (od_get l (leases r)) eqn:E; [|done]. exfalso. eapply (Hfresh c r l); [done| |done]. by rewrite E. }
  assert (forall k', size_of (od_to_end k (od_update k f (entries s))) k' = size_of (entries s) k') as Hsz.
  { intros k'. unfold size_of. rewrite Hg. case_bool_decide; [|done]. by destruct (od_get k' (entries s)). }
  unfold leased_state. fold f. split; simpl.
  - rewrite Hperm, od_update_keys. done.
  - intros k' e'. rewrite Hg. case_bool_decide; [|eauto]. subst k'. rewrite He. intros [= <-]. simpl. eauto.
  - intros t. unfold used. simpl. rewrite (used_in_perm _ _ t Hperm).
    etransitivity; [apply used_in_update; [|done]|apply ca_capacity0]. intros e' _. split; [done|simpl; lia].
  - rewrite Hperm. unfold od_update. by rewrite length_map.
  - intros c' r'. rewrite lookup_insert. destruct (decide (c = c')); [|eauto]. intros [= <-]. simpl.
    rewrite map_app. simpl. apply NoDup_app. split; [eauto|]. split; [|apply NoDup_singleton].
    intros x Hx ->%list_elem_of_singleton. by apply od_get_none in Hnl.
  - intros c' r' x k'. rewrite lookup_insert. destruct (decide (c = c')) as [<-|Hne].
    + intros [= <-]. simpl. rewrite od_get_snoc by auto. case_bool_decide as Ex.
      * intros [= <-]. subst x. exists (f e). rewrite Hg, bool_decide_eq_true_2, He by done.
        simpl. split; [done|]. split; [done|set_solver].
      * intros Hx. destruct (ca_leased0 c r x k' Hc Hx) as (e' & He' & Hs' & Hin').
        rewrite Hg. case_bool_decide; [|eauto]. rewrite He'. exists (f e'). simpl. split; [done|]. split; [done|set_solver].
    + intros Hc' Hx. destruct (ca_leased0 c' r' x k' Hc' Hx) as (e' & He' & Hs' & Hin').
      rewrite Hg. case_bool_decide; [|eauto]. rewrite He'. exists (f e'). simpl. split; [done|]. split; [done|set_solver].
  - intros k' e' x. rewrite Hg. intros He' Hx.
    assert (x = l /\ k' = k \/ exists e0, od_get k' (entries s) = Some e0 /\ x ∈ e_leases e0) as [[-> ->]|(e0 & He0 & Hx0)].
    { case_bool_decide; [|eauto]. subst k'. rewrite He in He'. injection He' as <-. simpl in Hx. set_solver. }
    + exists c, (replace_leases r (leases r ++ [(l, k)])). rewrite lookup_insert_eq. split; [done|]. simpl.
      rewrite od_get_snoc by auto. by rewrite bool_decide_eq_true_2.
    + destruct (ca_holder0 k' e0 x He0 Hx0) as (c' & r' & Hc' & Hr').
      destruct (decide (c = c')) as [<-|Hne].
      * exists c, (replace_leases r (leases r ++ [(l, k)])). rewrite lookup_insert_eq. split; [done|]. simpl.
        simplify_eq. rewrite od_get_app, Hr'. done.
      * exists c', r'. by rewrite lookup_insert_ne.
  - assert (forall c' r' x k', <[c:=replace_leases r (leases r ++ [(l, k)])]> (consumers s) !! c' = Some r' ->
      od_get x (leases r') = Some k' -> x = l /\ c' = c \/ exists r0 k0, consumers s !! c' = Some r0 /\ od_get x (leases r0) = Some k0) as Hback.
    { intros c' r' x k'. rewrite lookup_insert. destruct (decide (c = c')) as [<-|]; [|eauto].
      intros [= <-]. simpl. rewrite od_get_snoc by auto. case_bool_decide; [by left|eauto]. }
    intros c1 c2 r1 r2 x k1 k2 H1 H2 Hx1 Hx2.
    destruct (Hback _ _ _ _ H1 Hx1) as [[-> ->]|(q1 & j1 & Hq1 & Hj1)], (Hback _ _ _ _ H2 Hx2) as [[Hx ->]|(q2 & j2 & Hq2 & Hj2)].
    + done.
    + exfalso. eapply (Hfresh c2 q2 l); [done| |done]. by rewrite Hj2.
    + exfalso. subst x. eapply (Hfresh c1 q1 l); [done| |done]. by rewrite Hj1.
    + eauto.
  - intros k' e'. rewrite Hg. intros He' Hs'.
    assert (exists e0, od_get k' (entries s) = Some e0 /\ e_state e0 = Generating /\ (k' = k \/ e0 = e')) as (e0 & He0 & Hs0 & H0).
    { case_bool_decide; [|eauto]. subst k'. rewrite He in He'. injection He' as <-. simpl in Hs'. eauto. }
    destruct H0 as [->|<-]; [simplify_eq; congruence|]. destruct (ca_generating0 k' e0 He0 Hs0) as [Hle [q Hq]].
    split; [done|]. rewrite lookup_insert. destruct (decide (c = e_producer e0)); eauto.
  - intros c' r'. rewrite lookup_insert. destruct (decide (c = c')) as [<-|Hne].
    + intros [= <-]. unfold held_bytes. simpl. rewrite map_app, list_sum_Z_app. simpl.
      rewrite list_sum_Z_cons, list_sum_Z_nil, Hsz. unfold size_of at 2. rewrite He.
      assert (list_sum_Z (map (fun kv => size_of (od_to_end k (od_update k f (entries s))) kv.2) (leases r))
              = held_bytes (entries s) r) as ->; [|lia].
      unfold held_bytes. f_equal. apply map_ext. intros [x k']. apply Hsz.
    + intros Hc'. rewrite <- (held_ext (entries s)); [eauto|by intros; rewrite Hsz|eauto].
Qed.

(** [held_bytes] without one lease. *)
Lemma held_remove l x r : Forall (fun kv => 0 <= e_bytes kv.2) l ->
  held_bytes l (replace_leases r (od_remove x (leases r))) <= held_bytes l r.
Proof.
  intros Hl. assert (forall k, 0 <= size_of l k) as Hs.
  { intros k. unfold size_of. destruct (od_get k l) as [e|] eqn:E; [|lia]. apply od_get_in in E.
    rewrite Forall_forall in Hl. by apply (Hl (k, e)). }
  unfold held_bytes. simpl. unfold od_remove. induction (leases r) as [|[y k] ls IH]; [done|].
  rewrite filter_cons. simpl. destruct (decide _); simpl; rewrite ?list_sum_Z_cons; pose proof (Hs k); lia.
Qed.

Lemma cached_unlease s c r l : Cached s -> consumers s !! c = Some r -> Cached (unleased_state c r l s).
Proof.
  intros HC Hc. pose proof HC as [].
  set (f := with_leases (fun x => x ∖ {[l]})).
  set (r' := replace_leases r (od_remove l (leases r))).
  (* The lookups of the new entries: a lease is only ever taken away from [k]. *)
  set (new := match od_get l (leases r) with Some k => od_update k f (entries s) | None => entries s end).
  assert (unleased_state c r l s = set_entries new (set_consumers (<[c := r']> (consumers s)) s)) as ->.
  { unfold unleased_state, new. destruct (od_get l (leases r)); [done|]. by destruct s. }
  assert (forall k', od_get k' new = if bool_decide (od_get l (leases r) = Some k')
            then f <$> od_get k' (entries s) else od_get k' (entries s)) as Hg.
  { intros k'. unfold new. destruct (od_get l (leases r)) as [k|]; [|by rewrite bool_decide_eq_false_2].
    rewrite od_get_update. destruct (decide (k' = k)) as [->|]; [by rewrite !bool_decide_eq_true_2|].
    rewrite !bool_decide_eq_false_2; congruence. }
  assert (map fst new = map fst (entries s)) as Hkeys.
  { unfold new. destruct (od_get l (leases r)); [apply od_update_keys|done]. }
  assert (forall k', size_of new k' = size_of (entries s) k') as Hsz.
  { intros k'. unfold size_of. rewrite Hg. case_bool_decide; [|done]. by destruct (od_get k' (entries s)). }
  assert (forall c' q x k', consumers s !! c' = Some q -> od_get x (leases q) = Some k' -> c' <> c \/ x <> l ->
            exists e, od_get k' new = Some e /\ e_state e = Ready /\ x ∈ e_leases e) as Hkept.
  { intros c' q x k' Hc' Hx Hne. destruct (ca_leased0 c' q x k' Hc' Hx) as (e & He & Hs & Hin).
    rewrite Hg. case_bool_decide as E; [|eauto]. rewrite He. exists (f e). split; [done|]. split; [done|].
    simpl. apply elem_of_difference. split; [done|]. intros ->%elem_of_singleton.
    destruct Hne as [Hne|Hne]; [|done]. apply Hne. eapply (ca_owner0 c' c q r l); eauto. }
  assert (forall c' q x k', <[c:=r']> (consumers s) !! c' = Some q -> od_get x (leases q) = Some k' ->
            exists q0, consumers s !! c' = Some q0 /\ od_get x (leases q0) = Some k' /\ (c' <> c \/ x <> l)) as Hback.
  { intros c' q x k'. rewrite lookup_insert. destruct (decide (c = c')) as [<-|]; [|eauto 6].
    intros [= <-]. simpl. rewrite od_get_remove. case_bool_decide; [done|]. eauto. }
  split; simpl.
  - by rewrite Hkeys.
  - intros k' e. rewrite Hg. case_bool_decide; [|eauto]. destruct (od_get k' (entries s)) eqn:E; [|done].
    intros [= <-]. simpl. eauto.
  - intros t. unfold used. simpl. etransitivity; [|apply ca_capacity0]. unfold new.
    destruct (od_get l (leases r)); [|done]. apply used_in_update; [|done]. intros e _. split; [done|simpl; lia].
  - assert (length new = length (entries s)) as ->; [|done].
    rewrite <- (length_map fst new), Hkeys. by rewrite length_map.
  - intros c' q. rewrite lookup_insert. destruct (decide (c = c')); [|eauto]. intros [= <-].
    apply od_remove_keys. eauto.
  - intros c' q x k' Hq Hx. destruct (Hback c' q x k' Hq Hx) as (q0 & Hq0 & Hx0 & Hne). eauto.
  - intros k' e x. rewrite Hg. intros He Hx.
    assert (exists e0, od_get k' (entries s) = Some e0 /\ x ∈ e_leases e0 /\ (od_get l (leases r) = Some k' -> x <> l)) as (e0 & He0 & Hx0 & Hne).
    { case_bool_decide as E; [|by exists e].
      destruct (od_get k' (entries s)) as [e0|]; [|done]. injection He as <-. simpl in Hx.
      apply elem_of_difference in Hx as [Hx Hne]. exists e0. split; [done|]. split; [done|].
      intros _ ->. apply Hne. by apply elem_of_singleton. }
    destruct (ca_holder0 k' e0 x He0 Hx0) as (c' & q & Hq & Hxq).
    destruct (decide (c = c')) as [<-|Hn].
    + simplify_eq. exists c, r'. rewrite lookup_insert_eq. split; [done|]. simpl. rewrite od_get_remove.
      rewrite bool_decide_eq_false_2; [done|]. intros ->. by apply Hne.
    + exists c', q. by rewrite lookup_insert_ne.
  - intros c1 c2 r1 r2 x k1 k2 H1 H2 Hx1 Hx2.
    destruct (Hback _ _ _ _ H1 Hx1) as (q1 & Hq1 & Hj1 & _), (Hback _ _ _ _ H2 Hx2) as (q2 & Hq2 & Hj2 & _). eauto.
  - intros k' e. rewrite Hg. intros He Hs.
    assert (exists e0, od_get k' (entries s) = Some e0 /\ e_state e0 = Generating /\ e_producer e = e_producer e0
              /\ (e_leases e0 = ∅ -> e_leases e = ∅)) as (e0 & He0 & Hs0 & Hp & Hle).
    { case_bool_decide as E; [|eauto]. destruct (od_get k' (entries s)) as [e0|]; [|done]. injection He as <-.
      exists e0. split; [done|]. split; [done|]. split; [done|]. simpl. intros ->. set_solver. }
    destruct (ca_generating0 k' e0 He0 Hs0) as [Hl0 [q Hq]]. split; [auto|]. rewrite Hp.
    rewrite lookup_insert. destruct (decide (c = e_producer e0)); eauto.
  - intros c' q. rewrite lookup_insert. destruct (decide (c = c')) as [<-|].
    + intros [= <-]. etransitivity; [|apply (ca_copies0 c r Hc)].
      etransitivity; [|apply (held_remove (entries s) l r), entries_nonneg; done].
      unfold held_bytes. apply Z.eq_le_incl. f_equal. apply map_ext. intros [x k']. apply Hsz.
    + intros Hq. rewrite <- (held_ext (entries s)); [eauto|by intros; rewrite Hsz|eauto].
Qed.

Lemma cached_add s k e : Cached s -> od_get k (entries s) = None -> 0 <= e_bytes e ->
  e_state e = Generating -> e_leases e = ∅ -> is_Some (consumers s !! e_producer e) ->
  room (e_tier e) (e_bytes e) s = true -> Cached (set_entries (entries s ++ [(k, e)]) s).
Proof.
  intros HC Hn Hb Hs Hl Hp Hr. pose proof HC as []. unfold room in Hr. destr_bool.
  assert (forall k', od_get k' (entries s ++ [(k, e)]) = if bool_decide (k' = k) then Some e else od_get k' (entries s)) as Hg
    by (intros; apply od_get_snoc; auto).
  assert (forall c r x k', consumers s !! c = Some r -> od_get x (leases r) = Some k' -> k' <> k) as Hne.
  { intros c r x k' Hc Hx ->. destruct (ca_leased0 c r x k Hc Hx) as (e' & He' & _). congruence. }
  split; simpl; try done.
  - rewrite map_app. apply NoDup_app. split; [done|]. split; [|apply NoDup_singleton].
    intros x Hx ->%list_elem_of_singleton. by apply od_get_none in Hn.
  - intros k' e'. rewrite Hg. case_bool_decide; [by intros [= <-]|eauto].
  - intros t. change (capacity (set_entries (entries s ++ [(k, e)]) s) t) with (capacity s t).
    unfold used. simpl. rewrite used_in_app. unfold used_in at 2. simpl.
    rewrite list_sum_Z_cons, list_sum_Z_nil. case_bool_decide as Et; [subst t; unfold used in *; lia|].
    rewrite Z.add_0_r. pose proof (ca_capacity0 t) as Ht. unfold used in Ht. lia.
  - rewrite length_app. simpl. lia.
  - intros c r x k' Hc Hx. rewrite Hg, bool_decide_eq_false_2; [eauto|by eapply Hne].
  - intros k' e' x. rewrite Hg. case_bool_decide; [|eauto]. intros [= <-]. rewrite Hl. set_solver.
  - intros k' e'. rewrite Hg. case_bool_decide; [|eauto]. intros [= <-] _. done.
  - intros c r Hc. rewrite <- (held_ext (entries s)); [eauto| |eauto].
    intros x k' Hx. unfold size_of. rewrite Hg, bool_decide_eq_false_2; [done|by eapply Hne].
Qed.

Lemma cached_publish s k e size metadata n : Cached s -> od_get k (entries s) = Some e ->
  e_state e = Generating -> 0 <= size <= e_bytes e ->
  Cached (set_entries (od_update k (published size metadata n) (entries s)) s).
Proof.
  intros HC He Hs Hsz. pose proof HC as []. destruct (ca_generating0 k e He Hs) as [Hl Hp].
  set (f := published size metadata n).
  assert (forall k', od_get k' (od_update k f (entries s)) = if bool_decide (k' = k) then f <$> od_get k' (entries s) else od_get k' (entries s)) as Hg
    by (intros; apply od_get_update).
  assert (forall c r x k', consumers s !! c = Some r -> od_get x (leases r) = Some k' -> k' <> k) as Hne.
  { intros c r x k' Hc Hx ->. destruct (ca_leased0 c r x k Hc Hx) as (e' & He' & Hs' & _). congruence. }
  split; simpl; try done.
  - by rewrite od_update_keys.
  - intros k' e'. rewrite Hg. case_bool_decide; [|eauto]. subst k'. rewrite He. intros [= <-]. simpl. lia.
  - intros t. unfold used. simpl. etransitivity; [apply used_in_update; [|done]|apply ca_capacity0].
    intros e' He'. simplify_eq. split; [done|simpl; lia].
  - unfold od_update. by rewrite length_map.
  - intros c r x k' Hc Hx. rewrite Hg, bool_decide_eq_false_2; [eauto|by eapply Hne].
  - intros k' e' x. rewrite Hg. case_bool_decide; [|eauto]. subst k'. rewrite He. intros [= <-]. simpl.
    rewrite Hl. set_solver.
  - intros k' e'. rewrite Hg. case_bool_decide; [|eauto]. subst k'. rewrite He. by intros [= <-].
  - intros c r Hc. rewrite <- (held_ext (entries s)); [eauto| |eauto].
    intros x k' Hx. unfold size_of. rewrite Hg, bool_decide_eq_false_2; [done|by eapply Hne].
Qed.

Lemma cached_retire s c r : Cached s -> consumers s !! c = Some r -> leases r = [] ->
  (forall k e, od_get k (entries s) = Some e -> generating_by c e = false) ->
  Cached (set_consumers (delete c (consumers s)) s).
Proof.
  intros HC Hc Hl Hg. pose proof HC as []. split; simpl; try done.
  - intros c' q [_ Hq]%lookup_delete_Some. eauto.
  - intros c' q x k [_ Hq]%lookup_delete_Some. eauto.
  - intros k e x He Hx. destruct (ca_holder0 k e x He Hx) as (c' & q & Hq & Hxq). exists c', q.
    rewrite lookup_delete_ne; [done|]. intros <-. simplify_eq. by rewrite Hl in Hxq.
  - intros c1 c2 r1 r2 x k1 k2 [_ H1]%lookup_delete_Some [_ H2]%lookup_delete_Some. eauto.
  - intros k e He Hs. destruct (ca_generating0 k e He Hs) as [Hle Hp]. split; [done|].
    rewrite lookup_delete_ne; [done|]. intros ->. pose proof (Hg k e He) as H. unfold generating_by in H.
    by rewrite !bool_decide_eq_true_2 in H.
  - intros c' q [_ Hq]%lookup_delete_Some. eauto.
Qed.

Lemma kstep_cached may s s' : kstep may s s' -> Cached s -> Cached s'.
Proof.
  intros [] HC.
  - by apply cached_begin.
  - by apply cached_drop.
  - by eapply cached_lease.
  - by apply cached_unlease.
  - by apply cached_add.
  - by eapply cached_publish.
  - by eapply cached_retire.
  - by apply cached_bump.
Qed.

(** * The input cache: its requests refine the atomic changes *)

Lemma ksteps_cached may s s' : rtc (kstep may) s s' -> Cached s -> Cached s'.
Proof. induction 1; eauto using kstep_cached. Qed.

(** ** Making room *)

Section Room.
Context (may : string -> string -> Prop).
Local Abbreviation ksteps := (rtc (kstep may)).

(** What eviction keeps: the consumers, the capacities, the keys that are absent. *)
Definition evicted (s s' : cache) : Prop :=
  ksteps s s' /\ consumers s' = consumers s /\
  forall k, od_get k (entries s) = None -> od_get k (entries s') = None.

Lemma evicted_refl s : evicted s s.
Proof. by repeat split. Qed.
Lemma evicted_trans s t u : evicted s t -> evicted t u -> evicted s u.
Proof.
  intros (A & B & C) (D & E & F). split; [by etransitivity|]. split; [congruence|auto].
Qed.

Lemma remove_evicts key item s : Cached s -> od_get key (entries s) = Some item -> e_leases item = ∅ ->
  evicted s (remove key item true s) /\
  forall k, od_get k (entries (remove key item true s)) = if bool_decide (k = key) then None else od_get k (entries s).
Proof.
  intros HC Hi Hl.
  assert (forall k, od_get k (entries (remove key item true s)) = if bool_decide (k = key) then None else od_get k (entries s)) as Hg
    by (intros k; apply od_get_remove).
  split; [|done]. split; [|split; [done|]].
  - eapply rtc_l; [|eapply rtc_l; [apply K_bump|apply rtc_once, K_bump]].
    set (p := fun (k : string) (_ : entry) => bool_decide (k = key)). apply (K_drop may s p).
    unfold p. intros k e He Hk. apply bool_decide_eq_true in Hk as ->. congruence.
  - intros k Hk. rewrite Hg. by case_bool_decide.
Qed.

Lemma make_room_spec t size items s : Cached s ->
  (forall k v e, (k, v) ∈ items -> od_get k (entries s) = Some e -> v = e) ->
  (forall k v, (k, v) ∈ items -> NoDup (map fst items) -> od_get k (entries s) = Some v) ->
  NoDup (map fst items) ->
  let '(s', r) := make_room t size items s in
  evicted s s' /\ (r = true -> room t size s' = true).
Proof.
  revert s. induction items as [|[k v] items IH]; intros s HC Hsame Hin Hnd; cbn [make_room].
  { split; [apply evicted_refl|done]. }
  destruct (room t size s) eqn:Er; [split; [apply evicted_refl|done]|].
  pose proof Hnd as [Hk Hnd']%NoDup_cons.
  assert (od_get k (entries s) = Some v) as Hkv by (apply Hin; [by left|done]).
  destruct (evictable t v) eqn:Ee.
  - cbv iota. unfold evictable in Ee. destr_bool.
    destruct (remove_evicts k v s HC Hkv) as [He Hg]; [done|].
    assert (Cached (remove k v true s)) as HC' by (eapply ksteps_cached; [apply He|done]).
    assert (forall k' v' e, (k', v') ∈ items -> od_get k' (entries (remove k v true s)) = Some e -> v' = e) as P1.
    { intros k' v' e Hin' He'. rewrite Hg in He'. case_bool_decide; [done|].
      apply (Hsame k' v'); [by right|done]. }
    assert (forall k' v', (k', v') ∈ items -> NoDup (map fst items) -> od_get k' (entries (remove k v true s)) = Some v') as P2.
    { intros k' v' Hin' _. rewrite Hg. rewrite bool_decide_eq_false_2; [apply Hin; [by right|done]|].
      intros ->. apply Hk. apply list_elem_of_fmap. by exists (k, v'). }
    specialize (IH (remove k v true s) HC' P1 P2 Hnd').
    destruct (make_room t size items (remove k v true s)) as [s' r].
    destruct IH as [Hev Hr]. split; [by eapply evicted_trans|done].
  - cbv iota. apply IH; [done| | |done].
    + intros k' v' e Hin' He'. apply (Hsame k' v'); [by right|done].
    + intros k' v' Hin' _. apply Hin; [by right|done].
Qed.

Lemma space_spec t size s : Cached s ->
  let '(s', r) := space t size s in evicted s s' /\ (r = true -> room t size s' = true).
Proof.
  intros HC. unfold space. destruct (capacity s t <? size); [split; [apply evicted_refl|done]|].
  apply make_room_spec; [done| | |apply HC].
  - intros k v e Hin He. rewrite (in_od_get k v) in He by (done || apply HC). congruence.
  - intros k v Hin Hnd. by apply in_od_get.
Qed.

Lemma choose_tier_spec size s : Cached s ->
  let '(s', t) := choose_tier size s in
  evicted s s' /\ match t with Some t => room t size s' = true | None => True end.
Proof.
  intros HC. unfold choose_tier.
  assert (let '(s1, r) := if capacity s Ram =? 0 then (s, false) else space Ram size s in
          evicted s s1 /\ (r = true -> room Ram size s1 = true)) as H1.
  { destruct (_ =? _); [split; [apply evicted_refl|done]|]. by apply space_spec. }
  destruct (if capacity s Ram =? 0 then _ else _) as [s1 [|]]; destruct H1 as [H1 Hr1]; [by auto|].
  assert (Cached s1) as HC1 by (eapply ksteps_cached; [apply H1|done]).
  assert (let '(s2, d) := if capacity s1 Disk =? 0 then (s1, false) else space Disk size s1 in
          evicted s1 s2 /\ (d = true -> room Disk size s2 = true)) as H2.
  { destruct (_ =? _); [split; [apply evicted_refl|done]|]. by apply space_spec. }
  destruct (if capacity s1 Disk =? 0 then _ else _) as [s2 d]. destruct H2 as [H2 Hr2].
  split; [by eapply evicted_trans|]. destruct d; auto.
Qed.
End Room.

(** ** Requests *)

Section Requests.
Context (sha256_hex : string -> string).

(** The identifiers a request draws are new. *)
Definition fresh_for (r : request) (s : cache) : Prop :=
  match r with
  | RBegin _ t => consumers s !! t = None
  | RAcquire _ _ _ _ l | RResume _ _ _ _ l => forall k e, od_get k (entries s) = Some e -> l ∉ e_leases e
  | _ => True
  end.

(** The leases a request may give back. *)
Definition gives_back (r : request) (c l : string) : Prop :=
  match r with RRelease c' l' => c = c' /\ l = l' | REnd c' => c = c' | _ => False end.

Lemma release_eq c l s r : consumers s !! c = Some r -> release c l s = (unleased_state c r l s, Ok tt).
Proof.
  intros Hc. unfold release, reading, sequence, changing, unleased_state. rewrite Hc.
  by destruct (od_get l (leases r)).
Qed.

Lemma unleased_consumer c r l s : consumers (unleased_state c r l s) !! c = Some (replace_leases r (od_remove l (leases r))).
Proof.
  unfold unleased_state. destruct (od_get l (leases r)); simpl; by rewrite lookup_insert_eq.
Qed.

Lemma release_all may c ls s r : Cached s -> consumers s !! c = Some r -> (forall l, may c l) ->
  exists s' r', for_each (fun kv : string * string => release c kv.1) ls s = (s', Ok tt)
    /\ rtc (kstep may) s s' /\ consumers s' !! c = Some r'
    /\ leases r' = fold_left (fun acc (kv : string * string) => od_remove kv.1 acc) ls (leases r).
Proof.
  intros HC Hc Hmay. revert s r HC Hc. induction ls as [|[l k] ls IH]; intros s r HC Hc.
  { exists s, r. by repeat split. }
  simpl. unfold sequence. rewrite (release_eq c l s r Hc).
  assert (kstep may s (unleased_state c r l s)) as Hs by (by constructor).
  destruct (IH (unleased_state c r l s) (replace_leases r (od_remove l (leases r)))) as (s' & r' & H1 & H2 & H3 & H4).
  - by eapply kstep_cached.
  - apply unleased_consumer.
  - exists s', r'. split; [done|]. split; [by eapply rtc_l|]. split; done.
Qed.

Lemma remove_all {A} (ls acc : list (string * A)) : (forall kv, kv ∈ acc -> kv.1 ∈ map fst ls) ->
  fold_left (fun acc kv => od_remove kv.1 acc) ls acc = [].
Proof.
  revert acc. induction ls as [|[k v] ls IH]; simpl; intros acc H.
  - destruct acc as [|kv acc]; [done|]. exfalso. specialize (H kv). set_solver.
  - apply IH. intros kv Hkv. unfold od_remove in Hkv. apply list_elem_of_filter in Hkv as [Hne Hkv].
    apply bool_decide_eq_false in Hne. apply H in Hkv. set_solver.
Qed.

Lemma end_refines may c s : Cached s -> (forall l, may c l) -> rtc (kstep may) s (end_consumer c s).1.
Proof.
  intros HC Hmay. unfold end_consumer, reading. destruct (consumers s !! c) as [r|] eqn:Hc; [|done].
  destruct (release_all may c (leases r) s r HC Hc Hmay) as (s' & r' & E & Hs & Hc' & Hl).
  unfold sequence at 1. rewrite E. unfold sequence, changing, returning. simpl.
  assert (leases r' = []) as Hnil.
  { rewrite Hl. apply remove_all. intros kv Hkv. apply list_elem_of_fmap. eauto. }
  assert (Cached s') as HC' by (by eapply ksteps_cached).
  assert (kstep may s' (drop_entries (fun _ e => generating_by c e) s')) as Hd.
  { apply K_drop. intros k e He Hg. unfold generating_by in Hg. destr_bool. by eapply (ca_generating s' HC'). }
  eapply rtc_r; [eapply rtc_r; [exact Hs|exact Hd]|].
  apply (K_retire may (drop_entries (fun _ e => generating_by c e) s') c r'); [done|done|].
  intros k e. simpl. rewrite (od_get_filter (fun _ e => generating_by c e)) by apply HC'.
  destruct (od_get k (entries s')) as [e'|]; [|done]. destruct (generating_by c e') eqn:Eg; [done|].
  by intros [= <-].
Qed.

Lemma acquire_refines may c identity size over lease s : Cached s ->
  (forall k e, od_get k (entries s) = Some e -> lease ∉ e_leases e) ->
  rtc (kstep may) s (acquire sha256_hex c identity size over lease s).1.
Proof.
  intros HC Hf. unfold acquire. unfold sequence at 1, computing at 1.
  destruct (cache_key sha256_hex identity) as [key|]; [|done].
  destruct (as_int size) as [n|]; [|done].
  unfold sequence at 1, raising_if, computing at 1, raise_if. destruct (n <? 0) eqn:En; [done|].
  apply Z.ltb_ge in En. unfold reading.
  destruct (od_get key (entries s)) as [[bytes tr st producer ls meta mb]|] eqn:Ek.
  - destruct st.
    + destruct (consumers s !! c); [|done]. destruct over; [|done]. apply rtc_once, K_bump.
    + destruct (consumers s !! c) as [r|] eqn:Hc; [|done].
      destruct (traverse _ (leases r)) as [sizes|] eqn:Et; [|done].
      destruct (copy_limit r <? _) eqn:El; [apply rtc_once, K_bump|]. apply Z.ltb_ge in El.
      assert (held_bytes (entries s) r = list_sum_Z sizes) as Hh.
      { clear -Et. unfold held_bytes. revert sizes Et. induction (leases r) as [|[x k] l IH]; simpl; intros sizes.
        - by intros [= <-].
        - unfold size_of at 1. destruct (od_get k (entries s)) as [e|]; [|done].
          destruct (traverse _ l) as [sz|] eqn:E; [|done]. intros [= <-]. rewrite !list_sum_Z_cons.
          by rewrite (IH sz eq_refl). }
      set (e := {| e_bytes := bytes |}) in *.
      assert (kstep may s (leased_state c r lease key s)) as Hl.
      { apply (K_lease may s c r lease key e); try done. rewrite Hh. exact El. }
      set (s1 := bump "generation_bytes_saved" bytes (bump "hits" 1 (leased_state c r lease key s))).
      assert (rtc (kstep may) s s1) as Hs1.
      { eapply rtc_l; [exact Hl|]. eapply rtc_l; [apply K_bump|]. apply rtc_once, K_bump. }
      unfold sequence, changing. simpl e_metadata. destruct meta; try exact Hs1.
      unfold computing. cbn [e_metadata e]. by destruct (dict_item "generation_seconds" items).
  - destruct (consumers s !! c) as [r|] eqn:Hc; [|done].
    unfold sequence at 1, changing at 1. set (s0 := bump "misses" 1 s).
    assert (kstep may s s0) as H0 by apply K_bump.
    assert (Cached s0) as HC0 by (by eapply kstep_cached).
    pose proof (choose_tier_spec may n s0 HC0) as Ht. destruct (choose_tier n s0) as [s1 [t|]];
      destruct Ht as [(Hev & Hcon & Habs) Hroom]; unfold sequence, changing, returning; simpl.
    + eapply rtc_l; [exact H0|]. eapply rtc_r; [exact Hev|].
      apply (K_add may s1 key {| e_bytes := n; e_tier := t; e_state := Generating; e_producer := c;
                                 e_leases := ∅; e_metadata := PNone; e_metadata_bytes := 0 |}); try done.
      * by apply Habs.
      * simpl. rewrite Hcon. simpl. by rewrite Hc.
    + eapply rtc_l; [exact H0|]. eapply rtc_r; [exact Hev|]. apply K_bump.
Qed.

Lemma publish_refines may c key metadata size s : rtc (kstep may) s (publish c key metadata size s).1.
Proof.
  unfold publish, reading. destruct (od_get key (entries s)) as [e|] eqn:Ek; [|done].
  unfold sequence at 1, raising_if, computing, raise_if. destruct (_ || _) eqn:Eg; [done|].
  apply orb_false_elim in Eg as [Eg Eb]. apply orb_false_elim in Eg as [Eg Ea].
  apply negb_false_iff in Eg. unfold generating_by in Eg. destr_bool.
  unfold sequence at 1. destruct (json_dumps metadata) as [text|]; [|done].
  unfold sequence at 1. destruct (METADATA_BOUND <? _); [done|].
  set (s1 := bump "publications" 1 (set_entries (od_update key (published size metadata (Z.of_nat (String.length text))) (entries s)) s)).
  assert (rtc (kstep may) s s1) as Hs.
  { eapply rtc_l; [|apply rtc_once, K_bump]. apply (K_publish may s key e); [done|done|lia]. }
  unfold sequence, changing. destruct metadata; try exact Hs.
  unfold computing.
  destruct (dict_item "publication_copy_bytes" items); [|exact Hs].
  by destruct (dict_item "publication_copy_seconds" items).
Qed.

Theorem cache_refines r s : Cached s -> fresh_for r s ->
  rtc (kstep (gives_back r)) s (dispatch sha256_hex r s).1.
Proof.
  intros HC Hf. destruct r; cbn [dispatch]; unfold known_consumer, reading.
  - unfold begin, sequence, changing, returning. destruct (as_int limit) as [n|]; [|done].
    destruct (n <? 0) eqn:En; [done|]. apply Z.ltb_ge in En. apply rtc_once. by apply K_begin.
  - destruct (consumers s !! c); [|done]. unfold sequence.
    pose proof (acquire_refines (gives_back (RAcquire c identity size over lease)) c identity size over lease s HC Hf).
    by destruct (acquire _ _ _ _ _ _ _) as [? []].
  - unfold sequence.
    pose proof (acquire_refines (gives_back (RResume c identity size over lease)) c identity size over lease s HC Hf).
    by destruct (acquire _ _ _ _ _ _ _) as [? []].
  - destruct (consumers s !! c); [|done]. unfold sequence.
    pose proof (publish_refines (gives_back (RPublish c key metadata size)) c key metadata size s).
    by destruct (publish _ _ _ _ _) as [? []].
  - destruct (consumers s !! c) as [q|] eqn:Hc; [|done]. unfold sequence. rewrite (release_eq c lease s q Hc).
    apply rtc_once. by apply K_unlease.
  - destruct (consumers s !! c) as [q|] eqn:Hc; [|done]. unfold sequence.
    pose proof (end_refines (gives_back (REnd c)) c s HC (fun _ => eq_refl)).
    by destruct (end_consumer _ _) as [? []].
  - destruct (consumers s !! c) as [q|] eqn:Hc; [|done]. apply rtc_once. apply K_drop.
    intros k e He Hp. unfold generating_by in Hp. destr_bool. by eapply (ca_generating s HC).
  - unfold clear, reading, sequence, raising_if, computing, raise_if.
    case_bool_decide as Hc; [|done]. cbn [negb].
    assert (set_entries [] s = drop_entries (fun _ _ => true) s) as Heq.
    { unfold drop_entries. f_equal. induction (entries s); [done|]. by rewrite filter_cons. }
    unfold changing, returning. simpl. rewrite Heq. apply rtc_once. apply K_drop.
    intros k e He _. apply set_eq. intros l. split; [|set_solver]. intros Hl.
    destruct (ca_holder s HC k e l He Hl) as (c & q & Hq & _). by rewrite Hc in Hq.
Qed.
End Requests.
