(* ===== verification/InputCacheResults.v ===== *)
(** * What the input cache guarantees *)

From stdpp Require Import fin_maps fin_map_dom relations.
From S2P Require Import Prelude StateRes PyValue GenerationFailure InputCache InputCacheProofs.
Local Open Scope Z_scope.

(** The same storage: only the leases may differ. *)
Definition same_storage (e e' : entry) : Prop :=
  e_bytes e' = e_bytes e /\ e_tier e' = e_tier e /\ e_metadata e' = e_metadata e /\ e_state e' = e_state e.

Lemma same_storage_refl e : same_storage e e.
Proof. done. Qed.
Lemma same_storage_trans a b c : same_storage a b -> same_storage b c -> same_storage a c.
Proof. unfold same_storage. intuition congruence. Qed.

(** Consumer [c] holds lease [l] on [k], stored as [e]. *)
Definition holds (c l k : string) (e : entry) (s : cache) : Prop :=
  exists q e', consumers s !! c = Some q /\ od_get l (leases q) = Some k
    /\ od_get k (entries s) = Some e' /\ same_storage e e'.

Lemma kstep_holds may s s' c l k e : kstep may s s' -> Cached s -> ~ may c l ->
  holds c l k e s -> holds c l k e s'.
Proof.
  intros Hk HC Hm (q & e0 & Hc & Hl & He & Hsame).
  destruct (ca_leased s HC c q l k Hc Hl) as (e1 & He1 & Hready & Hin). assert (e1 = e0) as -> by congruence.
  destruct Hk as [c' n Hn _|p Hp|c' r l' k' e' Hc' He' Hs' Hf Hb|c' r l' Hmay Hc'|k' e' Hn|k' e' size m n He' Hs'|c' r Hc' Hr|].
  - exists q, e0. simpl. rewrite lookup_insert_ne by congruence. done.
  - exists q, e0. repeat split; try done; try apply Hsame. simpl. rewrite (od_get_filter p), He by apply HC.
    destruct (p k e0) eqn:E; [|done]. rewrite (Hp k e0 He E) in Hin. set_solver.
  - unfold leased_state. set (f := with_leases (fun x => x ∪ {[l']})).
    exists (if decide (c' = c) then replace_leases r (leases r ++ [(l', k')]) else q),
           (if decide (k' = k) then f e0 else e0).
    split; [|split; [|split]].
    + simpl. rewrite lookup_insert. by destruct (decide (c' = c)).
    + destruct (decide (c' = c)) as [->|]; [|done]. simplify_eq. simpl. by rewrite od_get_app, Hl.
    + simpl. rewrite leased_entries by apply HC. destruct (decide (k' = k)) as [->|].
      * rewrite bool_decide_eq_true_2 by done. by rewrite He.
      * by rewrite bool_decide_eq_false_2 by congruence.
    + by destruct (decide (k' = k)).
  - assert (c' <> c \/ l' <> l) as Hne.
    { destruct (decide (c' = c)) as [->|]; [|by left]. right. intros ->. done. }
    set (f := with_leases (fun x => x ∖ {[l']})).
    exists (if decide (c' = c) then replace_leases r (od_remove l' (leases r)) else q),
           (if bool_decide (od_get l' (leases r) = Some k) then f e0 else e0).
    unfold unleased_state. fold f. split; [|split; [|split]].
    + destruct (od_get l' (leases r)); simpl; rewrite lookup_insert; by destruct (decide (c' = c)).
    + destruct (decide (c' = c)) as [->|]; [|done]. simplify_eq. simpl. rewrite od_get_remove.
      rewrite bool_decide_eq_false_2; [done|]. intros ->. by destruct Hne.
    + destruct (od_get l' (leases r)) as [k'|]; [|done]. simpl.
      rewrite od_get_update. destruct (decide (k = k')) as [->|].
      * rewrite !bool_decide_eq_true_2 by done. by rewrite He.
      * rewrite !bool_decide_eq_false_2 by congruence. done.
    + by case_bool_decide.
  - exists q, e0. split; [done|]. split; [done|]. split; [|done]. simpl. by rewrite od_get_app, He.
  - exists q, e0. split; [done|]. split; [done|]. split; [|done]. simpl. rewrite od_get_update.
    rewrite bool_decide_eq_false_2; [done|]. intros ->. congruence.
  - exists q, e0. split; [|done]. simpl. rewrite lookup_delete_ne; [done|]. intros ->. simplify_eq. by rewrite Hr in Hl.
  - exists q, e0. done.
Qed.

Section Serving.
Context (sha256_hex : string -> string).

(** Every identifier drawn along a run is new when it is drawn. *)
Fixpoint all_fresh (l : list request) (s : cache) : Prop :=
  match l with
  | [] => True
  | r :: l => fresh_for r s /\ all_fresh l (dispatch sha256_hex r s).1
  end.

Lemma serve_cached l s : Cached s -> all_fresh l s -> Cached (serve sha256_hex l s).
Proof.
  revert s. induction l as [|r l IH]; intros s HC Hf; [done|]. destruct Hf as [Hr Hf]. simpl.
  apply IH; [|done]. eapply ksteps_cached; [by apply cache_refines|done].
Qed.

Lemma ksteps_holds may s s' c l k e : rtc (kstep may) s s' -> Cached s -> ~ may c l ->
  holds c l k e s -> holds c l k e s'.
Proof. induction 1; eauto using kstep_cached, kstep_holds. Qed.

Lemma serve_holds l s c lease k e : Cached s -> all_fresh l s -> Forall (fun r => ~ gives_back r c lease) l ->
  holds c lease k e s -> holds c lease k e (serve sha256_hex l s).
Proof.
  revert s. induction l as [|r l IH]; intros s HC Hf Hg Hh; [done|]. destruct Hf as [Hr Hf].
  apply Forall_cons in Hg as [Hg Hgl]. simpl.
  pose proof (cache_refines sha256_hex r s HC Hr) as Hs.
  apply IH; [by eapply ksteps_cached|done|done|by eapply ksteps_holds].
Qed.
End Serving.

Lemma open_cached ram disk limit soft s : open_cache ram disk limit soft = Ok s -> Cached s.
Proof.
  unfold open_cache. destruct (_ || _) eqn:E; [done|]. apply orb_false_elim in E as [E1 E2].
  apply Z.ltb_ge in E1. destruct (as_int limit) as [n|]; [|done]. destruct (n <? 1); [done|]. intros [= <-].
  split; simpl; try done.
  - apply NoDup_nil_2.
  - intros t. unfold used, used_in. simpl. rewrite list_sum_Z_nil. destruct t; simpl; lia.
  - lia.
Qed.

(** C24. Over any sequence of requests, from the opening of the cache: the bytes
    stored in each tier stay within its capacity and the entries within their
    limit, the bytes a consumer leases stay within its copy budget, and every
    entry still being generated belongs to a live consumer, without leases. *)
Theorem cache_stays_bounded sha256_hex ram disk limit soft s0 l :
  open_cache ram disk limit soft = Ok s0 -> all_fresh sha256_hex l s0 ->
  let s := serve sha256_hex l s0 in
  (forall t, used s t <= capacity s t) /\ (length (entries s) <= max_entries s)%nat
  /\ (forall c q, consumers s !! c = Some q -> held_bytes (entries s) q <= copy_limit q)
  /\ (forall k e, od_get k (entries s) = Some e -> e_state e = Generating ->
        e_leases e = ∅ /\ is_Some (consumers s !! e_producer e)).
Proof.
  intros Ho Hf s. assert (Cached s) as HC by (apply serve_cached; [by eapply open_cached|done]).
  split; [apply HC|]. split; [apply HC|]. split; [apply HC|apply HC].
Qed.

(** A lease pins its entry: whatever other requests do, until its holder
    gives the lease back or ends, the entry is neither evicted nor changed, and
    the holder keeps the lease. *)
Theorem cache_lease_pins sha256_hex s l c lease k q e :
  Cached s -> all_fresh sha256_hex l s ->
  consumers s !! c = Some q -> od_get lease (leases q) = Some k -> od_get k (entries s) = Some e ->
  Forall (fun r => ~ gives_back r c lease) l ->
  let s' := serve sha256_hex l s in
  exists q' e', consumers s' !! c = Some q' /\ od_get lease (leases q') = Some k
    /\ od_get k (entries s') = Some e' /\ same_storage e e' /\ e_state e' = Ready.
Proof.
  intros HC Hf Hc Hl He Hg s'.
  destruct (serve_holds sha256_hex l s c lease k e HC Hf Hg) as (q' & e' & Hc' & Hl' & He' & Hsame).
  { exists q, e. repeat split; done. }
  exists q', e'. repeat split; try done; try apply Hsame.
  assert (Cached s') as HC' by (by apply serve_cached).
  destruct (ca_leased s' HC' c q' lease k Hc' Hl') as (e2 & He2 & Hr & _).
  unfold s' in He2. congruence.
Qed.

(** ** A concrete run *)

Definition no_digest (s : string) : string := s.

Definition identity_for (seed : Z) : pydict :=
  [("task_sha256", PStr "t"); ("generator_sha256", PStr "g"); ("configuration", PDict []);
   ("namespace", PStr "development"); ("seed", PInt seed); ("trial_index", PInt 0);
   ("input_contract", PStr "c"); ("adapter_version", PStr "1"); ("runtime", PStr "r"); ("rng_before", PNone)].

Definition key_for (seed : Z) : string := default "" (match cache_key no_digest (identity_for seed) with Ok k => Some k | Err _ => None end).

Definition entry_metadata : pyval :=
  PDict [("publication_copy_bytes", PInt 4); ("publication_copy_seconds", PInt 0); ("generation_seconds", PInt 1)].

(** Two consumers; the first generates an input that both lease, then a second
    input is asked for that does not fit while the first one is leased. *)
Definition cache_run : list request :=
  [RBegin (PInt 100) "a"; RBegin (PInt 100) "b";
   RAcquire "a" (identity_for 1) (PInt 8) false "l0"; RPublish "a" (key_for 1) entry_metadata 6;
   RAcquire "a" (identity_for 1) (PInt 8) false "l1"; RAcquire "b" (identity_for 1) (PInt 8) false "l2"].

Definition pressure : list request :=
  [RAcquire "b" (identity_for 2) (PInt 8) false "l3"; REnd "b"; RAbort "a" (key_for 1)].

Definition example_cache : cache :=
  {| ram_capacity := 10; disk_capacity := 0; max_entries := 4; entries := []; consumers := ∅; metrics := ∅ |}.

Lemma example_cache_opens : open_cache 10 0 (PInt 4) 0 = Ok example_cache.
Proof. reflexivity. Qed.

(** Freshness, as a test. *)
Definition fresh_forb (r : request) (s : cache) : bool :=
  match r with
  | RBegin _ t => match consumers s !! t with None => true | Some _ => false end
  | RAcquire _ _ _ _ l | RResume _ _ _ _ l => forallb (fun ke => negb (bool_decide (l ∈ e_leases ke.2))) (entries s)
  | _ => true
  end.

Fixpoint all_freshb (l : list request) (s : cache) : bool :=
  match l with [] => true | r :: l => fresh_forb r s && all_freshb l (dispatch no_digest r s).1 end.

Lemma fresh_forb_ok r s : fresh_forb r s = true -> fresh_for r s.
Proof.
  destruct r; simpl; try done.
  - by destruct (consumers s !! token).
  - intros H k e He. rewrite forallb_forall in H. specialize (H (k, e) (proj1 (list_elem_of_In _ _) (od_get_in _ _ _ He))).
    by destr_bool.
  - intros H k e He. rewrite forallb_forall in H. specialize (H (k, e) (proj1 (list_elem_of_In _ _) (od_get_in _ _ _ He))).
    by destr_bool.
Qed.

Lemma all_freshb_ok l s : all_freshb l s = true -> all_fresh no_digest l s.
Proof.
  revert s. induction l as [|r l IH]; intros s; [done|]. cbn [all_freshb all_fresh].
  intros [Hr Hl]%andb_prop. split; [by apply fresh_forb_ok|by apply IH].
Qed.

Lemma cache_stays_bounded_witness :
  let s := serve no_digest (cache_run ++ pressure) example_cache in
  used s Ram = 6 /\ capacity s Ram = 10 /\ used s Ram <= capacity s Ram.
Proof.
  intros s. split; [vm_compute; reflexivity|]. split; [vm_compute; reflexivity|].
  assert (all_fresh no_digest (cache_run ++ pressure) example_cache) as Hf
    by (apply all_freshb_ok; vm_compute; reflexivity).
  pose proof (cache_stays_bounded no_digest 10 0 (PInt 4) 0 example_cache (cache_run ++ pressure)
    example_cache_opens Hf) as H.
  cbv zeta in H. destruct H as [H _]. exact (H Ram).
Defined.

Definition leased_cache : cache := serve no_digest cache_run example_cache.

Lemma cache_lease_pins_witness :
  exists e', od_get (key_for 1) (entries (serve no_digest pressure leased_cache)) = Some e' /\ e_bytes e' = 6.
Proof.
  assert (Cached leased_cache) as HC.
  { apply serve_cached; [exact (open_cached _ _ _ _ _ example_cache_opens)|]. apply all_freshb_ok. vm_compute. reflexivity. }
  destruct (consumers leased_cache !! "a") as [q|] eqn:Hc; [|vm_compute in Hc; discriminate Hc].
  destruct (od_get (key_for 1) (entries leased_cache)) as [e|] eqn:He; [|vm_compute in He; discriminate He].
  assert (od_get "l1" (leases q) = Some (key_for 1)) as Hl.
  { vm_compute in Hc. injection Hc as <-. vm_compute. reflexivity. }
  assert (e_bytes e = 6) as Hb by (vm_compute in He; injection He as <-; reflexivity).
  assert (all_fresh no_digest pressure leased_cache) as Hf by (apply all_freshb_ok; vm_compute; reflexivity).
  assert (Forall (fun r => ~ gives_back r "a" "l1") pressure) as Hg.
  { unfold pressure. repeat apply Forall_cons_2; [| | |apply Forall_nil_2]; cbn [gives_back]; try tauto;
      intros H; discriminate H. }
  pose proof (cache_lease_pins no_digest leased_cache pressure "a" "l1" (key_for 1) q e HC Hf Hc Hl He Hg) as H.
  cbv zeta in H. destruct H as (_ & e' & _ & _ & He' & Hsame & _).
  exists e'. split; [exact He'|]. rewrite (proj1 Hsame). exact Hb.
Defined.
