(* ===== verification/Torch.v ===== *)
(** * The tensor operations the models call

    PyTorch is a library of the program, not part of it: its operations are the
    fields of [TensorOps] and what its documentation promises of them the laws
    of [TensorLaws].  A tensor is the list of its slices along the dimension an
    operation works on.  A collective maps what every rank passes to what every
    rank receives; ranks are [0 .. size-1].  Pointwise arithmetic, [arange] and
    concatenation are written with lists.  [list_ops] is an instance. *)

From stdpp Require Export list_numbers.
From S2P Require Export Prelude.

(** The slices that [splits] assigns to its [j]-th part. *)
Definition segment {A} (splits : list nat) (j : nat) (l : list A) : list A :=
  take (nth j splits 0) (drop (sum_list (take j splits)) l).

(** The number of keys equal to [k]. *)
Definition count_key (k : Z) (keys : list Z) : nat := length (filter (fun x => x = k) keys).

Class TensorOps := {
  (** [t[ks]] *)
  index_select : forall {A}, list A -> list nat -> list A;
  (** [torch.argsort(keys, stable=True)] *)
  argsort_stable : list Z -> list nat;
  (** [torch.argsort(keys)] *)
  argsort : list nat -> list nat;
  (** [torch.bincount(keys, minlength=n)] *)
  bincount : list Z -> nat -> list nat;
  cumsum : list nat -> list nat;
  cummax : list Z -> list Z;
  repeat_interleave : forall {A}, list A -> list nat -> list A;
  chunk : forall {A}, nat -> list A -> list (list A);
  (** [dist.all_gather]: the parts each rank receives. *)
  all_gather : forall {A}, nat -> (nat -> list A) -> nat -> list (list A);
  (** [dist.all_to_all_single] with the input and output splits of each rank. *)
  all_to_all : forall {A}, nat -> (nat -> list A) -> (nat -> list nat) -> (nat -> list nat) -> nat -> list A }.

(** The order of a stable sort: by key, equal keys by position. *)
Definition key_before (keys : list Z) (i j : nat) : Prop :=
  exists a b, keys !! i = Some a /\ keys !! j = Some b /\ ((a < b)%Z \/ a = b /\ i < j).

Definition sizes_agree {A} (size : nat) (input : nat -> list A) (input_splits output_splits : nat -> list nat) : Prop :=
  forall i, i < size -> length (input_splits i) = size /\ sum_list (input_splits i) = length (input i)
    /\ length (output_splits i) = size /\ forall j, j < size -> nth i (output_splits j) 0 = nth j (input_splits i) 0.

Class TensorLaws `{TensorOps} : Prop := {
  index_select_law : forall {A} (l : list A) ks, Forall (fun k => k < length l) ks ->
    Some <$> index_select l ks = (fun k => l !! k) <$> ks;
  argsort_stable_perm : forall keys, argsort_stable keys ≡ₚ seq 0 (length keys);
  argsort_stable_sorted : forall keys, StronglySorted (key_before keys) (argsort_stable keys);
  argsort_perm : forall keys, argsort keys ≡ₚ seq 0 (length keys);
  argsort_sorted : forall keys, StronglySorted
    (fun i j => exists a b, keys !! i = Some a /\ keys !! j = Some b /\ a <= b) (argsort keys);
  bincount_law : forall keys n, Forall (fun k => 0 <= k < Z.of_nat n)%Z keys ->
    bincount keys n = map (fun i => count_key (Z.of_nat i) keys) (seq 0 n);
  cumsum_law : forall l, cumsum l = map (fun i => sum_list (take (S i) l)) (seq 0 (length l));
  cummax_law : forall l, length (cummax l) = length l /\ forall i m, cummax l !! i = Some m ->
    m ∈ take (S i) l /\ Forall (fun x => x <= m)%Z (take (S i) l);
  repeat_interleave_law : forall {A} (l : list A) counts, length counts = length l ->
    repeat_interleave l counts = concat (zip_with (fun a n => replicate n a) l counts);
  chunk_law : forall {A} n k (l : list A), 0 < n -> 0 < k -> length l = n * k ->
    chunk n l = map (fun i => take k (drop (i * k) l)) (seq 0 n);
  all_gather_law : forall {A} size (input : nat -> list A) i, i < size ->
    all_gather size input i = map input (seq 0 size);
  all_to_all_law : forall {A} size (input : nat -> list A) input_splits output_splits j,
    sizes_agree size input input_splits output_splits -> j < size ->
    all_to_all size input input_splits output_splits j
    = concat (map (fun i => segment (input_splits i) j (input i)) (seq 0 size)) }.

(** ** An instance on lists *)

Section ListOps.

Definition stable_le (keys : list Z) (i j : nat) : bool :=
  let a := nth i keys 0%Z in let b := nth j keys 0%Z in
  (a <? b)%Z || (a =? b)%Z && (i <=? j).

Definition list_argsort (keys : list Z) : list nat := sorted_by (stable_le keys) (seq 0 (length keys)).

Fixpoint list_cummax (m : Z) (l : list Z) : list Z :=
  match l with [] => [] | x :: l => Z.max m x :: list_cummax (Z.max m x) l end.

#[local] Instance list_ops : TensorOps := {
  index_select A l ks := omap (fun k => l !! k) ks;
  argsort_stable := list_argsort;
  argsort keys := list_argsort (map Z.of_nat keys);
  bincount keys n := map (fun i => count_key (Z.of_nat i) keys) (seq 0 n);
  cumsum l := map (fun i => sum_list (take (S i) l)) (seq 0 (length l));
  cummax l := match l with [] => [] | x :: l => x :: list_cummax x l end;
  repeat_interleave A l counts := concat (zip_with (fun a n => replicate n a) l counts);
  chunk A n l := let k := length l / n in map (fun i => take k (drop (i * k) l)) (seq 0 n);
  all_gather A size input _ := map input (seq 0 size);
  all_to_all A size input input_splits _ j :=
    concat (map (fun i => segment (input_splits i) j (input i)) (seq 0 size)) }.

Lemma list_argsort_perm keys : list_argsort keys ≡ₚ seq 0 (length keys).
Proof. apply sorted_by_perm. Qed.

Lemma list_argsort_sorted keys : StronglySorted (key_before keys) (list_argsort keys).
Proof.
  assert (StronglySorted (fun i j => stable_le keys i j = true) (list_argsort keys)) as Hs.
  { apply sorted_by_sorted; unfold stable_le; intros.
    - destruct (Z.ltb_spec (nth x keys 0%Z) (nth y keys 0%Z)), (Z.eqb_spec (nth x keys 0%Z) (nth y keys 0%Z)),
        (Z.ltb_spec (nth y keys 0%Z) (nth x keys 0%Z)), (Z.eqb_spec (nth y keys 0%Z) (nth x keys 0%Z)),
        (Nat.leb_spec x y), (Nat.leb_spec y x); simpl; auto; lia.
    - apply orb_true_iff in H as [H|H], H0 as [H0|H0]; destr_bool; apply orb_true_iff;
        rewrite ?andb_true_iff, ?Z.ltb_lt, ?Z.eqb_eq, ?Nat.leb_le; lia. }
  assert (NoDup (list_argsort keys)) as Hnd by (rewrite list_argsort_perm; apply NoDup_ListNoDup, seq_NoDup).
  assert (Forall (fun i => i < length keys) (list_argsort keys)) as Hin.
  { rewrite list_argsort_perm. apply Forall_forall. intros i [_ Hi]%elem_of_seq. exact Hi. }
  induction Hs as [|i l Hs IH Hi]; [constructor|].
  apply NoDup_cons in Hnd as [Hni Hnd]. apply Forall_cons in Hin as [Hli Hin].
  constructor; [by apply IH|]. rewrite Forall_forall in Hi, Hin |- *. intros j Hj.
  specialize (Hi j Hj). unfold stable_le in Hi. exists (nth i keys 0%Z), (nth j keys 0%Z).
  split; [|split].
  - destruct (nth_lookup_or_length keys i 0%Z) as [->|?]; [done|lia].
  - destruct (nth_lookup_or_length keys j 0%Z) as [->|?]; [done|]. specialize (Hin j Hj). simpl in Hin. lia.
  - assert (i <> j) by (intros ->; done).
    apply orb_true_iff in Hi as [Hi|Hi]; destr_bool; lia.
Qed.

Lemma list_cummax_law m l i x : list_cummax m l !! i = Some x ->
  x ∈ m :: take (S i) l /\ Forall (fun y => y <= x)%Z (m :: take (S i) l).
Proof.
  revert m i. induction l as [|y l IH]; intros m i; [done|]. destruct i as [|i]; simpl.
  - intros [= <-]. split; [|repeat constructor; lia].
    destruct (Z.max_spec m y) as [[_ ->]|[_ ->]]; [right; left|left].
  - intros Hx. destruct (IH _ _ Hx) as [Hin Hall]. apply Forall_cons in Hall as [Hm Hall].
    split; [|repeat constructor; [lia|lia|exact Hall]].
    apply elem_of_cons in Hin as [->|Hin]; [|by right; right].
    destruct (Z.max_spec m y) as [[_ ->]|[_ ->]]; [right; left|left].
Qed.

Lemma list_cummax_length m l : length (list_cummax m l) = length l.
Proof. revert m. induction l; intros; simpl; [done|]. by rewrite IHl. Qed.

Lemma strongly_sorted_impl {A} (R S : A -> A -> Prop) l :
  (forall x y, R x y -> S x y) -> StronglySorted R l -> StronglySorted S l.
Proof. intros HRS. induction 1; constructor; [done|]. eapply Forall_impl; eauto. Qed.

Lemma some_omap {A} (l : list A) ks : Forall (fun k => k < length l) ks ->
  Some <$> omap (fun k => l !! k) ks = (fun k => l !! k) <$> ks.
Proof.
  induction 1 as [|k ks Hk _ IH]; [done|]. destruct (lookup_lt_is_Some_2 l k Hk) as [a Ha].
  cbn. rewrite Ha. cbn. by f_equal.
Qed.

#[local] Instance list_laws : TensorLaws.
Proof.
  split.
  - intros A l ks. apply some_omap.
  - apply list_argsort_perm.
  - apply list_argsort_sorted.
  - intros keys. simpl. rewrite list_argsort_perm, length_map. done.
  - intros keys. simpl. eapply strongly_sorted_impl; [|apply list_argsort_sorted].
    intros i j (a & b & Ha & Hb & Hle). rewrite list_lookup_fmap in Ha, Hb.
    apply fmap_Some in Ha as (x & Hx & ->), Hb as (y & Hy & ->). exists x, y. split; [done|]. split; [done|]. lia.
  - done.
  - done.
  - intros [|x l]; [split; [done|intros i m; done]|]. simpl. split; [by rewrite list_cummax_length|].
    intros [|i] m; simpl; [intros [= <-]; split; [left|repeat constructor; lia]|apply list_cummax_law].
  - done.
  - intros A n k l Hn Hk Hl. simpl. rewrite Hl, Nat.mul_comm, Nat.div_mul by lia. done.
  - done.
  - done.
Qed.
End ListOps.
