(* ===== verification/TorchFacts.v ===== *)
(** * Consequences of the tensor laws

    Indexing, stable grouping by key, inverse permutations and exchanges, for
    any operations that satisfy [TensorLaws]. *)

From S2P Require Import Torch.

(** ** Segments of a concatenation *)

Lemma sum_list_lengths {A} (ls : list (list A)) : sum_list (map length ls) = length (concat ls).
Proof. induction ls; simpl; [done|]. by rewrite length_app, IHls. Qed.

Lemma segment_concat {A} (ls : list (list A)) j : segment (map length ls) j (concat ls) = nth j ls [].
Proof.
  unfold segment. revert j. induction ls as [|l ls IH]; intros [|j]; simpl; try done.
  - rewrite drop_0, take_app_length. done.
  - rewrite <- IH, <- drop_drop, drop_app_length. done.
Qed.

Lemma nth_map_seq {A} (f : nat -> A) n j d : j < n -> nth j (map f (seq 0 n)) d = f j.
Proof. intros. rewrite nth_indep with (d' := f 0) by (rewrite length_map, length_seq; lia). by rewrite map_nth, seq_nth. Qed.

Lemma map_seq_ext {A} (f g : nat -> A) n : (forall i, i < n -> f i = g i) -> map f (seq 0 n) = map g (seq 0 n).
Proof. intros H. apply map_ext_in. intros i Hi%in_seq. apply H. lia. Qed.

Lemma replicate_map_seq {A} (x : A) n m : replicate n x = map (fun _ => x) (seq m n).
Proof. revert m. induction n; intros m; simpl; [done|]. by f_equal. Qed.

Lemma map_concat_map {A B C} (f : B -> C) (g : A -> list B) l :
  map f (concat (map g l)) = concat (map (fun x => map f (g x)) l).
Proof. by rewrite concat_map, map_map. Qed.

Lemma concat_map_singleton {A} (l : list A) : concat (map (fun x => [x]) l) = l.
Proof. induction l; simpl; [done|]. by f_equal. Qed.

(** [l] as the images of its positions. *)
Lemma map_nth_seq {A} (l : list A) d : map (fun i => nth i l d) (seq 0 (length l)) = l.
Proof.
  induction l as [|x l IH]; simpl; [done|]. f_equal. rewrite <- IH at 2.
  rewrite <- seq_shift, map_map. done.
Qed.

(** ** Positions of a key *)

Definition positions (keys : list Z) (k : Z) : list nat :=
  filter (fun i => keys !! i = Some k) (seq 0 (length keys)).

Lemma elem_of_positions keys k i : i ∈ positions keys k <-> keys !! i = Some k.
Proof.
  unfold positions. rewrite list_elem_of_filter, elem_of_seq. split; [by intros [? _]|].
  intros H. split; [done|]. apply lookup_lt_Some in H. lia.
Qed.

Lemma positions_in_range keys k : Forall (fun i => i < length keys) (positions keys k).
Proof. apply Forall_forall. intros i Hi%elem_of_positions. by eapply lookup_lt_Some. Qed.

Lemma positions_sorted keys k : StronglySorted lt (positions keys k).
Proof.
  unfold positions. generalize (length keys) as n. intros n. generalize 0 as m.
  induction n as [|n IH]; intros m; [constructor|]. cbn [seq]. rewrite filter_cons.
  destruct (decide _); [|apply IH]. constructor; [apply IH|].
  apply Forall_forall. intros i [_ Hi]%list_elem_of_filter. apply elem_of_seq in Hi. lia.
Qed.

Lemma filter_in_ext {A} (P Q : A -> Prop) `{!forall x, Decision (P x), !forall x, Decision (Q x)} l :
  Forall (fun x => P x <-> Q x) l -> filter P l = filter Q l.
Proof.
  induction 1 as [|x l Hx _ IH]; [done|]. rewrite !filter_cons, IH.
  destruct (decide (P x)), (decide (Q x)); tauto.
Qed.

Lemma positions_length keys k : length (positions keys k) = count_key k keys.
Proof.
  unfold positions, count_key.
  assert (forall m, length (filter (fun i => keys !! (i - m) = Some k) (seq m (length keys)))
            = length (filter (fun x => x = k) keys)) as H.
  { induction keys as [|x keys IH]; intros m; [done|]. cbn [length seq]. rewrite !filter_cons, Nat.sub_diag.
    rewrite (filter_in_ext (fun i => (x :: keys) !! (i - m) = Some k) (fun i => keys !! (i - S m) = Some k)).
    - specialize (IH (S m)). change ((x :: keys) !! 0) with (Some x).
      destruct (decide (Some x = Some k)), (decide (x = k)); simpl; congruence.
    - apply Forall_forall. intros i [Hi _]%elem_of_seq. by replace (i - m) with (S (i - S m)) by lia. }
  rewrite <- (H 0). f_equal. apply list_filter_iff. intros i. by rewrite Nat.sub_0_r.
Qed.

#[export] Instance key_before_antisymm keys : AntiSymm (=) (key_before keys).
Proof. intros i j (a & b & Ha & Hb & H1) (b' & a' & Hb' & Ha' & H2). simplify_eq. lia. Qed.

(** The groups, in the order of their keys, are a stable sort. *)
Definition grouped (keys : list Z) (n : nat) : list nat :=
  concat (map (fun k => positions keys (Z.of_nat k)) (seq 0 n)).

Lemma elem_of_grouped keys m n i :
  i ∈ concat (map (fun k => positions keys (Z.of_nat k)) (seq m n))
  <-> exists k, m <= k < m + n /\ keys !! i = Some (Z.of_nat k).
Proof.
  rewrite list_elem_of_In, in_concat. split.
  - intros (l & (k & <- & Hk%in_seq)%in_map_iff & Hi). exists k. split; [done|].
    by apply elem_of_positions, list_elem_of_In.
  - intros (k & Hk & Hi). exists (positions keys (Z.of_nat k)). split; [apply in_map_iff; exists k; split; [done|apply in_seq; lia]|].
    by apply list_elem_of_In, elem_of_positions.
Qed.

Lemma grouped_sorted keys n : StronglySorted (key_before keys) (grouped keys n).
Proof.
  unfold grouped. generalize 0 as m. induction n as [|n IH]; intros m; [constructor|]. cbn [seq map concat].
  apply StronglySorted_app_2; [| |apply IH].
  - intros i j Hi%elem_of_positions (k & Hk & Hj)%elem_of_grouped.
    exists (Z.of_nat m), (Z.of_nat k). split; [done|]. split; [done|lia].
  - pose proof (positions_sorted keys (Z.of_nat m)) as Hs.
    assert (Forall (fun i => keys !! i = Some (Z.of_nat m)) (positions keys (Z.of_nat m))) as Hall.
    { apply Forall_forall. intros i. apply elem_of_positions. }
    induction Hs as [|i l Hs IHs Hi]; [constructor|]. apply Forall_cons in Hall as [Hk Hall].
    constructor; [by apply IHs|]. rewrite Forall_forall in Hi, Hall |- *. intros j Hj.
    exists (Z.of_nat m), (Z.of_nat m). split; [done|]. split; [by apply Hall|]. right. split; [done|by apply Hi].
Qed.

Lemma sorted_lt_nodup l : StronglySorted lt l -> NoDup l.
Proof.
  induction 1 as [|i l _ IH Hi]; constructor; [|done]. intros Hin. rewrite Forall_forall in Hi.
  specialize (Hi i Hin). lia.
Qed.

Lemma grouped_perm keys n : Forall (fun k => 0 <= k < Z.of_nat n)%Z keys -> grouped keys n ≡ₚ seq 0 (length keys).
Proof.
  intros Hk. apply NoDup_Permutation.
  - pose proof (grouped_sorted keys n) as Hs. induction Hs as [|i l _ IH Hi]; constructor; [|done].
    intros Hin. rewrite Forall_forall in Hi. destruct (Hi i Hin) as (a & b & Ha & Hb & H). simplify_eq. lia.
  - apply NoDup_ListNoDup, seq_NoDup.
  - intros i. unfold grouped. rewrite elem_of_grouped, elem_of_seq. split.
    + intros (k & _ & Hi). apply lookup_lt_Some in Hi. lia.
    + intros [_ Hi]. destruct (lookup_lt_is_Some_2 keys i Hi) as [z Hz].
      pose proof (Forall_lookup_1 _ _ _ _ Hk Hz) as Hr. simpl in Hr.
      exists (Z.to_nat z). rewrite Z2Nat.id by lia. split; [lia|done].
Qed.

Lemma strongly_sorted_seq m n : StronglySorted le (seq m n).
Proof.
  revert m. induction n as [|n IH]; intros m; constructor; [apply IH|].
  apply Forall_forall. intros k Hk%elem_of_seq. lia.
Qed.

Lemma map_lookup_seq {A} (l : list A) : (fun k => l !! k) <$> seq 0 (length l) = Some <$> l.
Proof.
  induction l as [|x l IH]; [done|]. cbn [length seq]. rewrite !fmap_cons, <- IH. f_equal.
  rewrite <- seq_shift. by rewrite <- list_fmap_compose.
Qed.

Lemma some_fmap_perm {A} (l k : list A) : Some <$> l ≡ₚ Some <$> k -> l ≡ₚ k.
Proof.
  assert (forall l : list A, omap id (Some <$> l) = l) as Hid.
  { induction l0 as [|x l0 IH]; [done|]. cbn. by f_equal. }
  intros Hp. rewrite <- (Hid l), <- (Hid k). by rewrite Hp.
Qed.

(** The keys that a sorted list of positions selects are in order. *)
Lemma selected_sorted (keys ks r : list nat) :
  StronglySorted (fun i j => exists a b, keys !! i = Some a /\ keys !! j = Some b /\ a <= b) ks ->
  Some <$> r = (fun k => keys !! k) <$> ks -> StronglySorted le r.
Proof.
  intros Hs. revert r. induction Hs as [|i ks _ IH Hi]; intros r Hr; [destruct r; [constructor|done]|].
  destruct r as [|a r]; [done|]. rewrite !fmap_cons in Hr. injection Hr as Ha Hr.
  change (Some <$> r = (fun k => keys !! k) <$> ks) in Hr. constructor; [by apply IH|].
  apply Forall_forall. intros b Hb. apply (list_elem_of_fmap_2 Some) in Hb. rewrite Hr in Hb.
  apply list_elem_of_fmap in Hb as (j & Hb & Hj). rewrite Forall_forall in Hi.
  destruct (Hi j Hj) as (a' & b' & Ha' & Hb' & Hle). simplify_eq. congruence.
Qed.

Section Laws.
Context `{TensorLaws}.

Lemma argsort_stable_grouped keys n : Forall (fun k => 0 <= k < Z.of_nat n)%Z keys ->
  argsort_stable keys = grouped keys n.
Proof.
  intros Hk. apply (StronglySorted_unique (key_before keys)).
  - apply argsort_stable_sorted.
  - apply grouped_sorted.
  - by rewrite argsort_stable_perm, grouped_perm.
Qed.

Lemma bincount_grouped keys n : Forall (fun k => 0 <= k < Z.of_nat n)%Z keys ->
  bincount keys n = map (fun k => length (positions keys (Z.of_nat k))) (seq 0 n).
Proof. intros Hk. rewrite bincount_law by done. apply map_ext. intros i. by rewrite positions_length. Qed.

(** ** Indexing *)

Lemma fmap_some_inj {A} (l k : list A) : Some <$> l = Some <$> k -> l = k.
Proof. apply (inj (fmap Some)). Qed.

Lemma index_select_map {A} (g : nat -> A) n ks : Forall (fun k => k < n) ks ->
  index_select (map g (seq 0 n)) ks = map g ks.
Proof.
  intros Hk. apply fmap_some_inj. rewrite index_select_law by (by rewrite length_map, length_seq).
  induction Hk as [|k ks Hk _ IH]; [done|]. cbn. f_equal; [|done].
  rewrite list_lookup_fmap, lookup_seq_lt by done. done.
Qed.

Lemma index_select_length {A} (l : list A) ks : Forall (fun k => k < length l) ks ->
  length (index_select l ks) = length ks.
Proof. intros Hk. rewrite <- (length_fmap Some), index_select_law by done. by rewrite length_fmap. Qed.

Lemma index_select_lookup {A} (l : list A) ks i : Forall (fun k => k < length l) ks ->
  index_select l ks !! i = ks !! i ≫= fun k => l !! k.
Proof.
  intros Hk. pose proof (index_select_law l ks Hk) as Hl.
  assert ((Some <$> index_select l ks) !! i = ((fun k => l !! k) <$> ks) !! i) as E by (by rewrite Hl).
  rewrite !list_lookup_fmap in E. destruct (index_select l ks !! i), (ks !! i); simpl in *; congruence.
Qed.

(** ** The inverse of a permutation *)

Lemma argsort_perm_inverse order n : order ≡ₚ seq 0 n ->
  length (argsort order) = n /\ forall i, i < n -> exists k, argsort order !! i = Some k /\ order !! k = Some i.
Proof.
  intros Hp. assert (length order = n) as Hlen by (by rewrite Hp, length_seq).
  assert (NoDup order) as Hnd by (rewrite Hp; apply NoDup_ListNoDup, seq_NoDup).
  assert (length (argsort order) = n) as Hlen' by (by rewrite argsort_perm, length_seq).
  split; [done|].
  assert (Forall (fun k => k < length order) (argsort order)) as Hr.
  { rewrite argsort_perm. apply Forall_forall. intros k Hk%elem_of_seq. lia. }
  pose proof (index_select_law order (argsort order) Hr) as Hsel.
  (* The keys in sorted order are [seq 0 n]. *)
  assert (index_select order (argsort order) = seq 0 n) as E.
  { apply (StronglySorted_unique le); [|apply strongly_sorted_seq|].
    - by eapply selected_sorted; [apply argsort_sorted|].
    - rewrite <- Hp. apply some_fmap_perm. rewrite Hsel, argsort_perm. by rewrite map_lookup_seq. }
  intros i Hi. assert (seq 0 n !! i = Some i) as Hs by (by apply lookup_seq_lt).
  rewrite <- E, index_select_lookup in Hs by done. apply bind_Some in Hs as (k & Hk & Ho). eauto.
Qed.

Lemma index_select_inverse {A} (g : nat -> A) order n : order ≡ₚ seq 0 n ->
  index_select (map g order) (argsort order) = map g (seq 0 n).
Proof.
  intros Hp. destruct (argsort_perm_inverse order n Hp) as [Hlen Hinv].
  assert (length order = n) as Hn by (by rewrite Hp, length_seq).
  apply list_eq. intros i. rewrite index_select_lookup.
  - rewrite list_lookup_fmap. destruct (decide (i < n)) as [Hi|Hi].
    + destruct (Hinv i Hi) as (k & Hk & Ho). rewrite Hk, lookup_seq_lt by done. cbn.
      by rewrite list_lookup_fmap, Ho.
    + rewrite !lookup_ge_None_2; [done| |]; rewrite ?length_seq; lia.
  - rewrite argsort_perm, length_map. apply Forall_forall. intros k Hk%elem_of_seq. lia.
Qed.

(** ** Exchanges: [piece i j] travels from rank [i] to rank [j] *)

Lemma exchange_pieces {A} size (piece : nat -> nat -> list A) input ins outs j :
  (forall i, i < size -> input i = concat (map (piece i) (seq 0 size))
     /\ ins i = map (fun j => length (piece i j)) (seq 0 size)
     /\ outs i = map (fun j => length (piece j i)) (seq 0 size)) ->
  j < size -> all_to_all size input ins outs j = concat (map (fun i => piece i j) (seq 0 size)).
Proof.
  intros Hp Hj. rewrite all_to_all_law; [|intros i Hi|done].
  - f_equal. apply map_seq_ext. intros i Hi. destruct (Hp i Hi) as (-> & -> & _).
    rewrite <- (map_map (piece i) length), segment_concat. by apply nth_map_seq.
  - destruct (Hp i Hi) as (-> & -> & ->). rewrite !length_map, length_seq. split; [done|]. split.
    { by rewrite <- (map_map (piece i) length), sum_list_lengths. }
    split; [done|]. intros k Hk. destruct (Hp k Hk) as (_ & _ & ->). by rewrite !nth_map_seq.
Qed.

(** [owned i j]: the positions, on rank [i], of what rank [j] owns. *)
Section Owned.
Context (size : nat) (owned : nat -> nat -> list nat) (send recv : nat -> list nat).
Context (send_owned : forall i, i < size -> send i = map (fun j => length (owned i j)) (seq 0 size)).
Context (recv_owned : forall j, j < size -> recv j = map (fun i => length (owned i j)) (seq 0 size)).

Lemma owned_to {A} (t : nat -> list A) (g : nat -> nat -> A) j : j < size ->
  (forall i, i < size -> t i = concat (map (fun j => map (g i) (owned i j)) (seq 0 size))) ->
  all_to_all size t send recv j = concat (map (fun i => map (g i) (owned i j)) (seq 0 size)).
Proof.
  intros Hj Ht. apply (exchange_pieces size (fun i j => map (g i) (owned i j))); [|done].
  intros i Hi. split; [by apply Ht|].
  rewrite send_owned, recv_owned by done. split; apply map_ext; intros; by rewrite length_map.
Qed.

Lemma owned_back {A} (t : nat -> list A) (g : nat -> nat -> A) i : i < size ->
  (forall j, j < size -> t j = concat (map (fun i => map (g i) (owned i j)) (seq 0 size))) ->
  all_to_all size t recv send i = map (g i) (concat (map (owned i) (seq 0 size))).
Proof.
  intros Hi Ht. rewrite (exchange_pieces size (fun j i => map (g i) (owned i j))); [| |done].
  - symmetry. apply map_concat_map.
  - intros j Hj. split; [by apply Ht|].
    rewrite send_owned, recv_owned by done. split; apply map_ext; intros; by rewrite length_map.
Qed.
End Owned.

(** One value for each pair of ranks. *)
Lemma exchange_one {A} size (c : nat -> nat -> A) input j : j < size ->
  (forall i, i < size -> input i = map (c i) (seq 0 size)) ->
  all_to_all size input (fun _ => replicate size 1) (fun _ => replicate size 1) j
  = map (fun i => c i j) (seq 0 size).
Proof.
  intros Hj Hc. rewrite (exchange_pieces size (fun i j => [c i j])); [|intros i Hi; split; [|split]|done].
  - rewrite <- (map_map (fun i => c i j) (fun x => [x])). apply concat_map_singleton.
  - rewrite Hc by done. rewrite <- (map_map (c i) (fun x => [x])). symmetry. apply concat_map_singleton.
  - apply replicate_map_seq.
  - apply replicate_map_seq.
Qed.
End Laws.

Lemma zip_with_map_l {A B C D} (f : B -> C -> D) (g : A -> B) (h : A -> C) l :
  zip_with f (map g l) (map h l) = map (fun x => f (g x) (h x)) l.
Proof. induction l; simpl; [done|]. by f_equal. Qed.
