(* ===== verification/ExpertDispatch.v ===== *)
(** * Expert-parallel token dispatch ([dsv41_train/dispatch.py])

    Each rank routes every token assignment to the rank that owns its expert
    and takes the results back.  A rank's local computations are functions of
    its own tensors; a collective maps the inputs of all ranks to the outputs
    of all ranks, so [dispatch] and [combine] describe one rank of a group in
    which every rank reached the exchange. *)

From S2P Require Import Torch.
Local Open Scope py_scope.

Section Dispatch.
Context `{TensorOps} {T W V : Type}.

Record metadata := {
  token_count : nat;
  topk : nat;
  inverse_order : option (list nat);
  send_splits : option (list nat);
  recv_splits : option (list nat) }.

(** What a rank passes to [dispatch]; [slots] is [expert_ids.shape[-1]]. *)
Record assignments := {
  hidden : list T;
  slots : nat;
  expert_ids : list (list Z);
  weights : list (list W) }.

(** [hidden[:, None, :].expand(-1, topk, -1).reshape(-1, ...)] *)
Definition expanded (a : assignments) : list T := concat (map (replicate (slots a)) (hidden a)).
Definition flat_ids (a : assignments) : list Z := concat (expert_ids a).
Definition flat_weights (a : assignments) : list W := concat (weights a).

(** A view of [n * k] rows as [n] blocks of [k]. *)
Definition view {A} (n k : nat) (l : list A) : list (list A) :=
  map (fun i => take k (drop (i * k) l)) (seq 0 n).

(** [t.view(n, k, -1)]: without rows to share out, the size that is left open is
    ambiguous. *)
Definition view_open {A} (n k : nat) (l : list A) : res (list (list A)) :=
  raise_when (n * k =? 0) with_exn RuntimeError "the unspecified dimension size -1 can be any value and is ambiguous";
  Ok (view n k l).

(** ** [TokenDispatcher] *)

Definition local_expert_range (num_experts : Z) : Z * Z := (0, num_experts)%Z.

Definition local_dispatch (a : assignments) : list T * list Z * list W * metadata :=
  (expanded a, flat_ids a, flat_weights a,
   {| token_count := length (hidden a); topk := slots a; inverse_order := None; send_splits := None; recv_splits := None |}).

Definition local_combine (sum : list V -> V) (results : list V) (m : metadata) : res (list V) :=
  blocks <-? view_open (token_count m) (topk m) results; Ok (map sum blocks).

(** ** [AllToAllTokenDispatcher] *)

Context (size : nat).

Definition expert_range (num_experts : Z) (rank : nat) : res (Z * Z) :=
  raise_when (num_experts <? 1)%Z with_exn ValueError "num_experts must be positive";
  raise_when negb (num_experts mod Z.of_nat size =? 0)%Z with_exn ValueError "num_experts must divide EP size";
  let local := (num_experts / Z.of_nat size)%Z in
  let start := (Z.of_nat rank * local)%Z in
  Ok (start, (start + local)%Z).

(** What a rank computes before the exchanges. *)
Record routing := {
  start : Z;
  order : list nat;
  send_counts : list nat;
  sorted_tokens : list T;
  sorted_ids : list Z;
  sorted_weights : list W }.

Definition route (num_experts : option Z) (rank : nat) (a : assignments) : res routing :=
  match num_experts with
  | None => Err (RuntimeError "attach the dispatcher to an expert module before use")
  | Some n =>
      range <-? expert_range n rank;
      let local_experts := (range.2 - range.1)%Z in
      raise_when existsb (fun id => (id <? 0) || (n <=? id))%Z (flat_ids a)
        with_exn ValueError "expert ids are outside the configured expert range";
      let owners := map (fun id => id / local_experts)%Z (flat_ids a) in
      let order := argsort_stable owners in
      Ok {| start := range.1; order := order; send_counts := bincount owners size;
            sorted_tokens := index_select (expanded a) order;
            sorted_ids := index_select (flat_ids a) order;
            sorted_weights := index_select (flat_weights a) order |}
  end.

(** [all_to_all_single(recv_counts, send_counts)]: one count per pair of ranks. *)
Definition recv_counts (r : nat -> routing) (rank : nat) : list nat :=
  all_to_all size (fun i => send_counts (r i)) (fun _ => replicate size 1) (fun _ => replicate size 1) rank.

(** [_exchange] *)
Definition exchange {A} (t : nat -> list A) (output_splits input_splits : nat -> list nat) (rank : nat) : list A :=
  all_to_all size t input_splits output_splits rank.

Definition dispatch (a : nat -> assignments) (r : nat -> routing) (rank : nat)
    : list T * list Z * list W * metadata :=
  let send i := send_counts (r i) in
  let recv i := recv_counts r i in
  (exchange (fun i => sorted_tokens (r i)) recv send rank,
   map (fun id => id - start (r rank))%Z (exchange (fun i => sorted_ids (r i)) recv send rank),
   exchange (fun i => sorted_weights (r i)) recv send rank,
   {| token_count := length (hidden (a rank)); topk := slots (a rank);
      inverse_order := Some (argsort (order (r rank)));
      send_splits := Some (send rank); recv_splits := Some (recv rank) |}).

(** The three assertions, then the exchange back: the splits swap their roles. *)
Definition combine (sum : list V -> V) (results : nat -> list V) (m : nat -> metadata) (rank : nat) : res (list V) :=
  match send_splits (m rank), recv_splits (m rank), inverse_order (m rank) with
  | Some _, Some _, Some inverse =>
      let returned := exchange results (fun i => default [] (send_splits (m i)))
                        (fun i => default [] (recv_splits (m i))) rank in
      blocks <-? view_open (token_count (m rank)) (topk (m rank)) (index_select returned inverse);
      Ok (map sum blocks)
  | _, _, _ => Err (AssertionError "")
  end.
End Dispatch.
