(* ===== verification/ExpertDispatchProofs.v ===== *)
(** * Expert-parallel dispatch computes what a single rank computes *)

From S2P Require Import Torch TorchFacts ExpertDispatch.
Local Open Scope py_scope.

(** ** Shapes *)

Section Shapes.
Context {A B C : Type}.

Lemma view_concat k (ls : list (list A)) : Forall (fun l => length l = k) ls ->
  view (length ls) k (concat ls) = ls.
Proof.
  unfold view. intros Hl. transitivity (map (fun i => nth i ls []) (seq 0 (length ls))); [|apply map_nth_seq].
  apply map_seq_ext. intros i Hi.
  revert i Hi. induction Hl as [|l ls Hk _ IH]; intros i Hi; simpl in *; [lia|]. destruct i as [|i]; simpl.
  - rewrite drop_0. subst k. apply take_app_length.
  - rewrite <- (IH i) by lia. by rewrite <- Hk, <- drop_drop, drop_app_length.
Qed.

Lemma concat_length k (ls : list (list A)) : Forall (fun l => length l = k) ls -> length (concat ls) = length ls * k.
Proof. induction 1; simpl; [done|]. rewrite length_app. lia. Qed.

Lemma zip_with_concat (f : A -> B -> C) ls ks : Forall2 (fun l k => length l = length k) ls ks ->
  zip_with f (concat ls) (concat ks) = concat (zip_with (zip_with f) ls ks).
Proof. induction 1; simpl; [done|]. rewrite zip_with_app by done. by f_equal. Qed.
End Shapes.

(** ** The reference: every token goes through its own experts *)

Section Reference.
Context {T W V : Type}.

Record well_formed (a : assignments (T := T) (W := W)) : Prop := {
  wf_ids : length (expert_ids a) = length (hidden a);
  wf_weights : length (weights a) = length (hidden a);
  wf_slots : Forall (fun l => length l = slots a) (expert_ids a);
  wf_weight_slots : Forall (fun l => length l = slots a) (weights a) }.

(** The experts of a rank, applied row by row. *)
Definition run (expert : Z -> T -> W -> V) (out : list T * list Z * list W * metadata) : list V :=
  let '(tokens, ids, ws, _) := out in zip_with (fun f w => f w) (zip_with (fun t id => expert id t) tokens ids) ws.

(** For each token, its experts' results in slot order. *)
Definition per_token (expert : Z -> T -> W -> V) (a : assignments) : list (list V) :=
  zip_with (fun f ws => f ws)
    (zip_with (fun h ids ws => zip_with (fun id w => expert id h w) ids ws) (hidden a) (expert_ids a)) (weights a).

Lemma zip_replicate (expert : Z -> T -> W -> V) h ids ws :
  zip_with (fun f w => f w) (zip_with (fun t id => expert id t) (replicate (length ids) h) ids) ws
  = zip_with (fun id w => expert id h w) ids ws.
Proof. revert ws. induction ids as [|id ids IH]; intros [|w ws]; simpl; [done..|]. by f_equal. Qed.

Lemma run_per_token expert a : well_formed a ->
  run expert (local_dispatch a) = concat (per_token expert a) /\ length (per_token expert a) = length (hidden a)
  /\ Forall (fun l => length l = slots a) (per_token expert a).
Proof.
  intros []. destruct a as [hs k idss wss]. unfold run, local_dispatch, expanded, flat_ids, flat_weights, per_token. simpl in *.
  revert idss wss wf_ids0 wf_weights0 wf_slots0 wf_weight_slots0.
  induction hs as [|h hs IH]; intros [|ids idss] [|ws wss] Hi Hw Hids Hws; simpl in *; try done.
  apply Forall_cons in Hids as [Hk Hids], Hws as [Hkw Hws].
  destruct (IH idss wss ltac:(lia) ltac:(lia) Hids Hws) as (Hr & Hlen & Hall).
  split; [|split; [by f_equal|constructor; [|done]]].
  - rewrite zip_with_app by (by rewrite length_replicate). rewrite zip_with_app; [|rewrite length_zip_with, length_replicate; lia].
    rewrite Hr. f_equal. rewrite <- Hk at 1. apply zip_replicate.
  - rewrite length_zip_with. lia.
Qed.

(** What a rank returns: it has something to reduce, or raises. *)
Definition reduced (sum : list V -> V) (outputs : list (list V)) (a : assignments (T := T) (W := W)) : res (list V) :=
  if length (hidden a) * slots a =? 0
  then Err (RuntimeError "the unspecified dimension size -1 can be any value and is ambiguous") else Ok (map sum outputs).

Lemma local_combine_per_token expert sum a : well_formed a ->
  local_combine sum (run expert (local_dispatch a)) (local_dispatch a).2 = reduced sum (per_token expert a) a.
Proof.
  intros Hwf. destruct (run_per_token expert a Hwf) as (-> & Hlen & Hall).
  unfold local_combine, view_open, reduced. simpl. destruct (_ =? 0); [done|]. rewrite <- Hlen. by rewrite view_concat.
Qed.

Lemma flat_lengths a : well_formed a ->
  length (expanded a) = length (hidden a) * slots a /\ length (flat_ids a) = length (hidden a) * slots a
  /\ length (flat_weights a) = length (hidden a) * slots a.
Proof.
  intros []. unfold expanded, flat_ids, flat_weights. rewrite !(concat_length (slots a)); try done.
  - rewrite length_map. by rewrite wf_ids0, wf_weights0.
  - apply Forall_forall. intros l (h & -> & _)%list_elem_of_fmap. by rewrite length_replicate.
Qed.
End Reference.

(** ** The exchanges *)

(** A rank's list as the images of the flat indices of its assignments. *)
Lemma as_images {A} `{Inhabited A} (l : list A) n : length l = n -> exists g, l = map g (seq 0 n).
Proof. intros <-. exists (fun i => nth i l inhabitant). symmetry. apply map_nth_seq. Qed.

Section Exchange.
Context `{TensorLaws} {T W V : Type} `{!Inhabited T, !Inhabited W}.
Context (size : nat) (n : Z) (a : nat -> assignments (T := T) (W := W)) (r : nat -> routing (T := T) (W := W)).
Context (routed : forall i, i < size -> route size (Some n) i (a i) = Ok (r i)).
Context (shaped : forall i, i < size -> well_formed (a i)).

Definition local_experts : Z := n / Z.of_nat size.
Definition owners (i : nat) : list Z := map (fun id => id / local_experts)%Z (flat_ids (a i)).
Definition count (i : nat) : nat := length (hidden (a i)) * slots (a i).
(** The assignments of rank [i] that rank [j] owns. *)
Definition owned (i j : nat) : list nat := positions (owners i) (Z.of_nat j).

Lemma expert_range_ok m rank se : expert_range size m rank = Ok se -> 0 < size ->
  (0 < m)%Z /\ (m = Z.of_nat size * (m / Z.of_nat size))%Z
  /\ se = (Z.of_nat rank * (m / Z.of_nat size), Z.of_nat rank * (m / Z.of_nat size) + m / Z.of_nat size)%Z.
Proof.
  unfold expert_range. intros Hr Hs. res_inv Hr. destr_bool. subst se. split; [lia|].
  split; [|done]. pose proof (Z.div_mod m (Z.of_nat size)). lia.
Qed.

Lemma routed_facts i : i < size ->
  (0 < n)%Z /\ (n = Z.of_nat size * local_experts)%Z /\ (0 < local_experts)%Z
  /\ Forall (fun id => 0 <= id < n)%Z (flat_ids (a i))
  /\ start (r i) = (Z.of_nat i * local_experts)%Z
  /\ order (r i) = argsort_stable (owners i)
  /\ send_counts (r i) = bincount (owners i) size
  /\ sorted_tokens (r i) = index_select (expanded (a i)) (argsort_stable (owners i))
  /\ sorted_ids (r i) = index_select (flat_ids (a i)) (argsort_stable (owners i))
  /\ sorted_weights (r i) = index_select (flat_weights (a i)) (argsort_stable (owners i)).
Proof.
  intros Hi. pose proof (routed i Hi) as Hr. unfold route in Hr.
  destruct (expert_range size n i) as [se|] eqn:Ese; [|done].
  destruct (expert_range_ok n i se Ese ltac:(lia)) as (Hn & Hdiv & ->). cbn [fst snd] in Hr.
  destruct (existsb _ _) eqn:Eid; [done|].
  replace (Z.of_nat i * (n / Z.of_nat size) + n / Z.of_nat size - Z.of_nat i * (n / Z.of_nat size))%Z
    with local_experts in Hr by (unfold local_experts; lia).
  fold local_experts in Hr. injection Hr as <-. simpl. unfold owners.
  split; [done|]. split; [done|]. split; [unfold local_experts in *; nia|]. split; [|done].
  apply Forall_forall. intros id Hid. apply not_true_iff_false in Eid.
  assert (negb ((id <? 0) || (n <=? id))%Z = true) as E; [|destr_bool; lia].
  apply negb_true_iff, not_true_iff_false. intros E. apply Eid, existsb_exists. exists id.
  split; [by apply list_elem_of_In|done].
Qed.

Lemma owners_in_range i : i < size -> Forall (fun k => 0 <= k < Z.of_nat size)%Z (owners i).
Proof.
  intros Hi. destruct (routed_facts i Hi) as (Hn & Hdiv & Hl & Hids & _).
  unfold owners. apply Forall_forall. intros k (id & -> & Hid)%list_elem_of_fmap.
  rewrite Forall_forall in Hids. specialize (Hids id Hid). split; [apply Z.div_pos; lia|].
  apply Z.div_lt_upper_bound; lia.
Qed.

Lemma owners_length i : i < size -> length (owners i) = count i.
Proof.
  intros Hi. unfold owners. rewrite length_map.
  by destruct (flat_lengths (a i) (shaped i Hi)) as (_ & -> & _).
Qed.

Lemma order_owned i : i < size -> argsort_stable (owners i) = concat (map (owned i) (seq 0 size)).
Proof. intros Hi. by rewrite (argsort_stable_grouped _ size) by by apply owners_in_range. Qed.

Lemma order_perm i : i < size -> argsort_stable (owners i) ≡ₚ seq 0 (count i).
Proof. intros Hi. by rewrite argsort_stable_perm, owners_length. Qed.

(** A tensor sorted by owner is the pieces for each rank, in order. *)
Lemma sorted_pieces {A} (g : nat -> A) i : i < size ->
  index_select (map g (seq 0 (count i))) (argsort_stable (owners i)) = concat (map (fun j => map g (owned i j)) (seq 0 size)).
Proof.
  intros Hi. rewrite index_select_map.
  - rewrite order_owned by done. apply map_concat_map.
  - rewrite order_perm by done. apply Forall_forall. intros k Hk%elem_of_seq. lia.
Qed.

Lemma send_counts_owned i : i < size -> send_counts (r i) = map (fun j => length (owned i j)) (seq 0 size).
Proof.
  intros Hi. destruct (routed_facts i Hi) as (_ & _ & _ & _ & _ & _ & -> & _).
  apply bincount_grouped, owners_in_range, Hi.
Qed.

Lemma recv_counts_owned j : j < size -> recv_counts size r j = map (fun i => length (owned i j)) (seq 0 size).
Proof.
  intros Hj. unfold recv_counts. apply (exchange_one size (fun i j => length (owned i j))); [done|].
  apply send_counts_owned.
Qed.

(** What rank [j] receives of a tensor with images [g i] on rank [i]. *)
Lemma exchange_to {A} (t : nat -> list A) (g : nat -> nat -> A) j : j < size ->
  (forall i, i < size -> t i = concat (map (fun j => map (g i) (owned i j)) (seq 0 size))) ->
  exchange size t (fun i => recv_counts size r i) (fun i => send_counts (r i)) j
  = concat (map (fun i => map (g i) (owned i j)) (seq 0 size)).
Proof. apply owned_to; [apply send_counts_owned|apply recv_counts_owned]. Qed.

(** What rank [i] takes back: the results of its own assignments, in its sorted order. *)
Lemma exchange_back {A} (t : nat -> list A) (g : nat -> nat -> A) i : i < size ->
  (forall j, j < size -> t j = concat (map (fun i => map (g i) (owned i j)) (seq 0 size))) ->
  exchange size t (fun i => send_counts (r i)) (fun i => recv_counts size r i) i
  = map (g i) (argsort_stable (owners i)).
Proof.
  intros Hi Ht. rewrite order_owned by done.
  by apply (owned_back size owned); [apply send_counts_owned|apply recv_counts_owned| |].
Qed.

(** The result of the [k]-th assignment of rank [i]. *)
Definition result_of (expert : Z -> T -> W -> V) (i k : nat) : V :=
  expert (nth k (flat_ids (a i)) 0%Z) (nth k (expanded (a i)) inhabitant) (nth k (flat_weights (a i)) inhabitant).

(** The assignments rank [j] receives, as pairs of origin and flat index. *)
Definition received (j : nat) : list (nat * nat) := concat (map (fun i => map (pair i) (owned i j)) (seq 0 size)).

Lemma over_received {A} (g : nat -> nat -> A) j :
  concat (map (fun i => map (g i) (owned i j)) (seq 0 size)) = map (fun p => g p.1 p.2) (received j).
Proof. unfold received. rewrite map_concat_map. f_equal. apply map_ext. intros i. by rewrite map_map. Qed.

Lemma sorted_images {A} (l : list A) d i : i < size -> length l = count i ->
  index_select l (argsort_stable (owners i)) = concat (map (fun j => map (fun k => nth k l d) (owned i j)) (seq 0 size)).
Proof. intros Hi Hl. rewrite <- sorted_pieces by done. f_equal. rewrite <- Hl. symmetry. apply map_nth_seq. Qed.

Lemma exchange_received {A} (t : nat -> list A) (full : nat -> list A) d j : j < size ->
  (forall i, i < size -> t i = index_select (full i) (argsort_stable (owners i))) ->
  (forall i, i < size -> length (full i) = count i) ->
  exchange size t (fun i => recv_counts size r i) (fun i => send_counts (r i)) j
  = map (fun p => nth p.2 (full p.1) d) (received j).
Proof.
  intros Hj Ht Hl. rewrite <- (over_received (fun i k => nth k (full i) d)). apply exchange_to; [done|].
  intros i Hi. rewrite Ht by done. by apply sorted_images; [|apply Hl].
Qed.

Lemma dispatch_received j : j < size -> dispatch size a r j =
  (map (fun p => nth p.2 (expanded (a p.1)) inhabitant) (received j),
   map (fun p => nth p.2 (flat_ids (a p.1)) 0 - start (r j))%Z (received j),
   map (fun p => nth p.2 (flat_weights (a p.1)) inhabitant) (received j),
   {| token_count := length (hidden (a j)); topk := slots (a j);
      inverse_order := Some (argsort (argsort_stable (owners j)));
      send_splits := Some (send_counts (r j)); recv_splits := Some (recv_counts size r j) |}).
Proof.
  intros Hj. unfold dispatch. destruct (routed_facts j Hj) as (_ & _ & _ & _ & _ & Hord & _).
  rewrite (exchange_received _ (fun i => expanded (a i)) inhabitant),
    (exchange_received _ (fun i => flat_ids (a i)) 0%Z), (exchange_received _ (fun i => flat_weights (a i)) inhabitant);
    try done; try (intros i Hi; first [by apply routed_facts | by apply (flat_lengths (a i) (shaped i Hi))]).
  rewrite map_map. by rewrite Hord.
Qed.

(** Every id that rank [j] receives is one of its own experts. *)
Lemma received_ids_local j : j < size ->
  Forall (fun id => 0 <= id < local_experts)%Z (dispatch size a r j).1.1.2.
Proof.
  intros Hj. rewrite dispatch_received by done. simpl. apply Forall_forall.
  intros id ([i k] & -> & Hp)%list_elem_of_fmap. simpl. unfold received in Hp.
  apply list_elem_of_In, in_concat in Hp as (l & (i' & <- & Hi%in_seq)%in_map_iff & (k' & [= -> ->] & Hk)%in_map_iff).
  apply list_elem_of_In, elem_of_positions in Hk. unfold owners in Hk. rewrite list_lookup_fmap in Hk.
  apply fmap_Some in Hk as (id & Hid & Hown). rewrite (nth_lookup_Some _ _ _ _ Hid).
  destruct (routed_facts j Hj) as (_ & _ & Hl & _ & -> & _).
  pose proof (Z.div_mod id local_experts ltac:(lia)). pose proof (Z.mod_pos_bound id local_experts Hl).
  rewrite <- Hown in *. lia.
Qed.

Definition rank_results (expert : Z -> T -> W -> V) (j : nat) : list V :=
  run (fun id t w => expert (start (r j) + id)%Z t w) (dispatch size a r j).

Lemma rank_results_received expert j : j < size ->
  rank_results expert j = map (fun p => result_of expert p.1 p.2) (received j).
Proof.
  intros Hj. unfold rank_results. rewrite dispatch_received by done. unfold run.
  rewrite !zip_with_map_l. apply map_ext. intros p. unfold result_of. f_equal. lia.
Qed.

Lemma run_images expert i : i < size ->
  run expert (local_dispatch (a i)) = map (result_of expert i) (seq 0 (count i)).
Proof.
  intros Hi. unfold run, local_dispatch. destruct (flat_lengths (a i) (shaped i Hi)) as (Ht & Hids & Hw).
  rewrite <- (map_nth_seq (expanded (a i)) inhabitant), <- (map_nth_seq (flat_ids (a i)) 0%Z),
    <- (map_nth_seq (flat_weights (a i)) inhabitant), Ht, Hids, Hw.
  rewrite !zip_with_map_l. done.
Qed.

Lemma combine_per_token expert sum i : i < size ->
  combine size sum (rank_results expert) (fun j => (dispatch size a r j).2) i
  = reduced sum (per_token expert (a i)) (a i).
Proof.
  intros Hi. pose proof (run_per_token expert (a i) (shaped i Hi)) as (Hrun & Hlen & Hall).
  destruct (routed_facts i Hi) as (_ & _ & _ & _ & _ & Hord & _).
  change ((blocks <-? view_open (length (hidden (a i))) (slots (a i)) (index_select
    (exchange size (rank_results expert) (fun i => send_counts (r i)) (fun i => recv_counts size r i) i)
    (argsort (order (r i)))); Ok (map sum blocks))%py = reduced sum (per_token expert (a i)) (a i)).
  unfold view_open, reduced. destruct (_ =? 0); [done|].
  rewrite (exchange_back _ (result_of expert)) by (done || intros; by rewrite rank_results_received, over_received).
  rewrite Hord, (index_select_inverse _ _ _ (order_perm i Hi)), <- (run_images expert i Hi), Hrun, <- Hlen.
  by rewrite view_concat.
Qed.
End Exchange.

(** * Expert parallelism changes nothing but where experts run *)

Section Routing.
Context `{TensorOps} {T W : Type}.

Definition no_routing : routing (T := T) (W := W) :=
  {| start := 0; order := []; send_counts := []; sorted_tokens := []; sorted_ids := []; sorted_weights := [] |}.

Definition routed_or_none (r : res (routing (T := T) (W := W))) : routing :=
  match r with Ok r => r | Err _ => no_routing end.

Lemma route_returns size n rank (a : assignments (T := T) (W := W)) :
  (0 < n)%Z -> (n mod Z.of_nat size = 0)%Z -> Forall (fun id => 0 <= id < n)%Z (flat_ids a) ->
  route size (Some n) rank a = Ok (routed_or_none (route size (Some n) rank a)).
Proof.
  intros Hn Hmod Hids. unfold route, expert_range.
  destruct (Z.ltb_spec n 1); [lia|]. rewrite Hmod. simpl.
  destruct (existsb _ _) eqn:E; [|done]. exfalso. apply existsb_exists in E as (id & Hin & Hid).
  rewrite Forall_forall in Hids. specialize (Hids id (proj2 (list_elem_of_In _ _) Hin)). simpl in Hids.
  apply orb_true_iff in Hid as [Hid|Hid]; destr_bool; lia.
Qed.
End Routing.

(** C22. Expert parallelism is exact: when every rank of the group has ids within
    the experts, no rank raises before or in the exchanges, each rank only
    receives ids of its own experts, and combining the results of the experts
    wherever they ran returns, or raises, on every rank exactly what the local
    dispatcher returns or raises with all experts at hand: for each token the
    sum of its experts' results in slot order on a rank that has assignments,
    and a [RuntimeError] on a rank without any, whose empty rows cannot be
    viewed with a size left open. *)
Theorem expert_parallel_exact `{TensorLaws} {T W V : Type} `{!Inhabited T, !Inhabited W}
    size n (a : nat -> assignments (T := T) (W := W)) (expert : Z -> T -> W -> V) (sum : list V -> V) rank :
  (0 < n)%Z -> (n mod Z.of_nat size = 0)%Z ->
  (forall i, i < size -> well_formed (a i)) ->
  (forall i, i < size -> Forall (fun id => 0 <= id < n)%Z (flat_ids (a i))) ->
  rank < size ->
  let r i := routed_or_none (route size (Some n) i (a i)) in
  let results j := run (fun id t w => expert (start (r j) + id)%Z t w) (dispatch size a r j) in
  (forall i, i < size -> route size (Some n) i (a i) = Ok (r i))
  /\ Forall (fun id => 0 <= id < n / Z.of_nat size)%Z (dispatch size a r rank).1.1.2
  /\ combine size sum results (fun j => (dispatch size a r j).2) rank
     = local_combine sum (run expert (local_dispatch (a rank))) (local_dispatch (a rank)).2
  /\ (hidden (a rank) <> [] -> 0 < slots (a rank) ->
      local_combine sum (run expert (local_dispatch (a rank))) (local_dispatch (a rank)).2
      = Ok (map sum (per_token expert (a rank))))
  /\ (hidden (a rank) = [] \/ slots (a rank) = 0 ->
      is_ok (local_combine sum (run expert (local_dispatch (a rank))) (local_dispatch (a rank)).2) = false).
Proof.
  intros Hn Hmod Hwf Hids Hrank r results.
  assert (forall i, i < size -> route size (Some n) i (a i) = Ok (r i)) as Hr.
  { intros i Hi. apply route_returns; [done|done|by apply Hids]. }
  split; [exact Hr|]. split; [by apply (received_ids_local size n a r Hr Hwf)|].
  rewrite (local_combine_per_token expert sum (a rank) (Hwf rank Hrank)).
  split; [by apply (combine_per_token size n a r Hr Hwf)|]. unfold reduced. split.
  - intros Hh Hs. destruct (hidden (a rank)) as [|h hs]; [done|]. by rewrite (proj2 (Nat.eqb_neq _ 0)) by (cbn; lia).
  - intros [-> | ->]; [done|]. by rewrite Nat.mul_0_r.
Qed.

(** ** Two ranks, four experts *)

Definition rank_assignments (i : nat) : assignments (T := Z) (W := Z) :=
  match i with
  | 0 => {| hidden := [10; 20]%Z; slots := 2; expert_ids := [[3; 0]; [1; 2]]%Z; weights := [[1; 2]; [3; 4]]%Z |}
  | _ => {| hidden := [30]%Z; slots := 2; expert_ids := [[2; 3]]%Z; weights := [[5; 6]]%Z |}
  end.

(** A rank without tokens takes part in the exchanges and raises at the end. *)
Example empty_rank_raises :
  let a i := match i with 0 => rank_assignments 0 | _ => {| hidden := []; slots := 2; expert_ids := []; weights := [] |} end in
  let r i := routed_or_none (route (H := list_ops) 2 (Some 4%Z) i (a i)) in
  let results j := run (fun id t w => (start (r j) + id + 1) * t * w)%Z (dispatch (H := list_ops) 2 a r j) in
  map (fun i => is_ok (combine (H := list_ops) 2 list_sum_Z results (fun j => (dispatch (H := list_ops) 2 a r j).2) i)) [0; 1] = [true; false].
Proof. vm_compute. reflexivity. Qed.

Lemma expert_parallel_exact_witness :
  let a := rank_assignments in
  let r i := routed_or_none (route (H := list_ops) 2 (Some 4%Z) i (a i)) in
  let expert id t w := ((id + 1) * t * w)%Z in
  let results j := run (fun id t w => expert (start (r j) + id)%Z t w) (dispatch (H := list_ops) 2 a r j) in
  combine (H := list_ops) 2 list_sum_Z results (fun j => (dispatch (H := list_ops) 2 a r j).2) 0 = Ok [60; 360]%Z.
Proof.
  intros a r expert results.
  assert (forall i, i < 2 -> well_formed (a i)) as Hwf.
  { intros [|[|i]] Hi; [| |lia]; split; try reflexivity; repeat constructor. }
  assert (forall i, i < 2 -> Forall (fun id => 0 <= id < 4)%Z (flat_ids (a i))) as Hids.
  { intros [|[|i]] Hi; [| |lia]; repeat constructor; lia. }
  destruct (expert_parallel_exact (H := list_ops) (H0 := list_laws) 2 4%Z a expert list_sum_Z 0
    ltac:(lia) ltac:(reflexivity) Hwf Hids ltac:(lia)) as (_ & _ & Hc & Ho & _).
  etransitivity; [exact Hc|]. etransitivity; [apply Ho; [discriminate|cbn; lia]|]. vm_compute. reflexivity.
Defined.
