(* ===== verification/MoeDispatch.v ===== *)
(** * Expert-major dispatch and grouped experts

    [dsv41_train/models/dsv4/moe/dispatch.py] and the CPU path of
    [RoutedExperts.forward] in [moe/module.py]: assignments are sorted by
    expert, so that each expert works on one slice of the rows; across ranks
    the rows arrive by source rank and are reordered by local expert. *)

From S2P Require Import Torch ExpertDispatch.
Local Open Scope py_scope.

Section MoeDispatch.
Context `{TensorOps} {T W V : Type}.

Record moe_metadata := {
  m_token_count : nat;
  token_indices : list nat;
  rank_major_order : option (list nat);
  m_send_splits : option (list nat);
  m_recv_splits : option (list nat);
  m_topk : nat;
  m_inverse_order : option (list nat) }.

(** ** [TokenDispatcher] *)

Definition moe_expert_range (num_experts : Z) : res (Z * Z) :=
  raise_when (num_experts <? 1)%Z with_exn ValueError "num_experts must be positive";
  Ok (0, num_experts)%Z.

(** [torch.div(order, topk, rounding_mode="floor")] *)
Definition tokens_of (order : list nat) (topk : nat) : list nat := map (fun k => k / topk) order.

(** The rows, the rows per expert, the weights and the metadata. *)
Abbreviation moe_routed := (list T * list nat * list W * moe_metadata)%type.

Definition moe_local_dispatch (num_experts : option nat) (a : assignments (T := T) (W := W)) : res moe_routed :=
  match num_experts with
  | None => Err (RuntimeError "attach the dispatcher to an expert module before use")
  | Some n =>
      let order := argsort_stable (flat_ids a) in
      let indices := tokens_of order (slots a) in
      let counts := bincount (flat_ids a) n in
      Ok (index_select (hidden a) indices, counts, index_select (flat_weights a) order,
          {| m_token_count := length (hidden a); token_indices := indices; rank_major_order := None;
             m_send_splits := None; m_recv_splits := None; m_topk := slots a;
             m_inverse_order := Some (argsort order) |})
  end.

Definition moe_local_combine (sum : list V -> V) (results : list V) (m : moe_metadata) : res (list V) :=
  match m_inverse_order m with
  | None => Err (AssertionError "")
  | Some inverse => Ok (map sum (view (m_token_count m) (m_topk m) (index_select results inverse)))
  end.

(** ** [AllToAllTokenDispatcher] *)

(** [counts.t()], with the number of columns. *)
Definition transpose (columns : nat) (counts : list (list nat)) : list (list nat) :=
  map (fun e => map (fun row => nth e row 0) counts) (seq 0 columns).

(** [l.cumsum(0) - l] *)
Definition starts_of (l : list nat) : list nat := zip_with Nat.sub (cumsum l) l.

Definition expert_major_order (columns : nat) (counts : list (list nat)) (total : nat) : list nat :=
  let flat_counts := concat counts in
  let input_starts := concat (transpose columns (view (length counts) columns (starts_of flat_counts))) in
  let segment_lengths := concat (transpose columns counts) in
  let segment_ids := repeat_interleave (seq 0 (length segment_lengths)) segment_lengths in
  let output_starts := starts_of segment_lengths in
  zip_with Nat.sub (zip_with Nat.add (index_select input_starts segment_ids) (seq 0 total))
    (index_select output_starts segment_ids).

Context (size : nat).

(** What a rank computes before the exchanges. *)
Record moe_routing := {
  first_expert : Z;
  local_columns : nat;
  m_order : list nat;
  send_matrix : list (list nat);
  sorted_rows : list T;
  m_sorted_weights : list W }.

Definition moe_route (num_experts : option nat) (rank : nat) (a : assignments (T := T) (W := W)) : res moe_routing :=
  match num_experts with
  | None => Err (RuntimeError "attach the dispatcher to an expert module before use")
  | Some n =>
      range <-? expert_range size (Z.of_nat n) rank;
      let local_experts := Z.to_nat (range.2 - range.1) in
      raise_when existsb (fun id => (id <? 0) || (Z.of_nat n <=? id))%Z (flat_ids a)
        with_exn ValueError "expert ids are outside the configured expert range";
      let order := argsort_stable (flat_ids a) in
      let counts := bincount (flat_ids a) n in
      Ok {| first_expert := range.1; local_columns := local_experts; m_order := order;
            send_matrix := view size local_experts counts;
            sorted_rows := index_select (hidden a) (tokens_of order (slots a));
            m_sorted_weights := index_select (flat_weights a) order |}
  end.

(** One row of counts per pair of ranks. *)
Definition recv_matrix (r : nat -> moe_routing) (rank : nat) : list (list nat) :=
  all_to_all size (fun i => send_matrix (r i)) (fun _ => replicate size 1) (fun _ => replicate size 1) rank.

Definition moe_dispatch (a : nat -> assignments (T := T) (W := W)) (r : nat -> moe_routing) (rank : nat) : moe_routed :=
  let send i := map sum_list (send_matrix (r i)) in
  let recv i := map sum_list (recv_matrix r i) in
  let routed_hidden := exchange size (fun i => sorted_rows (r i)) recv send rank in
  let routed_weights := exchange size (fun i => m_sorted_weights (r i)) recv send rank in
  let columns := local_columns (r rank) in
  let expert_order := expert_major_order columns (recv_matrix r rank) (length routed_hidden) in
  (index_select routed_hidden expert_order,
   map sum_list (transpose columns (recv_matrix r rank)),
   index_select routed_weights expert_order,
   {| m_token_count := length (hidden (a rank));
      token_indices := tokens_of (m_order (r rank)) (slots (a rank));
      rank_major_order := Some (argsort expert_order);
      m_send_splits := Some (send rank); m_recv_splits := Some (recv rank);
      m_topk := slots (a rank); m_inverse_order := Some (argsort (m_order (r rank))) |}).

(** [hidden[metadata.rank_major_order]]: what a rank sends back. *)
Definition back_to_ranks (results : list V) (m : moe_metadata) : list V :=
  index_select results (default [] (rank_major_order m)).

Definition moe_combine (sum : list V -> V) (results : nat -> list V) (m : nat -> moe_metadata) (rank : nat) : res (list V) :=
  match rank_major_order (m rank), m_send_splits (m rank), m_recv_splits (m rank) with
  | Some _, Some _, Some _ =>
      moe_local_combine sum
        (exchange size (fun i => back_to_ranks (results i) (m i))
           (fun i => default [] (m_send_splits (m i))) (fun i => default [] (m_recv_splits (m i))) rank)
        (m rank)
  | _, _, _ => Err (AssertionError "")
  end.
End MoeDispatch.

(** ** [RoutedExperts.forward] *)

Section Experts.
Context {T W U M V : Type}.

(** [torch.split(x, sizes)] *)
Definition split {A} (sizes : list nat) (x : list A) : list (list A) :=
  map (fun e => segment sizes e x) (seq 0 (length sizes)).

(** [torch.cat([F.linear(rows, w) for rows, w in zip(torch.split(x, sizes), weights) if rows])] *)
Definition grouped_linear {A B} (num_experts : nat) (sizes : list nat) (linear : nat -> A -> B) (x : list A) : list B :=
  concat (map (fun p => map (linear p.2) p.1)
    (filter (fun p => p.1 <> []) (zip (split sizes x) (seq 0 num_experts)))).

(** [gate_up e] and [down e] are the projections of local expert [e] on a row,
    [swiglu] the weighted activation of a row.  Without rows the output is [x]
    itself, which has none. *)
Definition experts_forward (num_experts : nat) (gate_up : nat -> T -> U) (swiglu : U -> W -> M) (down : nat -> M -> V)
    (x : list T) (counts : list nat) (weights : list W) : list V :=
  if (length x =? 0) then []
  else grouped_linear num_experts counts down
         (zip_with swiglu (grouped_linear num_experts counts gate_up x) weights).
End Experts.
