(* ===== verification/MoeDispatchProofs.v ===== *)
(** * The expert-major order

    [_expert_major_order] turns rows that arrived by source rank, and by expert
    within a source, into rows by expert, and by source within an expert. *)

From S2P Require Import Torch TorchFacts ExpertDispatch ExpertDispatchProofs MoeDispatch.


Lemma zip_with_concat_map {A B C D} (f : B -> C -> D) (g : A -> list B) (h : A -> list C) l :
  Forall (fun x => length (g x) = length (h x)) l ->
  zip_with f (concat (map g l)) (concat (map h l)) = concat (map (fun x => zip_with f (g x) (h x)) l).
Proof. induction 1; simpl; [done|]. rewrite zip_with_app by done. by f_equal. Qed.

Lemma map_nth_slice {A} (l : list A) d a n : a + n <= length l \/ n = 0 ->
  map (fun k => nth k l d) (seq a n) = take n (drop a l).
Proof.
  intros [Hl| ->]; [|by rewrite take_0]. transitivity (take n (drop a (map (fun k => nth k l d) (seq 0 (length l)))));
    [|by rewrite map_nth_seq]. rewrite skipn_map, firstn_map, drop_seq, take_seq. do 2 f_equal. lia.
Qed.

Lemma sum_list_take_S l i : i < length l -> sum_list (take (S i) l) = sum_list (take i l) + nth i l 0.
Proof.
  intros Hi. rewrite (take_S_r _ _ (nth i l 0)); [by rewrite sum_list_with_app; simpl; lia|].
  destruct (nth_lookup_or_length l i 0) as [->|]; [done|lia].
Qed.

(** [seq 0] of a total, cut at the running sums. *)
Lemma seq_segments lens :
  seq 0 (sum_list lens)
  = concat (map (fun s => seq (sum_list (take s lens)) (nth s lens 0)) (seq 0 (length lens))).
Proof.
  induction lens as [|x lens IH] using rev_ind; [done|].
  rewrite sum_list_with_app, length_app, (Nat.add_comm (length lens)). cbn [length Nat.add].
  rewrite seq_S, map_app, concat_app. cbn. rewrite !Nat.add_0_r, app_nil_r, seq_app. f_equal.
  - rewrite IH. f_equal. apply map_seq_ext. intros s Hs. rewrite take_app_le, app_nth1 by lia. done.
  - by rewrite take_app_length, nth_middle.
Qed.

Section Laws.
Context `{TensorLaws}.

Lemma starts_of_eq l : starts_of l = map (fun s => sum_list (take s l)) (seq 0 (length l)).
Proof.
  unfold starts_of. rewrite cumsum_law.
  transitivity (zip_with Nat.sub (map (fun i => sum_list (take (S i) l)) (seq 0 (length l)))
    (map (fun i => nth i l 0) (seq 0 (length l)))); [by rewrite map_nth_seq|]. rewrite zip_with_map_l.
  apply map_seq_ext. intros i Hi. rewrite sum_list_take_S by done. lia.
Qed.

Lemma repeat_ids lens : repeat_interleave (seq 0 (length lens)) lens
  = concat (map (fun s => replicate (nth s lens 0) s) (seq 0 (length lens))).
Proof.
  rewrite repeat_interleave_law by (by rewrite length_seq).
  transitivity (concat (zip_with (fun a n => replicate n a) (map id (seq 0 (length lens)))
    (map (fun s => nth s lens 0) (seq 0 (length lens))))); [by rewrite map_nth_seq, map_id|].
  by rewrite zip_with_map_l.
Qed.

Lemma select_ids (f : nat -> nat) lens :
  index_select (map f (seq 0 (length lens))) (repeat_interleave (seq 0 (length lens)) lens)
  = concat (map (fun s => replicate (nth s lens 0) (f s)) (seq 0 (length lens))).
Proof.
  rewrite repeat_ids, index_select_map.
  - rewrite map_concat_map. f_equal. apply map_ext. intros s. apply (fmap_replicate f).
  - apply Forall_concat, Forall_forall. intros l (s & -> & Hs)%list_elem_of_fmap.
    apply Forall_replicate. apply elem_of_seq in Hs. lia.
Qed.

(** The index arithmetic enumerates each segment from its start. *)
Lemma order_segments (f : nat -> nat) lens :
  zip_with Nat.sub
    (zip_with Nat.add
       (index_select (map f (seq 0 (length lens))) (repeat_interleave (seq 0 (length lens)) lens))
       (seq 0 (sum_list lens)))
    (index_select (starts_of lens) (repeat_interleave (seq 0 (length lens)) lens))
  = concat (map (fun s => seq (f s) (nth s lens 0)) (seq 0 (length lens))).
Proof.
  rewrite starts_of_eq, !select_ids, seq_segments, !zip_with_concat_map.
  - f_equal. apply map_ext. intros s. generalize (sum_list (take s lens)) as o, (nth s lens 0) as n, (f s) as a.
    intros o n a. apply list_eq. intros i. rewrite !lookup_zip_with.
    destruct (decide (i < n)) as [Hi|Hi].
    + rewrite !lookup_replicate_2, !lookup_seq_lt by done. cbn. f_equal. lia.
    + rewrite !lookup_ge_None_2; [done|..]; rewrite ?length_seq, ?length_replicate; lia.
  - apply Forall_forall. intros s _. rewrite length_zip_with, !length_replicate, length_seq. lia.
  - apply Forall_forall. intros s _. by rewrite length_replicate, length_seq.
Qed.
End Laws.

(** ** Blocks indexed by source rank and local expert *)

Section Blocks.
Context `{TensorLaws} (s c : nat) (len : nat -> nat -> nat).

Definition by_source : list (nat * nat) := concat (map (fun i => map (fun e => (i, e)) (seq 0 c)) (seq 0 s)).
Definition by_expert : list (nat * nat) := concat (map (fun e => map (fun i => (i, e)) (seq 0 s)) (seq 0 c)).
Definition counts : list (list nat) := map (fun i => map (len i) (seq 0 c)) (seq 0 s).
Definition block_start (p : nat * nat) : nat := sum_list (take (p.1 * c + p.2) (concat counts)).
Definition block_length (p : nat * nat) : nat := len p.1 p.2.

Lemma concat_swap {A B C} (f : A -> B -> C) la lb :
  concat (map (fun b => map (fun a => f a b) la) lb) ≡ₚ concat (map (fun a => map (f a) lb) la).
Proof.
  induction la as [|a la IH]; simpl.
  - induction lb; simpl; done.
  - rewrite <- IH. clear IH. induction lb as [|b lb IH]; simpl; [done|].
    rewrite IH. solve_Permutation.
Qed.

Lemma by_expert_perm : by_expert ≡ₚ by_source.
Proof. apply (concat_swap (fun i e => (i, e))). Qed.

Lemma by_source_seq : by_source = map (fun k => (k / c, k mod c)) (seq 0 (s * c)).
Proof.
  unfold by_source. induction s as [|n IH]; [done|]. rewrite seq_S, map_app, concat_app, IH.
  replace (S n * c) with (n * c + c) by lia. rewrite seq_app, map_app. f_equal. simpl. rewrite app_nil_r.
  rewrite <- (Nat.add_0_r (n * c)) at 1.
  assert (forall m k, m + k <= c -> map (fun e => (n, e)) (seq m k) = map (fun k => (k / c, k mod c)) (seq (n * c + m) k)) as Hm.
  { intros m k. revert m. induction k as [|k IHk]; intros m Hk; [done|]. simpl. f_equal.
    - f_equal; [apply Nat.div_unique with m; lia|apply Nat.mod_unique with n; lia].
    - rewrite IHk by lia. by rewrite Nat.add_succ_r. }
  apply Hm. lia.
Qed.

Lemma block_index i e : e < c -> (i * c + e) / c = i /\ (i * c + e) mod c = e.
Proof. intros He. split; symmetry; [apply Nat.div_unique with e; lia|apply Nat.mod_unique with i; lia]. Qed.

Lemma counts_concat : concat counts = map block_length by_source.
Proof. unfold counts, by_source, block_length. rewrite map_concat_map. f_equal. apply map_ext. intros i. by rewrite map_map. Qed.

Lemma counts_length : length (concat counts) = s * c.
Proof. by rewrite counts_concat, by_source_seq, !length_map, length_seq. Qed.

Lemma transpose_matrix (h : nat -> nat -> nat) :
  concat (transpose c (map (fun i => map (h i) (seq 0 c)) (seq 0 s))) = map (fun p => h p.1 p.2) by_expert.
Proof.
  unfold transpose, by_expert. rewrite map_concat_map. f_equal. apply map_seq_ext. intros e He.
  rewrite !map_map. apply map_ext. intros i. by apply nth_map_seq.
Qed.

Lemma view_map_seq {A} (h : nat -> A) : view s c (map h (seq 0 (s * c))) = map (fun i => map (fun e => h (i * c + e)) (seq 0 c)) (seq 0 s).
Proof.
  unfold view. apply map_seq_ext. intros i Hi. rewrite skipn_map, firstn_map, drop_seq, take_seq.
  replace (c `min` (s * c - i * c)) with c by nia. rewrite Nat.add_0_l.
  pose proof (fmap_add_seq (i * c) 0 c) as E. rewrite Nat.add_0_r in E. rewrite <- E. apply map_map.
Qed.

Lemma starts_matrix : view s c (starts_of (concat counts)) = map (fun i => map (fun e => block_start (i, e)) (seq 0 c)) (seq 0 s).
Proof. rewrite starts_of_eq, counts_length. apply view_map_seq. Qed.

Definition total_rows : nat := sum_list (map block_length by_source).

(** The order takes the blocks expert by expert. *)
Lemma expert_major_order_eq :
  expert_major_order c counts total_rows = concat (map (fun p => seq (block_start p) (block_length p)) by_expert).
Proof.
  unfold expert_major_order. assert (length counts = s) as -> by (unfold counts; by rewrite length_map, length_seq).
  rewrite starts_matrix, !transpose_matrix.
  assert (concat (transpose c counts) = map block_length by_expert) as -> by apply (transpose_matrix len).
  unfold total_rows. rewrite <- by_expert_perm.
  set (lens := map block_length by_expert).
  assert (length lens = length by_expert) as Hlen by apply length_map.
  transitivity (concat (map (fun k => seq (nth k (map block_start by_expert) 0) (nth k lens 0)) (seq 0 (length lens)))).
  - rewrite <- order_segments. do 4 f_equal. rewrite Hlen, <- (length_map block_start). symmetry.
    etransitivity; [apply map_nth_seq|]. apply map_ext. by intros [].
  - f_equal. rewrite Hlen. unfold lens.
    transitivity (map (fun p => seq (block_start p) (block_length p)) (map (fun k => nth k by_expert (0, 0)) (seq 0 (length by_expert))));
      [|by rewrite map_nth_seq].
    rewrite map_map. apply map_seq_ext. intros k Hk.
    rewrite (nth_indep _ 0 (block_start (0, 0))), (nth_indep (map block_length _) 0 (block_length (0, 0))) by (by rewrite length_map).
    by rewrite !map_nth.
Qed.

Lemma source_blocks : concat (map (fun p => seq (block_start p) (block_length p)) by_source) = seq 0 total_rows.
Proof.
  unfold total_rows. rewrite <- counts_concat, seq_segments, counts_length. rewrite by_source_seq at 1. rewrite map_map.
  f_equal. apply map_seq_ext. intros k Hk. assert (c <> 0) as Hc by lia.
  unfold block_start. cbn [fst snd]. rewrite Nat.mul_comm, <- Nat.div_mod by done. f_equal.
  rewrite counts_concat, by_source_seq, map_map, nth_map_seq by done. done.
Qed.

Lemma expert_major_perm : expert_major_order c counts total_rows ≡ₚ seq 0 total_rows.
Proof.
  rewrite expert_major_order_eq, <- source_blocks. by rewrite by_expert_perm.
Qed.

(** Rows that arrived by source, taken in that order, are grouped by expert. *)
Lemma expert_major_rows {A} (Q : nat -> nat -> list A) (rows : list A) d :
  (forall i e, i < s -> e < c -> length (Q i e) = len i e) ->
  rows = concat (map (fun p => Q p.1 p.2) by_source) ->
  map (fun k => nth k rows d) (expert_major_order c counts total_rows) = concat (map (fun p => Q p.1 p.2) by_expert).
Proof.
  intros HQ ->. rewrite expert_major_order_eq, map_concat_map. f_equal. apply map_ext_in.
  intros [i e] Hp. assert (i < s /\ e < c) as [Hi He].
  { unfold by_expert in Hp. apply in_concat in Hp as (l & (e' & <- & He%in_seq)%in_map_iff & (i' & [= -> ->] & Hi%in_seq)%in_map_iff). lia. }
  cbn [fst snd]. set (pieces := map (fun p => Q p.1 p.2) by_source).
  assert (map length pieces = concat counts) as Hlens.
  { rewrite counts_concat. unfold pieces. rewrite map_map. apply map_ext_in. intros [i' e'] Hp'. apply HQ.
    all: unfold by_source in Hp'; apply in_concat in Hp' as (l & (i0 & <- & Hi0%in_seq)%in_map_iff & (e0 & [= -> ->] & He0%in_seq)%in_map_iff); cbn; lia. }
  assert (nth (i * c + e) pieces [] = Q i e) as Hnth.
  { unfold pieces. rewrite by_source_seq, map_map, nth_map_seq by nia. by destruct (block_index i e He) as [-> ->]. }
  pose proof (segment_concat pieces (i * c + e)) as Hseg. rewrite Hlens, Hnth in Hseg. unfold segment in Hseg.
  assert (nth (i * c + e) (concat counts) 0 = len i e) as Hl.
  { rewrite <- Hlens. change 0 with (length (@nil A)). rewrite map_nth, Hnth. by apply HQ. }
  rewrite Hl in Hseg. unfold block_length, block_start. cbn [fst snd]. rewrite <- Hseg. apply map_nth_slice.
  apply (f_equal length) in Hseg. rewrite length_take, length_drop, HQ in Hseg by done. lia.
Qed.
End Blocks.

(** * Expert-major dispatch computes what every token's experts compute *)

Local Open Scope py_scope.
(** ** Grouped projections *)

Lemma grouped_linear_blocks {A B} c (linear : nat -> A -> B) (X : nat -> list A) :
  grouped_linear c (map (fun e => length (X e)) (seq 0 c)) linear (concat (map X (seq 0 c)))
  = concat (map (fun e => map (linear e) (X e)) (seq 0 c)).
Proof.
  unfold grouped_linear, split. rewrite length_map, length_seq.
  assert (map (fun e => segment (map (fun e => length (X e)) (seq 0 c)) e (concat (map X (seq 0 c)))) (seq 0 c)
          = map X (seq 0 c)) as ->.
  { apply map_seq_ext. intros e He. rewrite <- (map_map X length), segment_concat. by apply nth_map_seq. }
  generalize (seq 0 c) as es. induction es as [|e es IH]; [done|]. cbn [map zip zip_with concat].
  rewrite filter_cons. destruct (decide _) as [Hx|Hx]; cbn [map concat].
  - by rewrite <- IH.
  - rewrite <- IH. cbn [fst] in Hx. destruct (X e); [done|by destruct Hx].
Qed.

Lemma seq_blocks {A} s c (f : nat -> A) :
  map f (seq 0 (s * c)) = concat (map (fun j => map (fun e => f (j * c + e)) (seq 0 c)) (seq 0 s)).
Proof.
  induction s as [|s IH]; [done|]. rewrite seq_S, map_app, concat_app, <- IH.
  replace (S s * c) with (s * c + c) by lia. rewrite seq_app, map_app. f_equal. cbn. rewrite app_nil_r.
  pose proof (fmap_add_seq (s * c) 0 c) as E. rewrite Nat.add_0_r in E. rewrite <- E. apply map_map.
Qed.

Lemma concat_concat_map {A B C} (f : A -> B -> list C) (g : A -> list B) l :
  concat (map (fun x => concat (map (f x) (g x))) l) = concat (map (fun p => f p.1 p.2) (concat (map (fun x => map (pair x) (g x)) l))).
Proof.
  induction l as [|x l IH]; [done|]. cbn [map concat]. rewrite map_app, concat_app, IH, map_map. done.
Qed.

Lemma nth_expanded {A} (hs : list A) s k d : k < length hs * s ->
  nth k (concat (map (replicate s) hs)) d = nth (k / s) hs d.
Proof.
  revert k. induction hs as [|h hs IH]; intros k Hk; simpl in *; [lia|].
  destruct (decide (k < s)) as [Hs|Hs].
  - rewrite app_nth1 by (by rewrite length_replicate). rewrite Nat.div_small by done. simpl.
    apply nth_lookup_Some. by apply lookup_replicate_2.
  - rewrite app_nth2; rewrite length_replicate; [|lia]. rewrite IH by lia.
    replace (k / s) with (S ((k - s) / s)); [done|]. symmetry.
    replace k with (k - s + 1 * s) at 1 by lia. rewrite Nat.div_add by lia. lia.
Qed.

Section Exactness.
Context `{TensorLaws} {T W U M V : Type} `{!Inhabited T, !Inhabited W, !Inhabited V}.
Context (gate_up : nat -> T -> U) (swiglu : U -> W -> M) (down : nat -> M -> V).

(** A row through the expert with a global id. *)
Definition expert_row (id : Z) (t : T) (w : W) : V := down (Z.to_nat id) (swiglu (gate_up (Z.to_nat id) t) w).

Lemma experts_forward_blocks {K} c (up' : nat -> T -> U) (down' : nat -> M -> V)
    (tok : K -> T) (wt : K -> W) (blocks : nat -> list K) :
  experts_forward c up' swiglu down' (concat (map (fun e => map tok (blocks e)) (seq 0 c)))
    (map (fun e => length (blocks e)) (seq 0 c)) (concat (map (fun e => map wt (blocks e)) (seq 0 c)))
  = concat (map (fun e => map (fun k => down' e (swiglu (up' e (tok k)) (wt k))) (blocks e)) (seq 0 c)).
Proof.
  unfold experts_forward. destruct (Nat.eqb_spec (length (concat (map (fun e => map tok (blocks e)) (seq 0 c)))) 0) as [Hl|_].
  - assert (concat (map blocks (seq 0 c)) = []) as Hn.
    { apply length_zero_iff_nil. rewrite <- (length_map tok), map_concat_map. exact Hl. }
    symmetry. apply length_zero_iff_nil. rewrite <- sum_list_lengths, map_map.
    transitivity (sum_list (map (fun e => length (blocks e)) (seq 0 c))).
    + f_equal. apply map_ext. intros e. apply length_map.
    + by rewrite <- (map_map blocks length), sum_list_lengths, Hn.
  - assert (forall (A : Type) (g : K -> A), map (fun e => length (blocks e)) (seq 0 c) = map (fun e => length (map g (blocks e))) (seq 0 c)) as Hlen
      by (intros; apply map_ext; intros; by rewrite length_map).
    rewrite (Hlen _ tok) at 2. rewrite grouped_linear_blocks, zip_with_concat_map.
    + transitivity (grouped_linear c (map (fun e => length (map (fun k => swiglu (up' e (tok k)) (wt k)) (blocks e))) (seq 0 c)) down'
        (concat (map (fun e => map (fun k => swiglu (up' e (tok k)) (wt k)) (blocks e)) (seq 0 c)))).
      * f_equal; [apply map_ext; intros; by rewrite !length_map|]. f_equal. apply map_ext. intros e.
        by rewrite map_map, zip_with_map_l.
      * rewrite grouped_linear_blocks. f_equal. apply map_ext. intros e. apply map_map.
    + apply Forall_forall. intros e _. by rewrite !length_map.
Qed.

(** ** One rank *)

Definition key_block (a : assignments (T := T) (W := W)) (e : nat) : list nat := positions (flat_ids a) (Z.of_nat e).
Definition row_of (a : assignments (T := T) (W := W)) (k : nat) : T := nth (k / slots a) (hidden a) inhabitant.
Definition weight_of (a : assignments (T := T) (W := W)) (k : nat) : W := nth k (flat_weights a) inhabitant.
Definition row_result (a : assignments (T := T) (W := W)) (k : nat) : V :=
  expert_row (nth k (flat_ids a) 0%Z) (row_of a k) (weight_of a k).
Definition rows_count (a : assignments (T := T) (W := W)) : nat := length (hidden a) * slots a.

Lemma sorted_inputs a order : well_formed a -> order ≡ₚ seq 0 (rows_count a) ->
  index_select (hidden a) (tokens_of order (slots a)) = map (row_of a) order
  /\ index_select (flat_weights a) order = map (weight_of a) order.
Proof.
  intros Hwf Hp. destruct (flat_lengths a Hwf) as (_ & _ & Hw).
  assert (Forall (fun k => k < rows_count a) order) as Hr.
  { rewrite Hp. apply Forall_forall. intros k Hk%elem_of_seq. lia. }
  split.
  - rewrite <- (map_nth_seq (hidden a) inhabitant) at 1. rewrite index_select_map.
    + unfold tokens_of. by rewrite map_map.
    + unfold tokens_of. apply Forall_fmap. eapply Forall_impl; [exact Hr|]. unfold rows_count. intros k Hk. cbn.
      apply Nat.Div0.div_lt_upper_bound. lia.
  - rewrite <- (map_nth_seq (flat_weights a) inhabitant) at 1. rewrite Hw. by rewrite index_select_map.
Qed.

Lemma run_rows a : well_formed a ->
  run expert_row (local_dispatch a) = map (row_result a) (seq 0 (rows_count a)).
Proof.
  intros Hwf. unfold run, local_dispatch. destruct (flat_lengths a Hwf) as (Ht & Hids & Hw).
  rewrite <- (map_nth_seq (expanded a) inhabitant), <- (map_nth_seq (flat_ids a) 0%Z),
    <- (map_nth_seq (flat_weights a) inhabitant), Ht, Hids, Hw.
  rewrite !zip_with_map_l. apply map_seq_ext. intros k Hk. unfold row_result, row_of, weight_of, expanded.
  by rewrite nth_expanded.
Qed.

(** Results in sorted order, put back and summed per token. *)
Lemma restore_per_token a order (sum : list V -> V) : well_formed a -> order ≡ₚ seq 0 (rows_count a) ->
  map sum (view (length (hidden a)) (slots a) (index_select (map (row_result a) order) (argsort order)))
  = map sum (per_token expert_row a).
Proof.
  intros Hwf Hp. rewrite (index_select_inverse _ _ _ Hp), <- run_rows by done.
  destruct (run_per_token expert_row a Hwf) as (-> & <- & Hall). by rewrite view_concat.
Qed.

Lemma block_result a e k : k ∈ key_block a e ->
  row_result a k = down e (swiglu (gate_up e (row_of a k)) (weight_of a k)).
Proof.
  intros Hk%elem_of_positions. unfold row_result, expert_row. by rewrite (nth_lookup_Some _ _ _ _ Hk), Nat2Z.id.
Qed.

Lemma flat_order a n : well_formed a -> Forall (fun id => 0 <= id < Z.of_nat n)%Z (flat_ids a) ->
  argsort_stable (flat_ids a) = concat (map (key_block a) (seq 0 n))
  /\ argsort_stable (flat_ids a) ≡ₚ seq 0 (rows_count a)
  /\ bincount (flat_ids a) n = map (fun e => length (key_block a e)) (seq 0 n).
Proof.
  intros Hwf Hids. destruct (flat_lengths a Hwf) as (_ & Hl & _).
  split; [by apply argsort_stable_grouped|]. split; [by rewrite argsort_stable_perm, Hl|by apply bincount_grouped].
Qed.

(** The local dispatcher. *)
Lemma moe_local_exact n a (sum : list V -> V) : well_formed a -> Forall (fun id => 0 <= id < Z.of_nat n)%Z (flat_ids a) ->
  exists x counts ws m, moe_local_dispatch (Some n) a = Ok (x, counts, ws, m)
  /\ moe_local_combine sum (experts_forward n gate_up swiglu down x counts ws) m = Ok (map sum (per_token expert_row a)).
Proof.
  intros Hwf Hids. destruct (flat_order a n Hwf Hids) as (Hord & Hp & Hcounts).
  destruct (sorted_inputs a _ Hwf Hp) as [Hrows Hws].
  do 4 eexists. split; [reflexivity|]. unfold moe_local_combine. cbn [m_inverse_order m_token_count m_topk].
  rewrite Hrows, Hws, Hcounts. rewrite Hord at 1 2. rewrite !map_concat_map, experts_forward_blocks.
  rewrite <- (restore_per_token a _ sum Hwf Hp). do 4 f_equal. rewrite Hord, map_concat_map. f_equal.
  apply map_seq_ext. intros e He. apply map_ext_in. intros k Hk%list_elem_of_In. symmetry. by apply block_result.
Qed.
End Exactness.

(** * Expert-major dispatch across ranks

    The rows a rank receives, the results it sends back, and the combination:
    exact for every rank of the group. *)

Local Open Scope py_scope.
Section Exchange.
Context `{TensorLaws} {T W U M V : Type} `{!Inhabited T, !Inhabited W, !Inhabited V}.
Context (gate_up : nat -> T -> U) (swiglu : U -> W -> M) (down : nat -> M -> V).
Context (size n : nat) (a : nat -> assignments (T := T) (W := W)) (r : nat -> moe_routing (T := T) (W := W)).
Context (routed : forall i, i < size -> moe_route size (Some n) i (a i) = Ok (r i)).
Context (shaped : forall i, i < size -> well_formed (a i)).

Definition columns : nat := n / size.
(** The assignments of rank [i] for local expert [e] of rank [j]. *)
Definition block (j i e : nat) : list nat := key_block (a i) (j * columns + e).
Definition rank_block (i j : nat) : list nat := concat (map (block j i) (seq 0 columns)).

Lemma moe_routed_facts i : i < size ->
  n = size * columns /\ Forall (fun id => 0 <= id < Z.of_nat n)%Z (flat_ids (a i))
  /\ first_expert (r i) = (Z.of_nat (i * columns))%Z /\ local_columns (r i) = columns
  /\ m_order (r i) = argsort_stable (flat_ids (a i))
  /\ send_matrix (r i) = view size columns (bincount (flat_ids (a i)) n)
  /\ sorted_rows (r i) = index_select (hidden (a i)) (tokens_of (argsort_stable (flat_ids (a i))) (slots (a i)))
  /\ m_sorted_weights (r i) = index_select (flat_weights (a i)) (argsort_stable (flat_ids (a i))).
Proof.
  intros Hi. pose proof (routed i Hi) as Hr. unfold moe_route in Hr.
  destruct (expert_range size (Z.of_nat n) i) as [se|] eqn:Ese; [|done].
  destruct (expert_range_ok size (Z.of_nat n) i se Ese ltac:(lia)) as (Hn & Hdiv & ->).
  rewrite <- Nat2Z.inj_div in *. fold columns in Hdiv, Hr. cbn [fst snd] in Hr.
  destruct (existsb _ _) eqn:Eid; [done|].
  replace (Z.to_nat _) with columns in Hr by lia. injection Hr as <-. simpl.
  split; [lia|]. split; [|split; [lia|done]].
  apply Forall_forall. intros id Hid. apply not_true_iff_false in Eid.
  assert (negb ((id <? 0) || (Z.of_nat n <=? id))%Z = true) as E; [|destr_bool; lia].
  apply negb_true_iff, not_true_iff_false. intros E. apply Eid, existsb_exists. exists id.
  split; [by apply list_elem_of_In|done].
Qed.

Lemma rank_order i : i < size -> argsort_stable (flat_ids (a i)) = concat (map (rank_block i) (seq 0 size)).
Proof.
  intros Hi. destruct (moe_routed_facts i Hi) as (Hn & Hids & _).
  destruct (flat_order (a i) n (shaped i Hi) Hids) as (-> & _). rewrite Hn, seq_blocks.
  unfold rank_block, block. generalize (seq 0 size) as js. induction js as [|j js IH]; [done|].
  cbn [map concat]. by rewrite concat_app, IH.
Qed.

Lemma rank_order_perm i : i < size -> argsort_stable (flat_ids (a i)) ≡ₚ seq 0 (rows_count (a i)).
Proof. intros Hi. destruct (moe_routed_facts i Hi) as (_ & Hids & _). by destruct (flat_order (a i) n (shaped i Hi) Hids) as (_ & ? & _). Qed.

Lemma send_matrix_blocks i : i < size ->
  send_matrix (r i) = map (fun j => map (fun e => length (block j i e)) (seq 0 columns)) (seq 0 size).
Proof.
  intros Hi. destruct (moe_routed_facts i Hi) as (Hn & Hids & _ & _ & _ & -> & _).
  destruct (flat_order (a i) n (shaped i Hi) Hids) as (_ & _ & ->). rewrite Hn. apply view_map_seq.
Qed.

Lemma recv_matrix_blocks j : j < size ->
  recv_matrix size r j = counts size columns (fun i e => length (block j i e)).
Proof.
  intros Hj. unfold recv_matrix. rewrite (exchange_one size (fun i j => map (fun e => length (block j i e)) (seq 0 columns))).
  - done.
  - done.
  - apply send_matrix_blocks.
Qed.

Lemma block_sum i j : sum_list (map (fun e => length (block j i e)) (seq 0 columns)) = length (rank_block i j).
Proof. unfold rank_block. rewrite <- sum_list_lengths. by rewrite map_map. Qed.

Lemma send_lengths i : i < size -> map sum_list (send_matrix (r i)) = map (fun j => length (rank_block i j)) (seq 0 size).
Proof. intros Hi. rewrite send_matrix_blocks, map_map by done. apply map_ext. intros j. apply block_sum. Qed.

Lemma recv_lengths j : j < size -> map sum_list (recv_matrix size r j) = map (fun i => length (rank_block i j)) (seq 0 size).
Proof. intros Hj. rewrite recv_matrix_blocks by done. unfold counts. rewrite map_map. apply map_ext. intros i. apply block_sum. Qed.

(** The blocks of rank [j] in the order they arrive. *)
Definition arrived {A} (g : nat -> nat -> A) (j : nat) : list A :=
  concat (map (fun p => map (g p.1) (block j p.1 p.2)) (by_source size columns)).
Definition by_local_expert {A} (g : nat -> nat -> A) (j : nat) : list A :=
  concat (map (fun p => map (g p.1) (block j p.1 p.2)) (by_expert size columns)).

Lemma arrived_ranks {A} (g : nat -> nat -> A) j :
  concat (map (fun i => map (g i) (rank_block i j)) (seq 0 size)) = arrived g j.
Proof.
  unfold arrived, by_source, rank_block.
  rewrite <- (concat_concat_map (fun i e => map (g i) (block j i e)) (fun _ => seq 0 columns)).
  f_equal. apply map_ext. intros i. by rewrite map_concat_map.
Qed.

Lemma arrived_length {A} (g : nat -> nat -> A) j :
  length (arrived g j) = total_rows size columns (fun i e => length (block j i e)).
Proof.
  unfold arrived, total_rows, block_length. rewrite <- sum_list_lengths, map_map. f_equal. apply map_ext.
  intros p. apply length_map.
Qed.

Definition rank_expert_order (j : nat) : list nat :=
  expert_major_order columns (counts size columns (fun i e => length (block j i e)))
    (total_rows size columns (fun i e => length (block j i e))).

Lemma rank_expert_order_perm j : rank_expert_order j ≡ₚ seq 0 (total_rows size columns (fun i e => length (block j i e))).
Proof. exact (expert_major_perm size columns (fun i e => length (block j i e))). Qed.

Lemma reorder_images {A} (g : nat -> nat -> A) j d :
  map (fun k => nth k (arrived g j) d) (rank_expert_order j) = by_local_expert g j.
Proof.
  refine (expert_major_rows size columns (fun i e => length (block j i e)) (fun i e => map (g i) (block j i e))
    (arrived g j) d _ eq_refl). intros i e _ _. apply length_map.
Qed.

Lemma reorder_arrived {A} `{Inhabited A} (g : nat -> nat -> A) j :
  index_select (arrived g j) (rank_expert_order j) = by_local_expert g j.
Proof.
  rewrite <- (reorder_images g j inhabitant). rewrite <- (map_nth_seq (arrived g j) inhabitant) at 1.
  rewrite index_select_map; [done|]. rewrite rank_expert_order_perm, arrived_length.
  apply Forall_forall. intros k Hk%elem_of_seq. lia.
Qed.

(** Taken back to the order of arrival. *)
Lemma arrival_order {A} `{Inhabited A} (g : nat -> nat -> A) j :
  index_select (by_local_expert g j) (argsort (rank_expert_order j)) = arrived g j.
Proof.
  rewrite <- (reorder_images g j inhabitant), (index_select_inverse _ _ _ (rank_expert_order_perm j)).
  rewrite <- (arrived_length g). apply map_nth_seq.
Qed.

(** The rows of local expert [e], by source, as pairs of source and flat index. *)
Definition expert_rows (j e : nat) : list (nat * nat) := concat (map (fun i => map (pair i) (block j i e)) (seq 0 size)).

Lemma by_local_expert_blocks {A} (g : nat -> nat -> A) j :
  by_local_expert g j = concat (map (fun e => map (fun p => g p.1 p.2) (expert_rows j e)) (seq 0 columns)).
Proof.
  unfold by_local_expert, by_expert, expert_rows. generalize (seq 0 columns) as es.
  induction es as [|e es IH]; [done|]. cbn [map concat]. rewrite map_app, concat_app, IH. f_equal.
  rewrite map_concat_map, map_map. f_equal. apply map_ext. intros i. cbn. by rewrite map_map.
Qed.

Lemma expert_rows_length j e : length (expert_rows j e) = sum_list (map (fun i => length (block j i e)) (seq 0 size)).
Proof. unfold expert_rows. rewrite <- sum_list_lengths, map_map. f_equal. apply map_ext. intros i. apply length_map. Qed.

Lemma rank_exchange {A} (t : nat -> list A) (g : nat -> nat -> A) j : j < size ->
  (forall i, i < size -> t i = map (g i) (argsort_stable (flat_ids (a i)))) ->
  exchange size t (fun i => map sum_list (recv_matrix size r i)) (fun i => map sum_list (send_matrix (r i))) j = arrived g j.
Proof.
  intros Hj Ht. rewrite <- arrived_ranks. apply (owned_to size rank_block); [apply send_lengths|apply recv_lengths|done|].
  intros i Hi. rewrite Ht, rank_order by done. apply map_concat_map.
Qed.

(** What [moe_dispatch] gives rank [j]. *)
Lemma moe_dispatch_blocks j : j < size -> exists m,
  moe_dispatch size a r j =
    (by_local_expert (fun i => row_of (a i)) j, map (fun e => length (expert_rows j e)) (seq 0 columns),
     by_local_expert (fun i => weight_of (a i)) j, m)
  /\ m_token_count m = length (hidden (a j)) /\ m_topk m = slots (a j)
  /\ m_send_splits m = Some (map sum_list (send_matrix (r j))) /\ m_recv_splits m = Some (map sum_list (recv_matrix size r j))
  /\ rank_major_order m = Some (argsort (rank_expert_order j))
  /\ m_inverse_order m = Some (argsort (argsort_stable (flat_ids (a j)))).
Proof.
  intros Hj. destruct (moe_routed_facts j Hj) as (_ & _ & _ & Hcol & Hord & _).
  unfold moe_dispatch. rewrite Hcol, Hord, (recv_matrix_blocks j Hj).
  rewrite (rank_exchange _ (fun i => row_of (a i))), (rank_exchange _ (fun i => weight_of (a i))); try done.
  - rewrite arrived_length. fold (rank_expert_order j). rewrite !reorder_arrived. eexists. split; [apply f_equal2; [|reflexivity]|done].
    do 2 f_equal. unfold transpose, counts. rewrite map_map. apply map_seq_ext. intros e He.
    rewrite expert_rows_length, map_map. f_equal. apply map_ext. intros i.
    exact (nth_map_seq (fun e => length (block j i e)) columns e 0 He).
  - intros i Hi. destruct (moe_routed_facts i Hi) as (_ & _ & _ & _ & _ & _ & _ & ->).
    by apply sorted_inputs, rank_order_perm; [apply shaped|].
  - intros i Hi. destruct (moe_routed_facts i Hi) as (_ & _ & _ & _ & _ & _ & -> & _).
    by apply sorted_inputs, rank_order_perm; [apply shaped|].
Qed.

(** The experts of rank [j] on the rows it received. *)
Definition rank_forward (j : nat) : list V :=
  let '(x, counts, ws, _) := moe_dispatch size a r j in
  experts_forward columns (fun e => gate_up (Z.to_nat (first_expert (r j)) + e)) swiglu
    (fun e => down (Z.to_nat (first_expert (r j)) + e)) x counts ws.

Lemma rank_forward_blocks j : j < size ->
  rank_forward j = by_local_expert (fun i => row_result gate_up swiglu down (a i)) j.
Proof.
  intros Hj. destruct (moe_routed_facts j Hj) as (_ & _ & Hfirst & _).
  unfold rank_forward. destruct (moe_dispatch_blocks j Hj) as (m & -> & _). rewrite Hfirst, Nat2Z.id.
  rewrite !by_local_expert_blocks, experts_forward_blocks. f_equal. apply map_seq_ext. intros e He.
  apply map_ext_in. intros [i k] Hk. cbn [fst snd].
  assert (k ∈ key_block (a i) (j * columns + e)) as Hin.
  { unfold expert_rows in Hk. apply in_concat in Hk as (l & (i' & <- & _)%in_map_iff & (k' & [= -> ->] & Hk)%in_map_iff).
    by apply list_elem_of_In. }
  symmetry. by apply block_result.
Qed.

Lemma moe_combine_per_token (sum : list V -> V) i : i < size ->
  moe_combine size sum rank_forward (fun j => (moe_dispatch size a r j).2) i
  = Ok (map sum (per_token (expert_row gate_up swiglu down) (a i))).
Proof.
  intros Hi. unfold moe_combine. destruct (moe_dispatch_blocks i Hi) as (m & Hm & Hcount & Htopk & Hsend & Hrecv & Hback & Hinv).
  rewrite Hm. cbn [snd]. rewrite Hsend, Hrecv, Hback. unfold moe_local_combine. rewrite Hinv, Hcount, Htopk.
  destruct (moe_routed_facts i Hi) as (_ & Hids & _).
  destruct (flat_order (a i) n (shaped i Hi) Hids) as (_ & Hp & _).
  f_equal. rewrite <- (restore_per_token gate_up swiglu down (a i) _ sum (shaped i Hi) Hp). do 3 f_equal.
  change (exchange size (fun j => back_to_ranks (rank_forward j) (moe_dispatch size a r j).2)
    (fun j => map sum_list (send_matrix (r j))) (fun j => map sum_list (recv_matrix size r j)) i
    = map (row_result gate_up swiglu down (a i)) (argsort_stable (flat_ids (a i)))).
  rewrite rank_order by done.
  apply (owned_back size rank_block) with (g := fun i => row_result gate_up swiglu down (a i));
    [apply send_lengths|apply recv_lengths|done|].
  intros j Hj. destruct (moe_dispatch_blocks j Hj) as (mj & -> & _ & _ & _ & _ & Hbackj & _). cbn [snd].
  unfold back_to_ranks. rewrite Hbackj, rank_forward_blocks by done. cbn [default id].
  rewrite arrival_order. symmetry. apply arrived_ranks.
Qed.
End Exchange.

(** * Expert-parallel mixture of experts *)

Section Routing.
Context `{TensorOps} {T W : Type}.

Definition no_moe_routing : moe_routing (T := T) (W := W) :=
  {| first_expert := 0; local_columns := 0; m_order := []; send_matrix := []; sorted_rows := []; m_sorted_weights := [] |}.

Definition moe_routed_or_none (r : res (moe_routing (T := T) (W := W))) : moe_routing :=
  match r with Ok r => r | Err _ => no_moe_routing end.

Lemma moe_route_returns size n rank (a : assignments (T := T) (W := W)) :
  0 < n -> n mod size = 0 -> Forall (fun id => 0 <= id < Z.of_nat n)%Z (flat_ids a) ->
  moe_route size (Some n) rank a = Ok (moe_routed_or_none (moe_route size (Some n) rank a)).
Proof.
  intros Hn Hmod Hids. unfold moe_route, expert_range.
  destruct (Z.ltb_spec (Z.of_nat n) 1); [lia|]. rewrite <- Nat2Z.inj_mod, Hmod. simpl.
  destruct (existsb _ _) eqn:E; [|done]. exfalso. apply existsb_exists in E as (id & Hin & Hid).
  rewrite Forall_forall in Hids. specialize (Hids id (proj2 (list_elem_of_In _ _) Hin)). simpl in Hids.
  apply orb_true_iff in Hid as [Hid|Hid]; destr_bool; lia.
Qed.
End Routing.

(** C16. The expert-parallel mixture of experts is exact: every rank of the
    group routes its assignments, and exchanging rows, reordering them by local
    expert, running the grouped experts, and bringing the results back gives
    each rank, for each of its tokens, the sum of its own experts' results in
    slot order, which is also what the local dispatcher gives with all experts
    on one rank. *)
Theorem moe_expert_parallel_exact `{TensorLaws} {T W U M V : Type} `{!Inhabited T, !Inhabited W, !Inhabited V}
    (gate_up : nat -> T -> U) (swiglu : U -> W -> M) (down : nat -> M -> V) (sum : list V -> V)
    size n (a : nat -> assignments (T := T) (W := W)) rank :
  0 < n -> n mod size = 0 ->
  (forall i, i < size -> well_formed (a i)) ->
  (forall i, i < size -> Forall (fun id => 0 <= id < Z.of_nat n)%Z (flat_ids (a i))) ->
  rank < size ->
  let r i := moe_routed_or_none (moe_route size (Some n) i (a i)) in
  let outputs := map sum (per_token (expert_row gate_up swiglu down) (a rank)) in
  (forall i, i < size -> moe_route size (Some n) i (a i) = Ok (r i))
  /\ moe_combine size sum (rank_forward gate_up swiglu down size n a r) (fun j => (moe_dispatch size a r j).2) rank
     = Ok outputs
  /\ exists x counts ws m, moe_local_dispatch (Some n) (a rank) = Ok (x, counts, ws, m)
     /\ moe_local_combine sum (experts_forward n gate_up swiglu down x counts ws) m = Ok outputs.
Proof.
  intros Hn Hmod Hwf Hids Hrank r outputs.
  assert (forall i, i < size -> moe_route size (Some n) i (a i) = Ok (r i)) as Hr.
  { intros i Hi. apply moe_route_returns; [done|done|by apply Hids]. }
  split; [exact Hr|]. split; [by apply (moe_combine_per_token gate_up swiglu down size n a r Hr Hwf)|].
  apply moe_local_exact; [by apply Hwf|by apply Hids].
Qed.

(** ** Two ranks, four experts, two of them without rows on one rank *)

Definition moe_assignments (i : nat) : assignments (T := Z) (W := Z) :=
  match i with
  | 0 => {| hidden := [10; 20]%Z; slots := 2; expert_ids := [[3; 0]; [3; 1]]%Z; weights := [[1; 2]; [3; 4]]%Z |}
  | _ => {| hidden := [30]%Z; slots := 2; expert_ids := [[0; 3]]%Z; weights := [[5; 6]]%Z |}
  end.

Lemma moe_expert_parallel_exact_witness :
  let a := moe_assignments in
  let r i := moe_routed_or_none (moe_route (H := list_ops) 2 (Some 4) i (a i)) in
  let gate_up (e : nat) (t : Z) := (Z.of_nat e * 100 + t)%Z in
  let down (e : nat) (m : Z) := (m - Z.of_nat e)%Z in
  moe_combine (H := list_ops) 2 list_sum_Z (rank_forward (H := list_ops) gate_up Z.mul down 2 4 a r)
    (fun j => (moe_dispatch (H := list_ops) 2 a r j).2) 0 = Ok [327; 1436]%Z.
Proof.
  intros a r gate_up down.
  assert (forall i, i < 2 -> well_formed (a i)) as Hwf.
  { intros [|[|i]] Hi; [| |lia]; split; try reflexivity; repeat constructor. }
  assert (forall i, i < 2 -> Forall (fun id => 0 <= id < Z.of_nat 4)%Z (flat_ids (a i))) as Hids.
  { intros [|[|i]] Hi; [| |lia]; repeat constructor; lia. }
  destruct (moe_expert_parallel_exact (H := list_ops) (H0 := list_laws) gate_up Z.mul down list_sum_Z 2 4 a 0
    ltac:(lia) ltac:(reflexivity) Hwf Hids ltac:(lia)) as (_ & Hc & _).
  etransitivity; [exact Hc|]. vm_compute. reflexivity.
Defined.
