(* ===== verification/RowSharded.v ===== *)
(** * Row-sharded embedding tables ([RowShardedEmbedding] in [dsv41_train/models/dsv4/model.py])

    Each rank keeps a contiguous range of rows, the first ranks one row more;
    a lookup is routed to the owner of the row and comes back.  Scaling the
    gradient is the identity on values. *)

From S2P Require Import Torch TorchFacts.
Local Open Scope Z_scope.
Local Open Scope py_scope.

Section RowSharded.
Context `{TensorOps} {R : Type} (size : nat) (num_embeddings : Z).

Definition base : Z := num_embeddings / Z.of_nat size.
Definition remainder : Z := num_embeddings mod Z.of_nat size.

(** The rows of [rank]: [row_start] and [row_stop]. *)
Definition row_start (rank : nat) : Z := Z.of_nat rank * base + Z.min (Z.of_nat rank) remainder.
Definition row_stop (rank : nat) : Z :=
  row_start rank + base + (if Z.of_nat rank <? remainder then 1 else 0).

(** The check of [__init__]. *)
Definition check_table : res unit :=
  raise_if (num_embeddings <? Z.of_nat size) (ValueError "embedding rows must be at least the embedding mesh size").

(** The shard of a table that [rank] holds. *)
Definition shard_rows (table : list R) (rank : nat) : list R :=
  take (Z.to_nat (row_stop rank - row_start rank)) (drop (Z.to_nat (row_start rank)) table).

(** [F.embedding] *)
Definition lookup_rows (weight : list R) (indices : list Z) : list R := index_select weight (map Z.to_nat indices).

Definition large_rows : Z := (base + 1) * remainder.

Definition owner (row : Z) : Z :=
  if row <? large_rows then row / (base + 1) else remainder + (row - large_rows) / base.

Record row_routing := { row_order : list nat; row_counts : list nat; sorted_rows_wanted : list Z }.

(** What a rank computes before the exchanges; [flat] are its indices. *)
Definition route_rows (flat : list Z) : res row_routing :=
  raise_when existsb (fun row => (row <? 0) || (num_embeddings <=? row)) flat
    with_exn IndexError "embedding index is outside the configured row range";
  let owners := map owner flat in
  let order := argsort_stable owners in
  Ok {| row_order := order; row_counts := bincount owners size; sorted_rows_wanted := index_select flat order |}.

Definition rows_recv_counts (r : nat -> row_routing) (rank : nat) : list nat :=
  all_to_all size (fun i => row_counts (r i)) (fun _ => replicate size 1%nat) (fun _ => replicate size 1%nat) rank.

(** The rows a rank looks up for the group. *)
Definition serve_rows (table : list R) (r : nat -> row_routing) (rank : nat) : list R :=
  let routed := all_to_all size (fun i => sorted_rows_wanted (r i)) (fun i => row_counts (r i))
                  (fun i => rows_recv_counts r i) rank in
  lookup_rows (shard_rows table rank) (map (fun row => row - row_start rank) routed).

Definition embedding_forward (table : list R) (flat : nat -> list Z) (r : nat -> row_routing) (rank : nat) : list R :=
  if (size =? 1)%nat then lookup_rows table (flat rank)
  else index_select
    (all_to_all size (serve_rows table r) (fun i => rows_recv_counts r i) (fun i => row_counts (r i)) rank)
    (argsort (row_order (r rank))).
End RowSharded.

(** ** Ownership *)

Section Ownership.
Context (size : nat) (n : Z) (Hsize : (0 < size)%nat) (Hn : Z.of_nat size <= n).
#[local] Notation base := (base size n).
#[local] Notation rem := (remainder size n).

Lemma table_split : n = Z.of_nat size * base + rem /\ 1 <= base /\ 0 <= rem < Z.of_nat size.
Proof.
  unfold RowSharded.base, remainder. pose proof (Z.div_mod n (Z.of_nat size) ltac:(lia)).
  pose proof (Z.mod_pos_bound n (Z.of_nat size) ltac:(lia)). split; [done|]. split; [|done]. 
  apply Z.div_le_lower_bound; lia.
Qed.

(** The owner of a row holds it, and the row ranges are those of the ranks. *)
Lemma owner_holds row : 0 <= row < n ->
  0 <= owner size n row < Z.of_nat size
  /\ row_start size n (Z.to_nat (owner size n row)) <= row < row_stop size n (Z.to_nat (owner size n row)).
Proof.
  intros Hrow. destruct table_split as (Hs & Hb & Hr). unfold owner, large_rows, row_stop, row_start.
  destruct (Z.ltb_spec row ((base + 1) * rem)) as [Hl|Hl].
  - pose proof (Z.div_mod row (base + 1) ltac:(lia)). pose proof (Z.mod_pos_bound row (base + 1) ltac:(lia)).
    assert (0 <= row / (base + 1) < rem) as Ho.
    { split; [apply Z.div_pos; lia|]. apply Z.div_lt_upper_bound; lia. }
    split; [lia|]. rewrite Z2Nat.id by lia. rewrite Z.min_l by lia.
    destruct (Z.ltb_spec (row / (base + 1)) rem); nia.
  - pose proof (Z.div_mod (row - (base + 1) * rem) base ltac:(lia)).
    pose proof (Z.mod_pos_bound (row - (base + 1) * rem) base ltac:(lia)).
    assert (0 <= (row - (base + 1) * rem) / base < Z.of_nat size - rem) as Ho.
    { split; [apply Z.div_pos; lia|]. apply Z.div_lt_upper_bound; [lia|]. nia. }
    split; [lia|]. rewrite Z2Nat.id by lia. rewrite Z.min_r by lia.
    destruct (Z.ltb_spec (rem + (row - (base + 1) * rem) / base) rem); nia.
Qed.

Lemma rows_inside rank : (rank < size)%nat -> 0 <= row_start size n rank <= row_stop size n rank /\ row_stop size n rank <= n.
Proof.
  intros Hr. destruct table_split as (Hs & Hb & Hrem). unfold row_stop, row_start.
  destruct (Z.ltb_spec (Z.of_nat rank) rem); nia.
Qed.
End Ownership.
