(* ===== verification/RowShardedProofs.v ===== *)
(** * A sharded lookup is a lookup in the whole table *)

From S2P Require Import Torch TorchFacts RowSharded.
Local Open Scope py_scope.

Section Lookup.
Context `{TensorLaws} {R : Type} `{!Inhabited R}.
Context (size : nat) (n : Z) (table : list R) (flat : nat -> list Z).
Context (Hn : (Z.of_nat size <= n)%Z) (Htable : Z.of_nat (length table) = n).
Context (Hflat : forall i, i < size -> Forall (fun row => 0 <= row < n)%Z (flat i)).

Definition no_row_routing : row_routing := {| row_order := []; row_counts := []; sorted_rows_wanted := [] |}.
Definition row_routed (i : nat) : row_routing :=
  match route_rows size n (flat i) with Ok r => r | Err _ => no_row_routing end.

Definition row_owners (i : nat) : list Z := map (owner size n) (flat i).
Definition rows_owned (i j : nat) : list nat := positions (row_owners i) (Z.of_nat j).

Lemma row_routed_eq i : i < size -> route_rows size n (flat i) = Ok (row_routed i)
  /\ row_routed i = {| row_order := argsort_stable (row_owners i); row_counts := bincount (row_owners i) size;
                       sorted_rows_wanted := index_select (flat i) (argsort_stable (row_owners i)) |}.
Proof.
  intros Hi. unfold row_routed, route_rows. destruct (existsb _ _) eqn:E; [|done]. exfalso.
  apply existsb_exists in E as (row & Hin & Hrow). pose proof (Hflat i Hi) as Hf. rewrite Forall_forall in Hf.
  specialize (Hf row (proj2 (list_elem_of_In _ _) Hin)). simpl in Hf.
  apply orb_true_iff in Hrow as [Hrow|Hrow]; destr_bool; lia.
Qed.

Lemma row_owners_range i : i < size -> Forall (fun k => 0 <= k < Z.of_nat size)%Z (row_owners i).
Proof.
  intros Hi. apply Forall_fmap. eapply Forall_impl; [by apply Hflat|]. intros row Hrow.
  by apply (owner_holds size n ltac:(lia) Hn).
Qed.

Lemma row_order_owned i : i < size -> argsort_stable (row_owners i) = concat (map (rows_owned i) (seq 0 size)).
Proof. intros Hi. apply argsort_stable_grouped. by apply row_owners_range. Qed.

Lemma row_order_perm i : argsort_stable (row_owners i) ≡ₚ seq 0 (length (flat i)).
Proof. rewrite argsort_stable_perm. unfold row_owners. by rewrite length_map. Qed.

Lemma row_counts_owned i : i < size -> row_counts (row_routed i) = map (fun j => length (rows_owned i j)) (seq 0 size).
Proof. intros Hi. destruct (row_routed_eq i Hi) as [_ ->]. apply bincount_grouped. by apply row_owners_range. Qed.

Lemma rows_recv_owned j : j < size -> rows_recv_counts size row_routed j = map (fun i => length (rows_owned i j)) (seq 0 size).
Proof. intros Hj. apply (exchange_one size (fun i j => length (rows_owned i j))); [done|]. apply row_counts_owned. Qed.

(** The row of the table that the [k]-th index of rank [i] names. *)
Definition wanted (i k : nat) : R := nth (Z.to_nat (nth k (flat i) 0%Z)) table inhabitant.

Lemma shard_lookup j row : j < size -> owner size n row = Z.of_nat j -> (0 <= row < n)%Z ->
  let k := Z.to_nat (row - row_start size n j) in
  k < length (shard_rows size n table j)
  /\ nth k (shard_rows size n table j) inhabitant = nth (Z.to_nat row) table inhabitant.
Proof.
  intros Hj Ho Hrow k. destruct (owner_holds size n ltac:(lia) Hn row Hrow) as [_ Hin].
  rewrite Ho, Nat2Z.id in Hin. destruct (rows_inside size n ltac:(lia) Hn j Hj) as (Hs & Hstop).
  assert (k < length (shard_rows size n table j)) as Hk.
  { unfold shard_rows. rewrite length_take, length_drop. lia. }
  split; [done|]. apply nth_lookup_Some. unfold shard_rows. rewrite lookup_take_lt by lia. rewrite lookup_drop.
  replace (Z.to_nat (row_start size n j) + k) with (Z.to_nat row) by lia.
  destruct (nth_lookup_or_length table (Z.to_nat row) inhabitant) as [->|]; [done|lia].
Qed.

Lemma owned_row i j k : i < size -> k ∈ rows_owned i j ->
  owner size n (nth k (flat i) 0%Z) = Z.of_nat j /\ (0 <= nth k (flat i) 0 < n)%Z.
Proof.
  intros Hi Hk%elem_of_positions. unfold row_owners in Hk. rewrite list_lookup_fmap in Hk.
  apply fmap_Some in Hk as (row & Hrow & Ho). rewrite (nth_lookup_Some _ _ _ _ Hrow). split; [done|].
  exact (Forall_lookup_1 _ _ _ _ (Hflat i Hi) Hrow).
Qed.

Lemma serve_rows_owned j : j < size ->
  serve_rows size n table row_routed j = concat (map (fun i => map (wanted i) (rows_owned i j)) (seq 0 size)).
Proof.
  intros Hj. unfold serve_rows.
  rewrite (owned_to size rows_owned _ _ row_counts_owned rows_recv_owned _ (fun i k => nth k (flat i) 0%Z)); [|done|].
  - unfold lookup_rows. rewrite <- (map_nth_seq (shard_rows size n table j) inhabitant) at 1. rewrite index_select_map.
    + rewrite !map_concat_map. f_equal. apply map_ext_in. intros i Hi%in_seq. rewrite !map_map. apply map_ext_in.
      intros k Hk%list_elem_of_In.
      destruct (owned_row i j k ltac:(lia) Hk) as [Ho Hr]. by apply shard_lookup.
    + apply Forall_fmap, Forall_fmap, Forall_concat, Forall_fmap, Forall_forall. intros i [_ Hi]%elem_of_seq.
      apply Forall_fmap, Forall_forall. intros k Hk. cbn.
      destruct (owned_row i j k ltac:(lia) Hk) as [Ho Hr]. by apply shard_lookup.
  - intros i Hi. destruct (row_routed_eq i Hi) as [_ ->]. cbn [sorted_rows_wanted].
    rewrite <- (map_nth_seq (flat i) 0%Z) at 1. rewrite index_select_map.
    + rewrite row_order_owned by done. apply map_concat_map.
    + rewrite row_order_perm. apply Forall_forall. intros k [_ Hk]%elem_of_seq. done.
Qed.

Lemma embedding_exact i : i < size ->
  embedding_forward size n table flat row_routed i = map (fun row => nth (Z.to_nat row) table inhabitant) (flat i).
Proof.
  intros Hi. unfold embedding_forward. destruct (Nat.eqb_spec size 1) as [->|Hs].
  - unfold lookup_rows. rewrite <- (map_nth_seq table inhabitant) at 1. rewrite index_select_map; [by rewrite map_map|].
    apply Forall_fmap. eapply Forall_impl; [by apply Hflat|]. intros row Hrow. cbn in *. lia.
  - rewrite (owned_back size rows_owned _ _ row_counts_owned rows_recv_owned _ wanted); [|done|apply serve_rows_owned].
    rewrite <- row_order_owned by done. destruct (row_routed_eq i Hi) as [_ ->]. cbn [row_order].
    rewrite (index_select_inverse _ _ _ (row_order_perm i)). unfold wanted.
    rewrite <- (map_map (fun k => nth k (flat i) 0%Z) (fun row => nth (Z.to_nat row) table inhabitant)).
    by rewrite map_nth_seq.
Qed.
End Lookup.

(** C26. A sharded lookup is exact: with at least one row per rank and every
    index inside the table, every rank routes its indices without error, asks
    each owner only for rows it holds, and gets exactly the rows of the whole
    table that its indices name, in their order; an index outside the table
    raises before any exchange. *)
Theorem row_sharded_lookup_exact `{TensorLaws} {R : Type} `{!Inhabited R}
    size n (table : list R) (flat : nat -> list Z) rank :
  (Z.of_nat size <= n)%Z -> Z.of_nat (length table) = n ->
  (forall i, i < size -> Forall (fun row => 0 <= row < n)%Z (flat i)) -> rank < size ->
  let r := row_routed size n flat in
  (forall i, i < size -> route_rows size n (flat i) = Ok (r i))
  /\ embedding_forward size n table flat r rank = map (fun row => nth (Z.to_nat row) table inhabitant) (flat rank)
  /\ forall bad row, row ∈ bad -> ~ (0 <= row < n)%Z -> is_ok (route_rows size n bad) = false.
Proof.
  intros Hn Ht Hf Hr r. split; [|split].
  - intros i Hi. by apply (row_routed_eq (R := R)); try done; apply Hf.
  - by apply embedding_exact.
  - intros bad row Hin Hout. unfold route_rows. destruct (existsb _ bad) eqn:E; [done|].
    exfalso. apply not_true_iff_false in E. apply E, existsb_exists. exists row. split; [by apply list_elem_of_In|].
    destruct (Z.ltb_spec row 0), (Z.leb_spec n row); simpl; try done; lia.
Qed.

(** Three ranks, eight rows. *)
Definition small_table : list Z := [100; 101; 102; 103; 104; 105; 106; 107]%Z.
Definition small_indices (i : nat) : list Z := match i with 0 => [7; 0; 3]%Z | 1 => []%Z | _ => [5; 5; 2]%Z end.

Lemma row_sharded_lookup_exact_witness :
  embedding_forward (H := list_ops) 3 8 small_table small_indices (row_routed (H := list_ops) 3 8 small_indices) 0 = [107; 100; 103]%Z.
Proof.
  assert (forall i, i < 3 -> Forall (fun row => 0 <= row < 8)%Z (small_indices i)) as Hf.
  { intros [|[|[|i]]] Hi; [| | |lia]; repeat constructor; lia. }
  destruct (row_sharded_lookup_exact (H := list_ops) (H0 := list_laws) 3 8 small_table small_indices 0
    ltac:(lia) ltac:(reflexivity) Hf ltac:(lia)) as (_ & He & _).
  etransitivity; [exact He|]. reflexivity.
Defined.
