(* ===== verification/NgramHash.v ===== *)
(** * Engram n-gram hashing ([NgramHash] in [dsv41_train/models/dsv4/model.py])

    Every position of a sequence is mapped, for every Engram layer, to one row
    address per n-gram length and head: the compressed tokens of the last
    positions are multiplied by fixed odd constants, folded with exclusive or
    and reduced modulo distinct primes, one per head.  Tensors are int64:
    [wrap64] is the arithmetic's wrap-around.  NumPy's generator is a parameter.
    A loop that searches for a prime takes fuel; [None] means it ran out. *)

From S2P Require Import Prelude.
Local Open Scope Z_scope.

Definition INT64_MAX : Z := 2 ^ 63 - 1.
Definition wrap64 (z : Z) : Z := (z + 2 ^ 63) mod 2 ^ 64 - 2 ^ 63.

(** ** Primes *)

(** [while divisor * divisor <= value]; the fuel covers every divisor up to
    [value]. *)
Fixpoint no_divisor_from (fuel : nat) (divisor value : Z) : bool :=
  match fuel with
  | O => true
  | S fuel =>
      if divisor * divisor <=? value then
        if value mod divisor =? 0 then false else no_divisor_from fuel (divisor + 2) value
      else true
  end.

Definition is_prime (value : Z) : bool :=
  if (value <? 2) || (value mod 2 =? 0) then value =? 2
  else no_divisor_from (Z.to_nat value) 3 value.

Fixpoint next_prime_from (fuel : nat) (value : Z) (used : list Z) : option Z :=
  match fuel with
  | O => None
  | S fuel =>
      if bool_decide (value ∈ used) || negb (is_prime value) then next_prime_from fuel (value + 1) used
      else Some value
  end.

Definition next_prime (fuel : nat) (value : Z) (used : list Z) : option Z := next_prime_from fuel (value + 1) used.

(** ** The table layout *)

Record hash_config := {
  vocab_size : Z;
  engram_layer_ids : list Z;
  engram_num_embeddings : list Z;
  engram_vocab_size : Z;
  engram_max_ngram_size : nat;
  engram_n_heads : nat;
  engram_pad_id : Z;
  engram_compressed_vocab_size : Z }.

(** The primes of one layer: [count] successive ones, none used before. *)
Fixpoint layer_primes (fuel : nat) (count : nat) (current : Z) (used : list Z) : option (list Z * list Z) :=
  match count with
  | O => Some ([], used)
  | S count =>
      match next_prime fuel current used with
      | None => None
      | Some p => match layer_primes fuel count p (p :: used) with
                  | None => None
                  | Some (primes, used) => Some (p :: primes, used)
                  end
      end
  end.

(** [offset] before each prime, and after the last. *)
Fixpoint running_offsets (offset : Z) (primes : list Z) : list Z * Z :=
  match primes with
  | [] => ([], offset)
  | p :: primes => let '(offsets, last) := running_offsets (offset + p) primes in (offset :: offsets, last)
  end.

(** The loop over the layers: primes and offsets of the selected ones. *)
Fixpoint build_layers (fuel : nat) (config : hash_config) (selected : list Z) (layers : list (Z * Z)) (used : list Z)
    : option (res (list (list Z * list Z))) :=
  match layers with
  | [] => Some (Ok [])
  | (layer_id, table_size) :: layers =>
      match layer_primes fuel ((engram_max_ngram_size config - 1) * engram_n_heads config)
              (engram_vocab_size config - 1) used with
      | None => None
      | Some (primes, used) =>
          let '(offsets, offset) := running_offsets 0 primes in
          if table_size <? offset then Some (Err (ValueError "engram table needs more rows"))
          else match build_layers fuel config selected layers used with
               | Some (Ok rest) =>
                   Some (Ok (if bool_decide (layer_id ∈ selected) then (primes, offsets) :: rest else rest))
               | other => other
               end
      end
  end.

Definition multiplier_bound (compressed_vocab_size : Z) : Z := Z.max 1 (INT64_MAX / compressed_vocab_size / 2).

(** Python indexing of a sequence. *)
Definition py_index {A} (l : list A) (i : Z) : res A :=
  match (if i <? 0 then i + Z.of_nat (length l) else i) with
  | Z.neg _ => Err (IndexError "index out of range")
  | j => match l !! Z.to_nat j with Some x => Ok x | None => Err (IndexError "index out of range") end
  end.

(** [primes] has one list per n-gram length, each with one prime per head. *)
Record hash_layer := { primes : list (list Z); offsets : list Z; multipliers : list Z }.
Record ngram_hash := { max_ngram : nat; token_map : list Z; pad_id : Z; hash_layers : list hash_layer }.

(** [t.view(rows, columns)] *)
Definition rows_of {A} (rows columns : nat) (l : list A) : list (list A) :=
  map (fun i => take columns (drop (i * columns) l)) (seq 0 rows).

Section Generator.
(** [np.random.default_rng(seed).integers(0, bound, size=n)] *)
Context (integers : Z -> Z -> nat -> list Z).

Definition build_hash_multipliers (layer_id : Z) (max_ngram : nat) (compressed_vocab_size : Z) : list Z :=
  map (fun v => wrap64 (v * 2 + 1)) (integers (10007 * layer_id) (multiplier_bound compressed_vocab_size) max_ngram).

(** [NgramHash.__init__] with a token map that is not on the meta device. *)
Definition make_hash (fuel : nat) (config : hash_config) (layer_ids : option (list Z)) (tokens : option (list Z))
    : option (res ngram_hash) :=
  let V := engram_compressed_vocab_size config in
  let n := engram_max_ngram_size config in
  let tokens := default (map (fun i => Z.of_nat i mod V) (seq 0 (Z.to_nat (vocab_size config)))) tokens in
  if negb (Z.of_nat (length tokens) =? vocab_size config)
  then Some (Err (ValueError "Engram token map must contain one entry per vocabulary id"))
  else if existsb (fun t => (t <? 0) || (V <=? t)) tokens
  then Some (Err (ValueError "Engram token map contains an out-of-range compressed id"))
  else match py_index tokens (engram_pad_id config) with
  | Err e => Some (Err e)
  | Ok pad =>
      let layer_ids := default (engram_layer_ids config) layer_ids in
      if negb (forallb (fun l => bool_decide (l ∈ engram_layer_ids config)) layer_ids)
      then Some (Err (ValueError "Engram hash layers must be configured Engram layers"))
      else match build_layers fuel config layer_ids
                   (zip (engram_layer_ids config) (engram_num_embeddings config)) [] with
           | None => None
           | Some (Err e) => Some (Err e)
           | Some (Ok built) =>
               if negb (length built =? length layer_ids)%nat
               then Some (Err (RuntimeError "shape is invalid for input"))
               else Some (Ok {| max_ngram := n; token_map := tokens; pad_id := pad;
                      hash_layers := zip_with (fun po layer_id =>
                        {| primes := rows_of (n - 1) (engram_n_heads config) po.1; offsets := po.2;
                           multipliers := build_hash_multipliers layer_id n V |}) built layer_ids |})
           end
  end.
End Generator.

(** ** Hashing one sequence of a batch *)

Section Forward.
Context (h : ngram_hash).

Definition dead : Z := -1.

(** [F.pad(l, (context, 0), value=dead)[context - distance : context - distance + len(l)]] *)
Definition shifted (distance : nat) (l : list Z) : list Z :=
  let context := (max_ngram h - 1)%nat in
  take (length l) (drop (context - distance) (replicate context dead ++ l)).

Definition mask_fill (mask : list bool) (l : list Z) : list Z :=
  zip_with (fun (live : bool) x => if live then x else dead) mask l.

(** [blocked], updated at each distance, and the windows: one list per
    distance. *)
Fixpoint window_columns (distances : list nat) (tokens sequence_ids : list Z) (blocked : list bool) : list (list Z) :=
  match distances with
  | [] => []
  | d :: distances =>
      let source := shifted d tokens in
      let source_ids := shifted d sequence_ids in
      let blocked := zip_with orb blocked
        (zip_with (fun s ij => (s =? dead) || negb (ij.1 =? ij.2)) source (zip source_ids sequence_ids)) in
      zip_with (fun (b : bool) s => if b then pad_id h else s) blocked source
        :: window_columns distances tokens sequence_ids blocked
  end.

(** [torch.stack(shifted, dim=-1)]: the window of each position. *)
Definition stack (length : nat) (columns : list (list Z)) : list (list Z) :=
  map (fun t => map (fun c => nth t c 0) columns) (seq 0 length).

Definition windows (input_ids : list Z) (mask : list bool) (sequence_ids : list Z) : list (list Z) :=
  let tokens := mask_fill mask (map (fun i => nth (Z.to_nat i) (token_map h) 0) input_ids) in
  let ids := mask_fill mask sequence_ids in
  stack (length input_ids) (window_columns (seq 0 (max_ngram h)) tokens ids (replicate (length input_ids) false)).

(** [rolling % primes[index - 1]] after each product. *)
Fixpoint rolling_hashes (rolling : Z) (products : list Z) (ps : list (list Z)) : list Z :=
  match products, ps with
  | p :: products, heads :: ps =>
      let rolling := Z.lxor rolling p in map (fun m => rolling mod m) heads ++ rolling_hashes rolling products ps
  | _, _ => []
  end.

(** The addresses of one position in one layer. *)
Definition addresses (layer : hash_layer) (window : list Z) : list Z :=
  match zip_with (fun w m => wrap64 (w * m)) window (multipliers layer) with
  | [] => []
  | first :: products =>
      zip_with (fun a o => wrap64 (a + o)) (rolling_hashes first products (primes layer)) (offsets layer)
  end.

(** [forward] on one sequence: position, layer, address. *)
Definition forward (input_ids : list Z) (mask : list bool) (sequence_ids : option (list Z)) : list (list (list Z)) :=
  let ids := default (replicate (length input_ids) 0) sequence_ids in
  map (fun w => map (fun layer => addresses layer w) (hash_layers h)) (windows input_ids mask ids).
End Forward.
