(* ===== verification/NgramHashProofs.v ===== *)
(** * Engram hashing: windows and table layout *)

From Stdlib Require Import Znumtheory Factorial.
From S2P Require Import Prelude NgramHash.
Local Open Scope Z_scope.

(** * The prime search of the Engram hash

    [_is_prime] decides primality, and [_next_prime] always finds the next
    prime that is not in use. *)

(** ** Trial division *)

Lemma divides_mod d n : d <> 0 -> (d | n) -> n mod d = 0.
Proof. intros Hd. by apply Z.mod_divide. Qed.

Lemma mod_divides d n : d <> 0 -> n mod d = 0 -> (d | n).
Proof. intros Hd. by apply Z.mod_divide. Qed.

Lemma smallest_divisor value d : 1 < d -> (forall e, 1 < e < d -> ~ (e | value)) -> 1 < value -> value < d * d -> prime value.
Proof.
  intros Hd Hnone Hv Hsq. apply prime_alt. split; [done|]. intros e He Hdiv.
  destruct Hdiv as [q Hq]. assert (1 < q) by nia.
  destruct (Z.lt_ge_cases e d); [apply (Hnone e); [lia|by exists q]|].
  destruct (Z.lt_ge_cases q d); [apply (Hnone q); [lia|exists e; lia]|]. nia.
Qed.

Lemma no_divisor_from_correct fuel d value : 2 < d -> d mod 2 = 1 -> 1 < value -> value mod 2 = 1 ->
  value + 1 - d <= Z.of_nat fuel -> (forall e, 1 < e < d -> ~ (e | value)) ->
  no_divisor_from fuel d value = true <-> prime value.
Proof.
  revert d. induction fuel as [|fuel IH]; intros d Hd Hodd Hv Hvodd Hf Hnone; simpl.
  - split; [intros _|done]. apply (smallest_divisor value d); try done; nia.
  - destruct (Z.leb_spec (d * d) value) as [Hle|Hgt].
    + destruct (Z.eqb_spec (value mod d) 0) as [Hdiv|Hdiv].
      * split; [done|]. intros Hp. apply mod_divides in Hdiv; [|lia]. exfalso.
        apply prime_alt in Hp as [_ Hp]. apply (Hp d); [nia|done].
      * apply IH; try done; try lia.
        { rewrite <- Z.add_mod_idemp_l, Hodd by lia. done. }
        intros e He Hediv. destruct (decide (e < d)); [apply (Hnone e); [lia|done]|].
        destruct (decide (e = d)) as [->|]; [exfalso; apply Hdiv, divides_mod; [lia|done]|].
        assert (e = d + 1) as -> by lia. assert (2 | d + 1) as H2.
        { apply mod_divides; [lia|]. rewrite <- Z.add_mod_idemp_l, Hodd by lia. done. }
        pose proof (divides_mod 2 value ltac:(lia) (Z.divide_trans _ _ _ H2 Hediv)). lia.
    + split; [intros _|done]. by apply (smallest_divisor value d); try lia.
Qed.

Lemma prime_odd value : prime value -> value mod 2 = 0 -> value = 2.
Proof.
  intros Hp Hm. apply mod_divides in Hm; [|lia]. apply prime_alt in Hp as [Hv Hp].
  destruct (decide (value = 2)); [done|]. exfalso. apply (Hp 2); [lia|done].
Qed.

Lemma is_prime_correct value : is_prime value = true <-> prime value.
Proof.
  unfold is_prime. destruct (Z.ltb_spec value 2) as [Hlt|Hge]; simpl.
  - rewrite Z.eqb_eq. split; [lia|]. intros [Hp _]. lia.
  - destruct (Z.eqb_spec (value mod 2) 0) as [He|Ho].
    + rewrite Z.eqb_eq. split; [intros ->; apply prime_2|]. intros Hp. by apply prime_odd.
    + apply no_divisor_from_correct; try done; try lia.
      * pose proof (Z.mod_pos_bound value 2). lia.
      * intros e He Hdiv. assert (e = 2) as -> by lia. apply Ho, divides_mod; [lia|done].
Qed.

(** ** There is always a next prime *)

Lemma prime_factor n : 1 < n -> exists p, prime p /\ (p | n).
Proof.
  intros Hn. assert (exists k, n = Z.of_nat k) as [k ->] by (exists (Z.to_nat n); lia).
  revert Hn. induction k as [k IH] using lt_wf_ind. intros Hk.
  destruct (prime_dec (Z.of_nat k)) as [Hp|Hp]; [exists (Z.of_nat k); split; [done|apply Z.divide_refl]|].
  destruct (not_prime_divide _ Hk Hp) as (m & Hm & Hdiv).
  destruct (IH (Z.to_nat m) ltac:(lia) ltac:(lia)) as (p & Hpp & Hpd). rewrite Z2Nat.id in Hpd by lia.
  exists p. split; [done|]. by etransitivity.
Qed.

Lemma divides_factorial n d : 0 < d <= Z.of_nat n -> (d | Z.of_nat (fact n)).
Proof.
  induction n as [|n IH]; intros Hd; [lia|]. change (fact (S n)) with (S n * fact n)%nat. rewrite Nat2Z.inj_mul.
  destruct (decide (d = Z.of_nat (S n))) as [->|]; [apply Z.divide_factor_l|].
  apply Z.divide_mul_r, IH. lia.
Qed.

Lemma prime_above n : exists p, prime p /\ n < p.
Proof.
  destruct (prime_factor (Z.of_nat (fact (Z.to_nat n)) + 1)) as (p & Hp & Hdiv).
  { pose proof (lt_O_fact (Z.to_nat n)). lia. }
  exists p. split; [done|]. destruct (decide (n < p)) as [|Hle]; [done|]. exfalso.
  assert (p | Z.of_nat (fact (Z.to_nat n))) as Hf.
  { apply divides_factorial. destruct Hp. lia. }
  assert (p | 1) as H1.
  { replace 1 with (Z.of_nat (fact (Z.to_nat n)) + 1 - Z.of_nat (fact (Z.to_nat n))) by lia. by apply Z.divide_sub_r. }
  apply Z.divide_1_r_nonneg in H1; destruct Hp; lia.
Qed.

(** ** The search *)

Definition good_prime (used : list Z) (p : Z) : Prop := prime p /\ p ∉ used.

Lemma good_prime_above used n : exists p, good_prime used p /\ n < p.
Proof.
  assert (exists m, n <= m /\ Forall (fun u => u <= m) used) as (m & Hm & Hu).
  { induction used as [|u used (m & Hm & Hu)]; [exists n; split; [lia|constructor]|].
    exists (Z.max u m). split; [lia|]. constructor; [lia|]. eapply Forall_impl; [exact Hu|]. simpl. lia. }
  destruct (prime_above m) as (p & Hp & Hpm). exists p. split; [|lia]. split; [done|].
  intros Hin. rewrite Forall_forall in Hu. specialize (Hu p Hin). simpl in Hu. lia.
Qed.

Lemma next_prime_from_sound fuel value used p : next_prime_from fuel value used = Some p ->
  good_prime used p /\ value <= p /\ forall q, value <= q < p -> ~ good_prime used q.
Proof.
  revert value. induction fuel as [|fuel IH]; intros value; simpl; [done|].
  destruct (bool_decide (value ∈ used)) eqn:Eu; [|destruct (is_prime value) eqn:Ep]; simpl.
  1,3: intros Hp; destruct (IH _ Hp) as (Hg & Hle & Hmin); split; [done|]; split; [lia|];
    intros q Hq [Hqp Hqu]; destruct (decide (q = value)) as [->|]; [|apply (Hmin q); [lia|done]].
  - by apply bool_decide_eq_true in Eu.
  - apply is_prime_correct in Hqp. congruence.
  - intros [= <-]. apply bool_decide_eq_false in Eu. apply is_prime_correct in Ep.
    split; [done|]. split; [lia|]. intros q Hq. lia.
Qed.

Lemma next_prime_from_total value used p : good_prime used p -> value <= p ->
  exists q, forall fuel, (Z.to_nat (p - value) < fuel)%nat -> next_prime_from fuel value used = Some q.
Proof.
  intros Hp Hle. remember (Z.to_nat (p - value)) as k eqn:Ek. revert value Hle Ek.
  induction k as [|k IH]; intros value Hle Ek.
  - assert (value = p) as -> by lia. exists p. intros [|fuel] Hf; [lia|]. simpl. destruct Hp as [Hpp Hpu].
    apply is_prime_correct in Hpp. rewrite Hpp. by rewrite bool_decide_eq_false_2.
  - destruct (bool_decide (value ∈ used) || negb (is_prime value)) eqn:E.
    + destruct (IH (value + 1)) as [q Hq]; [lia|lia|]. exists q. intros [|fuel] Hf; [lia|]. simpl. rewrite E.
      apply Hq. lia.
    + exists value. intros [|fuel] Hf; [lia|]. simpl. by rewrite E.
Qed.

(** ** Windows *)

Section Windows.
Context (h : ngram_hash) (tokens ids : list Z).
#[local] Notation n := (length tokens).
Context (Hids : length ids = n).

(** The element [d] positions before [t], or the padding. *)
Definition before (l : list Z) (t d : nat) : Z := if (t <? d)%nat then dead else nth (t - d) l 0.

Lemma shifted_length d l : (d < max_ngram h)%nat -> length (shifted h d l) = length l.
Proof. intros Hd. unfold shifted. rewrite length_take, length_drop, length_app, length_replicate. lia. Qed.

Lemma shifted_nth d l t : (d < max_ngram h)%nat -> (t < length l)%nat -> nth t (shifted h d l) 0 = before l t d.
Proof.
  intros Hd Ht. unfold before. apply nth_lookup_Some. unfold shifted.
  rewrite lookup_take_lt by done. rewrite lookup_drop.
  destruct (Nat.ltb_spec t d).
  - rewrite lookup_app_l by (rewrite length_replicate; lia). apply lookup_replicate_2. lia.
  - rewrite lookup_app_r; rewrite length_replicate; [|lia].
    replace (_ - _ + t - _)%nat with (t - d)%nat by lia.
    destruct (nth_lookup_or_length l (t - d) 0); [done|lia].
Qed.

(** The positions that end the window of [t] at distance [d]. *)
Definition ends_at (t d : nat) : bool := (before tokens t d =? dead) || negb (before ids t d =? nth t ids 0).

Definition cell (blocked : bool) (t : nat) (ds : list nat) (j : nat) : Z :=
  if blocked || existsb (ends_at t) (take (S j) ds) then pad_id h else before tokens t (nth j ds 0%nat).

Lemma nth_zip_with {A B C} (f : A -> B -> C) l k t da db dc : (t < length l)%nat -> (t < length k)%nat ->
  nth t (zip_with f l k) dc = f (nth t l da) (nth t k db).
Proof.
  revert k t. induction l as [|a l IH]; intros [|b k] [|t] Hl Hk; simpl in *; try lia; [done|]. apply IH; lia.
Qed.

Lemma window_columns_cells ds blocked t j : Forall (fun d => (d < max_ngram h)%nat) ds -> length blocked = n ->
  (t < n)%nat -> (j < length ds)%nat ->
  nth t (nth j (window_columns h ds tokens ids blocked) []) 0 = cell (nth t blocked false) t ds j.
Proof.
  intros Hds. revert blocked j. induction Hds as [|d ds Hd Hds IH]; intros blocked j Hb Ht Hj; simpl in Hj; [lia|].
  set (blocked' := zip_with orb blocked
        (zip_with (fun s ij => (s =? dead) || negb (ij.1 =? ij.2)) (shifted h d tokens) (zip (shifted h d ids) ids))).
  assert (length blocked' = n) as Hb'.
  { unfold blocked'. rewrite !length_zip_with, !shifted_length by done. lia. }
  assert (nth t blocked' false = nth t blocked false || ends_at t d) as Hnth.
  { unfold blocked'. rewrite (nth_zip_with _ _ _ _ false false).
    - rewrite (nth_zip_with _ _ _ _ 0 (0, 0)).
      + rewrite (nth_zip_with _ _ _ _ 0 0) by (rewrite ?shifted_length by done; lia).
        cbn [fst snd]. by rewrite !shifted_nth by (done || lia).
      + rewrite shifted_length by done. lia.
      + rewrite length_zip_with, shifted_length by done. lia.
    - lia.
    - rewrite !length_zip_with, !shifted_length by done. lia. }
  cbn [window_columns]. fold blocked'. destruct j as [|j].
  - cbn [nth]. rewrite (nth_zip_with _ _ _ _ false 0) by (rewrite ?shifted_length by done; lia).
    rewrite Hnth, shifted_nth by done. unfold cell. cbn [take existsb nth]. by rewrite orb_false_r.
  - cbn [nth]. rewrite IH by (done || lia). rewrite Hnth. unfold cell. cbn [take existsb nth].
    by rewrite orb_assoc.
Qed.

Lemma window_columns_length ds blocked : length (window_columns h ds tokens ids blocked) = length ds.
Proof. revert blocked. induction ds; intros; simpl; [done|]. by rewrite IHds. Qed.
End Windows.

(** The window of position [t] at distance [d]. *)
Lemma windows_lookup h input_ids mask ids t d x :
  length mask = length input_ids -> length ids = length input_ids ->
  forall w, windows h input_ids mask ids !! t = Some w -> w !! d = Some x ->
  let tokens := mask_fill mask (map (fun i => nth (Z.to_nat i) (token_map h) 0) input_ids) in
  (t < length input_ids)%nat /\ (d < max_ngram h)%nat
  /\ x = cell h tokens (mask_fill mask ids) false t (seq 0 (max_ngram h)) d.
Proof.
  intros Hm Hi w Hw Hx tokens.
  assert (length tokens = length input_ids) as Ht.
  { unfold tokens, mask_fill. rewrite length_zip_with, length_map. lia. }
  unfold windows, stack in Hw. fold tokens in Hw. rewrite list_lookup_fmap in Hw.
  apply fmap_Some in Hw as (t' & Ht' & ->). apply lookup_seq in Ht' as [-> Hlt].
  rewrite list_lookup_fmap in Hx. apply fmap_Some in Hx as (c & Hc & ->).
  pose proof (lookup_lt_Some _ _ _ Hc) as Hd. rewrite window_columns_length, length_seq in Hd.
  split; [done|]. split; [done|]. rewrite <- (nth_lookup_Some _ _ [] _ Hc), Nat.add_0_l.
  rewrite window_columns_cells.
  - f_equal. apply nth_lookup_Some. by apply lookup_replicate_2.
  - unfold mask_fill at 1. rewrite length_zip_with. lia.
  - apply Forall_forall. intros k Hk%elem_of_seq. lia.
  - by rewrite length_replicate.
  - lia.
  - by rewrite length_seq.
Qed.

(** The [d] positions before [t] are live and in the sequence of [t]. *)
Definition reaches (mask : list bool) (ids : list Z) (t d : nat) : Prop :=
  forall e, (e <= d)%nat -> (e <= t)%nat /\ mask !! (t - e)%nat = Some true /\ ids !! (t - e)%nat = ids !! t.

Section Reach.
Context (h : ngram_hash) (input_ids : list Z) (mask : list bool) (ids : list Z).
Context (Hm : length mask = length input_ids) (Hi : length ids = length input_ids).
Context (Hmap : Forall (fun v => 0 <= v) (token_map h)).

Definition token_of (i : Z) : Z := nth (Z.to_nat i) (token_map h) 0.
#[local] Notation tokens := (mask_fill mask (map token_of input_ids)).

Lemma token_nonneg i : 0 <= token_of i.
Proof.
  unfold token_of. destruct (nth_lookup_or_length (token_map h) (Z.to_nat i) 0) as [Hl|Hl].
  - exact (Forall_lookup_1 _ _ _ _ Hmap Hl).
  - by rewrite nth_overflow.
Qed.

Lemma masked_nth (l : list Z) t : length l = length input_ids -> (t < length input_ids)%nat ->
  exists (live : bool) x, mask !! t = Some live /\ l !! t = Some x /\ nth t (mask_fill mask l) 0 = if live then x else dead.
Proof.
  intros Hl Ht. destruct (lookup_lt_is_Some_2 mask t) as [live Hlive]; [lia|].
  destruct (lookup_lt_is_Some_2 l t) as [x Hx]; [lia|]. exists live, x. split; [done|]. split; [done|].
  apply nth_lookup_Some. unfold mask_fill. by rewrite lookup_zip_with, Hlive, Hx.
Qed.

Lemma ends_at_spec t e : (t < length input_ids)%nat -> mask !! t = Some true ->
  ends_at tokens (mask_fill mask ids) t e = false
  <-> (e <= t)%nat /\ mask !! (t - e)%nat = Some true /\ ids !! (t - e)%nat = ids !! t.
Proof.
  intros Ht Hlive. unfold ends_at, before. destruct (Nat.ltb_spec t e) as [He|He].
  { rewrite Z.eqb_refl. simpl. split; [done|lia]. }
  destruct (masked_nth ids t Hi Ht) as (l0 & x0 & Hl0 & Hx0 & ->). assert (l0 = true) as -> by congruence.
  destruct (masked_nth ids (t - e) Hi ltac:(lia)) as (l & x & Hl & Hx & ->).
  destruct (masked_nth (map token_of input_ids) (t - e) ltac:(by rewrite length_map) ltac:(lia)) as (l' & v & Hl' & Hv & ->).
  assert (l' = l) as -> by congruence. rewrite Hl, Hx, Hx0.
  assert (0 <= v) as Hpos.
  { rewrite list_lookup_fmap in Hv. apply fmap_Some in Hv as (i & _ & ->). apply token_nonneg. }
  destruct l; simpl.
  - replace (v =? dead) with false by (symmetry; apply Z.eqb_neq; unfold dead; lia). simpl.
    rewrite negb_false_iff, Z.eqb_eq. split; [intros ->; done|]. by intros (_ & _ & [= ->]).
  - split; [done|]. by intros (_ & ? & _).
Qed.

Lemma reaches_spec t d : (t < length input_ids)%nat ->
  existsb (ends_at tokens (mask_fill mask ids) t) (seq 0 (S d)) = false <-> reaches mask ids t d.
Proof.
  intros Ht. assert (existsb (ends_at tokens (mask_fill mask ids) t) (seq 0 (S d)) = false
    <-> forall e, (e <= d)%nat -> ends_at tokens (mask_fill mask ids) t e = false) as ->.
  { split.
    - intros H e He. apply not_true_iff_false. intros E. apply not_true_iff_false in H. apply H.
      apply existsb_exists. exists e. split; [apply in_seq; lia|done].
    - intros H. apply not_true_iff_false. intros (e & He%in_seq & E)%existsb_exists. rewrite H in E; [done|lia]. }
  destruct (mask !! t) as [[]|] eqn:E.
  - split; intros H e He; apply ends_at_spec; try done; by apply H.
  - split; intros H; exfalso.
    + specialize (H 0%nat ltac:(lia)). unfold ends_at, before in H. simpl in H. rewrite Nat.sub_0_r in H.
      destruct (masked_nth (map token_of input_ids) t ltac:(by rewrite length_map) Ht) as (l & v & Hl & _ & Hn).
      rewrite Hn in H. assert (l = false) as -> by congruence. done.
    + destruct (H 0%nat ltac:(lia)) as (_ & H' & _). rewrite Nat.sub_0_r in H'. congruence.
  - apply lookup_ge_None in E. lia.
Qed.

Lemma window_value w t d x : windows h input_ids mask ids !! t = Some w -> w !! d = Some x ->
  (t < length input_ids)%nat /\ (d < max_ngram h)%nat
  /\ (reaches mask ids t d -> exists i, input_ids !! (t - d)%nat = Some i /\ x = token_of i)
  /\ (~ reaches mask ids t d -> x = pad_id h).
Proof.
  intros Hw Hx. destruct (windows_lookup h input_ids mask ids t d x Hm Hi w Hw Hx) as (Ht & Hd & ->).
  split; [done|]. split; [done|]. fold token_of. unfold cell. cbn [orb].
  rewrite take_seq, Nat.min_l, seq_nth by lia. cbn [Nat.add].
  destruct (existsb _ _) eqn:E.
  - split; [|done]. intros Hr. apply reaches_spec in Hr; [|done]. congruence.
  - apply reaches_spec in E; [|done]. split; [intros _|done].
    destruct (E d ltac:(lia)) as (Hdt & Hlive & _). unfold before. replace (t <? d)%nat with false by (symmetry; apply Nat.ltb_ge; lia).
    destruct (masked_nth (map token_of input_ids) (t - d) ltac:(by rewrite length_map) ltac:(lia)) as (l & v & Hl & Hv & ->).
    assert (l = true) as -> by congruence. rewrite list_lookup_fmap in Hv. apply fmap_Some in Hv as (i & Hv & ->). eauto.
Qed.
End Reach.

(** ** The table layout *)

Lemma layer_primes_sound fuel count current used ps used' : layer_primes fuel count current used = Some (ps, used') ->
  length ps = count /\ Forall prime ps /\ NoDup ps /\ Forall (fun p => p ∉ used) ps
  /\ forall x, x ∈ used' <-> x ∈ ps \/ x ∈ used.
Proof.
  revert current used ps used'. induction count as [|count IH]; intros current used ps used'; simpl.
  - intros [= <- <-]. split; [done|]. do 3 (split; [constructor|]). intros x.
    split; [by right|]. intros [H|H]; [by apply elem_of_nil in H|done].
  - unfold next_prime. destruct (next_prime_from _ _ _) as [p|] eqn:Ep; [|done].
    destruct (layer_primes _ _ _ _) as [[rest used1]|] eqn:Er; [|done]. intros [= <- <-].
    destruct (next_prime_from_sound _ _ _ _ Ep) as ([Hp Hpu] & _).
    destruct (IH _ _ _ _ Er) as (Hlen & Hall & Hnd & Hnu & Hused).
    split; [simpl; congruence|]. split; [by constructor|]. split; [|split].
    + constructor; [|done]. intros Hin. rewrite Forall_forall in Hnu. apply (Hnu p Hin). left.
    + constructor; [done|]. eapply Forall_impl; [exact Hnu|]. intros q Hq Hin. apply Hq. by right.
    + intros x. rewrite Hused, !elem_of_cons. tauto.
Qed.

Lemma layer_primes_total count current used : exists fuel0 r, forall fuel, (fuel0 <= fuel)%nat ->
  layer_primes fuel count current used = Some r.
Proof.
  revert current used. induction count as [|count IH]; intros current used; [exists 0%nat, ([], used); done|].
  destruct (good_prime_above used (current + 1)) as (p & Hp & Hlt).
  destruct (next_prime_from_total (current + 1) used p Hp ltac:(lia)) as [q Hq].
  destruct (IH q (q :: used)) as (fuel1 & [rest used1] & H1).
  exists (S (Z.to_nat (p - (current + 1)) + fuel1))%nat, (q :: rest, used1). intros fuel Hf. simpl. unfold next_prime.
  rewrite Hq, H1 by lia. done.
Qed.

Lemma running_offsets_spec o ps :
  (running_offsets o ps).2 = o + list_sum_Z ps /\ length (running_offsets o ps).1 = length ps
  /\ forall k x, (running_offsets o ps).1 !! k = Some x -> x = o + list_sum_Z (take k ps).
Proof.
  revert o. induction ps as [|p ps IH]; intros o; simpl; [rewrite list_sum_Z_nil; split; [lia|split; [done|intros [|k] x; done]]|].
  destruct (IH (o + p)) as (H1 & H2 & H3). destruct (running_offsets (o + p) ps) as [offs last]. simpl in *.
  rewrite list_sum_Z_cons. split; [lia|]. split; [lia|]. intros [|k] x; simpl.
  - intros [= <-]. rewrite list_sum_Z_nil. lia.
  - intros Hx. rewrite (H3 k x Hx), list_sum_Z_cons. lia.
Qed.

(** The flat primes of a layer, in a table of [table_size] rows. *)
Definition laid_out (count : nat) (table_size : Z) (po : list Z * list Z) : Prop :=
  length po.1 = count /\ Forall prime po.1 /\ po.2 = (running_offsets 0 po.1).1 /\ list_sum_Z po.1 <= table_size.

Lemma build_layers_sound fuel config selected layers used built :
  build_layers fuel config selected layers used = Some (Ok built) ->
  Forall2 (laid_out ((engram_max_ngram_size config - 1) * engram_n_heads config))
    (map snd (filter (fun l => l.1 ∈ selected) layers)) built
  /\ NoDup (concat (map fst built)) /\ Forall (fun p => p ∉ used) (concat (map fst built)).
Proof.
  revert used built. induction layers as [|[layer_id table_size] layers IH]; intros used built; simpl.
  { intros [= <-]. split; [constructor|]. split; constructor. }
  destruct (layer_primes _ _ _ _) as [[ps used1]|] eqn:Ep; [|done].
  destruct (running_offsets 0 ps) as [offs last] eqn:Eo. pose proof (running_offsets_spec 0 ps) as (Hlast & _). rewrite Eo in Hlast.
  destruct (Z.ltb_spec table_size last) as [|Hsize]; [done|].
  destruct (build_layers _ _ _ _ _) as [[rest|]|] eqn:Er; [|done..]. intros [= <-].
  destruct (layer_primes_sound _ _ _ _ _ _ Ep) as (Hlen & Hall & Hnd & Hnu & Hused).
  destruct (IH _ _ Er) as (Hrest & Hdist & Hfresh).
  assert (Forall (fun p => p ∉ used) (concat (map fst rest))) as Hfresh'.
  { eapply Forall_impl; [exact Hfresh|]. intros q Hq Hin. apply Hq, Hused. by right. }
  rewrite filter_cons. cbn [fst]. destruct (decide (layer_id ∈ selected)) as [Hs|Hs].
  - rewrite bool_decide_eq_true_2 by done. cbn [map concat fst snd]. split; [|split].
    + constructor; [|done]. split; [done|]. split; [done|]. simpl. rewrite Eo. split; [done|]. simpl in *. lia.
    + apply NoDup_app. split; [done|]. split; [|done]. intros x Hx Hx'. rewrite Forall_forall in Hfresh.
      apply (Hfresh x Hx'), Hused. by left.
    + by apply Forall_app.
  - by rewrite bool_decide_eq_false_2.
Qed.

Lemma build_layers_total config selected layers used : exists fuel0 r, forall fuel, (fuel0 <= fuel)%nat ->
  build_layers fuel config selected layers used = Some r.
Proof.
  revert used. induction layers as [|[layer_id table_size] layers IH]; intros used; [exists 0%nat, (Ok []); done|].
  destruct (layer_primes_total ((engram_max_ngram_size config - 1) * engram_n_heads config) (engram_vocab_size config - 1) used)
    as (fuel1 & [ps used1] & H1). destruct (IH used1) as (fuel2 & r & H2).
  destruct (running_offsets 0 ps) as [offs last] eqn:Eo.
  exists (fuel1 + fuel2)%nat, (if table_size <? last then Err (ValueError "engram table needs more rows")
    else match r with Ok rest => Ok (if bool_decide (layer_id ∈ selected) then (ps, offs) :: rest else rest) | Err e => Err e end).
  intros fuel Hf. simpl. rewrite H1, Eo by lia. destruct (table_size <? last); [done|]. rewrite H2 by lia. by destruct r.
Qed.

(** * Engram hashing: the addresses stay in their heads' rows *)

(** ** 64-bit arithmetic *)

Lemma wrap64_id z : 0 <= z <= INT64_MAX -> wrap64 z = z.
Proof. intros Hz. unfold wrap64, INT64_MAX in *. rewrite Z.mod_small; lia. Qed.

Lemma lxor_bounds a b : 0 <= a <= INT64_MAX -> 0 <= b <= INT64_MAX -> 0 <= Z.lxor a b <= INT64_MAX.
Proof.
  unfold INT64_MAX. intros Ha Hb. split; [apply Z.lxor_nonneg; lia|].
  destruct (decide (Z.lxor a b = 0)) as [->|Hne]; [lia|].
  assert (0 < Z.lxor a b) as Hpos by (pose proof (proj2 (Z.lxor_nonneg a b) ltac:(lia)); lia).
  assert (forall x, 0 <= x <= 2 ^ 63 - 1 -> Z.log2 x < 63) as Hlog.
  { intros x Hx. destruct (decide (x = 0)) as [->|]; [done|]. apply Z.log2_lt_pow2; lia. }
  pose proof (Z.log2_lxor a b ltac:(lia) ltac:(lia)) as Hl. pose proof (Hlog a Ha). pose proof (Hlog b Hb).
  assert (Z.lxor a b < 2 ^ 63); [|lia]. apply Z.log2_lt_pow2; lia.
Qed.

Lemma concat_rows_of {A} r c (l : list A) : length l = (r * c)%nat -> concat (rows_of r c l) = l.
Proof.
  unfold rows_of. revert l. induction r as [|r IH]; intros l Hl; [destruct l; done|].
  rewrite <- cons_seq. cbn [map concat]. rewrite Nat.mul_0_l, drop_0, <- seq_shift, map_map.
  transitivity (take c l ++ drop c l); [f_equal|apply take_drop].
  transitivity (concat (map (fun i => take c (drop (i * c) (drop c l))) (seq 0 r)));
    [|apply IH; rewrite length_drop; lia].
  f_equal. apply map_ext. intros i. by rewrite drop_drop.
Qed.

Lemma rows_of_length {A} r c (l : list A) : length (rows_of r c l) = r.
Proof. unfold rows_of. by rewrite length_map, length_seq. Qed.

Lemma rolling_hashes_bounds rolling products pss : 0 <= rolling <= INT64_MAX ->
  Forall (fun p => 0 <= p <= INT64_MAX) products -> length products = length pss ->
  Forall (Forall (fun m => 0 < m)) pss ->
  Forall2 (fun a m => 0 <= a < m) (rolling_hashes rolling products pss) (concat pss).
Proof.
  intros Hr Hp. revert rolling Hr pss. induction Hp as [|p products Hp Hps IH]; intros rolling Hr [|heads pss] Hlen Hpos; try done.
  apply Forall_cons in Hpos as [Hheads Hpos]. simpl. apply Forall2_app.
  - clear -Hheads. induction Hheads as [|m heads Hm _ IHh]; simpl; constructor; [by apply Z.mod_pos_bound|done].
  - apply IH; [by apply lxor_bounds|simpl in Hlen; lia|done].
Qed.

(** ** Multipliers and layers *)

Definition safe_multiplier (V m : Z) : Prop := forall w, 0 <= w < V -> 0 <= w * m <= INT64_MAX.

Record layer_ok (n heads : nat) (V table_size : Z) (layer : hash_layer) (ps : list Z) : Prop := {
  lo_primes : primes layer = rows_of (n - 1) heads ps;
  lo_offsets : offsets layer = (running_offsets 0 ps).1;
  lo_length : length ps = ((n - 1) * heads)%nat;
  lo_prime : Forall prime ps;
  lo_total : list_sum_Z ps <= table_size;
  lo_multipliers : length (multipliers layer) = n;
  lo_safe : Forall (safe_multiplier V) (multipliers layer) }.

Lemma multiplier_safe V v : 0 < V <= INT64_MAX -> 0 <= v < multiplier_bound V -> safe_multiplier V (wrap64 (v * 2 + 1)).
Proof.
  unfold multiplier_bound. intros HV Hv w Hw.
  assert (v * 2 + 1 = 1 \/ v * 2 + 1 <= INT64_MAX / V) as Hm.
  { destruct (Z.max_spec 1 (INT64_MAX / V / 2)) as [[_ E]|[_ E]]; rewrite E in Hv; [|lia].
    right. pose proof (Z.mul_div_le (INT64_MAX / V) 2 ltac:(lia)). lia. }
  pose proof (Z.mul_div_le INT64_MAX V ltac:(lia)) as Hd. assert (0 <= INT64_MAX / V) by (apply Z.div_pos; lia).
  rewrite wrap64_id; [|destruct Hm as [->|Hm]; [unfold INT64_MAX; lia|nia]].
  destruct Hm as [->|Hm]; [lia|]. nia.
Qed.

Lemma list_sum_take_prime ps k p : Forall (fun x => 0 < x) ps -> ps !! k = Some p ->
  0 <= list_sum_Z (take k ps) /\ list_sum_Z (take k ps) + p <= list_sum_Z ps.
Proof.
  intros Hpos. revert k. induction Hpos as [|x ps Hx Hps IH]; intros k Hk; [done|]. destruct k as [|k]; simpl in *.
  - injection Hk as ->. rewrite list_sum_Z_nil, list_sum_Z_cons.
    assert (0 <= list_sum_Z ps); [|lia]. clear IH. induction Hps as [|y ps Hy _ IH]; [by rewrite list_sum_Z_nil|].
    rewrite list_sum_Z_cons. lia.
  - rewrite !list_sum_Z_cons. destruct (IH k Hk). lia.
Qed.

(** Each address lies in the rows of its own head. *)
Definition in_heads (ps : list Z) (table_size : Z) (addresses : list Z) : Prop :=
  length addresses = length ps
  /\ forall k a p, addresses !! k = Some a -> ps !! k = Some p ->
       list_sum_Z (take k ps) <= a < list_sum_Z (take k ps) + p /\ 0 <= a < table_size.

Lemma primes_positive ps : Forall prime ps -> Forall (fun x => 0 < x) ps.
Proof. intros H. eapply Forall_impl; [exact H|]. intros p [Hp _]. simpl. lia. Qed.

Lemma addresses_in_heads n heads V table_size layer ps window :
  layer_ok n heads V table_size layer ps -> (0 < n)%nat -> table_size <= INT64_MAX ->
  length window = n -> Forall (fun w => 0 <= w < V) window ->
  in_heads ps table_size (addresses layer window).
Proof.
  intros [] Hn Hts Hlen Hw. unfold addresses. rewrite lo_primes0, lo_offsets0.
  set (products := zip_with (fun w m => wrap64 (w * m)) window (multipliers layer)).
  assert (length products = n) as Hpl by (unfold products; rewrite length_zip_with; lia).
  assert (Forall (fun p => 0 <= p <= INT64_MAX) products) as Hpb.
  { apply Forall_lookup_2. intros i x Hx. unfold products in Hx. rewrite lookup_zip_with_Some in Hx.
    destruct Hx as (w & m & -> & Hwi & Hmi). pose proof (Forall_lookup_1 _ _ _ _ Hw Hwi) as Hwb.
    pose proof (Forall_lookup_1 _ _ _ _ lo_safe0 Hmi w Hwb) as Hs. by rewrite wrap64_id. }
  destruct products as [|first products]; [simpl in Hpl; lia|]. apply Forall_cons in Hpb as [Hfirst Hpb].
  pose proof (primes_positive ps lo_prime0) as Hpos.
  assert (Forall2 (fun a m => 0 <= a < m) (rolling_hashes first products (rows_of (n - 1) heads ps)) ps) as Hroll.
  { rewrite <- (concat_rows_of (n - 1) heads ps) at 2 by done. apply rolling_hashes_bounds; try done.
    - rewrite rows_of_length. simpl in Hpl. lia.
    - apply Forall_concat. by rewrite concat_rows_of. }
  destruct (running_offsets_spec 0 ps) as (_ & Hol & Ho). pose proof (Forall2_length _ _ _ Hroll) as Hrl.
  split; [rewrite length_zip_with; lia|]. intros k a p Ha Hp. rewrite lookup_zip_with_Some in Ha.
  destruct Ha as (x & o & -> & Hx & Hok). rewrite (Ho k o Hok) in *.
  pose proof (Forall2_lookup_lr _ _ _ _ _ _ Hroll Hx Hp) as Hb. simpl in Hb.
  destruct (list_sum_take_prime ps k p Hpos Hp) as [H0 H1]. rewrite wrap64_id by lia. lia.
Qed.

(** * What the Engram hash guarantees *)

(** The documented range of [Generator.integers]. *)
Definition draws_below (integers : Z -> Z -> nat -> list Z) : Prop :=
  forall seed bound n, 0 < bound -> length (integers seed bound n) = n /\ Forall (fun v => 0 <= v < bound) (integers seed bound n).

Definition table_sizes (config : hash_config) (layer_ids : option (list Z)) : list Z :=
  map snd (filter (fun l => l.1 ∈ default (engram_layer_ids config) layer_ids)
    (zip (engram_layer_ids config) (engram_num_embeddings config))).

Lemma py_index_in {A} (l : list A) i x : py_index l i = Ok x -> x ∈ l.
Proof.
  unfold py_index. destruct (if i <? 0 then _ else _) as [|p|p]; try done;
    (destruct (l !! _) eqn:E; [|done]); intros [= <-]; by eapply list_elem_of_lookup_2.
Qed.

Section Made.
Context (integers : Z -> Z -> nat -> list Z) (Hdraws : draws_below integers).
Context (fuel : nat) (config : hash_config) (layer_ids : option (list Z)) (tokens : option (list Z)) (h : ngram_hash).
#[local] Notation V := (engram_compressed_vocab_size config).
#[local] Notation n := (engram_max_ngram_size config).
Context (HV : 0 < V <= INT64_MAX) (Hmade : make_hash integers fuel config layer_ids tokens = Some (Ok h)).

Lemma made_tokens : Forall (fun v => 0 <= v < V) (token_map h) /\ 0 <= pad_id h < V
  /\ max_ngram h = n /\ Z.of_nat (length (token_map h)) = vocab_size config.
Proof.
  unfold make_hash in Hmade. set (ts := default _ tokens) in Hmade.
  destruct (Z.eqb_spec (Z.of_nat (length ts)) (vocab_size config)) as [Hlen|]; [|done]. simpl in Hmade.
  destruct (existsb _ ts) eqn:Ets; [done|].
  destruct (py_index ts _) as [pad|] eqn:Epad; [|done].
  destruct (negb _); [done|]. destruct (build_layers _ _ _ _ _) as [[built|]|]; [|done..].
  destruct (negb _); [done|]. injection Hmade as <-. simpl.
  assert (Forall (fun v => 0 <= v < V) ts) as Hts.
  { apply Forall_forall. intros v Hv. apply not_true_iff_false in Ets.
    assert (negb ((v <? 0) || (V <=? v)) = true) as E; [|destr_bool; lia].
    apply negb_true_iff, not_true_iff_false. intros E. apply Ets, existsb_exists. exists v. split; [by apply list_elem_of_In|done]. }
  split; [done|]. split; [|done]. apply py_index_in in Epad. rewrite Forall_forall in Hts. by apply Hts.
Qed.

Lemma made_layers l layer : hash_layers h !! l = Some layer ->
  exists ps table_size, table_sizes config layer_ids !! l = Some table_size
    /\ layer_ok n (engram_n_heads config) V table_size layer ps.
Proof.
  unfold make_hash in Hmade. set (ts := default _ tokens) in Hmade.
  destruct (negb (_ =? vocab_size config)); [done|]. destruct (existsb _ ts); [done|].
  destruct (py_index ts _) as [pad|]; [|done]. destruct (negb (forallb _ _)); [done|].
  destruct (build_layers _ _ _ _ _) as [[built|]|] eqn:Eb; [|done..].
  destruct (negb _); [done|]. injection Hmade as <-. cbn [hash_layers]. intros Hl.
  destruct (build_layers_sound _ _ _ _ _ _ Eb) as (Hlaid & _ & _).
  rewrite lookup_zip_with_Some in Hl. destruct Hl as ([ps offs] & layer_id & -> & Hpo & _).
  destruct (Forall2_lookup_r _ _ _ _ _ Hlaid Hpo) as (ts' & Hts & Hlen & Hprime & Hoffs & Htotal).
  exists ps, ts'. split; [exact Hts|]. simpl in *.
  destruct (Hdraws (10007 * layer_id) (multiplier_bound V) n) as [Hdl Hdb]; [unfold multiplier_bound; lia|].
  split; try done; simpl.
  - unfold build_hash_multipliers. by rewrite length_map.
  - unfold build_hash_multipliers. apply Forall_fmap. eapply Forall_impl; [exact Hdb|]. intros v Hv. by apply multiplier_safe.
Qed.

Lemma windows_in_vocabulary input_ids mask ids t w :
  Forall (fun i => 0 <= i < vocab_size config) input_ids -> length mask = length input_ids -> length ids = length input_ids ->
  windows h input_ids mask ids !! t = Some w -> length w = n /\ Forall (fun x => 0 <= x < V) w.
Proof.
  intros Hin Hm Hi Hw. destruct made_tokens as (Hts & Hpad & Hn & Hlen). split.
  - unfold windows, stack in Hw. rewrite list_lookup_fmap in Hw. apply fmap_Some in Hw as (t' & _ & ->).
    by rewrite length_map, window_columns_length, length_seq.
  - apply Forall_lookup_2. intros d x Hx.
    assert (Forall (fun v => 0 <= v) (token_map h)) as Hnn by (eapply Forall_impl; [exact Hts|]; simpl; lia).
    destruct (window_value h input_ids mask ids Hm Hi Hnn w t d x Hw Hx) as (Ht & _ & Hr & Hnr).
    assert (x = pad_id h \/ exists i, i ∈ input_ids /\ x = token_of h i) as [->|(i & Hi' & ->)]; [|done|].
    { destruct (existsb (ends_at (mask_fill mask (map (token_of h) input_ids)) (mask_fill mask ids) t) (seq 0 (S d))) eqn:E.
      - left. apply Hnr. intros Hreach. apply (reaches_spec h input_ids mask ids Hm Hi Hnn t d Ht) in Hreach. congruence.
      - right. apply (reaches_spec h input_ids mask ids Hm Hi Hnn t d Ht) in E.
        destruct (Hr E) as (i & Hil & ->). exists i. split; [by eapply list_elem_of_lookup_2|done]. }
    rewrite Forall_forall in Hin. specialize (Hin i Hi'). simpl in Hin. unfold token_of.
    destruct (nth_lookup_or_length (token_map h) (Z.to_nat i) 0) as [Hl|Hl]; [|lia].
    exact (Forall_lookup_1 _ _ _ _ Hts Hl).
Qed.
End Made.

(** Every address the Engram hash computes is a row of its layer's table
    and lies in the rows of its own head, so that two heads never share a row;
    no product or sum leaves the int64 range on the way. *)
Theorem ngram_addresses_in_table integers fuel config layer_ids tokens h input_ids mask sequence_ids t l rows A :
  draws_below integers ->
  0 < engram_compressed_vocab_size config <= INT64_MAX ->
  (2 <= engram_max_ngram_size config)%nat ->
  Forall (fun size => size <= INT64_MAX) (engram_num_embeddings config) ->
  make_hash integers fuel config layer_ids tokens = Some (Ok h) ->
  Forall (fun i => 0 <= i < vocab_size config) input_ids ->
  length mask = length input_ids -> length (default (replicate (length input_ids) 0) sequence_ids) = length input_ids ->
  forward h input_ids mask sequence_ids !! t = Some rows -> rows !! l = Some A ->
  exists table_size ps, table_sizes config layer_ids !! l = Some table_size
    /\ Forall prime ps /\ length A = ((engram_max_ngram_size config - 1) * engram_n_heads config)%nat
    /\ in_heads ps table_size A.
Proof.
  intros Hd HV Hn Hsizes Hmade Hin Hm Hi Hrows HA.
  unfold forward in Hrows. rewrite list_lookup_fmap in Hrows. apply fmap_Some in Hrows as (w & Hw & ->).
  rewrite list_lookup_fmap in HA. apply fmap_Some in HA as (layer & Hlayer & ->).
  destruct (windows_in_vocabulary integers fuel config layer_ids tokens h Hmade _ _ _ _ _ Hin Hm Hi Hw) as [Hwl Hwb].
  destruct (made_layers integers Hd fuel config layer_ids tokens h HV Hmade l layer Hlayer) as (ps & ts & Hts & Hok).
  assert (ts <= INT64_MAX) as Hle.
  { unfold table_sizes in Hts. rewrite list_lookup_fmap in Hts. apply fmap_Some in Hts as ([id size] & Hf & ->).
    apply list_elem_of_lookup_2, list_elem_of_filter in Hf as [_ Hf]. apply elem_of_zip_r in Hf.
    rewrite Forall_forall in Hsizes. exact (Hsizes _ Hf). }
  pose proof (addresses_in_heads _ _ _ _ _ _ _ Hok ltac:(lia) Hle Hwl Hwb) as HA.
  exists ts, ps. split; [done|]. split; [apply Hok|]. split; [|done].
  destruct HA as [-> _]. apply Hok.
Qed.

(** An n-gram never crosses the boundary of its sequence: at distance [d]
    the window of position [t] holds the token [d] positions before when all
    positions in between are live and in the sequence of [t], and the padding
    otherwise. *)
Theorem ngram_window_in_sequence h input_ids mask ids w t d x :
  Forall (fun v => 0 <= v) (token_map h) ->
  length mask = length input_ids -> length ids = length input_ids ->
  windows h input_ids mask ids !! t = Some w -> w !! d = Some x ->
  (reaches mask ids t d -> exists i, input_ids !! (t - d)%nat = Some i /\ x = nth (Z.to_nat i) (token_map h) 0)
  /\ (~ reaches mask ids t d -> x = pad_id h).
Proof.
  intros Hmap Hm Hi Hw Hx. by destruct (window_value h input_ids mask ids Hm Hi Hmap w t d x Hw Hx) as (_ & _ & H1 & H2).
Qed.

(** Building the hash always ends: the search for a prime finds the first
    one above the given value that is not in use, whatever is in use, and with
    enough fuel the construction returns a hash or an error that more fuel
    does not change. *)
Theorem ngram_hash_terminates integers config layer_ids tokens :
  (forall value used, exists fuel0 p, prime p /\ value < p /\ p ∉ used
     /\ (forall q, value < q < p -> prime q -> q ∈ used)
     /\ forall fuel, (fuel0 <= fuel)%nat -> next_prime fuel value used = Some p)
  /\ exists fuel0 r, forall fuel, (fuel0 <= fuel)%nat -> make_hash integers fuel config layer_ids tokens = Some r.
Proof.
  split.
  - intros value used. destruct (good_prime_above used (value + 1)) as (p & Hp & Hlt).
    destruct (next_prime_from_total (value + 1) used p Hp ltac:(lia)) as [q Hq].
    destruct (next_prime_from_sound _ _ _ _ (Hq _ (Nat.lt_succ_diag_r _))) as ([Hqp Hqu] & Hle & Hmin).
    exists (S (Z.to_nat (p - (value + 1)))), q. split; [done|]. split; [lia|]. split; [done|]. split.
    + intros q' Hq' Hprime. destruct (decide (q' ∈ used)); [done|]. exfalso. apply (Hmin q'); [lia|done].
    + intros fuel Hf. apply Hq. lia.
  - unfold make_hash. set (ts := default _ tokens).
    destruct (negb (_ =? vocab_size config)); [by exists 0%nat; eexists|]. destruct (existsb _ ts); [by exists 0%nat; eexists|].
    destruct (py_index ts _) as [pad|]; [|by exists 0%nat; eexists]. destruct (negb (forallb _ _)); [by exists 0%nat; eexists|].
    destruct (build_layers_total config (default (engram_layer_ids config) layer_ids)
      (zip (engram_layer_ids config) (engram_num_embeddings config)) []) as (fuel0 & r & Hr).
    exists fuel0. destruct r as [built|e]; [destruct (negb (length built =? length (default (engram_layer_ids config) layer_ids))%nat) eqn:E|];
      eexists; intros fuel Hf; rewrite Hr by done; rewrite ?E; reflexivity.
Qed.

(** ** A small table *)

Definition small_config : hash_config :=
  {| vocab_size := 6; engram_layer_ids := [1; 3]; engram_num_embeddings := [80; 120]; engram_vocab_size := 8;
     engram_max_ngram_size := 3; engram_n_heads := 2; engram_pad_id := 0; engram_compressed_vocab_size := 5 |}.

Definition constant_draws (_ bound : Z) (n : nat) : list Z := replicate n (bound - 1).

Lemma constant_draws_below : draws_below constant_draws.
Proof. intros seed bound n Hb. unfold constant_draws. split; [apply length_replicate|]. apply Forall_replicate. lia. Qed.

Definition small_hash : ngram_hash :=
  match make_hash constant_draws 40 small_config None None with
  | Some (Ok h) => h
  | _ => {| max_ngram := 0; token_map := []; pad_id := 0; hash_layers := [] |}
  end.

Definition small_addresses : list (list (list Z)) := forward small_hash [1; 4; 5; 2] [true; true; true; true] (Some [0; 0; 1; 1]).

Lemma ngram_addresses_in_table_witness :
  exists rows A table_size ps, small_addresses !! 1%nat = Some rows /\ rows !! 1%nat = Some A /\ length A = 4%nat
    /\ in_heads ps table_size A.
Proof.
  destruct (small_addresses !! 1%nat) as [rows|] eqn:Hrows; [|vm_compute in Hrows; discriminate Hrows].
  destruct (rows !! 1%nat) as [A|] eqn:HA; [|vm_compute in Hrows; injection Hrows as <-; vm_compute in HA; discriminate HA].
  destruct (ngram_addresses_in_table constant_draws 40 small_config None None small_hash [1; 4; 5; 2]
    [true; true; true; true] (Some [0; 0; 1; 1]) 1 1 rows A) as (table_size & ps & _ & _ & Hlen & Hin).
  - exact constant_draws_below.
  - unfold INT64_MAX. simpl. lia.
  - simpl. lia.
  - unfold INT64_MAX. repeat constructor; lia.
  - vm_compute. reflexivity.
  - repeat constructor; simpl; lia.
  - reflexivity.
  - reflexivity.
  - exact Hrows.
  - exact HA.
  - exists rows, A, table_size, ps. split; [reflexivity|]. split; [exact HA|]. split; [exact Hlen|exact Hin].
Defined.

Lemma ngram_window_in_sequence_witness :
  windows small_hash [1; 4; 5; 2] [true; true; true; true] [0; 0; 1; 1] !! 3%nat = Some [2; 0; 0] /\ pad_id small_hash = 0
  /\ exists i, [1; 4; 5; 2] !! 2%nat = Some i /\ 0 = nth (Z.to_nat i) (token_map small_hash) 0.
Proof.
  assert (windows small_hash [1; 4; 5; 2] [true; true; true; true] [0; 0; 1; 1] !! 3%nat = Some [2; 0; 0]) as Hw
    by (vm_compute; reflexivity).
  split; [exact Hw|]. split; [vm_compute; reflexivity|].
  apply (ngram_window_in_sequence small_hash [1; 4; 5; 2] [true; true; true; true] [0; 0; 1; 1] [2; 0; 0] 3 1 0).
  - vm_compute. repeat constructor; discriminate.
  - reflexivity.
  - reflexivity.
  - exact Hw.
  - reflexivity.
  - intros e He. destruct e as [|[|e]]; [| |lia]; repeat split; lia.
Defined.
