(* ===== verification/ContextParallel.v ===== *)
(** * Context parallelism ([dsv41_train/cp.py])

    Each rank holds one contiguous shard of the token dimension.  [gather]
    collects all shards, [left_halo] only the tail of the previous rank; both
    have a hand-written backward.  [build] prepares, from the whole sequence, a
    rank's view of the sliding attention window.  A tensor is the list of its
    slices along the token dimension, one batch row at a time; the values the
    backwards add are integers (multiples of a common unit, without rounding),
    losses are rationals. *)

From Stdlib Require Import QArith.
From S2P Require Import Torch.
Local Open Scope nat_scope.
Local Open Scope py_scope.

(** ** Collectives of [ContextParallel] *)

Section Collectives.
Context `{TensorOps} (size : nat).

Definition enabled : bool := 1 <? size.

Definition shard {A} (rank : nat) (l : list A) : res (list A) :=
  if negb enabled then Ok l
  else raise_when negb (length l mod size =? 0) with_exn ValueError "tensor dimension must divide CP size";
       match chunk size l !! rank with Some c => Ok c | None => Err (IndexError "tuple index out of range") end.

Definition gather {A} (t : nat -> list A) (rank : nat) : list A :=
  if negb enabled then t rank else concat (all_gather size t rank).

(** [_ring_exchange]: all of a rank's slices go to [send], as many come from
    [recv]. *)
Definition one_split (peer tokens : nat) : list nat := map (fun i => if i =? peer then tokens else 0) (seq 0 size).
Definition ring_exchange {A} (t : nat -> list A) (send recv : nat -> nat) (rank : nat) : list A :=
  all_to_all size t (fun i => one_split (send i) (length (t i))) (fun i => one_split (recv i) (length (t i))) rank.

Definition next (rank : nat) : nat := (rank + 1) mod size.
Definition previous (rank : nat) : nat := (rank + (size - 1)) mod size.

(** [t.narrow(dim, start, length)] *)
Definition narrow {A} (start length : nat) (l : list A) : list A := take length (drop start l).

(** [_LeftHalo.forward] *)
Definition halo_forward {A} (halo : nat) (t : nat -> list A) (rank : nat) : list A :=
  let prefix := ring_exchange (fun i => narrow (length (t i) - halo) halo (t i)) next previous rank in
  if rank =? 0 then t rank else prefix ++ t rank.

(** [_LeftHalo.backward] *)
Definition prefix_grad (halo : nat) (g : nat -> list Z) (rank : nat) : list Z :=
  if rank =? 0 then replicate halo 0%Z else narrow 0 halo (g rank).
Definition local_grad (halo : nat) (g : nat -> list Z) (rank : nat) : list Z :=
  if rank =? 0 then g rank else narrow halo (length (g rank) - halo) (g rank).

(** [result.narrow(dim, shape - length, length).add_(received)] *)
Definition add_tail (halo : nat) (l received : list Z) : list Z :=
  take (length l - halo) l ++ zip_with Z.add (drop (length l - halo) l) received.

Definition halo_backward (halo : nat) (g : nat -> list Z) (rank : nat) : list Z :=
  let received := ring_exchange (prefix_grad halo g) previous next rank in
  if rank <? size - 1 then add_tail halo (local_grad halo g rank) received else local_grad halo g rank.

(** [_AllGather.backward]: equal splits, then the sum of the received chunks. *)
Definition sum_chunks (chunks : list (list Z)) : list Z :=
  match chunks with [] => [] | c :: cs => fold_left (zip_with Z.add) cs c end.

Definition gather_backward (g : nat -> list Z) (rank : nat) : list Z :=
  let splits i := replicate size (length (g i) / size) in
  sum_chunks (chunk size (all_to_all size g splits splits rank)).

Definition left_halo {A} (halo : Z) (t : nat -> list A) (rank : nat) : res (list A) :=
  if negb enabled || (halo =? 0)%Z then Ok (t rank)
  else raise_when (halo <? 0)%Z || (Z.of_nat (length (t rank)) <? halo)%Z
         with_exn ValueError "halo length out of range";
       Ok (halo_forward (Z.to_nat halo) t rank).

(** ** [mean_loss] *)

(** [self.sum]: the sum over the ranks. *)
Definition sum_ranks (x : nat -> Q) : Q := fold_right Qplus 0%Q (map x (seq 0 size)).

Definition clamp_min_one (x : Q) : Q := if Qle_bool x 1 then 1%Q else x.

(** What [backward()] differentiates, and the value returned. *)
Definition backward_loss (local_sum local_count : nat -> Q) (rank : nat) : Q :=
  (local_sum rank * (inject_Z (Z.of_nat size) / clamp_min_one (sum_ranks local_count)))%Q.

Definition mean_loss (local_sum local_count : nat -> Q) (rank : nat) : Q :=
  if negb enabled then (local_sum rank / clamp_min_one (local_count rank))%Q
  else let value := (sum_ranks local_sum / clamp_min_one (sum_ranks local_count))%Q in
       (backward_loss local_sum local_count rank + (value - backward_loss local_sum local_count rank))%Q.
End Collectives.

(** ** [ModelContext] *)

Record model_context := {
  input_ids : list Z;
  positions : list Z;
  token_mask : list bool;
  sequence_ids : list Z;
  attention_indices : list (list Z);
  attention_mask : list (list bool);
  attention_halo_length : Z }.

Section Build.
Context `{TensorOps} (size rank : nat).

(** [token_mask & (sequence_ids != F.pad(sequence_ids[:, :-1], (1, 0), value=-1))] *)
Definition starts (mask : list bool) (ids : list Z) : list bool :=
  zip_with andb mask (zip_with (fun a b => negb (a =? b)%Z) ids ((-1)%Z :: removelast ids)).

Definition global_positions (mask : list bool) (ids : list Z) : list Z :=
  let indices := map Z.of_nat (seq 0 (length ids)) in
  let latest := cummax (zip_with (fun (s : bool) i => if s then i else 0%Z) (starts mask ids) indices) in
  zip_with (fun (live : bool) p => if live then p else 0%Z) mask (zip_with Z.sub indices latest).

(** [indices.unsqueeze(-1) - torch.arange(window - 1, -1, -1)] *)
Definition window_keys (window : nat) (index : Z) : list Z :=
  map (fun w => index - (Z.of_nat window - 1 - Z.of_nat w))%Z (seq 0 window).

Definition halo_length (window local_length : nat) : Z :=
  if enabled size && (Z.of_nat window - 1 <=? Z.of_nat local_length)%Z then (Z.of_nat window - 1)%Z else 0%Z.

Definition build (ids : list Z) (mask : list bool) (sequences : list Z) (window : nat) : res model_context :=
  let indices := map Z.of_nat (seq 0 (length ids)) in
  local_indices <-? shard size rank indices;
  let keys := map (window_keys window) local_indices in
  let clamped := map (map (Z.max 0)) keys in
  let key_sequences := map (fun ks => index_select sequences (map Z.to_nat ks)) clamped in
  let key_mask := map (fun ks => index_select mask (map Z.to_nat ks)) clamped in
  local_input <-? shard size rank ids;
  local_positions <-? shard size rank (global_positions mask sequences);
  local_mask <-? shard size rank mask;
  local_sequences <-? shard size rank sequences;
  let local_length := length local_input in
  let halo := halo_length window local_length in
  let local_start := (Z.of_nat rank * Z.of_nat local_length)%Z in
  let prefix := if rank =? 0 then 0%Z else halo in
  Ok {| input_ids := local_input; positions := local_positions; token_mask := local_mask;
        sequence_ids := local_sequences;
        attention_indices :=
          if (halo =? 0)%Z then clamped
          else map (map (fun k => k - local_start + prefix)%Z) clamped;
        attention_mask :=
          zip_with (fun (live_sequence : bool * Z) row =>
              map (fun c => (0 <=? c.1.1)%Z && c.1.2 && live_sequence.1 && (live_sequence.2 =? c.2)%Z) row)
            (zip local_mask local_sequences)
            (zip_with (fun ks ms => zip (zip ks ms.1) ms.2) keys (zip key_mask key_sequences));
        attention_halo_length := halo |}.

(** [gather_attention]: what the keys of a rank are picked from. *)
Definition gather_attention {A} (context : model_context) (t : nat -> list A) : res (list A) :=
  if (attention_halo_length context =? 0)%Z then Ok (gather size t rank)
  else left_halo size (attention_halo_length context) t rank.
End Build.

(** [pack_sequences]: the flattened batch and its sequence ids. *)
Definition pack_sequences {A} `{TensorOps} (length : nat) (batch : list (list A)) : list A * list nat :=
  (concat batch, repeat_interleave (seq 0 (List.length batch)) (replicate (List.length batch) length)).
