(* ===== verification/ContextProofs.v ===== *)
(** * Context parallelism: shards, halos and windows *)

From Stdlib Require Import QArith Lqa.
From S2P Require Import Torch TorchFacts ContextParallel.
Local Open Scope nat_scope.
Local Open Scope py_scope.

(** The [r]-th of equal parts of length [n]. *)
Definition part {A} (n r : nat) (l : list A) : list A := take n (drop (r * n) l).

Lemma part_map {A B} (f : A -> B) n r l : part n r (map f l) = map f (part n r l).
Proof. unfold part. by rewrite skipn_map, firstn_map. Qed.

Lemma part_zip_with {A B C} (f : A -> B -> C) n r l k :
  part n r (zip_with f l k) = zip_with f (part n r l) (part n r k).
Proof. unfold part. by rewrite zip_with_drop, zip_with_take. Qed.

Lemma part_seq n r s : r < s -> part n r (seq 0 (s * n)) = seq (r * n) n.
Proof. intros Hr. unfold part. rewrite drop_seq, take_seq. f_equal. nia. Qed.

Lemma part_length {A} n r s (l : list A) : length l = s * n -> r < s -> length (part n r l) = n.
Proof. intros Hl Hr. unfold part. rewrite length_take, length_drop. nia. Qed.

Lemma parts_concat {A} n s (l : list A) : length l = s * n -> concat (map (fun r => part n r l) (seq 0 s)) = l.
Proof.
  revert l. induction s as [|s IH]; intros l Hl; [destruct l; done|].
  rewrite <- cons_seq. cbn [map concat]. rewrite <- seq_shift, map_map.
  transitivity (take n l ++ drop n l); [|apply take_drop]. f_equal. unfold part in *.
  transitivity (concat (map (fun r => take n (drop (r * n) (drop n l))) (seq 0 s)));
    [|apply IH; rewrite length_drop; lia].
  f_equal. apply map_ext. intros r. by rewrite drop_drop.
Qed.

Lemma part_lookup {A} n r (l : list A) i : i < n -> part n r l !! i = l !! (r * n + i).
Proof. intros Hi. unfold part. by rewrite lookup_take_lt, lookup_drop by done. Qed.

Lemma concat_only {A} (f : nat -> list A) p m k : m <= p < m + k ->
  concat (map (fun j => if j =? p then f j else []) (seq m k)) = f p.
Proof.
  revert m. induction k as [|k IH]; intros m Hp; [lia|]. cbn [seq map concat].
  destruct (Nat.eqb_spec m p) as [->|Hne].
  - assert (forall k m, p < m -> concat (map (fun j => if j =? p then f j else []) (seq m k)) = []) as Hz; [|rewrite Hz by lia; apply app_nil_r].
    clear. induction k as [|k IH]; intros m Hm; [done|]. cbn [seq map concat].
    destruct (Nat.eqb_spec m p); [lia|]. by rewrite IH by lia.
  - apply IH. lia.
Qed.

Lemma narrow_length {A} start k (l : list A) : start + k <= length l -> length (narrow start k l) = k.
Proof. intros. unfold narrow. rewrite length_take, length_drop. lia. Qed.

Section Collectives.
Context `{TensorLaws} (size n : nat) (Hsize : 0 < size) (Hn : 0 < n).

Lemma shard_part {A} rank (l : list A) : rank < size -> length l = size * n -> shard size rank l = Ok (part n rank l).
Proof.
  intros Hr Hl. unfold shard, enabled. destruct (Nat.ltb_spec 1 size) as [Hs|Hs]; simpl.
  - rewrite Hl, Nat.mul_comm, Nat.Div0.mod_mul. simpl. rewrite (chunk_law size n) by (done || lia).
    by rewrite list_lookup_fmap, lookup_seq_lt by done.
  - assert (size = 1) as -> by lia. assert (rank = 0) as -> by lia. unfold part. simpl. rewrite drop_0, take_ge by lia. done.
Qed.

Lemma gather_parts {A} (l : list A) rank : rank < size -> length l = size * n -> gather size (fun i => part n i l) rank = l.
Proof.
  intros Hr Hl. unfold gather, enabled. destruct (Nat.ltb_spec 1 size) as [Hs|Hs]; simpl.
  - rewrite all_gather_law by done. by apply parts_concat.
  - assert (size = 1) as -> by lia. assert (rank = 0) as -> by lia. unfold part. simpl. rewrite drop_0, take_ge by lia. done.
Qed.

End Collectives.

(** ** The ring *)

Section Ring.
Context `{TensorLaws} (size : nat) (Hsize : 0 < size).

Lemma ring_exchange_eq {A} k (t : nat -> list A) send recv j : j < size ->
  (forall i, i < size -> length (t i) = k /\ send i < size /\ recv i < size) ->
  (forall i j, i < size -> j < size -> j = send i <-> i = recv j) ->
  ring_exchange size t send recv j = t (recv j).
Proof.
  intros Hj Ht Hring. unfold ring_exchange.
  set (piece := fun i j => if j =? send i then t i else []).
  rewrite (exchange_pieces size piece); [| |done].
  - transitivity (concat (map (fun i => if i =? recv j then t i else []) (seq 0 size))).
    + f_equal. apply map_seq_ext. intros i Hi. unfold piece. pose proof (Hring i j Hi Hj) as Hiff.
      destruct (Nat.eqb_spec j (send i)), (Nat.eqb_spec i (recv j)); tauto.
    + apply concat_only. destruct (Ht j Hj) as (_ & _ & ?). lia.
  - intros i Hi. destruct (Ht i Hi) as (Hk & Hs & Hr). unfold piece, one_split. split; [|split].
    + symmetry. apply (concat_only (fun _ => t i)). lia.
    + apply map_ext. intros j'. by destruct (j' =? send i).
    + apply map_seq_ext. intros j' Hj'. pose proof (Hring j' i Hj' Hi) as Hiff. destruct (Ht j' Hj') as (Hk' & _).
      destruct (Nat.eqb_spec i (send j')), (Nat.eqb_spec j' (recv i)); try tauto; congruence.
Qed.

Lemma next_spec rank : rank < size -> next size rank = (if rank =? size - 1 then 0 else rank + 1).
Proof.
  intros Hr. unfold next. destruct (Nat.eqb_spec rank (size - 1)).
  - replace (rank + 1) with size by lia. apply Nat.Div0.mod_same.
  - apply Nat.mod_small. lia.
Qed.

Lemma previous_spec rank : rank < size -> previous size rank = (if rank =? 0 then size - 1 else rank - 1).
Proof.
  intros Hr. unfold previous. destruct (Nat.eqb_spec rank 0) as [->|].
  - apply Nat.mod_small. lia.
  - replace (rank + (size - 1)) with (rank - 1 + 1 * size) by lia. rewrite Nat.Div0.mod_add. apply Nat.mod_small. lia.
Qed.

Lemma ring_neighbours i j : i < size -> j < size -> j = next size i <-> i = previous size j.
Proof.
  intros Hi Hj. rewrite next_spec, previous_spec by done.
  destruct (Nat.eqb_spec i (size - 1)), (Nat.eqb_spec j 0); lia.
Qed.

Lemma next_lt i : i < size -> next size i < size.
Proof. intros Hi. rewrite next_spec by done. destruct (Nat.eqb_spec i (size - 1)); lia. Qed.
Lemma previous_lt i : i < size -> previous size i < size.
Proof. intros Hi. rewrite previous_spec by done. destruct (Nat.eqb_spec i 0); lia. Qed.

End Ring.

(** ** The halo *)

Section Halo.
Context `{TensorLaws} (size n : nat) (Hsize : 0 < size).

Lemma halo_forward_eq {A} halo (t : nat -> list A) rank : rank < size -> halo <= n -> (forall i, i < size -> length (t i) = n) ->
  halo_forward size halo t rank
  = if rank =? 0 then t 0 else drop (n - halo) (t (rank - 1)) ++ t rank.
Proof.
  intros Hr Hh Ht. unfold halo_forward. rewrite (ring_exchange_eq size Hsize halo).
  - rewrite previous_spec by done. destruct (Nat.eqb_spec rank 0) as [->|]; [done|].
    rewrite Ht by lia. unfold narrow. rewrite (take_ge _ halo); [done|]. rewrite length_drop, Ht by lia. lia.
  - done.
  - intros i Hi. split; [rewrite narrow_length; rewrite ?Ht by done; lia|]. split; [by apply next_lt|by apply previous_lt].
  - by apply ring_neighbours.
Qed.

(** The halo of parts is the window of the whole that starts [halo] earlier. *)
Lemma halo_parts {A} halo (l : list A) rank : 0 < rank < size -> halo <= n -> length l = size * n ->
  halo_forward size halo (fun i => part n i l) rank = take (halo + n) (drop (rank * n - halo) l).
Proof.
  intros Hr Hh Hl. rewrite halo_forward_eq; [|lia|done|intros i Hi; by apply (part_length n i size)].
  destruct (Nat.eqb_spec rank 0); [lia|]. unfold part.
  rewrite <- take_take_drop. f_equal.
  - rewrite skipn_firstn_comm, drop_drop. replace (n - (n - halo)) with halo by lia. do 2 f_equal. nia.
  - rewrite drop_drop. f_equal. f_equal. nia.
Qed.
End Halo.

(** * Context parallelism: a rank's window is the whole sequence's window *)

Section Windows.
Context `{TensorLaws}.
Context (ids : list Z) (mask : list bool) (sequences : list Z) (window : nat).

Definition indices_of : list Z := map Z.of_nat (seq 0 (length ids)).

(** [indices] elements, and the masks, of the whole sequence. *)
Definition clamped_of (local_indices : list Z) : list (list Z) := map (map (Z.max 0)) (map (window_keys window) local_indices).

Definition mask_of (local_indices : list Z) (local_mask : list bool) (local_sequences : list Z) : list (list bool) :=
  let keys := map (window_keys window) local_indices in
  let key_mask := map (fun ks => index_select mask (map Z.to_nat ks)) (clamped_of local_indices) in
  let key_sequences := map (fun ks => index_select sequences (map Z.to_nat ks)) (clamped_of local_indices) in
  zip_with (fun (live_sequence : bool * Z) row =>
      map (fun c => (0 <=? c.1.1)%Z && c.1.2 && live_sequence.1 && (live_sequence.2 =? c.2)%Z) row)
    (zip local_mask local_sequences)
    (zip_with (fun ks ms => zip (zip ks ms.1) ms.2) keys (zip key_mask key_sequences)).

Definition context_of (size n rank : nat) : model_context :=
  let halo := halo_length size window n in
  {| input_ids := part n rank ids; positions := part n rank (global_positions mask sequences);
     token_mask := part n rank mask; sequence_ids := part n rank sequences;
     attention_indices :=
       if (halo =? 0)%Z then clamped_of (part n rank indices_of)
       else map (map (fun k => k - Z.of_nat rank * Z.of_nat n + (if (rank =? 0)%nat then 0 else halo))%Z)
              (clamped_of (part n rank indices_of));
     attention_mask := mask_of (part n rank indices_of) (part n rank mask) (part n rank sequences);
     attention_halo_length := halo |}.

Lemma build_parts size n rank : 0 < n -> rank < size ->
  length ids = size * n -> length mask = size * n -> length sequences = size * n ->
  build size rank ids mask sequences window = Ok (context_of size n rank).
Proof.
  intros Hn Hr Hi Hm Hs. assert (length (global_positions mask sequences) = size * n) as Hp.
  { unfold global_positions, starts. rewrite !length_zip_with, length_map, length_seq.
    destruct (cummax_law (zip_with (fun (s : bool) i => if s then i else 0%Z)
      (zip_with andb mask (zip_with (fun a b => negb (a =? b)%Z) sequences ((-1)%Z :: removelast sequences)))
      (map Z.of_nat (seq 0 (length sequences))))) as [-> _].
    rewrite !length_zip_with, length_map, length_seq. cbn [length].
    destruct sequences as [|x l] eqn:E; [simpl in *; lia|]. rewrite <- E in *.
    pose proof (app_removelast_last 0%Z (l := sequences) ltac:(by rewrite E)) as Hl.
    apply (f_equal length) in Hl. rewrite length_app in Hl. simpl in Hl. lia. }
  unfold build. rewrite !(shard_part size n) by (done || lia || (rewrite length_map, length_seq; done)).
  rewrite (part_length n rank size ids) by done. reflexivity.
Qed.

(** Attention picks [select l ks]. *)
Definition select {A} (l : list A) (ks : list Z) : list A := index_select l (map Z.to_nat ks).

Lemma mask_of_part size n rank : length ids = size * n ->
  mask_of (part n rank indices_of) (part n rank mask) (part n rank sequences)
  = part n rank (mask_of indices_of mask sequences).
Proof.
  intros Hi. unfold mask_of, clamped_of. rewrite !part_zip_with, !part_map.
  done.
Qed.

(** ** The keys *)

Lemma index_select_slice {A} (l : list A) a k ks : a + k <= length l ->
  Forall (fun i => a <= i < a + k) ks ->
  index_select (take k (drop a l)) (map (fun i => i - a) ks) = index_select l ks.
Proof.
  intros Ha Hks. apply list_eq. intros j.
  assert (Forall (fun i => i < length (take k (drop a l))) (map (fun i => i - a) ks)) as Hr.
  { apply Forall_fmap. eapply Forall_impl; [exact Hks|]. intros i Hi. cbn in *. rewrite length_take, length_drop. lia. }
  assert (Forall (fun i => i < length l) ks) as Hr'.
  { eapply Forall_impl; [exact Hks|]. intros i Hi. cbn in *. lia. }
  rewrite !index_select_lookup by done. rewrite list_lookup_fmap.
  destruct (ks !! j) as [i|] eqn:Ej; [|done]. cbn.
  pose proof (Forall_lookup_1 _ _ _ _ Hks Ej) as Hi. cbn in Hi.
  rewrite lookup_take_lt, lookup_drop by lia. f_equal. lia.
Qed.

Lemma clamped_bounds g ks : ks = map (Z.max 0) (window_keys window (Z.of_nat g)) ->
  Forall (fun k => (0 <= k <= Z.of_nat g)%Z /\ (Z.of_nat g - (Z.of_nat window - 1) <= k)%Z) ks.
Proof.
  intros ->. unfold window_keys. rewrite map_map. apply Forall_fmap, Forall_forall. intros w Hw%elem_of_seq. cbn. lia.
Qed.

Lemma part_indices size n rank : length ids = size * n -> rank < size ->
  part n rank indices_of = map Z.of_nat (seq (rank * n) n).
Proof. intros Hi Hr. unfold indices_of. rewrite part_map, Hi, part_seq by done. done. Qed.

(** The rank's indices pick, from what [gather_attention] returns, the keys that
    the whole sequence's indices pick from the whole tensor. *)
Lemma keys_exact {A} size n rank (kv : list A) : 0 < n -> 0 < window -> rank < size ->
  length ids = size * n -> length kv = size * n ->
  let c := context_of size n rank in
  exists keys, gather_attention size rank c (fun i => part n i kv) = Ok keys
  /\ Forall (Forall (fun k => 0 <= k < Z.of_nat (length keys))%Z) (attention_indices c)
  /\ map (select keys) (attention_indices c) = part n rank (map (select kv) (clamped_of indices_of)).
Proof.
  intros Hn Hw Hr Hi Hkv c. unfold gather_attention, c, context_of. cbn [attention_halo_length attention_indices].
  assert (part n rank (map (select kv) (clamped_of indices_of)) = map (select kv) (clamped_of (part n rank indices_of))) as ->
    by (unfold clamped_of; by rewrite !part_map).
  rewrite (part_indices size n rank) by done. unfold clamped_of. rewrite !map_map.
  destruct (Z.eqb_spec (halo_length size window n) 0) as [Hh|Hh].
  - exists kv. rewrite (gather_parts size n) by (done || lia). split; [done|]. split; [|by rewrite ?map_map].
    apply Forall_fmap, Forall_forall. intros g [Hg1 Hg2]%elem_of_seq. cbn.
    eapply Forall_impl; [by apply clamped_bounds|]. intros k Hk. cbn in Hk. nia.
  - unfold halo_length in *. destruct (enabled size && _) eqn:E; [|done]. apply andb_prop in E as [Hen Hle%Z.leb_le].
    set (halo := window - 1). assert ((Z.of_nat window - 1)%Z = Z.of_nat halo) as Eh by (unfold halo; lia). rewrite Eh in *.
    unfold left_halo. rewrite Hen. cbn [negb orb]. destruct (Z.eqb_spec (Z.of_nat halo) 0); [lia|].
    replace (Z.of_nat halo <? 0)%Z with false by (symmetry; apply Z.ltb_ge; lia).
    rewrite (part_length n rank size kv) by done.
    replace (Z.of_nat n <? Z.of_nat halo)%Z with false by (symmetry; apply Z.ltb_ge; lia). cbn [orb].
    rewrite Nat2Z.id. destruct (Nat.eqb_spec rank 0) as [->|Hne].
    + exists (part n 0 kv). rewrite (halo_forward_eq size n) by (try lia; intros i Hi'; by apply (part_length n i size)).
      cbn [Nat.eqb]. split; [done|]. rewrite (part_length n 0 size) by done.
      assert (forall g, g ∈ seq (0 * n) n -> Forall (fun k => 0 <= k < Z.of_nat n)%Z
        (map (fun k => k - Z.of_nat 0 * Z.of_nat n + 0)%Z (map (Z.max 0) (window_keys window (Z.of_nat g))))) as Hin.
      { intros g Hg%elem_of_seq. apply Forall_fmap. eapply Forall_impl; [by apply clamped_bounds|]. intros k Hk. cbn in *. lia. }
      rewrite ?map_map. split; [apply Forall_fmap, Forall_forall; exact Hin|]. apply map_ext_in. intros g Hg%list_elem_of_In.
      unfold select. rewrite !map_map.
      pose proof (index_select_slice kv 0 n (map (fun k => Z.to_nat (Z.max 0 k)) (window_keys window (Z.of_nat g)))) as Hs.
      rewrite map_map in Hs. unfold part. rewrite Nat.mul_0_l. rewrite <- Hs.
      * f_equal. apply map_ext. intros k. lia.
      * nia.
      * specialize (Hin g Hg). rewrite !Forall_fmap in Hin. apply Forall_fmap.
        eapply Forall_impl; [exact Hin|]. intros k Hk. cbn in *. lia.
    + eexists. rewrite (halo_parts size n) by (done || lia). split; [done|].
      rewrite length_take, length_drop.
      assert (forall g, g ∈ seq (rank * n) n -> Forall (fun k => 0 <= k - Z.of_nat rank * Z.of_nat n + Z.of_nat halo < Z.of_nat (halo + n))%Z
        (map (Z.max 0) (window_keys window (Z.of_nat g)))) as Hin.
      { intros g Hg%elem_of_seq. eapply Forall_impl; [by apply clamped_bounds|]. intros k Hk. cbn in *. lia. }
      rewrite ?map_map. split.
      { apply Forall_fmap, Forall_forall. intros g Hg. cbn. apply Forall_fmap.
        eapply Forall_impl; [by apply Hin|]. intros k Hk. cbn in *. nia. }
      apply map_ext_in. intros g Hg%list_elem_of_In. unfold select. rewrite !map_map.
      pose proof (index_select_slice kv (rank * n - halo) (halo + n)
        (map (fun k => Z.to_nat (Z.max 0 k)) (window_keys window (Z.of_nat g)))) as Hs.
      rewrite map_map in Hs. specialize (Hin g Hg). rewrite Forall_fmap in Hin. rewrite <- Hs.
      * f_equal. apply map_ext_in. intros k Hk%list_elem_of_In. rewrite Forall_forall in Hin. specialize (Hin k Hk). cbn in Hin. nia.
      * nia.
      * apply Forall_fmap. eapply Forall_impl; [exact Hin|]. intros k Hk. cbn in *. nia.
Qed.
End Windows.

(** * Context parallelism: the hand-written backwards

    A backward is right when it is the adjoint of its forward: for all inputs
    [x] and output gradients [g], the inner product of the outputs with [g]
    equals that of [x] with the input gradients, summed over the ranks. *)

Definition dot (x y : list Z) : Z := list_sum_Z (zip_with Z.mul x y).

(** The sum over the ranks. *)
Definition over_ranks (size : nat) (f : nat -> Z) : Z := list_sum_Z (map f (seq 0 size)).

Section Sums.
Local Open Scope Z_scope.

Lemma dot_app x y x' y' : length x = length y -> dot (x ++ x') (y ++ y') = dot x y + dot x' y'.
Proof. intros Hl. unfold dot. by rewrite zip_with_app, list_sum_Z_app. Qed.

Lemma dot_add x y z : length y = length z -> dot x (zip_with Z.add y z) = dot x y + dot x z.
Proof.
  unfold dot. revert y z. induction x as [|a x IH]; intros [|b y] [|c z] Hl; try done. simpl in *.
  rewrite !list_sum_Z_cons, IH by lia. lia.
Qed.

Lemma list_sum_map_add {A} (f g : A -> Z) l :
  list_sum_Z (map (fun x => f x + g x) l) = list_sum_Z (map f l) + list_sum_Z (map g l).
Proof. induction l; simpl; [by rewrite !list_sum_Z_nil|]. rewrite !list_sum_Z_cons, IHl. lia. Qed.

Lemma over_ranks_ext size f g : (forall r, (r < size)%nat -> f r = g r) -> over_ranks size f = over_ranks size g.
Proof. intros H. unfold over_ranks. f_equal. by apply map_seq_ext. Qed.

Lemma over_ranks_add size f g : over_ranks size (fun r => f r + g r) = over_ranks size f + over_ranks size g.
Proof. apply list_sum_map_add. Qed.

Lemma over_ranks_S size f : over_ranks (S size) f = over_ranks size f + f size.
Proof. unfold over_ranks. rewrite seq_S, map_app, list_sum_Z_app. cbn. rewrite list_sum_Z_cons, list_sum_Z_nil. lia. Qed.

(** What every rank but the first takes from its predecessor is what every
    rank but the last gives to its successor. *)
Lemma over_ranks_shift size (a : nat -> Z) :
  over_ranks size (fun r => if (r =? 0)%nat then 0 else a (r - 1)%nat)
  = over_ranks size (fun r => if (r <? size - 1)%nat then a r else 0).
Proof.
  destruct size as [|size]; [done|]. rewrite (over_ranks_S size (fun r => if (r <? _)%nat then _ else _)).
  replace (size <? S size - 1)%nat with false by (symmetry; apply Nat.ltb_ge; lia).
  transitivity (over_ranks size a).
  - induction size as [|size IH]; [done|]. rewrite over_ranks_S, IH, (over_ranks_S size a).
    cbn [Nat.eqb]. by replace (S size - 1)%nat with size by lia.
  - rewrite Z.add_0_r. apply over_ranks_ext. intros r Hr.
    by replace (r <? S size - 1)%nat with true by (symmetry; apply Nat.ltb_lt; lia).
Qed.

Lemma over_ranks_swap n m (f : nat -> nat -> Z) :
  over_ranks n (fun i => over_ranks m (f i)) = over_ranks m (fun j => over_ranks n (fun i => f i j)).
Proof.
  induction n as [|n IH].
  - unfold over_ranks. cbn [seq map]. rewrite !list_sum_Z_nil. induction (seq 0 m) as [|k l IHl]; [done|].
    cbn [map]. rewrite list_sum_Z_cons. lia.
  - rewrite over_ranks_S, IH, <- over_ranks_add. apply over_ranks_ext. intros j _. by rewrite over_ranks_S.
Qed.
End Sums.

Section Adjoints.
Context `{TensorLaws} (size n : nat) (Hsize : 0 < size).

(** ** [_LeftHalo] *)

Section Halo.
Context (halo : nat) (Hhalo : halo <= n) (x g : nat -> list Z).
Context (Hx : forall r, r < size -> length (x r) = n).
Context (Hg : forall r, r < size -> length (g r) = if r =? 0 then n else halo + n).

Lemma prefix_grad_length r : r < size -> length (prefix_grad halo g r) = halo.
Proof.
  intros Hr. unfold prefix_grad. specialize (Hg r Hr). destruct (Nat.eqb_spec r 0); [apply length_replicate|].
  apply narrow_length; lia.
Qed.

Lemma local_grad_eq r : r < size -> local_grad halo g r = if r =? 0 then g 0 else drop halo (g r).
Proof.
  intros Hr. unfold local_grad. destruct (Nat.eqb_spec r 0) as [E|]; [by rewrite E|].
  unfold narrow. apply take_ge. rewrite length_drop. lia.
Qed.

Lemma local_grad_length r : r < size -> length (local_grad halo g r) = n.
Proof.
  intros Hr. rewrite local_grad_eq by done. specialize (Hg r Hr). destruct (Nat.eqb_spec r 0) as [E|]; [by rewrite E in Hg|].
  rewrite length_drop. lia.
Qed.

Lemma received_grad r : r < size -> ring_exchange size (prefix_grad halo g) (previous size) (next size) r
  = prefix_grad halo g (next size r).
Proof.
  intros Hr. apply (ring_exchange_eq size Hsize halo); [done| |].
  - intros i Hi. split; [by apply prefix_grad_length|]. split; [by apply previous_lt|by apply next_lt].
  - intros i j Hi Hj. pose proof (ring_neighbours size Hsize j i Hj Hi). intuition congruence.
Qed.

Lemma dot_add_tail y l received : length y = length l -> length received = halo -> halo <= length l ->
  dot y (add_tail halo l received) = (dot y l + dot (drop (length l - halo) y) received)%Z.
Proof.
  intros Hy Hr Hl. unfold add_tail. set (k := length l - halo).
  rewrite <- (take_drop k y) at 1. rewrite dot_app by (rewrite !length_take; lia).
  rewrite dot_add by (rewrite length_drop; lia).
  rewrite <- (take_drop k y) at 4. rewrite <- (take_drop k l) at 3. rewrite dot_app by (rewrite !length_take; lia). lia.
Qed.

Lemma halo_adjoint :
  over_ranks size (fun r => dot (halo_forward size halo x r) (g r))
  = over_ranks size (fun r => dot (x r) (halo_backward size halo g r)).
Proof.
  set (given := fun r => dot (drop (n - halo) (x r)) (take halo (g (r + 1)))).
  transitivity (over_ranks size (fun r => (dot (x r) (local_grad halo g r) + (if (r =? 0)%nat then 0 else given (r - 1)%nat))%Z)).
  - apply over_ranks_ext. intros r Hr. rewrite (halo_forward_eq size n), local_grad_eq by (done || lia).
    destruct (Nat.eqb_spec r 0) as [->|Hne]; [lia|]. specialize (Hg r Hr). destruct (Nat.eqb_spec r 0); [lia|].
    rewrite <- (take_drop halo (g r)) at 1. rewrite dot_app.
    + unfold given. replace (r - 1 + 1) with r by lia. lia.
    + rewrite length_drop, length_take, Hx by lia. lia.
  - rewrite over_ranks_add, over_ranks_shift, <- over_ranks_add. apply over_ranks_ext. intros r Hr.
    unfold halo_backward. rewrite received_grad by done. destruct (Nat.ltb_spec r (size - 1)) as [Hlast|Hlast]; [|lia].
    rewrite dot_add_tail; rewrite ?local_grad_length by done; try (by rewrite Hx); try lia.
    + f_equal. unfold given. f_equal. rewrite next_spec by done. destruct (Nat.eqb_spec r (size - 1)); [lia|].
      unfold prefix_grad. destruct (Nat.eqb_spec (r + 1) 0); [lia|]. unfold narrow. by rewrite drop_0.
    + apply prefix_grad_length. by apply next_lt.
Qed.
End Halo.

(** ** [_AllGather] *)

Section Gather.
Context (Hn : 0 < n) (x g : nat -> list Z).
Context (Hx : forall r, r < size -> length (x r) = n) (Hg : forall r, r < size -> length (g r) = size * n).

Lemma equal_parts_length k {A} (f : nat -> list A) : (forall r, r < k -> length (f r) = n) ->
  length (concat (map f (seq 0 k))) = k * n.
Proof.
  induction k as [|k IH]; intros Hf; [done|]. rewrite seq_S, map_app, concat_app, length_app, IH by (intros; apply Hf; lia). cbn.
  rewrite app_nil_r, Hf by lia. lia.
Qed.

Lemma parts_of_concat k {A} (f : nat -> list A) r : (forall r, r < k -> length (f r) = n) -> r < k ->
  part n r (concat (map f (seq 0 k))) = f r.
Proof.
  induction k as [|k IH]; intros Hf Hr; [lia|]. rewrite seq_S, map_app, concat_app. cbn [map concat].
  rewrite app_nil_r, Nat.add_0_l. assert (length (concat (map f (seq 0 k))) = k * n) as Hl by (apply equal_parts_length; intros; apply Hf; lia).
  unfold part. destruct (Nat.eq_dec r k) as [->|Hne].
  - rewrite drop_app_length' by done. apply take_ge. rewrite Hf by lia. done.
  - rewrite drop_app_le by nia. rewrite take_app_le by (rewrite length_drop; nia). apply IH; [intros; apply Hf; lia|lia].
Qed.

Lemma dot_concat k (f : nat -> list Z) y : (forall r, r < k -> length (f r) = n) -> length y = k * n ->
  dot (concat (map f (seq 0 k))) y = over_ranks k (fun r => dot (f r) (part n r y)).
Proof.
  intros Hf. revert y. induction k as [|k IH]; intros y Hy; [destruct y; done|].
  rewrite seq_S, map_app, concat_app, over_ranks_S. cbn [map concat]. rewrite app_nil_r, Nat.add_0_l.
  assert (length (concat (map f (seq 0 k))) = k * n) as Hlen by (apply equal_parts_length; intros; apply Hf; lia).
  rewrite <- (take_drop (k * n) y) at 1. rewrite dot_app by (rewrite length_take; lia).
  rewrite IH by ((intros; apply Hf; lia) || (rewrite length_take; lia)). f_equal.
  - apply over_ranks_ext. intros r Hr. f_equal. unfold part. rewrite skipn_firstn_comm.
    rewrite take_take. f_equal. f_equal. nia.
  - f_equal. unfold part. symmetry. apply take_ge. rewrite length_drop. lia.
Qed.

Lemma segment_replicate {A} j (l : list A) : j < size -> segment (replicate size n) j l = part n j l.
Proof.
  intros Hj. unfold segment, part. rewrite take_replicate, Nat.min_l by lia.
  rewrite (nth_lookup_Some _ _ _ n) by (by apply lookup_replicate_2). do 2 f_equal. rewrite sum_list_replicate. lia.
Qed.

Lemma dot_sum_chunks y cs : cs <> [] -> Forall (fun c => length c = n) cs ->
  dot y (sum_chunks cs) = list_sum_Z (map (dot y) cs).
Proof.
  intros Hne Hc. destruct cs as [|c cs]; [done|]. clear Hne. apply Forall_cons in Hc as [Hl Hc]. simpl.
  rewrite list_sum_Z_cons. revert c Hl. induction Hc as [|c' cs Hc' _ IH]; intros c Hl; simpl; [rewrite list_sum_Z_nil; lia|].
  rewrite IH by (rewrite length_zip_with; lia). rewrite dot_add, list_sum_Z_cons by congruence. lia.
Qed.

Lemma gather_adjoint : 1 < size ->
  over_ranks size (fun r => dot (gather size x r) (g r))
  = over_ranks size (fun r => dot (x r) (gather_backward size g r)).
Proof.
  intros Hs. transitivity (over_ranks size (fun r => over_ranks size (fun j => dot (x j) (part n j (g r))))).
  - apply over_ranks_ext. intros r Hr. unfold gather, enabled. replace (1 <? size) with true by (symmetry; apply Nat.ltb_lt; lia).
    cbn [negb]. rewrite all_gather_law by done. apply dot_concat; [done|by apply Hg].
  - rewrite over_ranks_swap. apply over_ranks_ext. intros j Hj. unfold gather_backward.
    assert (all_to_all size g (fun i => replicate size (length (g i) / size)) (fun i => replicate size (length (g i) / size)) j
            = concat (map (fun i => part n j (g i)) (seq 0 size))) as ->.
    { rewrite all_to_all_law; [| |done].
      - f_equal. apply map_seq_ext. intros i Hi. rewrite Hg, Nat.mul_comm, Nat.div_mul by lia. by apply segment_replicate.
      - intros i Hi. rewrite Hg by done. rewrite Nat.mul_comm, Nat.div_mul by lia. rewrite length_replicate.
        split; [done|]. split; [rewrite sum_list_replicate; lia|]. split; [done|]. intros k Hk.
        rewrite Hg by done. rewrite Nat.mul_comm, Nat.div_mul by lia.
        by rewrite !(nth_lookup_Some _ _ _ n) by (by apply lookup_replicate_2). }
    assert (forall i, i < size -> length (part n j (g i)) = n) as Hp by (intros i Hi; apply (part_length n j size); [by apply Hg|done]).
    rewrite (chunk_law size n) by (lia || (by apply equal_parts_length)).
    rewrite (map_seq_ext _ (fun i => part n j (g i))) by (intros i Hi; by apply parts_of_concat).
    rewrite dot_sum_chunks.
    + unfold over_ranks. by rewrite map_map.
    + destruct size; [lia|done].
    + apply Forall_fmap, Forall_forall. intros i Hi%elem_of_seq. apply Hp. lia.
Qed.
End Gather.
End Adjoints.
