(* ===== verification/ContextResults.v ===== *)
(** * Context parallelism: the properties *)

From Stdlib Require Import QArith.
From S2P Require Import Torch TorchFacts ContextParallel ContextProofs.
Local Open Scope nat_scope.

Lemma part_whole {A} n (l : list A) : length l = n -> part n 0 l = l.
Proof. intros Hl. unfold part. rewrite Nat.mul_0_l, drop_0. apply take_ge. lia. Qed.

Section Whole.
Context `{TensorLaws}.
Context (ids : list Z) (mask : list bool) (sequences : list Z) (window n : nat).
Context (Hi : length ids = n) (Hm : length mask = n) (Hs : length sequences = n).

Lemma whole_lookup i : i < n -> exists live s, mask !! i = Some live /\ sequences !! i = Some s.
Proof.
  intros Hlt. destruct (lookup_lt_is_Some_2 mask i ltac:(lia)) as [live ->].
  destruct (lookup_lt_is_Some_2 sequences i ltac:(lia)) as [s ->]. eauto.
Qed.

Lemma key_lookup (i w : nat) : w < window ->
  window_keys window (Z.of_nat i) !! w = Some (Z.of_nat (i + w) - Z.of_nat (window - 1))%Z.
Proof. intros Hw. unfold window_keys. rewrite list_lookup_fmap, lookup_seq_lt by done. cbn. f_equal. lia. Qed.

(** A token attends to the live tokens of its own sequence among the last
    [window], itself included. *)
Lemma mask_of_lookup i w : i < n -> w < window ->
  exists row, mask_of mask sequences window (indices_of ids) mask sequences !! i = Some row
  /\ (row !! w = Some true <-> exists k, k + (window - 1) = i + w /\ mask !! i = Some true /\ mask !! k = Some true
        /\ sequences !! k = sequences !! i).
Proof.
  intros Hlt Hw. destruct (whole_lookup i Hlt) as (live & s & Hlive & Hseq).
  unfold mask_of, clamped_of. rewrite !lookup_zip_with, !list_lookup_fmap. unfold indices_of. rewrite list_lookup_fmap, lookup_seq_lt by lia.
  rewrite Hlive, Hseq. cbn [fmap option_fmap option_map mbind option_bind fst snd]. rewrite Nat.add_0_l.
  eexists. split; [reflexivity|]. rewrite list_lookup_fmap, !lookup_zip_with, key_lookup by done.
  set (ks := map Z.to_nat (map (Z.max 0) (window_keys window (Z.of_nat i)))).
  assert (Forall (fun k => k < n) ks) as Hks.
  { unfold ks. apply Forall_fmap. eapply Forall_impl; [by apply clamped_bounds|]. intros k Hk. cbn in *. lia. }
  set (k := Z.to_nat (Z.max 0 (Z.of_nat (i + w) - Z.of_nat (window - 1)))).
  assert (ks !! w = Some k) as Hk by (unfold ks; by rewrite !list_lookup_fmap, key_lookup by done).
  rewrite !index_select_lookup by (rewrite ?Hm, ?Hs; done). rewrite Hk. cbn [mbind option_bind].
  pose proof (Forall_lookup_1 _ _ _ _ Hks Hk) as Hkn. cbn in Hkn. destruct (whole_lookup k Hkn) as (klive & ks' & Hkl & Hksq).
  rewrite Hkl, Hksq. cbn [mbind option_bind fmap option_fmap option_map fst snd]. split.
  - intros [= Ha]. rewrite !andb_true_iff, Z.leb_le, Z.eqb_eq in Ha. destruct Ha as [[[Hpos ->] ->] ->].
    exists k. split; [lia|]. by rewrite Hkl, Hksq.
  - intros (k' & Hk' & [= ->] & Hml & Hsq). assert (k' = k) as -> by lia. rewrite Hkl in Hml. rewrite Hksq in Hsq.
    injection Hml as ->. injection Hsq as ->. rewrite Z.eqb_refl.
    replace (0 <=? _)%Z with true by (symmetry; apply Z.leb_le; lia). done.
Qed.
End Whole.

(** ** Splitting a sequence over ranks changes nothing *)

Section Exact.
Context `{TensorLaws}.

(** C17. For every rank of a context-parallel group, [build] succeeds and gives
    the rank's part of what a single process builds from the whole sequence:
    tokens, positions, sequence ids, masks; the keys its indices pick from what
    [gather_attention] collects (a left halo when the window fits the shard, all
    shards otherwise) are in range and are the keys the whole sequence's indices
    pick; and a token sees exactly the live tokens of its own sequence among the
    last [window]. *)
Theorem context_parallel_exact {A} size n rank window ids mask sequences (kv : list A) :
  0 < n -> 0 < window -> rank < size ->
  length ids = size * n -> length mask = size * n -> length sequences = size * n -> length kv = size * n ->
  exists whole c keys,
    build 1 0 ids mask sequences window = Ok whole /\ build size rank ids mask sequences window = Ok c
    /\ input_ids c = part n rank (input_ids whole) /\ positions c = part n rank (positions whole)
    /\ token_mask c = part n rank (token_mask whole) /\ sequence_ids c = part n rank (sequence_ids whole)
    /\ attention_mask c = part n rank (attention_mask whole)
    /\ gather_attention size rank c (fun r => part n r kv) = Ok keys
    /\ Forall (Forall (fun k => 0 <= k < Z.of_nat (length keys))%Z) (attention_indices c)
    /\ map (select keys) (attention_indices c) = part n rank (map (select kv) (attention_indices whole))
    /\ forall i w, i < size * n -> w < window -> exists row, attention_mask whole !! i = Some row
         /\ (row !! w = Some true <-> exists k, k + (window - 1) = i + w /\ mask !! i = Some true
               /\ mask !! k = Some true /\ sequences !! k = sequences !! i).
Proof.
  intros Hn Hw Hr Hi Hm Hs Hkv. assert (0 < size * n) by nia.
  exists (context_of ids mask sequences window 1 (size * n) 0), (context_of ids mask sequences window size n rank).
  destruct (keys_exact ids mask sequences window size n rank kv) as (keys & Hg & Hin & Hsel); try done.
  exists keys. rewrite (build_parts ids mask sequences window 1 (size * n) 0), (build_parts ids mask sequences window size n rank) by (done || lia). split; [done|]. split; [done|]. unfold context_of in *. cbn in *.
  assert (length (indices_of ids) = size * n) as Hix by (unfold indices_of; by rewrite length_map, length_seq).
  assert (forall B (l : list B), part n rank (part (size * n) 0 l) = part n rank l) as Hpp.
  { intros B l. unfold part. rewrite Nat.mul_0_l, drop_0, skipn_firstn_comm, take_take. f_equal. nia. }
  rewrite !Hpp. do 4 (split; [done|]). rewrite (mask_of_part ids mask sequences window size n rank) by done.
  rewrite !(part_whole (size * n)) by done. do 2 (split; [done|]). split; [done|]. split.
  - exact Hsel.
  - intros i w Hlt Hww. by apply (mask_of_lookup ids mask sequences window (size * n)).
Qed.
End Exact.

(** ** Losses *)

Section Loss.
Local Open Scope Q_scope.

#[export] Instance clamp_proper : Proper (Qeq ==> Qeq) clamp_min_one.
Proof.
  intros x y Hxy. unfold clamp_min_one. rewrite (Qleb_comp _ _ Hxy 1 1 (Qeq_refl 1)). by destruct (Qle_bool y 1).
Qed.

Lemma clamp_positive x : ~ clamp_min_one x == 0.
Proof.
  unfold clamp_min_one. destruct (Qle_bool x 1) eqn:E; [done|]. intros Hx.
  by rewrite (Qleb_comp _ _ Hx 1 1 (Qeq_refl 1)) in E.
Qed.

Lemma sum_scaled size f c : sum_ranks size (fun r => f r * c) == sum_ranks size f * c.
Proof.
  unfold sum_ranks. induction (seq 0 size) as [|r l IH]; simpl; [ring|]. rewrite IH. ring.
Qed.

Lemma size_nonzero size : (0 < size)%nat -> ~ inject_Z (Z.of_nat size) == 0.
Proof. intros Hs He. unfold Qeq in He. simpl in He. lia. Qed.

Lemma backward_losses_total size sums counts : (0 < size)%nat ->
  sum_ranks size (backward_loss size sums counts) / inject_Z (Z.of_nat size)
  == sum_ranks size sums / clamp_min_one (sum_ranks size counts).
Proof.
  intros Hs. unfold backward_loss. rewrite sum_scaled. field. split; [apply clamp_positive|by apply size_nonzero].
Qed.

Lemma mean_loss_value size sums counts rank : (rank < size)%nat ->
  mean_loss size sums counts rank == sum_ranks size sums / clamp_min_one (sum_ranks size counts).
Proof.
  intros Hr. unfold mean_loss, enabled. destruct (Nat.ltb_spec 1 size); cbn [negb].
  - ring.
  - assert (size = 1%nat) as -> by lia. assert (rank = 0%nat) as -> by lia. unfold sum_ranks. cbn [seq map fold_right].
    by rewrite !Qplus_0_r.
Qed.
End Loss.

Section Backward.
Context `{TensorLaws}.

(** The hand-written backwards of the collectives are the adjoints of
    their forwards over the whole group, for the left halo and for the gather;
    and every rank reports the same mean loss, the total over the total count,
    which is also the average of the losses the ranks differentiate. *)
Theorem context_backward_exact size n halo x halo_grad gather_grad (sums counts : nat -> Q) :
  1 < size -> 0 < n -> halo <= n -> (forall r, r < size -> length (x r) = n) ->
  (forall r, r < size -> length (halo_grad r) = if r =? 0 then n else halo + n) ->
  (forall r, r < size -> length (gather_grad r) = size * n) ->
  over_ranks size (fun r => dot (halo_forward size halo x r) (halo_grad r))
    = over_ranks size (fun r => dot (x r) (halo_backward size halo halo_grad r))
  /\ over_ranks size (fun r => dot (gather size x r) (gather_grad r))
    = over_ranks size (fun r => dot (x r) (gather_backward size gather_grad r))
  /\ (forall r, (r < size)%nat -> mean_loss size sums counts r == sum_ranks size sums / clamp_min_one (sum_ranks size counts))%Q
  /\ (sum_ranks size (backward_loss size sums counts) / inject_Z (Z.of_nat size)
      == sum_ranks size sums / clamp_min_one (sum_ranks size counts))%Q.
Proof.
  intros Hs Hn Hh Hx Hg Hgg. split; [|split; [|split]].
  - apply (halo_adjoint size n); done || lia.
  - apply (gather_adjoint size n); done || lia.
  - intros r Hr. by apply mean_loss_value.
  - apply backward_losses_total. lia.
Qed.
End Backward.

(** ** Witnesses *)

Section Witness.

Lemma context_parallel_exact_witness : exists whole c keys,
  build (H := list_ops) 2 1 [5; 6; 7; 8]%Z [true; true; true; false] [0; 0; 1; 1]%Z 2 = Ok c
  /\ build (H := list_ops) 1 0 [5; 6; 7; 8]%Z [true; true; true; false] [0; 0; 1; 1]%Z 2 = Ok whole
  /\ gather_attention (H := list_ops) 2 1 c (fun r => part 2 r [10; 11; 12; 13]%Z) = Ok keys
  /\ attention_indices c = [[0; 1]; [1; 2]]%Z /\ keys = [11; 12; 13]%Z
  /\ map (select (H := list_ops) keys) (attention_indices c) = [[11; 12]; [12; 13]]%Z
  /\ attention_mask whole !! 2 = Some [false; true].
Proof.
  assert (0 < 2) as H2 by lia. assert (1 < 2) as H1 by lia.
  destruct (context_parallel_exact (H := list_ops) (H0 := list_laws) 2 2 1 2
    [5; 6; 7; 8]%Z [true; true; true; false] [0; 0; 1; 1]%Z [10; 11; 12; 13]%Z H2 H2 H1
    eq_refl eq_refl eq_refl eq_refl)
    as (whole & c & keys & Hw & Hc & _ & _ & _ & _ & _ & Hk & _ & _ & _).
  exists whole, c, keys. split; [exact Hc|]. split; [exact Hw|]. split; [exact Hk|].
  vm_compute in Hc. injection Hc as <-. vm_compute in Hw. injection Hw as <-. vm_compute in Hk. injection Hk as <-.
  vm_compute. repeat split; reflexivity.
Defined.

Lemma context_backward_exact_witness :
  over_ranks 2 (fun r => dot (halo_forward (H := list_ops) 2 1 (fun r => nth r [[1; 2]; [3; 4]] [])%Z r)
    (nth r [[5; 6]; [7; 8; 9]] [])%Z) = 91%Z
  /\ map (halo_backward (H := list_ops) 2 1 (fun r => nth r [[5; 6]; [7; 8; 9]] [])%Z) [0; 1] = ([[5; 13]; [8; 9]])%Z.
Proof.
  destruct (context_backward_exact (H := list_ops) (H0 := list_laws) 2 2 1
    (fun r => nth r [[1; 2]; [3; 4]] [])%Z (fun r => nth r [[5; 6]; [7; 8; 9]] [])%Z
    (fun _ => [1; 2; 3; 4])%Z (fun _ => 1%Q) (fun _ => 2%Q)) as (Hh & _).
  - lia.
  - lia.
  - lia.
  - intros [|[|r]] Hr; [done..|lia].
  - intros [|[|r]] Hr; [done..|lia].
  - intros [|[|r]] Hr; [done..|lia].
  - split; [etransitivity; [exact Hh|]|]; vm_compute; reflexivity.
Defined.
End Witness.
