(* ===== verification/RLConfig.v ===== *)
(** * The RL run configuration ([dsv41_train/rl/config.py])

    A configuration is a dictionary that holds every field of the dataclass, in
    order; [from_dict] fills the defaults and [validate] checks every field.  A
    tuple is a [PList]: [from_dict] makes the fields that [validate] compares
    with tuples tuples.  The checks of [LoRAConfig] ([dsv41_train/lora.py]) are
    part of it. *)

From stdpp Require Import pretty.
From S2P Require Import Prelude PyValue Training.
Local Open Scope Z_scope.
Local Open Scope py_scope.

(** ** Checks on dynamic values *)

(** [math.isfinite] *)
Definition math_isfinite (v : pyval) : res bool :=
  match v with
  | PBool _ => Ok true
  | PInt z => if 2 ^ 1024 <=? Z.abs (round_float z) then Err (OverflowError "int too large to convert to float") else Ok true
  | PFloat f => Ok (match float_value f with FFin _ => true | _ => false end)
  | _ => Err (TypeError "must be real number")
  end.

(** The value of a finite number, in units of 2^-1074. *)
Definition number_units (v : pyval) : Z := match number v with Some (FFin n) => n | _ => 0 end.

Definition int_below (v : pyval) (minimum : Z) : bool := match v with PInt z => z <? minimum | _ => true end.

(** [v in {...}] for a set of strings. *)
Definition in_set (v : pyval) (names : list string) : res bool :=
  match v with
  | PStr s => Ok (bool_decide (s ∈ names))
  | PList _ | PDict _ => Err (TypeError "unhashable type")
  | _ => Ok false
  end.

(** [v in (...)] for a tuple of strings. *)
Definition in_tuple (v : pyval) (names : list string) : bool :=
  match v with PStr s => bool_decide (s ∈ names) | _ => false end.

Definition is_bool (v : pyval) : bool := match v with PBool _ => true | _ => false end.

(** [not isinstance(v, str) or not v] *)
Definition bad_path (v : pyval) : bool := match v with PStr s => bool_decide (s = "") | _ => true end.

Definition list_of (v : pyval) : list pyval := match v with PList l => l | _ => [] end.

(** Checks in a row: the first that raises decides. *)
Fixpoint checks (l : list (res unit)) : res unit :=
  match l with [] => Ok tt | Ok _ :: l => checks l | Err e :: _ => Err e end.

(** [for name in names: if bad: raise ValueError] *)
Definition each (names : list string) (bad : string -> res bool) (message : string) : res unit :=
  checks (map (fun name => b <-? bad name; raise_if b (ValueError (name +:+ message))) names).

(** ** [LoRAConfig] *)

Definition check_lora (rank alpha dropout targets : pyval) : res unit :=
  raise_when int_below rank 1 with_exn ValueError "LoRA rank must be a positive integer";
  finite_alpha <-? math_isfinite alpha;
  raise_when negb finite_alpha || (number_units alpha <=? 0) with_exn ValueError "LoRA alpha must be positive and finite";
  in_range <-? match number dropout with
               | Some (FFin n) => Ok ((0 <=? n) && (n <? float_unit))
               | Some _ => Ok false
               | None => Err (TypeError "'<=' not supported")
               end;
  raise_when negb in_range with_exn ValueError "LoRA dropout must be in [0, 1)";
  raise_when match targets with PList [] => true | PList l => existsb bad_path l | _ => true end
    with_exn ValueError "LoRA targets must contain module names";
  Ok tt.

Definition LORA_TARGETS : pyval :=
  PList [PStr "attention.q_a"; PStr "attention.q_b"; PStr "attention.kv_proj"; PStr "attention.o_b"].

(** ** [RLConfig] *)

Definition float_const (text : string) (mantissa exponent : Z) : pyval :=
  PFloat (PyFloat text (FFin (mantissa * 2 ^ exponent))).

Definition DEFAULTS : pydict := [
  ("max_steps", PInt 3); ("group_size", PInt 4); ("groups_per_step", PInt 1); ("max_new_tokens", PInt 4);
  ("temperature", float_const "1.0" 1 1074); ("clip_eps", float_const "0.2" 3602879701896397 1020);
  ("kl_beta", float_const "0.0" 0 0); ("learning_rate", float_const "0.0001" 7378697629483821 1008);
  ("weight_decay", float_const "0.0" 0 0); ("max_grad_norm", float_const "1.0" 1 1074);
  ("max_policy_lag", PInt 2); ("queue_capacity", PInt 2); ("reward", PStr "token_accuracy");
  ("learner_devices", PList [PStr "cpu"]); ("rollout_devices", PList [PStr "cpu"]);
  ("rollout_engine", PStr "vllm"); ("engram_offload", PBool true); ("train_engram", PBool false);
  ("engram_cache_mib", PInt 0); ("optimizer", PStr "adamw"); ("initial_engram_delta", PNone);
  ("initial_sft_checkpoint", PNone); ("trainable_scope", PStr "all"); ("lora_rank", PInt 8);
  ("lora_alpha", float_const "16.0" 1 1078); ("lora_dropout", float_const "0.0" 0 0); ("lora_targets", PNone);
  ("initial_adapter", PNone); ("qwen_last_position_only", PBool false); ("qwen_kv_cache", PBool false);
  ("backprop_chunk_tokens", PInt 0); ("gradient_checkpointing", PBool false); ("dtype", PStr "float32");
  ("seed", PInt 42); ("num_threads", PInt 1); ("checkpoint_interval", PInt 1); ("output_dir", PStr "runs/default");
  ("worker_timeout_seconds", float_const "600.0" 75 1077); ("max_prompt_tokens", PNone); ("length_policy", PStr "error");
  ("eos_token_ids", PNone); ("stop_token_sequences", PList []); ("truncated_reward", PNone); ("eval_interval", PInt 0);
  ("eval_samples_per_prompt", PInt 1); ("eval_seed", PInt 1234); ("log_samples_per_step", PInt 1)].

(** Two values of a set of hashable values are the same by [==]. *)
Definition hashable (v : pyval) : bool := match v with PList _ | PDict _ => false | _ => true end.

Fixpoint distinct_values (l : list pyval) : bool :=
  match l with [] => true | v :: l => negb (existsb (py_eqb v) l) && distinct_values l end.

(** [str.isdigit] in Latin-1: the digits and the superscripts. *)
Definition isdigit_char (a : ascii) : bool :=
  is_digit a || let n := nat_of_ascii a in (n =? 178)%nat || (n =? 179)%nat || (n =? 185)%nat.

Definition cuda_device (v : pyval) : bool :=
  match v with
  | PStr s => String.prefix "cuda:" s
      && negb (bool_decide (String.substring 5 (String.length s - 5) s = ""))
      && string_forall isdigit_char (String.substring 5 (String.length s - 5) s)
  | _ => false
  end.

Definition check_devices (devices : list pyval) : res unit :=
  raise_when bool_decide (devices = []) with_exn ValueError "device lists must be nonempty with no duplicates";
  raise_when existsb (fun d => negb (hashable d)) devices with_exn TypeError "unhashable type";
  raise_when negb (distinct_values devices) with_exn ValueError "device lists must be nonempty with no duplicates";
  if py_eqb (PList devices) (PList [PStr "cpu"]) then Ok tt
  else raise_if (existsb (fun d => negb (cuda_device d)) devices)
         (ValueError "use ['cpu'] or explicit CUDA devices such as ['cuda:0', 'cuda:1']").

Section Validate.
Context (c : pydict).

Definition field (name : string) : pyval := get_none name c.
#[local] Notation "'self' name" := (field name) (at level 1, name at level 0).

Definition truthy (name : string) : bool := py_truthy (self name).
Definition is_not (name value : string) : bool := negb (py_eqb (self name) (PStr value)).
Definition nonzero (name : string) : bool := negb (py_eqb (self name) (PInt 0)).

(** [if self.name not in {...}: raise] *)
Definition check_set (name : string) (values : list string) (message : string) : res unit :=
  b <-? in_set (self name) values; raise_if (negb b) (ValueError message).

Definition check_engram : res unit :=
  checks [
    raise_if (negb (is_bool (self "train_engram"))) (ValueError "train_engram must be a boolean");
    (if truthy "train_engram" then
       bad <-? (if negb (truthy "engram_offload") || is_not "rollout_engine" "native-pytorch" || is_not "optimizer" "sgd"
                   || nonzero "weight_decay" then Ok true
                else b <-? in_set (self "trainable_scope") ["all"; "lora"]; Ok (negb b));
       raise_if bad (ValueError "train_engram requires Engram offload, native-pytorch, SGD with zero weight decay and trainable_scope=all or lora")
     else Ok tt);
    raise_if (int_below (self "engram_cache_mib") 0) (ValueError "engram_cache_mib must be a nonnegative integer");
    raise_if (truthy "engram_cache_mib" && negb (truthy "engram_offload")) (ValueError "engram_cache_mib requires Engram offload");
    (if is_none (self "initial_engram_delta") then Ok tt
     else checks [
       raise_if (bad_path (self "initial_engram_delta")) (ValueError "initial_engram_delta must be a nonempty path or null");
       raise_if (negb (truthy "engram_offload") || is_not "rollout_engine" "native-pytorch")
         (ValueError "initial_engram_delta requires Engram offload and native-pytorch")])].

Definition check_initial : res unit :=
  checks [
    (if is_none (self "initial_sft_checkpoint") then Ok tt
     else checks [
       raise_if (bad_path (self "initial_sft_checkpoint")) (ValueError "initial_sft_checkpoint must be a nonempty path or null");
       raise_if (is_not "rollout_engine" "native-pytorch" || is_not "trainable_scope" "all" || negb (truthy "engram_offload")
                 || negb (is_none (self "initial_adapter")) || negb (is_none (self "initial_engram_delta")))
         (ValueError "initial_sft_checkpoint requires native-pytorch, trainable_scope=all, CPU Engram offload and no initial adapter or Engram delta")]);
    (if py_eqb (self "trainable_scope") (PStr "lora") then checks [
       check_lora (self "lora_rank") (self "lora_alpha") (self "lora_dropout")
         (if is_none (self "lora_targets") then LORA_TARGETS else self "lora_targets");
       raise_if (is_not "rollout_engine" "native-pytorch" || nonzero "lora_dropout")
         (ValueError "Local-manager LoRA RL requires native-pytorch and lora_dropout=0")]
     else raise_if (negb (is_none (self "initial_adapter"))) (ValueError "initial_adapter requires trainable_scope=lora"));
    raise_if (negb (is_none (self "initial_adapter")) && bad_path (self "initial_adapter"))
      (ValueError "initial_adapter must be a nonempty path or null")].

Definition check_qwen : res unit :=
  checks [
    raise_if (negb (is_bool (self "qwen_last_position_only"))) (ValueError "qwen_last_position_only must be a boolean");
    raise_if (negb (is_bool (self "qwen_kv_cache"))) (ValueError "qwen_kv_cache must be a boolean");
    raise_if (int_below (self "backprop_chunk_tokens") 0) (ValueError "backprop_chunk_tokens must be a nonnegative integer");
    raise_if (truthy "qwen_kv_cache" && (is_not "trainable_scope" "lm_head" || negb (truthy "qwen_last_position_only")
                || truthy "backprop_chunk_tokens"))
      (ValueError "qwen_kv_cache requires lm_head, last-position logits and unchunked turn replay")].

(** [not math.isfinite(value) or value <= 0] *)
Definition not_positive (name : string) : res bool :=
  b <-? math_isfinite (self name); Ok (negb b || (number_units (self name) <=? 0)).
Definition negative (name : string) : res bool :=
  b <-? math_isfinite (self name); Ok (negb b || (number_units (self name) <? 0)).

Definition check_numbers : res unit :=
  checks [
    each ["max_steps"; "groups_per_step"; "max_new_tokens"; "queue_capacity"; "num_threads"; "checkpoint_interval";
          "eval_samples_per_prompt"] (fun name => Ok (int_below (self name) 1)) " must be a positive integer";
    raise_if (int_below (self "group_size") 2) (ValueError "group_size must be at least two");
    raise_if (int_below (self "max_policy_lag") 0) (ValueError "max_policy_lag must be a nonnegative integer");
    each ["eval_interval"; "log_samples_per_step"; "eval_seed"]
      (fun name => Ok (int_below (self name) 0 || negb (int_below (self name) (2 ^ 63 - 1))))
      " must be a nonnegative integer below 2**63 - 1";
    raise_if (negb (is_none (self "max_prompt_tokens")) && int_below (self "max_prompt_tokens") 1)
      (ValueError "max_prompt_tokens must be a positive integer or null");
    check_set "length_policy" ["error"; "skip"] "length_policy must be error or skip";
    raise_if (negb (is_none (self "eos_token_ids")) && existsb (fun t => int_below t 0) (list_of (self "eos_token_ids")))
      (ValueError "eos_token_ids must contain nonnegative integer IDs or be null");
    raise_if (existsb (fun ids => match list_of ids with [] => true | l => existsb (fun t => int_below t 0) l end)
                (list_of (self "stop_token_sequences")))
      (ValueError "stop_token_sequences must contain nonempty lists of nonnegative integer IDs");
    (if is_none (self "truncated_reward") then Ok tt
     else b <-? math_isfinite (self "truncated_reward"); raise_if (negb b) (ValueError "truncated_reward must be finite or null"));
    raise_if (int_below (self "seed") 0 || negb (int_below (self "seed") (2 ^ 63 - 1)))
      (ValueError "seed must be an integer in [0, 2**63 - 1)");
    each ["temperature"; "learning_rate"; "max_grad_norm"; "worker_timeout_seconds"] not_positive " must be finite and positive";
    each ["kl_beta"; "weight_decay"] negative " must be finite and nonnegative";
    (b <-? math_isfinite (self "clip_eps");
     raise_if (negb b || negb ((0 <? number_units (self "clip_eps")) && (number_units (self "clip_eps") <? float_unit)))
       (ValueError "clip_eps must be in (0, 1)"))].

Definition validate : res unit :=
  checks [
    check_set "rollout_engine" ["vllm"; "native-pytorch"] "rollout_engine must be vllm or native-pytorch";
    check_numbers;
    raise_if (negb (in_tuple (self "dtype") ["float32"; "bfloat16"])) (ValueError "dtype must be float32 or bfloat16");
    check_set "trainable_scope" ["all"; "lm_head"; "lora"] "trainable_scope must be all, lm_head or lora";
    check_set "optimizer" ["adamw"; "sgd"] "optimizer must be adamw or sgd";
    check_engram; check_initial; check_qwen;
    raise_if (negb (truthy "reward") || negb (truthy "output_dir")) (ValueError "reward and output_dir must not be empty");
    each ["engram_offload"; "gradient_checkpointing"] (fun name => Ok (negb (is_bool (self name)))) " must be a boolean";
    check_devices (list_of (self "learner_devices"));
    check_devices (list_of (self "rollout_devices"))].
End Validate.

(** ** [from_dict] *)

Definition COUNTS : list string := ["trainer_num_gpus"; "rollout_num_gpus"].

Definition has (name : string) (values : pydict) : bool := bool_decide (is_Some (dict_get name values)).
Definition without (names : list string) (values : pydict) : pydict := filter (fun kv => kv.1 ∉ names) values.

(** [tuple(f"cuda:{i}" for i in range(first, last)) or ("cpu",)] *)
Definition cuda_name (i : Z) : string := "cuda:" +:+ pretty i.
Definition cuda_devices (first last : Z) : pyval :=
  if last <=? first then PList [PStr "cpu"]
  else PList (map (fun i => PStr (cuda_name (first + Z.of_nat i))) (seq 0 (Z.to_nat (last - first)))).

Definition expand_counts (values : pydict) : res pydict :=
  if negb (existsb (fun name => has name values) COUNTS) then Ok values
  else
    raise_when negb (forallb (fun name => has name values) COUNTS)
      with_exn ValueError "specify both trainer_num_gpus and rollout_num_gpus";
    raise_when existsb (fun name => has name values) ["learner_devices"; "rollout_devices"]
      with_exn ValueError "specify GPU counts or explicit device lists, not both";
    match get_none "trainer_num_gpus" values, get_none "rollout_num_gpus" values with
    | PInt trainer, PInt rollout =>
        raise_when (trainer <? 0) || (rollout <? 0) with_exn ValueError "GPU counts must be nonnegative integers; zero selects CPU";
        Ok (dict_set "rollout_devices" (cuda_devices trainer (trainer + rollout))
              (dict_set "learner_devices" (cuda_devices 0 trainer) (without COUNTS values)))
    | _, _ => Err (ValueError "GPU counts must be nonnegative integers; zero selects CPU")
    end.

(** [values[name] = f(values[name])] where it applies *)
Definition convert (name : string) (skip_none : bool) (f : pyval -> res pyval) (values : pydict) : res pydict :=
  match dict_get name values with
  | None => Ok values
  | Some v => if skip_none && is_none v then Ok values else w <-? f v; Ok (dict_set name w values)
  end.

Definition to_tuple (v : pyval) : res pyval := l <-? iterate v; Ok (PList l).
Definition to_tuples (v : pyval) : res pyval :=
  l <-? iterate v; ls <-? traverse to_tuple l; Ok (PList ls).

(** The constructor call with the values as keyword arguments. *)
Definition construct (values : pydict) : res pydict :=
  raise_when existsb (fun k => negb (bool_decide (k ∈ dict_keys DEFAULTS))) (dict_keys values)
    with_exn TypeError "unexpected keyword argument";
  Ok (map (fun kd => (kd.1, default kd.2 (dict_get kd.1 values))) DEFAULTS).

Definition from_dict (values : pydict) : res pydict :=
  values <-? expand_counts values;
  values <-? convert "learner_devices" false to_tuple values;
  values <-? convert "rollout_devices" false to_tuple values;
  values <-? convert "lora_targets" true to_tuple values;
  values <-? convert "stop_token_sequences" false to_tuples values;
  values <-? convert "eos_token_ids" true to_tuple values;
  result <-? construct values;
  _ <-? validate result;
  Ok result.
