(* ===== verification/RLConfigResults.v ===== *)
(** * The RL run configuration: the property *)

From stdpp Require Import pretty.
From S2P Require Import Prelude PyValue Training TrainingProofs RLConfig.
Local Open Scope Z_scope.

(** * The RL run configuration: what a valid one holds *)

(** ** Dictionaries *)

Lemma dict_set_same k v d : dict_get k d = Some v -> dict_set k v d = d.
Proof.
  induction d as [|[k0 w] d IH]; simpl; [done|]. case_bool_decide; [by intros [= ->]; subst|]. intros Hd. by rewrite IH.
Qed.

Lemma dict_of_keys d : NoDup (dict_keys d) -> map (fun k => (k, get_none k d)) (dict_keys d) = d.
Proof.
  intros Hnd. transitivity (map id d); [|apply map_id]. unfold dict_keys. rewrite map_map. apply map_ext_in.
  intros [k v] Hin%list_elem_of_In. cbn. unfold get_none. by rewrite (dict_get_in k v).
Qed.

Lemma has_key k d : k ∈ dict_keys d -> dict_get k d = Some (get_none k d).
Proof.
  intros Hk. unfold get_none. destruct (dict_get k d) eqn:E; [done|]. by apply dict_get_None_keys in E.
Qed.

(** ** Checks *)

Lemma checks_ok l : checks l = Ok tt <-> Forall (fun r => r = Ok tt) l.
Proof.
  induction l as [|[[]|e] l IH]; simpl.
  - by split.
  - rewrite Forall_cons, IH. by split; [|intros [_ ?]].
  - rewrite Forall_cons. split; [done|by intros [? _]].
Qed.

Lemma raise_if_ok b e : raise_if b e = Ok tt <-> b = false.
Proof. unfold raise_if. by destruct b. Qed.

Lemma each_ok names bad message : each names bad message = Ok tt <-> Forall (fun n => bad n = Ok false) names.
Proof.
  unfold each. rewrite checks_ok, Forall_fmap. apply Forall_proper; [|done]. intros n. cbn. destruct (bad n) as [[]|]; by split.
Qed.

(** The forms a field takes. *)
Definition int_in (low high : Z) (v : pyval) : Prop := exists z, v = PInt z /\ low <= z < high.
Definition int_from (low : Z) (v : pyval) : Prop := exists z, v = PInt z /\ low <= z.
Definition one_of (names : list string) (v : pyval) : Prop := exists s, v = PStr s /\ s ∈ names.
Definition a_bool (v : pyval) : Prop := exists b, v = PBool b.
(** [float(v)] of an integer does not overflow. *)
Definition floatable (v : pyval) : Prop := match v with PInt z => Z.abs (round_float z) < 2 ^ 1024 | _ => True end.
Definition finite_where (P : Z -> Prop) (v : pyval) : Prop := exists n, number v = Some (FFin n) /\ P n /\ floatable v.
Definition or_none (P : pyval -> Prop) (v : pyval) : Prop := v = PNone \/ P v.
Definition a_path (v : pyval) : Prop := exists s, v = PStr s /\ s <> "".
Definition token_list (v : pyval) : Prop := exists l, v = PList l /\ Forall (int_from 0) l.
Definition stop_sequence (v : pyval) : Prop := exists l, v = PList l /\ l <> [] /\ Forall (int_from 0) l.

(** [("cpu",)], or distinct names of CUDA devices. *)
Definition device_list (v : pyval) : Prop :=
  v = PList [PStr "cpu"]
  \/ exists ids, v = PList (map (fun s => PStr ("cuda:" +:+ s)) ids) /\ ids <> [] /\ NoDup ids
       /\ Forall (fun s => s <> "" /\ string_forall isdigit_char s = true) ids.

Lemma int_below_false v m : int_below v m = false <-> int_from m v.
Proof.
  unfold int_from. destruct v; simpl; try (split; [done|by intros (? & ? & _)]).
  rewrite Z.ltb_ge. split; [intros ?; by exists z|]. by intros (? & [= <-] & ?).
Qed.

Lemma int_range_false v lo hi : int_below v lo || negb (int_below v hi) = false <-> int_in lo hi v.
Proof.
  split.
  - intros H. apply orb_false_elim in H as [Hl Hh]. apply int_below_false in Hl as (z & -> & Hl). exists z.
    simpl in Hh. destr_bool. split; [done|lia].
  - intros (z & -> & Hl & Hh). cbn. apply orb_false_iff. by rewrite Z.ltb_ge, negb_false_iff, Z.ltb_lt.
Qed.

Lemma is_bool_true v : negb (is_bool v) = false <-> a_bool v.
Proof. split; [destruct v; try done; by exists b|by intros [b ->]]. Qed.

Lemma bad_path_false v : bad_path v = false <-> a_path v.
Proof.
  split; [destruct v; try done; simpl; intros ?; destr_bool; by exists s|]. intros (s & -> & Hs). cbn. by rewrite bool_decide_eq_false_2.
Qed.

Lemma is_none_true v : is_none v = true <-> v = PNone.
Proof. by destruct v. Qed.

Lemma in_set_true v names : in_set v names = Ok true <-> one_of names v.
Proof.
  split; [destruct v; try done; simpl; intros [= H]; destr_bool; by exists s|]. intros (s & -> & Hs). cbn. by rewrite bool_decide_eq_true_2.
Qed.

Lemma in_tuple_true v names : in_tuple v names = true <-> one_of names v.
Proof.
  split; [destruct v; try done; simpl; intros H; destr_bool; by exists s|]. intros (s & -> & Hs). cbn. by rewrite bool_decide_eq_true_2.
Qed.

Lemma finite_iff P v : finite_where P v <-> math_isfinite v = Ok true /\ P (number_units v).
Proof.
  unfold finite_where, number_units, math_isfinite. split.
  - intros (n & Hn & HP & Hf). rewrite Hn. split; [|done]. destruct v; try done.
    + unfold floatable in Hf. by rewrite (proj2 (Z.leb_gt _ _)).
    + cbn in Hn. injection Hn as ->. done.
  - destruct v as [|b|z|f| | |]; try (by intros [? _]).
    + intros [_ HP]. by eexists.
    + destruct (Z.leb_spec (2 ^ 1024) (Z.abs (round_float z))); [by intros [? _]|]. intros [_ HP]. by eexists.
    + cbn. destruct (float_value f); try (by intros [? _]). intros [_ HP]. by eexists.
Qed.

Lemma number_zero v : negb (py_eqb v (PInt 0)) = false <-> number v = Some (FFin 0).
Proof.
  rewrite negb_false_iff. split.
  - intros H. destruct v; try done; cbn [py_eqb number] in *; try apply fval_eqb_eq in H; rewrite ?Z.mul_0_l in H; congruence.
  - intros H. destruct v; try done; cbn [py_eqb number] in *; rewrite ?Z.mul_0_l; injection H as ->; apply fval_eqb_refl.
Qed.

(** ** Devices *)

Lemma substring_all s : String.substring 0 (String.length s) s = s.
Proof. induction s; simpl; congruence. Qed.

Lemma prefix_inv p s : String.prefix p s = true -> exists t, s = p +:+ t.
Proof.
  revert s. induction p as [|a p IH]; intros s H; [by exists s|]. destruct s as [|b s]; [done|]. cbn [String.prefix] in H.
  destruct (ascii_dec a b) as [<-|]; [|done]. destruct (IH s H) as [t ->]. by exists t.
Qed.

Lemma after_cuda t : String.substring 5 (String.length ("cuda:" +:+ t) - 5) ("cuda:" +:+ t) = t.
Proof. change (String.substring 0 (String.length t - 0) t = t). rewrite Nat.sub_0_r. apply substring_all. Qed.

Lemma cuda_device_inv v : cuda_device v = true ->
  exists s, v = PStr ("cuda:" +:+ s) /\ s <> "" /\ string_forall isdigit_char s = true.
Proof.
  destruct v; try done. unfold cuda_device. intros H. apply andb_prop in H as [H Hd]. apply andb_prop in H as [Hp He].
  apply prefix_inv in Hp as [t ->]. rewrite !after_cuda in *. exists t. destr_bool. done.
Qed.

Lemma distinct_values_strings l : distinct_values (map PStr l) = true -> NoDup l.
Proof.
  induction l as [|s l IH]; simpl; [constructor|]. intros H. apply andb_prop in H as [Hs Hl]. constructor; [|by apply IH].
  apply negb_true_iff in Hs. rewrite existsb_false, Forall_fmap, Forall_forall in Hs. intros Hin.
  specialize (Hs s Hin). cbn in Hs. by rewrite bool_decide_eq_true_2 in Hs.
Qed.

Lemma strings_distinct l : NoDup l -> distinct_values (map PStr l) = true.
Proof.
  induction 1 as [|s l Hs _ IH]; [done|]. cbn [map distinct_values]. rewrite IH, andb_true_r, negb_true_iff, existsb_false, Forall_fmap, Forall_forall.
  intros t Ht. cbn. apply bool_decide_eq_false_2. by intros ->.
Qed.

Lemma cuda_device_ok s : s <> "" -> string_forall isdigit_char s = true -> cuda_device (PStr ("cuda:" +:+ s)) = true.
Proof.
  intros Hs Hd. unfold cuda_device. rewrite after_cuda, Hd, bool_decide_eq_false_2, !andb_true_r by done. apply prefix_self.
Qed.

Lemma check_devices_inv l : check_devices l = Ok tt -> device_list (PList l).
Proof.
  unfold check_devices. intros H. destruct (bool_decide (l = [])) eqn:Hne; [done|].
  destruct (existsb _ l) eqn:Hh; [done|]. destruct (negb (distinct_values l)) eqn:Hd; [done|].
  destruct (py_eqb _ _) eqn:Hc.
  - left. destruct l as [|x [|y l]]; try done; cbn in Hc.
    + apply andb_prop in Hc as [Hc _]. destruct x; try done. cbn in Hc. destr_bool. by subst.
    + by rewrite andb_false_r in Hc.
  - right. rewrite raise_if_ok in H. rewrite existsb_false in H.
    assert (exists ids, l = map (fun s => PStr ("cuda:" +:+ s)) ids
      /\ Forall (fun s => s <> "" /\ string_forall isdigit_char s = true) ids) as (ids & -> & Hids).
    { clear -H. induction H as [|x l Hx _ IH]; [by exists []|]. destruct IH as (ids & -> & Hids).
      apply negb_false_iff in Hx. apply cuda_device_inv in Hx as (s & -> & Hs & Hdig). by exists (s :: ids); split; [|constructor]. }
    exists ids. split; [done|]. split; [by intros ->|]. split; [|done].
    apply negb_false_iff in Hd. rewrite <- (map_map (fun s => "cuda:" +:+ s) PStr) in Hd.
    apply distinct_values_strings, NoDup_fmap_1 in Hd. exact Hd.
Qed.

(** ** Valid configurations *)

Definition COUNT_FIELDS : list string :=
  ["max_steps"; "groups_per_step"; "max_new_tokens"; "queue_capacity"; "num_threads"; "checkpoint_interval"; "eval_samples_per_prompt"].

(** Everything that a configuration satisfies. [reward] and [output_dir] are
    only not empty, whatever their types; the LoRA fields are numbers and names
    of modules in the scope that uses them. *)
Record valid_config (c : pydict) : Prop := {
  v_keys : dict_keys c = dict_keys DEFAULTS;
  v_counts : Forall (fun n => int_from 1 (field c n)) COUNT_FIELDS;
  v_group_size : int_from 2 (field c "group_size");
  v_lag : int_from 0 (field c "max_policy_lag");
  v_cache_mib : int_from 0 (field c "engram_cache_mib");
  v_chunk : int_from 0 (field c "backprop_chunk_tokens");
  v_words : Forall (fun n => int_in 0 (2 ^ 63 - 1) (field c n)) ["eval_interval"; "log_samples_per_step"; "eval_seed"];
  v_seed : int_in 0 (2 ^ 63 - 1) (field c "seed");
  v_train_engram : a_bool (field c "train_engram");
  v_last_position : a_bool (field c "qwen_last_position_only");
  v_kv_cache : a_bool (field c "qwen_kv_cache");
  v_booleans : Forall (fun n => a_bool (field c n)) ["engram_offload"; "gradient_checkpointing"];
  v_positive : Forall (fun n => finite_where (fun u => 0 < u) (field c n))
    ["temperature"; "learning_rate"; "max_grad_norm"; "worker_timeout_seconds"];
  v_nonnegative : Forall (fun n => finite_where (fun u => 0 <= u) (field c n)) ["kl_beta"; "weight_decay"];
  v_clip : finite_where (fun u => 0 < u < float_unit) (field c "clip_eps");
  v_engine : one_of ["vllm"; "native-pytorch"] (field c "rollout_engine");
  v_length_policy : one_of ["error"; "skip"] (field c "length_policy");
  v_dtype : one_of ["float32"; "bfloat16"] (field c "dtype");
  v_scope : one_of ["all"; "lm_head"; "lora"] (field c "trainable_scope");
  v_optimizer : one_of ["adamw"; "sgd"] (field c "optimizer");
  v_prompt : or_none (int_from 1) (field c "max_prompt_tokens");
  v_eos : or_none token_list (field c "eos_token_ids");
  v_stops : exists l, field c "stop_token_sequences" = PList l /\ Forall stop_sequence l;
  v_truncated : or_none (finite_where (fun _ => True)) (field c "truncated_reward");
  v_delta : or_none a_path (field c "initial_engram_delta");
  v_sft : or_none a_path (field c "initial_sft_checkpoint");
  v_adapter : or_none a_path (field c "initial_adapter");
  v_texts : py_truthy (field c "reward") = true /\ py_truthy (field c "output_dir") = true;
  v_learner : device_list (field c "learner_devices");
  v_rollout : device_list (field c "rollout_devices");
  v_targets : or_none (fun v => exists l, v = PList l) (field c "lora_targets");
  (** Combinations *)
  v_trains_engram : field c "train_engram" = PBool true ->
    field c "engram_offload" = PBool true /\ field c "rollout_engine" = PStr "native-pytorch"
    /\ field c "optimizer" = PStr "sgd" /\ number (field c "weight_decay") = Some (FFin 0)
    /\ one_of ["all"; "lora"] (field c "trainable_scope");
  v_caches : field c "engram_cache_mib" <> PInt 0 -> field c "engram_offload" = PBool true;
  v_starts_delta : field c "initial_engram_delta" <> PNone ->
    field c "engram_offload" = PBool true /\ field c "rollout_engine" = PStr "native-pytorch";
  v_starts_sft : field c "initial_sft_checkpoint" <> PNone ->
    field c "rollout_engine" = PStr "native-pytorch" /\ field c "trainable_scope" = PStr "all" /\ field c "engram_offload" = PBool true
    /\ field c "initial_adapter" = PNone /\ field c "initial_engram_delta" = PNone;
  v_lora : field c "trainable_scope" = PStr "lora" ->
    int_from 1 (field c "lora_rank") /\ finite_where (fun u => 0 < u) (field c "lora_alpha")
    /\ number (field c "lora_dropout") = Some (FFin 0) /\ field c "rollout_engine" = PStr "native-pytorch"
    /\ or_none (fun v => exists l, v = PList l /\ l <> [] /\ Forall a_path l) (field c "lora_targets");
  v_starts_adapter : field c "initial_adapter" <> PNone -> field c "trainable_scope" = PStr "lora";
  v_caches_keys : field c "qwen_kv_cache" = PBool true ->
    field c "trainable_scope" = PStr "lm_head" /\ field c "qwen_last_position_only" = PBool true
    /\ field c "backprop_chunk_tokens" = PInt 0 }.

(** Rows of checks, conjunct by conjunct. *)
Lemma and_iff_dep (A B C D : Prop) : (A <-> B) -> (B -> (C <-> D)) -> (A /\ C <-> B /\ D).
Proof. tauto. Qed.
Lemma checks_cons r l : checks (r :: l) = Ok tt <-> r = Ok tt /\ checks l = Ok tt.
Proof. destruct r as [[]|]; cbn [checks]; [tauto|]. by split; [|intros [? _]]. Qed.
Lemma and_no_checks (B C : Prop) : (B <-> C) -> (B /\ checks [] = Ok tt <-> C).
Proof. intros H. split; [intros [? _]|split]; tauto || done. Qed.

(** Opens a row of checks into the conjuncts of its meaning. *)
Ltac by_checks :=
  rewrite !checks_cons;
  repeat first [apply and_no_checks | apply and_iff_dep; [|intros ?]].

Lemma each_field c names bad message (P : pyval -> Prop) : (forall v, bad v = false <-> P v) ->
  each names (fun n => Ok (bad (field c n))) message = Ok tt <-> Forall (fun n => P (field c n)) names.
Proof.
  intros H. rewrite each_ok. apply Forall_proper; [|done]. intros n. rewrite <- H. split; [by intros [= ->]|by intros ->].
Qed.

Lemma check_set_ok c name values message : check_set c name values message = Ok tt <-> one_of values (field c name).
Proof.
  rewrite <- in_set_true. unfold check_set. destruct (in_set _ _) as [[]|] eqn:E; by split.
Qed.

Lemma not_positive_ok c n : not_positive c n = Ok false <-> finite_where (fun u => 0 < u) (field c n).
Proof.
  rewrite finite_iff. unfold not_positive. destruct (math_isfinite _) as [[]|]; cbn; try (split; [done|by intros [? _]]).
  destruct (Z.leb_spec (number_units (field c n)) 0); split; try done; [by intros [_ ?]; lia].
Qed.

Lemma negative_ok c n : negative c n = Ok false <-> finite_where (fun u => 0 <= u) (field c n).
Proof.
  rewrite finite_iff. unfold negative. destruct (math_isfinite _) as [[]|]; cbn; try (split; [done|by intros [? _]]).
  destruct (Z.ltb_spec (number_units (field c n)) 0); split; try done; [by intros [_ ?]; lia].
Qed.

Lemma is_not_false c n s : is_not c n s = false <-> field c n = PStr s.
Proof.
  unfold is_not. rewrite negb_false_iff. split; [destruct (field c n); try done; cbn; intros; destr_bool; by subst|intros ->; cbn; by rewrite bool_decide_eq_true_2].
Qed.

Lemma truthy_bool c n : a_bool (field c n) -> truthy c n = true <-> field c n = PBool true.
Proof. unfold truthy. by intros [[] ->]. Qed.

(** A check of an option, where there is one. *)
Lemma unless_none {v} {r : res unit} {P : pyval -> Prop} : (v <> PNone -> (r = Ok tt <-> P v)) ->
  (if is_none v then Ok tt else r) = Ok tt <-> or_none P v.
Proof.
  intros H. unfold or_none. destruct (is_none v) eqn:E; [apply is_none_true in E; tauto|].
  assert (v <> PNone) as Hv by (by intros ->). rewrite (H Hv). tauto.
Qed.

Lemma or_none_and (P : pyval -> Prop) (R : Prop) v : or_none (fun v => P v /\ R) v <-> or_none P v /\ (v <> PNone -> R).
Proof. unfold or_none. assert (v = PNone \/ v <> PNone) by (destruct v; auto). tauto. Qed.

Lemma none_or_bad v bad (P : pyval -> Prop) : (bad = false <-> P v) -> negb (is_none v) && bad = false <-> or_none P v.
Proof. intros H. unfold or_none. rewrite andb_false_iff, negb_false_iff, is_none_true, H. done. Qed.

(** What [from_dict] makes of the fields that hold tuples. *)
Record tupled (c : pydict) : Prop := {
  t_learner : exists l, field c "learner_devices" = PList l;
  t_rollout : exists l, field c "rollout_devices" = PList l;
  t_targets : or_none (fun v => exists l, v = PList l) (field c "lora_targets");
  t_stops : exists l, field c "stop_token_sequences" = PList l /\ Forall (fun v => exists k, v = PList k) l;
  t_eos : or_none (fun v => exists l, v = PList l) (field c "eos_token_ids") }.

Lemma tokens_ok l : existsb (fun t => int_below t 0) l = false <-> Forall (int_from 0) l.
Proof. rewrite existsb_false. apply Forall_proper; [|done]. intros t. apply int_below_false. Qed.

Lemma stop_ok k : (match list_of (PList k) with [] => true | l => existsb (fun t => int_below t 0) l end) = false <-> stop_sequence (PList k).
Proof.
  unfold stop_sequence. cbn [list_of]. transitivity (k <> [] /\ Forall (int_from 0) k).
  - rewrite <- tokens_ok. destruct k; [by split; [|intros [? _]]|]. split; [by intros ->|by intros [_ ?]].
  - split; [intros []; by eexists|by intros (l & [= <-] & ?)].
Qed.

Lemma check_lora_ok rank alpha dropout targets : check_lora rank alpha dropout targets = Ok tt <->
  int_from 1 rank /\ finite_where (fun u => 0 < u) alpha /\ (exists n, number dropout = Some (FFin n) /\ 0 <= n < float_unit)
  /\ exists l, targets = PList l /\ l <> [] /\ Forall a_path l.
Proof.
  rewrite <- int_below_false, finite_iff. unfold check_lora. destruct (int_below rank 1); [by split; [|intros [? _]]|].
  destruct (math_isfinite alpha) as [[]|]; cbn [negb orb]; try (by split; [|intros (_ & [? _] & _)]).
  destruct (Z.leb_spec (number_units alpha) 0) as [|Ha]; [split; [done|intros (_ & [_ ?] & _); lia]|].
  destruct (number dropout) as [x|]; [destruct x as [| |n]|]; cbn [negb]; try (split; [done|by intros (_ & _ & (? & ? & _) & _)]).
  destruct ((0 <=? n) && (n <? float_unit)) eqn:E; cbn [negb].
  2: { split; [done|]. intros (_ & _ & (? & [= ->] & ?) & _). apply andb_false_iff in E. rewrite Z.leb_gt, Z.ltb_ge in E. lia. }
  rewrite andb_true_iff, Z.leb_le, Z.ltb_lt in E. transitivity (exists l, targets = PList l /\ l <> [] /\ Forall a_path l).
  - destruct targets as [| | | | |l|]; try (by split; [|intros (? & ? & _)]). destruct l as [|x l]; [by split; [|intros (? & [= <-] & ? & _)]|].
    transitivity (Forall a_path (x :: l)); [|split; [intros ?; by exists (x :: l)|by intros (? & [= <-] & _ & ?)]].
    destruct (existsb bad_path (x :: l)) eqn:Eb.
    + split; [done|]. intros H. assert (existsb bad_path (x :: l) = false); [|congruence]. apply existsb_false. eapply Forall_impl; [exact H|]. intros v. apply bad_path_false.
    + split; [|done]. intros _. rewrite existsb_false in Eb. eapply Forall_impl; [exact Eb|]. intros v. apply bad_path_false.
  - split; [intros H; split_and!; try done; by exists n|by intros (_ & _ & _ & ?)].
Qed.

Section Valid.
Context (c : pydict) (Ht : tupled c).

(** The groups of checks, in the words of [valid_config]. *)
Lemma numbers_ok : check_numbers c = Ok tt <->
  Forall (fun n => int_from 1 (field c n)) COUNT_FIELDS /\ int_from 2 (field c "group_size")
  /\ int_from 0 (field c "max_policy_lag")
  /\ Forall (fun n => int_in 0 (2 ^ 63 - 1) (field c n)) ["eval_interval"; "log_samples_per_step"; "eval_seed"]
  /\ or_none (int_from 1) (field c "max_prompt_tokens") /\ one_of ["error"; "skip"] (field c "length_policy")
  /\ or_none token_list (field c "eos_token_ids")
  /\ (exists l, field c "stop_token_sequences" = PList l /\ Forall stop_sequence l)
  /\ or_none (finite_where (fun _ => True)) (field c "truncated_reward")
  /\ int_in 0 (2 ^ 63 - 1) (field c "seed")
  /\ Forall (fun n => finite_where (fun u => 0 < u) (field c n)) ["temperature"; "learning_rate"; "max_grad_norm"; "worker_timeout_seconds"]
  /\ Forall (fun n => finite_where (fun u => 0 <= u) (field c n)) ["kl_beta"; "weight_decay"]
  /\ finite_where (fun u => 0 < u < float_unit) (field c "clip_eps").
Proof.
  unfold check_numbers. by_checks.
  - apply (each_field c COUNT_FIELDS (fun v => int_below v 1)). intros v. apply int_below_false.
  - rewrite raise_if_ok. apply int_below_false.
  - rewrite raise_if_ok. apply int_below_false.
  - apply (each_field c _ (fun v => int_below v 0 || negb (int_below v (2 ^ 63 - 1)))). intros v. apply int_range_false.
  - rewrite raise_if_ok. apply none_or_bad, int_below_false.
  - apply check_set_ok.
  - rewrite raise_if_ok. unfold token_list. destruct (t_eos c Ht) as [->|(l & ->)]; [split; [by left|done]|]. cbn [is_none negb andb list_of].
    rewrite tokens_ok. unfold or_none. split; [right; by exists l|intros [?|(? & [= <-] & ?)]; done].
  - rewrite raise_if_ok, existsb_false. destruct (t_stops c Ht) as (l & -> & Hl). cbn [list_of].
    assert (forall v, v ∈ l -> (match list_of v with [] => true | k => existsb (fun t => int_below t 0) k end) = false <-> stop_sequence v) as Hs.
    { intros v Hv. rewrite Forall_forall in Hl. destruct (Hl v Hv) as (k & ->). exact (stop_ok k). }
    rewrite Forall_forall. split.
    + intros Hk. exists l. split; [done|]. apply Forall_forall. intros v Hv. by apply Hs, Hk.
    + intros (? & [= <-] & Hk) v Hv. rewrite Forall_forall in Hk. by apply Hs, Hk.
  - apply unless_none. intros _. rewrite finite_iff. destruct (math_isfinite _) as [[]|]; cbn; by split; [|intros [? _]].
  - rewrite raise_if_ok. apply int_range_false.
  - rewrite each_ok. apply Forall_proper; [|done]. intros n. apply not_positive_ok.
  - rewrite each_ok. apply Forall_proper; [|done]. intros n. apply negative_ok.
  - rewrite finite_iff. destruct (math_isfinite _) as [[]|]; cbn [negb orb]; try (by split; [|intros [? _]]).
    rewrite raise_if_ok, negb_false_iff, andb_true_iff, !Z.ltb_lt. tauto.
Qed.

Lemma engram_ok : check_engram c = Ok tt <->
  a_bool (field c "train_engram")
  /\ (field c "train_engram" = PBool true -> (((truthy c "engram_offload" = true /\ field c "rollout_engine" = PStr "native-pytorch")
      /\ field c "optimizer" = PStr "sgd") /\ number (field c "weight_decay") = Some (FFin 0))
      /\ one_of ["all"; "lora"] (field c "trainable_scope"))
  /\ int_from 0 (field c "engram_cache_mib")
  /\ (field c "engram_cache_mib" <> PInt 0 -> truthy c "engram_offload" = true)
  /\ or_none (fun v => a_path v /\ truthy c "engram_offload" = true /\ field c "rollout_engine" = PStr "native-pytorch") (field c "initial_engram_delta").
Proof.
  unfold check_engram. by_checks.
  - rewrite raise_if_ok. apply is_bool_true.
  - unfold truthy at 1. destruct H as [[] ->]; cbn [py_truthy]; [|split; [by intros _ [=]|done]].
    rewrite <- in_set_true, <- number_zero, <- !is_not_false. fold (nonzero c "weight_decay").
    rewrite <- (negb_false_iff (truthy c "engram_offload")), <- !orb_false_iff. destruct (_ || nonzero c "weight_decay").
    + split; [done|]. intros [? _]; done.
    + destruct (in_set _ _) as [[]|]; cbn; (split; [done|intros [_ ?]; done]).
  - rewrite raise_if_ok. apply int_below_false.
  - rewrite raise_if_ok, andb_false_iff, negb_false_iff. unfold truthy at 1. destruct H1 as (z & -> & Hz). cbn [py_truthy]. rewrite negb_false_iff, Z.eqb_eq.
    split; [intros [->|?] ?; done|]. intros Hx. destruct (decide (z = 0)) as [->|]; [by left|right]. apply Hx. congruence.
  - apply unless_none. intros _. by_checks; rewrite raise_if_ok; [apply bad_path_false|].
    by rewrite orb_false_iff, negb_false_iff, is_not_false.
Qed.

Lemma initial_ok : check_initial c = Ok tt <->
  or_none (fun v => a_path v /\ (((field c "rollout_engine" = PStr "native-pytorch" /\ field c "trainable_scope" = PStr "all") /\ truthy c "engram_offload" = true)
     /\ field c "initial_adapter" = PNone) /\ field c "initial_engram_delta" = PNone) (field c "initial_sft_checkpoint")
  /\ ((field c "trainable_scope" = PStr "lora" ->
      (int_from 1 (field c "lora_rank") /\ finite_where (fun u => 0 < u) (field c "lora_alpha")
        /\ (exists n, number (field c "lora_dropout") = Some (FFin n) /\ 0 <= n < float_unit)
        /\ exists l, (if is_none (field c "lora_targets") then LORA_TARGETS else field c "lora_targets") = PList l /\ l <> [] /\ Forall a_path l)
      /\ field c "rollout_engine" = PStr "native-pytorch" /\ number (field c "lora_dropout") = Some (FFin 0))
     /\ (field c "initial_adapter" <> PNone -> field c "trainable_scope" = PStr "lora"))
  /\ or_none a_path (field c "initial_adapter").
Proof.
  unfold check_initial. by_checks.
  - apply unless_none. intros _. by_checks; rewrite raise_if_ok; [apply bad_path_false|].
    by rewrite !orb_false_iff, !is_not_false, !negb_false_iff, !is_none_true.
  - pose proof (is_not_false c "trainable_scope" "lora") as Hs. unfold is_not in Hs. rewrite negb_false_iff in Hs. destruct (py_eqb _ _).
    + pose proof (proj1 Hs eq_refl) as Es. rewrite Es.
      transitivity ((int_from 1 (field c "lora_rank") /\ finite_where (fun u => 0 < u) (field c "lora_alpha")
        /\ (exists n, number (field c "lora_dropout") = Some (FFin n) /\ 0 <= n < float_unit)
        /\ exists l, (if is_none (field c "lora_targets") then LORA_TARGETS else field c "lora_targets") = PList l /\ l <> [] /\ Forall a_path l)
        /\ field c "rollout_engine" = PStr "native-pytorch" /\ number (field c "lora_dropout") = Some (FFin 0)); [|tauto].
      by_checks; [apply check_lora_ok|]. rewrite raise_if_ok, orb_false_iff, is_not_false. by unfold nonzero; rewrite number_zero.
    + assert (field c "trainable_scope" <> PStr "lora") as Hne by (intros E; by apply Hs in E).
      rewrite raise_if_ok, negb_false_iff, is_none_true. split; [intros ->; done|]. intros [_ Ha]. destruct (decide (is_none (field c "initial_adapter") = true)) as [E|E]; [by apply is_none_true|].
      exfalso. apply Hne, Ha. intros Hn. by apply E, is_none_true.
  - rewrite raise_if_ok. apply none_or_bad, bad_path_false.
Qed.

Lemma qwen_ok : check_qwen c = Ok tt <->
  a_bool (field c "qwen_last_position_only") /\ a_bool (field c "qwen_kv_cache") /\ int_from 0 (field c "backprop_chunk_tokens")
  /\ (field c "qwen_kv_cache" = PBool true ->
      (field c "trainable_scope" = PStr "lm_head" /\ field c "qwen_last_position_only" = PBool true)
      /\ field c "backprop_chunk_tokens" = PInt 0).
Proof.
  unfold check_qwen. by_checks; rewrite raise_if_ok.
  - apply is_bool_true.
  - apply is_bool_true.
  - apply int_below_false.
  - destruct H0 as [b Eb], H1 as (z & Ez & Hz). rewrite <- (truthy_bool c "qwen_last_position_only" H), <- is_not_false. unfold truthy at 1 3. rewrite Eb, Ez.
    cbn [py_truthy]. destruct b; cbn [andb]; [|by split; [intros _ [=]|]].
    rewrite !orb_false_iff, !negb_false_iff, Z.eqb_eq. split; [intros [? ->]; done|]. intros H2. destruct (H2 eq_refl) as [? [= ->]]. done.
Qed.

Lemma devices_ok l : check_devices l = Ok tt <-> device_list (PList l).
Proof.
  split; [apply check_devices_inv|]. intros [[= ->]|(ids & [= ->] & Hne & Hnd & Hdig)]; [reflexivity|].
  unfold check_devices. rewrite bool_decide_eq_false_2 by (by destruct ids). rewrite (proj2 (existsb_false _ _)) by (apply Forall_fmap, Forall_forall; by intros).
  rewrite <- (map_map (fun s => "cuda:" +:+ s) PStr), strings_distinct by (by apply (NoDup_fmap_2 _)). cbn [negb]. destruct (py_eqb _ _); [done|].
  rewrite (proj2 (existsb_false _ _)); [done|]. rewrite map_map. apply Forall_fmap. eapply Forall_impl; [exact Hdig|]. intros s [Hs Hd]. cbn. by apply negb_false_iff, cuda_device_ok.
Qed.

Lemma validate_iff : dict_keys c = dict_keys DEFAULTS -> validate c = Ok tt <-> valid_config c.
Proof.
  intros Hkeys. unfold validate. destruct (t_learner c Ht) as (ls & El), (t_rollout c Ht) as (rs & Er). rewrite El, Er. cbn [list_of].
  rewrite !checks_cons, !check_set_ok, numbers_ok, engram_ok, initial_ok, qwen_ok, !devices_ok, !raise_if_ok, <- El, <- Er.
  rewrite negb_false_iff, in_tuple_true, orb_false_iff, !negb_false_iff.
  rewrite (each_field c _ (fun v => negb (is_bool v)) _ a_bool) by apply is_bool_true. rewrite !(or_none_and a_path). split.
  - intros (? & (? & ? & ? & ? & ? & ? & ? & ? & ? & ? & ? & ? & ?) & ? & ? & ? & (? & Htrain & ? & Hmib & ? & Hdelta) & ((? & Hsft) & (Hlora & ?) & ?) & (? & ? & ? & Hkv) & Htexts & Hb & ? & ? & _).
    pose proof (Forall_cons_1 _ _ _ Hb) as [Hoff _]. rewrite (truthy_bool _ _ Hoff) in Htrain, Hmib, Hdelta, Hsft. pose proof (t_targets c Ht) as Htg.
    constructor; try assumption.
    + intros Hx. destruct (Htrain Hx) as [[[[? ?] ?] ?] ?]. by split_and!.
    + intros Hx. destruct (Hsft Hx) as [[[[? ?] ?] ?] ?]. by split_and!.
    + intros Hx. destruct (Hlora Hx) as [(? & ? & _ & Hl) [? ?]]. split_and!; try assumption.
      destruct (is_none (field c "lora_targets")) eqn:En; [left; by apply is_none_true|by right].
    + intros Hx. destruct (Hkv Hx) as [[? ?] ?]. by split_and!.
  - intros []. pose proof (Forall_cons_1 _ _ _ v_booleans0) as [Hoff _]. rewrite (truthy_bool _ _ Hoff).
    split_and!; try assumption; try done.
    + intros Hx. destruct (v_trains_engram0 Hx) as (? & ? & ? & ? & ?). by split_and!.
    + intros Hx. destruct (v_starts_sft0 Hx) as (? & ? & ? & ? & ?). by split_and!.
    + intros Hx. destruct (v_lora0 Hx) as (? & ? & Hdrop & ? & Htg). split_and!; try assumption.
      * exists 0. split; [exact Hdrop|]. split; [done|reflexivity].
      * destruct Htg as [->|(l & -> & ? & ?)]; cbn [is_none]; [eexists; split; [reflexivity|]|by exists l].
        split; [done|]. repeat constructor; eexists; by split.
    + intros Hx. destruct (v_caches_keys0 Hx) as (? & ? & ?). by split_and!.
    + by apply v_texts0.
    + by apply v_texts0.
Qed.
End Valid.

(** ** The steps of [from_dict] *)

Lemma convert_other name skip f values out k : convert name skip f values = Ok out -> k <> name ->
  dict_get k out = dict_get k values.
Proof.
  unfold convert. destruct (dict_get name values) as [v|]; [|by intros [= <-]].
  destruct (skip && is_none v); [by intros [= <-]|]. destruct (f v) as [w|]; [|done]. intros [= <-] Hne.
  rewrite dict_get_set. by rewrite bool_decide_eq_false_2.
Qed.

Lemma convert_same name skip f values out : convert name skip f values = Ok out ->
  dict_get name out = None \/ (skip = true /\ dict_get name out = Some PNone)
  \/ exists v w, f v = Ok w /\ dict_get name out = Some w.
Proof.
  unfold convert. destruct (dict_get name values) as [v|] eqn:E; [|intros [= <-]; by left].
  destruct (skip && is_none v) eqn:Es.
  { intros [= <-]. apply andb_prop in Es as [-> Hv]. apply is_none_true in Hv as ->. by right; left. }
  destruct (f v) as [w|] eqn:Ef; [|done]. intros [= <-]. right; right. exists v, w. split; [done|].
  rewrite dict_get_set. by rewrite bool_decide_eq_true_2.
Qed.

(** A conversion that has nothing to do. *)
Lemma convert_done name skip f c v : dict_get name c = Some v -> f v = Ok v \/ (skip = true /\ v = PNone) ->
  convert name skip f c = Ok c.
Proof.
  intros Hget Hf. unfold convert. rewrite Hget. destruct (skip && is_none v) eqn:E; [done|].
  destruct Hf as [->|[-> ->]]; [|done]. by rewrite dict_set_same.
Qed.

Lemma Ok_inj {A} (a b : A) : Ok a = Ok b -> a = b.
Proof. by intros [= ->]. Qed.

Lemma construct_get values c k : construct values = Ok c ->
  dict_keys c = dict_keys DEFAULTS /\
  dict_get k c = (fun d => default d (dict_get k values)) <$> dict_get k DEFAULTS.
Proof.
  unfold construct. destruct (existsb _ _); [done|]. intros <-%Ok_inj. generalize DEFAULTS. intros D. split.
  - unfold dict_keys. by rewrite map_map.
  - induction D as [|[k' d] D IH]; [done|]. cbn [map dict_get fst snd]. case_bool_decide; [by subst|done].
Qed.

Lemma construct_done c : dict_keys c = dict_keys DEFAULTS -> construct c = Ok c.
Proof.
  intros Hk. unfold construct. rewrite Hk. replace (existsb _ _) with false.
  2:{ symmetry. apply existsb_false, Forall_forall. intros k Hin. by rewrite bool_decide_eq_true_2. }
  assert (NoDup (dict_keys DEFAULTS)) as Hnd by (apply (bool_decide_unpack _); vm_compute; exact I).
  f_equal. transitivity (map (fun k => (k, get_none k c)) (dict_keys DEFAULTS)).
  - unfold dict_keys. rewrite map_map. apply map_ext_in. intros [k d] Hin%list_elem_of_In. cbn.
    rewrite (has_key k c); [done|]. rewrite Hk. apply list_elem_of_fmap. by exists (k, d).
  - rewrite <- Hk. apply dict_of_keys. by rewrite Hk.
Qed.

Lemma to_tuple_list v w : to_tuple v = Ok w -> exists l, w = PList l.
Proof. unfold to_tuple. destruct (iterate v); [|done]. intros [= <-]. by eexists. Qed.

Lemma to_tuples_list v w : to_tuples v = Ok w -> exists l, w = PList l /\ Forall (fun v => exists k, v = PList k) l.
Proof.
  unfold to_tuples. destruct (iterate v) as [l|]; [|done]. destruct (traverse to_tuple l) as [ls|] eqn:E; [|done].
  intros [= <-]. exists ls. split; [done|]. revert ls E. induction l as [|x l IH]; intros ls; simpl; [by intros [= <-]|].
  destruct (to_tuple x) as [w|] eqn:Ew; [|done]. destruct (traverse to_tuple l) as [ws|]; [|done]. intros [= <-].
  constructor; [by eapply to_tuple_list|by apply IH].
Qed.

Lemma to_tuples_done l : Forall (fun v => exists k, v = PList k) l -> to_tuples (PList l) = Ok (PList l).
Proof.
  intros Hl. unfold to_tuples. cbn [iterate]. assert (traverse to_tuple l = Ok l) as ->; [|done].
  induction Hl as [|x l [k ->] _ IH]; [done|]. simpl. by rewrite IH.
Qed.

(** ** What [from_dict] returns *)

Lemma from_dict_inv values c : from_dict values = Ok c ->
  exists expanded, expand_counts values = Ok expanded /\ dict_keys c = dict_keys DEFAULTS /\ tupled c /\ validate c = Ok tt
  /\ forall name l, name ∈ ["learner_devices"; "rollout_devices"] -> dict_get name expanded = Some (PList l) -> field c name = PList l.
Proof.
  unfold from_dict. intros H. destruct (expand_counts values) as [v0|]; [|done]. exists v0. split; [done|].
  destruct (convert "learner_devices" false to_tuple v0) as [v1|] eqn:E1; [|done].
  destruct (convert "rollout_devices" false to_tuple v1) as [v2|] eqn:E2; [|done].
  destruct (convert "lora_targets" true to_tuple v2) as [v3|] eqn:E3; [|done].
  destruct (convert "stop_token_sequences" false to_tuples v3) as [v4|] eqn:E4; [|done].
  destruct (convert "eos_token_ids" true to_tuple v4) as [v5|] eqn:E5; [|done].
  destruct (construct v5) as [r|] eqn:E6; [|done]. destruct (validate r) as [[]|] eqn:E7; [|done]. injection H as <-.
  assert (forall k d, dict_get k DEFAULTS = Some d -> field r k = default d (dict_get k v5)) as Hf.
  { intros k d Hd. unfold field, get_none. destruct (construct_get v5 r k E6) as [_ ->]. by rewrite Hd. }
  assert (forall k, k <> "eos_token_ids" -> dict_get k v5 = dict_get k v4) as H5 by (intros; by eapply convert_other).
  assert (forall k, k <> "stop_token_sequences" -> dict_get k v4 = dict_get k v3) as H4 by (intros; by eapply convert_other).
  assert (forall k, k <> "lora_targets" -> dict_get k v3 = dict_get k v2) as H3 by (intros; by eapply convert_other).
  assert (forall k, k <> "rollout_devices" -> dict_get k v2 = dict_get k v1) as H2 by (intros; by eapply convert_other).
  assert (forall k, k <> "learner_devices" -> dict_get k v1 = dict_get k v0) as H1 by (intros; by eapply convert_other).
  split; [by apply (construct_get v5 r "" E6)|]. split; [|split; [done|]].
  - constructor.
    + rewrite (Hf "learner_devices" (PList [PStr "cpu"]) eq_refl), H5, H4, H3, H2 by done. apply convert_same in E1 as [->|[[? _]|(v & w & Hw & ->)]]; [by eexists|done|].
      by eapply to_tuple_list.
    + rewrite (Hf "rollout_devices" (PList [PStr "cpu"]) eq_refl), H5, H4, H3 by done. apply convert_same in E2 as [->|[[? _]|(v & w & Hw & ->)]]; [by eexists|done|].
      by eapply to_tuple_list.
    + rewrite (Hf "lora_targets" PNone eq_refl), H5, H4 by done. apply convert_same in E3 as [->|[[_ ->]|(v & w & Hw & ->)]]; [by left|by left|].
      right. by eapply to_tuple_list.
    + rewrite (Hf "stop_token_sequences" (PList []) eq_refl), H5 by done. apply convert_same in E4 as [->|[[? _]|(v & w & Hw & ->)]]; [by eexists|done|].
      by eapply to_tuples_list.
    + rewrite (Hf "eos_token_ids" PNone eq_refl). apply convert_same in E5 as [->|[[_ ->]|(v & w & Hw & ->)]]; [by left|by left|].
      right. by eapply to_tuple_list.
  - intros name l Hname Hl. apply elem_of_cons in Hname as [->|Hname].
    + rewrite (Hf "learner_devices" (PList [PStr "cpu"]) eq_refl), H5, H4, H3, H2 by done. unfold convert in E1. rewrite Hl in E1. cbn in E1. injection E1 as <-.
      by rewrite dict_get_set.
    + apply list_elem_of_singleton in Hname as ->. rewrite (Hf "rollout_devices" (PList [PStr "cpu"]) eq_refl), H5, H4, H3 by done.
      unfold convert in E2. rewrite H1, Hl in E2 by done. cbn in E2. injection E2 as <-. by rewrite dict_get_set.
Qed.

Lemma from_dict_again c : dict_keys c = dict_keys DEFAULTS -> tupled c -> validate c = Ok tt -> from_dict c = Ok c.
Proof.
  intros Hk Ht Hv. assert (forall k, bool_decide (k ∈ dict_keys DEFAULTS) = true -> dict_get k c = Some (field c k)) as Hget.
  { intros k Hin. apply has_key. rewrite Hk. by apply bool_decide_eq_true in Hin. }
  unfold from_dict, expand_counts. replace (existsb _ COUNTS) with false.
  2:{ symmetry. apply existsb_false. repeat constructor; unfold has; apply bool_decide_eq_false_2;
      rewrite <- not_eq_None_Some; intros Hn; apply Hn, dict_get_None_keys; rewrite Hk; apply (bool_decide_unpack _); vm_compute; exact I. }
  cbn [negb].
  destruct Ht as [(l1 & E1) (l2 & E2) Et (l3 & E3 & H3) Ee].
  rewrite (convert_done "learner_devices" false to_tuple c (field c "learner_devices")) by (by (apply Hget; vm_compute) || (left; by rewrite E1)).
  rewrite (convert_done "rollout_devices" false to_tuple c (field c "rollout_devices")) by (by (apply Hget; vm_compute) || (left; by rewrite E2)).
  rewrite (convert_done "lora_targets" true to_tuple c (field c "lora_targets"))
    by (by (apply Hget; vm_compute) || (destruct Et as [->|(l & ->)]; [by right|by left])).
  rewrite (convert_done "stop_token_sequences" false to_tuples c (field c "stop_token_sequences"))
    by (by (apply Hget; vm_compute) || (left; rewrite E3; by apply to_tuples_done)).
  rewrite (convert_done "eos_token_ids" true to_tuple c (field c "eos_token_ids"))
    by (by (apply Hget; vm_compute) || (destruct Ee as [->|(l & ->)]; [by right|by left])).
  rewrite construct_done by done. by rewrite Hv.
Qed.

(** ** Devices from counts *)

Lemma PStr_inj a b : PStr a = PStr b -> a = b.
Proof. by intros [= ->]. Qed.

Lemma cuda_name_inj i j : cuda_name i = cuda_name j -> i = j.
Proof. unfold cuda_name. intros H. apply (inj pretty). by simplify_eq. Qed.

Lemma expand_counts_inv values out trainer rollout : expand_counts values = Ok out ->
  dict_get "trainer_num_gpus" values = Some (PInt trainer) -> dict_get "rollout_num_gpus" values = Some (PInt rollout) ->
  0 <= trainer /\ 0 <= rollout /\ dict_get "learner_devices" out = Some (cuda_devices 0 trainer)
  /\ dict_get "rollout_devices" out = Some (cuda_devices trainer (trainer + rollout)).
Proof.
  intros H Ht Hr. unfold expand_counts, has, COUNTS, get_none in H. cbn [existsb forallb] in H.
  rewrite Ht, Hr in H. cbn [default] in H. rewrite !bool_decide_eq_true_2 in H by (by eexists). cbn [negb orb andb] in H.
  destruct (bool_decide _ || _); [done|]. unfold id in H. destruct (_ || (rollout <? 0)) eqn:E in H; [done|]. apply Ok_inj in H as <-. destr_bool.
  split; [done|]. split; [done|]. by rewrite !dict_get_set.
Qed.

Lemma cuda_devices_disjoint trainer rollout d : 0 <= trainer -> 0 <= rollout ->
  d <> PStr "cpu" -> ~ (d ∈ list_of (cuda_devices 0 trainer) /\ d ∈ list_of (cuda_devices trainer (trainer + rollout))).
Proof.
  intros Ht Hr Hd [H1 H2]. unfold cuda_devices in *.
  destruct (Z.leb_spec trainer 0); [by apply list_elem_of_singleton in H1|].
  destruct (Z.leb_spec (trainer + rollout) trainer); [by apply list_elem_of_singleton in H2|]. cbn [list_of] in *.
  apply list_elem_of_fmap in H1 as (i & Hi & Hin%elem_of_seq). apply list_elem_of_fmap in H2 as (j & Hj & _).
  rewrite Hi in Hj. apply PStr_inj, cuda_name_inj in Hj. lia.
Qed.

Lemma cuda_devices_list a b : exists l, cuda_devices a b = PList l.
Proof. unfold cuda_devices. destruct (b <=? a); by eexists. Qed.

(** What a valid configuration says of the fields that hold tuples. *)
Lemma valid_tupled c : valid_config c -> tupled c.
Proof.
  intros []. constructor.
  - destruct v_learner0 as [->|(ids & -> & _)]; by eexists.
  - destruct v_rollout0 as [->|(ids & -> & _)]; by eexists.
  - done.
  - destruct v_stops0 as (l & -> & Hl). exists l. split; [done|]. eapply Forall_impl; [exact Hl|]. intros v (k & -> & _). by exists k.
  - destruct v_eos0 as [->|(l & -> & _)]; [by left|]. right. by exists l.
Qed.

(** C27. The configurations that [from_dict] returns are exactly the valid ones,
    in which every field the dataclass declares is there and nothing else is,
    every field that [validate] checks has its form and range, and the engine,
    scope, optimizer, Engram and initial states are a supported combination; a
    valid one reads back from its dictionary unchanged. What [validate] leaves
    open stays open: [reward] and [output_dir] need only be true as conditions,
    whatever their types, and the LoRA numbers are free outside the LoRA scope.
    When the input gives GPU counts, the learner and the rollout devices are
    those numbers of devices and have no GPU in common. *)
Theorem rl_config_typed :
  (forall c, from_dict c = Ok c <-> valid_config c)
  /\ forall values c, from_dict values = Ok c ->
  valid_config c /\ from_dict c = Ok c
  /\ forall trainer rollout, dict_get "trainer_num_gpus" values = Some (PInt trainer) ->
       dict_get "rollout_num_gpus" values = Some (PInt rollout) ->
       0 <= trainer /\ 0 <= rollout
       /\ field c "learner_devices" = cuda_devices 0 trainer
       /\ field c "rollout_devices" = cuda_devices trainer (trainer + rollout)
       /\ forall d, d <> PStr "cpu" ->
            ~ (d ∈ list_of (field c "learner_devices") /\ d ∈ list_of (field c "rollout_devices")).
Proof.
  split.
  - intros c. split.
    + intros (expanded & _ & Hk & Ht & Hv & _)%from_dict_inv. by apply validate_iff.
    + intros Hv. pose proof (valid_tupled c Hv) as Ht. apply from_dict_again; [apply Hv|done|]. by apply validate_iff; [|apply Hv|].
  - intros values c (expanded & Hexp & Hk & Ht & Hv & Hdev)%from_dict_inv.
    split; [by apply validate_iff|]. split; [by apply from_dict_again|]. intros trainer rollout H1 H2.
    destruct (expand_counts_inv values expanded trainer rollout Hexp H1 H2) as (Ht0 & Hr0 & Hl & Hr).
    destruct (cuda_devices_list 0 trainer) as [ls El], (cuda_devices_list trainer (trainer + rollout)) as [rs Er].
    rewrite (Hdev "learner_devices" ls), (Hdev "rollout_devices" rs), <- El, <- Er by (set_solver || congruence).
    do 4 (split; [done|]). intros d. by apply cuda_devices_disjoint.
Qed.

(** A reward that is no string is accepted. *)
Example reward_unchecked : is_ok (from_dict [("reward", PInt 5); ("output_dir", PList [PInt 1])]) = true.
Proof. vm_compute. reflexivity. Qed.

Lemma rl_config_typed_witness : exists c,
  from_dict [("trainer_num_gpus", PInt 2); ("rollout_num_gpus", PInt 1); ("max_steps", PInt 5)] = Ok c
  /\ valid_config c /\ from_dict c = Ok c /\ field c "max_steps" = PInt 5
  /\ field c "learner_devices" = PList [PStr "cuda:0"; PStr "cuda:1"] /\ field c "rollout_devices" = PList [PStr "cuda:2"].
Proof.
  eexists. assert (from_dict [("trainer_num_gpus", PInt 2); ("rollout_num_gpus", PInt 1); ("max_steps", PInt 5)] = Ok _) as H
    by (vm_compute; reflexivity).
  split; [exact H|]. destruct (proj2 rl_config_typed _ _ H) as (Hv & Hagain & _). split; [exact Hv|]. split; [exact Hagain|].
  split; [|split]; vm_compute; reflexivity.
Defined.
