(* ===== verification/LoraConfig.v ===== *)
(** * The query-LoRA configuration ([dsv41_train/rl/lora_config.py]) *)

From S2P Require Import Prelude PyValue Training TrainingProofs.
Local Open Scope Z_scope.
Local Open Scope py_scope.

Definition SUPPORTED_LORA_RANKS : list Z := [8; 16; 32; 64; 128].

(** [str.strip()] on Latin-1 text. *)
Definition is_space (a : ascii) : bool :=
  let n := nat_of_ascii a in
  ((9 <=? n) && (n <=? 13) || (28 <=? n) && (n <=? 32) || (n =? 133) || (n =? 160))%nat.

Fixpoint drop_spaces (l : list ascii) : list ascii :=
  match l with a :: l' => if is_space a then drop_spaces l' else l | [] => [] end.

Definition strip (s : string) : string :=
  String.string_of_list_ascii (reverse (drop_spaces (reverse (drop_spaces (String.list_ascii_of_string s))))).

(** [int(s)] of decimal digits, with the interpreter's limit on their number. *)
Definition int_of_digits (s : string) : res Z :=
  if (4300 <? String.length s)%nat then Err (ValueError "Exceeds the limit for integer string conversion")
  else Ok (digits_value 0 s).

(** [tuple(sorted(layers))] *)
Definition sorted_layers (layers : list Z) : list Z := sorted_by Z.leb layers.

Definition parse_lora_layers (v : pyval) : res (option (list Z)) :=
  match v with
  | PStr value =>
      if bool_decide (strip value = "all") then Ok None
      else
        let parts := map strip (py_split ","%char value) in
        raise_when bool_decide (parts = []) || existsb (fun part => negb (decimal_string part)) parts
          with_exn ValueError "LoRA layers must be 'all' or comma-separated nonnegative indices";
        layers <-? traverse int_of_digits parts;
        raise_when negb (distinct layers) with_exn ValueError "LoRA layer indices must be distinct";
        Ok (Some (sorted_layers layers))
  | _ => Err (ValueError "LoRA layers must be 'all' or comma-separated layer indices")
  end.

(** ** [DistributedLoRAConfig] *)

Record DistributedLoRAConfig := { rank : Z; alpha : pyfloat; layers : option (list Z) }.

Section Config.
Context (float_repr : Z -> string).

Definition check_alpha (v : pyval) : res pyfloat :=
  let bad := Err (ValueError "LoRA alpha must be finite and positive") in
  match v with
  | PInt z =>
      let m := round_float z in
      if 2 ^ 1024 <=? Z.abs m then Err (OverflowError "int too large to convert to float")
      else if z <=? 0 then bad else Ok (float_of_units float_repr (m * float_unit))
  | PFloat f => match float_value f with FFin n => if n <=? 0 then bad else Ok f | _ => bad end
  | _ => bad
  end.

Definition layer_index (v : pyval) : res Z :=
  match v with
  | PInt z => if z <? 0 then Err (ValueError "LoRA layers must be distinct nonnegative indices or None") else Ok z
  | _ => Err (ValueError "LoRA layers must be distinct nonnegative indices or None")
  end.

(** [__post_init__]; a tuple of layers is a [PList]. *)
Definition new_lora (rank alpha layers : pyval) : res DistributedLoRAConfig :=
  let bad := ValueError "LoRA layers must be distinct nonnegative indices or None" in
  match rank with
  | PInt r =>
      raise_when negb (bool_decide (r ∈ SUPPORTED_LORA_RANKS)) with_exn ValueError "LoRA rank must be one of the supported";
      a <-? check_alpha alpha;
      ls <-? match layers with
             | PNone => Ok None
             | PList [] => Err bad
             | PList l =>
                 indices <-? traverse layer_index l;
                 raise_when negb (distinct indices) with_exn bad;
                 Ok (Some (sorted_layers indices))
             | _ => Err bad
             end;
      Ok {| rank := r; alpha := a; layers := ls |}
  | _ => Err (ValueError "LoRA rank must be one of the supported")
  end.

Definition layer_range (n : Z) : list Z := map Z.of_nat (seq 0 (Z.to_nat n)).

Definition selected_layers (c : DistributedLoRAConfig) (num_layers : pyval) : res (list Z) :=
  match num_layers with
  | PInt n =>
      raise_when n <? 1 with_exn ValueError "backbone layer count must be a positive integer";
      let ls := default (layer_range n) (layers c) in
      raise_when n <=? List.last ls (-1) with_exn ValueError "LoRA layer index is outside the backbone";
      Ok ls
  | _ => Err (ValueError "backbone layer count must be a positive integer")
  end.

Definition positive_int (v : pyval) : bool := match v with PInt z => 1 <=? z | _ => false end.

Definition parameter_count (c : DistributedLoRAConfig) (hidden q_rank num_layers : pyval) : res Z :=
  match hidden, q_rank with
  | PInt h, PInt q =>
      raise_when (h <? 1) || (q <? 1) with_exn ValueError "query projection dimensions must be positive integers";
      ls <-? selected_layers c num_layers;
      Ok (Z.of_nat (length ls) * rank c * (h + q))
  | _, _ => Err (ValueError "query projection dimensions must be positive integers")
  end.

Definition lora_to_dict (c : DistributedLoRAConfig) : pydict :=
  [("rank", PInt (rank c)); ("alpha", PFloat (alpha c)); ("layers", opt_value ints (layers c))].

Definition lora_from_dict (v : pyval) : res DistributedLoRAConfig :=
  match v with
  | PDict d =>
      raise_when negb (same_keys d ["rank"; "alpha"; "layers"])
        with_exn ValueError "LoRA configuration requires exactly rank, alpha and layers";
      let ls := get_none "layers" d in
      raise_when negb (is_none ls) && match ls with PList _ => false | _ => true end
        with_exn ValueError "serialized LoRA layers must be a list or null";
      new_lora (get_none "rank" d) (get_none "alpha" d) ls
  | _ => Err (ValueError "LoRA configuration requires exactly rank, alpha and layers")
  end.
End Config.

(** ** Sorted layers *)

(** Strictly increasing nonnegative indices, at least one. *)
Definition layer_set (ls : list Z) : Prop :=
  ls <> [] /\ StronglySorted Z.lt ls /\ Forall (fun l => 0 <= l) ls.

Lemma sorted_layers_sorted l : NoDup l -> StronglySorted Z.lt (sorted_layers l).
Proof.
  intros Hnd. unfold sorted_layers.
  assert (StronglySorted (fun x y => (x <=? y) = true) (sorted_by Z.leb l)) as Hs by (apply sorted_by_sorted; intros; lia).
  assert (NoDup (sorted_by Z.leb l)) as Hn by (by rewrite sorted_by_perm).
  induction Hs as [|x k Hs IH Hx]; [constructor|]. apply NoDup_cons in Hn as [Hnx Hn]. constructor; [by apply IH|].
  rewrite Forall_forall in Hx |- *. intros y Hy. specialize (Hx y Hy). cbn in Hx. assert (x <> y) by (intros ->; done). lia.
Qed.

Lemma sorted_layers_set l : l <> [] -> NoDup l -> Forall (fun x => 0 <= x) l -> layer_set (sorted_layers l).
Proof.
  intros Hne Hnd Hpos. split; [|split].
  - intros E. apply Hne, Permutation_nil. rewrite <- E. apply sorted_by_perm.
  - by apply sorted_layers_sorted.
  - unfold sorted_layers. by rewrite sorted_by_perm.
Qed.

Lemma sorted_layers_id l : StronglySorted Z.lt l -> sorted_layers l = l.
Proof.
  intros Hs. apply sorted_by_id. induction Hs as [|x l Hs IH Hx]; constructor; [done|].
  eapply Forall_impl; [exact Hx|]. intros y Hxy. cbn in *. lia.
Qed.

Lemma layer_set_nodup ls : layer_set ls -> NoDup ls.
Proof.
  intros (_ & Hs & _). induction Hs as [|x l Hs IH Hx]; [constructor|]. constructor; [|done].
  rewrite Forall_forall in Hx. intros Hin. specialize (Hx x Hin). lia.
Qed.

Lemma digits_value_nonneg acc s : 0 <= acc -> 0 <= digits_value acc s.
Proof. revert acc. induction s as [|a s IH]; intros acc Ha; [done|]. simpl. apply IH. lia. Qed.

Lemma layer_index_inv l r : traverse layer_index l = Ok r -> l = map PInt r /\ Forall (fun x => 0 <= x) r.
Proof.
  revert r. induction l as [|v l IH]; intros r; simpl; [by intros [= <-]|].
  destruct v; try done. simpl. destruct (Z.ltb_spec z 0); [done|]. destruct (traverse layer_index l) as [rs|]; [|done].
  intros [= <-]. destruct (IH rs eq_refl) as [-> Hf]. by split; [|constructor].
Qed.

Lemma layer_index_ints l : Forall (fun x => 0 <= x) l -> traverse layer_index (map PInt l) = Ok l.
Proof.
  induction 1 as [|x l Hx _ IH]; [done|]. simpl. destruct (Z.ltb_spec x 0); [lia|]. by rewrite IH.
Qed.

(** ** The property *)

Section Results.
Context (float_repr : Z -> string).

Definition config_ok (c : DistributedLoRAConfig) : Prop :=
  rank c ∈ SUPPORTED_LORA_RANKS /\ (exists n, float_value (alpha c) = FFin n /\ 0 < n)
  /\ match layers c with None => True | Some ls => layer_set ls end.

Lemma check_alpha_inv v a : check_alpha float_repr v = Ok a -> exists n, float_value a = FFin n /\ 0 < n.
Proof.
  unfold check_alpha. destruct v; try done.
  - destruct (2 ^ 1024 <=? _); [done|]. destruct (Z.leb_spec z 0); [done|]. intros [= <-]. eexists. split; [done|].
    apply Z.mul_pos_pos; [|by apply Z.pow_pos_nonneg; lia]. unfold round_float.
    destruct (Z.ltb_spec (Z.abs z) (2 ^ 53)); [done|]. rewrite Z.sgn_pos, Z.mul_1_l by done.
    apply Z.mul_pos_pos; [|apply Z.pow_pos_nonneg; [lia|]; pose proof (Z.log2_le_mono (2 ^ 53) (Z.abs z) ltac:(lia)) as Hl;
      rewrite Z.log2_pow2 in Hl by lia; lia].
    assert (0 < Z.abs z / 2 ^ (Z.log2 (Z.abs z) - 52)) as Hq; [|by destruct (_ || _); lia].
    pose proof (Z.log2_le_mono (2 ^ 53) (Z.abs z) ltac:(lia)) as Hl. rewrite Z.log2_pow2 in Hl by lia.
    apply Z.div_str_pos. split; [apply Z.pow_pos_nonneg; lia|].
    transitivity (2 ^ Z.log2 (Z.abs z)); [apply Z.pow_le_mono_r; lia|]. apply Z.log2_spec. lia.
  - destruct (float_value f) eqn:E; try done. destruct (Z.leb_spec units 0); [done|]. intros [= <-]. eauto.
Qed.

Lemma new_lora_inv r a ls c : new_lora float_repr r a ls = Ok c -> config_ok c.
Proof.
  unfold new_lora. intros H. destruct r as [| |r| | | |]; try done. destruct (negb _) eqn:Er; [done|].
  destruct (check_alpha float_repr a) as [f|] eqn:Ea; [|done]. apply check_alpha_inv in Ea.
  apply negb_false_iff, bool_decide_eq_true in Er.
  destruct ls as [| | | | |[|v l]|]; try done; [by injection H as <-|].
  destruct (traverse layer_index (v :: l)) as [idx|] eqn:Ei; [|done]. destruct (negb (distinct idx)) eqn:Ed; [done|].
  injection H as <-. split; [done|]. split; [done|]. cbn [layers]. apply layer_index_inv in Ei as [El Hpos].
  apply negb_false_iff in Ed. unfold distinct in Ed. apply bool_decide_eq_true in Ed.
  apply sorted_layers_set; [|done|done]. intros ->. done.
Qed.

Lemma new_lora_again c : config_ok c -> new_lora float_repr (PInt (rank c)) (PFloat (alpha c)) (opt_value ints (layers c)) = Ok c.
Proof.
  intros (Hr & (n & Ha & Hn) & Hl). unfold new_lora. rewrite bool_decide_eq_true_2 by done. cbn [negb check_alpha].
  rewrite Ha. replace (n <=? 0) with false by (symmetry; apply Z.leb_gt; done). destruct c as [r a [ls|]]; cbn in *; [|done].
  pose proof (layer_set_nodup ls Hl) as Hnd. destruct Hl as (Hne & Hs & Hpos). pose proof (layer_index_ints ls Hpos) as Ht.
  destruct ls as [|x ls]; [done|]. cbn [opt_value ints map] in *. rewrite Ht. unfold distinct.
  rewrite bool_decide_eq_true_2 by done. cbn [negb]. by rewrite sorted_layers_id.
Qed.

Lemma layer_range_set n : 1 <= n -> layer_set (layer_range n).
Proof.
  intros Hn. unfold layer_range. split; [|split].
  - destruct (Z.to_nat n) eqn:E; [lia|done].
  - generalize 0%nat. induction (Z.to_nat n) as [|k IH]; intros a; cbn [seq map]; [constructor|]. constructor; [apply IH|].
    apply Forall_fmap, Forall_forall. intros i Hi%elem_of_seq. cbn. lia.
  - apply Forall_fmap, Forall_forall. intros i _. cbn. lia.
Qed.

Lemma sorted_below_last ls n : StronglySorted Z.lt ls -> List.last ls (-1) < n -> Forall (fun l => l < n) ls.
Proof.
  intros Hs. induction Hs as [|x l Hs IH Hx]; [constructor|]. destruct l as [|y l]; [by repeat constructor|].
  intros Hlast. specialize (IH Hlast). constructor; [|done]. apply Forall_cons in IH as [? _], Hx as [? _]. lia.
Qed.

Lemma selected_layers_inv c num_layers ls : config_ok c -> selected_layers c num_layers = Ok ls ->
  exists n, num_layers = PInt n /\ layer_set ls /\ Forall (fun l => l < n) ls /\ (layers c = None -> ls = layer_range n).
Proof.
  intros (_ & _ & Hl) H. unfold selected_layers in H. destruct num_layers as [| |n| | | |]; try done. exists n.
  destruct (Z.ltb_spec n 1); [done|]. destruct (Z.leb_spec n (List.last (default (layer_range n) (layers c)) (-1))) as [|Hlast]; [done|].
  injection H as <-. assert (layer_set (default (layer_range n) (layers c))) as Hset
    by (destruct (layers c); [done|by apply layer_range_set]).
  split; [done|]. split; [done|]. split; [|by intros ->]. apply sorted_below_last; [|done]. by destruct Hset as (_ & ? & _).
Qed.

Lemma parse_lora_inv v ls : parse_lora_layers v = Ok (Some ls) -> layer_set ls.
Proof.
  unfold parse_lora_layers. destruct v; try done. intros H. case_bool_decide; [done|].
  destruct (bool_decide (map strip _ = [])) eqn:Hne; [done|]. cbn [orb] in H.
  destruct (existsb _ _); [done|]. destruct (traverse int_of_digits _) as [idx|] eqn:Et; [|done].
  destruct (negb (distinct idx)) eqn:Ed; [done|]. injection H as <-. apply negb_false_iff in Ed. apply bool_decide_eq_true in Ed.
  apply bool_decide_eq_false in Hne.
  assert (idx <> [] /\ Forall (fun x => 0 <= x) idx) as [Hi Hp]; [|by apply sorted_layers_set].
  clear Ed. revert idx Et Hne. generalize (map strip (py_split "," s)). induction l as [|p l IH]; intros idx; [done|]. simpl.
  unfold int_of_digits at 1. destruct (4300 <? _)%nat; [done|]. destruct (traverse int_of_digits l) as [rs|] eqn:E; [|done].
  intros [= <-] _. split; [done|]. constructor; [by apply digits_value_nonneg|].
  destruct l as [|q l]; [injection E as <-; constructor|]. by apply IH.
Qed.

(** A LoRA configuration that the constructor accepts has a supported rank,
    a positive finite alpha and a strictly increasing set of layers; it survives
    its dictionary; the layers it selects lie inside the backbone (all of them
    when none are named) and the parameters are counted per selected layer; and
    what [parse_lora_layers] reads is a set of layers the constructor accepts. *)
Theorem lora_config_wellformed r a ls c : new_lora float_repr r a ls = Ok c ->
  config_ok c /\ lora_from_dict float_repr (PDict (lora_to_dict c)) = Ok c
  /\ (forall num_layers selected, selected_layers c num_layers = Ok selected ->
        exists n, num_layers = PInt n /\ layer_set selected /\ Forall (fun l => l < n) selected
          /\ (layers c = None -> selected = layer_range n)
          /\ forall hidden q, 1 <= hidden -> 1 <= q ->
               parameter_count c (PInt hidden) (PInt q) num_layers = Ok (Z.of_nat (length selected) * rank c * (hidden + q)))
  /\ (forall text parsed, parse_lora_layers text = Ok (Some parsed) ->
        layer_set parsed /\ new_lora float_repr r a (ints parsed) = Ok {| rank := rank c; alpha := alpha c; layers := Some parsed |}).
Proof.
  intros H. pose proof (new_lora_inv _ _ _ _ H) as Hok. split; [done|]. split; [|split].
  - unfold lora_from_dict, lora_to_dict. replace (same_keys _ _) with true by (symmetry; vm_compute; reflexivity).
    cbn [negb]. set (d := [_; _; _]).
    change (get_none "layers" d) with (opt_value ints (layers c)). change (get_none "rank" d) with (PInt (rank c)).
    change (get_none "alpha" d) with (PFloat (alpha c)).
    replace (_ && _) with false by (by destruct (layers c)). by apply new_lora_again.
  - intros num_layers selected Hs. destruct (selected_layers_inv c num_layers selected Hok Hs) as (n & -> & Hset & Hin & Hall).
    exists n. split; [done|]. split; [done|]. split; [done|]. split; [done|]. intros hidden q Hh Hq. unfold parameter_count.
    replace ((hidden <? 1) || (q <? 1)) with false by lia. by rewrite Hs.
  - intros text parsed Hp. pose proof (parse_lora_inv _ _ Hp) as Hset. split; [done|].
    unfold new_lora in *. destruct r as [| |r| | | |]; try done. destruct (negb _); [done|].
    destruct (check_alpha float_repr a); [|done]. pose proof (layer_set_nodup parsed Hset) as Hnd.
    destruct Hset as (Hne & Hs & Hpos). pose proof (layer_index_ints parsed Hpos) as Ht. destruct parsed as [|x parsed]; [done|].
    cbn [ints map] in *. rewrite Ht. unfold distinct. rewrite bool_decide_eq_true_2 by done. cbn [negb]. rewrite sorted_layers_id by done.
    destruct ls as [| | | | |[|v l]|]; try done; [by injection H as <-|].
    destruct (traverse layer_index (v :: l)); [|done]. destruct (negb _); [done|]. by injection H as <-.
Qed.

End Results.

Definition witness_lora : DistributedLoRAConfig :=
  {| rank := 16; alpha := PyFloat "8.0" (FFin (8 * float_unit)); layers := Some [0; 3; 5] |}.

Lemma lora_config_wellformed_witness :
  new_lora (fun _ => "8.0") (PInt 16) (PInt 8) (ints [5; 0; 3]) = Ok witness_lora
  /\ lora_from_dict (fun _ => "8.0") (PDict (lora_to_dict witness_lora)) = Ok witness_lora
  /\ parameter_count witness_lora (PInt 100) (PInt 28) (PInt 6) = Ok 6144
  /\ parse_lora_layers (PStr " 2, 1 ") = Ok (Some [1; 2]) /\ layer_set [1; 2].
Proof.
  assert (new_lora (fun _ => "8.0") (PInt 16) (PInt 8) (ints [5; 0; 3]) = Ok witness_lora) as H by (vm_compute; reflexivity).
  assert (parse_lora_layers (PStr " 2, 1 ") = Ok (Some [1; 2])) as Hp by (vm_compute; reflexivity).
  destruct (lora_config_wellformed (fun _ => "8.0") _ _ _ _ H) as (_ & Hagain & _ & Hparse).
  split; [exact H|]. split; [exact Hagain|]. split; [vm_compute; reflexivity|]. split; [exact Hp|].
  apply (Hparse _ _ Hp).
Defined.
