(* ===== verification/GenerationContract.v ===== *)
(** * Training evidence of a generation ([rollout_manager/generation_training.py])
    and the shell completion grammar ([rollout_manager/model_completion.py])

    A [TrainingGenerationContract] binds a leased policy to the capability
    receipt of a serving route; [validate] accepts a completion only with
    evidence for exactly this request, response and policy.  [shell_completion]
    turns the text of an action into a message whose tool calls may be
    executed.  Texts are Latin-1; [json.loads] is a parameter. *)

From stdpp Require Import pretty.
From S2P Require Import Prelude PyValue Training GenerationFailure LoraConfig.
Local Open Scope Z_scope.
Local Open Scope py_scope.

(** [d.get(k, default)] *)
Definition get_or (k : string) (default_ : pyval) (d : pydict) : pyval := default default_ (dict_get k d).

(** [type(v) is int and v == n]. *)
Definition is_int_value (n : Z) (v : pyval) : bool := match v with PInt z => z =? n | _ => false end.

Section Contract.
Context (float_repr : Z -> string) (sha256_hex : string -> string).
#[local] Notation evidence_digest := (evidence_digest sha256_hex).

(** ** [TrainingGenerationContract] *)

Definition REQUIRED : list string :=
  ["token_ids"; "sampled_token_logprobs"; "loaded_policy_identity"; "request_response_binding"; "full_categorical"].

Record contract := { leased : PolicyRef; capabilities : pydict }.

(** A policy argument: a record, or any other value. *)
Inductive policy_argument := Leased (p : PolicyRef) | Value (v : pyval).

Definition identity_digest (p : PolicyRef) (name : string) : bool :=
  match dict_get name (identities p) with Some (PStr s) => sha256_text s | _ => false end.

Definition new_contract (policy : policy_argument) (capabilities : pyval) : res contract :=
  policy <-? match policy with
    | Leased p => Ok p
    | Value (PDict d) => policy_from_dict float_repr (PDict d)
    | Value _ => Err (ValueError "Training requires an explicit leased PolicyRef")
    end;
  match capabilities with
  | PDict c =>
      raise_when negb (is_int_value 1 (get_none "schema_version" c)) with_exn ValueError "Training requires a versioned serving capability receipt";
      raise_when existsb (fun name => negb (is_true (get_none name c))) REQUIRED with_exn
        ValueError "Serving route lacks exact tokens/logprobs/policy/binding capabilities";
      raise_when negb (is_str (get_none "logprob_convention" c) "sampled_distribution") with_exn
        ValueError "Behavior logprobs must describe the sampled distribution";
      raise_when negb (py_eqb (get_none "policy" c) (policy_to_dict float_repr policy)) with_exn
        ValueError "Serving capability receipt differs from the leased policy";
      raise_when negb (identity_digest policy "tokenizer_sha256") with_exn ValueError "Training policy requires exact tokenizer_sha256";
      raise_when negb (identity_digest policy "chat_template_sha256") with_exn ValueError "Training policy requires exact chat_template_sha256";
      Ok {| leased := policy; capabilities := c |}
  | _ => Err (ValueError "Training requires a versioned serving capability receipt")
  end.

Definition check_payload (c : contract) (payload : pyval) : res unit :=
  match payload with
  | PDict d =>
      raise_when negb (py_eqb (get_none "temperature" d) (PFloat (temperature (leased c)))
                       && py_eqb (get_or "top_p" (PInt 1) d) (one float_repr) && py_eqb (get_or "top_k" (PInt 0) d) (PInt 0)) with_exn
        ValueError "Request sampling differs from the leased full categorical policy";
      raise_when negb (is_false (get_or "stream" (PBool false) d) && py_eqb (get_or "n" (PInt 1) d) (PInt 1)) with_exn
        ValueError "Training requires one complete nonstreaming choice";
      raise_when negb (int_at_least 1 (get_none "max_tokens" d)) with_exn ValueError "Training requires an explicit positive token budget";
      _ <-? evidence_digest payload; Ok tt
  | _ => Err (ValueError "Training generation payload must be a mapping")
  end.

(** The exceptions that [validate] turns into its own. *)
Definition trace_error (e : exn) : exn :=
  match e with
  | KeyError _ | TypeError _ | ValueError _ => ValueError "Invalid raw token/logprob training evidence"
  | _ => e
  end.

Definition build_trace (turn : pyval) (request_id : pyval) (evidence : pydict) (policy : PolicyRef) (finish : pyval) : res TurnTrace :=
  context <-? dict_item "context_token_ids" evidence;
  actions <-? dict_item "action_token_ids" evidence;
  probabilities <-? dict_item "behavior_log_probs" evidence;
  stop <-? dict_item "stop_token_count" evidence;
  truncation <-? dict_item "context_truncation" evidence;
  new_turn float_repr turn request_id context actions probabilities policy finish stop truncation.

Definition without (k : string) (d : pydict) : pydict := filter (fun kv => bool_decide (kv.1 = k) = false) d.

Definition validate (c : contract) (payload completion request_id turn : pyval) : res TurnTrace :=
  _ <-? check_payload c payload;
  match payload, completion with
  | PDict pd, PDict cd =>
      match get_none "training_evidence" cd with
      | PDict evidence =>
          raise_when negb (is_int_value 1 (get_none "schema_version" evidence)) with_exn
            ValueError "Serving completion has no training_evidence; text is insufficient";
          raise_when negb (py_eqb (get_none "request_id" evidence) request_id) with_exn ValueError "Training evidence request identity differs";
          request_digest <-? evidence_digest payload;
          raise_when negb (is_str (get_none "request_payload_sha256" evidence) request_digest) with_exn
            ValueError "Training evidence does not bind the dispatched request";
          response_digest <-? evidence_digest (PDict (without "training_evidence" cd));
          raise_when negb (is_str (get_none "response_sha256" evidence) response_digest) with_exn
            ValueError "Training evidence does not bind the raw completion";
          raise_when negb (is_str (get_none "logprob_convention" evidence) "sampled_distribution") with_exn
            ValueError "Serving evidence uses an unsupported logprob convention";
          actual <-? policy_from_dict float_repr (get_or "policy" (PDict []) evidence);
          raise_when negb (policy_eqb actual (leased c)) with_exn ValueError "Actual loaded policy differs from the group lease";
          raise_when negb (py_eqb (get_none "model" cd) (get_none "model" pd))
                     || negb (match get_none "model" pd with PStr _ => true | _ => false end) with_exn
            ValueError "Raw completion model differs from the request";
          match get_none "choices" cd with
          | PList [PDict choice] =>
              let finish := get_none "finish_reason" evidence in
              raise_when negb (py_eqb (get_none "finish_reason" choice) (if is_str finish "eos" then PStr "stop" else finish)) with_exn
                ValueError "Training finish reason differs from the raw choice";
              raise_when match get_none "action_token_ids" evidence, get_none "max_tokens" pd with
                         | PList l, PInt m => m <? Z.of_nat (length l)
                         | _, _ => true
                         end with_exn ValueError "Raw action tokens exceed the dispatched generation budget";
              match build_trace turn request_id evidence actual finish with
              | Ok t => Ok t
              | Err e => Err (trace_error e)
              end
          | _ => Err (ValueError "Training evidence requires one raw completion choice")
          end
      | _ => Err (ValueError "Serving completion has no training_evidence; text is insufficient")
      end
  | _, _ => Err (ValueError "Training completion must contain raw serving evidence")
  end.
End Contract.

(** ** [shell_completion] *)

(** [s.partition(sub)] when [sub] occurs: what precedes and follows it first. *)
Fixpoint cut (sub s : string) : option (string * string) :=
  if String.prefix sub s then Some ("", String.substring (String.length sub) (String.length s - String.length sub) s)
  else match s with
       | EmptyString => None
       | String a s => match cut sub s with Some (b, r) => Some (String a b, r) | None => None end
       end.

Definition OPEN : string := "<tool_call>".
Definition CLOSE : string := "</tool_call>".

(** [_TOOL_CALL.finditer(text)] and [_TOOL_CALL.sub("", text)]: the bodies of
    the envelopes and the text around them.  Every envelope is longer than one
    character, so the length of the text is fuel enough. *)
Fixpoint envelopes (fuel : nat) (text : string) : list string * string :=
  match fuel with
  | O => ([], text)
  | S fuel =>
      match cut OPEN text with
      | None => ([], text)
      | Some (before, rest) =>
          match cut CLOSE rest with
          | None => ([], text)
          | Some (body, rest) => let '(bodies, around) := envelopes fuel rest in (strip body :: bodies, before +:+ around)
          end
      end
  end.

(** [s.encode()]: UTF-8 of Latin-1 text. *)
Definition utf8_char (a : ascii) : string :=
  let n := nat_of_ascii a in
  if (n <? 128)%nat then String a "" else String (ascii_of_nat (192 + n / 64)) (String (ascii_of_nat (128 + n mod 64)) "").
Definition utf8 (s : string) : string := String.concat "" (map utf8_char (String.list_ascii_of_string s)).

Definition FORMAT_ERROR_CODES : list string :=
  ["unexpected_thinking"; "incomplete_tool_envelope"; "invalid_tool_json"; "unsupported_tool_schema"; "invalid_shell_arguments"; "invalid_shell_command"].

(** A message with its finish reason, a [ModelCompletionFormatError] with its
    code, or another exception. *)
Inductive shell_result := Message (message : pydict) (finish : string) | FormatError (text code : string) | Raised (e : exn).

Definition error_text (e : exn) : string :=
  match e with
  | ValueError m | TypeError m | KeyError m | AttributeError m | RuntimeError m | TimeoutError m | ConflictError m
  | CapacityError m | GoneError m | OSError m | EOFError m | OverflowError m | IndexError m | AssertionError m => m
  end.

Section Shell.
(** [json.loads] with a [parse_constant] that raises; an object keeps its pairs
    in order, repeated keys included, for [object_pairs_hook]. *)
Context (sha256_hex : string -> string) (json_loads : string -> res pyval).

Definition strict_object (raw : string) : res pydict :=
  v <-? json_loads raw;
  raise_when negb (distinct_keys v) with_exn ValueError "duplicate generated JSON key";
  match v with PDict d => Ok d | _ => Err (ValueError "generated tool call must be a JSON object") end.

Definition NUL : ascii := ascii_of_nat 0.
Definition command_ok (command : string) : bool :=
  negb (bool_decide (strip command = "")) && negb (contains (String NUL "") command) && (Z.of_nat (String.length (utf8 command)) <=? 8192).

(** [json.dumps({"cmd": command}, ensure_ascii=True, allow_nan=False)], with the
    default separators. *)
Definition arguments_text (command : string) : string := "{" +:+ json_string "cmd" +:+ ": " +:+ json_string command +:+ "}".

Definition tool_call (request_id suffix command : string) : pyval :=
  PDict [("id", PStr ("call_" +:+ request_id +:+ suffix)); ("type", PStr "function");
         ("function", PDict [("name", PStr "shell"); ("arguments", PStr (arguments_text command))])].

(** One envelope: its command, or the error. *)
Definition parse_call (body : string) : string + shell_result :=
  match strict_object body with
  | Err (ValueError m) => inr (FormatError m "invalid_tool_json")
  | Err e => inr (Raised e)
  | Ok call =>
      if negb (same_keys call ["name"; "arguments"] && is_str (get_none "name" call) "shell")
      then inr (FormatError "only the Qwen shell tool is supported" "unsupported_tool_schema")
      else match get_none "arguments" call with
      | PDict arguments =>
          if negb (same_keys arguments ["cmd"]) then inr (FormatError "shell arguments must contain only cmd" "invalid_shell_arguments")
          else match get_none "cmd" arguments with
          | PStr command =>
              if command_ok command then inl command
              else inr (FormatError "generated shell command is invalid or exceeds its byte budget" "invalid_shell_command")
          | _ => inr (FormatError "generated shell command is invalid or exceeds its byte budget" "invalid_shell_command")
          end
      | _ => inr (FormatError "shell arguments must contain only cmd" "invalid_shell_arguments")
      end
  end.

Fixpoint parse_calls (request_id : string) (single : bool) (index : nat) (bodies : list string) : list pyval + shell_result :=
  match bodies with
  | [] => inl []
  | body :: bodies =>
      match parse_call body with
      | inr e => inr e
      | inl command =>
          match parse_calls request_id single (S index) bodies with
          | inr e => inr e
          | inl calls => inl (tool_call request_id (if single then "" else "_" +:+ pretty index) command :: calls)
          end
      end
  end.

Definition shell_completion (text request_id : string) (truncated : bool) : shell_result :=
  if truncated then Message [("role", PStr "assistant"); ("content", PStr text)] "length"
  else if contains "<think>" text || contains "</think>" text
  then FormatError "this controller requires thinking-disabled completions" "unexpected_thinking"
  else
    let '(bodies, around) := envelopes (String.length text) text in
    let content := strip around in
    if contains OPEN content || contains CLOSE content
    then FormatError "expected complete serial shell calls" "incomplete_tool_envelope"
    else
      let message := [("role", PStr "assistant"); ("content", PStr content)] in
      match bodies with
      | [] => Message message "stop"
      | _ => match parse_calls request_id (length bodies =? 1)%nat 0 bodies with
             | inl calls => Message (message ++ [("tool_calls", PList calls)]) "tool_calls"
             | inr e => e
             end
      end.

(** ** The status of a completion that could not be parsed *)

Definition invalid_tool_status (text request_id code : string) : pydict :=
  [("schema_version", PInt 1); ("outcome", PStr "invalid_tool"); ("request_id", PStr request_id); ("error_code", PStr code);
   ("decoded_action_text_sha256", PStr (sha256_hex (utf8 text))); ("tools_executable", PBool false)].

Definition STATUS_KEYS : list string :=
  ["schema_version"; "outcome"; "request_id"; "error_code"; "decoded_action_text_sha256"; "tools_executable"].

Definition validate_model_completion_status (completion : pydict) (request_id : string) : res (option pydict) :=
  match get_none "model_completion_status" completion with
  | PNone => Ok None
  | PDict status =>
      raise_when negb (same_keys status STATUS_KEYS && is_int_value 1 (get_none "schema_version" status)
                       && is_str (get_none "outcome" status) "invalid_tool" && is_str (get_none "request_id" status) request_id
                       && request_id_text request_id) with_exn ValueError "invalid completed-model format status";
      code <-? member (get_none "error_code" status) FORMAT_ERROR_CODES;
      raise_when bool_decide (code = None) || negb (is_false (get_none "tools_executable" status)) with_exn
        ValueError "invalid completed-model format status";
      match get_none "choices" completion with
      | PList [PDict choice] =>
          match get_none "message" choice with
          | PDict message =>
              raise_when negb (same_keys message ["role"; "content"] && is_str (get_none "role" message) "assistant"
                               && match get_none "content" message with
                                  | PStr content => is_str (get_none "finish_reason" choice) "stop"
                                      && is_str (get_none "decoded_action_text_sha256" status) (sha256_hex (utf8 content))
                                  | _ => false
                                  end) with_exn ValueError "invalid-tool outcome must preserve raw text and forbid tool execution";
              Ok (Some status)
          | _ => Err (ValueError "invalid-tool outcome must preserve raw text and forbid tool execution")
          end
      | _ => Err (ValueError "invalid-tool outcome requires one completed choice")
      end
  | _ => Err (ValueError "invalid completed-model format status")
  end.
End Shell.
