(* ===== verification/GenerationContractResults.v ===== *)
(** * What training evidence and shell completions guarantee *)

From stdpp Require Import pretty.
From S2P Require Import Prelude PyValue Training TrainingProofs GenerationFailure LoraConfig GenerationContract.
Local Open Scope Z_scope.
Local Open Scope py_scope.

(** ** Evidence *)

Section Evidence.
Context (float_repr : Z -> string) (sha256_hex : string -> string).

Lemma evidence_digest_ok v t : evidence_digest sha256_hex v = Ok t -> t = sha256_hex (json_text v).
Proof. unfold evidence_digest, json_dumps. destruct (json_finite v); [|done]. by intros [= <-]. Qed.

(** What an accepted completion shows, before the trace is built. *)
Record bound (c : contract) (pd cd evidence : pydict) (request_id : pyval) : Prop := {
  b_evidence : get_none "training_evidence" cd = PDict evidence;
  b_request : py_eqb (get_none "request_id" evidence) request_id = true;
  b_payload : get_none "request_payload_sha256" evidence = PStr (sha256_hex (json_text (PDict pd)));
  b_response : get_none "response_sha256" evidence = PStr (sha256_hex (json_text (PDict (without "training_evidence" cd))));
  b_convention : get_none "logprob_convention" evidence = PStr "sampled_distribution" }.

Lemma validate_ok c payload completion request_id turn t : validate float_repr sha256_hex c payload completion request_id turn = Ok t ->
  exists pd cd evidence policy l m, payload = PDict pd /\ completion = PDict cd /\ bound c pd cd evidence request_id
    /\ policy_eqb policy (leased c) = true /\ get_none "action_token_ids" evidence = PList l /\ get_none "max_tokens" pd = PInt m
    /\ Z.of_nat (length l) <= m
    /\ build_trace float_repr turn request_id evidence policy (get_none "finish_reason" evidence) = Ok t.
Proof.
  unfold validate. intros Hv. destruct (check_payload _ _ c payload) as [[]|] eqn:Ep; [|done]. cbn [mbind res_bind] in Hv.
  destruct payload as [| | | | | |pd]; try done. destruct completion as [| | | | | |cd]; try done.
  destruct (get_none "training_evidence" cd) as [| | | | | |evidence] eqn:Ee; try done.
  res_inv Hv. rename value1 into policy. destruct (get_none "choices" cd) as [| | | | |choices|] eqn:Ec; try done.
  destruct choices as [|[| | | | | |choice] [|]]; try done. destruct (negb (py_eqb (get_none "finish_reason" choice) _)) eqn:Ef; [done|].
  destruct (get_none "action_token_ids" evidence) as [| | | | |l|] eqn:El; try done. destruct (get_none "max_tokens" pd) as [| |m| | | |] eqn:Em; try done.
  destruct (Z.ltb_spec m (Z.of_nat (length l))); [done|].
  destruct (build_trace _ _ _ _ _ _) as [t'|] eqn:Et; [|done]. injection Hv as <-.
  apply negb_false_iff in G0, G1, G2, G3, G4. apply is_str_inv in G1, G2, G3. apply evidence_digest_ok in R, R0.
  exists pd, cd, evidence, policy, l, m. repeat (split; [done|]). split; [|done]. constructor; congruence.
Qed.

Lemma build_trace_ok turn request_id evidence policy finish t : build_trace float_repr turn request_id evidence policy finish = Ok t ->
  request_id = PStr (Training.request_id t) /\ turn_policy t = policy
  /\ tokens "context_token_ids" (get_none "context_token_ids" evidence) = Ok (context_token_ids t)
  /\ tokens "action_token_ids" (get_none "action_token_ids" evidence) = Ok (action_token_ids t)
  /\ (exists vs, iterate (get_none "behavior_log_probs" evidence) = Ok vs
        /\ traverse (finite float_repr "behavior log probability") vs = Ok (behavior_log_probs t))
  /\ length (behavior_log_probs t) = length (action_token_ids t) /\ Forall (fun f => units f <= 0) (behavior_log_probs t).
Proof.
  assert (forall k v, dict_item k evidence = Ok v -> get_none k evidence = v) as Hget.
  { intros k v Hk%dict_item_inv. unfold get_none. by rewrite Hk. }
  unfold build_trace. intros Hb. res_inv Hb. apply Hget in R, R0, R1, R2, R3. unfold new_turn in Hb. res_inv Hb.
  destruct value10 as [reason|]; [|done]. res_inv Hb. subst t. cbn. apply nonempty_inv in R5 as [-> _]. rewrite R, R0, R1.
  apply orb_false_iff in G as [G1%negb_false_iff%Nat.eqb_eq G2]. split; [done|]. split; [done|]. split; [done|]. split; [done|].
  split; [by eexists|]. split; [done|]. apply Forall_forall. intros f Hf%list_elem_of_In. destruct (Z.le_gt_cases (units f) 0); [done|].
  assert (existsb (fun f => 0 <? units f) value9 = true) as Hx; [|congruence]. apply existsb_exists. exists f. split; [done|]. by apply Z.ltb_lt.
Qed.
End Evidence.

Definition evidence_of (completion : pyval) : pyval := match completion with PDict cd => get_none "training_evidence" cd | _ => PNone end.
Definition max_tokens_of (payload : pyval) : pyval := match payload with PDict d => get_none "max_tokens" d | _ => PNone end.

(** C34. A trace that a contract builds has the request's identity and the
    leased policy, no more actions than the request allows, and one nonpositive
    log probability per action.  The same evidence is never accepted for
    another request, and for another payload or completion only if their
    canonical texts have the same SHA-256 digest; it always gives the same
    tokens and probabilities. *)
Theorem evidence_binds float_repr sha256_hex p caps c payload completion request turn t :
  new_contract float_repr (Leased p) caps = Ok c ->
  validate float_repr sha256_hex c payload completion (PStr request) turn = Ok t ->
  request_id t = request /\ policy_eqb (turn_policy t) p = true
  /\ (exists m, max_tokens_of payload = PInt m /\ Z.of_nat (length (action_token_ids t)) <= m)
  /\ length (behavior_log_probs t) = length (action_token_ids t) /\ Forall (fun f => units f <= 0) (behavior_log_probs t)
  /\ forall c' payload' completion' request' turn' t',
       validate float_repr sha256_hex c' payload' completion' (PStr request') turn' = Ok t' -> evidence_of completion' = evidence_of completion ->
       request' = request /\ sha256_hex (json_text payload') = sha256_hex (json_text payload)
       /\ (forall cd cd', completion = PDict cd -> completion' = PDict cd' ->
            sha256_hex (json_text (PDict (without "training_evidence" cd'))) = sha256_hex (json_text (PDict (without "training_evidence" cd))))
       /\ context_token_ids t' = context_token_ids t /\ action_token_ids t' = action_token_ids t /\ behavior_log_probs t' = behavior_log_probs t.
Proof.
  intros Hc Hv. assert (leased c = p) as Hp by (unfold new_contract in Hc; destruct caps; try done; res_inv Hc; by subst c).
  destruct (validate_ok _ _ _ _ _ _ _ _ Hv) as (pd & cd & ev & policy & l & m & -> & -> & Hb & Hpol & Hl & Hm & Hle & Ht).
  destruct (build_trace_ok _ _ _ _ _ _ _ Ht) as ([= Hr] & Htp & Hctx & Hact & (vs & Hvs & Hprob) & Hlen & Hneg).
  split; [done|]. split; [by rewrite Htp, <- Hp|]. split.
  { exists m. split; [done|]. rewrite Hl in Hact. unfold tokens, iterate in Hact. res_inv Hact. apply traverse_inv in Hact.
    apply Forall2_length in Hact. lia. }
  split; [done|]. split; [done|]. intros c' payload' completion' request' turn' t' Hv' He.
  destruct (validate_ok _ _ _ _ _ _ _ _ Hv') as (pd' & cd' & ev' & policy' & l' & m' & -> & -> & Hb' & Hpol' & Hl' & Hm' & Hle' & Ht').
  destruct (build_trace_ok _ _ _ _ _ _ _ Ht') as ([= Hr'] & Htp' & Hctx' & Hact' & (vs' & Hvs' & Hprob') & Hlen' & Hneg').
  cbn in He. destruct Hb, Hb'. assert (ev' = ev) as -> by congruence.
  assert (forall a b, py_eqb a (PStr b) = true -> a = PStr b) as Hstr.
  { intros a b. destruct a; cbn; try done. by intros ->%bool_decide_eq_true. }
  apply Hstr in b_request0, b_request1. split; [congruence|]. split; [congruence|]. split.
  { intros x x' [= <-] [= <-]. congruence. }
  split; [congruence|]. split; [congruence|]. assert (vs' = vs) as -> by congruence. congruence.
Qed.

(** ** Cutting texts *)

(** No character of [s] is [a]. *)
Definition lacks (a : ascii) (s : string) : bool := string_forall (fun x => negb (Ascii.eqb x a)) s.

Lemma lacks_cons a x s : lacks a (String x s) = negb (Ascii.eqb x a) && lacks a s.
Proof. done. Qed.

Lemma prefix_lacks a q s t : lacks a q = true -> String.prefix q (s +:+ String a t) = String.prefix q s.
Proof.
  revert s. induction q as [|c q IH]; intros s Hq; [by destruct s|]. rewrite lacks_cons in Hq. apply andb_true_iff in Hq as [Hc Hq].
  destruct s as [|x s]; rewrite ?string_app_nil, ?string_app_cons; cbn.
  - destruct (ascii_dec c a) as [->|]; [|done]. by rewrite Ascii.eqb_refl in Hc.
  - destruct (ascii_dec c x); [by apply IH|done].
Qed.

Lemma cut_unfold sub s : cut sub s = if String.prefix sub s
  then Some ("", String.substring (String.length sub) (String.length s - String.length sub) s)
  else match s with
       | EmptyString => None
       | String a s => match cut sub s with Some (b, r) => Some (String a b, r) | None => None end
       end.
Proof. by destruct s. Qed.

(** The first occurrence of a pattern whose first character is nowhere else in
    it. *)
Lemma cut_first a p s r : lacks a p = true -> contains (String a p) s = false -> cut (String a p) (s +:+ String a p +:+ r) = Some (s, r).
Proof.
  intros Hp. induction s as [|x s IH]; intros Hs.
  - change ("" +:+ String a p +:+ r) with (String a p +:+ r). rewrite cut_unfold, prefix_self. by rewrite substring_after.
  - cbn [contains] in Hs. apply orb_false_iff in Hs as [Hpre Hs].
    change (cut (String a p) (String x (s +:+ String a (p +:+ r))) = Some (String x s, r)). cbn [cut].
    assert (String.prefix (String a p) (String x (s +:+ String a (p +:+ r))) = String.prefix (String a p) (String x s)) as ->.
    { cbn. destruct (ascii_dec a x); [|done]. by apply prefix_lacks. }
    rewrite Hpre. change (String a (p +:+ r)) with (String a p +:+ r). by rewrite IH.
Qed.

Lemma cut_none a p s : contains (String a p) s = false -> cut (String a p) s = None.
Proof.
  induction s as [|x s IH]; intros Hs; [done|]. cbn [contains] in Hs. apply orb_false_iff in Hs as [Hpre Hs]. cbn [cut]. rewrite Hpre. by rewrite IH.
Qed.

Lemma contains_lacks a p s : lacks a s = true -> contains (String a p) s = false.
Proof.
  induction s as [|x s IH]; intros Hs; [done|]. rewrite lacks_cons in Hs. apply andb_true_iff in Hs as [Hx Hs]. cbn [contains]. rewrite IH by done.
  rewrite orb_false_r. cbn. destruct (ascii_dec a x) as [->|]; [|done]. by rewrite Ascii.eqb_refl in Hx.
Qed.

Lemma contains_app q s a t : lacks a q = true -> q <> "" -> contains q (s +:+ String a t) = contains q s || contains q (String a t).
Proof.
  intros Hq Hne. induction s as [|x s IH].
  - rewrite string_app_nil. destruct q as [|c q]; [done|]. cbn [contains]. cbn. done.
  - rewrite string_app_cons. cbn [contains]. rewrite IH, <- orb_assoc. f_equal. rewrite <- string_app_cons. by apply prefix_lacks.
Qed.

(** ** Stripping *)

Definition strip_list (l : list ascii) : list ascii := reverse (drop_spaces (reverse (drop_spaces l))).

Lemma strip_list_eq s : String.list_ascii_of_string (strip s) = strip_list (String.list_ascii_of_string s).
Proof. unfold strip. by rewrite String.list_ascii_of_string_of_list_ascii. Qed.

Lemma list_ascii_app s t : String.list_ascii_of_string (s +:+ t) = String.list_ascii_of_string s ++ String.list_ascii_of_string t.
Proof. induction s as [|x s IH]; [done|]. rewrite string_app_cons. cbn. by rewrite IH. Qed.

Lemma drop_spaces_app sp l : forallb is_space sp = true -> drop_spaces (sp ++ l) = drop_spaces l.
Proof. induction sp as [|x sp IH]; [done|]. cbn. intros [-> H]%andb_true_iff. by apply IH. Qed.

Lemma drop_spaces_cases l : (forallb is_space l = true /\ drop_spaces l = []) \/ exists a m, drop_spaces l = a :: m /\ is_space a = false /\ forall k, drop_spaces (l ++ k) = a :: m ++ k.
Proof.
  induction l as [|x l IH]; [by left|]. cbn. destruct (is_space x) eqn:E; [exact IH|]. right. exists x, l. by repeat split.
Qed.

Lemma forallb_reverse {A} (f : A -> bool) l : forallb f (reverse l) = forallb f l.
Proof.
  induction l as [|x l IH]; [done|]. rewrite reverse_cons, forallb_app, IH. cbn. rewrite andb_true_r. apply andb_comm.
Qed.

Lemma strip_list_after l sp : forallb is_space sp = true -> strip_list (l ++ sp) = strip_list l.
Proof.
  intros Hsp. unfold strip_list. destruct (drop_spaces_cases l) as [[Hl ->]|(a & m & -> & _ & Happ)].
  - rewrite drop_spaces_app by done. destruct (drop_spaces_cases sp) as [[_ ->]|(b & k & E & Hb & _)]; [done|]. exfalso.
    assert (drop_spaces (sp ++ []) = []) as E' by (by rewrite drop_spaces_app). rewrite app_nil_r in E'. congruence.
  - rewrite Happ. rewrite app_comm_cons, reverse_app. by rewrite drop_spaces_app by (by rewrite forallb_reverse).
Qed.

Lemma strip_list_before l sp : forallb is_space sp = true -> strip_list (sp ++ l) = strip_list l.
Proof. intros Hsp. unfold strip_list. by rewrite drop_spaces_app. Qed.

Lemma strip_list_core a m z : is_space a = false -> is_space z = false -> strip_list (a :: m ++ [z]) = a :: m ++ [z].
Proof.
  intros Ha Hz. unfold strip_list. cbn [drop_spaces]. rewrite Ha, app_comm_cons, reverse_app, reverse_singleton. cbn [app drop_spaces]. rewrite Hz.
  by rewrite reverse_cons, reverse_involutive.
Qed.

Lemma strip_list_forall p l : forallb p l = true -> forallb p (strip_list l) = true.
Proof.
  assert (forall k, forallb p k = true -> forallb p (drop_spaces k) = true) as Hd.
  { induction k as [|x k IH]; [done|]. cbn. intros [Hx Hk]%andb_true_iff. destruct (is_space x); [by apply IH|]. cbn. by rewrite Hx. }
  intros Hl. unfold strip_list. rewrite forallb_reverse. apply Hd. rewrite forallb_reverse. by apply Hd.
Qed.

Lemma ascii_list_inj s t : String.list_ascii_of_string s = String.list_ascii_of_string t -> s = t.
Proof. intros H. rewrite <- (String.string_of_list_ascii_of_string s), H. apply String.string_of_list_ascii_of_string. Qed.

(** ** Texts of calls *)

Definition nl : string := String (ascii_of_nat 10) "".

Definition call_value (command : string) : pyval := PDict [("arguments", PDict [("cmd", PStr command)]); ("name", PStr "shell")].
Definition render (command : string) : string := json_text (call_value command).

(** Content, then each call in its envelope on lines of its own. *)
Fixpoint chat_text (content : string) (commands : list string) : string :=
  match commands with
  | [] => content
  | c :: commands => content +:+ OPEN +:+ nl +:+ render c +:+ nl +:+ CLOSE +:+ chat_text nl commands
  end.

Fixpoint line_ends (n : nat) : string := match n with O => "" | S n => nl +:+ line_ends n end.

Lemma contains_wrapped s : contains CLOSE s = false -> contains CLOSE (nl +:+ s +:+ nl) = false.
Proof.
  intros Hs. unfold nl. rewrite string_app_cons, string_app_nil. cbn [contains].
  rewrite contains_app by done. rewrite Hs. vm_compute. reflexivity.
Qed.

Lemma strip_render c : strip (nl +:+ render c +:+ nl) = render c.
Proof.
  apply ascii_list_inj. rewrite strip_list_eq, !list_ascii_app, strip_list_before, strip_list_after by done.
  assert (exists m, render c = "{" +:+ m +:+ "}") as [m ->] by (eexists; unfold render, call_value; cbn [json_text]; reflexivity).
  rewrite !list_ascii_app. apply (strip_list_core "{"%char (String.list_ascii_of_string m) "}"%char); done.
Qed.

Lemma append_assoc (a b c : string) : (a +:+ b) +:+ c = a +:+ (b +:+ c).
Proof. induction a as [|x a IH]; [done|]. rewrite !string_app_cons. by rewrite IH. Qed.

Lemma append_nil (a : string) : a +:+ "" = a.
Proof. induction a as [|x a IH]; [done|]. rewrite string_app_cons. by rewrite IH. Qed.

Lemma envelopes_text commands : forall fuel content, (length commands <= fuel)%nat -> lacks "<" content = true ->
  Forall (fun c => contains CLOSE (render c) = false) commands ->
  envelopes fuel (chat_text content commands) = (map render commands, content +:+ line_ends (length commands)).
Proof.
  induction commands as [|c commands IH]; intros fuel content Hf Hl Hc; cbn [chat_text length line_ends map].
  - rewrite append_nil. destruct fuel; [done|]. cbn [envelopes]. unfold OPEN. by rewrite cut_none by (by apply contains_lacks).
  - apply Forall_cons in Hc as [Hcl Hc]. destruct fuel as [|fuel]; [cbn in Hf; lia|]. cbn [envelopes].
    unfold OPEN. rewrite cut_first by (done || by apply contains_lacks). fold OPEN.
    replace (nl +:+ render c +:+ nl +:+ CLOSE +:+ chat_text nl commands) with ((nl +:+ render c +:+ nl) +:+ CLOSE +:+ chat_text nl commands)
      by (by rewrite !append_assoc).
    unfold CLOSE at 1. rewrite cut_first by (done || by apply contains_wrapped). fold CLOSE.
    rewrite (IH fuel nl) by (done || cbn in Hf; lia). by rewrite strip_render.
Qed.

Lemma line_ends_space n : forallb is_space (String.list_ascii_of_string (line_ends n)) = true.
Proof. induction n as [|n IH]; [done|]. cbn [line_ends]. by rewrite list_ascii_app, forallb_app, IH. Qed.

Lemma strip_content content n : strip (content +:+ line_ends n) = strip content.
Proof. apply ascii_list_inj. rewrite !strip_list_eq, list_ascii_app. apply strip_list_after, line_ends_space. Qed.

Lemma strip_lacks a s : lacks a s = true -> lacks a (strip s) = true.
Proof. unfold lacks, string_forall. intros Hs. rewrite strip_list_eq. by apply strip_list_forall. Qed.

Lemma chat_text_length content commands : (length commands <= String.length (chat_text content commands))%nat.
Proof.
  revert content. induction commands as [|c commands IH]; intros content; [cbn; lia|]. cbn [chat_text length]. rewrite !string_app_length. cbn [OPEN String.length nl].
  specialize (IH nl). lia.
Qed.

Section Calls.
Context (json_loads : string -> res pyval).

(** What [json.loads] gives for the text of a call. *)
Definition loads_call (command : string) : Prop := json_loads (render command) = Ok (call_value command).

Lemma parse_call_render command : loads_call command -> command_ok command = true -> parse_call json_loads (render command) = inl command.
Proof.
  intros Hl Hc. unfold parse_call, strict_object. rewrite Hl.
  change (same_keys [("arguments", PDict [("cmd", PStr command)]); ("name", PStr "shell")] ["name"; "arguments"]) with true. cbn [negb distinct_keys forallb].
  change (distinct_keys (call_value command)) with true. cbn [negb]. unfold call_value. cbv beta iota.
  change (is_str (get_none "name" [("arguments", PDict [("cmd", PStr command)]); ("name", PStr "shell")]) "shell") with true.
  change (same_keys [("arguments", PDict [("cmd", PStr command)]); ("name", PStr "shell")] ["name"; "arguments"]) with true. cbn [negb andb].
  change (get_none "arguments" [("arguments", PDict [("cmd", PStr command)]); ("name", PStr "shell")]) with (PDict [("cmd", PStr command)]).
  cbv beta iota. change (same_keys [("cmd", PStr command)] ["cmd"]) with true. cbn [negb].
  change (get_none "cmd" [("cmd", PStr command)]) with (PStr command). cbv beta iota. by rewrite Hc.
Qed.

Lemma parse_calls_render request single commands : forall k, Forall loads_call commands -> Forall (fun c => command_ok c = true) commands ->
  parse_calls json_loads request single k (map render commands)
  = inl (imap (fun i c => tool_call request (if single then "" else "_" +:+ pretty (k + i)%nat) c) commands).
Proof.
  induction commands as [|c commands IH]; intros k Hl Hc; [done|]. apply Forall_cons in Hl as [Hl1 Hl], Hc as [Hc1 Hc].
  cbn [map parse_calls]. rewrite parse_call_render, (IH (S k)) by done. cbn [imap]. rewrite Nat.add_0_r. f_equal. f_equal.
  apply imap_ext. intros i x _. cbn [compose]. replace (S k + i)%nat with (k + S i)%nat by lia. done.
Qed.
End Calls.

(** The text of a message and of any number of calls parses to exactly that
    message and those calls, in order, each with its own identifier; the
    commands are not changed. *)
Theorem shell_roundtrip json_loads content commands request : let text := chat_text content commands in
  lacks "<" content = true -> contains "<think>" text = false -> contains "</think>" text = false ->
  Forall (fun c => contains CLOSE (render c) = false /\ loads_call json_loads c /\ command_ok c = true) commands ->
  shell_completion json_loads text request false
  = let message := [("role", PStr "assistant"); ("content", PStr (strip content))] in
    match commands with
    | [] => Message message "stop"
    | _ => Message (message ++ [("tool_calls", PList (imap (fun i c =>
             tool_call request (if (length commands =? 1)%nat then "" else "_" +:+ pretty i) c) commands))]) "tool_calls"
    end.
Proof.
  intros text Hl Ht1 Ht2 Hc. unfold shell_completion. rewrite Ht1, Ht2. cbn [orb]. unfold text.
  assert (Forall (fun c => contains CLOSE (render c) = false) commands) as H1 by (eapply Forall_impl; [exact Hc|]; by intros ? (? & _)).
  assert (Forall (loads_call json_loads) commands) as H2 by (eapply Forall_impl; [exact Hc|]; by intros ? (_ & ? & _)).
  assert (Forall (fun c => command_ok c = true) commands) as H3 by (eapply Forall_impl; [exact Hc|]; by intros ? (_ & _ & ?)).
  rewrite (envelopes_text commands _ content (chat_text_length content commands) Hl H1), strip_content.
  unfold OPEN, CLOSE. rewrite !contains_lacks by (by apply strip_lacks). cbn [orb]. rewrite length_map.
  rewrite (parse_calls_render json_loads request _ commands 0 H2 H3). cbn zeta. by destruct commands.
Qed.

(** A call that runs an admissible command. *)
Definition is_call (request : string) (v : pyval) : Prop := exists suffix command, v = tool_call request suffix command /\ command_ok command = true.

Lemma parse_calls_admissible json_loads request single bodies : forall k,
  match parse_calls json_loads request single k bodies with
  | inl calls => length calls = length bodies /\ Forall (is_call request) calls
  | inr (FormatError _ code) => code ∈ FORMAT_ERROR_CODES
  | inr (Message _ _) => False
  | inr (Raised _) => True
  end.
Proof.
  induction bodies as [|body bodies IH]; intros k; cbn [parse_calls]; [done|].
  assert (match parse_call json_loads body with inl c => command_ok c = true | inr (FormatError _ code) => code ∈ FORMAT_ERROR_CODES
    | inr (Message _ _) => False | inr (Raised _) => True end) as Hone.
  { unfold parse_call. destruct (strict_object json_loads body) as [call|[]]; try done; [|by apply (bool_decide_unpack _)].
    destruct (negb _); [by apply (bool_decide_unpack _)|]. destruct (get_none "arguments" call) as [| | | | | |args]; try (by apply (bool_decide_unpack _)).
    destruct (negb _); [by apply (bool_decide_unpack _)|]. destruct (get_none "cmd" args) as [| | | |command| |]; try (by apply (bool_decide_unpack _)).
    destruct (command_ok command) eqn:E; [done|by apply (bool_decide_unpack _)]. }
  destruct (parse_call json_loads body) as [command|e]; [|exact Hone]. specialize (IH (S k)).
  destruct (parse_calls json_loads request single (S k) bodies) as [calls|e]; [|exact IH]. destruct IH as [Hl Hc]. split; [cbn; by rewrite Hl|].
  constructor; [|done]. by eexists _, command.
Qed.

(** Whatever the text: a message has calls exactly when its finish reason
    says so and never when the action was truncated, every call runs one
    admissible command, and a format error has one of the known codes. *)
Theorem shell_calls_admissible json_loads text request truncated :
  match shell_completion json_loads text request truncated with
  | Message message finish =>
      get_none "role" message = PStr "assistant"
      /\ (finish = "tool_calls" -> truncated = false /\ exists calls, get_none "tool_calls" message = PList calls /\ calls <> [] /\ Forall (is_call request) calls)
      /\ (finish <> "tool_calls" -> get_none "tool_calls" message = PNone /\ finish = if truncated then "length" else "stop")
  | FormatError _ code => truncated = false /\ code ∈ FORMAT_ERROR_CODES
  | Raised _ => truncated = false
  end.
Proof.
  unfold shell_completion. destruct truncated; [done|]. destruct (_ || _); [split; [done|by apply (bool_decide_unpack _)]|].
  destruct (envelopes (String.length text) text) as [bodies around]. destruct (_ || _); [split; [done|by apply (bool_decide_unpack _)]|].
  cbv beta zeta. destruct bodies as [|body bodies]; [done|].
  pose proof (parse_calls_admissible json_loads request (length (body :: bodies) =? 1)%nat (body :: bodies) 0) as Hp.
  destruct (parse_calls _ _ _ _ _) as [calls|[]]; try done. destruct Hp as [Hl Hc]. split; [done|]. split; [|done]. intros _. split; [done|].
  exists calls. split; [done|]. split; [by destruct calls|done].
Qed.

(** ** Witnesses *)

Definition served_policy : PolicyRef :=
  {| version := 3; policy_digest := zeros64; lineage := "run";
     identities := [("tokenizer_sha256", PStr zeros64); ("chat_template_sha256", PStr zeros64)]; temperature := float_one |}.
Definition served_capabilities : pyval :=
  PDict (("schema_version", PInt 1) :: map (fun k => (k, PBool true)) REQUIRED
         ++ [("logprob_convention", PStr "sampled_distribution"); ("policy", policy_to_dict toy_repr served_policy)]).
Definition toy_digest (s : string) : string := "digest of " +:+ s.
Definition served_payload : pyval := PDict [("model", PStr "m"); ("temperature", PFloat float_one); ("max_tokens", PInt 4)].
Definition raw_completion : pydict :=
  [("model", PStr "m"); ("choices", PList [PDict [("index", PInt 0); ("finish_reason", PStr "stop")]])].
Definition served_completion : pyval :=
  PDict (raw_completion ++ [("training_evidence", PDict
    [("schema_version", PInt 1); ("request_id", PStr "r"); ("request_payload_sha256", PStr (toy_digest (json_text served_payload)));
     ("response_sha256", PStr (toy_digest (json_text (PDict raw_completion)))); ("policy", policy_to_dict toy_repr served_policy);
     ("context_token_ids", PList [PInt 5]); ("action_token_ids", PList [PInt 6; PInt 2]); ("behavior_log_probs", PList [PFloat float_minus_one; PInt 0]);
     ("finish_reason", PStr "eos"); ("stop_token_count", PInt 1); ("context_truncation", PStr "none");
     ("logprob_convention", PStr "sampled_distribution")])]).

Lemma evidence_binds_witness : exists c t, new_contract toy_repr (Leased served_policy) served_capabilities = Ok c
  /\ validate toy_repr toy_digest c served_payload served_completion (PStr "r") (PInt 1) = Ok t /\ action_token_ids t = [6; 2]
  /\ length (behavior_log_probs t) = 2%nat.
Proof.
  destruct (new_contract toy_repr (Leased served_policy) served_capabilities) as [c|] eqn:Ec; [|by vm_compute in Ec].
  destruct (validate toy_repr toy_digest c served_payload served_completion (PStr "r") (PInt 1)) as [t|] eqn:Et.
  - exists c, t. split; [done|]. split; [done|].
    assert (action_token_ids t = [6; 2]) as Ha by (vm_compute in Ec; injection Ec as <-; vm_compute in Et; by injection Et as <-).
    split; [exact Ha|]. destruct (evidence_binds toy_repr toy_digest served_policy served_capabilities c served_payload served_completion "r" (PInt 1) t Ec Et)
      as (_ & _ & _ & -> & _). by rewrite Ha.
  - vm_compute in Ec. injection Ec as <-. by vm_compute in Et.
Defined.

Definition small_loads (s : string) : res pyval :=
  if bool_decide (s = render "ls -l < in") then Ok (call_value "ls -l < in")
  else if bool_decide (s = render "cat b") then Ok (call_value "cat b") else Err (ValueError "no JSON").

Lemma shell_roundtrip_witness :
  shell_completion small_loads (chat_text (" look " +:+ nl) ["ls -l < in"; "cat b"]) "id" false
  = Message [("role", PStr "assistant"); ("content", PStr "look");
             ("tool_calls", PList [tool_call "id" "_0" "ls -l < in"; tool_call "id" "_1" "cat b"])] "tool_calls".
Proof.
  rewrite (shell_roundtrip small_loads (" look " +:+ nl) ["ls -l < in"; "cat b"] "id"); [vm_compute; reflexivity| | | |];
    [vm_compute; reflexivity|vm_compute; reflexivity|vm_compute; reflexivity|].
  constructor; [split; [vm_compute; reflexivity|split; vm_compute; reflexivity]|].
  constructor; [split; [vm_compute; reflexivity|split; vm_compute; reflexivity]|constructor].
Defined.
