(* ===== verification/PromptData.v ===== *)
(** * Prompt records and token rewards ([dsv41_train/rl/data.py])

    Rewards are rationals: the division of two token counts is not rounded. *)

From Stdlib Require Import QArith.
From stdpp Require Import pretty.
From S2P Require Import Prelude PyValue LoraConfig.
Local Open Scope Z_scope.
Local Open Scope py_scope.

(** [validate_token_ids] *)
Definition token_id (name : string) (v : pyval) : res Z :=
  match v with
  | PInt z => if z <? 0 then Err (ValueError (name +:+ " must contain only nonnegative integer token IDs")) else Ok z
  | _ => Err (ValueError (name +:+ " must contain only nonnegative integer token IDs"))
  end.

Definition check_token_ids (name : string) (allow_empty : bool) (v : pyval) : res (list Z) :=
  match v with
  | PList l =>
      raise_when bool_decide (l = []) && negb allow_empty with_exn ValueError (name +:+ " must not be empty");
      traverse (token_id name) l
  | _ => Err (ValueError (name +:+ " must be a list of nonnegative integer token IDs"))
  end.

Record PromptRecord := { record_prompt : list Z; target_ids : option (list Z); metadata : pydict }.

Definition new_record (prompt target metadata : pyval) : res PromptRecord :=
  prompt <-? check_token_ids "prompt_ids" false prompt;
  target <-? match target with PNone => Ok None | v => l <-? check_token_ids "target_ids" true v; Ok (Some l) end;
  match metadata with
  | PDict d => Ok {| record_prompt := prompt; target_ids := target; metadata := d |}
  | _ => Err (ValueError "metadata must be a JSON object")
  end.

(** [d.update(e)] *)
Definition dict_update (d e : pydict) : pydict := foldl (fun d kv => dict_set kv.1 kv.2 d) d e.

Definition has_key_in (k : string) (d : pydict) : bool := bool_decide (k ∈ dict_keys d).

Section Loading.
(** The tokenizer, if there is one: [encode_prompt(prompt, messages)]. *)
Context (encode_prompt : option (pyval -> pyval -> res pyval)).

Definition from_mapping (value : pyval) : res PromptRecord :=
  match value with
  | PDict d =>
      raise_when negb (length (filter (fun n => has_key_in n d = true) ["prompt_ids"; "prompt"; "messages"]) =? 1)%nat
        with_exn ValueError "each JSONL record requires exactly one of prompt_ids, prompt or messages";
      prompt <-? (if has_key_in "prompt_ids" d then Ok (get_none "prompt_ids" d)
                  else match encode_prompt with
                       | None => Err (ValueError "text records require tokenizer.json in the model directory")
                       | Some encode => encode (get_none "prompt" d) (get_none "messages" d)
                       end);
      match default (PDict []) (dict_get "metadata" d) with
      | PDict m =>
          new_record prompt (get_none "target_ids" d)
            (PDict (dict_update m (filter (fun kv => kv.1 ∉ ["prompt_ids"; "target_ids"; "metadata"]) d)))
      | _ => Err (ValueError "metadata must be a JSON object")
      end
  | _ => Err (ValueError "each JSONL record must be an object")
  end.

(** [json.loads], and the text of the path. *)
Context (json_loads : string -> res pyval) (path : string).

Definition too_long (limit : option Z) (r : PromptRecord) : bool :=
  match limit with Some n => n <? Z.of_nat (length (record_prompt r)) | None => false end.

(** One line of the loop: a record, or none when it is skipped. *)
Definition load_line (limit : option Z) (policy line : string) : res (option PromptRecord) :=
  value <-? json_loads line;
  record <-? from_mapping value;
  if too_long limit record
  then if bool_decide (policy = "skip") then Ok None else Err (ValueError "prompt length exceeds limit")
  else Ok (Some record).

(** [except (ValueError, TypeError) as exc: raise ValueError(f"{path}:{line_number}: {exc}")] *)
Definition with_line (number : Z) {A} (r : res A) : res A :=
  match r with
  | Err (ValueError m) | Err (TypeError m) => Err (ValueError (path +:+ ":" +:+ pretty number +:+ ": " +:+ m))
  | r => r
  end.

Fixpoint load_lines (limit : option Z) (policy : string) (number : Z) (lines : list string) : res (list PromptRecord * Z) :=
  match lines with
  | [] => Ok ([], 0)
  | line :: lines =>
      if bool_decide (strip line = "") then load_lines limit policy (number + 1) lines
      else
        r <-? with_line number (load_line limit policy line);
        rest <-? load_lines limit policy (number + 1) lines;
        Ok (match r with Some record => (record :: rest.1, rest.2) | None => (rest.1, rest.2 + 1) end)
  end.

(** The records and the number of those skipped, which is only warned about. *)
Definition load_jsonl (max_prompt_tokens : pyval) (length_policy : string) (lines : list string) : res (list PromptRecord * Z) :=
  raise_when negb (bool_decide (length_policy ∈ ["error"; "skip"])) with_exn ValueError "length_policy must be error or skip";
  limit <-? match max_prompt_tokens with
            | PNone => Ok None
            | PInt n => if n <? 1 then Err (ValueError "max_prompt_tokens must be a positive integer") else Ok (Some n)
            | _ => Err (ValueError "max_prompt_tokens must be a positive integer")
            end;
  loaded <-? load_lines limit length_policy 1 lines;
  raise_when bool_decide (loaded.1 = []) with_exn ValueError (path +:+ ": no records found");
  Ok loaded.
End Loading.

(** ** Rewards *)

Definition target (record : PromptRecord) : res (list Z) :=
  match target_ids record with
  | None => Err (ValueError "this reward requires target_ids in every JSONL record")
  | Some l => Ok l
  end.

Definition matches (target response : list Z) : Z :=
  list_sum_Z (zip_with (fun a b => if a =? b then 1 else 0) target response).

Definition token_accuracy (record : PromptRecord) (response : list Z) : res Q :=
  target <-? target record;
  let denominator := Nat.max (length target) (length response) in
  if (denominator =? 0)%nat then Ok 1%Q
  else Ok (inject_Z (matches target response) / inject_Z (Z.of_nat denominator))%Q.

Definition exact_match (record : PromptRecord) (response : list Z) : res Q :=
  target <-? target record; Ok (if bool_decide (response = target) then 1%Q else 0%Q).

Definition toy_token_score (_ : PromptRecord) (response : list Z) : res Q :=
  raise_when bool_decide (response = []) with_exn ValueError "toy_token_score requires at least one response token";
  Ok (inject_Z (list_sum_Z response) / inject_Z (Z.of_nat (length response)))%Q.

(** [build_reward]: where the function comes from.  A plugin is imported. *)
Inductive reward_source :=
| TextReward (spec : string)
| Builtin (f : PromptRecord -> list Z -> res Q)
| Plugin (module_name function_name : string).

Definition TEXT_REWARDS : list string := ["text_exact_match"; "numeric_answer"; "json_match"].

(** [spec.partition(":")] *)
Definition partition_colon (spec : string) : option (string * string) :=
  match py_split ":"%char spec with
  | [] | [_] => None
  | w :: ws => Some (w, String.concat ":" ws)
  end.

Definition build_reward (spec : string) (tokenizer : bool) : res reward_source :=
  if bool_decide (spec ∈ TEXT_REWARDS) then
    raise_when negb tokenizer with_exn ValueError "reward requires tokenizer.json in the model directory";
    Ok (TextReward spec)
  else if bool_decide (spec = "token_accuracy") then Ok (Builtin token_accuracy)
  else if bool_decide (spec = "exact_match") then Ok (Builtin exact_match)
  else if bool_decide (spec = "toy_token_score") then Ok (Builtin toy_token_score)
  else match partition_colon spec with
  | None => Err (ValueError "unknown reward; use a builtin or module:function")
  | Some (module_name, function_name) =>
      raise_when bool_decide (module_name = "") || bool_decide (function_name = "")
          || existsb (Ascii.eqb ":") (String.list_ascii_of_string function_name)
        with_exn ValueError "unknown reward; use a builtin or module:function";
      Ok (Plugin module_name function_name)
  end.

(** [checked_reward.strip_stop_tokens] *)
Definition strips_stop_tokens (spec : string) : bool := bool_decide (spec ∈ TEXT_REWARDS).

(** ** Lemmas *)

Definition valid_record (r : PromptRecord) : Prop :=
  record_prompt r <> [] /\ Forall (fun t => 0 <= t) (record_prompt r)
  /\ match target_ids r with None => True | Some l => Forall (fun t => 0 <= t) l end.

Lemma token_ids_inv name l r : traverse (token_id name) l = Ok r -> l = map PInt r /\ Forall (fun t => 0 <= t) r.
Proof.
  revert r. induction l as [|v l IH]; intros r; simpl; [by intros [= <-]|].
  destruct v; try done. simpl. destruct (Z.ltb_spec z 0); [done|]. destruct (traverse _ l) as [rs|]; [|done].
  intros [= <-]. destruct (IH rs eq_refl) as [-> Hf]. by split; [|constructor].
Qed.

Lemma check_token_ids_inv name allow v r : check_token_ids name allow v = Ok r ->
  v = PList (map PInt r) /\ Forall (fun t => 0 <= t) r /\ (allow = false -> r <> []).
Proof.
  unfold check_token_ids. destruct v; try done. destruct (bool_decide (l = []) && negb allow) eqn:E; [done|].
  intros H. apply token_ids_inv in H as [-> Hf]. split; [done|]. split; [done|]. intros -> ->. done.
Qed.

Lemma new_record_valid prompt target metadata r : new_record prompt target metadata = Ok r -> valid_record r.
Proof.
  unfold new_record. destruct (check_token_ids "prompt_ids" false prompt) as [p|] eqn:Ep; [|done].
  apply check_token_ids_inv in Ep as (_ & Hp & Hne). intros H.
  destruct (match target with PNone => _ | _ => _ end) as [t|] eqn:Et; [|done]. destruct metadata; try done. injection H as <-.
  split; [by apply Hne|]. split; [done|]. cbn. destruct t as [t|]; [|done].
  destruct target; try done; destruct (check_token_ids "target_ids" true _) as [l'|] eqn:El; try done; injection Et as <-;
    by apply check_token_ids_inv in El as (_ & ? & _).
Qed.

Lemma from_mapping_valid encode v r : from_mapping encode v = Ok r -> valid_record r.
Proof.
  unfold from_mapping. intros H. destruct v; try done. destruct (negb _); [done|].
  destruct (if has_key_in _ _ then _ else _) as [p|]; [|done]. destruct (default _ _); try done. by eapply new_record_valid.
Qed.

(** ** Loading *)

Section Loaded.
Context (encode : option (pyval -> pyval -> res pyval)) (json_loads : string -> res pyval) (path : string).

Definition nonblank (lines : list string) : list string := filter (fun line => strip line <> "") lines.
Definition parse_line (line : string) : res PromptRecord := value <-? json_loads line; from_mapping encode value.

Lemma load_lines_inv limit policy number lines records skipped :
  load_lines encode json_loads path limit policy number lines = Ok (records, skipped) ->
  exists parsed, traverse parse_line (nonblank lines) = Ok parsed
  /\ records = filter (fun r => too_long limit r = false) parsed
  /\ skipped = Z.of_nat (length parsed) - Z.of_nat (length records)
  /\ (policy <> "skip" -> skipped = 0).
Proof.
  revert number records skipped. induction lines as [|line lines IH]; intros number records skipped; simpl.
  { intros [= <- <-]. by exists []. }
  unfold nonblank. rewrite filter_cons. case_bool_decide as Hb.
  { rewrite decide_False by naive_solver. apply IH. }
  rewrite decide_True by done. unfold load_line, with_line. cbn [traverse].
  destruct (json_loads line) as [v|[]] eqn:Ej; try done. destruct (from_mapping encode v) as [r|[]] eqn:Em; try done.
  assert (parse_line line = Ok r) as Hpl by (unfold parse_line; by rewrite Ej). rewrite Hpl.
  destruct (load_lines _ _ _ limit policy (number + 1) lines) as [[rs k]|] eqn:E.
  2:{ destruct (too_long limit r); [case_bool_decide|]; done. }
  destruct (IH _ _ _ E) as (parsed & Hp & Hr & Hk & Hs). fold (nonblank lines). rewrite Hp.
  destruct (too_long limit r) eqn:Et.
  - case_bool_decide as Hpol; [|done]. intros [= <- <-]. exists (r :: parsed). split; [done|]. rewrite filter_cons, decide_False by congruence.
    split; [done|]. cbn [length fst snd]. split; [lia|done].
  - intros [= <- <-]. exists (r :: parsed). split; [done|]. rewrite filter_cons, decide_True by done. cbn [length fst snd].
    split; [by rewrite Hr|]. split; [lia|done].
Qed.

(** Loading a file keeps exactly the records of its nonblank lines that fit
    the prompt limit, in file order and at least one; under the policy [error]
    it keeps all of them, and every record that does not fit is counted under
    [skip]; every record kept has a nonempty prompt of token ids within the limit. *)
Theorem load_jsonl_exact limit policy lines records skipped :
  load_jsonl encode json_loads path limit policy lines = Ok (records, skipped) ->
  exists parsed n, traverse parse_line (nonblank lines) = Ok parsed
  /\ (limit = PNone /\ n = None \/ exists z, limit = PInt z /\ 1 <= z /\ n = Some z)
  /\ records = filter (fun r => too_long n r = false) parsed /\ records <> []
  /\ Z.of_nat (length parsed) = Z.of_nat (length records) + skipped
  /\ (policy = "error" -> records = parsed)
  /\ Forall (fun r => valid_record r /\ too_long n r = false) records.
Proof.
  unfold load_jsonl. intros H. destruct (negb _) eqn:Epol; [done|].
  assert (exists n, (limit = PNone /\ n = None \/ exists z, limit = PInt z /\ 1 <= z /\ n = Some z)
    /\ match load_lines encode json_loads path n policy 1 lines with
       | Ok loaded => if bool_decide (loaded.1 = []) then Err (ValueError (path +:+ ": no records found")) else Ok loaded
       | Err e => Err e end = Ok (records, skipped)) as (n & Hn & Hl).
  { destruct limit; try done; [by exists None; split; [left|]|]. destruct (Z.ltb_spec z 1); [done|].
    exists (Some z). split; [right; by exists z|done]. }
  clear H. destruct (load_lines _ _ _ n policy 1 lines) as [[rs k]|] eqn:El; [|done]. cbn [fst] in Hl.
  case_bool_decide as Hne; [done|]. injection Hl as -> ->.
  destruct (load_lines_inv _ _ _ _ _ _ El) as (parsed & Hp & Hr & Hk & Hs).
  exists parsed, n. split; [done|]. split; [done|]. split; [done|]. split; [done|]. split; [lia|].
  assert (Forall valid_record parsed) as Hv.
  { clear -Hp. revert parsed Hp. induction (nonblank lines) as [|x l IH]; intros parsed; simpl; [by intros [= <-]|].
    unfold parse_line at 1. destruct (json_loads x) as [v|]; [|done]. destruct (from_mapping encode v) eqn:E; [|done].
    destruct (traverse parse_line l); [|done]. intros [= <-]. constructor; [by eapply from_mapping_valid|by apply IH]. }
  split.
  - intros ->. specialize (Hs ltac:(done)). rewrite Hs in Hk. clear -Hr Hk.
    assert (length records = length parsed) as Hl by lia. revert Hl. rewrite Hr. clear.
    induction parsed as [|x l IH]; [done|]. rewrite filter_cons. case_decide; cbn [length]; intros Hl; [rewrite IH; [done|lia]|].
    pose proof (length_filter (fun r => too_long n r = false) l). lia.
  - rewrite Hr. apply Forall_forall. intros r [Hf Hin]%list_elem_of_filter. rewrite Forall_forall in Hv. by split; [apply Hv|].
Qed.
End Loaded.

(** ** Token accuracy *)

Lemma matches_bounds t r : 0 <= matches t r <= Z.of_nat (Nat.min (length t) (length r)).
Proof.
  unfold matches. revert r. induction t as [|a t IH]; intros [|b r]; cbn [zip_with length Nat.min]; rewrite ?list_sum_Z_nil; try lia.
  rewrite list_sum_Z_cons. specialize (IH r). destruct (a =? b); lia.
Qed.

Lemma matches_all t r : length t = length r -> matches t r = Z.of_nat (length t) -> t = r.
Proof.
  revert r. induction t as [|a t IH]; intros [|b r]; cbn [length]; try done. intros [= Hl] Hm.
  unfold matches in Hm. cbn [zip_with] in Hm. rewrite list_sum_Z_cons in Hm. fold (matches t r) in Hm.
  pose proof (matches_bounds t r). destruct (Z.eqb_spec a b); [subst; f_equal; apply IH; [done|lia]|lia].
Qed.

Lemma matches_self t : matches t t = Z.of_nat (length t).
Proof.
  unfold matches. induction t as [|a t IH]; [done|]. cbn [zip_with length]. rewrite list_sum_Z_cons, IH, Z.eqb_refl. lia.
Qed.

(** The accuracy is between 0 and 1, and 1 exactly for the target itself. *)
Lemma token_accuracy_range record response q : token_accuracy record response = Ok q ->
  exists t, target_ids record = Some t /\ (0 <= q <= 1)%Q /\ (q == 1 <-> response = t)%Q.
Proof.
  unfold token_accuracy, target. destruct (target_ids record) as [t|]; [|done]. intros H. exists t. split; [done|].
  destruct (Nat.eqb_spec (Nat.max (length t) (length response)) 0) as [E|E].
  { injection H as <-. destruct t; [|cbn in E; lia]. destruct response; [|cbn in E; lia]. by split. }
  injection H as <-. set (n := Nat.max (length t) (length response)) in *.
  pose proof (matches_bounds t response) as Hb.
  assert (0 < inject_Z (Z.of_nat n))%Q as Hn by (unfold Qlt; cbn; lia). split.
  - split.
    + apply Qle_shift_div_l; [done|]. rewrite Qmult_0_l. change 0%Q with (inject_Z 0). rewrite <- Zle_Qle. lia.
    + apply Qle_shift_div_r; [done|]. rewrite Qmult_1_l, <- Zle_Qle. unfold n. lia.
  - split.
    + intros He. assert (inject_Z (matches t response) == inject_Z (Z.of_nat n))%Q as Hm.
      { rewrite <- (Qmult_1_l (inject_Z (Z.of_nat n))), <- He. field. intros Hz. rewrite Hz in Hn. done. }
      unfold Qeq in Hm. cbn [Qnum Qden inject_Z] in Hm. symmetry. unfold n in Hm. apply matches_all; lia.
    + intros ->. rewrite matches_self. unfold n. rewrite Nat.max_id. apply Qmult_inv_r. intros Hz. unfold n in Hn.
      rewrite Nat.max_id, Hz in Hn. done.
Qed.

Definition sample_lines : list string := ["one"; "  "; "two"].
Definition sample_json (line : string) : res pyval :=
  if bool_decide (line = "one") then Ok (PDict [("prompt_ids", PList [PInt 1; PInt 2]); ("answer", PStr "x")])
  else Ok (PDict [("prompt_ids", PList [PInt 1; PInt 2; PInt 3])]).

Lemma load_jsonl_exact_witness :
  load_jsonl None sample_json "data" (PInt 2) "skip" sample_lines
  = Ok ([{| record_prompt := [1; 2]; target_ids := None; metadata := [("answer", PStr "x")] |}], 1)
  /\ exists parsed, length parsed = 2%nat /\ traverse (parse_line None sample_json) (nonblank sample_lines) = Ok parsed.
Proof.
  assert (load_jsonl None sample_json "data" (PInt 2) "skip" sample_lines
    = Ok ([{| record_prompt := [1; 2]; target_ids := None; metadata := [("answer", PStr "x")] |}], 1)) as H by (vm_compute; reflexivity).
  split; [exact H|]. destruct (load_jsonl_exact _ _ _ _ _ _ _ _ H) as (parsed & n & Hp & _ & _ & _ & Hl & _).
  exists parsed. split; [|exact Hp]. cbn in Hl. lia.
Defined.
