(* ===== verification/Generate.v ===== *)
(** * Serial rollout generation ([generate_group] in [dsv41_train/rl/rollout.py])

    The model, the sampler and the reward are parameters: the logits of the
    next token for a token list, their log-softmax over the vocabulary, and
    the draw of [torch.multinomial] with the generator's state.  The cached Qwen
    path is another module. *)

From S2P Require Import Prelude PyValue Training RLConfig PromptData.
Local Open Scope Z_scope.
Local Open Scope py_scope.

(** [isinstance(v, bool) or not isinstance(v, int) or v < minimum] *)
Definition int_at_least (minimum : Z) (name message : string) (v : pyval) : res Z :=
  match v with
  | PInt z => if z <? minimum then Err (ValueError (name +:+ message)) else Ok z
  | _ => Err (ValueError (name +:+ message))
  end.

(** [validate_temperature] *)
Definition validate_temperature (v : pyval) : res unit :=
  b <-? math_isfinite v;
  raise_if (negb b || (number_units v <=? 0)) (ValueError "temperature must be finite and positive").

(** [response[-n:]] for a positive [n]. *)
Definition last_tokens (n : nat) (l : list Z) : list Z := drop (length l - n) l.
(** [response[:-n]] for a positive [n]. *)
Definition without_last (n : nat) (l : list Z) : list Z := take (length l - n) l.

Definition longer (a b : list Z) : bool := (length b <=? length a)%nat.

(** [sorted(..., key=len, reverse=True)] keeps the order of equal lengths. *)
Definition sort_stops (stops : list (list Z)) : list (list Z) := sorted_by longer stops.

(** [next((ids for ids in stops if response[-len(ids):] == ids), None)] *)
Definition matched (stops : list (list Z)) (response : list Z) : option (list Z) :=
  list_find (fun ids => last_tokens (length ids) response = ids) stops ≫= fun found => Some found.2.

Definition as_eos (v : pyval) : res (list Z) :=
  match v with
  | PNone => Ok []
  | PInt _ | PBool _ => check_token_ids "eos_token_id" true (PList [v])
  | _ => check_token_ids "eos_token_id" true v
  end.

(** The settings of a group after the checks. *)
Record options := {
  max_new_tokens : nat;
  eos_ids : list Z;
  stops : list (list Z);
  truncated_reward : option pyfloat;
  strip_stop_tokens : bool }.

(** What a response ends with. *)
Record ending := { finish_reason : string; stop_count : nat }.

Section Generate.
Context {G L : Type}.
Context (next_logits : list Z -> res L) (vocabulary : L -> Z) (log_softmax : L -> list pyfloat)
  (multinomial : G -> list pyfloat -> Z * G) (reward_fn : PromptRecord -> list Z -> res pyfloat).
Context (o : options) (record : PromptRecord).

Definition finite_float (f : pyfloat) : bool := match float_value f with FFin _ => true | _ => false end.

(** One token: its id, its log probability and the generator after the draw. *)
Definition next_token (g : G) (response : list Z) : res (Z * pyfloat * G) :=
  logits <-? next_logits (record_prompt record ++ response);
  raise_when existsb (fun t => vocabulary logits <=? t) (eos_ids o ++ concat (stops o))
    with_exn ValueError "stop token ID is outside the model vocabulary";
  let log_probs := log_softmax logits in
  raise_when negb (forallb finite_float log_probs) with_exn ValueError "generation log probabilities contain non-finite values";
  let '(token, g) := multinomial g log_probs in
  match log_probs !! Z.to_nat token with
  | Some p => Ok (token, p, g)
  | None => Err (IndexError "index out of range")
  end.

(** The inner loop, with the number of tokens still allowed. *)
Fixpoint respond (allowed : nat) (g : G) (response : list Z) (behavior : list pyfloat)
    : res (list Z * list pyfloat * ending * G) :=
  match allowed with
  | O => Ok (response, behavior, {| finish_reason := "length"; stop_count := 0 |}, g)
  | S allowed =>
      drawn <-? next_token g response;
      let '(token, p, g) := drawn in
      let response := response ++ [token] in
      let behavior := behavior ++ [p] in
      match matched (stops o) response with
      | Some ids => Ok (response, behavior, {| finish_reason := "stop"; stop_count := length ids |}, g)
      | None =>
          if bool_decide (token ∈ eos_ids o)
          then Ok (response, behavior, {| finish_reason := "eos"; stop_count := 1 |}, g)
          else respond allowed g response behavior
      end
  end.

Definition scoring_ids (response : list Z) (e : ending) : list Z :=
  if (0 <? stop_count e)%nat && strip_stop_tokens o then without_last (stop_count e) response else response.

Definition final_reward (e : ending) (raw : pyfloat) : pyfloat :=
  if bool_decide (finish_reason e = "length") then default raw (truncated_reward o) else raw.

Definition one_sample (version : Z) (g : G) : res (Sample * G) :=
  r <-? respond (max_new_tokens o) g [] [];
  let '(response, behavior, e, g) := r in
  raw <-? reward_fn record (scoring_ids response e);
  sample <-? new_sample (record_prompt record) response behavior (final_reward e raw) version (finish_reason e)
               (Z.of_nat (stop_count e)) (Some raw);
  Ok (sample, g).

Fixpoint samples (n : nat) (version : Z) (g : G) : res (list Sample * G) :=
  match n with
  | O => Ok ([], g)
  | S n =>
      s <-? one_sample version g;
      rest <-? samples n version s.2;
      Ok (s.1 :: rest.1, rest.2)
  end.
End Generate.

(** [generate_group] with a [PromptRecord] and no cached path; the group and the
    generator's state.  [reward_fn] is the one given or the token accuracy. *)
Definition generate_group {G L} (next_logits : list Z -> res L) (vocabulary : L -> Z) (log_softmax : L -> list pyfloat)
    (multinomial : G -> list pyfloat -> Z * G) (reward_fn : PromptRecord -> list Z -> res pyfloat) (strips : bool)
    (record : PromptRecord) (group_size max_new_tokens temperature eos_token_id policy_version group_id : pyval)
    (stop_token_sequences : list pyval) (truncated_reward : option pyfloat) (g : G) : res (RolloutGroup * G) :=
  _ <-? validate_temperature temperature;
  size <-? int_at_least 1 "group_size" " must be a positive integer" group_size;
  max_new <-? int_at_least 1 "max_new_tokens" " must be a positive integer" max_new_tokens;
  version <-? int_at_least 0 "policy_version" " must be a nonnegative integer" policy_version;
  group <-? int_at_least 0 "group_id" " must be a nonnegative integer" group_id;
  eos <-? as_eos eos_token_id;
  sequences <-? traverse (check_token_ids "stop_token_sequences" false) stop_token_sequences;
  raise_when match truncated_reward with Some f => negb (finite_float f) | None => false end
    with_exn ValueError "truncated_reward must be finite or None";
  let o := {| max_new_tokens := Z.to_nat max_new; eos_ids := eos; stops := sort_stops sequences;
              truncated_reward := truncated_reward; strip_stop_tokens := strips |} in
  drawn <-? samples next_logits vocabulary log_softmax multinomial reward_fn o record (Z.to_nat size) version g;
  group <-? new_rollout_group drawn.1 group version;
  Ok (group, drawn.2).

(** ** Where a response stops *)

(** [response] ends with the stop sequence [ids]. *)
Definition ends_with (ids response : list Z) : Prop := exists before, response = before ++ ids.

Lemma last_tokens_spec ids response : last_tokens (length ids) response = ids <-> ends_with ids response.
Proof.
  unfold last_tokens, ends_with. split.
  - intros H. exists (take (length response - length ids) response). rewrite <- H at 2. by rewrite take_drop.
  - intros (before & ->). rewrite length_app. replace (length before + length ids - length ids)%nat with (length before) by lia.
    by rewrite drop_app_length.
Qed.

Lemma sort_stops_sorted l : StronglySorted (fun a b => longer a b = true) (sort_stops l).
Proof. apply sorted_by_sorted; unfold longer; intros; rewrite ?Nat.leb_le in *; lia. Qed.

Lemma sort_stops_elem l ids : ids ∈ sort_stops l <-> ids ∈ l.
Proof. unfold sort_stops. by rewrite sorted_by_perm. Qed.

(** The match is the longest stop sequence the response ends with. *)
Lemma matched_some l response ids : StronglySorted (fun a b => longer a b = true) l -> matched l response = Some ids ->
  ids ∈ l /\ ends_with ids response
  /\ forall other, other ∈ l -> ends_with other response -> (length other <= length ids)%nat.
Proof.
  intros Hs H. unfold matched in H. destruct (list_find _ l) as [[i x]|] eqn:E; [|done]. injection H as <-.
  apply list_find_Some in E as (Hi & Hx & Hbefore). split; [by eapply list_elem_of_lookup_2|].
  split; [by apply last_tokens_spec|]. intros other Hin Hother. apply list_elem_of_lookup in Hin as [j Hj].
  destruct (decide (j < i)%nat) as [Hlt|Hge].
  - exfalso. apply (Hbefore j other Hj Hlt). by apply last_tokens_spec.
  - destruct (decide (j = i)) as [->|Hne]; [assert (other = x) as -> by congruence; cbn; lia|].
    assert (i < j)%nat as Hij by lia. clear -Hs Hi Hj Hij. cbn [snd].
    revert i j Hi Hj Hij. induction Hs as [|y l Hs IH Hy]; intros i j Hi Hj Hij; [done|].
    destruct j as [|j]; [lia|]. destruct i as [|i].
    + injection Hi as ->. rewrite Forall_forall in Hy. specialize (Hy other). unfold longer in Hy.
      apply Nat.leb_le, Hy. eapply list_elem_of_lookup_2. exact Hj.
    + apply (IH i j); [done|done|lia].
Qed.

Lemma matched_none l response : matched l response = None -> forall ids, ids ∈ l -> ~ ends_with ids response.
Proof.
  unfold matched. destruct (list_find _ l) as [[i x]|] eqn:E; [done|]. intros _ ids Hin Hends.
  apply list_find_None in E. rewrite Forall_forall in E. apply (E ids Hin). by apply last_tokens_spec.
Qed.
