(* ===== verification/GenerateResults.v ===== *)
(** * Rollout generation: the properties *)

From S2P Require Import Prelude PyValue Training TrainingProofs RLConfig RLConfigResults PromptData Generate.
Local Open Scope Z_scope.

(** After its first [k] tokens a response does not stop. *)
Definition goes_on (o : options) (response : list Z) (k : nat) : Prop :=
  (forall ids, ids ∈ stops o -> ~ ends_with ids (take k response))
  /\ forall t, response !! (k - 1)%nat = Some t -> t ∉ eos_ids o.

(** The response stops at its end, for the reason it gives. *)
Definition stops_for (o : options) (response : list Z) (e : ending) : Prop :=
  (finish_reason e = "stop" /\ exists ids, ids ∈ stops o /\ ends_with ids response /\ stop_count e = length ids
     /\ forall other, other ∈ stops o -> ends_with other response -> (length other <= length ids)%nat)
  \/ (finish_reason e = "eos" /\ stop_count e = 1%nat /\ (exists t, last response = Some t /\ t ∈ eos_ids o)
     /\ forall ids, ids ∈ stops o -> ~ ends_with ids response)
  \/ (finish_reason e = "length" /\ stop_count e = 0%nat /\ length response = max_new_tokens o
     /\ goes_on o response (length response)).

Section Results.
Context {G L : Type}.
Context (next_logits : list Z -> res L) (vocabulary : L -> Z) (log_softmax : L -> list pyfloat)
  (multinomial : G -> list pyfloat -> Z * G) (reward_fn : PromptRecord -> list Z -> res pyfloat).

Section Respond.
Context (o : options) (record : PromptRecord).
Context (Hsorted : StronglySorted (fun a b => longer a b = true) (stops o)).
#[local] Notation respond := (respond next_logits vocabulary log_softmax multinomial o record).

Lemma respond_inv allowed g response behavior out behavior' e g' :
  respond allowed g response behavior = Ok (out, behavior', e, g') ->
  (length response + allowed = max_new_tokens o)%nat -> length behavior = length response ->
  (forall k, (1 <= k <= length response)%nat -> goes_on o response k) ->
  (allowed <> 0 \/ response <> [])%nat ->
  (1 <= length out <= max_new_tokens o)%nat /\ length behavior' = length out
  /\ (forall k, (1 <= k < length out)%nat -> goes_on o out k) /\ stops_for o out e.
Proof.
  revert g response behavior. induction allowed as [|allowed IH]; intros g response behavior; cbn [Generate.respond].
  { intros [= <- <- <- _] Hl Hb Hgo Hne. destruct Hne as [|Hne]; [done|].
    assert (1 <= length response)%nat by (destruct response; [done|simpl; lia]).
    split; [lia|]. split; [done|]. split; [intros k Hk; apply Hgo; lia|]. right; right. split; [done|]. split; [done|].
    split; [lia|]. apply Hgo. lia. }
  destruct (next_token _ _ _ _ o record g response) as [[[token p] g1]|]; [|done].
  set (r := response ++ [token]). intros H Hl Hb Hgo _.
  assert (length r = S (length response)) as Hr by (unfold r; rewrite length_app; simpl; lia).
  assert (length (behavior ++ [p]) = length r) as Hbr by (rewrite length_app; simpl; lia).
  assert (forall k, (1 <= k <= length response)%nat -> goes_on o r k) as Hgo'.
  { intros k Hk. destruct (Hgo k Hk) as [H1 H2]. unfold r. split.
    - rewrite take_app_le by lia. exact H1.
    - rewrite lookup_app_l by lia. exact H2. }
  assert (take (length r) r = r) as Ht by (apply take_ge; lia).
  assert (last r = Some token) as Hlast by (unfold r; apply last_snoc).
  destruct (matched (stops o) r) as [ids|] eqn:Em.
  { injection H as <- <- <- _. split; [lia|]. split; [done|]. split; [intros k Hk; apply Hgo'; lia|].
    left. split; [done|]. destruct (matched_some _ _ _ Hsorted Em) as (? & ? & ?). by exists ids. }
  pose proof (matched_none _ _ Em) as Hnone. case_bool_decide as Heos.
  { injection H as <- <- <- _. split; [lia|]. split; [done|]. split; [intros k Hk; apply Hgo'; lia|].
    right; left. split; [done|]. split; [done|]. split; [by exists token|done]. }
  apply (IH _ _ _ H); [lia|done| |right; unfold r; by destruct response].
  intros k Hk. destruct (decide (k = length r)) as [->|]; [|apply Hgo'; lia]. split; [by rewrite Ht|].
  intros t Htk. rewrite last_lookup in Hlast. replace (pred (length r)) with (length r - 1)%nat in Hlast by lia.
  rewrite Htk in Hlast. by injection Hlast as ->.
Qed.

(** What a sample of the group records. *)
Definition sample_of (version : Z) (s : Sample) : Prop :=
  prompt_ids s = record_prompt record /\ policy_version s = version
  /\ (1 <= length (response_ids s) <= max_new_tokens o)%nat /\ length (sample_log_probs s) = length (response_ids s)
  /\ (forall k, (1 <= k < length (response_ids s))%nat -> goes_on o (response_ids s) k)
  /\ exists e, stops_for o (response_ids s) e /\ sample_finish_reason s = finish_reason e
       /\ sample_stop_tokens s = Z.of_nat (stop_count e)
       /\ reward_fn record (scoring_ids o (response_ids s) e) = Ok (sample_raw_reward s)
       /\ sample_reward s = final_reward o e (sample_raw_reward s).

Lemma one_sample_inv version g s g' : (1 <= max_new_tokens o)%nat ->
  one_sample next_logits vocabulary log_softmax multinomial reward_fn o record version g = Ok (s, g') -> sample_of version s.
Proof.
  unfold one_sample. intros Hmax H. destruct (respond _ g [] []) as [[[[response behavior] e] g1]|] eqn:Er; [|done].
  destruct (reward_fn record _) as [raw|] eqn:Ew; [|done].
  destruct (new_sample _ _ _ _ _ _ _ _) as [x|] eqn:Es; [|done]. injection H as <- <-.
  destruct (respond_inv _ _ _ _ _ _ _ _ Er) as (Hlen & Hb & Hgo & Hst); [done|done|intros k Hk; simpl in Hk; lia|left; lia|].
  unfold new_sample in Es. res_inv Es. subst x. cbn. unfold sample_of. cbn. do 4 (split; [done|]). split; [done|]. by exists e.
Qed.

Lemma samples_inv n version g ss g' : (1 <= max_new_tokens o)%nat ->
  samples next_logits vocabulary log_softmax multinomial reward_fn o record n version g = Ok (ss, g') ->
  length ss = n /\ Forall (sample_of version) ss.
Proof.
  intros Hmax. revert g ss g'. induction n as [|n IH]; intros g ss g'; cbn [samples]; [by intros [= <- _]|].
  destruct (one_sample _ _ _ _ _ _ _ _ g) as [[s g1]|] eqn:Es; [|done].
  destruct (samples _ _ _ _ _ _ _ n version _) as [[rest g2]|] eqn:Er; [|done]. intros [= <- _].
  destruct (IH _ _ _ Er) as [Hl Hf]. cbn. split; [lia|]. constructor; [by eapply one_sample_inv|done].
Qed.
End Respond.

(** C23. Every sample of a group that [generate_group] returns stops exactly
    where it should: it has between one and [max_new_tokens] tokens with a log
    probability each; no earlier prefix ends with a stop sequence or an end
    token; and its finish reason says how it ended: with the longest stop
    sequence that matches, else with an end token, else at the limit.  The
    reward is computed on the response, without the stop tokens if the reward
    asks for it, and replaced only for responses cut at the limit.  The group
    has the requested size and one prompt and policy version. *)
Theorem generation_stops_right strips record size max_new temperature eos version group_id sequences truncated g group g' :
  generate_group next_logits vocabulary log_softmax multinomial reward_fn strips record (PInt size) (PInt max_new) temperature
    eos (PInt version) (PInt group_id) sequences truncated g = Ok (group, g') ->
  exists eos_list stop_list, as_eos eos = Ok eos_list /\ sequences = map (fun ids => PList (map PInt ids)) stop_list
  /\ length (rg_samples group) = Z.to_nat size /\ rg_group_id group = group_id /\ rg_policy_version group = version
  /\ exists o, (forall ids, ids ∈ stops o <-> ids ∈ stop_list) /\ eos_ids o = eos_list /\ max_new_tokens o = Z.to_nat max_new
       /\ truncated_reward o = truncated /\ strip_stop_tokens o = strips
       /\ Forall (sample_of o record version) (rg_samples group).
Proof.
  unfold generate_group. intros H. destruct (validate_temperature temperature) as [[]|]; [|done]. cbn [int_at_least] in H.
  destruct (Z.ltb_spec size 1); [done|]. destruct (Z.ltb_spec max_new 1) as [|Hmax]; [done|].
  destruct (version <? 0); [done|]. destruct (group_id <? 0); [done|].
  destruct (as_eos eos) as [eos_list|]; [|done]. destruct (traverse _ sequences) as [stop_list|] eqn:Es; [|done].
  destruct (match truncated with Some f => negb (finite_float f) | None => false end); [done|].
  set (o := {| max_new_tokens := Z.to_nat max_new |}) in H.
  destruct (samples _ _ _ _ _ o record _ version g) as [[ss g1]|] eqn:Er; [|done].
  cbn [fst snd] in H. destruct (new_rollout_group ss group_id version) as [x|] eqn:Eg; [|done]. injection H as <- <-.
  apply (samples_inv o record (sort_stops_sorted stop_list)) in Er as [Hl Hf]; [|cbn; lia].
  exists eos_list, stop_list. split; [done|]. split.
  { clear -Es. revert stop_list Es. induction sequences as [|v l IH]; intros sl; simpl; [by intros [= <-]|].
    destruct (check_token_ids _ _ v) as [ids|] eqn:E; [|done]. apply check_token_ids_inv in E as (-> & _).
    destruct (traverse _ l); [|done]. intros [= <-]. simpl. f_equal. by apply IH. }
  unfold new_rollout_group in Eg. destruct ss as [|s0 ss]; [done|]. res_inv Eg. subst x. cbn [rg_samples rg_group_id rg_policy_version].
  split; [done|]. split; [done|]. split; [done|]. exists o. split; [by intros ids; apply sort_stops_elem|]. done.
Qed.

(** ** Generation returns *)

Section Total.
Context (vocabulary_size : Z).

(** What the model, the sampler and the reward are expected to do: one finite
    nonpositive log probability per token of the vocabulary, a token of the
    vocabulary, a finite reward. *)
Definition model_laws : Prop := forall tokens, exists logits, next_logits tokens = Ok logits
  /\ vocabulary logits = vocabulary_size /\ Z.of_nat (length (log_softmax logits)) = vocabulary_size
  /\ Forall (fun p => exists n, float_value p = FFin n /\ n <= 0) (log_softmax logits).
Definition sampler_laws : Prop := forall g log_probs, log_probs <> [] ->
  0 <= (multinomial g log_probs).1 < Z.of_nat (length log_probs).
Definition reward_laws : Prop := forall record response, exists raw, reward_fn record response = Ok raw /\ finite_float raw = true.

Definition allowed_prob (p : pyfloat) : Prop := exists n, float_value p = FFin n /\ n <= 0.

Context (Hmodel : model_laws) (Hsampler : sampler_laws) (Hreward : reward_laws) (Hvocab : 0 < vocabulary_size).

Section Sample.
Context (o : options) (record : PromptRecord).
Context (Hids : Forall (fun t => t < vocabulary_size) (eos_ids o ++ concat (stops o))).

Lemma next_token_returns g response : exists token p g',
  next_token next_logits vocabulary log_softmax multinomial o record g response = Ok (token, p, g') /\ 0 <= token /\ allowed_prob p.
Proof.
  unfold next_token. destruct (Hmodel (record_prompt record ++ response)) as (logits & -> & Hv & Hlen & Hp). rewrite Hv.
  replace (existsb _ _) with false.
  2:{ symmetry. apply existsb_false. eapply Forall_impl; [exact Hids|]. intros t Ht. cbn in *. lia. }
  assert (forallb finite_float (log_softmax logits) = true) as ->.
  { apply forallb_forall. rewrite Forall_forall in Hp. intros p Hin%list_elem_of_In. destruct (Hp p Hin) as (n & Hn & _).
    unfold finite_float. by rewrite Hn. }
  cbn [negb]. assert (log_softmax logits <> []) as Hne by (intros E; rewrite E in Hlen; simpl in Hlen; lia).
  pose proof (Hsampler g _ Hne) as Hin. destruct (multinomial g (log_softmax logits)) as [token g']. cbn [fst] in Hin.
  destruct (lookup_lt_is_Some_2 (log_softmax logits) (Z.to_nat token)) as [p Hlook]; [lia|]. rewrite Hlook.
  exists token, p, g'. split; [done|]. split; [lia|]. by apply (Forall_lookup_1 _ _ _ _ Hp Hlook).
Qed.

Lemma respond_returns allowed g response behavior :
  Forall (fun t => 0 <= t) response -> Forall allowed_prob behavior ->
  exists out behavior' e g', respond next_logits vocabulary log_softmax multinomial o record allowed g response behavior
      = Ok (out, behavior', e, g')
    /\ Forall (fun t => 0 <= t) out /\ Forall allowed_prob behavior'
    /\ finish_reason e ∈ ["eos"; "stop"; "length"].
Proof.
  revert g response behavior. induction allowed as [|allowed IH]; intros g response behavior Hr Hb; cbn [respond].
  { do 4 eexists. split; [done|]. split; [done|]. split; [done|]. cbn. set_solver. }
  destruct (next_token_returns g response) as (token & p & g1 & -> & Ht & Hp).
  assert (Forall (fun t => 0 <= t) (response ++ [token])) by (apply Forall_app_2; [done|by constructor]).
  assert (Forall allowed_prob (behavior ++ [p])) by (apply Forall_app_2; [done|by constructor]).
  destruct (matched _ _); [do 4 eexists; split; [done|]; split; [done|]; split; [done|]; cbn; set_solver|].
  case_bool_decide; [do 4 eexists; split; [done|]; split; [done|]; split; [done|]; cbn; set_solver|]. by apply IH.
Qed.

Context (Hsorted : StronglySorted (fun a b => longer a b = true) (stops o)) (Hmax : (1 <= max_new_tokens o)%nat).
Context (Hrecord : valid_record record) (version : Z) (Hversion : 0 <= version).
Context (Htruncated : match truncated_reward o with Some f => finite_float f = true | None => True end).

Lemma ids_valid l : l <> [] -> Forall (fun t => 0 <= t) l -> validate_token_ids l = true.
Proof.
  intros Hne Hf. unfold validate_token_ids. rewrite bool_decide_eq_false_2 by done. apply forallb_forall.
  rewrite Forall_forall in Hf. intros t Ht%list_elem_of_In. specialize (Hf t Ht). cbn in *. lia.
Qed.

Lemma finite_inv f : finite_float f = true -> exists n, float_value f = FFin n.
Proof. unfold finite_float. destruct (float_value f); [done|done|by eexists]. Qed.

Lemma one_sample_returns g : exists s g',
  one_sample next_logits vocabulary log_softmax multinomial reward_fn o record version g = Ok (s, g')
  /\ policy_version s = version /\ prompt_ids s = record_prompt record.
Proof.
  unfold one_sample. destruct (respond_returns (max_new_tokens o) g [] []) as (out & behavior & e & g1 & Er & Hout & Hb & Hfin); [done|done|].
  rewrite Er. destruct (respond_inv o record Hsorted _ _ _ _ _ _ _ _ Er) as (Hlen & Hbl & _ & Hst); [done|done|intros k Hk; simpl in Hk; lia|left; lia|].
  destruct (Hreward record (scoring_ids o out e)) as (raw & -> & Hraw).
  destruct (finite_inv _ Hraw) as [n En].
  assert (exists m, float_value (final_reward o e raw) = FFin m) as [m Em].
  { unfold final_reward. case_bool_decide; [|by exists n]. destruct (truncated_reward o) as [f|]; [by apply finite_inv|by exists n]. }
  assert (0 <= Z.of_nat (stop_count e) <= Z.of_nat (length out)) as Hcount.
  { destruct Hst as [(_ & ids & _ & (before & ->) & -> & _)|[(_ & -> & _)|(_ & -> & _)]]; [rewrite length_app|..]; lia. }
  destruct Hrecord as (Hp1 & Hp2 & _). unfold new_sample. rewrite !ids_valid by (done || (intros ->; simpl in Hlen; lia)).
  rewrite Hbl, Nat.eqb_refl. cbn [negb]. replace (existsb _ behavior) with false.
  2:{ symmetry. apply existsb_false. eapply Forall_impl; [exact Hb|]. intros f (k & Hk & Hle). cbn. rewrite Hk. apply Z.ltb_ge.
      transitivity 0; [done|]. unfold micro. apply Z.mul_nonneg_nonneg; [lia|apply Z.pow_nonneg; lia]. }
  cbn [default]. unfold id. rewrite Em, En, bool_decide_eq_true_2 by done. cbn [negb].
  replace ((Z.of_nat (stop_count e) <? 0) || (Z.of_nat (length out) <? Z.of_nat (stop_count e))) with false by lia.
  replace (version <? 0) with false by lia. by do 2 eexists.
Qed.

Lemma samples_return n g : exists ss g',
  samples next_logits vocabulary log_softmax multinomial reward_fn o record n version g = Ok (ss, g')
  /\ length ss = n /\ Forall (fun s => policy_version s = version /\ prompt_ids s = record_prompt record) ss.
Proof.
  revert g. induction n as [|n IH]; intros g; cbn [samples]; [by exists [], g|].
  destruct (one_sample_returns g) as (s & g1 & -> & Hv & Hp). cbn [fst snd].
  destruct (IH g1) as (ss & g2 & -> & Hl & Hf). exists (s :: ss), g2. cbn. split; [done|]. split; [lia|]. by constructor.
Qed.
End Sample.

(** Generation always returns a group: for settings in range, with stop ids
    inside the vocabulary, a model that gives one finite nonpositive log
    probability per vocabulary token, a sampler that draws from the vocabulary
    and a finite reward, no check raises and the loop ends by its limit. *)
Theorem generation_returns strips record size max_new temperature eos eos_list version group_id stop_list truncated g :
  valid_record record -> validate_temperature temperature = Ok tt -> 1 <= size -> 1 <= max_new -> 0 <= version -> 0 <= group_id ->
  as_eos eos = Ok eos_list -> Forall (fun t => t < vocabulary_size) eos_list ->
  Forall (fun ids => ids <> [] /\ Forall (fun t => 0 <= t < vocabulary_size) ids) stop_list ->
  (match truncated with Some f => finite_float f = true | None => True end) ->
  exists group g', generate_group next_logits vocabulary log_softmax multinomial reward_fn strips record (PInt size) (PInt max_new)
    temperature eos (PInt version) (PInt group_id) (map (fun ids => PList (map PInt ids)) stop_list) truncated g = Ok (group, g').
Proof.
  intros Hrecord Htemp Hsize Hmax Hversion Hgroup Heos Heosv Hstops Htrunc. unfold generate_group. rewrite Htemp. cbn [int_at_least].
  destruct (Z.ltb_spec size 1); [lia|]. destruct (Z.ltb_spec max_new 1); [lia|]. destruct (Z.ltb_spec version 0); [lia|].
  destruct (Z.ltb_spec group_id 0); [lia|]. rewrite Heos.
  assert (traverse (check_token_ids "stop_token_sequences" false) (map (fun ids => PList (map PInt ids)) stop_list) = Ok stop_list) as ->.
  { clear -Hstops. induction Hstops as [|ids l [Hne Hids] _ IH]; [done|]. cbn [map traverse]. rewrite IH. unfold check_token_ids.
    assert (traverse (token_id "stop_token_sequences") (map PInt ids) = Ok ids) as Ht.
    { clear -Hids. induction Hids as [|t l Ht _ IH]; [done|]. simpl. destruct (Z.ltb_spec t 0); [lia|]. by rewrite IH. }
    rewrite Ht, bool_decide_eq_false_2; [done|]. by destruct ids. }
  replace (match truncated with Some f => negb (finite_float f) | None => false end) with false
    by (destruct truncated as [f|]; [by rewrite Htrunc|done]).
  set (o := {| max_new_tokens := Z.to_nat max_new |}).
  destruct (samples_return o record) with (version := version) (n := Z.to_nat size) (g := g) as (ss & g1 & -> & Hl & Hf); try done.
  - cbn [eos_ids stops o]. apply Forall_app_2; [done|]. apply Forall_concat. unfold sort_stops. rewrite sorted_by_perm.
    eapply Forall_impl; [exact Hstops|]. intros ids [_ Hids]. eapply Forall_impl; [exact Hids|]. intros t Ht. cbn in *. lia.
  - apply sort_stops_sorted.
  - cbn. lia.
  - cbn [fst snd]. unfold new_rollout_group. destruct ss as [|s0 ss]; [simpl in Hl; lia|].
    destruct (Z.ltb_spec group_id 0); [lia|]. destruct (Z.ltb_spec version 0); [lia|].
    replace (existsb _ (s0 :: ss)) with false.
    2:{ symmetry. apply existsb_false. eapply Forall_impl; [exact Hf|]. intros s [Hv _]. cbn. by rewrite Hv, Z.eqb_refl. }
    replace (existsb _ (s0 :: ss)) with false; [by do 2 eexists|].
    symmetry. apply existsb_false. pose proof (Forall_cons_1 _ _ _ Hf) as [[_ Hfirst] _].
    eapply Forall_impl; [exact Hf|]. intros s [_ Hp]. cbn in *. by rewrite bool_decide_eq_true_2 by congruence.
Qed.
End Total.
End Results.

(** ** Witnesses *)

(** A vocabulary of four tokens, drawn in turn; responses stop with [1; 2] or 3. *)
Definition flat_probs : list pyfloat := replicate 4 (PyFloat "-5e-324" (FFin (-1))).
Definition turn_draw (g : Z) (log_probs : list pyfloat) : Z * Z := (g mod Z.of_nat (length log_probs), g + 1).
Definition unit_reward (_ : PromptRecord) (_ : list Z) : res pyfloat := Ok (PyFloat "5e-324" (FFin 1)).
Definition small_record : PromptRecord := {| record_prompt := [7]; target_ids := None; metadata := [] |}.

Definition small_group (size : Z) : res (RolloutGroup * Z) :=
  generate_group (fun _ => Ok flat_probs) (fun l => Z.of_nat (length l)) (fun l => l) turn_draw unit_reward false small_record
    (PInt size) (PInt 3) (float_const "1.0" 1 1074) (PInt 3) (PInt 0) (PInt 5) [ints [1; 2]] None 0.

Definition responses (r : res (RolloutGroup * Z)) : list (list Z * string * Z) :=
  match r with
  | Ok (group, _) => map (fun s => (response_ids s, sample_finish_reason s, sample_stop_tokens s)) (rg_samples group)
  | Err _ => []
  end.

Lemma generation_stops_right_witness :
  responses (small_group 3) = [([0; 1; 2], "stop", 2); ([3], "eos", 1); ([0; 1; 2], "stop", 2)]
  /\ exists group g', small_group 3 = Ok (group, g') /\ length (rg_samples group) = 3%nat
       /\ exists o, Forall (sample_of unit_reward o small_record 0) (rg_samples group).
Proof.
  split; [vm_compute; reflexivity|]. eexists _, _. assert (small_group 3 = Ok (_, _)) as H by (vm_compute; reflexivity).
  split; [exact H|]. unfold small_group in H.
  destruct (generation_stops_right (fun _ => Ok flat_probs) (fun l => Z.of_nat (length l)) (fun l => l) turn_draw unit_reward
    _ _ _ _ _ _ _ _ _ _ _ _ _ H)
    as (eos_list & stop_list & _ & _ & Hl & _ & _ & o & _ & _ & _ & _ & _ & Hf).
  split; [exact Hl|]. exists o. exact Hf.
Defined.

Lemma flat_laws : model_laws (fun _ => Ok flat_probs) (fun l => Z.of_nat (length l)) (fun l => l) 4.
Proof.
  intros tokens. exists flat_probs. split; [done|]. split; [done|]. split; [done|]. apply Forall_replicate.
  by exists (-1).
Qed.

Lemma generation_returns_witness : exists group g', small_group 2 = Ok (group, g').
Proof.
  apply (generation_returns (fun _ => Ok flat_probs) (fun l => Z.of_nat (length l)) (fun l => l) turn_draw unit_reward 4
    flat_laws) with (eos_list := [3]) (stop_list := [[1; 2]]).
  - intros g log_probs Hne. cbn. apply Z.mod_pos_bound. destruct log_probs; [done|simpl; lia].
  - intros record response. by exists (PyFloat "5e-324" (FFin 1)).
  - lia.
  - split; [done|]. split; [by repeat constructor|done].
  - vm_compute. reflexivity.
  - lia.
  - lia.
  - lia.
  - lia.
  - reflexivity.
  - by repeat constructor.
  - constructor; [split; [done|by repeat constructor]|constructor].
  - exact I.
Defined.
