(* ===== verification/ModelConfig.v ===== *)
(** * The architecture configuration ([dsv41_train/models/dsv4/config.py])

    As in [RLConfig], a configuration is the dictionary of the dataclass's
    fields.  [model_from_dict] reads a checkpoint's [config.json]. *)

From S2P Require Import Prelude PyValue Training TrainingProofs RLConfig RLConfigResults.
Local Open Scope Z_scope.
Local Open Scope py_scope.

(** The fields in order, with the defaults of the three that have one. *)
Definition MODEL_FIELDS : list (string * option pyval) := [
  ("vocab_size", None); ("hidden_size", None); ("num_hidden_layers", None); ("num_attention_heads", None);
  ("head_dim", None); ("q_lora_rank", None); ("qk_rope_head_dim", None); ("rope_theta", None);
  ("compress_rope_theta", None); ("rope_scaling", Some PNone); ("max_position_embeddings", None);
  ("attention_dropout", None); ("sliding_window", None); ("compress_ratios", None); ("kv_source_layer_ids", None);
  ("index_source_layer_ids", None); ("candidate_source_layer_id", None); ("candidate_topk_blocks", None);
  ("candidate_block_size", None); ("index_n_heads", None); ("index_head_dim", None); ("index_topk", None);
  ("o_groups", None); ("o_lora_rank", None); ("moe_intermediate_size", None); ("n_routed_experts", None);
  ("n_shared_experts", None); ("num_experts_per_tok", None); ("scoring_func", None);
  ("gate_temp", Some (float_const "1.0" 1 1074)); ("norm_topk_prob", None); ("routed_scaling_factor", None);
  ("swiglu_limit", None); ("hc_mult", None); ("hc_sinkhorn_iters", None); ("hc_eps", None); ("engram_layer_ids", None);
  ("engram_vocab_size", None); ("engram_num_embeddings", None); ("engram_max_ngram_size", None); ("engram_n_heads", None);
  ("engram_head_dim", None); ("engram_pad_id", None); ("engram_compressed_vocab_size", None); ("initializer_range", None);
  ("rms_norm_eps", None); ("router_aux_loss_coef", Some (float_const "0.001" 1152921504606847 1014)); ("pad_token_id", None);
  ("bos_token_id", None); ("eos_token_id", None)].

Definition MODEL_NAMES : list string := map fst MODEL_FIELDS.

Definition POSITIVE : list string := [
  "vocab_size"; "hidden_size"; "num_hidden_layers"; "num_attention_heads"; "head_dim"; "q_lora_rank"; "qk_rope_head_dim";
  "max_position_embeddings"; "sliding_window"; "candidate_topk_blocks"; "candidate_block_size"; "index_n_heads";
  "index_head_dim"; "index_topk"; "o_groups"; "o_lora_rank"; "moe_intermediate_size"; "n_routed_experts";
  "n_shared_experts"; "hc_mult"; "hc_sinkhorn_iters"; "engram_vocab_size"; "engram_n_heads"; "engram_head_dim";
  "engram_compressed_vocab_size"].

Definition LISTS : list string :=
  ["compress_ratios"; "kv_source_layer_ids"; "index_source_layer_ids"; "engram_layer_ids"; "engram_num_embeddings"].

(** ** Numbers that were not checked to be integers *)

(** [a <= b] *)
Definition py_le (a b : pyval) : res bool :=
  match number a, number b with
  | Some (FFin m), Some (FFin n) => Ok (m <=? n)
  | Some (FInf true), Some FNan | Some FNan, Some _ | Some _, Some FNan => Ok false
  | Some (FInf neg), Some (FInf neg') => Ok (neg || negb neg')
  | Some (FInf neg), Some _ => Ok neg
  | Some _, Some (FInf neg) => Ok (negb neg)
  | _, _ => Err (TypeError "'<=' not supported")
  end.

(** [l[v]]: only an integer (or a truth value) is an index. *)
Definition list_item (l : list pyval) (z : Z) : res pyval :=
  let i := if z <? 0 then z + Z.of_nat (length l) else z in
  match (if i <? 0 then None else l !! Z.to_nat i) with
  | Some x => Ok x
  | None => Err (IndexError "list index out of range")
  end.

Definition py_item (l : list pyval) (v : pyval) : res pyval :=
  match v with
  | PInt z => list_item l z
  | PBool b => list_item l (if b then 1 else 0)
  | _ => Err (TypeError "list indices must be integers or slices")
  end.

(** ** [_validate] *)

Section Validate.
Context (c : pydict).
#[local] Notation "'self' name" := (field c name) (at level 1, name at level 0).
Definition int_of (name : string) : Z := match self name with PInt z => z | _ => 0 end.
Definition ratios : list pyval := list_of (self "compress_ratios").
Definition kv_sources : list pyval := list_of (self "kv_source_layer_ids").
Definition index_sources : list pyval := list_of (self "index_source_layer_ids").

Definition check_ratios : res unit :=
  raise_if (negb (py_eqb (PInt (Z.of_nat (length ratios))) (self "num_hidden_layers")) || existsb (fun r => int_below r 0) ratios)
    (ValueError "compress_ratios must contain one nonnegative integer per decoder layer").

(** [1 <= self.num_experts_per_tok <= self.n_routed_experts] *)
Definition check_experts : res unit :=
  low <-? py_le (PInt 1) (self "num_experts_per_tok");
  high <-? (if low then py_le (self "num_experts_per_tok") (self "n_routed_experts") else Ok false);
  raise_if (negb high) (ValueError "num_experts_per_tok must be in [1, n_routed_experts]").

(** [not 0 <= layer_id < self.num_hidden_layers or self.compress_ratios[layer_id] <= 0] *)
Definition bad_source (layer_id : pyval) : res bool :=
  low <-? py_le (PInt 0) layer_id;
  past <-? (if low then py_le (self "num_hidden_layers") layer_id else Ok true);
  if past then Ok true
  else ratio <-? py_item ratios layer_id; Ok (int_below ratio 1).

(** [any(source <= layer_id for source in self.kv_source_layer_ids)] *)
Fixpoint any_before (sources : list pyval) (layer_id : pyval) : res bool :=
  match sources with
  | [] => Ok false
  | source :: sources => b <-? py_le source layer_id; if b then Ok true else any_before sources layer_id
  end.

Definition check_kv (layer_id : pyval) : res unit :=
  bad <-? bad_source layer_id; raise_if bad (ValueError "invalid KV source layer").

Definition check_index (layer_id : pyval) : res unit :=
  bad <-? bad_source layer_id;
  raise_when bad with_exn ValueError "invalid index source layer";
  found <-? any_before kv_sources layer_id;
  raise_if (negb found) (ValueError "index source has no preceding KV source").

Definition check_layer (layer : nat * pyval) : res unit :=
  if int_below layer.2 1 then Ok tt
  else found <-? any_before kv_sources (PInt (Z.of_nat layer.1));
       raise_if (negb found) (ValueError "compressed layer has no preceding KV source").

Definition check_candidate : res unit :=
  b <-? py_le (PInt 0) (self "candidate_source_layer_id");
  raise_if (b && negb (existsb (py_eqb (self "candidate_source_layer_id")) index_sources))
    (ValueError "candidate_source_layer_id must be an index source").

Definition validate_model : res unit :=
  checks [
    each POSITIVE (fun name => Ok (int_below (self name) 1)) " must be a positive integer";
    check_ratios;
    raise_if ((int_of "head_dim" <? int_of "qk_rope_head_dim") || negb (int_of "qk_rope_head_dim" mod 2 =? 0))
      (ValueError "qk_rope_head_dim must be even and no larger than head_dim");
    raise_if (negb ((int_of "num_attention_heads" * int_of "head_dim") mod int_of "o_groups" =? 0))
      (ValueError "num_attention_heads * head_dim must be divisible by o_groups");
    check_experts;
    (b <-? in_set (self "scoring_func") ["sqrtsoftplus"; "softmax"; "sigmoid"];
     raise_if (negb b) (ValueError "unsupported scoring_func"));
    raise_if (negb (length (list_of (self "engram_num_embeddings")) =? length (list_of (self "engram_layer_ids")))%nat)
      (ValueError "engram_num_embeddings must match engram_layer_ids");
    checks (map check_kv kv_sources);
    checks (map check_index index_sources);
    checks (map check_layer (zip (seq 0 (length ratios)) ratios));
    check_candidate].
End Validate.

(** ** Reading a configuration *)

Fixpoint convert_lists (names : list string) (c : pydict) : res pydict :=
  match names with
  | [] => Ok c
  | name :: names => l <-? iterate (field c name); convert_lists names (dict_set name (PList l) c)
  end.

(** [__post_init__] *)
Definition post_init (c : pydict) : res pydict :=
  c <-? convert_lists LISTS c; _ <-? validate_model c; Ok c.

(** [len(v)] *)
Definition py_len (v : pyval) : res Z :=
  match v with
  | PList l => Ok (Z.of_nat (length l))
  | PDict d => Ok (Z.of_nat (length d))
  | PStr s => Ok (Z.of_nat (String.length s))
  | _ => Err (TypeError "object has no len()")
  end.

(** [l[:n]] *)
Definition slice_to {A} (n : Z) (l : list A) : list A :=
  take (Z.to_nat (if n <? 0 then n + Z.of_nat (length l) else n)) l.

Definition py_slice (n : Z) (v : pyval) : res pyval :=
  match v with
  | PList l => Ok (PList (slice_to n l))
  | PStr s => Ok (PStr (String.string_of_list_ascii (slice_to n (String.list_ascii_of_string s))))
  | _ => Err (TypeError "unhashable type: 'slice'")
  end.

(** The decoder's compression ratios, without those of MTP layers. *)
Definition decoder_ratios (values : pydict) : res pydict :=
  let n := get_none "num_hidden_layers" values in
  let ratios := get_none "compress_ratios" values in
  match default (PInt 0) (dict_get "num_nextn_predict_layers" values) with
  | PInt mtp =>
      raise_when mtp <? 0 with_exn ValueError "num_nextn_predict_layers must be a nonnegative integer";
      count <-? py_len ratios;
      if py_eqb (PInt count) n then Ok values
      else
        let bad := Err (ValueError "compress_ratios must match decoder layers plus any declared MTP layers") in
        match n with
        | PInt _ | PBool _ =>
            let n := match n with PInt z => z | PBool true => 1 | _ => 0 end in
            if negb (count =? n + mtp) then bad
            else sliced <-? py_slice n ratios; Ok (dict_set "compress_ratios" sliced values)
        | PFloat f =>
            if fval_eqb (FFin ((count - mtp) * float_unit)) (float_value f)
            then Err (TypeError "slice indices must be integers") else bad
        | _ => Err (TypeError "unsupported operand type(s) for +")
        end
  | _ => Err (ValueError "num_nextn_predict_layers must be a nonnegative integer")
  end.

(** The released configurations keep token ids outside of [text_config]. *)
Definition override_tokens (root values : pydict) : pydict :=
  foldl (fun values name => match get_none name root with PNone => values | v => dict_set name v values end)
    values ["bos_token_id"; "eos_token_id"; "pad_token_id"].

Definition pad_alias (values : pydict) : pydict :=
  match dict_get "engram_pad_token_id" values, dict_get "engram_pad_id" values with
  | Some v, None => dict_set "engram_pad_id" v values
  | _, _ => values
  end.

Definition missing (values : pydict) : list string :=
  map fst (filter (fun f => match f.2 with None => is_none (get_none f.1 values) | Some _ => false end = true) MODEL_FIELDS).

(** [fields(cls)] of the values, or their defaults. *)
Definition construct_model (values : pydict) : pydict :=
  map (fun f => (f.1, default (default PNone f.2) (dict_get f.1 values))) MODEL_FIELDS.

Definition model_from_dict (root : pydict) : res pydict :=
  values <-? py_dict (default (PDict root) (dict_get "text_config" root));
  let values := pad_alias (override_tokens root values) in
  raise_when negb (bool_decide (missing values = [])) with_exn ValueError "DeepSeek config is missing required fields";
  values <-? decoder_ratios values;
  post_init (construct_model values).

(** * The architecture configuration: the property *)

(** A layer index, as the configuration may write it: [True] is 1. *)
Definition index_of (v : pyval) : option nat :=
  match v with
  | PInt z => if z <? 0 then None else Some (Z.to_nat z)
  | PBool b => Some (if b then 1%nat else 0%nat)
  | _ => None
  end.

(** [v] names a layer that is compressed. *)
Definition compressed_layer (c : pydict) (v : pyval) (layer : nat) : Prop :=
  index_of v = Some layer /\ exists ratio, ratios c !! layer = Some (PInt ratio) /\ 1 <= ratio.

(** Some KV source comes at or before the layer. *)
Definition has_kv_source (c : pydict) (layer : nat) : Prop :=
  exists v source, v ∈ kv_sources c /\ compressed_layer c v source /\ (source <= layer)%nat.

Record valid_model (c : pydict) : Prop := {
  m_names : dict_keys c = MODEL_NAMES;
  m_positive : Forall (fun name => int_from 1 (field c name)) POSITIVE;
  m_lists : Forall (fun name => exists l, field c name = PList l) LISTS;
  m_ratios : Z.of_nat (length (ratios c)) = int_of c "num_hidden_layers" /\ Forall (int_from 0) (ratios c);
  m_rope : int_of c "qk_rope_head_dim" <= int_of c "head_dim" /\ (2 | int_of c "qk_rope_head_dim");
  m_groups : (int_of c "o_groups" | int_of c "num_attention_heads" * int_of c "head_dim");
  m_experts : exists n, number (field c "num_experts_per_tok") = Some (FFin n)
    /\ float_unit <= n <= int_of c "n_routed_experts" * float_unit;
  m_scoring : one_of ["sqrtsoftplus"; "softmax"; "sigmoid"] (field c "scoring_func");
  m_engram : length (list_of (field c "engram_num_embeddings")) = length (list_of (field c "engram_layer_ids"));
  m_kv : Forall (fun v => exists layer, compressed_layer c v layer) (kv_sources c);
  m_index : Forall (fun v => exists layer, compressed_layer c v layer /\ has_kv_source c layer) (index_sources c);
  m_layers : forall layer ratio, ratios c !! layer = Some (PInt ratio) -> 1 <= ratio -> has_kv_source c layer;
  m_candidate : forall z, field c "candidate_source_layer_id" = PInt z -> 0 <= z ->
    exists v, v ∈ index_sources c /\ py_eqb (PInt z) v = true }.

Lemma float_unit_positive : 0 < float_unit.
Proof. unfold float_unit. apply Z.pow_pos_nonneg; lia. Qed.

Lemma py_le_index v w i j b : index_of v = Some i -> index_of w = Some j -> py_le v w = Ok b -> b = true -> (i <= j)%nat.
Proof.
  pose proof float_unit_positive. intros Hv Hw Hle ->. unfold py_le in Hle.
  assert (forall u k, index_of u = Some k -> number u = Some (FFin (Z.of_nat k * float_unit))) as Hn.
  { intros u k Hu. destruct u; try done; simpl in *; [destruct b; injection Hu as <-; simpl; f_equal; f_equal; lia|].
    destruct (Z.ltb_spec z 0); [done|]. injection Hu as <-. do 2 f_equal. rewrite Z2Nat.id; [done|lia]. }
  rewrite (Hn v i Hv), (Hn w j Hw) in Hle. injection Hle as Hle%Z.leb_le. nia.
Qed.

Lemma list_item_nonneg l z x : list_item l z = Ok x -> 0 <= z -> l !! Z.to_nat z = Some x.
Proof.
  unfold list_item. intros H Hz. destruct (Z.ltb_spec z 0); [lia|]. destruct (Z.ltb_spec z 0); [lia|].
  destruct (l !! Z.to_nat z); [|done]. by injection H as ->.
Qed.

Section Valid.
Context (c : pydict) (Hlists : Forall (fun name => exists l, field c name = PList l) LISTS).
Context (n : Z) (Hn : field c "num_hidden_layers" = PInt n).
Context (Hlen : Z.of_nat (length (ratios c)) = n) (Hratios : Forall (int_from 0) (ratios c)).

Lemma bad_source_false v : bad_source c v = Ok false -> exists layer, compressed_layer c v layer.
Proof.
  pose proof float_unit_positive as Hu. unfold bad_source. destruct (py_le (PInt 0) v) as [low|] eqn:El; [|done].
  destruct low; [|done]. rewrite Hn. destruct (py_le (PInt n) v) as [past|] eqn:Ep; [|done]. destruct past; [done|].
  intros H. destruct (py_item (ratios c) v) as [ratio|] eqn:Ei; [|done]. injection H as Hr%int_below_false.
  destruct Hr as (r & -> & Hr). destruct v as [|b|z| | | |]; try done.
  - exists (if b then 1%nat else 0%nat). split; [done|]. exists r. split; [|done]. apply list_item_nonneg in Ei; [|by destruct b].
    by destruct b.
  - unfold py_le in El. cbn [number] in El. injection El as El%Z.leb_le. exists (Z.to_nat z). unfold compressed_layer. cbn [index_of].
    assert (0 <= z) as Hz by nia. destruct (Z.ltb_spec z 0); [lia|]. split; [done|]. exists r. split; [|done].
    by apply list_item_nonneg in Ei.
Qed.

Lemma any_before_true sources v layer : index_of v = Some layer ->
  Forall (fun s => exists i, compressed_layer c s i) sources -> any_before sources v = Ok true ->
  exists s source, s ∈ sources /\ compressed_layer c s source /\ (source <= layer)%nat.
Proof.
  intros Hv. induction 1 as [|s sources (i & Hs) _ IH]; [done|]. cbn [any_before].
  destruct (py_le s v) as [b|] eqn:El; [|done]. destruct b.
  - intros _. exists s, i. split; [left|]. split; [done|]. destruct Hs as [Hi _]. by eapply py_le_index.
  - intros Ha. destruct (IH Ha) as (s' & i' & Hin & Hrest). exists s', i'. by split; [right|].
Qed.
End Valid.

Lemma check_ratios_ok c n : field c "num_hidden_layers" = PInt n -> check_ratios c = Ok tt ->
  Z.of_nat (length (ratios c)) = n /\ Forall (int_from 0) (ratios c).
Proof.
  unfold check_ratios. intros Hn H%raise_if_ok. rewrite Hn in H. apply orb_false_elim in H as [Hl Hr].
  apply negb_false_iff in Hl. cbn in Hl. pose proof float_unit_positive. split.
  - apply Z.eqb_eq in Hl. nia.
  - apply existsb_false in Hr. eapply Forall_impl; [exact Hr|]. intros r. apply int_below_false.
Qed.

Lemma checks_map {A} (f : A -> res unit) l : checks (map f l) = Ok tt -> Forall (fun x => f x = Ok tt) l.
Proof. rewrite checks_ok. by rewrite Forall_fmap. Qed.

Lemma experts_ok c h : field c "n_routed_experts" = PInt h -> check_experts c = Ok tt ->
  exists n, number (field c "num_experts_per_tok") = Some (FFin n) /\ float_unit <= n <= h * float_unit.
Proof.
  unfold check_experts. intros Hh H. destruct (py_le (PInt 1) _) as [low|] eqn:El; [|done]. destruct low; [|done].
  destruct (py_le _ _) as [high|] eqn:Eh in H; [|done]. apply raise_if_ok, negb_false_iff in H as ->.
  rewrite Hh in Eh. unfold py_le in *. cbn [number] in *. destruct (number (field c "num_experts_per_tok")) as [[|neg|m]|]; try done.
  - destruct neg; [done|]. by cbn in Eh.
  - exists m. split; [done|]. injection El as El. injection Eh as Eh. lia.
Qed.

Lemma validate_model_valid c : dict_keys c = MODEL_NAMES -> Forall (fun name => exists l, field c name = PList l) LISTS ->
  validate_model c = Ok tt -> valid_model c.
Proof.
  intros Hnames Hlists H. unfold validate_model in H. apply checks_ok in H.
  apply Forall_cons_1 in H as [Hpos H]. apply Forall_cons_1 in H as [Hratios H]. apply Forall_cons_1 in H as [Hrope H].
  apply Forall_cons_1 in H as [Hgroups H]. apply Forall_cons_1 in H as [Hexperts H]. apply Forall_cons_1 in H as [Hscoring H].
  apply Forall_cons_1 in H as [Hengram H]. apply Forall_cons_1 in H as [Hkv H]. apply Forall_cons_1 in H as [Hindex H].
  apply Forall_cons_1 in H as [Hlayers H]. apply Forall_cons_1 in H as [Hcandidate _].
  apply each_ok in Hpos. assert (Forall (fun name => int_from 1 (field c name)) POSITIVE) as Hp.
  { eapply Forall_impl; [exact Hpos|]. intros name E. injection E as E. by apply int_below_false. }
  assert (forall name, bool_decide (name ∈ POSITIVE) = true -> exists z, field c name = PInt z /\ 1 <= z) as Hint.
  { intros name Hin%bool_decide_eq_true. rewrite Forall_forall in Hp. by apply Hp. }
  destruct (Hint "num_hidden_layers") as (n & Hn & _); [by vm_compute|].
  destruct (Hint "n_routed_experts") as (h & Hh & _); [by vm_compute|].
  destruct (Hint "o_groups") as (g & Hg & Hg1); [by vm_compute|].
  destruct (check_ratios_ok c n Hn Hratios) as [Hlen Hrs].
  apply raise_if_ok, orb_false_elim in Hrope as [Hdim Heven]. apply raise_if_ok, negb_false_iff in Hgroups.
  apply raise_if_ok, negb_false_iff, Nat.eqb_eq in Hengram.
  assert (Forall (fun v => exists layer, compressed_layer c v layer) (kv_sources c)) as Hkvs.
  { apply checks_map in Hkv. eapply Forall_impl; [exact Hkv|]. intros v Hv. unfold check_kv in Hv.
    destruct (bad_source c v) as [[]|] eqn:E; try done. by apply (bad_source_false c n Hn). }
  constructor; try done.
  - split; [|done]. unfold int_of. by rewrite Hn.
  - split; [lia|]. apply negb_false_iff, Z.eqb_eq in Heven. by apply Z.mod_divide.
  - assert (int_of c "o_groups" = g) as Eg by (unfold int_of; by rewrite Hg).
    apply Z.eqb_eq in Hgroups. apply Z.mod_divide; [lia|done].
  - unfold int_of. rewrite Hh. by apply experts_ok.
  - destruct (in_set _ _) as [[]|] eqn:E in Hscoring; try done. by apply in_set_true.
  - apply checks_map in Hindex. eapply Forall_impl; [exact Hindex|]. intros v Hv. unfold check_index in Hv.
    destruct (bad_source c v) as [[]|] eqn:E; try done. destruct (any_before (kv_sources c) v) as [[]|] eqn:Ea; try done.
    destruct (bad_source_false c n Hn v E) as (layer & Hl). exists layer. split; [done|].
    unfold has_kv_source. apply (any_before_true c (kv_sources c) v); [by destruct Hl|done|done].
  - intros layer ratio Hl Hr. apply checks_map in Hlayers. rewrite Forall_forall in Hlayers.
    specialize (Hlayers (layer, PInt ratio)). unfold check_layer in Hlayers. cbn [fst snd int_below] in Hlayers.
    destruct (Z.ltb_spec ratio 1); [lia|]. destruct (any_before (kv_sources c) (PInt (Z.of_nat layer))) as [[]|] eqn:Ea.
    + apply (any_before_true c (kv_sources c) (PInt (Z.of_nat layer))); [|done|done].
      cbn. destruct (Z.ltb_spec (Z.of_nat layer) 0); [lia|]. by rewrite Nat2Z.id.
    + exfalso. discriminate Hlayers. apply list_elem_of_lookup. exists layer. apply lookup_zip_with_Some.
      exists layer, (PInt ratio). split; [done|]. split; [|done]. apply lookup_seq. split; [lia|]. by apply lookup_lt_Some in Hl.
    + exfalso. discriminate Hlayers. apply list_elem_of_lookup. exists layer. apply lookup_zip_with_Some.
      exists layer, (PInt ratio). split; [done|]. split; [|done]. apply lookup_seq. split; [lia|]. by apply lookup_lt_Some in Hl.
  - intros z Hz Hpos'. unfold check_candidate in Hcandidate. rewrite Hz in Hcandidate. unfold py_le in Hcandidate.
    cbn [number] in Hcandidate. apply raise_if_ok in Hcandidate. pose proof float_unit_positive.
    destruct (Z.leb_spec (0 * float_unit) (z * float_unit)); [|nia]. cbn [andb] in Hcandidate.
    apply negb_false_iff, existsb_exists in Hcandidate as (v & Hin & He). exists v. split; [|done]. by apply list_elem_of_In.
Qed.

(** ** What [model_from_dict] returns *)

Lemma dict_set_keys k v d : k ∈ dict_keys d -> dict_keys (dict_set k v d) = dict_keys d.
Proof.
  induction d as [|[k' w] d IH]; cbn; [by intros ?%not_elem_of_nil|]. case_bool_decide as E; [done|]. intros Hin.
  apply elem_of_cons in Hin as [->|Hin]; [done|]. cbn. f_equal. by apply IH.
Qed.

Lemma field_set k k' v d : field (dict_set k' v d) k = if bool_decide (k = k') then v else field d k.
Proof. unfold field, get_none. rewrite dict_get_set. by case_bool_decide. Qed.

Lemma convert_lists_inv names c d : NoDup names -> Forall (fun n => n ∈ dict_keys c) names -> convert_lists names c = Ok d ->
  dict_keys d = dict_keys c /\ (forall n, n ∉ names -> field d n = field c n)
  /\ Forall (fun n => exists l, iterate (field c n) = Ok l /\ field d n = PList l) names.
Proof.
  revert c. induction names as [|name names IH]; intros c Hnd Hin; cbn [convert_lists]; [by intros [= <-]|].
  apply NoDup_cons in Hnd as [Hname Hnd]. apply Forall_cons in Hin as [Hk Hin].
  destruct (iterate (field c name)) as [l|] eqn:El; [|done]. intros H.
  destruct (IH (dict_set name (PList l) c) Hnd) as (Hkeys & Hother & Hlists); [|exact H|].
  { eapply Forall_impl; [exact Hin|]. intros n Hn. cbn in *. by rewrite dict_set_keys. }
  split; [by rewrite Hkeys, dict_set_keys|]. split.
  - intros n Hn. rewrite Hother by set_solver. rewrite field_set. rewrite bool_decide_eq_false_2; [done|]. set_solver.
  - constructor.
    + exists l. split; [done|]. rewrite Hother by done. rewrite field_set. by rewrite bool_decide_eq_true_2.
    + apply Forall_forall. intros n Hn. rewrite Forall_forall in Hlists. destruct (Hlists n Hn) as (l' & Hl' & Hd).
      rewrite field_set, bool_decide_eq_false_2 in Hl' by (intros ->; done). by exists l'.
Qed.

Lemma convert_lists_done names c : Forall (fun n => n ∈ dict_keys c /\ exists l, field c n = PList l) names -> convert_lists names c = Ok c.
Proof.
  induction 1 as [|name names [Hin (l & Hl)] _ IH]; [done|]. cbn [convert_lists]. rewrite Hl. cbn [iterate].
  rewrite dict_set_same; [done|]. rewrite (has_key name c Hin). unfold field in Hl. by rewrite Hl.
Qed.

Lemma construct_keys values : dict_keys (construct_model values) = MODEL_NAMES.
Proof. unfold construct_model, dict_keys, MODEL_NAMES. by rewrite map_map. Qed.

Lemma construct_field values name : name ∈ MODEL_NAMES -> get_none name values <> PNone ->
  field (construct_model values) name = get_none name values.
Proof.
  unfold construct_model, MODEL_NAMES, field. generalize MODEL_FIELDS. intros fs.
  induction fs as [|[n d] fs IH]; cbn; [by intros ?%not_elem_of_nil|]. intros Hin Hne. unfold get_none at 1. cbn [dict_get fst snd].
  case_bool_decide as E.
  - subst. unfold get_none in *. by destruct (dict_get n values).
  - apply elem_of_cons in Hin as [->|Hin]; [done|]. by apply IH.
Qed.

Lemma required_present values : missing values = [] -> Forall (fun n => get_none n values <> PNone)
  (map fst (filter (fun f => f.2 = None) MODEL_FIELDS)).
Proof.
  unfold missing. generalize MODEL_FIELDS. intros fs. induction fs as [|[n d] fs IH]; [constructor|]. rewrite !filter_cons. cbn [fst snd].
  destruct d as [v|].
  - rewrite decide_False by done. rewrite decide_False by done. done.
  - rewrite (decide_True (P := None = None)) by done. case_decide as E; [done|]. intros H. cbn [map fst]. constructor; [|by apply IH].
    intros Hn. apply E. by apply is_none_true.
Qed.

Lemma iterate_none : iterate PNone = Err (TypeError "object is not iterable").
Proof. done. Qed.

(** The configuration of [config.json] values after the token ids and aliases. *)
Lemma model_from_dict_inv root c : model_from_dict root = Ok c ->
  exists values kept, py_dict (default (PDict root) (dict_get "text_config" root)) = Ok values
  /\ decoder_ratios (pad_alias (override_tokens root values)) = Ok kept
  /\ missing (pad_alias (override_tokens root values)) = [] /\ post_init (construct_model kept) = Ok c.
Proof.
  unfold model_from_dict. intros H. destruct (py_dict _) as [values|] eqn:Ev; [|done]. destruct (negb _) eqn:E; [done|].
  destruct (decoder_ratios _) as [kept|] eqn:Ek; [|done]. exists values, kept. by apply negb_false_iff, bool_decide_eq_true in E.
Qed.

Lemma lists_known : NoDup LISTS /\ forall c, dict_keys c = MODEL_NAMES -> Forall (fun n => n ∈ dict_keys c) LISTS.
Proof.
  split; [apply (bool_decide_unpack _); by vm_compute|]. intros c ->. apply (bool_decide_unpack _). by vm_compute.
Qed.

Lemma post_init_inv values c : post_init (construct_model values) = Ok c ->
  dict_keys c = MODEL_NAMES /\ Forall (fun n => exists l, iterate (field (construct_model values) n) = Ok l /\ field c n = PList l) LISTS
  /\ (forall n, n ∉ LISTS -> field c n = field (construct_model values) n) /\ validate_model c = Ok tt.
Proof.
  unfold post_init. destruct (convert_lists LISTS (construct_model values)) as [d|] eqn:E; [|done].
  destruct (validate_model d) as [[]|] eqn:Ev; [|done]. intros [= <-]. destruct lists_known as [Hnd Hkeys].
  destruct (convert_lists_inv _ _ _ Hnd (Hkeys _ (construct_keys values)) E) as (Hk & Hother & Hlists).
  split; [by rewrite Hk, construct_keys|]. done.
Qed.

(** ** The round trip *)

Definition REQUIRED : list string := map fst (filter (fun f => f.2 = None) MODEL_FIELDS).

Lemma decoder_ratios_inv values kept : decoder_ratios values = Ok kept ->
  (forall n, n <> "compress_ratios" -> get_none n kept = get_none n values)
  /\ (get_none "compress_ratios" values <> PNone -> get_none "compress_ratios" kept <> PNone)
  /\ forall l n, get_none "compress_ratios" values = PList l -> get_none "num_hidden_layers" values = PInt n -> 0 <= n ->
       get_none "compress_ratios" kept = PList (take (Z.to_nat n) l).
Proof.
  unfold decoder_ratios. intros H. destruct (default _ _) as [| |mtp| | | |]; try done. destruct (mtp <? 0) eqn:Em; [done|].
  destruct (py_len _) as [count|] eqn:El; [|done]. destruct (py_eqb (PInt count) _) eqn:Eq.
  { injection H as <-. split; [done|]. split; [done|]. intros l n Hl Hn _. rewrite Hl, Hn in *. injection El as <-.
    cbn in Eq. apply Z.eqb_eq in Eq. pose proof float_unit_positive. rewrite take_ge; [done|nia]. }
  assert (forall n sliced, py_slice n (get_none "compress_ratios" values) = Ok sliced ->
    kept = dict_set "compress_ratios" sliced values ->
    (forall k, k <> "compress_ratios" -> get_none k kept = get_none k values) /\ get_none "compress_ratios" kept = sliced /\ sliced <> PNone) as Hset.
  { intros n sliced Hs ->. split; [|split].
    - intros k Hk. unfold get_none. rewrite dict_get_set. by rewrite bool_decide_eq_false_2.
    - unfold get_none. rewrite dict_get_set. by rewrite bool_decide_eq_true_2.
    - unfold py_slice in Hs. by destruct (get_none _ values); try done; injection Hs as <-. }
  destruct (get_none "num_hidden_layers" values) as [|b|n|f| | |] eqn:En; try done.
  - destruct (negb _); [done|]. destruct (py_slice _ _) as [sliced|] eqn:Es; [|done]. injection H as <-.
    destruct (Hset _ _ Es eq_refl) as (Ho & Hr & Hne). split; [done|]. split; [by rewrite Hr|]. intros l n _ Hn. congruence.
  - destruct (negb _); [done|]. destruct (py_slice _ _) as [sliced|] eqn:Es; [|done]. injection H as <-.
    destruct (Hset _ _ Es eq_refl) as (Ho & Hr & Hne). split; [done|]. split; [by rewrite Hr|].
    intros l n' Hl [= <-] Hpos. rewrite Hr. rewrite Hl in Es. unfold py_slice, slice_to in Es.
    destruct (Z.ltb_spec n 0); [lia|]. by injection Es as <-.
  - destruct (fval_eqb _ _); done.
Qed.

Section Again.
Context (c : pydict) (Hk : dict_keys c = MODEL_NAMES) (Hreq : Forall (fun n => get_none n c <> PNone) REQUIRED)
  (Hv : valid_model c) (Hok : validate_model c = Ok tt).

Lemma absent k : bool_decide (k ∉ MODEL_NAMES) = true -> dict_get k c = None.
Proof. intros H%bool_decide_eq_true. apply dict_get_None_keys. by rewrite Hk. Qed.

Lemma present k : bool_decide (k ∈ MODEL_NAMES) = true -> dict_get k c = Some (get_none k c).
Proof. intros H%bool_decide_eq_true. apply has_key. by rewrite Hk. Qed.

Lemma override_tokens_done : override_tokens c c = c.
Proof.
  assert (forall k, bool_decide (k ∈ MODEL_NAMES) = true -> match get_none k c with PNone => c | v => dict_set k v c end = c) as Hset.
  { intros k Hin%present. destruct (get_none k c) eqn:E; try done; by rewrite dict_set_same by (rewrite Hin; done). }
  unfold override_tokens. cbn [foldl]. by rewrite !Hset by by vm_compute.
Qed.

Lemma missing_none values : Forall (fun n => get_none n values <> PNone) REQUIRED -> missing values = [].
Proof.
  unfold missing, REQUIRED. generalize MODEL_FIELDS. intros fs. induction fs as [|[n d] fs IH]; [done|]. rewrite !filter_cons. cbn [fst snd].
  destruct d as [v|].
  - rewrite decide_False by done. rewrite decide_False by done. done.
  - rewrite (decide_True (P := None = None)) by done. cbn [map fst]. intros [Hn H]%Forall_cons.
    rewrite decide_False; [by apply IH|]. intros ?%is_none_true. done.
Qed.

Lemma construct_done_model : construct_model c = c.
Proof.
  assert (NoDup MODEL_NAMES) as Hnd by (apply (bool_decide_unpack _); by vm_compute).
  transitivity (map (fun k => (k, get_none k c)) MODEL_NAMES).
  - unfold construct_model, MODEL_NAMES. rewrite map_map. apply map_ext_in. intros f Hin%list_elem_of_In. cbn.
    rewrite (has_key f.1 c); [done|]. rewrite Hk. apply list_elem_of_fmap. by exists f.
  - rewrite <- Hk. apply dict_of_keys. by rewrite Hk.
Qed.

Lemma model_from_dict_again : model_from_dict c = Ok c.
Proof.
  unfold model_from_dict. rewrite absent by by vm_compute. cbn [default py_dict]. rewrite override_tokens_done.
  unfold pad_alias. rewrite absent by by vm_compute. rewrite missing_none by done. rewrite bool_decide_eq_true_2 by done. cbn [negb].
  pose proof (m_lists c Hv) as Hl.
  assert (exists l, field c "compress_ratios" = PList l) as (l & El) by (apply Forall_cons in Hl; apply Hl).
  destruct (m_ratios c Hv) as [Hlen _]. unfold ratios in Hlen. rewrite El in Hlen. cbn [list_of] in Hlen.
  assert (exists n, field c "num_hidden_layers" = PInt n) as (n & En).
  { pose proof (m_positive c Hv) as Hp. unfold POSITIVE in Hp. do 2 apply Forall_inv_tail in Hp. apply Forall_inv in Hp. destruct Hp as (n & -> & _). by exists n. }
  unfold int_of in Hlen. rewrite En in Hlen.
  unfold decoder_ratios. rewrite absent by by vm_compute. cbn [default]. change (0 <? 0) with false. cbv iota. unfold field in El, En. rewrite El, En. cbn [py_len].
  rewrite Hlen. cbn [py_eqb number fval_eqb]. rewrite Z.eqb_refl.
  unfold post_init. rewrite construct_done_model, convert_lists_done; [by rewrite Hok|].
  rewrite Forall_forall in Hl |- *. intros name Hname. split; [|by apply Hl]. destruct lists_known as [_ Hkn].
  specialize (Hkn c Hk). rewrite Forall_forall in Hkn. by apply Hkn.
Qed.
End Again.

(** A checkpoint configuration that is accepted is consistent: the sizes are
    positive integers; the decoder has one compression ratio per layer, the
    MTP entries of a released file being cut off; heads, groups and experts
    divide as the layers need; every KV source is a compressed layer, and every
    compressed layer and index source has one at or before it; the candidate
    source is an index source.  Reading a configuration back gives it again. *)
Theorem model_config_consistent root c : model_from_dict root = Ok c ->
  valid_model c /\ model_from_dict c = Ok c
  /\ forall l n, dict_get "text_config" root = None -> get_none "compress_ratios" root = PList l ->
       get_none "num_hidden_layers" root = PInt n -> ratios c = take (Z.to_nat n) l.
Proof.
  intros H. destruct (model_from_dict_inv _ _ H) as (values & kept & Hvalues & Hkept & Hmissing & Hpost).
  destruct (post_init_inv _ _ Hpost) as (Hk & Hlists & Hother & Hok).
  assert (Forall (fun n => exists l, field c n = PList l) LISTS) as Hl
    by (eapply Forall_impl; [exact Hlists|]; intros n (l & _ & Hd); by exists l).
  pose proof (validate_model_valid c Hk Hl Hok) as Hv. split; [done|].
  set (V := pad_alias (override_tokens root values)) in *. destruct (decoder_ratios_inv _ _ Hkept) as (Hsame & Hcr & Hcut).
  pose proof (required_present V Hmissing) as Hreq. fold REQUIRED in Hreq.
  assert (Forall (fun n => n ∈ MODEL_NAMES) REQUIRED) as Hin by (apply (bool_decide_unpack _); by vm_compute).
  assert (Forall (fun n => get_none n kept <> PNone) REQUIRED) as Hreqk.
  { eapply Forall_impl; [exact Hreq|]. intros n Hn. cbn in Hn. destruct (decide (n = "compress_ratios")) as [->|Hne]; [by apply Hcr|].
    by rewrite Hsame. }
  split.
  - apply model_from_dict_again; try done. rewrite Forall_forall in Hreqk, Hin, Hl |- *. intros n Hn.
    destruct (decide (n ∈ LISTS)) as [Hln|Hln]; [destruct (Hl n Hln) as (l & El); unfold field in El; by rewrite El|].
    specialize (Hother n Hln). unfold field at 1 in Hother. rewrite Hother. rewrite construct_field; [by apply Hreqk|by apply Hin|by apply Hreqk].
  - intros l n Ht Hr Hn. rewrite Ht in Hvalues. cbn [default py_dict] in Hvalues. injection Hvalues as <-.
    assert (forall k, k ∉ ["bos_token_id"; "eos_token_id"; "pad_token_id"; "engram_pad_id"] -> get_none k V = get_none k root) as HV.
    { intros k Hk'. unfold V, pad_alias, override_tokens. cbn [foldl].
      assert (forall a d, k <> a -> get_none k (match get_none a root with PNone => d | v => dict_set a v d end) = get_none k d) as Hd.
      { intros a d Ha. unfold get_none at 1 3. destruct (get_none a root); try done; rewrite dict_get_set;
          by rewrite bool_decide_eq_false_2. }
      set (d3 := match get_none "pad_token_id" root with PNone => _ | _ => _ end).
      assert (get_none k d3 = get_none k root) as <- by (unfold d3; rewrite !Hd by set_solver; done).
      destruct (dict_get "engram_pad_token_id" d3) as [v|]; [|done]. destruct (dict_get "engram_pad_id" d3); [done|].
      unfold get_none. rewrite dict_get_set. rewrite bool_decide_eq_false_2; [done|set_solver]. }
    assert (int_from 1 (field c "num_hidden_layers")) as (n' & En & Hn').
    { pose proof (m_positive c Hv) as Hp. unfold POSITIVE in Hp. do 2 apply Forall_inv_tail in Hp. by apply Forall_inv in Hp. }
    assert (get_none "num_hidden_layers" kept = PInt n) as Hnk by (rewrite Hsame, HV by set_solver; done).
    assert ("num_hidden_layers" ∈ MODEL_NAMES /\ "compress_ratios" ∈ MODEL_NAMES /\ "num_hidden_layers" ∉ LISTS) as (Hin1 & Hin2 & Hnl)
      by (split; [|split]; apply (bool_decide_unpack _); by vm_compute).
    assert (field (construct_model kept) "num_hidden_layers" = PInt n) as Hf
      by (rewrite construct_field; [exact Hnk|exact Hin1|by rewrite Hnk]).
    rewrite (Hother _ Hnl), Hf in En. injection En as ->.
    rewrite HV in Hcut by set_solver. rewrite HV in Hcut by set_solver. specialize (Hcut l n' Hr Hn ltac:(lia)).
    rewrite Forall_forall in Hlists. destruct (Hlists "compress_ratios") as (l' & Hi & Hd); [by left|].
    assert (field (construct_model kept) "compress_ratios" = PList (take (Z.to_nat n') l)) as Hf'
      by (rewrite construct_field; [exact Hcut|exact Hin2|by rewrite Hcut]).
    rewrite Hf' in Hi. injection Hi as <-.
    unfold ratios. by rewrite Hd.
Qed.

(** ** Witness: the test configuration, with one MTP layer *)

Definition tiny_root : pydict := [
  ("model_type", PStr "deepseek_v41"); ("vocab_size", PInt 32); ("hidden_size", PInt 256); ("num_hidden_layers", PInt 6);
  ("num_attention_heads", PInt 8); ("head_dim", PInt 64); ("q_lora_rank", PInt 128); ("qk_rope_head_dim", PInt 32);
  ("rope_theta", float_const "10000.0" 625 1078); ("compress_rope_theta", float_const "160000.0" 625 1082);
  ("rope_scaling", PNone); ("max_position_embeddings", PInt 128); ("attention_dropout", float_const "0.0" 0 0);
  ("sliding_window", PInt 32); ("compress_ratios", PList [PInt 0; PInt 2; PInt 2; PInt 1; PInt 1; PInt 1; PInt 1]);
  ("kv_source_layer_ids", PList [PInt 1; PInt 3]); ("index_source_layer_ids", PList [PInt 1; PInt 3; PInt 4]);
  ("candidate_source_layer_id", PInt 3); ("candidate_topk_blocks", PInt 4); ("candidate_block_size", PInt 4);
  ("index_n_heads", PInt 4); ("index_head_dim", PInt 64); ("index_topk", PInt 16); ("o_groups", PInt 4);
  ("o_lora_rank", PInt 128); ("moe_intermediate_size", PInt 512); ("n_routed_experts", PInt 8); ("n_shared_experts", PInt 1);
  ("num_experts_per_tok", PInt 2); ("scoring_func", PStr "sqrtsoftplus"); ("gate_temp", float_const "1.0" 1 1074);
  ("norm_topk_prob", PBool true); ("routed_scaling_factor", float_const "1.0" 1 1074);
  ("swiglu_limit", float_const "10.0" 5 1075); ("hc_mult", PInt 4); ("hc_sinkhorn_iters", PInt 20);
  ("hc_eps", float_const "1e-06" 4722366482869645 1002); ("engram_layer_ids", PList [PInt 1]);
  ("engram_vocab_size", PInt 251); ("engram_num_embeddings", PList [PInt 4096]); ("engram_max_ngram_size", PInt 4);
  ("engram_n_heads", PInt 2); ("engram_head_dim", PInt 32); ("engram_pad_id", PInt 0);
  ("engram_compressed_vocab_size", PInt 32); ("initializer_range", float_const "0.02" 5764607523034235 1016);
  ("rms_norm_eps", float_const "1e-20" 6646139978924579 955);
  ("router_aux_loss_coef", float_const "0.001" 1152921504606847 1014); ("pad_token_id", PInt 0); ("bos_token_id", PInt 1);
  ("eos_token_id", PInt 2); ("num_nextn_predict_layers", PInt 1)].

Lemma model_config_consistent_witness : exists c, model_from_dict tiny_root = Ok c
  /\ ratios c = [PInt 0; PInt 2; PInt 2; PInt 1; PInt 1; PInt 1] /\ valid_model c /\ model_from_dict c = Ok c.
Proof.
  eexists. assert (model_from_dict tiny_root = Ok _) as H by (vm_compute; reflexivity).
  destruct (model_config_consistent _ _ H) as (Hv & Hagain & _).
  split; [exact H|]. split; [vm_compute; reflexivity|]. split; [exact Hv|exact Hagain].
Defined.
