(* ===== verification/Workloads.v ===== *)
(** * Task-group schedules ([rollout_manager/workloads.py])

    [suite_groups] lays out the groups of a reproducible evaluation and
    [GroupSchedule] hands their samples to a pool of workers.  [take] and
    [complete] run under the schedule's condition: a run is a sequence of them,
    and a turn of the loop of [take] is one step. *)

From stdpp Require Import pretty.
From S2P Require Import Prelude PyValue.
Local Open Scope Z_scope.
Local Open Scope py_scope.

(** ** Groups *)

Record rollout := { group_id : string; pass_index : Z; sample_index : nat; group_size : nat; sampling_seed : Z }.

#[export] Instance rollout_eq_dec : EqDecision rollout.
Proof. solve_decision. Defined.

(** A case of the suite, and one sample of it. *)
Record suite_case := { task_id : string; request : pydict }.
Record sample_case := { sample_task : string; sample_request : pydict; sample_rollout : rollout }.

(** A group and its samples. *)
Abbreviation group := (string * list sample_case)%type.

Section Suite.
(** [random.Random(seed).shuffle(list(range(n)))], and the first four bytes of
    a SHA-256 digest as an integer. *)
Context (shuffle : Z -> nat -> list nat) (sha256_int : string -> Z).

Definition group_name (repeat : Z) (ordinal : nat) : string :=
  "p" +:+ pretty repeat +:+ "-task" +:+ pretty ordinal.

Definition sample_identity (seed repeat : Z) (task : string) (sample : nat) : string :=
  pretty seed +:+ ":" +:+ pretty repeat +:+ ":" +:+ task +:+ ":" +:+ pretty sample.

Definition make_sample (seed repeat : Z) (rollouts ordinal : nat) (case : suite_case) (sample : nat) : sample_case :=
  let s := sha256_int (sample_identity seed repeat (task_id case) sample) in
  {| sample_task := task_id case;
     sample_request := dict_set "seed" (PInt s) (request case);
     sample_rollout := {| group_id := group_name repeat ordinal; pass_index := repeat; sample_index := sample;
                          group_size := rollouts; sampling_seed := s |} |}.

Definition pass_groups (cases : list suite_case) (rollouts : nat) (seed repeat : Z) : list group :=
  omap (fun ordinal => match cases !! ordinal with
    | Some case => Some (group_name repeat ordinal, map (make_sample seed repeat rollouts ordinal case) (seq 0 rollouts))
    | None => None
    end) (shuffle (seed + repeat) (length cases)).

Definition suite_groups (cases : list suite_case) (rollouts passes seed : Z) : res (list group) :=
  raise_when bool_decide (cases = []) || negb (distinct (map task_id cases))
    with_exn ValueError "full-suite cases must have unique task IDs";
  raise_when Z.min rollouts passes <? 1 with_exn ValueError "rollout and pass counts must be positive";
  Ok (concat (map (fun repeat => pass_groups cases (Z.to_nat rollouts) seed (Z.of_nat repeat)) (seq 0 (Z.to_nat passes)))).
End Suite.

(** ** [GroupSchedule] *)

Section Schedule.
Context {R : Type}.

(** A group being run: the samples left, and the results so far. *)
Record progress := { remaining : Z; results : list R }.
Record finished_group := { f_group : string; f_task : string; f_pass : Z; f_results : list R }.

Record schedule := {
  pending : list group;
  ready : list sample_case;
  active : list (string * progress);
  finished : list finished_group;
  max_groups : Z }.

Definition new_schedule (groups : list group) (max_groups : Z) : res schedule :=
  raise_when max_groups <? 1 with_exn ValueError "at least one active group is required";
  Ok {| pending := groups; ready := []; active := []; finished := []; max_groups := max_groups |}.

(** [self.active[group] = ...] *)
Fixpoint set_progress (k : string) (p : progress) (l : list (string * progress)) : list (string * progress) :=
  match l with
  | [] => [(k, p)]
  | (k', q) :: l => if bool_decide (k = k') then (k', p) :: l else (k', q) :: set_progress k p l
  end.

(** The inner loop of [take]: groups become active while there is room. *)
Fixpoint activate (pending : list group) (ready : list sample_case) (active : list (string * progress)) (max_groups : Z)
    : list group * list sample_case * list (string * progress) :=
  match pending with
  | [] => (pending, ready, active)
  | (g, samples) :: rest =>
      if Z.of_nat (length active) <? max_groups
      then activate rest (ready ++ samples)
             (set_progress g {| remaining := Z.of_nat (length samples); results := [] |} active) max_groups
      else (pending, ready, active)
  end.

(** A sample, the end of the work, or another turn. *)
Inductive taken := Sample (case : sample_case) | Nothing | Again.

Definition take_turn (cancelled : bool) (s : schedule) : taken * schedule :=
  if cancelled then (Nothing, s)
  else
    let '(p, r, a) := activate (pending s) (ready s) (active s) (max_groups s) in
    match r with
    | case :: r => (Sample case, {| pending := p; ready := r; active := a; finished := finished s; max_groups := max_groups s |})
    | [] => (match a with [] => Nothing | _ => Again end,
             {| pending := p; ready := r; active := a; finished := finished s; max_groups := max_groups s |})
    end.

Fixpoint get_progress (k : string) (l : list (string * progress)) : option progress :=
  match l with [] => None | (k', p) :: l => if bool_decide (k = k') then Some p else get_progress k l end.

Definition complete (case : sample_case) (result : R) (s : schedule) : res schedule :=
  let g := group_id (sample_rollout case) in
  match get_progress g (active s) with
  | None => Err (KeyError g)
  | Some item =>
      let item := {| remaining := remaining item - 1; results := results item ++ [result] |} in
      if remaining item =? 0
      then Ok {| pending := pending s; ready := ready s; active := filter (fun e => e.1 <> g) (active s);
                 finished := finished s ++ [{| f_group := g; f_task := sample_task case;
                                               f_pass := pass_index (sample_rollout case); f_results := results item |}];
                 max_groups := max_groups s |}
      else Ok {| pending := pending s; ready := ready s; active := set_progress g item (active s);
                 finished := finished s; max_groups := max_groups s |}
  end.
End Schedule.
Arguments progress : clear implicits.
Arguments finished_group : clear implicits.
Arguments schedule : clear implicits.

(** ** [summary] *)

Record episode := { started_unix_ns : Z; finished_unix_ns : Z; verified_correct : bool; job : string }.

Definition minimum (l : list Z) : res Z :=
  match l with [] => Err (ValueError "min() arg is an empty sequence") | x :: l => Ok (foldl Z.min x l) end.
Definition maximum (l : list Z) : res Z :=
  match l with [] => Err (ValueError "max() arg is an empty sequence") | x :: l => Ok (foldl Z.max x l) end.

(** Times in nanoseconds; the source divides them by 1e9. *)
Record group_summary := {
  gs_group : string; gs_task : string; gs_pass : Z; episodes : nat; verified : nat;
  group_wall_ns : Z; completion_spread_ns : Z; jobs : list string }.

Definition summarise (item : finished_group episode) : res group_summary :=
  let rs := f_results item in
  first <-? minimum (map started_unix_ns rs);
  last <-? maximum (map finished_unix_ns rs);
  earliest <-? minimum (map finished_unix_ns rs);
  Ok {| gs_group := f_group item; gs_task := f_task item; gs_pass := f_pass item; episodes := length rs;
        verified := length (filter (fun r => verified_correct r = true) rs);
        group_wall_ns := last - first; completion_spread_ns := last - earliest; jobs := map job rs |}.

Record schedule_summary := {
  ss_expected_groups : nat; ss_expected_episodes : nat; completed_groups : nat; pending_groups : nat;
  incomplete_groups : list (string * (Z * nat)); group_summaries : list group_summary }.

Definition summary (groups : list group) (s : schedule episode) : res schedule_summary :=
  summaries <-? traverse summarise (finished s);
  Ok {| ss_expected_groups := length groups; ss_expected_episodes := sum_list (map (fun g => length g.2) groups);
        completed_groups := length summaries; pending_groups := length (pending s);
        incomplete_groups := map (fun e => (e.1, (remaining e.2, length (results e.2)))) (active s);
        group_summaries := summaries |}.

(** ** [external_schedule_coverage] *)

(** A result reported by the external driver. *)
Record external_result := { x_task : string; x_rollout : rollout; x_episode : episode }.

Abbreviation observations := (gmap string (list external_result)).

(** One turn of the first loop: what is seen and what is observed. *)
Definition observe (expected : gmap string (list sample_case)) (seen : list (string * nat)) (observed : observations)
    (x : external_result) : res (list (string * nat) * observations) :=
  let g := group_id (x_rollout x) in
  let identity := (g, sample_index (x_rollout x)) in
  match expected !! g with
  | None => Err (ValueError "unexpected or duplicate externally scheduled sample")
  | Some samples =>
      raise_when bool_decide (identity ∈ seen)
        with_exn ValueError "unexpected or duplicate externally scheduled sample";
      match list_find (fun c => sample_index (sample_rollout c) = sample_index (x_rollout x)) samples with
      | Some (_, c) =>
          raise_when negb (bool_decide (x_task x = sample_task c)) || negb (bool_decide (x_rollout x = sample_rollout c))
            with_exn ValueError "external driver changed pinned sample identity";
          Ok (identity :: seen, <[g := default [] (observed !! g) ++ [x]]> observed)
      | None => Err (ValueError "external driver changed pinned sample identity")
      end
  end.

Fixpoint observe_all (expected : gmap string (list sample_case)) (seen : list (string * nat)) (observed : observations)
    (results : list external_result) : res observations :=
  match results with
  | [] => Ok observed
  | x :: results => o <-? observe expected seen observed x; observe_all expected o.1 o.2 results
  end.

(** What becomes of a group in the second loop. *)
Inductive group_coverage := NotStarted | Incomplete (left got : nat) | Completed (summary : group_summary).

Definition cover_group (observed : observations) (g : group) : res group_coverage :=
  let records := default [] (observed !! g.1) in
  match records with
  | [] => Ok NotStarted
  | _ =>
      if bool_decide (length records < length g.2)%nat then Ok (Incomplete (length g.2 - length records) (length records))
      else
        let rs := map x_episode records in
        first <-? minimum (map started_unix_ns rs);
        last <-? maximum (map finished_unix_ns rs);
        match g.2 with
        | [] => Err (IndexError "list index out of range")
        | c :: _ =>
            earliest <-? minimum (map finished_unix_ns rs);
            Ok (Completed {| gs_group := g.1; gs_task := sample_task c; gs_pass := pass_index (sample_rollout c);
                  episodes := length rs; verified := length (filter (fun r => verified_correct r = true) rs);
                  group_wall_ns := last - first; completion_spread_ns := last - earliest; jobs := map job rs |})
        end
  end.

Definition not_started (c : group_coverage) : bool := match c with NotStarted => true | _ => false end.

(** The fields of the report, from the groups' coverage in order. *)
Definition report (groups : list group) (l : list (string * group_coverage)) : schedule_summary :=
  let completed := omap (fun e => match e.2 with Completed s => Some s | _ => None end) l in
  {| ss_expected_groups := length groups; ss_expected_episodes := sum_list (map (fun g => length g.2) groups);
     completed_groups := length completed;
     pending_groups := length (filter (fun e => not_started e.2 = true) l);
     incomplete_groups := omap (fun e => match e.2 with Incomplete a b => Some (e.1, (Z.of_nat a, b)) | _ => None end) l;
     group_summaries := completed |}.

Definition external_schedule_coverage (groups : list group) (results : list external_result) : res schedule_summary :=
  let expected := list_to_map (rev groups) in
  observed <-? observe_all expected [] ((fun _ => []) <$> expected) results;
  covered <-? traverse (cover_group observed) groups;
  Ok (report groups (zip (map fst groups) covered)).

(** ** [model_dependency] *)

(** What the function reads of a module's syntax tree: for each call, the name
    of the attribute that is called, if one is; for each statement of the body
    that is an assignment, its targets that are names and its value when that
    is a string constant. *)
Record assignment := { target_names : list string; constant : option string }.
Record syntax := { called_attributes : list (option string); body : list assignment }.

Section Source.
(** [ast.parse]. *)
Context (ast_parse : string -> res syntax).

Definition model_dependency (source : string) : res (option string) :=
  tree <-? ast_parse source;
  if negb (existsb (fun c => bool_decide (c = Some "from_pretrained")) (called_attributes tree)) then Ok None
  else match omap (fun a => if bool_decide ("model_name" ∈ target_names a) then constant a else None) (body tree) with
  | [v] => Ok (Some v)
  | _ => Err (ValueError "unresolved pretrained-model dependency")
  end.
End Source.
