(* ===== verification/WorkloadsResults.v ===== *)
(** * Task-group schedules: runs

    The run invariant of a schedule under every step, and what it says
    of a schedule: each sample is handed out once, and every group ends with
    the results of all its samples. *)

From stdpp Require Import pretty.
From S2P Require Import Prelude PyValue Workloads.
Local Open Scope Z_scope.

(** * Task-group schedules: every sample once, every group whole *)

(** The samples of a group in a list. *)
Definition group_of (c : sample_case) : string := group_id (sample_rollout c).
Definition in_group (g : string) (l : list sample_case) : list sample_case := filter (fun c => group_of c = g) l.
Definition all_samples (groups : list group) : list sample_case := concat (map snd groups).

(** Distinct groups, each with samples of its own. *)
Record well_grouped (groups : list group) : Prop := {
  g_names : NoDup (map fst groups);
  g_samples : Forall (fun g => g.2 <> [] /\ Forall (fun c => group_of c = g.1) g.2) groups }.

Lemma in_group_app g l k : in_group g (l ++ k) = in_group g l ++ in_group g k.
Proof. apply filter_app. Qed.

Lemma in_group_perm g l k : l ≡ₚ k -> length (in_group g l) = length (in_group g k).
Proof. intros H. apply Permutation_length. by apply filter_Permutation. Qed.

Lemma in_group_all g l : Forall (fun c => group_of c = g) l -> in_group g l = l.
Proof.
  unfold in_group. induction 1 as [|c l Hc _ IH]; [done|]. rewrite filter_cons, decide_True by done. by rewrite IH.
Qed.

Lemma in_group_none g l : Forall (fun c => group_of c <> g) l -> in_group g l = [].
Proof.
  unfold in_group. induction 1 as [|c l Hc _ IH]; [done|]. rewrite filter_cons, decide_False by done. done.
Qed.

Lemma in_group_others g groups : Forall (fun x : group => x.2 <> [] /\ Forall (fun c => group_of c = x.1) x.2) groups ->
  g ∉ map fst groups -> in_group g (all_samples groups) = [].
Proof.
  intros Hf Hg. apply in_group_none. unfold all_samples. apply Forall_concat, Forall_fmap, Forall_forall. intros [g' ss] Hin.
  rewrite Forall_forall in Hf. destruct (Hf _ Hin) as [_ Hc]. cbn in *. eapply Forall_impl; [exact Hc|]. intros c Hcg. cbn in *.
  intros E. apply Hg. apply list_elem_of_fmap. exists (g', ss). cbn. split; [congruence|done].
Qed.

(** All samples of a group, in the whole schedule. *)
Lemma in_group_samples groups g ss : well_grouped groups -> (g, ss) ∈ groups -> in_group g (all_samples groups) = ss.
Proof.
  intros [Hnd Hf]. induction groups as [|[g' ss'] groups IH]; intros Hin; [by apply not_elem_of_nil in Hin|].
  cbn [map fst] in Hnd. apply NoDup_cons in Hnd as [Hn Hnd]. apply Forall_cons in Hf as [[_ Hc] Hf].
  change (all_samples ((g', ss') :: groups)) with (ss' ++ all_samples groups). rewrite in_group_app.
  apply elem_of_cons in Hin as [[= -> ->]|Hin].
  - rewrite in_group_all by done. rewrite in_group_others by done. apply app_nil_r.
  - rewrite IH by done. rewrite in_group_none; [done|]. eapply Forall_impl; [exact Hc|]. cbn. intros c -> ->.
    apply Hn. apply list_elem_of_fmap. by exists (g, ss).
Qed.

Section Schedule.
Context {R : Type}.
#[local] Notation progress := (progress R).
#[local] Notation schedule := (schedule R).

Definition names (l : list (string * progress)) : list string := map fst l.

Lemma set_progress_fresh k (p : progress) l : k ∉ names l -> set_progress k p l = l ++ [(k, p)].
Proof.
  induction l as [|[k' q] l IH]; [done|]. cbn. intros [Hne Hl]%not_elem_of_cons.
  rewrite bool_decide_eq_false_2 by done. by rewrite IH.
Qed.

Lemma set_progress_names k (p : progress) l : k ∈ names l -> names (set_progress k p l) = names l.
Proof.
  induction l as [|[k' q] l IH]; cbn; [by intros ?%not_elem_of_nil|]. case_bool_decide as E; [done|].
  intros [->|Hin]%elem_of_cons; [done|]. cbn. f_equal. by apply IH.
Qed.

Lemma progress_get_set k k' (p : progress) l : get_progress k (set_progress k' p l) = if bool_decide (k = k') then Some p else get_progress k l.
Proof.
  induction l as [|[k0 q] l IH]; cbn; [done|]. destruct (decide (k' = k0)) as [<-|Hne].
  - rewrite (bool_decide_eq_true_2 (k' = k')) by done. cbn. by destruct (bool_decide (k = k')).
  - rewrite (bool_decide_eq_false_2 (k' = k0)) by done. cbn. destruct (decide (k = k0)) as [->|Hk].
    + rewrite (bool_decide_eq_true_2 (k0 = k0)) by done. rewrite bool_decide_eq_false_2; [done|congruence].
    + by rewrite (bool_decide_eq_false_2 (k = k0)), IH.
Qed.

Lemma get_progress_names k (l : list (string * progress)) : is_Some (get_progress k l) <-> k ∈ names l.
Proof.
  induction l as [|[k' q] l IH]; cbn.
  - split; [by intros []|by intros ?%not_elem_of_nil].
  - rewrite elem_of_cons. case_bool_decide; [|naive_solver]. split; [by left|by eexists].
Qed.

Lemma get_progress_app k (l l' : list (string * progress)) :
  get_progress k (l ++ l') = match get_progress k l with Some p => Some p | None => get_progress k l' end.
Proof. induction l as [|[k' q] l IH]; cbn; [done|]. by case_bool_decide. Qed.

Lemma get_filter k k' (l : list (string * progress)) :
  get_progress k (filter (fun e => e.1 <> k') l) = if bool_decide (k = k') then None else get_progress k l.
Proof.
  induction l as [|[k0 q] l IH]; [by case_bool_decide|]. rewrite filter_cons. cbn [fst].
  destruct (decide (k = k0)) as [->|Hk]; destruct (decide (k0 <> k')) as [E|E]; cbn [get_progress].
  - rewrite (bool_decide_eq_true_2 (k0 = k0)) by done. by rewrite (bool_decide_eq_false_2 (k0 = k')) by done.
  - rewrite IH. apply dec_stable in E. by rewrite bool_decide_eq_true_2.
  - rewrite (bool_decide_eq_false_2 (k = k0)) by done. exact IH.
  - rewrite IH. apply dec_stable in E. subst k0. by rewrite (bool_decide_eq_false_2 (k = k')).
Qed.

Lemma names_filter k (l : list (string * progress)) : names (filter (fun e => e.1 <> k) l) `sublist_of` names l.
Proof.
  unfold names. induction l as [|e l IH]; [done|]. rewrite filter_cons. case_decide; cbn [map]; [by apply sublist_skip|by apply sublist_cons].
Qed.

(** A group that starts. *)
Definition fresh_progress (g : group) : string * progress := (g.1, {| remaining := Z.of_nat (length g.2); results := [] |}).

Lemma activate_spec p r (a : list (string * progress)) m p' r' a' : activate p r a m = (p', r', a') ->
  NoDup (names a ++ map fst p) -> Z.of_nat (length a) <= m ->
  exists started, p = started ++ p' /\ r' = r ++ all_samples started /\ a' = a ++ map fresh_progress started
    /\ Z.of_nat (length a') <= m /\ (p' = [] \/ m <= Z.of_nat (length a')).
Proof.
  revert r a. induction p as [|[g ss] p IH]; intros r a; cbn [activate].
  { intros [= <- <- <-] _ Hl. exists []. cbn. rewrite !app_nil_r. split; [done|]. split; [done|]. split; [done|]. split; [done|by left]. }
  intros H Hnd Hl. destruct (Z.ltb_spec (Z.of_nat (length a)) m) as [Hlt|Hge].
  - assert (g ∉ names a) as Hg.
    { apply NoDup_app in Hnd as (_ & Hdis & _). intros Hin. apply (Hdis g Hin). by left. }
    rewrite set_progress_fresh in H by done. apply IH in H as (started & -> & -> & -> & Hl' & Hend).
    + exists ((g, ss) :: started). split; [done|]. split; [unfold all_samples; cbn; by rewrite <- app_assoc|].
      split; [by rewrite <- app_assoc|]. done.
    + unfold names. rewrite map_app, <- app_assoc. exact Hnd.
    + rewrite length_app. cbn. lia.
  - injection H as <- <- <-. exists []. cbn. rewrite !app_nil_r. split; [done|]. split; [done|]. split; [done|]. split; [done|right; lia].
Qed.

Lemma get_fresh g ss l : NoDup (map fst l) -> (g, ss) ∈ l ->
  get_progress g (map fresh_progress l) = Some {| remaining := Z.of_nat (length ss); results := [] |}.
Proof.
  induction l as [|[g' ss'] l IH]; intros Hnd Hin; [by apply not_elem_of_nil in Hin|].
  cbn [map fst] in Hnd. apply NoDup_cons in Hnd as [Hn Hnd]. cbn. apply elem_of_cons in Hin as [[= -> ->]|Hin].
  - by rewrite bool_decide_eq_true_2.
  - rewrite bool_decide_eq_false_2; [by apply IH|]. intros ->. apply Hn. apply list_elem_of_fmap. by exists (g', ss).
Qed.

Lemma fresh_names l : names (map fresh_progress l) = map fst l.
Proof. unfold names. rewrite map_map. by apply map_ext. Qed.

Lemma get_progress_none k (l : list (string * progress)) : k ∉ names l -> get_progress k l = None.
Proof.
  intros Hn. destruct (get_progress k l) eqn:E; [|done]. exfalso. apply Hn, get_progress_names. by eexists.
Qed.

(** ** Runs *)

(** The schedule, the samples handed out, those not yet completed, and the
    completions. *)
Record run := { sched : schedule; handed : list sample_case; in_flight : list sample_case; ended : list (sample_case * R) }.

Inductive run_step : run -> run -> Prop :=
| RunTake w case s : take_turn false (sched w) = (Sample case, s) ->
    run_step w {| sched := s; handed := handed w ++ [case]; in_flight := in_flight w ++ [case]; ended := ended w |}
| RunIdle w t s : take_turn false (sched w) = (t, s) -> (forall case, t <> Sample case) ->
    run_step w {| sched := s; handed := handed w; in_flight := in_flight w; ended := ended w |}
| RunComplete w case rest result s : in_flight w ≡ₚ case :: rest -> complete case result (sched w) = Ok s ->
    run_step w {| sched := s; handed := handed w; in_flight := rest; ended := ended w ++ [(case, result)] |}.

Definition start_run (s : schedule) : run := {| sched := s; handed := []; in_flight := []; ended := [] |}.

Inductive reaches_run (s : schedule) : run -> Prop :=
| RunStart : reaches_run s (start_run s)
| RunStep w w' : reaches_run s w -> run_step w w' -> reaches_run s w'.

Definition results_of (g : string) (l : list (sample_case * R)) : list R := map snd (filter (fun e => group_of e.1 = g) l).

Lemma results_of_length g l : length (results_of g l) = length (in_group g (map fst l)).
Proof.
  unfold results_of, in_group. rewrite length_map. induction l as [|[c r] l IH]; [done|]. cbn [map fst].
  rewrite !filter_cons. cbn [fst]. case_decide; cbn [length]; by rewrite IH.
Qed.

Lemma results_of_snoc g l c r : results_of g (l ++ [(c, r)]) = results_of g l ++ (if bool_decide (group_of c = g) then [r] else []).
Proof.
  unfold results_of. rewrite filter_app, map_app. f_equal. rewrite filter_cons. cbn [fst]. case_bool_decide; [by rewrite decide_True|by rewrite decide_False].
Qed.

Section Groups.
Context (groups : list group) (Hg : well_grouped groups) (m : Z) (Hm : 1 <= m).

(** Where a started group stands. *)
Definition group_state (w : run) (g : group) : Prop :=
  let done := results_of g.1 (ended w) in
  match get_progress g.1 (active (sched w)) with
  | Some p => results p = done /\ remaining p = Z.of_nat (length g.2) - Z.of_nat (length done) /\ 0 < remaining p
  | None => length done = length g.2 /\ g.1 ∈ map f_group (finished (sched w))
  end.

(** A finished group has all its results. *)
Definition finished_whole (w : run) (f : finished_group R) : Prop :=
  f_results f = results_of (f_group f) (ended w)
  /\ exists ss, (f_group f, ss) ∈ groups /\ length (f_results f) = length ss.

Record run_ok (w : run) : Prop := {
  r_max : max_groups (sched w) = m;
  r_limit : Z.of_nat (length (active (sched w))) <= m;
  r_samples : handed w ++ ready (sched w) ++ all_samples (pending (sched w)) = all_samples groups;
  r_flight : handed w ≡ₚ in_flight w ++ map fst (ended w);
  r_names : NoDup (names (active (sched w)));
  r_started : exists started, groups = started ++ pending (sched w)
    /\ Forall (group_state w) started /\ (forall k, k ∈ names (active (sched w)) -> k ∈ map fst started);
  r_unique : NoDup (map f_group (finished (sched w)));
  r_whole : Forall (finished_whole w) (finished (sched w)) }.

Lemma run_ok_start s : new_schedule groups m = Ok s -> run_ok (start_run s).
Proof.
  unfold new_schedule. destruct (m <? 1); [done|]. intros [= <-]. constructor; cbn; [done|lia|done|done|constructor| |constructor|constructor].
  exists []. split; [done|]. split; [constructor|]. by intros k ?%not_elem_of_nil.
Qed.

Lemma group_names_unique g ss ss' : (g, ss) ∈ groups -> (g, ss') ∈ groups -> ss = ss'.
Proof. intros H H'. rewrite <- (in_group_samples _ _ _ Hg H). by rewrite (in_group_samples _ _ _ Hg H'). Qed.

Lemma all_samples_app l k : all_samples (l ++ k) = all_samples l ++ all_samples k.
Proof. unfold all_samples. by rewrite map_app, concat_app. Qed.

Section Ok.
Context (w : run) (Hok : run_ok w) (started : list group) (Hs : groups = started ++ pending (sched w)).

Lemma handed_started : handed w ++ ready (sched w) = all_samples started.
Proof.
  pose proof (r_samples w Hok) as H. rewrite Hs, all_samples_app, app_assoc in H. by apply app_inv_tail in H.
Qed.

(** The samples of a started group: in flight, completed or ready. *)
Lemma group_count g ss : (g, ss) ∈ started ->
  length ss = (length (in_group g (in_flight w)) + length (results_of g (ended w)) + length (in_group g (ready (sched w))))%nat.
Proof.
  intros Hin. assert (in_group g (all_samples groups) = ss) as Hss by (apply in_group_samples; [done|rewrite Hs; apply elem_of_app; by left]).
  assert (in_group g (all_samples (pending (sched w))) = []) as Hp.
  { destruct Hg as [Hnd Hf]. rewrite Hs in Hnd, Hf. apply in_group_others; [by apply Forall_app in Hf as [_ Hf]|].
    rewrite map_app in Hnd. apply NoDup_app in Hnd as (_ & Hdis & _). apply Hdis. apply list_elem_of_fmap. by exists (g, ss). }
  rewrite <- (r_samples w Hok), !in_group_app, Hp, app_nil_r in Hss. rewrite <- Hss, length_app.
  rewrite (in_group_perm _ _ _ (r_flight w Hok)), in_group_app, length_app, results_of_length. lia.
Qed.

(** The group of a sample in flight is active. *)
Lemma flight_group case : case ∈ in_flight w -> Forall (group_state w) started ->
  exists ss p, (group_of case, ss) ∈ started /\ get_progress (group_of case) (active (sched w)) = Some p
    /\ results p = results_of (group_of case) (ended w)
    /\ remaining p = Z.of_nat (length ss) - Z.of_nat (length (results_of (group_of case) (ended w))) /\ 0 < remaining p.
Proof.
  intros Hin Hst. assert (case ∈ all_samples started) as Hall.
  { rewrite <- handed_started. apply elem_of_app. left. rewrite (r_flight w Hok). apply elem_of_app. by left. }
  apply list_elem_of_In, in_concat in Hall as (ss & Hss & Hc). apply list_elem_of_In, list_elem_of_fmap in Hss as ([g ss'] & -> & Hgs).
  apply list_elem_of_In in Hc. cbn in Hc.
  assert (group_of case = g) as Hcg.
  { pose proof (g_samples _ Hg) as Hf. rewrite Hs, Forall_forall in Hf. destruct (Hf (g, ss')) as [_ Hf']; [apply elem_of_app; by left|].
    rewrite Forall_forall in Hf'. by apply Hf'. }
  rewrite Hcg. exists ss'. rewrite Forall_forall in Hst. pose proof (Hst _ Hgs) as Hgst. unfold group_state in Hgst. cbn in Hgst.
  destruct (get_progress g (active (sched w))) as [p|]; [by exists p|]. exfalso. destruct Hgst as [Hfull _].
  pose proof (group_count g ss' Hgs) as Hcount. assert (length (in_group g (in_flight w)) <> 0%nat); [|lia].
  intros H0%nil_length_inv. assert (case ∈ in_group g (in_flight w)) as Habs by (apply list_elem_of_filter; by split).
  rewrite H0 in Habs. by apply not_elem_of_nil in Habs.
Qed.
End Ok.
(** The groups a turn of [take] starts. *)
Section Activate.
Context (w : run) (Hok : run_ok w).
Context (p' : list group) (r' : list sample_case) (a' : list (string * progress)).
Context (Ha : activate (pending (sched w)) (ready (sched w)) (active (sched w)) (max_groups (sched w)) = (p', r', a')).

Definition activated : schedule :=
  {| pending := p'; ready := r'; active := a'; finished := finished (sched w); max_groups := max_groups (sched w) |}.

Lemma active_disjoint started : groups = started ++ pending (sched w) ->
  (forall k, k ∈ names (active (sched w)) -> k ∈ map fst started) -> NoDup (names (active (sched w)) ++ map fst (pending (sched w))).
Proof.
  intros Hs Hsub. apply NoDup_app. pose proof (g_names _ Hg) as Hnd. rewrite Hs, map_app in Hnd.
  apply NoDup_app in Hnd as (_ & Hdis & Hp). split; [apply (r_names w Hok)|]. split; [|done]. intros k Hk. by apply Hdis, Hsub.
Qed.

Lemma activated_shape : exists st, pending (sched w) = st ++ p' /\ r' = ready (sched w) ++ all_samples st
  /\ a' = active (sched w) ++ map fresh_progress st /\ Z.of_nat (length a') <= m /\ (p' = [] \/ m <= Z.of_nat (length a')).
Proof.
  destruct (r_started w Hok) as (started & Hs & _ & Hsub). rewrite (r_max w Hok) in Ha.
  apply activate_spec in Ha; [done|by eapply active_disjoint|apply (r_limit w Hok)].
Qed.

Lemma pending_unstarted started g ss : groups = started ++ pending (sched w) -> (g, ss) ∈ pending (sched w) -> results_of g (ended w) = [].
Proof.
  intros Hs Hin. apply nil_length_inv. rewrite results_of_length.
  assert (in_group g (handed w ++ ready (sched w)) = []) as Hnone.
  { rewrite (handed_started w Hok started Hs). destruct Hg as [Hnd Hf]. rewrite Hs in Hnd, Hf.
    apply in_group_others; [by apply Forall_app in Hf as [Hf _]|].
    rewrite map_app in Hnd. apply NoDup_app in Hnd as (_ & Hdis & _). intros Hk. apply (Hdis _ Hk). apply list_elem_of_fmap. by exists (g, ss). }
  rewrite in_group_app in Hnone. apply app_nil in Hnone as [Hh _].
  pose proof (in_group_perm g _ _ (r_flight w Hok)) as Hl. rewrite Hh, in_group_app, length_app in Hl. cbn in Hl. lia.
Qed.

Lemma activated_ok : run_ok {| sched := activated; handed := handed w; in_flight := in_flight w; ended := ended w |}.
Proof.
  destruct activated_shape as (st & Hp & Hr & Hact & Hl & _). destruct (r_started w Hok) as (started & Hs & Hst & Hsub).
  pose proof (active_disjoint started Hs Hsub) as Hd. rewrite Hp, map_app in Hd.
  assert (NoDup (map fst started ++ map fst st)) as Hn.
  { pose proof (g_names _ Hg) as Hnd. rewrite Hs, Hp, !map_app, app_assoc in Hnd. by apply NoDup_app in Hnd as (? & _). }
  constructor; cbn [sched activated pending ready active finished max_groups handed in_flight ended]; try apply Hok; try done.
  - rewrite Hr, <- app_assoc. pose proof (r_samples w Hok) as H. by rewrite Hp, all_samples_app in H.
  - rewrite Hact. unfold names. rewrite map_app. fold (names (active (sched w))). fold (names (map fresh_progress st)). rewrite fresh_names.
    rewrite app_assoc in Hd. by apply NoDup_app in Hd as (? & _).
  - exists (started ++ st). split; [by rewrite <- app_assoc, <- Hp|]. apply NoDup_app in Hn as (_ & Hdis & Hnst).
    split; [apply Forall_app; split|].
    + rewrite Forall_forall in *. intros [g ss] Hin. specialize (Hst _ Hin). unfold group_state in *. cbn in *.
      rewrite Hact, get_progress_app. destruct (get_progress g (active (sched w))); [done|]. rewrite get_progress_none; [done|].
      rewrite fresh_names. apply Hdis. apply list_elem_of_fmap. by exists (g, ss).
    + apply Forall_forall. intros [g ss] Hin. unfold group_state. cbn [fst snd sched activated active ended finished].
      rewrite Hact, get_progress_app, get_progress_none, (get_fresh g ss) by
        (done || (intros Hk%Hsub; apply (Hdis _ Hk), list_elem_of_fmap; by exists (g, ss))).
      cbn [results remaining]. rewrite (pending_unstarted started g ss Hs) by (rewrite Hp; apply elem_of_app; by left). cbn [length].
      split; [done|]. pose proof (g_samples _ Hg) as Hf. rewrite Hs, Hp, Forall_forall in Hf.
      destruct (Hf (g, ss)) as [Hne _]; [rewrite !elem_of_app; tauto|]. destruct ss; [done|]. cbn. lia.
    + intros k. rewrite Hact. unfold names. rewrite !map_app. fold (names (active (sched w))). fold (names (map fresh_progress st)).
      rewrite fresh_names, !elem_of_app. naive_solver.
Qed.
End Activate.
End Groups.
End Schedule.

(** ** Names of groups *)

Fixpoint no_dash (s : string) : Prop :=
  match s with EmptyString => True | String c s => c <> "-"%char /\ no_dash s end.

Lemma pretty_N_char_dash x : pretty_N_char x <> "-"%char.
Proof. unfold pretty_N_char. by repeat case_match. Qed.

Lemma pretty_N_go_dash x s : no_dash s -> no_dash (pretty_N_go x s).
Proof.
  revert s. induction (N.lt_wf_0 x) as [x _ IH]. intros s Hs. destruct (decide (x = 0%N)) as [->|Hx]; [by rewrite pretty_N_go_0|].
  rewrite pretty_N_go_step by lia. apply IH; [apply N.div_lt; lia|]. split; [apply pretty_N_char_dash|done].
Qed.

Lemma pretty_nat_dash n : no_dash (pretty (Z.of_nat n)).
Proof.
  destruct n as [|n]; [by vm_compute|]. change (no_dash (pretty (N.pos (Pos.of_succ_nat n)))).
  unfold pretty, pretty_N. rewrite decide_False by done. by apply pretty_N_go_dash.
Qed.

Lemma dash_split s s' t t' : no_dash s -> no_dash s' -> s +:+ String "-" t = s' +:+ String "-" t' -> s = s' /\ t = t'.
Proof.
  revert s'. induction s as [|c s IH]; intros [|c' s']; cbn; intros Hs Hs'.
  - by intros [= ->].
  - intros [= <- _]. by destruct Hs' as [[] _].
  - intros [= -> _]. by destruct Hs as [[] _].
  - intros [= -> H]. destruct (IH s') as [-> ->]; [apply Hs|apply Hs'|done|done].
Qed.

Lemma group_name_inj n n' o o' : group_name (Z.of_nat n) o = group_name (Z.of_nat n') o' -> n = n' /\ o = o'.
Proof.
  unfold group_name. cbn. intros [= H]. apply dash_split in H as [Hn Ht]; [|apply pretty_nat_dash..].
  apply (inj pretty) in Hn. injection Ht as Ht. apply (inj pretty) in Ht. split; [lia|done].
Qed.

Section Names.
Context (shuffle : Z -> nat -> list nat) (sha256_int : string -> Z).
Context (Hshuffle : forall seed n, shuffle seed n ≡ₚ seq 0 n).

Lemma pass_groups_elem cases rollouts seed n g : g ∈ pass_groups shuffle sha256_int cases rollouts seed n ->
  exists o case, cases !! o = Some case /\ o ∈ shuffle (seed + n) (length cases)
    /\ g = (group_name n o, map (make_sample sha256_int seed n rollouts o case) (seq 0 rollouts)).
Proof.
  unfold pass_groups. intros (o & Ho & Hg)%list_elem_of_omap. destruct (cases !! o) as [case|] eqn:E; [|done].
  injection Hg as <-. by exists o, case.
Qed.

Lemma pass_groups_names cases rollouts seed n : map fst (pass_groups shuffle sha256_int cases rollouts seed n)
  = map (group_name n) (shuffle (seed + n) (length cases)).
Proof.
  unfold pass_groups. assert (Forall (fun o => (o < length cases)%nat) (shuffle (seed + n) (length cases))) as Hb.
  { apply Forall_forall. intros o. rewrite Hshuffle, list_elem_of_In, in_seq. lia. }
  induction Hb as [|o l Ho _ IH]; [done|]. cbn. destruct (lookup_lt_is_Some_2 cases o Ho) as [case ->]. cbn. by f_equal.
Qed.

(** The groups of a suite are well grouped, each with [rollouts] samples. *)
Lemma suite_well_grouped cases rollouts passes seed groups : suite_groups shuffle sha256_int cases rollouts passes seed = Ok groups ->
  well_grouped groups /\ length groups = (Z.to_nat passes * length cases)%nat
  /\ Forall (fun g => length g.2 = Z.to_nat rollouts) groups.
Proof.
  unfold suite_groups. destruct (_ || _); [done|]. destruct (Z.ltb_spec (Z.min rollouts passes) 1) as [|Hmin]; [done|]. intros [= <-].
  set (f := fun repeat => _). assert (forall n, map fst (f n) = map (group_name (Z.of_nat n)) (shuffle (seed + Z.of_nat n) (length cases))) as Hf
    by (intros n; apply pass_groups_names). split; [split|split].
  - rewrite concat_map, map_map. generalize (NoDup_seq 0 (Z.to_nat passes)). generalize (seq 0 (Z.to_nat passes)) as l.
    induction l as [|n l IH]; intros Hnd; [constructor|]. apply NoDup_cons in Hnd as [Hn Hnd]. cbn. apply NoDup_app.
    rewrite Hf. split; [|split; [|by apply IH]].
    + apply NoDup_fmap_2_strong; [by intros x y _ _ [_ ->]%group_name_inj|]. rewrite Hshuffle. apply NoDup_seq.
    + intros k (o & -> & _)%list_elem_of_fmap Hin. apply list_elem_of_In, in_concat in Hin as (x & Hx & Hk).
      apply in_map_iff in Hx as (n' & <- & Hn'). rewrite Hf in Hk.
      apply in_map_iff in Hk as (o' & E & _). apply group_name_inj in E as [-> _]. by apply Hn, list_elem_of_In.
  - apply Forall_forall. intros g Hg. apply list_elem_of_In, in_concat in Hg as (x & Hx & Hg). apply in_map_iff in Hx as (n & <- & _).
    apply list_elem_of_In, pass_groups_elem in Hg as (o & case & _ & _ & ->). cbn. split.
    + destruct (Z.to_nat rollouts) eqn:E; [lia|done].
    + apply Forall_forall. by intros c (i & -> & _)%list_elem_of_fmap.
  - rewrite length_concat, map_map. rewrite (map_ext _ (fun _ => length cases)).
    + generalize 0%nat. induction (Z.to_nat passes) as [|k IH]; intros b; [done|]. cbn. by rewrite IH.
    + intros n. rewrite <- (length_map fst), Hf, length_map, Hshuffle. apply length_seq.
  - apply Forall_forall. intros g Hg. apply list_elem_of_In, in_concat in Hg as (x & Hx & Hg). apply in_map_iff in Hx as (n & <- & _).
    apply list_elem_of_In, pass_groups_elem in Hg as (o & case & _ & _ & ->). cbn. by rewrite length_map, length_seq.
Qed.
End Names.

Section Runs.
Context {R : Type} (groups : list group) (Hg : well_grouped groups) (m : Z) (Hm : 1 <= m).
#[local] Notation run := (run (R := R)).
#[local] Notation run_ok := (run_ok (R := R) groups m).

Lemma run_ok_take (w : run) case s : run_ok w -> take_turn false (sched w) = (Sample case, s) ->
  run_ok {| sched := s; handed := handed w ++ [case]; in_flight := in_flight w ++ [case]; ended := ended w |}.
Proof.
  intros Hok. unfold take_turn. destruct (activate _ _ _ _) as [[p r] a] eqn:Ha.
  pose proof (activated_ok groups Hg m w Hok p r a Ha) as Hact. destruct r as [|c r]; [by destruct a|]. intros [= -> <-].
  destruct Hact. constructor; cbn in *; try done.
  - by rewrite <- app_assoc.
  - rewrite (r_flight _ _ _ Hok). rewrite <- !app_assoc. apply Permutation_app_head, Permutation_app_comm.
Qed.

Lemma run_ok_idle (w : run) t s : run_ok w -> take_turn false (sched w) = (t, s) -> (forall case, t <> Sample case) ->
  run_ok {| sched := s; handed := handed w; in_flight := in_flight w; ended := ended w |}.
Proof.
  intros Hok. unfold take_turn. destruct (activate _ _ _ _) as [[p r] a] eqn:Ha.
  pose proof (activated_ok groups Hg m w Hok p r a Ha) as Hact. destruct r as [|c r]; intros [= <- <-] Ht.
  - by destruct Hact.
  - by destruct (Ht c).
Qed.

(** The completion of a sample in flight. *)
Section Complete.
Context (w : run) (Hok : run_ok w) (case : sample_case) (rest : list sample_case) (result : R).
Context (Hperm : in_flight w ≡ₚ case :: rest).
#[local] Notation g := (group_of case).
#[local] Notation ended' := (ended w ++ [(case, result)]).

Lemma complete_shape : exists ss p s, (g, ss) ∈ groups /\ complete case result (sched w) = Ok s
  /\ get_progress g (active (sched w)) = Some p
  /\ results p ++ [result] = results_of g ended' /\ remaining p - 1 = Z.of_nat (length ss) - Z.of_nat (length (results_of g ended'))
  /\ 0 < remaining p
  /\ s = (if remaining p - 1 =? 0
          then {| pending := pending (sched w); ready := ready (sched w); active := filter (fun e => e.1 <> g) (active (sched w));
                  finished := finished (sched w) ++ [{| f_group := g; f_task := sample_task case;
                     f_pass := pass_index (sample_rollout case); f_results := results_of g ended' |}]; max_groups := m |}
          else {| pending := pending (sched w); ready := ready (sched w);
                  active := set_progress g {| remaining := remaining p - 1; results := results_of g ended' |} (active (sched w));
                  finished := finished (sched w); max_groups := m |}).
Proof.
  destruct (r_started _ _ _ Hok) as (started & Hs & Hst & _).
  destruct (flight_group groups Hg m w Hok started Hs case) as (ss & p & Hin & Hget & Hres & Hrem & Hpos); [rewrite Hperm; by left|done|].
  assert (results_of g ended' = results p ++ [result]) as He by (rewrite results_of_snoc, bool_decide_eq_true_2, Hres by done; done).
  exists ss, p. unfold complete. change (group_id (sample_rollout case)) with g. rewrite Hget. cbn [remaining results]. rewrite He, length_app.
  cbn [length]. rewrite <- (r_max _ _ _ Hok). destruct (remaining p - 1 =? 0); eexists;
    (split; [rewrite Hs; apply elem_of_app; by left|]; split; [reflexivity|]; split; [done|]; split; [done|]; rewrite Hres; split; [lia|]; by split).
Qed.

Lemma others_unchanged k : k <> g -> results_of k ended' = results_of k (ended w).
Proof. intros Hk. rewrite results_of_snoc, bool_decide_eq_false_2 by congruence. apply app_nil_r. Qed.

End Complete.

(** A group with results to come is not finished. *)
Lemma unfinished (w : run) g ss : run_ok w -> (g, ss) ∈ groups -> (length (results_of g (ended w)) < length ss)%nat ->
  g ∉ map f_group (finished (sched w)).
Proof.
  intros Hok Hss Hlt (f & -> & Hin)%list_elem_of_fmap. pose proof (r_whole _ _ _ Hok) as Hw. rewrite Forall_forall in Hw.
  destruct (Hw f Hin) as (Hres & ss' & Hss' & Hlen). rewrite Hres, (group_names_unique groups Hg _ _ _ Hss' Hss) in Hlen. lia.
Qed.

Lemma run_ok_complete (w : run) case rest result s : run_ok w -> in_flight w ≡ₚ case :: rest ->
  complete case result (sched w) = Ok s ->
  run_ok {| sched := s; handed := handed w; in_flight := rest; ended := ended w ++ [(case, result)] |}.
Proof.
  intros Hok Hperm Hc. destruct (complete_shape w Hok case rest result Hperm) as (ss & p & s' & Hss & Hc' & Hget & Hres & Hrem & Hpos & Hs').
  rewrite Hc in Hc'. injection Hc' as <-.
  assert (forall k, k <> group_of case -> results_of k (ended w ++ [(case, result)]) = results_of k (ended w)) as Hoth
    by (intros k; apply others_unchanged).
  assert (group_of case ∈ names (active (sched w))) as Hactive by (apply get_progress_names; by eexists).
  assert (length (results_of (group_of case) (ended w)) < length ss)%nat as Hlt.
  { assert (results_of (group_of case) (ended w ++ [(case, result)]) = results_of (group_of case) (ended w) ++ [result]) as He
      by (by rewrite results_of_snoc, bool_decide_eq_true_2). rewrite He, length_app in Hrem. cbn in Hrem. lia. }
  pose proof (unfinished w _ ss Hok Hss Hlt) as Hnf.
  assert (handed w ≡ₚ rest ++ map fst (ended w ++ [(case, result)])) as Hflight.
  { rewrite (r_flight _ _ _ Hok), Hperm, map_app, app_assoc. cbn [map fst]. by rewrite <- Permutation_cons_append. }
  assert (Forall (finished_whole groups {| sched := s; handed := handed w; in_flight := rest; ended := ended w ++ [(case, result)] |})
    (finished (sched w))) as Hwhole.
  { pose proof (r_whole _ _ _ Hok) as Hw. rewrite Forall_forall in *. intros f Hf. destruct (Hw f Hf) as [Hfr Hfs].
    split; [|done]. cbn [ended]. rewrite Hoth; [done|]. intros E. apply Hnf. rewrite <- E. apply list_elem_of_fmap. by exists f. }
  destruct (r_started _ _ _ Hok) as (started & Hs & Hst & Hsub). rewrite Forall_forall in Hst.
  rewrite Hs'. destruct (Z.eqb_spec (remaining p - 1) 0) as [H0|H0];
    constructor; cbn [sched pending ready active finished max_groups handed in_flight ended]; try apply Hok; try done.
  - etransitivity; [|apply (r_limit _ _ _ Hok)]. apply inj_le, length_filter.
  - eapply sublist_NoDup; [apply (r_names _ _ _ Hok)|]. apply names_filter.
  - exists started. split; [done|]. split.
    + apply Forall_forall. intros [k ss'] Hin. specialize (Hst _ Hin). unfold group_state in *. cbn [fst snd sched active finished ended] in *.
      rewrite get_filter. destruct (decide (k = group_of case)) as [->|Hk].
      * rewrite bool_decide_eq_true_2 by done. assert (ss' = ss) as -> by (eapply (group_names_unique groups Hg); [rewrite Hs; apply elem_of_app; by left|done]).
        split; [lia|]. rewrite map_app. apply elem_of_app. right. by left.
      * rewrite bool_decide_eq_false_2, Hoth by done. destruct (get_progress k _); [done|]. destruct Hst as [? ?]. split; [done|].
        rewrite map_app. apply elem_of_app. by left.
    + intros k Hk. apply Hsub. eapply elem_of_sublist; [exact Hk|apply names_filter].
  - rewrite map_app. apply NoDup_app. split; [apply (r_unique _ _ _ Hok)|]. split; [|apply NoDup_singleton].
    intros k Hk ->%list_elem_of_singleton. done.
  - apply Forall_app. split; [exact Hwhole|]. constructor; [|constructor]. split; [done|]. exists ss. split; [done|]. cbn [f_results]. lia.
  - pose proof (set_progress_names (group_of case) {| remaining := remaining p - 1; results := results_of (group_of case) (ended w ++ [(case, result)]) |} _ Hactive) as Hn.
    assert (forall l k : list (string * progress R), names l = names k -> length l = length k) as Hlen
      by (unfold names; intros l k E; apply (f_equal length) in E; by rewrite !length_map in E).
    rewrite (Hlen _ _ Hn). apply (r_limit _ _ _ Hok).
  - rewrite set_progress_names by done. apply (r_names _ _ _ Hok).
  - exists started. split; [done|]. split.
    + apply Forall_forall. intros [k ss'] Hin. specialize (Hst _ Hin). unfold group_state in *. cbn [fst snd sched active finished ended] in *.
      rewrite progress_get_set. destruct (decide (k = group_of case)) as [->|Hk].
      * rewrite bool_decide_eq_true_2 by done. assert (ss' = ss) as -> by (eapply (group_names_unique groups Hg); [rewrite Hs; apply elem_of_app; by left|done]).
        cbn [results remaining]. split; [done|]. lia.
      * by rewrite bool_decide_eq_false_2, Hoth by done.
    + rewrite set_progress_names by done. done.
Qed.

Lemma reaches_run_ok s (w : run) : new_schedule groups m = Ok s -> reaches_run s w -> run_ok w.
Proof.
  intros Hn. induction 1 as [|w w' _ IH Hstep]; [by apply run_ok_start|]. destruct Hstep.
  - by apply run_ok_take.
  - by eapply run_ok_idle.
  - by apply run_ok_complete.
Qed.

(** A group with every sample handed out, completed or not, and none in flight
    is finished. *)
Lemma flight_of_active (w : run) g : run_ok w -> ready (sched w) = [] -> g ∈ names (active (sched w)) -> in_flight w <> [].
Proof.
  intros Hok Hready Hin Hnone. destruct (r_started _ _ _ Hok) as (started & Hs & Hst & Hsub).
  pose proof (Hsub g Hin) as ([g' ss] & -> & Hg')%list_elem_of_fmap. cbn in *. rewrite Forall_forall in Hst. specialize (Hst _ Hg').
  unfold group_state in Hst. cbn in Hst. apply get_progress_names in Hin as [p Hp]. rewrite Hp in Hst. destruct Hst as (_ & Hrem & Hpos).
  pose proof (group_count groups Hg m w Hok started Hs g' ss Hg') as Hc. rewrite Hready, Hnone in Hc. cbn in Hc. lia.
Qed.

Lemma ready_after (w : run) p a : run_ok w ->
  activate (pending (sched w)) (ready (sched w)) (active (sched w)) (max_groups (sched w)) = (p, [], a) ->
  ready (sched w) = [] /\ a = active (sched w) /\ p = pending (sched w) /\ (p = [] \/ m <= Z.of_nat (length a)).
Proof.
  intros Hok Ha. destruct (activated_shape groups Hg m w Hok p [] a Ha) as (st & Hp & Hr & Hact & _ & Hend).
  symmetry in Hr. apply app_nil in Hr as [Hr Hst]. assert (st = []) as ->.
  { destruct st as [|[g ss] st]; [done|]. exfalso. destruct (r_started _ _ _ Hok) as (started & Hs & _).
    pose proof (g_samples _ Hg) as Hf. rewrite Hs, Hp, Forall_forall in Hf. destruct (Hf (g, ss)) as [Hne _]; [rewrite !elem_of_app; right; left; by left|].
    unfold all_samples in Hst. cbn in Hst. by apply app_nil in Hst as [-> _]. }
  cbn in *. rewrite app_nil_r in Hact. done.
Qed.
End Runs.

(** Runs of a schedule of distinct groups. *)
Lemma schedule_run (R : Type) groups m (s : schedule R) w : well_grouped groups -> new_schedule groups m = Ok s -> reaches_run s w ->
  Z.of_nat (length (active (sched w))) <= m
  /\ handed w ++ ready (sched w) ++ all_samples (pending (sched w)) = all_samples groups
  /\ (forall case result, case ∈ in_flight w -> exists s', complete case result (sched w) = Ok s')
  /\ NoDup (map f_group (finished (sched w)))
  /\ (forall f, f ∈ finished (sched w) -> exists ss, (f_group f, ss) ∈ groups
        /\ f_results f = results_of (f_group f) (ended w) /\ length (f_results f) = length ss)
  /\ (forall s', take_turn false (sched w) = (Again, s') -> in_flight w <> [])
  /\ (forall s', take_turn false (sched w) = (Nothing, s') -> handed w = all_samples groups
        /\ in_flight w = [] /\ map fst groups ⊆ map f_group (finished (sched w))).
Proof.
  intros Hg Hn Hr. assert (1 <= m) as Hm by (unfold new_schedule in Hn; destruct (Z.ltb_spec m 1); [done|lia]).
  pose proof (reaches_run_ok groups Hg m Hm s w Hn Hr) as Hok.
  split; [apply Hok|]. split; [apply Hok|]. split.
  { intros case result Hin. apply elem_of_Permutation in Hin as [rest Hrest].
    destruct (complete_shape groups Hg m w Hok case rest result Hrest) as (_ & _ & s' & _ & Hs' & _). by exists s'. }
  split; [apply Hok|]. split.
  { intros f Hf. pose proof (r_whole _ _ _ Hok) as Hw. rewrite Forall_forall in Hw. destruct (Hw f Hf) as (Hres & ss & Hss & Hl). by exists ss. }
  unfold take_turn. destruct (activate _ _ _ _) as [[p r] a] eqn:Ha. split; intros s' H; (destruct r as [|c r]; [|done]);
    destruct (ready_after groups Hg m w p a Hok Ha) as (Hready & -> & -> & Hend); destruct (active (sched w)) as [|[g q] l] eqn:Eact; try done.
  { apply (flight_of_active groups Hg m w g Hok Hready). rewrite Eact. by left. }
  destruct Hend as [Hp|Hge]; [|cbn in Hge; lia]. destruct (r_started _ _ _ Hok) as (started & Hs & Hst & _).
  pose proof (r_samples _ _ _ Hok) as Hall. rewrite Hready, Hp in Hall. cbn in Hall. rewrite app_nil_r in Hall.
  rewrite Hp, app_nil_r in Hs. subst started. split; [done|]. split.
  - destruct (in_flight w) as [|case rest] eqn:Efl; [done|]. exfalso.
    destruct (flight_group groups Hg m w Hok groups) with (case := case) as (ss & p0 & _ & Hget & _);
      [by rewrite Hp, app_nil_r|rewrite Efl; by left|done|]. by rewrite Eact in Hget.
  - intros k (x & -> & Hx)%list_elem_of_fmap. rewrite Forall_forall in Hst. specialize (Hst x Hx). unfold group_state in Hst.
    rewrite Eact in Hst. cbn in Hst. apply Hst.
Qed.

(** A suite of cases with distinct task identifiers, laid out in [passes]
    shuffled passes and given to a schedule, has [passes] groups per case of
    [rollouts] samples each; and over any run in which workers take samples and
    complete those they took, in any order: no more than [max_groups] groups are
    active; the samples handed out, those ready and those of the groups to come
    are the samples of the suite in its order, so each is handed out once; a
    completion never raises; a finished group is reported once, with exactly the
    results of its [rollouts] samples in the order they came; a worker waits
    only while another holds a sample; and [take] ends only when every sample
    was handed out and completed and every group is finished. *)
Theorem suite_schedule_complete (R : Type) shuffle sha256_int cases rollouts passes seed groups m (s : schedule R) w :
  (forall seed n, shuffle seed n ≡ₚ seq 0 n) ->
  suite_groups shuffle sha256_int cases rollouts passes seed = Ok groups -> new_schedule groups m = Ok s -> reaches_run s w ->
  length groups = (Z.to_nat passes * length cases)%nat
  /\ Z.of_nat (length (active (sched w))) <= m
  /\ handed w ++ ready (sched w) ++ all_samples (pending (sched w)) = all_samples groups
  /\ (forall case result, case ∈ in_flight w -> exists s', complete case result (sched w) = Ok s')
  /\ NoDup (map f_group (finished (sched w)))
  /\ (forall f, f ∈ finished (sched w) -> f_group f ∈ map fst groups
        /\ f_results f = results_of (f_group f) (ended w) /\ Z.of_nat (length (f_results f)) = rollouts)
  /\ (forall s', take_turn false (sched w) = (Again, s') -> in_flight w <> [])
  /\ (forall s', take_turn false (sched w) = (Nothing, s') -> handed w = all_samples groups
        /\ in_flight w = [] /\ map fst groups ⊆ map f_group (finished (sched w))).
Proof.
  intros Hshuffle Hsuite Hn Hr. destruct (suite_well_grouped shuffle sha256_int Hshuffle _ _ _ _ _ Hsuite) as (Hg & Hlen & Hsize).
  destruct (schedule_run R groups m s w Hg Hn Hr) as (Hmax & Hall & Hc & Hnd & Hf & Hag & Hno).
  split; [done|]. split; [done|]. split; [done|]. split; [done|]. split; [done|]. split; [|by split].
  intros f Hin. destruct (Hf f Hin) as (ss & Hss & Hres & Hl). split; [|split; [done|]].
  - apply list_elem_of_fmap. by exists (f_group f, ss).
  - rewrite Forall_forall in Hsize. pose proof (Hsize _ Hss) as E. cbn in E. rewrite Hl, E. unfold suite_groups in Hsuite.
    destruct (_ || _); [done|]. destruct (Z.ltb_spec (Z.min rollouts passes) 1); [done|]. lia.
Qed.

(** ** Witness: two cases, two samples each, one group at a time *)

Definition reversed (seed : Z) (n : nat) : list nat := rev (seq 0 n).
Definition name_length (s : string) : Z := Z.of_nat (String.length s).
Definition two_cases : list suite_case := [{| task_id := "a"; request := [] |}; {| task_id := "b"; request := [] |}].
Definition small_suite : list group := match suite_groups reversed name_length two_cases 2 1 7 with Ok g => g | Err _ => [] end.
Definition small_schedule : schedule nat := {| pending := small_suite; ready := []; active := []; finished := []; max_groups := 1 |}.

Definition take_run (w : run (R := nat)) : run :=
  match take_turn false (sched w) with
  | (Sample case, s) => {| sched := s; handed := handed w ++ [case]; in_flight := in_flight w ++ [case]; ended := ended w |}
  | (_, s) => {| sched := s; handed := handed w; in_flight := in_flight w; ended := ended w |}
  end.
Definition complete_run (result : nat) (w : run (R := nat)) : run :=
  match in_flight w with
  | case :: rest => match complete case result (sched w) with
    | Ok s => {| sched := s; handed := handed w; in_flight := rest; ended := ended w ++ [(case, result)] |}
    | Err _ => w
    end
  | [] => w
  end.

Lemma take_run_step w : run_step w (take_run w).
Proof.
  unfold take_run. destruct (take_turn false (sched w)) as [[case| |] s] eqn:E.
  - by apply RunTake.
  - by apply (RunIdle w Nothing).
  - by apply (RunIdle w Again).
Qed.

Lemma complete_run_reaches result s w : reaches_run s w -> reaches_run s (complete_run result w).
Proof.
  intros H. unfold complete_run. destruct (in_flight w) as [|case rest] eqn:E; [done|].
  destruct (complete case result (sched w)) as [s'|] eqn:Ec; [|done]. eapply RunStep; [exact H|]. eapply RunComplete; [by rewrite E|done].
Qed.

Definition half_way : run := complete_run 1 (take_run (complete_run 0 (take_run (start_run small_schedule)))).

Lemma half_way_reaches : reaches_run small_schedule half_way.
Proof.
  unfold half_way. apply complete_run_reaches. eapply RunStep; [|apply take_run_step].
  apply complete_run_reaches. eapply RunStep; [|apply take_run_step]. constructor.
Qed.

Lemma reversed_shuffles seed n : reversed seed n ≡ₚ seq 0 n.
Proof. unfold reversed. symmetry. apply Permutation_rev. Qed.

Lemma suite_schedule_complete_witness :
  map (fun f => (f_group f, f_results f)) (finished (sched half_way)) = [("p0-task1", [0; 1]%nat)]
  /\ map (fun c => sample_task c) (handed half_way) = ["b"; "b"] /\ active (sched half_way) = []
  /\ length small_suite = 2%nat
  /\ handed half_way ++ ready (sched half_way) ++ all_samples (pending (sched half_way)) = all_samples small_suite.
Proof.
  destruct (suite_schedule_complete nat reversed name_length two_cases 2 1 7 small_suite 1 small_schedule half_way
    reversed_shuffles eq_refl eq_refl half_way_reaches) as (Hl & _ & Hall & _).
  split; [vm_compute; reflexivity|]. split; [vm_compute; reflexivity|]. split; [vm_compute; reflexivity|].
  split; [exact Hl|exact Hall].
Defined.

(** * Coverage of externally scheduled samples

    [external_schedule_coverage] accepts exactly the reports of distinct pinned
    samples, and classifies every group by the results it has. *)

Definition identity (x : external_result) : string * nat := (group_id (x_rollout x), sample_index (x_rollout x)).
Definition index_of (c : sample_case) : nat := sample_index (sample_rollout c).
Definition records_of (g : string) (results : list external_result) : list external_result :=
  filter (fun x => group_id (x_rollout x) = g) results.

(** The sample a result reports. *)
Definition pinned (groups : list group) (x : external_result) : Prop :=
  exists c, c ∈ all_samples groups /\ x_task x = sample_task c /\ x_rollout x = sample_rollout c.

(** Groups whose samples have distinct indices. *)
Definition indexed (groups : list group) : Prop := Forall (fun g : group => NoDup (map index_of g.2)) groups.

Lemma find_index l c : NoDup (map index_of l) -> c ∈ l ->
  exists i, list_find (fun d => sample_index (sample_rollout d) = index_of c) l = Some (i, c).
Proof.
  intros Hnd Hin. destruct (list_find_elem_of (fun d => sample_index (sample_rollout d) = index_of c) l c Hin eq_refl) as [[i d] E].
  exists i. rewrite E. do 2 f_equal. apply list_find_Some in E as (Hi & Hd & _). apply list_elem_of_lookup in Hin as [j Hj].
  assert (i = j) as ->; [|congruence].
  apply (NoDup_lookup (map index_of l) i j (index_of c)); [done| |]; rewrite list_lookup_fmap; [rewrite Hi; cbn; by f_equal|by rewrite Hj].
Qed.

Section Coverage.
Context (groups : list group) (Hg : well_grouped groups) (Hix : indexed groups).
#[local] Notation expected := (list_to_map (rev groups) : gmap string (list sample_case)).

Lemma expected_lookup g ss : expected !! g = Some ss <-> (g, ss) ∈ groups.
Proof.
  rewrite <- elem_of_list_to_map; [by rewrite !list_elem_of_In, <- in_rev|]. change (NoDup (map fst (rev groups))). rewrite map_rev.
  apply NoDup_ListNoDup, NoDup_rev, NoDup_ListNoDup, (g_names _ Hg).
Qed.

Lemma observe_spec seen observed x :
  match observe expected seen observed x with
  | Ok o => identity x ∉ seen /\ pinned groups x
      /\ o = (identity x :: seen, <[group_id (x_rollout x) := default [] (observed !! group_id (x_rollout x)) ++ [x]]> observed)
  | Err _ => identity x ∈ seen \/ ~ pinned groups x
  end.
Proof.
  unfold observe. fold (identity x). destruct (expected !! group_id (x_rollout x)) as [ss|] eqn:E.
  - apply expected_lookup in E. case_bool_decide as Hs; [by left|].
    assert (forall c, c ∈ all_samples groups -> x_rollout x = sample_rollout c -> c ∈ ss /\ NoDup (map index_of ss)) as Hin.
    { intros c Hc Hr. split; [|unfold indexed in Hix; rewrite Forall_forall in Hix; by apply (Hix _ E)].
      rewrite <- (in_group_samples groups _ ss Hg E). apply list_elem_of_filter. unfold group_of. by rewrite Hr. }
    destruct (list_find _ ss) as [[i c]|] eqn:Ef.
    + assert (pinned groups x <-> x_task x = sample_task c /\ x_rollout x = sample_rollout c) as Hp.
      { split.
        - intros (d & Hd & Ht & Hr). destruct (Hin d Hd Hr) as [Hd' Hnd]. destruct (find_index ss d Hnd Hd') as [j Hj].
          unfold index_of in Hj. rewrite <- Hr in Hj. rewrite Hj in Ef. by injection Ef as <- <-.
        - intros [Ht Hr]. exists c. split; [|done]. apply list_find_Some in Ef as (Hi & _). apply list_elem_of_lookup_2 in Hi.
          apply list_elem_of_In, in_concat. exists ss. split; [|by apply list_elem_of_In].
          apply in_map_iff. exists (group_id (x_rollout x), ss). split; [done|by apply list_elem_of_In]. }
      repeat case_bool_decide; cbn [negb orb]; rewrite Hp; tauto.
    + right. intros (d & Hd & Ht & Hr). destruct (Hin d Hd Hr) as [Hd' Hnd]. destruct (find_index ss d Hnd Hd') as [j Hj].
      unfold index_of in Hj. rewrite <- Hr in Hj. congruence.
  - right. intros (c & Hc & _ & Hr). apply list_elem_of_In, in_concat in Hc as (ss & Hss & Hc). apply in_map_iff in Hss as ([g ss'] & <- & Hgs).
    apply list_elem_of_In in Hgs. apply list_elem_of_In in Hc. cbn in Hc. pose proof (g_samples _ Hg) as Hf. rewrite Forall_forall in Hf. destruct (Hf _ Hgs) as [_ Hf'].
    rewrite Forall_forall in Hf'. specialize (Hf' _ Hc). cbn in Hf'. unfold group_of in Hf'. rewrite Hr, Hf' in E.
    apply expected_lookup in Hgs. congruence.
Qed.

Lemma observe_all_spec results seen observed :
  match observe_all expected seen observed results with
  | Ok o => NoDup (map identity results) /\ Forall (fun x => identity x ∉ seen /\ pinned groups x) results
      /\ forall g, default [] (o !! g) = default [] (observed !! g) ++ records_of g results
  | Err _ => ~ (NoDup (map identity results) /\ Forall (fun x => identity x ∉ seen /\ pinned groups x) results)
  end.
Proof.
  revert seen observed. induction results as [|x results IH]; intros seen observed; cbn [observe_all].
  { split; [constructor|]. split; [constructor|]. intros g. cbn. by rewrite app_nil_r. }
  pose proof (observe_spec seen observed x) as Hx. destruct (observe expected seen observed x) as [o|e].
  - destruct Hx as (Hns & Hp & ->). cbn [fst snd]. specialize (IH (identity x :: seen) (<[group_id (x_rollout x) := default [] (observed !! group_id (x_rollout x)) ++ [x]]> observed)).
    destruct (observe_all _ _ _ _) as [o|e]; cbn [map].
    + destruct IH as (Hnd & Hall & Ho). rewrite Forall_forall in Hall. split; [|split].
      * apply NoDup_cons. split; [|done]. intros (y & Hy & Hin)%list_elem_of_fmap. destruct (Hall y Hin) as [Hn _]. apply Hn. rewrite <- Hy. by left.
      * constructor; [done|]. apply Forall_forall. intros y Hin. destruct (Hall y Hin) as [Hn Hpy]. split; [|done]. intros H. apply Hn. by right.
      * intros g. rewrite Ho. unfold records_of. rewrite filter_cons. case_decide as Eg.
        -- subst g. rewrite lookup_insert_eq. cbn. by rewrite <- app_assoc.
        -- by rewrite lookup_insert_ne.
    + intros [[Hn Hnd]%NoDup_cons [_ Hall]%Forall_cons]. apply IH. split; [done|]. rewrite Forall_forall in *. intros y Hin.
      destruct (Hall y Hin) as [Hns' Hpy]. split; [|done]. intros [E|Hs]%elem_of_cons; [|done]. apply Hn. rewrite <- E. apply list_elem_of_fmap. by exists y.
  - intros [_ [[Hns Hp] _]%Forall_cons]. destruct Hx; done.
Qed.

Lemma minimum_cons x l : exists n, minimum (x :: l) = Ok n.
Proof. by eexists. Qed.
Lemma maximum_cons x l : exists n, maximum (x :: l) = Ok n.
Proof. by eexists. Qed.

(** What the report makes of a group with some results. *)
Definition expected_coverage (results : list external_result) (g : group) (c : group_coverage) : Prop :=
  let got := length (records_of g.1 results) in
  match c with
  | NotStarted => got = 0%nat
  | Incomplete rest n => n = got /\ (0 < got < length g.2)%nat /\ (rest + got = length g.2)%nat
  | Completed s => gs_group s = g.1 /\ episodes s = got /\ (length g.2 <= got)%nat
  end.

Lemma cover_group_spec results observed g : g ∈ groups -> default [] (observed !! g.1) = records_of g.1 results ->
  exists c, cover_group observed g = Ok c /\ expected_coverage results g c.
Proof.
  intros Hin Ho. unfold cover_group, expected_coverage. rewrite Ho. destruct (records_of g.1 results) as [|x l] eqn:E; [by eexists|].
  case_bool_decide as Hlt; cbn [length] in *.
  - eexists. split; [reflexivity|]. cbn. split; [done|]. split; lia.
  - pose proof (g_samples _ Hg) as Hf. rewrite Forall_forall in Hf. destruct (Hf g Hin) as [Hne _]. destruct (g.2) as [|c cs]; [done|].
    eexists. split; [reflexivity|]. cbn in *. rewrite length_map. split; [done|]. split; [done|lia].
Qed.

Lemma traverse_cover results observed l : l ⊆ groups -> (forall g, default [] (observed !! g) = records_of g results) ->
  exists cs, traverse (cover_group observed) l = Ok cs /\ Forall2 (expected_coverage results) l cs.
Proof.
  intros Hl Ho. induction l as [|g l IH]; [by exists []|]. destruct IH as (cs & Hcs & Hall); [set_solver|].
  destruct (cover_group_spec results observed g) as (c & Hc & Hec); [set_solver|done|].
  exists (c :: cs). cbn [traverse]. rewrite Hc. cbn. rewrite Hcs. split; [done|by constructor].
Qed.

(** The identities of a group's results are distinct samples of it. *)
Lemma records_bounded results g ss : NoDup (map identity results) -> Forall (pinned groups) results -> (g, ss) ∈ groups ->
  (length (records_of g results) <= length ss)%nat.
Proof.
  intros Hnd Hp Hin. rewrite <- (length_map identity (records_of g results)), <- (length_map (fun c => (g, index_of c)) ss).
  apply submseteq_length, NoDup_submseteq.
  - eapply sublist_NoDup; [exact Hnd|]. apply (fmap_sublist identity). unfold records_of. apply sublist_filter.
  - intros i (x & -> & Hx)%list_elem_of_fmap. apply list_elem_of_filter in Hx as [Hxg Hx]. rewrite Forall_forall in Hp.
    destruct (Hp x Hx) as (c & Hc & _ & Hr). apply list_elem_of_fmap. exists c. split; [unfold identity, index_of; by rewrite Hxg, Hr|].
    rewrite <- (in_group_samples groups g ss Hg Hin). apply list_elem_of_filter. unfold group_of. by rewrite <- Hr.
Qed.
End Coverage.

Lemma report_counts groups cs (P : group -> group_coverage -> Prop) : Forall2 P groups cs ->
  let rep := report groups (zip (map fst groups) cs) in
  (completed_groups rep + pending_groups rep + length (incomplete_groups rep))%nat = length groups
  /\ Forall (fun s => exists g, g ∈ groups /\ P g (Completed s)) (group_summaries rep).
Proof.
  cbn. induction 1 as [|g c gs cs Hc _ [IHn IHf]]; [by split|]. cbn [map zip_with]. rewrite filter_cons.
  assert (Forall (fun s => exists g0, g0 ∈ g :: gs /\ P g0 (Completed s))
    (omap (fun e : string * group_coverage => match e.2 with Completed s => Some s | _ => None end) (zip (map fst gs) cs))) as Hf.
  { eapply Forall_impl; [exact IHf|]. intros s (g0 & Hg0 & Hs). exists g0. split; [by right|done]. }
  destruct c as [|a b|s]; [rewrite decide_True by done|rewrite decide_False by done|rewrite decide_False by done]; cbn.
  - split; [lia|exact Hf].
  - split; [lia|exact Hf].
  - split; [lia|]. constructor; [|exact Hf]. exists g. split; [by left|done].
Qed.

(** C35. For distinct groups with distinct sample indices, a report of external
    results is accepted exactly when each result is a pinned sample of the
    groups, with its task and rollout record, and no sample is reported twice;
    then every group is counted once as completed, incomplete or pending, the
    completed ones with a result for each of their samples. *)
Theorem coverage_accepts_exactly groups results : well_grouped groups -> indexed groups ->
  match external_schedule_coverage groups results with
  | Ok rep => NoDup (map identity results) /\ Forall (pinned groups) results
      /\ (completed_groups rep + pending_groups rep + length (incomplete_groups rep))%nat = length groups
      /\ Forall (fun s => exists g, g ∈ groups /\ gs_group s = g.1 /\ episodes s = length g.2) (group_summaries rep)
  | Err e => ~ (NoDup (map identity results) /\ Forall (pinned groups) results)
  end.
Proof.
  intros Hg Hix. unfold external_schedule_coverage.
  pose proof (observe_all_spec groups Hg Hix results [] ((fun _ => []) <$> list_to_map (rev groups))) as Ho.
  destruct (observe_all _ _ _ _) as [o|e].
  - destruct Ho as (Hnd & Hall & Hrec). assert (Forall (pinned groups) results) as Hp by (eapply Forall_impl; [exact Hall|]; by intros x [_ H]).
    assert (forall g, default [] (o !! g) = records_of g results) as Hrec'.
    { intros g. rewrite Hrec, lookup_fmap. by destruct (_ !! g). }
    destruct (traverse_cover groups Hg Hix results o groups ltac:(done) Hrec') as (cs & -> & Hcs).
    destruct (report_counts groups cs _ Hcs) as [Hn Hf]. split; [done|]. split; [done|]. split; [exact Hn|].
    eapply Forall_impl; [exact Hf|]. cbn beta. intros s (g & Hin & Hgs & Hep & Hle). exists g. split; [done|]. split; [done|].
    destruct g as [g ss]. cbn in *. pose proof (records_bounded groups Hg results g ss Hnd Hp Hin). lia.
  - intros [Hnd Hp]. apply Ho. split; [done|]. eapply Forall_impl; [exact Hp|]. intros x Hx. split; [apply not_elem_of_nil|done].
Qed.

(** ** Witness *)

Definition one_result : external_result :=
  {| x_task := "b"; x_rollout := {| group_id := "p0-task1"; pass_index := 0; sample_index := 0; group_size := 2; sampling_seed := 7 |};
     x_episode := {| started_unix_ns := 1; finished_unix_ns := 5; verified_correct := true; job := "j" |} |}.

Lemma coverage_accepts_exactly_witness :
  (exists rep, external_schedule_coverage small_suite [one_result] = Ok rep /\ pending_groups rep = 1%nat
     /\ incomplete_groups rep = [("p0-task1", (1, 1%nat))])
  /\ is_ok (external_schedule_coverage small_suite [one_result; one_result]) = false
  /\ Forall (pinned small_suite) [one_result].
Proof.
  assert (well_grouped small_suite) as Hg by (apply (suite_well_grouped reversed name_length reversed_shuffles two_cases 2 1 7); reflexivity).
  assert (indexed small_suite) as Hix by (repeat constructor; apply (bool_decide_unpack _); vm_compute; reflexivity).
  pose proof (coverage_accepts_exactly small_suite [one_result] Hg Hix) as H.
  split; [eexists; split; [vm_compute; reflexivity|]; split; vm_compute; reflexivity|]. split; [vm_compute; reflexivity|].
  destruct (external_schedule_coverage small_suite [one_result]) eqn:E; [apply H|vm_compute in E; discriminate E].
Defined.
