(* ===== verification/HostMemory.v ===== *)
(** * Evaluator host-memory admission ([rollout_manager/host_memory.py])

    [ByteBudget] admits byte reservations in order of arrival; a reservation
    whose cleanup is uncertain is quarantined and stays.  Each operation runs
    under the budget's condition, so a run is a sequence of them; an iteration
    of the loop of [acquire] is one step.  [evaluator_memory] holds a
    reservation around a stage. *)

From S2P Require Import Prelude PyValue.
From S2P Require Workloads.
Local Open Scope Z_scope.
Local Open Scope py_scope.

(** ** [ByteBudget] *)

Inductive allocation_state := Held | Quarantined.
#[export] Instance allocation_state_eq_dec : EqDecision allocation_state.
Proof. solve_decision. Defined.

Record allocation := { bytes : Z; state : allocation_state }.

Record budget := {
  capacity : Z;
  waiting : list (string * Z);
  allocations : list (string * allocation) }.

Definition new_budget (capacity : Z) : res budget :=
  raise_when capacity <=? 0 with_exn ValueError "positive memory budget required";
  Ok {| capacity := capacity; waiting := []; allocations := [] |}.

Definition used (b : budget) : Z := list_sum_Z (map (fun a => bytes a.2) (allocations b)).
Definition used_in (s : allocation_state) (b : budget) : Z :=
  list_sum_Z (map (fun a => bytes a.2) (filter (fun a => state a.2 = s) (allocations b))).

Definition enqueue (key : string) (size : Z) (b : budget) : res budget :=
  raise_when negb ((0 <? size) && (size <=? capacity b)) with_exn ValueError "one allocation cannot fit the memory budget";
  raise_when bool_decide (key ∈ map fst (allocations b)) || bool_decide (key ∈ map fst (waiting b))
    with_exn ValueError "duplicate memory reservation key";
  Ok {| capacity := capacity b; waiting := waiting b ++ [(key, size)]; allocations := allocations b |}.

Definition cancel (key : string) (b : budget) : budget :=
  {| capacity := capacity b; waiting := filter (fun e => e.1 <> key) (waiting b); allocations := allocations b |}.

(** [MemoryAdmissionCancelled], a return, or another turn of the loop. *)
Inductive turn := Refused | Granted | Waits.

Definition acquire_turn (key : string) (cancelled : bool) (b : budget) : turn * budget :=
  if cancelled then (Refused, cancel key b)
  else match list_find (fun e => e.1 = key) (waiting b) with
  | None => (Refused, b)
  | Some (_, entry) =>
      match waiting b with
      | first :: rest =>
          if bool_decide (first = entry) && (used b + entry.2 <=? capacity b)
          then (Granted, {| capacity := capacity b; waiting := rest;
                            allocations := allocations b ++ [(key, {| bytes := entry.2; state := Held |})] |})
          else (Waits, b)
      | [] => (Waits, b)
      end
  end.

Definition set_state (key : string) (s : allocation_state) (l : list (string * allocation)) : list (string * allocation) :=
  map (fun a => if bool_decide (a.1 = key) then (a.1, {| bytes := bytes a.2; state := s |}) else a) l.

Definition quarantine (key : string) (b : budget) : res budget :=
  raise_when negb (bool_decide (key ∈ map fst (allocations b))) with_exn KeyError key;
  Ok {| capacity := capacity b; waiting := waiting b; allocations := set_state key Quarantined (allocations b) |}.

Definition release (key : string) (b : budget) : budget :=
  cancel key {| capacity := capacity b; waiting := waiting b; allocations := filter (fun a => a.1 <> key) (allocations b) |}.

Record snapshot := { capacity_bytes : Z; reserved_bytes : Z; waiting_jobs : nat; admitted_bytes : Z; quarantined_bytes : Z }.
Definition take_snapshot (b : budget) : snapshot :=
  {| capacity_bytes := capacity b; reserved_bytes := used b; waiting_jobs := length (waiting b);
     admitted_bytes := used_in Held b; quarantined_bytes := used_in Quarantined b |}.

(** ** [evaluator_memory]: stages that hold a reservation *)

(** Where a stage stands: it waits in the queue, runs, or is over. *)
Inductive phase := Queued | Running | Over.
#[export] Instance phase_eq_dec : EqDecision phase.
Proof. solve_decision. Defined.

Record stage := { stage_key : string; stage_bytes : Z; stage_phase : phase }.

(** The budget, the stages by number, and two logs: the keys that entered the
    queue and those admitted. *)
Record world := { memory : budget; stages : gmap nat stage; entered : list string; admitted : list string }.

Definition with_phase (i : nat) (s : stage) (p : phase) (w : world) : gmap nat stage :=
  <[i := {| stage_key := stage_key s; stage_bytes := stage_bytes s; stage_phase := p |}]> (stages w).

(** Entering: [enqueue], or the handler of its exception. *)
Definition enter (i : nat) (key : string) (size : Z) (w : world) : world :=
  match enqueue key size (memory w) with
  | Ok b => {| memory := b; stages := <[i := {| stage_key := key; stage_bytes := size; stage_phase := Queued |}]> (stages w);
               entered := entered w ++ [key]; admitted := admitted w |}
  | Err _ => {| memory := cancel key (memory w);
                stages := <[i := {| stage_key := key; stage_bytes := size; stage_phase := Over |}]> (stages w);
                entered := entered w; admitted := admitted w |}
  end.

(** A turn of [acquire] for a queued stage; a refusal cancels again. *)
Definition poll (i : nat) (s : stage) (cancelled : bool) (w : world) : world :=
  match acquire_turn (stage_key s) cancelled (memory w) with
  | (Granted, b) => {| memory := b; stages := with_phase i s Running w; entered := entered w;
                       admitted := admitted w ++ [stage_key s] |}
  | (Refused, b) => {| memory := cancel (stage_key s) b; stages := with_phase i s Over w; entered := entered w; admitted := admitted w |}
  | (Waits, b) => {| memory := b; stages := stages w; entered := entered w; admitted := admitted w |}
  end.

(** Leaving: an uncertain cleanup keeps the reservation. *)
Definition leave (i : nat) (s : stage) (quarantined : bool) (w : world) : res world :=
  b <-? (if quarantined then quarantine (stage_key s) (memory w) else Ok (release (stage_key s) (memory w)));
  Ok {| memory := b; stages := with_phase i s Over w; entered := entered w; admitted := admitted w |}.

(** A key names one stage: [job + "/" + stage]. *)
Inductive step : world -> world -> Prop :=
| StepEnter w i key size : stages w !! i = None -> (forall j s, stages w !! j = Some s -> stage_key s <> key) ->
    step w (enter i key size w)
| StepPoll w i s cancelled : stages w !! i = Some s -> stage_phase s = Queued -> step w (poll i s cancelled w)
| StepLeave w w' i s quarantined : stages w !! i = Some s -> stage_phase s = Running -> leave i s quarantined w = Ok w' -> step w w'.

Definition empty_world (b : budget) : world := {| memory := b; stages := ∅; entered := []; admitted := [] |}.

(** ** [evaluator_estimates] *)

Definition GIB : Z := 1024 ^ 3.

Record checkpoint_file := { file_name : string; file_bytes : Z }.
Record pinned_model := { model_name : string; files : list checkpoint_file }.
Record registered_task := { task_sha : string; native_device_generator : bool }.
(** [spec["source_sha256"]] and the value of [spec.get("allocation_bytes",
    spec.get("arena_bytes"))]. *)
Record memory_plan := { plan_sha : string; plan_allocation : pyval }.
(** [registry]: the tasks, and the plans under one of two keys. *)
Record task_registry := { tasks : list registered_task; plans : option (list (string * memory_plan));
                          contracts : option (list (string * memory_plan)) }.
Record evaluated_task := { evaluated_id : string; code : string; source_sha256 : string }.

Record memory_estimate := {
  total_bytes : Z; runtime_bytes : Z; input_and_transfer_bytes : Z; model_loading_bytes : Z; estimate_model : option string }.

Section Estimates.
(** [hashlib.sha256(...).hexdigest()] and [ast.parse]. *)
Context (sha256 : string -> string) (ast_parse : string -> res Workloads.syntax).

Fixpoint find_key {A} (k : string) (l : list (string * A)) : option A :=
  match l with [] => None | (k', a) :: l => if bool_decide (k = k') then Some a else find_key k l end.

(** [s.endswith(suffix)]. *)
Definition str_ends (suffix s : string) : bool :=
  bool_decide (String.substring (String.length s - String.length suffix) (String.length suffix) s = suffix).

Definition is_weight_file (name : string) : bool := str_ends ".bin" name || str_ends ".safetensors" name.
Definition checkpoint_bytes (m : pinned_model) : Z :=
  list_sum_Z (map file_bytes (filter (fun f => is_weight_file (file_name f) = true) (files m))).
Definition weights (models : list pinned_model) : list (string * Z) :=
  rev (map (fun m => (model_name m, checkpoint_bytes m)) models).

(** [isinstance(allocation, int)], a bool being an int. *)
Definition as_int (v : pyval) : option Z :=
  match v with PInt n => Some n | PBool b => Some (if b then 1 else 0) | _ => None end.

Definition estimate_task (registry : task_registry) (models : list pinned_model) (t : evaluated_task) : res memory_estimate :=
  let sha := sha256 (code t) in
  raise_when negb (bool_decide (source_sha256 t = sha)) with_exn ValueError "task source digest mismatch";
  let native := existsb (fun r => native_device_generator r && bool_decide (task_sha r = sha)) (tasks registry) in
  let known := match plans registry with Some p => p | None => default [] (contracts registry) end in
  let spec := find_key sha known in
  raise_when bool_decide (spec = None) && negb native with_exn ValueError ("no evaluator memory plan for " +:+ evaluated_id t);
  raise_when match spec with Some s => negb (bool_decide (plan_sha s = sha)) | None => false end
    with_exn ValueError "input memory plan digest mismatch";
  dependency <-? Workloads.model_dependency ast_parse (code t);
  let weight := match dependency with Some d => find_key d (weights models) | None => Some 0 end in
  match weight with
  | None => Err (ValueError ("no pinned model memory estimate for " +:+ default "" dependency))
  | Some checkpoint =>
      match match spec with Some s => as_int (plan_allocation s) | None => Some 0 end with
      | None => Err (ValueError "invalid input memory estimate")
      | Some allocation =>
          raise_when allocation <? 0 with_exn ValueError "invalid input memory estimate";
          Ok {| total_bytes := 8 * GIB + 2 * allocation + 3 * checkpoint; runtime_bytes := 8 * GIB;
                input_and_transfer_bytes := 2 * allocation; model_loading_bytes := 3 * checkpoint; estimate_model := dependency |}
      end
  end.

Definition evaluator_estimates (cases : list evaluated_task) (registry : task_registry) (models : list pinned_model)
    : res (list (string * memory_estimate)) :=
  traverse (fun t => e <-? estimate_task registry models t; Ok (evaluated_id t, e)) cases.

(** An estimate is the runtime, twice the inputs and three copies of the
    model's weights; with weights that are sizes, it can be enqueued in any
    budget at least as large. *)
Lemma estimate_enqueues registry models t e b : estimate_task registry models t = Ok e ->
  Forall (fun m => Forall (fun f => 0 <= file_bytes f) (files m)) models -> total_bytes e <= capacity b ->
  evaluated_id t ∉ map fst (allocations b) -> evaluated_id t ∉ map fst (waiting b) ->
  total_bytes e = runtime_bytes e + input_and_transfer_bytes e + model_loading_bytes e
  /\ exists b', enqueue (evaluated_id t) (total_bytes e) b = Ok b'.
Proof.
  unfold estimate_task. destruct (negb _); [done|]. set (spec := find_key _ _). destruct (_ && _); [done|].
  destruct (match spec with Some s => _ | None => _ end); [done|]. destruct (Workloads.model_dependency _ _) as [dep|]; [|done].
  destruct (match dep with Some d => find_key d (weights models) | None => Some 0 end) as [w|] eqn:Ew; [|done].
  destruct (match spec with Some s => as_int (plan_allocation s) | None => Some 0 end) as [a|]; [|done].
  destruct (Z.ltb_spec a 0); [done|]. intros [= <-] Hsizes Hfit Ha Hq. cbn in *. split; [done|].
  assert (0 <= w) as Hw.
  { destruct dep as [d|]; [|by injection Ew as <-]. unfold weights in Ew.
    assert (Forall (fun p : string * Z => 0 <= p.2) (rev (map (fun m => (model_name m, checkpoint_bytes m)) models))) as Hp.
    { apply Forall_rev, Forall_fmap. eapply Forall_impl; [exact Hsizes|]. intros m Hm. cbn. unfold checkpoint_bytes.
      induction Hm as [|f l Hf _ IH]; [done|]. rewrite filter_cons. case_decide; [|done]. cbn [map]. rewrite list_sum_Z_cons. lia. }
    induction Hp as [|[k v] l Hv _ IH]; cbn in Ew; [done|]. case_bool_decide; [by injection Ew as <-|by apply IH]. }
  unfold enqueue. assert (0 < 8 * GIB + 2 * a + 3 * w) as Hpos by (assert (0 < GIB) by done; lia).
  replace (0 <? 8 * GIB + 2 * a + 3 * w) with true by lia. replace (8 * GIB + 2 * a + 3 * w <=? capacity b) with true by lia.
  cbn [negb andb]. rewrite !bool_decide_eq_false_2 by done. cbn [orb]. by eexists.
Qed.
End Estimates.

(** ** Lemmas of the budget *)

Definition keys_of {A} (l : list (string * A)) : list string := map fst l.

Lemma keep_elem {A} key (l : list (string * A)) e : e ∈ filter (fun e => e.1 <> key) l <-> e ∈ l /\ e.1 <> key.
Proof. rewrite list_elem_of_filter. tauto. Qed.

Lemma keep_keys {A} key (l : list (string * A)) : keys_of (filter (fun e => e.1 <> key) l) `sublist_of` keys_of l.
Proof.
  unfold keys_of. induction l as [|e l IH]; [done|]. rewrite filter_cons. case_decide; cbn [map]; [by apply sublist_skip|by apply sublist_cons].
Qed.

Lemma keep_forall {A} (P : string * A -> Prop) key (l : list (string * A)) : Forall P l -> Forall P (filter (fun e => e.1 <> key) l).
Proof. rewrite !Forall_forall. intros H e [He _]%keep_elem. by apply H. Qed.

Lemma keep_all {A} key (l : list (string * A)) : key ∉ keys_of l -> filter (fun e => e.1 <> key) l = l.
Proof.
  unfold keys_of. induction l as [|e l IH]; [done|]. cbn [map]. intros [He Hl]%not_elem_of_cons.
  rewrite filter_cons, decide_True by done. by rewrite IH.
Qed.

Lemma used_keep key l : Forall (fun a => 0 < bytes a.2) l ->
  list_sum_Z (map (fun a => bytes a.2) (filter (fun a : string * allocation => a.1 <> key) l)) <= list_sum_Z (map (fun a => bytes a.2) l).
Proof.
  induction 1 as [|a l Ha _ IH]; [done|]. rewrite filter_cons. cbn [map]. case_decide; cbn [map]; rewrite !list_sum_Z_cons; lia.
Qed.

Lemma set_state_keys key s l : keys_of (set_state key s l) = keys_of l.
Proof. unfold keys_of, set_state. rewrite map_map. apply map_ext. intros a. by case_bool_decide. Qed.

Lemma set_state_bytes key s l : map (fun a => bytes a.2) (set_state key s l) = map (fun a => bytes a.2) l.
Proof. unfold set_state. rewrite map_map. apply map_ext. intros a. by case_bool_decide. Qed.

Lemma set_state_elem key s l e : e ∈ set_state key s l ->
  exists a, (e.1, a) ∈ l /\ bytes e.2 = bytes a /\ (if bool_decide (e.1 = key) then state e.2 = s else state e.2 = state a).
Proof.
  unfold set_state. intros (a & -> & Ha)%list_elem_of_fmap. exists a.2. case_bool_decide as E; cbn.
  - split; [by destruct a|]. by rewrite bool_decide_eq_true_2.
  - split; [by destruct a|]. by rewrite bool_decide_eq_false_2.
Qed.

Lemma set_state_other key s l k a : (k, a) ∈ l -> k <> key -> (k, a) ∈ set_state key s l.
Proof.
  intros Hin Hne. unfold set_state. apply list_elem_of_fmap. exists (k, a). split; [|done]. cbn. by rewrite bool_decide_eq_false_2.
Qed.

Lemma key_unique {A} (l : list (string * A)) k a b : NoDup (keys_of l) -> (k, a) ∈ l -> (k, b) ∈ l -> a = b.
Proof.
  unfold keys_of. induction l as [|e l IH]; cbn; intros Hnd Ha Hb; [by apply not_elem_of_nil in Ha|].
  apply NoDup_cons in Hnd as [Hn Hnd]. apply elem_of_cons in Ha as [<-|Ha], Hb as [Hb|Hb].
  - congruence.
  - exfalso. apply Hn. apply list_elem_of_fmap. by exists (k, b).
  - subst. exfalso. apply Hn. apply list_elem_of_fmap. by exists (k, a).
  - by apply IH.
Qed.

(** ** The invariant *)

Record invariant (w : world) : Prop := {
  i_used : used (memory w) <= capacity (memory w);
  i_waiting : Forall (fun e => 0 < e.2 <= capacity (memory w)) (waiting (memory w));
  i_allocations : Forall (fun a => 0 < bytes a.2) (allocations (memory w));
  i_distinct : NoDup (keys_of (allocations (memory w)) ++ keys_of (waiting (memory w)));
  i_stages : forall i j s t, stages w !! i = Some s -> stages w !! j = Some t -> stage_key s = stage_key t -> i = j;
  i_queued : forall i s, stages w !! i = Some s -> stage_phase s = Queued -> (stage_key s, stage_bytes s) ∈ waiting (memory w);
  i_running : forall i s, stages w !! i = Some s -> stage_phase s = Running ->
    (stage_key s, {| bytes := stage_bytes s; state := Held |}) ∈ allocations (memory w);
  i_entry : forall k n, (k, n) ∈ waiting (memory w) -> exists i s, stages w !! i = Some s /\ stage_key s = k
    /\ stage_bytes s = n /\ stage_phase s = Queued;
  i_owner : forall k a, (k, a) ∈ allocations (memory w) -> exists i s, stages w !! i = Some s /\ stage_key s = k
    /\ stage_phase s = match state a with Held => Running | Quarantined => Over end;
  i_order : admitted w ++ keys_of (waiting (memory w)) `sublist_of` entered w }.

Lemma invariant_empty b : 0 < capacity b -> waiting b = [] -> allocations b = [] -> invariant (empty_world b).
Proof.
  intros Hc Hw Ha. constructor; cbn; rewrite ?Hw, ?Ha; try constructor.
  - unfold used. rewrite Ha. cbn. rewrite list_sum_Z_nil. lia.
  - intros i j s t. by rewrite lookup_empty.
  - intros i s. by rewrite lookup_empty.
  - intros i s. by rewrite lookup_empty.
  - intros k n ?%not_elem_of_nil. done.
  - intros k a ?%not_elem_of_nil. done.
Qed.

Section Steps.
Context (w : world) (Hinv : invariant w).

Lemma waiting_nodup : NoDup (keys_of (waiting (memory w))).
Proof. pose proof (i_distinct w Hinv) as H. apply NoDup_app in H. tauto. Qed.

Lemma allocations_nodup : NoDup (keys_of (allocations (memory w))).
Proof. pose proof (i_distinct w Hinv) as H. apply NoDup_app in H. tauto. Qed.

Lemma same_stage i j s t : stages w !! i = Some s -> stages w !! j = Some t -> stage_key s = stage_key t -> i = j /\ s = t.
Proof. intros Hi Hj Hk. assert (i = j) as -> by (by eapply (i_stages w Hinv)). split; [done|congruence]. Qed.

Lemma enter_invariant i key size : stages w !! i = None -> (forall j s, stages w !! j = Some s -> stage_key s <> key) ->
  invariant (enter i key size w).
Proof.
  intros Hi Hfresh. assert (key ∉ keys_of (waiting (memory w))) as Hnw.
  { intros (e & -> & He)%list_elem_of_fmap. destruct e as [k n]. destruct (i_entry w Hinv _ _ He) as (j & s & Hj & Hk & _).
    by apply (Hfresh j s Hj). }
  assert (key ∉ keys_of (allocations (memory w))) as Hna.
  { intros (e & -> & He)%list_elem_of_fmap. destruct e as [k a]. destruct (i_owner w Hinv _ _ He) as (j & s & Hj & Hk & _).
    by apply (Hfresh j s Hj). }
  assert (forall p, forall a b s t, <[i := {| stage_key := key; stage_bytes := size; stage_phase := p |}]> (stages w) !! a = Some s ->
    <[i := {| stage_key := key; stage_bytes := size; stage_phase := p |}]> (stages w) !! b = Some t -> stage_key s = stage_key t -> a = b) as Hst.
  { intros p a b s t. rewrite !lookup_insert_Some. intros [[<- <-]|[Ha Hs]] [[<- <-]|[Hb Ht]] Hk; try done.
    - exfalso. by apply (Hfresh b t Ht).
    - exfalso. by apply (Hfresh a s Hs).
    - by eapply (i_stages w Hinv). }
  unfold enter. destruct (enqueue key size (memory w)) as [b|e] eqn:E.
  - unfold enqueue in E. destruct (negb _) eqn:Es; [done|]. destruct (_ || _) eqn:Ed; [done|]. injection E as <-.
    apply negb_false_iff, andb_true_iff in Es as [Hs1%Z.ltb_lt Hs2%Z.leb_le].
    constructor; cbn; try apply Hinv; try apply Hst.
    + apply Forall_app_2; [apply Hinv|]. constructor; [cbn; lia|constructor].
    + unfold keys_of in *. rewrite map_app, app_assoc. apply NoDup_app. split; [apply (i_distinct w Hinv)|].
      split; [|by apply NoDup_singleton]. intros k Hk ->%list_elem_of_singleton. apply elem_of_app in Hk as [Hk|Hk]; done.
    + intros j s. rewrite lookup_insert_Some. intros [[<- <-]|[Hj Hs]] Hp; apply elem_of_app; [right; by left|left; by eapply (i_queued w Hinv)].
    + intros j s. rewrite lookup_insert_Some. intros [[<- <-]|[Hj Hs]] Hp; [done|by eapply (i_running w Hinv)].
    + intros k n [Hin|Hin]%elem_of_app.
      * destruct (i_entry w Hinv _ _ Hin) as (j & s & Hj & Hrest). exists j, s. split; [|done]. rewrite lookup_insert_ne; [done|congruence].
      * apply list_elem_of_singleton in Hin as [= -> ->]. exists i. eexists. by rewrite lookup_insert_eq.
    + intros k a Hin. destruct (i_owner w Hinv _ _ Hin) as (j & s & Hj & Hrest). exists j, s. split; [|done].
      rewrite lookup_insert_ne; [done|congruence].
    + unfold keys_of. rewrite map_app, app_assoc. apply sublist_app; [apply (i_order w Hinv)|done].
  - assert (cancel key (memory w) = memory w) as Hc by (unfold cancel; rewrite keep_all by done; by destruct (memory w)).
    rewrite Hc. constructor; cbn; try apply Hinv; try apply Hst.
    + intros j s. rewrite lookup_insert_Some. intros [[<- <-]|[Hj Hs]] Hp; [done|by eapply (i_queued w Hinv)].
    + intros j s. rewrite lookup_insert_Some. intros [[<- <-]|[Hj Hs]] Hp; [done|by eapply (i_running w Hinv)].
    + intros k n Hin. destruct (i_entry w Hinv _ _ Hin) as (j & s & Hj & Hrest). exists j, s. split; [|done].
      rewrite lookup_insert_ne; [done|congruence].
    + intros k a Hin. destruct (i_owner w Hinv _ _ Hin) as (j & s & Hj & Hrest). exists j, s. split; [|done].
      rewrite lookup_insert_ne; [done|congruence].
Qed.

(** A stage whose phase changes keeps its key. *)
Lemma with_phase_stages i s p : stages w !! i = Some s ->
  forall a b x y, with_phase i s p w !! a = Some x -> with_phase i s p w !! b = Some y -> stage_key x = stage_key y -> a = b.
Proof.
  intros Hi a b x y. unfold with_phase. rewrite !lookup_insert_Some. intros [[<- <-]|[Ha Hx]] [[<- <-]|[Hb Hy]] Hk; try done.
  - by eapply (i_stages w Hinv).
  - by eapply (i_stages w Hinv).
  - by eapply (i_stages w Hinv).
Qed.

(** A stage that leaves the queue without an allocation. *)
Lemma over_from_queue i s : stages w !! i = Some s -> stage_phase s = Queued ->
  invariant {| memory := cancel (stage_key s) (memory w); stages := with_phase i s Over w; entered := entered w; admitted := admitted w |}.
Proof.
  intros Hi Hp. unfold cancel. constructor; cbn; try apply Hinv.
  - apply keep_forall. apply Hinv.
  - apply NoDup_app. pose proof (i_distinct w Hinv) as Hd. apply NoDup_app in Hd as (Ha & Hdis & Hw). split; [done|]. split.
    + intros k Hk Hin. apply (Hdis k Hk). eapply elem_of_sublist; [exact Hin|]. apply keep_keys.
    + eapply sublist_NoDup; [exact Hw|apply keep_keys].
  - by apply with_phase_stages.
  - intros j t. unfold with_phase. rewrite lookup_insert_Some. intros [[<- <-]|[Hj Ht]] Hpt; [done|].
    apply keep_elem. split; [by eapply (i_queued w Hinv)|]. cbn. intros Hk. destruct (same_stage j i t s Ht Hi Hk) as [-> _]. done.
  - intros j t. unfold with_phase. rewrite lookup_insert_Some. intros [[<- <-]|[Hj Ht]] Hpt; [done|by eapply (i_running w Hinv)].
  - intros k n [Hin Hne]%keep_elem. destruct (i_entry w Hinv _ _ Hin) as (j & t & Hj & Hk & Hrest). exists j, t.
    split; [|done]. unfold with_phase. rewrite lookup_insert_ne; [done|]. intros ->. cbn in Hne. congruence.
  - intros k a Hin. destruct (i_owner w Hinv _ _ Hin) as (j & t & Hj & Hk & Ht). exists j, t. split; [|done].
    unfold with_phase. rewrite lookup_insert_ne; [done|]. intros ->. assert (s = t) as -> by congruence. destruct (state a); congruence.
  - etransitivity; [|apply (i_order w Hinv)]. apply sublist_app; [done|]. apply keep_keys.
Qed.

Lemma cancel_twice k b : cancel k (cancel k b) = cancel k b.
Proof. unfold cancel. cbn. f_equal. apply keep_all. intros (e & -> & [_ He]%keep_elem)%list_elem_of_fmap. by apply He. Qed.

(** The head of the queue that fits moves to the allocations. *)
Lemma granted_invariant i s rest : stages w !! i = Some s -> stage_phase s = Queued ->
  waiting (memory w) = (stage_key s, stage_bytes s) :: rest -> used (memory w) + stage_bytes s <= capacity (memory w) ->
  invariant {| memory := {| capacity := capacity (memory w); waiting := rest;
                 allocations := allocations (memory w) ++ [(stage_key s, {| bytes := stage_bytes s; state := Held |})] |};
               stages := with_phase i s Running w; entered := entered w; admitted := admitted w ++ [stage_key s] |}.
Proof.
  intros Hi Hp Hw Hfit. pose proof (i_waiting w Hinv) as Hpos. rewrite Hw in Hpos. apply Forall_cons in Hpos as [[Hs _] Hpos].
  pose proof (i_distinct w Hinv) as Hd. rewrite Hw in Hd. constructor; cbn; try apply Hinv.
  - unfold used in *. cbn. rewrite map_app, list_sum_Z_app. cbn [map]. rewrite list_sum_Z_cons, list_sum_Z_nil. cbn. lia.
  - done.
  - apply Forall_app_2; [apply Hinv|]. constructor; [done|constructor].
  - unfold keys_of in *. rewrite map_app, <- app_assoc. exact Hd.
  - by apply with_phase_stages.
  - intros j t. unfold with_phase. rewrite lookup_insert_Some. intros [[<- <-]|[Hj Ht]] Hpt; [done|].
    pose proof (i_queued w Hinv j t Ht Hpt) as Hin. rewrite Hw in Hin. apply elem_of_cons in Hin as [[= Hk _]|Hin]; [|done].
    destruct (same_stage j i t s Ht Hi Hk) as [-> _]. done.
  - intros j t. unfold with_phase. rewrite lookup_insert_Some. intros [[<- <-]|[Hj Ht]] Hpt; apply elem_of_app.
    + right. by left.
    + left. by eapply (i_running w Hinv).
  - intros k n Hin. destruct (i_entry w Hinv k n) as (j & t & Hj & Hk & Hn & Hpt); [rewrite Hw; by right|]. exists j, t.
    split; [|done]. unfold with_phase. rewrite lookup_insert_ne; [done|]. intros ->. assert (s = t) as -> by congruence.
    apply NoDup_app in Hd as (_ & _ & Hd). cbn in Hd. apply NoDup_cons in Hd as [Hd _]. apply Hd. apply list_elem_of_fmap. by exists (k, n).
  - intros k a [Hin|Hin]%elem_of_app.
    + destruct (i_owner w Hinv _ _ Hin) as (j & t & Hj & Hk & Hpt). exists j, t. split; [|done]. unfold with_phase.
      rewrite lookup_insert_ne; [done|]. intros ->. assert (s = t) as -> by congruence. destruct (state a); congruence.
    + apply list_elem_of_singleton in Hin as [= -> ->]. exists i. eexists. unfold with_phase. by rewrite lookup_insert_eq.
  - pose proof (i_order w Hinv) as Ho. rewrite Hw in Ho. by rewrite <- app_assoc.
Qed.

(** What a turn of a queued stage comes to. *)
Lemma queued_turn i s : stages w !! i = Some s -> stage_phase s = Queued ->
  acquire_turn (stage_key s) false (memory w) = (Waits, memory w)
  \/ exists rest, waiting (memory w) = (stage_key s, stage_bytes s) :: rest /\ used (memory w) + stage_bytes s <= capacity (memory w)
     /\ acquire_turn (stage_key s) false (memory w)
        = (Granted, {| capacity := capacity (memory w); waiting := rest;
             allocations := allocations (memory w) ++ [(stage_key s, {| bytes := stage_bytes s; state := Held |})] |}).
Proof.
  intros Hi Hp. pose proof (i_queued w Hinv i s Hi Hp) as Hin. unfold acquire_turn.
  destruct (list_find (fun e => e.1 = stage_key s) (waiting (memory w))) as [[j [k n]]|] eqn:E.
  - apply list_find_Some in E as (Hj & Hk & _). cbn in Hk. subst k. apply list_elem_of_lookup_2 in Hj.
    assert (n = stage_bytes s) as -> by (eapply key_unique; [apply waiting_nodup|done|done]).
    destruct (waiting (memory w)) as [|first rest]; [by left|]. case_bool_decide as Ef; cbn [andb]; [|by left]. subst first. cbn [snd].
    destruct (Z.leb_spec (used (memory w) + stage_bytes s) (capacity (memory w))); [|by left]. right. by exists rest.
  - apply list_find_None in E. rewrite Forall_forall in E. by destruct (E _ Hin).
Qed.

Lemma poll_invariant i s cancelled : stages w !! i = Some s -> stage_phase s = Queued -> invariant (poll i s cancelled w).
Proof.
  intros Hi Hp. unfold poll. destruct cancelled.
  { cbn [acquire_turn]. rewrite cancel_twice. by apply over_from_queue. }
  destruct (queued_turn i s Hi Hp) as [->|(rest & Hw & Hfit & ->)].
  - by destruct w.
  - by apply granted_invariant.
Qed.

Lemma leave_invariant i s quarantined w' : stages w !! i = Some s -> stage_phase s = Running ->
  leave i s quarantined w = Ok w' -> invariant w'.
Proof.
  intros Hi Hp. pose proof (i_running w Hinv i s Hi Hp) as Hrun. unfold leave.
  pose proof (i_distinct w Hinv) as Hd. pose proof (i_used w Hinv) as Hu.
  assert (stage_key s ∈ keys_of (allocations (memory w))) as Hka
    by (apply list_elem_of_fmap; eexists (stage_key s, _); split; [done|exact Hrun]).
  assert (stage_key s ∉ keys_of (waiting (memory w))) as Hkw by (apply NoDup_app in Hd as (_ & Hdis & _); exact (Hdis _ Hka)).
  destruct quarantined.
  - unfold quarantine. destruct (negb _); [done|]. intros [= <-]. constructor; cbn [memory stages entered admitted waiting allocations capacity]; try apply Hinv.
    + unfold used in *. cbn. by rewrite set_state_bytes.
    + apply Forall_forall. intros a Ha%set_state_elem. destruct Ha as (a' & Hin & -> & _).
      pose proof (i_allocations w Hinv) as Hpos. rewrite Forall_forall in Hpos. by apply (Hpos _ Hin).
    + by rewrite set_state_keys.
    + by apply with_phase_stages.
    + intros j t. unfold with_phase. rewrite lookup_insert_Some. intros [[<- <-]|[Hj Ht]] Hpt; [done|by eapply (i_queued w Hinv)].
    + intros j t. unfold with_phase. rewrite lookup_insert_Some. intros [[<- <-]|[Hj Ht]] Hpt; [done|].
      apply set_state_other; [by eapply (i_running w Hinv)|]. intros Hk. destruct (same_stage j i t s Ht Hi Hk). congruence.
    + intros k n Hin. destruct (i_entry w Hinv _ _ Hin) as (j & t & Hj & Hk & Hrest). exists j, t. split; [|done].
      unfold with_phase. rewrite lookup_insert_ne; [done|]. intros ->. assert (s = t) as -> by congruence.
      apply Hkw. apply list_elem_of_fmap. exists (k, n). by rewrite Hk.
    + intros k a Hin. apply set_state_elem in Hin as (a' & Hin & _ & Hst). cbn in Hin, Hst. case_bool_decide as Ek.
      * subst k. exists i. eexists. unfold with_phase. rewrite lookup_insert_eq. by rewrite Hst.
      * destruct (i_owner w Hinv _ _ Hin) as (j & t & Hj & Hk & Hpt). exists j, t. rewrite Hst. split; [|done].
        unfold with_phase. rewrite lookup_insert_ne; [done|]. intros ->. congruence.
  - intros [= <-]. unfold release, cancel. cbn. rewrite (keep_all _ (waiting (memory w))) by done. constructor; cbn [memory stages entered admitted waiting allocations capacity]; try apply Hinv.
    + unfold used in *. cbn. etransitivity; [apply used_keep; apply Hinv|done].
    + apply keep_forall. apply Hinv.
    + apply NoDup_app in Hd as (Ha & Hdis & Hw). apply NoDup_app. split; [eapply sublist_NoDup; [exact Ha|apply keep_keys]|].
      split; [|done]. intros k Hk. apply Hdis. eapply elem_of_sublist; [exact Hk|apply keep_keys].
    + by apply with_phase_stages.
    + intros j t. unfold with_phase. rewrite lookup_insert_Some. intros [[<- <-]|[Hj Ht]] Hpt; [done|by eapply (i_queued w Hinv)].
    + intros j t. unfold with_phase. rewrite lookup_insert_Some. intros [[<- <-]|[Hj Ht]] Hpt; [done|].
      apply keep_elem. split; [by eapply (i_running w Hinv)|]. cbn. intros Hk. destruct (same_stage j i t s Ht Hi Hk). congruence.
    + intros k n Hin. destruct (i_entry w Hinv _ _ Hin) as (j & t & Hj & Hk & Hrest). exists j, t. split; [|done].
      unfold with_phase. rewrite lookup_insert_ne; [done|]. intros ->. assert (s = t) as -> by congruence.
      apply Hkw. apply list_elem_of_fmap. exists (k, n). by rewrite Hk.
    + intros k a [Hin Hne]%keep_elem. destruct (i_owner w Hinv _ _ Hin) as (j & t & Hj & Hk & Hpt). exists j, t. split; [|done].
      unfold with_phase. rewrite lookup_insert_ne; [done|]. intros ->. cbn in Hne. congruence.
Qed.
End Steps.

Lemma step_invariant w w' : invariant w -> step w w' -> invariant w'.
Proof.
  intros Hinv Hs. destruct Hs as [w i key size Hn Hf|w i s c Hi Hp|w w' i s q Hi Hp Hl].
  - by apply enter_invariant.
  - by apply poll_invariant.
  - by apply (leave_invariant w Hinv i s q).
Qed.

(** ** Persistence and progress *)

(** A quarantined reservation is not given back by any step. *)
Lemma quarantined_stays w w' k n : invariant w -> step w w' ->
  (k, {| bytes := n; state := Quarantined |}) ∈ allocations (memory w) -> (k, {| bytes := n; state := Quarantined |}) ∈ allocations (memory w').
Proof.
  intros Hinv Hs Hin. destruct (i_owner w Hinv _ _ Hin) as (j & t & Hj & Hk & Hover). cbn in Hover.
  destruct Hs as [w i key size Hn Hf|w i s c Hi Hp|w w' i s q Hi Hp Hl].
  - unfold enter. destruct (enqueue _ _ _) as [b|] eqn:E; [|done]. unfold enqueue in E. destruct (negb _); [done|].
    destruct (_ || _); [done|]. by injection E as <-.
  - unfold poll. destruct c; [done|]. destruct (queued_turn w Hinv i s Hi Hp) as [->|(rest & _ & _ & ->)]; [done|]. cbn.
    apply elem_of_app. by left.
  - assert (k <> stage_key s) as Hne.
    { intros Hks. destruct (same_stage w Hinv j i t s Hj Hi ltac:(congruence)) as [-> ->]. congruence. }
    unfold leave in Hl. destruct q.
    + unfold quarantine in Hl. destruct (negb _); [done|]. injection Hl as <-. by apply set_state_other.
    + injection Hl as <-. cbn. by apply keep_elem.
Qed.

Inductive reachable (b : budget) : world -> Prop :=
| ReachStart : reachable b (empty_world b)
| ReachStep w w' : reachable b w -> step w w' -> reachable b w'.

Lemma memory_reachable_invariant b c w : new_budget c = Ok b -> reachable b w -> invariant w.
Proof.
  unfold new_budget. destruct (Z.leb_spec c 0) as [|Hc]; [done|]. intros [= <-].
  induction 1 as [|w w' _ IH Hs]; [by apply invariant_empty|by eapply step_invariant].
Qed.

Lemma positive_total l : Forall (fun a : string * allocation => 0 < bytes a.2) l -> 0 <= list_sum_Z (map (fun a => bytes a.2) l).
Proof. induction 1 as [|a l Ha _ IH]; [done|]. cbn [map]. rewrite list_sum_Z_cons. lia. Qed.

(** C36. Over any interleaving of stages that enter, poll and leave with keys of
    their own, the reserved bytes never exceed the capacity; stages are admitted
    in the order they entered the queue; a running stage has its reservation
    until it leaves, and a reservation left quarantined is never given back; and
    the first stage in the queue is admitted by its next turn as soon as its
    bytes fit, which they do when nothing is reserved. *)
Theorem memory_admission_fifo c b w : new_budget c = Ok b -> reachable b w ->
  used (memory w) <= c
  /\ admitted w ++ keys_of (waiting (memory w)) `sublist_of` entered w
  /\ (forall i s, stages w !! i = Some s -> stage_phase s = Running ->
        (stage_key s, {| bytes := stage_bytes s; state := Held |}) ∈ allocations (memory w))
  /\ (forall w' k n, step w w' -> (k, {| bytes := n; state := Quarantined |}) ∈ allocations (memory w) ->
        (k, {| bytes := n; state := Quarantined |}) ∈ allocations (memory w'))
  /\ (forall k n rest, waiting (memory w) = (k, n) :: rest -> used (memory w) + n <= c \/ allocations (memory w) = [] ->
        exists i s, stages w !! i = Some s /\ stage_key s = k /\ stage_phase s = Queued
          /\ exists s', stages (poll i s false w) !! i = Some s' /\ stage_phase s' = Running).
Proof.
  intros Hb Hr. pose proof (memory_reachable_invariant b c w Hb Hr) as Hinv.
  assert (capacity (memory w) = c) as Hc.
  { clear Hinv. induction Hr as [|w w' _ IH Hs].
    - unfold new_budget in Hb. destruct (c <=? 0); [done|]. by injection Hb as <-.
    - rewrite <- IH. destruct Hs as [w i key size Hn Hf|w i s q Hi Hp|w w' i s q Hi Hp Hl].
      + unfold enter, enqueue. destruct (negb _); [done|]. by destruct (_ || _).
      + unfold poll, acquire_turn. destruct q; [done|]. destruct (list_find _ _) as [[? ?]|]; [|done].
        destruct (waiting (memory w)) as [|f r] eqn:E; [done|]. by destruct (_ && _).
      + unfold leave, quarantine in Hl. destruct q; [destruct (negb _); [done|]|]; by injection Hl as <-. }
  rewrite <- Hc. split; [apply Hinv|]. split; [apply Hinv|]. split; [apply Hinv|].
  split; [intros w' k n Hs Hin; by apply (quarantined_stays w)|].
  intros k n rest Hw Hfit. destruct (i_entry w Hinv k n) as (i & s & Hi & <- & <- & Hp); [rewrite Hw; by left|].
  exists i, s. split; [done|]. split; [done|]. split; [done|].
  assert (used (memory w) + stage_bytes s <= capacity (memory w)) as Hle.
  { destruct Hfit as [?|He]; [done|]. unfold used. rewrite He. cbn [map]. rewrite list_sum_Z_nil.
    pose proof (i_waiting w Hinv) as Hpos. rewrite Hw in Hpos. apply Forall_cons in Hpos as [? _]. cbn in *. lia. }
  unfold poll, acquire_turn. rewrite Hw. cbn [list_find]. rewrite decide_True by done. cbn [snd].
  rewrite bool_decide_eq_true_2 by done. replace (used (memory w) + stage_bytes s <=? capacity (memory w)) with true by lia.
  cbn [andb stages]. eexists. unfold with_phase. by rewrite lookup_insert_eq.
Qed.

(** ** Witness, and what a shared key does *)

Definition small_budget : budget := {| capacity := 10; waiting := []; allocations := [] |}.
Definition two_entered : world := enter 2 "b/run" 5 (enter 1 "a/run" 7 (empty_world small_budget)).
Definition first_runs : world := poll 1 {| stage_key := "a/run"; stage_bytes := 7; stage_phase := Queued |} false two_entered.

Lemma first_runs_reachable : reachable small_budget first_runs.
Proof.
  apply (ReachStep _ two_entered).
  - apply (ReachStep _ (enter 1 "a/run" 7 (empty_world small_budget))).
    + apply (ReachStep _ (empty_world small_budget)); [constructor|]. apply StepEnter; [done|]. intros j s. cbn. by rewrite lookup_empty.
    + apply StepEnter; [done|]. intros j s.
      change (stages (enter 1 "a/run" 7 (empty_world small_budget)))
        with (<[1%nat := {| stage_key := "a/run"; stage_bytes := 7; stage_phase := Queued |}]> (∅ : gmap nat stage)).
      rewrite lookup_insert_Some. intros [[<- <-]|[_ Hs]]; [done|by rewrite lookup_empty in Hs].
  - by apply StepPoll.
Qed.

Lemma memory_admission_fifo_witness :
  used (memory first_runs) = 7 /\ waiting (memory first_runs) = [("b/run", 5)] /\ used (memory first_runs) <= 10
  /\ admitted first_runs ++ keys_of (waiting (memory first_runs)) `sublist_of` entered first_runs.
Proof.
  destruct (memory_admission_fifo 10 small_budget first_runs eq_refl first_runs_reachable) as (Hu & Ho & _).
  split; [vm_compute; reflexivity|]. split; [vm_compute; reflexivity|]. split; [exact Hu|exact Ho].
Defined.

(** Two stages with one key: entering the second fails, and its handler takes
    the first out of the queue, which its next turn then refuses. *)
Lemma shared_key_cancels_first :
  let first := enter 1 "a/run" 7 (empty_world small_budget) in
  let second := enter 2 "a/run" 7 first in
  enqueue "a/run" 7 (memory first) = Err (ValueError "duplicate memory reservation key")
  /\ waiting (memory second) = [] /\ (acquire_turn "a/run" false (memory second)).1 = Refused.
Proof. vm_compute. split; [done|]. by split. Qed.
