(* ===== verification/EngramCache.v ===== *)
(** * The row cache of the offloaded Engram tables ([dsv41_train/engram_offload.py])

    [_RowCache] keeps rows of a table that lives on the CPU in a direct-mapped
    cache: slot [i mod capacity] holds the row whose number is in its tag.  On
    CUDA the missing rows arrive in chunks through a staging buffer; a ticket
    guards each transfer.  [CPUEmbeddingLookup] looks rows up with or without a
    cache.  Streams and events only order the copies and are left out. *)

From S2P Require Export Torch.
Local Open Scope Z_scope.
Local Open Scope py_scope.

(** ** The tensor operations of this file *)

Class RowOps := {
  (** [keys.unique(sorted=True, return_inverse=True)] *)
  unique : list Z -> list Z * list nat;
  (** [base.scatter_reduce_(0, index, source, reduce="amax")] *)
  scatter_amax : list Z -> list nat -> list Z -> list Z;
  (** [target.index_copy_(0, index, source)], and [target[index] = source]. *)
  index_copy : forall {A}, list A -> list nat -> list A -> list A }.

Class RowLaws `{RowOps} : Prop := {
  unique_law : forall keys, StronglySorted Z.lt (unique keys).1 /\ (forall k, k ∈ (unique keys).1 -> k ∈ keys)
    /\ (fun i => (unique keys).1 !! i) <$> (unique keys).2 = Some <$> keys;
  scatter_amax_law : forall base index source, length index = length source -> Forall (fun i => (i < length base)%nat) index ->
    length (scatter_amax base index source) = length base
    /\ forall i m, scatter_amax base index source !! i = Some m ->
         (base !! i = Some m \/ exists k, index !! k = Some i /\ source !! k = Some m)
         /\ forall k s, index !! k = Some i -> source !! k = Some s -> s <= m;
  index_copy_law : forall {A} (target : list A) index source, NoDup index -> Forall (fun i => (i < length target)%nat) index ->
    length index = length source ->
    length (index_copy target index source) = length target
    /\ (forall k i, index !! k = Some i -> index_copy target index source !! i = source !! k)
    /\ (forall i, i ∉ index -> index_copy target index source !! i = target !! i) }.

(** ** The cache *)

Section RowCache.
Context `{TensorOps} `{RowOps} {A : Type}.

(** What [torch.empty] leaves in a row. *)
Context (junk : A).

(** A table: which object it is, what [_signature] reads of its layout, its
    version, the numbers of columns and of bytes per element, and its rows. *)
Record weight := { object : nat; layout : Z; revision : Z; width : Z; element_size : Z; table : list A }.

Definition row_bytes (w : weight) : Z := width w * element_size w.
Definition signature_of (w : weight) : nat * Z := (object w, layout w).

Record ticket := { t_generation : Z; t_signature : nat * Z; t_revision : Z; t_count : nat }.

#[local] Instance ticket_eq_dec : EqDecision ticket.
Proof. solve_decision. Defined.

Record metrics := { m_hits : nat; m_misses : nat; m_transferred : nat; m_resident : Z }.

(** [tags] is empty before the first table; the staging buffer has a capacity
    and the rows of the last transfer. *)
Record row_cache := {
  budget : Z; cuda : bool;
  values : list A; tags : list Z;
  signature : option (nat * Z); version : option Z;
  generation : Z; outstanding : option ticket;
  staging : option (nat * list A);
  counters : metrics }.

Definition STAGING_BYTES : Z := 4 * 2 ^ 20.

Definition new_cache (budget : Z) (cuda : bool) : row_cache :=
  {| budget := budget; cuda := cuda; values := []; tags := []; signature := None; version := None; generation := 0;
     outstanding := None; staging := None; counters := {| m_hits := 0; m_misses := 0; m_transferred := 0; m_resident := 0 |} |}.

Definition wait (c : row_cache) : row_cache :=
  {| budget := budget c; cuda := cuda c; values := values c; tags := tags c; signature := signature c; version := version c;
     generation := generation c; outstanding := None; staging := staging c; counters := counters c |}.

(** [self.tags.fill_(-1)] and [self.version = None]. *)
Definition forget (c : row_cache) : row_cache :=
  {| budget := budget c; cuda := cuda c; values := values c; tags := map (fun _ => -1) (tags c); signature := signature c; version := None;
     generation := generation c; outstanding := outstanding c; staging := staging c; counters := counters c |}.

Definition clear (c : row_cache) : row_cache :=
  forget (wait {| budget := budget c; cuda := cuda c; values := values c; tags := tags c; signature := signature c;
     version := version c; generation := generation c + 1; outstanding := outstanding c; staging := staging c; counters := counters c |}).

(** The rows that fit the budget with their tags. *)
Definition capacity_for (budget : Z) (w : weight) : Z := Z.min (Z.of_nat (length (table w))) (budget / (row_bytes w + 8)).

Definition validate (w : weight) (c : row_cache) : res row_cache :=
  if bool_decide (signature c <> Some (signature_of w)) then
    let capacity := capacity_for (budget c) w in
    raise_when capacity <? 1 with_exn ValueError "Engram cache budget must hold one complete row and its int64 tag";
    let c := clear c in
    Ok {| budget := budget c; cuda := cuda c; values := replicate (Z.to_nat capacity) junk; tags := replicate (Z.to_nat capacity) (-1);
          signature := Some (signature_of w); version := Some (revision w); generation := generation c; outstanding := outstanding c;
          staging := None;
          counters := {| m_hits := m_hits (counters c); m_misses := m_misses (counters c); m_transferred := m_transferred (counters c);
                         m_resident := capacity * width w * element_size w + capacity * 8 |} |}
  else if bool_decide (version c <> Some (revision w)) then
    let c := clear c in
    Ok {| budget := budget c; cuda := cuda c; values := values c; tags := tags c; signature := signature c; version := Some (revision w);
          generation := generation c; outstanding := outstanding c; staging := staging c; counters := counters c |}
  else Ok c.

(** The staging buffer holds this many rows. *)
Definition staging_rows (budget : Z) (w : weight) : nat := Z.to_nat (Z.max 1 (Z.min budget STAGING_BYTES / row_bytes w)).

Definition with_staging (s : nat * list A) (c : row_cache) : row_cache :=
  {| budget := budget c; cuda := cuda c; values := values c; tags := tags c; signature := signature c; version := version c;
     generation := generation c; outstanding := outstanding c; staging := Some s; counters := counters c |}.

Definition transferred (n : nat) (m : metrics) : metrics :=
  {| m_hits := m_hits m; m_misses := m_misses m; m_transferred := m_transferred m + n; m_resident := m_resident m |}.

(** Writes the first rows of the staging buffer. *)
Definition overwrite (buffer rows : list A) : list A := rows ++ drop (length rows) buffer.

Definition begin_transfer (w : weight) (ids : list Z) (c : row_cache) : res ticket * row_cache :=
  match outstanding c with
  | Some _ => (Err (RuntimeError "Engram allows only one outstanding row transfer"), c)
  | None =>
      let buffer := match staging c with
        | Some s => s
        | None => let n := staging_rows (budget c) w in (n, replicate n junk)
        end in
      let c := with_staging buffer c in
      if bool_decide (buffer.1 < length ids)%nat then (Err (ValueError "Engram transfer exceeds staging capacity"), c)
      else
        let t := {| t_generation := generation c; t_signature := signature_of w; t_revision := revision w; t_count := length ids |} in
        let rows := index_select (table w) (map Z.to_nat ids) in
        (Ok t, {| budget := budget c; cuda := cuda c; values := values c; tags := tags c; signature := signature c; version := version c;
                  generation := generation c; outstanding := Some t; staging := Some (buffer.1, overwrite buffer.2 rows);
                  counters := transferred (length ids) (counters c) |})
  end.

(** [None] for an invalidated ticket. *)
Definition consume_transfer (w : weight) (t : ticket) (c : row_cache) : option (list A) * row_cache :=
  if bool_decide (outstanding c <> Some t) || negb (t_generation t =? generation c)
     || bool_decide (t_signature t <> signature_of w) || negb (t_revision t =? revision w)
  then (None, if bool_decide (outstanding c = Some t) then wait c else c)
  else (match staging c with Some s => Some (take (t_count t) s.2) | None => None end, c).

(** [_finish_transfer]: the ticket is used up. *)
Definition finish_transfer (c : row_cache) : row_cache := wait c.

(** ** [_row_plan] and [_install_rows] *)

Record plan := { positions_of : list nat; inverse_of : list nat; slots_of : list nat; chosen_of : list nat; ids_of : list Z }.

Definition row_plan (capacity : nat) (positions : list nat) (missing : list Z) (inverse : list nat) : plan :=
  let u := unique (map (fun i => i mod Z.of_nat capacity) missing) in
  let chosen := map Z.to_nat (scatter_amax (map (fun _ => -1) u.1) u.2 (seqZ 0 (Z.of_nat (length missing)))) in
  {| positions_of := positions; inverse_of := inverse; slots_of := map Z.to_nat u.1; chosen_of := chosen;
     ids_of := index_select missing chosen |}.

Definition install_rows (output : list A) (p : plan) (rows : list A) (c : row_cache) : list A * row_cache :=
  (index_copy output (positions_of p) (index_select rows (inverse_of p)),
   {| budget := budget c; cuda := cuda c; values := index_copy (values c) (slots_of p) (index_select rows (chosen_of p));
      tags := index_copy (tags c) (slots_of p) (ids_of p); signature := signature c; version := version c;
      generation := generation c; outstanding := outstanding c; staging := staging c; counters := counters c |}).

(** ** [read] *)

(** [output.index_copy_(0, hits, self.values.index_select(0, slots[hits]))] *)
Definition copy_hits (hits slots : list nat) (output : list A) (c : row_cache) : list A :=
  index_copy output hits (index_select (values c) (index_select slots hits)).

(** [(inverse >= start) & (inverse < start + chunk.numel())] *)
Definition within (start n : nat) (inverse : list nat) (k : nat) : bool :=
  match inverse !! k with Some i => (start <=? i)%nat && (i <? start + n)%nat | None => false end.

(** The loop over the chunks of the missing rows. *)
Fixpoint read_chunks (w : weight) (hits slots misses : list nat) (missing : list Z) (inverse : list nat) (capacity : nat)
    (starts : list nat) (output : list A) (c : row_cache) : res (list A) * row_cache :=
  match starts with
  | [] => (Ok output, c)
  | start :: starts =>
      let ids := take capacity (drop start missing) in
      match begin_transfer w ids c with
      | (Err e, c) => (Err e, c)
      | (Ok t, c) =>
          let output := if bool_decide (start = 0%nat) && negb (bool_decide (hits = [])) then copy_hits hits slots output c else output in
          let selected := filter (fun k => within start (length ids) inverse k = true) (seq 0 (length inverse)) in
          let p := row_plan (length (tags c)) (index_select misses selected) ids
                     (map (fun i => i - start)%nat (index_select inverse selected)) in
          match consume_transfer w t c with
          | (None, c) => (Err (RuntimeError "Engram changed during lookup; retry with a fresh forward"), c)
          | (Some rows, c) =>
              let '(output, c) := install_rows output p rows c in
              read_chunks w hits slots misses missing inverse capacity starts output (finish_transfer c)
          end
      end
  end.

(** [range(0, n, step)] *)
Definition steps (n step : nat) : list nat := map (fun k => k * step)%nat (seq 0 ((n + step - 1) / step)).

Definition count_access (hits misses : nat) (c : row_cache) : row_cache :=
  let m := counters c in
  {| budget := budget c; cuda := cuda c; values := values c; tags := tags c; signature := signature c; version := version c;
     generation := generation c; outstanding := outstanding c; staging := staging c;
     counters := {| m_hits := m_hits m + hits; m_misses := m_misses m + misses; m_transferred := m_transferred m; m_resident := m_resident m |} |}.

Definition is_hit (c : row_cache) (ids : list Z) (k : nat) : Prop :=
  match ids !! k with
  | Some i => tags c !! Z.to_nat (i mod Z.of_nat (length (tags c))) = Some i
  | None => False
  end.
#[global] Instance is_hit_dec c ids k : Decision (is_hit c ids k).
Proof. unfold is_hit. destruct (ids !! k); apply _. Defined.

(** The body of the [try]. *)
Definition read_body (w : weight) (ids : list Z) (c : row_cache) : res (list A) * row_cache :=
  let output := replicate (length ids) junk in
  let slots := map (fun i => Z.to_nat (i mod Z.of_nat (length (tags c)))) ids in
  let hits := filter (is_hit c ids) (seq 0 (length ids)) in
  let misses := filter (fun k => ~ is_hit c ids k) (seq 0 (length ids)) in
  let c := count_access (length hits) (length misses) c in
  let output := if negb (bool_decide (hits = [])) && (bool_decide (misses = []) || negb (cuda c)) then copy_hits hits slots output c else output in
  if bool_decide (misses = []) then (Ok output, c)
  else
    let u := unique (index_select ids misses) in
    if cuda c
    then
      let capacity := staging_rows (budget c) w in
      read_chunks w hits slots misses u.1 u.2 capacity (steps (length u.1) capacity) output c
    else
      let rows := index_select (table w) (map Z.to_nat u.1) in
      let c := {| budget := budget c; cuda := cuda c; values := values c; tags := tags c; signature := signature c; version := version c;
                  generation := generation c; outstanding := outstanding c; staging := staging c;
                  counters := transferred (length u.1) (counters c) |} in
      let '(output, c) := install_rows output (row_plan (length (tags c)) misses u.1 u.2) rows c in
      (Ok output, c).

Definition in_range (w : weight) (ids : list Z) : Prop := Forall (fun i => 0 <= i < Z.of_nat (length (table w))) ids.

Definition read (w : weight) (ids : list Z) (c : row_cache) : res (list A) * row_cache :=
  match validate w c with
  | Err e => (Err e, c)
  | Ok c =>
      if bool_decide (in_range w ids) then
        match read_body w ids c with
        | (Ok output, c) => (Ok output, c)
        | (Err e, c) => (Err e, forget c)
        end
      else (Err (IndexError "Engram cache row is outside its owner's range"), c)
  end.

(** ** [CPUEmbeddingLookup] *)

Inductive device := Cpu | Cuda (index : option nat) | Other.
#[global] Instance device_eq_dec : EqDecision device.
Proof. solve_decision. Defined.

(** [torch.device(device)] with the current CUDA device for a missing index. *)
Definition normalise (current : nat) (d : device) : device :=
  match d with Cuda None => Cuda (Some current) | d => d end.
Definition is_cuda (d : device) : bool := match d with Cuda _ => true | _ => false end.

(** [self._cache] with its device. *)
Definition lookup_state : Type := option (row_cache * device).

Definition configure_cache (current : nat) (budget_bytes : Z) (d : device) (s : lookup_state) : res unit * lookup_state :=
  if budget_bytes <? 0 then (Err (ValueError "Engram cache budget must be a nonnegative integer"), s)
  else if bool_decide (d = Other) then (Err (ValueError "Engram cache supports CPU tests or CUDA execution"), s)
  else let d := normalise current d in
       (Ok tt, if budget_bytes =? 0 then None else Some (new_cache budget_bytes (is_cuda d), d)).

Definition clear_cache (s : lookup_state) : lookup_state :=
  match s with Some (c, d) => Some (clear c, d) | None => None end.

(** [F.embedding(indices, weight)] *)
Definition embedding (w : weight) (ids : list Z) : res (list A) :=
  if bool_decide (in_range w ids) then Ok (index_select (table w) (map Z.to_nat ids))
  else Err (IndexError "index out of range in self").

(** A call: is the table on the CPU, are the indices integers. *)
Definition lookup_rows (current : nat) (on_cpu integral : bool) (w : weight) (ids : list Z) (d : device) (s : lookup_state)
    : res (list A) * lookup_state :=
  if negb on_cpu then (Err (RuntimeError "offloaded Engram weights must stay on CPU"), s)
  else
    let d := normalise current d in
    let wrong := match s with Some (_, d') => negb (bool_decide (d = d')) | None => false end in
    if wrong then (Err (ValueError "Engram lookup device differs from the configured cache device"), s)
    else if negb integral then (Err (TypeError "Engram indices must be int32 or int64"), s)
    else match s with
    | None => (embedding w ids, s)
    | Some (c, d') => let '(r, c) := read w ids c in (r, Some (c, d'))
    end.
End RowCache.
