(* ===== verification/EngramCacheProofs.v ===== *)
(** * The row cache: coherence and installation *)

From S2P Require Import Torch TorchFacts EngramCache.
Local Open Scope Z_scope.

Section Proofs.
Context `{TensorLaws} `{RowLaws} {A : Type} (junk : A).
#[local] Notation weight := (weight (A := A)).
#[local] Notation row_cache := (row_cache (A := A)).

(** Every tag is empty or the number of the row its slot holds. *)
Definition slots_ok (w : weight) (tags : list Z) (values : list A) : Prop :=
  length values = length tags /\ forall k t, tags !! k = Some t ->
    t = -1 \/ (0 <= t < Z.of_nat (length (table w)) /\ Z.to_nat (t mod Z.of_nat (length tags)) = k
              /\ values !! k = table w !! Z.to_nat t).

Lemma slots_ok_empty w n values : length values = n -> slots_ok w (replicate n (-1)) values.
Proof. intros Hl. split; [by rewrite length_replicate|]. intros k t Hk. left. by apply lookup_replicate in Hk as [-> _]. Qed.

Lemma forget_tags (tags : list Z) : map (fun _ => -1) tags = replicate (length tags) (-1).
Proof. induction tags; [done|]. cbn. by f_equal. Qed.

(** ** A plan for distinct missing rows *)

Section Plan.
Context (w : weight) (n : nat) (positions inverse : list nat) (missing : list Z).
Context (Hn : (0 < n)%nat) (Hpos : NoDup positions) (Hlen : length positions = length inverse).
Context (Hinv : Forall (fun i => (i < length missing)%nat) inverse).
Context (Hmiss : Forall (fun t => 0 <= t < Z.of_nat (length (table w))) missing).
#[local] Notation keys := (map (fun i => i mod Z.of_nat n) missing).
#[local] Notation p := (row_plan n positions missing inverse).

Lemma unique_sorted l : StronglySorted Z.lt (unique l).1.
Proof. apply unique_law. Qed.

Lemma unique_lookup l k i : (unique l).2 !! k = Some i -> (unique l).1 !! i = l !! k /\ is_Some (l !! k).
Proof.
  intros Hk. destruct (unique_law l) as (_ & _ & Hl). pose proof (f_equal (fun x => x !! k) Hl) as E. cbn in E.
  rewrite !list_lookup_fmap, Hk in E. cbn in E. destruct (l !! k) as [x|]; [|done]. injection E as ->. by split.
Qed.

Lemma unique_length l : length (unique l).2 = length l.
Proof. destruct (unique_law l) as (_ & _ & Hl). apply (f_equal length) in Hl. by rewrite !length_fmap in Hl. Qed.

Lemma unique_in_range l : Forall (fun i => (i < length (unique l).1)%nat) (unique l).2.
Proof.
  apply Forall_lookup. intros k i Hk. destruct (unique_lookup l k i Hk) as [Hi [x Hx]]. eapply lookup_lt_Some. by rewrite Hi.
Qed.

Lemma sorted_lt_nodup_Z l : StronglySorted Z.lt l -> NoDup l.
Proof.
  induction 1 as [|x l _ IH Hx]; [constructor|]. apply NoDup_cons. split; [|done]. intros Hin. rewrite Forall_forall in Hx.
  specialize (Hx x Hin). lia.
Qed.

(** Every slot of the plan gets a missing row of that slot. *)
Lemma chosen_spec j c : chosen_of p !! j = Some c -> exists s t, slots_of p !! j = Some s /\ missing !! c = Some t
  /\ Z.to_nat (t mod Z.of_nat n) = s.
Proof.
  cbn. rewrite list_lookup_fmap. intros (m & Hm & ->)%fmap_Some.
  destruct (scatter_amax_law (map (fun _ => -1) (unique keys).1) (unique keys).2 (seqZ 0 (Z.of_nat (length missing)))) as [Hl Hs].
  { rewrite unique_length, length_map, length_seqZ. lia. }
  { eapply Forall_impl; [apply unique_in_range|]. cbn. intros i Hi. by rewrite length_map. }
  destruct (Hs j m Hm) as [Hor Hmax].
  assert (exists k, (unique keys).2 !! k = Some j /\ m = Z.of_nat k /\ (k < length missing)%nat) as (k & Hk & -> & Hlt).
  { destruct Hor as [Hb|(k & Hk & Hv)].
    - rewrite list_lookup_fmap in Hb. apply fmap_Some in Hb as (s & Hs' & ->).
      destruct (unique_law keys) as (_ & Hin & Hul). assert (s ∈ keys) as Hsk by (apply Hin; by eapply list_elem_of_lookup_2).
      apply list_elem_of_lookup in Hsk as [k Hk]. assert (k < length missing)%nat as Hlt by (apply lookup_lt_Some in Hk; by rewrite length_map in Hk).
      destruct (lookup_lt_is_Some_2 (unique keys).2 k) as [j' Hj']; [by rewrite unique_length, length_map|].
      assert (j' = j) as ->.
      { destruct (unique_lookup keys k j' Hj') as [E _]. rewrite Hk in E.
        apply (NoDup_lookup (unique keys).1 j' j s); [apply sorted_lt_nodup_Z, unique_sorted|done|done]. }
      specialize (Hmax k (Z.of_nat k) Hj'). rewrite lookup_seqZ_lt in Hmax by lia. specialize (Hmax ltac:(f_equal; lia)). lia.
    - exists k. apply lookup_seqZ in Hv as [-> Hlt]. split; [done|]. split; [lia|]. lia. }
  rewrite Nat2Z.id. destruct (unique_lookup keys k j Hk) as [E _]. rewrite list_lookup_fmap in E.
  destruct (lookup_lt_is_Some_2 missing k Hlt) as [t Ht]. rewrite Ht in E. cbn in E.
  exists (Z.to_nat (t mod Z.of_nat n)), t. split; [|by split]. by rewrite list_lookup_fmap, E.
Qed.

Lemma chosen_in_range : Forall (fun c => (c < length missing)%nat) (chosen_of p).
Proof.
  apply Forall_lookup. intros j c Hc. destruct (chosen_spec j c Hc) as (s & t & _ & Ht & _). by eapply lookup_lt_Some.
Qed.

Lemma slots_length : length (chosen_of p) = length (slots_of p).
Proof.
  cbn. rewrite !length_map. destruct (scatter_amax_law (map (fun _ => -1) (unique keys).1) (unique keys).2 (seqZ 0 (Z.of_nat (length missing)))) as [Hl _].
  { rewrite unique_length, length_map, length_seqZ. lia. }
  { eapply Forall_impl; [apply unique_in_range|]. cbn. intros i Hi. by rewrite length_map. }
  by rewrite Hl, length_map.
Qed.

Lemma slot_keys_range k : k ∈ (unique keys).1 -> 0 <= k < Z.of_nat n.
Proof.
  intros Hk. apply unique_law in Hk. apply list_elem_of_fmap in Hk as (t & -> & _). apply Z.mod_pos_bound. lia.
Qed.

Lemma slots_in_range : Forall (fun s => (s < n)%nat) (slots_of p).
Proof. apply Forall_fmap, Forall_forall. intros k Hk%slot_keys_range. cbn. lia. Qed.

Lemma slots_nodup : NoDup (slots_of p).
Proof.
  apply NoDup_fmap_2_strong; [|apply sorted_lt_nodup_Z, unique_sorted].
  intros x y Hx%slot_keys_range Hy%slot_keys_range E. lia.
Qed.
(** The rows fetched for the missing numbers. *)
Context (rows : list A) (Hrows : Some <$> rows = (fun t => table w !! Z.to_nat t) <$> missing).

Lemma rows_length : length rows = length missing.
Proof. apply (f_equal length) in Hrows. by rewrite !length_fmap in Hrows. Qed.

Lemma rows_lookup i : rows !! i = missing !! i ≫= fun t => table w !! Z.to_nat t.
Proof.
  pose proof (f_equal (fun x => x !! i) Hrows) as E. cbn in E. rewrite !list_lookup_fmap in E.
  destruct (rows !! i), (missing !! i); cbn in *; congruence.
Qed.

Lemma install_output output : Forall (fun k => (k < length output)%nat) positions ->
  let output' := index_copy output positions (index_select rows inverse) in
  length output' = length output
  /\ (forall k pos i, positions !! k = Some pos -> inverse !! k = Some i ->
        output' !! pos = missing !! i ≫= fun t => table w !! Z.to_nat t)
  /\ (forall pos, pos ∉ positions -> output' !! pos = output !! pos).
Proof.
  intros Hr. assert (Forall (fun k => (k < length rows)%nat) inverse) as Hi by (by rewrite rows_length).
  destruct (index_copy_law output positions (index_select rows inverse) Hpos Hr) as (Hl & Hin & Hout).
  { by rewrite index_select_length. }
  split; [done|]. split; [|done]. intros k pos i Hk Hik. rewrite (Hin k pos Hk), index_select_lookup, Hik by done. apply rows_lookup.
Qed.

Lemma install_slots tags values : slots_ok w tags values -> length tags = n ->
  let tags' := index_copy tags (slots_of p) (ids_of p) in
  length tags' = n /\ slots_ok w tags' (index_copy values (slots_of p) (index_select rows (chosen_of p))).
Proof.
  intros [Hlv Hok] Ht. assert (Forall (fun k => (k < length rows)%nat) (chosen_of p)) as Hc by (rewrite rows_length; apply chosen_in_range).
  assert (length (ids_of p) = length (slots_of p)) as Hil by (change (ids_of p) with (index_select missing (chosen_of p)); rewrite index_select_length; [apply slots_length|apply chosen_in_range]).
  destruct (index_copy_law tags (slots_of p) (ids_of p) slots_nodup) as (Htl & Htin & Htout); [rewrite Ht; apply slots_in_range|done|].
  destruct (index_copy_law values (slots_of p) (index_select rows (chosen_of p)) slots_nodup) as (Hvl & Hvin & Hvout).
  { rewrite Hlv, Ht. apply slots_in_range. }
  { rewrite index_select_length by done. symmetry. apply slots_length. }
  cbn zeta. split; [congruence|]. split; [congruence|]. intros k t Hk.
  destruct (decide (k ∈ slots_of p)) as [Hin|Hin].
  - apply list_elem_of_lookup in Hin as [j Hj]. rewrite (Htin j k Hj) in Hk. rewrite (Hvin j k Hj).
    change (ids_of p) with (index_select missing (chosen_of p)) in Hk. rewrite index_select_lookup in Hk by apply chosen_in_range.
    destruct (chosen_of p !! j) as [c|] eqn:Ec; [|done]. cbn in Hk. destruct (chosen_spec j c Ec) as (s & t' & Hs & Ht' & Hst).
    right. rewrite Hk in Ht'. injection Ht' as <-. rewrite Hj in Hs. injection Hs as <-. rewrite Htl, Ht.
    rewrite Forall_forall in Hmiss. split; [apply Hmiss; by eapply list_elem_of_lookup_2|]. split; [done|].
    rewrite index_select_lookup, Ec by done. cbn. rewrite rows_lookup, Hk. done.
  - rewrite (Htout k Hin) in Hk. rewrite (Hvout k Hin), Htl. by apply Hok.
Qed.
End Plan.
End Proofs.

(** * The row cache: reading

    [read_body] returns the rows of the table and keeps the cache coherent,
    whatever hits, collisions and chunks there are. *)

Section Reads.
Context `{TensorLaws} `{RowLaws} {A : Type} (junk : A).
#[local] Notation weight := (weight (A := A)).
#[local] Notation row_cache := (row_cache (A := A)).

Definition row (w : weight) (i : Z) : option A := table w !! Z.to_nat i.

(** A staging buffer of the right size, or none yet. *)
Definition staging_ok (w : weight) (c : row_cache) : Prop :=
  match staging c with Some (n, buffer) => n = staging_rows (budget c) w /\ length buffer = n | None => True end.

(** The cache may be read for the table. *)
Record valid (w : weight) (c : row_cache) : Prop := {
  v_signature : signature c = Some (signature_of w);
  v_version : version c = Some (revision w);
  v_outstanding : outstanding c = None;
  v_capacity : (0 < length (tags c))%nat;
  v_slots : slots_ok w (tags c) (values c);
  v_staging : staging_ok w c }.

(** What a read never changes. *)
Record frame (c c' : row_cache) : Prop := {
  f_budget : budget c' = budget c;
  f_cuda : cuda c' = cuda c;
  f_tags : length (tags c') = length (tags c);
  f_resident : m_resident (counters c') = m_resident (counters c) }.

Lemma frame_refl c : frame c c.
Proof. by constructor. Qed.
Lemma frame_trans c c' c'' : frame c c' -> frame c' c'' -> frame c c''.
Proof. intros [] []. constructor; congruence. Qed.

(** ** One transfer *)

Lemma staged_rows (w : weight) ids buffer : in_range w ids -> (length ids <= length buffer)%nat ->
  let rows := index_select (table w) (map Z.to_nat ids) in
  Some <$> rows = row w <$> ids /\ length (overwrite buffer rows) = length buffer /\ take (length ids) (overwrite buffer rows) = rows.
Proof.
  intros Hin Hl rows. assert (Forall (fun k => (k < length (table w))%nat) (map Z.to_nat ids)) as Hr
    by (apply Forall_fmap; eapply Forall_impl; [exact Hin|]; cbn; intros; lia).
  assert (length rows = length ids) as Hrl by (unfold rows; by rewrite index_select_length, length_map).
  split; [|split].
  - unfold rows. rewrite index_select_law by done. unfold row. rewrite <- list_fmap_compose. done.
  - unfold overwrite. rewrite length_app, length_drop. lia.
  - unfold overwrite. rewrite <- Hrl. apply take_app_length.
Qed.

Lemma transfer_spec (w : weight) ids (c : row_cache) : valid w c -> in_range w ids -> (length ids <= staging_rows (budget c) w)%nat ->
  exists t c1 rows, begin_transfer junk w ids c = (Ok t, c1) /\ consume_transfer w t c1 = (Some rows, c1)
    /\ Some <$> rows = row w <$> ids /\ values c1 = values c /\ tags c1 = tags c /\ frame c c1 /\ valid w (finish_transfer c1).
Proof.
  intros Hv Hin Hl. unfold begin_transfer. rewrite (v_outstanding w c Hv). pose proof (v_staging w c Hv) as Hst. unfold staging_ok in Hst.
  set (b := match staging c with Some s => s | None => _ end).
  assert (b.1 = staging_rows (budget c) w /\ length b.2 = b.1) as [Hb Hbl].
  { unfold b. destruct (staging c) as [[n s]|]; [done|]. cbn. by rewrite length_replicate. }
  rewrite bool_decide_eq_false_2 by lia. destruct (staged_rows w ids b.2 Hin ltac:(lia)) as (Hrows & Hol & Htake).
  eexists _, _, _. split; [reflexivity|]. unfold consume_transfer. cbn [outstanding with_staging t_generation t_signature t_revision t_count generation staging].
  rewrite bool_decide_eq_false_2 by (intros Hn; by apply Hn). rewrite Z.eqb_refl, (bool_decide_eq_false_2 (_ <> signature_of w)) by (intros Hn; by apply Hn).
  rewrite Z.eqb_refl. cbn [negb orb snd]. rewrite Htake. split; [reflexivity|]. split; [done|]. split; [done|]. split; [done|].
  split; [by constructor|]. constructor; try apply Hv; [done|]. unfold staging_ok.
  cbn [finish_transfer wait staging budget with_staging]. by rewrite Hol.
Qed.

(** ** One read *)

Section Body.
Context (w : weight) (c0 : row_cache) (Hv : valid w c0) (ids : list Z) (Hids : in_range w ids).
#[local] Notation n := (length (tags c0)).
#[local] Notation slots := (map (fun i => Z.to_nat (i mod Z.of_nat n)) ids).
#[local] Notation hits := (filter (is_hit c0 ids) (seq 0 (length ids))).
#[local] Notation misses := (filter (fun k => ~ is_hit c0 ids k) (seq 0 (length ids))).
#[local] Notation missing := (unique (index_select ids misses)).1.
#[local] Notation inverse := (unique (index_select ids misses)).2.

Lemma elem_of_hits k : k ∈ hits <-> is_hit c0 ids k /\ (k < length ids)%nat.
Proof. rewrite list_elem_of_filter, list_elem_of_In, in_seq. split; intros [? ?]; (split; [done|lia]). Qed.
Lemma elem_of_misses k : k ∈ misses <-> ~ is_hit c0 ids k /\ (k < length ids)%nat.
Proof. rewrite list_elem_of_filter, list_elem_of_In, in_seq. split; intros [? ?]; (split; [done|lia]). Qed.

Lemma hits_nodup : NoDup hits.
Proof. apply NoDup_filter, NoDup_seq. Qed.
Lemma misses_nodup : NoDup misses.
Proof. apply NoDup_filter, NoDup_seq. Qed.

Lemma misses_in_range : Forall (fun k => (k < length ids)%nat) misses.
Proof. apply Forall_forall. intros k Hk%elem_of_misses. tauto. Qed.

Lemma missed_lookup r : index_select ids misses !! r = misses !! r ≫= fun k => ids !! k.
Proof. apply index_select_lookup, misses_in_range. Qed.

Lemma inverse_length : length inverse = length misses.
Proof. rewrite unique_length. apply index_select_length, misses_in_range. Qed.

(** The number missed at a position, through the inverse. *)
Lemma missing_at r k j : misses !! r = Some k -> inverse !! r = Some j -> missing !! j = ids !! k.
Proof. intros Hr Hj. apply unique_lookup in Hj as [-> _]. by rewrite missed_lookup, Hr. Qed.

Lemma missing_in_range : in_range w missing.
Proof.
  apply Forall_forall. intros t Ht. apply unique_law in Ht. apply list_elem_of_lookup in Ht as [r Hr]. rewrite missed_lookup in Hr.
  destruct (misses !! r) as [k|]; [|done]. cbn in Hr. unfold in_range in Hids. rewrite Forall_forall in Hids. apply Hids.
  by eapply list_elem_of_lookup_2.
Qed.

(** The output so far: the hits if they were copied, and the misses whose row
    is among the first [upto] missing ones. *)
Definition filled (copied : Prop) (upto : nat) (output : list A) : Prop :=
  length output = length ids /\ forall k i, ids !! k = Some i ->
    (is_hit c0 ids k -> copied -> output !! k = row w i)
    /\ forall r j, misses !! r = Some k -> inverse !! r = Some j -> (j < upto)%nat -> output !! k = row w i.

Lemma filled_all output : filled True (length missing) output -> Some <$> output = row w <$> ids.
Proof.
  intros [Hl Hf]. apply list_eq. intros k. rewrite !list_lookup_fmap. destruct (ids !! k) as [i|] eqn:Ek.
  - destruct (Hf k i Ek) as [Hh Hm]. cbn. assert (output !! k = row w i) as ->.
    { destruct (decide (is_hit c0 ids k)) as [Hit|Hmiss]; [by apply Hh|].
      assert (k ∈ misses) as Hin by (apply elem_of_misses; split; [done|by eapply lookup_lt_Some]).
      apply list_elem_of_lookup in Hin as [r Hr]. destruct (lookup_lt_is_Some_2 inverse r) as [j Hj];
        [rewrite inverse_length; by eapply lookup_lt_Some|].
      apply (Hm r j Hr Hj). pose proof (unique_in_range (index_select ids misses)) as Hur. rewrite Forall_forall in Hur.
      apply Hur. by eapply list_elem_of_lookup_2. }
    unfold in_range in Hids. rewrite Forall_forall in Hids. pose proof (Hids i ltac:(by eapply list_elem_of_lookup_2)) as Hi. unfold row.
    destruct (lookup_lt_is_Some_2 (table w) (Z.to_nat i)) as [a Ha]; [lia|]. by rewrite Ha.
  - apply lookup_ge_None in Ek. assert (output !! k = None) as -> by (apply lookup_ge_None; lia). done.
Qed.

Lemma filled_weaken (P Q : Prop) upto output : (Q -> P) -> filled P upto output -> filled Q upto output.
Proof. intros HPQ [Hl Hf]. split; [done|]. intros k i Hk. destruct (Hf k i Hk). split; [auto|done]. Qed.

(** Copying the hits. *)
Lemma copy_hits_filled (c : row_cache) upto P output : values c = values c0 -> filled P upto output ->
  filled True upto (copy_hits hits slots output c).
Proof.
  intros Hc [Hl Hf]. assert (Forall (fun k => (k < length ids)%nat) hits) as Hh by (apply Forall_forall; intros k Hk%elem_of_hits; tauto).
  assert (forall k i, ids !! k = Some i -> slots !! k = Some (Z.to_nat (i mod Z.of_nat n))) as Hslot
    by (intros k i Hk; by rewrite list_lookup_fmap, Hk).
  assert (Forall (fun s => (s < length (values c))%nat) (index_select slots hits)) as Hs.
  { apply Forall_lookup. intros q s Hq. rewrite index_select_lookup in Hq by (rewrite length_map; exact Hh).
    destruct (hits !! q) as [k|]; [|done]. cbn in Hq. rewrite list_lookup_fmap in Hq. apply fmap_Some in Hq as (i & _ & ->).
    rewrite Hc. pose proof (v_slots w c0 Hv) as [-> _]. pose proof (v_capacity w c0 Hv).
    pose proof (Z.mod_pos_bound i (Z.of_nat n)). lia. }
  destruct (index_copy_law output hits (index_select (values c) (index_select slots hits)) hits_nodup) as (Hcl & Hin & Hout).
  { by rewrite Hl. }
  { rewrite !index_select_length; [done|by rewrite length_map|done]. }
  split; [unfold copy_hits; congruence|]. intros k i Hk. unfold copy_hits. split.
  - intros Hit _. assert (k ∈ hits) as Hkin by (apply elem_of_hits; split; [done|by eapply lookup_lt_Some]).
    apply list_elem_of_lookup in Hkin as [q Hq]. rewrite (Hin q k Hq), index_select_lookup by done.
    rewrite index_select_lookup, Hq by (rewrite length_map; exact Hh). cbn. rewrite (Hslot k i Hk). cbn. rewrite Hc.
    unfold is_hit in Hit. rewrite Hk in Hit. pose proof (v_slots w c0 Hv) as [_ Hok].
    destruct (Hok _ _ Hit) as [->|(_ & _ & Hval)]; [|done].
    unfold in_range in Hids. rewrite Forall_forall in Hids. pose proof (Hids (-1) ltac:(by eapply list_elem_of_lookup_2)). lia.
  - intros r j Hr Hj Hjs. rewrite Hout; [by eapply Hf|]. intros Hkin%elem_of_hits.
    assert (k ∈ misses) as Hkm%elem_of_misses by (by eapply list_elem_of_lookup_2). tauto.
Qed.
(** The positions a plan writes, and their rows in a chunk of the missing ones. *)
Record covers (start : nat) (chunk : list Z) (positions inverse' : list nat) : Prop := {
  cv_nodup : NoDup positions;
  cv_length : length positions = length inverse';
  cv_range : Forall (fun j => (j < length chunk)%nat) inverse';
  cv_from : forall q k, positions !! q = Some k -> exists r j, misses !! r = Some k /\ inverse !! r = Some (start + j)%nat
    /\ inverse' !! q = Some j;
  cv_all : forall r k j, misses !! r = Some k -> inverse !! r = Some (start + j)%nat -> (j < length chunk)%nat ->
    exists q, positions !! q = Some k /\ inverse' !! q = Some j }.

Lemma missed_once r r' k : misses !! r = Some k -> misses !! r' = Some k -> r = r'.
Proof. apply NoDup_lookup, misses_nodup. Qed.

(** Installing a chunk fills its positions and keeps the slots coherent. *)
Lemma install_filled (c : row_cache) P start chunk positions inverse' rows output :
  covers start chunk positions inverse' -> (forall j, (j < length chunk)%nat -> chunk !! j = missing !! (start + j)%nat) ->
  slots_ok w (tags c) (values c) -> length (tags c) = n -> in_range w chunk -> Some <$> rows = row w <$> chunk -> filled P start output ->
  let r := install_rows output (row_plan (length (tags c)) positions chunk inverse') rows c in
  filled P (start + length chunk) r.1 /\ length (tags r.2) = n /\ slots_ok w (tags r.2) (values r.2).
Proof.
  intros [Hnd Hlen Hrg Hfrom Hall] Hchunk Hslots Ht Hin Hrows [Hl Hf]. cbn zeta. rewrite Ht.
  pose proof (v_capacity w c0 Hv) as Hn.
  destruct (install_output w positions inverse' chunk Hnd Hlen Hrg rows Hrows output) as (Hol & Hoin & Hoout).
  { apply Forall_lookup. intros q k Hq. destruct (Hfrom q k Hq) as (r & j & Hr & _). rewrite Hl.
    pose proof misses_in_range as Hm. rewrite Forall_forall in Hm. apply Hm. by eapply list_elem_of_lookup_2. }
  destruct (install_slots w n positions inverse' chunk Hn Hlen Hin rows Hrows (tags c) (values c) Hslots Ht) as [Htl Hsl].
  split; [|split; [exact Htl|exact Hsl]]. split; [exact (eq_trans Hol Hl)|].
  intros k i Hk. destruct (Hf k i Hk) as [Hh Hm]. cbn [install_rows fst positions_of inverse_of row_plan]. split.
  - intros Hit HP. rewrite Hoout; [by apply Hh|]. intros Hkin. apply list_elem_of_lookup in Hkin as [q Hq].
    destruct (Hfrom q k Hq) as (r & j & Hr & _). apply list_elem_of_lookup_2, elem_of_misses in Hr. tauto.
  - intros r j Hr Hj Hjs. destruct (decide (j < start)%nat) as [Hlt|Hge].
    + rewrite Hoout; [by eapply Hm|]. intros Hkin. apply list_elem_of_lookup in Hkin as [q Hq].
      destruct (Hfrom q k Hq) as (r' & j' & Hr' & Hj' & _). assert (r' = r) as -> by (by eapply missed_once). rewrite Hj in Hj'.
      injection Hj' as ->. lia.
    + destruct (Hall r k (j - start)%nat Hr) as (q & Hq & Hqi); [rewrite Hj; f_equal; lia|lia|].
      rewrite (Hoin q k _ Hq Hqi), Hchunk by lia. replace (start + (j - start))%nat with j by lia.
      rewrite (missing_at r k j Hr Hj), Hk. done.
Qed.

(** All missing rows at once. *)
Lemma covers_all : covers 0 missing misses inverse.
Proof.
  constructor; [apply misses_nodup|by rewrite inverse_length|apply unique_in_range| |].
  - intros q k Hq. destruct (lookup_lt_is_Some_2 inverse q) as [j Hj]; [rewrite inverse_length; by eapply lookup_lt_Some|]. by exists q, j.
  - intros r k j Hr Hj _. by exists r.
Qed.

(** The positions selected for a chunk. *)
Lemma covers_chunk start chunk : 
  let selected := filter (fun k => within start (length chunk) inverse k = true) (seq 0 (length inverse)) in
  covers start chunk (index_select misses selected) (map (fun i => i - start)%nat (index_select inverse selected)).
Proof.
  intros selected. assert (forall r, r ∈ selected <-> exists j, inverse !! r = Some (start + j)%nat /\ (j < length chunk)%nat) as Hsel.
  { intros r. unfold selected. rewrite list_elem_of_filter, list_elem_of_In, in_seq. unfold within. split.
    - intros [Hw _]. destruct (inverse !! r) as [i|]; [|done]. exists (i - start)%nat.
      apply andb_true_iff in Hw as [Hw1%Nat.leb_le Hw2%Nat.ltb_lt]. split; [f_equal; lia|lia].
    - intros (j & Hj & Hlt). pose proof (lookup_lt_Some _ _ _ Hj). rewrite Hj. split; [|lia].
      apply andb_true_iff. split; [apply Nat.leb_le; lia|apply Nat.ltb_lt; lia]. }
  assert (Forall (fun k => (k < length inverse)%nat) selected) as Hi.
  { apply Forall_forall. intros r (j & Hj & _)%Hsel. by eapply lookup_lt_Some. }
  assert (Forall (fun k => (k < length misses)%nat) selected) as Hm by (by rewrite <- inverse_length).
  assert (NoDup selected) as Hnd by (apply NoDup_filter, NoDup_seq).
  constructor.
  - apply NoDup_alt. intros q q' k Hq Hq'. rewrite index_select_lookup in Hq, Hq' by done.
    destruct (selected !! q) as [r|] eqn:Er, (selected !! q') as [r'|] eqn:Er'; [|done..]. cbn in *.
    assert (r = r') as <- by (by eapply missed_once). by eapply (NoDup_lookup selected).
  - by rewrite length_map, !index_select_length.
  - apply Forall_lookup. intros q j Hq. rewrite list_lookup_fmap in Hq. apply fmap_Some in Hq as (i & Hq & ->).
    rewrite index_select_lookup in Hq by done. destruct (selected !! q) as [r|] eqn:Er; [|done]. cbn in Hq.
    apply list_elem_of_lookup_2, Hsel in Er as (j & Hj & Hlt). rewrite Hq in Hj. injection Hj as ->. lia.
  - intros q k Hq. rewrite index_select_lookup in Hq by done. destruct (selected !! q) as [r|] eqn:Er; [|done]. cbn in Hq.
    pose proof (list_elem_of_lookup_2 _ _ _ Er) as (j & Hj & _)%Hsel. exists r, j. split; [done|]. split; [done|].
    rewrite list_lookup_fmap, index_select_lookup, Er by done. cbn. rewrite Hj. cbn. f_equal. lia.
  - intros r k j Hr Hj Hlt. assert (r ∈ selected) as Hin by (apply Hsel; by exists j). apply list_elem_of_lookup in Hin as [q Hq].
    exists q. rewrite index_select_lookup, Hq by done. split; [done|].
    rewrite list_lookup_fmap, index_select_lookup, Hq by done. cbn. rewrite Hj. cbn. f_equal. lia.
Qed.
Lemma filled_beyond P upto upto' output : (Nat.min upto' (length missing) <= upto)%nat -> filled P upto output -> filled P upto' output.
Proof.
  intros Hle [Hl Hf]. split; [done|]. intros k i Hk. destruct (Hf k i Hk) as [Hh Hm]. split; [done|]. intros r j Hr Hj Hlt.
  apply (Hm r j Hr Hj). pose proof (unique_in_range (index_select ids misses)) as Hur. rewrite Forall_forall in Hur.
  specialize (Hur j ltac:(by eapply list_elem_of_lookup_2)). lia.
Qed.

Lemma staging_rows_pos b : (0 < staging_rows b w)%nat.
Proof. unfold staging_rows. lia. Qed.

(** The loop over the chunks, from the [j]-th of them. *)
Lemma read_chunks_spec capacity m : capacity = staging_rows (budget c0) w -> forall j c output,
  valid w c -> frame c0 c -> (j = 0%nat -> values c = values c0) -> filled (j <> 0%nat) (j * capacity) output ->
  exists output' c', read_chunks junk w hits slots misses missing inverse capacity (map (fun k => k * capacity)%nat (seq j m)) output c
      = (Ok output', c') /\ valid w c' /\ frame c0 c' /\ filled (j + m <> 0)%nat ((j + m) * capacity) output'.
Proof.
  intros Hcap. induction m as [|m IH]; intros j c output Hvc Hfr Hj0 Hf.
  { exists output, c. rewrite Nat.add_0_r. done. }
  cbn [seq map read_chunks]. set (start := (j * capacity)%nat). set (chunk := take capacity (drop start missing)).
  assert (in_range w chunk) as Hchunk by (apply Forall_take, Forall_drop, missing_in_range).
  assert (length chunk <= staging_rows (budget c) w)%nat as Hlc by (rewrite (f_budget _ _ Hfr), <- Hcap; unfold chunk; rewrite length_take; lia).
  destruct (transfer_spec w chunk c Hvc Hchunk Hlc) as (t & c1 & rows & -> & Hcons & Hrows & Hval & Htags & Hfr1 & Hv1).
  cbn [fst snd]. rewrite Hcons. set (output1 := if bool_decide (start = 0%nat) && _ then _ else output).
  assert (filled True start output1) as Hf1.
  { unfold output1. case_bool_decide as E; cbn [andb].
    - assert (j = 0%nat) as -> by (pose proof (staging_rows_pos (budget c0)); unfold start in E; nia).
      case_bool_decide as Eh; cbn [negb].
      + destruct Hf as [Hl Hf]. split; [done|]. intros k i Hk. destruct (Hf k i Hk) as [_ Hm]. split; [|done]. intros Hit _.
        assert (k ∈ hits) as Hin by (apply elem_of_hits; split; [done|by eapply lookup_lt_Some]). rewrite Eh in Hin. by apply not_elem_of_nil in Hin.
      + eapply copy_hits_filled; [rewrite Hval; by apply Hj0|exact Hf].
    - eapply filled_weaken; [|exact Hf]. intros _ ->. by apply E. }
  pose proof (covers_chunk start chunk) as Hcov. cbn zeta in Hcov.
  destruct (install_filled c1 True start chunk _ _ rows output1 Hcov) as (Hf2 & Ht2 & Hs2).
  { intros i Hi. unfold chunk in *. rewrite length_take in Hi. rewrite lookup_take_lt, lookup_drop by lia. done. }
  { rewrite Htags, Hval. apply Hvc. }
  { rewrite Htags. apply Hfr. }
  { done. } { done. } { done. }
  destruct (install_rows output1 _ rows c1) as [output2 c2] eqn:Einst. cbn [fst snd] in *.
  assert (c2 = (install_rows output1 (row_plan (length (tags c1)) (index_select misses (filter (fun k => within start (length chunk) inverse k = true)
    (seq 0 (length inverse)))) chunk (map (fun i => i - start)%nat (index_select inverse (filter (fun k => within start (length chunk) inverse k = true)
    (seq 0 (length inverse)))))) rows c1).2) as Ec2 by (by rewrite Einst).
  destruct (IH (S j) (finish_transfer c2) output2) as (output' & c' & E & Hv' & Hfr' & Hf').
  - assert (valid w (finish_transfer c1)) as [] by done. rewrite Ec2. rewrite Ec2 in Ht2, Hs2.
    constructor; try done. cbn. cbn in Ht2. rewrite Ht2. apply Hv.
  - eapply frame_trans; [exact Hfr|]. eapply frame_trans; [exact Hfr1|]. rewrite Ec2. constructor; try done.
    cbn. rewrite Ec2 in Ht2. cbn in Ht2. rewrite Ht2, Htags. symmetry. apply Hfr.
  - done.
  - eapply filled_weaken; [|eapply filled_beyond; [|exact Hf2]]; [done|]. unfold chunk. rewrite length_take, length_drop.
    unfold start. lia.
  - exists output', c'. split; [exact E|]. split; [done|]. split; [done|]. by rewrite Nat.add_succ_r.
Qed.
Lemma filled_start : filled False 0 (replicate (length ids) junk).
Proof. split; [by rewrite length_replicate|]. intros k i _. split; [done|]. intros r j _ _. lia. Qed.

Lemma hits_or_misses : (length hits + length misses = length ids)%nat.
Proof.
  rewrite <- (length_seq (length ids) 0) at 3. generalize (seq 0 (length ids)) as l. induction l as [|k l IH]; [done|].
  rewrite !filter_cons. destruct (decide (is_hit c0 ids k)) as [Hk|Hk].
  - rewrite decide_False by tauto. cbn [length]. lia.
  - rewrite decide_True by done. cbn [length]. lia.
Qed.

Lemma steps_cover n capacity : (0 < capacity)%nat -> (0 < n)%nat ->
  (0 < (n + capacity - 1) / capacity)%nat /\ (n <= (n + capacity - 1) / capacity * capacity)%nat.
Proof.
  intros Hc Hn. pose proof (Nat.div_mod (n + capacity - 1) capacity ltac:(lia)).
  pose proof (Nat.mod_upper_bound (n + capacity - 1) capacity ltac:(lia)). nia.
Qed.

Lemma missing_nonempty : misses <> [] -> (0 < length missing)%nat.
Proof.
  intros Hm. assert (0 < length inverse)%nat as Hl by (rewrite inverse_length; destruct misses; [done|cbn; lia]).
  destruct (lookup_lt_is_Some_2 inverse 0 Hl) as [j Hj].
  pose proof (unique_in_range (index_select ids misses)) as Hur. rewrite Forall_forall in Hur.
  pose proof (list_elem_of_lookup_2 _ _ _ Hj) as Hin. specialize (Hur j Hin). lia.
Qed.

(** Reading returns the rows of the table and keeps the cache valid. *)
Lemma read_body_spec : exists output c', read_body junk w ids c0 = (Ok output, c') /\ Some <$> output = row w <$> ids
  /\ valid w c' /\ frame c0 c'.
Proof.
  unfold read_body. set (c := count_access (length hits) (length misses) c0).
  assert (valid w c) as Hvc by (constructor; apply Hv). assert (frame c0 c) as Hfc by (by constructor).
  set (output := if negb (bool_decide (hits = [])) && _ then _ else _).
  assert (filled (misses = [] \/ cuda c0 = false) 0 output) as Ho.
  { unfold output. case_bool_decide as Eh; cbn [negb andb].
    - destruct filled_start as [Hl Hf]. split; [done|]. intros k i Hk. destruct (Hf k i Hk) as [_ Hm]. split; [|done]. intros Hit _.
      assert (k ∈ hits) as Hin by (apply elem_of_hits; split; [done|by eapply lookup_lt_Some]). rewrite Eh in Hin. by apply not_elem_of_nil in Hin.
    - destruct (bool_decide (misses = []) || negb (cuda c)) eqn:E.
      + eapply filled_weaken; [|eapply copy_hits_filled; [done|exact filled_start]]. done.
      + eapply filled_weaken; [|exact filled_start]. apply orb_false_iff in E as [Em Ec]. apply bool_decide_eq_false in Em.
        intros [?|Hc]; [done|]. cbn in Ec. by rewrite Hc in Ec. }
  case_bool_decide as Em.
  { exists output, c. split; [done|]. split; [|done]. apply filled_all. eapply filled_beyond; [|eapply filled_weaken; [|exact Ho]; by left].
    assert (missing = []) as ->; [|cbn; lia]. apply elem_of_nil_inv. intros x Hx. apply unique_law in Hx.
    apply list_elem_of_lookup in Hx as [q Hq]. rewrite missed_lookup, Em in Hq. done. }
  pose proof (missing_nonempty Em) as Hne. destruct (cuda c) eqn:Ec.
  - destruct (steps_cover (length missing) (staging_rows (budget c) w) (staging_rows_pos _) Hne) as [Hpos Hcov].
    destruct (read_chunks_spec (staging_rows (budget c) w) ((length missing + staging_rows (budget c) w - 1) / staging_rows (budget c) w)%nat eq_refl 0 c output Hvc Hfc (fun _ => eq_refl)) as (output' & c' & E & Hv' & Hfr' & Hf').
    { eapply filled_weaken; [|exact Ho]. done. }
    exists output', c'. split; [exact E|]. split; [|done]. apply filled_all. eapply filled_beyond; [|eapply filled_weaken; [|exact Hf']].
    + cbn [Nat.add]. etransitivity; [apply Nat.le_min_l|]. exact Hcov.
    + intros _. cbn [Nat.add]. lia.
  - match goal with |- context [install_rows output _ _ ?x] => set (c1 := x) end.
    set (rows := index_select (table w) (map Z.to_nat missing)).
    assert (Some <$> rows = row w <$> missing) as Hrows.
    { destruct (staged_rows w missing (replicate (length missing) junk) missing_in_range) as [H' _]; [by rewrite length_replicate|exact H']. }
    destruct (install_filled c1 True 0 missing misses inverse rows output covers_all) as (Hf & Ht & Hs); try done.
    { apply Hv. } { apply missing_in_range. }
    { eapply filled_weaken; [|exact Ho]. intros _. by right. }
    destruct (install_rows output _ rows c1) as [output' c2] eqn:Einst. cbn [fst snd] in *.
    exists output', c2. split; [done|]. injection Einst as _ <-.
    split; [by apply filled_all|]. split.
    + constructor; try apply Hv; try done. cbn in Ht |- *. rewrite Ht. apply Hv.
    + constructor; try done.
Qed.
End Body.
End Reads.
