(* ===== verification/EngramCacheResults.v ===== *)
(** * The row cache: lookups with and without it

    Over any sequence of configurations, clears and lookups the cache changes
    no result but the refusal of a table too wide for the budget. *)

From S2P Require Import Torch TorchFacts EngramCache EngramCacheProofs.
Local Open Scope Z_scope.

Section Results.
Context `{TensorLaws} `{RowLaws} {A : Type} (junk : A).
#[local] Notation weight := (weight (A := A)).
#[local] Notation row_cache := (row_cache (A := A)).
#[local] Notation lookup_state := (lookup_state (A := A)).

(** What the cache relies on: an object with one layout keeps its shape, and
    with one version its rows. *)
Definition agree (w w' : weight) : Prop := signature_of w = signature_of w' ->
  length (table w) = length (table w') /\ width w = width w' /\ element_size w = element_size w'
  /\ (revision w = revision w' -> table w = table w').

Definition versioned (ws : list weight) : Prop := forall w w', w ∈ ws -> w' ∈ ws -> agree w w'.
Definition real_weight (w : weight) : Prop := 0 < width w /\ 0 < element_size w.

(** A cache between two reads, its last table among [ws]. *)
Record cache_ok (ws : list weight) (c : row_cache) : Prop := {
  c_outstanding : outstanding c = None;
  c_resident : m_resident (counters c) <= budget c;
  c_last : match signature c with
    | None => tags c = [] /\ values c = [] /\ staging c = None
    | Some s => exists w, w ∈ ws /\ s = signature_of w /\ 1 <= capacity_for (budget c) w /\ (0 < length (tags c))%nat
        /\ slots_ok w (tags c) (values c) /\ staging_ok w c
        /\ match version c with None => Forall (fun t => t = -1) (tags c) | Some v => v = revision w end
    end }.

Lemma new_cache_ok ws b g : 0 <= b -> cache_ok ws (new_cache b g).
Proof. intros Hb. by constructor. Qed.

Lemma slots_ok_forgotten (w : weight) tags values : length values = length tags -> Forall (fun t => t = -1) tags -> slots_ok w tags values.
Proof.
  intros Hl Hf. split; [done|]. intros k t Hk. left. rewrite Forall_forall in Hf. apply Hf. by eapply list_elem_of_lookup_2.
Qed.

Lemma forgotten_all (tags : list Z) : Forall (fun t => t = -1) (map (fun _ => -1) tags).
Proof. apply Forall_fmap, Forall_forall. done. Qed.

Lemma clear_ok ws c : cache_ok ws c -> cache_ok ws (clear c).
Proof.
  intros [Ho Hr Hl]. constructor; [done|done|]. cbn. destruct (signature c) as [s|].
  - destruct Hl as (w & Hw & Hs & Hcap & Hn & Hslots & Hst & _). exists w. rewrite length_map. split; [done|]. split; [done|]. split; [done|].
    split; [done|]. split; [apply slots_ok_forgotten; [rewrite length_map; apply Hslots|apply forgotten_all]|]. split; [done|]. apply forgotten_all.
  - destruct Hl as (-> & -> & ->). done.
Qed.

Lemma capacity_agree b (w w' : weight) : agree w w' -> signature_of w = signature_of w' -> capacity_for b w = capacity_for b w'.
Proof. intros Ha Hs. destruct (Ha Hs) as (Hl & Hw & He & _). unfold capacity_for, row_bytes. by rewrite Hl, Hw, He. Qed.

Lemma staging_agree (w w' : weight) c : agree w w' -> signature_of w = signature_of w' -> staging_ok w c -> staging_ok w' c.
Proof.
  intros Ha Hs. destruct (Ha Hs) as (_ & Hw & He & _). unfold staging_ok, staging_rows, row_bytes. by rewrite Hw, He.
Qed.

Lemma resident_fits b (w : weight) : real_weight w -> 1 <= capacity_for b w ->
  capacity_for b w * width w * element_size w + capacity_for b w * 8 <= b.
Proof.
  intros [Hw He] Hc. assert (0 < row_bytes w) as Hb by (unfold row_bytes; nia).
  assert (capacity_for b w <= b / (row_bytes w + 8)) by (unfold capacity_for; lia).
  pose proof (Z.mul_div_le b (row_bytes w + 8) ltac:(lia)).
  replace (capacity_for b w * width w * element_size w + capacity_for b w * 8) with ((row_bytes w + 8) * capacity_for b w)
    by (unfold row_bytes; ring). nia.
Qed.

(** Validation makes the cache readable, or refuses a table that is too wide. *)
Lemma validate_spec ws c w : versioned ws -> w ∈ ws -> real_weight w -> cache_ok ws c ->
  match validate junk w c with
  | Ok c' => 1 <= capacity_for (budget c) w /\ valid w c' /\ budget c' = budget c /\ cuda c' = cuda c /\ m_resident (counters c') <= budget c
  | Err e => capacity_for (budget c) w < 1 /\ e = ValueError "Engram cache budget must hold one complete row and its int64 tag"
  end.
Proof.
  intros Hv Hw Hreal [Ho Hr Hl]. unfold validate. case_bool_decide as Es.
  - destruct (Z.ltb_spec (capacity_for (budget c) w) 1) as [|Hcap]; [done|]. split; [lia|].
    split; [|split; [done|split; [done|by apply resident_fits]]]. constructor; try done; cbn.
    + rewrite length_replicate. lia.
    + apply slots_ok_empty. by rewrite length_replicate.
  - rewrite Es in Hl. destruct Hl as (w' & Hw' & Hs & Hcap & Hn & Hslots & Hst & Hver).
    pose proof (Hv w' w Hw' Hw) as Ha. symmetry in Hs. pose proof (capacity_agree (budget c) w' w Ha Hs) as Hce.
    case_bool_decide as Ev.
    + split; [lia|]. split; [|done]. constructor; try done; cbn.
      * by rewrite length_map.
      * apply slots_ok_forgotten; [rewrite length_map; apply Hslots|apply forgotten_all].
      * by eapply (staging_agree w' w c).
    + rewrite Ev in Hver. destruct (Ha Hs) as (_ & _ & _ & Ht). split; [lia|]. split; [|done].
      constructor; try done; [|by eapply (staging_agree w' w c)]. unfold slots_ok in *. by rewrite <- (Ht (eq_sym Hver)).
Qed.

(** What a read of a configured cache returns. *)
Definition reference_read (b : Z) (w : weight) (ids : list Z) : res (list A) :=
  if capacity_for b w <? 1 then Err (ValueError "Engram cache budget must hold one complete row and its int64 tag")
  else if bool_decide (in_range w ids) then Ok (index_select (table w) (map Z.to_nat ids))
  else Err (IndexError "Engram cache row is outside its owner's range").

Lemma valid_ok ws c w : w ∈ ws -> valid w c -> 1 <= capacity_for (budget c) w -> m_resident (counters c) <= budget c -> cache_ok ws c.
Proof.
  intros Hw Hv Hc Hr. constructor; [apply Hv|done|]. rewrite (v_signature _ _ Hv). exists w. rewrite (v_version _ _ Hv).
  split; [done|]. split; [done|]. split; [done|]. split; [apply Hv|]. split; [apply Hv|]. split; [apply Hv|done].
Qed.

Lemma read_spec ws c w ids : versioned ws -> w ∈ ws -> real_weight w -> cache_ok ws c ->
  exists c', read junk w ids c = (reference_read (budget c) w ids, c') /\ cache_ok ws c' /\ budget c' = budget c.
Proof.
  intros Hv Hw Hreal Hok. unfold read, reference_read. pose proof (validate_spec ws c w Hv Hw Hreal Hok) as Hval.
  destruct (validate junk w c) as [c1|e].
  - destruct Hval as (Hcap & Hvalid & Hb & Hcu & Hres). replace (capacity_for (budget c) w <? 1) with false by lia.
    case_bool_decide as Hin; [|exists c1; split; [done|]; split; [|done]; eapply valid_ok; try done; congruence].
    destruct (read_body_spec junk w c1 Hvalid ids Hin) as (output & c' & -> & Hout & Hv' & Hfr).
    assert (output = index_select (table w) (map Z.to_nat ids)) as ->.
    { apply fmap_some_inj. rewrite Hout, index_select_law; [unfold row; by rewrite <- list_fmap_compose|].
      apply Forall_fmap. eapply Forall_impl; [exact Hin|]. cbn. intros. lia. }
    exists c'. split; [done|]. pose proof (f_budget _ _ Hfr). split; [|congruence].
    eapply valid_ok; try done; [congruence|]. rewrite (f_resident _ _ Hfr). congruence.
  - destruct Hval as [Hcap ->]. replace (capacity_for (budget c) w <? 1) with true by lia. by exists c.
Qed.

(** ** Sequences of requests *)

Inductive request :=
| Configure (budget_bytes : Z) (d : device)
| ClearCache
| Lookup (on_cpu integral : bool) (w : weight) (ids : list Z) (d : device).

Definition tables (requests : list request) : list weight :=
  omap (fun r => match r with Lookup _ _ w _ _ => Some w | _ => None end) requests.

(** A request answers with rows, or with nothing. *)
Definition serve_one (current : nat) (r : request) (s : lookup_state) : res (list A) * lookup_state :=
  match r with
  | Configure b d => let '(o, s) := configure_cache current b d s in ((fun _ => []) <$> o, s)
  | ClearCache => (Ok [], clear_cache s)
  | Lookup on_cpu integral w ids d => lookup_rows junk current on_cpu integral w ids d s
  end.

Fixpoint serve (current : nat) (requests : list request) (s : lookup_state) : list (res (list A)) * lookup_state :=
  match requests with
  | [] => ([], s)
  | r :: requests => let '(o, s) := serve_one current r s in let '(os, s) := serve current requests s in (o :: os, s)
  end.

(** The same requests on a table alone: of the cache there is only the budget
    and the device it was configured with. *)
Definition reference_lookup (current : nat) (on_cpu integral : bool) (w : weight) (ids : list Z) (d : device)
    (s : option (Z * device)) : res (list A) :=
  if negb on_cpu then Err (RuntimeError "offloaded Engram weights must stay on CPU")
  else if match s with Some (_, d') => negb (bool_decide (normalise current d = d')) | None => false end
  then Err (ValueError "Engram lookup device differs from the configured cache device")
  else if negb integral then Err (TypeError "Engram indices must be int32 or int64")
  else match s with None => embedding w ids | Some (b, _) => reference_read b w ids end.

Definition reference_one (current : nat) (r : request) (s : option (Z * device)) : res (list A) * option (Z * device) :=
  match r with
  | Configure b d =>
      if b <? 0 then (Err (ValueError "Engram cache budget must be a nonnegative integer"), s)
      else if bool_decide (d = Other) then (Err (ValueError "Engram cache supports CPU tests or CUDA execution"), s)
      else (Ok [], if b =? 0 then None else Some (b, normalise current d))
  | ClearCache => (Ok [], s)
  | Lookup on_cpu integral w ids d => (reference_lookup current on_cpu integral w ids d s, s)
  end.

Fixpoint reference (current : nat) (requests : list request) (s : option (Z * device)) : list (res (list A)) :=
  match requests with
  | [] => []
  | r :: requests => let '(o, s) := reference_one current r s in o :: reference current requests s
  end.

(** A cache in its budget, with the configuration of the reference. *)
Definition lookup_ok (ws : list weight) (s : lookup_state) (conf : option (Z * device)) : Prop :=
  match s, conf with
  | None, None => True
  | Some (c, d), Some (b, d') => cache_ok ws c /\ budget c = b /\ d = d'
  | _, _ => False
  end.

Lemma serve_one_spec ws current r s conf : versioned ws -> Forall real_weight ws -> tables [r] ⊆ ws -> lookup_ok ws s conf ->
  exists s', serve_one current r s = ((reference_one current r conf).1, s') /\ lookup_ok ws s' (reference_one current r conf).2.
Proof.
  intros Hv Hreal Hin Hok. destruct r as [b d| |on_cpu integral w ids d]; cbn [serve_one reference_one].
  - unfold configure_cache. destruct (Z.ltb_spec b 0); [by exists s|]. case_bool_decide; [by exists s|].
    eexists. split; [reflexivity|]. destruct (b =? 0); [done|]. split; [apply new_cache_ok; lia|done].
  - eexists. split; [reflexivity|]. destruct s as [[c d]|], conf as [[b d']|]; try done. cbn in *. destruct Hok as (Hc & Hb & Hd).
    split; [by apply clear_ok|done].
  - cbn [fst snd]. unfold lookup_rows, reference_lookup. destruct on_cpu; cbn [negb]; [|by exists s].
    destruct s as [[c d1]|], conf as [[b d']|]; try done; cbn in Hok.
    + destruct Hok as (Hc & <- & <-). case_bool_decide; cbn [negb]; [|by exists (Some (c, d1))].
      destruct integral; cbn [negb]; [|by exists (Some (c, d1))].
      assert (w ∈ ws) as Hw by (apply Hin; by left). rewrite Forall_forall in Hreal.
      destruct (read_spec ws c w ids Hv Hw (Hreal w Hw) Hc) as (c' & -> & Hc' & Hb'). exists (Some (c', d1)). split; [done|]. by split.
    + destruct integral; by exists None.
Qed.

Lemma serve_spec ws current requests : versioned ws -> Forall real_weight ws -> forall s conf, tables requests ⊆ ws -> lookup_ok ws s conf ->
  exists s' conf', serve current requests s = (reference current requests conf, s') /\ lookup_ok ws s' conf'.
Proof.
  intros Hv Hreal. induction requests as [|r requests IH]; intros s conf Hin Hok; [by exists s, conf|].
  destruct (serve_one_spec ws current r s conf Hv Hreal) as (s' & E & Hok'); [|done|].
  { intros w Hw. apply Hin. destruct r; cbn in *; [by apply not_elem_of_nil in Hw..|]. apply list_elem_of_singleton in Hw as ->. by left. }
  destruct (IH s' (reference_one current r conf).2) as (s'' & conf'' & E' & Hok''); [|done|].
  { intros w Hw. apply Hin. destruct r; cbn in *; [done..|by right]. }
  exists s'', conf''. cbn [serve reference]. rewrite E, E'. destruct (reference_one current r conf). by split.
Qed.
End Results.

(** C37. For any sequence of configurations, clears and lookups on tables whose
    version changes with their rows, on the CPU or in chunks on CUDA: every
    lookup returns exactly the rows of its table in the order of its indices,
    or raises as the lookup without a cache does (for an index out of range with
    a message of its own), apart from refusing a table of which the budget holds
    no row and its tag; and the rows and tags that stay resident fit the
    configured budget. *)
Theorem cached_lookup_exact `{TensorLaws} `{RowLaws} {A : Type} (junk : A) current requests :
  versioned (tables requests) -> Forall real_weight (tables requests) ->
  (serve junk current requests None).1 = reference current requests None
  /\ match (serve junk current requests None).2 with
     | Some (c, _) => m_resident (counters c) <= budget c
     | None => True
     end.
Proof.
  intros Hv Hreal. destruct (serve_spec junk (tables requests) current requests Hv Hreal None None) as (s & conf & -> & Hok); [done|done|].
  split; [done|]. cbn. destruct s as [[c d]|]; [|done]. destruct conf as [[b d']|]; [|done]. apply Hok.
Qed.

(** ** Witness: the operations on lists *)

Definition list_unique (keys : list Z) : list Z * list nat :=
  let u := sorted_by Z.leb (remove_dups keys) in
  (u, map (fun k => match list_find (fun x => x = k) u with Some (i, _) => i | None => 0%nat end) keys).

Definition list_amax (base : list Z) (index : list nat) (source : list Z) : list Z :=
  foldl (fun l e => <[e.1 := Z.max (nth e.1 l (-1)) e.2]> l) base (zip index source).

Definition list_copy {A} (target : list A) (index : list nat) (source : list A) : list A :=
  foldl (fun l e => <[e.1 := e.2]> l) target (zip index source).

#[local] Instance list_row_ops : RowOps := { unique := list_unique; scatter_amax := list_amax; index_copy A := list_copy }.

Lemma list_copy_law {A} (target : list A) index source : NoDup index -> Forall (fun i => (i < length target)%nat) index ->
  length index = length source ->
  length (list_copy target index source) = length target
  /\ (forall k i, index !! k = Some i -> list_copy target index source !! i = source !! k)
  /\ (forall i, i ∉ index -> list_copy target index source !! i = target !! i).
Proof.
  intros Hnd. revert target source. induction Hnd as [|i index Hi Hnd IH]; intros target [|x source] Hr Hl; try done.
  apply Forall_cons in Hr as [Hri Hr]. unfold list_copy. cbn [zip_with foldl fst snd].
  destruct (IH (<[i := x]> target) source) as (IHl & IHin & IHout).
  { eapply Forall_impl; [exact Hr|]. cbn. intros j Hj. by rewrite length_insert. } { by injection Hl. }
  fold (list_copy (<[i := x]> target) index source). rewrite length_insert in IHl. split; [done|]. split.
  - intros [|k] j; cbn; [intros [= ->]|apply IHin]. rewrite IHout by done. by rewrite list_lookup_insert_eq.
  - intros j [Hne Hj]%not_elem_of_cons. rewrite IHout by done. by rewrite list_lookup_insert_ne.
Qed.

Lemma list_amax_law base index source : length index = length source -> Forall (fun i => (i < length base)%nat) index ->
  length (list_amax base index source) = length base
  /\ forall i m, list_amax base index source !! i = Some m ->
       (base !! i = Some m \/ exists k, index !! k = Some i /\ source !! k = Some m)
       /\ (forall b, base !! i = Some b -> b <= m) /\ forall k s, index !! k = Some i -> source !! k = Some s -> s <= m.
Proof.
  revert base source. induction index as [|j index IH]; intros base [|x source] Hl Hr; try done.
  { split; [done|]. intros i m Hi. cbn in Hi. split; [by left|]. split; [intros b Hb; rewrite Hi in Hb; injection Hb as ->; lia|done]. }
  apply Forall_cons in Hr as [Hj Hr]. unfold list_amax. cbn [zip_with foldl fst snd]. set (base' := <[j := _]> base).
  destruct (IH base' source) as [IHl IHs].
  { by injection Hl. } { eapply Forall_impl; [exact Hr|]. cbn. intros i Hi. unfold base'. by rewrite length_insert. }
  fold (list_amax base' index source). split; [unfold base' in *; by rewrite length_insert in IHl|]. intros i m Hi.
  destruct (IHs i m Hi) as (Hor & Hbase & Hsrc). destruct (lookup_lt_is_Some_2 base j Hj) as [b Hb].
  assert (base' !! j = Some (Z.max b x)) as Hbj.
  { unfold base'. rewrite list_lookup_insert_eq by done. f_equal. f_equal. by apply nth_lookup_Some. }
  assert (forall i', i' <> j -> base' !! i' = base !! i') as Hne by (intros; unfold base'; by rewrite list_lookup_insert_ne).
  split; [|split].
  - destruct Hor as [Hm|(k & Hk & Hs)]; [|right; by exists (S k)]. destruct (decide (i = j)) as [->|Hij]; [|left; by rewrite <- Hne].
    rewrite Hbj in Hm. injection Hm as <-. destruct (Z.max_spec b x) as [[_ ->]|[_ ->]]; [right; by exists 0%nat|by left].
  - intros b' Hb'. destruct (decide (i = j)) as [->|Hij]; [|apply Hbase; by rewrite Hne].
    specialize (Hbase _ Hbj). rewrite Hb in Hb'. injection Hb' as <-. lia.
  - intros [|k] s; cbn; [|by apply Hsrc]. intros [= ->] [= ->]. specialize (Hbase _ Hbj). lia.
Qed.

Lemma sorted_strict l : NoDup l -> StronglySorted (fun a b => Z.leb a b = true) l -> StronglySorted Z.lt l.
Proof.
  intros Hnd. induction 1 as [|x l Hl IH Hx]; [constructor|]. apply NoDup_cons in Hnd as [Hn Hnd]. constructor; [by apply IH|].
  rewrite Forall_forall in *. intros y Hy. specialize (Hx y Hy). apply Z.leb_le in Hx. assert (x <> y) by (intros ->; done). lia.
Qed.

#[local] Instance list_row_laws : RowLaws.
Proof.
  split.
  - intros keys. cbn. assert (forall k, k ∈ sorted_by Z.leb (remove_dups keys) <-> k ∈ keys) as Hin
      by (intros k; by rewrite sorted_by_perm, elem_of_remove_dups).
    split; [|split; [by intros k Hk%Hin|]].
    + apply sorted_strict; [rewrite sorted_by_perm; apply NoDup_remove_dups|]. apply sorted_by_sorted; intros; lia.
    + apply list_eq. intros q. rewrite !list_lookup_fmap. destruct (keys !! q) as [k|] eqn:Eq; [|done]. cbn.
      destruct (list_find_elem_of (fun x => x = k) (sorted_by Z.leb (remove_dups keys)) k) as [[i x] Ei]; [|done|].
      { apply Hin. by eapply list_elem_of_lookup_2. }
      rewrite Ei. by apply list_find_Some in Ei as (-> & -> & _).
  - intros base index source Hl Hr. destruct (list_amax_law base index source Hl Hr) as [? Hs]. split; [done|].
    intros i m Hi. destruct (Hs i m Hi) as (? & _ & ?). by split.
  - intros A. apply list_copy_law.
Qed.

(** A table of five rows, of which a budget of 40 bytes holds two. *)
Definition five_rows : weight := {| object := 1; layout := 0; revision := 3; width := 1; element_size := 8; table := ["r0"; "r1"; "r2"; "r3"; "r4"] |}.
Definition five_updated : weight := {| object := 1; layout := 0; revision := 4; width := 1; element_size := 8; table := ["s0"; "s1"; "s2"; "s3"; "s4"] |}.
Definition some_requests : list request :=
  [Configure 40 (Cuda None); Lookup true true five_rows [1; 3; 1; 0] (Cuda None); Lookup true true five_rows [3; 4; 3] (Cuda (Some 0%nat));
   Lookup true true five_updated [3; 0] (Cuda None); Lookup true true five_updated [5] (Cuda None)].

Lemma cached_lookup_exact_witness :
  (serve (H := list_ops) (H1 := list_row_ops) "" 0 some_requests None).1
    = [Ok []; Ok ["r1"; "r3"; "r1"; "r0"]; Ok ["r3"; "r4"; "r3"]; Ok ["s3"; "s0"];
       Err (IndexError "Engram cache row is outside its owner's range")].
Proof.
  destruct (cached_lookup_exact (H := list_ops) (H0 := list_laws) "" 0 some_requests) as [-> _].
  - intros w w' Hw Hw'. repeat (apply elem_of_cons in Hw as [->|Hw]); [..|by apply not_elem_of_nil in Hw];
      (repeat (apply elem_of_cons in Hw' as [->|Hw']); [..|by apply not_elem_of_nil in Hw']); intros _; vm_compute; repeat split; discriminate.
  - repeat constructor.
  - vm_compute. reflexivity.
Defined.
