(* ===== verification/EngramState.v ===== *)
(** * Trainable Engram rows ([dsv41_train/rl/engram_state.py])

    Every policy role sees the same sealed baseline tables through a private
    view.  The learner trains rows of its view and remembers which; a payload
    carries those rows, and loading it into another view first undoes that
    view's own private rows.  A tensor is the list of its rows, which are
    abstract; the row cache in front of a table is [EngramCache]. *)

From S2P Require Import Prelude StateRes PyValue Torch EngramCache.
Local Open Scope Z_scope.
Local Open Scope handler_scope.

Inductive role := Learner | Reference | Actor.
#[export] Instance role_eq_dec : EqDecision role.
Proof. solve_decision. Defined.

Section EngramState.
Context `{TensorOps} `{RowOps} {A D : Type} `{!EqDecision D}.
(** [torch.isfinite(row).all()] *)
Context (isfinite : A -> bool).

(** ** The baseline, a role's state, and payloads *)

(** [EngramBaseline]: shapes in the order of its dictionary, and the sealed rows. *)
Record baseline := { identity : pyval; shapes : list (string * (nat * nat)); dtype : D; sealed : gmap string (list A) }.

Definition chunk_rows : nat := Z.to_nat 131072.

(** [view]: a private copy. *)
Definition view (b : baseline) (name : string) : list A := default [] (sealed b !! name).

(** A gradient of a table: dense, or sparse with the rows it names. *)
Inductive gradient := Dense | Sparse (rows : list Z).

Record role_embedding := { weight : list A; requires_grad : bool; grad : option gradient }.

Record engram_state := {
  base : baseline;
  state_role : role;
  tables : gmap string role_embedding;
  dirty : gmap string (list Z) }.

(** A payload as [torch.load(weights_only=True)] gives it; payloads of other
    Python types than [state_dict] writes are left out. *)
Record row_record := { indices : list Z; row_width : nat; value_dtype : D; values : list A }.
Record delta := { format : Z; delta_base : pyval; delta_tables : gmap string row_record }.

Definition set_table (name : string) (t : role_embedding) (rows : list Z) (s : engram_state) : engram_state :=
  {| base := base s; state_role := state_role s; tables := <[name := t]> (tables s); dirty := <[name := rows]> (dirty s) |}.

(** [EngramState.__init__] *)
Definition new_state (b : baseline) (r : role) (trainable : bool) : engram_state :=
  {| base := b; state_role := r;
     tables := list_to_map (map (fun s => (s.1, {| weight := view b s.1; requires_grad := trainable && bool_decide (r = Learner); grad := None |})) (shapes b));
     dirty := list_to_map (map (fun s => (s.1, [])) (shapes b)) |}.

(** ** [mark_touched] *)

Definition mark_table (name : string) : stateful engram_state unit :=
  reading (fun s => match tables s !! name with
  | None => returning tt
  | Some t => match grad t with
      | None => returning tt
      | Some Dense => raising (ValueError "Engram gradients must be sparse")
      | Some (Sparse rows) => changing (set_table name t (unique (default [] (dirty s !! name) ++ rows)).1)
      end
  end).

Definition mark_touched : stateful engram_state unit :=
  reading (fun s =>
    raise_when negb (bool_decide (state_role s = Learner)) with_exn RuntimeError "only the learner may update Engram";
    for_each mark_table (map fst (shapes (base s)))).

(** ** [state_dict] and [validate_delta] *)

Definition state_dict (s : engram_state) : delta :=
  {| format := 1; delta_base := identity (base s);
     delta_tables := list_to_map (map (fun e =>
       let ids := default [] (dirty s !! e.1) in
       (e.1, {| indices := ids; row_width := e.2.2; value_dtype := dtype (base s);
                values := index_select (default [] (weight <$> tables s !! e.1)) (map Z.to_nat ids) |})) (shapes (base s))) |}.

(** [indices[1:] <= indices[:-1]] nowhere. *)
Definition increasing (l : list Z) : bool := forallb id (zip_with Z.ltb (removelast l) (tail l)).

Definition record_valid (rows width : nat) (d : D) (r : row_record) : bool :=
  bool_decide (value_dtype r = d) && (row_width r =? width)%nat && (length (values r) =? length (indices r))%nat
  && negb (negb (length (indices r) =? 0)%nat
           && ((nth 0 (indices r) 0 <? 0) || (Z.of_nat rows <=? List.last (indices r) 0) || negb (increasing (indices r))))
  && forallb isfinite (values r).

Definition validate_delta (payload : delta) (id : pyval) (shapes : list (string * (nat * nat))) (d : D) : res unit :=
  if negb ((format payload =? 1) && py_eqb (delta_base payload) id
           && bool_decide (dom (delta_tables payload) = (list_to_set (map fst shapes) : gset string)))
  then Err (ValueError "Engram delta format or baseline identity differs")
  else _ ← traverse (fun e =>
    match delta_tables payload !! e.1 with
    | None => Err (KeyError e.1)
    | Some r => raise_if (negb (record_valid e.2.1 e.2.2 d r))
                  (ValueError ("invalid Engram delta indices, dtype, shape or values: " +:+ e.1))
    end) shapes; Ok tt.

Definition validate (payload : delta) (s : engram_state) : res unit :=
  if bool_decide (state_role s = Reference) then Err (ValueError "the initial reference cannot load learner Engram state")
  else validate_delta payload (identity (base s)) (shapes (base s)) (dtype (base s)).

(** ** [load_state_dict] *)

(** [ids.split(n)]: one empty piece for an empty tensor. *)
Definition split_rows (n : nat) (l : list Z) : list (list Z) :=
  map (fun i => take n (drop (i * n) l)) (seq 0 (Nat.max 1 ((length l + n - 1) / n))).

(** Undoing the private rows, a piece at a time. *)
Definition undo (original : list A) (rows : list Z) (w : list A) : list A :=
  foldl (fun w ids => let ids := map Z.to_nat ids in index_copy w ids (index_select original ids)) w (split_rows chunk_rows rows).

Definition install_table (payload : delta) (name : string) : stateful engram_state unit :=
  reading (fun s =>
    let t := default {| weight := []; requires_grad := false; grad := None |} (tables s !! name) in
    let w := undo (view (base s) name) (default [] (dirty s !! name)) (weight t) in
    match delta_tables payload !! name with
    | None => raising (KeyError name)
    | Some r => changing (set_table name {| weight := index_copy w (map Z.to_nat (indices r)) (values r);
                                            requires_grad := requires_grad t; grad := None |} (indices r))
    end).

Definition load_state_dict (payload : delta) : stateful engram_state unit :=
  reading (fun s =>
    do computing (validate payload s);
    for_each (install_table payload) (map fst (shapes (base s)))).

(** ** A run: the learner, its actors, and the payloads that travel *)

(** A training step leaves sparse gradients, marks their rows and lets the
    optimiser change only those; [update] gives the new row. *)
Definition backward (rows : gmap string (list Z)) (s : engram_state) : engram_state :=
  {| base := base s; state_role := state_role s; dirty := dirty s;
     tables := map_imap (fun name t => Some {| weight := weight t; requires_grad := requires_grad t; grad := Sparse <$> rows !! name |}) (tables s) |}.

Definition optimizer_step (update : string -> nat -> A -> A) (s : engram_state) : engram_state :=
  {| base := base s; state_role := state_role s; dirty := dirty s;
     tables := map_imap (fun name t => Some (match grad t with
       | Some (Sparse rows) => {| weight := imap (fun i row => if bool_decide (Z.of_nat i ∈ rows) then update name i row else row) (weight t);
                                  requires_grad := requires_grad t; grad := grad t |}
       | _ => t
       end)) (tables s) |}.

Definition train_step (rows : gmap string (list Z)) (update : string -> nat -> A -> A) : stateful engram_state unit :=
  do changing (backward rows);
  do mark_touched;
  changing (optimizer_step update).

(** Payloads that were made, and for the checks of this development the rows
    the learner had then, and the payload each actor holds. *)
Record world := {
  learner : engram_state;
  actors : list (engram_state * option nat);
  payloads : list (delta * gmap string (list A)) }.

Definition rows_of (s : engram_state) : gmap string (list A) := weight <$> tables s.

Inductive action := Train (rows : gmap string (list Z)) (update : string -> nat -> A -> A) | Publish
  | Install (actor payload : nat) | Resume (payload : nat).

Definition act (a : action) (w : world) : world :=
  match a with
  | Train rows update => {| learner := (train_step rows update (learner w)).1; actors := actors w; payloads := payloads w |}
  | Publish => {| learner := learner w; actors := actors w; payloads := payloads w ++ [(state_dict (learner w), rows_of (learner w))] |}
  | Install i k =>
      match actors w !! i, payloads w !! k with
      | Some (s, held), Some (p, _) =>
          let '(s, r) := load_state_dict p s in
          {| learner := learner w; actors := <[i := (s, if is_ok r then Some k else held)]> (actors w); payloads := payloads w |}
      | _, _ => w
      end
  | Resume k =>
      match payloads w !! k with
      | Some (p, _) => {| learner := (load_state_dict p (learner w)).1; actors := actors w; payloads := payloads w |}
      | None => w
      end
  end.

Definition start (b : baseline) (n : nat) : world :=
  {| learner := new_state b Learner true; actors := replicate n (new_state b Actor false, None); payloads := [] |}.
End EngramState.
