(* ===== verification/EngramStateResults.v ===== *)
(** * Trainable Engram rows: what a payload carries

    An actor that installs a payload holds exactly the rows the learner had when
    it made the payload, whatever either did before. *)

From S2P Require Import Prelude StateRes PyValue Torch TorchFacts EngramCache EngramState.
From S2P Require EngramCacheResults.
Local Open Scope Z_scope.

Section Rows.
Context `{TensorLaws} `{RowLaws} {A D : Type} `{!EqDecision D} (isfinite : A -> bool).
#[local] Notation baseline := (baseline (A := A) (D := D)).
#[local] Notation engram_state := (engram_state (A := A) (D := D)).

(** ** Undoing private rows *)

Lemma split_rows_concat n l : (0 < n)%nat -> concat (split_rows n l) = l.
Proof.
  intros Hn. unfold split_rows.
  assert (forall k m, (length l <= (m + k) * n)%nat -> concat (map (fun i => take n (drop (i * n) l)) (seq m k)) = drop (m * n) l) as Hall.
  { induction k as [|k IH]; intros m Hm; cbn [seq map concat].
    - rewrite drop_ge by lia. done.
    - rewrite IH by lia. rewrite <- (take_drop n (drop (m * n) l)) at 2. f_equal. rewrite drop_drop. f_equal. lia. }
  rewrite Hall; [by rewrite Nat.mul_0_l, drop_0|]. pose proof (Nat.div_mod_eq (length l + n - 1) n).
  pose proof (Nat.mod_upper_bound (length l + n - 1) n ltac:(lia)). nia.
Qed.

Lemma undo_pieces (original : list A) pieces w : length original = length w ->
  Forall (fun ids => NoDup (map Z.to_nat ids) /\ Forall (fun i => (i < length w)%nat) (map Z.to_nat ids)) pieces ->
  let w' := foldl (fun w ids => let ids := map Z.to_nat ids in index_copy w ids (index_select original ids)) w pieces in
  length w' = length w /\ forall i, w' !! i = if bool_decide (i ∈ map Z.to_nat (concat pieces)) then original !! i else w !! i.
Proof.
  revert w. induction pieces as [|ids pieces IH]; intros w Hl Hp; [done|]. apply Forall_cons in Hp as [[Hnd Hin] Hp]. cbn [foldl].
  assert (Forall (fun k => (k < length original)%nat) (map Z.to_nat ids)) as Hin' by (by rewrite Hl).
  set (w1 := index_copy w _ _).
  destruct (index_copy_law w (map Z.to_nat ids) (index_select original (map Z.to_nat ids)) Hnd Hin) as (C1 & C2 & C3).
  { by rewrite index_select_length. }
  fold w1 in C1, C2, C3. destruct (IH w1) as [IHl IHi].
  { by rewrite C1. }
  { eapply Forall_impl; [exact Hp|]. intros x [? ?]. by rewrite C1. }
  split; [by etransitivity; [exact IHl|]|]. intros i. etransitivity; [apply IHi|]. cbn [concat]. rewrite map_app.
  destruct (decide (i ∈ map Z.to_nat (concat pieces))) as [Hi|Hi].
  - rewrite !bool_decide_eq_true_2 by set_solver. done.
  - rewrite (bool_decide_eq_false_2 (i ∈ map Z.to_nat (concat pieces))) by done.
    destruct (decide (i ∈ map Z.to_nat ids)) as [Hk|Hk].
    + rewrite bool_decide_eq_true_2 by set_solver. apply list_elem_of_lookup in Hk as [k Hk]. rewrite (C2 k i Hk).
      rewrite index_select_lookup by done. by rewrite Hk.
    + rewrite bool_decide_eq_false_2 by set_solver. by apply C3.
Qed.

(** ** The invariant of a view *)

Definition baseline_ok (b : baseline) : Prop :=
  NoDup (map fst (shapes b)) /\ (forall name rows width, (name, (rows, width)) ∈ shapes b -> length (view b name) = rows)
  /\ json_finite (identity b) = true /\ distinct_keys (identity b) = true.

(** Row numbers as [unique] gives them, all in the table. *)
Definition row_list (rows : nat) (l : list Z) : Prop := StronglySorted Z.lt l /\ Forall (fun i => 0 <= i < Z.of_nat rows) l.

(** A table is the baseline but for its dirty rows. *)
Definition view_at (b : baseline) (rows : nat) (name : string) (w : list A) (d : list Z) : Prop :=
  length w = rows /\ row_list rows d /\ forall i, Z.of_nat i ∉ d -> w !! i = view b name !! i.

Definition coherent (b : baseline) (s : engram_state) : Prop :=
  base s = b /\ forall name rows width, (name, (rows, width)) ∈ shapes b ->
    exists t d, tables s !! name = Some t /\ dirty s !! name = Some d /\ view_at b rows name (weight t) d.

Definition keyed (b : baseline) (s : engram_state) : Prop :=
  dom (tables s) = (list_to_set (map fst (shapes b)) : gset string).

Lemma row_list_nat rows l : row_list rows l -> NoDup (map Z.to_nat l) /\ Forall (fun i => (i < rows)%nat) (map Z.to_nat l)
  /\ forall i, i ∈ map Z.to_nat l <-> Z.of_nat i ∈ l.
Proof.
  intros [Hs Hin]. rewrite Forall_forall in Hin.
  assert (forall i, i ∈ map Z.to_nat l <-> Z.of_nat i ∈ l) as Hiff.
  { intros i. split.
    - intros (z & -> & Hz)%list_elem_of_fmap. specialize (Hin z Hz). by rewrite Z2Nat.id by lia.
    - intros Hi. apply list_elem_of_fmap. exists (Z.of_nat i). split; [lia|done]. }
  split; [|split; [|done]].
  - clear Hiff. induction Hs as [|x l Hs IH Hx]; [constructor|]. cbn. constructor.
    + intros (y & E & Hy)%list_elem_of_fmap. rewrite Forall_forall in Hx. specialize (Hx y Hy).
      pose proof (Hin x ltac:(left)). pose proof (Hin y ltac:(by right)). lia.
    + apply IH. intros y Hy. apply Hin. by right.
  - apply Forall_forall. intros i Hi%Hiff. specialize (Hin _ Hi). lia.
Qed.

Lemma undo_view b rows name w d : length (view b name) = rows -> view_at b rows name w d -> undo (view b name) d w = view b name.
Proof.
  intros Hl (Hw & Hd & Hv). assert (0 < chunk_rows)%nat as Hc by (unfold chunk_rows; lia).
  destruct (row_list_nat rows d Hd) as (Hnd & Hin & Hiff).
  assert (Forall (fun ids => NoDup (map Z.to_nat ids) /\ Forall (fun i => (i < length w)%nat) (map Z.to_nat ids)) (split_rows chunk_rows d)) as Hpieces.
  { rewrite <- (split_rows_concat chunk_rows d Hc) in Hnd, Hin. revert Hnd Hin. generalize (split_rows chunk_rows d) as ps. rewrite Hw.
    induction ps as [|p ps IH]; cbn [concat]; [constructor|]. rewrite map_app. intros (H3 & _ & H5)%NoDup_app [H6 H7]%Forall_app.
    constructor; [done|]. by apply IH. }
  destruct (undo_pieces (view b name) (split_rows chunk_rows d) w ltac:(congruence) Hpieces) as [_ Hi]. apply list_eq. intros i.
  unfold undo. etransitivity; [apply Hi|]. rewrite split_rows_concat by done. case_bool_decide as Hdi; [done|]. apply Hv. by rewrite <- Hiff.
Qed.

(** ** What a payload describes *)

(** The payload of a view of [b] whose rows are [T]. *)
Definition describes (b : baseline) (p : delta (A := A) (D := D)) (T : gmap string (list A)) : Prop :=
  format p = 1 /\ delta_base p = identity b /\ dom (delta_tables p) = (list_to_set (map fst (shapes b)) : gset string)
  /\ dom T = (list_to_set (map fst (shapes b)) : gset string)
  /\ forall name rows width, (name, (rows, width)) ∈ shapes b -> exists r w, delta_tables p !! name = Some r /\ T !! name = Some w
     /\ view_at b rows name w (indices r) /\ values r = index_select w (map Z.to_nat (indices r))
     /\ row_width r = width /\ value_dtype r = dtype b.

Lemma install_rows b rows name w d (r : row_record (A := A) (D := D)) wt : length (view b name) = rows -> view_at b rows name w d ->
  view_at b rows name wt (indices r) -> values r = index_select wt (map Z.to_nat (indices r)) ->
  index_copy (undo (view b name) d w) (map Z.to_nat (indices r)) (values r) = wt.
Proof.
  intros Hl Hw (Hlt & Hr & Hv) ->. rewrite (undo_view b rows name w d Hl Hw). destruct (row_list_nat rows _ Hr) as (Hnd & Hin & Hiff).
  assert (Forall (fun k => (k < length wt)%nat) (map Z.to_nat (indices r))) as Hin' by (by rewrite Hlt).
  destruct (index_copy_law (view b name) (map Z.to_nat (indices r)) (index_select wt (map Z.to_nat (indices r))) Hnd) as (C1 & C2 & C3).
  { by rewrite Hl. }
  { by rewrite index_select_length. }
  apply list_eq. intros i. destruct (decide (i ∈ map Z.to_nat (indices r))) as [Hi|Hi].
  - apply list_elem_of_lookup in Hi as [k Hk]. rewrite (C2 k i Hk), index_select_lookup by done. by rewrite Hk.
  - rewrite C3 by done. symmetry. apply Hv. by rewrite <- Hiff.
Qed.

(** ** Installing a payload *)

Lemma shape_of b name rows width rows' width' : baseline_ok b -> (name, (rows, width)) ∈ shapes b ->
  (name, (rows', width')) ∈ shapes b -> rows' = rows /\ width' = width.
Proof.
  intros (Hnd & _) H3 H4. apply list_elem_of_lookup in H3 as [i Hi], H4 as [j Hj].
  assert (i = j) as <- by (eapply (NoDup_lookup (map fst (shapes b))); [done|by rewrite list_lookup_fmap, Hi|by rewrite list_lookup_fmap, Hj]).
  rewrite Hi in Hj. by injection Hj as -> ->.
Qed.

Lemma install_tables b p T names : baseline_ok b -> describes b p T -> NoDup names -> Forall (fun n => n ∈ map fst (shapes b)) names ->
  forall s, coherent b s -> exists s', for_each (install_table p) names s = (s', Ok tt) /\ coherent b s' /\ state_role s' = state_role s
    /\ dom (tables s') = dom (tables s) ∪ list_to_set names
    /\ forall n, weight <$> tables s' !! n = if bool_decide (n ∈ names) then T !! n else weight <$> tables s !! n.
Proof.
  intros Hb (_ & _ & _ & _ & Hp) Hnd Hin. induction names as [|name names IH]; intros s Hs.
  { exists s. split; [done|]. split; [done|]. split; [done|]. split; [set_solver|done]. }
  apply NoDup_cons in Hnd as [Hfresh Hnd]. apply Forall_cons in Hin as [Hn Hin].
  apply list_elem_of_fmap in Hn as ((name' & rows & width) & E & Hsh). cbn in E. subst name'.
  destruct (Hp name rows width Hsh) as (r & wt & Hr & Ht & Hview & Hval & _).
  destruct Hs as [Hbase Hall]. destruct (Hall name rows width Hsh) as (t & d & Htab & Hd & Hv).
  pose proof (proj1 (proj2 Hb) name rows width Hsh) as Hlen.
  set (s1 := set_table name {| weight := wt; requires_grad := requires_grad t; grad := None |} (indices r) s).
  assert (install_table p name s = (s1, Ok tt)) as Hstep.
  { unfold install_table, reading. rewrite Htab, Hd, Hr, Hbase. cbn [default]. cbv beta zeta. unfold changing, id.
    by rewrite (install_rows b rows name (weight t) d r wt Hlen Hv Hview Hval). }
  destruct (IH Hnd Hin s1) as (s' & Hrun & Hcoh & Hrole & Hdom & Hw).
  { split; [done|]. intros n rows' width' Hn. cbn. destruct (decide (n = name)) as [->|Hne].
    - rewrite !lookup_insert_eq. destruct (shape_of b name rows width rows' width' Hb Hsh Hn) as [-> ->]. by eexists _, _.
    - rewrite !lookup_insert_ne by done. by apply (Hall n rows' width'). }
  exists s'. split; [|split; [done|split; [by rewrite Hrole|split]]].
  - cbn [for_each]. unfold sequence at 1. by rewrite Hstep.
  - rewrite Hdom. cbn. rewrite dom_insert_L. set_solver.
  - intros n. rewrite Hw. destruct (decide (n ∈ names)) as [Hi|Hi].
    + by rewrite !bool_decide_eq_true_2 by set_solver.
    + rewrite (bool_decide_eq_false_2 (n ∈ names)) by done. cbn. destruct (decide (n = name)) as [->|Hne].
      * rewrite lookup_insert_eq, bool_decide_eq_true_2 by set_solver. by rewrite Ht.
      * by rewrite lookup_insert_ne, bool_decide_eq_false_2 by set_solver.
Qed.

(** A payload that validates is installed whole; one that does not changes
    nothing. *)
Lemma load_exact b p T s : baseline_ok b -> describes b p T -> coherent b s -> keyed b s ->
  let '(s', r) := load_state_dict isfinite p s in
  match r with
  | Ok _ => validate isfinite p s = Ok tt /\ coherent b s' /\ keyed b s' /\ state_role s' = state_role s /\ rows_of s' = T
  | Err e => s' = s /\ validate isfinite p s = Err e
  end.
Proof.
  intros Hb Hp Hs Hk. unfold load_state_dict, reading, sequence, computing. destruct (validate isfinite p s) as [[]|e] eqn:Ev; [|done].
  destruct (install_tables b p T (map fst (shapes (base s))) Hb Hp) with (s := s) as (s' & -> & Hcoh & Hrole & Hdom & Hw); try done.
  { destruct Hs as [-> _]. apply Hb. }
  { destruct Hs as [-> _]. by apply Forall_forall. }
  destruct Hs as [Hbase _]. rewrite Hbase in *. split; [done|]. split; [done|]. split; [|split; [done|]].
  - unfold keyed in *. rewrite Hdom, Hk. set_solver.
  - apply map_eq. intros n. unfold rows_of. rewrite lookup_fmap, Hw. case_bool_decide as Hn; [done|].
    destruct Hp as (_ & _ & _ & HT & _). assert (n ∉ dom (tables s)) as H3 by (rewrite Hk; set_solver).
    assert (n ∉ dom T) as H4 by (rewrite HT; set_solver). apply not_elem_of_dom in H3, H4. by rewrite H3, H4.
Qed.

(** ** Training *)

Lemma unique_elem keys k : k ∈ (unique keys).1 <-> k ∈ keys.
Proof.
  destruct (unique_law keys) as (_ & Hin & Hinv). split; [apply Hin|]. intros Hk. apply list_elem_of_lookup in Hk as [i Hi].
  assert (((fun i => (unique keys).1 !! i) <$> (unique keys).2) !! i = Some (Some k)) as Hl by (by rewrite Hinv, list_lookup_fmap, Hi).
  rewrite list_lookup_fmap in Hl. destruct ((unique keys).2 !! i) as [j|]; [|done]. injection Hl as Hl. by eapply list_elem_of_lookup_2.
Qed.

Lemma unique_rows rows l : Forall (fun i => 0 <= i < Z.of_nat rows) l -> row_list rows (unique l).1.
Proof.
  intros Hl. split; [apply unique_law|]. rewrite Forall_forall in *. intros i Hi. apply Hl. by apply unique_elem.
Qed.

(** Rows of the tables. *)
Definition rows_valid (b : baseline) (touched : gmap string (list Z)) : Prop :=
  forall name rows width l, (name, (rows, width)) ∈ shapes b -> touched !! name = Some l -> Forall (fun i => 0 <= i < Z.of_nat rows) l.

Lemma mark_tables (touched : gmap string (list Z)) names : forall s : engram_state, NoDup names ->
  (forall n t, tables s !! n = Some t -> grad t = Sparse <$> touched !! n) -> Forall (fun n => n ∈ dom (tables s)) names ->
  exists s', for_each mark_table names s = (s', Ok tt) /\ base s' = base s /\ state_role s' = state_role s /\ tables s' = tables s
    /\ forall n, dirty s' !! n = match touched !! n with
         | Some l => if bool_decide (n ∈ names) then Some (unique (default [] (dirty s !! n) ++ l)).1 else dirty s !! n
         | None => dirty s !! n
         end.
Proof.
  induction names as [|name names IH]; intros s Hnd Hg Hin.
  { exists s. repeat (split; [done|]). intros n. destruct (touched !! n); done. }
  apply NoDup_cons in Hnd as [Hfresh Hnd]. apply Forall_cons in Hin as [Hn Hin]. apply elem_of_dom in Hn as [t Ht].
  pose proof (Hg name t Ht) as Hgt. cbn [for_each]. unfold sequence at 1. unfold mark_table at 1, reading at 1. rewrite Ht, Hgt.
  destruct (touched !! name) as [l|] eqn:El; cbn [fmap option_fmap option_map].
  - set (s1 := set_table name t (unique (default [] (dirty s !! name) ++ l)).1 s).
    assert (tables s1 = tables s) as Htab by (cbn; by apply insert_id). destruct (IH s1 Hnd) as (s' & Hrun & H3 & H4 & H5 & H6).
    { by rewrite Htab. }
    { by rewrite Htab. }
    exists s'. split; [exact Hrun|]. split; [done|]. split; [done|]. split; [by rewrite H5|]. intros n. rewrite H6. cbn.
    destruct (decide (n = name)) as [->|Hne].
    + rewrite El, lookup_insert_eq, (bool_decide_eq_false_2 (name ∈ names)), bool_decide_eq_true_2 by set_solver. done.
    + rewrite lookup_insert_ne by done. destruct (touched !! n); [|done]. by rewrite (bool_decide_ext (n ∈ names) (n ∈ name :: names)) by set_solver.
  - destruct (IH s Hnd Hg Hin) as (s' & Hrun & H3 & H4 & H5 & H6). exists s'. split; [exact Hrun|]. repeat (split; [done|]).
    intros n. rewrite H6. destruct (decide (n = name)) as [->|Hne]; [by rewrite El|]. destruct (touched !! n); [|done].
    by rewrite (bool_decide_ext (n ∈ names) (n ∈ name :: names)) by set_solver.
Qed.

Lemma train_ok b (touched : gmap string (list Z)) update s : baseline_ok b -> coherent b s -> keyed b s -> state_role s = Learner -> rows_valid b touched ->
  let '(s', r) := train_step touched update s in r = Ok tt /\ coherent b s' /\ keyed b s' /\ state_role s' = Learner.
Proof.
  intros Hb [Hbase Hs] Hk Hrole Hv. unfold train_step, sequence at 1, changing at 1. set (s1 := backward touched s).
  assert (dom (tables s1) = dom (tables s)) as Hdom by (cbn; apply dom_imap_L; intros n; rewrite elem_of_dom; unfold is_Some; naive_solver).
  assert (forall n t, tables s1 !! n = Some t -> grad t = Sparse <$> touched !! n) as Hg.
  { intros n t. cbn. rewrite map_lookup_imap. destruct (tables s !! n); [|done]. cbn. by intros [= <-]. }
  destruct (mark_tables touched (map fst (shapes b)) s1 (proj1 Hb) Hg) as (s2 & Hrun & Hbase2 & Hrole2 & Htab & Hd).
  { rewrite Hdom, Hk. apply Forall_forall. intros n Hn. by apply elem_of_list_to_set. }
  unfold mark_touched, reading. cbn [sequence]. unfold sequence. cbn [s1 backward state_role base]. rewrite Hrole, Hbase. cbn [negb bool_decide].
  fold s1. rewrite bool_decide_eq_true_2 by done. cbn [negb]. rewrite Hrun. cbv beta iota. unfold changing. cbv beta iota.
  split; [done|]. split; [split; [by cbn; rewrite Hbase2|]|split; [|by cbn; rewrite Hrole2]].
  - intros name rows width Hsh. destruct (Hs name rows width Hsh) as (t & d & Ht & Hdt & (Hlen & Hrl & Hview)).
    cbn [optimizer_step tables dirty]. rewrite map_lookup_imap, Htab. cbn [s1 backward tables]. rewrite map_lookup_imap, Ht. cbn [mbind option_bind].
    rewrite Hd. cbn [s1 backward dirty]. rewrite Hdt. eexists _, (match touched !! name with Some l => (unique (d ++ l)).1 | None => d end).
    split; [reflexivity|]. split.
    { destruct (touched !! name); [|done]. rewrite bool_decide_eq_true_2; [done|]. apply list_elem_of_fmap. by exists (name, (rows, width)). }
    cbn [grad]. destruct (touched !! name) as [l|] eqn:El; cbn [fmap option_fmap option_map weight]; [|done].
    split; [by rewrite length_imap|]. split.
    { apply unique_rows. apply Forall_app. split; [apply Hrl|]. by apply (Hv name rows width). }
    intros i Hi. rewrite unique_elem in Hi. rewrite list_lookup_imap, (Hview i) by set_solver.
    rewrite bool_decide_eq_false_2 by set_solver. by destruct (view b name !! i).
  - unfold keyed. rewrite <- Hk, <- Hdom, <- Htab. cbn. apply dom_imap_L. intros n. rewrite elem_of_dom. unfold is_Some. naive_solver.
Qed.
(** ** Payloads *)

Lemma shapes_map {B} (f : string * (nat * nat) -> B) (b : baseline) name rows width : baseline_ok b -> (name, (rows, width)) ∈ shapes b ->
  (list_to_map (map (fun e => (e.1, f e)) (shapes b)) : gmap string B) !! name = Some (f (name, (rows, width))).
Proof.
  intros (Hnd & _) Hin. apply elem_of_list_to_map_1.
  - rewrite map_map. exact Hnd.
  - apply list_elem_of_fmap. by exists (name, (rows, width)).
Qed.

Lemma shapes_dom {B} (f : string * (nat * nat) -> B) (b : baseline) :
  dom (list_to_map (map (fun e => (e.1, f e)) (shapes b)) : gmap string B) = (list_to_set (map fst (shapes b)) : gset string).
Proof. rewrite dom_list_to_map_L, map_map. done. Qed.

Lemma state_dict_describes b s : baseline_ok b -> coherent b s -> keyed b s -> describes b (state_dict s) (rows_of s).
Proof.
  intros Hb [Hbase Hs] Hk. unfold state_dict. rewrite Hbase. split; [done|]. split; [done|]. split; [apply shapes_dom|].
  split; [unfold rows_of; by rewrite dom_fmap_L|]. intros name rows width Hsh. destruct (Hs name rows width Hsh) as (t & d & Ht & Hd & Hv).
  cbn [delta_tables]. rewrite (shapes_map _ b name rows width Hb Hsh). eexists _, (weight t). split; [reflexivity|]. cbn. unfold rows_of.
  rewrite lookup_fmap, Ht, Hd. split; [done|]. split; [exact Hv|]. done.
Qed.

Lemma increasing_sorted l : StronglySorted Z.lt l -> increasing l = true.
Proof.
  intros Hs. unfold increasing. apply forallb_forall. intros c Hc%list_elem_of_In%list_elem_of_lookup. destruct Hc as [i Hi].
  rewrite lookup_zip_with in Hi. rewrite removelast_firstn_len in Hi. destruct (take (pred (length l)) l !! i) as [x|] eqn:Ex; [|done].
  apply lookup_take_Some in Ex as [Ex _]. destruct (tail l !! i) as [y|] eqn:Ey; [|done]. injection Hi as <-. cbn. apply Z.ltb_lt.
  assert (l !! S i = Some y) as Ey' by (destruct l; done). clear Ey. revert i Ex Ey'. induction Hs as [|z l Hs IH Hz]; intros i Ex Ey; [done|].
  destruct i as [|i]; [|by apply (IH i)]. injection Ex as ->. rewrite Forall_forall in Hz. apply Hz. by eapply list_elem_of_lookup_2.
Qed.

Lemma row_list_bounds rows l : row_list rows l -> l <> [] -> 0 <= nth 0 l 0 /\ List.last l 0 < Z.of_nat rows.
Proof.
  intros [_ Hin] Hne. rewrite Forall_forall in Hin. split.
  - destruct l as [|x l]; [done|]. apply (Hin x). left.
  - apply Hin. apply list_elem_of_In. rewrite (app_removelast_last 0 Hne) at 2. apply in_or_app. right. by left.
Qed.

Lemma describes_valid b p T s : baseline_ok b -> describes b p T -> base s = b -> state_role s <> Reference ->
  (forall name r, delta_tables p !! name = Some r -> forallb isfinite (values r) = true) -> validate isfinite p s = Ok tt.
Proof.
  intros (_ & _ & Hj & Hk) (Hf & Hbase & Hdom & _ & Hall) Hs Hrole Hfin. unfold validate, validate_delta.
  rewrite bool_decide_eq_false_2 by done. rewrite Hs, Hf, Hbase, (py_eqb_refl _ Hj Hk), bool_decide_eq_true_2 by exact Hdom. cbn [negb andb Z.eqb].
  assert (forall l, (forall e, e ∈ l -> e ∈ shapes b) -> exists us, traverse (fun e =>
    match delta_tables p !! e.1 with
    | None => Err (KeyError e.1)
    | Some r => raise_if (negb (record_valid isfinite e.2.1 e.2.2 (dtype b) r)) (ValueError ("invalid Engram delta indices, dtype, shape or values: " +:+ e.1))
    end) l = Ok us) as Htr.
  { induction l as [|(name & rows & width) l IH]; intros Hin; [by eexists|]. destruct IH as [us Hus]; [intros e He; apply Hin; by right|].
    destruct (Hall name rows width (Hin _ ltac:(left))) as (r & w & Hr & Hw & (Hlen & Hrl & _) & Hval & Hwd & Hdt).
    cbn [traverse fst snd]. rewrite Hr. assert (record_valid isfinite rows width (dtype b) r = true) as ->.
    { unfold record_valid. rewrite Hdt, Hwd, (Hfin name r Hr), bool_decide_eq_true_2, Nat.eqb_refl by done. cbn [andb].
      destruct (row_list_nat rows _ Hrl) as (_ & Hin' & _). rewrite Hval, index_select_length, length_map, Nat.eqb_refl by (by rewrite Hlen).
      cbn [andb]. rewrite andb_true_r, (increasing_sorted _ (proj1 Hrl)). cbn [negb orb]. rewrite orb_false_r.
      destruct (indices r) as [|x ids] eqn:Eids; [done|]. destruct (row_list_bounds rows (x :: ids) Hrl ltac:(done)) as [H3 H4]. cbn [length Nat.eqb negb andb].
      replace (nth 0 (x :: ids) 0 <? 0) with false by lia. replace (Z.of_nat rows <=? List.last (x :: ids) 0) with false by lia. done. }
    cbn [negb raise_if]. cbn. unfold mbind in *. rewrite Hus. by eexists. }
  destruct (Htr (shapes b)) as [us ->]; done.
Qed.
(** ** Runs *)

Definition baseline_rows (b : baseline) : gmap string (list A) := list_to_map (map (fun e => (e.1, view b e.1)) (shapes b)).

Definition valid_action (b : baseline) (a : action (A := A)) : Prop := match a with Train rows _ => rows_valid b rows | _ => True end.

(** What an actor holds: the rows of the payload it installed last. *)
Definition holds (b : baseline) (payloads : list (delta (A := A) (D := D) * gmap string (list A))) (s : engram_state) (held : option nat) : Prop :=
  match held with None => rows_of s = baseline_rows b | Some k => exists p, payloads !! k = Some (p, rows_of s) end.

Record run_ok (b : baseline) (w : world (A := A) (D := D)) : Prop := {
  learner_ok : coherent b (learner w) /\ keyed b (learner w) /\ state_role (learner w) = Learner;
  actors_ok : Forall (fun a => coherent b a.1 /\ keyed b a.1 /\ state_role a.1 = Actor /\ holds b (payloads w) a.1 a.2) (actors w);
  payloads_ok : Forall (fun e => describes b e.1 e.2) (payloads w) }.

Lemma new_state_ok b r t : baseline_ok b -> coherent b (new_state b r t) /\ keyed b (new_state b r t) /\ rows_of (new_state b r t) = baseline_rows b.
Proof.
  intros Hb. split; [split; [done|]|split].
  - intros name rows width Hsh. cbn [new_state tables dirty]. rewrite !(shapes_map _ b name rows width Hb Hsh). eexists _, _. split; [reflexivity|].
    split; [reflexivity|]. split; [by apply (proj1 (proj2 Hb) name rows width)|]. split; [split; constructor|done].
  - unfold keyed. cbn. apply shapes_dom.
  - unfold rows_of, baseline_rows. cbn [new_state tables]. rewrite <- list_to_map_fmap. f_equal. rewrite <- list_fmap_compose. done.
Qed.

Lemma holds_grow b ps e s held : holds b ps s held -> holds b (ps ++ [e]) s held.
Proof. destruct held as [k|]; [|done]. intros [p Hp]. exists p. by apply lookup_app_l_Some. Qed.

Lemma act_ok b a w : baseline_ok b -> valid_action b a -> run_ok b w -> run_ok b (act isfinite a w).
Proof.
  intros Hb Ha [(Hl & Hlk & Hlr) Hact Hpay]. destruct a as [touched update| |i k|k]; cbn [act].
  - pose proof (train_ok b touched update (learner w) Hb Hl Hlk Hlr Ha) as Ht. destruct (train_step touched update (learner w)) as [s' r].
    destruct Ht as (_ & ? & ? & ?). by constructor.
  - constructor; cbn; [done| |].
    + eapply Forall_impl; [exact Hact|]. intros a (? & ? & ? & ?). split; [done|]. split; [done|]. split; [done|]. by apply holds_grow.
    + apply Forall_app. split; [done|]. constructor; [|done]. by apply state_dict_describes.
  - destruct (actors w !! i) as [[s held]|] eqn:Ea; [|done]. destruct (payloads w !! k) as [[p T]|] eqn:Ep; [|done].
    rewrite Forall_lookup in Hpay. pose proof (Hpay k _ Ep) as Hd. rewrite Forall_lookup in Hact. destruct (Hact i _ Ea) as (Hc & Hk & Hr & Hh).
    cbn [fst snd] in *. pose proof (load_exact b p T s Hb Hd Hc Hk) as Hload. destruct (load_state_dict isfinite p s) as [s' r].
    constructor; cbn [learner actors payloads]; [done| |by apply Forall_lookup]. apply Forall_insert; [by apply Forall_lookup|].
    destruct r as [[]|e]; cbn [is_ok fst snd].
    + destruct Hload as (_ & ? & ? & Hrole & Hrows). split; [done|]. split; [done|]. split; [by rewrite Hrole|]. exists p. by rewrite Hrows.
    + destruct Hload as [-> _]. done.
  - destruct (payloads w !! k) as [[p T]|] eqn:Ep; [|done]. rewrite Forall_lookup in Hpay. pose proof (Hpay k _ Ep) as Hd.
    pose proof (load_exact b p T (learner w) Hb Hd Hl Hlk) as Hload. destruct (load_state_dict isfinite p (learner w)) as [s' r].
    constructor; cbn [learner actors payloads]; [|done|by apply Forall_lookup]. destruct r as [[]|e]; cbn [fst].
    + destruct Hload as (_ & ? & ? & Hrole & _). by rewrite Hrole.
    + by destruct Hload as [-> _].
Qed.

Lemma run_holds b n l : baseline_ok b -> Forall (valid_action b) l -> run_ok b (foldl (fun w a => act isfinite a w) (start b n) l).
Proof.
  intros Hb Hl. assert (run_ok b (start b n)) as Hs.
  { constructor; cbn; [|apply Forall_replicate; cbn|constructor]; by destruct (new_state_ok b Learner true Hb) as (? & ? & ?),
      (new_state_ok b Actor false Hb) as (? & ? & ?). }
  revert Hs. generalize (start b n) as w. induction Hl as [|a l Ha Hl IH]; intros w Hw; [done|]. cbn. apply IH. by apply act_ok.
Qed.
End Rows.

(** C38. Over any training steps, payloads and installations, in any order: an
    actor's tables are the baseline, or the learner's tables at the time the
    payload it installed last was made.  A payload with finite values installs
    in every actor and in the learner, whatever rows they changed before and
    also when it is older than what they hold; the reference refuses it.  An
    installation that raises changes nothing. *)
Theorem engram_payload_exact `{TensorLaws} `{RowLaws} (A D : Type) `{!EqDecision D} (isfinite : A -> bool) (b : baseline (A := A) (D := D)) n l :
  baseline_ok b -> Forall (valid_action b) l ->
  let w := foldl (fun w a => act isfinite a w) (start b n) l in
  (forall s held, (s, held) ∈ actors w -> match held with
     | None => rows_of s = baseline_rows b
     | Some k => exists p, payloads w !! k = Some (p, rows_of s)
     end)
  /\ forall p T s, (p, T) ∈ payloads w -> s ∈ learner w :: map fst (actors w) ->
       ((forall name r, delta_tables p !! name = Some r -> forallb isfinite (values r) = true) ->
          exists s', load_state_dict isfinite p s = (s', Ok tt) /\ rows_of s' = T)
       /\ (forall s' e, load_state_dict isfinite p s = (s', Err e) -> s' = s)
       /\ exists e, load_state_dict isfinite p (new_state b Reference false) = (new_state b Reference false, Err e).
Proof.
  intros Hb Hl w. destruct (run_holds isfinite b n l Hb Hl) as [(Hlc & Hlk & Hlr) Hact Hpay]. fold w in Hlc, Hlk, Hlr, Hact, Hpay.
  pose proof (proj1 (Forall_forall _ _) Hact) as Hact'. pose proof (proj1 (Forall_forall _ _) Hpay) as Hpay'. split.
  { intros s held Hin. by destruct (Hact' _ Hin) as (_ & _ & _ & ?). }
  intros p T s Hp Hs. pose proof (Hpay' _ Hp) as Hd. cbn in Hd.
  assert (coherent b s /\ keyed b s /\ state_role s <> Reference) as (Hc & Hk & Hr).
  { apply elem_of_cons in Hs as [->|([s' held] & -> & Hin)%list_elem_of_fmap]; [by rewrite Hlr|].
    destruct (Hact' _ Hin) as (? & ? & Hr & _). cbn in *. by rewrite Hr. }
  pose proof (load_exact isfinite b p T s Hb Hd Hc Hk) as Hload. split; [|split].
  - intros Hfin. pose proof (describes_valid isfinite b p T s Hb Hd (proj1 Hc) Hr Hfin) as Hv.
    destruct (load_state_dict isfinite p s) as [s' [[]|e]]; [|by destruct Hload as [_ E]; rewrite Hv in E]. exists s'. split; [done|]. apply Hload.
  - intros s' e E. rewrite E in Hload. by destruct Hload.
  - by eexists.
Qed.

(** ** Witness *)

#[local] Existing Instance EngramCacheResults.list_row_ops.
#[local] Existing Instance EngramCacheResults.list_row_laws.
Definition small_base : baseline (A := Z) (D := nat) :=
  {| identity := PDict [("seed", PInt 1)]; shapes := [("0", (4, 1)); ("2", (3, 1))]%nat; dtype := 0%nat;
     sealed := {["0" := [10; 11; 12; 13]; "2" := [20; 21; 22]]} |}.
Definition small_actions : list (action (A := Z)) :=
  [Train {["0" := [3; 1; 3]]} (fun _ i row => row * 2); Publish; Train {["0" := [0]; "2" := [2]]} (fun _ i row => row + 5); Publish;
   Install 0 1; Install 0 0; Install 1 1].
Definition small_world : world (A := Z) (D := nat) :=
  foldl (fun w a => act (H := list_ops) (fun _ => true) a w) (start small_base 2) small_actions.

Example small_world_rows : map (fun a => map (fun k => rows_of a.1 !! k) ["0"; "2"]) (actors small_world)
  = [[Some [10; 22; 12; 26]; Some [20; 21; 22]]; [Some [15; 22; 12; 26]; Some [20; 21; 27]]].
Proof. vm_compute. reflexivity. Qed.

Lemma engram_payload_exact_witness : exists s p, actors small_world !! 0%nat = Some (s, Some 0%nat) /\ payloads small_world !! 0%nat = Some (p, rows_of s)
  /\ exists s', load_state_dict (H := list_ops) (fun _ => true) p (learner small_world) = (s', Ok tt) /\ rows_of s' = rows_of s.
Proof.
  assert (baseline_ok small_base) as Hb.
  { split; [apply (bool_decide_unpack _); vm_compute; exact I|]. split; [|split; done].
    intros name rows width Hin. repeat (apply elem_of_cons in Hin as [[= -> -> ->]|Hin]; [vm_compute; reflexivity|]). by apply elem_of_nil in Hin. }
  assert (Forall (valid_action small_base) small_actions) as Ha.
  { assert (forall l0 l2, Forall (fun i => 0 <= i < 4) l0 -> Forall (fun i => 0 <= i < 3) l2 -> rows_valid small_base {["0" := l0; "2" := l2]}) as Hv.
    { intros l0 l2 H0 H2 name rows width l Hin Hl. repeat (apply elem_of_cons in Hin as [[= -> -> ->]|Hin]); [| |by apply elem_of_nil in Hin];
        vm_compute in Hl; injection Hl as <-; assumption. }
    repeat constructor; cbn; [|apply Hv; repeat constructor; lia].
    intros name rows width l Hin Hl. repeat (apply elem_of_cons in Hin as [[= -> -> ->]|Hin]); [| |by apply elem_of_nil in Hin];
      vm_compute in Hl; [injection Hl as <-; repeat constructor; lia|done]. }
  destruct (engram_payload_exact (H := list_ops) (H0 := list_laws) Z nat (fun _ => true) small_base 2 small_actions Hb Ha) as [Hheld Hload].
  fold small_world in Hheld, Hload. destruct (actors small_world !! 0%nat) as [[s held]|] eqn:Es; [|by vm_compute in Es].
  assert (held = Some 0%nat) as -> by (vm_compute in Es; by injection Es as _ <-).
  destruct (Hheld s (Some 0%nat)) as [p Hp]; [by eapply list_elem_of_lookup_2|]. exists s, p. split; [done|]. split; [exact Hp|].
  apply (Hload p (rows_of s) (learner small_world)); [by eapply list_elem_of_lookup_2|left|].
  intros name r _. by apply forallb_forall.
Defined.
