(* ===== verification/PolicyArtifact.v ===== *)
(** * Policy artifacts ([dsv41_train/rl/checkpoint.py], [dsv41_train/rl/policy.py])

    The learner publishes each policy version as an immutable file named after
    its digest; a consumer loads it only after the digest and the metadata
    match.  What a policy's weights are is hidden behind [PolicyModel]; the
    partitions of the DeepSeek policy are an instance of it. *)

From stdpp Require Import pretty.
From S2P Require Import Prelude StateRes PyValue Training GenerationFailure EngramCache EngramState.
Local Open Scope Z_scope.
Local Open Scope handler_scope.

(** ** The interface of a policy's weights *)

Class PolicyModel (M S : Type) := {
  trainable_state_dict : M -> S;
  frozen_state_dict : M -> S;
  state_empty : S -> bool;
  load_trainable_state_dict : S -> stateful M unit;
  load_frozen_state_dict : S -> stateful M unit;
  assert_invariants : M -> res unit }.

(** Loading the two dictionaries of a model into another of the same layout
    makes it the same. *)
Class PolicyModelLaws (M S : Type) `{PolicyModel M S} := {
  same_layout : M -> M -> Prop;
  load_states : forall m m', same_layout m m' -> exists m1,
    load_trainable_state_dict (trainable_state_dict m) m' = (m1, Ok tt)
    /\ load_frozen_state_dict (frozen_state_dict m) m1 = (m, Ok tt) }.

Section Artifacts.
Context {M S : Type} `{PolicyModel M S} `{!Torch.TensorOps} `{!RowOps} {A D : Type} `{!EqDecision D} (isfinite : A -> bool).
#[local] Notation engram_state := (engram_state (A := A) (D := D)).
#[local] Notation delta := (delta (A := A) (D := D)).

(** A policy: its weights, its trainable Engram rows, the adapter it was built
    with and the SFT checkpoint it started from; [None] is [PNone]. *)
Record policy_model := { core : M; engram : option engram_state; lora_metadata : option pyval; initial_sft_identity : pyval }.

Definition set_core (m : M) (p : policy_model) : policy_model :=
  {| core := m; engram := engram p; lora_metadata := lora_metadata p; initial_sft_identity := initial_sft_identity p |}.
Definition set_engram (e : engram_state) (p : policy_model) : policy_model :=
  {| core := core p; engram := Some e; lora_metadata := lora_metadata p; initial_sft_identity := initial_sft_identity p |}.

(** Running a method of a part of the policy. *)
Definition on_core (f : stateful M unit) : stateful policy_model unit := fun p => let '(m, r) := f (core p) in (set_core m p, r).
Definition on_engram (f : stateful engram_state unit) : stateful policy_model unit := fun p =>
  match engram p with Some e => let '(e, r) := f e in (set_engram e p, r) | None => (p, Ok tt) end.

(** ** [policy_state] and [load_policy] *)

Record policy_state := {
  trainable : S; frozen : S; adapter : option (Z * pyval); engram_delta : option delta; initial_sft_checkpoint : option pyval }.

Definition state_of (p : policy_model) : policy_state :=
  {| trainable := trainable_state_dict (core p); frozen := frozen_state_dict (core p);
     adapter := (fun m => (1, m)) <$> lora_metadata p;
     engram_delta := EngramState.state_dict <$> engram p;
     initial_sft_checkpoint := if is_none (initial_sft_identity p) then None else Some (initial_sft_identity p) |}.

(** The check of a LoRA policy: a state with an SFT identity has a key that is
    not allowed there. *)
Definition adapter_matches (s : policy_state) (p : policy_model) : bool :=
  match adapter s, lora_metadata p with
  | Some (format, a), Some m => (format =? 1) && py_eqb a m && bool_decide (initial_sft_checkpoint s = None)
  | _, _ => false
  end.

Definition load_policy (s : policy_state) : stateful policy_model unit :=
  reading (fun p =>
    raise_when negb (py_eqb (default PNone (initial_sft_checkpoint s)) (initial_sft_identity p)) with_exn
      ValueError "policy initial SFT checkpoint identity differs";
    raise_when negb (Bool.eqb (bool_decide (is_Some (engram p))) (bool_decide (is_Some (engram_delta s)))) with_exn
      ValueError "policy Engram delta presence differs from the configured baseline";
    do computing match engram p, engram_delta s with Some e, Some d => EngramState.validate isfinite d e | _, _ => Ok tt end;
    let adapted := bool_decide (is_Some (lora_metadata p)) || bool_decide (is_Some (adapter s)) in
    raise_when adapted && negb (adapter_matches s p) with_exn ValueError "LoRA policy configuration or initial adapter identity differs";
    raise_when adapted && negb (state_empty (frozen s)) with_exn ValueError "LoRA policy artifacts must not include frozen base weights";
    do on_core (load_trainable_state_dict (trainable s));
    do on_core (load_frozen_state_dict (frozen s));
    do match engram_delta s with Some d => on_engram (EngramState.load_state_dict isfinite d) | None => returning tt end;
    reading (fun p => computing (assert_invariants (core p)))).

(** ** Publication and activation *)

Record payload := { p_version : pyval; p_lineage : pyval; p_identity : pyval; p_sampling : pyval; p_state : policy_state }.
Record artifact := { a_version : pyval; a_digest : pyval; a_path : string; a_lineage : pyval; a_identity : pyval; a_sampling : pyval }.

(** Files are a map from absolute path to content.  [torch.save] and [torch.load(weights_only=True)], and SHA-256. *)
Context (serialize : payload -> string) (deserialize : string -> res payload) (sha256_hex : string -> string).

Definition file_sha256 (path : string) (fs : gmap string string) : res string :=
  match fs !! path with Some bytes => Ok (sha256_hex bytes) | None => Err (OSError ("No such file: " +:+ path)) end.

(** [f"{version:08d}"] *)
Definition zero_padded (v : Z) : string :=
  let t := pretty v in String.concat "" (replicate (8 - String.length t) "0") +:+ t.
Definition artifact_path (directory : string) (v : Z) (digest : string) : string :=
  directory +:+ "/policy-" +:+ zero_padded v +:+ "-" +:+ digest +:+ ".pt".

Definition identity_get (k : string) (v : pyval) : pyval := match v with PDict d => get_none k d | _ => PNone end.

Definition publish_policy_artifact (p : policy_model) (version lineage identity sampling : pyval) (directory : string) : stateful (gmap string string) artifact :=
  match version, lineage with
  | PInt v, PStr l =>
      raise_when (v <? 0) || bool_decide (l = "") with_exn ValueError "policy artifact requires a nonnegative version and run lineage";
      raise_when match lora_metadata p with Some m => negb (py_eqb (identity_get "lora" identity) m) | None => false end with_exn
        ValueError "policy publication LoRA identity differs from loaded model";
      raise_when negb (py_eqb (identity_get "initial_sft_checkpoint" identity) (initial_sft_identity p)) with_exn
        ValueError "policy publication initial SFT checkpoint identity differs";
      let staged := serialize {| p_version := version; p_lineage := lineage; p_identity := identity; p_sampling := sampling; p_state := state_of p |} in
      let digest := sha256_hex staged in
      let destination := artifact_path directory v digest in
      do reading (fun fs => match fs !! destination with
        | None => changing (<[destination := staged]>)
        | Some existing => computing (raise_if (negb (bool_decide (sha256_hex existing = digest))) (ValueError "existing policy artifact digest mismatch"))
        end);
      returning {| a_version := version; a_digest := PStr digest; a_path := destination; a_lineage := lineage; a_identity := identity; a_sampling := sampling |}
  | _, _ => raising (ValueError "policy artifact requires a nonnegative version and run lineage")
  end.

Definition same_metadata (s : payload) (a : artifact) : res unit :=
  if negb (py_eqb (p_version s) (a_version a)) then Err (ValueError "policy artifact metadata mismatch: version")
  else if negb (py_eqb (p_lineage s) (a_lineage a)) then Err (ValueError "policy artifact metadata mismatch: lineage")
  else if negb (py_eqb (p_identity s) (a_identity a)) then Err (ValueError "policy artifact metadata mismatch: identity")
  else if negb (py_eqb (p_sampling s) (a_sampling a)) then Err (ValueError "policy artifact metadata mismatch: sampling")
  else Ok tt.

Definition acknowledgement (a : artifact) : pyval :=
  PDict [("version", a_version a); ("digest", a_digest a); ("lineage", a_lineage a)].

Definition load_policy_artifact (fs : gmap string string) (a : artifact) : stateful policy_model pyval :=
  match a_digest a with
  | PStr digest =>
      raise_when negb (String.length digest =? 64)%nat with_exn ValueError "policy artifact digest mismatch";
      actual <~ computing (file_sha256 (a_path a) fs);
      raise_when negb (bool_decide (actual = digest)) with_exn ValueError "policy artifact digest mismatch";
      snapshot <~ computing (deserialize (default "" (fs !! a_path a)));
      do computing (same_metadata snapshot a);
      do load_policy (p_state snapshot);
      returning (acknowledgement a)
  | _ => raising (ValueError "policy artifact digest mismatch")
  end.
End Artifacts.

(** ** The DeepSeek policy's partitions ([_partition], [_load_partition]) *)

Section Partitions.
Context {T : Type} (shape : T -> list Z).

(** A named tensor: whether it is a parameter and wants gradients; a buffer's
    tensors of Engram tables and placements are in neither dictionary. *)
Record named_tensor := { is_parameter : bool; wants_grad : bool; value : T }.
Record partitioned := { tensors : gmap string named_tensor; lora_scope : bool }.

Definition is_placement (name : string) : bool :=
  bool_decide (String.substring (String.length name - 10) 10 name = ".placement").
Definition is_engram (name : string) : bool := contains ".engram_tables." name.

(** [_partition(trainable, include_engram=False)]; [private] says that the model
    has an [engram_state]. *)
Definition in_partition (private trainable : bool) (name : string) (t : named_tensor) : bool :=
  if is_parameter t then Bool.eqb (wants_grad t) trainable && negb (private && is_engram name)
  else negb trainable && negb (is_placement name) && negb (is_engram name).

Definition partition (private trainable : bool) (m : partitioned) : gmap string named_tensor :=
  filter (fun nt => in_partition private trainable nt.1 nt.2 = true) (tensors m).

Definition partition_values (private trainable : bool) (m : partitioned) : gmap string T := value <$> partition private trainable m.

(** Keys, then shapes, then every copy. *)
Definition load_partition (private trainable : bool) (s : gmap string T) : stateful partitioned unit :=
  reading (fun m =>
    let destinations := partition private trainable m in
    raise_when negb (bool_decide ((dom s : gset string) = dom destinations)) with_exn ValueError "DeepSeek policy state keys do not match";
    raise_when negb (bool_decide (map_Forall (fun name t => shape <$> s !! name = Some (shape (value t))) destinations)) with_exn
      ValueError "DeepSeek policy tensor shape mismatch";
    changing (fun m => {| lora_scope := lora_scope m; tensors := map_imap (fun name t =>
      Some (if in_partition private trainable name t
            then {| is_parameter := is_parameter t; wants_grad := wants_grad t; value := default (value t) (s !! name) |} else t)) (tensors m) |})).

(** The checks of [assert_engram_invariants] concern devices and versions of
    tensors; none of the methods here breaks them. *)
#[local] Instance partitioned_model (private : bool) : PolicyModel partitioned (gmap string T) := {
  trainable_state_dict m := partition_values private true m;
  frozen_state_dict m := if lora_scope m then ∅ else partition_values private false m;
  state_empty s := bool_decide (s = ∅);
  load_trainable_state_dict s := load_partition private true s;
  load_frozen_state_dict s := reading (fun m =>
    if lora_scope m
    then computing (raise_if (negb (bool_decide (dom s = (∅ : gset string)))) (ValueError "LoRA frozen weights reconstruct from the identified base"))
    else load_partition private false s);
  assert_invariants _ := Ok tt }.
End Partitions.
