(* ===== verification/PolicyArtifactResults.v ===== *)
(** * A published policy activates as published *)

From stdpp Require Import pretty.
From S2P Require Import Prelude StateRes PyValue Training GenerationFailure Torch EngramCache EngramState EngramStateResults PolicyArtifact TrainingProofs.
From S2P Require EngramCacheResults.
Local Open Scope Z_scope.

(** ** The DeepSeek partitions satisfy the interface *)

Section Partitions.
Context {T : Type} (shape : T -> list Z) (private : bool).
#[local] Notation partitioned := (partitioned (T := T)).

(** Two policies of one architecture: the same names, kinds and shapes, and the
    same tensors outside what the dictionaries carry. *)
Definition carried (m : partitioned) (name : string) (t : named_tensor (T := T)) : bool :=
  in_partition private true name t || (negb (lora_scope m) && in_partition private false name t).

Definition same_architecture (m m' : partitioned) : Prop :=
  lora_scope m = lora_scope m' /\ forall name, match tensors m !! name, tensors m' !! name with
    | Some t, Some t' => is_parameter t = is_parameter t' /\ wants_grad t = wants_grad t' /\ shape (value t) = shape (value t')
        /\ (carried m name t = false -> value t = value t')
    | None, None => True
    | _, _ => False
    end.

Lemma partition_lookup trainable (m : partitioned) name : partition private trainable m !! name
  = match tensors m !! name with Some t => if in_partition private trainable name t then Some t else None | None => None end.
Proof.
  unfold partition. destruct (tensors m !! name) as [t|] eqn:E.
  - destruct (in_partition private trainable name t) eqn:Ep; [by apply map_lookup_filter_Some|].
    apply map_lookup_filter_None. right. intros x Hx. rewrite E in Hx. injection Hx as <-. cbn. by rewrite Ep.
  - apply map_lookup_filter_None. by left.
Qed.

Lemma in_partition_ext trainable name (t t' : named_tensor (T := T)) : is_parameter t = is_parameter t' -> wants_grad t = wants_grad t' ->
  in_partition private trainable name t = in_partition private trainable name t'.
Proof. unfold in_partition. by intros -> ->. Qed.

(** Loading a partition of [m] into a policy of the same architecture copies
    exactly the tensors of the partition. *)
Lemma load_partition_spec trainable m m' : same_architecture m m' -> exists m1,
  load_partition shape private trainable (partition_values private trainable m) m' = (m1, Ok tt) /\ lora_scope m1 = lora_scope m'
  /\ forall name, tensors m1 !! name = match tensors m !! name, tensors m' !! name with
       | Some t, Some t' => Some (if in_partition private trainable name t then t else t')
       | _, o => o
       end.
Proof.
  intros [Hscope Hall]. unfold load_partition, reading. set (destinations := partition private trainable m').
  assert (forall name, match partition private trainable m !! name, destinations !! name with
    | Some t, Some t' => shape (value t) = shape (value t') | None, None => True | _, _ => False end) as Hd.
  { intros name. unfold destinations. rewrite !partition_lookup. specialize (Hall name).
    destruct (tensors m !! name) as [t|], (tensors m' !! name) as [t'|]; try done. destruct Hall as (H1 & H2 & H3 & _).
    rewrite (in_partition_ext trainable name t t') by done. by destruct (in_partition private trainable name t'). }
  rewrite bool_decide_eq_true_2; [|].
  2: { unfold partition_values. rewrite dom_fmap_L. apply set_eq. intros name. rewrite !elem_of_dom. specialize (Hd name).
       destruct (partition private trainable m !! name), (destinations !! name); try done; split; intros [? ?]; eauto; done. }
  rewrite bool_decide_eq_true_2; [|].
  2: { intros name t Ht. unfold partition_values. rewrite lookup_fmap. specialize (Hd name). rewrite Ht in Hd.
       destruct (partition private trainable m !! name); [|done]. cbn. by rewrite Hd. }
  cbn [negb]. eexists. split; [reflexivity|]. split; [done|]. intros name. cbn [tensors]. rewrite map_lookup_imap.
  unfold partition_values. rewrite lookup_fmap, partition_lookup. specialize (Hall name).
  destruct (tensors m !! name) as [t|], (tensors m' !! name) as [t'|]; try done. cbn. f_equal. destruct Hall as (H1 & H2 & _ & _).
  rewrite (in_partition_ext trainable name t' t) by done. destruct (in_partition private trainable name t); [|done]. cbn.
  destruct t as [p g v], t' as [p' g' v']. cbn in *. by subst.
Qed.

#[local] Existing Instance partitioned_model.

Lemma partitions_load m m' : same_architecture m m' -> exists m1,
  load_trainable_state_dict (PolicyModel := partitioned_model shape private) (trainable_state_dict (PolicyModel := partitioned_model shape private) m) m' = (m1, Ok tt)
  /\ load_frozen_state_dict (PolicyModel := partitioned_model shape private) (frozen_state_dict (PolicyModel := partitioned_model shape private) m) m1 = (m, Ok tt).
Proof.
  intros Hm. destruct (load_partition_spec true m m' Hm) as (m1 & Hl1 & Hs1 & Ht1).
  exists m1. split; [exact Hl1|]. assert (same_architecture m m1) as Hm1.
  { destruct Hm as [Hscope Hall]. split; [by rewrite Hs1|]. intros name. rewrite Ht1. specialize (Hall name).
    destruct (tensors m !! name) as [t|], (tensors m' !! name) as [t'|]; try done. destruct (in_partition private true name t); done. }
  destruct Hm as [Hscope Hall]. cbn [load_frozen_state_dict frozen_state_dict partitioned_model]. unfold reading. rewrite Hs1, <- Hscope.
  assert (forall m2, lora_scope m2 = lora_scope m -> (forall name, tensors m2 !! name = tensors m !! name) -> m2 = m) as Heq.
  { intros [t2 l2] Hl Ht. destruct m as [tm lm]. cbn in *. subst. f_equal. by apply map_eq. }
  destruct (lora_scope m) eqn:El.
  - unfold computing. rewrite bool_decide_eq_true_2 by done. cbn. f_equal. apply Heq; [congruence|]. intros name. rewrite Ht1.
    specialize (Hall name). destruct (tensors m !! name) as [t|], (tensors m' !! name) as [t'|]; try done. destruct Hall as (H1 & H2 & _ & H3).
    unfold carried in H3. rewrite El in H3. destruct (in_partition private true name t) eqn:Ep; [done|]. f_equal.
    destruct t, t'. cbn in *. by rewrite H1, H2, H3.
  - destruct (load_partition_spec false m m1 Hm1) as (m2 & -> & Hs2 & Ht2). f_equal. apply Heq; [congruence|]. intros name. rewrite Ht2, Ht1.
    specialize (Hall name). destruct (tensors m !! name) as [t|], (tensors m' !! name) as [t'|]; try done. destruct Hall as (H1 & H2 & _ & H3).
    unfold carried in H3. rewrite El in H3. destruct (in_partition private true name t) eqn:Ep1; [by destruct (in_partition private false name t)|].
    destruct (in_partition private false name t) eqn:Ep2; [done|]. f_equal. destruct t, t'. cbn in *. by rewrite H1, H2, H3.
Qed.

#[local] Instance partitioned_laws : PolicyModelLaws partitioned (gmap string T) (H := partitioned_model shape private) :=
  {| same_layout := same_architecture; load_states := partitions_load |}.
End Partitions.

(** ** Loading what was published *)

Section Publication.
Context {M S : Type} `{PolicyModelLaws M S} `{TensorLaws} `{RowLaws} {A D : Type} `{!EqDecision D} (isfinite : A -> bool).
Context (serialize : payload (S := S) (A := A) (D := D) -> string) (deserialize : string -> res (payload (S := S) (A := A) (D := D)))
  (sha256_hex : string -> string).
#[local] Notation policy_model := (policy_model (M := M) (A := A) (D := D)).

(** A value that compares equal to itself: no NaN inside. *)
Definition self_equal (v : pyval) : Prop := py_eqb v v = true.

(** A consumer of the same model as the publisher, whatever its weights. *)
Definition engrams_match (e f : option (engram_state (A := A) (D := D))) : Prop :=
  match e, f with
  | None, None => True
  | Some e, Some f => exists b, baseline_ok b /\ coherent b e /\ keyed b e /\ coherent b f /\ keyed b f /\ state_role f <> Reference
      /\ forall name r, delta_tables (state_dict e) !! name = Some r -> forallb isfinite (values r) = true
  | _, _ => False
  end.
Definition consumer_of (p q : policy_model) : Prop :=
  same_layout (core p) (core q) /\ lora_metadata q = lora_metadata p /\ initial_sft_identity q = initial_sft_identity p
  /\ engrams_match (engram p) (engram q).

(** What the configuration guarantees of a publisher. *)
Definition publisher (p : policy_model) : Prop :=
  assert_invariants (core p) = Ok tt /\ self_equal (initial_sft_identity p)
  /\ match lora_metadata p with
     | Some m => self_equal m /\ initial_sft_identity p = PNone /\ state_empty (frozen_state_dict (core p)) = true
     | None => True
     end.

Lemma sft_of_state (p : policy_model) : default PNone (initial_sft_checkpoint (state_of p)) = initial_sft_identity p.
Proof. unfold state_of. cbn. by destruct (initial_sft_identity p). Qed.

Lemma load_engram (e f : engram_state (A := A) (D := D)) : engrams_match (Some e) (Some f) -> validate isfinite (state_dict e) f = Ok tt
  /\ exists f', EngramState.load_state_dict isfinite (state_dict e) f = (f', Ok tt) /\ rows_of f' = rows_of e.
Proof.
  intros (b & Hb & Hce & Hke & Hcf & Hkf & Hr & Hfin). pose proof (state_dict_describes b e Hb Hce Hke) as Hd.
  pose proof (describes_valid isfinite b _ _ f Hb Hd (proj1 Hcf) Hr Hfin) as Hv. split; [done|].
  pose proof (load_exact isfinite b _ _ f Hb Hd Hcf Hkf) as Hl. destruct (EngramState.load_state_dict isfinite (state_dict e) f) as [f' [[]|err]].
  - exists f'. split; [done|]. apply Hl.
  - destruct Hl as [_ E]. congruence.
Qed.

Lemma load_policy_state (p q : policy_model) : publisher p -> consumer_of p q -> exists q', load_policy isfinite (state_of p) q = (q', Ok tt)
  /\ core q' = core p /\ (rows_of <$> engram q') = (rows_of <$> engram p).
Proof.
  intros (Hinv & Hsft & Hlora) (Hlay & Hmeta & Hid & Heng). unfold load_policy, reading. rewrite sft_of_state, Hid. unfold self_equal in Hsft. rewrite Hsft.
  cbn [negb]. destruct (load_states (core p) (core q) Hlay) as (m1 & Hl1 & Hl2).
  assert (Bool.eqb (bool_decide (is_Some (engram q))) (bool_decide (is_Some (engram_delta (state_of p)))) = true) as ->.
  { cbn. destruct (engram p), (engram q); try done; unfold engrams_match in Heng; cbn; by rewrite ?bool_decide_eq_true_2 by eauto. }
  cbn [negb]. assert (match engram q, engram_delta (state_of p) with Some e, Some d => validate isfinite d e | _, _ => Ok tt end = Ok tt) as ->.
  { cbn. destruct (engram p) as [e|], (engram q) as [f|]; try done. by apply load_engram. }
  unfold sequence at 1, computing at 1. rewrite Hmeta.
  set (adapted := bool_decide (is_Some (lora_metadata p)) || bool_decide (is_Some (adapter (state_of p)))).
  assert (adapted && negb (adapter_matches (state_of p) q) = false) as ->.
  { unfold adapted, adapter_matches. cbn. rewrite Hmeta. destruct (lora_metadata p) as [m|]; [|done]. cbn. destruct Hlora as (Hm & -> & _).
    unfold self_equal in Hm. by rewrite Hm. }
  assert (adapted && negb (state_empty (frozen (state_of p))) = false) as ->.
  { unfold adapted. cbn. destruct (lora_metadata p) as [m|]; [|done]. destruct Hlora as (_ & _ & ->). apply andb_false_r. }
  cbn [trainable frozen state_of engram_delta]. unfold sequence at 1, on_core at 1. rewrite Hl1. unfold sequence at 1, on_core at 1. cbn [core set_core].
  rewrite Hl2. destruct (engram p) as [e|], (engram q) as [f|] eqn:Ef; cbn [fmap option_fmap option_map]; try done.
  - destruct (load_engram e f Heng) as (_ & f' & Hf & Hrows). unfold sequence, on_engram, computing. cbn [engram set_core]. rewrite Ef, Hf. cbn.
    rewrite Hinv. eexists. split; [reflexivity|]. cbn. by rewrite Hrows.
  - unfold sequence, returning, computing. cbn. rewrite Hinv. eexists. split; [reflexivity|]. cbn. by rewrite Ef.
Qed.
End Publication.

(** C4. Publishing a policy overwrites no file.  As long as the artifact's file
    stays, any consumer of the same model, whatever it held, activates exactly
    the published weights and Engram rows and acknowledges the version, digest
    and lineage; if the file's bytes change, it refuses and keeps what it had. *)
Theorem artifact_activates {M S : Type} `{PolicyModelLaws M S} `{TensorLaws} `{RowLaws} {A D : Type} `{!EqDecision D} (isfinite : A -> bool)
    serialize deserialize sha256_hex (p : policy_model (M := M) (A := A) (D := D)) version lineage identity sampling directory fs fs' a :
  let content := {| p_version := version; p_lineage := lineage; p_identity := identity; p_sampling := sampling; p_state := state_of p |} in
  let staged := serialize content in
  deserialize staged = Ok content -> (forall x, String.length (sha256_hex x) = 64%nat) ->
  (forall x, sha256_hex x = sha256_hex staged -> x = staged) ->
  publisher p -> self_equal identity -> self_equal sampling ->
  publish_policy_artifact serialize sha256_hex p version lineage identity sampling directory fs = (fs', Ok a) ->
  fs ⊆ fs'
  /\ (forall q fs2, consumer_of isfinite p q -> fs' ⊆ fs2 ->
       exists q', load_policy_artifact isfinite deserialize sha256_hex fs2 a q = (q', Ok (PDict [("version", version); ("digest", PStr (sha256_hex staged)); ("lineage", lineage)]))
         /\ core q' = core p /\ rows_of <$> engram q' = rows_of <$> engram p)
  /\ (forall q fs2 bytes, fs2 !! a_path a = Some bytes -> bytes <> staged ->
       load_policy_artifact isfinite deserialize sha256_hex fs2 a q = (q, Err (ValueError "policy artifact digest mismatch"))).
Proof.
  intros content staged Hds Hlen Hcoll Hp Hi Hs Hpub. unfold publish_policy_artifact in Hpub. destruct version as [| |v| | | |]; try done.
  destruct lineage as [| | | |l| |]; try done. destruct (_ || _); [done|]. destruct (match lora_metadata p with Some _ => _ | None => _ end); [done|].
  destruct (negb _); [done|]. fold content in Hpub. fold staged in Hpub. unfold sequence at 1, reading in Hpub. set (path := artifact_path _ _ _) in Hpub.
  assert (fs ⊆ fs' /\ fs' !! path = Some staged /\ a = {| a_version := PInt v; a_digest := PStr (sha256_hex staged); a_path := path;
      a_lineage := PStr l; a_identity := identity; a_sampling := sampling |}) as (Hsub & Hfile & ->).
  { destruct (fs !! path) as [bytes|] eqn:Ef.
    - unfold computing, raise_if, returning in Hpub. destruct (negb (bool_decide (sha256_hex bytes = sha256_hex staged))) eqn:E; [done|].
      injection Hpub as <- <-. apply negb_false_iff, bool_decide_eq_true in E. apply Hcoll in E. subst bytes. done.
    - unfold changing, returning in Hpub. injection Hpub as <- <-. split; [by apply insert_subseteq|]. split; [by rewrite lookup_insert_eq|done]. }
  split; [done|]. cbn [a_path]. split.
  - intros q fs2 Hq Hsub2. assert (fs2 !! path = Some staged) as Hf2 by (by eapply lookup_weaken). unfold load_policy_artifact. cbn [a_digest].
    rewrite Hlen. cbn [Nat.eqb negb]. unfold sequence at 1, computing at 1, file_sha256. cbn [a_path]. rewrite Hf2, bool_decide_eq_true_2 by done.
    cbn [negb]. unfold sequence at 1, computing at 1. cbn [default]. unfold id at 1. rewrite Hds. unfold sequence at 1, computing at 1, same_metadata, content.
    cbn [p_version p_lineage p_identity p_sampling a_version a_lineage a_identity a_sampling]. unfold self_equal in Hi, Hs. rewrite Hi, Hs. cbn [py_eqb number fval_eqb negb].
    rewrite Z.eqb_refl, bool_decide_eq_true_2 by done. cbn [negb].
    destruct (load_policy_state isfinite p q Hp Hq) as (q' & Hload & Hcore & Hrows). unfold sequence at 1. cbn [p_state]. rewrite Hload.
    exists q'. split; [done|]. done.
  - intros q fs2 bytes Hb Hne. unfold load_policy_artifact. cbn [a_digest]. rewrite Hlen. cbn [Nat.eqb negb]. unfold sequence at 1, computing at 1, file_sha256.
    cbn [a_path]. rewrite Hb, bool_decide_eq_false_2; [done|]. intros E. by apply Hne, Hcoll.
Qed.

(** ** Witness: one parameter, one frozen buffer, an Engram table *)

#[local] Existing Instance partitioned_model.
#[local] Existing Instance partitioned_laws.
#[local] Existing Instance EngramCacheResults.list_row_ops.
#[local] Existing Instance EngramCacheResults.list_row_laws.

Definition scalar (x : Z) : list Z := [].
Definition small_core (x y : Z) : partitioned (T := Z) :=
  {| tensors := {["head" := {| is_parameter := true; wants_grad := true; value := x |};
                  "norm" := {| is_parameter := false; wants_grad := false; value := y |};
                  "device.placement" := {| is_parameter := false; wants_grad := false; value := 0 |}]}; lora_scope := false |}.
Definition small_policy (x y : Z) (e : engram_state (A := Z) (D := nat)) : policy_model (M := partitioned (T := Z)) (A := Z) (D := nat) :=
  {| core := small_core x y; engram := Some e; lora_metadata := None; initial_sft_identity := PNone |}.
Definition trained : engram_state (A := Z) (D := nat) :=
  (train_step {["0" := [3; 1]]} (fun _ _ row => row * 2) (new_state small_base Learner true)).1.
Definition small_content : payload (S := gmap string Z) (A := Z) (D := nat) :=
  {| p_version := PInt 1; p_lineage := PStr "run"; p_identity := PDict [("seed", PInt 1)]; p_sampling := PDict [];
     p_state := state_of (M := partitioned (T := Z)) (H := partitioned_model scalar true) (H0 := list_ops) (small_policy 5 7 trained) |}.
Definition small_serialize (x : payload (S := gmap string Z) (A := Z) (D := nat)) : string := "saved".
Definition small_deserialize (s : string) : res (payload (S := gmap string Z) (A := Z) (D := nat)) :=
  if bool_decide (s = "saved") then Ok small_content else Err (ValueError "not a checkpoint").
Definition small_sha (s : string) : string := if bool_decide (s = "saved") then zeros64 else "1" +:+ String.substring 1 63 zeros64.

Lemma artifact_activates_witness : exists fs' a q',
  publish_policy_artifact (H := partitioned_model scalar true) (H0 := list_ops) small_serialize small_sha (small_policy 5 7 trained)
    (PInt 1) (PStr "run") (PDict [("seed", PInt 1)]) (PDict []) "/policies" ∅ = (fs', Ok a)
  /\ load_policy_artifact (H := partitioned_model scalar true) (H0 := list_ops) (fun _ => true) small_deserialize small_sha fs' a
       (small_policy 1 2 (new_state small_base Actor false)) = (q', Ok (PDict [("version", PInt 1); ("digest", PStr zeros64); ("lineage", PStr "run")]))
  /\ core q' = small_core 5 7 /\ (fun e => rows_of e !! "0") <$> engram q' = Some (Some [10; 22; 12; 26]).
Proof.
  destruct (publish_policy_artifact (H := partitioned_model scalar true) (H0 := list_ops) small_serialize small_sha (small_policy 5 7 trained)
    (PInt 1) (PStr "run") (PDict [("seed", PInt 1)]) (PDict []) "/policies" ∅) as [fs' [a|e]] eqn:E; [|by vm_compute in E].
  assert (baseline_ok small_base) as Hb.
  { split; [apply (bool_decide_unpack _); vm_compute; exact I|]. split; [|split; done].
    intros name rows width Hin. repeat (apply elem_of_cons in Hin as [[= -> -> ->]|Hin]; [vm_compute; reflexivity|]). by apply elem_of_nil in Hin. }
  destruct (artifact_activates (H := partitioned_model scalar true) (H0 := partitioned_laws scalar true) (H1 := list_ops) (H2 := list_laws)
    (fun _ => true) small_serialize small_deserialize small_sha
    (small_policy 5 7 trained) (PInt 1) (PStr "run") (PDict [("seed", PInt 1)]) (PDict []) "/policies" ∅ fs' a) as (_ & Hload & _); try done.
  - intros x. unfold small_sha. by case_bool_decide.
  - intros x. unfold small_sha. case_bool_decide; [by subst|]. vm_compute. done.
  - destruct (Hload (small_policy 1 2 (new_state small_base Actor false)) fs') as (q' & Hq & Hc & Hrows).
    + split; [|split; [done|split; [done|]]].
      * split; [done|]. intros name. cbn [core small_policy small_core tensors].
        destruct (decide (name = "head")) as [->|H1]; [by vm_compute|]. destruct (decide (name = "norm")) as [->|H2]; [by vm_compute|].
        rewrite !lookup_insert_ne by done. destruct (decide (name = "device.placement")) as [->|H3]; [by vm_compute|].
        by rewrite !lookup_singleton_ne.
      * cbn. destruct (new_state_ok small_base Learner true Hb) as (Hc & Hk & _). destruct (new_state_ok small_base Actor false Hb) as (Hc' & Hk' & _).
        exists small_base. assert (rows_valid small_base {["0" := [3; 1]]}) as Hv.
        { intros name rows width l Hin Hl. repeat (apply elem_of_cons in Hin as [[= -> -> ->]|Hin]); [| |by apply elem_of_nil in Hin];
            vm_compute in Hl; [injection Hl as <-; repeat constructor; lia|done]. }
        pose proof (train_ok (H := list_ops) (H0 := list_laws) small_base {["0" := [3; 1]]} (fun _ _ row => row * 2) _ Hb Hc Hk eq_refl Hv) as Ht. fold trained in Ht.
        destruct (train_step _ _ _) as [s r] eqn:Es. destruct Ht as (_ & ? & ? & _). assert (trained = s) as -> by (unfold trained; by rewrite Es).
        split; [done|]. split; [done|]. split; [done|]. split; [done|]. split; [done|]. split; [done|]. intros. by apply forallb_forall.
    + done.
    + exists fs', a, q'. split; [done|]. split; [exact Hq|]. split; [exact Hc|]. destruct (engram q') as [e'|]; [|done]. cbn in Hrows |- *.
      injection Hrows as ->. vm_compute. reflexivity.
Defined.
