(* ===== verification/PolicyController.v ===== *)
(** * The serving controller ([rollout_manager/backends/pytorch_controller.py])

    [PyTorchPolicyController] serves one policy to many generation threads and
    replaces it only while no sampler runs.  Control methods hold one lock; a
    generation is admitted, samples under the sampler lock and ends.  A run is
    any interleaving of their critical sections, each an [action]; a section
    that would block is not enabled.  Only the uncached sampler is modelled, and
    no diagnostics directory; the stages that label an error are left out. *)

From S2P Require Import Prelude StateRes PyValue Training GenerationFailure GenerationContract PromptData Torch EngramCache EngramState PolicyArtifact.
From S2P Require Generate.
Local Open Scope Z_scope.
Local Open Scope py_scope.

Inductive controller_state := New | Loading | Running | Paused | Failed | Closed.
#[export] Instance controller_state_eq_dec : EqDecision controller_state.
Proof. solve_decision. Defined.

(** What the controller reads of its configuration and tokenizer files. *)
Record settings := {
  served_model : string;
  config_temperature : pyval;
  max_new_tokens : Z;
  max_prompt_tokens : option Z;
  max_position_embeddings : Z;
  trainable_scope : pyval;
  serving_identities : pydict;
  eos_token_ids : pyval;
  stop_token_sequences : list pyval;
  truncated_reward : option pyfloat }.

(** The mounted model directory when an artifact is checked. *)
Record mounted := {
  model_config_sha256 : string;
  base_files : list pyval;
  text_assets : pyval;
  mounted_tokenizer : string;
  mounted_template : string }.

Section Controller.
Context {M S : Type} `{PolicyModel M S} `{!TensorOps} `{!RowOps} {A D : Type} `{!EqDecision D} (isfinite : A -> bool).
Context (float_repr : Z -> string) (sha256_hex : string -> string) (deserialize : string -> res (payload (S := S) (A := A) (D := D))).
(** The tokenizer, [json.loads], and the model's part of sampling. *)
Context (encode_conversation : pyval -> pyval -> pyval -> res (list Z)) (decode : list Z -> res string) (json_loads : string -> res pyval).
Context {G L : Type} (next_logits : policy_model (M := M) (A := A) (D := D) -> list Z -> res L) (vocabulary : L -> Z) (log_softmax : L -> list pyfloat)
  (multinomial : G -> list pyfloat -> Z * G).
Context (cfg : settings).
#[local] Notation policy_model := (policy_model (M := M) (A := A) (D := D)).
#[local] Notation evidence_digest := (evidence_digest sha256_hex).

(** ** Policies and capabilities *)

(** [artifact_policy] of [benchmark_training.py]. *)
Definition artifact_policy (a : artifact) : res PolicyRef :=
  identity <-? json_dumps (a_identity a);
  new_policy float_repr (a_version a) (a_digest a) (a_lineage a)
    (PDict (dict_set "run_identity_sha256" (PStr (sha256_hex identity)) (serving_identities cfg))) (a_sampling a).

(** [_capabilities] *)
Definition capabilities_of (p : PolicyRef) : pyval :=
  PDict (("schema_version", PInt 1) :: ("policy", policy_to_dict float_repr p) :: map (fun name => (name, PBool true)) REQUIRED
         ++ [("logprob_convention", PStr "sampled_distribution")]).

(** [_check_artifact]: the policy it gives, or the refusal. *)
Definition check_artifact (m : mounted) (current : option (PolicyRef * artifact)) (a : artifact) : res PolicyRef :=
  candidate <-? artifact_policy a;
  raise_when negb (py_eqb (sampling_dict float_repr candidate) (PDict [("temperature", config_temperature cfg); ("top_p", PInt 1); ("top_k", PInt 0)]))
    with_exn ValueError "artifact sampling differs from the controller";
  match a_identity a with
  | PDict identity =>
      raise_when negb (py_eqb (get_none "qwen_logits_path" identity) (get_none "qwen_logits_path" (serving_identities cfg))) with_exn
        ValueError "artifact differs from the selected Qwen logits profile";
      raise_when negb (py_eqb (get_none "qwen_sampling_path" identity) (get_none "qwen_sampling_path" (serving_identities cfg))) with_exn
        ValueError "artifact differs from the selected Qwen sampling profile";
      raise_when negb (is_false (get_none "random_init" identity) && py_eqb (get_none "trainable_scope" identity) (trainable_scope cfg)
                       && is_str (get_none "model_config_sha256" identity) (model_config_sha256 m)) with_exn
        ValueError "artifact differs from the mounted pretrained configuration or trainable scope";
      raise_when bool_decide (base_files m = []) || negb (py_eqb (get_none "base_files" identity) (PList (base_files m))) with_exn
        ValueError "artifact mounted base-file inventory differs";
      tokenizer <-? match get_or "engram_mapping_sha256" (PDict []) identity with
                    | PDict d => Ok (get_none "tokenizer.json" d)
                    | _ => Err (AttributeError "get")
                    end;
      raise_when negb (py_eqb tokenizer (get_none "tokenizer_sha256" (serving_identities cfg)))
                 || negb (py_eqb (get_or "text_assets_sha256" (PDict []) identity) (text_assets m)) with_exn
        ValueError "artifact tokenizer, chat template or generation metadata differs";
      raise_when negb (is_str (get_none "tokenizer_sha256" (serving_identities cfg)) (mounted_tokenizer m)
                       && is_str (get_none "chat_template_sha256" (serving_identities cfg)) (mounted_template m)) with_exn
        ValueError "mounted tokenizer or selected chat template changed";
      raise_when match current with
                 | Some (p, active) => negb (bool_decide (Training.lineage candidate = Training.lineage p)) || (Training.version candidate <=? Training.version p)
                     || negb (py_eqb (PDict identity) (a_identity active)) || negb (py_eqb (PDict (Training.identities candidate)) (PDict (Training.identities p)))
                 | None => false
                 end with_exn ValueError "activation requires a newer same-lineage policy with identical base identity";
      Ok candidate
  | _ => Err (AttributeError "get")
  end.

(** ** A generation's request *)

Definition SHELL_PARAMETERS : pyval :=
  PDict [("type", PStr "object"); ("properties", PDict [("cmd", PDict [("type", PStr "string")])]); ("required", PList [PStr "cmd"]);
         ("additionalProperties", PBool false)].
Definition PAYLOAD_KEYS : list string :=
  ["model"; "messages"; "tools"; "tool_choice"; "parallel_tool_calls"; "chat_template_kwargs"; "stream"; "temperature"; "max_tokens"; "top_p"; "top_k"; "n"].

Definition shell_tool (v : pyval) : bool :=
  match v with
  | PDict tool => same_keys tool ["type"; "function"] && is_str (get_none "type" tool) "function"
      && match get_none "function" tool with
         | PDict f => is_str (get_none "name" f) "shell" && py_eqb (get_none "parameters" f) SHELL_PARAMETERS
         | _ => false
         end
  | _ => false
  end.

(** [_context] *)
Definition context (payload : pyval) (p : PolicyRef) : res (list Z) :=
  c <-? new_contract float_repr (Leased p) (capabilities_of p);
  _ <-? check_payload float_repr sha256_hex c payload;
  match payload with
  | PDict d =>
      raise_when negb (forallb (fun k => bool_decide (k ∈ PAYLOAD_KEYS)) (dict_keys d) && is_str (get_none "model" d) (served_model cfg)
                       && is_str (get_none "tool_choice" d) "auto" && is_false (get_none "parallel_tool_calls" d)
                       && py_eqb (get_none "chat_template_kwargs" d) (PDict [("enable_thinking", PBool false)])) with_exn
        ValueError "unsupported benchmark generation payload";
      match get_none "tools" d with
      | PList [tool] =>
          raise_when negb (shell_tool tool) with_exn ValueError "unsupported shell tool schema";
          prompt <-? encode_conversation (get_none "messages" d) (PList [tool]) (get_none "chat_template_kwargs" d);
          raise_when match get_none "max_tokens" d with
                     | PInt budget => (max_new_tokens cfg <? budget)
                         || match max_prompt_tokens cfg with Some limit => limit <? Z.of_nat (length prompt) | None => false end
                         || (max_position_embeddings cfg <? Z.of_nat (length prompt) + budget)
                     | _ => true
                     end with_exn ValueError "request exceeds the configured action or untruncated context budget";
          Ok prompt
      | _ => Err (ValueError "exactly one shell tool schema is required")
      end
  | _ => Err (ValueError "unsupported benchmark generation payload")
  end.

(** ** Sampling and the completion *)

Definition payload_get (k : string) (v : pyval) : pyval := match v with PDict d => get_none k d | _ => PNone end.

(** The one sample of [generate_group] with a constant reward, and the
    generator's state. *)
Definition draw (w : policy_model) (payload : pyval) (prompt : list Z) (p : PolicyRef) (g : G) : res (Sample * G) :=
  r <-? Generate.generate_group (next_logits w) vocabulary log_softmax multinomial (fun _ _ => Ok (float_of_units float_repr 0)) false
    {| record_prompt := prompt; target_ids := None; metadata := [] |} (PInt 1) (payload_get "max_tokens" payload) (PFloat (Training.temperature p))
    (eos_token_ids cfg) (PInt (Training.version p)) (PInt 0) (stop_token_sequences cfg) (truncated_reward cfg) g;
  match rg_samples r.1 with s :: _ => Ok (s, r.2) | [] => Err (IndexError "list index out of range") end.

(** [Sample.content_ids] *)
Definition sample_content (s : Sample) : list Z :=
  if sample_stop_tokens s =? 0 then response_ids s else take (length (response_ids s) - Z.to_nat (sample_stop_tokens s)) (response_ids s).

Definition shell_message (text request_id : string) (truncated : bool) : res (pydict * string) :=
  match shell_completion json_loads text request_id truncated with
  | Message message finish => Ok (message, finish)
  | FormatError text _ => Err (ValueError text)
  | Raised e => Err e
  end.

(** The completion and its evidence, validated before it leaves. *)
Definition completion_of (payload : pyval) (request_id : string) (prompt : list Z) (p : PolicyRef) (s : Sample) (text : string) : res (pyval * TurnTrace) :=
  mf <-? shell_message text request_id (bool_decide (sample_finish_reason s = "length"));
  let '(message, finish) := mf in
  let completion := [("id", PStr ("chatcmpl-" +:+ request_id)); ("object", PStr "chat.completion"); ("model", PStr (served_model cfg));
    ("choices", PList [PDict [("index", PInt 0); ("message", PDict message); ("finish_reason", PStr finish)]]);
    ("usage", PDict [("prompt_tokens", PInt (Z.of_nat (length prompt))); ("completion_tokens", PInt (Z.of_nat (length (response_ids s))));
                     ("total_tokens", PInt (Z.of_nat (length prompt) + Z.of_nat (length (response_ids s))))])] in
  request_digest <-? evidence_digest payload;
  response_digest <-? evidence_digest (PDict completion);
  let evidence := [("schema_version", PInt 1); ("request_id", PStr request_id); ("request_payload_sha256", PStr request_digest);
    ("response_sha256", PStr response_digest); ("policy", policy_to_dict float_repr p); ("context_token_ids", ints (prompt_ids s));
    ("action_token_ids", ints (response_ids s)); ("behavior_log_probs", floats (sample_log_probs s));
    ("finish_reason", PStr (if bool_decide (finish = "tool_calls") then "tool_calls" else sample_finish_reason s));
    ("stop_token_count", PInt (sample_stop_tokens s)); ("context_truncation", PStr "none"); ("logprob_convention", PStr "sampled_distribution");
    ("sampling_finish_reason", PStr (sample_finish_reason s))] in
  let completion := PDict (completion ++ [("training_evidence", PDict evidence)]) in
  c <-? new_contract float_repr (Leased p) (capabilities_of p);
  trace <-? GenerationContract.validate float_repr sha256_hex c payload completion (PStr request_id) (PInt 1);
  Ok (completion, trace).

(** ** The controller *)

(** An admitted generation; [t_weights] is the model it found when it got the
    sampler lock. *)
Record thread := {
  t_payload : pyval; t_policy : PolicyRef; t_prompt : list Z; t_weights : option policy_model }.

(** What a generation that sampled did: the weights when it began and when it
    ended, and what it returned. *)
Record sample_event := {
  e_request : string; e_policy : PolicyRef; e_began : policy_model; e_ended : policy_model; e_outcome : res (pyval * TurnTrace) }.

(** What the control method that holds the control lock still has to do.  The
    flag is [initial] of [_load], or tells [close] from [pause]. *)
Inductive operation :=
| LoadPending (initial : bool) (a : artifact)
| LoadDone (initial : bool) (r : res pyval)
| Draining (closing : bool)
| Drained (closing : bool).

(** [served]: [policy], [ack] and [active_artifact], which are set together.
    [installed] and [sampled] are histories: every successful [_load], newest
    first, and every sample. *)
Record controller := {
  st : controller_state;
  active : Z;
  drained : bool;
  seen : list string;
  model : option policy_model;
  served : option (PolicyRef * pyval * artifact);
  generator : option G;
  control : option operation;
  sampler : option string;
  threads : gmap string thread;
  installed : list (artifact * PolicyRef * policy_model);
  sampled : list sample_event }.

Definition new_controller : controller :=
  {| st := New; active := 0; drained := false; seen := []; model := None; served := None; generator := None; control := None;
     sampler := None; threads := ∅; installed := []; sampled := [] |}.

(** Field updates. *)
Definition with_control (s : controller_state) (d : bool) (o : option operation) (c : controller) : controller :=
  {| st := s; active := active c; drained := d; seen := seen c; model := model c; served := served c; generator := generator c; control := o;
     sampler := sampler c; threads := threads c; installed := installed c; sampled := sampled c |}.
Definition with_model (m : option policy_model) (g : option G) (c : controller) : controller :=
  {| st := st c; active := active c; drained := drained c; seen := seen c; model := m; served := served c; generator := g; control := control c;
     sampler := sampler c; threads := threads c; installed := installed c; sampled := sampled c |}.
Definition with_served (a : artifact) (p : PolicyRef) (ack : pyval) (w : policy_model) (c : controller) : controller :=
  {| st := st c; active := active c; drained := drained c; seen := seen c; model := model c; served := Some (p, ack, a); generator := generator c;
     control := control c; sampler := sampler c; threads := threads c; installed := (a, p, w) :: installed c; sampled := sampled c |}.
Definition with_threads (n : Z) (ids : list string) (t : gmap string thread) (lock : option string) (log : list sample_event) (c : controller) : controller :=
  {| st := st c; active := n; drained := drained c; seen := ids; model := model c; served := served c; generator := generator c; control := control c;
     sampler := lock; threads := t; installed := installed c; sampled := log |}.

(** ** [generate] *)

Definition admit_request (payload : pyval) (request_id : string) : stateful controller unit :=
  (raise_when negb (request_id_text request_id) with_exn ValueError "generation requires a durable 32-hex request identity";
   reading (fun c =>
     raise_when negb (bool_decide (st c = Running)) with_exn RuntimeError "controller admission is paused, closed or unqualified";
     raise_when bool_decide (request_id ∈ seen c) with_exn ValueError "generation request identity was already admitted; no replay";
     match served c with
     | None => raising (RuntimeError "serving capabilities require a successfully loaded policy")
     | Some (p, _, _) =>
         prompt <~ computing (context payload p);
         changing (with_threads (active c + 1) (request_id :: seen c)
           (<[request_id := {| t_payload := payload; t_policy := p; t_prompt := prompt; t_weights := None |}]> (threads c)) (sampler c) (sampled c))
     end))%handler.

(** The [finally] of [generate], and the release of the sampler lock. *)
Definition finish_thread (request_id : string) (log : list sample_event) (c : controller) : controller :=
  with_threads (active c - 1) (seen c) (delete request_id (threads c)) None log c.

Definition engram_invariants (m : option policy_model) : res policy_model :=
  match m with
  | Some w => _ <-? assert_invariants (core w); Ok w
  | None => Err (AttributeError "assert_engram_invariants")
  end.

(** The sampler lock is taken and the model's invariants checked. *)
Definition begin_sampling (request_id : string) (t : thread) : stateful controller unit := fun c =>
  match engram_invariants (model c) with
  | Ok w => (with_threads (active c) (seen c)
      (<[request_id := {| t_payload := t_payload t; t_policy := t_policy t; t_prompt := t_prompt t; t_weights := Some w |}]> (threads c))
      (Some request_id) (sampled c) c, Ok tt)
  | Err e => (finish_thread request_id (sampled c) c, Err e)
  end.

(** Sampling with the weights found, then what follows it in the order of the
    source; the generator is [residue] where sampling raises. *)
Definition generation_outcome (began : policy_model) (now : option policy_model) (request_id : string) (t : thread) (g residue : G) : res (pyval * TurnTrace) * G :=
  match draw began (t_payload t) (t_prompt t) (t_policy t) g with
  | Err e => (Err e, residue)
  | Ok (s, g') => (text <-? decode (sample_content s);
                   _ <-? engram_invariants now;
                   completion_of (t_payload t) request_id (t_prompt t) (t_policy t) s text, g')
  end.

Definition end_sampling (request_id : string) (t : thread) (residue : G) : stateful controller (pyval * TurnTrace) := fun c =>
  match t_weights t, model c, generator c with
  | Some began, Some now, Some g =>
      let '(r, g') := generation_outcome began (model c) request_id t g residue in
      (with_model (model c) (Some g') (finish_thread request_id ({| e_request := request_id; e_policy := t_policy t; e_began := began; e_ended := now; e_outcome := r |}
        :: sampled c) c), r)
  | _, _, _ => (finish_thread request_id (sampled c) c, Err (AttributeError "model"))
  end.

(** ** Control *)

Definition start (a : artifact) : stateful controller unit :=
  reading (fun c =>
    raise_when negb (bool_decide (st c = New)) with_exn RuntimeError "controller start is single-use";
    changing (with_control Loading (drained c) (Some (LoadPending true a))))%handler.

Definition activate (a : artifact) : stateful controller unit :=
  reading (fun c =>
    raise_when negb (bool_decide (st c = Paused)) || negb (drained c) || negb (active c =? 0) with_exn RuntimeError "activation requires a proven paused sampler drain";
    changing (with_control (st c) false (Some (LoadPending false a))))%handler.

(** The [try] of [_load]: the acknowledgement, the weights as they are left and
    whether it raised.  [built] is what [build_policy] and [generation_options]
    give, with a generator. *)
Definition load_weights (fs : gmap string string) (initial : bool) (built : res (policy_model * G)) (a : artifact) (m : option policy_model) (g : option G) :
    (option policy_model * option G) * res pyval :=
  match (if initial then built else match m, g with Some w, Some g => Ok (w, g) | _, _ => Err (AttributeError "load") end) with
  | Err e => ((m, g), Err e)
  | Ok (w, g) =>
      let '(w, r) := load_policy_artifact isfinite deserialize sha256_hex fs a w in
      ((Some w, Some g),
        ack <-? r;
        raise_when negb (py_eqb ack (acknowledgement a)) with_exn ValueError "loaded policy acknowledgement differs from the immutable artifact";
        _ <-? assert_invariants (core w);
        Ok ack)
  end.

(** [_load] *)
Definition load (mounted : mounted) (fs : gmap string string) (built : res (policy_model * G)) (initial : bool) (a : artifact) : stateful controller pyval := fun c =>
  match check_artifact mounted ((fun s => (s.1.1, s.2)) <$> served c) a with
  | Err e => (c, Err e)
  | Ok candidate =>
      let '((m, g), r) := load_weights fs initial built a (model c) (generator c) in
      let c := with_model m g c in
      match r, m with
      | Ok ack, Some w => (with_control (if initial then Running else Paused) (drained c) (control c) (with_served a candidate ack w c), Ok ack)
      | Err e, _ => (with_control Failed (drained c) (control c) c, Err e)
      | Ok ack, None => (c, Ok ack)
      end
  end.

(** The end of [start] and [activate]; [cancelled] when the caller was. *)
Definition load_returns (initial cancelled : bool) (r : res pyval) (c : controller) : controller :=
  with_control (if cancelled || (initial && negb (is_ok r)) then Failed else st c) (drained c) None c.

Definition pause : stateful controller unit :=
  reading (fun c =>
    raise_when negb (bool_decide (st c = Running) || bool_decide (st c = Paused)) with_exn RuntimeError "cannot pause an unloaded or failed policy";
    changing (with_control Paused false (Some (Draining false))))%handler.

Definition close : stateful controller unit := changing (fun c => with_control Closed false (Some (Draining true)) c).

(** The end of [pause] and [close]. *)
Definition drain_returns (closing cancelled : bool) (c : controller) : controller :=
  if closing then with_control (st c) (drained c) None (with_model None (generator c) c)
  else with_control (st c) (if cancelled then drained c else true) None c.

Definition resume : stateful controller unit :=
  reading (fun c =>
    raise_when negb (bool_decide (st c = Paused)) || negb (active c =? 0) with_exn RuntimeError "resume requires an unfailed paused policy";
    changing (with_control Running false None))%handler.

(** ** Interleavings *)

Inductive action :=
| Admit (payload : pyval) (request_id : string)
| BeginSampling (request_id : string)
| EndSampling (request_id : string) (residue : G)
| Start (a : artifact)
| Activate (a : artifact)
| LoadRuns (mounted : mounted) (fs : gmap string string) (built : res (policy_model * G))
| LoadReturns (cancelled : bool)
| Pause
| Close
| DrainProven
| DrainReturns (cancelled : bool)
| Resume.

(** The state after an action, where the action is enabled. *)
Definition act (x : action) (c : controller) : option controller :=
  match x, control c, sampler c with
  | Admit payload rid, _, _ => Some (admit_request payload rid c).1
  | BeginSampling rid, _, None => t ← threads c !! rid; Some (begin_sampling rid t c).1
  | EndSampling rid residue, _, Some owner =>
      if bool_decide (owner = rid) then t ← threads c !! rid; Some (end_sampling rid t residue c).1 else None
  | Start a, None, _ => Some (start a c).1
  | Activate a, None, _ => Some (activate a c).1
  | LoadRuns m fs built, Some (LoadPending initial a), _ =>
      let '(c', r) := load m fs built initial a c in Some (with_control (st c') (drained c') (Some (LoadDone initial r)) c')
  | LoadReturns cancelled, Some (LoadDone initial r), _ => Some (load_returns initial cancelled r c)
  | Pause, None, _ => Some (pause c).1
  | Close, None, _ => Some (close c).1
  | DrainProven, Some (Draining closing), _ => if active c =? 0 then Some (with_control (st c) (drained c) (Some (Drained closing)) c) else None
  | DrainReturns cancelled, Some (Drained closing), _ => Some (drain_returns closing cancelled c)
  | Resume, None, _ => Some (resume c).1
  | _, _, _ => None
  end.

Fixpoint run_actions (xs : list action) (c : controller) : option controller :=
  match xs with [] => Some c | x :: xs => c' ← act x c; run_actions xs c' end.

Definition reachable (c : controller) : Prop := exists xs, run_actions xs new_controller = Some c.
End Controller.
