(* ===== verification/PolicyControllerResults.v ===== *)
(** * The controller never samples from a policy it is replacing

    The invariant of the interleavings of [PolicyController], and what it
    says of every sample and every drain. *)

From S2P Require Import Prelude StateRes PyValue Training GenerationFailure GenerationContract PromptData Torch EngramCache EngramState PolicyArtifact PolicyController TrainingProofs.
From S2P Require EngramCacheResults GenerateResults.
From S2P Require Generate.
Local Open Scope Z_scope.

Section Invariant.
Context {M S : Type} `{PolicyModel M S} `{!TensorOps} `{!RowOps} {A D : Type} `{!EqDecision D} (isfinite : A -> bool).
Context (float_repr : Z -> string) (sha256_hex : string -> string) (deserialize : string -> res (payload (S := S) (A := A) (D := D))).
Context (encode_conversation : pyval -> pyval -> pyval -> res (list Z)) (decode : list Z -> res string) (json_loads : string -> res pyval).
Context {G L : Type} (next_logits : policy_model (M := M) (A := A) (D := D) -> list Z -> res L) (vocabulary : L -> Z) (log_softmax : L -> list pyfloat)
  (multinomial : G -> list pyfloat -> Z * G).
Context (cfg : settings).
#[local] Notation policy_model := (policy_model (M := M) (A := A) (D := D)).
#[local] Notation controller := (controller (M := M) (A := A) (D := D) (G := G)).
#[local] Notation act := (act isfinite float_repr sha256_hex deserialize encode_conversation decode json_loads next_logits vocabulary log_softmax multinomial cfg).
#[local] Notation load := (load isfinite float_repr sha256_hex deserialize cfg).
Implicit Types (c : controller) (p : PolicyRef) (w : policy_model).

(** ** What an installed policy is *)

(** [w] are the weights a successful [_load] of [a] left, and [p] its policy. *)
Definition installed_from (i : artifact * PolicyRef * policy_model) : Prop :=
  let '(a, p, w) := i in
  artifact_policy float_repr sha256_hex cfg a = Ok p /\ assert_invariants (core w) = Ok tt
  /\ exists fs w0 ack, load_policy_artifact isfinite deserialize sha256_hex fs a w0 = (w, Ok ack).

(** [i] was installed after [j]. *)
Definition supersedes (i j : artifact * PolicyRef * policy_model) : Prop :=
  Training.version j.1.2 < Training.version i.1.2 /\ Training.lineage i.1.2 = Training.lineage j.1.2.

(** The newest policy, which is the one served and in the model. *)
Definition current c w p : Prop := exists a ack l, installed c = (a, p, w) :: l /\ served c = Some (p, ack, a) /\ model c = Some w.

Lemma current_det c w w' p p' : current c w p -> current c w' p' -> w = w' /\ p = p'.
Proof. intros (a & k & l & Hi & _) (a' & k' & l' & Hi' & _). rewrite Hi in Hi'. by injection Hi' as <- <- <- _. Qed.

Definition state_ok c : Prop :=
  match st c with
  | New | Loading => threads c = ∅ /\ served c = None /\ installed c = []
  | Running | Paused => exists w p, current c w p
  | Failed | Closed => True
  end.

Definition control_ok c : Prop :=
  match control c with
  | Some (LoadPending initial _) => threads c = ∅ /\ st c = (if initial then Loading else Paused) /\ drained c = false
  | Some (LoadDone _ _) => drained c = false
  | Some (Draining closing) => st c = (if closing then Closed else Paused)
  | Some (Drained closing) => st c = (if closing then Closed else Paused) /\ threads c = ∅
  | _ => True
  end.

Record invariant c : Prop := {
  i_active : active c = Z.of_nat (size (threads c));
  i_seen : forall rid t, threads c !! rid = Some t -> rid ∈ seen c;
  i_live : forall rid t, threads c !! rid = Some t -> exists w, current c w (t_policy t) /\ (forall w0, t_weights t = Some w0 -> w0 = w /\ sampler c = Some rid);
  i_logged : forall e, e ∈ sampled c -> e_request e ∈ seen c /\ threads c !! e_request e = None;
  i_once : NoDup (e_request <$> sampled c);
  i_events : forall e, e ∈ sampled c -> e_began e = e_ended e /\ exists a, (a, e_policy e, e_began e) ∈ installed c;
  i_chain : StronglySorted supersedes (installed c);
  i_installed : Forall installed_from (installed c);
  i_state : state_ok c;
  i_control : control_ok c;
  i_drained : drained c = true -> threads c = ∅ /\ st c = Paused }.

Lemma new_invariant : invariant new_controller.
Proof. split; cbn; try done; try constructor; try (intros; set_solver). Qed.

Lemma no_threads c : invariant c -> active c = 0 -> threads c = ∅.
Proof. intros I Ha. rewrite (i_active c I) in Ha. apply map_size_empty_inv. lia. Qed.

(** ** Changes of the control state alone *)

Lemma control_invariant c s d o : invariant c ->
  state_ok (with_control s d o c) -> control_ok (with_control s d o c) -> (d = true -> threads c = ∅ /\ s = Paused) -> invariant (with_control s d o c).
Proof. intros [] Hs Hc Hd. by split. Qed.

(** ** Changes of the threads *)

Lemma control_ok_threads c n ids t lock log : (threads c = ∅ -> t = ∅) -> control_ok c -> control_ok (with_threads n ids t lock log c).
Proof. unfold control_ok. cbn. destruct (control c) as [[]|]; naive_solver. Qed.

Lemma state_ok_threads c n ids t lock log : (threads c = ∅ -> t = ∅) -> state_ok c -> state_ok (with_threads n ids t lock log c).
Proof. unfold state_ok, current. cbn. destruct (st c); naive_solver. Qed.

Lemma finish_invariant c rid t log : invariant c -> threads c !! rid = Some t ->
  (sampler c = None \/ sampler c = Some rid) ->
  (forall e, e ∈ log -> e ∈ sampled c \/ e_request e = rid /\ e_began e = e_ended e /\ exists a, (a, e_policy e, e_began e) ∈ installed c) ->
  NoDup (e_request <$> log) -> invariant (finish_thread rid log c).
Proof.
  intros I Ht Hl Hlog Hnd. split; cbn [finish_thread with_threads threads active seen sampled installed sampler drained st control]; try apply I.
  - rewrite (i_active c I), map_size_delete_Some by eauto. pose proof (map_size_ne_0_lookup_2 (threads c) rid (ltac:(eauto))). lia.
  - intros r u [_ Hr]%lookup_delete_Some. by eapply i_seen.
  - intros r u [Hne Hr]%lookup_delete_Some. destruct (i_live c I r u Hr) as (w & Hw & Hu). exists w. split; [done|].
    intros w0 H0w. destruct (Hu w0 H0w) as [_ Hs]. destruct Hl; congruence.
  - intros e He. destruct (Hlog e He) as [He'|(-> & _)].
    + destruct (i_logged c I e He') as [H1' H2']. split; [done|]. apply lookup_delete_None. by right.
    + split; [by eapply i_seen|]. by rewrite lookup_delete_eq.
  - done.
  - intros e He. destruct (Hlog e He) as [He'|(_ & He')]; [by apply I|done].
  - apply state_ok_threads; [|apply I]. intros ->. apply delete_empty.
  - apply control_ok_threads; [|apply I]. intros ->. apply delete_empty.
  - intros Hd. destruct (i_drained c I Hd) as [-> Hs]. split; [apply delete_empty|done].
Qed.

(** ** Every action *)

Lemma admit_invariant c payload rid : invariant c -> invariant (admit_request float_repr sha256_hex encode_conversation cfg payload rid c).1.
Proof.
  intros I. unfold admit_request. destruct (negb (request_id_text rid)); [done|]. unfold reading. destruct (bool_decide (st c = Running)) eqn:Est; [|done].
  apply bool_decide_eq_true in Est. cbn [negb]. destruct (bool_decide (rid ∈ seen c)) eqn:Eseen; [done|]. apply bool_decide_eq_false in Eseen.
  pose proof (i_state c I) as Hst. unfold state_ok in Hst. rewrite Est in Hst. destruct Hst as (w & p & Hcur).
  pose proof Hcur as (a & ack & l & _ & -> & _). unfold sequence, computing. destruct (context _ _ _ _ _ _) as [prompt|e]; [|done].
  assert (threads c !! rid = None) as Hno. { destruct (threads c !! rid) eqn:E; [|done]. by apply (i_seen c I) in E. }
  assert (control_ok c) as Hcon by apply I. cbn [changing fst].
  split; cbn [with_threads threads active seen sampled installed sampler drained st control]; try apply I.
  - rewrite (i_active c I), map_size_insert_None by done. lia.
  - intros r t. destruct (decide (r = rid)) as [->|Hne]; [by left|]. rewrite lookup_insert_ne by done. intros Hr. right. by eapply i_seen.
  - intros r t. destruct (decide (r = rid)) as [->|Hne].
    + rewrite lookup_insert_eq. intros [= <-]. exists w. split; [exact Hcur|done].
    + rewrite lookup_insert_ne by done. apply (i_live c I).
  - intros e He. destruct (i_logged c I e He) as [H1' H2']. split; [by right|]. rewrite lookup_insert_ne; [done|]. intros E. congruence.
  - unfold state_ok. cbn. rewrite Est. exists w, p. exact Hcur.
  - unfold control_ok in *. cbn. destruct (control c) as [[[]|[]|[]|[]]|]; naive_solver congruence.
  - intros Hd. destruct (i_drained c I Hd). congruence.
Qed.

Lemma begin_invariant c rid t : invariant c -> sampler c = None -> threads c !! rid = Some t -> invariant (begin_sampling rid t c).1.
Proof.
  intros I Hs Ht. destruct (i_live c I rid t Ht) as (w & Hcur & _). pose proof Hcur as (a & ack & l & Hi & Hse & Hm). unfold begin_sampling. rewrite Hm. cbn [engram_invariants].
  destruct (assert_invariants (core w)) as [|e]; cbn [fst].
  - split; cbn [with_threads threads active seen sampled installed sampler drained st control]; try apply I.
    + rewrite (i_active c I), map_size_insert_Some; eauto.
    + intros r u. destruct (decide (r = rid)) as [->|Hne]; [intros _; by eapply i_seen|]. rewrite lookup_insert_ne by done. by eapply i_seen.
    + intros r u. destruct (decide (r = rid)) as [->|Hne].
      * rewrite lookup_insert_eq. intros [= <-]. cbn. exists w. split; [exact Hcur|]. by intros w0 [= <-].
      * rewrite lookup_insert_ne by done. intros Hr. destruct (i_live c I r u Hr) as (w' & Hw & Hu). exists w'. split; [done|].
        intros w0 H0w. destruct (Hu w0 H0w). congruence.
    + intros e He. destruct (i_logged c I e He) as [H1' H2']. split; [done|]. rewrite lookup_insert_ne; [done|]. intros E. congruence.
    + apply state_ok_threads; [|apply I]. intros E. by rewrite E in Ht.
    + apply control_ok_threads; [|apply I]. intros E. by rewrite E in Ht.
    + intros Hd. destruct (i_drained c I Hd) as [E _]. by rewrite E in Ht.
  - eapply finish_invariant; try done; [by left|by left|apply I].
Qed.

Lemma generator_invariant c g : invariant c -> invariant (with_model (model c) g c).
Proof. intros []. by split. Qed.

Lemma end_invariant c rid t residue : invariant c -> sampler c = Some rid -> threads c !! rid = Some t ->
  invariant (end_sampling float_repr sha256_hex decode json_loads next_logits vocabulary log_softmax multinomial cfg rid t residue c).1.
Proof.
  intros I Hs Ht. assert (invariant (finish_thread rid (sampled c) c)) as Hfin.
  { eapply finish_invariant; try done; [by right|by left|apply I]. }
  unfold end_sampling. destruct (t_weights t) as [began|] eqn:Ew; [|done]. destruct (model c) as [now|] eqn:Em; [|done]. destruct (generator c) as [g|]; [|done].
  destruct (generation_outcome _ _ _ _ _ _ _ _ _ _ _ _ _ _ _) as [r g']. cbn [fst]. rewrite <- Em.
  apply (generator_invariant (finish_thread rid _ c)). destruct (i_live c I rid t Ht) as (w & Hcur & Hw). destruct (Hw began Ew) as [-> _].
  destruct Hcur as (a & ack & l & Hi & _ & Hm). assert (now = w) as -> by congruence.
  eapply finish_invariant; [done|done|by right| |].
  - intros e [->|He]%elem_of_cons; [|by left]. right. cbn. split; [done|]. split; [done|]. exists a. rewrite Hi. by left.
  - cbn. constructor; [|apply I]. intros (e & He1 & He2)%list_elem_of_fmap. destruct (i_logged c I e He2) as [_ Hno]. congruence.
Qed.

Lemma check_supersedes m p a0 a p' : check_artifact float_repr sha256_hex cfg m (Some (p, a0)) a = Ok p' ->
  artifact_policy float_repr sha256_hex cfg a = Ok p' /\ Training.version p < Training.version p' /\ Training.lineage p' = Training.lineage p.
Proof.
  unfold check_artifact. intros Hc. destruct (artifact_policy _ _ _ _) as [q|]; [|done]. destruct (negb _); [done|]. destruct (a_identity a); try done.
  res_inv Hc. subst q. destr_bool. done.
Qed.

Lemma check_policy m o a p' : check_artifact float_repr sha256_hex cfg m o a = Ok p' -> artifact_policy float_repr sha256_hex cfg a = Ok p'.
Proof.
  unfold check_artifact. intros Hc. destruct (artifact_policy _ _ _ _) as [q|]; [|done]. destruct (negb _); [done|]. destruct (a_identity a); try done.
  res_inv Hc. by subst q.
Qed.

Lemma load_weights_ok fs initial (built : res (policy_model * G)) a m g m' g' ack : load_weights isfinite sha256_hex deserialize fs initial built a m g = ((m', g'), Ok ack) ->
  exists w, m' = Some w /\ assert_invariants (core w) = Ok tt /\ exists w0 k, load_policy_artifact isfinite deserialize sha256_hex fs a w0 = (w, Ok k).
Proof.
  unfold load_weights. destruct (if initial then built else _) as [[w0 g0]|]; [|done]. destruct (load_policy_artifact isfinite deserialize sha256_hex fs a w0) as [w [k|]] eqn:E; [|done].
  intros Hl. injection Hl as <- <- Hr. res_inv Hr. exists w. split; [done|]. destruct value. eauto.
Qed.

Lemma load_invariant c mounted fs built initial a : invariant c -> control c = Some (LoadPending initial a) ->
  let '(c', r) := load mounted fs built initial a c in invariant (with_control (st c') (drained c') (Some (LoadDone initial r)) c').
Proof.
  intros I Hcon. pose proof (i_control c I) as Hc. unfold control_ok in Hc. rewrite Hcon in Hc. destruct Hc as (Hnone & Hst & Hnd).
  unfold PolicyController.load. destruct (check_artifact _ _ _ _ _ _) as [p'|e] eqn:Ec.
  - destruct (load_weights _ _ _ _ _ _ _ _ _) as [[m g] [ack|e]] eqn:El.
    + destruct (load_weights_ok _ _ _ _ _ _ _ _ _ El) as (w & -> & Hinv & w0 & k & Hload).
      split; cbn [with_control with_served with_model threads active seen sampled installed sampler drained st control]; try apply I.
      * intros r t. by rewrite Hnone.
      * intros e He. destruct (i_events c I e He) as (? & a0 & ?). split; [done|]. exists a0. by right.
      * constructor; [apply I|]. pose proof (i_chain c I) as Hch. destruct initial.
        -- pose proof (i_state c I) as Hs. unfold state_ok in Hs. rewrite Hst in Hs. destruct Hs as (_ & _ & ->). constructor.
        -- pose proof (i_state c I) as Hs. unfold state_ok in Hs. rewrite Hst in Hs. destruct Hs as (w1 & p1 & a1 & ack1 & l & Hi & Hse & _).
           rewrite Hse in Ec. cbn [fmap option_fmap option_map fst snd] in Ec. apply check_supersedes in Ec as (_ & Hv & Hlin). rewrite Hi in Hch |- *. apply StronglySorted_inv in Hch as [_ Hch].
           constructor; [done|]. eapply Forall_impl; [exact Hch|]. unfold supersedes. cbn. intros [[a2 p2] w2]. cbn. intros [? ?]. split; [lia|congruence].
      * constructor; [|apply I]. split; [by eapply check_policy|]. split; [done|]. eauto.
      * unfold state_ok. cbn. destruct initial; exists w, p', a, ack, (installed c); done.
      * done.
      * intros Hd. congruence.
    + split; cbn [with_control with_served with_model threads active seen sampled installed sampler drained st control]; try apply I; try done.
      * intros r t. by rewrite Hnone.
      * intros Hd. congruence.
  - split; cbn [with_control threads active seen sampled installed sampler drained st control]; try apply I; try done.
Qed.

Lemma start_invariant c a : invariant c -> control c = None -> invariant (start a c).1.
Proof.
  intros I _. unfold start, reading. destruct (bool_decide (st c = New)) eqn:E; [|done]. apply bool_decide_eq_true in E. cbn [negb changing fst].
  pose proof (i_state c I) as Hs. unfold state_ok in Hs. rewrite E in Hs. destruct Hs as (Ht & Hse & Hi).
  assert (drained c = false) as Hd. { destruct (drained c) eqn:Hd; [|done]. apply (i_drained c I) in Hd. destruct Hd. congruence. }
  apply control_invariant; [done|done|done|congruence].
Qed.

Lemma activate_invariant c a : invariant c -> control c = None -> invariant (activate a c).1.
Proof.
  intros I _. unfold activate, reading. destruct (_ || _) eqn:E; [done|]. destr_bool. cbn [changing fst].
  pose proof (i_state c I) as Hs. apply control_invariant; [done|exact Hs| |done]. split; [by apply (no_threads c)|done].
Qed.

Lemma load_returns_invariant c initial cancelled r : invariant c -> control c = Some (LoadDone initial r) -> drained c = false ->
  invariant (load_returns initial cancelled r c).
Proof.
  intros I _ Hd. unfold load_returns. apply control_invariant; [done| |done|congruence]. destruct (_ || _); [done|]. apply (i_state c I).
Qed.

Lemma pause_invariant c : invariant c -> control c = None -> invariant (pause c).1.
Proof.
  intros I _. unfold pause, reading. destruct (bool_decide (st c = Running) || _) eqn:E; [|done]. cbn [negb changing fst].
  apply control_invariant; [done| |done|done]. pose proof (i_state c I) as Hs. unfold state_ok in *. cbn.
  apply orb_true_iff in E as [E%bool_decide_eq_true|E%bool_decide_eq_true]; by rewrite E in Hs.
Qed.

Lemma resume_invariant c : invariant c -> control c = None -> invariant (resume c).1.
Proof.
  intros I _. unfold resume, reading. destruct (_ || _) eqn:E; [done|]. destr_bool. cbn [changing fst].
  apply control_invariant; [done| |done|done]. pose proof (i_state c I) as Hs. unfold state_ok in *. by rewrite H2 in Hs.
Qed.

Lemma drain_returns_invariant c closing cancelled : invariant c -> control c = Some (Drained closing) -> invariant (drain_returns closing cancelled c).
Proof.
  intros I Hc. pose proof (i_control c I) as Hok. unfold control_ok in Hok. rewrite Hc in Hok. destruct Hok as [Hst Ht]. unfold drain_returns. destruct closing.
  - destruct I. split; cbn [with_control with_model threads active seen sampled installed sampler drained st control]; try done.
    + intros rid t. by rewrite Ht.
    + unfold state_ok. cbn. by rewrite Hst.
  - apply control_invariant; [done|apply (i_state c I)|done|done].
Qed.

Lemma act_invariant x c c' : invariant c -> act x c = Some c' -> invariant c'.
Proof.
  intros I Hact. unfold PolicyController.act in Hact. destruct x; cbn [fst snd] in Hact.
  - injection Hact as <-. by apply admit_invariant.
  - destruct (control c) as [o|], (sampler c) eqn:Es; try done; destruct (threads c !! request_id) eqn:Et; try done; injection Hact as <-; by apply begin_invariant.
  - destruct (sampler c) eqn:Es; [|by destruct (control c)]. assert (s = request_id /\ exists t, threads c !! request_id = Some t) as (-> & t & Et).
    { destruct (control c); case_bool_decide; try done; destruct (threads c !! request_id) eqn:Et; try done; eauto. }
    rewrite bool_decide_eq_true_2, Et in Hact by done. destruct (control c); injection Hact as <-; by apply end_invariant.
  - destruct (control c) eqn:Ec; [done|]. injection Hact as <-. by apply start_invariant.
  - destruct (control c) eqn:Ec; [done|]. injection Hact as <-. by apply activate_invariant.
  - destruct (control c) as [[initial a| | |]|] eqn:Ec; try done. pose proof (load_invariant c mounted fs built initial a I Ec) as Hl.
    destruct (PolicyController.load _ _ _ _ _ _ _ _ _ _ _) as [c1 r]. by injection Hact as <-.
  - destruct (control c) as [[|initial r| |]|] eqn:Ec; try done. injection Hact as <-. apply load_returns_invariant; try done.
    pose proof (i_control c I) as Hk. unfold control_ok in Hk. by rewrite Ec in Hk.
  - destruct (control c) eqn:Ec; [done|]. injection Hact as <-. by apply pause_invariant.
  - destruct (control c) eqn:Ec; [done|]. injection Hact as <-. by apply control_invariant.
  - destruct (control c) as [[| |closing|]|] eqn:Ec; try done. destruct (active c =? 0) eqn:E; [|done]. injection Hact as <-. apply Z.eqb_eq in E.
    pose proof (i_control c I) as Hk. unfold control_ok in Hk. rewrite Ec in Hk. apply control_invariant; [done|apply (i_state c I)| |apply (i_drained c I)].
    split; [done|by apply (no_threads c)].
  - destruct (control c) as [[| | |closing]|] eqn:Ec; try done. injection Hact as <-. by apply drain_returns_invariant.
  - destruct (control c) eqn:Ec; [done|]. injection Hact as <-. by apply resume_invariant.
Qed.

Lemma run_invariant xs c c' : invariant c -> run_actions isfinite float_repr sha256_hex deserialize encode_conversation decode json_loads next_logits vocabulary
    log_softmax multinomial cfg xs c = Some c' -> invariant c'.
Proof.
  revert c. induction xs as [|x xs IH]; intros c I Hrun; cbn [run_actions] in Hrun; [by injection Hrun as <-|].
  destruct (act x c) as [c1|] eqn:E; [|done]. eapply IH; [|exact Hrun]. by eapply act_invariant.
Qed.
End Invariant.

(** C3. However generations, control calls and cancellations interleave: every
    sample is drawn from start to end with the very weights that a successful
    load of an artifact with the sample's policy left; no request is sampled
    twice; the loaded policies have one lineage and growing versions; and while
    weights are loaded, or once a drain is reported, no generation is active. *)
Theorem controller_single_policy {M S : Type} `{PolicyModel M S} `{!TensorOps} `{!RowOps} {A D : Type} `{!EqDecision D} (isfinite : A -> bool)
    float_repr sha256_hex deserialize encode_conversation decode json_loads {G L : Type}
    (next_logits : policy_model (M := M) (A := A) (D := D) -> list Z -> res L) vocabulary log_softmax multinomial cfg (c : controller (G := G)) :
  reachable isfinite float_repr sha256_hex deserialize encode_conversation decode json_loads next_logits vocabulary log_softmax multinomial cfg c ->
  (forall e, e ∈ sampled c -> e_began e = e_ended e /\ exists a, (a, e_policy e, e_began e) ∈ installed c)
  /\ NoDup (e_request <$> sampled c)
  /\ Forall (installed_from isfinite float_repr sha256_hex deserialize cfg) (installed c)
  /\ StronglySorted supersedes (installed c)
  /\ (forall initial a, control c = Some (LoadPending initial a) -> threads c = ∅ /\ active c = 0)
  /\ (drained c = true \/ (exists closing, control c = Some (Drained closing)) -> threads c = ∅ /\ active c = 0).
Proof.
  intros [xs Hrun]. apply run_invariant in Hrun as I; [|apply new_invariant]. pose proof (i_control _ _ _ _ _ c I) as Hc. unfold control_ok in Hc.
  assert (threads c = ∅ -> threads c = ∅ /\ active c = 0) as Hact by (intros E; split; [done|]; rewrite (i_active _ _ _ _ _ c I), E, map_size_empty; done).
  split; [apply I|]. split; [apply I|]. split; [apply I|]. split; [apply I|]. split.
  - intros initial a E. rewrite E in Hc. apply Hact, Hc.
  - intros Hor. apply Hact. destruct Hor as [Hd|[closing E]]; [apply I, Hd|]. rewrite E in Hc. apply Hc.
Qed.

(** ** Witness: two policies, a pause between two requests *)

#[local] Existing Instance list_ops.
#[local] Existing Instance EngramCacheResults.list_row_ops.

(** Weights are one number. *)
#[local] Instance number_model : PolicyModel Z Z := {
  trainable_state_dict m := m; frozen_state_dict _ := 0; state_empty s := s =? 0;
  load_trainable_state_dict s := changing (fun _ => s); load_frozen_state_dict _ := returning tt; assert_invariants _ := Ok tt }.
Definition number_policy (w : Z) : policy_model (M := Z) (A := Z) (D := nat) :=
  {| core := w; engram := None; lora_metadata := None; initial_sft_identity := PNone |}.

Definition ones64 : string := "1" +:+ String.substring 1 63 zeros64.
Definition demo_sha (s : string) : string := if bool_decide (s = "second") then ones64 else zeros64.
Definition demo_identity : pyval :=
  PDict [("random_init", PBool false); ("trainable_scope", PStr "all"); ("model_config_sha256", PStr zeros64); ("base_files", PList [PStr "model.bin"]);
         ("engram_mapping_sha256", PDict [("tokenizer.json", PStr zeros64)])].
Definition demo_sampling : pyval := PDict [("temperature", PFloat float_one); ("top_p", PInt 1); ("top_k", PInt 0)].
Definition demo_artifact (v : Z) (digest path : string) : artifact :=
  {| a_version := PInt v; a_digest := PStr digest; a_path := path; a_lineage := PStr "run"; a_identity := demo_identity; a_sampling := demo_sampling |}.
Definition demo_payload (v w : Z) : PolicyArtifact.payload (S := Z) (A := Z) (D := nat) :=
  {| p_version := PInt v; p_lineage := PStr "run"; p_identity := demo_identity; p_sampling := demo_sampling; p_state := state_of (number_policy w) |}.
Definition demo_load (s : string) : res (PolicyArtifact.payload (S := Z) (A := Z) (D := nat)) :=
  if bool_decide (s = "first") then Ok (demo_payload 1 10) else if bool_decide (s = "second") then Ok (demo_payload 2 20) else Err (EOFError "").
Definition demo_settings : settings :=
  {| served_model := "m"; config_temperature := PFloat float_one; max_new_tokens := 8; max_prompt_tokens := None; max_position_embeddings := 64;
     trainable_scope := PStr "all"; serving_identities := [("tokenizer_sha256", PStr zeros64); ("chat_template_sha256", PStr zeros64)];
     eos_token_ids := PInt 3; stop_token_sequences := []; truncated_reward := None |}.
Definition demo_mounted : mounted :=
  {| model_config_sha256 := zeros64; base_files := [PStr "model.bin"]; text_assets := PDict []; mounted_tokenizer := zeros64; mounted_template := zeros64 |}.
Definition demo_request : pyval :=
  PDict [("model", PStr "m"); ("messages", PList []); ("tools", PList [PDict [("type", PStr "function"); ("function", PDict [("name", PStr "shell"); ("parameters", SHELL_PARAMETERS)])]]);
         ("tool_choice", PStr "auto"); ("parallel_tool_calls", PBool false); ("chat_template_kwargs", PDict [("enable_thinking", PBool false)]);
         ("temperature", PFloat float_one); ("max_tokens", PInt 4)].
Definition request_id (n : string) : string := String.substring 0 31 zeros64 +:+ n.
Definition demo_files : gmap string string := {["a" := "first"; "b" := "second"]}.

Definition demo_run (xs : list action) : option (controller (M := Z) (A := Z) (D := nat) (G := Z)) :=
  run_actions (H := number_model) (H0 := list_ops) (fun _ => true) toy_repr demo_sha demo_load (fun _ _ _ => Ok [5]) (fun _ => Ok "done") (fun _ => Err (ValueError "no JSON"))
    (fun _ _ => Ok GenerateResults.flat_probs) (fun l => Z.of_nat (length l)) (fun l => l) GenerateResults.turn_draw demo_settings xs new_controller.

(** A repeated request, one during the pause and an activation before the drain
    are refused. *)
Definition demo_actions : list (action (M := Z) (A := Z) (D := nat) (G := Z)) :=
  [Start (demo_artifact 1 zeros64 "a"); LoadRuns demo_mounted demo_files (Ok (number_policy 0, 0)); LoadReturns false;
   Activate (demo_artifact 2 ones64 "b"); Admit demo_request (request_id "1"); Admit demo_request (request_id "1"); BeginSampling (request_id "1");
   Pause; Admit demo_request (request_id "2"); EndSampling (request_id "1") 0; DrainProven; DrainReturns false;
   Activate (demo_artifact 2 ones64 "b"); LoadRuns demo_mounted demo_files (Err (EOFError "")); LoadReturns false; Resume;
   Admit demo_request (request_id "2"); BeginSampling (request_id "2"); EndSampling (request_id "2") 0].

Lemma controller_single_policy_witness : exists c, demo_run demo_actions = Some c
  /\ map (fun e => (Training.version (e_policy e), core (e_began e), is_ok (e_outcome e))) (sampled c) = [(2, 20, true); (1, 10, true)]
  /\ st c = Running /\ NoDup (e_request <$> sampled c).
Proof.
  destruct (demo_run demo_actions) as [c|] eqn:E; [|by vm_compute in E]. exists c. split; [done|]. split; [|split].
  - transitivity (map (fun e => (Training.version (e_policy e), core (e_began e), is_ok (e_outcome e))) (from_option sampled [] (demo_run demo_actions)));
      [by rewrite E|vm_compute; reflexivity].
  - transitivity (from_option st New (demo_run demo_actions)); [by rewrite E|vm_compute; reflexivity].
  - unfold demo_run in E. apply (controller_single_policy _ _ _ _ _ _ _ _ _ _ _ _ c (ex_intro _ demo_actions E)).
Defined.
