(* ===== verification/BenchmarkAssembler.v ===== *)
(** * Training groups from benchmark episodes ([rollout_manager/benchmark_training.py])

    [GroupAssembler] turns the results of a registered group of episodes into
    one receipt: a training group, or an exclusion with its reasons. The second
    part proves that over any calls a receipt comes from exactly the group's
    own episodes. *)

From stdpp Require Import pretty.
From S2P Require Import Prelude StateRes PyValue Contracts Training TrainingProofs.
Local Open Scope Z_scope.
Local Open Scope py_scope.

Section Assembler.
Context (float_repr : Z -> string) (sha256_hex : string -> string).

(** ** [RewardPolicy] *)

Record RewardPolicy := { rp_benchmark : string; mapping : string }.

Definition SUPPORTED : list (string * string) :=
  [("kernelbench", "native-final-correctness-v1"); ("cuda-agent", "native-final-correctness-v1"); ("terminal-bench", "terminal-validated-verifier-v1")].

Definition new_reward_policy (benchmark mapping : string) : res RewardPolicy :=
  raise_when negb (bool_decide ((benchmark, mapping) ∈ SUPPORTED)) with_exn ValueError "declare a supported, versioned benchmark reward mapping";
  Ok {| rp_benchmark := benchmark; mapping := mapping |}.

(** [float(v)] of a finite number, which a [bool] is not. *)
Definition as_float (message : string) (v : pyval) : res pyfloat :=
  match finite float_repr "" v with Err (ValueError _) => Err (ValueError message) | r => r end.

Definition reward_of (p : RewardPolicy) (r : EpisodeResult) : res pyfloat :=
  raise_when negb (bool_decide (benchmark (result_identity r) = rp_benchmark p)) || negb (bool_decide (execution_state r = "completed"))
             || negb (score_eligible r) || bool_decide (is_Some (failure_category r)) with_exn ValueError "episode execution or scoring is ineligible";
  raise_when negb (bool_decide (cleanup_state r ∈ ["verified"; "not_required"])) || state_uncertain (request_state r) with_exn
    ValueError "episode cleanup or request delivery is unproven";
  raise_when match request_state r with Some (_ :: _) => false | _ => true end with_exn ValueError "episode lacks durable request completion evidence";
  raise_when py_truthy (get_none "training_evidence_error" (native_outcome r)) with_exn ValueError "backend rejected training evidence";
  if bool_decide (mapping p = "native-final-correctness-v1") then
    match get_none "final_correct" (native_outcome r) with
    | PBool value =>
        raise_when negb (bool_decide (verification_state r = if value then "passed" else "failed")) with_exn
          ValueError "native final verification is missing or inconsistent";
        Ok (float_of_units float_repr (if value then float_unit else 0))
    | _ => Err (ValueError "native final verification is missing or inconsistent")
    end
  else
    raise_when negb (bool_decide (verification_state r = "evaluated")) || negb (is_str (get_none "review_classification" (native_outcome r)) "evaluated") with_exn
      ValueError "Terminal verifier requires an authoritative evaluated result";
    as_float "Terminal verifier reward is missing or nonfinite" (get_none "validated_reported_reward" (native_outcome r)).

(** ** [GroupRegistration] *)

Record GroupRegistration := {
  reg_group_id : Z;
  plans : list EpisodePlan;
  reg_policy : PolicyRef;
  reg_initial_context : string;
  reg_reset : string;
  reward_policy : RewardPolicy }.

Definition plan_index (p : EpisodePlan) : Z := Contracts.sample_index (identity p).
Definition plan_le (a b : EpisodePlan) : bool := plan_index a <=? plan_index b.

(** What the plans of one semantic group share. *)
Definition group_key (p : EpisodePlan) : string * string * Z * string * string :=
  (run_id (identity p), benchmark (identity p), pass_index (identity p), Contracts.task_id (task p), source_sha256 (task p)).

Definition new_registration (group_id : Z) (plans : list EpisodePlan) (policy : PolicyRef) (context reset : string) (reward : RewardPolicy) : res GroupRegistration :=
  raise_when (group_id <? 0) || (length plans <? 2)%nat with_exn ValueError "register a semantic training group with G >= 2";
  raise_when negb (distinct (map identity plans)) with_exn ValueError "registered episode identities must be unique";
  raise_when negb (forallb (fun i => bool_decide (i ∈ map plan_index plans)) (map Z.of_nat (seq 0 (length plans))))
             || negb (forallb (fun i => bool_decide (i ∈ map Z.of_nat (seq 0 (length plans)))) (map plan_index plans)) with_exn
    ValueError "registered sample indices must be exactly 0..G-1";
  match plans with
  | [] => Err (IndexError "tuple index out of range")
  | first :: _ =>
      raise_when negb (forallb (fun p => bool_decide (group_key p = group_key first)) plans) with_exn
        ValueError "resource waves of different tasks are not a semantic training group";
      raise_when negb (bool_decide (rp_benchmark reward = benchmark (identity first))) with_exn ValueError "reward mapping differs from registered benchmark";
      raise_when negb (sha256_text context) || negb (sha256_text reset) with_exn ValueError "initial context and reset require exact SHA256 identities";
      Ok {| reg_group_id := group_id; plans := sorted_by plan_le plans; reg_policy := policy; reg_initial_context := context; reg_reset := reset; reward_policy := reward |}
  end.

(** ** [GroupAssembler] *)

Record GroupExclusion := { ex_group_id : Z; ex_expected_size : Z; ex_reasons : list string; ex_episodes : list EpisodeResult }.
Inductive receipt := Complete (g : TrainingGroup) | Excluded (x : GroupExclusion).

(** Results by identity. *)
Record row := { registration : GroupRegistration; results : list (EpisodeIdentity * EpisodeResult) }.

Record assembler := {
  max_groups : Z; max_episodes : Z; groups : gmap Z row; episodes : list (EpisodeIdentity * Z); last_registered : Z }.

Definition new_assembler (max_groups max_episodes : Z) : res assembler :=
  raise_when (max_groups <? 1) || (max_episodes <? 2) with_exn ValueError "group assembler capacities must be positive";
  Ok {| max_groups := max_groups; max_episodes := max_episodes; groups := ∅; episodes := []; last_registered := -1 |}.

Definition register (r : GroupRegistration) : stateful assembler unit :=
  (reading (fun s =>
    raise_when reg_group_id r <=? last_registered s with_exn ValueError "register a new monotonic semantic group identity";
    raise_when (max_groups s <=? Z.of_nat (size (groups s))) || (max_episodes s <? Z.of_nat (length (episodes s) + length (plans r))) with_exn
      ValueError "bounded training group capacity exhausted";
    raise_when existsb (fun p => bool_decide (identity p ∈ map fst (episodes s))) (plans r) with_exn
      ValueError "episode belongs to more than one semantic training group";
    changing (fun s => {| max_groups := max_groups s; max_episodes := max_episodes s;
      groups := <[reg_group_id r := {| registration := r; results := [] |}]> (groups s);
      episodes := episodes s ++ map (fun p => (identity p, reg_group_id r)) (plans r); last_registered := reg_group_id r |})))%handler.

(** [asdict(identity)] *)
Definition identity_dict (i : EpisodeIdentity) : pydict :=
  [("run_id", PStr (run_id i)); ("benchmark", PStr (benchmark i)); ("task_id", PStr (episode_task_id i)); ("group_id", PStr (Contracts.group_id i));
   ("sample_index", PInt (Contracts.sample_index i)); ("pass_index", PInt (pass_index i)); ("trial_id", opt_value PStr (trial_id i));
   ("sampling_seed", opt_value PInt (Contracts.sampling_seed i))].

(** A sampled request with its durable completion and validated evidence. *)
Definition request_done (states : pydict) (t : TurnTrace) : bool :=
  match get_none (request_id t) states with
  | PDict state => is_str (get_none "state" state) "response_received" && is_str (get_none "training_evidence" state) "validated"
  | _ => false
  end.

(** The body of the [try]: the trajectory of one episode. *)
Definition trajectory_of (reg : GroupRegistration) (plan : EpisodePlan) (episode : EpisodeResult) : res TrainingTrajectory :=
  raise_when negb (bool_decide (result_source_sha256 episode = Some (source_sha256 (task plan)))) with_exn
    ValueError "completed source digest differs from registered task";
  reward <-? reward_of (reward_policy reg) episode;
  raw <-? match get_none "training_turns" (native_outcome episode) with
          | PList (v :: l) => Ok (v :: l)
          | _ => Err (ValueError "exact sampled training turns are missing")
          end;
  turns <-? traverse (turn_from_dict float_repr) raw;
  raise_when existsb (fun t => negb (policy_eqb (turn_policy t) (reg_policy reg))) turns with_exn
    ValueError "sample policy receipt differs from registered group lease";
  states <-? match request_state episode with
             | Some d => match get_none "requests" d with PDict states => Ok states | _ => Err (ValueError "sampled requests lack durable delivery records") end
             | None => Err (AttributeError "get")
             end;
  raise_when existsb (fun t => negb (bool_decide (request_id t ∈ dict_keys states))) turns with_exn ValueError "sampled requests lack durable delivery records";
  raise_when existsb (fun t => negb (request_done states t)) turns with_exn
    ValueError "sampled requests lack durable completion and validated training evidence";
  let i := identity plan in
  let default_id := run_id i +:+ ":" +:+ pretty (reg_group_id reg) +:+ ":" +:+ pretty (Contracts.sample_index i) in
  new_trajectory float_repr sha256_hex (PInt (reg_group_id reg)) (PStr (Contracts.task_id (task plan))) (PStr (reg_initial_context reg)) (PStr (reg_reset reg)) (PInt (Contracts.sample_index i))
    turns (PFloat reward) (PBool true) PNone
    (PDict [("episode_identity", PDict (identity_dict (result_identity episode))); ("native_artifacts", native_artifacts episode);
            ("native_outcome", PDict (native_outcome episode)); ("reward_mapping", PStr (mapping (reward_policy reg)))])
    (PStr (match trial_id i with Some s => if bool_decide (s = "") then default_id else s | None => default_id end))
    (PFloat reward) (opt_value PInt (Contracts.sampling_seed i)).

Definition exn_text (e : exn) : string :=
  match e with
  | ValueError m | TypeError m | KeyError m | AttributeError m | RuntimeError m | TimeoutError m | ConflictError m | CapacityError m | GoneError m | OSError m
  | EOFError m | OverflowError m | IndexError m | AssertionError m => m
  end.

(** The loop over plans and episodes: trajectories and reasons; exceptions of
    other classes escape. *)
Fixpoint trajectories (reg : GroupRegistration) (l : list (EpisodePlan * EpisodeResult)) : res (list TrainingTrajectory * list string) :=
  match l with
  | [] => Ok ([], [])
  | (plan, episode) :: l =>
      match trajectory_of reg plan episode with
      | Ok t => rest <-? trajectories reg l; Ok (t :: rest.1, rest.2)
      | Err (TypeError _ as e) | Err (ValueError _ as e) | Err (KeyError _ as e) =>
          rest <-? trajectories reg l; Ok (rest.1, ("sample-" +:+ pretty (plan_index plan) +:+ ": " +:+ exn_text e) :: rest.2)
      | Err e => Err e
      end
  end.

Definition exclusion (reg : GroupRegistration) (reasons : list string) (l : list EpisodeResult) : receipt :=
  Excluded {| ex_group_id := reg_group_id reg; ex_expected_size := Z.of_nat (length (plans reg)); ex_reasons := reasons; ex_episodes := l |}.

Definition receipt_of (reg : GroupRegistration) (l : list (EpisodePlan * EpisodeResult)) : res receipt :=
  done <-? trajectories reg l;
  match done.2, plans reg with
  | [], first :: _ =>
      match new_group (PInt (reg_group_id reg)) (PStr (Contracts.task_id (task first))) (PStr (reg_initial_context reg)) (PStr (reg_reset reg)) (reg_policy reg)
              (PInt (Z.of_nat (length (plans reg)))) done.1 with
      | Ok g => Ok (Complete g)
      | Err (ValueError m) => Ok (exclusion reg [m] (map snd l))
      | Err e => Err e
      end
  | [], [] => Err (IndexError "tuple index out of range")
  | reasons, _ => Ok (exclusion reg reasons (map snd l))
  end.

(** [complete]: [None] while siblings are missing. *)
Definition complete (result : EpisodeResult) : stateful assembler (option receipt) :=
  (reading (fun s =>
    match assoc (result_identity result) (episodes s) with
    | None => raising (ValueError "result was not registered or has already completed")
    | Some group =>
        match groups s !! group with
        | None => raising (KeyError (pretty group))
        | Some row =>
            raise_when bool_decide (result_identity result ∈ map fst (results row)) with_exn ValueError "duplicate benchmark episode completion";
            let reg := registration row in
            let all := results row ++ [(result_identity result, result)] in
            do changing (fun s => {| max_groups := max_groups s; max_episodes := max_episodes s; groups := <[group := {| registration := reg; results := all |}]> (groups s);
                 episodes := episodes s; last_registered := last_registered s |});
            if negb (length all =? length (plans reg))%nat then returning None
            else
              pairs <~ computing (traverse (fun p => match assoc (identity p) all with Some e => Ok (p, e) | None => Err (KeyError "identity") end) (plans reg));
              receipt <~ computing (receipt_of reg pairs);
              do changing (fun s => {| max_groups := max_groups s; max_episodes := max_episodes s; groups := delete group (groups s);
                   episodes := filter (fun e => e.1 ∉ map identity (plans reg)) (episodes s); last_registered := last_registered s |});
              returning (Some receipt)
        end
    end))%handler.

(** Calls of an assembler, and the receipts they return. *)
Inductive assembly_call :=
| Register (group_id : Z) (plans : list EpisodePlan) (policy : PolicyRef) (context reset : string) (reward : RewardPolicy)
| Finish (e : EpisodeResult).

Definition registration_of (c : assembly_call) : res GroupRegistration :=
  match c with
  | Register g plans policy context reset reward => new_registration g plans policy context reset reward
  | Finish _ => Err (TypeError "not a registration")
  end.

Definition assembly_step (c : assembly_call) : stateful assembler (option receipt) :=
  match c with
  | Register _ _ _ _ _ _ => (r <~ computing (registration_of c); do register r; returning None)%handler
  | Finish e => complete e
  end.

(** A call that raises leaves its changes and the caller goes on. *)
Fixpoint assemble (calls : list assembly_call) (s : assembler) : assembler * list receipt :=
  match calls with
  | [] => (s, [])
  | c :: calls =>
      let '(s, r) := assembly_step c s in
      let '(s, l) := assemble calls s in
      (s, match r with Ok (Some receipt) => receipt :: l | _ => l end)
  end.
End Assembler.

(** * Soundness of the receipts *)

#[local] Close Scope py_scope.
Section Assembly.
Context (float_repr : Z -> string) (sha256_hex : string -> string).
#[local] Notation trajectory_of := (trajectory_of float_repr sha256_hex).
#[local] Notation trajectories := (trajectories float_repr sha256_hex).
#[local] Notation receipt_of := (receipt_of float_repr sha256_hex).
#[local] Notation complete := (complete float_repr sha256_hex).
#[local] Notation assembly_step := (assembly_step float_repr sha256_hex).
#[local] Notation assemble := (assemble float_repr sha256_hex).

(** ** Registrations *)

Lemma registration_checks g plans policy context reset reward reg :
  new_registration g plans policy context reset reward = Ok reg ->
  0 <= g /\ reg_group_id reg = g /\ reg_policy reg = policy /\ reward_policy reg = reward /\ BenchmarkAssembler.plans reg ≡ₚ plans
  /\ (2 <= length (BenchmarkAssembler.plans reg))%nat /\ NoDup (map identity (BenchmarkAssembler.plans reg))
  /\ map plan_index (BenchmarkAssembler.plans reg) = map Z.of_nat (seq 0 (length (BenchmarkAssembler.plans reg))).
Proof.
  unfold new_registration. intros H. res_inv H. destruct plans as [|p0 l] eqn:El; [done|]. rewrite <- El in *. res_inv H. subst reg. cbn.
  destr_bool. split_and!; try done.
  - apply sorted_by_perm.
  - by rewrite sorted_by_length.
  - unfold distinct in G0. destr_bool. by rewrite sorted_by_perm.
  - rewrite sorted_by_length. apply indices_exact.
    + pose proof (sorted_by_sorted plan_le (ltac:(unfold plan_le; intros; lia)) (ltac:(unfold plan_le; intros; lia)) plans) as Hs.
      induction Hs as [|p q _ IH Hall]; cbn; constructor; [done|]. apply Forall_fmap.
      eapply Forall_impl; [exact Hall|]. intros u Hu. by apply Z.leb_le.
    + by rewrite length_map, sorted_by_length.
    + intros i Hi. rewrite sorted_by_perm.
      rewrite forallb_forall in H1. assert (bool_decide (i ∈ map plan_index plans) = true) as Hin; [|by destr_bool].
      apply H1, list_elem_of_In, list_elem_of_fmap. exists (Z.to_nat i). rewrite elem_of_seq. lia.
Qed.

(** ** Trajectories *)

(** What a sample of a training group says of its plan and episode. *)
Record sample_sound (reg : GroupRegistration) (p : EpisodePlan) (e : EpisodeResult) (t : TrainingTrajectory) : Prop := {
  ss_index : Training.sample_index t = plan_index p;
  ss_task : Training.task_id t = Contracts.task_id (task p);
  ss_source : result_source_sha256 e = Some (source_sha256 (task p));
  ss_completed : execution_state e = "completed" /\ score_eligible e = true /\ failure_category e = None;
  ss_clean : cleanup_state e ∈ ["verified"; "not_required"] /\ state_uncertain (request_state e) = false;
  ss_reward : exists r, reward_of float_repr (reward_policy reg) e = Ok r /\ reward t = Some r;
  ss_turns : exists raw, get_none "training_turns" (native_outcome e) = PList raw /\ traverse (turn_from_dict float_repr) raw = Ok (turns t);
  ss_policy : Forall (fun u => policy_eqb (turn_policy u) (reg_policy reg) = true) (turns t);
  ss_requests : exists d states, request_state e = Some d /\ get_none "requests" d = PDict states /\ Forall (fun u => request_done states u = true) (turns t) }.

Lemma existsb_negb_Forall {A} (f : A -> bool) l : existsb (fun a => negb (f a)) l = false -> Forall (fun a => f a = true) l.
Proof. induction l; cbn; [done|]. intros [? ?]%orb_false_iff. destr_bool. constructor; auto. Qed.

Lemma reward_eligible_episode p e r : reward_of float_repr p e = Ok r ->
  benchmark (result_identity e) = rp_benchmark p /\ execution_state e = "completed" /\ score_eligible e = true /\ failure_category e = None
  /\ cleanup_state e ∈ ["verified"; "not_required"] /\ state_uncertain (request_state e) = false.
Proof.
  unfold reward_of. intros H. repeat match type of H with context [if ?b then Err _ else _] => destruct b eqn:?; [done|] end.
  clear H. destr_bool. split_and!; try done. match goal with H : ~ is_Some _ |- _ => by apply eq_None_not_Some in H end.
Qed.

Lemma new_trajectory_fields a b c d i ts r f g sid raw seed t :
  new_trajectory float_repr sha256_hex a b c d i ts (PFloat r) (PBool true) f g sid raw seed = Ok t ->
  PInt (Training.sample_index t) = i /\ PStr (Training.task_id t) = b /\ turns t = ts /\ reward t = Some r.
Proof.
  unfold new_trajectory. intros H. res_inv H. destruct ts as [|t0 ts]; [done|]. res_inv H. subst t. cbn [Training.sample_index Training.task_id turns reward].
  match goal with H : optional _ (PFloat r) = Ok ?v |- _ => cbn [optional] in H; res_inv H end.
  repeat match goal with H : integer _ _ _ = Ok _ |- _ => apply integer_inv in H as [-> _] | H : nonempty _ b = Ok _ |- _ => apply nonempty_inv in H as [-> _] end.
  split_and!; try done. match goal with H : finite _ _ _ = Ok _ |- _ => apply finite_float in H as -> end. congruence.
Qed.

Lemma trajectory_sound reg p e t : trajectory_of reg p e = Ok t -> sample_sound reg p e t.
Proof.
  unfold BenchmarkAssembler.trajectory_of. intros H. res_inv H. destr_bool.
  destruct (get_none "training_turns" (native_outcome e)) as [| | | | |[|v raw]|] eqn:Eraw; try done. injection R0 as <-.
  destruct (request_state e) as [d|] eqn:Ed; [|done]. destruct (get_none "requests" d) as [| | | | | |states] eqn:Es; try done. injection R2 as <-.
  pose proof (reward_eligible_episode _ _ _ R) as (_ & Hx & Hs & Hf & Hc & Hu).
  apply new_trajectory_fields in H as ([= Hi] & [= Ht] & Hts & Hr). split; try done; rewrite ?Hts, ?Ed; try (by apply existsb_negb_Forall); eauto.
  exists d, states. split_and!; [done|done|by apply existsb_negb_Forall].
Qed.

Lemma trajectories_all reg l ts : trajectories reg l = Ok (ts, []) -> Forall2 (fun pe t => trajectory_of reg pe.1 pe.2 = Ok t) l ts.
Proof.
  revert ts; induction l as [|[p e] l IH]; intros ts H; cbn in H; [injection H as <-; constructor|].
  destruct (trajectory_of reg p e) as [t|[]] eqn:Et; try done; destruct (trajectories reg l) as [[rest why]|]; try done; cbn in H;
    injection H as <- Hwhy; try done. subst why. constructor; [done|]. by apply IH.
Qed.

(** What a receipt says of its registration and episodes. *)
Definition receipt_sound (reg : GroupRegistration) (es : list EpisodeResult) (r : receipt) : Prop :=
  match r with
  | Complete g => tg_group_id g = reg_group_id reg /\ tg_policy g = reg_policy reg /\ expected_size g = Z.of_nat (length (plans reg))
      /\ NoDup (map request_id (mbind turns (samples g)))
      /\ Forall2 (fun pe t => sample_sound reg pe.1 pe.2 t) (zip (plans reg) es) (samples g)
  | Excluded x => ex_group_id x = reg_group_id reg /\ ex_expected_size x = Z.of_nat (length (plans reg)) /\ ex_reasons x <> [] /\ ex_episodes x = es
  end.

Lemma samples_in_order reg es ts : length es = length (plans reg) ->
  map plan_index (plans reg) = map Z.of_nat (seq 0 (length (plans reg))) ->
  Forall2 (fun pe t => trajectory_of reg pe.1 pe.2 = Ok t) (zip (plans reg) es) ts -> sorted_by index_le ts = ts.
Proof.
  intros Hl Hidx H. apply sorted_by_id, (indices_in_order 0 (length (plans reg))). rewrite <- Hidx.
  assert (map plan_index (plans reg) = map plan_index (zip (plans reg) es).*1) as ->. { rewrite fst_zip by lia. done. }
  clear -H. induction H as [|pe t l ts Ht _ IH]; [done|]. cbn. f_equal; [|exact IH]. apply (ss_index _ _ _ _ (trajectory_sound _ _ _ _ Ht)).
Qed.

Lemma receipt_is_sound reg es r : length es = length (plans reg) ->
  map plan_index (plans reg) = map Z.of_nat (seq 0 (length (plans reg))) ->
  receipt_of reg (zip (plans reg) es) = Ok r -> receipt_sound reg es r.
Proof.
  intros Hl Hidx H. unfold BenchmarkAssembler.receipt_of in H. destruct (trajectories _ _) as [[ts why]|] eqn:Et; [|done]. cbn [fst snd] in H.
  assert (forall reasons, reasons <> [] -> receipt_sound reg es (exclusion reg reasons (zip (plans reg) es).*2)) as Hex.
  { intros reasons Hne. cbn. split_and!; try done. apply snd_zip. lia. }
  destruct why as [|w why]; [|destruct (plans reg); injection H as <-; by apply Hex].
  apply trajectories_all in Et. destruct (plans reg) as [|first rest] eqn:Ep; [done|]. rewrite <- Ep in *.
  destruct (new_group _ _ _ _ _ _ _) as [g|[]] eqn:Eg; try done; injection H as <-; [|by apply Hex].
  pose proof (new_group_checks _ _ _ _ _ _ _ _ Eg) as (Hc & Hp & [= Hid]). pose proof (gc_samples _ _ Hc) as Hs.
  rewrite (samples_in_order reg es ts Hl Hidx Et) in Hs.
  split_and!; [done|done| | |].
  - rewrite <- (gc_length _ _ Hc). apply Forall2_length in Et. rewrite length_zip in Et. lia.
  - rewrite Hs. exact (bool_decide_eq_true_1 _ (gc_requests _ _ Hc)).
  - rewrite Hs. eapply Forall2_impl; [exact Et|]. intros pe t. apply trajectory_sound.
Qed.

(** ** The invariant of the assembler *)

Definition receipt_id (r : receipt) : Z := match r with Complete g => tg_group_id g | Excluded x => ex_group_id x end.
Definition registered (calls : list assembly_call) (reg : GroupRegistration) : Prop := exists c, c ∈ calls /\ registration_of c = Ok reg.

(** A receipt of one of the registered groups, from results that were submitted. *)
Definition receipt_from (calls : list assembly_call) (r : receipt) : Prop := exists reg es,
  registered calls reg /\ receipt_id r = reg_group_id reg
  /\ Forall2 (fun p e => result_identity e = identity p /\ Finish e ∈ calls) (plans reg) es /\ receipt_sound reg es r.

(** A group waits for a result, or building its receipt raised. *)
Definition waiting_or_stuck (r : row) : Prop :=
  (length (results r) < length (plans (registration r)))%nat
  \/ exists es e, Forall2 (fun p x => result_identity x = identity p) (plans (registration r)) es
     /\ receipt_of (registration r) (zip (plans (registration r)) es) = Err e.

Record row_ok (calls : list assembly_call) (g : Z) (r : row) : Prop := {
  ro_registered : registered calls (registration r);
  ro_id : reg_group_id (registration r) = g;
  ro_once : NoDup (map fst (results r));
  ro_results : Forall (fun ie => result_identity ie.2 = ie.1 /\ Finish ie.2 ∈ calls /\ ie.1 ∈ map identity (plans (registration r))) (results r);
  ro_open : waiting_or_stuck r }.

Record assembly_ok (calls : list assembly_call) (s : assembler) (rs : list receipt) : Prop := {
  ao_groups : Z.of_nat (size (groups s)) <= max_groups s;
  ao_episodes : Z.of_nat (length (episodes s)) <= max_episodes s;
  ao_once : NoDup (map fst (episodes s));
  ao_owner : forall i g, (i, g) ∈ episodes s <-> exists r, groups s !! g = Some r /\ i ∈ map identity (plans (registration r));
  ao_rows : forall g r, groups s !! g = Some r -> row_ok calls g r /\ g <= last_registered s;
  ao_receipts : NoDup (map receipt_id rs);
  ao_closed : forall r, r ∈ rs -> receipt_from calls r /\ receipt_id r <= last_registered s /\ groups s !! receipt_id r = None }.

Lemma new_assembler_ok calls mg me s : new_assembler mg me = Ok s -> assembly_ok calls s [] /\ max_groups s = mg /\ max_episodes s = me.
Proof.
  unfold new_assembler. intros H. res_inv H. subst s. destr_bool. split; [|done]. split; cbn; try done; try lia; try (by constructor); try set_solver.
  rewrite map_size_empty. lia.
Qed.

Lemma registered_facts calls reg : registered calls reg ->
  (2 <= length (plans reg))%nat /\ NoDup (map identity (plans reg)) /\ map plan_index (plans reg) = map Z.of_nat (seq 0 (length (plans reg))).
Proof. intros (c & _ & Hc). destruct c; [|done]. apply registration_checks in Hc as (_ & _ & _ & _ & _ & ? & ? & ?). done. Qed.

Lemma register_ok calls reg s rs s' u : registered calls reg -> assembly_ok calls s rs ->
  register reg s = (s', u) -> assembly_ok calls s' rs /\ max_groups s' = max_groups s /\ max_episodes s' = max_episodes s.
Proof.
  intros Hreg I. unfold register, reading, raising. repeat case_match; intros [= <- _]; try (split; done). destr_bool.
  pose proof (registered_facts _ _ Hreg) as (H2' & Hnd & _).
  assert (groups s !! reg_group_id reg = None) as Hnew.
  { destruct (groups s !! reg_group_id reg) as [r|] eqn:E; [|done]. apply (ao_rows _ _ _ I) in E as [_ E]. lia. }
  assert (forall i, i ∈ map identity (plans reg) -> i ∉ map fst (episodes s)) as Hapart.
  { intros i (p & -> & Hp)%list_elem_of_fmap Hi. assert (existsb (fun p => bool_decide (identity p ∈ map fst (episodes s))) (plans reg) = true) as Hex; [|congruence].
    apply existsb_exists. exists p. split; [by apply list_elem_of_In|by apply bool_decide_eq_true]. }
  split; [|done]. split; cbn [groups episodes last_registered max_groups max_episodes]; try apply I.
  - rewrite map_size_insert_None by done. lia.
  - rewrite length_app, length_map. lia.
  - rewrite map_app, map_map. apply NoDup_app. split_and!; [apply I| |exact Hnd].
    intros i Hi Hi'. by apply (Hapart i).
  - intros i g. rewrite elem_of_app, (ao_owner _ _ _ I). split.
    + intros [(r & Hr & Hi)|(p & [= -> ->] & Hp)%list_elem_of_fmap].
      * exists r. split; [|done]. rewrite lookup_insert_ne; [done|]. intros E. congruence.
      * eexists. rewrite lookup_insert_eq. split; [done|]. cbn. by apply list_elem_of_fmap_2.
    + intros (r & Hr & Hi). apply lookup_insert_Some in Hr as [[<- <-]|[_ Hr]]; [right|left; by exists r].
      cbn in Hi. apply list_elem_of_fmap in Hi as (p & -> & Hp). by apply (list_elem_of_fmap_2 (fun p => (identity p, reg_group_id reg))).
  - intros g r [[<- <-]|[_ Hr]]%lookup_insert_Some; [|destruct (ao_rows _ _ _ I g r Hr); split; [done|lia]].
    split; [|lia]. split; cbn; [done|done|constructor|constructor|]. left. cbn. lia.
  - intros r Hr. destruct (ao_closed _ _ _ I r Hr) as (Hf & Hl & Hn). split_and!; [done|lia|].
    rewrite lookup_insert_ne; [done|]. lia.
Qed.

Lemma pairs_total (ps : list EpisodePlan) (all : list (EpisodeIdentity * EpisodeResult)) :
  Forall (fun p => identity p ∈ map fst all) ps ->
  exists es, traverse (fun p => match assoc (identity p) all with Some e => Ok (p, e) | None => Err (KeyError "identity") end) ps = Ok (zip ps es)
    /\ Forall2 (fun p e => (identity p, e) ∈ all) ps es.
Proof.
  induction 1 as [|p ps Hp _ (es & Hes & Hall)]; [by exists []|].
  destruct (assoc (identity p) all) as [e|] eqn:Ee; [|by apply assoc_none in Ee].
  exists (e :: es). split; [|constructor; [by apply assoc_some|done]]. cbn. by rewrite Ee, Hes.
Qed.

(** The row after another result. *)
Definition more (r : row) (e : EpisodeResult) : row :=
  {| registration := registration r; results := results r ++ [(result_identity e, e)] |}.

Lemma more_ok calls g r e : row_ok calls g r -> Finish e ∈ calls -> result_identity e ∉ map fst (results r) ->
  result_identity e ∈ map identity (plans (registration r)) ->
  NoDup (map fst (results (more r e)))
  /\ Forall (fun ie => result_identity ie.2 = ie.1 /\ Finish ie.2 ∈ calls /\ ie.1 ∈ map identity (plans (registration r))) (results (more r e))
  /\ (length (results (more r e)) <= length (plans (registration r)))%nat
  /\ (length (results (more r e)) = length (plans (registration r)) -> Forall (fun p => identity p ∈ map fst (results (more r e))) (plans (registration r))).
Proof.
  intros R He Hn Hp. cbn [more results]. pose proof (registered_facts _ _ (ro_registered _ _ _ R)) as (_ & Hnd & _).
  set (all := results r ++ _).
  assert (NoDup (map fst all)) as Ha.
  { subst all. rewrite map_app. apply NoDup_app. split_and!; [apply R| |apply NoDup_singleton]. by intros i Hi ->%list_elem_of_singleton. }
  assert (Forall (fun ie => result_identity ie.2 = ie.1 /\ Finish ie.2 ∈ calls /\ ie.1 ∈ map identity (plans (registration r))) all) as Hf.
  { apply Forall_app. split; [apply R|]. by constructor. }
  assert (map fst all ⊆+ map identity (plans (registration r))) as Hs.
  { apply NoDup_submseteq; [done|]. intros i (ie & -> & Hie)%list_elem_of_fmap. rewrite Forall_forall in Hf. by apply Hf. }
  split_and!; [done|done| |].
  - apply submseteq_length in Hs. by rewrite !length_map in Hs.
  - intros Hl. apply Forall_forall. intros p Hin. apply submseteq_length_Permutation in Hs; [|rewrite !length_map; lia].
    rewrite Hs. by apply list_elem_of_fmap_2.
Qed.

(** Replacing a row by one of the same registration. *)
Lemma row_update_ok calls s rs g r r' : assembly_ok calls s rs -> groups s !! g = Some r -> registration r' = registration r -> row_ok calls g r' ->
  assembly_ok calls {| max_groups := max_groups s; max_episodes := max_episodes s; groups := <[g := r']> (groups s);
                       episodes := episodes s; last_registered := last_registered s |} rs.
Proof.
  intros I Hg Hr Hok. split; cbn [groups episodes last_registered max_groups max_episodes]; try apply I.
  - rewrite map_size_insert_Some by eauto. apply I.
  - intros i h. rewrite (ao_owner _ _ _ I). destruct (decide (h = g)) as [->|Hne]; [rewrite lookup_insert_eq, Hg|by rewrite lookup_insert_ne].
    split; intros (x & [= <-] & Hi); eexists; (split; [done|]); by rewrite ?Hr in *.
  - intros h x [[<- <-]|[_ Hx]]%lookup_insert_Some; [|by apply (ao_rows _ _ _ I)]. split; [done|]. by apply (ao_rows _ _ _ I g r).
  - intros x Hx. destruct (ao_closed _ _ _ I x Hx) as (Hf & Hl & Hn). split_and!; [done|done|]. rewrite lookup_insert_ne; [done|]. intros ->. congruence.
Qed.

(** Closing a group with its receipt. *)
Lemma close_ok calls s rs g r rec : assembly_ok calls s rs -> groups s !! g = Some r -> receipt_id rec = g -> receipt_from calls rec ->
  assembly_ok calls {| max_groups := max_groups s; max_episodes := max_episodes s; groups := delete g (groups s);
                       episodes := filter (fun e => e.1 ∉ map identity (plans (registration r))) (episodes s); last_registered := last_registered s |} (rs ++ [rec]).
Proof.
  intros I Hg Hid Hfrom. destruct (ao_rows _ _ _ I g r Hg) as [Hrow Hlast].
  split; cbn [groups episodes last_registered max_groups max_episodes].
  - pose proof (ao_groups _ _ _ I). rewrite map_size_delete_Some by eauto. lia.
  - pose proof (ao_episodes _ _ _ I). pose proof (length_filter (fun e : EpisodeIdentity * Z => e.1 ∉ map identity (plans (registration r))) (episodes s)). lia.
  - eapply sublist_NoDup; [apply (ao_once _ _ _ I)|]. apply fmap_sublist, sublist_filter.
  - intros i h. rewrite list_elem_of_filter, (ao_owner _ _ _ I). cbn. split.
    + intros [Hi (x & Hx & Hix)]. exists x. split; [|done]. rewrite lookup_delete_ne; [done|]. intros ->. rewrite Hg in Hx. by injection Hx as <-.
    + intros (x & [Hne Hx]%lookup_delete_Some & Hix). split; [|by exists x]. intros Hi. apply Hne.
      assert ((i, g) ∈ episodes s) as H1 by (apply (ao_owner _ _ _ I); eauto). assert ((i, h) ∈ episodes s) as H2' by (apply (ao_owner _ _ _ I); eauto).
      apply list_elem_of_lookup in H1 as [a Ha], H2' as [b Hb].
      assert (a = b) as ->; [|congruence]. eapply (NoDup_lookup (map fst (episodes s))); [apply I| |]; rewrite list_lookup_fmap, ?Ha, ?Hb; done.
  - intros h x [_ Hx]%lookup_delete_Some. by apply (ao_rows _ _ _ I).
  - rewrite map_app. apply NoDup_app. split_and!; [apply I| |apply NoDup_singleton].
    intros i (x & -> & Hx)%list_elem_of_fmap Hi%list_elem_of_singleton. destruct (ao_closed _ _ _ I x Hx) as (_ & _ & Hn). congruence.
  - intros x [Hx| ->%list_elem_of_singleton]%elem_of_app; [|split_and!; [done|lia|rewrite Hid; apply lookup_delete_eq]].
    destruct (ao_closed _ _ _ I x Hx) as (? & ? & Hn). split_and!; [done|done|]. apply lookup_delete_None. by right.
Qed.

Definition emitted (o : res (option receipt)) : list receipt := match o with Ok (Some r) => [r] | _ => [] end.

Lemma zip_identities (ps : list EpisodePlan) es (all : list (EpisodeIdentity * EpisodeResult)) (P : EpisodeResult -> Prop) :
  Forall2 (fun p e => (identity p, e) ∈ all) ps es -> Forall (fun ie => result_identity ie.2 = ie.1 /\ P ie.2) all ->
  Forall2 (fun p e => result_identity e = identity p /\ P e) ps es.
Proof. intros H Hf. rewrite Forall_forall in Hf. eapply Forall2_impl; [exact H|]. intros p e He. exact (Hf _ He). Qed.

Lemma complete_ok calls e s rs : assembly_ok calls s rs -> Finish e ∈ calls ->
  assembly_ok calls (complete e s).1 (rs ++ emitted (complete e s).2)
  /\ max_groups (complete e s).1 = max_groups s /\ max_episodes (complete e s).1 = max_episodes s.
Proof.
  intros I He. unfold BenchmarkAssembler.complete, reading, raising. destruct (assoc _ _) as [g|] eqn:Ef; [|by rewrite app_nil_r]. apply assoc_some in Ef.
  apply (ao_owner _ _ _ I) in Ef as (r & Hg & Hp). rewrite Hg. destruct (bool_decide _) eqn:Edup; [by rewrite app_nil_r|].
  apply bool_decide_eq_false in Edup. destruct (ao_rows _ _ _ I g r Hg) as [R _].
  destruct (more_ok calls g r e R He Edup Hp) as (Hnd & Hf & Hle & Hall).
  change (results r ++ [(result_identity e, e)]) with (results (more r e)).
  change {| registration := registration r; results := results (more r e) |} with (more r e).
  pose proof (row_update_ok calls s rs g r (more r e) I Hg eq_refl) as Hupd.
  unfold sequence, changing. cbn [fst snd]. destruct (negb _) eqn:Elen; cbn [returning fst snd emitted].
  { rewrite app_nil_r. split; [|done]. apply Hupd. destr_bool. split; try done; try apply R. left. cbn [registration more] in *. lia. }
  destr_bool. destruct (pairs_total _ _ (Hall Elen)) as (es & -> & Hes). unfold computing. cbn [fst snd]. cbv beta iota.
  assert (Forall2 (fun p x => result_identity x = identity p /\ Finish x ∈ calls) (plans (registration r)) es) as Hfrom.
  { apply (zip_identities _ _ _ (fun x => Finish x ∈ calls) Hes). eapply Forall_impl; [exact Hf|]. naive_solver. }
  destruct (receipt_of _ _) as [rec|err] eqn:Erec; cbn [fst snd emitted groups episodes max_groups max_episodes last_registered]; (split; [|done]).
  - rewrite delete_insert_eq. pose proof (registered_facts _ _ (ro_registered _ _ _ R)) as (_ & _ & Hidx).
    apply receipt_is_sound in Erec; [|symmetry; by eapply Forall2_length|done].
    assert (receipt_id rec = reg_group_id (registration r)) as Hid by (destruct rec; apply Erec).
    apply close_ok; [done|done| |]; [by rewrite Hid; apply R|]. exists (registration r), es. split_and!; [apply R|done|done|done].
  - rewrite app_nil_r. apply Hupd. split; try done; try apply R. right. exists es, err. split; [|done].
    eapply Forall2_impl; [exact Hfrom|]. naive_solver.
Qed.

Lemma assemble_ok calls rest s rs : assembly_ok calls s rs -> rest ⊆ calls ->
  assembly_ok calls (assemble rest s).1 (rs ++ (assemble rest s).2)
  /\ max_groups (assemble rest s).1 = max_groups s /\ max_episodes (assemble rest s).1 = max_episodes s.
Proof.
  revert s rs; induction rest as [|c rest IH]; intros s rs I Hsub; [by rewrite app_nil_r|].
  assert (exists t o, assembly_step c s = (t, o) /\ assembly_ok calls t (rs ++ emitted o) /\ max_groups t = max_groups s /\ max_episodes t = max_episodes s)
    as (t & o & Est & It & Hg & Hm).
  { destruct c as [g ps p x y z|e]; cbn [BenchmarkAssembler.assembly_step].
    - unfold sequence, computing. destruct (registration_of _) as [reg|] eqn:Er; [|eexists _, _; split; [done|]; by rewrite app_nil_r].
      destruct (register reg s) as [t u] eqn:Eu. apply (register_ok calls) with (rs := rs) in Eu as (It & ?); [|eexists; split; [|done]; set_solver|done].
      destruct u; eexists _, _; (split; [done|]); by rewrite app_nil_r.
    - destruct (complete e s) as [t o] eqn:Ec. pose proof (complete_ok calls e s rs I ltac:(set_solver)) as Hc. rewrite Ec in Hc. by exists t, o. }
  cbn [BenchmarkAssembler.assemble]. rewrite Est. destruct (IH t _ It ltac:(set_solver)) as (Hi & Hg' & Hm').
  destruct (assemble rest t) as [u l]. cbn [fst snd] in *. split; [|split; congruence].
  rewrite <- app_assoc in Hi. by destruct o as [[]|].
Qed.

(** C7. A training group is made of exactly its own episodes: over any calls of
    an assembler, its capacities hold, no group gets two receipts, and each
    receipt comes from a registered group with one submitted result per plan.
    A training group holds one sample per plan in index order, each from a
    completed, eligible, cleaned-up episode of the plan's source digest, with
    the reward of the group's reward policy, turns sampled under the group's
    policy lease and a durable validated receipt for each request, and no
    request occurs twice; an exclusion gives reasons and all the episodes. A
    group still open lacks a result, or building its receipt raised. *)
Theorem assembler_group_sound calls mg me s0 s rs :
  new_assembler mg me = Ok s0 -> assemble calls s0 = (s, rs) ->
  Z.of_nat (size (groups s)) <= mg /\ Z.of_nat (length (episodes s)) <= me
  /\ NoDup (map receipt_id rs) /\ Forall (receipt_from calls) rs
  /\ (forall g r, groups s !! g = Some r -> waiting_or_stuck r /\ g ∉ map receipt_id rs).
Proof.
  intros Hnew Hrun. apply (new_assembler_ok calls) in Hnew as (I0 & Hg & Hm).
  destruct (assemble_ok calls calls s0 [] I0 (reflexivity _)) as (I & Hg' & Hm'). rewrite Hrun in I, Hg', Hm'. cbn [fst snd app] in *.
  split_and!; [rewrite <- Hg, <- Hg'; apply I|rewrite <- Hm, <- Hm'; apply I|apply I| |].
  - apply Forall_forall. intros r Hr. by apply (ao_closed _ _ _ I).
  - intros g r Hr. split; [apply (ao_rows _ _ _ I g r Hr)|]. intros (x & -> & Hx)%list_elem_of_fmap.
    destruct (ao_closed _ _ _ I x Hx) as (_ & _ & Hn). congruence.
Qed.
End Assembly.

(** ** A group of two episodes *)

Definition toy_plan (i : Z) : EpisodePlan :=
  {| identity := {| run_id := "run"; benchmark := "kernelbench"; episode_task_id := "task"; Contracts.group_id := "g"; Contracts.sample_index := i; pass_index := 0;
                    trial_id := None; Contracts.sampling_seed := None |};
     task := {| task_benchmark := "kernelbench"; Contracts.task_id := "task"; source_sha256 := zeros64; task_payload := []; resources := {| executor := "cpu-pool"; cpu := 1; memory_bytes := 1; storage_bytes := 0; gpu_count := 0; accounting := "episode" |}; budgets := []; provenance := [] |}; plan_payload := PNone |}.
Definition toy_reward : RewardPolicy := {| rp_benchmark := "kernelbench"; mapping := "native-final-correctness-v1" |}.
Definition toy_turn (i : Z) : TurnTrace :=
  {| turn_id := 1; request_id := if i =? 0 then "r0" else "r1"; context_token_ids := [5]; action_token_ids := [7]; behavior_log_probs := [float_minus_one];
     turn_policy := example_policy; finish_reason := "stop"; stop_token_count := 0; context_truncation := "none" |}.
Definition toy_result (i : Z) : EpisodeResult :=
  {| result_identity := identity (toy_plan i); execution_state := "completed"; verification_state := "passed"; score_eligible := true; cleanup_state := "verified";
     native_outcome := [("final_correct", PBool true); ("training_turns", PList [turn_to_dict toy_repr (toy_turn i)])];
     native_artifacts := PNone; usage := PNone; timings := PNone; failure_category := None; model_identity := None;
     request_state := Some [("requests", PDict [(request_id (toy_turn i), PDict [("state", PStr "response_received"); ("training_evidence", PStr "validated")])])];
     configuration_sha256 := None; result_source_sha256 := Some zeros64 |}.
Definition toy_calls : list assembly_call := [Register 4 [toy_plan 1; toy_plan 0] example_policy zeros64 zeros64 toy_reward; Finish (toy_result 1); Finish (toy_result 0)].
Definition toy_assembler : assembler := {| max_groups := 1; max_episodes := 2; groups := ∅; episodes := []; last_registered := -1 |}.

Lemma assembler_group_sound_witness :
  new_assembler 1 2 = Ok toy_assembler
  /\ exists s g, assemble toy_repr toy_sha256 toy_calls toy_assembler = (s, [Complete g]) /\ receipt_from toy_repr toy_calls (Complete g).
Proof.
  split; [reflexivity|]. destruct (assemble toy_repr toy_sha256 toy_calls toy_assembler) as [s rs] eqn:E.
  destruct (assembler_group_sound toy_repr toy_sha256 toy_calls 1 2 toy_assembler s rs eq_refl E) as (_ & _ & _ & Hf & _).
  vm_compute in E. injection E as <- <-. eexists _, _. split; [reflexivity|]. by apply Forall_cons in Hf as [Hf _].
Defined.
