(* ===== verification/BenchmarkProvider.v ===== *)
(** * The benchmark training provider ([BenchmarkTrainingProvider] of [rollout_manager/benchmark_training.py])

    The provider produces groups on the coordinator's stream ([Stream]) under
    one policy and hands their packets to the learner. Its coroutines run on
    one event loop, so a run is a sequence of the pieces between two [await]s,
    each an [action]; a piece that would block is not enabled. The injected
    controller, the plan factory and the clock answer through the actions;
    [None] of a recovery state is [[]]. Group numbers of a recovery state are
    integers. Event-store appends succeed. *)

From S2P Require Import Prelude StateRes PyValue Contracts Training BenchmarkAssembler.
From S2P Require Coordinator Stream.
Local Open Scope Z_scope.
Local Open Scope py_scope.

(** A finished group: every entry of its packet but the group itself. *)
Record packet := { fields : pydict; group : option TrainingGroup }.

(** [asdict(result)] *)
Definition result_dict (r : EpisodeResult) : pyval :=
  PDict [("identity", PDict (identity_dict (result_identity r))); ("execution_state", PStr (execution_state r)); ("verification_state", PStr (verification_state r));
         ("score_eligible", PBool (score_eligible r)); ("cleanup_state", PStr (cleanup_state r)); ("native_outcome", PDict (native_outcome r));
         ("native_artifacts", native_artifacts r); ("usage", usage r); ("timings", timings r); ("failure_category", opt_value PStr (failure_category r));
         ("model_identity", opt_value PStr (model_identity r)); ("request_state", opt_value PDict (request_state r));
         ("configuration_sha256", opt_value PStr (configuration_sha256 r)); ("source_sha256", opt_value PStr (result_source_sha256 r))].

Definition exclusion_dict (x : GroupExclusion) : pyval :=
  PDict [("schema_version", PInt 1); ("kind", PStr "excluded_training_group"); ("group_id", PInt (ex_group_id x)); ("expected_size", PInt (ex_expected_size x));
         ("reasons", PList (map PStr (ex_reasons x))); ("episodes", PList (map result_dict (ex_episodes x)))].

(** The retained groups in insertion order, with their delivery flags. *)
Record mailbox := { retained : list (Z * (packet * bool)); next_group : Z; committed : Z; dropped : Z }.

Inductive pump_state :=
| Waiting
| Looping
| Preparing
| Executing (reg : GroupRegistration) (started_at : pyfloat)
| Publishing (g : Z)
| Finished.

Inductive control_phase :=
| PauseWaiting
| PauseDraining
| PauseAsking
| Activating (prior : PolicyRef) (a : pydict)
| Resuming.

Record provider := {
  policy : PolicyRef;
  artifact : pydict;
  ack : pydict;
  box : mailbox;
  asm : assembler;
  stream : Stream.stream;
  pump : pump_state;
  paused : bool;
  closing : bool;
  failure : option exn;
  activation_ready : bool;
  timed_out : bool;
  changed : bool;
  control : option control_phase }.

Definition with_policy a b k p := {| policy := a; artifact := b; ack := k; box := box p; asm := asm p; stream := stream p; pump := pump p; paused := paused p;
  closing := closing p; failure := failure p; activation_ready := activation_ready p; timed_out := timed_out p; changed := changed p; control := control p |}.
Definition with_box b p := {| policy := policy p; artifact := artifact p; ack := ack p; box := b; asm := asm p; stream := stream p; pump := pump p; paused := paused p;
  closing := closing p; failure := failure p; activation_ready := activation_ready p; timed_out := timed_out p; changed := changed p; control := control p |}.
Definition with_work a s u p := {| policy := policy p; artifact := artifact p; ack := ack p; box := box p; asm := a; stream := s; pump := u; paused := paused p;
  closing := closing p; failure := failure p; activation_ready := activation_ready p; timed_out := timed_out p; changed := changed p; control := control p |}.
Definition with_pause b e p := {| policy := policy p; artifact := artifact p; ack := ack p; box := box p; asm := asm p; stream := stream p; pump := pump p; paused := b;
  closing := closing p; failure := e; activation_ready := activation_ready p; timed_out := timed_out p; changed := changed p; control := control p |}.
Definition with_control r o p := {| policy := policy p; artifact := artifact p; ack := ack p; box := box p; asm := asm p; stream := stream p; pump := pump p; paused := paused p;
  closing := closing p; failure := failure p; activation_ready := r; timed_out := timed_out p; changed := changed p; control := o |}.
Definition with_signal b p := {| policy := policy p; artifact := artifact p; ack := ack p; box := box p; asm := asm p; stream := stream p; pump := pump p; paused := paused p;
  closing := closing p; failure := failure p; activation_ready := activation_ready p; timed_out := timed_out p; changed := b; control := control p |}.
Definition with_pump u p := with_work (asm p) (stream p) u p.
Definition with_stream s p := with_work (asm p) s (pump p) p.

(** [_active] *)
Definition active (p : provider) : bool := match pump p with Preparing | Executing _ _ => true | _ => false end.
Definition stopped (p : provider) : bool := Stream.halted (Stream.st_credits (stream p)).

Inductive output :=
| Silent
| Returned (v : pyval)
| Raised (e : exn)
| Delivered (g : Z) (k : packet)
| Snapshot (s : pydict).

(** What [_produce] asks of the backend of a group: [validate_training_plans]
    if it has one, else the finite case map of a [NativeBackend]. *)
Inductive training_backend :=
| Validates (validate_training_plans : list EpisodePlan -> res unit)
| NativeCases (cases : gmap (string * Z * Z) (string * option Z))
| Unvalidated.

Section Provider.
Context (float_repr : Z -> string) (sha256_hex : string -> string).
(** The coordinator, its backends, and the process. *)
Context (c : Coordinator.Config) (has_admit_group : nat -> bool) (backends : string -> option training_backend) (pid : Z).
(** The injected [policy_factory], and the run configuration. *)
Context (policy_factory : pydict -> res PolicyRef) (config_temperature : pyfloat) (queue_capacity groups_per_step group_size : Z).

Definition bound : Z := queue_capacity + groups_per_step.

(** ** Packets in a snapshot *)

Definition encode (k : packet) : pyval :=
  PDict (dict_set "training_group" (match group k with Some g => group_to_dict float_repr g | None => PNone end) (fields k)).

Definition decode (v : pyval) : res packet :=
  d <-? py_dict v;
  raw <-? dict_item "training_group" d;
  g <-? (if py_truthy raw then g <-? group_from_dict float_repr sha256_hex raw; Ok (Some g) else Ok None);
  own <-? match g with
          | Some g => Ok (PInt (tg_group_id g))
          | None => match default (PDict []) (dict_get "exclusion" d) with PDict x => Ok (get_none "group_id" x) | _ => Err (AttributeError "get") end
          end;
  id <-? dict_item "group_id" d;
  raise_when negb (py_eqb own id) with_exn
    ValueError (match g with Some _ => "restored benchmark packet identity differs" | None => "restored benchmark exclusion identity differs" end);
  Ok {| fields := filter (fun kv => kv.1 ∉ ["group"; "training_group"]) d; group := g |}.

(** ** Construction and recovery *)

Record unstarted := { u_policy : PolicyRef; u_artifact : pydict; u_box : mailbox; u_asm : assembler }.

Definition dict_int (k : string) (d : pydict) : res Z :=
  v <-? dict_item k d; match v with PInt z => Ok z | _ => Err (TypeError "an integer is required") end.

(** [dict(a) == dict(b)] of a sampling rule. *)
Definition same_sampling (a b : PolicyRef) : bool := fval_eqb (float_value (temperature a)) (float_value (temperature b)).
Definition same_identities (a b : PolicyRef) : bool := py_eqb (PDict (identities a)) (PDict (identities b)).

Definition restorable (pol : PolicyRef) (g : TrainingGroup) : bool :=
  bool_decide (lineage (tg_policy g) = lineage pol) && (version (tg_policy g) <=? version pol)
  && same_identities (tg_policy g) pol && same_sampling (tg_policy g) pol.

Fixpoint restore_packets (pol : PolicyRef) (values : list pyval) (l : list (Z * (packet * bool))) : res (list (Z * (packet * bool))) :=
  match values with
  | [] => Ok l
  | v :: values =>
      k <-? decode v;
      g <-? dict_int "group_id" (fields k);
      raise_when bool_decide (g ∈ l.*1) with_exn ValueError "duplicate restored benchmark group";
      raise_when match group k with Some t => negb (restorable pol t) | None => false end with_exn
        ValueError "restored benchmark group differs from committed policy identity";
      restore_packets pol values (l ++ [(g, (k, false))])
  end.

Definition sorted_keys (l : list (Z * (packet * bool))) : list Z := sorted_by Z.leb l.*1.

Definition recover (pol : PolicyRef) (d : pydict) : res mailbox :=
  raise_when negb (py_eqb (get_none "schema_version" d) (PInt 1)) || negb (py_eqb (get_none "provider" d) (PStr "benchmark-training"))
             || negb (py_eqb (get_none "pending_requests" d) (PList [])) || negb (py_truthy (get_none "admission_paused" d)) with_exn
    ValueError "benchmark recovery requires a drained, reconciled same-lineage boundary";
  own <-? match default (PDict []) (dict_get "active_policy" d) with PDict x => Ok (get_none "lineage" x) | _ => Err (AttributeError "get") end;
  raise_when negb (py_eqb own (PStr (lineage pol))) with_exn ValueError "benchmark recovery requires a drained, reconciled same-lineage boundary";
  next <-? dict_int "next_group_id" d;
  done <-? dict_int "committed_highwater" d;
  lost <-? dict_int "dropped_groups" d;
  pending <-? dict_item "pending_packets" d;
  values <-? iterate pending;
  l <-? restore_packets pol values [];
  raise_when (bound <? Z.of_nat (length l)) || negb (bool_decide (sorted_keys l = range done next)) with_exn
    ValueError "benchmark recovery mailbox has a cursor gap or exceeds capacity";
  Ok {| retained := l; next_group := next; committed := done; dropped := lost |}.

Definition new_provider (initial_policy recovery_state : pydict) (next_group_id : Z) : res unstarted :=
  pol <-? policy_factory initial_policy;
  raise_when negb (fval_eqb (float_value config_temperature) (float_value (temperature pol))) with_exn ValueError "learner and serving temperatures disagree";
  raise_when (bound <? 1) || (group_size <? 2) with_exn ValueError "benchmark training requires bounded mailbox capacity and G >= 2";
  a <-? new_assembler 1 group_size;
  b <-? (if bool_decide (recovery_state = []) then Ok {| retained := []; next_group := next_group_id; committed := next_group_id; dropped := 0 |}
         else recover pol recovery_state);
  Ok {| u_policy := pol; u_artifact := initial_policy; u_box := b; u_asm := a |}.

(** [_check_ack]: the acknowledged identity. *)
Definition expected_ack (p : PolicyRef) : pydict := [("version", PInt (version p)); ("digest", PStr (policy_digest p)); ("lineage", PStr (lineage p))].

Definition check_ack (p : PolicyRef) (v : pyval) : res pydict :=
  match v with
  | PDict d =>
      raise_when match get_none "version" d with PInt _ => false | _ => true end
                 || existsb (fun kv : string * pyval => negb (py_eqb (get_none kv.1 d) kv.2)) (expected_ack p) with_exn
        ValueError "controller acknowledgement differs from committed policy";
      Ok (expected_ack p)
  | _ => Err (ValueError "controller acknowledgement differs from committed policy")
  end.

(** [_start]: the controller's answer, then the coordinator's stream. *)
Definition start (u : unstarted) (answer : res pyval) (used : bool) (token : CancellationToken) (starts closes : list Coordinator.hook_outcome) : res provider :=
  v <-? answer;
  k <-? check_ack (u_policy u) v;
  s <-? (Stream.open_stream c used group_size token starts closes).1;
  Ok {| policy := u_policy u; artifact := u_artifact u; ack := k; box := u_box u; asm := u_asm u; stream := s; pump := Waiting; paused := false; closing := false;
        failure := None; activation_ready := false; timed_out := false; changed := true; control := None |}.

(** ** The producer *)

(** The [except] of [_produce]. *)
Definition pump_fails (e : exn) (p : provider) : provider := with_pump Finished (with_pause true (Some e) p).

Definition native_case_ok (cases : gmap (string * Z * Z) (string * option Z)) (q : EpisodePlan) : bool :=
  match cases !! (Contracts.task_id (task q), pass_index (identity q), plan_index q) with
  | None => false
  | Some (g, seed) => bool_decide (g = Contracts.group_id (identity q)) && bool_decide (seed = Contracts.sampling_seed (identity q))
  end.

Definition check_registration (g : Z) (p : provider) (reg : GroupRegistration) : res unit :=
  raise_when negb (reg_group_id reg =? g) || negb (policy_eqb (reg_policy reg) (policy p)) || negb (Z.of_nat (length (plans reg)) =? group_size) with_exn
    ValueError "plan factory changed the declared semantic group or policy";
  match plans reg with
  | [] => Err (IndexError "tuple index out of range")
  | first :: _ =>
      raise_when negb (forallb (fun q => bool_decide (Coordinator.group q = Coordinator.group first)) (plans reg)) with_exn
        ValueError "stream plans require one admission group; Coordinator partitions its physical waves";
      match backends (task_benchmark (task first)) with
      | None => Err (KeyError (task_benchmark (task first)))
      | Some (Validates f) => f (plans reg)
      | Some (NativeCases cases) =>
          raise_when negb (forallb (native_case_ok cases) (plans reg)) with_exn ValueError "native training requires prepared plans from its finite case map";
          Ok tt
      | Some Unvalidated => Ok tt
      end
  end.

(** From the registration to the first [await] of [execute_stream_group]. *)
Definition submit_group (g : Z) (started_at : pyfloat) (reg : GroupRegistration) (p : provider) : provider :=
  match check_registration g p reg with
  | Err e => pump_fails e p
  | Ok _ =>
      match register reg (asm p) with
      | (a, Err e) => pump_fails e (with_work a (stream p) (pump p) p)
      | (a, Ok _) =>
          let b := {| retained := retained (box p); next_group := next_group (box p) + 1; committed := committed (box p); dropped := dropped (box p) |} in
          match Stream.submit c (plans reg) g (stream p) with
          | (s, Err e) => pump_fails e (with_box b (with_work a s (pump p) p))
          | (s, Ok _) => with_box b (with_work a s (Executing reg started_at) p)
          end
      end
  end.

(** [for result in results: receipt = complete(result)] *)
Fixpoint complete_all (results : list EpisodeResult) (receipt : option receipt) : stateful assembler (option BenchmarkAssembler.receipt) :=
  match results with
  | [] => returning receipt
  | r :: results => (receipt <~ complete float_repr sha256_hex r; complete_all results receipt)%handler
  end.

Definition packet_of (p : provider) (g : Z) (started_at finished_at : pyfloat) (r : receipt) : packet :=
  let base := [("group_id", PInt g); ("policy_ack", PDict (ack p)); ("started_at", PFloat started_at); ("finished_at", PFloat finished_at);
               ("engram_shared", PBool false); ("worker_pid", PInt pid); ("rng_state", PNone)] in
  match r with
  | Complete t => {| fields := base; group := Some t |}
  | Excluded x => {| fields := base ++ [("exclusion", exclusion_dict x)]; group := None |}
  end.

(** The results of the group are in: its receipt becomes a retained packet. *)
Definition group_finishes (reg : GroupRegistration) (started_at finished_at : pyfloat) (outcome : res (list EpisodeResult)) (p : provider) : provider :=
  match outcome with
  | Err e => pump_fails e p
  | Ok results =>
      match complete_all results None (asm p) with
      | (a, Err e) => pump_fails e (with_work a (stream p) (pump p) p)
      | (a, Ok None) => pump_fails (RuntimeError "coordinator did not complete every registered sibling") (with_work a (stream p) (pump p) p)
      | (a, Ok (Some r)) =>
          let g := reg_group_id reg in
          let b := {| retained := retained (box p) ++ [(g, (packet_of p g started_at finished_at r, false))]; next_group := next_group (box p);
                      committed := committed (box p); dropped := dropped (box p) |} in
          with_box b (with_work a (stream p) (Publishing g) p)
      end
  end.

(** [packet["admission_stopped"] = reason] in the retained packet. *)
Definition mark_stopped (g : Z) (why : option string) (x : Z * (packet * bool)) : Z * (packet * bool) :=
  if x.1 =? g then (x.1, ({| fields := dict_set "admission_stopped" (opt_value PStr why) (fields x.2.1); group := group x.2.1 |}, x.2.2)) else x.

Definition publish (g : Z) (p : provider) : provider :=
  if stopped p
  then let b := {| retained := map (mark_stopped g (reason (Stream.c_token (Stream.st_credits (stream p))))) (retained (box p)); next_group := next_group (box p);
                   committed := committed (box p); dropped := dropped (box p) |} in
       with_pump Looping (with_pause true (failure p) (with_box b p))
  else with_pump Looping p.

(** ** The learner's calls *)

(** [_get] *)
Fixpoint deliver (l : list (Z * (packet * bool))) : option (list (Z * (packet * bool)) * (Z * packet)) :=
  match l with
  | [] => None
  | (g, (k, true)) :: l => match deliver l with Some (l, r) => Some ((g, (k, true)) :: l, r) | None => None end
  | (g, (k, false)) :: l => Some ((g, (k, true)) :: l, (g, k))
  end.

Definition get (p : provider) : provider * output :=
  match deliver (retained (box p)) with
  | Some (l, (g, k)) => (with_box {| retained := l; next_group := next_group (box p); committed := committed (box p); dropped := dropped (box p) |} p, Delivered g k)
  | None => (p, match failure p with Some _ => Raised (RuntimeError "benchmark training producer failed") | None => Returned PNone end)
  end.

Definition row_of (g : Z) (l : list (Z * (packet * bool))) : option (packet * bool) := assoc g l.

(** [_commit] *)
Definition commit (consumed lost : list Z) (p : provider) : provider * output :=
  let l := retained (box p) in
  let ids := sorted_by Z.leb (consumed ++ lost) in
  if negb (distinct ids) || negb (bool_decide (ids = take (length ids) (sorted_keys l)))
     || existsb (fun g => match row_of g l with Some (_, true) => false | _ => true end) ids
  then (p, Raised (ValueError "commit requires a unique delivered oldest group prefix"))
  else if existsb (fun g => match row_of g l with Some (k, _) => bool_decide (group k = None) | None => true end) consumed
  then (p, Raised (ValueError "excluded groups cannot be committed as optimizer input"))
  else
    let b := {| retained := filter (fun x => x.1 ∉ ids) l; next_group := next_group (box p);
                committed := match last ids with Some g => g + 1 | None => committed (box p) end; dropped := dropped (box p) + Z.of_nat (length lost) |} in
    (with_signal true (with_box b p), Returned (PDict [("committed_highwater", PInt (committed b)); ("dropped_groups", PInt (dropped b))])).

(** [_snapshot] *)
Definition snapshot (p : provider) : res pydict :=
  raise_when active p || bool_decide (is_Some (failure p)) || stopped p with_exn RuntimeError "benchmark recovery snapshot requires a proven, unquarantined boundary";
  Ok [("schema_version", PInt 1); ("provider", PStr "benchmark-training"); ("next_group_id", PInt (next_group (box p))); ("issued_highwater", PInt (next_group (box p)));
      ("committed_highwater", PInt (committed (box p))); ("dropped_groups", PInt (dropped (box p))); ("pending_requests", PList []); ("rng_state", PNone);
      ("pending_packets", PList (map (fun x => encode x.2.1) (retained (box p)))); ("active_policy", PDict (artifact p)); ("policy_ack", PDict (ack p));
      ("admission_paused", PBool true)].

(** The end of [_pause]: the controller's proof, then the snapshot. *)
Definition pause_proof (p : provider) (answer : res pyval) : res pydict :=
  v <-? answer;
  raise_when match v with PDict d => negb (is_true (get_none "drain_complete" d)) | _ => true end with_exn RuntimeError "controller has not proven actual request drain";
  _ <-? check_ack (policy p) v;
  raise_when bool_decide (is_Some (failure p)) with_exn RuntimeError "benchmark producer has unresolved work";
  state <-? snapshot p;
  raise_when timed_out p with_exn default (RuntimeError "benchmark control acknowledgement timed out; reconciliation required") (failure p);
  Ok state.

Definition pause_answers (answer : res pyval) (p : provider) : provider * output :=
  match pause_proof p answer with
  | Ok state => (with_control true None p, Snapshot state)
  | Err e => (with_control (activation_ready p) None p, Raised e)
  end.

(** [_activate_drained] up to the controller's answer *)
Definition next_policy (p : provider) (a : pydict) : res PolicyRef :=
  raise_when closing p || negb (paused p) || active p || negb (Stream.st_paused (stream p)) with_exn
    ValueError "activation requires a proven pause and complete group drain";
  raise_when bool_decide (is_Some (failure p)) || stopped p with_exn RuntimeError "uncertain or quarantined execution prevents policy activation";
  q <-? policy_factory a;
  raise_when negb (bool_decide (lineage q = lineage (policy p))) || (version q <=? version (policy p)) || negb (same_sampling q (policy p))
             || negb (same_identities q (policy p)) with_exn
    ValueError "activation requires a newer same-lineage, same-sampling policy";
  Ok q.

Definition activate_begins (a : pydict) (p : provider) : provider * output :=
  if negb (activation_ready p) then (p, Raised (RuntimeError "activation requires a verified controller drain receipt"))
  else
    match next_policy p a with
    | Err e => (with_control false None p, Raised e)
    | Ok q => (with_control false (Some (Activating (policy p) a)) (with_policy q (artifact p) (ack p) p), Silent)
    end.

Definition activate_answers (prior : PolicyRef) (a : pydict) (answer : res pyval) (p : provider) : provider * output :=
  match (v <-? answer; k <-? check_ack (policy p) v;
         raise_when timed_out p with_exn default (RuntimeError "benchmark control acknowledgement timed out; reconciliation required") (failure p);
         Ok k) with
  | Ok k => (with_control (activation_ready p) None (with_policy (policy p) a k p), Returned (PDict k))
  | Err e => (with_control (activation_ready p) None (with_pause (paused p) (Some (RuntimeError "policy activation acknowledgement is unproven"))
                (with_policy prior (artifact p) (ack p) p)), Raised e)
  end.

(** [_resume] after the controller's answer *)
Definition resume_answers (answer : res pyval) (p : provider) : provider * output :=
  match (v <-? answer; k <-? check_ack (policy p) v;
         raise_when timed_out p with_exn default (RuntimeError "benchmark control acknowledgement timed out; reconciliation required") (failure p);
         Ok k) with
  | Err e => (with_control (activation_ready p) None p, Raised e)
  | Ok _ =>
      match Stream.resume_stream (stream p) with
      | (s, Err e) => (with_control (activation_ready p) None (with_stream s p), Raised e)
      | (s, Ok _) => (with_signal true (with_control false None (with_pause false (failure p) (with_stream s p))), Returned (PDict (ack p)))
      end
  end.

(** ** Actions *)

Inductive action :=
| PumpWakes
| PumpTurns
| PlansReady (answer : res GroupRegistration) (now : pyfloat)
| GroupReturns (i : nat) (now : pyfloat)
| PumpPublishes
| Coordinate (a : Stream.action)
| Get
| Commit (consumed lost : list Z)
| PauseBegins
| PauseDrains
| PauseStreamDrains
| PauseAnswers (answer : res pyval)
| ActivateBegins (a : pydict)
| ActivateAnswers (answer : res pyval)
| ResumeBegins
| ResumeAnswers (answer : res pyval)
| CallTimesOut
| CloseBegins
| CloseStream (hooks : list Coordinator.hook_outcome).

Definition act (a : action) (p : provider) : option (provider * output) :=
  match a, pump p, control p with
  | PumpWakes, Waiting, _ => if changed p then Some (with_signal false (with_pump Looping p), Silent) else None
  | PumpTurns, Looping, _ =>
      Some (with_pump (if negb (paused p) && negb (closing p) && (Z.of_nat (length (retained (box p))) <? bound) then Preparing
                       else if closing p then Finished else Waiting) p, Silent)
  | PlansReady (Err e) _, Preparing, _ => Some (pump_fails e p, Silent)
  | PlansReady (Ok reg) now, Preparing, _ => Some (submit_group (next_group (box p)) now reg p, Silent)
  | GroupReturns i now, Executing reg started_at, _ =>
      match Stream.return_group i (stream p) with
      | Some (s, outcome) => Some (group_finishes reg started_at now outcome (with_stream s p), Silent)
      | None => None
      end
  | PumpPublishes, Publishing g, _ => Some (publish g p, Silent)
  | Coordinate (Stream.OnGroup _ _ as a), _, _ | Coordinate (Stream.Cancel _ as a), _, _ =>
      match Stream.step c has_admit_group a (stream p) with Some s => Some (with_stream s p, Silent) | None => None end
  | Get, _, _ => Some (get p)
  | Commit consumed lost, _, _ => Some (commit consumed lost p)
  | PauseBegins, _, None => Some (with_control false (Some PauseWaiting) (with_pause true (failure p) p), Silent)
  | PauseDrains, _, Some PauseWaiting =>
      if active p then None
      else Some (with_control (activation_ready p) (Some PauseDraining)
                   (with_stream (Stream.set_flags true (Stream.st_closed (stream p)) (Stream.st_failures (stream p)) (stream p)) p), Silent)
  | PauseStreamDrains, _, Some PauseDraining =>
      match Stream.st_tasks (stream p) with [] => Some (with_control (activation_ready p) (Some PauseAsking) p, Silent) | _ => None end
  | PauseAnswers answer, _, Some PauseAsking => Some (pause_answers answer p)
  | ActivateBegins a, _, None => Some (activate_begins a p)
  | ActivateAnswers answer, _, Some (Activating prior a) => Some (activate_answers prior a answer p)
  | ResumeBegins, _, None =>
      if closing p || bool_decide (is_Some (failure p)) || timed_out p then Some (p, Raised (RuntimeError "provider requires reconciliation before resuming"))
      else Some (with_control (activation_ready p) (Some Resuming) p, Silent)
  | ResumeAnswers answer, _, Some Resuming => Some (resume_answers answer p)
  | CallTimesOut, _, _ =>
      let q := with_pause true (Some (RuntimeError "benchmark control acknowledgement timed out; reconciliation required")) (with_control false (control p) p) in
      Some ({| policy := policy q; artifact := artifact q; ack := ack q; box := box q; asm := asm q; stream := stream q; pump := pump q; paused := paused q;
               closing := closing q; failure := failure q; activation_ready := activation_ready q; timed_out := true; changed := changed q; control := control q |}, Silent)
  | CloseBegins, _, _ =>
      let q := with_signal true (with_pause true (failure p) p) in
      Some ({| policy := policy q; artifact := artifact q; ack := ack q; box := box q; asm := asm q; stream := stream q; pump := pump q; paused := paused q;
               closing := true; failure := failure q; activation_ready := activation_ready q; timed_out := timed_out q; changed := changed q; control := control q |}, Silent)
  | CloseStream hooks, Finished, None =>
      if negb (closing p) || Stream.st_closed (stream p) then None
      else match Stream.st_tasks (stream p) with
           | [] => let '(s, r) := Stream.close_stream hooks (Stream.set_flags true (Stream.st_closed (stream p)) (Stream.st_failures (stream p)) (stream p)) in
                   Some (with_stream s p, match r with Ok _ => Returned PNone | Err e => Raised e end)
           | _ => None
           end
  | _, _, _ => None
  end.
End Provider.
