(* ===== verification/BenchmarkProviderResults.v ===== *)
(** * What the benchmark training provider guarantees

    The invariant of the runs of [BenchmarkProvider] over a coordinator
    stream: policy changes happen only between groups, packets are accounted
    for in order, and a drained snapshot restores the provider. *)

From S2P Require Import Prelude StateRes PyValue Contracts Training TrainingProofs BenchmarkAssembler BenchmarkProvider.
From S2P Require Coordinator CoordinatorExample Stream StreamExample StreamProofs StreamSafety.
Local Open Scope Z_scope.

(** ** Assembling one group from ordered results *)

Section OneGroup.
Context (float_repr : Z -> string) (sha256_hex : string -> string).
#[local] Notation complete := (complete float_repr sha256_hex).
#[local] Notation complete_all := (complete_all float_repr sha256_hex).
#[local] Notation receipt_of := (receipt_of float_repr sha256_hex).

Definition keyed (l : list EpisodeResult) : list (EpisodeIdentity * EpisodeResult) := map (fun e => (result_identity e, e)) l.

(** The assembler holds nothing. *)
Definition asm_free (a : assembler) : Prop := groups a = ∅ /\ episodes a = [].

(** The assembler holds one group, [l] of whose results are in. *)
Record asm_for (reg : GroupRegistration) (l : list EpisodeResult) (a : assembler) : Prop := {
  af_groups : groups a = {[reg_group_id reg := {| registration := reg; results := keyed l |}]};
  af_episodes : episodes a = map (fun p => (identity p, reg_group_id reg)) (plans reg) }.

Lemma keyed_fst l : map fst (keyed l) = map result_identity l.
Proof. unfold keyed. by rewrite map_map. Qed.

Lemma pairs_ordered (ps : list EpisodePlan) es : map result_identity es = map identity ps -> NoDup (map identity ps) ->
  traverse (fun p => match assoc (identity p) (keyed es) with Some e => Ok (p, e) | None => Err (KeyError "identity") end) ps = Ok (zip ps es).
Proof.
  intros Hid Hn. rewrite <- Hid in Hn. apply traverse_ok.
  assert (Forall2 (fun p e => assoc (identity p) (keyed es) = Some e) ps es) as Hall.
  { apply Forall2_same_length_lookup_2; [apply (f_equal length) in Hid; by rewrite !length_map in Hid|].
    intros i p e Hp He. assert (map result_identity es !! i = map identity ps !! i) as Hi by by rewrite Hid.
    rewrite !list_lookup_fmap, Hp, He in Hi. injection Hi as <-. apply assoc_in; [by rewrite keyed_fst|].
    by apply (list_elem_of_fmap_2 (fun e => (result_identity e, e))), (list_elem_of_lookup_2 _ i). }
  clear Hid Hn. revert Hall. generalize (keyed es) as K. intros K Hall. induction Hall as [|p e ps es He _ IH]; cbn; [constructor|].
  constructor; [by rewrite He|exact IH].
Qed.

(** The next result in plan order. *)
Lemma complete_next reg l e rest a : asm_for reg l a -> NoDup (map identity (plans reg)) ->
  map result_identity (l ++ e :: rest) = map identity (plans reg) ->
  match rest with
  | [] => exists a', complete e a = (a', match receipt_of reg (zip (plans reg) (l ++ [e])) with Ok r => Ok (Some r) | Err x => Err x end)
            /\ (is_ok (receipt_of reg (zip (plans reg) (l ++ [e]))) = true -> asm_free a')
  | _ => exists a', complete e a = (a', Ok None) /\ asm_for reg (l ++ [e]) a'
  end.
Proof.
  intros [Hg He] Hn Hid. assert (result_identity e ∈ map identity (plans reg)) as Hin.
  { rewrite <- Hid, map_app. apply elem_of_app. right. left. }
  assert (result_identity e ∉ map fst (keyed l)) as Hnew.
  { rewrite keyed_fst. intros Hx. rewrite <- Hid, map_app in Hn. apply NoDup_app in Hn as (_ & Hn & _). apply (Hn _ Hx). left. }
  unfold BenchmarkAssembler.complete, reading. rewrite (assoc_in (result_identity e) (episodes a) (reg_group_id reg));
    [|rewrite He, map_map; exact Hn|rewrite He; apply list_elem_of_fmap in Hin as (p & -> & Hp); by apply (list_elem_of_fmap_2 (fun p => (identity p, reg_group_id reg)))].
  rewrite Hg, lookup_singleton_eq. cbn [registration results]. rewrite (bool_decide_eq_false_2 _ Hnew).
  replace (keyed l ++ [(result_identity e, e)]) with (keyed (l ++ [e])) by by (unfold keyed; rewrite map_app).
  assert (length (plans reg) = length (l ++ e :: rest)) as Hlen by (apply (f_equal length) in Hid; by rewrite !length_map in Hid).
  unfold sequence, changing, computing, returning. cbn [fst snd].
  assert (length (keyed (l ++ [e])) = length l + 1)%nat as Hk by (unfold keyed; rewrite length_map, length_app; done).
  rewrite length_app in Hlen. cbn [length] in Hlen. rewrite Hk. destruct rest as [|e' rest].
  - replace (length l + 1 =? length (plans reg))%nat with true by (symmetry; apply Nat.eqb_eq; cbn in Hlen; lia). cbn [negb].
    rewrite (pairs_ordered _ _ Hid Hn). cbv beta iota. destruct (receipt_of reg _) as [r|x]; cbn; eexists; (split; [done|]); [intros _|done].
    split; cbn; [rewrite delete_insert_eq, Hg; apply map_eq; intros i|].
    + destruct (decide (i = reg_group_id reg)) as [->|]; [by rewrite lookup_delete_eq|by rewrite lookup_delete_ne, lookup_singleton_ne].
    + rewrite He. apply elem_of_nil_inv. intros x [Hx Hin']%list_elem_of_filter.
      apply list_elem_of_fmap in Hin' as (p & -> & Hp). apply Hx. by apply (list_elem_of_fmap_2 identity).
  - replace (length l + 1 =? length (plans reg))%nat with false by (symmetry; apply Nat.eqb_neq; cbn in Hlen; lia). cbn [negb].
    eexists; split; [done|]. split; cbn; [|done]. rewrite Hg. apply insert_singleton_eq.
Qed.

(** Results in plan order give the group's receipt at the last of them. *)
Lemma complete_all_ordered reg l rs acc a : asm_for reg l a -> NoDup (map identity (plans reg)) -> rs <> [] ->
  map result_identity (l ++ rs) = map identity (plans reg) ->
  exists a', complete_all rs acc a = (a', match receipt_of reg (zip (plans reg) (l ++ rs)) with Ok r => Ok (Some r) | Err x => Err x end)
    /\ (is_ok (receipt_of reg (zip (plans reg) (l ++ rs))) = true -> asm_free a').
Proof.
  revert l acc a; induction rs as [|e rs IH]; intros l acc a Ha Hn Hne Hid; [done|]. pose proof (complete_next reg l e rs a Ha Hn Hid) as H.
  cbn [BenchmarkProvider.complete_all]. unfold sequence at 1. destruct rs as [|e' rs].
  - destruct H as (a' & -> & Hf). destruct (receipt_of reg _) as [r|x]; by exists a'.
  - destruct H as (a' & -> & Ha'). destruct (IH (l ++ [e]) None a' Ha' Hn) as (b & Hb & Hf); [done|by rewrite <- app_assoc|].
    rewrite <- app_assoc in Hb, Hf. by exists b.
Qed.

Lemma register_free reg a : asm_free a -> (exists e, (register reg a) = (a, Err e)) \/ exists a', register reg a = (a', Ok tt) /\ asm_for reg [] a'.
Proof.
  intros [Hg He]. unfold register, reading, raising, changing. destruct (_ <=? _); [by left; eexists|]. destruct (_ || _); [by left; eexists|].
  destruct (existsb _ _); [by left; eexists|]. right. eexists. split; [done|]. split; cbn; [by rewrite Hg|by rewrite He].
Qed.

(** ** Groups of receipts *)

Lemma turn_from_dict_built v t : turn_from_dict float_repr v = Ok t -> built_turn float_repr t.
Proof.
  unfold turn_from_dict. intros H. res_inv H. assert (turn_policy t = value0) as <-.
  { unfold new_turn in H. res_inv H. repeat (case_match; try done). res_inv H. by subst t. }
  split; [|by repeat eexists]. unfold policy_from_dict in R0. res_inv R0. by repeat eexists.
Qed.

Lemma trajectory_built reg p e t : trajectory_of float_repr sha256_hex reg p e = Ok t -> built_trajectory float_repr sha256_hex t.
Proof.
  intros H. pose proof (trajectory_sound float_repr sha256_hex _ _ _ _ H) as S. destruct (ss_turns _ _ _ _ _ S) as (raw & _ & Hraw).
  split.
  - apply traverse_inv in Hraw. clear -Hraw. induction Hraw as [|v u l k Hv _ IH]; constructor; [by eapply turn_from_dict_built|done].
  - unfold trajectory_of in H. res_inv H. destruct (new_trajectory_fields float_repr sha256_hex _ _ _ _ _ _ _ _ _ _ _ _ _ H) as (_ & _ & Ht & _).
    rewrite Ht. by repeat eexists.
Qed.

Lemma receipt_built reg es g : receipt_of reg (zip (plans reg) es) = Ok (Complete g) -> built_policy float_repr (reg_policy reg) -> built_group float_repr sha256_hex g.
Proof.
  intros H Hp. unfold BenchmarkAssembler.receipt_of in H. destruct (trajectories _ _ _ _) as [[ts why]|] eqn:Et; [|done]. cbn [fst snd] in H.
  destruct why as [|w why]; [|by destruct (plans reg)]. apply trajectories_all in Et. destruct (plans reg) as [|first rest] eqn:Ep; [done|]. rewrite <- Ep in *.
  destruct (new_group _ _ _ _ _ _ _) as [g'|[]] eqn:Eg; try done. injection H as ->.
  pose proof (new_group_checks _ _ _ _ _ _ _ _ Eg) as (_ & Hpol & _). split; [by rewrite Hpol|]. rewrite Hpol. do 6 eexists. split; [|exact Eg].
  clear -Et. induction Et as [|pe t l ts Ht _ IH]; constructor; [by eapply trajectory_built|done].
Qed.
End OneGroup.

(** ** Dictionaries and identity maps *)

Lemma dict_set_new k v d : k ∉ dict_keys d -> dict_set k v d = d ++ [(k, v)].
Proof. induction d as [|[k' w] d IH]; cbn; [done|]. intros Hk. rewrite bool_decide_eq_false_2, IH; set_solver. Qed.
Lemma dict_get_set_ne k k' v d : k <> k' -> dict_get k (dict_set k' v d) = dict_get k d.
Proof. intros H. by rewrite dict_get_set, bool_decide_eq_false_2. Qed.
Lemma dict_keys_set k v d x : x ∈ dict_keys (dict_set k v d) -> x = k \/ x ∈ dict_keys d.
Proof. induction d as [|[k' w] d IH]; cbn; [set_solver|]. case_bool_decide; set_solver. Qed.
Lemma dict_get_elem k d v : dict_get k d = Some v -> (k, v) ∈ d.
Proof. induction d as [|[k' w] d IH]; cbn; [done|]. case_bool_decide; [intros [= ->]; subst; left|intros H'; right; auto]. Qed.

(** Policies as Python objects: built by their constructor over a dictionary. *)
Definition sound_policy (float_repr : Z -> string) (p : PolicyRef) : Prop := built_policy float_repr p /\ NoDup (dict_keys (identities p)).

Definition string_values (d : pydict) : Prop := Forall (fun kv => exists s, kv.2 = PStr s) d.

Lemma sound_strings float_repr p : sound_policy float_repr p -> string_values (identities p).
Proof.
  intros [(a & b & d & e & f & H) _]. unfold new_policy in H. res_inv H. subst p. cbn [identities]. destr_bool.
  match goal with H : forallb identity_entry _ = true |- _ => rename H into He end. apply Forall_forall. intros [k v] Hin.
  rewrite forallb_forall in He. specialize (He (k, v) (proj1 (list_elem_of_In _ _) Hin)). unfold identity_entry in He. cbn [fst snd] in *. destr_bool.
  destruct v; try done. eauto.
Qed.

Definition dict_covers (d e : pydict) : Prop := length d = length e /\ Forall (fun kv : string * pyval => dict_get kv.1 e = Some kv.2) d.

Lemma same_strings d e : string_values d -> string_values e -> py_eqb (PDict d) (PDict e) = true <-> dict_covers d e.
Proof.
  intros Hd He. unfold dict_covers. cbn. rewrite andb_true_iff, Nat.eqb_eq. apply and_iff_compat_l. induction Hd as [|[k v] d (s & Hs) _ IH]; [done|].
  cbn [fst snd] in Hs. subst v. rewrite Forall_cons, andb_true_iff, IH. apply and_iff_compat_r. cbn [fst snd].
  destruct (dict_get k e) as [w|] eqn:Ek; [|done]. assert (exists u, w = PStr u) as [u ->].
  { apply dict_get_elem in Ek. exact (proj1 (Forall_forall _ _) He _ Ek). }
  cbn [py_eqb]. rewrite bool_decide_eq_true. naive_solver.
Qed.

Lemma covers_trans a b d : dict_covers a b -> dict_covers b d -> dict_covers a d.
Proof.
  intros [Hl Ha] [Hl' Hb]. split; [congruence|]. eapply Forall_impl; [exact Ha|]. intros [k v] Hk. cbn [fst snd] in *.
  apply dict_get_elem in Hk. rewrite Forall_forall in Hb. apply (Hb _ Hk).
Qed.
Lemma covers_sym a b : NoDup (dict_keys a) -> NoDup (dict_keys b) -> dict_covers a b -> dict_covers b a.
Proof.
  intros Hna Hnb [Hl Ha]. split; [done|]. assert (a ⊆+ b) as Hs.
  { apply NoDup_submseteq; [by eapply NoDup_fmap_1|]. intros [k v] Hk. rewrite Forall_forall in Ha. apply dict_get_elem, (Ha _ Hk). }
  apply submseteq_length_Permutation in Hs; [|lia]. apply Forall_forall. intros [k v] Hk. apply dict_get_in; [done|]. by rewrite Hs.
Qed.

Lemma same_identities_iff float_repr a b : sound_policy float_repr a -> sound_policy float_repr b -> same_identities a b = true <-> dict_covers (identities a) (identities b).
Proof. intros Ha Hb. apply same_strings; by eapply sound_strings. Qed.

Lemma fval_eqb_trans a b d : fval_eqb a b = true -> fval_eqb b d = true -> fval_eqb a d = true.
Proof. destruct a as [| |], b as [| |], d as [| |]; cbn; try done; rewrite ?Z.eqb_eq, ?eqb_true_iff; congruence. Qed.
Lemma fval_eqb_sym a b : fval_eqb a b = true -> fval_eqb b a = true.
Proof. destruct a as [| |], b as [| |]; cbn; try done; rewrite ?Z.eqb_eq, ?eqb_true_iff; congruence. Qed.

(** What activation asks of a policy that replaces [p]. *)
Definition newer (q p : PolicyRef) : Prop :=
  lineage q = lineage p /\ version p < version q /\ same_sampling q p = true /\ same_identities q p = true.

Lemma restorable_newer float_repr q p g : sound_policy float_repr q -> sound_policy float_repr p -> sound_policy float_repr (tg_policy g) -> newer q p ->
  restorable p g = true -> restorable q g = true.
Proof.
  intros Hq Hp Hg (Hl & Hv & Hs & Hi). unfold restorable. rewrite !andb_true_iff, !bool_decide_eq_true, !Z.leb_le. intros [[[Hgl Hgv] Hgi] Hgs].
  rewrite (same_identities_iff float_repr) in * by done. split_and!; [congruence|lia| |].
  - eapply covers_trans; [exact Hgi|]. apply covers_sym; [apply Hq|apply Hp|done].
  - unfold same_sampling in *. eapply fval_eqb_trans; [exact Hgs|]. by apply fval_eqb_sym.
Qed.

Lemma restorable_equal p g : policy_eqb (tg_policy g) p = true -> restorable p g = true.
Proof. unfold policy_eqb, restorable, same_identities, same_sampling. rewrite !andb_true_iff, !bool_decide_eq_true, Z.eqb_eq, Z.leb_le. intros [[[[Hv _] Hl] Hi] Hs]. by split_and!; try lia. Qed.

Lemma expected_ack_equal p q : policy_eqb p q = true -> expected_ack p = expected_ack q.
Proof. unfold policy_eqb, expected_ack. rewrite !andb_true_iff, !bool_decide_eq_true, Z.eqb_eq. intros [[[[-> ->] ->] _] _]. done. Qed.

Lemma check_ack_inv p v k : check_ack p v = Ok k -> k = expected_ack p.
Proof. unfold check_ack. destruct v; try done. intros H. by res_inv H. Qed.

(** ** The invariant *)

Section Provider.
Context (float_repr : Z -> string) (sha256_hex : string -> string) (c : Coordinator.Config) (has_admit_group : nat -> bool) (backends : string -> option training_backend) (pid : Z).
Context (policy_factory : pydict -> res PolicyRef) (config_temperature : pyfloat) (queue_capacity groups_per_step group_size : Z).
(** The injected factory returns policy objects of the artifact's lineage, as
    [artifact_policy] does, and the coordinator was constructed. *)
Context (factory_lineage : forall a q, policy_factory a = Ok q -> sound_policy float_repr q /\ get_none "lineage" a = PStr (lineage q)).
Context (workers_pos : 1 <= Coordinator.max_workers c) (groups_pos : 1 <= Coordinator.max_groups c).
#[local] Notation bound := (bound queue_capacity groups_per_step).
#[local] Notation act := (act float_repr sha256_hex c has_admit_group backends pid policy_factory queue_capacity groups_per_step group_size).
#[local] Notation encode := (encode float_repr).
#[local] Notation decode := (decode float_repr sha256_hex).
#[local] Notation new_provider := (new_provider float_repr sha256_hex policy_factory config_temperature queue_capacity groups_per_step group_size).
Implicit Types (p : provider) (k : packet) (g : Z) (l : list (Z * (packet * bool))).

(** A constructed registration of group [g], and results of its plans. *)
Definition produced g (reg : GroupRegistration) (es : list EpisodeResult) : Prop :=
  (exists call, registration_of call = Ok reg) /\ reg_group_id reg = g /\ map result_identity es = map identity (plans reg).

(** What a packet of group [g] proves, and that it may still be restored under
    the policy [pol]. *)
Definition row_group (pol : PolicyRef) g k : Prop :=
  match group k with
  | Some t => tg_group_id t = g /\ built_group float_repr sha256_hex t /\ sound_policy float_repr (tg_policy t) /\ restorable pol t = true
      /\ dict_get "policy_ack" (fields k) = Some (PDict (expected_ack (tg_policy t)))
      /\ exists reg es, produced g reg es /\ receipt_sound float_repr reg es (Complete t)
  | None => exists x reg es, dict_get "exclusion" (fields k) = Some (exclusion_dict x) /\ ex_group_id x = g
      /\ produced g reg es /\ receipt_sound float_repr reg es (Excluded x)
  end.

Record row_sound (pol : PolicyRef) (x : Z * packet) : Prop := {
  rs_id : dict_get "group_id" (fields x.2) = Some (PInt x.1);
  rs_keys : "group" ∉ dict_keys (fields x.2) /\ "training_group" ∉ dict_keys (fields x.2);
  rs_group : row_group pol x.1 x.2 }.

Lemma decode_encode pol g k : row_sound pol (g, k) -> decode (encode k) = Ok k.
Proof.
  intros [Hid [Hk1 Hk2] Hg]. cbn [fst snd] in *. unfold BenchmarkProvider.encode, BenchmarkProvider.decode. cbn [py_dict].
  set (v := match group k with Some g => _ | None => _ end). rewrite (dict_set_new "training_group" v) by done.
  assert (dict_item "training_group" (fields k ++ [("training_group", v)]) = Ok v) as ->.
  { unfold dict_item. rewrite dict_get_app. apply dict_get_None_keys in Hk2. rewrite Hk2. cbn. done. }
  assert (dict_item "group_id" (fields k ++ [("training_group", v)]) = Ok (PInt g)) as Hitem by (unfold dict_item; by rewrite dict_get_app, Hid).
  assert (filter (fun kv : string * pyval => kv.1 ∉ ["group"; "training_group"]) (fields k ++ [("training_group", v)]) = fields k) as Hfil.
  { rewrite filter_app. assert (filter (fun kv : string * pyval => kv.1 ∉ ["group"; "training_group"]) (fields k) = fields k) as ->.
    { clear -Hk1 Hk2. induction (fields k) as [|[x w] d IH]; [done|]. cbn in Hk1, Hk2. rewrite filter_cons_True; [rewrite IH; set_solver|]. cbn. set_solver. }
    rewrite filter_cons_False; [by rewrite app_nil_r|]. cbn. set_solver. }
  unfold row_group in Hg. cbv beta iota. destruct k as [fs [t|]]; cbn [group fields] in *; subst v; cbv beta iota.
  - destruct Hg as (<- & Hb & _). replace (py_truthy (group_to_dict float_repr t)) with true by done.
    rewrite (group_roundtrip _ _ _ Hb). cbv beta iota. rewrite Hitem. cbv beta iota. rewrite (py_eqb_refl (PInt _) eq_refl eq_refl). cbn [negb]. by rewrite Hfil.
  - destruct Hg as (x & reg & es & Hx & <- & _). cbn [py_truthy]. rewrite dict_get_app, Hx. cbn [default from_option]. change (id (exclusion_dict x)) with (exclusion_dict x).
    replace (match exclusion_dict x with PDict y => Ok (get_none "group_id" y) | _ => Err (AttributeError "get") end) with (@Ok pyval (PInt (ex_group_id x))) by reflexivity.
    cbv beta iota. rewrite Hitem. cbv beta iota. rewrite (py_eqb_refl (PInt _) eq_refl eq_refl). cbn [negb]. by rewrite Hfil.
Qed.

Lemma row_sound_newer q (pol : PolicyRef) x : sound_policy float_repr q -> sound_policy float_repr pol -> newer q pol -> row_sound pol x -> row_sound q x.
Proof.
  intros Hq Hp Hn [Hid Hk Hg]. split; [done|done|]. unfold row_group in *. destruct (group x.2); [|done].
  destruct Hg as (? & ? & Hs & Hr & ? & ?). split_and!; try done. eapply restorable_newer; [exact Hq|exact Hp|done..].
Qed.

Lemma mark_sound pol g why x : row_sound pol (x.1, x.2.1) -> row_sound pol ((mark_stopped g why x).1, (mark_stopped g why x).2.1).
Proof.
  intros [Hid [Hk1 Hk2] Hg]. unfold mark_stopped. destruct (x.1 =? g); [|done]. split; cbn [fst snd fields] in *.
  - by rewrite dict_get_set_ne.
  - split; intros [?|?]%dict_keys_set; done.
  - unfold row_group in *. cbn [group fields]. destruct (group x.2.1).
    + rewrite dict_get_set_ne by done. exact Hg.
    + rewrite dict_get_set_ne by done. exact Hg.
Qed.

(** The policy of the last acknowledgement. *)
Definition served p : PolicyRef := match control p with Some (Activating prior _) => prior | _ => policy p end.
Definition entries l : list (Z * packet) := map (fun x => (x.1, x.2.1)) l.

(** The retained groups follow the committed ones without a gap, up to the
    next group; a group that is executing has its number already. *)
Definition box_ok p : Prop :=
  match pump p with
  | Executing _ _ => (retained (box p)).*1 = range (committed (box p)) (next_group (box p) - 1) /\ committed (box p) <= next_group (box p) - 1
  | Finished => exists m, (retained (box p)).*1 = range (committed (box p)) m /\ committed (box p) <= m /\ (m = next_group (box p) \/ failure p <> None)
  | _ => (retained (box p)).*1 = range (committed (box p)) (next_group (box p)) /\ committed (box p) <= next_group (box p)
  end.

Definition same_plans (s : Stream.stream) (reg : GroupRegistration) : Prop := exists t, Stream.st_tasks s = [t] /\ Stream.gt_plans t = plans reg.

Definition pump_ok p : Prop :=
  match pump p with
  | Executing reg _ => (exists call, registration_of call = Ok reg) /\ reg_group_id reg = next_group (box p) - 1 /\ policy_eqb (reg_policy reg) (policy p) = true
      /\ sound_policy float_repr (reg_policy reg) /\ asm_for reg [] (asm p) /\ same_plans (stream p) reg
  | Finished => Stream.st_tasks (stream p) = []
  | _ => Stream.st_tasks (stream p) = [] /\ asm_free (asm p)
  end.

(** No group is being prepared or executed, and none will be. *)
Definition quiet p : Prop := paused p = true /\ active p = false /\ Stream.st_paused (stream p) = true.

Definition quiet_ok p : Prop :=
  (activation_ready p = true -> quiet p /\ match control p with None | Some Resuming => True | _ => False end)
  /\ match control p with
     | Some PauseWaiting => paused p = true
     | Some PauseDraining | Some PauseAsking | Some (Activating _ _) => quiet p
     | _ => True
     end.

Record invariant p : Prop := {
  v_policies : sound_policy float_repr (policy p) /\ sound_policy float_repr (served p);
  v_artifact : policy_factory (artifact p) = Ok (served p);
  v_next : match control p with Some (Activating prior a) => policy_factory a = Ok (policy p) /\ newer (policy p) prior | _ => True end;
  v_ack : ack p = expected_ack (served p);
  v_temperature : fval_eqb (float_value config_temperature) (float_value (temperature (served p))) = true;
  v_rows : Forall (row_sound (served p)) (entries (retained (box p)));
  v_box : box_ok p;
  v_room : Z.of_nat (length (retained (box p))) + (if active p then 1 else 0) <= bound;
  v_pump : pump_ok p;
  v_quiet : quiet_ok p;
  v_timed : timed_out p = true -> failure p <> None;
  v_stream : StreamSafety.Safe c (stream p);
  v_config : 1 <= bound /\ 2 <= group_size }.

Lemma quiet_tasks p : invariant p -> active p = false -> Stream.st_tasks (stream p) = [].
Proof. intros I. pose proof (v_pump p I) as H. unfold pump_ok, active in *. destruct (pump p); naive_solver. Qed.

Lemma not_quiet p : invariant p -> active p = true \/ paused p = false -> served p = policy p /\ activation_ready p = false.
Proof.
  intros I Ha. destruct (v_quiet p I) as [Hr Hc]. unfold quiet, served in *. split.
  - destruct (control p) as [[]|]; try done. destruct Hc as (? & ? & ?). destruct Ha; congruence.
  - destruct (activation_ready p); [|done]. destruct (Hr eq_refl) as [(? & ? & ?) _]. destruct Ha; congruence.
Qed.

Lemma box_range p : invariant p -> exists m, (retained (box p)).*1 = range (committed (box p)) m /\ committed (box p) <= m.
Proof. intros I. pose proof (v_box p I) as H. unfold box_ok in H. destruct (pump p); naive_solver. Qed.

(** A producer that failed keeps everything else. *)
Lemma pump_fails_ok e a s b p : invariant p -> Stream.st_tasks s = [] -> Stream.st_paused s = Stream.st_paused (stream p) -> StreamSafety.Safe c s ->
  retained b = retained (box p) -> committed b = committed (box p) -> invariant (pump_fails e (with_box b (with_work a s (pump p) p))).
Proof.
  intros I Ht Hp Hs Hr Hc. unfold pump_fails. split; cbn; try apply I; rewrite ?Hr; try apply I; try done.
  - rewrite Hc. destruct (box_range p I) as (m & ? & ?). exists m. split_and!; [done|done|by right].
  - unfold active. cbn. pose proof (v_room p I). destruct (active p); lia.
  - pose proof (v_quiet p I) as [Hr' Hc']. unfold quiet_ok, quiet, active in *. cbn. rewrite Hp. split; [intros H; destruct (Hr' H) as [(? & ? & ?) ?]; done|].
    destruct (control p) as [[]|]; naive_solver.
Qed.

Lemma pump_fails_same e p : invariant p -> Stream.st_tasks (stream p) = [] -> invariant (pump_fails e p).
Proof. intros I Ht. pose proof (pump_fails_ok e (asm p) (stream p) (box p) p I Ht eq_refl (v_stream p I) eq_refl eq_refl). by destruct p. Qed.

(** ** The producer's pieces *)

Lemma wakes_ok p : invariant p -> pump p = Waiting -> invariant (with_signal false (with_pump Looping p)).
Proof.
  intros I Hp. pose proof (v_box p I) as Hb. pose proof (v_room p I) as Hr. pose proof (v_pump p I) as Hw. pose proof (v_quiet p I) as Hq.
  unfold box_ok, active, pump_ok, quiet_ok, quiet, active in Hb, Hr, Hw, Hq. rewrite Hp in *. split; cbn; try apply I; done.
Qed.

Lemma turns_ok p : invariant p -> pump p = Looping ->
  invariant (with_pump (if negb (paused p) && negb (closing p) && (Z.of_nat (length (retained (box p))) <? bound) then Preparing else if closing p then Finished else Waiting) p).
Proof.
  intros I Hp. pose proof (v_box p I) as Hb. pose proof (v_room p I) as Hr. pose proof (v_pump p I) as Hw. pose proof (v_quiet p I) as Hq.
  pose proof (not_quiet p I) as Hn. unfold box_ok, active, pump_ok, quiet_ok, quiet, active in Hb, Hr, Hw, Hq. rewrite Hp in *.
  destruct (negb (paused p) && _ && _) eqn:E; [|destruct (closing p)].
  - destr_bool. destruct Hn as [Hs Ha]; [by right|]. destruct Hq as [_ Hq]. split; cbn; try apply I; try done.
    + unfold active. cbn. lia.
    + unfold quiet_ok. cbn. rewrite Ha. split; [done|]. destruct (control p) as [[]|]; try done; destruct Hq; congruence.
  - split; cbn; try apply I; try done; unfold box_ok, pump_ok; cbn; [exists (next_group (box p)); naive_solver|apply Hw].
  - split; cbn; try apply I; done.
Qed.

Lemma new_prepared p : invariant p -> pump p = Preparing -> served p = policy p /\ activation_ready p = false /\ Stream.st_tasks (stream p) = [] /\ asm_free (asm p).
Proof. intros I Hp. pose proof (v_pump p I) as Hw. unfold pump_ok in Hw. rewrite Hp in Hw. destruct (not_quiet p I); [left; unfold active; by rewrite Hp|naive_solver]. Qed.

Lemma submit_stream_ok reg p : invariant p -> Stream.st_tasks (stream p) = [] -> Forall StreamProofs.wf_plan (plans reg) -> forall g,
  let r := Stream.submit c (plans reg) g (stream p) in
  StreamSafety.Safe c r.1 /\ Stream.st_paused r.1 = Stream.st_paused (stream p)
  /\ match r.2 with Ok _ => same_plans r.1 reg | Err _ => Stream.st_tasks r.1 = [] end.
Proof.
  intros I Ht Hwf g. cbv zeta. split; [apply (StreamSafety.submit_safe c has_admit_group); [done|apply I]|]. unfold Stream.submit.
  repeat (case_match; cbn; try (split; [done|]; try done)). all: unfold same_plans; cbn; rewrite Ht; cbn; eexists; done.
Qed.

Lemma submit_group_ok reg now p : invariant p -> pump p = Preparing -> (exists call, registration_of call = Ok reg) -> sound_policy float_repr (reg_policy reg) ->
  Forall StreamProofs.wf_plan (plans reg) -> invariant (submit_group c backends group_size (next_group (box p)) now reg p).
Proof.
  intros I Hp Hcall Hs Hwf. destruct (new_prepared p I Hp) as (Hserved & Hready & Ht & Hfree). unfold submit_group.
  destruct (check_registration _ _ _ _ _) as [[]|e] eqn:Echk; [|by apply pump_fails_same].
  destruct (register_free reg (asm p) Hfree) as [[e He]|(a & He & Ha)]; rewrite He.
  { pose proof (pump_fails_ok e (asm p) (stream p) (box p) p I Ht eq_refl (v_stream p I) eq_refl eq_refl). by destruct p. }
  pose proof (submit_stream_ok reg p I Ht Hwf (next_group (box p))) as Hst. cbv zeta in Hst.
  destruct (Stream.submit c (plans reg) (next_group (box p)) (stream p)) as [s [u|e]]; cbn [fst snd] in Hst; destruct Hst as (Hsafe & Hpau & Hpl).
  - unfold check_registration in Echk. destruct (_ || _) eqn:Eg in Echk; [done|]. destr_bool. clear Echk.
    pose proof (v_box p I) as Hb. pose proof (v_room p I) as Hr. unfold box_ok, active in Hb, Hr. rewrite Hp in Hb, Hr. destruct (v_quiet p I) as [_ Hq].
    split; cbn; try apply I; try done.
    + unfold box_ok. cbn. replace (next_group (box p) + 1 - 1) with (next_group (box p)) by lia. done.
    + unfold pump_ok. cbn. split_and!; try done. lia.
    + unfold quiet_ok. cbn. rewrite Hready. split; [done|]. unfold quiet, active in *. rewrite Hp in Hq. destruct (control p) as [[]|]; naive_solver.
  - by apply pump_fails_ok.
Qed.

(** The coordinator returns the executing group: one result per plan, in order. *)
Lemma return_group_ok reg p i s outcome : invariant p -> same_plans (stream p) reg -> Stream.return_group i (stream p) = Some (s, outcome) ->
  Stream.st_tasks s = [] /\ Stream.st_paused s = Stream.st_paused (stream p) /\ StreamSafety.Safe c s
  /\ match outcome with Ok rs => map result_identity rs = map identity (plans reg) | Err _ => True end.
Proof.
  intros I (t & Ht & Hpl) H. pose proof H as Hret. unfold Stream.return_group in H. rewrite Ht in H.
  destruct i as [|i]; [|done]. cbn in H. destruct (Stream.gt_phase t) as [| | | | |r] eqn:Eph; try done. injection H as <- <-.
  split_and!; [done|done| |].
  - eapply (StreamSafety.step_safe c has_admit_group (Stream.Return 0)); [done|apply I|]. cbn. by rewrite Hret.
  - pose proof (StreamSafety.sf_tasks c _ (v_stream p I)) as Hts. rewrite Ht in Hts. apply Forall_cons in Hts as [(Hok & _) _].
    rewrite Eph in Hok. destruct r; [|done]. cbn in Hok. by rewrite <- Hpl.
Qed.

Lemma packet_sound p reg es r started now : invariant p -> (exists call, registration_of call = Ok reg) -> policy_eqb (reg_policy reg) (policy p) = true ->
  served p = policy p -> sound_policy float_repr (reg_policy reg) -> map result_identity es = map identity (plans reg) ->
  receipt_of float_repr sha256_hex reg (zip (plans reg) es) = Ok r ->
  row_sound (policy p) (reg_group_id reg, packet_of pid p (reg_group_id reg) started now r).
Proof.
  intros I [call Hcall] Heq Hserved Hpol Hid Hr.
  assert (length es = length (plans reg)) as Hlen by (apply (f_equal length) in Hid; by rewrite !length_map in Hid).
  pose proof (registered_facts [call] reg (ex_intro _ call (conj (list_elem_of_here _ _) Hcall))) as (_ & _ & Hidx).
  pose proof (receipt_is_sound float_repr sha256_hex reg es r Hlen Hidx Hr) as Hsound.
  split; cbn [fst snd].
  - by destruct r.
  - destruct r; cbn; set_solver.
  - unfold row_group. destruct r as [t|x]; cbn [packet_of group fields].
    + pose proof Hsound as (Hg & Hp & _). rewrite Hp. split_and!; [done|by apply (receipt_built float_repr sha256_hex _ _ _ Hr), Hpol|done| | |].
      * apply restorable_equal. by rewrite Hp.
      * rewrite (v_ack p I), Hserved. by rewrite (expected_ack_equal _ _ Heq).
      * exists reg, es. split; [|done]. unfold produced. split_and!; [by exists call|done|done].
    + exists x, reg, es. unfold produced. split_and!; [done|apply Hsound|by exists call|done|done|done].
Qed.

Lemma group_finishes_ok reg started now i s outcome p : invariant p -> pump p = Executing reg started -> Stream.return_group i (stream p) = Some (s, outcome) ->
  invariant (group_finishes float_repr sha256_hex pid reg started now outcome (with_stream s p)).
Proof.
  intros I Hp Hret. pose proof (v_pump p I) as Hw. unfold pump_ok in Hw. rewrite Hp in Hw. destruct Hw as (Hcall & Hid & Heq & Hpol & Hasm & Hsame).
  destruct (return_group_ok reg p i s outcome I Hsame Hret) as (Ht & Hpau & Hsafe & Hres).
  assert (forall e a, invariant (pump_fails e (with_work a s (pump p) p))) as Hfail.
  { intros e a. pose proof (pump_fails_ok e a s (box p) p I Ht Hpau Hsafe eq_refl eq_refl). by destruct p. }
  unfold group_finishes. destruct outcome as [rs|e]; [|by apply (Hfail e (asm p))].
  destruct Hcall as [call Hcall]. pose proof (registered_facts [call] reg (ex_intro _ call (conj (list_elem_of_here _ _) Hcall))) as (H2 & Hnd & _).
  assert (rs <> []) as Hne. { intros ->. destruct (plans reg); [cbn in H2; lia|done]. }
  destruct (complete_all_ordered float_repr sha256_hex reg [] rs None (asm p) Hasm Hnd Hne Hres) as (a & Ha & Hfree). cbn [app] in Ha, Hfree.
  change (asm (with_stream s p)) with (asm p). rewrite Ha.
  destruct (receipt_of float_repr sha256_hex reg (zip (plans reg) rs)) as [r|e] eqn:Er; [|apply Hfail].
  assert (active p = true) as Hact by (unfold active; by rewrite Hp). destruct (not_quiet p I (or_introl Hact)) as [Hserved Hready].
  pose proof (v_box p I) as Hb. pose proof (v_room p I) as Hr. unfold box_ok in Hb. rewrite Hp in Hb. rewrite Hact in Hr. destruct Hb as [Hk Hc].
  pose proof (packet_sound p reg rs r started now I (ex_intro _ call Hcall) Heq Hserved Hpol Hres Er) as Hrow.
  split; cbn; try apply I.
  - change (Forall (row_sound (served p)) (entries (retained (box p) ++ [(reg_group_id reg, (packet_of pid p (reg_group_id reg) started now r, false))]))).
    unfold entries. rewrite map_app, Hserved. apply Forall_app. split; [rewrite <- Hserved; apply I|]. by constructor.
  - unfold box_ok. cbn. rewrite fmap_app, Hk. cbn. rewrite Hid. split; [|lia].
    replace (next_group (box p)) with (next_group (box p) - 1 + 1) at 3 by lia. by rewrite range_snoc by lia.
  - unfold active. cbn. rewrite length_app. cbn. lia.
  - unfold pump_ok. cbn. split; [done|]. by apply Hfree.
  - unfold quiet_ok. cbn. rewrite Hready. split; [done|]. destruct (v_quiet p I) as [_ Hq]. unfold quiet in *.
    destruct (control p) as [[]|]; try done; destruct Hq as (? & ? & ?); congruence.
  - done.
Qed.

Lemma publish_ok g p : invariant p -> pump p = Publishing g -> invariant (publish g p).
Proof.
  intros I Hp. pose proof (v_box p I) as Hb. pose proof (v_room p I) as Hr. pose proof (v_pump p I) as Hw. pose proof (v_quiet p I) as Hq. pose proof (v_rows p I) as Hrows.
  unfold box_ok, active, pump_ok, quiet_ok, quiet, active in Hb, Hr, Hw, Hq. rewrite Hp in *. unfold publish. destruct (stopped p); [|split; cbn; try apply I; done].
  set (f := mark_stopped g _). assert ((map f (retained (box p))).*1 = (retained (box p)).*1) as Hk.
  { rewrite <- list_fmap_compose. apply list_fmap_ext. intros i [h [k d]] _. cbn. unfold f, mark_stopped. cbn. by destruct (h =? g). }
  split; cbn; try apply I; try done.
  - change (Forall (row_sound (served p)) (entries (map f (retained (box p))))). unfold entries in *. rewrite map_map. clear -Hrows.
    induction (retained (box p)) as [|x l IH]; cbn in *; constructor; apply Forall_cons in Hrows as [Hx Hl]; [by apply mark_sound|by apply IH].
  - unfold box_ok. cbn. rewrite Hk. done.
  - unfold active. cbn. rewrite length_map. lia.
  - unfold quiet_ok, quiet, active. cbn. destruct Hq as [Hq1 Hq2]. split; [intros H; destruct (Hq1 H) as [(? & ? & ?) ?]; done|]. destruct (control p) as [[]|]; naive_solver.
Qed.

(** ** The coordinator's own steps *)

Lemma coordinate_tasks a s s' : Stream.step c has_admit_group a s = Some s' ->
  match a with Stream.OnGroup _ _ | Stream.Cancel _ => True | _ => False end ->
  Stream.st_paused s' = Stream.st_paused s /\ (Stream.st_tasks s = [] -> Stream.st_tasks s' = [])
  /\ forall reg, same_plans s reg -> same_plans s' reg.
Proof.
  intros H Ha. destruct a as [|i ga| |why| | |]; try done; cbn in H.
  - unfold Stream.group_step in H. destruct (Stream.st_tasks s !! i) as [t|] eqn:Et; [|done].
    assert (exists ph, Stream.st_paused s' = Stream.st_paused s /\ Stream.st_tasks s' = <[i := Stream.with_phase t ph]> (Stream.st_tasks s)) as (ph & Hp & Ht).
    { repeat (case_match; try done); injection H as <-; by eexists. }
    split_and!; [done|intros Hn; by rewrite Hn in Et|]. intros reg (u & Hu & Hpl). rewrite Hu in Et, Ht. destruct i as [|i]; [|done]. injection Et as <-.
    unfold same_plans. rewrite Ht. by eexists.
  - injection H as <-. split_and!; [done|done|]. intros reg (u & Hu & Hpl). by exists u.
Qed.

Lemma coordinate_ok a s p : invariant p -> StreamSafety.wf_step a -> Stream.step c has_admit_group a (stream p) = Some s ->
  match a with Stream.OnGroup _ _ | Stream.Cancel _ => True | _ => False end -> invariant (with_stream s p).
Proof.
  intros I Hwf Hs Ha. destruct (coordinate_tasks a _ s Hs Ha) as (Hp & Ht & Hpl).
  split; cbn; try apply I.
  - pose proof (v_pump p I) as Hw. unfold pump_ok in *. cbn. destruct (pump p); naive_solver.
  - pose proof (v_quiet p I) as Hq. unfold quiet_ok, quiet, active in *. cbn. by rewrite Hp.
  - eapply (StreamSafety.step_safe c has_admit_group a); [done|apply I|done].
Qed.

(** ** The learner's calls *)

Lemma deliver_entries l l' g k : deliver l = Some (l', (g, k)) -> entries l' = entries l /\ l'.*1 = l.*1 /\ length l' = length l.
Proof.
  revert l'; induction l as [|[h [x []]] l IH]; intros l' H; cbn in H; [done| |by injection H as <- <- <-].
  destruct (deliver l) as [[l1 r]|] eqn:E; [|done]. injection H as <- ->. destruct (IH l1 eq_refl) as (H1 & H2 & H3). unfold entries in *. cbn.
  split_and!; [by rewrite H1|by rewrite H2|by rewrite H3].
Qed.

(** Replacing the mailbox while nothing is produced differently. *)
Lemma with_box_ok b p : invariant p -> next_group b = next_group (box p) ->
  Forall (row_sound (served p)) (entries (retained b)) -> (length (retained b) <= length (retained (box p)))%nat ->
  (forall m, (retained (box p)).*1 = range (committed (box p)) m -> committed (box p) <= m -> (retained b).*1 = range (committed b) m /\ committed b <= m) ->
  invariant (with_box b p).
Proof.
  intros I Hn Hrows Hlen Hm. split; cbn; try apply I; try done.
  - pose proof (v_box p I) as Hb. unfold box_ok in *. cbn. rewrite Hn. destruct (pump p); try (destruct Hb as [Hk Hc]; by apply Hm).
    destruct Hb as (m & Hk & Hc & Hor). exists m. destruct (Hm m Hk Hc). naive_solver.
  - pose proof (v_room p I). unfold active in *. cbn. lia.
  - pose proof (v_pump p I) as Hw. unfold pump_ok in *. cbn. by rewrite Hn.
Qed.

Lemma with_signal_ok b p : invariant p -> invariant (with_signal b p).
Proof. intros I. split; cbn; apply I. Qed.

Lemma get_ok p : invariant p -> invariant (get p).1.
Proof.
  intros I. unfold get. destruct (deliver _) as [[l [g k]]|] eqn:E; [|done]. apply deliver_entries in E as (He & Hk & Hl). cbn.
  apply with_box_ok; cbn [retained next_group committed]; rewrite ?He, ?Hk, ?Hl; try done. apply I.
Qed.

(** A successful commit takes the oldest groups, all of them delivered. *)
Definition committed_prefix p (consumed lost : list Z) (q : provider) : Prop :=
  let n := Z.of_nat (length consumed + length lost) in
  consumed ++ lost ≡ₚ range (committed (box p)) (committed (box p) + n)
  /\ (forall g, g ∈ consumed ++ lost -> exists k, (g, (k, true)) ∈ retained (box p) /\ (g ∈ consumed -> is_Some (group k)))
  /\ committed (box q) = committed (box p) + n /\ dropped (box q) = dropped (box p) + Z.of_nat (length lost) /\ next_group (box q) = next_group (box p)
  /\ retained (box q) = filter (fun x => committed (box q) <= x.1) (retained (box p)).

Lemma sorted_keys_range a m l : l.*1 = range a m -> sorted_keys l = range a m.
Proof. intros H. unfold sorted_keys. rewrite H. apply sorted_by_id, range_sorted. Qed.

Lemma filter_agree {A} (P Q : A -> Prop) `{!forall x, Decision (P x)} `{!forall x, Decision (Q x)} (xs : list A) :
  (forall x, x ∈ xs -> P x <-> Q x) -> filter P xs = filter Q xs.
Proof.
  induction xs as [|x xs IH]; intros Hag; [done|]. assert (filter P xs = filter Q xs) as E by (apply IH; intros y Hy; apply Hag; by right).
  destruct (decide (P x)) as [Hx|Hx].
  - rewrite !filter_cons_True by first [done|apply Hag; [left|done]]. by rewrite E.
  - rewrite !filter_cons_False by first [done|rewrite <- Hag; [done|left]]. done.
Qed.

Lemma commit_prefix consumed lost p q v : invariant p -> commit consumed lost p = (q, Returned v) -> committed_prefix p consumed lost q.
Proof.
  intros I. unfold commit. destruct (negb (distinct _) || _ || _) eqn:E; [done|]. destruct (existsb _ consumed) eqn:Ec; [done|]. intros [= <- _].
  apply orb_false_iff in E as [E Ed]. apply orb_false_iff in E as [_ Et]. destr_bool. destruct (box_range p I) as (m & Hk & Hm).
  set (ids := sorted_by Z.leb (consumed ++ lost)) in *. rewrite (sorted_keys_range _ _ _ Hk) in Et.
  assert (length ids = length consumed + length lost)%nat as Hlen by (unfold ids; by rewrite sorted_by_length, length_app).
  assert (committed (box p) + Z.of_nat (length ids) <= m) as Hle by (apply (f_equal length) in Et; rewrite length_take, range_length in Et; lia).
  rewrite take_range in Et by lia.
  assert (consumed ++ lost ≡ₚ ids) as Hperm by (symmetry; apply sorted_by_perm).
  unfold committed_prefix. cbn. rewrite <- Hlen.
  assert (match last ids with Some g => g + 1 | None => committed (box p) end = committed (box p) + Z.of_nat (length ids)) as Hlast.
  { rewrite Et at 1. destruct (length ids); [by rewrite Z.add_0_r, range_nil|]. rewrite last_range by lia. lia. }
  split_and!; [rewrite Hperm; by rewrite Et at 1| |exact Hlast|done|done|].
  - intros g Hg. rewrite Hperm in Hg. rewrite existsb_false, Forall_forall in Ed. specialize (Ed g Hg). cbv beta in Ed.
    destruct (row_of g (retained (box p))) as [[k d]|] eqn:Erow; [|done]. destruct d; [|done]. exists k. split; [by apply assoc_some in Erow|].
    intros Hc. rewrite existsb_false, Forall_forall in Ec. specialize (Ec g Hc). cbv beta in Ec. rewrite Erow in Ec. destr_bool. by apply not_eq_None_Some.
  - rewrite Hlast. apply filter_agree. intros x Hx. assert (x.1 ∈ (retained (box p)).*1) as Hin by (by apply list_elem_of_fmap_2).
    rewrite Hk, elem_of_range in Hin. assert (x.1 ∈ ids <-> committed (box p) <= x.1 < committed (box p) + Z.of_nat (length ids)) as -> by (rewrite Et at 1; apply elem_of_range). lia.
Qed.

Lemma range_filter a b m : a <= b <= m -> filter (fun x => b <= x) (range a m) = range b m.
Proof.
  intros Hab. rewrite <- (range_app a b m) by lia. rewrite filter_app.
  assert (filter (fun x => b <= x) (range a b) = []) as ->.
  { apply elem_of_nil_inv. intros x [Hx Hin]%list_elem_of_filter. apply elem_of_range in Hin. lia. }
  cbn. assert (forall (n : nat) (k : Z), b <= k -> filter (fun x => b <= x) (map (fun i => k + Z.of_nat i) (seq 0 n)) = map (fun i => k + Z.of_nat i) (seq 0 n)) as Hall.
  { intros n k Hk. generalize (seq 0 n) as xs. induction xs as [|i xs IH]; [done|]. cbn [map]. rewrite filter_cons_True by lia. by rewrite IH. }
  apply Hall. lia.
Qed.

Lemma filter_fst (f : Z -> Prop) `{!forall x, Decision (f x)} l : (filter (fun x => f x.1) l).*1 = filter f l.*1.
Proof.
  induction l as [|x l IH]; [done|]. rewrite fmap_cons. destruct (decide (f x.1)) as [Hx|Hx].
  - by rewrite !filter_cons_True, fmap_cons, IH.
  - by rewrite !filter_cons_False, IH.
Qed.

Lemma commit_ok consumed lost p : invariant p -> invariant (commit consumed lost p).1.
Proof.
  intros I. destruct (commit consumed lost p) as [q o] eqn:E. pose proof E as E'. unfold commit in E'. destruct (_ || _); [by injection E' as <- <-|].
  destruct (existsb _ _); [by injection E' as <- <-|]. injection E' as <- <-. pose proof (commit_prefix consumed lost p _ _ I E) as (Hperm & Hrow & Hc & _ & _ & Hr).
  cbn [fst]. apply with_signal_ok. set (b := {| retained := _ |}) in *. change (box (with_signal true (with_box b p))) with b in *.
  apply with_box_ok; [done|done| | |].
  - rewrite Hr. pose proof (v_rows p I) as Hrows. unfold entries in *. rewrite Forall_fmap in Hrows. apply Forall_fmap. rewrite Forall_forall in *. intros x [_ Hx]%list_elem_of_filter. by apply Hrows.
  - rewrite Hr. apply length_filter.
  - intros m Hk Hm. rewrite Hr. rewrite (filter_fst (fun g => committed b <= g)), Hk. 
    assert (committed b <= m) as Hle.
    { rewrite Hc. destruct (decide (length consumed + length lost = 0)%nat) as [->|Hne]; [lia|].
      assert (committed (box p) + Z.of_nat (length consumed + length lost) - 1 ∈ consumed ++ lost) as Hin by (rewrite Hperm, elem_of_range; lia).
      destruct (Hrow _ Hin) as (k & Hk' & _). assert (committed (box p) + Z.of_nat (length consumed + length lost) - 1 ∈ (retained (box p)).*1) as Hin' by (by apply (list_elem_of_fmap_2 fst _ _) in Hk').
      rewrite Hk, elem_of_range in Hin'. lia. }
    rewrite range_filter by lia. done.
Qed.

(** ** Pausing, activating, resuming, closing *)

(** A control phase changes, the policies do not. *)
Lemma with_control_ok r o p : invariant p -> match control p with Some (Activating _ _) => False | _ => True end -> match o with Some (Activating _ _) => False | _ => True end ->
  quiet_ok (with_control r o p) -> invariant (with_control r o p).
Proof.
  intros I Hc Ho Hq. assert (served (with_control r o p) = served p) as Hs by (unfold served; cbn; destruct (control p) as [[]|], o as [[]|]; done).
  split; try (rewrite Hs; apply I); try exact Hq; try apply I. cbn. destruct o as [[]|]; done.
Qed.

Lemma with_pause_ok e p : invariant p -> (failure p <> None -> e <> None) -> invariant (with_pause true e p).
Proof.
  intros I He. split; cbn; try apply I.
  - pose proof (v_box p I) as Hb. unfold box_ok in *. cbn. destruct (pump p); try done. destruct Hb as (m & ? & ? & Hor). exists m. naive_solver.
  - destruct (v_quiet p I) as [Hr Hc]. unfold quiet_ok, quiet, active in *. cbn. split; [intros H; destruct (Hr H) as [(? & ? & ?) ?]; done|].
    destruct (control p) as [[]|]; naive_solver.
  - intros Ht. apply He, (v_timed p I Ht).
Qed.

Lemma pause_begins_ok p : invariant p -> control p = None -> invariant (with_control false (Some PauseWaiting) (with_pause true (failure p) p)).
Proof. intros I Hc. apply with_control_ok; [by apply with_pause_ok|cbn; by rewrite Hc|done|]. by split. Qed.

Lemma pause_drains_ok p : invariant p -> control p = Some PauseWaiting -> active p = false ->
  invariant (with_control (activation_ready p) (Some PauseDraining)
    (with_stream (Stream.set_flags true (Stream.st_closed (stream p)) (Stream.st_failures (stream p)) (stream p)) p)).
Proof.
  intros I Hc Ha. destruct (v_quiet p I) as [Hr Hq]. rewrite Hc in Hr, Hq.
  assert (activation_ready p = false) as Hno. { destruct (activation_ready p); [|done]. by destruct (Hr eq_refl) as [_ []]. }
  assert (served p = policy p) as Hs by (unfold served; by rewrite Hc).
  split; cbn; try apply I; unfold served; cbn; rewrite <- ?Hs; try apply I; try done.
  - split; rewrite ?Hs; pose proof (v_policies p I) as [? ?]; [done|by rewrite <- Hs].
  - unfold quiet_ok, quiet, active. cbn. by rewrite Hno.
  - eapply StreamSafety.Safe_frame; [|apply I]. by repeat split.
Qed.

Lemma pause_asks_ok p : invariant p -> control p = Some PauseDraining -> invariant (with_control (activation_ready p) (Some PauseAsking) p).
Proof.
  intros I Hc. pose proof (v_quiet p I) as Hq. apply with_control_ok; [done|by rewrite Hc|done|]. unfold quiet_ok, quiet, active in *. cbn. rewrite Hc in Hq. naive_solver.
Qed.

Lemma pause_answers_ok answer p : invariant p -> control p = Some PauseAsking -> invariant (pause_answers float_repr answer p).1.
Proof.
  intros I Hc. pose proof (v_quiet p I) as Hq. unfold quiet_ok in Hq. rewrite Hc in Hq. destruct Hq as [Hr Hq]. unfold pause_answers.
  destruct (pause_proof _ _ _); cbn; (apply with_control_ok; [done|by rewrite Hc|done|]); unfold quiet_ok, quiet, active in *; cbn; naive_solver.
Qed.

Lemma next_policy_newer p a q : next_policy policy_factory p a = Ok q ->
  policy_factory a = Ok q /\ newer q (policy p) /\ paused p = true /\ active p = false /\ Stream.st_paused (stream p) = true /\ failure p = None /\ stopped p = false.
Proof.
  unfold next_policy. intros H. res_inv H. subst. destr_bool. repeat match goal with H : orb _ _ = false |- _ => apply orb_false_iff in H as [? ?] end. destr_bool.
  unfold newer. split_and!; try done. match goal with H : ~ is_Some _ |- _ => by apply eq_None_not_Some in H end.
Qed.

Lemma activate_begins_ok a p : invariant p -> control p = None -> invariant (activate_begins policy_factory a p).1.
Proof.
  intros I Hc. unfold activate_begins. destruct (negb (activation_ready p)); [done|]. destruct (next_policy _ _ _) as [q|e] eqn:E; cbn [fst].
  - destruct (next_policy_newer p a q E) as (Hf & Hn & Hp & Ha & Hs & _). assert (served p = policy p) as Hserved by (unfold served; by rewrite Hc).
    destruct (factory_lineage a q Hf) as [Hq _]. pose proof (v_policies p I) as [Hpol _].
    split; cbn; unfold served; cbn; rewrite <- ?Hserved; try apply I; try done; try (split; [done|by rewrite Hserved]).
    pose proof (v_pump p I) as Hw. unfold pump_ok, active in *. cbn. destruct (pump p); done.
  - apply with_control_ok; [done|by rewrite Hc|done|]. by split.
Qed.

Lemma activate_answers_ok prior a answer p : invariant p -> control p = Some (Activating prior a) -> invariant (activate_answers prior a answer p).1.
Proof.
  intros I Hc. pose proof (v_quiet p I) as [Hr Hq]. pose proof (v_next p I) as Hn. rewrite Hc in Hr, Hq, Hn. destruct Hn as [Hf Hnew].
  assert (activation_ready p = false) as Hno. { destruct (activation_ready p); [|done]. by destruct (Hr eq_refl) as [_ []]. }
  assert (served p = prior) as Hs by (unfold served; by rewrite Hc). pose proof (v_policies p I) as [Hpol Hpri]. rewrite Hs in Hpri.
  assert (pump_ok p) as Hw by apply I. destruct Hq as (Hpau & Hact & Hstp). unfold activate_answers.
  destruct (match answer with Ok _ => _ | Err _ => _ end) as [k|e] eqn:E; cbn [fst].
  - assert (k = expected_ack (policy p)) as ->. { res_inv E. subst. by eapply check_ack_inv. }
    split; cbn; unfold served; cbn; try apply I; try done.
    + pose proof (v_temperature p I) as Ht. rewrite Hs in Ht. eapply fval_eqb_trans; [exact Ht|]. apply fval_eqb_sym, Hnew.
    + eapply Forall_impl; [apply (v_rows p I)|]. intros x. rewrite Hs. by apply row_sound_newer.
  - split; cbn; unfold served; cbn; rewrite <- ?Hs; try apply I; try done; try (rewrite Hs; done).
    + pose proof (v_box p I) as Hb. unfold box_ok in *. cbn. destruct (pump p); try done. destruct Hb as (m & ? & ? & _). exists m. split_and!; [done|done|by right].
    + unfold pump_ok, active in *. cbn. destruct (pump p); done.
Qed.

Lemma resume_answers_ok answer p : invariant p -> control p = Some Resuming -> invariant (resume_answers answer p).1.
Proof.
  intros I Hc. pose proof (v_quiet p I) as [Hr _]. rewrite Hc in Hr.
  assert (forall s, Stream.resume_stream (stream p) = s -> StreamSafety.Safe c s.1 /\ Stream.st_tasks s.1 = Stream.st_tasks (stream p)) as Hres.
  { intros s <-. split; [eapply StreamSafety.Safe_frame; [apply StreamProofs.resume_frame|apply I]|]. unfold Stream.resume_stream. by destruct (_ || _). }
  assert (served p = policy p) as Hs by (unfold served; by rewrite Hc). unfold resume_answers.
  assert (forall b, invariant (with_control b None p) <-> quiet_ok (with_control b None p)) as Hcon.
  { intros b. split; [by intros []|]. intros. apply with_control_ok; [done|by rewrite Hc|done|done]. }
  destruct (match answer with Ok _ => _ | Err _ => _ end) as [k|e] eqn:E; cbn [fst].
  2: { apply Hcon. unfold quiet_ok, quiet, active in *. cbn. naive_solver. }
  destruct (Stream.resume_stream (stream p)) as [s [u|e]] eqn:Er; cbn [fst]; destruct (Hres _ eq_refl) as [Hsafe Ht]; cbn [fst] in Hsafe, Ht.
  - split; cbn; unfold served; cbn; rewrite <- ?Hs; try apply I; try done; try (split; rewrite ?Hs; apply I).
    + pose proof (v_pump p I) as Hw. unfold pump_ok, same_plans in *. cbn. by rewrite Ht.
  - assert (s = stream p) as ->. { unfold Stream.resume_stream in Er. destruct (_ || _); [by injection Er as <-|done]. }
    assert (invariant (with_control (activation_ready p) None p)) as HI; [|by destruct p]. apply Hcon. unfold quiet_ok, quiet, active in *. cbn. naive_solver.
Qed.

(** ** Every action *)

(** Registrations come from their constructor and hold sound policies and
    plans; the coordinator's closures are mappings or falsy. *)
Definition admissible (a : action) : Prop :=
  match a with
  | PlansReady (Ok reg) _ => (exists call, registration_of call = Ok reg) /\ sound_policy float_repr (reg_policy reg) /\ Forall StreamProofs.wf_plan (plans reg)
  | Coordinate b => StreamSafety.wf_step b
  | _ => True
  end.

Lemma times_out_ok p : invariant p -> forall q o, act CallTimesOut p = Some (q, o) -> invariant q.
Proof.
  intros I q o [= <- _]. set (e := RuntimeError _).
  assert (invariant (with_control false (control p) (with_pause true (Some e) p))) as J.
  { pose proof (with_pause_ok (Some e) p I ltac:(done)) as J. destruct (v_quiet _ J) as [_ Hq]. split; cbn; try apply J.
    unfold quiet_ok, quiet, active in *. cbn in *. split; [done|]. exact Hq. }
  by destruct J.
Qed.

Lemma close_begins_ok p : invariant p -> forall q o, act CloseBegins p = Some (q, o) -> invariant q.
Proof. intros I q o [= <- _]. destruct (with_signal_ok true _ (with_pause_ok (failure p) p I ltac:(done))). by split. Qed.

Lemma close_stream_ok hooks p : invariant p -> control p = None -> pump p = Finished ->
  let s := Stream.close_stream hooks (Stream.set_flags true (Stream.st_closed (stream p)) (Stream.st_failures (stream p)) (stream p)) in invariant (with_stream s.1 p).
Proof.
  intros I Hc Hp s. assert (StreamSafety.Safe c s.1) as Hs.
  { eapply StreamSafety.Safe_frame; [apply StreamProofs.close_stream_frame|]. eapply StreamSafety.Safe_frame; [|apply I]. by repeat split. }
  destruct (v_quiet p I) as [Hr _]. split; cbn; try apply I; try done.
  unfold quiet_ok, quiet, active in *. cbn. rewrite Hc in Hr |- *. split; [|done]. intros H. destruct (Hr H) as [(? & ? & ?) _]. done.
Qed.

Lemma answered {A} (f : provider * A) q o : Some f = Some (q, o) -> invariant f.1 -> invariant q.
Proof. by intros [= ->]. Qed.

Lemma provider_act_ok a p q o : invariant p -> admissible a -> act a p = Some (q, o) -> invariant q.
Proof.
  intros I Ha H. destruct a as [| |[reg|e] now|i now| |b| |consumed lost| | | |answer|art|answer| |answer| | |hooks]; cbn [BenchmarkProvider.act] in H.
  - destruct (pump p) eqn:Ep; try done. destruct (changed p); [|done]. injection H as <- _. by apply wakes_ok.
  - destruct (pump p) eqn:Ep; try done. injection H as <- _. by apply turns_ok.
  - destruct (pump p) eqn:Ep; try done. injection H as <- _. destruct Ha as (? & ? & ?). by apply submit_group_ok.
  - destruct (pump p) eqn:Ep; try done. injection H as <- _. apply pump_fails_same; [done|]. by apply new_prepared.
  - destruct (pump p) eqn:Ep; try done. destruct (Stream.return_group i (stream p)) as [[s r]|] eqn:Er; [|done]. injection H as <- _. by eapply group_finishes_ok.
  - destruct (pump p) eqn:Ep; try done. injection H as <- _. by apply publish_ok.
  - destruct b as [|j b| |why| | |]; try done; destruct (Stream.step _ _ _ _) as [s|] eqn:Es; try done; injection H as <- _; by eapply coordinate_ok.
  - eapply answered; [exact H|]. by apply get_ok.
  - eapply answered; [exact H|]. by apply commit_ok.
  - destruct (control p) eqn:Ec; try done. injection H as <- _. by apply pause_begins_ok.
  - destruct (control p) as [[]|] eqn:Ec; try done. destruct (active p) eqn:Ea; [done|]. injection H as <- _. by apply pause_drains_ok.
  - destruct (control p) as [[]|] eqn:Ec; try done. destruct (Stream.st_tasks _); [|done]. injection H as <- _. by apply pause_asks_ok.
  - destruct (control p) as [[]|] eqn:Ec; try done. eapply answered; [exact H|]. by apply pause_answers_ok.
  - destruct (control p) eqn:Ec; try done. eapply answered; [exact H|]. by apply activate_begins_ok.
  - destruct (control p) as [[]|] eqn:Ec; try done. eapply answered; [exact H|]. by apply activate_answers_ok.
  - destruct (control p) eqn:Ec; try done. destruct (closing p || _ || _); injection H as <- _; [done|].
    apply with_control_ok; [done|by rewrite Ec|done|]. destruct (v_quiet p I) as [Hr _]. unfold quiet_ok, quiet, active in *. cbn. rewrite Ec in Hr. naive_solver.
  - destruct (control p) as [[]|] eqn:Ec; try done. eapply answered; [exact H|]. by apply resume_answers_ok.
  - by eapply times_out_ok.
  - by eapply close_begins_ok.
  - destruct (pump p) eqn:Ep; try done. destruct (control p) eqn:Ec; try done. destruct (_ || _); [done|]. destruct (Stream.st_tasks _); [|done].
    pose proof (close_stream_ok hooks p I Ec Ep) as Hs. cbv zeta in Hs. destruct (Stream.close_stream _ _) as [s r]. by injection H as <- _.
Qed.

(** ** Starting and restarting *)

Definition undelivered l : list (Z * (packet * bool)) := map (fun x => (x.1, (x.2.1, false))) l.

Lemma entries_undelivered l : entries (undelivered l) = entries l.
Proof. unfold entries, undelivered. by rewrite map_map. Qed.
Lemma undelivered_keys l : (undelivered l).*1 = l.*1.
Proof. unfold undelivered. rewrite <- list_fmap_compose. done. Qed.

Lemma restore_encoded pol pol' l acc r : Forall (row_sound pol) (entries l) -> restore_packets float_repr sha256_hex pol' (map (fun x => encode x.2.1) l) acc = Ok r ->
  r = acc ++ undelivered l /\ Forall (fun x => match group x.2 with Some t => restorable pol' t = true | None => True end) (entries l).
Proof.
  revert acc; induction l as [|[g [k d]] l IH]; intros acc Hl H; cbn [map restore_packets fst snd] in H; [injection H as <-; split; [by rewrite app_nil_r|constructor]|].
  apply Forall_cons in Hl as [Hk Hl]. rewrite (decode_encode pol g k Hk) in H. cbv beta iota in H. destruct Hk as [Hid _ _]. cbn [fst snd] in Hid.
  unfold dict_int, dict_item in H. rewrite Hid in H. cbv beta iota in H. destruct (bool_decide _); [done|].
  destruct (match group k with Some t => _ | None => _ end) eqn:E; [done|]. destruct (IH _ Hl H) as [-> Hr]. split; [by rewrite <- app_assoc|].
  constructor; [|done]. cbn. destruct (group k); [|done]. by destr_bool.
Qed.

Lemma restore_same pol l acc : Forall (row_sound pol) (entries l) -> NoDup (acc.*1 ++ l.*1) ->
  restore_packets float_repr sha256_hex pol (map (fun x => encode x.2.1) l) acc = Ok (acc ++ undelivered l).
Proof.
  revert acc; induction l as [|[g [k d]] l IH]; intros acc Hl Hn; cbn [map restore_packets fst snd]; [by rewrite app_nil_r|].
  apply Forall_cons in Hl as [Hk Hl]. rewrite (decode_encode pol g k Hk). cbv beta iota. destruct Hk as [Hid _ Hg]. cbn [fst snd] in Hid, Hg.
  unfold dict_int, dict_item. rewrite Hid. cbv beta iota. rewrite bool_decide_eq_false_2.
  - replace (match group k with Some t => negb (restorable pol t) | None => false end) with false.
    + rewrite IH; [by rewrite <- app_assoc|done|]. rewrite fmap_app. cbn. by rewrite <- app_assoc.
    + unfold row_group in Hg. destruct (group k); [|done]. destruct Hg as (_ & _ & _ & -> & _). done.
  - cbn in Hn. apply NoDup_app in Hn as (_ & Hn & _). intros Hin. apply (Hn g Hin). left.
Qed.

(** The mailbox a snapshot restores. *)
Definition restored_box (b : mailbox) : mailbox :=
  {| retained := undelivered (retained b); next_group := next_group b; committed := committed b; dropped := dropped b |}.

Lemma snapshot_boundary p d : snapshot float_repr p = Ok d -> active p = false /\ failure p = None /\ stopped p = false.
Proof.
  unfold snapshot. destruct (_ || _) eqn:E; [done|]. intros _. destr_bool. split_and!; try done. match goal with H : ~ is_Some _ |- _ => by apply eq_None_not_Some in H end.
Qed.

Lemma snapshot_keys p d : invariant p -> snapshot float_repr p = Ok d -> (retained (box p)).*1 = range (committed (box p)) (next_group (box p)) /\ committed (box p) <= next_group (box p).
Proof.
  intros I (Ha & Hf & _)%snapshot_boundary. pose proof (v_box p I) as Hb. unfold box_ok, active in *. destruct (pump p); try done.
  destruct Hb as (m & Hk & Hm & [<-|Hor]); done.
Qed.

Lemma recover_unfold pol p d : snapshot float_repr p = Ok d ->
  recover float_repr sha256_hex queue_capacity groups_per_step pol d =
  (if negb (py_eqb (get_none "lineage" (artifact p)) (PStr (lineage pol))) then Err (ValueError "benchmark recovery requires a drained, reconciled same-lineage boundary")
   else match restore_packets float_repr sha256_hex pol (map (fun x => encode x.2.1) (retained (box p))) [] with
        | Ok l => if (bound <? Z.of_nat (length l)) || negb (bool_decide (sorted_keys l = range (committed (box p)) (next_group (box p))))
                  then Err (ValueError "benchmark recovery mailbox has a cursor gap or exceeds capacity")
                  else Ok {| retained := l; next_group := next_group (box p); committed := committed (box p); dropped := dropped (box p) |}
        | Err e => Err e
        end).
Proof. unfold snapshot. destruct (_ || _); [done|]. intros [= <-]. reflexivity. Qed.

Lemma snapshot_nonempty p d : snapshot float_repr p = Ok d -> d <> [].
Proof. unfold snapshot. destruct (_ || _); [done|]. by intros [= <-]. Qed.

Lemma start_ok u answer used token starts closes p : start c group_size u answer used token starts closes = Ok p ->
  sound_policy float_repr (u_policy u) -> policy_factory (u_artifact u) = Ok (u_policy u) -> fval_eqb (float_value config_temperature) (float_value (temperature (u_policy u))) = true ->
  Forall (row_sound (u_policy u)) (entries (retained (u_box u))) -> (retained (u_box u)).*1 = range (committed (u_box u)) (next_group (u_box u)) ->
  committed (u_box u) <= next_group (u_box u) -> Z.of_nat (length (retained (u_box u))) <= bound -> asm_free (u_asm u) -> 1 <= bound /\ 2 <= group_size -> invariant p.
Proof.
  intros H Hpol Hf Ht Hrows Hk Hc Hr Ha Hcfg. unfold start in H. res_inv H. subst p. apply check_ack_inv in R0 as ->.
  destruct (StreamSafety.open_stream_safe c workers_pos groups_pos used group_size token starts closes value1) as (Hs & Htasks & _).
  { unfold Stream.open_stream in *. destruct (_ || _); [done|]. destruct (Stream.start_stream_backends _ _ _) as [st [[]|e]]; cbn in *; [by injection R1 as <-|].
    by destruct (Stream.close_failures (rev st) closes). }
  split; cbn; try done. unfold active. cbn. lia.
Qed.

Lemma new_provider_fresh art n u : new_provider art [] n = Ok u ->
  policy_factory art = Ok (u_policy u) /\ u_artifact u = art /\ u_box u = {| retained := []; next_group := n; committed := n; dropped := 0 |} /\ asm_free (u_asm u)
  /\ fval_eqb (float_value config_temperature) (float_value (temperature (u_policy u))) = true /\ 1 <= bound /\ 2 <= group_size.
Proof.
  unfold BenchmarkProvider.new_provider. intros H. res_inv H. subst u. cbn. rewrite bool_decide_eq_true_2 in * by done. destr_bool.
  unfold new_assembler in *. repeat match goal with H : (if ?b then Err _ else Ok _) = Ok _ |- _ => destruct b; [done|] end. simplify_eq. by split_and!.
Qed.

Lemma row_sound_restorable pol pol' x : row_sound pol x -> match group x.2 with Some t => restorable pol' t = true | None => True end -> row_sound pol' x.
Proof. intros [Hid Hk Hg] Hr. split; [done|done|]. unfold row_group in *. destruct (group x.2); [|done]. naive_solver. Qed.

Lemma new_provider_restored art n u p d : invariant p -> snapshot float_repr p = Ok d -> new_provider art d n = Ok u ->
  policy_factory art = Ok (u_policy u) /\ u_artifact u = art /\ u_box u = restored_box (box p) /\ asm_free (u_asm u)
  /\ fval_eqb (float_value config_temperature) (float_value (temperature (u_policy u))) = true /\ Forall (row_sound (u_policy u)) (entries (retained (u_box u))).
Proof.
  intros I Hd H. unfold BenchmarkProvider.new_provider in H. res_inv H. subst u. cbn. rewrite (bool_decide_eq_false_2 _ (snapshot_nonempty p d Hd)) in R1.
  rewrite (recover_unfold _ _ _ Hd) in R1. res_inv R1.
  match goal with El : restore_packets _ _ _ _ _ = Ok _ |- _ => destruct (restore_encoded _ _ _ _ _ (v_rows p I) El) as [-> Hr] end. subst value1. cbn [app]. destr_bool.
  unfold new_assembler in *. repeat match goal with H : (if ?b then Err _ else Ok _) = Ok _ |- _ => destruct b; [done|] end. simplify_eq. split_and!; try done.
  cbn. rewrite entries_undelivered. apply Forall_forall. intros x Hx. pose proof (v_rows p I) as Hrows. rewrite Forall_forall in Hrows, Hr.
  eapply row_sound_restorable; [by apply Hrows|by apply Hr].
Qed.

(** Providers of any run, across restarts from a snapshot. *)
Inductive reachable : provider -> Prop :=
| reach_start art n u answer used token starts closes p :
    new_provider art [] n = Ok u -> start c group_size u answer used token starts closes = Ok p -> reachable p
| reach_step a p q o : reachable p -> admissible a -> act a p = Some (q, o) -> reachable q
| reach_restart p answer q d art n u ack used token starts closes r :
    reachable p -> act (PauseAnswers answer) p = Some (q, Snapshot d) ->
    new_provider art d n = Ok u -> start c group_size u ack used token starts closes = Ok r -> reachable r.

Lemma pause_snapshot answer p q d : act (PauseAnswers answer) p = Some (q, Snapshot d) ->
  control p = Some PauseAsking /\ snapshot float_repr p = Ok d /\ q = with_control true None p
  /\ exists proof, answer = Ok (PDict proof) /\ is_true (get_none "drain_complete" proof) = true /\ check_ack (policy p) (PDict proof) = Ok (expected_ack (policy p)).
Proof.
  cbn [BenchmarkProvider.act]. destruct (control p) as [[]|] eqn:Ec; try done. unfold pause_answers. intros H.
  destruct (pause_proof float_repr p answer) as [d'|e] eqn:E; [|done]. injection H as <- <-. unfold pause_proof in E.
  destruct answer as [v|]; [|done]. cbv beta iota in E. destruct v as [| | | | | |proof]; try done. destruct (negb (is_true _)) eqn:Ed in E; [done|].
  destruct (check_ack _ _) as [x|] eqn:Ex; [|done]. apply check_ack_inv in Ex as Hx. subst x. destruct (bool_decide _); [done|]. destruct (snapshot _ _); [|done].
  destruct (timed_out p); [done|]. injection E as ->. destr_bool. split_and!; try done. by exists proof.
Qed.

Lemma provider_reachable_invariant p : reachable p -> invariant p.
Proof.
  induction 1 as [art n u answer used token starts closes p Hn Hs|a p q o _ I Ha Hq|p answer q d art n u ack used token starts closes r _ I Hp Hn Hs].
  - destruct (new_provider_fresh art n u Hn) as (Hf & Hart & Hb & Ha & Ht & Hc). eapply start_ok; [exact Hs|by destruct (factory_lineage _ _ Hf)|by rewrite Hart|done|..]; rewrite ?Hb; cbn.
    + constructor.
    + by rewrite range_nil.
    + done.
    + lia.
    + done.
    + done.
  - by eapply provider_act_ok.
  - destruct (pause_snapshot answer p q d Hp) as (_ & Hd & _). destruct (new_provider_restored art n u p d I Hd Hn) as (Hf & Hart & Hb & Ha & Ht & Hrows).
    destruct (snapshot_keys p d I Hd) as [Hk Hc]. eapply start_ok; [exact Hs|by destruct (factory_lineage _ _ Hf)|by rewrite Hart|done|done|..]; rewrite ?Hb; cbn.
    + by rewrite undelivered_keys.
    + done.
    + unfold undelivered. rewrite length_map. pose proof (v_room p I). destruct (active p); lia.
    + done.
    + apply I.
Qed.

(** ** Which actions change the policy *)

Lemma submit_policy g now reg p : policy (submit_group c backends group_size g now reg p) = policy p.
Proof. unfold submit_group. destruct (check_registration _ _ _ _ _); [|done]. destruct (register _ _) as [? [[]|]]; [|done]. by destruct (Stream.submit _ _ _ _) as [? [[]|]]. Qed.
Lemma finishes_policy reg t0 t1 r p : policy (group_finishes float_repr sha256_hex pid reg t0 t1 r p) = policy p.
Proof. unfold group_finishes. destruct r; [|done]. by destruct (complete_all _ _ _ _ _) as [? [[]|]]. Qed.
Lemma publish_policy g p : policy (publish g p) = policy p.
Proof. unfold publish. by destruct (stopped p). Qed.
Lemma get_policy p : policy (get p).1 = policy p.
Proof. unfold get. by destruct (deliver _) as [[? []]|]. Qed.
Lemma commit_policy consumed lost p : policy (commit consumed lost p).1 = policy p.
Proof. unfold commit. destruct (_ || _ || _); [done|]. by destruct (existsb _ _). Qed.
Lemma pause_policy answer p : policy (pause_answers float_repr answer p).1 = policy p.
Proof. unfold pause_answers. by destruct (pause_proof _ _ _). Qed.
Lemma resume_policy answer p : policy (resume_answers answer p).1 = policy p.
Proof. unfold resume_answers. destruct (match answer with Ok _ => _ | Err _ => _ end); [|done]. by destruct (Stream.resume_stream _) as [? []]. Qed.

Lemma act_policy a p q o : act a p = Some (q, o) -> match a with ActivateBegins _ | ActivateAnswers _ => False | _ => True end -> policy q = policy p.
Proof.
  intros H Ha. destruct a as [| |[reg|e] now|i now| |b| |consumed lost| | | |answer|art|answer| |answer| | |hooks]; try done; cbn [BenchmarkProvider.act] in H;
    repeat match type of H with
    | match pump p with _ => _ end = _ => destruct (pump p); try discriminate H
    | match control p with _ => _ end = _ => destruct (control p) as [[]|]; try discriminate H
    | match b with _ => _ end = _ => destruct b; try discriminate H
    | match Stream.step _ _ _ _ with _ => _ end = _ => destruct (Stream.step _ _ _ _); try discriminate H
    | match Stream.st_tasks _ with _ => _ end = _ => destruct (Stream.st_tasks _); try discriminate H
    | (if ?x then _ else _) = _ => destruct x; try discriminate H
    end; try (injection H as <- _; first [done|apply submit_policy|apply publish_policy]); try (injection H as H; change q with (q, o).1; rewrite <- H; first [apply get_policy|apply commit_policy|apply pause_policy|apply resume_policy]).
  destruct (Stream.return_group _ _) as [[s r]|]; [|done]. injection H as <- _. by rewrite finishes_policy.
Qed.

(** ** The guarantees *)

(** C5. Policies change only between groups: in any run of a provider over its
    coordinator, across restarts, a step changes the policy only if admission
    is paused, no group is prepared or executed and the coordinator's stream is
    paused and empty. The step either begins the activation of a newer policy
    of the same lineage, sampling and identities, after a pause whose
    controller proved the drain, or gives up an activation without a valid
    acknowledgement: then the old policy is back and the provider has failed.
    A packet's acknowledgement is that of its own group's policy. *)
Theorem provider_policy_boundary p a q o : reachable p -> admissible a -> act a p = Some (q, o) ->
  Forall (fun x => forall t, group x.2 = Some t -> dict_get "policy_ack" (fields x.2) = Some (PDict (expected_ack (tg_policy t)))) (entries (retained (box q)))
  /\ (policy q = policy p
     \/ quiet p /\ active q = false /\ Stream.st_tasks (stream p) = []
       /\ ((exists art, a = ActivateBegins art /\ activation_ready p = true /\ newer (policy q) (policy p) /\ failure p = None /\ stopped p = false)
          \/ (exists answer prior art, a = ActivateAnswers answer /\ control p = Some (Activating prior art) /\ newer (policy p) prior /\ policy q = prior
               /\ ack q = expected_ack prior /\ failure q <> None /\ is_ok (v <-? answer; check_ack (policy p) v) && negb (timed_out p) = false)%py)).
Proof.
  intros Hr Ha H. apply provider_reachable_invariant in Hr as I. pose proof (provider_act_ok a p q o I Ha H) as J. split.
  { eapply Forall_impl; [apply (v_rows q J)|]. intros x [_ _ Hg] t Ht. unfold row_group in Hg. rewrite Ht in Hg. apply Hg. }
  destruct a as [| | | | | | | | | | | |art|answer| | | | |]; try (left; eapply act_policy; [exact H|done]); cbn [BenchmarkProvider.act] in H.
  - destruct (control p) eqn:Ec; [done|]. injection H as H. unfold activate_begins in H. destruct (negb (activation_ready p)) eqn:Er; [injection H as <- _; by left|].
    destruct (next_policy policy_factory p art) as [n|e] eqn:En; injection H as <- _; [|by left]. right. destr_bool.
    destruct (next_policy_newer p art n En) as (_ & Hn & Hp & Hact & Hs & Hf & Hst). split; [done|]. split; [done|]. split; [by apply quiet_tasks|]. left. by exists art.
  - destruct (control p) as [[| | |prior art|]|] eqn:Ec; try done. injection H as H. pose proof (v_quiet p I) as [_ Hq]. pose proof (v_next p I) as Hn. pose proof (v_ack p I) as Hack.
    unfold served in Hack. rewrite Ec in Hq, Hn, Hack. destruct Hn as [_ Hn]. unfold activate_answers in H.
    destruct (match answer with Ok _ => _ | Err _ => _ end) as [v|e] eqn:Ee; injection H as <- _; [by left|]. right.
    pose proof Hq as (_ & Hact & _). split; [exact Hq|]. split; [exact Hact|]. split; [by apply quiet_tasks|]. right. exists answer, prior, art. split_and!; try done.
    clear -Ee. destruct answer as [v|]; [|done]. cbv beta iota in *. destruct (check_ack _ _); [|done]. by destruct (timed_out p).
Qed.

(** C6. The groups of a provider are accounted for: in any run, across
    restarts, the mailbox stays within its bound and holds, without a gap, the
    groups between the committed and the next one, each with a receipt for
    exactly its own registered episodes. When the coordinator returns the
    executing group, the results are one per plan in order, and the group's
    receipt is retained, or the producer stops with the exception of its
    assembly. A commit that returns takes the oldest groups, all delivered,
    the consumed ones training groups, and nothing else. *)
Theorem provider_accounts_for_groups p : reachable p ->
  Z.of_nat (length (retained (box p))) <= bound
  /\ Forall (row_sound (served p)) (entries (retained (box p)))
  /\ (failure p = None -> (retained (box p)).*1 = range (committed (box p)) (match pump p with Executing _ _ => next_group (box p) - 1 | _ => next_group (box p) end))
  /\ (forall i now q o reg t0 s rs, act (GroupReturns i now) p = Some (q, o) -> pump p = Executing reg t0 -> Stream.return_group i (stream p) = Some (s, Ok rs) ->
       map result_identity rs = map identity (plans reg)
       /\ match receipt_of float_repr sha256_hex reg (zip (plans reg) rs) with
          | Ok r => retained (box q) = retained (box p) ++ [(reg_group_id reg, (packet_of pid p (reg_group_id reg) t0 now r, false))] /\ failure q = failure p
          | Err e => failure q = Some e /\ pump q = Finished
          end)
  /\ (forall consumed lost q v, act (Commit consumed lost) p = Some (q, Returned v) -> committed_prefix p consumed lost q).
Proof.
  intros I%provider_reachable_invariant. split_and!.
  - pose proof (v_room p I). destruct (active p); lia.
  - apply I.
  - intros Hf. pose proof (v_box p I) as Hb. unfold box_ok in Hb. destruct (pump p); try apply Hb. destruct Hb as (m & Hk & _ & [<-|Hor]); done.
  - intros i now q o reg t0 s rs H Hp Hret. pose proof (v_pump p I) as Hw. unfold pump_ok in Hw. rewrite Hp in Hw. destruct Hw as ([call Hcall] & _ & _ & _ & Hasm & Hsame).
    destruct (return_group_ok reg p i s (Ok rs) I Hsame Hret) as (_ & _ & _ & Hres). split; [done|].
    pose proof (registered_facts [call] reg (ex_intro _ call (conj (list_elem_of_here _ _) Hcall))) as (H2 & Hnd & _).
    assert (rs <> []) as Hne. { intros ->. destruct (plans reg); [cbn in H2; lia|done]. }
    destruct (complete_all_ordered float_repr sha256_hex reg [] rs None (asm p) Hasm Hnd Hne Hres) as (a & Hall & _). cbn [app] in Hall.
    cbn [BenchmarkProvider.act] in H. rewrite Hp, Hret in H. injection H as <- _. unfold group_finishes. change (asm (with_stream s p)) with (asm p). rewrite Hall.
    by destruct (receipt_of _ _ _ _).
  - intros consumed lost q v H. cbn [BenchmarkProvider.act] in H. injection H as H. by eapply commit_prefix.
Qed.

(** C8. A drained snapshot restores the provider: when a pause returns one,
    nothing runs, the coordinator is paused and empty and the controller proved
    the drain under the served policy; and a provider built from the snapshot
    and the active artifact has the same policy and cursors and the same
    packets, all to be delivered again. *)
Theorem snapshot_restores p answer q d n : reachable p -> act (PauseAnswers answer) p = Some (q, Snapshot d) ->
  quiet p /\ Stream.st_tasks (stream p) = [] /\ (exists proof, answer = Ok (PDict proof) /\ is_true (get_none "drain_complete" proof) = true
     /\ check_ack (policy p) (PDict proof) = Ok (expected_ack (policy p)))
  /\ exists u, new_provider (artifact q) d n = Ok u /\ u_policy u = policy q /\ u_box u = restored_box (box q).
Proof.
  intros I%provider_reachable_invariant H. destruct (pause_snapshot answer p q d H) as (Hc & Hd & -> & Hproof).
  pose proof (v_quiet p I) as [_ Hq]. rewrite Hc in Hq. cbn [with_control artifact policy box]. split_and!; [done|apply quiet_tasks; [done|apply Hq]|done|].
  assert (served p = policy p) as Hs by (unfold served; by rewrite Hc). pose proof (v_artifact p I) as Hart. rewrite Hs in Hart.
  destruct (factory_lineage _ _ Hart) as [_ Hlin]. destruct (snapshot_keys p d I Hd) as [Hk _]. pose proof (v_temperature p I) as Ht. rewrite Hs in Ht.
  pose proof (v_config p I) as [Hb Hg]. unfold BenchmarkProvider.new_provider. rewrite Hart, Ht. cbn [negb].
  replace ((bound <? 1) || (group_size <? 2)) with false by (symmetry; apply orb_false_iff; split; apply Z.ltb_ge; lia).
  assert (new_assembler 1 group_size = Ok {| max_groups := 1; max_episodes := group_size; groups := ∅; episodes := []; last_registered := -1 |}) as ->.
  { unfold new_assembler. replace (group_size <? 2) with false by (symmetry; apply Z.ltb_ge; lia). done. }
  cbv beta iota. rewrite (bool_decide_eq_false_2 _ (snapshot_nonempty p d Hd)), (recover_unfold _ _ _ Hd), Hlin.
  cbn [py_eqb]. rewrite bool_decide_eq_true_2 by done. cbn [negb].
  pose proof (v_rows p I) as Hrows. rewrite Hs in Hrows. rewrite (restore_same (policy p)); [|done|cbn; rewrite Hk; apply NoDup_range]. cbn [app].
  replace (bound <? Z.of_nat (length (undelivered (retained (box p))))) with false.
  - rewrite bool_decide_eq_true_2; [|apply sorted_keys_range; by rewrite undelivered_keys]. cbn. eexists. split; [done|]. done.
  - symmetry. apply Z.ltb_ge. unfold undelivered. rewrite length_map. pose proof (v_room p I). destruct (active p); lia.
Qed.
End Provider.

(** ** A run with one group, a pause and an activation *)

Definition toy_successor : PolicyRef := {| version := 4; policy_digest := zeros64; lineage := "run"; identities := []; temperature := float_one |}.
Definition toy_factory (a : pydict) : res PolicyRef :=
  match get_none "lineage" a, get_none "version" a with
  | PStr s, PInt v => if bool_decide (s = "run") then Ok (if v =? 4 then toy_successor else example_policy) else Err (ValueError "unknown lineage")
  | _, _ => Err (KeyError "version")
  end.
Definition toy_artifact (v : Z) : pydict := [("version", PInt v); ("lineage", PStr "run")].

Lemma toy_policy_sound v : sound_policy toy_repr (if v =? 4 then toy_successor else example_policy).
Proof.
  split; [|destruct (v =? 4); constructor]. destruct (v =? 4); [|apply example_policy_built].
  exists (PInt 4), (PStr zeros64), (PStr "run"), (PDict []), (PDict [("temperature", PFloat float_one); ("top_p", PInt 1); ("top_k", PInt 0)]).
  vm_compute. reflexivity.
Defined.

Lemma toy_factory_lineage a q : toy_factory a = Ok q -> sound_policy toy_repr q /\ get_none "lineage" a = PStr (lineage q).
Proof.
  unfold toy_factory. destruct (get_none "lineage" a) as [| | | |s| |]; try done. destruct (get_none "version" a) as [| |v| | | |]; try done.
  case_bool_decide; [|done]. intros [= <-]. split; [apply toy_policy_sound|]. subst s. by destruct (v =? 4).
Defined.

#[local] Notation toy_config := (CoordinatorExample.example_config "native-groups").
#[local] Notation toy_act := (act toy_repr toy_sha256 toy_config StreamExample.no_waves (fun _ => Some Unvalidated) 1 toy_factory 1 1 2).
#[local] Notation toy_reachable := (reachable toy_repr toy_sha256 toy_config StreamExample.no_waves (fun _ => Some Unvalidated) 1 toy_factory float_one 1 1 2).

Lemma toy_workers : 1 <= Coordinator.max_workers toy_config.
Proof. cbn. lia. Defined.
Lemma toy_groups : 1 <= Coordinator.max_groups toy_config.
Proof. cbn. lia. Defined.

Definition toy_ack (p : PolicyRef) : pyval := PDict (expected_ack p ++ [("drain_complete", PBool true)]).
Definition toy_registration : res GroupRegistration := new_registration 0 [toy_plan 0; toy_plan 1] example_policy zeros64 zeros64 toy_reward.
Definition toy_start : res provider :=
  (u <-? new_provider toy_repr toy_sha256 toy_factory float_one 1 1 2 (toy_artifact 3) [] 0; start toy_config 2 u (Ok (toy_ack example_policy)) false new_token [] [])%py.
Definition toy_actions : list action :=
  [PumpWakes; PumpTurns; PlansReady toy_registration float_one; Coordinate (Stream.OnGroup 0 Stream.StartGroup)]
  ++ map Coordinate (StreamExample.on_episode 0 1 (Coordinator.Returned (toy_result 1)) ++ StreamExample.on_episode 0 0 (Coordinator.Returned (toy_result 0)) ++ [Stream.OnGroup 0 Stream.EndCollect])
  ++ [GroupReturns 0 float_one; PumpPublishes; Get; PauseBegins; PumpTurns; PauseDrains; PauseStreamDrains].

Fixpoint toy_run (l : list action) (p : provider) : option provider :=
  match l with [] => Some p | a :: l => match toy_act a p with Some (q, _) => toy_run l q | None => None end end.

Lemma toy_run_reachable l p q : toy_reachable p -> Forall (admissible toy_repr) l -> toy_run l p = Some q -> toy_reachable q.
Proof.
  revert p; induction l as [|a l IH]; intros p Hp Hl H; [by injection H as <-|]. cbn in H. apply Forall_cons in Hl as [Ha Hl].
  destruct (toy_act a p) as [[r o]|] eqn:E; [|done]. eapply IH; [|exact Hl|exact H]. by eapply reach_step.
Defined.

Lemma toy_plan_wf i : StreamProofs.wf_plan (toy_plan i).
Proof. split; [intros []; cbn; lia|]. cbn. set_solver. Defined.

Lemma toy_registered : exists reg, toy_registration = Ok reg /\ reg_policy reg = example_policy /\ plans reg = [toy_plan 0; toy_plan 1].
Proof. eexists. split; [vm_compute; reflexivity|]. split; reflexivity. Defined.

Lemma toy_admissible : Forall (admissible toy_repr) toy_actions.
Proof.
  unfold toy_actions. destruct toy_registered as (reg & Hreg & Hp & Hl). pose proof Hreg as Hcall. rewrite Hreg. apply Forall_app. split.
  - apply Forall_cons; split; [exact I|]. apply Forall_cons; split; [exact I|]. apply Forall_cons; split; [|apply Forall_cons; split; [by split|constructor]].
    split_and!.
    + by exists (Register 0 [toy_plan 0; toy_plan 1] example_policy zeros64 zeros64 toy_reward).
    + rewrite Hp. exact (toy_policy_sound 3).
    + rewrite Hl. apply Forall_cons; split; [apply toy_plan_wf|]. apply Forall_cons; split; [apply toy_plan_wf|constructor].
  - apply Forall_app. split; [|repeat constructor]. apply Forall_fmap. repeat constructor.
Defined.

Lemma toy_reached p : toy_start = Ok p -> toy_reachable p.
Proof. unfold toy_start. destruct (new_provider _ _ _ _ _ _ _ _ _ _) as [u|] eqn:E; [|done]. intros H. by eapply reach_start. Defined.

(** The provider when the controller is asked to prove the drain. *)
Definition toy_asking : option provider := match toy_start with Ok p => toy_run toy_actions p | Err _ => None end.

Lemma toy_asking_reachable p : toy_asking = Some p -> toy_reachable p.
Proof. unfold toy_asking. destruct toy_start as [s|] eqn:E; [|done]. intros H. eapply toy_run_reachable; [by apply toy_reached|apply toy_admissible|exact H]. Defined.

Definition is_snapshot (o : output) : bool := match o with Snapshot _ => true | _ => false end.

(** The pause ends with a snapshot, and the activation that follows begins with
    the successor. *)
Definition toy_check (o : option provider) : bool :=
  match o with
  | Some p => bool_decide ((retained (box p)).*1 = [0])
      && match toy_act (PauseAnswers (Ok (toy_ack example_policy))) p with
         | Some (q, o) => is_snapshot o
             && match toy_act (ActivateBegins (toy_artifact 4)) q with Some (r, Silent) => (version (policy q) =? 3) && (version (policy r) =? 4) | _ => false end
         | None => false
         end
  | None => false
  end.

Lemma toy_check_spec o : toy_check o = true -> exists p q d r, o = Some p /\ (retained (box p)).*1 = [0]
  /\ toy_act (PauseAnswers (Ok (toy_ack example_policy))) p = Some (q, Snapshot d)
  /\ toy_act (ActivateBegins (toy_artifact 4)) q = Some (r, Silent) /\ policy r <> policy q.
Proof.
  unfold toy_check. destruct o as [p|]; [|done]. intros [Hk Hc]%andb_prop. apply bool_decide_eq_true in Hk.
  destruct (toy_act (PauseAnswers _) p) as [[q [| | | |d]]|] eqn:Eq; try discriminate Hc. apply andb_prop in Hc as [_ Hc].
  destruct (toy_act (ActivateBegins _) q) as [[r [| | | |]]|] eqn:Er; try discriminate Hc. apply andb_prop in Hc as [H3 H4]. apply Z.eqb_eq in H3, H4.
  exists p, q, d, r. split_and!; [reflexivity|exact Hk|exact Eq|exact Er|]. intros Hp. rewrite Hp in H4. lia.
Qed.

Lemma toy_checked : toy_check toy_asking = true.
Proof. vm_compute. reflexivity. Qed.

Lemma provider_policy_boundary_witness :
  exists p q, toy_reachable p /\ toy_act (ActivateBegins (toy_artifact 4)) p = Some (q, Silent) /\ policy q <> policy p /\ quiet p.
Proof.
  destruct (toy_check_spec _ toy_checked) as (a & p & d & q & Ha & _ & Ep & Eq & Hne). apply toy_asking_reachable in Ha.
  assert (toy_reachable p) as Rp by (eapply (reach_step _ _ _ _ _ _ _ _ _ _ _ (PauseAnswers (Ok (toy_ack example_policy)))); [exact Ha|exact I|exact Ep]).
  destruct (provider_policy_boundary toy_repr toy_sha256 toy_config StreamExample.no_waves (fun _ => Some Unvalidated) 1 toy_factory float_one 1 1 2 toy_factory_lineage
    toy_workers toy_groups p (ActivateBegins (toy_artifact 4)) q Silent Rp I Eq) as [_ Hb].
  exists p, q. split; [exact Rp|]. split; [exact Eq|]. split; [exact Hne|]. destruct Hb as [Hb|[Hb _]]; [destruct (Hne Hb)|exact Hb].
Defined.

Lemma provider_accounts_for_groups_witness :
  exists p, toy_reachable p /\ (retained (box p)).*1 = [0] /\ Forall (row_sound toy_repr toy_sha256 (served p)) (entries (retained (box p))).
Proof.
  destruct (toy_check_spec _ toy_checked) as (p & q & d & r & Hp & Hk & _). apply toy_asking_reachable in Hp.
  destruct (provider_accounts_for_groups toy_repr toy_sha256 toy_config StreamExample.no_waves (fun _ => Some Unvalidated) 1 toy_factory float_one 1 1 2 toy_factory_lineage
    toy_workers toy_groups p Hp) as (_ & Hrows & _).
  exists p. split; [exact Hp|]. split; [exact Hk|exact Hrows].
Defined.

Lemma snapshot_restores_witness :
  exists p q d, toy_reachable p /\ toy_act (PauseAnswers (Ok (toy_ack example_policy))) p = Some (q, Snapshot d)
  /\ exists u, new_provider toy_repr toy_sha256 toy_factory float_one 1 1 2 (artifact q) d 0 = Ok u /\ u_box u = restored_box (box q).
Proof.
  destruct (toy_check_spec _ toy_checked) as (p & q & d & r & Hp & _ & Eq & _). apply toy_asking_reachable in Hp.
  destruct (snapshot_restores toy_repr toy_sha256 toy_config StreamExample.no_waves (fun _ => Some Unvalidated) 1 toy_factory float_one 1 1 2 toy_factory_lineage
    toy_workers toy_groups p _ q d 0 Hp Eq) as (_ & _ & _ & u & Hu & _ & Hb).
  exists p, q, d. split; [exact Hp|]. split; [exact Eq|]. exists u. split; [exact Hu|exact Hb].
Defined.
