(* ===== verification/OrderedKv.v ===== *)
(** * Key gradients of the sparse attention, in a fixed order

    [models/dsv4/attention/ordered_kv.py] with the stores of the backward kernel
    of [sparse_attention.py].  An edge is a slot of a query; it adds to the
    gradient of its key one value per block of heads.  The backward kernel
    either adds each value to the key with an atomic addition, or stores it in
    a buffer, chunk of queries by chunk, from which one program per key adds the
    edges of its key in ascending order.  [V] is a tile of the head dimension;
    the products inside an edge's value are a parameter. *)

From S2P Require Export Torch.
From S2P Require Import Torch TorchFacts.
Local Open Scope nat_scope.
Local Open Scope py_scope.

(** One of the two branches of an attention: its indices [B, L, slots], its
    mask, the number of its keys, and where its slots start in the buffer. *)
Record branch := { indices : list (list (list Z)); mask : option (list (list (list bool)));
                   key_length : Z; slots : nat; branch_offset : nat }.

(** ** [_inverse_adjacency] *)

(** The indices with their mask. *)
Definition entries (b : branch) : list (list (list (Z * bool))) :=
  match mask b with
  | None => map (map (map (fun i => (i, true)))) (indices b)
  | Some m => zip_with (zip_with zip) (indices b) m
  end.

Definition valid_entry (key_length : Z) (e : Z * bool) : bool := (0 <=? e.1)%Z && (e.1 <? key_length)%Z && e.2.

Definition owners (b : branch) : Z := Z.of_nat (length (indices b)) * key_length b.

Definition encode_entry (b : branch) (batch : nat) (e : Z * bool) : Z :=
  if valid_entry (key_length b) e then (e.1 + Z.of_nat batch * key_length b)%Z else owners b.

Definition encoded (b : branch) : list Z :=
  concat (concat (imap (fun batch rows => map (map (encode_entry b batch)) rows) (entries b))).

Section Ordered.
Context `{TensorOps}.

Definition inverse_adjacency (b : branch) : res (list nat * list nat) :=
  raise_when (key_length b <? 0)%Z with_exn ValueError "indices must be [B,L,slots] with nonnegative key length";
  raise_when match mask b with
    | Some m => negb (bool_decide (map (map length) (indices b) = map (map length) m)) | None => false end
    with_exn ValueError "mask shape differs from indices";
  let order := argsort_stable (encoded b) in
  let counts := bincount (encoded b) (Z.to_nat (owners b) + 1) in
  Ok (order, 0 :: cumsum (take (Z.to_nat (owners b)) counts)).

(** ** The values of edges *)

Context {V : Type} (zero : V) (add : V -> V -> V).
(** [tl.sum] over the lanes, and the value of an edge of a branch for a batch,
    query, slot and block of heads. *)
Context (tl_sum : list V -> V) (value : branch -> nat -> nat -> nat -> nat -> V).
(** The order in which the programs of a launch run. *)
Context (schedule : list (nat * nat) -> list (nat * nat)).

(** The sizes of a call: batch, queries, blocks of heads, slots of both
    branches, queries of a chunk. *)
Record sizes := { batch_size : nat; length_q : nat; head_blocks : nat; combined : nat; chunk_queries : nat }.
Definition chunk_capacity (z : sizes) : nat := Nat.min (length_q z) (chunk_queries z).

Definition entry_at (b : branch) (batch query slot : nat) : Z * bool :=
  nth slot (nth query (nth batch (entries b) []) []) (-1, false)%Z.
Definition edge_valid (b : branch) (batch query slot : nat) : bool := valid_entry (key_length b) (entry_at b batch query slot).

(** The place of a value in the buffer. *)
Definition buffer_offset (z : sizes) (batch local slot head_block : nat) : nat :=
  ((batch * chunk_capacity z + local) * combined z + slot) * head_blocks z + head_block.

(** What one program of the backward kernel stores. *)
Definition program_stores (z : sizes) (branches : list branch) (start size : nat) (p : nat * nat) : list (nat * V) :=
  let batch := p.1 / size in
  let local := p.1 - batch * size in
  concat (map (fun b => omap (fun s =>
    if edge_valid b batch (start + local) s
    then Some (buffer_offset z batch local (branch_offset b + s) p.2, value b batch (start + local) s p.2)
    else None) (seq 0 (slots b))) branches).

Definition attention_chunk (z : sizes) (branches : list branch) (start size : nat) (buffer : gmap nat V) : gmap nat V :=
  foldl (fun m e => <[e.1 := e.2]> m) buffer
    (concat (map (program_stores z branches start size) (schedule (list_prod (seq 0 (batch_size z * size)) (seq 0 (head_blocks z)))))).

(** ** [_reduce_edge_values] *)

(** The bisection of [edge_order] between [lo] and [hi]. *)
Fixpoint bisect (fuel : nat) (order : list nat) (bound lo hi : nat) : nat :=
  match fuel with
  | 0 => lo
  | S fuel =>
      if lo <? hi then
        let mid := (lo + hi) / 2 in
        let before := nth mid order 0 <? bound in
        bisect fuel order bound (if before then mid + 1 else lo) (if before then hi else mid)
      else lo
  end.

Definition BLOCK_E : nat := 8.
Definition next_power_of_2 (n : nat) : nat := 2 ^ Nat.log2_up n.

(** [range(start, stop, step)] *)
Definition range_step (start stop step : nat) : list nat :=
  map (fun k => start + k * step) (seq 0 ((stop - start + step - 1) / step)).

(** The value that a lane loads. *)
Definition lane_value (z : sizes) (b : branch) (order : list nat) (buffer : gmap nat V) (start batch position last lane : nat) : V :=
  let edge_lane := lane / head_blocks z in
  let head_block := lane mod head_blocks z in
  if (edge_lane <? BLOCK_E) && (position + edge_lane <? last)
  then let edge := nth (position + edge_lane) order 0 in
       let local := edge / slots b - batch * length_q z - start in
       let slot := edge mod slots b + branch_offset b in
       default zero (buffer !! buffer_offset z batch local slot head_block)
  else zero.

Definition reduce_owner (z : sizes) (b : branch) (order offsets : list nat) (buffer : gmap nat V) (start size owner : nat) (total : V) : V :=
  let batch := owner / Z.to_nat (key_length b) in
  let first := nth owner offsets 0 in
  let last := nth (owner + 1) offsets 0 in
  let lower := (batch * length_q z + start) * slots b in
  let upper := (batch * length_q z + start + size) * slots b in
  let begin := bisect (last - first) order lower first last in
  let stop := bisect (last - begin) order upper begin last in
  foldl (fun total position =>
    add total (tl_sum (map (lane_value z b order buffer start batch position stop)
                         (seq 0 (next_power_of_2 (BLOCK_E * head_blocks z))))))
    total (range_step begin stop BLOCK_E).

(** ** [ordered_backward]: the gradients of the keys *)

(** A branch with its order and offsets, unless it has no keys or no edges, and
    its target. *)
Record adjacency := { a_branch : branch; a_orders : option (list nat * list nat); a_target : list V }.

Definition reduce_target (z : sizes) (buffer : gmap nat V) (start size : nat) (a : adjacency) : adjacency :=
  match a_orders a with
  | Some (order, offsets) =>
      {| a_branch := a_branch a; a_orders := a_orders a;
         a_target := imap (reduce_owner z (a_branch a) order offsets buffer start size) (a_target a) |}
  | None => a
  end.

Definition chunk_step (z : sizes) (branches : list branch) (s : gmap nat V * list adjacency) (start : nat)
    : gmap nat V * list adjacency :=
  let size := Nat.min (chunk_capacity z) (length_q z - start) in
  let buffer := attention_chunk z branches start size s.1 in
  (buffer, map (reduce_target z buffer start size) s.2).

Definition adjacency_of (z : sizes) (b : branch) : res adjacency :=
  let target := replicate (Z.to_nat (owners b)) zero in
  if (owners b =? 0)%Z || (batch_size z * length_q z * slots b =? 0)
  then Ok {| a_branch := b; a_orders := None; a_target := target |}
  else a <-? inverse_adjacency b;
       Ok {| a_branch := b; a_orders := Some a; a_target := target |}.

Definition ordered_backward (z : sizes) (branches : list branch) : res (list (list V)) :=
  l <-? traverse (adjacency_of z) branches;
  Ok (map a_target (foldl (chunk_step z branches) (∅, l) (range_step 0 (length_q z) (chunk_queries z))).2).

(** ** The atomic additions of the other mode *)

(** An edge and a block of heads: batch, query, slot, block. *)
Abbreviation event := (nat * nat * nat * nat)%type.

Definition event_owner (b : branch) (e : event) : nat :=
  let '(batch, query, slot, _) := e in
  Z.to_nat ((entry_at b batch query slot).1 + Z.of_nat batch * key_length b).
Definition event_value (b : branch) (e : event) : V := let '(batch, query, slot, head_block) := e in value b batch query slot head_block.
Definition event_valid (b : branch) (e : event) : bool := let '(batch, query, slot, _) := e in edge_valid b batch query slot.

(** All edges of a branch with every block of heads. *)
Definition events (z : sizes) (b : branch) : list event :=
  list_prod (list_prod (list_prod (seq 0 (batch_size z)) (seq 0 (length_q z))) (seq 0 (slots b))) (seq 0 (head_blocks z)).

(** [tl.atomic_add], for the events in the order they happen to run. *)
Definition atomic_gradient (b : branch) (run : list event) : list V :=
  foldl (fun g e => if event_valid b e then alter (fun v => add v (event_value b e)) (event_owner b e) g else g)
    (replicate (Z.to_nat (owners b)) zero) run.
End Ordered.

(** * Ordered key gradients: encoding, bisection, sums *)

(** ** Flattened tensors *)

Lemma concat_lookup {A} n (ls : list (list A)) i j : Forall (fun l => length l = n) ls -> j < n ->
  concat ls !! (i * n + j) = ls !! i ≫= fun l => l !! j.
Proof.
  intros Hf Hj. revert i. induction Hf as [|l ls Hl _ IH]; intros i; [by rewrite !lookup_nil|]. cbn [concat]. destruct i as [|i].
  - cbn. rewrite lookup_app_l by lia. done.
  - rewrite lookup_app_r by lia. replace (S i * n + j - length l) with (i * n + j) by lia. apply IH.
Qed.

Lemma flat_concat_length {A} n (ls : list (list A)) : Forall (fun l => length l = n) ls -> length (concat ls) = length ls * n.
Proof. induction 1 as [|l ls Hl _ IH]; [done|]. cbn. rewrite length_app. lia. Qed.

Definition tensor3 {A} (B L S : nat) (t : list (list (list A))) : Prop :=
  length t = B /\ Forall (fun rows => length rows = L /\ Forall (fun r => length r = S) rows) t.

Lemma flat_lookup {A} B L S (t : list (list (list A))) b q s : tensor3 B L S t -> q < L -> s < S ->
  concat (concat t) !! ((b * L + q) * S + s) = t !! b ≫= fun rows => rows !! q ≫= fun r => r !! s.
Proof.
  intros [_ Hf] Hq Hs. rewrite concat_lookup; [|apply Forall_concat; eapply Forall_impl; [exact Hf|]; by intros ? []|done].
  rewrite concat_lookup; [by destruct (t !! b)|eapply Forall_impl; [exact Hf|]; by intros ? []|done].
Qed.

Lemma flat_length {A} B L S (t : list (list (list A))) : tensor3 B L S t -> length (concat (concat t)) = B * L * S.
Proof.
  intros [Hb Hf]. rewrite (flat_concat_length S); [|apply Forall_concat; eapply Forall_impl; [exact Hf|]; by intros ? []].
  rewrite (flat_concat_length L); [by rewrite Hb|eapply Forall_impl; [exact Hf|]; by intros ? []].
Qed.

Lemma tensor3_lookup {A} B L S (t : list (list (list A))) b q s : tensor3 B L S t -> b < B -> q < L -> s < S ->
  exists rows r x, t !! b = Some rows /\ rows !! q = Some r /\ r !! s = Some x.
Proof.
  intros [Hb Hf] H1 H2 H3. destruct (lookup_lt_is_Some_2 t b) as [rows Hrows]; [lia|].
  pose proof (Forall_lookup_1 _ _ _ _ Hf Hrows) as [Hl Hr]. destruct (lookup_lt_is_Some_2 rows q) as [r Hq]; [lia|].
  pose proof (Forall_lookup_1 _ _ _ _ Hr Hq) as Hs. cbn in Hs. destruct (lookup_lt_is_Some_2 r s) as [x Hx]; [lia|]. by exists rows, r, x.
Qed.

(** ** A branch of the right shape *)

Record shaped (z : sizes) (b : branch) : Prop := {
  s_indices : tensor3 (batch_size z) (length_q z) (slots b) (indices b);
  s_mask : match mask b with Some m => map (map length) (indices b) = map (map length) m | None => True end;
  s_keys : (0 <= key_length b)%Z }.

Lemma lengths_shape {A B} n m (x : list (list A)) (y : list (list B)) : map length x = map length y -> length x = n ->
  Forall (fun r => length r = m) x -> length (zip_with zip x y) = n /\ Forall (fun r => length r = m) (zip_with zip x y).
Proof.
  revert n y. induction x as [|r x IH]; intros n [|r' y] He Hn Hf; try done. injection He as Hr He. apply Forall_cons in Hf as [Hm Hf].
  destruct n as [|n]; [done|]. injection Hn as Hn. destruct (IH n y He Hn Hf) as [IHl IHf]. cbn. split; [by rewrite IHl|].
  constructor; [|done]. rewrite length_zip_with. lia.
Qed.

Lemma entries_shaped z b : shaped z b -> tensor3 (batch_size z) (length_q z) (slots b) (entries b).
Proof.
  intros [[Hb Hf] Hm _]. unfold entries. destruct (mask b) as [m|].
  - revert Hb Hm. generalize (batch_size z). revert m. induction Hf as [|rows t [Hl Hr] _ IH]; intros [|m ms] n Hb Hm; try done.
    + cbn in Hm. injection Hm as Hm1 Hm. destruct n as [|n]; [done|]. injection Hb as Hb. destruct (IH ms n Hb Hm) as [IHl IHf].
      destruct (lengths_shape _ _ rows m Hm1 Hl Hr) as [Hl' Hr']. split; [exact (f_equal S IHl)|]. by constructor.
  - split; [by rewrite length_map|]. apply Forall_fmap. eapply Forall_impl; [exact Hf|]. intros rows [Hl Hr]. cbn.
    split; [by rewrite length_map|]. apply Forall_fmap. eapply Forall_impl; [exact Hr|]. intros r Hrl. cbn. by rewrite length_map.
Qed.

Lemma entry_at_lookup z b bt q s : shaped z b -> bt < batch_size z -> q < length_q z -> s < slots b ->
  entries b !! bt ≫= (fun rows => rows !! q ≫= fun r => r !! s) = Some (entry_at b bt q s).
Proof.
  intros Hz H1 H2 H3. destruct (tensor3_lookup _ _ _ _ bt q s (entries_shaped z b Hz) H1 H2 H3) as (rows & r & x & Hr & Hq & Hs).
  rewrite Hr. cbn. rewrite Hq. cbn. rewrite Hs. f_equal. unfold entry_at.
  rewrite (nth_lookup_Some _ _ _ _ Hr), (nth_lookup_Some _ _ _ _ Hq), (nth_lookup_Some _ _ _ _ Hs). done.
Qed.

Lemma encoded_tensor z b : shaped z b -> tensor3 (batch_size z) (length_q z) (slots b)
  (imap (fun batch rows => map (map (encode_entry b batch)) rows) (entries b)).
Proof.
  intros Hz. destruct (entries_shaped z b Hz) as [Hl Hf]. split; [by rewrite length_imap|].
  apply Forall_lookup. intros i rows Hi. rewrite list_lookup_imap in Hi. apply fmap_Some in Hi as (rows' & Hi & ->).
  pose proof (Forall_lookup_1 _ _ _ _ Hf Hi) as [Hr Hs]. split; [by rewrite length_map|].
  apply Forall_fmap. eapply Forall_impl; [exact Hs|]. cbn. intros r Hrl. by rewrite length_map.
Qed.

Lemma encoded_length z b : shaped z b -> length (encoded b) = batch_size z * length_q z * slots b.
Proof. intros Hz. by apply flat_length, encoded_tensor. Qed.

(** The key of an edge, by its number. *)
Lemma encoded_lookup z b bt q s : shaped z b -> bt < batch_size z -> q < length_q z -> s < slots b ->
  encoded b !! ((bt * length_q z + q) * slots b + s) = Some (encode_entry b bt (entry_at b bt q s)).
Proof.
  intros Hz H1 H2 H3. unfold encoded. rewrite (flat_lookup _ _ _ _ bt q s (encoded_tensor z b Hz) H2 H3).
  pose proof (entry_at_lookup z b bt q s Hz H1 H2 H3) as He. rewrite list_lookup_imap.
  destruct (entries b !! bt) as [rows|]; [|done]. cbn in *. rewrite list_lookup_fmap. destruct (rows !! q) as [r|]; [|done]. cbn in *.
  rewrite list_lookup_fmap. destruct (r !! s) as [x|]; [|done]. cbn in *. by injection He as ->.
Qed.

Lemma owners_sizes z b : shaped z b -> owners b = (Z.of_nat (batch_size z) * key_length b)%Z.
Proof. intros [[Hb _] _ _]. unfold owners. by rewrite Hb. Qed.

Lemma encode_range z b bt e : shaped z b -> bt < batch_size z -> (0 <= encode_entry b bt e <= owners b)%Z.
Proof.
  intros Hz Hb. rewrite (owners_sizes z b Hz) by done. unfold encode_entry. pose proof (s_keys z b Hz). rewrite (owners_sizes z b Hz).
  unfold valid_entry. destruct (Z.leb_spec 0 e.1), (Z.ltb_spec e.1 (key_length b)), (e.2); cbn; nia.
Qed.

(** The parts of an edge's number. *)
Lemma edge_number L S bt q s : q < L -> s < S -> let e := (bt * L + q) * S + s in
  e mod S = s /\ e / S = bt * L + q /\ e / S / L = bt /\ (e / S) mod L = q.
Proof.
  intros Hq Hs e. assert (e / S = bt * L + q) as He by (unfold e; rewrite Nat.div_add_l, Nat.div_small by lia; lia).
  split; [unfold e; rewrite Nat.add_comm, Nat.Div0.mod_add; by apply Nat.mod_small|]. split; [done|]. rewrite He.
  split; [rewrite Nat.div_add_l, Nat.div_small by lia; lia|]. rewrite Nat.add_comm, Nat.Div0.mod_add. by apply Nat.mod_small.
Qed.

Lemma edge_split B L S e : e < B * L * S -> exists bt q s, bt < B /\ q < L /\ s < S /\ e = (bt * L + q) * S + s.
Proof.
  intros He. assert (0 < S) by (destruct S; lia). assert (0 < L) by (destruct L; lia).
  exists (e / S / L), ((e / S) mod L), (e mod S). pose proof (Nat.div_mod e S ltac:(lia)). pose proof (Nat.div_mod (e / S) L ltac:(lia)).
  pose proof (Nat.mod_upper_bound e S ltac:(lia)). pose proof (Nat.mod_upper_bound (e / S) L ltac:(lia)).
  assert (e / S < B * L) by (apply Nat.Div0.div_lt_upper_bound; lia). assert (e / S / L < B) by (apply Nat.Div0.div_lt_upper_bound; lia).
  repeat split; try done. nia.
Qed.

(** The edges of a key. *)
Lemma elem_of_owned z b o e : shaped z b -> (Z.of_nat o < owners b)%Z ->
  e ∈ positions (encoded b) (Z.of_nat o) <->
  exists bt q s, bt < batch_size z /\ q < length_q z /\ s < slots b /\ e = (bt * length_q z + q) * slots b + s
    /\ edge_valid b bt q s = true /\ Z.to_nat ((entry_at b bt q s).1 + Z.of_nat bt * key_length b) = o.
Proof.
  intros Hz Ho. rewrite elem_of_positions. split.
  - intros He. pose proof (lookup_lt_Some _ _ _ He) as Hlt. rewrite (encoded_length z b Hz) in Hlt.
    destruct (edge_split _ _ _ _ Hlt) as (bt & q & s & H1 & H2 & H3 & ->). rewrite (encoded_lookup z b) in He by done.
    exists bt, q, s. injection He as He. unfold encode_entry in He. fold (edge_valid b bt q s) in He.
    destruct (edge_valid b bt q s); [|lia]. repeat split; try done. lia.
  - intros (bt & q & s & H1 & H2 & H3 & -> & Hv & <-). rewrite (encoded_lookup z b) by done. f_equal. unfold encode_entry.
    fold (edge_valid b bt q s). rewrite Hv. unfold edge_valid, valid_entry in Hv. pose proof (s_keys z b Hz). lia.
Qed.

(** * Ordered key gradients: one program of the reduction

    The bisections find the edges of a chunk among the edges of a key, and the
    lanes of each group of eight edges load every one of their values once. *)

(** ** Bisection *)

(** [f] splits the positions from [lo] to [hi] at [r]. *)
Definition splits_at (order : list nat) (bound lo hi r : nat) : Prop :=
  lo <= r <= hi /\ (forall i, lo <= i < r -> nth i order 0 < bound) /\ (forall i, r <= i < hi -> bound <= nth i order 0).

Lemma bisect_spec order bound lo hi fuel : lo <= hi -> hi - lo <= fuel ->
  (forall i j, lo <= i < j -> j < hi -> nth i order 0 < nth j order 0) -> splits_at order bound lo hi (bisect fuel order bound lo hi).
Proof.
  revert lo hi. induction fuel as [|fuel IH]; intros lo hi Hle Hf Hs; cbn [bisect].
  - split; [lia|]. split; intros; lia.
  - destruct (Nat.ltb_spec lo hi) as [Hlt|Hge]; [|split; [lia|]; split; intros; lia].
    pose proof (Nat.div_mod (lo + hi) 2 ltac:(lia)). pose proof (Nat.mod_upper_bound (lo + hi) 2 ltac:(lia)).
    set (mid := (lo + hi) / 2) in *. cbn zeta. destruct (Nat.ltb_spec (nth mid order 0) bound) as [Hb|Hb].
    + destruct (IH (mid + 1) hi) as (Hr & Hlow & Hhigh); [lia|lia|intros; apply Hs; lia|]. split; [lia|]. split; [|done].
      intros i Hi. destruct (decide (i < mid)) as [Hm|Hm]; [pose proof (Hs i mid); lia|].
      destruct (decide (i = mid)) as [->|]; [done|]. apply Hlow. lia.
    + destruct (IH lo mid) as (Hr & Hlow & Hhigh); [lia|lia|intros; apply Hs; lia|]. split; [lia|]. split; [done|].
      intros i Hi. destruct (decide (i < mid)) as [Hm|Hm]; [apply Hhigh; lia|].
      destruct (decide (i = mid)) as [->|]; [done|]. pose proof (Hs mid i). lia.
Qed.

(** ** Sums *)

Section Sums.
Context {V : Type} (zero : V) (add : V -> V -> V).
Context (add_assoc : forall x y z, add x (add y z) = add (add x y) z).
Context (add_comm : forall x y, add x y = add y x) (add_zero : forall x, add zero x = x).

Definition vsum (l : list V) : V := foldr add zero l.

Lemma vsum_cons x l : vsum (x :: l) = add x (vsum l).
Proof. done. Qed.
Lemma vsum_nil : vsum [] = zero.
Proof. done. Qed.
#[local] Arguments vsum : simpl never.

Lemma vsum_app l k : vsum (l ++ k) = add (vsum l) (vsum k).
Proof. induction l as [|x l IH]; cbn; [by rewrite add_zero|]. by rewrite !vsum_cons, IH, add_assoc. Qed.

Lemma vsum_perm l k : l ≡ₚ k -> vsum l = vsum k.
Proof.
  induction 1 as [|x l k _ IH|x y l|l k m _ IH _ IH']; rewrite ?vsum_cons; [done|by rewrite IH| |congruence].
  by rewrite !add_assoc, (add_comm x y).
Qed.

Lemma vsum_concat {A} (f : A -> V) (ls : list (list A)) : vsum (map f (concat ls)) = vsum (map (fun l => vsum (map f l)) ls).
Proof. induction ls as [|l ls IH]; [done|]. cbn. by rewrite map_app, vsum_app, vsum_cons, IH. Qed.

Lemma vsum_zero {A} (f : A -> V) l : (forall x, x ∈ l -> f x = zero) -> vsum (map f l) = zero.
Proof.
  induction l as [|x l IH]; intros H; [done|]. cbn. rewrite vsum_cons, (H x) by left. rewrite add_zero. apply IH. intros y Hy. apply H. by right.
Qed.

Lemma vsum_ext {A} (f g : A -> V) l : (forall x, x ∈ l -> f x = g x) -> vsum (map f l) = vsum (map g l).
Proof. intros H. f_equal. apply map_ext_in. intros x Hx. by apply H, list_elem_of_In. Qed.

Lemma vsum_split {A} (P : A -> bool) (f : A -> V) l :
  vsum (map f l) = add (vsum (map f (filter (fun x => P x = true) l))) (vsum (map f (filter (fun x => P x = false) l))).
Proof.
  induction l as [|x l IH]; [cbn; by rewrite vsum_nil, add_zero|]. rewrite !filter_cons. cbn [map]. rewrite vsum_cons, IH.
  destruct (P x).
  - rewrite decide_True, decide_False by done. cbn [map]. rewrite vsum_cons. apply add_assoc.
  - rewrite decide_False, decide_True by done. cbn [map]. rewrite vsum_cons, !add_assoc. f_equal. apply add_comm.
Qed.

(** Blocks of [h] consecutive terms. *)
Lemma vsum_blocks (f : nat -> V) a h : vsum (map f (seq 0 (a * h))) = vsum (map (fun i => vsum (map (fun j => f (i * h + j)) (seq 0 h))) (seq 0 a)).
Proof.
  induction a as [|a IH]; [done|]. rewrite seq_S, map_app, vsum_app, <- IH. cbn [map plus].
  replace (S a * h) with (a * h + h) by lia. rewrite seq_app, map_app, vsum_app. f_equal. cbn [plus]. rewrite vsum_cons, vsum_nil, (add_comm _ zero), add_zero.
  rewrite <- (Nat.add_0_r (a * h)) at 1. rewrite <- (fmap_add_seq (a * h) 0 h). change fmap with (@map nat nat). by rewrite map_map.
Qed.

Lemma foldl_vsum {A} (f : A -> V) l total : foldl (fun t x => add t (f x)) total l = add total (vsum (map f l)).
Proof.
  revert total. induction l as [|x l IH]; intros total; cbn; [by rewrite vsum_nil, add_comm, add_zero|]. by rewrite IH, vsum_cons, add_assoc.
Qed.

(** The terms from [first] to [last], eight at a time. *)
Lemma vsum_strides (g : nat -> V) first last :
  vsum (map (fun p => vsum (map (fun i => if p + i <? last then g (p + i) else zero) (seq 0 BLOCK_E))) (range_step first last BLOCK_E))
  = vsum (map g (seq first (last - first))).
Proof.
  unfold range_step. rewrite map_map. set (n := (last - first + BLOCK_E - 1) / BLOCK_E).
  assert (last - first <= n * BLOCK_E) as Hn.
  { pose proof (Nat.div_mod (last - first + BLOCK_E - 1) BLOCK_E ltac:(done)).
    pose proof (Nat.mod_upper_bound (last - first + BLOCK_E - 1) BLOCK_E ltac:(done)). unfold BLOCK_E in *. subst n. lia. }
  set (h := fun k => if first + k <? last then g (first + k) else zero).
  transitivity (vsum (map h (seq 0 (n * BLOCK_E)))).
  - rewrite vsum_blocks. apply vsum_ext. intros k _. apply vsum_ext. intros i _. unfold h. by rewrite Nat.add_assoc.
  - replace (n * BLOCK_E) with ((last - first) + (n * BLOCK_E - (last - first))) by lia. rewrite seq_app, map_app, vsum_app.
    rewrite (vsum_zero h (seq (0 + (last - first)) _)), (add_comm _ zero), add_zero.
    + rewrite <- (Nat.add_0_r first) at 2. rewrite <- (fmap_add_seq first 0). change fmap with (@map nat nat). rewrite map_map. apply vsum_ext.
      intros k Hk. apply list_elem_of_In, in_seq in Hk. unfold h. by replace (first + k <? last) with true by (symmetry; apply Nat.ltb_lt; lia).
    + intros k Hk. apply list_elem_of_In, in_seq in Hk. unfold h. by replace (first + k <? last) with false by (symmetry; apply Nat.ltb_ge; lia).
Qed.
End Sums.

(** ** The groups of keys in the stable order *)

Section Groups.
Context `{TensorLaws}.

Lemma sum_prefix (l : list nat) n i : i < n -> n <= length l ->
  nth (S i) (0 :: map (fun j => sum_list (take (S j) l)) (seq 0 n)) 0 = sum_list (take (S i) l).
Proof. intros Hi Hn. cbn. by rewrite nth_map_seq. Qed.

(** Where a key's edges start and end in the order. *)
Lemma owner_segment keys N o : Forall (fun k => 0 <= k < Z.of_nat (N + 1))%Z keys -> o < N ->
  let offsets := 0 :: cumsum (take N (bincount keys (N + 1))) in
  exists before after, argsort_stable keys = before ++ positions keys (Z.of_nat o) ++ after
    /\ nth o offsets 0 = length before /\ nth (o + 1) offsets 0 = length before + length (positions keys (Z.of_nat o)).
Proof.
  intros Hk Ho offsets. set (lens := map (fun k => length (positions keys (Z.of_nat k))) (seq 0 N)).
  assert (take N (bincount keys (N + 1)) = lens) as Ht.
  { rewrite bincount_grouped by done. unfold lens. rewrite seq_app, map_app, take_app_length'; [done|by rewrite length_map, length_seq]. }
  assert (forall i, i <= N -> nth i offsets 0 = sum_list (take i lens)) as Hoff.
  { intros [|i] Hi; [done|]. unfold offsets. rewrite Ht, cumsum_law. assert (length lens = N) as Hl by (unfold lens; by rewrite length_map, length_seq).
    rewrite Hl. apply sum_prefix; lia. }
  exists (concat (map (fun k => positions keys (Z.of_nat k)) (seq 0 o))), (concat (map (fun k => positions keys (Z.of_nat k)) (seq (S o) (N - o)))).
  assert (forall i, i <= N -> sum_list (take i lens) = length (concat (map (fun k => positions keys (Z.of_nat k)) (seq 0 i)))) as Hsum.
  { intros i Hi. unfold lens. rewrite <- sum_list_lengths, map_map. replace N with (i + (N - i)) by lia.
    rewrite seq_app, map_app, take_app_length'; [done|by rewrite length_map, length_seq]. }
  split; [|split].
  - rewrite (argsort_stable_grouped keys (N + 1)) by done. unfold grouped. replace (N + 1) with (o + S (N - o)) by lia.
    rewrite seq_app, map_app, concat_app. cbn [seq map concat plus]. done.
  - rewrite Hoff by lia. apply Hsum. lia.
  - rewrite Hoff by lia. rewrite Hsum by lia. replace (o + 1) with (S o) by lia. rewrite seq_S, map_app, concat_app, length_app. cbn. by rewrite app_nil_r.
Qed.
End Groups.

(** ** One program *)

Section Program.
Context {V : Type} (zero : V) (add : V -> V -> V) (tl_sum : list V -> V).
Context (add_assoc : forall x y z, add x (add y z) = add (add x y) z).
Context (add_comm : forall x y, add x y = add y x) (add_zero : forall x, add zero x = x).
Context (tl_sum_law : forall l, tl_sum l = vsum zero add l).
#[local] Notation vsum := (vsum zero add).

Context (z : sizes) (b : branch) (order : list nat) (buffer : gmap nat V) (start batch : nat) (Hh : 0 < head_blocks z).

(** The value loaded for an edge and a block of heads, and their sum. *)
Definition loaded (edge head_block : nat) : V :=
  default zero (buffer !! buffer_offset z batch (edge / slots b - batch * length_q z - start) (edge mod slots b + branch_offset b) head_block).
Definition edge_sum (edge : nat) : V := vsum (map (loaded edge) (seq 0 (head_blocks z))).

Lemma power_ge n : 0 < n -> n <= next_power_of_2 n.
Proof. intros Hn. unfold next_power_of_2. destruct (decide (n = 1)) as [->|]; [done|]. apply Nat.log2_up_spec. lia. Qed.

(** The lanes of a group load every value of its edges once. *)
Lemma lanes_sum position last :
  vsum (map (lane_value zero z b order buffer start batch position last) (seq 0 (next_power_of_2 (BLOCK_E * head_blocks z))))
  = vsum (map (fun i => if position + i <? last then edge_sum (nth (position + i) order 0) else zero) (seq 0 BLOCK_E)).
Proof.
  pose proof (power_ge (BLOCK_E * head_blocks z) ltac:(unfold BLOCK_E; lia)) as Hp. set (R := next_power_of_2 _) in *.
  replace R with (BLOCK_E * head_blocks z + (R - BLOCK_E * head_blocks z)) by lia.
  rewrite seq_app, map_app, (vsum_app zero add add_assoc add_zero).
  rewrite (vsum_zero zero add add_zero _ (seq (0 + BLOCK_E * head_blocks z) _)), (add_comm _ zero), add_zero.
  - rewrite (vsum_blocks zero add add_assoc add_comm add_zero). apply vsum_ext. intros i Hi. apply list_elem_of_In, in_seq in Hi.
    destruct (Nat.ltb_spec (position + i) last) as [Hlt|Hge].
    + apply vsum_ext. intros j Hj. apply list_elem_of_In, in_seq in Hj. unfold lane_value.
      rewrite Nat.div_add_l, (Nat.div_small j), Nat.add_0_r by lia. rewrite (Nat.add_comm (i * _) j), Nat.Div0.mod_add, (Nat.mod_small j) by lia.
      replace (i <? BLOCK_E) with true by (symmetry; apply Nat.ltb_lt; lia). by replace (position + i <? last) with true by (symmetry; by apply Nat.ltb_lt).
    + apply (vsum_zero zero add add_zero). intros j Hj. apply list_elem_of_In, in_seq in Hj. unfold lane_value.
      rewrite Nat.div_add_l, (Nat.div_small j), Nat.add_0_r by lia. replace (position + i <? last) with false by (symmetry; by apply Nat.ltb_ge).
      by rewrite andb_false_r.
  - intros k Hk. apply list_elem_of_In, in_seq in Hk. unfold lane_value.
    assert (BLOCK_E <= k / head_blocks z) by (apply Nat.div_le_lower_bound; lia).
    by replace (k / head_blocks z <? BLOCK_E) with false by (symmetry; by apply Nat.ltb_ge).
Qed.

Lemma program_fold first last total :
  foldl (fun total position => add total (tl_sum (map (lane_value zero z b order buffer start batch position last)
      (seq 0 (next_power_of_2 (BLOCK_E * head_blocks z)))))) total (range_step first last BLOCK_E)
  = add total (vsum (map (fun p => edge_sum (nth p order 0)) (seq first (last - first)))).
Proof.
  rewrite (foldl_vsum zero add add_assoc add_comm add_zero (fun position => tl_sum _)). f_equal.
  rewrite <- (vsum_strides zero add add_assoc add_comm add_zero (fun p => edge_sum (nth p order 0))).
  apply vsum_ext. intros p _. by rewrite tl_sum_law, lanes_sum.
Qed.
End Program.

(** * Ordered key gradients equal the atomic ones

    Over all chunks every key receives the values of its own edges, each once:
    in exact arithmetic the sum that the atomic additions reach in any order. *)

Lemma filter_all {A} (P : A -> bool) (l : list A) : (forall x, x ∈ l -> P x = true) -> filter (fun x => P x = true) l = l.
Proof.
  induction l as [|x l IH]; intros H; [done|]. rewrite filter_cons, decide_True by (apply H; by left). f_equal. apply IH.
  intros y Hy. apply H. by right.
Qed.

Lemma filter_none {A} (P : A -> bool) (l : list A) : (forall x, x ∈ l -> P x = false) -> filter (fun x => P x = true) l = [].
Proof.
  induction l as [|x l IH]; intros H; [done|]. rewrite filter_cons, decide_False by (rewrite H; [done|by left]). apply IH.
  intros y Hy. apply H. by right.
Qed.

Lemma prod_nodup {A B} (l : list A) (k : list B) : NoDup l -> NoDup k -> NoDup (list_prod l k).
Proof.
  intros Hl Hk. induction Hl as [|x l Hx Hl IH]; [constructor|]. cbn. apply NoDup_app. split; [|split; [|done]].
  - apply NoDup_fmap_2; [by intros y y' [= ->]|done].
  - intros [x' y] (y' & [= -> _] & _)%list_elem_of_fmap Hin. apply list_elem_of_In, in_prod_iff in Hin as [Hin%list_elem_of_In _]. done.
Qed.

(** ** The slice between two bisections *)

Lemma nth_segment (before l after : list nat) i : i < length l -> nth (length before + i) (before ++ l ++ after) 0 = nth i l 0.
Proof. intros Hi. rewrite app_nth2 by lia. replace (length before + i - length before) with i by lia. by rewrite app_nth1. Qed.

Lemma sorted_nth l i j : StronglySorted lt l -> i < j -> j < length l -> nth i l 0 < nth j l 0.
Proof.
  intros Hs. revert i j. induction Hs as [|x l Hs IH Hx]; intros i j Hij Hj; [cbn in Hj; lia|]. rewrite Forall_forall in Hx.
  destruct j as [|j]; [lia|]. cbn in Hj. destruct i as [|i]; cbn; [|apply IH; lia].
  apply Hx. apply list_elem_of_In, nth_In. lia.
Qed.

Lemma slice_spec order before l after lower upper : order = before ++ l ++ after -> StronglySorted lt l -> lower <= upper ->
  let first := length before in
  let last := length before + length l in
  let begin := bisect (last - first) order lower first last in
  let stop := bisect (last - begin) order upper begin last in
  map (fun p => nth p order 0) (seq begin (stop - begin)) = filter (fun e => (lower <=? e) && (e <? upper) = true) l.
Proof.
  intros -> Hs Hle first last begin stop.
  assert (forall i, first <= i < last -> nth i (before ++ l ++ after) 0 = nth (i - first) l 0) as Hn.
  { intros i Hi. replace i with (length before + (i - first)) at 1 by (unfold first in *; lia). apply nth_segment. unfold first, last in *. lia. }
  assert (forall i j, first <= i < j -> j < last -> nth i (before ++ l ++ after) 0 < nth j (before ++ l ++ after) 0) as Hinc.
  { intros i j Hij Hj. rewrite !Hn by lia. apply sorted_nth; [done|lia|unfold first, last in *; lia]. }
  destruct (bisect_spec (before ++ l ++ after) lower first last (last - first)) as (Hb & Hb1 & Hb2); [unfold first, last; lia|lia|done|]. fold begin in Hb, Hb1, Hb2.
  destruct (bisect_spec (before ++ l ++ after) upper begin last (last - begin)) as (Ht & Ht1 & Ht2); [lia|lia|intros; apply Hinc; lia|]. fold stop in Ht, Ht1, Ht2.
  set (i1 := begin - first). set (n := stop - begin).
  assert (i1 + n <= length l) as Hin by (unfold i1, n, first, last in *; lia).
  transitivity (take n (drop i1 l)).
  - apply list_eq. intros k. rewrite list_lookup_fmap. destruct (decide (k < n)) as [Hk|Hk].
    + rewrite lookup_seq_lt by done. cbn. rewrite Hn by (unfold i1, n in *; lia). rewrite lookup_take_lt, lookup_drop by done.
      replace (begin + k - first) with (i1 + k) by (unfold i1; lia).
      destruct (nth_lookup_or_length l (i1 + k) 0) as [->|?]; [done|lia].
    + rewrite lookup_seq_ge by lia. cbn. symmetry. apply lookup_ge_None. rewrite length_take, length_drop. lia.
  - rewrite <- (take_drop i1 l) at 2. rewrite <- (take_drop n (drop i1 l)) at 2. rewrite !filter_app.
    assert (forall x k, x ∈ take k l -> exists i, i < k /\ i < length l /\ nth i l 0 = x) as Htk.
    { intros x k (i & Hi)%list_elem_of_lookup. apply lookup_take_Some in Hi as [Hi ?]. exists i. split; [done|].
      split; [by eapply lookup_lt_Some|by apply nth_lookup_Some]. }
    rewrite (filter_none _ (take i1 l)), (filter_all _ (take n _)), (filter_none _ (drop n _)); [by rewrite app_nil_r|..].
    + intros x (i & Hi)%list_elem_of_lookup. rewrite !lookup_drop in Hi. pose proof (lookup_lt_Some _ _ _ Hi). apply nth_lookup_Some with (d := 0) in Hi.
      apply andb_false_iff. right. apply Nat.ltb_ge. rewrite <- Hi.
      specialize (Ht2 (first + (i1 + (n + i)))). rewrite Hn in Ht2 by (unfold first, last in *; lia).
      replace (first + (i1 + (n + i)) - first) with (i1 + (n + i)) in Ht2 by lia. apply Ht2. unfold i1, n, first, last in *. lia.
    + intros x (i & Hi)%list_elem_of_lookup. apply lookup_take_Some in Hi as [Hi Hk]. rewrite lookup_drop in Hi.
      pose proof (lookup_lt_Some _ _ _ Hi). apply nth_lookup_Some with (d := 0) in Hi.
      specialize (Ht1 (first + (i1 + i))). specialize (Hb2 (first + (i1 + i))).
      rewrite Hn in Ht1, Hb2 by (unfold first, last in *; lia). replace (first + (i1 + i) - first) with (i1 + i) in Ht1, Hb2 by lia. rewrite Hi in Ht1, Hb2.
      apply andb_true_iff. split; [apply Nat.leb_le, Hb2|apply Nat.ltb_lt, Ht1]; unfold i1, n, first, last in *; lia.
    + intros x Hx. apply Htk in Hx as (i & Hi & Hl & <-). specialize (Hb1 (first + i)).
      rewrite Hn in Hb1 by (unfold first, last in *; lia). replace (first + i - first) with i in Hb1 by lia.
      apply andb_false_iff. left. apply Nat.leb_gt, Hb1. unfold i1 in *. lia.
Qed.

(** ** The buffer of a chunk *)

Lemma stores_lookup {V} (l : list (nat * V)) (m : gmap nat V) k v : (k, v) ∈ l -> (forall v', (k, v') ∈ l -> v' = v) ->
  foldl (fun m e => <[e.1 := e.2]> m) m l !! k = Some v.
Proof.
  revert m. induction l as [|[k' v'] l IH] using rev_ind; intros m Hin Huniq; [by apply not_elem_of_nil in Hin|].
  rewrite foldl_app. cbn. destruct (decide (k = k')) as [<-|Hne].
  - rewrite lookup_insert_eq. f_equal. apply Huniq, elem_of_app. right. by left.
  - rewrite lookup_insert_ne by done. apply IH.
    + apply elem_of_app in Hin as [?|Hin]; [done|]. apply list_elem_of_singleton in Hin. congruence.
    + intros v'' Hv. apply Huniq, elem_of_app. by left.
Qed.

(** The slots of different branches are different places. *)
Definition separate (z : sizes) (branches : list branch) : Prop :=
  (forall b, b ∈ branches -> branch_offset b + slots b <= combined z)
  /\ forall b b' s s', b ∈ branches -> b' ∈ branches -> s < slots b -> s' < slots b' ->
       branch_offset b + s = branch_offset b' + s' -> b = b' /\ s = s'.

Lemma offset_inj z bt lq s h bt' lq' s' h' : lq < chunk_capacity z -> lq' < chunk_capacity z -> s < combined z -> s' < combined z ->
  h < head_blocks z -> h' < head_blocks z -> buffer_offset z bt lq s h = buffer_offset z bt' lq' s' h' -> bt = bt' /\ lq = lq' /\ s = s' /\ h = h'.
Proof.
  unfold buffer_offset. intros Hl Hl' Hs Hs' Hh Hh' E.
  destruct (edge_number (combined z) (head_blocks z) (bt * chunk_capacity z + lq) s h Hs Hh) as (Em & _ & Ed & Ep).
  destruct (edge_number (combined z) (head_blocks z) (bt' * chunk_capacity z + lq') s' h' Hs' Hh') as (Em' & _ & Ed' & Ep').
  cbn zeta in *. rewrite E in Em, Ed, Ep. assert (bt * chunk_capacity z + lq = bt' * chunk_capacity z + lq') as E1 by congruence.
  pose proof (Nat.div_add_l bt (chunk_capacity z) lq ltac:(lia)) as H1. pose proof (Nat.div_add_l bt' (chunk_capacity z) lq' ltac:(lia)) as H2.
  rewrite (Nat.div_small lq) in H1 by done. rewrite (Nat.div_small lq') in H2 by done. rewrite E1 in H1.
  assert (bt = bt') as -> by lia. split; [done|]. split; [lia|]. split; congruence.
Qed.

Section Kernel.
Context `{TensorLaws} {V : Type} (zero : V) (add : V -> V -> V) (tl_sum : list V -> V).
Context (value : branch -> nat -> nat -> nat -> nat -> V) (schedule : list (nat * nat) -> list (nat * nat)).
Context (schedule_perm : forall l, schedule l ≡ₚ l).
Context (z : sizes) (branches : list branch) (Hsep : separate z branches).

Lemma elem_of_stores start size p k v : (k, v) ∈ program_stores value z branches start size p <->
  exists b s, b ∈ branches /\ s < slots b /\ edge_valid b (p.1 / size) (start + (p.1 - p.1 / size * size)) s = true
    /\ k = buffer_offset z (p.1 / size) (p.1 - p.1 / size * size) (branch_offset b + s) p.2
    /\ v = value b (p.1 / size) (start + (p.1 - p.1 / size * size)) s p.2.
Proof.
  unfold program_stores. rewrite list_elem_of_In, in_concat. split.
  - intros (l & (b & <- & Hb)%in_map_iff & Hin). apply list_elem_of_In, list_elem_of_omap in Hin as (s & Hs & He).
    apply list_elem_of_In, in_seq in Hs. destruct (edge_valid _ _ _ _) eqn:Ev; [|done]. injection He as <- <-.
    exists b, s. split; [by apply list_elem_of_In|]. split; [lia|]. by repeat split.
  - intros (b & s & Hb & Hs & Hv & -> & ->). eexists. split; [apply in_map_iff; exists b; split; [reflexivity|by apply list_elem_of_In]|].
    apply list_elem_of_In, list_elem_of_omap. exists s. split; [apply list_elem_of_In, in_seq; lia|]. by rewrite Hv.
Qed.

(** After a chunk's launch the buffer holds the value of each of its edges. *)
Lemma chunk_buffer start size buffer b bt lq s h : 0 < size -> size <= chunk_capacity z ->
  b ∈ branches -> bt < batch_size z -> lq < size -> s < slots b -> h < head_blocks z -> edge_valid b bt (start + lq) s = true ->
  attention_chunk value schedule z branches start size buffer !! buffer_offset z bt lq (s + branch_offset b) h
  = Some (value b bt (start + lq) s h).
Proof.
  intros Hsz Hcap Hb Hbt Hlq Hs Hh Hv. unfold attention_chunk. rewrite (Nat.add_comm s).
  assert (forall p k v, (k, v) ∈ program_stores value z branches start size p -> p ∈ list_prod (seq 0 (batch_size z * size)) (seq 0 (head_blocks z)) ->
    exists b' bt' lq' s', b' ∈ branches /\ lq' < size /\ s' < slots b' /\ p.2 < head_blocks z
      /\ k = buffer_offset z bt' lq' (branch_offset b' + s') p.2 /\ v = value b' bt' (start + lq') s' p.2) as Hstored.
  { intros [r h'] k v Hin Hp. apply elem_of_stores in Hin as (b' & s' & Hb' & Hs' & _ & -> & ->). cbn in *.
    apply list_elem_of_In, in_prod_iff in Hp as [Hr Hh']. apply in_seq in Hh'. exists b', (r / size), (r - r / size * size), s'.
    pose proof (Nat.div_mod r size ltac:(lia)). pose proof (Nat.mod_upper_bound r size ltac:(lia)). split; [done|]. split; [lia|]. split; [done|]. split; [lia|done]. }
  apply stores_lookup.
  - apply list_elem_of_In, in_concat. exists (program_stores value z branches start size (bt * size + lq, h)). split.
    + apply in_map. apply list_elem_of_In. rewrite schedule_perm. apply list_elem_of_In, in_prod; apply in_seq; nia.
    + apply list_elem_of_In, elem_of_stores. cbn. rewrite Nat.div_add_l, (Nat.div_small lq), Nat.add_0_r by lia.
      replace (bt * size + lq - bt * size) with lq by lia. by exists b, s.
  - intros v' Hv'. apply list_elem_of_In, in_concat in Hv' as (l & (p & <- & Hp)%in_map_iff & Hin).
    apply list_elem_of_In in Hp. rewrite schedule_perm in Hp. apply list_elem_of_In in Hin.
    destruct (Hstored p _ v' Hin Hp) as (b' & bt' & lq' & s' & Hb' & Hlq' & Hs' & Hh' & Hk & ->). destruct Hsep as [Hfit Hdis].
    pose proof (Hfit b Hb). pose proof (Hfit b' Hb').
    apply offset_inj in Hk as (-> & -> & Hos & ->); [|lia..]. destruct (Hdis b b' s s' Hb Hb' Hs Hs' Hos) as [-> ->]. done.
Qed.
End Kernel.

(** ** One program over a chunk *)

Section Reduction.
Context `{TensorLaws} {V : Type} (zero : V) (add : V -> V -> V) (tl_sum : list V -> V).
Context (value : branch -> nat -> nat -> nat -> nat -> V) (schedule : list (nat * nat) -> list (nat * nat)).
Context (schedule_perm : forall l, schedule l ≡ₚ l).
Context (add_assoc : forall x y z, add x (add y z) = add (add x y) z).
Context (add_comm : forall x y, add x y = add y x) (add_zero : forall x, add zero x = x).
Context (tl_sum_law : forall l, tl_sum l = vsum zero add l).
Context (z : sizes) (branches : list branch) (Hsep : separate z branches) (Hh : 0 < head_blocks z) (Hc : 0 < chunk_queries z).
#[local] Notation vsum := (vsum zero add).

Definition query_of (b : branch) (e : nat) : nat := (e / slots b) mod length_q z.
Definition edge_total (b : branch) (e : nat) : V :=
  vsum (map (fun h => value b (e / slots b / length_q z) (query_of b e) (e mod slots b) h) (seq 0 (head_blocks z))).
Definition in_chunk (b : branch) (start size e : nat) : bool := (start <=? query_of b e) && (query_of b e <? start + size).

Section Branch.
Context (b : branch) (Hb : b ∈ branches) (Hshape : shaped z b) (o : nat) (Ho : (Z.of_nat o < owners b)%Z).
#[local] Notation owned := (positions (encoded b) (Z.of_nat o)).

(** The batch of a key is that of its edges. *)
Lemma owned_parts e : e ∈ owned -> exists bt q s, bt < batch_size z /\ q < length_q z /\ s < slots b
  /\ e = (bt * length_q z + q) * slots b + s /\ edge_valid b bt q s = true /\ o / Z.to_nat (key_length b) = bt
  /\ e mod slots b = s /\ e / slots b = bt * length_q z + q /\ e / slots b / length_q z = bt /\ query_of b e = q.
Proof.
  intros He. apply (elem_of_owned z b o e Hshape Ho) in He as (bt & q & s & H1 & H2 & H3 & -> & Hv & Hown).
  exists bt, q, s. do 5 (split; [done|]). split; [|by apply edge_number].
  unfold edge_valid, valid_entry in Hv. apply andb_true_iff in Hv as [[Hv1%Z.leb_le Hv2%Z.ltb_lt]%andb_true_iff _].
  rewrite <- Hown. set (i := (entry_at b bt q s).1) in *. replace (i + Z.of_nat bt * key_length b)%Z
    with (Z.of_nat (bt * Z.to_nat (key_length b) + Z.to_nat i)) by nia.
  rewrite Nat2Z.id, Nat.div_add_l, Nat.div_small by lia. lia.
Qed.

Lemma reduce_owner_spec order offsets start size buffer total : inverse_adjacency b = Ok (order, offsets) ->
  start < length_q z -> size = Nat.min (chunk_capacity z) (length_q z - start) ->
  reduce_owner zero add tl_sum z b order offsets (attention_chunk value schedule z branches start size buffer) start size o total
  = add total (vsum (map (edge_total b) (filter (fun e => in_chunk b start size e = true) owned))).
Proof.
  intros Ha Hst Hsz. unfold inverse_adjacency in Ha. destruct (key_length b <? 0)%Z; [done|]. destruct (match mask b with Some m => _ | None => _ end); [done|].
  injection Ha as <- <-. destruct (owner_segment (encoded b) (Z.to_nat (owners b)) o) as (before & after & Hord & Hfirst & Hlast).
  { apply Forall_lookup. intros i k Hi. pose proof (lookup_lt_Some _ _ _ Hi) as Hlt. rewrite (encoded_length z b Hshape) in Hlt.
    destruct (edge_split _ _ _ _ Hlt) as (bt & q & s & H1 & H2 & H3 & ->). rewrite (encoded_lookup z b) in Hi by done. injection Hi as <-.
    pose proof (encode_range z b bt (entry_at b bt q s) Hshape H1). lia. }
  { lia. }
  unfold reduce_owner. rewrite Hfirst, Hlast. replace (length before + length owned - length before) with (length owned) by lia.
  rewrite program_fold by done. f_equal. set (bt := o / Z.to_nat (key_length b)).
  pose proof (slice_spec (argsort_stable (encoded b)) before owned after ((bt * length_q z + start) * slots b) ((bt * length_q z + start + size) * slots b)
    Hord (positions_sorted _ _) ltac:(apply Nat.mul_le_mono_r; lia)) as Hslice. cbn zeta in Hslice.
  replace (length before + length owned - length before) with (length owned) in Hslice by lia.
  set (begin := bisect (length owned) _ _ _ _) in *. set (stop := bisect _ _ _ begin _) in *.
  rewrite <- (map_map (fun p => nth p (argsort_stable (encoded b)) 0)
    (edge_sum zero add z b (attention_chunk value schedule z branches start size buffer) start bt)), Hslice.
  assert (0 < size) as Hpos by (rewrite Hsz; unfold chunk_capacity; lia).
  rewrite (filter_in_ext (fun e => _ = true) (fun e => in_chunk b start size e = true) owned).
  - apply vsum_ext. intros e [Hin He]%list_elem_of_filter.
    destruct (owned_parts e He) as (bt' & q & s & H1 & H2 & H3 & Hee & Hv & Hbt & Hm & Hd & Hdd & Hq).
    unfold in_chunk in Hin. rewrite Hq in Hin. apply andb_true_iff in Hin as [Hq1%Nat.leb_le Hq2%Nat.ltb_lt].
    unfold edge_sum, edge_total. apply vsum_ext. intros h Hhin. apply list_elem_of_In, in_seq in Hhin. unfold loaded.
    rewrite Hm, Hdd, Hd, Hq. fold bt in Hbt. rewrite Hbt. replace (bt' * length_q z + q - bt' * length_q z - start) with (q - start) by lia.
    rewrite (chunk_buffer value schedule schedule_perm z branches Hsep start size buffer b bt' (q - start) s h); try done; try lia.
    + cbn. f_equal. lia.
    + replace (start + (q - start)) with q by lia. done.
  - apply Forall_forall. intros e He. destruct (owned_parts e He) as (bt' & q & s & H1 & H2 & H3 & Hee & Hv & Hbt & Hm & Hd & Hdd & Hq).
    fold bt in Hbt. rewrite Hbt, Hee. unfold in_chunk. rewrite <- Hee, Hq. rewrite !andb_true_iff, !Nat.leb_le, !Nat.ltb_lt.
    rewrite Hee. split; intros [Hlo Hup]; split; nia.
Qed.

(** All edges of the key, one chunk after the other. *)
Lemma chunks_total start size : 
  add (vsum (map (edge_total b) (filter (fun e => (query_of b e <? start) = true) owned)))
      (vsum (map (edge_total b) (filter (fun e => in_chunk b start size e = true) owned)))
  = vsum (map (edge_total b) (filter (fun e => (query_of b e <? start + size) = true) owned)).
Proof.
  rewrite (vsum_split zero add add_assoc add_comm add_zero (fun e => query_of b e <? start) _ (filter (fun e => (_ <? start + size) = true) owned)).
  rewrite !list_filter_filter. f_equal; f_equal; f_equal; apply list_filter_iff; intros e; unfold in_chunk;
    rewrite ?andb_true_iff, ?Nat.leb_le, ?Nat.ltb_lt, ?Nat.ltb_ge; lia.
Qed.

(** The events of the key, by its edges. *)
Lemma owned_events run : run ≡ₚ events z b ->
  vsum (map (edge_total b) owned) = vsum (map (event_value value b) (filter (fun e => event_valid b e && (event_owner b e =? o) = true) run)).
Proof.
  intros Hrun. set (dec := fun p : nat * nat => (p.1 / slots b / length_q z, query_of b p.1, p.1 mod slots b, p.2)).
  transitivity (vsum (map (event_value value b) (map dec (list_prod owned (seq 0 (head_blocks z)))))).
  - rewrite map_map. induction owned as [|e l IH]; [done|]. cbn [list_prod]. rewrite map_app, (vsum_app zero add add_assoc add_zero), <- IH, map_map. done.
  - apply vsum_perm; [done|done|]. apply fmap_Permutation. rewrite Hrun. apply NoDup_Permutation.
    + apply NoDup_fmap_2_strong; [|apply prod_nodup; [apply sorted_lt_nodup, positions_sorted|apply NoDup_seq]].
      intros [e h] [e' h'] Hin Hin' Ed. apply list_elem_of_In, in_prod_iff in Hin as [He%list_elem_of_In _], Hin' as [He'%list_elem_of_In _].
      apply owned_parts in He as (bt & q & s & _ & _ & _ & -> & _ & _ & Hm & _ & Hd & Hq).
      apply owned_parts in He' as (bt' & q' & s' & _ & _ & _ & -> & _ & _ & Hm' & _ & Hd' & Hq').
      unfold dec in Ed. cbn [fst snd] in Ed. rewrite Hm, Hd, Hq, Hm', Hd', Hq' in Ed. by injection Ed as -> -> -> ->.
    + apply NoDup_filter. unfold events. repeat apply prod_nodup; apply NoDup_seq.
    + intros [[[bt q] s] h]. rewrite list_elem_of_fmap, list_elem_of_filter. unfold events. rewrite list_elem_of_In, !in_prod_iff, !in_seq.
      cbn [event_valid event_owner]. rewrite andb_true_iff, Nat.eqb_eq. split.
      * intros ([e h'] & Ed & Hin). apply list_elem_of_In, in_prod_iff in Hin as [He%list_elem_of_In Hhin%in_seq].
        pose proof (owned_parts e He) as (bt' & q' & s' & _ & _ & _ & Hee & _ & _ & Hm & _ & Hd & Hq).
        apply (elem_of_owned z b o e Hshape Ho) in He as (bt2 & q2 & s2 & H1 & H2 & H3 & Hee2 & Hv & Hown).
        unfold dec in Ed. cbn [fst snd] in Ed. destruct (edge_number (length_q z) (slots b) bt2 q2 s2 H2 H3) as (Em & _ & Edd & Eq).
        unfold query_of in Ed. rewrite Hee2, Em, Edd, Eq in Ed. injection Ed as -> -> -> ->. split; [by split|lia].
      * intros ([Hv Hown] & ((H1 & H2) & H3) & H4). destruct (edge_number (length_q z) (slots b) bt q s) as (Em & _ & Edd & Eq); [lia|lia|].
        exists ((bt * length_q z + q) * slots b + s, h). split; [unfold dec, query_of; cbn [fst snd]; by rewrite Em, Edd, Eq|].
        apply list_elem_of_In, in_prod_iff. split; [|apply in_seq; lia]. apply list_elem_of_In, (elem_of_owned z b o _ Hshape Ho).
        exists bt, q, s. split; [lia|]. split; [lia|]. split; [lia|]. done.
Qed.

Lemma atomic_lookup run (g : list V) v : g !! o = Some v ->
  foldl (fun g e => if event_valid b e then alter (fun v => add v (event_value value b e)) (event_owner b e) g else g) g run !! o
  = Some (add v (vsum (map (event_value value b) (filter (fun e => event_valid b e && (event_owner b e =? o) = true) run)))).
Proof.
  revert g v. induction run as [|e run IH]; intros g v Hg; [cbn; by rewrite Hg, add_comm, add_zero|]. cbn [foldl]. rewrite filter_cons.
  destruct (event_valid b e) eqn:Ev; cbn [andb].
  - destruct (Nat.eqb_spec (event_owner b e) o) as [Eo|Eo].
    + rewrite decide_True by done. cbn [map]. rewrite vsum_cons, add_assoc. apply IH. rewrite Eo, list_lookup_alter, Hg, decide_True by done. done.
    + rewrite decide_False by done. apply IH. rewrite list_lookup_alter, decide_False by done. done.
  - rewrite decide_False by done. by apply IH.
Qed.
End Branch.

(** ** All chunks *)

(** A target holds the edges of the queries before [start]. *)
Definition target_upto (start : nat) (a : adjacency) (b : branch) : Prop :=
  a_branch a = b /\ length (a_target a) = Z.to_nat (owners b) /\
  match a_orders a with
  | None => a_target a = replicate (Z.to_nat (owners b)) zero /\ (owners b = 0%Z \/ events z b = [])
  | Some ord => inverse_adjacency b = Ok ord /\ forall o, (Z.of_nat o < owners b)%Z ->
      a_target a !! o = Some (vsum (map (edge_total b) (filter (fun e => (query_of b e <? start) = true) (positions (encoded b) (Z.of_nat o)))))
  end.

Lemma adjacency_ok b : shaped z b -> exists a, adjacency_of zero z b = Ok a /\ target_upto 0 a b.
Proof.
  intros Hz. unfold adjacency_of. destruct (_ || _) eqn:E.
  - eexists. split; [reflexivity|]. split; [done|]. cbn [a_target a_orders]. split; [by rewrite length_replicate|]. split; [done|].
    apply orb_true_iff in E as [E%Z.eqb_eq|E%Nat.eqb_eq]; [by left|]. right. apply nil_length_inv. unfold events. rewrite !length_prod, !length_seq. lia.
  - unfold inverse_adjacency. pose proof (s_keys z b Hz). replace (key_length b <? 0)%Z with false by (symmetry; apply Z.ltb_ge; lia).
    assert (match mask b with Some m => negb (bool_decide (map (map length) (indices b) = map (map length) m)) | None => false end = false) as ->.
    { pose proof (s_mask z b Hz) as Hm. destruct (mask b); [|done]. by rewrite bool_decide_eq_true_2. }
    eexists. split; [reflexivity|]. split; [done|]. cbn [a_target a_orders]. split; [by rewrite length_replicate|]. split; [unfold inverse_adjacency|].
    + replace (key_length b <? 0)%Z with false by (symmetry; apply Z.ltb_ge; lia). pose proof (s_mask z b Hz) as Hm.
      destruct (mask b); [|done]. by rewrite bool_decide_eq_true_2.
    + intros o Ho. rewrite lookup_replicate_2 by lia. rewrite filter_none; [done|]. intros e _. by apply Nat.ltb_ge, Nat.le_0_l.
Qed.

Lemma chunk_target start size buffer a b : b ∈ branches -> shaped z b -> start < length_q z ->
  size = Nat.min (chunk_capacity z) (length_q z - start) -> target_upto start a b ->
  target_upto (start + size) (reduce_target zero add tl_sum z (attention_chunk value schedule z branches start size buffer) start size a) b.
Proof.
  intros Hb Hz Hst Hsz (<- & Hlen & Ha). unfold reduce_target. destruct (a_orders a) as [[order offsets]|] eqn:E; [|split; [done|]; split; [done|]; by rewrite E].
  destruct Ha as [Hadj Ht]. split; [done|]. cbn [a_target a_orders]. split; [by rewrite length_imap|]. split; [done|]. intros o Ho.
  rewrite list_lookup_imap, (Ht o Ho). cbn [fmap option_fmap option_map].
  rewrite (reduce_owner_spec (a_branch a) Hb Hz o Ho order offsets start size buffer _ Hadj Hst Hsz). f_equal. by apply chunks_total.
Qed.

Lemma chunks_spec m : forall j l buffer, (j + m - 1) * chunk_queries z < length_q z \/ m = 0 -> Forall (shaped z) branches ->
  Forall2 (target_upto (Nat.min (j * chunk_queries z) (length_q z))) l branches ->
  Forall2 (target_upto (Nat.min ((j + m) * chunk_queries z) (length_q z)))
    (foldl (chunk_step zero add tl_sum value schedule z branches) (buffer, l) (map (fun k => 0 + k * chunk_queries z) (seq j m))).2 branches.
Proof.
  induction m as [|m IH]; intros j l buffer Hm Hshape Hl; [by rewrite Nat.add_0_r|]. cbn [seq map foldl chunk_step].
  replace (j + S m) with (S j + m) by lia. set (start := 0 + j * chunk_queries z). set (size := Nat.min (chunk_capacity z) (length_q z - start)).
  change (chunk_step zero add tl_sum value schedule z branches (buffer, l) start)
    with (attention_chunk value schedule z branches start size buffer,
          map (reduce_target zero add tl_sum z (attention_chunk value schedule z branches start size buffer) start size) l).
  assert (start < length_q z) as Hst by (unfold start; nia).
  apply IH; [destruct m; [by right|left; replace (S j + S m - 1) with (j + S (S m) - 1) by lia; lia]|done|].
  replace (Nat.min (S j * chunk_queries z) (length_q z)) with (start + size) by (unfold size, chunk_capacity, start in *; nia).
  rewrite Nat.min_l in Hl by (unfold start in Hst; lia). apply Forall2_same_length_lookup in Hl as [Hlen Hl].
  apply Forall2_same_length_lookup. split; [by rewrite length_map|]. intros i a b Hi Hb. rewrite list_lookup_fmap in Hi.
  apply fmap_Some in Hi as (a' & Ha' & ->). apply chunk_target; [by eapply list_elem_of_lookup_2| |done|done|by eapply Hl].
  rewrite Forall_forall in Hshape. apply Hshape. by eapply list_elem_of_lookup_2.
Qed.

(** A finished target is what the atomic additions leave, in any order. *)
Lemma finished_target a b run : b ∈ branches -> shaped z b -> run ≡ₚ events z b -> target_upto (length_q z) a b ->
  a_target a = atomic_gradient zero add value b run.
Proof.
  intros Hb Hz Hrun (_ & Hlen & Ha). assert (length (atomic_gradient zero add value b run) = Z.to_nat (owners b)) as Hal.
  { unfold atomic_gradient. clear Hrun. assert (forall g, length (foldl (fun g e => if event_valid b e then alter (fun v => add v (event_value value b e)) (event_owner b e) g else g) g run)
      = length g) as ->; [|by rewrite length_replicate].
    induction run as [|e run IH]; intros g; [done|]. cbn. rewrite IH. destruct (event_valid b e); [apply length_alter|done]. }
  destruct (a_orders a) as [ord|].
  - destruct Ha as [_ Ht]. apply list_eq. intros o. destruct (decide (Z.of_nat o < owners b)%Z) as [Ho|Ho].
    + rewrite (Ht o Ho). unfold atomic_gradient. rewrite (atomic_lookup b o run _ zero) by (apply lookup_replicate_2; lia).
      f_equal. rewrite add_zero, <- (owned_events b Hz o Ho run Hrun). f_equal. f_equal. apply filter_all. intros e He.
      destruct (owned_parts b Hz o Ho e He) as (bt & q & s & _ & Hq & _ & _ & _ & _ & _ & _ & _ & Hqe). apply Nat.ltb_lt. by rewrite Hqe.
    + transitivity (@None V); [|symmetry]; apply lookup_ge_None; lia.
  - destruct Ha as [-> [Hno|Hno]].
    + rewrite Hno in *. symmetry. by apply nil_length_inv.
    + rewrite Hno in Hrun. apply Permutation_nil_r in Hrun as ->. done.
Qed.

Lemma backward_spec : Forall (shaped z) branches ->
  exists l, ordered_backward zero add tl_sum value schedule z branches = Ok l /\
    forall runs, Forall2 (fun b run => run ≡ₚ events z b) branches runs -> l = zip_with (atomic_gradient zero add value) branches runs.
Proof.
  intros Hshape. unfold ordered_backward.
  assert (forall bs, Forall (shaped z) bs -> exists l, traverse (adjacency_of zero z) bs = Ok l /\ Forall2 (target_upto 0) l bs) as Hadj.
  { induction 1 as [|b bs Hz _ IH]; [by exists []|]. destruct IH as (l & El & Hl), (adjacency_ok b Hz) as (a & Ea & Ha).
    exists (a :: l). cbn. rewrite Ea, El. split; [done|by constructor]. }
  destruct (Hadj branches Hshape) as (l & -> & Hl). unfold range_step. rewrite Nat.sub_0_r.
  set (n := (length_q z + chunk_queries z - 1) / chunk_queries z).
  pose proof (Nat.div_mod (length_q z + chunk_queries z - 1) (chunk_queries z) ltac:(lia)) as Hdm. fold n in Hdm.
  pose proof (Nat.mod_upper_bound (length_q z + chunk_queries z - 1) (chunk_queries z) ltac:(lia)) as Hmod.
  pose proof (chunks_spec n 0 l ∅) as Hn. eexists. split; [reflexivity|]. intros runs Hruns.
  assert (Forall2 (target_upto (length_q z)) (foldl (chunk_step zero add tl_sum value schedule z branches) (∅, l)
    (map (fun k => 0 + k * chunk_queries z) (seq 0 n))).2 branches) as Hend.
  { replace (length_q z) with (Nat.min ((0 + n) * chunk_queries z) (length_q z)) by nia. apply Hn; [|done|done].
    destruct n; [by right|]. left. cbn [Nat.add]. nia. }
  clear Hn Hl. revert Hend. generalize (foldl (chunk_step zero add tl_sum value schedule z branches) (∅, l) (map (fun k => 0 + k * chunk_queries z) (seq 0 n))).2.
  intros l' Hend. apply Forall2_same_length_lookup in Hend as [Hlen Hend]. apply Forall2_same_length_lookup in Hruns as [Hrl Hruns].
  apply list_eq. intros i. rewrite list_lookup_fmap, lookup_zip_with. destruct (l' !! i) as [a|] eqn:Ea.
  - destruct (lookup_lt_is_Some_2 branches i) as [b Eb]; [rewrite <- Hlen; by eapply lookup_lt_Some|].
    destruct (lookup_lt_is_Some_2 runs i) as [run Er]; [rewrite <- Hrl; by eapply lookup_lt_Some|]. rewrite Eb, Er. cbn. f_equal.
    apply finished_target; [by eapply list_elem_of_lookup_2| |by eapply Hruns|by eapply Hend].
    rewrite Forall_forall in Hshape. apply Hshape. by eapply list_elem_of_lookup_2.
  - apply lookup_ge_None in Ea. rewrite (lookup_ge_None_2 branches i) by lia. done.
Qed.
End Reduction.

(** C39. With an addition that is associative and commutative, and the programs
    of a launch in any order: for the two branches of an attention, of any
    sizes, masks and indices, the ordered backward returns for every key the
    gradient that the atomic additions leave, whatever order those run in.
    Every valid edge reaches its key once and no other edge does, although the
    buffer holds one chunk of queries and keeps the values of earlier ones. *)
Theorem ordered_matches_atomic `{TensorLaws} (V : Type) zero (add : V -> V -> V) tl_sum value schedule z window compressed runs :
  (forall x y u, add x (add y u) = add (add x y) u) -> (forall x y, add x y = add y x) -> (forall x, add zero x = x) ->
  (forall l, tl_sum l = foldr add zero l) -> (forall l, schedule l ≡ₚ l) ->
  shaped z window -> shaped z compressed -> branch_offset window = 0 -> branch_offset compressed = slots window ->
  combined z = slots window + slots compressed -> 0 < head_blocks z -> 0 < chunk_queries z ->
  Forall2 (fun b run => run ≡ₚ events z b) [window; compressed] runs ->
  ordered_backward zero add tl_sum value schedule z [window; compressed]
  = Ok (zip_with (atomic_gradient zero add value) [window; compressed] runs).
Proof.
  intros Ha Hc Hz Hsum Hsch Hw Hcs Ho1 Ho2 Hcomb Hh Hq Hruns.
  assert (separate z [window; compressed]) as Hsep.
  { split.
    - intros b. rewrite !elem_of_cons, elem_of_nil. intros [->|[->|[]]]; lia.
    - intros b b' s s' Hb Hb' Hs Hs' E. rewrite !elem_of_cons, elem_of_nil in Hb, Hb'.
      destruct Hb as [-> |[-> |[]]], Hb' as [-> |[-> |[]]]; [split; [done|lia]|exfalso; lia|exfalso; lia|split; [done|lia]]. }
  destruct (backward_spec zero add tl_sum value schedule Hsch Ha Hc Hz Hsum z [window; compressed] Hsep Hh Hq) as (l & -> & Hl).
  - constructor; [done|]. constructor; [done|constructor].
  - by rewrite (Hl runs Hruns).
Qed.

(** ** Witness: three queries in chunks of two *)

Definition small_sizes : sizes := {| batch_size := 1; length_q := 3; head_blocks := 2; combined := 3; chunk_queries := 2 |}.
Definition small_window : branch :=
  {| indices := [[[0; 0]; [1; 0]; [1; 5]]]%Z; mask := Some [[[true; false]; [true; true]; [true; true]]]; key_length := 2; slots := 2; branch_offset := 0 |}.
Definition small_compressed : branch := {| indices := [[[-1]; [0]; [0]]]%Z; mask := None; key_length := 1; slots := 1; branch_offset := 2 |}.
Definition small_value (b : branch) (batch query slot head_block : nat) : Z :=
  Z.of_nat (1000 * branch_offset b + 100 * query + 10 * slot + head_block).

Lemma ordered_matches_atomic_witness :
  ordered_backward (H := list_ops) 0%Z Z.add (foldr Z.add 0%Z) small_value (@rev _) small_sizes [small_window; small_compressed]
  = Ok [[222; 602]; [8602]]%Z.
Proof.
  rewrite (ordered_matches_atomic (H0 := list_laws) Z 0%Z Z.add (foldr Z.add 0%Z) small_value (@rev _) small_sizes small_window small_compressed
    [events small_sizes small_window; events small_sizes small_compressed]).
  - vm_compute. reflexivity.
  - intros; lia.
  - intros; lia.
  - intros; lia.
  - done.
  - intros l. symmetry. apply Permutation_rev.
  - constructor; [split; [done|]; repeat constructor|done|done].
  - constructor; [split; [done|]; repeat constructor|done|done].
  - done.
  - done.
  - done.
  - apply (bool_decide_unpack _). vm_compute. reflexivity.
  - apply (bool_decide_unpack _). vm_compute. reflexivity.
  - repeat constructor.
Defined.
