(* ===== verification/CompressedAttention.v ===== *)
(** * The index logic of the compressed attention ([models/dsv4/attention/module.py])

    A [Compressor] pools every complete group of [ratio] live tokens of one
    sequence into one entry; a [SparseIndexer] scores the entries a query may
    see and keeps the best; layers without one reuse what the [ShadowIndexers]
    hold from earlier layers.  One batch row at a time.  The pooled values, the
    queries and keys that give the scores, and the attention itself are floating
    point and left out: what is modelled is which tokens an entry pools and
    which entries a query attends to. *)

From S2P Require Export Torch.
From S2P Require Import Torch TorchFacts.
Local Open Scope Z_scope.
Local Open Scope py_scope.

(** A score: minus infinity marks an entry that is not visible. *)
Inductive score := NegInf | Finite (x : Z) | PosInf.
#[export] Instance score_eq_dec : EqDecision score.
Proof. solve_decision. Defined.

Definition score_le (a b : score) : bool :=
  match a, b with
  | NegInf, _ | _, PosInf => true
  | Finite x, Finite y => x <=? y
  | _, _ => false
  end.
Definition score_max (a b : score) : score := if score_le a b then b else a.

(** ** The tensor operations of this file *)

Class IndexOps := {
  (** [base.scatter_(0, index, source)] *)
  scatter : list nat -> list nat -> list nat -> list nat;
  (** [torch.searchsorted(sorted, x, right=...)] *)
  searchsorted : list Z -> Z -> bool -> nat;
  (** [_select_topk(scores, count, stable=...)]: the indices. *)
  select_topk : bool -> list score -> nat -> list nat }.

Class IndexLaws `{IndexOps} : Prop := {
  scatter_law : forall base index source k i x, length index = length source ->
    index !! k = Some i -> source !! k = Some x -> (forall k', index !! k' = Some i -> k' = k) -> (i < length base)%nat ->
    scatter base index source !! i = Some x;
  scatter_other : forall base index source i, i ∉ index -> scatter base index source !! i = base !! i;
  scatter_length : forall base index source, length (scatter base index source) = length base;
  searchsorted_law : forall keys x, StronglySorted Z.le keys ->
    searchsorted keys x false = length (filter (fun k => k < x) keys)
    /\ searchsorted keys x true = length (filter (fun k => k <= x) keys);
  select_topk_law : forall stable scores count, (count <= length scores)%nat ->
    let picked := select_topk stable scores count in
    length picked = count /\ NoDup picked /\ Forall (fun i => (i < length scores)%nat) picked
    /\ forall i j a b, i ∈ picked -> j ∉ picked -> scores !! i = Some a -> scores !! j = Some b -> score_le b a = true }.

Section Compressed.
Context `{TensorOps} `{IndexOps}.

(** ** [Compressor.forward] *)

(** What the compressor tells of its groups: their first tokens, positions and
    sequences, and which of them exist. *)
Record compressed_groups := { group_starts : list nat; group_positions : list Z; group_sequence_ids : list Z; group_valid : list bool }.

(** [live & positions.remainder(ratio).eq(0) & end_indices.lt(length)], and the
    last token live and of the same sequence. *)
Definition complete_at (ratio : nat) (live : list bool) (positions sequences : list Z) (i : nat) : bool :=
  let last := (i + ratio - 1)%nat in
  let safe := Nat.min last (length live - 1) in
  nth i live false && (nth i positions 0 mod Z.of_nat ratio =? 0) && (last <? length live)%nat
  && nth safe live false && (nth i sequences 0 =? nth safe sequences 0).

Definition compress (ratio : nat) (live : list bool) (positions sequences : list Z) : compressed_groups :=
  let n := length live in
  let complete := map (complete_at ratio live positions sequences) (seq 0 n) in
  let count := length (filter (fun c => c = true) complete) in
  let destinations := zip_with (fun (c : bool) (d : nat) => if c then (d - 1)%nat else n) complete (cumsum (map Nat.b2n complete)) in
  let order := scatter (replicate (n + 1) 0%nat) destinations (seq 0 n) in
  let max_groups := (n / ratio)%nat in
  let starts := take max_groups order in
  let valid := map (fun g => (g <? count)%nat) (seq 0 max_groups) in
  {| group_starts := starts;
     group_positions := zip_with (fun (v : bool) p => if v then p else 0) valid (index_select positions starts);
     group_sequence_ids := zip_with (fun (v : bool) s => if v then s else -1) valid (index_select sequences starts);
     group_valid := valid |}.

(** The tokens that an entry pools. *)
Definition members (ratio : nat) (start : nat) : list nat := map (fun j => start + j)%nat (seq 0 ratio).

(** ** [SparseIndexer.forward] *)

Definition int64_max : Z := 2 ^ 63 - 1.

Definition searchable (ids : list Z) : list Z := map (fun s => if s <? 0 then int64_max else s) ids.

(** The entries of a query's sequence, and those it may see. *)
Definition key_range (ratio : nat) (ids : list Z) (position sequence : Z) : nat * nat * nat :=
  let first := searchsorted (searchable ids) sequence false in
  let last := searchsorted (searchable ids) sequence true in
  let visible := Z.to_nat ((position + 1) / Z.of_nat ratio) in
  let stop := Nat.min last (first + visible) in
  let stop := if (0 <=? sequence) && (first <? stop)%nat then stop else first in
  (first, last, stop).

(** A row of [index_scores]: the score of an entry is a parameter. *)
Definition score_row (scores : nat -> Z) (first stop width : nat) (candidates : option (list bool)) : list score :=
  map (fun o =>
    let allowed := match candidates with Some c => nth o c false | None => true end in
    if (first + o <? stop)%nat && allowed then Finite (scores (first + o)%nat) else NegInf) (seq 0 width).

(** [F.pad(scores, (0, -width % block_size), value=-inf)] in blocks, and their
    maxima. *)
Definition block_scores (block_size : nat) (row : list score) : list score :=
  let padded := row ++ replicate (Z.to_nat (- Z.of_nat (length row) mod Z.of_nat block_size)) NegInf in
  map (fun b => foldr score_max NegInf (take block_size (drop (b * block_size) padded))) (seq 0 (length padded / block_size)).

Definition select_candidate_blocks (stable : bool) (topk_blocks block_size : nat) (row : list score) (visible : Z) : list bool :=
  let width := length row in
  if (width =? 0)%nat then []
  else
    let last := (visible - 1) / Z.of_nat block_size in
    let blocks := imap (fun b s => if Z.of_nat b =? last then PosInf else s) (block_scores block_size row) in
    let picked := select_topk stable blocks (Nat.min topk_blocks (length blocks)) in
    let keep := imap (fun b s => bool_decide (b ∈ picked) && negb (bool_decide (s = NegInf))) blocks in
    take width (concat (map (fun k => replicate block_size k) keep)).

Record indexer := { topk : nat; topk_blocks : nat; block_size : nat; stable_topk : bool;
                    owns_keys : bool; is_candidate_source : bool; uses_candidates : bool }.

(** The tensors shared by layers; of the pooled entries only whether there are
    any, and for the checks of this development the groups they pool. *)
Record shadow := {
  compressed_sequence_ids : option (list Z);
  compressed_kv : option compressed_groups;
  index_keys : option compressed_groups;
  topk_indices : option (list (list Z));
  candidates : option (list (list bool)) }.

Definition empty_shadow : shadow :=
  {| compressed_sequence_ids := None; compressed_kv := None; index_keys := None; topk_indices := None; candidates := None |}.

(** [torch.where(values > -inf, key_starts + indices, -1)] *)
Definition picked_indices (stable : bool) (topk first : nat) (row : list score) : list Z :=
  map (fun o => match row !! o with Some NegInf | None => -1 | Some _ => Z.of_nat (first + o) end)
    (select_topk stable row (Nat.min topk (length row))).

(** A call of the indexer for the queries' positions and sequences; [scores]
    gives the score of a query and an entry.  The source asserts that the
    sequences of the entries are set when there are keys; the compressor sets
    both, so the model has no case for the failure. *)
Definition run_indexer (x : indexer) (ratio : nat) (scores : nat -> nat -> Z) (latent : option compressed_groups)
    (queries : list (Z * Z)) (s : shadow) : shadow :=
  let keys := if owns_keys x then latent else index_keys s in
  match keys, compressed_sequence_ids s with
  | Some k, Some ids =>
      let ranges := map (fun q => key_range ratio ids q.1 q.2) queries in
      let width := foldr Nat.max 0%nat (map (fun r => r.1.2 - r.1.1)%nat ranges) in
      let previous := if uses_candidates x then candidates s else None in
      let rows := imap (fun q r => score_row (scores q) r.1.1 r.2 width (match previous with Some c => Some (nth q c []) | None => None end)) ranges in
      {| compressed_sequence_ids := compressed_sequence_ids s; compressed_kv := compressed_kv s; index_keys := Some k;
         topk_indices := Some (zip_with (fun row r => picked_indices (stable_topk x) (topk x) r.1.1 row) rows ranges);
         candidates := if is_candidate_source x
           then Some (zip_with (fun row r => select_candidate_blocks (stable_topk x) (topk_blocks x) (block_size x) row (Z.of_nat (r.2 - r.1.1))) rows ranges)
           else candidates s |}
  | _, _ =>
      {| compressed_sequence_ids := compressed_sequence_ids s; compressed_kv := compressed_kv s; index_keys := keys; topk_indices := None;
         candidates := if is_candidate_source x then None else candidates s |}
  end.

(** ** [CSA2Attention.forward] *)

(** A layer: its ratio (0 for none), whether it has a compressor, its indexer
    and its scores. *)
Record layer := { ratio : nat; compressor : bool; layer_indexer : option indexer; layer_scores : nat -> nat -> Z }.

(** Pooling the whole row; no latent when it is shorter than a group. *)
Definition run_compressor (l : layer) (live : list bool) (positions sequences : list Z) (s : shadow) : option compressed_groups * shadow :=
  if compressor l
  then let g := compress (ratio l) live positions sequences in
       (if (length live / ratio l =? 0)%nat then None else Some g,
        {| compressed_sequence_ids := Some (group_sequence_ids g); compressed_kv := None; index_keys := None; topk_indices := None; candidates := None |})
  else (None, s).

(** The entries a layer attends to, if any: the groups and each query's
    indices. *)
Definition run_layer (l : layer) (live : list bool) (positions sequences : list Z) (queries : list (Z * Z)) (s : shadow)
    : option (compressed_groups * list (list Z)) * shadow :=
  if (ratio l =? 0)%nat then (None, s)
  else
    let '(latent, s) := run_compressor l live positions sequences s in
    let s := match layer_indexer l with Some x => run_indexer x (ratio l) (layer_scores l) latent queries s | None => s end in
    let s := match latent with
      | Some g => {| compressed_sequence_ids := compressed_sequence_ids s; compressed_kv := Some g; index_keys := index_keys s;
                     topk_indices := topk_indices s; candidates := candidates s |}
      | None => s
      end in
    (match compressed_kv s, topk_indices s with Some g, Some t => Some (g, t) | _, _ => None end, s).

Fixpoint run_layers (ls : list layer) (live : list bool) (positions sequences : list Z) (queries : list (Z * Z)) (s : shadow)
    : list (option (compressed_groups * list (list Z))) :=
  match ls with
  | [] => []
  | l :: ls => let '(o, s) := run_layer l live positions sequences queries s in o :: run_layers ls live positions sequences queries s
  end.
End Compressed.

(** ** An instance on lists *)

Definition score_before (scores : list score) (i j : nat) : bool :=
  let a := nth i scores NegInf in let b := nth j scores NegInf in
  if bool_decide (a = b) then (i <=? j)%nat else score_le b a.

#[local] Instance list_index_ops : IndexOps := {
  scatter base index source := foldr (fun p b => <[p.1 := p.2]> b) base (rev (zip index source));
  searchsorted keys x right := length (filter (fun k => (if right then k <=? x else k <? x) = true) keys);
  select_topk _ scores count := take count (sorted_by (score_before scores) (seq 0 (length scores))) }.

(** * The groups of a packed row

    Which groups [compress] finds, in which order, and how [key_range] cuts them
    for a query. *)

(** A row of sequences one after the other, as the model builds it: tokens that
    are not live have sequence -1, sequences are in order, and the position of
    a live token counts back to the first of its sequence. *)
Record packed (live : list bool) (positions sequences : list Z) : Prop := {
  p_positions : length positions = length live;
  p_sequences : length sequences = length live;
  p_range : forall i, nth i live false = true -> 0 <= nth i sequences 0 < int64_max;
  p_dead : forall i, (i < length live)%nat -> nth i live false = false -> nth i sequences 0 < 0;
  p_order : forall i j, (i < j)%nat -> nth i live false = true -> nth j live false = true -> nth i sequences 0 <= nth j sequences 0;
  p_back : forall i, nth i live false = true -> 0 <= nth i positions 0 <= Z.of_nat i /\ forall k, Z.of_nat k <= nth i positions 0 ->
    nth (i - k) live false = true /\ nth (i - k) sequences 0 = nth i sequences 0 /\ nth (i - k) positions 0 = nth i positions 0 - Z.of_nat k;
  p_first : forall i j, (j < i)%nat -> nth i live false = true -> nth j live false = true -> nth j sequences 0 = nth i sequences 0 ->
    Z.of_nat i - nth i positions 0 <= Z.of_nat j }.

Section Packed.
Context (live : list bool) (positions sequences : list Z) (Hp : packed live positions sequences).
Context (ratio : nat) (Hr : (0 < ratio)%nat).
#[local] Notation n := (length live).
#[local] Notation alive i := (nth i live false = true).
#[local] Notation pos i := (nth i positions 0).
#[local] Notation sq i := (nth i sequences 0).
#[local] Notation complete i := (complete_at ratio live positions sequences i = true).

Lemma alive_lt i : alive i -> (i < n)%nat.
Proof. intros H. destruct (decide (i < n)%nat); [done|]. rewrite nth_overflow in H by lia. done. Qed.

(** Between two live tokens of a sequence, all are, and positions count them. *)
Lemma between i j : (i <= j)%nat -> alive i -> alive j -> sq i = sq j ->
  pos j - pos i = Z.of_nat j - Z.of_nat i /\ forall k, (i <= k <= j)%nat -> alive k /\ sq k = sq j /\ pos k = pos j - (Z.of_nat j - Z.of_nat k).
Proof.
  intros Hij Hi Hj Hs. destruct (decide (i = j)) as [->|Hne].
  { split; [lia|]. intros k Hk. assert (k = j) as -> by lia. split; [done|]. split; [done|lia]. }
  pose proof (p_first _ _ _ Hp j i ltac:(lia) Hj Hi Hs) as Hf. destruct (p_back _ _ _ Hp j Hj) as [Hb Hk].
  assert (forall k, (i <= k <= j)%nat -> alive k /\ sq k = sq j /\ pos k = pos j - (Z.of_nat j - Z.of_nat k)) as Hall.
  { intros k Hik. destruct (Hk (j - k)%nat) as (H1 & H2 & H3); [lia|]. replace (j - (j - k))%nat with k in * by lia. split; [done|]. split; [done|lia]. }
  split; [|done]. destruct (Hall i) as (_ & _ & E); [lia|]. lia.
Qed.

Lemma complete_spec i : complete i <-> alive i /\ (Z.of_nat ratio | pos i) /\ (i + ratio - 1 < n)%nat
  /\ alive (i + ratio - 1) /\ sq i = sq (i + ratio - 1)%nat.
Proof.
  unfold complete_at. rewrite !andb_true_iff, !Z.eqb_eq, Nat.ltb_lt, Z.mod_divide by lia. split.
  - intros [[[[H1 H2] H3] H4] H5]. rewrite Nat.min_l in H4, H5 by lia. done.
  - intros (H1 & H2 & H3 & H4 & H5). rewrite Nat.min_l by lia. done.
Qed.

(** All tokens of a group are live tokens of its sequence. *)
Lemma members_alive i k : complete i -> (k < ratio)%nat -> alive (i + k) /\ sq (i + k)%nat = sq i /\ pos (i + k)%nat = pos i + Z.of_nat k.
Proof.
  intros (H1 & _ & H3 & H4 & H5)%complete_spec Hk. destruct (between i (i + ratio - 1)) as [E Hall]; [lia|done|done|done|].
  destruct (Hall (i + k)%nat) as (Ha & Hs & Hpos); [lia|]. split; [done|]. split; [congruence|lia].
Qed.

(** Different groups do not overlap. *)
Lemma groups_apart i j : complete i -> complete j -> (i < j)%nat -> (i + ratio <= j)%nat.
Proof.
  intros Hi Hj Hlt. destruct (decide (i + ratio <= j)%nat) as [|Hno]; [done|]. exfalso.
  destruct (members_alive i (j - i)%nat Hi) as (_ & Hs & Hpos); [lia|]. replace (i + (j - i))%nat with j in * by lia.
  apply complete_spec in Hi as (_ & [a Ha] & _), Hj as (_ & [b Hb] & _). rewrite Ha, Hb in Hpos.
  rewrite Nat2Z.inj_sub in Hpos by lia. destruct (Z.le_gt_cases b a); nia.
Qed.

(** The groups between two of a sequence are groups too. *)
Lemma group_before j m : complete j -> 0 <= m -> m * Z.of_nat ratio <= pos j ->
  let i := (j - Z.to_nat (pos j - m * Z.of_nat ratio))%nat in complete i /\ sq i = sq j /\ pos i = m * Z.of_nat ratio /\ (i <= j)%nat.
Proof.
  intros Hj Hm Hle i. pose proof Hj as (H1 & [b Hb] & H3 & H4 & H5)%complete_spec. destruct (p_back _ _ _ Hp j H1) as [Hpb Hk].
  destruct (Hk (Z.to_nat (pos j - m * Z.of_nat ratio))) as (Ha & Hs & Hpos); [lia|]. fold i in Ha, Hs, Hpos.
  assert (pos i = m * Z.of_nat ratio) as Hpi by (rewrite Hpos; lia). split; [|split; [done|split; [done|unfold i; lia]]].
  destruct (decide (m = b)) as [->|Hne]; [assert (i = j) as -> by (unfold i; rewrite Hb; lia); done|].
  assert (m < b) by nia. destruct (Hk (Z.to_nat (pos j - m * Z.of_nat ratio) - (ratio - 1))%nat) as (Ha' & Hs' & _); [lia|].
  assert (i + ratio - 1 = j - (Z.to_nat (pos j - m * Z.of_nat ratio) - (ratio - 1)))%nat as E by (unfold i; nia).
  apply complete_spec. rewrite E. split; [done|]. split; [exists m; lia|]. split; [|split; [done|congruence]].
  apply alive_lt in H1. lia.
Qed.

(** ** The list of groups *)

Definition starts_of : list nat := filter (fun i => complete_at ratio live positions sequences i = true) (seq 0 n).
#[local] Notation C := starts_of.

Lemma elem_of_starts i : i ∈ C <-> complete i.
Proof.
  unfold starts_of. rewrite list_elem_of_filter, list_elem_of_In, in_seq. split; [by intros [? _]|]. intros H. split; [done|].
  apply complete_spec in H as (Ha & _). apply alive_lt in Ha. lia.
Qed.

Lemma starts_sorted : StronglySorted lt C.
Proof.
  unfold starts_of. generalize 0%nat as m. induction n as [|k IH]; intros m; [constructor|]. cbn [seq]. rewrite filter_cons.
  case_decide; [|apply IH]. constructor; [apply IH|]. apply Forall_forall. intros j [_ Hj]%list_elem_of_filter.
  apply list_elem_of_In, in_seq in Hj. lia.
Qed.

Lemma starts_lookup_lt a b i j : C !! a = Some i -> C !! b = Some j -> (a < b)%nat -> (i < j)%nat.
Proof.
  pose proof starts_sorted as Hs. revert a b. induction Hs as [|x l Hs IH Hx]; intros a b; [by rewrite lookup_nil|].
  destruct a as [|a], b as [|b]; cbn; intros Ha Hb Hab; try lia.
  - injection Ha as ->. rewrite Forall_forall in Hx. apply Hx. by eapply list_elem_of_lookup_2.
  - eapply IH; [done|done|lia].
Qed.

(** The groups fit the room made for them. *)
Lemma starts_room a i : C !! a = Some i -> (a * ratio <= i)%nat.
Proof.
  revert i. induction a as [|a IH]; intros i Hi; [lia|]. destruct (lookup_lt_is_Some_2 C a) as [j Hj]; [apply lookup_lt_Some in Hi; lia|].
  specialize (IH j Hj). pose proof (starts_lookup_lt a (S a) j i Hj Hi ltac:(lia)) as Hlt.
  pose proof (groups_apart j i) as Hap. rewrite <- !elem_of_starts in Hap.
  specialize (Hap ltac:(by eapply list_elem_of_lookup_2) ltac:(by eapply list_elem_of_lookup_2) Hlt). lia.
Qed.

Lemma starts_count : (length C <= n / ratio)%nat.
Proof.
  apply Nat.div_le_lower_bound; [lia|]. destruct (decide (length C = 0%nat)) as [->|Hne]; [lia|].
  destruct (lookup_lt_is_Some_2 C (length C - 1)) as [i Hi]; [lia|]. pose proof (starts_room _ i Hi) as Hroom.
  assert (complete i) as (_ & _ & Hlt & _)%complete_spec by (apply elem_of_starts; by eapply list_elem_of_lookup_2). nia.
Qed.

(** The groups of a sequence, in order, start at multiples of the ratio. *)
Lemma starts_position a b i j : C !! a = Some i -> C !! (a + b)%nat = Some j -> sq i = sq j ->
  pos j = pos i + Z.of_nat b * Z.of_nat ratio.
Proof.
  revert j. induction b as [|b IH]; intros j Hi Hj Hs.
  { rewrite Nat.add_0_r in Hj. rewrite Hi in Hj. injection Hj as ->. lia. }
  destruct (lookup_lt_is_Some_2 C (a + b)%nat) as [k Hk]; [apply lookup_lt_Some in Hj; lia|].
  pose proof (starts_lookup_lt _ _ _ _ Hk Hj ltac:(lia)) as Hkj.
  assert (complete i /\ complete j /\ complete k) as (Hci & Hcj & Hck) by (rewrite <- !elem_of_starts; repeat split; by eapply list_elem_of_lookup_2).
  assert (i <= k)%nat as Hik.
  { destruct b; [rewrite Nat.add_0_r in Hk; rewrite Hi in Hk; injection Hk as ->; lia|].
    pose proof (starts_lookup_lt a _ i k Hi Hk ltac:(lia)). lia. }
  pose proof Hci as (Hai & _)%complete_spec. pose proof Hcj as (Haj & [bj Hbj] & _)%complete_spec. pose proof Hck as (Hak & [bk Hbk] & _)%complete_spec.
  destruct (between i j) as [Eij Hall]; [lia|done|done|done|]. destruct (Hall k) as (_ & Hsk & Hpk); [lia|].
  rewrite (IH k Hi Hk) in Hpk by congruence. destruct (p_back _ _ _ Hp k Hak) as [Hk0 _].
  pose proof (groups_apart k j Hck Hcj Hkj) as Hap.
  destruct (decide (pos j = pos i + Z.of_nat (S b) * Z.of_nat ratio)) as [|Hne]; [done|]. exfalso.
  rewrite (IH k Hi Hk) in Hbk by congruence.
  assert (pos j - (bk + 1) * Z.of_nat ratio = Z.of_nat j - Z.of_nat k - Z.of_nat ratio) as Ediff by (rewrite Z.mul_add_distr_r; lia).
  assert (Z.of_nat j - Z.of_nat k - Z.of_nat ratio <> 0) as Hnz by (intros E0; apply Hne; rewrite Nat2Z.inj_succ, Z.mul_succ_l; lia).
  assert (0 <= bk) as Hbk0 by (pose proof (p_back _ _ _ Hp i Hai); nia).
  destruct (group_before j (bk + 1) Hcj) as (Hc & _ & Hpg & Hle); [lia|lia|]. rewrite Ediff in *. set (g := (j - _)%nat) in *.
  assert (g ∈ C) as [c Hg]%list_elem_of_lookup by (by apply elem_of_starts).
  assert (Z.of_nat k < Z.of_nat g < Z.of_nat j) as Hkg by (unfold g in *; lia).
  destruct (decide (c <= a + b)%nat) as [Hc1|Hc1].
  - destruct (decide (c = (a + b)%nat)) as [->|]; [rewrite Hk in Hg; injection Hg as Eg; lia|].
    pose proof (starts_lookup_lt c (a + b) g k Hg Hk ltac:(lia)). lia.
  - destruct (decide (c = (a + S b)%nat)) as [->|]; [rewrite Hj in Hg; injection Hg as Eg; lia|].
    pose proof (starts_lookup_lt (a + S b) c j g Hj Hg ltac:(lia)). lia.
Qed.

(** The first group of a sequence starts it. *)
Lemma starts_first a i : C !! a = Some i -> (forall b j, (b < a)%nat -> C !! b = Some j -> sq j <> sq i) -> pos i = 0.
Proof.
  intros Hi Hfirst. assert (complete i) as Hci by (apply elem_of_starts; by eapply list_elem_of_lookup_2).
  pose proof Hci as (Hai & _)%complete_spec. destruct (p_back _ _ _ Hp i Hai) as [Hb _].
  destruct (decide (pos i = 0)) as [|Hne]; [done|]. exfalso.
  destruct (group_before i 0 Hci) as (Hc & Hs & Hpg & Hle); [lia|lia|]. set (g := (i - _)%nat) in *.
  assert (g ∈ C) as [c Hg]%list_elem_of_lookup by (by apply elem_of_starts).
  assert (g < i)%nat as Hlt by (unfold g in *; lia). destruct (decide (c < a)%nat) as [Hca|Hca]; [by apply (Hfirst c g Hca Hg)|].
  destruct (decide (c = a)) as [->|]; [rewrite Hi in Hg; injection Hg as E; lia|]. pose proof (starts_lookup_lt a c i g Hi Hg ltac:(lia)). lia.
Qed.

(** ** What [compress] returns *)

Section Compress.
Context `{TensorLaws} `{IndexLaws}.
#[local] Notation complete_list := (map (complete_at ratio live positions sequences) (seq 0 n)).
#[local] Notation destinations :=
  (zip_with (fun (c : bool) (d : nat) => if c then (d - 1)%nat else n) complete_list (cumsum (map Nat.b2n complete_list))).

Lemma count_prefix k : (k <= n)%nat -> sum_list (take k (map Nat.b2n complete_list))
  = length (filter (fun i => complete_at ratio live positions sequences i = true) (seq 0 k)).
Proof.
  intros Hk. induction k as [|k IH]; [done|]. rewrite seq_S, filter_app, length_app, <- IH by lia.
  assert (map Nat.b2n complete_list !! k = Some (Nat.b2n (complete_at ratio live positions sequences k))) as Hlk
    by (rewrite !list_lookup_fmap, lookup_seq_lt by lia; done).
  rewrite (take_S_r _ _ _ Hlk), sum_list_with_app. f_equal. rewrite filter_cons. cbn [plus].
  destruct (complete_at ratio live positions sequences k); [by rewrite decide_True|by rewrite decide_False].
Qed.

(** A group's number counts the groups before it. *)
Lemma starts_index a i : C !! a = Some i -> length (filter (fun i => complete_at ratio live positions sequences i = true) (seq 0 i)) = a.
Proof.
  intros Hi. assert (complete i) as Hc by (apply elem_of_starts; by eapply list_elem_of_lookup_2).
  assert (i < n)%nat as Hlt by (apply complete_spec in Hc as (Ha & _); by apply alive_lt).
  set (F := filter _ (seq 0 i)).
  assert (C = F ++ i :: filter (fun i => complete_at ratio live positions sequences i = true) (seq (S i) (n - S i))) as HC.
  { unfold starts_of. replace (seq 0 n) with (seq 0 i ++ seq i (n - i)) by (rewrite <- seq_app; f_equal; lia).
    rewrite filter_app. f_equal. replace (n - i)%nat with (S (n - S i)) by lia. cbn [seq]. by rewrite filter_cons, decide_True. }
  apply (NoDup_lookup C (length F) a i); [apply sorted_lt_nodup, starts_sorted| |done].
  rewrite HC. by rewrite list_lookup_middle.
Qed.

Lemma cumsum_lookup i : (i < n)%nat -> cumsum (map Nat.b2n complete_list) !! i
  = Some (length (filter (fun i => complete_at ratio live positions sequences i = true) (seq 0 (S i)))).
Proof.
  intros Hi. rewrite cumsum_law, list_lookup_fmap, !length_map, length_seq, lookup_seq_lt by done. cbn [fmap option_fmap option_map plus].
  by rewrite count_prefix.
Qed.

Lemma destination_lookup i : (i < n)%nat -> destinations !! i = Some (if complete_at ratio live positions sequences i
  then length (filter (fun i => complete_at ratio live positions sequences i = true) (seq 0 i)) else n).
Proof.
  intros Hi. rewrite lookup_zip_with, list_lookup_fmap, lookup_seq_lt, cumsum_lookup by done. cbn [fmap option_fmap option_map mbind option_bind plus].
  destruct (complete_at ratio live positions sequences i) eqn:E; [|done]. rewrite seq_S, filter_app, length_app, filter_cons, decide_True by done.
  cbn. f_equal. lia.
Qed.

Lemma destinations_length : length destinations = n.
Proof.
  rewrite length_zip_with, cumsum_law, !length_map, !length_seq. lia.
Qed.

#[local] Notation order := (scatter (replicate (n + 1) 0%nat) destinations (seq 0 n)).

Lemma order_lookup a i : C !! a = Some i -> order !! a = Some i.
Proof.
  intros Hi. assert (complete i) as Hc by (apply elem_of_starts; by eapply list_elem_of_lookup_2).
  assert (i < n)%nat as Hlt by (apply complete_spec in Hc as (Ha & _); by apply alive_lt).
  pose proof (lookup_lt_Some _ _ _ Hi) as Ha. pose proof starts_count as Hcount.
  assert (a < n)%nat as Han by (pose proof (Nat.Div0.div_le_upper_bound n ratio n ltac:(nia)); lia).
  apply (scatter_law _ _ _ i).
  - by rewrite destinations_length, length_seq.
  - rewrite destination_lookup, Hc by done. f_equal. by apply starts_index.
  - by rewrite lookup_seq_lt.
  - intros k' Hk'. pose proof (lookup_lt_Some _ _ _ Hk') as Hlk. rewrite destinations_length in Hlk. rewrite destination_lookup in Hk' by done.
    destruct (complete_at ratio live positions sequences k') eqn:E; [|injection Hk' as ?; lia].
    assert (k' ∈ C) as [b Hb]%list_elem_of_lookup by (by apply elem_of_starts). pose proof (starts_index b k' Hb) as Eb.
    injection Hk' as Ek. assert (b = a) as -> by congruence. rewrite Hi in Hb. by injection Hb.
  - rewrite length_replicate. lia.
Qed.

Lemma order_other a : (length C <= a < n)%nat -> order !! a = Some 0%nat.
Proof.
  intros Ha. rewrite scatter_other; [by apply lookup_replicate_2; lia|]. intros (i & Hi)%list_elem_of_lookup.
  pose proof (lookup_lt_Some _ _ _ Hi) as Hl. rewrite destinations_length in Hl. rewrite destination_lookup in Hi by done.
  destruct (complete_at ratio live positions sequences i) eqn:E; [|injection Hi as ?; lia].
  assert (i ∈ C) as [b Hb]%list_elem_of_lookup by (by apply elem_of_starts). pose proof (starts_index b i Hb) as Eb.
  pose proof (lookup_lt_Some _ _ _ Hb). injection Hi as Ek. lia.
Qed.

#[local] Notation G := (compress ratio live positions sequences).

Lemma room_le : (n / ratio <= n)%nat.
Proof. apply Nat.Div0.div_le_upper_bound. nia. Qed.

Lemma compress_starts a : (a < n / ratio)%nat -> group_starts G !! a = Some (default 0%nat (C !! a)).
Proof.
  intros Ha. cbn [compress group_starts]. rewrite lookup_take_lt by done. pose proof room_le. destruct (C !! a) as [i|] eqn:E.
  - by apply order_lookup.
  - apply order_other. apply lookup_ge_None in E. lia.
Qed.

Lemma starts_length : length (group_starts G) = (n / ratio)%nat.
Proof. cbn. rewrite length_take, scatter_length, length_replicate. pose proof room_le. lia. Qed.

Lemma starts_in_range : Forall (fun k => (k < n)%nat) (group_starts G).
Proof.
  apply Forall_lookup. intros a s Ha. pose proof (lookup_lt_Some _ _ _ Ha) as Hl. rewrite starts_length in Hl. rewrite compress_starts in Ha by done.
  injection Ha as <-. destruct (C !! a) as [i|] eqn:E; cbn; [|pose proof room_le; lia].
  assert (complete i) as (Hal & _)%complete_spec by (apply elem_of_starts; by eapply list_elem_of_lookup_2). by apply alive_lt.
Qed.

Lemma complete_count : length (filter (fun c => c = true) complete_list) = length C.
Proof.
  unfold starts_of. induction (seq 0 n) as [|i l IH]; [done|]. cbn [map]. rewrite !filter_cons.
  destruct (complete_at ratio live positions sequences i); [rewrite !decide_True by done; cbn; by f_equal|by rewrite !decide_False].
Qed.

Lemma valid_lookup a : (a < n / ratio)%nat -> group_valid G !! a = Some (a <? length C)%nat.
Proof. intros Ha. cbn [compress group_valid]. rewrite complete_count, list_lookup_fmap, lookup_seq_lt by done. done. Qed.

Lemma ids_spec : group_sequence_ids G = map (fun i => sq i) C ++ replicate (n / ratio - length C) (-1).
Proof.
  pose proof starts_count as Hc. apply list_eq. intros a. change (group_sequence_ids G)
    with (zip_with (fun (v : bool) s => if v then s else -1) (group_valid G) (index_select sequences (group_starts G))).
  rewrite lookup_zip_with. assert (Forall (fun k => (k < length sequences)%nat) (group_starts G)) as Hin
    by (rewrite (p_sequences _ _ _ Hp); apply starts_in_range).
  destruct (decide (a < n / ratio)%nat) as [Ha|Ha].
  - rewrite valid_lookup, index_select_lookup, compress_starts by done. cbn [mbind option_bind].
    destruct (C !! a) as [i|] eqn:E; cbn [default from_option].
    + pose proof (lookup_lt_Some _ _ _ E) as Hl. replace (a <? length C)%nat with true by (symmetry; by apply Nat.ltb_lt).
      rewrite lookup_app_l, list_lookup_fmap, E by (by rewrite length_map). cbn.
      assert (i < length sequences)%nat as Hi by (rewrite Forall_forall in Hin; apply Hin; eapply (list_elem_of_lookup_2 _ a); by rewrite compress_starts, E).
      destruct (nth_lookup_or_length sequences i 0) as [->|?]; [done|lia].
    + apply lookup_ge_None in E. replace (a <? length C)%nat with false by (symmetry; by apply Nat.ltb_ge).
      rewrite lookup_app_r, length_map, lookup_replicate_2 by (rewrite ?length_map; lia).
      destruct (lookup_lt_is_Some_2 sequences 0) as [x ->]; [|done].
      rewrite (p_sequences _ _ _ Hp). pose proof room_le. lia.
  - rewrite (lookup_ge_None_2 (_ ++ _)) by (rewrite length_app, length_map, length_replicate; lia).
    rewrite (lookup_ge_None_2 (group_valid G)); [done|]. cbn. rewrite length_map, length_seq. lia.
Qed.
End Compress.
End Packed.

(** * Compressed attention: what a query attends to *)

From S2P Require ContextParallel.
Local Open Scope Z_scope.

(** ** Counting in a sorted list *)

Lemma sorted_count_lt keys x a k : StronglySorted Z.le keys -> keys !! a = Some k ->
  (a < length (filter (fun k => (k < x)%Z) keys))%nat <-> k < x.
Proof.
  intros Hs. revert a. induction Hs as [|y l Hs IH Hy]; intros a Ha; [done|]. rewrite Forall_forall in Hy. rewrite filter_cons.
  destruct a as [|a]; cbn in Ha.
  - injection Ha as ->. case_decide; cbn [length]; [split; [done|lia]|].
    assert (filter (fun k => k < x) l = []) as ->; [|cbn; lia].
    apply elem_of_nil_inv. intros z [Hz Hin]%list_elem_of_filter. specialize (Hy z Hin). lia.
  - specialize (IH a Ha). pose proof (Hy k ltac:(by eapply list_elem_of_lookup_2)). case_decide; cbn [length]; [rewrite <- IH; lia|].
    split; [|lia]. intros Hlt. assert (filter (fun k => k < x) l = []) as E; [|rewrite E in Hlt; cbn in Hlt; lia].
    apply elem_of_nil_inv. intros z [Hz Hin]%list_elem_of_filter. specialize (Hy z Hin). lia.
Qed.

Lemma sorted_count_le keys x a k : StronglySorted Z.le keys -> keys !! a = Some k ->
  (a < length (filter (fun k => (k <= x)%Z) keys))%nat <-> k <= x.
Proof.
  intros Hs Ha. rewrite (filter_in_ext (fun k => k <= x) (fun k => k < x + 1)) by (apply Forall_forall; intros; lia).
  rewrite (sorted_count_lt _ _ _ _ Hs Ha). lia.
Qed.

Section Row.
Context `{TensorLaws} `{IndexLaws}.
Context (live : list bool) (positions sequences : list Z) (Hp : packed live positions sequences).
#[local] Notation n := (length live).
#[local] Notation alive i := (nth i live false = true).
#[local] Notation pos i := (nth i positions 0).
#[local] Notation sq i := (nth i sequences 0).

Section Ratio.
Context (ratio : nat) (Hr : (0 < ratio)%nat).
#[local] Notation C := (starts_of live positions sequences ratio).
#[local] Notation G := (compress ratio live positions sequences).

Lemma start_alive a i : C !! a = Some i -> complete_at ratio live positions sequences i = true /\ alive i.
Proof.
  intros Ha. assert (complete_at ratio live positions sequences i = true) as Hc
    by (apply (elem_of_starts live positions sequences ratio Hr); by eapply list_elem_of_lookup_2).
  split; [done|]. by apply (complete_spec live positions sequences ratio Hr) in Hc as (? & _).
Qed.

Lemma searchable_ids : searchable (group_sequence_ids G) = map (fun i => sq i) C ++ replicate (n / ratio - length C) int64_max.
Proof.
  rewrite (ids_spec live positions sequences Hp ratio Hr). unfold searchable. rewrite map_app, map_map. f_equal.
  - apply map_ext_in. intros i Hi%list_elem_of_In%list_elem_of_lookup. destruct Hi as [a Ha]. apply start_alive in Ha as [_ Ha].
    pose proof (p_range _ _ _ Hp i Ha). by replace (sq i <? 0) with false by lia.
  - induction (n / ratio - length C)%nat as [|k IH]; [done|]. cbn. by rewrite IH.
Qed.

Lemma searchable_sorted : StronglySorted Z.le (searchable (group_sequence_ids G)).
Proof.
  rewrite searchable_ids. apply StronglySorted_app_2.
  - intros x y (i & -> & Hi)%list_elem_of_fmap [-> _]%elem_of_replicate. apply list_elem_of_lookup in Hi as [a Ha].
    apply start_alive in Ha as [_ Ha]. pose proof (p_range _ _ _ Hp i Ha). lia.
  - pose proof (starts_sorted live positions sequences ratio Hr) as Hs.
    assert (Forall (fun i => alive i) C) as Hall by (apply Forall_lookup; intros a i Ha; by apply start_alive in Ha as [_ ?]).
    induction Hs as [|i l Hs IH Hi]; [apply SSorted_nil|]. apply Forall_cons in Hall as [Hai Hall]. apply SSorted_cons; [by apply IH|].
    apply Forall_fmap. rewrite Forall_forall in *. intros j Hj. cbn. apply (p_order _ _ _ Hp); [by apply Hi|done|by apply Hall].
  - induction (n / ratio - length C)%nat as [|k IH]; [apply SSorted_nil|]. apply SSorted_cons; [done|]. apply Forall_replicate. lia.
Qed.

(** The entries a query may see: the groups of its sequence that end at its
    position or before. *)
Lemma visible_spec p s a : 0 <= s < int64_max ->
  ((key_range ratio (group_sequence_ids G) p s).1.1 <= a < (key_range ratio (group_sequence_ids G) p s).2)%nat <->
  exists i, C !! a = Some i /\ sq i = s /\ pos i + Z.of_nat ratio - 1 <= p.
Proof.
  intros Hs. unfold key_range. cbn [fst snd]. set (keys := searchable (group_sequence_ids G)).
  destruct (searchsorted_law keys s searchable_sorted) as [-> ->].
  set (first := length (filter (fun k => k < s) keys)). set (last := length (filter (fun k => k <= s) keys)).
  set (visible := Z.to_nat ((p + 1) / Z.of_nat ratio)).
  assert (forall b, (b < last)%nat -> exists i, C !! b = Some i /\ keys !! b = Some (sq i) /\ ((first <= b)%nat <-> sq i = s) /\ sq i <= s) as Hkeys.
  { intros b Hb. assert (b < length keys)%nat as Hbl by (unfold last in Hb; pose proof (length_filter (fun k => k <= s) keys); lia).
    destruct (lookup_lt_is_Some_2 keys b Hbl) as [k Hk]. pose proof (sorted_count_le keys s b k searchable_sorted Hk) as Hle.
    pose proof (sorted_count_lt keys s b k searchable_sorted Hk) as Hlt. fold last in Hle. fold first in Hlt.
    assert (k <= s) as Hks by tauto. unfold keys in Hk. rewrite searchable_ids in Hk.
    destruct (C !! b) as [i|] eqn:E.
    - rewrite lookup_app_l, list_lookup_fmap, E in Hk by (rewrite length_map; by eapply lookup_lt_Some). injection Hk as <-.
      exists i. split; [done|]. unfold keys. rewrite searchable_ids, lookup_app_l, list_lookup_fmap, E by (rewrite length_map; by eapply lookup_lt_Some).
      split; [done|]. split; [|done]. lia.
    - apply lookup_ge_None in E. rewrite lookup_app_r, length_map in Hk by (by rewrite length_map). apply lookup_replicate in Hk as [-> _]. lia. }
  assert (forall b i, C !! b = Some i -> (b < last)%nat <-> sq i <= s) as Hlast.
  { intros b i Hb. apply sorted_count_le; [apply searchable_sorted|]. unfold keys. rewrite searchable_ids, lookup_app_l, list_lookup_fmap, Hb;
      [done|rewrite length_map; by eapply lookup_lt_Some]. }
  assert (forall b i, (first <= b)%nat -> C !! b = Some i -> sq i = s -> pos i = Z.of_nat (b - first) * Z.of_nat ratio) as Hpos.
  { intros b i Hfb Hb Hsi. assert (b < last)%nat as Hbl by (apply (Hlast b i Hb); lia).
    destruct (Hkeys first ltac:(lia)) as (i0 & Hi0 & _ & Hs0 & _). assert (sq i0 = s) as Hsq0 by (apply Hs0; lia).
    rewrite (starts_position live positions sequences Hp ratio Hr first (b - first) i0 i Hi0) by (replace (first + (b - first))%nat with b by lia; congruence || done).
    rewrite (starts_first live positions sequences Hp ratio Hr first i0 Hi0); [lia|]. intros c j Hc Hj.
    assert (c < last)%nat as Hcl by lia. destruct (Hkeys c Hcl) as (j' & Hj' & _ & Hsj & _). rewrite Hj in Hj'. injection Hj' as <-. lia. }
  assert (forall m, (m < visible)%nat <-> Z.of_nat m * Z.of_nat ratio + Z.of_nat ratio - 1 <= p) as Hvis.
  { intros m. unfold visible. pose proof (Z.div_mod (p + 1) (Z.of_nat ratio) ltac:(lia)). pose proof (Z.mod_pos_bound (p + 1) (Z.of_nat ratio) ltac:(lia)).
    split; intros; nia. }
  replace (0 <=? s) with true by lia. cbn [andb]. split.
  - intros [Hf Ha]. assert (a < Nat.min last (first + visible))%nat as Hmin by (destruct (Nat.ltb_spec first (Nat.min last (first + visible))); lia).
    destruct (Hkeys a) as (i & Hi & _ & Hsi & _); [lia|]. assert (sq i = s) as Hsq by (apply Hsi; lia). exists i. split; [done|]. split; [done|].
    rewrite (Hpos a i Hf Hi Hsq). apply Hvis. lia.
  - intros (i & Hi & Hsi & Hpi). assert (a < last)%nat as Hal by (apply (Hlast a i Hi); lia).
    destruct (Hkeys a Hal) as (i' & Hi' & _ & Hfirst & _). rewrite Hi in Hi'. injection Hi' as <-. assert (first <= a)%nat as Hfa by (by apply Hfirst).
    rewrite (Hpos a i Hfa Hi Hsi) in Hpi. apply Hvis in Hpi. destruct (Nat.ltb_spec first (Nat.min last (first + visible))); lia.
Qed.

(** A token that is not live sees nothing. *)
Lemma dead_range p s : s < 0 -> let r := key_range ratio (group_sequence_ids G) p s in r.2 = r.1.1.
Proof. intros Hs. cbn. by replace (0 <=? s) with false by lia. Qed.

(** ** The entries that are picked *)

(** An index is none, or a group of the query's own sequence all of whose tokens
    come no later than the query. *)
Definition causal_index (i : nat) (k : Z) : Prop :=
  k = -1 \/ exists a start, k = Z.of_nat a /\ group_starts G !! a = Some start /\ group_valid G !! a = Some true
    /\ forall j, (j < ratio)%nat -> alive (start + j) /\ sq (start + j)%nat = sq i /\ (start + j <= i)%nat.

Lemma score_row_lookup sc first stop width c o x : score_row sc first stop width c !! o = Some x -> x <> NegInf -> (first + o < stop)%nat.
Proof.
  unfold score_row. rewrite list_lookup_fmap. intros (o' & Ho & ->)%fmap_Some. apply lookup_seq in Ho as [-> _]. cbn [plus].
  destruct (Nat.ltb_spec (first + o) stop); [done|]. cbn. done.
Qed.

Lemma picked_elem stable count first row k : k ∈ picked_indices stable count first row ->
  k = -1 \/ exists o x, k = Z.of_nat (first + o) /\ row !! o = Some x /\ x <> NegInf.
Proof.
  unfold picked_indices. intros (o & -> & _)%list_elem_of_fmap. destruct (row !! o) as [[|x|]|] eqn:E; [by left| | |by left];
    right; exists o; eexists; (split; [done|]); split; [exact E|done|exact E|done].
Qed.

Lemma picked_causal i sc width c stable count : (i < n)%nat ->
  let r := key_range ratio (group_sequence_ids G) (pos i) (sq i) in
  Forall (causal_index i) (picked_indices stable count r.1.1 (score_row sc r.1.1 r.2 width c)).
Proof.
  intros Hi r. apply Forall_forall. intros k Hk. apply picked_elem in Hk as [->|(o & x & -> & Hx & Hne)]; [by left|]. right.
  pose proof (score_row_lookup _ _ _ _ _ _ _ Hx Hne) as Hlt.
  destruct (nth i live false) eqn:Hlive.
  - pose proof (p_range _ _ _ Hp i Hlive) as Hs. destruct (visible_spec (pos i) (sq i) (r.1.1 + o) Hs) as [Hv _].
    destruct Hv as (st & Hst & Hsq & Hle); [fold r; lia|]. destruct (start_alive _ _ Hst) as [Hc Ha].
    pose proof (lookup_lt_Some _ _ _ Hst) as Hcl. pose proof (starts_count live positions sequences Hp ratio Hr) as Hcount.
    exists (r.1.1 + o)%nat, st. split; [done|]. split; [|split].
    + rewrite (compress_starts live positions sequences Hp ratio Hr) by lia. by rewrite Hst.
    + rewrite (valid_lookup live positions sequences ratio) by lia. f_equal. by apply Nat.ltb_lt.
    + intros j Hj. destruct (members_alive live positions sequences Hp ratio Hr st j Hc Hj) as (Haj & Hsj & Hpj). split; [done|].
      split; [congruence|]. destruct (decide (st + j <= i)%nat) as [|Hno]; [done|]. exfalso.
      destruct (between live positions sequences Hp ratio Hr i (st + j)%nat) as [E _]; [lia|done|done|congruence|]. lia.
  - pose proof (dead_range (pos i) (sq i) (p_dead _ _ _ Hp i Hi Hlive)) as Hd. fold r in Hd. cbn zeta in Hd. lia.
Qed.
End Ratio.

(** ** Layers *)

Context (Q : list nat) (HQ : Forall (fun i => (i < n)%nat) Q).
#[local] Notation queries := (map (fun i => (pos i, sq i)) Q).

Definition causal_rows (ratio : nat) (t : list (list Z)) : Prop := Forall2 (fun i row => Forall (causal_index ratio i) row) Q t.

(** What the shadow holds, for the ratio of the last compressor. *)
Definition shadow_ok (ratio : nat) (s : shadow) : Prop :=
  match compressed_sequence_ids s with
  | None => compressed_kv s = None /\ topk_indices s = None
  | Some ids => (0 < ratio)%nat /\ ids = group_sequence_ids (compress ratio live positions sequences)
      /\ (forall g, compressed_kv s = Some g -> g = compress ratio live positions sequences)
      /\ (forall t, topk_indices s = Some t -> causal_rows ratio t)
  end.

Lemma run_indexer_ok x ratio sc latent s : shadow_ok ratio s -> shadow_ok ratio (run_indexer x ratio sc latent queries s)
  /\ compressed_kv (run_indexer x ratio sc latent queries s) = compressed_kv s
  /\ compressed_sequence_ids (run_indexer x ratio sc latent queries s) = compressed_sequence_ids s.
Proof.
  intros Hok. unfold run_indexer. set (keys := if owns_keys x then latent else index_keys s).
  destruct (compressed_sequence_ids s) as [ids|] eqn:Eids.
  - unfold shadow_ok in Hok. rewrite ?Eids in Hok. destruct Hok as (Hr & -> & Hkv & Ht).
    destruct keys as [k|]; [|split; [|done]; unfold shadow_ok; cbn; rewrite ?Eids; done].
    split; [|done]. unfold shadow_ok. cbn [compressed_sequence_ids compressed_kv topk_indices]. rewrite ?Eids. split; [done|]. split; [done|]. split; [done|].
    intros t [= <-]. unfold causal_rows. apply Forall2_same_length_lookup. split.
    + rewrite length_zip_with, length_imap, !length_map. lia.
    + intros q i row Hq Hrow. rewrite lookup_zip_with, list_lookup_imap, !list_lookup_fmap, Hq in Hrow. cbn in Hrow. injection Hrow as <-.
      apply (picked_causal ratio Hr). rewrite Forall_forall in HQ. apply HQ. by eapply list_elem_of_lookup_2.
  - unfold shadow_ok in *. rewrite ?Eids in Hok. destruct keys as [k|]; cbn; rewrite ?Eids; by destruct Hok.
Qed.

(** Layers of which each uses the ratio of the compressor before it. *)
Fixpoint aligned (current : nat) (ls : list layer) : Prop :=
  match ls with
  | [] => True
  | l :: ls => if (ratio l =? 0)%nat then aligned current ls
      else if compressor l then aligned (ratio l) ls else ratio l = current /\ aligned current ls
  end.

Lemma run_layer_ok l ls current s : aligned current (l :: ls) -> shadow_ok current s ->
  exists current', aligned current' ls /\ shadow_ok current' (run_layer l live positions sequences queries s).2
    /\ forall g t, (run_layer l live positions sequences queries s).1 = Some (g, t) ->
         (0 < ratio l)%nat /\ g = compress (ratio l) live positions sequences /\ causal_rows (ratio l) t.
Proof.
  intros Hal Hok. cbn [aligned] in Hal. unfold run_layer. destruct (Nat.eqb_spec (ratio l) 0) as [|Hr].
  { exists current. split; [done|]. split; [done|]. done. }
  unfold run_compressor. set (G := compress (ratio l) live positions sequences).
  assert (exists s1 latent, (if compressor l then (if (n / ratio l =? 0)%nat then None else Some G,
      {| compressed_sequence_ids := Some (group_sequence_ids G); compressed_kv := None; index_keys := None; topk_indices := None; candidates := None |})
      else (None, s)) = (latent, s1) /\ shadow_ok (ratio l) s1 /\ (forall g, latent = Some g -> g = G /\ compressed_sequence_ids s1 <> None) /\ aligned (ratio l) ls)
    as (s1 & latent & -> & Hs1 & Hlat & Hal1).
  { destruct (compressor l).
    - eexists _, _. split; [reflexivity|]. split; [|split; [|done]].
      + unfold shadow_ok. cbn. split; [lia|]. split; [done|]. split; done.
      + intros g Hg. destruct (n / ratio l =? 0)%nat; [done|]. injection Hg as <-. by split.
    - destruct Hal as [-> Hal]. exists s, None. split; [done|]. split; [done|]. split; done. }
  cbv beta iota. set (s2 := match layer_indexer l with Some x => _ | None => s1 end).
  assert (shadow_ok (ratio l) s2 /\ compressed_sequence_ids s2 = compressed_sequence_ids s1) as [Hs2 Hids].
  { unfold s2. destruct (layer_indexer l) as [x|]; [|done]. destruct (run_indexer_ok x (ratio l) (layer_scores l) latent s1 Hs1) as (? & _ & ?). done. }
  set (s3 := match latent with Some g => _ | None => s2 end).
  assert (shadow_ok (ratio l) s3) as Hs3.
  { unfold s3. destruct latent as [g|]; [|done]. destruct (Hlat g eq_refl) as [-> Hne]. unfold shadow_ok in *. cbn.
    rewrite Hids in *. destruct (compressed_sequence_ids s1) as [ids|]; [|done]. destruct Hs2 as (H3 & H4 & _ & H6).
    split; [done|]. split; [done|]. split; [by intros g [= <-]|done]. }
  exists (ratio l). split; [done|]. split; [done|]. cbn [fst]. intros g t Hout. unfold shadow_ok in Hs3.
  destruct (compressed_kv s3) as [g'|] eqn:Ekv, (topk_indices s3) as [t'|] eqn:Et; try done. injection Hout as -> ->.
  destruct (compressed_sequence_ids s3) as [ids|]; [|by destruct Hs3]. destruct Hs3 as (H3 & _ & H5 & H6). split; [done|].
  split; [by apply H5|by apply H6].
Qed.

Lemma run_layers_ok ls : forall current s, aligned current ls -> shadow_ok current s ->
  forall k l g t, ls !! k = Some l -> run_layers ls live positions sequences queries s !! k = Some (Some (g, t)) ->
    (0 < ratio l)%nat /\ g = compress (ratio l) live positions sequences /\ causal_rows (ratio l) t.
Proof.
  induction ls as [|l ls IH]; intros current s Hal Hok k l' g t Hl Hout; [done|].
  destruct (run_layer_ok l ls current s Hal Hok) as (current' & Hal' & Hok' & Hg). cbn [run_layers] in Hout.
  destruct (run_layer l live positions sequences queries s) as [o s']. cbn [fst snd] in *.
  destruct k as [|k]; cbn in Hl, Hout; [|by eapply IH]. injection Hl as <-. injection Hout as ->. by apply Hg.
Qed.
End Row.

(** ** The positions that [ModelContext.build] computes *)

(** Sequences one after the other, -1 at tokens that are not live. *)
Record ordered_sequences (live : list bool) (sequences : list Z) : Prop := {
  o_length : length sequences = length live;
  o_range : forall i, nth i live false = true -> 0 <= nth i sequences 0 < int64_max;
  o_dead : forall i, (i < length live)%nat -> nth i live false = false -> nth i sequences 0 = -1;
  o_order : forall i j, (i < j)%nat -> nth i live false = true -> nth j live false = true -> nth i sequences 0 <= nth j sequences 0;
  o_whole : forall i j k, (i <= k <= j)%nat -> nth i live false = true -> nth j live false = true -> nth i sequences 0 = nth j sequences 0 ->
    nth k live false = true /\ nth k sequences 0 = nth j sequences 0 }.

Section Positions.
Context `{TensorLaws} (live : list bool) (sequences : list Z) (Ho : ordered_sequences live sequences).
#[local] Notation alive i := (nth i live false = true).
#[local] Notation sq i := (nth i sequences 0).

Lemma live_lt i : alive i -> (i < length live)%nat.
Proof. intros Hi. destruct (decide (i < length live)%nat); [done|]. rewrite nth_overflow in Hi by lia. done. Qed.

(** The first token of a token's run. *)
Lemma run_start i : alive i -> exists st, (st <= i)%nat /\ (forall k, (st <= k <= i)%nat -> alive k /\ sq k = sq i)
  /\ (st = 0%nat \/ exists p, st = S p /\ sq p <> sq st).
Proof.
  induction i as [|i IH]; intros Hi.
  { exists 0%nat. split; [done|]. split; [intros k Hk; assert (k = 0%nat) as -> by lia; done|by left]. }
  destruct (Z.eq_dec (sq i) (sq (S i))) as [E|E].
  - destruct (nth i live false) eqn:Hl.
    + destruct (IH eq_refl) as (st & Hle & Hall & Hst). exists st. split; [lia|]. split; [|done]. intros k Hk.
      destruct (decide (k = S i)) as [->|]; [done|]. rewrite <- E. apply Hall. lia.
    + pose proof (o_dead _ _ Ho i ltac:(pose proof (live_lt _ Hi); lia) Hl). pose proof (o_range _ _ Ho _ Hi). lia.
  - exists (S i). split; [done|]. split; [intros k Hk; assert (k = S i) as -> by lia; done|]. right. by exists i.
Qed.

Lemma starts_lookup i : alive i -> ContextParallel.starts live sequences !! i
  = Some (match i with O => true | S p => negb (sq i =? sq p) end).
Proof.
  intros Hi. pose proof (live_lt i Hi) as Hlt. unfold ContextParallel.starts. rewrite !lookup_zip_with.
  assert (forall (l : list Z) k, (k < length l)%nat -> l !! k = Some (nth k l 0)) as Hnth
    by (intros l k Hk; destruct (nth_lookup_or_length l k 0) as [?|?]; [done|lia]).
  assert (live !! i = Some true) as -> by (rewrite <- Hi; destruct (nth_lookup_or_length live i false) as [?|?]; [done|lia]).
  rewrite (Hnth sequences i) by (rewrite (o_length _ _ Ho); done). destruct i as [|p]; cbn [mbind option_bind].
  - cbn. f_equal. pose proof (o_range _ _ Ho 0%nat Hi). by replace (sq 0 =? -1) with false by lia.
  - change (((-1) :: removelast sequences) !! S p) with (removelast sequences !! p).
    rewrite removelast_firstn_len, lookup_take_lt, (Hnth sequences p) by (rewrite (o_length _ _ Ho); lia). done.
Qed.

Lemma start_of_live i : ContextParallel.starts live sequences !! i = Some true -> alive i.
Proof.
  unfold ContextParallel.starts. rewrite lookup_zip_with. destruct (live !! i) as [b|] eqn:E; [|done]. cbn.
  destruct (zip_with _ _ _ !! i); [|done]. cbn. intros [= Hb]. apply andb_true_iff in Hb as [-> _]. by apply nth_lookup_Some.
Qed.

Lemma starts_length_row : length (ContextParallel.starts live sequences) = length live.
Proof.
  unfold ContextParallel.starts. rewrite !length_zip_with. cbn [length]. rewrite removelast_firstn_len, length_take, (o_length _ _ Ho). lia.
Qed.

(** The position of a live token counts from the first token of its run. *)
Lemma position_lookup i st : alive i -> (st <= i)%nat -> (forall k, (st <= k <= i)%nat -> alive k /\ sq k = sq i) ->
  (st = 0%nat \/ exists p, st = S p /\ sq p <> sq st) -> nth i (ContextParallel.global_positions live sequences) 0 = Z.of_nat i - Z.of_nat st.
Proof.
  intros Hi Hle Hall Hst. pose proof (live_lt i Hi) as Hlt. unfold ContextParallel.global_positions.
  set (marks := zip_with (fun (s : bool) j => if s then j else 0) (ContextParallel.starts live sequences) (map Z.of_nat (seq 0 (length sequences)))).
  assert (length marks = length live) as Hml by (unfold marks; rewrite length_zip_with, starts_length_row, length_map, length_seq, (o_length _ _ Ho); lia).
  assert (forall k m, marks !! k = Some m -> m = match ContextParallel.starts live sequences !! k with Some true => Z.of_nat k | _ => 0 end) as Hmark.
  { intros k m Hk. unfold marks in Hk. rewrite lookup_zip_with in Hk. destruct (ContextParallel.starts live sequences !! k) as [b|]; [|done]. cbn in Hk.
    rewrite list_lookup_fmap in Hk. destruct (seq 0 (length sequences) !! k) as [k'|] eqn:Ek; [|done]. apply lookup_seq in Ek as [-> _].
    cbn in Hk. by destruct b; injection Hk as <-. }
  destruct (cummax_law marks) as [Hcl Hcm]. destruct (lookup_lt_is_Some_2 (cummax marks) i) as [m Hm]; [lia|].
  destruct (Hcm i m Hm) as [Hin Hmax]. rewrite Forall_forall in Hmax.
  assert (m = Z.of_nat st) as ->.
  { apply Z.le_antisymm.
    - apply list_elem_of_lookup in Hin as [k Hk]. apply lookup_take_Some in Hk as [Hk Hki]. rewrite (Hmark k m Hk).
      destruct (ContextParallel.starts live sequences !! k) as [[|]|] eqn:Es; [|lia|lia]. destruct (decide (k <= st)%nat); [lia|]. exfalso.
      destruct (Hall k ltac:(lia)) as [Hak Hsk]. rewrite (starts_lookup k Hak) in Es. destruct k as [|p]; [lia|].
      destruct (Hall p ltac:(lia)) as [_ Hsp]. rewrite Hsk, Hsp, Z.eqb_refl in Es. done.
    - destruct (lookup_lt_is_Some_2 marks st) as [x Hx]; [lia|]. apply Hmax. apply (list_elem_of_lookup_2 _ st).
      rewrite lookup_take_lt, Hx by lia. f_equal. rewrite (Hmark st x Hx). destruct (Hall st ltac:(lia)) as [Hast _].
      rewrite (starts_lookup st Hast). destruct Hst as [->|(p & -> & Hne)]; [done|]. by replace (sq (S p) =? sq p) with false by lia. }
  apply nth_lookup_Some. rewrite !lookup_zip_with, Hm, list_lookup_fmap, lookup_seq_lt by (rewrite (o_length _ _ Ho); done).
  assert (live !! i = Some true) as -> by (rewrite <- Hi; destruct (nth_lookup_or_length live i false) as [?|?]; [done|lia]). done.
Qed.

Lemma build_packed : packed live (ContextParallel.global_positions live sequences) sequences.
Proof.
  set (positions := ContextParallel.global_positions live sequences).
  assert (forall i, alive i -> exists st, (st <= i)%nat /\ nth i positions 0 = Z.of_nat i - Z.of_nat st
    /\ (forall k, (st <= k <= i)%nat -> alive k /\ sq k = sq i /\ nth k positions 0 = Z.of_nat k - Z.of_nat st)
    /\ (st = 0%nat \/ exists p, st = S p /\ sq p <> sq st)) as Hrun.
  { intros i Hi. destruct (run_start i Hi) as (st & Hle & Hall & Hst). exists st. split; [done|]. split; [by apply position_lookup|]. split; [|done].
    intros k Hk. destruct (Hall k Hk) as [Hak Hsk]. split; [done|]. split; [done|]. apply position_lookup; [done|lia| |done].
    intros k' Hk'. destruct (Hall k' ltac:(lia)) as [? Hs']. split; [done|congruence]. }
  constructor; try apply Ho.
  - unfold positions, ContextParallel.global_positions. rewrite !length_zip_with, length_map, length_seq.
    destruct (cummax_law (zip_with (fun (s : bool) j => if s then j else 0) (ContextParallel.starts live sequences) (map Z.of_nat (seq 0 (length sequences))))) as [-> _].
    rewrite length_zip_with, starts_length_row, length_map, length_seq, (o_length _ _ Ho). lia.
  - intros i Hi Hd. pose proof (o_dead _ _ Ho i Hi Hd). lia.
  - intros i Hi. destruct (Hrun i Hi) as (st & Hle & Hpos & Hall & _). split; [lia|]. intros k Hk.
    destruct (Hall (i - k)%nat ltac:(lia)) as (Ha & Hs & Hp). split; [done|]. split; [done|]. rewrite Hp, Hpos. lia.
  - intros i j Hji Hi Hj Hs. destruct (Hrun i Hi) as (st & Hle & Hpos & Hall & Hst). rewrite Hpos.
    destruct (decide (st <= j)%nat) as [|Hno]; [lia|]. exfalso. destruct Hst as [->|(p & -> & Hne)]; [lia|].
    destruct (o_whole _ _ Ho j i p) as [_ Hsp]; [lia|done|done|done|]. destruct (Hall (S p) ltac:(lia)) as (_ & Hsst & _). congruence.
Qed.
End Positions.

(** ** The laws on lists *)

Lemma score_le_order a b c : (score_le b a = true -> score_le a b = true -> b = a)
  /\ (score_le b a = true -> score_le c b = true -> score_le c a = true).
Proof.
  destruct a as [|x|], b as [|y|], c as [|z|]; cbn; split; intros; try done; rewrite ?Z.leb_le in *; try lia; f_equal; lia.
Qed.

Lemma score_before_sorted scores :
  StronglySorted (fun i j => score_before scores i j = true) (sorted_by (score_before scores) (seq 0 (length scores))).
Proof.
  apply sorted_by_sorted; unfold score_before.
  - intros i j. repeat case_bool_decide; try congruence; [destruct (Nat.leb_spec i j), (Nat.leb_spec j i); auto; lia|].
    destruct (nth i scores NegInf) as [|x|], (nth j scores NegInf) as [|y|]; cbn; auto. destruct (Z.leb_spec y x), (Z.leb_spec x y); auto; lia.
  - intros i j k. destruct (score_le_order (nth i scores NegInf) (nth j scores NegInf) (nth k scores NegInf)) as [Hanti Htrans].
    repeat case_bool_decide; intros Hij Hjk; rewrite ?Nat.leb_le in *; try lia; try congruence; try (by apply Htrans).
    exfalso. assert (nth j scores NegInf = nth i scores NegInf) by (apply Hanti; congruence). congruence.
Qed.

#[local] Existing Instance list_index_ops.

#[local] Instance list_index_laws : IndexLaws.
Proof.
  assert (forall base index source, length (scatter base index source) = length base) as Hlen.
  { intros base index source. cbn. induction (rev (zip index source)) as [|[i x] l IH]; [done|]. cbn. by rewrite length_insert. }
  split; [|intros base index source i Hi|exact Hlen| |].
  - intros base index source k i x Hl Hk Hx Huniq Hlt. cbn. assert ((i, x) ∈ rev (zip index source)) as Hin.
    { rewrite <- (Permutation_rev (zip index source)). apply (list_elem_of_lookup_2 _ k). by rewrite lookup_zip_with, Hk, Hx. }
    assert (forall y, (i, y) ∈ rev (zip index source) -> y = x) as Honly.
    { intros y Hy. rewrite <- (Permutation_rev (zip index source)) in Hy. apply list_elem_of_lookup in Hy as [k' Hy].
      rewrite lookup_zip_with in Hy. destruct (index !! k') as [i'|] eqn:Ei; [|done]. destruct (source !! k') as [y'|] eqn:Ey; [|done].
      cbn in Hy. injection Hy as -> ->. rewrite (Huniq k' Ei) in Ey. congruence. }
    assert (forall l : list (nat * nat), length (foldr (fun p b => <[p.1 := p.2]> b) base l) = length base) as Hfl.
    { intros l. induction l as [|p l IH]; [done|]. cbn. by rewrite length_insert. }
    induction (rev (zip index source)) as [|[i' x'] l IH]; [by apply elem_of_nil in Hin|]. cbn [foldr fst snd].
    destruct (decide (i' = i)) as [->|Hne].
    + rewrite list_lookup_insert_eq by (rewrite Hfl; done). f_equal. apply Honly. left.
    + rewrite list_lookup_insert_ne by done. apply IH; [|intros y Hy; apply Honly; by right].
      apply elem_of_cons in Hin as [E|]; [congruence|done].
  - cbn. assert (forall p, p ∈ rev (zip index source) -> p.1 <> i) as Hne.
    { intros [i' x] Hin E. cbn in E. subst i'. apply Hi. rewrite <- (Permutation_rev (zip index source)) in Hin.
      apply elem_of_zip_l in Hin. done. }
    induction (rev (zip index source)) as [|p l IH]; [done|]. cbn [foldr]. rewrite list_lookup_insert_ne by (apply Hne; left).
    apply IH. intros q Hq. apply Hne. by right.
  - intros keys x _. cbn. split; f_equal; apply filter_in_ext; apply Forall_forall; intros k _; rewrite ?Z.ltb_lt, ?Z.leb_le; done.
  - intros stable scores count Hc. cbn zeta. cbn [select_topk list_index_ops]. pose proof (score_before_sorted scores) as Hs.
    pose proof (sorted_by_perm (score_before scores) (seq 0 (length scores))) as Hperm. set (order := sorted_by _ _) in *.
    assert (length order = length scores) as Hol by (rewrite Hperm, length_seq; done).
    assert (NoDup order) as Hnd by (rewrite Hperm; apply NoDup_seq). split; [rewrite length_take; lia|]. split; [eapply sublist_NoDup; [exact Hnd|apply sublist_take]|]. split.
    + apply Forall_take. rewrite Hperm. apply Forall_forall. intros i [_ Hi]%elem_of_seq. exact Hi.
    + intros i j a b Hi Hj Ha Hb. assert (j ∈ drop count order) as Hjd.
      { assert (j ∈ order) as Hjo by (rewrite Hperm; apply elem_of_seq; split; [lia|]; by eapply lookup_lt_Some).
        rewrite <- (take_drop count order) in Hjo. by apply elem_of_app in Hjo as [|]. }
      rewrite <- (take_drop count order) in Hs. apply StronglySorted_app in Hs as (Hb' & _ & _). specialize (Hb' i j Hi Hjd). unfold score_before in Hb'.
      rewrite !(nth_lookup_Some _ _ _ _ Ha), !(nth_lookup_Some _ _ _ _ Hb) in Hb'. case_bool_decide; [|done]. subst. destruct b; cbn; try done. lia.
Qed.

(** ** The property *)

(** C40. For a row of sequences one after the other, at the positions that
    [ModelContext.build] gives them, layers that are [aligned], that is, each of
    the ratio of the last compressor up to it, and the tokens of any rank as
    queries: every layer attends to the groups of its own ratio, and an index
    that a query attends to is -1 or a group that exists, whose tokens are all
    live, of the query's own sequence, and none later than the query. The
    shipped architectures are aligned ([shipped_architectures_aligned]), but
    [_validate] of the configuration does not ask for it, and without it the
    claim fails ([smaller_ratio_looks_ahead]). *)
Theorem attention_causal `{TensorLaws} `{IndexLaws} live sequences Q ls k l g t :
  let positions := ContextParallel.global_positions live sequences in
  ordered_sequences live sequences -> Forall (fun i => (i < length live)%nat) Q -> aligned 0 ls -> ls !! k = Some l ->
  run_layers ls live positions sequences (map (fun i => (nth i positions 0, nth i sequences 0)) Q) empty_shadow !! k = Some (Some (g, t)) ->
  g = compress (ratio l) live positions sequences
  /\ Forall2 (fun i row => Forall (fun index => index = -1 \/ exists a start, index = Z.of_nat a
        /\ group_starts g !! a = Some start /\ group_valid g !! a = Some true
        /\ forall j, (j < ratio l)%nat -> nth (start + j) live false = true /\ nth (start + j) sequences 0 = nth i sequences 0
             /\ (start + j <= i)%nat) row) Q t.
Proof.
  intros positions Ho HQ Hal Hl Hout.
  destruct (run_layers_ok live positions sequences (build_packed live sequences Ho) Q HQ ls 0 empty_shadow Hal ltac:(done) k l g t Hl Hout)
    as (_ & -> & Hrows). split; [done|]. exact Hrows.
Qed.

(** ** The architectures of [config.json] and [tiny_config.json] *)

(** What [CSA2Attention] makes of [compress_ratios] and [kv_source_layer_ids]. *)
Definition architecture (compress_ratios kv_source_layer_ids : list nat) : list layer :=
  imap (fun layer_id r => {| ratio := r; compressor := bool_decide (layer_id ∈ kv_source_layer_ids); layer_indexer := None; layer_scores := fun _ _ => 0 |}) compress_ratios.

Example shipped_architectures_aligned :
  aligned 0 (architecture (replicate 2 0 ++ replicate 18 2 ++ replicate 20 1)%nat [2; 8; 14; 20]%nat)
  /\ aligned 0 (architecture [0; 2; 2; 1; 1; 1]%nat [1; 3]%nat).
Proof. vm_compute. repeat split. Qed.

(** ** Witness: two sequences, groups of two, and a layer that uses them again *)

Definition small_indexer : indexer :=
  {| topk := 2; topk_blocks := 1; block_size := 1; stable_topk := true; owns_keys := true; is_candidate_source := true; uses_candidates := false |}.
Definition reusing_indexer : indexer :=
  {| topk := 1; topk_blocks := 1; block_size := 1; stable_topk := true; owns_keys := false; is_candidate_source := false; uses_candidates := true |}.
Definition small_layers : list layer :=
  [{| ratio := 2; compressor := true; layer_indexer := Some small_indexer; layer_scores := fun q a => Z.of_nat (q + a) |};
   {| ratio := 2; compressor := false; layer_indexer := Some reusing_indexer; layer_scores := fun q a => - Z.of_nat a |}].
Definition small_live : list bool := [true; true; true; true; true; true; true; false].
Definition small_sequences : list Z := [0; 0; 0; 0; 1; 1; 1; -1].
Definition small_run (ls : list layer) :=
  let positions := ContextParallel.global_positions (H := list_ops) small_live small_sequences in
  run_layers (H := list_ops) ls small_live positions small_sequences
    (map (fun i => (nth i positions 0, nth i small_sequences 0)) (seq 0 8)) empty_shadow.

Example small_run_picks : map (option_map snd) (small_run small_layers)
  = [Some [[-1; -1]; [0; -1]; [0; -1]; [1; 0]; [-1; -1]; [2; -1]; [2; -1]; [-1; -1]];
     Some [[-1]; [0]; [0]; [1]; [-1]; [2]; [2]; [-1]]].
Proof. vm_compute. reflexivity. Qed.

Lemma small_ordered : ordered_sequences small_live small_sequences.
Proof.
  assert (forall i, nth i small_live false = true -> (i < 7)%nat) as Hlive.
  { intros i Hi. do 7 (destruct i as [|i]; [lia|]). by destruct i as [|[|]]. }
  split; [done| | | |].
  - intros i Hi. specialize (Hlive i Hi). do 7 (destruct i as [|i]; [done|]). lia.
  - intros i Hlt Hi. cbn in Hlt. do 8 (destruct i as [|i]; [done|]). lia.
  - intros i j Hij _ Hj. specialize (Hlive j Hj). do 7 (destruct j as [|j]; [do 7 (destruct i as [|i]; [cbn; lia|]); lia|]). lia.
  - intros i j k Hk Hi Hj E. pose proof (Hlive j Hj).
    do 7 (destruct j as [|j]; [do 7 (destruct i as [|i]; [do 7 (destruct k as [|k]; [by cbn in *; (lia || done)|]); lia|]); lia|]). lia.
Qed.

Lemma attention_causal_witness : exists g t, small_run small_layers !! 1%nat = Some (Some (g, t))
  /\ t = [[-1]; [0]; [0]; [1]; [-1]; [2]; [2]; [-1]] /\ group_starts g = [0; 2; 4; 0]%nat.
Proof.
  destruct (small_run small_layers !! 1%nat) as [[[g t]|]|] eqn:E; [|by vm_compute in E|by vm_compute in E].
  exists g, t. split; [done|]. assert (t = [[-1]; [0]; [0]; [1]; [-1]; [2]; [2]; [-1]]) as Ht by (vm_compute in E; by injection E as <- <-).
  split; [exact Ht|]. destruct (attention_causal (H := list_ops) (H0 := list_laws) (H1 := list_index_ops) (H2 := list_index_laws)
    small_live small_sequences (seq 0 8) small_layers 1
    {| ratio := 2; compressor := false; layer_indexer := Some reusing_indexer; layer_scores := fun q a => - Z.of_nat a |} g t small_ordered) as [-> _].
  - apply Forall_forall. intros i [_ Hi]%elem_of_seq. exact Hi.
  - cbn. done.
  - reflexivity.
  - exact E.
  - vm_compute. reflexivity.
Defined.

(** The hypothesis on ratios is needed, and the configuration does not check
    it: a layer that searches the groups of a compressor of ratio 2 with ratio 1
    lets the first token attend to a group that pools the second. *)
Definition shorter_layer : layer :=
  {| ratio := 1; compressor := false; layer_scores := fun q a => - Z.of_nat a;
     layer_indexer := Some {| topk := 1; topk_blocks := 1; block_size := 1; stable_topk := true; owns_keys := false;
                              is_candidate_source := false; uses_candidates := false |} |}.

Lemma smaller_ratio_looks_ahead :
  (small_run [{| ratio := 2; compressor := true; layer_indexer := Some small_indexer; layer_scores := fun q a => Z.of_nat (q + a) |}; shorter_layer]
    !! 1%nat ≫= (fun o => o)) ≫= (fun o => o.2 !! 0%nat) = Some [0].
Proof. vm_compute. reflexivity. Qed.
