(* ===== verification/SftCheckpoint.v ===== *)
(** * Snapshots of supervised training ([dsv41_train/sft_checkpoint.py])

    Every rank writes its own shards into one file of the checkpoint directory;
    rank 0 publishes the manifest after all of them. A save is a sequence of
    the ranks' file operations between collectives, any of which can fail and
    after any of which the job can die; a load validates every rank before one
    of them changes. Models without trainable Engram rows are modelled, so
    that [_drain] and [clear_cache] have nothing to do. A file holds the bytes
    of a payload or a parsed manifest; temporary files, which no reader opens,
    are left out. *)

From stdpp Require Import pretty.
From S2P Require Import Prelude StateRes PyValue.
Local Open Scope Z_scope.
Local Open Scope py_scope.

(** ** Tensors *)

Inductive device := Cpu | Cuda (index : Z).
#[export] Instance device_eq_dec : EqDecision device.
Proof. solve_decision. Defined.

(** The mesh and placements of a [DTensor]. *)
Record Mesh := { mesh_shape : list Z; mesh_ranks : list Z; mesh_names : list string; placements : list string; stride : list Z }.
#[export] Instance Mesh_eq_dec : EqDecision Mesh.
Proof. solve_decision. Defined.

(** [_layout] *)
Record layout := { l_shape : list Z; l_local_shape : list Z; l_dtype : string; l_device : device; l_mesh : option Mesh }.
#[export] Instance layout_eq_dec : EqDecision layout.
Proof. solve_decision. Defined.

Section Tensors.
Context {D : Type}.

(** A local tensor: its elements are opaque. *)
Record value := { v_shape : list Z; v_dtype : string; v_device : device; v_data : D }.

Inductive tensor := Plain (v : value) | Sharded (v : value) (shape : list Z) (m : Mesh).

Definition local_of (t : tensor) : value := match t with Plain v | Sharded v _ _ => v end.
Definition layout_of (t : tensor) : layout :=
  let v := local_of t in
  {| l_shape := match t with Plain v => v_shape v | Sharded _ shape _ => shape end; l_local_shape := v_shape v; l_dtype := v_dtype v; l_device := v_device v;
     l_mesh := match t with Plain _ => None | Sharded _ _ m => Some m end |}.

Definition with_data (d : D) (v : value) : value := {| v_shape := v_shape v; v_dtype := v_dtype v; v_device := v_device v; v_data := d |}.
Definition with_local (v : value) (t : tensor) : tensor := match t with Plain _ => Plain v | Sharded _ shape m => Sharded v shape m end.
(** [value.to(device)] *)
Definition to_device (x : device) (v : value) : value := {| v_shape := v_shape v; v_dtype := v_dtype v; v_device := x; v_data := v_data v |}.

(** ** Models and optimizers *)

(** A parameter object, and what the optimizer keeps for one. *)
Record param := { p_id : Z; requires_grad : bool; weight : tensor; p_grad : option D }.
Inductive state_value := StateTensor (t : tensor) | StateOther.

(** A module's own buffers with their persistence, and its integer attributes. *)
Record module_ := { m_name : string; m_buffers : list (string * (bool * tensor)); m_attributes : list (string * Z) }.
Record group := { options : pydict; g_params : list Z }.
Record optimizer := { o_type : string; param_groups : list group; o_state : list (Z * list (string * state_value)) }.
Record rank_state := {
  named_parameters : list (string * param);
  named_modules : list module_;
  opt : optimizer;
  cpu_rng : value;
  cuda_rng : list (Z * value) }.

(** ** [_tensors] and [_ownership] *)

Definition trained (r : rank_state) : list (string * param) := filter (fun x => requires_grad x.2 = true) (named_parameters r).

Definition full_name (prefix name : string) : string := if bool_decide (prefix = "") then name else prefix +:+ "." +:+ name.
(** [n in s] on strings. *)
Definition contains (n s : string) : bool := bool_decide (is_Some (String.index 0 n s)).
Definition saved_buffer (m : module_) (x : string * (bool * tensor)) : bool := x.2.1 && negb (contains ".engram_tables." ("." +:+ full_name (m_name m) x.1)).
Definition module_buffers (m : module_) : list (string * tensor) := map (fun x => (full_name (m_name m) x.1, x.2.2)) (filter (fun x => saved_buffer m x = true) (m_buffers m)).
Definition buffers (r : rank_state) : list (string * tensor) := mbind module_buffers (named_modules r).

Definition OWNERSHIP_FIELDS : list string :=
  ["layer_id"; "expert_start"; "num_experts"; "global_num_experts"; "row_start"; "row_stop"; "global_num_embeddings"; "embedding_dim"].
Definition owned (m : module_) : list (string * Z) := omap (fun f => (fun z => (f, z)) <$> assoc f (m_attributes m)) OWNERSHIP_FIELDS.
Definition ownership (r : rank_state) : list (string * list (string * Z)) :=
  map (fun m => (m_name m, owned m)) (filter (fun m => owned m <> []) (named_modules r)).

(** ** [_optimizer_spec] *)

Definition get_or (k : string) (d : pyval) (o : pydict) : pyval := default d (dict_get k o).

Definition is_master (g : group) : bool := py_truthy (get_or "fp32_master" (PBool false) (options g)).

(** [_json] of a value with string keys. *)
Definition json_value (v : pyval) : res pyval := if json_finite v then Ok v else Err (ValueError "Out of range float values are not JSON compliant").

Definition name_of (ps : list (string * param)) (i : Z) : option string := assoc i (map (fun x => (p_id x.2, x.1)) ps).
Definition param_of (ps : list (string * param)) (i : Z) : option param := assoc i (map (fun x => (p_id x.2, x.2)) ps).

Definition PLAIN_SGD : list string := ["momentum"; "dampening"; "weight_decay"; "nesterov"; "maximize"; "differentiable"; "foreach"; "fused"].

Definition group_spec (o : optimizer) (ps : list (string * param)) (g : group) : res (pyval * list string) :=
  raise_when existsb (fun i => bool_decide (name_of ps i = None)) (g_params g) with_exn ValueError "optimizer must contain only trainable model parameters";
  raise_when match get_or "fp32_master" (PBool false) (options g) with
             | PBool b => b && (negb (bool_decide (o_type o = "SGD")) || existsb (fun k => py_truthy (get_or k (PInt 0) (options g))) PLAIN_SGD
                                || existsb (fun i => match param_of ps i with
                                                     | Some p => match weight p with Sharded v _ _ => negb (bool_decide (v_dtype v = "torch.bfloat16")) | Plain _ => true end
                                                     | None => true
                                                     end) (g_params g))
             | _ => true
             end with_exn ValueError "FP32 master checkpoints require plain SGD with BF16 DTensor parameters";
  spec <-? json_value (PDict (options g));
  Ok (spec, omap (name_of ps) (g_params g)).

Definition optimizer_spec (o : optimizer) (ps : list (string * param)) : res (string * list (pyval * list string)) :=
  raise_when negb (bool_decide (o_type o ∈ ["SGD"; "AdamW"])) with_exn ValueError "only SGD and AdamW optimizer states are supported";
  groups <-? traverse (group_spec o ps) (param_groups o);
  let flat := mbind snd groups in
  raise_when negb (distinct flat) || negb (forallb (fun n => bool_decide (n ∈ map fst ps)) flat) || negb (forallb (fun n => bool_decide (n ∈ flat)) (map fst ps)) with_exn
    ValueError "optimizer must own every trainable parameter exactly once";
  raise_when existsb (fun x => bool_decide (name_of ps x.1 = None)) (o_state o) with_exn ValueError "optimizer has state for a parameter outside the model";
  Ok (o_type o, groups).

(** ** [_schema] *)

Record schema := {
  s_parameters : list (string * layout);
  s_buffers : list (string * layout);
  s_ownership : list (string * list (string * Z));
  s_optimizer : string * list (pyval * list string);
  s_devices : list Z }.

Definition cuda_index (v : value) : option Z := match v_device v with Cuda i => Some i | Cpu => None end.
Definition cuda_devices (r : rank_state) : list Z :=
  sorted_by Z.leb (remove_dups (omap cuda_index (map (fun x => local_of (weight x.2)) (named_parameters r)
    ++ mbind (fun m => map (fun x => local_of x.2.2) (m_buffers m)) (named_modules r)))).

Definition schema_of (r : rank_state) : res schema :=
  o <-? optimizer_spec (opt r) (trained r);
  Ok {| s_parameters := map (fun x => (x.1, layout_of (weight x.2))) (trained r); s_buffers := map (fun x => (x.1, layout_of x.2)) (buffers r);
        s_ownership := ownership r; s_optimizer := o; s_devices := cuda_devices r |}.

(** Equality of dictionaries. *)
Definition dict_eqb {A} (eqb : A -> A -> bool) (a b : list (string * A)) : bool :=
  (length a =? length b)%nat && forallb (fun x => match assoc x.1 b with Some y => eqb x.2 y | None => false end) a.
Definition list_eqb {A} (eqb : A -> A -> bool) (a b : list A) : bool := (length a =? length b)%nat && forallb (fun x => eqb x.1 x.2) (zip a b).
Definition dec_eqb {A} `{EqDecision A} (a b : A) : bool := bool_decide (a = b).

Definition schema_eqb (a b : schema) : bool :=
  dict_eqb dec_eqb (s_parameters a) (s_parameters b) && dict_eqb dec_eqb (s_buffers a) (s_buffers b)
  && dict_eqb (dict_eqb Z.eqb) (s_ownership a) (s_ownership b)
  && dec_eqb (s_optimizer a).1 (s_optimizer b).1
  && list_eqb (fun g h => py_eqb g.1 h.1 && dec_eqb g.2 h.2) (s_optimizer a).2 (s_optimizer b).2
  && dec_eqb (s_devices a) (s_devices b).

(** ** Optimizer states *)

(** Whether an FP32 master is finite and rounds to its finite BF16 weight. *)
Context (master_rounds : D -> D -> bool).

Definition group_of (o : optimizer) (i : Z) : option group := list_find (fun g => i ∈ g_params g) (rev (param_groups o)) ≫= fun x => Some x.2.

Definition expected_fields (o : optimizer) (g : group) : res (list string) :=
  if bool_decide (o_type o = "SGD")
  then if is_master g then Ok ["master_weight"]
       else m <-? dict_item "momentum" (options g); Ok (if py_truthy m then ["momentum_buffer"] else [])
  else a <-? dict_item "amsgrad" (options g); Ok (["step"; "exp_avg"; "exp_avg_sq"] ++ (if py_truthy a then ["max_exp_avg_sq"] else [])).

Definition same_names (a b : list string) : bool := forallb (fun k => bool_decide (k ∈ b)) a && forallb (fun k => bool_decide (k ∈ a)) b.

(** [_validate_fields] *)
Definition validate_fields (keys : list string) (o : optimizer) (g : group) (name : string) : res unit :=
  expected <-? expected_fields o g;
  raise_if ((negb (bool_decide (keys = [])) || is_master g) && negb (same_names keys expected)) (ValueError ("invalid optimizer fields: " +:+ name)).

(** [_validate_master]: it compares in chunks, which together are all elements. *)
Definition validate_master (master : tensor) (w : value) (name : string) : res unit :=
  match master with
  | Sharded _ _ _ => Err (ValueError ("invalid FP32 master tensor: " +:+ name))
  | Plain m =>
      raise_when negb (bool_decide (v_dtype m = "torch.float32")) || negb (bool_decide (v_shape m = v_shape w)) || negb (bool_decide (v_device m = v_device w))
                 || negb (bool_decide (v_dtype w = "torch.bfloat16")) with_exn
        ValueError ("invalid FP32 master tensor: " +:+ name);
      raise_if (negb (master_rounds (v_data m) (v_data w))) (ValueError ("FP32 master is non-finite or differs from BF16 parameter: " +:+ name))
  end.

Definition encoded := list (string * list (string * (layout * value))).

Definition encode_value (name : string) (x : string * state_value) : res (string * (layout * value)) :=
  match x.2 with
  | StateTensor t => Ok (x.1, (layout_of t, local_of t))
  | StateOther => Err (ValueError ("unsupported optimizer state " +:+ name +:+ "." +:+ x.1))
  end.

Definition fields_of (o : optimizer) (p : param) : list (string * state_value) := default [] (assoc (p_id p) (o_state o)).

Definition encode_param (o : optimizer) (x : string * param) : res (string * list (string * (layout * value))) :=
  let fields := fields_of o x.2 in
  match group_of o (p_id x.2) with
  | None => Err (KeyError x.1)
  | Some g =>
      _ <-? validate_fields (map fst fields) o g x.1;
      _ <-? (if is_master g
             then match assoc "master_weight" fields with
                  | Some (StateTensor t) => validate_master t (local_of (weight x.2)) x.1
                  | Some StateOther => Err (ValueError ("invalid FP32 master tensor: " +:+ x.1))
                  | None => Err (KeyError "master_weight")
                  end
             else Ok tt);
      state <-? traverse (encode_value x.1) fields;
      Ok (x.1, state)
  end.

(** [_encode_state] *)
Definition encode_state (o : optimizer) (ps : list (string * param)) : res encoded := traverse (encode_param o) ps.

(** ** Payloads, records, manifests and the directory *)

Record payload := {
  pl_parameters : list (string * value);
  pl_buffers : list (string * value);
  pl_optimizer : encoded;
  data_position : pyval;
  pl_cpu_rng : value;
  pl_cuda_rng : list (Z * value) }.

Record record_ := { r_file : string; r_sha256 : string; r_bytes : Z; r_schema : schema }.
Record manifest_ := { version : Z; world_size : Z; m_step : Z; m_identity : pyval; m_ranks : list record_ }.
Inductive content := Bytes (s : string) | Manifest (m : manifest_).
Notation directory := (gmap string content).

Definition rank_file (i : nat) : string := "rank-" +:+ pretty i +:+ ".pt".
Definition MANIFEST : string := "manifest.json".

(** [torch.save], [torch.load(map_location="cpu")] and SHA-256. *)
Context (serialize : payload -> string) (deserialize : string -> res payload) (sha256_hex : string -> string).

(** ** Saving *)

(** The arguments of one rank. *)
Record save_args := { a_step : pyval; a_identity : pyval; a_position : pyval }.
Record prepared := { pr_step : Z; pr_identity : pyval; pr_schema : schema; pr_payload : payload }.

Definition payload_of (r : rank_state) (devices : list Z) (e : encoded) (position : pyval) : payload :=
  {| pl_parameters := map (fun x => (x.1, local_of (weight x.2))) (trained r); pl_buffers := map (fun x => (x.1, local_of x.2)) (buffers r); pl_optimizer := e;
     data_position := position; pl_cpu_rng := cpu_rng r; pl_cuda_rng := omap (fun i => (fun v => (i, v)) <$> assoc i (cuda_rng r)) devices |}.

(** Up to the first collective, and what the rank then writes. *)
Definition prepare (r : rank_state) (a : save_args) : res prepared :=
  step <-? match a_step a with PInt z => if z <? 0 then Err (ValueError "step must be a nonnegative integer") else Ok z
           | _ => Err (ValueError "step must be a nonnegative integer") end;
  identity <-? json_value (a_identity a);
  position <-? json_value (a_position a);
  raise_when match identity with PDict (_ :: _) => false | _ => true end with_exn
    ValueError "identity must describe the original base and training configuration";
  s <-? schema_of r;
  e <-? encode_state (opt r) (trained r);
  Ok {| pr_step := step; pr_identity := identity; pr_schema := s; pr_payload := payload_of r (s_devices s) e position |}.

(** [_collect]: any rank's error raises on all of them. *)
Definition collected {A} (l : list (res A)) : res (list A) :=
  match traverse (fun r => r) l with Ok l => Ok l | Err _ => Err (ValueError "SFT checkpoint: a rank failed") end.

Definition record_of (i : nat) (p : prepared) : record_ :=
  let bytes := serialize (pr_payload p) in
  {| r_file := rank_file i; r_sha256 := sha256_hex bytes; r_bytes := Z.of_nat (String.length bytes); r_schema := pr_schema p |}.

(** How a rank's file operations end: done, or failed before or after the file
    was put in place. *)
Inductive outcome := Done | FailsBefore | FailsAfter.

Inductive phase :=
| Encoding
| Making (ps : list prepared)
| Writing (ps : list prepared) (written : list (option bool))
| Publishing (ps : list prepared)
| Finished (r : res unit).

(** The checkpoint's path: absent, or a directory. *)
Record saving := { path : option directory; ph : phase }.

Inductive save_action := Encode | Make (o : outcome) | Write (i : nat) (o : outcome) | Collect | Publish (o : outcome).

Definition installed (o : outcome) : bool := match o with FailsBefore => false | _ => true end.
Definition succeeded (o : outcome) : bool := match o with Done => true | _ => false end.

Definition failed : phase := Finished (Err (ValueError "SFT checkpoint: a rank failed")).

(** Whether every rank agrees with [p] on identity and step. *)
Definition agrees (ps : list prepared) (p : prepared) : bool :=
  forallb (fun q => py_eqb (pr_identity q) (pr_identity p) && (pr_step q =? pr_step p)) ps.

Definition file_size (d : directory) (f : string) : res Z :=
  match d !! f with Some (Bytes s) => Ok (Z.of_nat (String.length s)) | Some (Manifest _) => Ok 0 | None => Err (OSError f) end.

(** [stat().st_size] of every record. *)
Definition sizes_match (d : directory) (l : list record_) : bool :=
  forallb (fun x => match file_size d (r_file x) with Ok n => n =? r_bytes x | Err _ => false end) l.

Definition manifest_of (p : prepared) (l : list record_) : manifest_ :=
  {| version := 1; world_size := Z.of_nat (length l); m_step := pr_step p; m_identity := pr_identity p; m_ranks := l |}.

Definition save_step (ranks : list (rank_state * save_args)) (a : save_action) (s : saving) : option saving :=
  match a, ph s with
  | Encode, Encoding =>
      Some {| path := path s; ph := match collected (map (fun x => prepare x.1 x.2) ranks) with Ok ps => Making ps | Err _ => failed end |}
  | Make o, Making ps =>
      match path s with
      | Some _ => Some {| path := path s; ph := failed |}
      | None => Some {| path := if installed o then Some ∅ else None; ph := if succeeded o then Writing ps (replicate (length ps) None) else failed |}
      end
  | Write i o, Writing ps written =>
      match path s, ps !! i, written !! i with
      | Some d, Some p, Some None =>
          Some {| path := Some (if installed o then <[rank_file i := Bytes (serialize (pr_payload p))]> d else d);
                  ph := Writing ps (<[i := Some (succeeded o)]> written) |}
      | _, _, _ => None
      end
  | Collect, Writing ps written =>
      if forallb (fun x => bool_decide (is_Some x)) written
      then Some {| path := path s; ph := if forallb (fun x => bool_decide (x = Some true)) written then Publishing ps else failed |}
      else None
  | Publish o, Publishing ps =>
      match path s, ps with
      | Some d, p :: _ =>
          let records := imap record_of ps in
          if agrees ps p && sizes_match d records
          then Some {| path := Some (if installed o then <[MANIFEST := Manifest (manifest_of p records)]> d else d);
                       ph := if succeeded o && forallb (agrees ps) ps then Finished (Ok tt) else failed |}
          else Some {| path := path s; ph := failed |}
      | _, _ => None
      end
  | _, _ => None
  end.

(** A save that ran these operations, and then died or ended. *)
Fixpoint save_run (ranks : list (rank_state * save_args)) (l : list save_action) (s : saving) : option saving :=
  match l with
  | [] => Some s
  | a :: l => match save_step ranks a s with Some s => save_run ranks l s | None => None end
  end.

(** ** Loading *)

(** [_validate_tensor] on a tensor that [torch.load] put on the CPU. *)
Definition validate_tensor (v : value) (l : layout) (name : string) : res unit :=
  raise_if (negb (bool_decide (v_device v = Cpu)) || negb (bool_decide (v_shape v = l_local_shape l)) || negb (bool_decide (v_dtype v = l_dtype l)))
    (ValueError ("invalid tensor payload: " +:+ name)).

(** The value a state field becomes on the live parameter. *)
Definition decode_value (o : optimizer) (g : group) (values : list (string * value)) (name : string) (p : param) (x : string * (layout * value)) : res (string * state_value) :=
  let '(key, (l, v)) := x in
  let w := local_of (weight p) in
  _ <-? validate_tensor v l (name +:+ "." +:+ key);
  if bool_decide (key = "master_weight") then
    match assoc name values with
    | Some saved =>
        raise_when negb (bool_decide (l = {| l_shape := v_shape w; l_local_shape := v_shape w; l_dtype := "torch.float32"; l_device := v_device w; l_mesh := None |})) with_exn
          ValueError ("FP32 master layout differs: " +:+ name);
        _ <-? validate_master (Plain v) saved name;
        Ok (key, StateTensor (Plain (to_device (v_device w) v)))
    | None => Err (ValueError ("FP32 master layout differs: " +:+ name))
    end
  else if bool_decide (key = "step") then
    let x := if py_truthy (get_none "capturable" (options g)) || py_truthy (get_none "fused" (options g)) then v_device w else Cpu in
    raise_when negb (bool_decide (v_shape v = [])) || negb (bool_decide (v_dtype v ∈ ["torch.float32"; "torch.float64"])) || bool_decide (is_Some (l_mesh l))
               || negb (bool_decide (l_device l = x)) with_exn
      ValueError ("invalid optimizer step: " +:+ name);
    Ok (key, StateTensor (Plain (to_device x v)))
  else
    raise_when negb (bool_decide (l = layout_of (weight p))) with_exn ValueError ("optimizer tensor layout differs: " +:+ name +:+ "." +:+ key);
    Ok (key, StateTensor (with_local (to_device (v_device w) v) (weight p))).

Definition decode_param (o : optimizer) (e : encoded) (values : list (string * value)) (x : string * param) : res (Z * list (string * state_value)) :=
  match assoc x.1 e, group_of o (p_id x.2) with
  | Some fields, Some g =>
      _ <-? validate_fields (map fst fields) o g x.1;
      state <-? traverse (decode_value o g values x.1 x.2) fields;
      Ok (p_id x.2, state)
  | _, _ => Err (KeyError x.1)
  end.

(** [_decode_state] *)
Definition decode_state (o : optimizer) (ps : list (string * param)) (e : encoded) (values : list (string * value)) : res (list (Z * list (string * state_value))) :=
  raise_when negb (same_names (map fst e) (map fst ps)) with_exn ValueError "optimizer parameter names differ";
  l <-? traverse (decode_param o e values) ps;
  Ok (filter (fun x => x.2 <> []) l).

(** Whether [torch.Generator().set_state] takes a state. *)
Context (generator_state : value -> bool).

Definition validate_section (what : string) (saved : list (string * value)) (live : list (string * layout)) : res unit :=
  raise_when negb (same_names (map fst saved) (map fst live)) with_exn ValueError (what +:+ " names differ");
  _ <-? traverse (fun x => match assoc x.1 live with Some l => validate_tensor x.2 l x.1 | None => Err (KeyError x.1) end) saved;
  Ok tt.

Definition check_manifest (world : nat) (d : directory) (identity : pyval) : res manifest_ :=
  m <-? match d !! MANIFEST with Some (Manifest m) => Ok m | Some (Bytes _) => Err (ValueError "not JSON") | None => Err (OSError MANIFEST) end;
  raise_when negb (version m =? 1) || negb (world_size m =? Z.of_nat world) || negb (length (m_ranks m) =? world)%nat with_exn
    ValueError "checkpoint version or world size differs";
  i <-? json_value identity;
  raise_when negb (py_eqb (m_identity m) i) with_exn ValueError "checkpoint identity differs";
  raise_when m_step m <? 0 with_exn ValueError "invalid checkpoint step";
  _ <-? traverse (fun x : nat * record_ =>
          raise_when negb (bool_decide (r_file x.2 = rank_file x.1)) with_exn ValueError "missing or incomplete rank file";
          n <-? file_size d (r_file x.2);
          raise_if (negb (n =? r_bytes x.2)) (ValueError "missing or incomplete rank file")) (imap pair (m_ranks m));
  Ok m.

(** What a rank learns of the checkpoint before the collective. *)
Definition check_rank (world rank : nat) (where_ : option directory) (identity : pyval) (r : rank_state) : res (Z * payload) :=
  d <-? match where_ with Some d => Ok d | None => Err (OSError MANIFEST) end;
  m <-? check_manifest world d identity;
  record <-? match m_ranks m !! rank with Some x => Ok x | None => Err (IndexError "list index out of range") end;
  s <-? schema_of r;
  raise_when negb (schema_eqb (r_schema record) s) with_exn ValueError "parameter, optimizer, ownership or topology layout differs";
  bytes <-? match d !! r_file record with Some (Bytes b) => Ok b | _ => Err (OSError (r_file record)) end;
  raise_when negb (bool_decide (sha256_hex bytes = r_sha256 record)) with_exn ValueError "rank file checksum differs";
  p <-? deserialize bytes;
  _ <-? validate_section "parameters" (pl_parameters p) (s_parameters s);
  _ <-? validate_section "buffers" (pl_buffers p) (s_buffers s);
  _ <-? decode_state (opt r) (trained r) (pl_optimizer p) (pl_parameters p);
  raise_when negb (generator_state (pl_cpu_rng p)) with_exn RuntimeError "invalid generator state";
  raise_when negb (list_eqb Z.eqb (sorted_by Z.leb (map fst (pl_cuda_rng p))) (s_devices s)) with_exn ValueError "CUDA RNG devices differ";
  raise_when existsb (fun x => match assoc x.1 (cuda_rng r) with
                               | Some v => negb (bool_decide (v_dtype x.2 = "torch.uint8")) || negb (bool_decide (v_shape x.2 = v_shape v))
                               | None => true
                               end) (pl_cuda_rng p) with_exn ValueError "invalid CUDA RNG state";
  position <-? json_value (data_position p);
  Ok (m_step m, p).

(** [destination.copy_(value)] *)
Definition copied (values : list (string * value)) (name : string) (t : tensor) : tensor :=
  match assoc name values with Some v => with_local (with_data (v_data v) (local_of t)) t | None => t end.

Definition restore_param (values : list (string * value)) (x : string * param) : string * param :=
  if requires_grad x.2 then (x.1, {| p_id := p_id x.2; requires_grad := true; weight := copied values x.1 (weight x.2); p_grad := None |}) else x.

Definition restore_module (values : list (string * value)) (m : module_) : module_ :=
  {| m_name := m_name m;
     m_buffers := map (fun x => if saved_buffer m x then (x.1, (x.2.1, copied values (full_name (m_name m) x.1) x.2.2)) else x) (m_buffers m);
     m_attributes := m_attributes m |}.

(** [torch.cuda.set_rng_state] of every saved device. *)
Definition set_cuda (saved live : list (Z * value)) : list (Z * value) := map (fun x => (x.1, default x.2 (assoc x.1 saved))) live.

(** The part of [load_checkpoint] under [no_grad]. *)
Definition restore (p : payload) (r : rank_state) : rank_state :=
  {| named_parameters := map (restore_param (pl_parameters p)) (named_parameters r);
     named_modules := map (restore_module (pl_buffers p)) (named_modules r);
     opt := {| o_type := o_type (opt r); param_groups := param_groups (opt r);
               o_state := match decode_state (opt r) (trained r) (pl_optimizer p) (pl_parameters p) with Ok l => l | Err _ => [] end |};
     cpu_rng := pl_cpu_rng p; cuda_rng := set_cuda (pl_cuda_rng p) (cuda_rng r) |}.

(** [load_checkpoint] on all ranks: the live states, and each rank's step and
    data position. *)
Definition load_checkpoint (where_ : option directory) (ranks : list (rank_state * pyval)) : list rank_state * res (list (Z * pyval)) :=
  match collected (imap (fun i x => check_rank (length ranks) i where_ x.2 x.1) ranks) with
  | Ok l => (zip_with (fun x r => restore x.2 r.1) l ranks, Ok (map (fun x => (x.1, data_position x.2)) l))
  | Err e => (map fst ranks, Err e)
  end.
End Tensors.
