(* ===== verification/SftCheckpointResults.v ===== *)
(** * A snapshot is restored exactly, or nothing changes

    The directory a save can leave behind at any of its steps, and what a load
    makes of it. *)

From stdpp Require Import pretty.
From S2P Require Import Prelude StateRes PyValue TrainingProofs SftCheckpoint.
Local Open Scope Z_scope.

(** ** Association lists *)

Lemma assoc_map {A B C} `{EqDecision A} (f : A -> B -> C) k (l : list (A * B)) : assoc k (map (fun x => (x.1, f x.1 x.2)) l) = f k <$> assoc k l.
Proof. induction l as [|[x v] l IH]; simpl; [done|]. case_bool_decide; [by subst|done]. Qed.

Lemma same_names_elem a b : same_names a b = true -> forall k, k ∈ a <-> k ∈ b.
Proof.
  unfold same_names. rewrite andb_true_iff, !forallb_forall. intros [Ha Hb] k. rewrite !list_elem_of_In.
  split; intros H; [apply Ha in H|apply Hb in H]; apply bool_decide_eq_true, list_elem_of_In in H; done.
Qed.

Lemma dict_eqb_lookup {A} `{EqDecision A} (a b : list (string * A)) : NoDup (map fst a) -> NoDup (map fst b) -> dict_eqb dec_eqb a b = true -> forall k, assoc k a = assoc k b.
Proof.
  unfold dict_eqb. rewrite andb_true_iff, Nat.eqb_eq, forallb_forall. intros Ha Hb [Hl Hall].
  assert (forall k v, (k, v) ∈ a -> assoc k b = Some v) as Hsub.
  { intros k v Hin. apply list_elem_of_In in Hin. specialize (Hall _ Hin). cbn in Hall. destruct (assoc k b) as [w|]; [|done].
    apply bool_decide_eq_true in Hall. by subst. }
  assert (map fst a ⊆+ map fst b) as Hs.
  { apply NoDup_submseteq; [done|]. intros k ([k' v] & -> & Hin)%list_elem_of_fmap. apply Hsub, assoc_some in Hin. by apply (list_elem_of_fmap_2 fst). }
  apply submseteq_length_Permutation in Hs; [|rewrite !length_map; lia]. intros k. destruct (assoc k a) as [v|] eqn:E.
  - symmetry. by apply Hsub, assoc_some.
  - symmetry. apply assoc_none. apply assoc_none in E. by rewrite <- Hs.
Qed.

Lemma assoc_filter_nonempty {A B} `{EqDecision A} (i : A) (l : list (A * list B)) : NoDup (map fst l) ->
  default [] (assoc i (filter (fun x => x.2 <> []) l)) = default [] (assoc i l).
Proof.
  induction l as [|[j s] l IH]; intros Hn; [done|]. apply NoDup_cons in Hn as [Hj Hn]. destruct (decide (s <> [])) as [Hs|Hs].
  - rewrite filter_cons_True by done. cbn [assoc]. case_bool_decide; [done|auto].
  - rewrite filter_cons_False by done. cbn [assoc]. apply dec_stable in Hs as ->. case_bool_decide; [|auto]. subst. rewrite IH by done.
    by rewrite (proj2 (assoc_none j l) Hj).
Qed.

Lemma assoc_omap_keys {A B} `{EqDecision A} (f : A -> option B) i (l : list A) : i ∈ l -> assoc i (omap (fun j => (fun v => (j, v)) <$> f j) l) = f i.
Proof.
  induction l as [|j l IH]; intros Hi; [by apply elem_of_nil in Hi|]. cbn. destruct (f j) as [v|] eqn:E; cbn; [case_bool_decide; [by subst|]|].
  - apply IH. by apply elem_of_cons in Hi as [->|].
  - apply elem_of_cons in Hi as [->|Hi]; [|by apply IH]. rewrite E. apply assoc_none.
    intros ([k w] & -> & Hk)%list_elem_of_fmap. apply list_elem_of_omap in Hk as (k' & _ & Hk). cbn in E. destruct (f k') eqn:E'; [|done]. cbn in Hk. injection Hk as -> _. congruence.
Qed.

Section Results.
Context {D : Type} (master_rounds : D -> D -> bool).
#[local] Notation value := (value (D := D)).
#[local] Notation tensor := (tensor (D := D)).
#[local] Notation payload := (payload (D := D)).
#[local] Notation rank_state := (rank_state (D := D)).
#[local] Notation param := (param (D := D)).
Implicit Types (v w : value) (t : tensor) (p : payload) (r : rank_state).

(** ** Moving values *)

Definition on_cpu_encoded (e : encoded (D := D)) : encoded := map (fun x => (x.1, map (fun y => (y.1, (y.2.1, to_device Cpu y.2.2))) x.2)) e.
Definition on_cpu_values (l : list (string * value)) : list (string * value) := map (fun x => (x.1, to_device Cpu x.2)) l.

(** [torch.load(map_location="cpu")] of a saved payload. *)
Definition on_cpu p : payload :=
  {| pl_parameters := on_cpu_values (pl_parameters p); pl_buffers := on_cpu_values (pl_buffers p); pl_optimizer := on_cpu_encoded (pl_optimizer p);
     data_position := data_position p; pl_cpu_rng := to_device Cpu (pl_cpu_rng p); pl_cuda_rng := map (fun x => (x.1, to_device Cpu x.2)) (pl_cuda_rng p) |}.

Lemma to_device_back v : to_device (v_device v) (to_device Cpu v) = v.
Proof. by destruct v. Qed.
Lemma to_device_same x v : v_device v = x -> to_device x v = v.
Proof. intros <-. by destruct v. Qed.

(** A tensor is its layout and its elements. *)
Lemma with_layout t t' : layout_of t = layout_of t' -> with_local (with_data (v_data (local_of t)) (local_of t')) t' = t.
Proof.
  destruct t as [[s d x e]|[s d x e] g m], t' as [[s' d' x' e']|[s' d' x' e'] g' m']; cbn; intros [=]; subst; done.
Qed.
Lemma with_layout_device t t' : layout_of t = layout_of t' -> with_local (to_device (v_device (local_of t')) (to_device Cpu (local_of t))) t' = t.
Proof. destruct t as [[s d x e]|[s d x e] g m], t' as [[s' d' x' e']|[s' d' x' e'] g' m']; cbn; intros [=]; subst; done. Qed.

(** ** The parts of a restored rank *)

Lemma trained_restore p r : trained (restore master_rounds p r) = map (restore_param (pl_parameters p)) (trained r).
Proof.
  unfold trained. cbn. induction (named_parameters r) as [|x l IH]; [done|]. cbn [map].
  assert (requires_grad (restore_param (pl_parameters p) x).2 = requires_grad x.2) as Hx by (unfold restore_param; by destruct (requires_grad x.2) eqn:E; cbn).
  destruct (decide (requires_grad x.2 = true)) as [Hr|Hr].
  - rewrite !filter_cons_True by (rewrite ?Hx; done). cbn [map]. by rewrite IH.
  - rewrite !filter_cons_False by (rewrite ?Hx; done). by rewrite IH.
Qed.

Lemma trained_grad x r : x ∈ trained r -> requires_grad x.2 = true.
Proof. by intros [? _]%list_elem_of_filter. Qed.

Lemma trained_lookup n p r : (weight <$> assoc n (trained (restore master_rounds p r))) = copied (pl_parameters p) n <$> (weight <$> assoc n (trained r)).
Proof.
  rewrite trained_restore. assert (forall x, x ∈ trained r -> requires_grad x.2 = true) as Hg by (intros x; apply trained_grad).
  induction (trained r) as [|[m q] l IH]; [done|]. pose proof (Hg (m, q) (list_elem_of_here _ _)) as E. cbn in E. cbn. unfold restore_param at 1. cbn. rewrite E. cbn.
  case_bool_decide; [by subst|]. apply IH. intros x Hx. apply Hg. by right.
Qed.

Lemma frozen_restore p r : filter (fun x => requires_grad x.2 = false) (named_parameters (restore master_rounds p r)) = filter (fun x => requires_grad x.2 = false) (named_parameters r).
Proof.
  cbn. induction (named_parameters r) as [|x l IH]; [done|]. cbn [map]. unfold restore_param at 1. destruct (requires_grad x.2) eqn:E.
  - rewrite !filter_cons_False by (cbn; congruence). exact IH.
  - rewrite !filter_cons_True by done. by rewrite IH.
Qed.

Lemma buffers_restore p r : buffers (restore master_rounds p r) = map (fun x => (x.1, copied (pl_buffers p) x.1 x.2)) (buffers r).
Proof.
  unfold buffers. cbn. induction (named_modules r) as [|m l IH]; [done|]. cbn [map mbind list_bind]. rewrite map_app, <- IH. f_equal.
  unfold module_buffers. cbn. induction (m_buffers m) as [|x k IHk]; [done|]. cbn [map].
  assert (saved_buffer (restore_module (pl_buffers p) m) (if saved_buffer m x then (x.1, (x.2.1, copied (pl_buffers p) (full_name (m_name m) x.1) x.2.2)) else x) = saved_buffer m x) as Hs
    by (unfold saved_buffer; cbn; by destruct (x.2.1 && _) eqn:?; cbn).
  destruct (saved_buffer m x) eqn:E.
  - rewrite !filter_cons_True by done. cbn [map fst snd]. by rewrite IHk.
  - rewrite !filter_cons_False by congruence. exact IHk.
Qed.

(** ** Optimizer states *)

(** A decoded field is the field that was encoded. *)
Lemma decode_value_exact o g values name q key t k st :
  decode_value master_rounds o g values name q (key, (layout_of t, to_device Cpu (local_of t))) = Ok (k, st) -> k = key /\ st = StateTensor t.
Proof.
  unfold decode_value. intros H. res_inv H. case_bool_decide as Hm; [|case_bool_decide as Hs].
  - destruct (assoc name values) as [w|]; [|done]. res_inv H. destr_bool. subst. split; [done|]. f_equal.
    destruct t as [[a b x d]|[a b x d] gs m]; cbn in *; [|done]. revert G. intros [=]. by subst.
  - res_inv H. destr_bool. subst. split; [done|]. f_equal. destruct t as [[a b x d]|[a b x d] gs m]; cbn in *; [by subst x|]. match goal with N : ~ is_Some _ |- _ => by destruct N end.
  - res_inv H. destr_bool. subst. split; [done|]. f_equal. by apply with_layout_device.
Qed.

Lemma decode_fields_exact o g values name q fields enc l :
  traverse (encode_value name) fields = Ok enc ->
  traverse (decode_value master_rounds o g values name q) (map (fun y => (y.1, (y.2.1, to_device Cpu y.2.2))) enc) = Ok l -> l = fields.
Proof.
  revert enc l; induction fields as [|[key sv] fields IH]; intros enc l He Hd; cbn [traverse] in He.
  - injection He as <-. by injection Hd as <-.
  - unfold encode_value in He at 1. cbn [fst snd] in He. destruct sv as [t|]; [|done]. destruct (traverse _ fields) as [enc'|] eqn:E; [|done]. injection He as <-.
    cbn [map traverse fst snd] in Hd. destruct (decode_value _ _ _ _ _ _ _) as [[k st]|] eqn:Ek; [|done].
    destruct (traverse _ (map _ enc')) as [l'|] eqn:El; [|done]. injection Hd as <-. apply decode_value_exact in Ek as [-> ->]. by rewrite (IH _ _ eq_refl El).
Qed.

(** [_decode_state] of what [_encode_state] gave. *)
Definition fields_on_cpu (l : list (string * (layout * value))) : list (string * (layout * value)) := map (fun y => (y.1, (y.2.1, to_device Cpu y.2.2))) l.

Lemma assoc_encode o ps e n fields : encode_state master_rounds o ps = Ok e -> assoc n e = Some fields ->
  exists q, assoc n ps = Some q /\ traverse (encode_value n) (fields_of o q) = Ok fields.
Proof.
  intros H%traverse_inv. revert fields. induction H as [|[m q] [m' l] ps e Hq _ IH]; intros fields; [done|].
  unfold encode_param in Hq. cbn [fst snd] in Hq. destruct (group_of o (p_id q)); [|done]. res_inv Hq. subst. cbn.
  case_bool_decide; [intros [= ->]; subst; by exists q|apply IH].
Qed.

Lemma decode_param_exact o0 ps0 e o values n q i l : encode_state master_rounds o0 ps0 = Ok e ->
  decode_param master_rounds o (on_cpu_encoded e) values (n, q) = Ok (i, l) ->
  i = p_id q /\ exists q0, assoc n ps0 = Some q0 /\ l = fields_of o0 q0.
Proof.
  intros He. unfold decode_param, on_cpu_encoded. cbn [fst snd]. intros H.
  rewrite (assoc_map (fun _ l => fields_on_cpu l)) in H. destruct (assoc n e) as [fields|] eqn:Ef; [|done]. cbn [fmap option_fmap option_map] in H.
  destruct (group_of o (p_id q)) as [g|]; [|done]. res_inv H. subst. destruct (assoc_encode _ _ _ _ _ He Ef) as (q0 & Hq0 & Hf).
  split; [done|]. exists q0. split; [done|]. by eapply decode_fields_exact.
Qed.

Lemma decode_state_exact o0 ps0 e o ps values st n q : encode_state master_rounds o0 ps0 = Ok e -> NoDup (map (fun x => p_id x.2) ps) ->
  decode_state master_rounds o ps (on_cpu_encoded e) values = Ok st -> (n, q) ∈ ps ->
  exists q0, assoc n ps0 = Some q0 /\ default [] (assoc (p_id q) st) = fields_of o0 q0.
Proof.
  intros He Hn H Hin. unfold decode_state in H. res_inv H. subst st. apply traverse_inv in R.
  assert (map fst value = map (fun x => p_id x.2) ps) as Hids.
  { clear Hin G Hn. induction R as [|[m x] [i l] ps l' Hx _ IH]; [done|]. cbn. rewrite IH. by destruct (decode_param_exact _ _ _ _ _ _ _ _ _ He Hx) as [-> _]. }
  rewrite assoc_filter_nonempty by by rewrite Hids.
  apply list_elem_of_lookup in Hin as (k & Hk). destruct (Forall2_lookup_l _ _ _ _ _ R Hk) as ([i l] & Hl & Hd).
  destruct (decode_param_exact _ _ _ _ _ _ _ _ _ He Hd) as (-> & q0 & Hq0 & ->). exists q0. split; [done|].
  rewrite (assoc_in (p_id q) value (fields_of o0 q0)); [done|by rewrite Hids|]. by apply (list_elem_of_lookup_2 _ k).
Qed.

(** ** A rank that passes its checks *)

Context (serialize : payload -> string) (deserialize : string -> res payload) (sha256_hex : string -> string) (generator_state : value -> bool).

(** Names and identities are unique; generator states are kept on the CPU. *)
Record proper r : Prop := {
  proper_parameters : NoDup (map fst (trained r));
  proper_buffers : NoDup (map fst (buffers r));
  proper_ids : NoDup (map (fun x => p_id x.2) (trained r));
  proper_cpu : v_device (cpu_rng r) = Cpu;
  proper_cuda : Forall (fun x => v_device x.2 = Cpu) (cuda_rng r) }.

(** A rank [r] continues the training of [r0]. *)
Record same_training (r0 r : rank_state) : Prop := {
  same_weights : forall n, weight <$> assoc n (trained r) = weight <$> assoc n (trained r0);
  same_buffers : forall n, assoc n (buffers r) = assoc n (buffers r0);
  same_optimizer : forall n q q0, assoc n (trained r) = Some q -> assoc n (trained r0) = Some q0 -> fields_of (opt r) q = fields_of (opt r0) q0;
  same_cpu : cpu_rng r = cpu_rng r0;
  same_cuda : forall i, i ∈ cuda_devices r0 -> assoc i (cuda_rng r) = assoc i (cuda_rng r0) }.

(** What a restore leaves as it was, and the gradients it drops. *)
Record kept_rest (r r' : rank_state) : Prop := {
  kept_frozen : filter (fun x => requires_grad x.2 = false) (named_parameters r') = filter (fun x => requires_grad x.2 = false) (named_parameters r);
  kept_groups : param_groups (opt r') = param_groups (opt r);
  no_gradients : Forall (fun x => p_grad x.2 = None) (trained r') }.

Lemma restore_keeps_rest p r : kept_rest r (restore master_rounds p r).
Proof.
  split; [apply frozen_restore|done|]. rewrite trained_restore. apply Forall_forall. intros x (y & -> & Hy)%list_elem_of_fmap.
  unfold restore_param. by rewrite (trained_grad y r Hy).
Qed.

(** Copying the saved values over tensors of the same layouts. *)
Lemma copied_exact (saved live : list (string * tensor)) n : NoDup (map fst saved) -> NoDup (map fst live) ->
  dict_eqb dec_eqb (map (fun x => (x.1, layout_of x.2)) saved) (map (fun x => (x.1, layout_of x.2)) live) = true ->
  copied (on_cpu_values (map (fun x => (x.1, local_of x.2)) saved)) n <$> assoc n live = assoc n saved.
Proof.
  intros Hs Hl H. eapply (fun a b c => dict_eqb_lookup _ _ a b c n) in H; [|by rewrite map_map|by rewrite map_map].
  rewrite !(assoc_map (fun _ => layout_of)) in H. unfold copied, on_cpu_values.
  rewrite (assoc_map (fun _ => to_device Cpu)), (assoc_map (fun _ => local_of)).
  destruct (assoc n saved) as [t|], (assoc n live) as [t'|]; cbn [fmap option_fmap option_map] in H |- *; [|done|done|done].
  apply (inj Some) in H. f_equal. by apply with_layout.
Qed.

Lemma trained_id n q p r : assoc n (trained (restore master_rounds p r)) = Some q -> exists q', assoc n (trained r) = Some q' /\ p_id q = p_id q'.
Proof.
  rewrite trained_restore. induction (trained r) as [|[m q'] l IH]; [done|]. unfold map at 1. fold (map (restore_param (pl_parameters p)) l).
  assert (restore_param (pl_parameters p) (m, q') = (m, (restore_param (pl_parameters p) (m, q')).2)) as -> by (unfold restore_param; cbn; by destruct (requires_grad q')).
  cbn [assoc]. case_bool_decide; [|exact IH]. intros [= <-]. exists q'. split; [done|]. unfold restore_param. cbn. by destruct (requires_grad q').
Qed.

Lemma schema_parts r s : schema_of r = Ok s ->
  s_parameters s = map (fun x => (x.1, layout_of (weight x.2))) (trained r) /\ s_buffers s = map (fun x => (x.1, layout_of x.2)) (buffers r) /\ s_devices s = cuda_devices r.
Proof. unfold schema_of. intros H. res_inv H. by subst. Qed.

(** What a rank checks of its own payload before the collective. *)
Record passes r (s : schema) p : Prop := {
  passes_optimizer : exists st, decode_state master_rounds (opt r) (trained r) (pl_optimizer p) (pl_parameters p) = Ok st;
  passes_devices : list_eqb Z.eqb (sorted_by Z.leb (map fst (pl_cuda_rng p))) (s_devices s) = true;
  passes_cuda : Forall (fun x => is_Some (assoc x.1 (cuda_rng r))) (pl_cuda_rng p) }.

Record prepared_from r (a : save_args) (x : prepared (D := D)) : Prop := {
  prepared_step : a_step a = PInt (pr_step x);
  prepared_schema : schema_of r = Ok (pr_schema x);
  prepared_payload : exists e, encode_state master_rounds (opt r) (trained r) = Ok e /\ pr_payload x = payload_of r (s_devices (pr_schema x)) e (a_position a) }.

Lemma prepare_parts r a x : prepare master_rounds r a = Ok x -> prepared_from r a x.
Proof.
  unfold prepare. intros H. res_inv H. subst x. assert (value1 = a_position a) as -> by (unfold json_value in *; by repeat case_match; simplify_eq).
  split; cbn [pr_step pr_schema pr_payload]; [|done|by eexists]. destruct (a_step a); try done. by res_inv R; subst.
Qed.

Lemma restored_cuda r0 r p s i : proper r0 -> passes r s p -> s_devices s = cuda_devices r0 ->
  pl_cuda_rng p = map (fun x => (x.1, to_device Cpu x.2)) (omap (fun i => (fun v => (i, v)) <$> assoc i (cuda_rng r0)) (cuda_devices r0)) -> i ∈ cuda_devices r0 ->
  assoc i (set_cuda (pl_cuda_rng p) (cuda_rng r)) = assoc i (cuda_rng r0).
Proof.
  intros H0 [_ Hd Hl] Es Ep Hi. assert (assoc i (pl_cuda_rng p) = assoc i (cuda_rng r0)) as Hp.
  { rewrite Ep, (assoc_map (fun _ => to_device Cpu)), assoc_omap_keys by done. destruct (assoc i (cuda_rng r0)) as [v|] eqn:E; [|done]. cbn. f_equal.
    apply to_device_same. apply assoc_some in E. pose proof (proper_cuda _ H0) as Hall. rewrite Forall_forall in Hall. exact (Hall _ E). }
  assert (i ∈ map fst (pl_cuda_rng p)) as Hin.
  { rewrite <- (sorted_by_perm Z.leb). replace (sorted_by Z.leb (map fst (pl_cuda_rng p))) with (s_devices s); [by rewrite Es|].
    symmetry. revert Hd. unfold list_eqb. generalize (s_devices s). induction (sorted_by Z.leb _) as [|x l IH]; intros [|y k]; cbn; try done.
    rewrite andb_true_iff. intros [Hn [Hx Hk]%andb_true_iff]. apply Z.eqb_eq in Hx as ->. f_equal. apply IH. by rewrite andb_true_iff. }
  unfold set_cuda. rewrite (assoc_map (fun j v => default v (assoc j (pl_cuda_rng p)))).
  apply list_elem_of_fmap in Hin as (x & -> & Hx). rewrite Forall_forall in Hl. destruct (Hl _ Hx) as [v ->]. cbn. rewrite Hp.
  destruct (assoc x.1 (cuda_rng r0)) eqn:E; [done|]. apply assoc_none in Hp. destruct Hp. by apply list_elem_of_fmap_2.
Qed.

(** The restored rank continues the saved one. *)
Lemma restored_training r0 a x r s : prepared_from r0 a x -> proper r0 -> proper r -> schema_of r = Ok s -> schema_eqb (pr_schema x) s = true ->
  passes r s (on_cpu (pr_payload x)) -> same_training r0 (restore master_rounds (on_cpu (pr_payload x)) r).
Proof.
  intros [_ Hs0 (e & He & Hp)] H0 H Hs Heq Hpass. destruct (schema_parts _ _ Hs0) as (Ep0 & Eb0 & Ed0). destruct (schema_parts _ _ Hs) as (Ep & Eb & Ed).
  unfold schema_eqb in Heq. rewrite !andb_true_iff in Heq. destruct Heq as [[[[[Hw Hb] _] _] _] Hdev]. apply bool_decide_eq_true in Hdev.
  assert (forall r n, weight <$> assoc n (trained r) = assoc n (map (fun x => (x.1, weight x.2)) (trained r))) as Hmap
    by (intros; by rewrite (assoc_map (fun _ => weight))).
  split.
  - intros n. rewrite trained_lookup, !Hmap, Hp. cbn [on_cpu payload_of pl_parameters].
    replace (map (fun x => (x.1, local_of (weight x.2))) (trained r0)) with (map (fun x => (x.1, local_of x.2)) (map (fun x => (x.1, weight x.2)) (trained r0))) by by rewrite map_map.
    apply copied_exact; rewrite ?map_map; [exact (proper_parameters _ H0)|exact (proper_parameters _ H)|]. cbn [fst snd]. by rewrite Ep0, Ep in Hw.
  - intros n. rewrite buffers_restore, Hp. rewrite (assoc_map (fun m => copied _ m)). cbn [on_cpu payload_of pl_buffers].
    apply copied_exact; [exact (proper_buffers _ H0)|exact (proper_buffers _ H)|by rewrite Eb0, Eb in Hb].
  - intros n q q0 Hq Hq0. apply trained_id in Hq as (q' & Hq' & Hid). unfold fields_of at 1. rewrite Hid. destruct (passes_optimizer _ _ _ Hpass) as [st Hst].
    cbn [restore opt o_state]. rewrite Hst. rewrite Hp in Hst.
    destruct (decode_state_exact _ _ _ _ _ _ _ n q' He (proper_ids _ H) Hst (assoc_some _ _ _ Hq')) as (q1 & Hq1 & ->). by simplify_eq.
  - rewrite Hp. apply to_device_same. exact (proper_cpu _ H0).
  - intros i Hi. eapply (restored_cuda r0 r _ s); [done|exact Hpass|by rewrite <- Hdev, Ed0| |done]. rewrite Hp. cbn. by rewrite Ed0.
Qed.

Lemma checked_exact world i d identity r st p : check_rank master_rounds deserialize sha256_hex generator_state world i d identity r = Ok (st, p) ->
  exists d' m rec s b, d = Some d' /\ check_manifest world d' identity = Ok m /\ m_step m = st /\ m_ranks m !! i = Some rec /\ schema_of r = Ok s
    /\ schema_eqb (r_schema rec) s = true /\ d' !! r_file rec = Some (Bytes b) /\ deserialize b = Ok p /\ passes r s p.
Proof.
  unfold check_rank. intros H. res_inv H. destruct d as [d'|]; [|done]. destruct (m_ranks value0 !! i) as [rec|] eqn:Er; [|done].
  destruct (value !! r_file value1) as [[b|]|] eqn:Ef; try done. simplify_eq. destr_bool.
  exists value, value0, value1, value2, value3. split_and!; try done. split; [by eexists|done|].
  apply Forall_forall. intros x Hx. apply not_eq_None_Some. intros E. apply existsb_false in G3. rewrite Forall_forall in G3. specialize (G3 x Hx). cbv beta in G3. by rewrite E in G3.
Qed.

(** ** The directory a save leaves *)

Lemma rank_file_inj i j : rank_file i = rank_file j -> i = j.
Proof. unfold rank_file. intros H. apply (inj (String.append _)) in H. apply string_app_inj_l in H. by apply (inj pretty). Qed.
Lemma rank_file_manifest i : rank_file i <> MANIFEST.
Proof. done. Qed.

Section Saving.
Context (ranks : list (rank_state * save_args)).
#[local] Notation saving := (saving (D := D)).
#[local] Notation prepared := (prepared (D := D)).
#[local] Notation directory := (gmap string content).

Definition all_prepared (ps : list prepared) : Prop := Forall2 (fun x y => prepare master_rounds x.1 x.2 = Ok y) ranks ps.
Definition has_files (d : directory) (ps : list prepared) : Prop := forall i y, ps !! i = Some y -> d !! rank_file i = Some (Bytes (serialize (pr_payload y))).

(** A manifest is published after all the files it names. *)
Definition published (d : directory) : Prop := exists y ps, all_prepared ps /\ has_files d ps /\ agrees ps y = true /\
  d !! MANIFEST = Some (Manifest (manifest_of y (imap (record_of serialize sha256_hex) ps))).
Definition loadable (w : option directory) : Prop := match w with None => True | Some d => d !! MANIFEST = None \/ published d end.

(** A save that returned: all ranks agree on what was published. *)
Definition completed (w : option directory) : Prop := exists d y ps, w = Some d /\ all_prepared ps /\ has_files d ps /\ y ∈ ps /\ forallb (agrees ps) ps = true /\
  d !! MANIFEST = Some (Manifest (manifest_of y (imap (record_of serialize sha256_hex) ps))).

Definition save_invariant (s : saving) : Prop :=
  match ph s with
  | Encoding => path s = None
  | Making ps => path s = None /\ all_prepared ps
  | Writing ps w => exists d, path s = Some d /\ d !! MANIFEST = None /\ all_prepared ps /\ length w = length ps /\
      forall i y, w !! i = Some (Some true) -> ps !! i = Some y -> d !! rank_file i = Some (Bytes (serialize (pr_payload y)))
  | Publishing ps => exists d, path s = Some d /\ d !! MANIFEST = None /\ all_prepared ps /\ has_files d ps
  | Finished r => loadable (path s) /\ (r = Ok tt -> completed (path s))
  end.

Lemma collected_ok {A} (l : list (res A)) k : collected l = Ok k -> Forall2 (fun a b => a = Ok b) l k.
Proof. unfold collected. destruct (traverse _ l) as [k'|] eqn:E; [|done]. intros [= <-]. by apply traverse_inv in E. Qed.

Lemma make_invariant o s s' : save_invariant s -> save_step master_rounds serialize sha256_hex ranks (Make o) s = Some s' -> save_invariant s'.
Proof.
  intros I H. cbn in H. unfold save_invariant in *. destruct (ph s) as [|ps|ps w|ps|r]; try done. destruct I as [Hp Hps]. rewrite Hp in H. injection H as <-.
  destruct o; cbn; [|done|split; [by left|done]]. exists ∅. split_and!; try done; [by rewrite length_replicate|]. intros i p Hw. by apply lookup_replicate in Hw as [? _].
Qed.

Lemma write_invariant i o s s' : save_invariant s -> save_step master_rounds serialize sha256_hex ranks (Write i o) s = Some s' -> save_invariant s'.
Proof.
  intros I H. cbn in H. unfold save_invariant in *. destruct (ph s) as [|ps|ps w|ps|r]; try done. destruct I as (d & Hp & Hm & Hps & Hl & Hf). rewrite Hp in H.
  destruct (ps !! i) as [p|] eqn:Ei; [|done]. destruct (w !! i) as [[b|]|] eqn:Ew; try done. injection H as <-. cbn. eexists. split; [done|]. split_and!.
  - destruct (installed o); [|done]. by rewrite lookup_insert_ne.
  - done.
  - by rewrite length_insert.
  - intros j q Hj Hq. destruct (decide (j = i)) as [->|Hne].
    + rewrite list_lookup_insert_eq in Hj by (by apply lookup_lt_Some in Ew). injection Hj as Hj. destruct o; try done. cbn. rewrite lookup_insert_eq. by simplify_eq.
    + rewrite list_lookup_insert_ne in Hj by done. destruct (installed o); [|by apply Hf]. rewrite lookup_insert_ne; [by apply Hf|]. by intros ?%rank_file_inj.
Qed.

Lemma collect_invariant s s' : save_invariant s -> save_step master_rounds serialize sha256_hex ranks Collect s = Some s' -> save_invariant s'.
Proof.
  intros I H. cbn in H. unfold save_invariant in *. destruct (ph s) as [|ps|ps w|ps|r]; try done. destruct I as (d & Hp & Hm & Hps & Hl & Hf).
  destruct (forallb _ w); [|done]. injection H as <-. destruct (forallb (fun x => bool_decide (x = Some true)) w) eqn:Ew; cbn; [|rewrite Hp; split; [by left|done]].
  exists d. split_and!; try done. intros i p Hi. apply Hf; [|done]. destruct (lookup_lt_is_Some_2 w i) as [b Hb]; [rewrite Hl; by apply lookup_lt_Some in Hi|].
  rewrite forallb_forall in Ew. specialize (Ew b). rewrite Hb. f_equal. apply (bool_decide_eq_true_1 (b = Some true)), Ew, list_elem_of_In. by apply list_elem_of_lookup_2 in Hb.
Qed.

Lemma publish_invariant o s s' : save_invariant s -> save_step master_rounds serialize sha256_hex ranks (Publish o) s = Some s' -> save_invariant s'.
Proof.
  intros I H. unfold save_step in H. unfold save_invariant in *. destruct (ph s) as [|ps|ps w|ps|r]; try done. destruct I as (d & Hp & Hm & Hps & Hf). rewrite Hp in H.
  destruct ps as [|p ps]; [done|]. destruct (agrees (p :: ps) p && sizes_match d _) eqn:E; apply (inj Some) in H; subst s'; cbn [ph path].
  - apply andb_true_iff in E as [E _]. set (l := imap (record_of serialize sha256_hex) (p :: ps)) in *.
    assert (forall d', d' = <[MANIFEST := Manifest (manifest_of p l)]> d -> has_files d' (p :: ps) /\ d' !! MANIFEST = Some (Manifest (manifest_of p l))) as Hd.
    { intros d' ->. split; [|by rewrite lookup_insert_eq]. intros i q Hi. rewrite lookup_insert_ne; [by apply Hf|]. intros Hx. by apply (rank_file_manifest i). }
    destruct (Hd _ eq_refl) as [Hd1 Hd2]. assert (loadable (Some (if installed o then <[MANIFEST := Manifest (manifest_of p l)]> d else d))) as Hl.
    { destruct (installed o); [right|by left]. by exists p, (p :: ps). }
    destruct (succeeded o && forallb (agrees (p :: ps)) (p :: ps)) eqn:Es; unfold failed; cbv beta iota; (split; [done|]); [|done]. intros _. apply andb_true_iff in Es as [Ho Ha].
    destruct o; [|discriminate Ho|discriminate Ho]. exists (<[MANIFEST := Manifest (manifest_of p l)]> d), p, (p :: ps). split_and!; try done. left.
  - unfold failed. cbv beta iota. split; [by left|done].
Qed.

Lemma save_step_invariant a s s' : save_invariant s -> save_step master_rounds serialize sha256_hex ranks a s = Some s' -> save_invariant s'.
Proof.
  destruct a as [|o|i o| |o]; [|apply make_invariant|apply write_invariant|apply collect_invariant|apply publish_invariant].
  intros I H. cbn in H. unfold save_invariant in *. destruct (ph s) as [|ps|ps w|ps|r]; try done. injection H as <-. destruct (collected _) as [ps|] eqn:E; cbn; [|rewrite I; by split].
  split; [done|]. apply collected_ok in E. apply Forall2_fmap_l in E. exact E.
Qed.

Lemma save_run_invariant l s : save_run master_rounds serialize sha256_hex ranks l {| path := None; ph := Encoding |} = Some s -> save_invariant s.
Proof.
  intros H. assert (save_invariant {| path := None; ph := Encoding |}) as I by done. revert H I. generalize {| path := None; ph := Encoding (D := D) |}.
  induction l as [|a l IH]; intros s0; cbn [save_run]; [by intros [= ->]|]. destruct (save_step _ _ _ _ a s0) as [s1|] eqn:E; [|done].
  intros H I. apply (IH s1 H). by eapply save_step_invariant.
Qed.

Lemma save_run_loadable l s : save_run master_rounds serialize sha256_hex ranks l {| path := None; ph := Encoding |} = Some s -> loadable (path s).
Proof.
  intros I%save_run_invariant. unfold save_invariant in I. destruct (ph s) as [|ps|ps w|ps|r]; [by rewrite I|by destruct I as [-> _]| | |apply I]; destruct I as (d & -> & Hm & _); by left.
Qed.

(** ** Loading what a save left *)

#[local] Notation run := (save_run master_rounds serialize sha256_hex ranks).
#[local] Notation checked := (check_rank master_rounds deserialize sha256_hex generator_state).
#[local] Notation load := (load_checkpoint master_rounds deserialize sha256_hex generator_state).

(** [torch.load] gives back, on the CPU, what [torch.save] was given. *)
Definition loads_back : Prop := Forall (fun x => forall y, prepare master_rounds x.1 x.2 = Ok y -> deserialize (serialize (pr_payload y)) = Ok (on_cpu (pr_payload y))) ranks.

Lemma agrees_step (ps : list prepared) y z : agrees ps y = true -> z ∈ ps -> pr_step z = pr_step y.
Proof. unfold agrees. rewrite forallb_forall. intros H Hz%list_elem_of_In. apply H, andb_true_iff in Hz as [_ Hz]. by apply Z.eqb_eq. Qed.

(** A manifest that passes its checks was published by the save. *)
Lemma checked_manifest world d ident m : loadable (Some d) -> check_manifest world d ident = Ok m ->
  world = length ranks /\ exists y ps, all_prepared ps /\ has_files d ps /\ agrees ps y = true /\ m = manifest_of y (imap (record_of serialize sha256_hex) ps).
Proof.
  intros Hd Hm. unfold check_manifest in Hm. res_inv Hm. subst. destruct (d !! MANIFEST) as [[|m']|] eqn:Hman; try done. destr_bool.
  destruct Hd as [Hd|(y & ps & Hps & Hf & Hag & Hd)]; [congruence|]. assert (m = manifest_of y (imap (record_of serialize sha256_hex) ps)) as -> by congruence.
  split; [|by exists y, ps]. cbn [manifest_of world_size] in *. rewrite length_imap in *. apply Forall2_length in Hps. lia.
Qed.

(** A rank that passes its checks resumes its saved state. *)
Lemma checked_restores world i d ident r0 a r st p : loads_back -> loadable (Some d) -> ranks !! i = Some (r0, a) -> proper r0 -> proper r ->
  checked world i (Some d) ident r = Ok (st, p) ->
  a_step a = PInt st /\ data_position p = a_position a /\ same_training r0 (restore master_rounds p r).
Proof.
  intros Hload Hd Hi H0 H Hc. destruct (checked_exact _ _ _ _ _ _ _ Hc) as (d' & m & rec & s & b & [= <-] & Hm & <- & Hrec & Hs & Heq & Hb & Hp & Hpass).
  destruct (checked_manifest _ _ _ _ Hd Hm) as (_ & y & ps & Hps & Hf & Hag & ->). cbn [manifest_of m_ranks m_step] in *.
  destruct (Forall2_lookup_l _ _ _ _ _ Hps Hi) as (x & Hx & Hprep). cbn [fst snd] in Hprep. rewrite list_lookup_imap, Hx in Hrec. injection Hrec as <-.
  cbn [record_of r_file r_schema] in *. rewrite (Hf i x Hx) in Hb. injection Hb as <-.
  pose proof (Forall_lookup_1 _ _ _ _ Hload Hi) as Hback. cbn in Hback. rewrite (Hback _ Hprep) in Hp. injection Hp as <-.
  pose proof (prepare_parts _ _ _ Hprep) as Hparts. split; [|split].
  - rewrite <- (agrees_step ps y x Hag) by (by eapply list_elem_of_lookup_2). exact (prepared_step _ _ _ Hparts).
  - destruct (prepared_payload _ _ _ Hparts) as (e & _ & ->). done.
  - by eapply restored_training.
Qed.

(** All ranks pass. *)
Lemma loaded_ranks (w : option directory) (live : list (rank_state * pyval)) answers : loads_back -> loadable w -> Forall (fun x => proper x.1) ranks -> Forall (fun x => proper x.1) live -> live <> [] ->
  Forall2 (fun a b => a = Ok b) (imap (fun i x => checked (length live) i w x.2 x.1) live) answers ->
  length live = length ranks /\ length answers = length live /\
  forall i r0 a r1 ident st q, ranks !! i = Some (r0, a) -> live !! i = Some (r1, ident) -> answers !! i = Some (st, q) ->
    a_step a = PInt st /\ data_position q = a_position a /\ same_training r0 (restore master_rounds q r1).
Proof.
  intros Hload Hw Hp Hl Hne E. pose proof (Forall2_length _ _ _ E) as Hlen. rewrite length_imap in Hlen.
  assert (forall i r1 ident, live !! i = Some (r1, ident) -> exists st q, answers !! i = Some (st, q) /\ checked (length live) i w ident r1 = Ok (st, q)) as Hchk.
  { intros i r1 ident Hi. destruct (Forall2_lookup_l _ _ _ i _ E ltac:(by rewrite list_lookup_imap, Hi)) as ([st q] & Ha & Hx). by exists st, q. }
  assert (exists d, w = Some d /\ length live = length ranks) as (d & -> & Hlr).
  { destruct live as [|[r1 ident] live]; [done|]. destruct (Hchk 0%nat r1 ident eq_refl) as (st & q & _ & Hc).
    destruct (checked_exact _ _ _ _ _ _ _ Hc) as (d & m & rec & s & b & -> & Hm & _). exists d. split; [done|]. by destruct (checked_manifest _ _ _ _ Hw Hm). }
  split_and!; [done|done|]. intros i r0 a r1 ident st q Hi Hi1 Ha. destruct (Hchk i r1 ident Hi1) as (st' & q' & Ha' & Hc). rewrite Ha in Ha'. injection Ha' as <- <-.
  apply (checked_restores (length live) i d ident r0 a r1 st q); [done|done|done| | |done].
  - exact (Forall_lookup_1 _ _ _ _ Hp Hi).
  - exact (Forall_lookup_1 _ _ _ _ Hl Hi1).
Qed.
End Saving.
End Results.

(** C9. [save_checkpoint] may stop anywhere: a rank may fail or the job may die
    before or after any file is put in place. Whatever directory it leaves at a
    path that was free, [load_checkpoint] either raises on every rank with no
    rank changed, or the job has as many ranks as the saved one and each
    resumes its own state exactly: trained weights, buffers, optimizer state of
    every parameter and random states, at the saved step and data position;
    frozen parameters and the optimizer's groups stay as they were and no
    gradient is left. *)
Theorem sft_load_exact {D} (master_rounds : D -> D -> bool) serialize deserialize sha256_hex generator_state
    (ranks : list (rank_state (D := D) * save_args)) l s live after r :
  loads_back master_rounds serialize deserialize ranks ->
  Forall (fun x => proper x.1) ranks -> Forall (fun x => proper x.1) live -> live <> [] ->
  save_run master_rounds serialize sha256_hex ranks l {| path := None; ph := Encoding |} = Some s ->
  load_checkpoint master_rounds deserialize sha256_hex generator_state (path s) live = (after, r) ->
  match r with
  | Err _ => after = map fst live
  | Ok answers =>
      length live = length ranks /\
      forall i r0 a r1 ident, ranks !! i = Some (r0, a) -> live !! i = Some (r1, ident) ->
        exists r' step, after !! i = Some r' /\ answers !! i = Some (step, a_position a) /\ a_step a = PInt step
          /\ same_training r0 r' /\ kept_rest r1 r'
  end.
Proof.
  intros Hb Hp Hl Hne Hs%save_run_loadable H. unfold load_checkpoint in H.
  destruct (collected _) as [answers|] eqn:E; injection H as <- <-; [|done]. apply collected_ok in E.
  destruct (loaded_ranks _ _ _ _ _ _ _ _ _ Hb Hs Hp Hl Hne E) as (Hlen & Hans & Hall). split; [done|]. intros i r0 a r1 ident Hi Hi1.
  destruct (lookup_lt_is_Some_2 answers i) as [[st q] Ha]; [rewrite Hans; by apply lookup_lt_Some in Hi1|].
  destruct (Hall _ _ _ _ _ _ _ Hi Hi1 Ha) as (Hst & Hpos & Hsame). exists (restore master_rounds q r1), st.
  rewrite lookup_zip_with, list_lookup_fmap, Ha, Hi1. cbn. rewrite Hpos. split_and!; try done. apply restore_keeps_rest.
Qed.

(** ** Two ranks resume on a fresh job *)

Definition toy_value (d : Z) : value := {| v_shape := [2]; v_dtype := "torch.float32"; v_device := Cuda 0; v_data := d |}.
Definition toy_generator (x : device) (d : Z) : value := {| v_shape := [3]; v_dtype := "torch.uint8"; v_device := Cpu; v_data := d |}.
Definition toy_rank (w b : Z) (fields : list (string * state_value)) (g : Z) : rank_state :=
  {| named_parameters := [("w", {| p_id := 1; requires_grad := true; weight := Plain (toy_value w); p_grad := Some 9 |});
                          ("base", {| p_id := 2; requires_grad := false; weight := Plain (toy_value 5); p_grad := None |})];
     named_modules := [{| m_name := "layer"; m_buffers := [("scale", (true, Plain (toy_value b))); ("cache", (false, Plain (toy_value 0)))]; m_attributes := [("layer_id", 0)] |}];
     opt := {| o_type := "SGD"; param_groups := [{| options := [("lr", PInt 1); ("momentum", PInt 1)]; g_params := [1] |}];
               o_state := match fields with [] => [] | _ => [(1, fields)] end |};
     cpu_rng := toy_generator Cpu g; cuda_rng := [(0, toy_generator (Cuda 0) g)] |}.

Definition toy_args (z : Z) : save_args := {| a_step := PInt 7; a_identity := PDict [("base", PStr "model")]; a_position := PInt z |}.
Definition toy_ranks : list (rank_state * save_args) :=
  [(toy_rank 11 12 [("momentum_buffer", StateTensor (Plain (toy_value 13)))] 14, toy_args 40); (toy_rank 21 22 [] 24, toy_args 41)].
Definition toy_live : list (rank_state * pyval) := [(toy_rank 0 0 [] 0, PDict [("base", PStr "model")]); (toy_rank 0 0 [] 0, PDict [("base", PStr "model")])].

Definition toy_rounds (_ _ : Z) : bool := true.
(** A file is the text of its data position; reading it finds the payload. *)
Definition toy_serialize (p : payload (D := Z)) : string := match data_position p with PInt z => pretty z | _ => "" end.
Definition toy_payloads : list payload := omap (fun x => match prepare toy_rounds x.1 x.2 with Ok y => Some (pr_payload y) | Err _ => None end) toy_ranks.
Definition toy_deserialize (s : string) : res payload :=
  match find (fun p => bool_decide (toy_serialize p = s)) toy_payloads with Some p => Ok (on_cpu p) | None => Err (ValueError "not a payload") end.

Definition toy_run := save_run toy_rounds toy_serialize id toy_ranks [Encode; Make Done; Write 1 Done; Write 0 Done; Collect; Publish Done] {| path := None; ph := Encoding |}.
Definition toy_load (w : option (gmap string content)) := load_checkpoint toy_rounds toy_deserialize id (fun _ => true) w toy_live.
Definition toy_answers : res (list (Z * pyval)) := match toy_run with Some s => (toy_load (path s)).2 | None => Err (ValueError "no run") end.
Lemma toy_resumes : toy_answers = Ok [(7, PInt 40); (7, PInt 41)].
Proof. vm_compute. reflexivity. Qed.

Lemma toy_proper w b fields g : proper (toy_rank w b fields g).
Proof.
  split; [apply (bool_decide_unpack _); vm_compute; exact I|apply (bool_decide_unpack _); vm_compute; exact I|apply (bool_decide_unpack _); vm_compute; exact I|done|].
  repeat constructor.
Qed.

Lemma toy_ranks_proper : Forall (fun x => proper x.1) toy_ranks.
Proof. constructor; [apply toy_proper|]. constructor; [apply toy_proper|constructor]. Qed.
Lemma toy_live_proper : Forall (fun x => proper x.1) toy_live.
Proof. constructor; [apply toy_proper|]. constructor; [apply toy_proper|constructor]. Qed.

Lemma toy_loads_back : loads_back toy_rounds toy_serialize toy_deserialize toy_ranks.
Proof. repeat constructor; intros y; vm_compute; by intros [= <-]. Qed.

Lemma sft_load_exact_witness : exists s after answers r', toy_run = Some s /\ toy_load (path s) = (after, Ok answers) /\ after !! 0%nat = Some r'
  /\ same_training (toy_rank 11 12 [("momentum_buffer", StateTensor (Plain (toy_value 13)))] 14) r' /\ kept_rest (toy_rank 0 0 [] 0) r'.
Proof.
  pose proof toy_resumes as H. unfold toy_answers in H. destruct toy_run as [s|] eqn:E; [|discriminate H]. destruct (toy_load (path s)) as [after r] eqn:El.
  cbn [snd] in H. rewrite H in El.
  destruct (sft_load_exact toy_rounds toy_serialize toy_deserialize id (fun _ => true) toy_ranks _ s toy_live after _ toy_loads_back
    toy_ranks_proper toy_live_proper ltac:(discriminate) E El) as [_ Hall].
  destruct (Hall 0%nat _ _ _ _ eq_refl eq_refl) as (r' & step & Ha & _ & _ & Hs & Hk). exists s, after, [(7, PInt 40); (7, PInt 41)], r'. by split_and!.
Defined.
