(* ===== verification/SftResume.v ===== *)
(** * A published snapshot resumes a restarted job

    A save that returned is loaded by every later job of the same construction,
    whatever its tensors, optimizer state and generators hold. *)

From stdpp Require Import pretty.
From S2P Require Import Prelude StateRes PyValue TrainingProofs SftCheckpoint SftCheckpointResults.
Local Open Scope Z_scope.

Section Resume.
Context {D : Type} (master_rounds : D -> D -> bool).
#[local] Notation value := (value (D := D)).
#[local] Notation tensor := (tensor (D := D)).
#[local] Notation payload := (payload (D := D)).
#[local] Notation rank_state := (rank_state (D := D)).
#[local] Notation param := (param (D := D)).
#[local] Notation directory := (gmap string content).
Implicit Types (v w : value) (t : tensor) (p : payload) (r : rank_state).
Context (serialize : payload -> string) (deserialize : string -> res payload) (sha256_hex : string -> string) (generator_state : value -> bool).

(** ** The same job, constructed again *)

(** Parameters and modules agree in all but their data. *)
Definition like_param (x y : string * param) : Prop :=
  x.1 = y.1 /\ p_id x.2 = p_id y.2 /\ requires_grad x.2 = requires_grad y.2 /\ layout_of (weight x.2) = layout_of (weight y.2).
Definition like_buffer (x y : string * (bool * tensor)) : Prop := x.1 = y.1 /\ x.2.1 = y.2.1 /\ layout_of x.2.2 = layout_of y.2.2.
Definition like_module (x y : module_ (D := D)) : Prop := m_name x = m_name y /\ m_attributes x = m_attributes y /\ Forall2 like_buffer (m_buffers x) (m_buffers y).

(** Objects are numbered in the order in which the job makes them. *)
Record restarted (r r1 : rank_state) : Prop := {
  re_parameters : Forall2 like_param (named_parameters r) (named_parameters r1);
  re_modules : Forall2 like_module (named_modules r) (named_modules r1);
  re_type : o_type (opt r1) = o_type (opt r);
  re_groups : param_groups (opt r1) = param_groups (opt r);
  re_state : Forall (fun x => is_Some (name_of (trained r1) x.1)) (o_state (opt r1));
  re_cuda : forall i v, assoc i (cuda_rng r) = Some v -> exists v1, assoc i (cuda_rng r1) = Some v1 /\ v_shape v1 = v_shape v }.

Lemma trained_like r r1 : restarted r r1 -> Forall2 like_param (trained r) (trained r1).
Proof.
  intros H. unfold trained. induction (re_parameters _ _ H) as [|x y l k (E1 & E2 & E3 & E4) _ IH]; [constructor|].
  destruct (decide (requires_grad x.2 = true)) as [Hx|Hx].
  - rewrite !filter_cons_True by congruence. constructor; [by split_and!|done].
  - rewrite !filter_cons_False by congruence. done.
Qed.

Lemma Forall2_map_eq {A B C} (R : A -> B -> Prop) (f : A -> C) (g : B -> C) l k : (forall x y, R x y -> f x = g y) -> Forall2 R l k -> map f l = map g k.
Proof. intros H. induction 1 as [|x y l k Hx _ IH]; [done|]. cbn. by rewrite (H _ _ Hx), IH. Qed.

Lemma buffers_like r r1 : restarted r r1 -> map (fun x => (x.1, layout_of x.2)) (buffers r) = map (fun x => (x.1, layout_of x.2)) (buffers r1).
Proof.
  intros H. unfold buffers. induction (re_modules _ _ H) as [|m m' l k (E1 & E2 & E3) _ IH]; [done|]. cbn [mbind list_bind]. rewrite !map_app, IH. f_equal.
  unfold module_buffers. induction E3 as [|x y bs cs (F1 & F2 & F3) _ IHb]; [done|].
  assert (saved_buffer m x = saved_buffer m' y) as Hs by (unfold saved_buffer; by rewrite E1, F1, F2). destruct (saved_buffer m x) eqn:E.
  - rewrite !filter_cons_True by congruence. cbn [map fst snd]. by rewrite IHb, E1, F1, F3.
  - rewrite !filter_cons_False by congruence. done.
Qed.

Lemma ownership_like r r1 : restarted r r1 -> ownership r = ownership r1.
Proof.
  intros H. unfold ownership. induction (re_modules _ _ H) as [|m m' l k (E1 & E2 & E3) _ IH]; [done|].
  assert (owned m = owned m') as Ho by (unfold owned; by rewrite E2). destruct (decide (owned m <> [])) as [Hm|Hm].
  - rewrite !filter_cons_True by (by rewrite <- ?Ho). cbn [map]. by rewrite IH, E1, Ho.
  - rewrite !filter_cons_False by (by rewrite <- ?Ho). done.
Qed.

Lemma cuda_index_layout t : cuda_index (local_of t) = match l_device (layout_of t) with Cuda i => Some i | Cpu => None end.
Proof. done. Qed.

Lemma cuda_devices_like r r1 : restarted r r1 -> cuda_devices r = cuda_devices r1.
Proof.
  intros H. unfold cuda_devices. do 2 f_equal. rewrite !omap_app. f_equal.
  - induction (re_parameters _ _ H) as [|x y l k (_ & _ & _ & E) _ IH]; [done|]. cbn. by rewrite !cuda_index_layout, E, IH.
  - induction (re_modules _ _ H) as [|m m' l k (_ & _ & E) _ IH]; [done|]. cbn [mbind list_bind]. rewrite !omap_app, IH. f_equal.
    induction E as [|x y bs cs (_ & _ & F) _ IHb]; [done|]. cbn. by rewrite !cuda_index_layout, F, IHb.
Qed.

Lemma name_of_like ps ps1 i : Forall2 like_param ps ps1 -> name_of ps i = name_of ps1 i.
Proof. intros H. unfold name_of. f_equal. eapply Forall2_map_eq; [|exact H]. intros x y (E1 & E2 & _). by rewrite E1, E2. Qed.

Lemma param_of_like ps ps1 i : Forall2 like_param ps ps1 ->
  (fun q => layout_of (weight q)) <$> param_of ps i = (fun q => layout_of (weight q)) <$> param_of ps1 i.
Proof.
  intros H. unfold param_of. induction H as [|x y l k (E1 & E2 & _ & E4) _ IH]; [done|]. cbn. rewrite E2. case_bool_decide; [|done]. cbn. by rewrite E4.
Qed.

Lemma group_spec_like o o1 ps ps1 g : Forall2 like_param ps ps1 -> o_type o1 = o_type o -> group_spec o1 ps1 g = group_spec o ps g.
Proof.
  intros H Ht. unfold group_spec. rewrite Ht.
  assert (forall f : option string -> bool, existsb (fun i => f (name_of ps1 i)) (g_params g) = existsb (fun i => f (name_of ps i)) (g_params g)) as Hn.
  { intros f. induction (g_params g) as [|i l IH]; [done|]. cbn. by rewrite IH, (name_of_like _ _ i H). }
  pose proof (Hn (fun x => bool_decide (x = None))) as E. cbv beta in E. rewrite E. clear E Hn. destruct (existsb _ (g_params g)); [done|].
  assert (omap (name_of ps1) (g_params g) = omap (name_of ps) (g_params g)) as ->.
  { induction (g_params g) as [|i l IH]; [done|]. cbn. rewrite IH, (name_of_like _ _ i H). done. }

  match goal with |- context [existsb ?f (g_params g)] => assert (existsb f (g_params g) = existsb (fun i => match param_of ps i with
    | Some q => match weight q with Sharded v _ _ => negb (bool_decide (v_dtype v = "torch.bfloat16")) | Plain _ => true end | None => true end) (g_params g)) as -> end; [|done].
  induction (g_params g) as [|i l IH]; [done|]. cbn. rewrite IH. f_equal. pose proof (param_of_like _ _ i H) as E.
  destruct (param_of ps i) as [q|], (param_of ps1 i) as [q1|]; try done. cbn in E. apply (inj Some) in E.
  destruct (weight q) as [v|v sh m], (weight q1) as [v1|v1 sh1 m1]; try done. by injection E as _ _ -> _ _.
Qed.

Lemma schema_like r r1 s : restarted r r1 -> schema_of r = Ok s -> schema_of r1 = Ok s.
Proof.
  intros H Hs. pose proof (trained_like _ _ H) as Ht. unfold schema_of in *.
  destruct (optimizer_spec (opt r) (trained r)) as [spec|] eqn:Eo; [|done].
  assert (optimizer_spec (opt r1) (trained r1) = Ok spec) as ->.
  { unfold optimizer_spec in *. rewrite (re_type _ _ H), (re_groups _ _ H). destruct (negb _); [done|].
    assert (traverse (group_spec (opt r1) (trained r1)) (param_groups (opt r)) = traverse (group_spec (opt r) (trained r)) (param_groups (opt r))) as ->.
    { clear Eo. induction (param_groups (opt r)) as [|g l IH]; [done|]. cbn [traverse]. by rewrite IH, (group_spec_like _ _ _ _ g Ht (re_type _ _ H)). }
    destruct (traverse _ _) as [groups|]; [|done]. assert (map fst (trained r1) = map fst (trained r)) as -> by (symmetry; eapply Forall2_map_eq; [|exact Ht]; by intros x y [-> _]).
    destruct (negb _ || _ || _); [done|]. destruct (existsb _ (o_state (opt r))); [done|]. rewrite (proj2 (existsb_false _ _)); [exact Eo|].
    eapply Forall_impl; [exact (re_state _ _ H)|]. intros x [n Hn]. by rewrite Hn. }
  rewrite <- (buffers_like _ _ H), <- (ownership_like _ _ H), <- (cuda_devices_like _ _ H).
  replace (map (fun x => (x.1, layout_of (weight x.2))) (trained r1)) with (map (fun x => (x.1, layout_of (weight x.2))) (trained r)); [exact Hs|].
  eapply Forall2_map_eq; [|exact Ht]. by intros x y (-> & _ & _ & ->).
Qed.

(** ** A restarted rank passes its checks on what was saved *)

(** What [torch] keeps: an optimizer's fields have the layout of their
    parameter, a step is a scalar, and every CUDA device has a generator. *)
Record torch_state r : Prop := {
  torch_modules : NoDup (map m_name (named_modules r));
  torch_options : Forall (fun g => distinct_keys (PDict (options g)) = true) (param_groups (opt r));
  torch_fields : forall n q g, (n, q) ∈ trained r -> group_of (opt r) (p_id q) = Some g -> NoDup (map fst (fields_of (opt r) q)) /\
    forall k t, (k, StateTensor t) ∈ fields_of (opt r) q -> k <> "master_weight" ->
      if bool_decide (k = "step")
      then l_mesh (layout_of t) = None /\ v_shape (local_of t) = [] /\ v_dtype (local_of t) ∈ ["torch.float32"; "torch.float64"]
        /\ v_device (local_of t) = if py_truthy (get_none "capturable" (options g)) || py_truthy (get_none "fused" (options g)) then v_device (local_of (weight q)) else Cpu
      else layout_of t = layout_of (weight q);
  torch_cuda : forall i, i ∈ cuda_devices r -> exists v, assoc i (cuda_rng r) = Some v /\ v_dtype v = "torch.uint8";
  torch_cpu : generator_state (to_device Cpu (cpu_rng r)) = true }.

Lemma same_names_refl l : same_names l l = true.
Proof. unfold same_names. rewrite andb_true_iff, forallb_forall. split; intros x Hx; by apply bool_decide_eq_true_2, list_elem_of_In. Qed.

Lemma dict_eqb_refl {A} (eqb : A -> A -> bool) (l : list (string * A)) : NoDup (map fst l) -> Forall (fun x => eqb x.2 x.2 = true) l -> dict_eqb eqb l l = true.
Proof.
  intros Hn Hl. unfold dict_eqb. rewrite Nat.eqb_refl. apply forallb_forall. intros [k v] Hx%list_elem_of_In. rewrite Forall_forall in Hl.
  cbn [fst snd]. rewrite (assoc_in k l v Hn Hx). exact (Hl _ Hx).
Qed.

Lemma list_eqb_refl {A} (eqb : A -> A -> bool) (l : list A) : Forall (fun x => eqb x x = true) l -> list_eqb eqb l l = true.
Proof. unfold list_eqb. rewrite Nat.eqb_refl. induction 1 as [|x l Hx _ IH]; [done|]. cbn. by rewrite Hx. Qed.

Lemma dec_eqb_refl {A} `{EqDecision A} (x : A) : dec_eqb x x = true.
Proof. by apply bool_decide_eq_true_2. Qed.

Lemma owned_names (m : module_ (D := D)) : NoDup (map fst (owned m)).
Proof.
  assert (forall fs, NoDup fs -> NoDup (map fst (omap (fun f => (fun z : Z => (f, z)) <$> assoc f (m_attributes m)) fs))) as H; [|apply H; by apply (bool_decide_unpack _); vm_compute].
  induction 1 as [|f fs Hf _ IH]; [constructor|]. cbn. destruct (assoc f _) as [z|]; cbn; [|done]. constructor; [|done].
  intros ([k v] & -> & Hk)%list_elem_of_fmap. apply list_elem_of_omap in Hk as (k' & Hin & Hk). destruct (assoc k' _); [|done]. by injection Hk as <- _.
Qed.

Lemma group_spec_refl (o : optimizer (D := D)) ps : Forall (fun g => distinct_keys (PDict (options g)) = true) (param_groups o) -> forall l, traverse (group_spec o ps) (param_groups o) = Ok l ->
  list_eqb (fun g h => py_eqb g.1 h.1 && dec_eqb g.2 h.2) l l = true.
Proof.
  intros Hg l Hl%traverse_inv. apply list_eqb_refl. induction Hl as [|g x gs l Hx _ IH]; constructor; [|by inversion Hg; auto].
  unfold group_spec in Hx. res_inv Hx. subst x. cbn [fst snd]. rewrite dec_eqb_refl, andb_true_r. unfold json_value in R. destruct (json_finite _) eqn:E; [|done].
  injection R as <-. apply py_eqb_refl; [done|by inversion Hg].
Qed.

Lemma schema_refl r s : proper r -> torch_state r -> schema_of r = Ok s -> schema_eqb s s = true.
Proof.
  intros Hp Ht H. destruct (schema_parts _ _ H) as (E1 & E2 & _). unfold schema_of in H. res_inv H. subst s. cbn [s_parameters s_buffers] in *. unfold schema_eqb. cbn [s_parameters s_buffers s_ownership s_optimizer s_devices].
  rewrite !andb_true_iff. split_and!.
  - apply dict_eqb_refl; [rewrite map_map; apply (proper_parameters _ Hp)|]. apply Forall_forall. intros ? _. apply dec_eqb_refl.
  - apply dict_eqb_refl; [rewrite map_map; apply (proper_buffers _ Hp)|]. apply Forall_forall. intros ? _. apply dec_eqb_refl.
  - unfold ownership. apply dict_eqb_refl.
    + rewrite map_map. cbn. eapply sublist_NoDup; [exact (torch_modules _ Ht)|]. apply fmap_sublist, sublist_filter.
    + apply Forall_forall. intros x (m & -> & _)%list_elem_of_fmap. cbn. apply dict_eqb_refl; [apply owned_names|]. apply Forall_forall. intros ? _. apply Z.eqb_refl.
  - apply dec_eqb_refl.
  - unfold optimizer_spec in R. res_inv R. subst. cbn [snd]. eapply group_spec_refl; [exact (torch_options _ Ht)|eassumption].
  - apply dec_eqb_refl.
Qed.

Lemma section_refl what (l : list (string * tensor)) : NoDup (map fst l) ->
  validate_section what (on_cpu_values (map (fun x => (x.1, local_of x.2)) l)) (map (fun x => (x.1, layout_of x.2)) l) = Ok tt.
Proof.
  intros Hn. unfold validate_section, on_cpu_values. rewrite !map_map. cbn [fst snd]. rewrite same_names_refl. cbn [negb].
  erewrite traverse_ok; [done|]. apply Forall2_same_length_lookup_2 with (l := map _ l) (k := map (fun _ => tt) l); [by rewrite !length_map|].
  intros i x y Hx Hy. rewrite !list_lookup_fmap in *. destruct (l !! i) as [[n t]|] eqn:E; [|done]. cbn in Hx, Hy. simplify_eq. cbn [fst snd].
  rewrite (assoc_in n _ (layout_of t)); [|by rewrite map_map|apply (list_elem_of_fmap_2 (fun x => (x.1, layout_of x.2)) _ (n, t)); by eapply list_elem_of_lookup_2].
  unfold validate_tensor. cbn. by rewrite !bool_decide_eq_true_2 by done.
Qed.

(** One field of a state is decoded on the parameter it came from. *)
Lemma decode_value_again o g (q q1 : param) n values k t : layout_of (weight q) = layout_of (weight q1) -> assoc n values = Some (to_device Cpu (local_of (weight q))) ->
  (k = "master_weight" -> validate_master master_rounds t (local_of (weight q)) n = Ok tt) ->
  (k <> "master_weight" -> if bool_decide (k = "step")
      then l_mesh (layout_of t) = None /\ v_shape (local_of t) = [] /\ v_dtype (local_of t) ∈ ["torch.float32"; "torch.float64"]
        /\ v_device (local_of t) = if py_truthy (get_none "capturable" (options g)) || py_truthy (get_none "fused" (options g)) then v_device (local_of (weight q)) else Cpu
      else layout_of t = layout_of (weight q)) ->
  is_ok (decode_value master_rounds o g values n q1 (k, (layout_of t, to_device Cpu (local_of t)))) = true.
Proof.
  intros Hq Hv Hm Hk. assert (v_shape (local_of (weight q1)) = v_shape (local_of (weight q))) as Es by exact (f_equal l_local_shape (eq_sym Hq)).
  assert (v_device (local_of (weight q1)) = v_device (local_of (weight q))) as Ed by exact (f_equal l_device (eq_sym Hq)).
  unfold decode_value. rewrite Es, Ed, <- Hq. assert (validate_tensor (to_device Cpu (local_of t)) (layout_of t) (n +:+ "." +:+ k) = Ok tt) as ->.
  { unfold validate_tensor. cbn. by rewrite !bool_decide_eq_true_2 by done. }
  destruct (decide (k = "master_weight")) as [E1|E1].
  - rewrite (bool_decide_eq_true_2 _ E1), Hv. specialize (Hm E1). unfold validate_master in *. destruct t as [v|v sh m]; [|done]. res_inv Hm. destr_bool. cbn [local_of] in *.
    rewrite bool_decide_eq_true_2; [|unfold layout_of; cbn; congruence]. cbn. rewrite !bool_decide_eq_true_2 by congruence. cbn.
    by rewrite Hm.
  - rewrite (bool_decide_eq_false_2 _ E1). specialize (Hk E1). destruct (bool_decide (k = "step")); [|by rewrite bool_decide_eq_true_2].
    destruct Hk as (Hmesh & Hs & Hd & Hx). rewrite Hmesh. cbn [to_device v_shape v_dtype l_device layout_of]. rewrite Hs, Hx.
    rewrite !bool_decide_eq_true_2 by done. rewrite bool_decide_eq_false_2 by (by intros [? ?]). by rewrite bool_decide_eq_true_2.
Qed.

Lemma is_ok_traverse {A B} (f : A -> res B) l : Forall (fun x => is_ok (f x) = true) l -> exists k, traverse f l = Ok k.
Proof.
  induction 1 as [|x l Hx _ (k & IH)]; cbn [traverse]; [by eexists|]. destruct (f x) as [y|]; [|done]. rewrite IH. by eexists.
Qed.

Lemma validate_master_field (o : optimizer (D := D)) g keys n : validate_fields keys o g n = Ok tt -> "master_weight" ∈ keys -> is_master g = true.
Proof.
  unfold validate_fields. intros H Hin. destruct (is_master g) eqn:Em; [done|]. exfalso. destruct (expected_fields o g) as [ks|] eqn:E; [|done].
  assert (same_names keys ks = true) as Hs.
  { unfold raise_if in H. rewrite orb_false_r in H. rewrite bool_decide_eq_false_2 in H by (intros ->; by apply elem_of_nil in Hin). cbn in H. by destruct (same_names keys ks). }
  apply (same_names_elem _ _ Hs) in Hin. revert Hin. unfold expected_fields in E. rewrite Em in E. destruct (bool_decide (o_type o = "SGD")); res_inv E; subst ks; case_match; by apply (bool_decide_unpack _).
Qed.

Lemma encode_names o ps e : encode_state master_rounds o ps = Ok e -> map fst e = map fst ps.
Proof.
  intros H%traverse_inv. induction H as [|[m x] [m' y] l k Hx _ IH]; [done|]. cbn. rewrite IH. f_equal. unfold encode_param in Hx. cbn [fst snd] in Hx.
  destruct (group_of _ _); [|done]. by res_inv Hx.
Qed.

Lemma group_of_like (o o1 : optimizer (D := D)) i : param_groups o1 = param_groups o -> group_of o1 i = group_of o i.
Proof. intros H. unfold group_of. by rewrite H. Qed.
Lemma validate_fields_like keys (o o1 : optimizer (D := D)) g n : o_type o1 = o_type o -> validate_fields keys o1 g n = validate_fields keys o g n.
Proof. intros H. unfold validate_fields, expected_fields. by rewrite H. Qed.

Lemma assoc_on_cpu n (e : encoded (D := D)) : assoc n (on_cpu_encoded e) = fields_on_cpu <$> assoc n e.
Proof. exact (assoc_map (fun _ => fields_on_cpu) n e). Qed.

Lemma fields_keys n (fields : list (string * state_value (D := D))) enc : traverse (encode_value n) fields = Ok enc -> map fst (fields_on_cpu enc) = map fst fields.
Proof.
  intros H%traverse_inv. unfold fields_on_cpu. rewrite map_map. cbn. induction H as [|[k sv] [k' y] l ks Hx _ IH]; [done|]. cbn. rewrite IH. f_equal.
  unfold encode_value in Hx. cbn in Hx. destruct sv; [|done]. by injection Hx.
Qed.

(** What an encoded parameter says of its state. *)
Lemma encoded_param r e n q : proper r -> torch_state r -> encode_state master_rounds (opt r) (trained r) = Ok e -> (n, q) ∈ trained r -> exists enc g,
  assoc n e = Some enc /\ group_of (opt r) (p_id q) = Some g /\ validate_fields (map fst (fields_of (opt r) q)) (opt r) g n = Ok tt /\
  traverse (encode_value n) (fields_of (opt r) q) = Ok enc /\
  forall t, ("master_weight", StateTensor t) ∈ fields_of (opt r) q -> validate_master master_rounds t (local_of (weight q)) n = Ok tt.
Proof.
  intros Hp Ht He Hin. pose proof (encode_names _ _ _ He) as Hnames. apply traverse_inv in He. pose proof Hin as Hi. apply list_elem_of_lookup in Hi as (i & Hi).
  destruct (Forall2_lookup_l _ _ _ _ _ He Hi) as ([n' enc] & He' & Hq). unfold encode_param in Hq. cbn [fst snd] in Hq.
  destruct (group_of (opt r) (p_id q)) as [g|] eqn:Eg; [|done]. destruct (validate_fields _ _ _ _) as [[]|] eqn:Hval; [|done].
  match type of Hq with match ?c with _ => _ end = _ => destruct c as [[]|] eqn:Em; [|done] end.
  destruct (traverse (encode_value n) _) as [enc'|] eqn:Etr; [|done]. injection Hq as <- <-. exists enc', g. split_and!; try done.
  - apply assoc_in; [rewrite Hnames; exact (proper_parameters _ Hp)|by eapply list_elem_of_lookup_2].
  - intros t Hsv. rewrite (validate_master_field _ _ _ _ Hval) in Em by (by apply (list_elem_of_fmap_2 fst _ ("master_weight", StateTensor t))).
    destruct (torch_fields _ Ht n q g Hin Eg) as [Hk _]. by rewrite (assoc_in _ _ _ Hk Hsv) in Em.
Qed.

Lemma decode_param_again r r1 e values n q q1 : proper r -> torch_state r -> restarted r r1 -> encode_state master_rounds (opt r) (trained r) = Ok e -> (n, q) ∈ trained r ->
  p_id q = p_id q1 -> layout_of (weight q) = layout_of (weight q1) -> assoc n values = Some (to_device Cpu (local_of (weight q))) ->
  is_ok (decode_param master_rounds (opt r1) (on_cpu_encoded e) values (n, q1)) = true.
Proof.
  intros Hp Ht Hr He Hin Hid Hq Hv. destruct (encoded_param _ _ _ _ Hp Ht He Hin) as (enc & g & Hae & Eg & Hval & Henc & Hmaster). destruct (torch_fields _ Ht n q g Hin Eg) as [_ Hf].
  unfold decode_param. cbn [fst snd]. rewrite <- Hid, (group_of_like _ _ _ (re_groups _ _ Hr)), Eg. rewrite assoc_on_cpu, Hae.
  cbn [fmap option_fmap option_map]. rewrite (fields_keys _ _ _ Henc), (validate_fields_like _ _ _ _ _ (re_type _ _ Hr)), Hval.
  enough (exists k, traverse (decode_value master_rounds (opt r1) g values n q1) (fields_on_cpu enc) = Ok k) as [k ->] by done.
  apply is_ok_traverse. apply traverse_inv in Henc. unfold fields_on_cpu. apply Forall_fmap. apply Forall_forall. intros [k [l v]] Hx.
  apply list_elem_of_lookup in Hx as (j & Hj). destruct (Forall2_lookup_r _ _ _ _ _ Henc Hj) as ([k' sv] & Hsv & Hx). unfold encode_value in Hx. cbn in Hx. destruct sv as [t|]; [|done].
  injection Hx as -> <- <-. apply list_elem_of_lookup_2 in Hsv. unfold compose. cbn [fst snd]. apply (decode_value_again _ _ q); [done|done| |].
  - intros ->. by apply Hmaster.
  - intros Hne. by apply Hf.
Qed.

Lemma decode_state_again r r1 e : proper r -> torch_state r -> restarted r r1 -> encode_state master_rounds (opt r) (trained r) = Ok e ->
  exists st, decode_state master_rounds (opt r1) (trained r1) (on_cpu_encoded e) (on_cpu_values (map (fun x => (x.1, local_of (weight x.2))) (trained r))) = Ok st.
Proof.
  intros Hp Ht Hr He. pose proof (trained_like _ _ Hr) as Hl. unfold decode_state. assert (map fst (on_cpu_encoded e) = map fst (trained r1)) as ->.
  { unfold on_cpu_encoded. rewrite map_map. trans (map fst e); [done|]. rewrite (encode_names _ _ _ He). eapply Forall2_map_eq; [|exact Hl]. by intros x y [-> _]. }
  rewrite same_names_refl. cbn [negb].
  destruct (is_ok_traverse (decode_param master_rounds (opt r1) (on_cpu_encoded e) (on_cpu_values (map (fun x => (x.1, local_of (weight x.2))) (trained r)))) (trained r1)) as [k ->]; [|by eexists].
  apply Forall_forall. intros [n1 q1] Hin. apply list_elem_of_lookup in Hin as (i & Hi). destruct (Forall2_lookup_r _ _ _ _ _ Hl Hi) as ([n q] & Hx & E1 & E2 & _ & E4). cbn [fst snd] in *. subst n1.
  apply list_elem_of_lookup_2 in Hx. eapply decode_param_again; try done. unfold on_cpu_values.
  rewrite (assoc_map (fun _ => to_device Cpu)), (assoc_map (fun _ y => local_of (weight y))). by rewrite (assoc_in n _ q (proper_parameters _ Hp) Hx).
Qed.

Lemma saved_devices r devices : (forall i, i ∈ devices -> is_Some (assoc i (cuda_rng r))) ->
  map fst (omap (fun i => (fun v => (i, v)) <$> assoc i (cuda_rng r)) devices) = devices.
Proof.
  induction devices as [|i l IH]; intros H; [done|]. cbn. destruct (H i) as [v ->]; [by left|]. cbn. f_equal. apply IH. intros j Hj. apply H. by right.
Qed.

Lemma sections_again r s : proper r -> schema_of r = Ok s ->
  validate_section "parameters" (on_cpu_values (map (fun x => (x.1, local_of (weight x.2))) (trained r))) (s_parameters s) = Ok tt
  /\ validate_section "buffers" (on_cpu_values (map (fun x => (x.1, local_of x.2)) (buffers r))) (s_buffers s) = Ok tt.
Proof.
  intros Hp Hs. destruct (schema_parts _ _ Hs) as (-> & -> & _). split; [|apply section_refl, proper_buffers, Hp].
  pose proof (section_refl "parameters" (map (fun x => (x.1, weight x.2)) (trained r))) as H. rewrite !map_map in H. apply H. apply proper_parameters, Hp.
Qed.

Lemma cuda_again r r1 : torch_state r -> restarted r r1 ->
  let saved := map (fun x : Z * value => (x.1, to_device Cpu x.2)) (omap (fun i => (fun v => (i, v)) <$> assoc i (cuda_rng r)) (cuda_devices r)) in
  list_eqb Z.eqb (sorted_by Z.leb (map fst saved)) (cuda_devices r) = true /\
  existsb (fun x => match assoc x.1 (cuda_rng r1) with Some v => negb (bool_decide (v_dtype x.2 = "torch.uint8")) || negb (bool_decide (v_shape x.2 = v_shape v)) | None => true end) saved = false.
Proof.
  intros Ht Hr saved. assert (forall i, i ∈ cuda_devices r -> is_Some (assoc i (cuda_rng r))) as Hall by (intros i Hi; destruct (torch_cuda _ Ht i Hi) as (v & -> & _); by eexists).
  split.
  - assert (map fst saved = cuda_devices r) as -> by (unfold saved; rewrite map_map; exact (saved_devices _ _ Hall)).
    rewrite sorted_by_id; [apply list_eqb_refl, Forall_forall; intros ? _; apply Z.eqb_refl|].
    apply sorted_by_sorted; intros; lia.
  - apply existsb_false, Forall_forall. intros x (y & -> & Hy)%list_elem_of_fmap. apply list_elem_of_omap in Hy as (i & Hi & Hy). destruct (torch_cuda _ Ht i Hi) as (v & Hv & Hd).
    rewrite Hv in Hy. cbn in Hy. injection Hy as <-. cbn [fst snd to_device v_dtype v_shape].
    destruct (re_cuda _ _ Hr i v Hv) as (v1 & -> & ->). rewrite Hd. by rewrite !bool_decide_eq_true_2.
Qed.

(** Every check of a rank on its own snapshot. *)
Lemma check_rank_again world i d ident m r r1 a x : prepare master_rounds r a = Ok x -> proper r -> torch_state r -> restarted r r1 ->
  deserialize (serialize (pr_payload x)) = Ok (on_cpu (pr_payload x)) -> check_manifest world d ident = Ok m -> m_ranks m !! i = Some (record_of serialize sha256_hex i x) ->
  d !! rank_file i = Some (Bytes (serialize (pr_payload x))) ->
  check_rank master_rounds deserialize sha256_hex generator_state world i (Some d) ident r1 = Ok (m_step m, on_cpu (pr_payload x)).
Proof.
  intros Hx Hp Ht Hr Hback Hm Hrec Hf. destruct (prepare_parts _ _ _ _ Hx) as [_ Hs (e & He & Epl)]. unfold check_rank. rewrite Hm, Hrec, (schema_like _ _ _ Hr Hs). cbn [record_of r_schema r_file r_sha256].
  rewrite (schema_refl _ _ Hp Ht Hs), Hf, bool_decide_eq_true_2, Hback by done. cbn [negb].
  destruct (sections_again _ _ Hp Hs) as [S1 S2]. destruct (decode_state_again _ _ _ Hp Ht Hr He) as [st Hst]. destruct (schema_parts _ _ Hs) as (_ & _ & Hdev).
  destruct (cuda_again _ _ Ht Hr) as [C1 C2]. rewrite Epl. cbn [on_cpu payload_of pl_parameters pl_buffers pl_optimizer pl_cpu_rng pl_cuda_rng data_position].
  rewrite Hdev in *. rewrite S1, S2, Hst, (torch_cpu _ Ht), C1, C2. cbn [negb].
  assert (json_value (a_position a) = Ok (a_position a)) as ->; [|done].
  unfold prepare in Hx. res_inv Hx. unfold json_value in *. by repeat case_match.
Qed.

(** ** The manifest of a save that returned *)

Context (ranks : list (rank_state * save_args)).
#[local] Notation records := (imap (record_of serialize sha256_hex)).

Lemma prepare_step r a x : prepare master_rounds r a = Ok x -> 0 <= pr_step x /\ json_value (a_identity a) = Ok (pr_identity x).
Proof.
  unfold prepare. intros H. res_inv H. subst x. cbn [pr_step pr_identity]. split; [|done]. destruct (a_step a); try done. res_inv R. destr_bool. by subst.
Qed.

Lemma manifest_again d y ps i r a x : all_prepared master_rounds ranks ps -> has_files serialize d ps -> y ∈ ps -> forallb (agrees ps) ps = true ->
  d !! MANIFEST = Some (Manifest (manifest_of y (records ps))) -> ranks !! i = Some (r, a) -> ps !! i = Some x ->
  check_manifest (length ranks) d (a_identity a) = Ok (manifest_of y (records ps)).
Proof.
  intros Hps Hf Hy Hag Hd Hi Hx. pose proof (Forall2_lookup_lr _ _ _ _ _ _ Hps Hi Hx) as Hprep. cbn in Hprep. destruct (prepare_step _ _ _ Hprep) as [_ Hid].
  assert (0 <= pr_step y) as Hstep.
  { apply list_elem_of_lookup in Hy as (j & Hj). destruct (Forall2_lookup_r _ _ _ _ _ Hps Hj) as ([r' a'] & _ & Hp). by apply prepare_step in Hp as [? _]. }
  assert (py_eqb (pr_identity y) (pr_identity x) = true) as Heq.
  { rewrite forallb_forall in Hag. specialize (Hag x (proj1 (list_elem_of_In _ _) (list_elem_of_lookup_2 _ _ _ Hx))). unfold agrees in Hag. rewrite forallb_forall in Hag.
    specialize (Hag y (proj1 (list_elem_of_In _ _) Hy)). by apply andb_true_iff in Hag as [? _]. }
  pose proof (Forall2_length _ _ _ Hps) as Hlen. unfold check_manifest. rewrite Hd. cbn [manifest_of version world_size m_ranks m_identity m_step].
  rewrite length_imap, <- Hlen, !Z.eqb_refl, Nat.eqb_refl, Hid, Heq. cbn [negb orb Z.eqb Pos.eqb]. replace (pr_step y <? 0) with false by lia.
  erewrite traverse_ok; [done|]. apply Forall2_same_length_lookup_2 with (k := map (fun _ => tt) (imap pair (records ps))); [by rewrite length_map|].
  intros j [n z] u Hj Hu. rewrite list_lookup_fmap, Hj in Hu. injection Hu as <-. rewrite !list_lookup_imap in Hj. destruct (ps !! j) as [w|] eqn:Ew; [|done]. cbn in Hj. injection Hj as <- <-.
  cbn [fst snd record_of r_file r_bytes]. rewrite bool_decide_eq_true_2 by done. unfold file_size. rewrite (Hf j w Ew). cbn [negb]. by rewrite Z.eqb_refl.
Qed.

Lemma completed_run l s : save_run master_rounds serialize sha256_hex ranks l {| path := None; ph := Encoding |} = Some s -> ph s = Finished (Ok tt) ->
  completed master_rounds serialize sha256_hex ranks (path s).
Proof. intros H%save_run_invariant Hph. unfold save_invariant in H. rewrite Hph in H. by apply H. Qed.

(** All the ranks of a restarted job. *)
Lemma restarted_load (w : option directory) (live : list rank_state) : loads_back master_rounds serialize deserialize ranks -> completed master_rounds serialize sha256_hex ranks w ->
  Forall (fun x => proper x.1) ranks -> Forall (fun x => torch_state x.1) ranks -> Forall2 (fun x r1 => restarted x.1 r1) ranks live ->
  is_ok (load_checkpoint master_rounds deserialize sha256_hex generator_state w (zip live (map (fun x => a_identity x.2) ranks))).2 = true.
Proof.
  intros Hb (d & y & ps & -> & Hps & Hf & Hy & Hag & Hd) Hp Ht Hr. unfold load_checkpoint. unfold collected. set (job := zip live _).
  assert (length job = length ranks) as Hlen by (unfold job; rewrite length_zip_with, length_map, <- (Forall2_length _ _ _ Hr); lia). rewrite Hlen.
  destruct (is_ok_traverse (fun c => c) (imap (fun i x => check_rank master_rounds deserialize sha256_hex generator_state (length ranks) i (Some d) x.2 x.1) job)) as [k ->]; [|done].
  apply Forall_lookup_2. intros i c Hc. rewrite list_lookup_imap in Hc. unfold job in Hc. rewrite lookup_zip_with, list_lookup_fmap in Hc.
  destruct (live !! i) as [r1|] eqn:E1; [|done]. destruct (ranks !! i) as [[r a]|] eqn:E; [|done]. apply (inj Some) in Hc. cbn [fst snd] in Hc. subst c.
  destruct (Forall2_lookup_l _ _ _ _ _ Hps E) as (x & Hx & Hprep). cbn [fst snd] in Hprep.
  pose proof (Forall_lookup_1 _ _ _ _ Hb E) as Hback. pose proof (Forall_lookup_1 _ _ _ _ Hp E) as Hpr. pose proof (Forall_lookup_1 _ _ _ _ Ht E) as Htr.
  pose proof (Forall2_lookup_lr _ _ _ _ _ _ Hr E E1) as Hre. cbn [fst snd] in *.
  cbv beta. rewrite (check_rank_again _ i d _ _ r r1 a x Hprep Hpr Htr Hre (Hback _ Hprep) (manifest_again d y ps i r a x Hps Hf Hy Hag Hd E Hx)); [done| |by apply Hf].
  cbn [manifest_of m_ranks]. by rewrite list_lookup_imap, Hx.
Qed.
End Resume.

(** C10. When [save_checkpoint] returns, every later job constructed like the
    saved one, whatever its tensors, optimizer states and generators hold,
    loads the snapshot under the identity it was saved with: no rank raises,
    and each resumes its trained weights, buffers, optimizer state of every
    parameter and random states at the saved step and data position. *)
Theorem sft_save_resumes {D} (master_rounds : D -> D -> bool) serialize deserialize sha256_hex generator_state
    (ranks : list (rank_state (D := D) * save_args)) l s live :
  loads_back master_rounds serialize deserialize ranks ->
  Forall (fun x => proper x.1) ranks -> Forall (fun x => torch_state generator_state x.1) ranks ->
  save_run master_rounds serialize sha256_hex ranks l {| path := None; ph := Encoding |} = Some s -> ph s = Finished (Ok tt) ->
  Forall2 (fun x r1 => restarted x.1 r1) ranks live -> Forall proper live ->
  exists after answers, load_checkpoint master_rounds deserialize sha256_hex generator_state (path s) (zip live (map (fun x => a_identity x.2) ranks)) = (after, Ok answers) /\
    forall i r0 a, ranks !! i = Some (r0, a) ->
      exists r' step, after !! i = Some r' /\ answers !! i = Some (step, a_position a) /\ a_step a = PInt step /\ same_training r0 r'.
Proof.
  intros Hb Hp Ht Hrun Hph Hr Hl. pose proof (completed_run _ _ _ _ _ _ Hrun Hph) as Hc. pose proof (save_run_loadable _ _ _ _ _ _ Hrun) as Hload.
  assert (ranks <> []) as Hne by (destruct Hc as (d & y & ps & _ & Hps & _ & Hy & _); intros ->; apply Forall2_length in Hps; destruct ps; [by apply elem_of_nil in Hy|done]).
  pose proof (restarted_load _ _ _ _ generator_state _ _ _ Hb Hc Hp Ht Hr) as Hok. unfold load_checkpoint in Hok |- *. set (job := zip live _) in *.
  destruct (collected _) as [answers|] eqn:E; [|done]. clear Hok. apply collected_ok in E. do 2 eexists. split; [done|].
  pose proof (Forall2_length _ _ _ Hr) as Hlen. assert (length job = length ranks) as Hjob by (unfold job; rewrite length_zip_with, length_map; lia).
  assert (Forall (fun x => proper x.1) job) as Hpj by (apply Forall_lookup_2; intros i [r1 ident] Hi; unfold job in Hi; apply lookup_zip_Some in Hi as [Hi _]; by apply (Forall_lookup_1 _ _ i _ Hl)).
  assert (job <> []) as Hnj by (intros Hx; rewrite Hx in Hjob; by destruct ranks).
  destruct (loaded_ranks _ _ _ _ _ _ _ _ _ Hb Hload Hp Hpj Hnj E) as (_ & Hans & Hall). intros i r0 a Hi.
  destruct (lookup_lt_is_Some_2 job i) as [[r1 ident] Hi1]; [rewrite Hjob; by apply lookup_lt_Some in Hi|].
  destruct (lookup_lt_is_Some_2 answers i) as [[st q] Ha]; [rewrite Hans; by apply lookup_lt_Some in Hi1|].
  destruct (Hall _ _ _ _ _ _ _ Hi Hi1 Ha) as (Hst & Hpos & Hsame). exists (restore master_rounds q r1), st.
  rewrite lookup_zip_with, list_lookup_fmap, Ha, Hi1. cbn. rewrite Hpos. by split_and!.
Qed.

(** ** The two ranks of the example job *)

Lemma toy_torch_state w b fields g : (forall k sv, (k, sv) ∈ fields -> k = "momentum_buffer" /\ exists m, sv = StateTensor (Plain (toy_value m))) -> NoDup (map fst fields) ->
  torch_state (fun _ => true) (toy_rank w b fields g).
Proof.
  intros Hf Hn. assert (fields_of (opt (toy_rank w b fields g)) {| p_id := 1; requires_grad := true; weight := Plain (toy_value w); p_grad := Some 9 |} = fields) as Hfields
    by (by destruct fields).
  split.
  - apply (bool_decide_unpack _). vm_compute. exact I.
  - by repeat constructor.
  - intros n q h Hin Hg. apply list_elem_of_filter in Hin as [Hq Hin]. cbn in Hin. apply elem_of_cons in Hin as [[= -> ->]|Hin].
    + rewrite Hfields. split; [done|]. intros k t Hk _. apply Hf in Hk as [-> (m & [= ->])]. done.
    + apply list_elem_of_singleton in Hin as [= -> ->]. discriminate Hq.
  - intros i Hi. assert (cuda_devices (toy_rank w b fields g) = [0]) as E by (vm_compute; reflexivity). rewrite E in Hi. apply list_elem_of_singleton in Hi as ->. by eexists.
  - done.
Qed.

Lemma toy_restarted w b fields g : restarted (toy_rank w b fields g) (toy_rank 0 0 [] 0).
Proof.
  split; cbn; [repeat constructor|repeat constructor|done|done|constructor|]. intros i v. case_bool_decide; [|done]. intros [= <-]. by eexists.
Qed.

Lemma toy_ranks_torch : Forall (fun x => torch_state (fun _ => true) x.1) toy_ranks.
Proof.
  constructor; [|constructor; [|constructor]]; apply toy_torch_state; cbn.
  - intros k sv [= -> ->]%list_elem_of_singleton. split; [done|by eexists].
  - apply NoDup_singleton.
  - by intros k sv ?%elem_of_nil.
  - constructor.
Qed.
Lemma toy_ranks_restarted : Forall2 (fun x r1 => restarted x.1 r1) toy_ranks [toy_rank 0 0 [] 0; toy_rank 0 0 [] 0].
Proof. constructor; [apply toy_restarted|]. constructor; [apply toy_restarted|constructor]. Qed.
Lemma toy_fresh_proper : Forall proper [toy_rank 0 0 [] 0; toy_rank 0 0 [] 0].
Proof. constructor; [apply toy_proper|]. constructor; [apply toy_proper|constructor]. Qed.

Lemma sft_save_resumes_witness : exists s after answers r', toy_run = Some s /\ ph s = Finished (Ok tt) /\ toy_load (path s) = (after, Ok answers) /\ after !! 1%nat = Some r'
  /\ same_training (toy_rank 21 22 [] 24) r'.
Proof.
  assert (match toy_run with Some s => match ph s with Finished (Ok tt) => true | _ => false end | None => false end = true) as H by (vm_compute; reflexivity).
  destruct toy_run as [s|] eqn:E; [|discriminate H]. destruct (ph s) as [| | | |[[]|]] eqn:Eph; try discriminate H.
  destruct (sft_save_resumes toy_rounds toy_serialize toy_deserialize id (fun _ => true) toy_ranks _ s [toy_rank 0 0 [] 0; toy_rank 0 0 [] 0] toy_loads_back
    toy_ranks_proper toy_ranks_torch E Eph toy_ranks_restarted toy_fresh_proper) as (after & answers & Hload & Hall).
  destruct (Hall 1%nat _ _ eq_refl) as (r' & step & Ha & _ & _ & Hs). exists s, after, answers, r'. by split_and!.
Defined.
