(* ===== verification/Transport.v ===== *)
(** * The TLS route of generations ([rollout_manager/transports.py] and
    [rollout_manager/network.py])

    A request is claimed in a durable ledger, marked as dispatching, posted
    once by a client that never replays, recorded by the relay before the model
    server sees it, and settled in the ledger by what the client learned. One
    world holds the client process (its workers and episode bindings), the
    ledger's files, the messages on their way and with the relay's handlers, and
    the results directories of the relays; a step is one piece of code between
    two points where others may run, and either process may die between any two
    steps. A relay makes its results directory, so one that is started again
    has a new one. Measurements, time stamps other than the ledger's deadline,
    TLS, the relay's asset route and its bound on connections are left out. *)

From S2P Require Import Prelude PyValue Contracts Training PromptData GenerationContract.
Local Open Scope Z_scope.
Local Open Scope py_scope.

(** ** Names *)

Definition id_char (a : ascii) : bool :=
  let n := nat_of_ascii a in
  ((48 <=? n)%nat && (n <=? 57)%nat) || ((65 <=? n)%nat && (n <=? 90)%nat) || ((97 <=? n)%nat && (n <=? 122)%nat) || (n =? 95)%nat || (n =? 45)%nat.

(** [re.fullmatch("[A-Za-z0-9_-]{1,100}", s)] *)
Definition durable_id (s : string) : bool :=
  (1 <=? String.length s)%nat && (String.length s <=? 100)%nat && forallb id_char (String.list_ascii_of_string s).

(** The parts of [urlsplit]. *)
Record url_parts := { scheme : string; hostname : option string; username : option string; password : option string; url_path : string; query : string; fragment : string }.

Definition filled (s : option string) : bool := match s with Some "" | None => false | Some _ => true end.

Definition validate_rpc_origin (u : url_parts) : res unit :=
  raise_if (negb (bool_decide (scheme u = "https")) || negb (filled (hostname u)) || filled (username u) || filled (password u)
            || negb (bool_decide (url_path u ∈ [""; "/"])) || negb (bool_decide (query u = "")) || negb (bool_decide (fragment u = "")))
    (ValueError "TLS RPC requires an HTTPS origin without embedded credentials, path, query or fragment").

(** The longest prefix of digits, and the rest. *)
Fixpoint digits (l : list ascii) : list ascii * list ascii :=
  match l with [] => ([], []) | a :: r => if is_digit a then let '(d, e) := digits r in (a :: d, e) else ([], l) end.

(** [re.fullmatch("(.+)-t([1-9][0-9]*)", s)]: its first group. *)
Definition turn_owner (s : string) : option string :=
  let '(d, e) := digits (rev (String.list_ascii_of_string s)) in
  match last d, e with
  | Some first, t :: dash :: (_ :: _) as owner =>
      if negb (bool_decide (first = "0"%char)) && bool_decide (t = "t"%char) && bool_decide (dash = "-"%char) && forallb (fun a => negb (bool_decide (a = "010"%char))) (drop 2 e)
      then Some (String.string_of_list_ascii (rev (drop 2 e))) else None
  | _, _ => None
  end.

Definition GENERATE : string := "/generate/".
(** [path.removeprefix("/generate/")] of a path that starts with it. *)
Definition generate_id (path : string) : option string :=
  if String.prefix GENERATE path then Some (String.substring 10 (String.length path - 10) path) else None.

(** How a write of a file that is put in place by a rename ends: done, raised
    with the old file there, or raised with the new one there. *)
Inductive writing := Written | Unwritten | Doubtful.
Definition in_place (o : writing) : bool := match o with Unwritten => false | _ => true end.
Definition raised (o : writing) : bool := match o with Written => false | _ => true end.

(** ** The client ([RpcClient]) *)

(** [connection] with whether its socket is open, and [last_response_ns]. *)
Record client := { connection : option bool; last_response_ns : option Z }.
Definition fresh_client : client := {| connection := None; last_response_ns := None |}.

Definition check_client (timeout max_idle_seconds : Z) : res unit :=
  raise_when negb ((0 <? timeout) && (timeout <=? 7200)) with_exn ValueError "RPC timeout must be positive and at most two hours";
  raise_if (negb ((0 <? max_idle_seconds) && (max_idle_seconds <? 910))) (ValueError "client idle limit must be below the relay's 910-second idle timeout").

(** The start of a call: a connection that was idle for too long or has lost
    its socket is closed. *)
Definition refresh (max_idle now : Z) (c : client) : client :=
  let idle := match last_response_ns c with Some t => now - t | None => 0 end in
  match connection c with
  | Some open => if (max_idle * 1000000000 <=? idle) || negb open then fresh_client else c
  | None => c
  end.

Definition connected (c : client) : client := {| connection := Some true; last_response_ns := last_response_ns c |}.
Definition answered (now : Z) (c : client) : client := {| connection := connection c; last_response_ns := Some now |}.

(** What a call attaches to the exception it raises. *)
Definition rpc_failure (phase : string) (possible : bool) (status : pyval) : pydict :=
  [("phase", PStr phase); ("dispatch_may_have_occurred", PBool possible); ("automatic_replay", PBool false); ("http_status", status)].
Definition own_failure (phase : string) (possible : bool) : pydict :=
  [("phase", PStr phase); ("dispatch_may_have_occurred", PBool possible); ("automatic_replay", PBool false)].

Record call_error := { exception : exn; failure : option pydict }.

(** ** The relay ([serve]) *)

(** Its arguments and token; [http_request] is what the handler reads. *)
Record relay := { r_token : string; r_peer : string; r_workload : string; r_timeout : Z }.
Record http_request := { from_peer : string; authorization : string; path : string; content_length : res Z; chunked : bool; body : string }.

Definition MAX_BODY : Z := 262144.
Definition MODEL : string := "deepseek-ai/DeepSeek-V4.1-Flash".

(** A number between two bounds, given in units of 2^-1074. *)
Definition number_within (lo_strict : bool) (lo hi : Z) (v : pyval) : bool :=
  match strict_number v with Some (FFin n) => (if lo_strict then lo <? n else lo <=? n) && (n <=? hi) | _ => false end.
(** One in these units. *)
Definition ONE : Z := match strict_number (PInt 1) with Some (FFin n) => n | _ => 0 end.

Definition validate_generation (payload : pyval) (workload : string) : res unit :=
  let grpo := bool_decide (workload = "grpo") in
  let fields := ["model"; "messages"; "temperature"; "max_tokens"; "seed"; "chat_template_kwargs"] ++ (if grpo then ["top_p"] else []) in
  match payload with
  | PDict d =>
      raise_when existsb (fun k => negb (bool_decide (k ∈ fields))) (dict_keys d) || negb (py_eqb (get_none "model" d) (PStr MODEL)) with_exn
        ValueError "request outside experiment policy";
      raise_when negb (match get_none "max_tokens" d with PInt t => (1 <=? t) && (t <=? if grpo then 8192 else 4096) | _ => false end) with_exn
        ValueError "generation token budget outside experiment policy";
      if grpo
      then raise_if (negb (number_within false 0 ONE (get_none "temperature" d)) || negb (number_within true 0 ONE (default (PInt 1) (dict_get "top_p" d)))
                     || negb (match get_none "seed" d with PInt s => (0 <=? s) && (s <? 2 ^ 32) | _ => false end))
             (ValueError "GRPO sampling outside experiment policy")
      else raise_if (negb (py_eqb (get_none "temperature" d) (PInt 0))) (ValueError "pilot policy requires greedy sampling")
  | _ => Err (ValueError "request outside experiment policy")
  end.

(** What a handler sends: a status and, for 200, the JSON value of the body. *)
Record reply := { status : Z; content : pyval }.

(** A message from its dispatch by the client to the reply: not yet read; read
    and before [record_lock]; holding it, without a record of its id; past it;
    sent to the model server; in the [except] with an uncertain record; and with
    its finished record saved. *)
Inductive handling :=
| InFlight
| Waiting (id : string) (payload : pyval)
| Holding (id : string) (result : pydict)
| Entered (id : string) (result : pydict)
| Upstream (id : string) (result : pydict)
| Failing (id : string) (result : pydict)
| Finishing (result : pydict)
| Replied (r : reply)
| Lost.

(** [own] is the request id when a ledger's client posted it; [granted] the
    results directory and the id once the handler has left [record_lock] with
    its record in place. *)
Record message := { own : option string; request : http_request; granted : option (string * string); at_ : handling }.

(** A record's file: what one [save_json] wrote, or a mixture. All saves of an id
    write through the same temporary file. *)
Inductive document := Whole (result : pydict) | Torn.

(** How a save of a record ends: as any write in place, or, when other requests
    have the same id, with a file to which several handlers wrote. *)
Inductive saving := Clean (o : writing) | Mixed (raises : bool).
Definition save_raised (s : saving) : bool := match s with Clean o => raised o | Mixed b => b end.

(** ** Calls of the transport *)

(** [RpcTransport.client_factory(...).Client.call] on [/generate/], between the
    points where it reads or writes shared state. The ledger's row is [state]. *)
Inductive phase :=
| Admitting
| Claiming (c : option contract)
| Marking (c : option contract) (state : pydict)
| Dialing (c : option contract) (state : pydict)
| Sending (c : option contract) (state : pydict)
| Awaiting (c : option contract) (state : pydict) (n : nat)
| Settling (state : pydict) (e : call_error)
| Answered (c : option contract) (state : pydict) (n : nat) (v : pyval)
| Turning (c : contract) (state : pydict) (n : nat) (v : pyval)
| Judging (c : contract) (state : pydict) (n : nat) (v : pyval) (turn : Z)
| Finished (r : pyval + call_error).

(** The binding under which a request runs, or none. *)
Record call := { call_id : string; payload : pyval; bound : option string; at_phase : phase }.
Record worker := { rpc : client; turn_id : Z; job : option call }.

Record binding := { b_contract : contract; b_identity : EpisodeIdentity; traces : list TurnTrace; closed : bool; next_turn : Z }.

Record world := {
  claims : gset string;
  rows : gmap string pydict;
  directories : gset string;
  files : gmap (string * string) document;
  serving : option string;
  bindings : gmap string binding;
  training_traces : list TurnTrace;
  workers : list worker;
  messages : list message;
  upstream : list nat }.

Definition no_world : world :=
  {| claims := ∅; rows := ∅; directories := ∅; files := ∅; serving := None; bindings := ∅; training_traces := []; workers := []; messages := []; upstream := [] |}.

Definition with_claims x w := {| claims := x; rows := rows w; directories := directories w; files := files w; serving := serving w; bindings := bindings w; training_traces := training_traces w; workers := workers w; messages := messages w; upstream := upstream w |}.
Definition with_rows x w := {| claims := claims w; rows := x; directories := directories w; files := files w; serving := serving w; bindings := bindings w; training_traces := training_traces w; workers := workers w; messages := messages w; upstream := upstream w |}.
Definition with_directories x w := {| claims := claims w; rows := rows w; directories := x; files := files w; serving := serving w; bindings := bindings w; training_traces := training_traces w; workers := workers w; messages := messages w; upstream := upstream w |}.
Definition with_files x w := {| claims := claims w; rows := rows w; directories := directories w; files := x; serving := serving w; bindings := bindings w; training_traces := training_traces w; workers := workers w; messages := messages w; upstream := upstream w |}.
Definition with_serving x w := {| claims := claims w; rows := rows w; directories := directories w; files := files w; serving := x; bindings := bindings w; training_traces := training_traces w; workers := workers w; messages := messages w; upstream := upstream w |}.
Definition with_bindings x w := {| claims := claims w; rows := rows w; directories := directories w; files := files w; serving := serving w; bindings := x; training_traces := training_traces w; workers := workers w; messages := messages w; upstream := upstream w |}.
Definition with_captured x w := {| claims := claims w; rows := rows w; directories := directories w; files := files w; serving := serving w; bindings := bindings w; training_traces := x; workers := workers w; messages := messages w; upstream := upstream w |}.
Definition with_workers x w := {| claims := claims w; rows := rows w; directories := directories w; files := files w; serving := serving w; bindings := bindings w; training_traces := training_traces w; workers := x; messages := messages w; upstream := upstream w |}.
Definition with_messages x w := {| claims := claims w; rows := rows w; directories := directories w; files := files w; serving := serving w; bindings := bindings w; training_traces := training_traces w; workers := workers w; messages := x; upstream := upstream w |}.
Definition with_upstream x w := {| claims := claims w; rows := rows w; directories := directories w; files := files w; serving := serving w; bindings := bindings w; training_traces := training_traces w; workers := workers w; messages := messages w; upstream := x |}.

Section Route.
(** The SHA-256 of [json.dumps(payload, sort_keys=True)], the compact
    [json.dumps], [json.loads], and [common.digest]. *)
Context (float_repr : Z -> string) (sha256_hex : string -> string) (payload_sha256 : pyval -> string) (encode : pyval -> string) (loads : string -> res pyval)
  (digest : pyval -> res string).
(** The relay, and the transport's client limits and contract. *)
Context (server : relay) (max_idle : Z) (training_contract : option contract).

(** ** The training bindings *)

Definition bind_episode (identity : EpisodeIdentity) (c : option contract) (w : world) : world * res unit :=
  match trial_id identity with
  | Some key =>
      if negb (durable_id key) then (w, Err (ValueError "Training episode requires a durable native trial ID"))
      else match match c with Some c => Some c | None => training_contract end with
           | None => (w, Err (ValueError "Training episode requires a negotiated generation contract"))
           | Some c =>
               match bindings w !! key with
               | Some _ => (w, Err (ValueError "Native training episode binding cannot replay"))
               | None => (with_bindings (<[key := {| b_contract := c; b_identity := identity; traces := []; closed := false; next_turn := 1 |}]> (bindings w)) w, Ok tt)
               end
           end
  | None => (w, Err (ValueError "Training episode requires a durable native trial ID"))
  end.

Definition episode_traces (identity : EpisodeIdentity) (close : bool) (w : world) : world * res (list TurnTrace) :=
  match trial_id identity ≫= (fun key => (fun b => (key, b)) <$> bindings w !! key) with
  | None => (w, Err (KeyError "trial_id"))
  | Some (key, b) =>
      if negb (bool_decide (b_identity b = identity)) then (w, Err (ValueError "Native training episode identity differs"))
      else (if close then with_bindings (<[key := {| b_contract := b_contract b; b_identity := b_identity b; traces := traces b; closed := true; next_turn := next_turn b |}]> (bindings w)) w else w,
            Ok (traces b))
  end.

(** [_binding] *)
Definition binding_for (request_id : string) (w : world) : res (option (string * binding)) :=
  let found := match bindings w !! request_id with
               | Some b => Some (request_id, b)
               | None => match turn_owner request_id with Some k => (fun b => (k, b)) <$> bindings w !! k | None => None end
               end in
  raise_when match found with Some (_, b) => closed b | None => false end with_exn ValueError "Native training episode is closed; no late dispatch";
  raise_when negb (bool_decide (bindings w = ∅)) && bool_decide (found = None) with_exn ValueError "Generation request lacks an admitted training episode binding";
  Ok found.

(** ** Client steps *)

Definition set_job (i : nat) (k : call) (wk : worker) (w : world) : world :=
  with_workers (<[i := {| rpc := rpc wk; turn_id := turn_id wk; job := Some k |}]> (workers w)) w.
Definition moved (k : call) (p : phase) : call := {| call_id := call_id k; payload := payload k; bound := bound k; at_phase := p |}.
Definition goes (i : nat) (k : call) (wk : worker) (p : phase) (w : world) : world := set_job i (moved k p) wk w.
Definition with_rpc (c : client) (wk : worker) : worker := {| rpc := c; turn_id := turn_id wk; job := job wk |}.
Definition ends (i : nat) (k : call) (wk : worker) (e : exn) (f : option pydict) (w : world) : world :=
  goes i k wk (Finished (inr {| exception := e; failure := f |})) w.

(** The binding and contract of a request, before anything is written. *)
Definition check_in (i : nat) (k : call) (wk : worker) (w : world) : world :=
  match (b <-? binding_for (call_id k) w;
         let c := match b with Some (_, b) => Some (b_contract b) | None => training_contract end in
         _ <-? match c with Some c => check_payload float_repr sha256_hex c (payload k) | None => Ok tt end;
         Ok (b, c)) with
  | Err e => ends i k wk e (Some (own_failure "training_admission" false)) w
  | Ok (b, c) => set_job i {| call_id := call_id k; payload := payload k; bound := fst <$> b; at_phase := Claiming c |} wk w
  end.

Definition initial_row (k : call) (deadline : pyval) : pydict :=
  [("request_id", PStr (call_id k)); ("route", PStr (GENERATE +:+ call_id k)); ("state", PStr "claimed");
   ("payload_sha256", PStr (payload_sha256 (payload k))); ("deadline_unix", deadline); ("automatic_replay", PBool false)].

(** [_atomic] of the row's file. *)
Definition put_row (o : writing) (id : string) (state : pydict) (w : world) : world := if in_place o then with_rows (<[id := state]> (rows w)) w else w.

(** [RequestLedger.claim]: [opened] says whether the claim's file could be
    written once it had been created exclusively. *)
Definition claim (i : nat) (k : call) (wk : worker) (c : option contract) (deadline : pyval) (created opened : bool) (o : writing) (w : world) : world :=
  let fails e := ends i k wk e (Some (own_failure "ledger_claim" false)) in
  if negb (durable_id (call_id k)) then fails (ValueError "invalid durable request ID") w
  else if bool_decide (call_id k ∈ claims w) then fails (OSError "FileExistsError") w
  else if negb created then fails (OSError "claim") w
  else let w := with_claims ({[call_id k]} ∪ claims w) w in
       if negb opened then fails (OSError "claim") w
       else let state := initial_row k deadline in
            let w := put_row o (call_id k) state w in
            if raised o then fails (OSError "row") w else goes i k wk (Marking c state) w.

(** [RequestLedger.update] *)
Definition updated (state changes : pydict) : pydict := dict_update state changes.

Definition mark (i : nat) (k : call) (wk : worker) (c : option contract) (state : pydict) (o : writing) (w : world) : world :=
  let state := updated state [("state", PStr "dispatching"); ("uncertain", PBool true)] in
  let w := put_row o (call_id k) state w in
  if raised o then ends i k wk (OSError "row") (Some (own_failure "ledger_claim" false)) w else goes i k wk (Dialing c state) w.

(** [RpcClient.call] up to the dispatch: [dialed] is the outcome of connecting. *)
Definition dial (i : nat) (k : call) (wk : worker) (c : option contract) (state : pydict) (now : Z) (dialed : res unit) (w : world) : world :=
  if MAX_BODY <? Z.of_nat (String.length (encode (payload k)))
  then goes i k wk (Settling state {| exception := ValueError "RPC request exceeds bound"; failure := None |}) w
  else match dialed with
       | Err e => goes i k (with_rpc fresh_client wk) (Settling state {| exception := e; failure := Some (rpc_failure "connect" false PNone) |}) w
       | Ok _ => goes i k (with_rpc (connected (refresh max_idle now (rpc wk))) wk) (Sending c state) w
       end.

(** A request on its way, which no relay reads when none is serving. *)
Definition post (who : option string) (delivered : bool) (rq : http_request) (w : world) : world :=
  with_messages (messages w ++ [{| own := who; request := rq; granted := None; at_ := if delivered && bool_decide (is_Some (serving w)) then InFlight else Lost |}]) w.

(** [connection.request]: whether the relay can read the request, and whether
    the call raised. *)
Definition send (i : nat) (k : call) (wk : worker) (c : option contract) (state : pydict) (delivered : bool) (error : option exn) (rq : http_request) (w : world) : option world :=
  if bool_decide (path rq = GENERATE +:+ call_id k) && bool_decide (body rq = encode (payload k)) then
    let n := length (messages w) in
    let w := post (Some (call_id k)) delivered rq w in
    Some match error with
         | Some e => goes i k (with_rpc fresh_client wk) (Settling state {| exception := e; failure := Some (rpc_failure "send" true PNone) |}) w
         | None => goes i k wk (Awaiting c state n) w
         end
  else None.

(** The response or its absence. *)
Definition receive (i : nat) (k : call) (wk : worker) (c : option contract) (state : pydict) (n : nat) (now : Z) (w : world) : option world :=
  match messages w !! n with
  | Some m =>
      match at_ m with
      | Replied r =>
          Some (if negb (status r =? 200) || (MAX_BODY * 3 <? Z.of_nat (String.length (encode (content r))))
                then goes i k (with_rpc fresh_client wk) (Settling state {| exception := RuntimeError "relay HTTP"; failure := Some (rpc_failure "response_body" true (PInt (status r))) |}) w
                else goes i k (with_rpc (answered now (rpc wk)) wk) (Answered c state n (content r)) w)
      | _ => None
      end
  | None => None
  end.

Definition abandon (i : nat) (k : call) (wk : worker) (state : pydict) (where_ : string) (status : pyval) (e : exn) (w : world) : option world :=
  if bool_decide (where_ ∈ ["response_headers"; "response_body"; "decode"])
  then Some (goes i k (with_rpc fresh_client wk) (Settling state {| exception := e; failure := Some (rpc_failure where_ true status) |}) w) else None.

(** The ledger after a failed call. *)
Definition possible (f : option pydict) : bool := match f with None => true | Some d => py_truthy (get_none "dispatch_may_have_occurred" d) end.
Definition settle (i : nat) (k : call) (wk : worker) (state : pydict) (e : call_error) (o : writing) (w : world) : world :=
  let uncertain := possible (failure e) in
  let state := updated state [("state", PStr (if uncertain then "outcome_unknown" else "not_dispatched")); ("uncertain", PBool uncertain);
                              ("failure", match failure e with Some d => PDict d | None => PNone end)] in
  let w := put_row o (call_id k) state w in
  if raised o then ends i k wk (OSError "row") None w else goes i k wk (Finished (inr e)) w.

(** The ledger after a response. *)
Definition record_response (i : nat) (k : call) (wk : worker) (c : option contract) (state : pydict) (n : nat) (v : pyval) (o : writing) (w : world) : world :=
  let state := updated state [("state", PStr "response_received"); ("uncertain", PBool false); ("acknowledged", PBool true)] in
  let w := put_row o (call_id k) state w in
  if raised o then ends i k wk (OSError "row") (Some (own_failure "response_evidence" true)) w
  else match c with Some c => goes i k wk (Turning c state n v) w | None => goes i k wk (Finished (inl v)) w end.

(** The turn of a response: its episode's next one, or the client's. *)
Definition take_turn (i : nat) (k : call) (wk : worker) (c : contract) (state : pydict) (n : nat) (v : pyval) (w : world) : world :=
  let wk := {| rpc := rpc wk; turn_id := turn_id wk + 1; job := job wk |} in
  match bound k ≫= fun key => (fun b => (key, b)) <$> bindings w !! key with
  | Some (key, b) =>
      goes i k wk (Judging c state n v (next_turn b))
        (with_bindings (<[key := {| b_contract := b_contract b; b_identity := b_identity b; traces := traces b; closed := closed b; next_turn := next_turn b + 1 |}]> (bindings w)) w)
  | None => goes i k wk (Judging c state n v (turn_id wk)) w
  end.

(** [generation_completion] *)
Definition generation_completion (result : pyval) : res pyval :=
  match result with
  | PDict d => match get_none "response" d with PDict r => Ok (PDict r) | _ => Err (ValueError "Native relay returned no raw model completion") end
  | _ => Err (ValueError "Native relay returned no raw model completion")
  end.

Definition add_trace (key : option string) (t : TurnTrace) (w : world) : world :=
  match key ≫= fun key => (fun b => (key, b)) <$> bindings w !! key with
  | Some (key, b) => with_bindings (<[key := {| b_contract := b_contract b; b_identity := b_identity b; traces := traces b ++ [t]; closed := closed b; next_turn := next_turn b |}]> (bindings w)) w
  | None => w
  end.

(** The validation of the evidence and its hand-over: the sinks of the episode
    and of the transport may raise. *)
Definition judge (i : nat) (k : call) (wk : worker) (c : contract) (state : pydict) (v : pyval) (turn : Z) (o : writing) (sink1 sink2 : option exn) (o' : writing) (w : world) : world :=
  let rejected e w :=
    let w := put_row o' (call_id k) (updated state [("training_evidence", PStr "rejected")]) w in
    if raised o' then ends i k wk (OSError "row") None w
    else ends i k wk e (Some (own_failure "training_evidence" true ++ [("response_received", PBool true); ("upstream_completion_known", PBool true)])) w in
  match (completion <-? generation_completion v; validate float_repr sha256_hex c (payload k) completion (PStr (call_id k)) (PInt turn)) with
  | Err e => rejected e w
  | Ok t =>
      let w := put_row o (call_id k) (updated state [("training_evidence", PStr "validated")]) w in
      if raised o then rejected (OSError "row") w
      else let w := add_trace (bound k) t w in
           match bound k, sink1 with
           | Some _, Some e => rejected e w
           | _, _ => let w := with_captured (training_traces w ++ [t]) w in
                     match sink2 with Some e => rejected e w | None => goes i k wk (Finished (inl v)) w end
           end
  end.

(** ** Relay steps *)

Definition answer (n : nat) (m : message) (h : handling) (w : world) : world :=
  with_messages (<[n := {| own := own m; request := request m; granted := granted m; at_ := h |}]> (messages w)) w.
Definition reply_with (n : nat) (m : message) (code : Z) (w : world) : world := answer n m (Replied {| status := code; content := PNone |}) w.

(** Whether another request than the [n]-th asks for the id. *)
Definition contested (n : nat) (id : string) (w : world) : bool :=
  existsb (fun nm => negb (nm.1 =? n)%nat && bool_decide (generate_id (path (request nm.2)) = Some id)) (imap pair (messages w)).

(** [save_json] of a record: it raises for a value that is no JSON, and only
    files that others write as well are mixed. *)
Definition save_outcome (result : pydict) (s : saving) : saving :=
  if json_finite (PDict result) then s else match s with Clean _ => Clean Unwritten | Mixed _ => Mixed true end.
Definition can_save (n : nat) (id : string) (s : saving) (w : world) : bool := match s with Clean _ => true | Mixed _ => contested n id w end.
Definition put_record (s : saving) (id : string) (result : pydict) (w : world) : world :=
  match serving w, s with
  | Some results, Clean o => if in_place o then with_files (<[(results, id) := Whole result]> (files w)) w else w
  | Some results, Mixed _ => with_files (<[(results, id) := Torn]> (files w)) w
  | None, _ => w
  end.

(** The [except] of the handler for a record that is still uncertain; it does
    not hold the lock. *)
Definition failed_record (result : pydict) (error : string) (now : pyval) : pydict :=
  dict_update result [("error_type", PStr error); ("failed_unix", now); ("automatic_replay", PBool false); ("upstream_completion_unknown", PBool true)].
Definition recover (n : nat) (m : message) (id : string) (result : pydict) (error : string) (now : pyval) (s : saving) (w : world) : world :=
  let result := failed_record result error now in
  let s := save_outcome result s in
  let w := put_record s id result w in
  if save_raised s then answer n m Lost w else reply_with n m 502 w.

(** The handler's parse of a request. *)
Definition parse_request (rq : http_request) : res pyval :=
  length <-? content_length rq;
  raise_when negb ((0 <? length) && (length <=? MAX_BODY)) || chunked rq with_exn ValueError "invalid body";
  raise_when negb (Z.of_nat (String.length (body rq)) =? length) with_exn ValueError "incomplete body";
  loads (body rq).

(** [do_POST] up to the lock. *)
Definition read_request (n : nat) (m : message) (w : world) : world :=
  let rq := request m in
  if negb (bool_decide (from_peer rq = r_peer server)) || negb (bool_decide (authorization rq = "Bearer " +:+ r_token server)) then reply_with n m 403 w
  else match parse_request rq with
       | Err _ => reply_with n m 502 w
       | Ok v =>
           if bool_decide (path rq = "/echo") then answer n m (Replied {| status := 200; content := PDict [("echo", v)] |}) w
           else match generate_id (path rq) with
                | Some id =>
                    if negb (durable_id id) then reply_with n m 404 w
                    else match validate_generation v (r_workload server) with
                         | Err _ => reply_with n m 502 w
                         | Ok _ => answer n m (Waiting id v) w
                         end
                | None => reply_with n m 404 w
                end
       end.

(** Some handler holds [record_lock]. *)
Definition locked (w : world) : bool := existsb (fun m => match at_ m with Holding _ _ => true | _ => false end) (messages w).

(** The locked section: the look for a record of the id, with [started] for its
    clock, and then the first record. *)
Definition enter (n : nat) (m : message) (id : string) (v : pyval) (results : string) (started : pyval) (w : world) : world :=
  match files w !! (results, id) with
  | Some _ => reply_with n m 409 w
  | None =>
      match digest v with
      | Err _ => reply_with n m 502 w
      | Ok sha => answer n m (Holding id [("request", v); ("request_sha256", PStr sha); ("started_unix", started); ("status", PStr "uncertain");
                                          ("generation_timeout_seconds", PInt (r_timeout server))]) w
      end
  end.
Definition store (n : nat) (m : message) (id : string) (result : pydict) (results : string) (s : saving) (w : world) : world :=
  let s := save_outcome result s in
  let w := put_record s id result w in
  if save_raised s then answer n m (Failing id result) w
  else with_messages (<[n := {| own := own m; request := request m; granted := Some (results, id); at_ := Entered id result |}]> (messages w)) w.

(** The dispatch to the model server. *)
Definition dispatch (n : nat) (m : message) (id : string) (result : pydict) (w : world) : world := with_upstream (upstream w ++ [n]) (answer n m (Upstream id result) w).

(** What came back, or why nothing did; the second save is not under the lock. *)
Definition complete (n : nat) (m : message) (id : string) (result : pydict) (got : res string) (s : saving) (w : world) : world :=
  match (content <-? got; raise_when MAX_BODY <? Z.of_nat (String.length content) with_exn ValueError "model response exceeds bound"; loads content) with
  | Err _ => answer n m (Failing id result) w
  | Ok v =>
      let result := dict_update result [("response", v); ("status", PStr "finished")] in
      let s := save_outcome result s in
      let w := put_record s id result w in
      if save_raised s then reply_with n m 502 w else answer n m (Finishing result) w
  end.

(** The reply with the record. *)
Definition respond (n : nat) (m : message) (result : pydict) (w : world) : world := answer n m (Replied {| status := 200; content := PDict result |}) w.

(** The start of a relay: [mkdir(exist_ok=False)] of its results. *)
Definition serve (results : string) (w : world) : world :=
  if bool_decide (results ∈ directories w) then w else with_serving (Some results) (with_directories ({[results]} ∪ directories w) w).

(** ** Steps of the world *)

Inductive action :=
| Bind (identity : EpisodeIdentity) (c : option contract)
| Close (identity : EpisodeIdentity)
| Open
| Begin (i : nat) (request_id : string) (payload : pyval)
| CheckIn (i : nat)
| Claim (i : nat) (deadline : pyval) (created opened : bool) (o : writing)
| Mark (i : nat) (o : writing)
| Dial (i : nat) (now : Z) (dialed : res unit)
| Send (i : nat) (delivered : bool) (error : option exn) (rq : http_request)
| Receive (i : nat) (now : Z)
| GiveUp (i : nat) (where_ : string) (status : pyval) (e : exn)
| Settle (i : nat) (o : writing)
| Record_ (i : nat) (o : writing)
| Turn (i : nat)
| Judge (i : nat) (o : writing) (sink1 sink2 : option exn) (o' : writing)
| Foreign (rq : http_request)
| Read (n : nat)
| Enter (n : nat) (started : pyval)
| Store (n : nat) (s : saving)
| Dispatch (n : nat)
| Complete (n : nat) (got : res string) (s : saving)
| Recover (n : nat) (error : string) (now : pyval) (s : saving)
| Respond (n : nat)
| Drop (n : nat)
| ClientDies
| RelayDies
| Serve (results : string).

(** A worker in the phase that a step of its call needs. *)
Definition in_call (i : nat) (w : world) (f : call -> worker -> option world) : option world :=
  match workers w !! i with
  | Some wk => match job wk with Some k => f k wk | None => None end
  | None => None
  end.
Definition in_message (n : nat) (w : world) (f : message -> option world) : option world := match messages w !! n with Some m => f m | None => None end.

(** What a relay loses when it dies: every request it has not answered. *)
Definition lose (m : message) : message := {| own := own m; request := request m; granted := granted m; at_ := match at_ m with Replied r => Replied r | _ => Lost end |}.

Definition client_step (a : action) (w : world) : option world :=
  match a with
  | CheckIn i => in_call i w (fun k wk => match at_phase k with Admitting => Some (check_in i k wk w) | _ => None end)
  | Claim i deadline created opened o => in_call i w (fun k wk => match at_phase k with Claiming c => Some (claim i k wk c deadline created opened o w) | _ => None end)
  | Mark i o => in_call i w (fun k wk => match at_phase k with Marking c state => Some (mark i k wk c state o w) | _ => None end)
  | Dial i now dialed => in_call i w (fun k wk => match at_phase k with Dialing c state => Some (dial i k wk c state now dialed w) | _ => None end)
  | Send i delivered error rq => in_call i w (fun k wk => match at_phase k with Sending c state => send i k wk c state delivered error rq w | _ => None end)
  | Receive i now => in_call i w (fun k wk => match at_phase k with Awaiting c state n => receive i k wk c state n now w | _ => None end)
  | GiveUp i where_ status e => in_call i w (fun k wk => match at_phase k with Awaiting c state n => abandon i k wk state where_ status e w | _ => None end)
  | Settle i o => in_call i w (fun k wk => match at_phase k with Settling state e => Some (settle i k wk state e o w) | _ => None end)
  | Record_ i o => in_call i w (fun k wk => match at_phase k with Answered c state n v => Some (record_response i k wk c state n v o w) | _ => None end)
  | Turn i => in_call i w (fun k wk => match at_phase k with Turning c state n v => Some (take_turn i k wk c state n v w) | _ => None end)
  | Judge i o s1 s2 o' => in_call i w (fun k wk => match at_phase k with Judging c state n v turn => Some (judge i k wk c state v turn o s1 s2 o' w) | _ => None end)
  | _ => None
  end.

Definition relay_step (a : action) (w : world) : option world :=
  match a with
  | Read n => in_message n w (fun m => match at_ m with InFlight => Some (read_request n m w) | _ => None end)
  | Enter n started => in_message n w (fun m => match at_ m, serving w with
      | Waiting id v, Some results => if locked w then None else Some (enter n m id v results started w)
      | _, _ => None
      end)
  | Store n s => in_message n w (fun m => match at_ m, serving w with
      | Holding id result, Some results => if can_save n id s w then Some (store n m id result results s w) else None
      | _, _ => None
      end)
  | Dispatch n => in_message n w (fun m => match at_ m with Entered id result => Some (dispatch n m id result w) | _ => None end)
  | Complete n got s => in_message n w (fun m => match at_ m with
      | Upstream id result => if can_save n id s w then Some (complete n m id result got s w) else None
      | _ => None
      end)
  | Recover n error now s => in_message n w (fun m => match at_ m with
      | Failing id result => if can_save n id s w then Some (recover n m id result error now s w) else None
      | _ => None
      end)
  | Respond n => in_message n w (fun m => match at_ m with Finishing result => Some (respond n m result w) | _ => None end)
  | Drop n => in_message n w (fun m => match at_ m with InFlight | Finishing _ => Some (answer n m Lost w) | _ => None end)
  | RelayDies => Some (with_serving None (with_messages (map lose (messages w)) w))
  | Serve results => if bool_decide (serving w = None) then Some (serve results w) else None
  | _ => None
  end.

Definition step (a : action) (w : world) : option world :=
  match a with
  | Bind identity c => Some (bind_episode identity c w).1
  | Close identity => Some (episode_traces identity true w).1
  | Open => Some (with_workers (workers w ++ [{| rpc := fresh_client; turn_id := 0; job := None |}]) w)
  | Begin i id v =>
      match workers w !! i with
      | Some wk => match job wk with
                   | None | Some {| at_phase := Finished _ |} => Some (set_job i {| call_id := id; payload := v; bound := None; at_phase := Admitting |} wk w)
                   | _ => None
                   end
      | None => None
      end
  | Foreign rq => Some (post None true rq w)
  | ClientDies => Some (with_bindings ∅ (with_captured [] (with_workers [] w)))
  | CheckIn _ | Claim _ _ _ _ _ | Mark _ _ | Dial _ _ _ | Send _ _ _ _ | Receive _ _ | GiveUp _ _ _ _ | Settle _ _ | Record_ _ _ | Turn _ | Judge _ _ _ _ _ => client_step a w
  | Read _ | Enter _ _ | Store _ _ | Dispatch _ | Complete _ _ _ | Recover _ _ _ _ | Respond _ | Drop _ | RelayDies | Serve _ => relay_step a w
  end.

Inductive reachable : world -> Prop :=
| reachable_start : reachable no_world
| reachable_step a w w' : reachable w -> step a w = Some w' -> reachable w'.
End Route.
