(* ===== verification/TransportResults.v ===== *)
(** * Generations are dispatched once and never forgotten

    What holds in every world that the transport's clients and the relays reach,
    whatever is lost, raised or killed on the way. A record's file can be
    overwritten by the failure of an earlier request of the same id
    ([failure_overwrites_record]); what depends on the file is claimed of the
    ids for which there is one message. *)

From S2P Require Import Prelude PyValue Contracts Training TrainingProofs PromptData GenerationContract GenerationContractResults Transport.
Local Open Scope Z_scope.

Section Results.
Context (float_repr : Z -> string) (sha256_hex : string -> string) (payload_sha256 : pyval -> string) (encode : pyval -> string) (loads : string -> res pyval)
  (digest : pyval -> res string) (server : relay) (max_idle : Z) (training_contract : option contract).
#[local] Notation step := (step float_repr sha256_hex payload_sha256 encode loads digest server max_idle training_contract).
#[local] Notation reachable := (reachable float_repr sha256_hex payload_sha256 encode loads digest server max_idle training_contract).
#[local] Notation client_step := (client_step float_repr sha256_hex payload_sha256 encode max_idle training_contract).
#[local] Notation relay_step := (relay_step loads digest server).
Implicit Types (w : world) (m : message) (k : call) (n : nat) (id : string).

(** ** The relay's side *)

Definition uncertain_record (rec : pydict) : Prop := dict_get "status" rec = Some (PStr "uncertain").
Definition finished_record (rec : pydict) : Prop := dict_get "status" rec = Some (PStr "finished").

(** A record keeps the request of the message that was let in. *)
Definition records_request (rec : pydict) m : Prop := exists v, loads (body (request m)) = Ok v /\ dict_get "request" rec = Some v.

(** No other message asks for the id. *)
Definition alone w n id : Prop := forall j x, messages w !! j = Some x -> j <> n -> generate_id (path (request x)) <> Some id.
(** The file of a record, unless other messages of its id can have written it. *)
Definition keeps w n (key : string * string) (rec : pydict) : Prop := alone w n key.2 -> files w !! key = Some (Whole rec).

Definition answered_with w n m (rec : pydict) : Prop := records_request rec m /\ finished_record rec /\ exists key, granted m = Some key /\ keeps w n key rec.

Definition message_ok w n m : Prop :=
  match at_ m with
  | InFlight => granted m = None
  | Waiting id v => granted m = None /\ generate_id (path (request m)) = Some id /\ loads (body (request m)) = Ok v
  | Holding id rec => granted m = None /\ generate_id (path (request m)) = Some id /\ records_request rec m /\ uncertain_record rec
      /\ exists d, serving w = Some d /\ forall j x, messages w !! j = Some x -> granted x <> Some (d, id)
  | Entered id rec | Upstream id rec => records_request rec m /\ uncertain_record rec /\ exists d, serving w = Some d /\ granted m = Some (d, id)
  | Failing id rec => records_request rec m /\ uncertain_record rec /\ generate_id (path (request m)) = Some id
      /\ exists d, serving w = Some d /\ (granted m = None \/ granted m = Some (d, id))
  | Finishing rec => answered_with w n m rec
  | Replied r => status r = 200 -> path (request m) = "/echo" \/ exists rec, content r = PDict rec /\ answered_with w n m rec
  | Lost => True
  end.

Definition granted_ok w n m : Prop := forall key, granted m = Some key ->
  generate_id (path (request m)) = Some key.2 /\ is_Some (files w !! key) /\ (alone w n key.2 -> exists rec, files w !! key = Some (Whole rec) /\ records_request rec m).

Definition holds m : bool := match at_ m with Holding _ _ => true | _ => false end.
Definition entered m : bool := match at_ m with Entered _ _ => true | _ => false end.

Record Relay w : Prop := {
  relay_messages : forall n m, messages w !! n = Some m -> message_ok w n m;
  relay_granted : forall n m, messages w !! n = Some m -> granted_ok w n m;
  relay_once : forall n m n' m' key, messages w !! n = Some m -> messages w !! n' = Some m' -> granted m = Some key -> granted m' = Some key -> n = n';
  relay_lock : forall n m n' m', messages w !! n = Some m -> messages w !! n' = Some m' -> holds m = true -> holds m' = true -> n = n';
  relay_upstream : NoDup (upstream w) /\ forall n, n ∈ upstream w -> exists m, messages w !! n = Some m /\ is_Some (granted m) /\ entered m = false }.

(** A step of one handler, which only writes the file of its own id. *)
Record handles w w' n m m' : Prop := {
  h_messages : messages w' = <[n := m']> (messages w);
  h_same : own m' = own m /\ request m' = request m;
  h_serving : serving w' = serving w;
  h_keeps : forall key, granted m = Some key -> granted m' = Some key;
  h_files : forall key, is_Some (files w !! key) -> is_Some (files w' !! key);
  h_others : forall key, generate_id (path (request m)) <> Some key.2 -> files w' !! key = files w !! key;
  h_grants : forall key, granted m = None -> granted m' = Some key -> holds m = true /\ forall j x, messages w !! j = Some x -> granted x <> Some key;
  h_lock : holds m' = true -> holds m = true \/ locked w = false;
  h_ok : message_ok w' n m';
  h_granted_ok : granted_ok w' n m';
  h_upstream : upstream w' = upstream w \/ upstream w' = upstream w ++ [n] /\ entered m = true;
  h_sent : n ∈ upstream w' -> is_Some (granted m') /\ entered m' = false }.

Lemma alone_messages w w' n id : map request (messages w') = map request (messages w) -> alone w' n id -> alone w n id.
Proof.
  intros E H j x Hx Hne. assert (map request (messages w') !! j = Some (request x)) as Hj by (by rewrite E, list_lookup_fmap, Hx).
  rewrite list_lookup_fmap in Hj. destruct (messages w' !! j) as [y|] eqn:Ey; [|done]. cbn in Hj. injection Hj as Hj. rewrite <- Hj. by apply (H j).
Qed.

Lemma handles_requests w w' n m m' : messages w !! n = Some m -> handles w w' n m m' -> map request (messages w') = map request (messages w).
Proof.
  intros Hn H. rewrite (h_messages _ _ _ _ _ H). change (map request (<[n := m']> (messages w))) with (request <$> <[n := m']> (messages w)).
  rewrite list_fmap_insert. apply list_insert_id. rewrite list_lookup_fmap, Hn. cbn. f_equal. symmetry. apply (h_same _ _ _ _ _ H).
Qed.

Lemma not_locked w n m : locked w = false -> messages w !! n = Some m -> holds m = false.
Proof.
  unfold locked. rewrite existsb_false, Forall_forall. intros H Hn. apply (H m). by eapply list_elem_of_lookup_2.
Qed.

(** The files of other messages are as they were. *)
Lemma keeps_other w w' n m m' j x key rec : messages w !! n = Some m -> handles w w' n m m' -> j <> n -> messages w !! j = Some x ->
  generate_id (path (request x)) = Some key.2 -> keeps w j key rec -> keeps w' j key rec.
Proof.
  intros Hn H Hne Hx Hid Hk Ha. pose proof (alone_messages _ _ _ _ (handles_requests _ _ _ _ _ Hn H) Ha) as Ha'.
  rewrite (h_others _ _ _ _ _ H); [by apply Hk|]. by apply (Ha' n m Hn).
Qed.

Lemma answered_other w w' n m m' j x rec : Relay w -> messages w !! n = Some m -> handles w w' n m m' -> j <> n -> messages w !! j = Some x ->
  answered_with w j x rec -> answered_with w' j x rec.
Proof.
  intros R Hn H Hne Hx (Hr & Hf & key & Hg & Hk). split; [done|]. split; [done|]. exists key. split; [done|].
  apply (keeps_other w w' n m m' j x); try done. by apply (relay_granted _ R j x Hx key Hg).
Qed.

Lemma message_other w w' n m m' j x : Relay w -> messages w !! n = Some m -> handles w w' n m m' -> j <> n -> messages w !! j = Some x -> message_ok w' j x.
Proof.
  intros R Hn H Hne Hx. pose proof (relay_messages _ R j x Hx) as Hok. unfold message_ok in *. pose proof (h_serving _ _ _ _ _ H) as Es.
  destruct (at_ x) as [|id v|id rec|id rec|id rec|id rec|rec|r|] eqn:Ea; rewrite ?Es; try done.
  - destruct Hok as (Hg & Hid & Hr & Hu & d & Hd & Hno). split_and!; try done. exists d. split; [done|]. intros i y Hy Hgy.
    rewrite (h_messages _ _ _ _ _ H) in Hy. destruct (decide (i = n)) as [->|Hni].
    + rewrite list_lookup_insert_eq in Hy by (by eapply lookup_lt_Some). injection Hy as <-. destruct (granted m) as [key|] eqn:Eg.
      * pose proof (h_keeps _ _ _ _ _ H _ Eg) as Hg'. rewrite Hgy in Hg'. injection Hg' as <-. by apply (Hno n m).
      * destruct (h_grants _ _ _ _ _ H _ Eg Hgy) as [Hh _]. apply Hne. eapply (relay_lock _ R); try done. unfold holds. by rewrite Ea.
    + rewrite list_lookup_insert_ne in Hy by done. by apply (Hno i y).
  - by apply (answered_other w w' n m m' j x).
  - intros H200. destruct (Hok H200) as [?|(rec & Hc & Ha)]; [by left|right]. exists rec. split; [done|]. by apply (answered_other w w' n m m' j x).
Qed.

Lemma relay_handles w w' n m m' : Relay w -> messages w !! n = Some m -> handles w w' n m m' -> Relay w'.
Proof.
  intros R Hn H. pose proof (lookup_lt_Some _ _ _ Hn) as Hlt. pose proof (h_messages _ _ _ _ _ H) as Hms.
  assert (forall j x, messages w' !! j = Some x -> (j = n /\ x = m') \/ (j <> n /\ messages w !! j = Some x)) as Hj.
  { intros j x. rewrite Hms. destruct (decide (j = n)) as [->|Hne]; [rewrite list_lookup_insert_eq by done; intros [= <-]; by left|].
    rewrite list_lookup_insert_ne by done. by right. }
  split.
  - intros j x [[-> ->]|[Hne Hx]]%Hj; [apply H|by apply (message_other w w' n m m' j x)].
  - intros j x [[-> ->]|[Hne Hx]]%Hj; [apply H|]. intros key Hg. destruct (relay_granted _ R j x Hx key Hg) as (Hid & Hf & Hk). split; [done|]. split; [by apply H|].
    intros Ha. destruct Hk as (rec & Hr & Hq); [exact (alone_messages _ _ _ _ (handles_requests _ _ _ _ _ Hn H) Ha)|]. exists rec. split; [|done].
    apply (keeps_other w w' n m m' j x key rec); try done. by intros _.
  - assert (forall j x key, j <> n -> messages w !! j = Some x -> granted x = Some key -> granted m' = Some key -> False) as Hno.
    { intros j x key Hne Hx Hg Hg'. destruct (granted m) as [k'|] eqn:Eg.
      - pose proof (h_keeps _ _ _ _ _ H _ Eg) as E. assert (k' = key) as -> by congruence. by eapply Hne, (relay_once _ R).
      - destruct (h_grants _ _ _ _ _ H _ Eg Hg') as [_ Hnone]. by apply (Hnone j x). }
    intros j x j' x' key [[-> ->]|[Hne Hx]]%Hj [[-> ->]|[Hne' Hx']]%Hj Hg Hg'; [done| | |by eapply (relay_once _ R)]; exfalso; by eapply Hno.
  - assert (forall j x, j <> n -> messages w !! j = Some x -> holds x = true -> holds m' = true -> False) as Hno.
    { intros j x Hne Hx Hh Hh'. destruct (h_lock _ _ _ _ _ H Hh') as [Hm|Hl]; [by eapply Hne, (relay_lock _ R)|]. by rewrite (not_locked w j x Hl Hx) in Hh. }
    intros j x j' x' [[-> ->]|[Hne Hx]]%Hj [[-> ->]|[Hne' Hx']]%Hj Hh Hh'; [done| | |by eapply (relay_lock _ R)]; exfalso; by eapply Hno.
  - destruct (relay_upstream _ R) as [Hnd Hall].
    assert (NoDup (upstream w') /\ forall j, j ∈ upstream w' -> j = n \/ j ∈ upstream w) as [Hnd' Hin].
    { destruct (h_upstream _ _ _ _ _ H) as [->|[-> He]]; [split; [done|by right]|]. split; [|intros j; rewrite elem_of_app, list_elem_of_singleton; tauto].
      apply NoDup_app. split; [done|split; [|apply NoDup_singleton]]. intros j Hjn ->%list_elem_of_singleton. destruct (Hall _ Hjn) as (m0 & Hm0 & _ & Hat). congruence. }
    split; [done|]. intros j Hjn. destruct (decide (j = n)) as [->|Hne].
    + exists m'. rewrite Hms, list_lookup_insert_eq by done. split; [done|by apply H].
    + destruct (Hin _ Hjn) as [?|Hjw]; [done|]. destruct (Hall _ Hjw) as (x & Hx & Hrest). exists x. by rewrite Hms, list_lookup_insert_ne.
Qed.

(** The relay's steps, as the other components see them. *)
Definition unchanged_posts w w' : Prop := length (messages w') = length (messages w) /\ forall n m, messages w !! n = Some m ->
  exists m', messages w' !! n = Some m' /\ own m' = own m /\ request m' = request m /\ forall r, at_ m = Replied r -> at_ m' = Replied r.
Definition same_client w w' : Prop := claims w' = claims w /\ rows w' = rows w /\ workers w' = workers w /\ bindings w' = bindings w /\ training_traces w' = training_traces w.
Definition relay_moves w w' : Prop := Relay w' /\ unchanged_posts w w' /\ same_client w w'.

Lemma handles_moves w w' n m m' : Relay w -> messages w !! n = Some m -> handles w w' n m m' -> (forall r, at_ m <> Replied r) -> same_client w w' -> relay_moves w w'.
Proof.
  intros R Hn H Hr Hc. split; [by eapply relay_handles|]. split; [|done]. unfold unchanged_posts. rewrite (h_messages _ _ _ _ _ H), length_insert. split; [done|].
  intros j x Hx. destruct (decide (j = n)) as [->|Hne].
  - exists m'. rewrite list_lookup_insert_eq by (by eapply lookup_lt_Some). rewrite Hn in Hx. injection Hx as <-. destruct (h_same _ _ _ _ _ H). split_and!; try done. intros r Ha. by apply Hr in Ha.
  - exists x. by rewrite list_lookup_insert_ne.
Qed.

(** A step that only moves a handler on. *)
Lemma quiet_handles w n m h : Relay w -> messages w !! n = Some m -> entered m = false ->
  message_ok w n {| own := own m; request := request m; granted := granted m; at_ := h |} ->
  match h with Entered _ _ => False | Holding _ _ => locked w = false | _ => True end ->
  handles w (answer n m h w) n m {| own := own m; request := request m; granted := granted m; at_ := h |}.
Proof.
  intros R Hn He Hok Hh. assert (map request (messages (answer n m h w)) = map request (messages w)) as Hreq.
  { unfold answer. cbn [messages with_messages]. change (map request (<[n := ?x]> (messages w))) with (request <$> <[n := x]> (messages w)).
    rewrite list_fmap_insert. apply list_insert_id. by rewrite list_lookup_fmap, Hn. }
  split; try done.
  - intros key Hg Hg'. cbn in Hg'. congruence.
  - unfold holds. cbn. destruct h; try done. by right.
  - revert Hok. unfold message_ok, answered_with, keeps. cbn [at_ granted request serving answer with_messages files]. destruct h as [|id v|id rec|id rec|id rec|id rec|rec|r|]; try done.
    + intros (? & ? & ? & ? & d & ? & Hno). split_and!; try done. exists d. split; [done|]. intros j x Hx. cbn in Hx. destruct (decide (j = n)) as [->|Hne].
      * rewrite list_lookup_insert_eq in Hx by (by eapply lookup_lt_Some). injection Hx as <-. exact (Hno n m Hn).
      * rewrite list_lookup_insert_ne in Hx by done. exact (Hno j x Hx).
    + intros (? & ? & key & ? & Hk). split_and!; try done. exists key. split; [done|]. intros Ha. apply Hk. exact (alone_messages _ _ _ _ Hreq Ha).
    + intros Hk H200. destruct (Hk H200) as [?|(rec & ? & ? & ? & key & ? & Hk')]; [by left|right]. exists rec. split_and!; try done. exists key. split; [done|].
      intros Ha. apply Hk'. exact (alone_messages _ _ _ _ Hreq Ha).
  - intros key Hg. destruct (relay_granted _ R n m Hn key Hg) as (? & ? & Hk). split_and!; try done. intros Ha. apply Hk. exact (alone_messages _ _ _ _ Hreq Ha).
  - by left.
  - intros Hin. destruct (relay_upstream _ R) as [_ Hall]. destruct (Hall _ Hin) as (m0 & Hm0 & Hg & _). rewrite Hn in Hm0. injection Hm0 as <-. split; [done|]. by destruct h.
Qed.

Lemma answer_moves n m h w : Relay w -> messages w !! n = Some m -> entered m = false -> (forall r, at_ m <> Replied r) ->
  message_ok w n {| own := own m; request := request m; granted := granted m; at_ := h |} ->
  match h with Entered _ _ => False | Holding _ _ => locked w = false | _ => True end -> relay_moves w (answer n m h w).
Proof. intros R Hn He Hr Hok Hh. eapply handles_moves; [done|done|by apply quiet_handles|done|by unfold same_client]. Qed.

Lemma reply_moves n m code w : Relay w -> messages w !! n = Some m -> entered m = false -> (forall r, at_ m <> Replied r) -> code <> 200 -> relay_moves w (reply_with n m code w).
Proof. intros R Hn He Hr Hc. apply answer_moves; try done. by intros ?. Qed.

(** *** Saves *)

Lemma contested_alone n id w s : can_save n id s w = true -> alone w n id -> exists o, s = Clean o.
Proof.
  destruct s as [o|b]; [by exists o|]. cbn. unfold contested. intros Hc Ha. exfalso. apply existsb_exists in Hc as ([j x] & Hin%list_elem_of_In & H).
  apply list_elem_of_lookup in Hin as (k & Hk). rewrite list_lookup_imap in Hk. destruct (messages w !! k) as [y|] eqn:Ey; [|done]. cbn in Hk. injection Hk as -> ->.
  apply andb_true_iff in H as [Hne Hid]. cbn in *. apply negb_true_iff, Nat.eqb_neq in Hne. apply bool_decide_eq_true in Hid. by apply (Ha j x).
Qed.

Lemma save_outcome_alone n id w rec s : can_save n id s w = true -> alone w n id -> exists o, save_outcome rec s = Clean o.
Proof. intros Hs Ha. destruct (contested_alone _ _ _ _ Hs Ha) as [o ->]. unfold save_outcome. case_match; by eexists. Qed.

(** A handler that saves a record in its file and moves on. *)
Lemma save_handles w n m id d rec s m' : Relay w -> messages w !! n = Some m -> serving w = Some d -> generate_id (path (request m)) = Some id -> records_request rec m ->
  (alone w n id -> exists o, s = Clean o) -> own m' = own m -> request m' = request m -> entered m = false ->
  granted m' = granted m /\ entered m' = false /\ holds m' = false \/ holds m = true /\ holds m' = false /\ granted m' = Some (d, id) /\ save_raised s = false ->
  message_ok (with_messages (<[n := m']> (messages w)) (put_record s id rec w)) n m' ->
  handles w (with_messages (<[n := m']> (messages w)) (put_record s id rec w)) n m m'.
Proof.
  intros R Hn Hd Hid Hq Hs Ho Hrq He Hcase Hok. set (w' := with_messages _ _) in *. pose proof (relay_messages _ R n m Hn) as Hokm.
  assert (forall key, files w' !! key = if bool_decide (key = (d, id)) then match s with Clean o => if in_place o then Some (Whole rec) else files w !! key | Mixed _ => Some Torn end else files w !! key) as Hf.
  { intros key. unfold w', put_record. rewrite Hd. destruct s as [o|b]; [destruct (in_place o)|]; cbn; case_bool_decide; subst; rewrite ?lookup_insert_eq, ?lookup_insert_ne by done; done. }
  assert (map request (messages w') = map request (messages w)) as Hreq.
  { unfold w'. cbn [messages with_messages]. change (map request (<[n := m']> (messages w))) with (request <$> <[n := m']> (messages w)).
    rewrite list_fmap_insert. apply list_insert_id. rewrite list_lookup_fmap, Hn. cbn. by rewrite Hrq. }
  assert (holds m = true -> granted m = None /\ forall j x, messages w !! j = Some x -> granted x <> Some (d, id)) as Hhold.
  { unfold holds. unfold message_ok in Hokm. destruct (at_ m) as [| |i r| | | | | |]; try done. destruct Hokm as (? & Hi & _ & _ & d' & Hd' & Hno). intros _. split; [done|].
    assert (i = id) as -> by congruence. assert (d' = d) as -> by congruence. done. }
  split; try done.
  - unfold w', put_record. rewrite Hd. by destruct s as [[]|].
  - intros key Hg. destruct Hcase as [[-> _]|(Hh & _)]; [done|]. destruct (Hhold Hh). congruence.
  - intros key [x Hx]. rewrite Hf. case_bool_decide; [|by eexists]. destruct s as [o|]; [|by eexists]. destruct (in_place o); by eexists.
  - intros key Hne. rewrite Hf. rewrite bool_decide_eq_false_2; [done|]. intros ->. done.
  - intros key Hg Hg'. destruct Hcase as [[Hcg _]|(Hh & _ & Hcg & _)]; [congruence|]. split; [done|]. rewrite Hcg in Hg'. injection Hg' as <-. by apply Hhold.
  - intros Hh. destruct Hcase as [(_ & _ & Hcg)|(_ & Hcg & _)]; congruence.
  - intros key Hg. rewrite Hrq. destruct Hcase as [[Hcg _]|(Hh & _ & Hcg & Hr)].
    + rewrite Hcg in Hg. destruct (relay_granted _ R n m Hn key Hg) as (Hi & [x Hx] & Hk). split; [done|]. split.
      { rewrite Hf. case_bool_decide; [|by eexists]. destruct s as [o|]; [|by eexists]. destruct (in_place o); by eexists. }
      intros Ha. apply (alone_messages _ _ _ _ Hreq) in Ha. destruct (Hk Ha) as (r & Hr & Hqr). unfold records_request in *. rewrite Hrq, Hf. case_bool_decide; [|by exists r]. subst key.
      destruct (Hs Ha) as [o ->]. destruct (in_place o); [by exists rec|by exists r].
    + rewrite Hcg in Hg. injection Hg as <-. cbn [snd]. split; [done|]. split.
      { rewrite Hf, bool_decide_eq_true_2 by done. destruct s as [o|]; [|by eexists]. destruct o; [by eexists|done|done]. }
      intros Ha. apply (alone_messages _ _ _ _ Hreq) in Ha. destruct (Hs Ha) as [o ->]. exists rec. unfold records_request in *. rewrite Hrq, Hf, bool_decide_eq_true_2 by done.
      by destruct o; cbn in *.
  - left. unfold w', put_record. rewrite Hd. by destruct s as [[]|].
  - assert (upstream w' = upstream w) as -> by (unfold w', put_record; rewrite Hd; by destruct s as [[]|]). intros Hin. destruct (relay_upstream _ R) as [_ Hall].
    destruct (Hall _ Hin) as (m0 & Hm0 & Hg & _). rewrite Hn in Hm0. injection Hm0 as <-. destruct Hcase as [(-> & ? & _)|(Hh & _)]; [done|]. destruct (Hhold Hh) as [Hg' _]. rewrite Hg' in Hg. by destruct Hg.
Qed.

Lemma answer_save n m h s id rec w : answer n m h (put_record s id rec w)
  = with_messages (<[n := {| own := own m; request := request m; granted := granted m; at_ := h |}]> (messages w)) (put_record s id rec w).
Proof. unfold answer, put_record. by destruct (serving w), s as [[]|]. Qed.

Lemma save_serving s id rec w : serving (put_record s id rec w) = serving w.
Proof. unfold put_record. by destruct (serving w) eqn:E, s as [[]|]. Qed.

(** *** Handlers *)

Lemma read_moves n m w : Relay w -> messages w !! n = Some m -> at_ m = InFlight -> relay_moves w (read_request loads server n m w).
Proof.
  intros R Hn Ha. pose proof (relay_messages _ R n m Hn) as Hok. unfold message_ok in Hok. rewrite Ha in Hok.
  assert (entered m = false) as He by (unfold entered; by rewrite Ha). assert (forall r, at_ m <> Replied r) as Hnr by (intros r; by rewrite Ha).
  assert (forall code, code <> 200 -> relay_moves w (reply_with n m code w)) as Hr by (intros; by apply reply_moves).
  unfold read_request. destruct (_ || _); [by apply Hr|]. destruct (parse_request loads (request m)) as [v|] eqn:Ev; [|by apply Hr].
  destruct (bool_decide (path (request m) = "/echo")) eqn:Ee.
  { apply bool_decide_eq_true in Ee. apply answer_moves; try done. intros _. by left. }
  destruct (generate_id (path (request m))) as [id|] eqn:Eid; [|by apply Hr]. destruct (negb (durable_id id)); [by apply Hr|].
  destruct (validate_generation _ _); [|by apply Hr]. apply answer_moves; try done. unfold message_ok. cbn. split_and!; try done. unfold parse_request in Ev. by res_inv Ev.
Qed.

Lemma enter_moves n m id v d started w : Relay w -> messages w !! n = Some m -> at_ m = Waiting id v -> serving w = Some d -> locked w = false ->
  relay_moves w (enter digest server n m id v d started w).
Proof.
  intros R Hn Ha Hd Hl. pose proof (relay_messages _ R n m Hn) as Hok. unfold message_ok in Hok. rewrite Ha in Hok. destruct Hok as (Hg & Hid & Hv).
  assert (entered m = false) as He by (unfold entered; by rewrite Ha). assert (forall r, at_ m <> Replied r) as Hnr by (intros r; by rewrite Ha).
  unfold enter. destruct (files w !! (d, id)) as [f|] eqn:Ef; [by apply reply_moves|]. destruct (digest v) as [sha|]; [|by apply reply_moves].
  apply answer_moves; try done. unfold message_ok. cbn. split_and!; try done; [by exists v|]. exists d. split; [done|]. intros j x Hx Hgx.
  destruct (relay_granted _ R j x Hx _ Hgx) as (_ & [y Hy] & _). congruence.
Qed.

Lemma store_moves n m id rec d s w : Relay w -> messages w !! n = Some m -> at_ m = Holding id rec -> serving w = Some d -> can_save n id s w = true ->
  relay_moves w (store n m id rec d s w).
Proof.
  intros R Hn Ha Hd Hs. pose proof (relay_messages _ R n m Hn) as Hok. unfold message_ok in Hok. rewrite Ha in Hok. destruct Hok as (Hg & Hid & Hq & Hu & _).
  assert (entered m = false) as He by (unfold entered; by rewrite Ha). assert (holds m = true) as Hh by (unfold holds; by rewrite Ha).
  unfold store. pose proof (save_outcome_alone n id w rec s Hs) as Hso. set (s' := save_outcome rec s) in *.
  assert (forall r, at_ m <> Replied r) as Hnr by (intros r; by rewrite Ha). assert (same_client w (put_record s' id rec w)) as Hc by (unfold same_client, put_record; by destruct (serving w), s' as [[]|]).
  destruct (save_raised s') eqn:Er.
  - rewrite answer_save. eapply (handles_moves w _ n m {| own := own m; request := request m; granted := granted m; at_ := Failing id rec |}); try done.
    apply (save_handles w n m id d rec s'); try done; [by left|]. unfold message_ok. cbn. split_and!; try done. exists d. rewrite save_serving. split; [done|by left].
  - assert (messages (put_record s' id rec w) = messages w) as -> by (unfold put_record; by destruct (serving w), s' as [[]|]).
    eapply (handles_moves w _ n m {| own := own m; request := request m; granted := Some (d, id); at_ := Entered id rec |}); try done.
    apply (save_handles w n m id d rec s'); try done; [by right|]. unfold message_ok. cbn. split_and!; try done. exists d. by rewrite save_serving.
Qed.

Lemma dispatch_moves n m id rec w : Relay w -> messages w !! n = Some m -> at_ m = Entered id rec -> relay_moves w (dispatch n m id rec w).
Proof.
  intros R Hn Ha. pose proof (relay_messages _ R n m Hn) as Hok. unfold message_ok in Hok. rewrite Ha in Hok. destruct Hok as (Hq & Hu & d & Hd & Hg).
  assert (entered m = true) as He by (unfold entered; by rewrite Ha). unfold dispatch.
  eapply (handles_moves w _ n m {| own := own m; request := request m; granted := granted m; at_ := Upstream id rec |}); try done; [|intros r; by rewrite Ha].
  split; try done.
  - intros key Hg'. congruence.
  - unfold message_ok. cbn. split_and!; try done. by exists d.
  - intros key Hk. destruct (relay_granted _ R n m Hn key Hk) as (? & ? & Hrec). split_and!; try done. intros Hal. apply Hrec. eapply alone_messages; [|exact Hal].
    cbn. change (map request (<[n := ?x]> (messages w))) with (request <$> <[n := x]> (messages w)). rewrite list_fmap_insert. apply list_insert_id. by rewrite list_lookup_fmap, Hn.
  - by right.
Qed.

Lemma complete_moves n m id rec got s w : Relay w -> messages w !! n = Some m -> at_ m = Upstream id rec -> can_save n id s w = true -> relay_moves w (complete loads n m id rec got s w).
Proof.
  intros R Hn Ha Hs. pose proof (relay_messages _ R n m Hn) as Hok. unfold message_ok in Hok. rewrite Ha in Hok. destruct Hok as (Hq & Hu & d & Hd & Hg).
  assert (entered m = false) as He by (unfold entered; by rewrite Ha). assert (forall r, at_ m <> Replied r) as Hnr by (intros r; by rewrite Ha).
  destruct (relay_granted _ R n m Hn _ Hg) as (Hid & _ & _). cbn in Hid.
  unfold complete. destruct (content <-? got; _)%py as [v|]; [|apply answer_moves; try done; unfold message_ok; cbn; split_and!; try done; exists d; split; [done|by right]].
  set (rec' := dict_update rec _). assert (finished_record rec' /\ records_request rec' m) as [Hf Hq'].
  { unfold finished_record, records_request, rec', dict_update. cbn [foldl]. rewrite !dict_get_set. split; [done|]. destruct Hq as (q & ? & ?). by exists q. }
  pose proof (save_outcome_alone n id w rec' s Hs) as Hso. set (s' := save_outcome rec' s) in *.
  assert (same_client w (put_record s' id rec' w)) as Hc by (unfold same_client, put_record; by destruct (serving w), s' as [[]|]).
  destruct (save_raised s') eqn:Er; unfold reply_with; rewrite answer_save; (eapply handles_moves; [done|done| |done|done]);
    (apply (save_handles w n m id d rec' s'); try done; try (by left)).
  unfold message_ok. cbn.
  split_and!; try done. exists (d, id). split; [done|]. intros Hal. destruct Hso as [o Ho].
  { eapply alone_messages; [|exact Hal]. cbn. change (map request (<[n := ?x]> (messages w))) with (request <$> <[n := x]> (messages w)). rewrite list_fmap_insert. apply list_insert_id. by rewrite list_lookup_fmap, Hn. }
  rewrite Ho in *. unfold put_record. rewrite Hd. destruct o; try done. cbn. by rewrite lookup_insert_eq.
Qed.

Lemma recover_moves n m id rec error now s w : Relay w -> messages w !! n = Some m -> at_ m = Failing id rec -> can_save n id s w = true -> relay_moves w (recover n m id rec error now s w).
Proof.
  intros R Hn Ha Hs. pose proof (relay_messages _ R n m Hn) as Hok. unfold message_ok in Hok. rewrite Ha in Hok. destruct Hok as (Hq & Hu & Hid & d & Hd & Hg).
  assert (entered m = false) as He by (unfold entered; by rewrite Ha). assert (forall r, at_ m <> Replied r) as Hnr by (intros r; by rewrite Ha).
  unfold recover. set (rec' := failed_record rec error now).
  assert (records_request rec' m) as Hq'.
  { unfold records_request, rec', failed_record, dict_update. cbn [foldl]. rewrite !dict_get_set. destruct Hq as (q & ? & ?). by exists q. }
  pose proof (save_outcome_alone n id w rec' s Hs) as Hso. set (s' := save_outcome rec' s) in *.
  assert (same_client w (put_record s' id rec' w)) as Hc by (unfold same_client, put_record; by destruct (serving w), s' as [[]|]).
  destruct (save_raised s') eqn:Er; unfold reply_with; rewrite answer_save; (eapply handles_moves; [done|done| |done|done]);
    (apply (save_handles w n m id d rec' s'); try done; by left).
Qed.

Lemma respond_moves n m rec w : Relay w -> messages w !! n = Some m -> at_ m = Finishing rec -> relay_moves w (respond n m rec w).
Proof.
  intros R Hn Ha. pose proof (relay_messages _ R n m Hn) as Hok. unfold message_ok in Hok. rewrite Ha in Hok.
  apply answer_moves; try done; [unfold entered; by rewrite Ha|intros r; by rewrite Ha|]. intros _. right. by exists rec.
Qed.

(** *** Processes *)

Lemma answered_same w w' n m m' rec : map request (messages w') = map request (messages w) -> files w' = files w -> request m' = request m -> granted m' = granted m ->
  answered_with w n m rec -> answered_with w' n m' rec.
Proof.
  intros Eq Ef Er Eg (Hq & Hf & key & Hg & Hk). unfold answered_with, records_request, keeps in *. rewrite Er, Eg, Ef. split_and!; try done. exists key. split; [done|].
  intros Ha. apply Hk. by eapply alone_messages.
Qed.

Lemma die_moves w : Relay w -> relay_moves w (with_serving None (with_messages (map lose (messages w)) w)).
Proof.
  intros R. set (w' := with_serving _ _). assert (forall j x, messages w' !! j = Some x -> exists m, messages w !! j = Some m /\ x = lose m) as Hj.
  { intros j x. unfold w'. cbn. rewrite list_lookup_fmap. destruct (messages w !! j) as [m|]; [|done]. intros [= <-]. by exists m. }
  assert (map request (messages w') = map request (messages w)) as Eq by (unfold w'; cbn; by rewrite map_map).
  split; [split|split; [|by unfold same_client]].
  - intros j x (m & Hm & ->)%Hj. pose proof (relay_messages _ R _ _ Hm) as Hok. unfold message_ok in *. cbn. destruct (at_ m); try done.
    intros H200. destruct (Hok H200) as [?|(rec & ? & Ha)]; [by left|right]. exists rec. split; [done|]. by eapply (answered_same w w').
  - intros j x (m & Hm & ->)%Hj key Hg. destruct (relay_granted _ R j m Hm key Hg) as (? & ? & Hk). split_and!; try done. intros Ha. apply Hk. by eapply alone_messages.
  - intros j x j' x' key (m & Hm & ->)%Hj (m' & Hm' & ->)%Hj. exact (relay_once _ R j m j' m' key Hm Hm').
  - intros j x j' x' (m & Hm & ->)%Hj _ Hh. unfold holds in Hh. cbn in Hh. by destruct (at_ m).
  - destruct (relay_upstream _ R) as [Hn Hall]. split; [done|]. intros j Hjn. destruct (Hall _ Hjn) as (m & Hm & Hg & He). exists (lose m). unfold w'. cbn [messages with_serving with_messages].
    rewrite list_lookup_fmap, Hm. split; [done|split; [done|]]. unfold entered. cbn. by destruct (at_ m).
  - split; [apply length_map|]. intros j m Hm. exists (lose m). unfold w'. cbn. rewrite list_lookup_fmap, Hm. split_and!; try done. by intros r ->.
Qed.

Lemma serve_moves d w : Relay w -> serving w = None -> relay_moves w (serve d w).
Proof.
  intros R Hs. unfold serve. assert (forall w', messages w' = messages w -> same_client w w' -> Relay w' -> relay_moves w w') as Hm.
  { intros w' Em Hc R'. split; [done|split; [|done]]. unfold unchanged_posts. rewrite Em. split; [done|]. intros n m Hn. by exists m. }
  destruct (bool_decide _); apply Hm; try done. set (w' := with_serving _ _).
  assert (forall n m, messages w !! n = Some m -> match at_ m with Holding _ _ | Entered _ _ | Upstream _ _ | Failing _ _ => False | _ => True end) as Hno.
  { intros n m Hn. pose proof (relay_messages _ R n m Hn) as Hok. unfold message_ok in Hok. rewrite Hs in Hok. destruct (at_ m); try done; naive_solver. }
  split; [|exact (relay_granted _ R)|exact (relay_once _ R)|exact (relay_lock _ R)|exact (relay_upstream _ R)].
  intros n m Hn. pose proof (relay_messages _ R n m Hn) as Hok. pose proof (Hno n m Hn) as Hx. unfold message_ok in *. by destruct (at_ m).
Qed.

(** Messages that were just posted. *)
Lemma append_relay w w' m : Relay w -> messages w' = messages w ++ [m] -> files w' = files w -> serving w' = serving w -> upstream w' = upstream w -> granted m = None -> at_ m = InFlight \/ at_ m = Lost -> Relay w'.
Proof.
  intros R Hms Hf Hs Hu Hg Ha.
  assert (forall j x, messages w' !! j = Some x -> messages w !! j = Some x \/ (j = length (messages w) /\ x = m)) as Hj.
  { intros j x. rewrite Hms. intros [?|[Hle Hx]]%lookup_app_Some; [by left|right].
    assert (j = length (messages w)) as -> by (apply lookup_lt_Some in Hx; cbn in Hx; lia). rewrite Nat.sub_diag in Hx. by injection Hx as <-. }
  assert (forall j id, alone w' j id -> alone w j id) as Hal by (intros j id H i x Hx; apply H; rewrite Hms; by apply lookup_app_l_Some).
  assert (forall j x rec, answered_with w j x rec -> answered_with w' j x rec) as Hans.
  { intros j x rec (? & ? & key & ? & Hk). split_and!; try done. exists key. split; [done|]. intros Hx. rewrite Hf. by apply Hk, Hal. }
  assert (holds m = false /\ entered m = false) as [Hh He] by (unfold holds, entered; by destruct Ha as [-> | ->]).
  split.
  - intros j x [Hx|[-> ->]]%Hj; [|unfold message_ok; by destruct Ha as [-> | ->]]. pose proof (relay_messages _ R _ _ Hx) as Hm. unfold message_ok in *. rewrite Hs. destruct (at_ x); try done; [|by apply Hans|].
    + destruct Hm as (? & ? & ? & ? & d & ? & Hno). split_and!; try done. exists d. split; [done|]. intros i y [Hy|[-> ->]]%Hj; [by apply (Hno i)|by rewrite Hg].
    + intros H200. destruct (Hm H200) as [?|(rec & ? & ?)]; [by left|right]. exists rec. split; [done|]. by apply Hans.
  - intros j x [Hx|[-> ->]]%Hj; [|intros key; by rewrite Hg]. intros key Hk. destruct (relay_granted _ R j x Hx key Hk) as (? & ? & Hr). rewrite Hf. split_and!; try done. intros Hx'. by apply Hr, Hal.
  - intros j x j' x' key [Hx|[-> ->]]%Hj [Hx'|[-> ->]]%Hj Hid Hid'; try congruence. by eapply (relay_once _ R).
  - intros j x j' x' [Hx|[-> ->]]%Hj [Hx'|[-> ->]]%Hj Hid Hid'; try congruence. by eapply (relay_lock _ R).
  - rewrite Hu. destruct (relay_upstream _ R) as [Hn Hall]. split; [done|]. intros j Hjn. destruct (Hall _ Hjn) as (x & Hx & Hrest). exists x. rewrite Hms. split; [|done].
    by apply lookup_app_l_Some.
Qed.

Lemma relay_step_moves a w w' : Relay w -> relay_step a w = Some w' -> relay_moves w w'.
Proof.
  intros R H. destruct a; try done; cbn in H; unfold in_message in H; try (destruct (messages w !! n) as [m|] eqn:Hn; [|done]).
  - destruct (at_ m) eqn:Ha; try done; injection H as <-. by apply read_moves.
  - destruct (at_ m) eqn:Ha, (serving w) as [d|] eqn:Hd; try done. destruct (locked w) eqn:Hl; [done|]. injection H as <-. by apply enter_moves.
  - destruct (at_ m) eqn:Ha, (serving w) as [d|] eqn:Hd; try done. destruct (can_save _ _ _ _) eqn:Hs; [|done]. injection H as <-. by apply store_moves.
  - destruct (at_ m) eqn:Ha; try done; injection H as <-. by apply dispatch_moves.
  - destruct (at_ m) eqn:Ha; try done. destruct (can_save _ _ _ _) eqn:Hs; [|done]. injection H as <-. by apply complete_moves.
  - destruct (at_ m) eqn:Ha; try done. destruct (can_save _ _ _ _) eqn:Hs; [|done]. injection H as <-. by apply recover_moves.
  - destruct (at_ m) eqn:Ha; try done; injection H as <-. by apply respond_moves.
  - destruct (at_ m) eqn:Ha; try done; injection H as <-; (apply answer_moves; try done; [unfold entered; by rewrite Ha|intros r; by rewrite Ha]).
  - injection H as <-. by apply die_moves.
  - case_bool_decide; [|done]. injection H as <-. by apply serve_moves.
Qed.
(** ** The clients' side *)

(** A ledger's client has posted the request. *)
Definition sent id w : Prop := exists n m, messages w !! n = Some m /\ own m = Some id.
Definition posted w k n : Prop := exists m, messages w !! n = Some m /\ own m = Some (call_id k) /\ body (request m) = encode (payload k) /\ path (request m) = GENERATE +:+ call_id k.

(** The relay has answered a request that a client posted. *)
Definition answered_request id w : Prop := exists n m r, messages w !! n = Some m /\ own m = Some id /\ path (request m) = GENERATE +:+ id /\ at_ m = Replied r /\ status r = 200.

(** What a call was answered. *)
Definition outcome w k n (v : pyval) : Prop := posted w k n /\ exists m r, messages w !! n = Some m /\ at_ m = Replied r /\ status r = 200 /\ content r = v.

(** A trace validates a recorded answer to a recorded request. *)
Definition evidenced w (c : contract) (t : TurnTrace) : Prop := exists k n v completion turn,
  outcome w k n v /\ generation_completion v = Ok completion /\ validate float_repr sha256_hex c (payload k) completion (PStr (call_id k)) (PInt turn) = Ok t.

(** Rows of the ledger. *)
Definition marked (row : pydict) : Prop := dict_get "uncertain" row = Some (PBool true).
Definition received (row : pydict) : Prop := dict_get "state" row = Some (PStr "response_received").
Definition row_ok id w : Prop := exists row, rows w !! id = Some row /\ (marked row \/ received row /\ answered_request id w).

Definition holding k : bool := match at_phase k with Admitting | Claiming _ | Finished _ => false | _ => true end.
Definition bound_ok w k (c : option contract) : Prop := forall key, bound k = Some key -> exists b, bindings w !! key = Some b /\ c = Some (b_contract b).

Definition call_ok w k : Prop :=
  match at_phase k with
  | Admitting | Finished _ => True
  | Claiming c => bound_ok w k c
  | Marking c state => bound_ok w k c /\ ~ sent (call_id k) w
  | Dialing c state | Sending c state => bound_ok w k c /\ ~ sent (call_id k) w /\ rows w !! call_id k = Some state /\ marked state
  | Awaiting c state n => bound_ok w k c /\ posted w k n /\ rows w !! call_id k = Some state /\ marked state
  | Settling state e => rows w !! call_id k = Some state /\ marked state /\ (possible (failure e) = false -> ~ sent (call_id k) w)
  | Answered c state n v => bound_ok w k c /\ rows w !! call_id k = Some state /\ marked state /\ outcome w k n v
  | Turning c state n v | Judging c state n v _ => bound_ok w k (Some c) /\ received state /\ outcome w k n v
  end.

Record Clients w : Prop := {
  clients_calls : forall i wk k, workers w !! i = Some wk -> job wk = Some k -> call_ok w k;
  clients_held : forall i wk k, workers w !! i = Some wk -> job wk = Some k -> holding k = true -> call_id k ∈ claims w;
  clients_once : forall i wk k j wk' k', workers w !! i = Some wk -> job wk = Some k -> workers w !! j = Some wk' -> job wk' = Some k' ->
    holding k = true -> holding k' = true -> call_id k = call_id k' -> i = j;
  clients_claimed : forall id, sent id w -> id ∈ claims w;
  clients_posts : forall n m n' m' id, messages w !! n = Some m -> messages w !! n' = Some m' -> own m = Some id -> own m' = Some id -> n = n';
  clients_rows : forall id, sent id w -> row_ok id w;
  clients_traces : forall key b t, bindings w !! key = Some b -> t ∈ traces b -> evidenced w (b_contract b) t;
  clients_captured : forall t, t ∈ training_traces w -> exists c, evidenced w c t }.

(** What no step takes back. *)
Record grows w w' : Prop := {
  grows_posts : forall n m, messages w !! n = Some m -> exists m', messages w' !! n = Some m' /\ own m' = own m /\ request m' = request m /\ forall r, at_ m = Replied r -> at_ m' = Replied r }.

Lemma sent_grows w w' id : grows w w' -> sent id w -> sent id w'.
Proof. intros G (n & m & Hn & Ho). destruct (grows_posts _ _ G _ _ Hn) as (m' & Hm' & Ho' & _). exists n, m'. by rewrite Ho'. Qed.
Lemma posted_grows w w' k n : grows w w' -> posted w k n -> posted w' k n.
Proof. intros G (m & Hn & Ho & Hb & Hp). destruct (grows_posts _ _ G _ _ Hn) as (m' & Hm' & Ho' & Hr & _). exists m'. by rewrite Ho', Hr. Qed.
Lemma outcome_grows w w' k n v : grows w w' -> outcome w k n v -> outcome w' k n v.
Proof.
  intros G [Hp (m & r & Hn & Ha & Hs & Hc)]. split; [by eapply posted_grows|]. destruct (grows_posts _ _ G _ _ Hn) as (m' & Hm' & _ & _ & Hr). exists m', r. split_and!; auto.
Qed.
Lemma answered_grows w w' id : grows w w' -> answered_request id w -> answered_request id w'.
Proof.
  intros G (n & m & r & Hn & Ho & Hp & Ha & Hs). destruct (grows_posts _ _ G _ _ Hn) as (m' & Hm' & Ho' & Hq & Hr). exists n, m', r. rewrite Ho', Hq. split_and!; auto.
Qed.
Lemma evidenced_grows w w' c t : grows w w' -> evidenced w c t -> evidenced w' c t.
Proof. intros G (k & n & v & completion & turn & Ho & Hrest). exists k, n, v, completion, turn. split; [by eapply outcome_grows|done]. Qed.
Lemma row_grows w w' id : grows w w' -> rows w' !! id = rows w !! id -> row_ok id w -> row_ok id w'.
Proof. intros G Hr (row & Hrow & H). exists row. rewrite Hr. split; [done|]. destruct H as [?|[? ?]]; [by left|right]. split; [done|by eapply answered_grows]. Qed.

(** The bindings keep their contracts. *)
Definition same_contracts w w' : Prop := forall key b, bindings w !! key = Some b -> exists b', bindings w' !! key = Some b' /\ b_contract b' = b_contract b.

Lemma bound_grows w w' k c : same_contracts w w' -> bound_ok w k c -> bound_ok w' k c.
Proof. intros B H key Hk. destruct (H _ Hk) as (b & Hb & ->). destruct (B _ _ Hb) as (b' & Hb' & E). exists b'. by rewrite E. Qed.

(** Another call is not disturbed. *)
Lemma call_grows w w' k : grows w w' -> same_contracts w w' -> (holding k = true -> rows w' !! call_id k = rows w !! call_id k /\ (sent (call_id k) w' -> sent (call_id k) w)) ->
  call_ok w k -> call_ok w' k.
Proof.
  intros G B Hh. unfold call_ok, holding in *. destruct (at_phase k) as [|c|c st|c st|c st|c st n|st e|c st n v|c st n v|c st n v turn|r] eqn:E; try done;
    try (destruct (Hh eq_refl) as [Hr Hs]; clear Hh); try rewrite Hr.
  - by apply bound_grows.
  - intros [? ?]. split; [by eapply bound_grows|tauto].
  - intros (? & ? & ? & ?). split_and!; try done; [by eapply bound_grows|tauto].
  - intros (? & ? & ? & ?). split_and!; try done; [by eapply bound_grows|tauto].
  - intros (? & ? & ? & ?). split_and!; try done; [by eapply bound_grows|by eapply posted_grows].
  - intros (? & ? & ?). split_and!; try done. tauto.
  - intros (? & ? & ? & ?). split_and!; try done; [by eapply bound_grows|by eapply outcome_grows].
  - intros (? & ? & ?). split_and!; try done; [by eapply bound_grows|by eapply outcome_grows].
  - intros (? & ? & ?). split_and!; try done; [by eapply bound_grows|by eapply outcome_grows].
Qed.

(** A step that leaves the clients' side of the world alone. *)
Lemma clients_relay w w' : Clients w -> relay_moves w w' -> Clients w'.
Proof.
  intros C (_ & [Hlen Hp] & (Ec & Er & Ew & Eb & Et)). assert (grows w w') as G by (split; exact Hp).
  assert (forall n m', messages w' !! n = Some m' -> exists m, messages w !! n = Some m /\ own m' = own m) as Hback.
  { intros n m' Hm'. destruct (lookup_lt_is_Some_2 (messages w) n) as [m Hm]; [rewrite <- Hlen; by eapply lookup_lt_Some|].
    destruct (Hp _ _ Hm) as (m2 & Hm2 & Ho & _). exists m. split; [done|]. rewrite Hm' in Hm2. by injection Hm2 as ->. }
  assert (forall id, sent id w' -> sent id w) as Hs by (intros id (n & m' & Hm' & Ho); destruct (Hback _ _ Hm') as (m & Hm & E); exists n, m; by rewrite <- E).
  split.
  - intros i wk k Hi Hk. rewrite Ew in Hi. apply (call_grows w); [done|intros key b Hb; exists b; by rewrite Eb|intros _; rewrite Er; split; [done|apply Hs]|by eapply (clients_calls _ C)].
  - intros i wk k Hi Hk Hh. rewrite Ew in Hi. rewrite Ec. by eapply (clients_held _ C).
  - intros i wk k j wk' k' Hi Hk Hj Hk'. rewrite Ew in Hi, Hj. by eapply (clients_once _ C).
  - intros id Hid. rewrite Ec. by apply (clients_claimed _ C), Hs.
  - intros n m n' m' id Hn Hn' Ho Ho'. destruct (Hback _ _ Hn) as (x & Hx & Ex), (Hback _ _ Hn') as (y & Hy & Ey). apply (clients_posts _ C n x n' y id); congruence.
  - intros id Hid. apply (row_grows w); [done|by rewrite Er|by apply (clients_rows _ C), Hs].
  - intros key b t Hb Ht. rewrite Eb in Hb. eapply evidenced_grows; [done|by eapply (clients_traces _ C)].
  - intros t Ht. rewrite Et in Ht. destruct (clients_captured _ C _ Ht) as (c & Hc). exists c. by eapply evidenced_grows.
Qed.

(** A piece of one call: what it may write, and what it must leave. *)
Record piece (i : nat) k w k' w' : Prop := {
  piece_grows : grows w w';
  piece_contracts : same_contracts w w';
  piece_worker : exists wk', workers w' = <[i := wk']> (workers w) /\ job wk' = Some k';
  piece_id : call_id k' = call_id k;
  piece_claims : claims w' = claims w \/ claims w' = {[call_id k]} ∪ claims w /\ call_id k ∉ claims w;
  piece_holds : holding k' = true -> (holding k = true \/ call_id k ∉ claims w) /\ call_id k ∈ claims w';
  piece_rows : rows w' = rows w \/ (holding k = true \/ call_id k ∉ claims w) /\ forall id, id <> call_id k -> rows w' !! id = rows w !! id;
  piece_posts : messages w' = messages w \/ exists m, messages w' = messages w ++ [m] /\ own m = Some (call_id k) /\ holding k = true /\ ~ sent (call_id k) w;
  piece_call : call_ok w' k';
  piece_row : sent (call_id k) w' -> row_ok (call_id k) w';
  piece_traces : forall key b t, bindings w' !! key = Some b -> t ∈ traces b -> evidenced w' (b_contract b) t;
  piece_captured : forall t, t ∈ training_traces w' -> exists c, evidenced w' c t }.

Lemma clients_piece i wk k w k' w' : Clients w -> workers w !! i = Some wk -> job wk = Some k -> piece i k w k' w' -> Clients w'.
Proof.
  intros C Hi Hk P. pose proof (piece_grows _ _ _ _ _ P) as G. destruct (piece_worker _ _ _ _ _ P) as (wk' & Ew & Ek'). pose proof (piece_id _ _ _ _ _ P) as Eid.
  assert (claims w ⊆ claims w') as Hcl by (destruct (piece_claims _ _ _ _ _ P) as [->|[-> _]]; set_solver).
  assert (forall j x y, workers w' !! j = Some x -> job x = Some y -> (j = i /\ y = k') \/ (j <> i /\ workers w !! j = Some x)) as Hj.
  { intros j x y Hx Hy. rewrite Ew in Hx. destruct (decide (j = i)) as [->|Hne].
    - rewrite list_lookup_insert_eq in Hx by (by eapply lookup_lt_Some). injection Hx as <-. left. split; [done|congruence].
    - rewrite list_lookup_insert_ne in Hx by done. by right. }
  assert (forall j x y, j <> i -> workers w !! j = Some x -> job x = Some y -> holding y = true -> holding k = true \/ call_id k ∉ claims w -> call_id y <> call_id k) as Hdiff.
  { intros j x y Hne Hx Hy Hh [Hhk|Hnk] E; [by apply Hne, (clients_once _ C j x y i wk k)|]. apply Hnk. rewrite <- E. by eapply (clients_held _ C). }
  assert (forall id, sent id w' -> sent id w \/ (id = call_id k /\ holding k = true /\ ~ sent (call_id k) w)) as Hsent.
  { intros id (n & m & Hn & Ho). destruct (piece_posts _ _ _ _ _ P) as [E|(m0 & E & Hm0 & Hh & Hno)]; rewrite E in Hn; [left; by exists n, m|].
    apply lookup_app_Some in Hn as [Hn|[Hle Hn]]; [left; by exists n, m|right]. apply list_elem_of_lookup_2, list_elem_of_singleton in Hn as ->. split; [congruence|done]. }
  split.
  - intros j x y Hx Hy. destruct (Hj _ _ _ Hx Hy) as [[-> ->]|[Hne Hxw]]; [exact (piece_call _ _ _ _ _ P)|].
    apply (call_grows w); [done|exact (piece_contracts _ _ _ _ _ P)| |by eapply (clients_calls _ C)]. intros Hh. split.
    + destruct (piece_rows _ _ _ _ _ P) as [->|[Hor Hrest]]; [done|]. apply Hrest. by eapply Hdiff.
    + intros [?|(E & Hhk & _)]%Hsent; [done|]. exfalso. eapply Hdiff; [exact Hne|done|done|done|by left|done].
  - intros j x y Hx Hy Hh. destruct (Hj _ _ _ Hx Hy) as [[-> ->]|[Hne Hxw]].
    + rewrite Eid. by apply (piece_holds _ _ _ _ _ P).
    + apply Hcl. by eapply (clients_held _ C).
  - intros j x y j' x' y' Hx Hy Hx' Hy' Hh Hh' E. destruct (Hj _ _ _ Hx Hy) as [[-> ->]|[Hne Hxw]], (Hj _ _ _ Hx' Hy') as [[-> ->]|[Hne' Hxw']]; [done| | |by eapply (clients_once _ C)]; exfalso.
    + destruct (piece_holds _ _ _ _ _ P Hh) as [Hor _]. apply (Hdiff j' x' y' Hne' Hxw' Hy' Hh' Hor). congruence.
    + destruct (piece_holds _ _ _ _ _ P Hh') as [Hor _]. apply (Hdiff j x y Hne Hxw Hy Hh Hor). congruence.
  - intros id [Hs|(-> & Hh & _)]%Hsent; apply Hcl; [by apply (clients_claimed _ C)|by eapply (clients_held _ C)].
  - intros n m n' m' id Hn Hn' Ho Ho'. destruct (piece_posts _ _ _ _ _ P) as [E|(m0 & E & Hm0 & _ & Hno)]; rewrite E in Hn, Hn'; [by eapply (clients_posts _ C)|].
    assert (forall j x, (messages w ++ [m0]) !! j = Some x -> own x = Some id -> (messages w !! j = Some x /\ sent id w) \/ (j = length (messages w) /\ id = call_id k)) as Hx.
    { intros j x Hx Hox. apply lookup_app_Some in Hx as [Hx|[Hle Hx]]; [left; split; [done|by exists j, x]|right]. pose proof (lookup_lt_Some _ _ _ Hx) as Hlt. cbn in Hlt.
      apply list_elem_of_lookup_2, list_elem_of_singleton in Hx as ->. split; [lia|congruence]. }
    destruct (Hx _ _ Hn Ho) as [[Hn1 Hs]|[-> ->]], (Hx _ _ Hn' Ho') as [[Hn2 Hs']|[-> E2]]; [by eapply (clients_posts _ C)|by subst|done|done].
  - intros id Hid. destruct (decide (id = call_id k)) as [->|Hne]; [by apply (piece_row _ _ _ _ _ P)|].
    assert (sent id w) as Hs by (by destruct (Hsent _ Hid) as [?|[? _]]). apply (row_grows w); [done| |by apply (clients_rows _ C)].
    destruct (piece_rows _ _ _ _ _ P) as [->|[_ Hrest]]; [done|by apply Hrest].
  - exact (piece_traces _ _ _ _ _ P).
  - exact (piece_captured _ _ _ _ _ P).
Qed.

(** ** The steps of a call *)

(** The world up to the row of a request and a worker. *)
Definition same_rest w w' : Prop := messages w' = messages w /\ bindings w' = bindings w /\ training_traces w' = training_traces w /\ claims w' = claims w.

Lemma same_grows w w' : messages w' = messages w -> grows w w'.
Proof. intros Em. split. intros n m Hn. exists m. by rewrite Em. Qed.
Lemma same_sent w w' id : messages w' = messages w -> sent id w' <-> sent id w.
Proof. intros Em. unfold sent. by rewrite Em. Qed.

Lemma quiet_piece i wk k w k' w' : Clients w -> workers w !! i = Some wk -> job wk = Some k -> same_rest w w' ->
  (exists wk', workers w' = <[i := wk']> (workers w) /\ job wk' = Some k') -> call_id k' = call_id k -> (holding k' = true -> holding k = true) ->
  rows w' = rows w \/ holding k = true /\ (forall id, id <> call_id k -> rows w' !! id = rows w !! id) /\ (sent (call_id k) w -> row_ok (call_id k) w') ->
  call_ok w' k' -> piece i k w k' w'.
Proof.
  intros C Hi Hk (Em & Eb & Et & Ec) Hw Hid Hh Hrows Hok. pose proof (same_grows _ _ Em) as G. split; try done.
  - intros key b Hb. exists b. by rewrite Eb.
  - by left.
  - intros Hh'. pose proof (Hh Hh') as Hhk. split; [by left|]. rewrite Ec. by eapply (clients_held _ C).
  - destruct Hrows as [->|(Hhk & Hrest & _)]; [by left|right]. split; [by left|done].
  - by left.
  - rewrite (same_sent _ _ _ Em). intros Hs. destruct Hrows as [E|(_ & _ & H)]; [|by apply H]. apply (row_grows w); [done|by rewrite E|by apply (clients_rows _ C)].
  - intros key b t Hb Ht. rewrite Eb in Hb. eapply evidenced_grows; [done|by eapply (clients_traces _ C)].
  - intros t Ht. rewrite Et in Ht. destruct (clients_captured _ C _ Ht) as (c & Hc). exists c. by eapply evidenced_grows.
Qed.

(** A call that moves on without writing. *)
Lemma moved_piece i wk wk0 k p w : Clients w -> workers w !! i = Some wk -> job wk = Some k -> (holding (moved k p) = true -> holding k = true) -> call_ok w (moved k p) ->
  piece i k w (moved k p) (goes i k wk0 p w).
Proof.
  intros C Hi Hk Hh Hok. apply (quiet_piece i wk); try done; [by eexists|by left].
Qed.

(** A call that writes its row and moves on. *)
Lemma written_piece i wk wk0 k p o state w : Clients w -> workers w !! i = Some wk -> job wk = Some k -> holding k = true ->
  (sent (call_id k) w -> marked state \/ received state /\ answered_request (call_id k) w) ->
  call_ok (put_row o (call_id k) state w) (moved k p) -> piece i k w (moved k p) (goes i k wk0 p (put_row o (call_id k) state w)).
Proof.
  intros C Hi Hk Hh Hrow Hok. assert (same_rest w (put_row o (call_id k) state w)) as Hsame by (unfold same_rest, put_row; by destruct (in_place o)).
  assert (workers (put_row o (call_id k) state w) = workers w) as Ew by (unfold put_row; by destruct (in_place o)).
  apply (quiet_piece i wk); try done.
  - eexists. unfold goes, set_job. cbn. rewrite Ew. done.
  - right. split; [done|]. split.
    + intros id Hne. unfold goes, set_job, put_row. destruct (in_place o); cbn; [|done]. by rewrite lookup_insert_ne.
    + intros Hs. destruct (clients_rows _ C _ Hs) as (row & Hr & Hrok). unfold row_ok, goes, set_job, put_row. destruct (in_place o); cbn; [|by exists row].
      exists state. rewrite lookup_insert_eq. split; [done|]. by apply Hrow.
Qed.

Lemma binding_found id w key b : binding_for id w = Ok (Some (key, b)) -> bindings w !! key = Some b.
Proof.
  unfold binding_for. set (found := match bindings w !! id with Some b => _ | None => _ end). intros H. res_inv H. subst found.
  destruct (bindings w !! id) as [b'|] eqn:E; [by simplify_eq|]. destruct (turn_owner id) as [k|]; [|done]. destruct (bindings w !! k) eqn:Ek; by simplify_eq/=.
Qed.

Lemma check_in_piece i wk k w : Clients w -> workers w !! i = Some wk -> job wk = Some k -> at_phase k = Admitting ->
  exists k', piece i k w k' (check_in float_repr sha256_hex training_contract i k wk w).
Proof.
  intros C Hi Hk Hp. unfold check_in. destruct (binding_for (call_id k) w) as [found|e] eqn:Eb.
  2: { eexists. by apply (moved_piece i wk). }
  set (c := match found with Some (_, b) => Some (b_contract b) | None => training_contract end).
  destruct (match c with Some c0 => check_payload float_repr sha256_hex c0 (payload k) | None => Ok tt end); [|eexists; by apply (moved_piece i wk)].
  exists {| call_id := call_id k; payload := payload k; bound := fst <$> found; at_phase := Claiming c |}.
  apply (quiet_piece i wk); try done; [by eexists|by left|]. intros key Hkey. cbn in Hkey. destruct found as [[key' b']|]; [|done]. cbn in Hkey. injection Hkey as <-.
  exists b'. split; [by eapply binding_found|by subst c].
Qed.

Lemma claim_piece i wk k w c deadline created opened o : Clients w -> workers w !! i = Some wk -> job wk = Some k -> at_phase k = Claiming c ->
  exists k', piece i k w k' (claim payload_sha256 i k wk c deadline created opened o w).
Proof.
  intros C Hi Hk Hp. pose proof (clients_calls _ C _ _ _ Hi Hk) as Hok. unfold call_ok in Hok. rewrite Hp in Hok.
  assert (holding k = false) as Hh by (unfold holding; by rewrite Hp).
  unfold claim. destruct (negb (durable_id _)); [eexists; by apply (moved_piece i wk)|]. destruct (bool_decide (call_id k ∈ claims w)) eqn:Ein; [eexists; by apply (moved_piece i wk)|].
  destruct (negb created); [eexists; by apply (moved_piece i wk)|]. apply bool_decide_eq_false in Ein.
  assert (~ sent (call_id k) w) as Hns by (intros Hs; by apply Ein, (clients_claimed _ C)).
  set (w1 := with_claims ({[call_id k]} ∪ claims w) w).
  assert (forall p w2, p = Marking c (initial_row payload_sha256 k deadline) \/ holding (moved k p) = false /\ match p with Finished _ => True | _ => False end -> (exists o, w2 = put_row o (call_id k) (initial_row payload_sha256 k deadline) w1) \/ w2 = w1 ->
    piece i k w (moved k p) (goes i k wk p w2)) as Hpiece.
  { intros p w2 Hpp Hw2. assert (messages w2 = messages w /\ bindings w2 = bindings w /\ training_traces w2 = training_traces w /\ claims w2 = {[call_id k]} ∪ claims w /\ workers w2 = workers w
      /\ forall id, id <> call_id k -> rows w2 !! id = rows w !! id) as (Em & Eb & Et & Ec & Ew & Erow).
    { destruct Hw2 as [[o2 ->]| ->]; [|done]. unfold put_row. destruct (in_place o2); [|done]. split_and!; try done. intros id Hne. cbn. by rewrite lookup_insert_ne. }
    assert (grows w (goes i k wk p w2)) as G by by apply same_grows. split; try done.
    - intros key b Hb. exists b. cbn. by rewrite Eb.
    - eexists. cbn. by rewrite Ew.
    - right. done.
    - intros _. split; [by right|]. cbn. rewrite Ec. set_solver.
    - right. split; [by right|done].
    - by left.
    - unfold call_ok. destruct Hpp as [->|[_ Hf]]; cbn; [|by destruct p]. split; [|by rewrite same_sent]. intros key Hkey. cbn. rewrite Eb. by apply Hok.
    - rewrite same_sent by done. done.
    - intros key b t Hb Ht. cbn in Hb. rewrite Eb in Hb. eapply evidenced_grows; [done|by eapply (clients_traces _ C)].
    - intros t Ht. cbn in Ht. rewrite Et in Ht. destruct (clients_captured _ C _ Ht) as (c' & Hc). exists c'. by eapply evidenced_grows. }
  destruct (negb opened); [eexists; apply Hpiece; [by right|by right]|].
  destruct (raised o); eexists; apply Hpiece; [by right|left; by eexists|by left|left; by eexists].
Qed.

Lemma updated_get state changes key : dict_get key (updated state changes) = foldl (fun v kv => if bool_decide (key = kv.1) then Some kv.2 else v) (dict_get key state) changes.
Proof. unfold updated, dict_update. revert state. induction changes as [|[x v] l IH]; intros state; [done|]. cbn. rewrite IH, dict_get_set. done. Qed.

(** The world after a row was written, seen from the call. *)
Lemma put_row_same o id state w : same_rest w (put_row o id state w).
Proof. unfold same_rest, put_row. by destruct (in_place o). Qed.
Lemma put_row_at id state w : rows (put_row Written id state w) !! id = Some state.
Proof. cbn. by rewrite lookup_insert_eq. Qed.
Lemma bound_put o id state w k c : bound_ok w k c -> bound_ok (put_row o id state w) k c.
Proof. intros H key Hk. destruct (H _ Hk) as (b & Hb & ->). exists b. split; [|done]. unfold put_row. by destruct (in_place o). Qed.
Lemma outcome_put o id state w k n v : outcome w k n v -> outcome (put_row o id state w) k n v.
Proof. apply outcome_grows. destruct (put_row_same o id state w) as (Em & _). by apply same_grows. Qed.

Lemma mark_piece i wk k w c state o : Clients w -> workers w !! i = Some wk -> job wk = Some k -> at_phase k = Marking c state ->
  exists k', piece i k w k' (mark i k wk c state o w).
Proof.
  intros C Hi Hk Hp. pose proof (clients_calls _ C _ _ _ Hi Hk) as Hok. unfold call_ok in Hok. rewrite Hp in Hok. destruct Hok as [Hb Hns].
  unfold mark. set (state' := updated state _). assert (marked state') as Hm by (unfold marked, state'; by rewrite updated_get).
  assert (holding k = true) as Hh by (unfold holding; by rewrite Hp). destruct (raised o) eqn:Eo; eexists; apply (written_piece i wk); try done.
  - destruct o; try done. unfold call_ok. cbn [moved at_phase call_id bound].
    split; [by apply (bound_put Written)|]. split; [done|]. split; [apply put_row_at|done].
Qed.

Lemma dial_piece i wk k w c state now dialed : Clients w -> workers w !! i = Some wk -> job wk = Some k -> at_phase k = Dialing c state ->
  exists k', piece i k w k' (dial encode max_idle i k wk c state now dialed w).
Proof.
  intros C Hi Hk Hp. pose proof (clients_calls _ C _ _ _ Hi Hk) as Hok. unfold call_ok in Hok. rewrite Hp in Hok. destruct Hok as (Hb & Hns & Hr & Hm).
  unfold dial. destruct (_ <? _); [|destruct dialed]; eexists; apply (moved_piece i wk); try done; unfold holding; by rewrite Hp.
Qed.

Lemma send_piece i wk k w c state delivered error rq w' : Clients w -> workers w !! i = Some wk -> job wk = Some k -> at_phase k = Sending c state ->
  send encode i k wk c state delivered error rq w = Some w' -> exists k', piece i k w k' w'.
Proof.
  intros C Hi Hk Hp. pose proof (clients_calls _ C _ _ _ Hi Hk) as Hok. unfold call_ok in Hok. rewrite Hp in Hok. destruct Hok as (Hb & Hns & Hr & Hm).
  unfold send. destruct (bool_decide _ && bool_decide _) eqn:E; [|done]. destr_bool. intros [= <-]. set (w1 := post (Some (call_id k)) delivered rq w). set (n := length (messages w)).
  assert (exists m, messages w1 = messages w ++ [m] /\ own m = Some (call_id k) /\ request m = rq) as (m & Em & Hmo & Hmr) by (by eexists).
  assert (posted w1 k n) as Hpost by (exists m; split; [unfold n; rewrite Em; by rewrite lookup_app_r, Nat.sub_diag by lia|by rewrite Hmr]).
  assert (grows w w1) as G by (split; intros j x Hj; exists x; split; [rewrite Em; by apply lookup_app_l_Some|done]).
  assert (holding k = true) as Hh by (unfold holding; by rewrite Hp).
  assert (forall p wk0, holding (moved k p) = true -> call_ok w1 (moved k p) -> piece i k w (moved k p) (goes i k wk0 p w1)) as Hpiece.
  { intros p wk0 _ Hok. assert (grows w (goes i k wk0 p w1)) as G' by (split; exact (grows_posts _ _ G)). split; try done.
    - intros key b Hkb. by exists b.
    - by eexists.
    - by left.
    - intros _. split; [by left|by eapply (clients_held _ C)].
    - by left.
    - right. by exists m.
    - intros _. exists state. split; [done|by left].
    - intros key b t Hkb Ht. eapply (evidenced_grows w); [done|by eapply (clients_traces _ C)].
    - intros t Ht. destruct (clients_captured _ C _ Ht) as (c' & Hc). exists c'. by eapply (evidenced_grows w). }
  destruct error as [e|]; eexists; apply Hpiece; try done; unfold call_ok; cbn; split_and!; done.
Qed.

Lemma generate_id_of id : generate_id (GENERATE +:+ id) = Some id.
Proof.
  unfold generate_id. rewrite prefix_self. f_equal. exact (substring_after GENERATE id).
Qed.

(** What a 200 tells the client that posted the request. *)
Lemma reply_outcome w k n m r : posted w k n -> messages w !! n = Some m -> at_ m = Replied r -> status r = 200 -> outcome w k n (content r).
Proof. intros Hpost Hn Ha H200. split; [done|]. by exists m, r. Qed.

Lemma outcome_answered w k n v : outcome w k n v -> answered_request (call_id k) w.
Proof.
  intros [(m & Hn & Ho & _ & Hp) (m' & r & Hn' & Ha & Hs & _)]. assert (m' = m) as -> by congruence. by exists n, m, r.
Qed.

Lemma receive_piece i wk k w c state n now w' : Clients w -> workers w !! i = Some wk -> job wk = Some k -> at_phase k = Awaiting c state n ->
  receive encode i k wk c state n now w = Some w' -> exists k', piece i k w k' w'.
Proof.
  intros C Hi Hk Hp. pose proof (clients_calls _ C _ _ _ Hi Hk) as Hok. unfold call_ok in Hok. rewrite Hp in Hok. destruct Hok as (Hb & Hpost & Hr & Hm).
  assert (holding k = true) as Hh by (unfold holding; by rewrite Hp).
  unfold receive. destruct (messages w !! n) as [m|] eqn:Hn; [|done]. destruct (at_ m) as [| | | | | | |r|] eqn:Ha; try done. intros [= <-].
  destruct (negb (status r =? 200) || _) eqn:E; eexists; apply (moved_piece i wk); try done.
  apply orb_false_iff in E as [E _]. apply negb_false_iff, Z.eqb_eq in E. unfold call_ok. cbn [moved at_phase call_id]. split_and!; try done.
  exact (reply_outcome w k n m r Hpost Hn Ha E).
Qed.

Lemma abandon_piece i wk k w c state n where_ st e w' : Clients w -> workers w !! i = Some wk -> job wk = Some k -> at_phase k = Awaiting c state n ->
  abandon i k wk state where_ st e w = Some w' -> exists k', piece i k w k' w'.
Proof.
  intros C Hi Hk Hp. pose proof (clients_calls _ C _ _ _ Hi Hk) as Hok. unfold call_ok in Hok. rewrite Hp in Hok. destruct Hok as (Hb & Hpost & Hr & Hm).
  unfold abandon. destruct (bool_decide _); [|done]. intros [= <-]. eexists. apply (moved_piece i wk); try done. unfold holding. by rewrite Hp.
Qed.

Lemma settle_piece i wk k w state e o : Clients w -> workers w !! i = Some wk -> job wk = Some k -> at_phase k = Settling state e -> exists k', piece i k w k' (settle i k wk state e o w).
Proof.
  intros C Hi Hk Hp. pose proof (clients_calls _ C _ _ _ Hi Hk) as Hok. unfold call_ok in Hok. rewrite Hp in Hok. destruct Hok as (Hr & Hm & Hns).
  assert (holding k = true) as Hh by (unfold holding; by rewrite Hp).
  unfold settle. destruct (raised o); eexists; apply (written_piece i wk); try done; intros Hs; left; unfold marked; rewrite updated_get; cbn; destruct (possible (failure e)); try done; by destruct Hns.
Qed.

Lemma record_piece i wk k w c state n v o : Clients w -> workers w !! i = Some wk -> job wk = Some k -> at_phase k = Answered c state n v ->
  exists k', piece i k w k' (record_response i k wk c state n v o w).
Proof.
  intros C Hi Hk Hp. pose proof (clients_calls _ C _ _ _ Hi Hk) as Hok. unfold call_ok in Hok. rewrite Hp in Hok. destruct Hok as (Hb & Hr & Hm & Ho).
  assert (holding k = true) as Hh by (unfold holding; by rewrite Hp). assert (answered_request (call_id k) w) as Ha by (by eapply outcome_answered).
  unfold record_response. set (state' := updated state _). assert (received state') as Hrec by (unfold received, state'; by rewrite updated_get).
  destruct (raised o); [|destruct c as [c|]]; eexists; apply (written_piece i wk); try done; try (intros _; by right).
  unfold call_ok. cbn [moved at_phase call_id]. split; [by apply bound_put|]. split; [done|by apply outcome_put].
Qed.

(** What the validation of a call's evidence may have written so far. *)
Record judged k w w2 : Prop := {
  judged_same : messages w2 = messages w /\ claims w2 = claims w /\ workers w2 = workers w;
  judged_contracts : same_contracts w w2;
  judged_rows : rows w2 = rows w \/ exists st, received st /\ rows w2 = <[call_id k := st]> (rows w);
  judged_traces : forall key b t, bindings w2 !! key = Some b -> t ∈ traces b -> evidenced w (b_contract b) t;
  judged_captured : forall t, t ∈ training_traces w2 -> exists c, evidenced w c t }.

Lemma judged_start k w : Clients w -> judged k w w.
Proof.
  intros C. split; [done| |by left| |apply (clients_captured _ C)]; [intros key b Hb; by exists b|intros key b t; apply (clients_traces _ C)].
Qed.

Lemma judged_row k w w2 o st : received st -> judged k w w2 -> judged k w (put_row o (call_id k) st w2).
Proof.
  intros Hst [H1 H2 H3 H4 H5]. unfold put_row. destruct (in_place o); [|done]. split; try done. right. exists st. split; [done|]. cbn.
  destruct H3 as [->|(st' & _ & ->)]; [done|]. apply insert_insert_eq.
Qed.

Lemma judged_trace k w w2 c t : bound_ok w k (Some c) -> evidenced w c t -> judged k w w2 -> judged k w (add_trace (bound k) t w2).
Proof.
  intros Hb Ht J. pose proof J as [H1 H2 H3 H4 H5]. unfold add_trace. destruct (bound k) as [key|] eqn:Ek; [|done]. destruct (Hb key Ek) as (b & Hkb & [= ->]).
  destruct (H2 _ _ Hkb) as (b2 & Hb2 & Ec). cbn. rewrite Hb2. cbn. split; try done.
  - intros key' x Hx. cbn. destruct (H2 _ _ Hx) as (x2 & Hx2 & Ex). destruct (decide (key' = key)) as [->|Hne]; [rewrite lookup_insert_eq|rewrite lookup_insert_ne by done; by exists x2].
    eexists. split; [done|]. cbn. congruence.
  - intros key' x y Hx Hy. cbn in Hx. destruct (decide (key' = key)) as [->|Hne]; [|rewrite lookup_insert_ne in Hx by done; by eapply H4].
    rewrite lookup_insert_eq in Hx. injection Hx as <-. cbn in *. apply elem_of_app in Hy as [Hy|Hy%list_elem_of_singleton]; [by eapply H4|]. subst. by rewrite Ec.
Qed.

Lemma judged_capture k w w2 c t : evidenced w c t -> judged k w w2 -> judged k w (with_captured (training_traces w2 ++ [t]) w2).
Proof. intros Ht [H1 H2 H3 H4 H5]. split; try done. cbn. intros x [Hx|Hx%list_elem_of_singleton]%elem_of_app; [by apply H5|subst; by exists c]. Qed.

Lemma judged_piece i wk wk0 k w w2 r : Clients w -> workers w !! i = Some wk -> job wk = Some k -> holding k = true -> answered_request (call_id k) w -> judged k w w2 ->
  exists k', piece i k w k' (goes i k wk0 (Finished r) w2).
Proof.
  intros C Hi Hk Hh Ha [(Em & Ec & Ew) Hsc Hrows Htr Hcap]. exists (moved k (Finished r)). assert (grows w (goes i k wk0 (Finished r) w2)) as G by by apply same_grows. split; try done.
  - eexists. cbn. by rewrite Ew.
  - left. exact Ec.
  - destruct Hrows as [E|(st & _ & E)]; [left; exact E|right]. split; [by left|]. intros id Hne. cbn. rewrite E. by rewrite lookup_insert_ne.
  - by left.
  - rewrite (same_sent w) by done. intros Hs. destruct Hrows as [E|(st & Hst & E)]; [apply (row_grows w); [done|cbn; by rewrite E|by apply (clients_rows _ C)]|].
    exists st. split; [cbn; by rewrite E, lookup_insert_eq|]. right. split; [done|]. by apply (answered_grows w).
  - intros key b t Hkb Ht. eapply (evidenced_grows w); [done|]. by eapply Htr.
  - intros t Ht. destruct (Hcap t Ht) as (c' & Hc). exists c'. by eapply (evidenced_grows w).
Qed.

Lemma judge_piece i wk k w c state n v turn o s1 s2 o' : Clients w -> workers w !! i = Some wk -> job wk = Some k -> at_phase k = Judging c state n v turn ->
  exists k', piece i k w k' (judge float_repr sha256_hex i k wk c state v turn o s1 s2 o' w).
Proof.
  intros C Hi Hk Hp. pose proof (clients_calls _ C _ _ _ Hi Hk) as Hok. unfold call_ok in Hok. rewrite Hp in Hok. destruct Hok as (Hb & Hrec & Ho).
  assert (holding k = true) as Hh by (unfold holding; by rewrite Hp). assert (answered_request (call_id k) w) as Ha by (by eapply outcome_answered).
  assert (forall x, received (updated state [("training_evidence", PStr x)])) as Hrx by (intros x; unfold received; by rewrite updated_get).
  assert (forall w2 (e : exn), judged k w w2 -> exists k', piece i k w k' ((fun w => let w := put_row o' (call_id k) (updated state [("training_evidence", PStr "rejected")]) w in
    if raised o' then ends i k wk (OSError "row") None w
    else ends i k wk e (Some (own_failure "training_evidence" true ++ [("response_received", PBool true); ("upstream_completion_known", PBool true)])) w) w2)) as Hrej.
  { intros w2 e J. cbv zeta. unfold ends. destruct (raised o'); apply (judged_piece i wk); try done; by apply judged_row. }
  unfold judge. destruct (generation_completion v) as [completion|e] eqn:Ec; [|by apply Hrej, judged_start].
  destruct (validate float_repr sha256_hex c (payload k) completion (PStr (call_id k)) (PInt turn)) as [t|e] eqn:Et; [|by apply Hrej, judged_start].
  assert (evidenced w c t) as Hev by (by exists k, n, v, completion, turn).
  pose proof (judged_row k w w o _ (Hrx "validated") (judged_start k w C)) as J1. destruct (raised o); [by apply Hrej|].
  pose proof (judged_trace k w _ c t Hb Hev J1) as J2. pose proof (judged_capture k w _ c t Hev J2) as J3.
  destruct (bound k); [destruct s1; [by apply Hrej|]|]; destruct s2; [by apply Hrej|by apply (judged_piece i wk)|by apply Hrej|by apply (judged_piece i wk)].
Qed.

Lemma turn_piece i wk k w c state n v : Clients w -> workers w !! i = Some wk -> job wk = Some k -> at_phase k = Turning c state n v ->
  exists k', piece i k w k' (take_turn i k wk c state n v w).
Proof.
  intros C Hi Hk Hp. pose proof (clients_calls _ C _ _ _ Hi Hk) as Hok. unfold call_ok in Hok. rewrite Hp in Hok. destruct Hok as (Hb & Hrec & Ho).
  assert (holding k = true) as Hh by (unfold holding; by rewrite Hp).
  unfold take_turn. destruct (bound k) as [key|] eqn:Ek; [|eexists; by apply (moved_piece i wk)].
  destruct (Hb key Ek) as (b & Hkb & [= ->]). cbn. rewrite Hkb. cbn. set (b' := {| b_contract := b_contract b; b_identity := _; traces := _; closed := _; next_turn := _ |}).
  set (w2 := with_bindings (<[key := b']> (bindings w)) w).
  assert (same_contracts w w2) as Hsc.
  { intros key' x Hx. cbn. destruct (decide (key' = key)) as [->|Hne]; [rewrite lookup_insert_eq; exists b'; split; [done|]; cbn; congruence|rewrite lookup_insert_ne by done; by exists x]. }
  exists (moved k (Judging (b_contract b) state n v (next_turn b))). split; try done.
  - by apply same_grows.
  - by eexists.
  - by left.
  - intros _. split; [by left|by eapply (clients_held _ C)].
  - by left.
  - by left.
  - unfold call_ok. cbn [moved at_phase]. split; [by apply (bound_grows w)|]. done.
  - intros Hs. exact (clients_rows _ C _ Hs).
  - intros key' x t Hx Ht. cbn in Hx. destruct (decide (key' = key)) as [->|Hne]; [rewrite lookup_insert_eq in Hx; injection Hx as <-|rewrite lookup_insert_ne in Hx by done].
    + exact (clients_traces _ C _ _ _ Hkb Ht).
    + exact (clients_traces _ C _ _ _ Hx Ht).
  - intros t Ht. exact (clients_captured _ C _ Ht).
Qed.

(** ** Every step *)

(** A call's step leaves the relay's state, but for a message it posts. *)
Definition posts_only w w' : Prop := files w' = files w /\ serving w' = serving w /\ upstream w' = upstream w /\
  (messages w' = messages w \/ exists m, messages w' = messages w ++ [m] /\ granted m = None /\ (at_ m = InFlight \/ at_ m = Lost)).

Lemma posts_refl w w' : files w' = files w -> serving w' = serving w -> upstream w' = upstream w -> messages w' = messages w -> posts_only w w'.
Proof. intros. split_and!; try done. by left. Qed.

Lemma client_posts_only a w w' : client_step a w = Some w' -> posts_only w w'.
Proof.
  destruct a; try done; cbn [Transport.client_step]; unfold in_call; destruct (workers w !! i) as [wk|]; try done; destruct (job wk) as [k|]; try done; destruct (at_phase k) as [|c|c st|c st|c st|c st n|st e0|c st n v|c st n v|c st n v turn|r] eqn:Ep; try done.
  - intros [= <-]. unfold check_in. repeat case_match; by apply posts_refl.
  - intros [= <-]. unfold claim, put_row. repeat case_match; by apply posts_refl.
  - intros [= <-]. unfold mark, put_row. repeat case_match; by apply posts_refl.
  - intros [= <-]. unfold dial. repeat case_match; by apply posts_refl.
  - unfold send. destruct (_ && _); [|done]. intros [= <-]. unfold posts_only. destruct error; (split_and!; [done..|]); right; eexists; (split; [done|split; [done|]]); destruct (delivered && _); auto.
  - unfold receive. destruct (messages w !! n) as [m|]; [|done]. destruct (at_ m); try done. intros [= <-]. case_match; by apply posts_refl.
  - unfold abandon. case_match; [|done]. intros [= <-]. by apply posts_refl.
  - intros [= <-]. unfold settle, put_row. repeat case_match; by apply posts_refl.
  - intros [= <-]. unfold record_response, put_row. repeat case_match; by apply posts_refl.
  - intros [= <-]. unfold take_turn. repeat case_match; by apply posts_refl.
  - intros [= <-]. unfold judge, put_row, add_trace. repeat case_match; by apply posts_refl.
Qed.

Lemma relay_other w w' : Relay w -> messages w' = messages w -> files w' = files w -> serving w' = serving w -> upstream w' = upstream w -> Relay w'.
Proof.
  intros [R1 R2 R3 R4 R5] Em Ef Es Eu. split; unfold message_ok, granted_ok, answered_with, keeps, alone in *; rewrite ?Em, ?Ef, ?Es, ?Eu; done.
Qed.

Lemma client_step_invariant a w w' : Relay w -> Clients w -> client_step a w = Some w' -> Relay w' /\ Clients w'.
Proof.
  intros R C H. split.
  - destruct (client_posts_only _ _ _ H) as (Ef & Es & Eu & [Em|(m & Em & Hg & Ha)]); [by apply (relay_other w)|by apply (append_relay w w' m)].
  - destruct a; try done; cbn [Transport.client_step] in H; unfold in_call in H; destruct (workers w !! i) as [wk|] eqn:Hi; try done; destruct (job wk) as [k|] eqn:Hk; try done; destruct (at_phase k) as [|c|c st|c st|c st|c st n|st e0|c st n v|c st n v|c st n v turn|r] eqn:Ep; try done;
      (enough (exists k', piece i k w k' w') as [k' P] by (by eapply clients_piece)).
    + injection H as <-. by apply check_in_piece.
    + injection H as <-. by eapply claim_piece.
    + injection H as <-. by apply mark_piece.
    + injection H as <-. by apply dial_piece.
    + by eapply send_piece.
    + by eapply receive_piece.
    + by eapply abandon_piece.
    + injection H as <-. by apply settle_piece.
    + injection H as <-. by apply record_piece.
    + injection H as <-. by apply turn_piece.
    + injection H as <-. by eapply judge_piece.
Qed.

(** Workers that start a call, or none. *)
Lemma clients_workers ws w : Clients w -> (forall j x y, ws !! j = Some x -> job x = Some y -> workers w !! j = Some x \/ at_phase y = Admitting) -> Clients (with_workers ws w).
Proof.
  intros C H. destruct C as [C1 C2 C3 C4 C5 C6 C7 C8]. split; try done; cbn.
  - intros j x y Hx Hy. destruct (H _ _ _ Hx Hy) as [Hw|Ha]; [exact (C1 _ _ _ Hw Hy)|]. unfold call_ok. by rewrite Ha.
  - intros j x y Hx Hy Hh. destruct (H _ _ _ Hx Hy) as [Hw|Ha]; [by eapply C2|]. unfold holding in Hh. by rewrite Ha in Hh.
  - intros j x y j' x' y' Hx Hy Hx' Hy' Hh Hh'. unfold holding in *. destruct (H _ _ _ Hx Hy) as [Hw|Ha]; [|by rewrite Ha in Hh].
    destruct (H _ _ _ Hx' Hy') as [Hw'|Ha]; [|by rewrite Ha in Hh']. by eapply C3.
Qed.

Lemma clients_bindings bs w : Clients w -> same_contracts w (with_bindings bs w) -> (forall key b t, bs !! key = Some b -> t ∈ traces b -> exists b', bindings w !! key = Some b' /\ b_contract b' = b_contract b /\ t ∈ traces b') ->
  Clients (with_bindings bs w).
Proof.
  intros C Hs Ht. pose proof C as [C1 C2 C3 C4 C5 C6 C7 C8]. split; try done; cbn.
  - intros j x y Hx Hy. apply (call_grows w); [by apply same_grows|done|by intros _; split|by eapply C1].
  - intros key b t Hb Hin. destruct (Ht _ _ _ Hb Hin) as (b' & Hb' & <- & Hin'). eapply (evidenced_grows w); [by apply same_grows|by eapply C7].
Qed.

Lemma bind_clients identity c w : Clients w -> Clients (bind_episode training_contract identity c w).1.
Proof.
  intros C. unfold bind_episode. destruct (trial_id identity) as [key|]; [|done]. destruct (negb _); [done|]. destruct (match c with Some c => Some c | None => training_contract end) as [c'|]; [|done].
  destruct (bindings w !! key) as [b|] eqn:Eb; [done|]. cbn [fst]. apply clients_bindings; [done| |].
  - intros x y Hx. exists y. cbn. rewrite lookup_insert_ne; [done|]. intros ->. congruence.
  - intros x y t Hx Ht. destruct (decide (x = key)) as [->|Hne]; [rewrite lookup_insert_eq in Hx; injection Hx as <-; by apply elem_of_nil in Ht|].
    rewrite lookup_insert_ne in Hx by done. by exists y.
Qed.

Lemma close_clients identity w : Clients w -> Clients (episode_traces identity true w).1.
Proof.
  intros C. unfold episode_traces. destruct (trial_id identity) as [key|]; [|done]. cbn [mbind option_bind]. destruct (bindings w !! key) as [b|] eqn:Eb; [|done]. cbn [fmap option_fmap option_map].
  destruct (negb _); [done|]. cbn [fst]. apply clients_bindings; [done| |].
  - intros x y Hx. cbn. destruct (decide (x = key)) as [->|Hne]; [rewrite lookup_insert_eq; eexists; split; [done|]; cbn; congruence|rewrite lookup_insert_ne by done; by exists y].
  - intros x y t Hx Ht. destruct (decide (x = key)) as [->|Hne]; [rewrite lookup_insert_eq in Hx; injection Hx as <-; by exists b|rewrite lookup_insert_ne in Hx by done; by exists y].
Qed.

Lemma foreign_clients rq w : Clients w -> Clients (post None true rq w).
Proof.
  intros C. unfold post. set (m := {| own := None; request := rq; granted := None; at_ := _ |}). assert (own m = None) as Hm by done.
  assert (grows w (with_messages (messages w ++ [m]) w)) as G by (split; intros j x Hj; exists x; split; [by apply lookup_app_l_Some|done]).
  assert (forall j x id, (messages w ++ [m]) !! j = Some x -> own x = Some id -> messages w !! j = Some x) as Hj.
  { intros j x id Hx Ho. apply lookup_app_Some in Hx as [?|[_ Hx]]; [done|]. apply list_elem_of_lookup_2, list_elem_of_singleton in Hx as ->. congruence. }
  assert (forall id, sent id (with_messages (messages w ++ [m]) w) -> sent id w) as Hs by (intros id (n & x & Hx & Ho); exists n, x; split; [by eapply Hj|done]).
  pose proof C as [C1 C2 C3 C4 C5 C6 C7 C8]. split; try done; cbn.
  - intros j x y Hx Hy. apply (call_grows w); [done|intros key b Hb; by exists b|intros _; split; [done|apply Hs]|by eapply C1].
  - intros id Hid. by apply C4, Hs.
  - intros n x n' x' id Hn Hn' Ho Ho'. eapply C5; [by eapply Hj|by eapply Hj|done|done].
  - intros id Hid. apply (row_grows w); [done|done|by apply C6, Hs].
  - intros key b t Hb Ht. eapply evidenced_grows; [done|by eapply C7].
  - intros t Ht. destruct (C8 t Ht) as (c & Hc). exists c. by eapply evidenced_grows.
Qed.

Lemma die_clients w : Clients w -> Clients (with_bindings ∅ (with_captured [] (with_workers [] w))).
Proof.
  intros [C1 C2 C3 C4 C5 C6 C7 C8]. split; try done; cbn. intros t Ht. by apply elem_of_nil in Ht.
Qed.

Lemma transport_step_invariant a w w' : Relay w -> Clients w -> step a w = Some w' -> Relay w' /\ Clients w'.
Proof.
  intros R C H. destruct a; cbn [Transport.step] in H; try (by eapply client_step_invariant);
    try (destruct (relay_step_moves _ _ _ R H) as (R' & M); split; [done|]; by apply (clients_relay w); [|split]).
  - injection H as <-. split; [|by apply bind_clients]. apply (relay_other w); try done; unfold bind_episode; repeat case_match; done.
  - injection H as <-. split; [|by apply close_clients]. apply (relay_other w); try done; unfold episode_traces; repeat case_match; done.
  - injection H as <-. split; [by apply (relay_other w)|]. apply clients_workers; [done|]. intros j x y Hx Hy. apply lookup_app_Some in Hx as [?|[_ Hx]]; [by left|].
    apply list_elem_of_lookup_2, list_elem_of_singleton in Hx as ->. done.
  - destruct (workers w !! i) as [wk|] eqn:Ei; [|done].
    assert (w' = set_job i {| call_id := request_id; payload := payload; bound := None; at_phase := Admitting |} wk w) as -> by (repeat case_match; by simplify_eq).
    split; [by apply (relay_other w)|]. apply clients_workers; [done|]. intros j x y Hx Hy. destruct (decide (j = i)) as [->|Hne].
    + rewrite list_lookup_insert_eq in Hx by (by eapply lookup_lt_Some). injection Hx as <-. cbn in Hy. injection Hy as <-. by right.
    + rewrite list_lookup_insert_ne in Hx by done. by left.
  - injection H as <-. split; [|by apply foreign_clients]. eapply append_relay; try done. cbn. case_match; auto.
  - injection H as <-. split; [by apply (relay_other w)|by apply die_clients].
Qed.

Lemma no_world_invariant : Relay no_world /\ Clients no_world.
Proof.
  split; split; try done.
  - split; [constructor|]. intros n Hn. by apply elem_of_nil in Hn.
  - intros id (n & m & Hn & _). done.
  - intros id (n & m & Hn & _). done.
  - intros t Ht. by apply elem_of_nil in Ht.
Qed.

Lemma reachable_invariants w : reachable w -> Relay w /\ Clients w.
Proof. induction 1 as [|a w w' _ [R C] H]; [apply no_world_invariant|by eapply transport_step_invariant]. Qed.

(** What a 200 tells the client that posted the request. *)
Lemma reply_record w n m id r : Relay w -> messages w !! n = Some m -> path (request m) = GENERATE +:+ id -> at_ m = Replied r -> status r = 200 ->
  exists rec q d, content r = PDict rec /\ finished_record rec /\ loads (body (request m)) = Ok q /\ dict_get "request" rec = Some q
    /\ granted m = Some (d, id) /\ (alone w n id -> files w !! (d, id) = Some (Whole rec)).
Proof.
  intros R Hn Hp Ha H200. pose proof (relay_messages _ R _ _ Hn) as Hok. unfold message_ok in Hok. rewrite Ha in Hok.
  destruct (Hok H200) as [Hecho|(rec & Hc & (q & Hq & Hd) & Hf & [d i] & Hg & Hk)]; [by rewrite Hp in Hecho|].
  destruct (relay_granted _ R _ _ Hn _ Hg) as (Hid & _). rewrite Hp, generate_id_of in Hid. cbn in Hid. injection Hid as <-. by exists rec, q, d.
Qed.
End Results.

(** C11. Whatever is lost, raised or killed on the way, however the calls of any
    number of workers, foreign requests and the relay's handlers interleave, and
    however often client and relay start again: a request id is posted at most
    once by the ledger's clients; a post reaches the model server at most once;
    at most one request of an id passes the lock of each results directory, and
    no other of them reaches the model server from there; and once it has
    passed, the directory has a file for it, which holds a record of exactly the
    request it was sent unless another message asks for the same id. So two
    requests of one id can both reach the model server only from the directories
    of two relays ([restarted_relay_forgets]). *)
Theorem request_dispatched_once float_repr sha256_hex payload_sha256 encode loads digest server max_idle training_contract w :
  reachable float_repr sha256_hex payload_sha256 encode loads digest server max_idle training_contract w ->
  (forall id n m n' m', messages w !! n = Some m -> messages w !! n' = Some m' -> own m = Some id -> own m' = Some id -> n = n')
  /\ NoDup (upstream w)
  /\ (forall n, n ∈ upstream w -> exists m, messages w !! n = Some m /\ is_Some (granted m))
  /\ (forall n m d id, messages w !! n = Some m -> granted m = Some (d, id) ->
        generate_id (path (request m)) = Some id /\ is_Some (files w !! (d, id))
        /\ (alone w n id -> exists rec q, files w !! (d, id) = Some (Whole rec) /\ loads (body (request m)) = Ok q /\ dict_get "request" rec = Some q))
  /\ forall n m n' m' key, messages w !! n = Some m -> messages w !! n' = Some m' -> granted m = Some key -> granted m' = Some key -> n = n'.
Proof.
  intros [R C]%reachable_invariants. destruct (relay_upstream _ _ R) as [Hn Hall].
  split; [intros id n m n' m'; apply (clients_posts _ _ _ _ C)|]. split; [done|]. split; [|split].
  - intros n (m & Hm & Hg & _)%Hall. by exists m.
  - intros n m d id Hm Hg. destruct (relay_granted _ _ R n m Hm _ Hg) as (Hp & Hf & Hk). split; [done|]. split; [done|]. intros (rec & Hr & q & Hq & Hd)%Hk. by exists rec, q.
  - intros n m n' m' key. exact (relay_once _ _ R n m n' m' key).
Qed.

(** C12. A request that a ledger's client has posted is never forgotten: its row
    in the ledger is there, and either [request_uncertain] holds of it, or it
    says that the response was received and the relay has answered that very
    request with its finished record, which stays in the relay's directory
    unless another message asks for the same id. In particular a row that is not
    uncertain and claims no response belongs to a request the relay was never
    sent. *)
Theorem posted_request_accounted float_repr sha256_hex payload_sha256 encode loads digest server max_idle training_contract w n m id :
  reachable float_repr sha256_hex payload_sha256 encode loads digest server max_idle training_contract w ->
  messages w !! n = Some m -> own m = Some id ->
  exists row, rows w !! id = Some row /\
    (request_uncertain (PDict row) = Ok true
     \/ dict_get "state" row = Some (PStr "response_received")
        /\ exists rec q d, at_ m = Replied {| status := 200; content := PDict rec |} /\ dict_get "status" rec = Some (PStr "finished")
             /\ loads (body (request m)) = Ok q /\ dict_get "request" rec = Some q
             /\ granted m = Some (d, id) /\ (alone w n id -> files w !! (d, id) = Some (Whole rec))).
Proof.
  intros [R C]%reachable_invariants Hn Ho. destruct (clients_rows _ _ _ _ C id) as (row & Hr & H); [by exists n, m|]. exists row. split; [done|].
  destruct H as [Hm|[Hrec (n' & m' & r & Hn' & Ho' & Hp & Ha & Hs)]]; [left|right].
  - unfold marked in Hm. destruct row as [|kv row]; [done|]. unfold request_uncertain. cbn [py_truthy length Nat.eqb negb]. f_equal.
    cbn [mapping_uncertain]. unfold uncertain_here, get_none. rewrite Hm. done.
  - split; [done|]. assert (n' = n) as -> by exact (clients_posts _ _ _ _ C n' m' n m id Hn' Hn Ho' Ho). assert (m' = m) as -> by congruence.
    destruct (reply_record _ _ _ _ _ _ R Hn Hp Ha Hs) as (rec & q & d & Hc & Hrest). exists rec, q, d. split; [|exact Hrest]. rewrite Ha. destruct r as [st ct]. cbn in *. by subst.
Qed.

(** C13. Every trace that an episode or the transport hands on validates, under
    the contract of its binding, the response in the finished record with which
    the relay answered a request posted under the trace's id; that record's
    request is what the relay read from the body sent for the call's payload,
    and the record stays in the relay's directory unless another message asks
    for the same id. *)
Theorem traces_bind_records float_repr sha256_hex payload_sha256 encode loads digest server max_idle training_contract w :
  reachable float_repr sha256_hex payload_sha256 encode loads digest server max_idle training_contract w ->
  let bound_to c t := exists id v n m rec q d completion turn,
    messages w !! n = Some m /\ own m = Some id /\ body (request m) = encode v
    /\ at_ m = Replied {| status := 200; content := PDict rec |} /\ dict_get "status" rec = Some (PStr "finished")
    /\ loads (encode v) = Ok q /\ dict_get "request" rec = Some q
    /\ granted m = Some (d, id) /\ (alone w n id -> files w !! (d, id) = Some (Whole rec))
    /\ dict_get "response" rec = Some completion /\ validate float_repr sha256_hex c v completion (PStr id) (PInt turn) = Ok t in
  (forall key b t, bindings w !! key = Some b -> t ∈ traces b -> bound_to (b_contract b) t)
  /\ (forall t, t ∈ training_traces w -> exists c, bound_to c t).
Proof.
  intros [R C]%reachable_invariants bound_to.
  assert (forall c t, evidenced float_repr sha256_hex encode w c t -> bound_to c t) as Hev.
  { intros c t (k & n & v & completion & turn & [(m & Hn & Ho & Hb & Hp) (m' & r & Hn' & Ha & Hs & Hcv)] & Hc & Hv). assert (m' = m) as -> by congruence.
    destruct (reply_record _ _ _ _ _ _ R Hn Hp Ha Hs) as (rec & q & d & Hcr & Hf & Hq & Hd & Hg & Hk). rewrite Hb in Hq.
    exists (call_id k), (payload k), n, m, rec, q, d, completion, turn. split_and!; try done.
    - rewrite Ha. destruct r as [st ct]. cbn in *. by subst.
    - unfold generation_completion, get_none in Hc. rewrite <- Hcv, Hcr in Hc. destruct (dict_get "response" rec) as [[]|]; try done. by injection Hc as ->. }
  split.
  - intros key b t Hb Ht. by eapply Hev, (clients_traces _ _ _ _ C).
  - intros t Ht. destruct (clients_captured _ _ _ _ C t Ht) as (c & Hc). exists c. by apply Hev.
Qed.

(** ** A request of a bound episode, answered and lost *)

Definition route_payload : pyval := PDict [("model", PStr MODEL); ("temperature", PFloat float_one); ("max_tokens", PInt 4); ("seed", PInt 1)].
Definition route_raw : pydict := [("model", PStr MODEL); ("choices", PList [PDict [("index", PInt 0); ("finish_reason", PStr "stop")]])].
Definition route_completion : pyval :=
  PDict (route_raw ++ [("training_evidence", PDict
    [("schema_version", PInt 1); ("request_id", PStr "job-t1"); ("request_payload_sha256", PStr (toy_digest (json_text route_payload)));
     ("response_sha256", PStr (toy_digest (json_text (PDict route_raw)))); ("policy", policy_to_dict toy_repr served_policy);
     ("context_token_ids", PList [PInt 5]); ("action_token_ids", PList [PInt 6; PInt 2]); ("behavior_log_probs", PList [PFloat float_minus_one; PInt 0]);
     ("finish_reason", PStr "eos"); ("stop_token_count", PInt 1); ("context_truncation", PStr "none");
     ("logprob_convention", PStr "sampled_distribution")])]).

Definition route_loads (s : string) : res pyval :=
  if bool_decide (s = "request") then Ok route_payload else if bool_decide (s = "answer") then Ok route_completion else Err (ValueError "no JSON").
Definition route_relay : relay := {| r_token := "token"; r_peer := "cpu"; r_workload := "grpo"; r_timeout := 900 |}.
Definition route_request : http_request :=
  {| from_peer := "cpu"; authorization := "Bearer token"; path := "/generate/job-t1"; content_length := Ok 7; chunked := false; body := "request" |}.
Definition route_episode : EpisodeIdentity :=
  {| Contracts.run_id := "run"; Contracts.benchmark := "terminal-bench"; episode_task_id := "task"; Contracts.group_id := "0"; Contracts.sample_index := 0;
     pass_index := 0; trial_id := Some "job"; Contracts.sampling_seed := None |}.
Definition route_contract : option contract := match new_contract toy_repr (Leased served_policy) served_capabilities with Ok c => Some c | Err _ => None end.

#[local] Notation route_step := (step toy_repr toy_digest (fun _ => "sha") (fun _ => "request") route_loads (fun _ => Ok "sha") route_relay 600 None).
#[local] Notation route_reachable := (reachable toy_repr toy_digest (fun _ => "sha") (fun _ => "request") route_loads (fun _ => Ok "sha") route_relay 600 None).

Fixpoint route_run (l : list action) (w : world) : option world := match l with [] => Some w | a :: l => match route_step a w with Some w => route_run l w | None => None end end.

Lemma route_run_reachable l w w' : route_reachable w -> route_run l w = Some w' -> route_reachable w'.
Proof.
  revert w; induction l as [|a l IH]; intros w Hw; cbn [route_run]; [by intros [= <-]|]. destruct (route_step a w) as [w1|] eqn:E; [|done]. apply IH. by eapply reachable_step.
Qed.

Definition route_dispatch : list action :=
  [Serve "results"; Bind route_episode route_contract; Open; Begin 0 "job-t1" route_payload; CheckIn 0; Claim 0 (PInt 0) true true Written; Mark 0 Written; Dial 0 0 (Ok tt);
   Send 0 true None route_request; Read 0; Enter 0 (PInt 0); Store 0 (Clean Written); Dispatch 0].
(** The client dies before the answer, or gets it. *)
Definition route_lost : option world := route_run (route_dispatch ++ [ClientDies]) no_world.
Definition route_answered : option world := route_run (route_dispatch ++ [Complete 0 (Ok "answer") (Clean Written); Respond 0; RelayDies; Receive 0 0; Record_ 0 Written; Turn 0; Judge 0 Written None None Written]) no_world.

Definition lost_check (w : option world) : bool :=
  match w with
  | Some w => bool_decide (upstream w = [0%nat]) && bool_decide ((own <$> messages w !! 0%nat) = Some (Some "job-t1")) && match rows w !! "job-t1" with Some row => is_str (get_none "state" row) "dispatching" | None => false end
  | None => false
  end.
Definition answered_check (w : option world) : bool :=
  match w with Some w => match bindings w !! "job" with Some b => bool_decide (length (traces b) = 1%nat) | None => false end | None => false end.
Lemma lost_checked : lost_check route_lost = true.
Proof. vm_compute. reflexivity. Qed.
Lemma answered_checked : answered_check route_answered = true.
Proof. vm_compute. reflexivity. Qed.

Lemma lost_check_inv w : lost_check w = true -> exists w' m row, w = Some w' /\ upstream w' = [0%nat] /\ messages w' !! 0%nat = Some m /\ own m = Some "job-t1" /\ rows w' !! "job-t1" = Some row /\ is_str (get_none "state" row) "dispatching" = true.
Proof.
  unfold lost_check. destruct w as [w|]; [|done]. intros H. destr_bool. destruct (messages w !! 0%nat) as [m|] eqn:Em; [|done]. destruct (rows w !! "job-t1") as [row|] eqn:Er; [|done].
  exists w, m, row. cbn [fmap option_fmap option_map] in *. split_and!; try done. congruence.
Qed.
Lemma answered_check_inv w : answered_check w = true -> exists w' b t, w = Some w' /\ bindings w' !! "job" = Some b /\ t ∈ traces b.
Proof.
  unfold answered_check. destruct w as [w|]; [|done]. destruct (bindings w !! "job") as [b|] eqn:E; [|done]. intros H. destr_bool. destruct (traces b) as [|t l] eqn:Et; [done|].
  exists w, b, t. rewrite Et. split_and!; [done|done|left].
Qed.

(** A request whose first record could not be written fails after the lock is
    free; by then another one of the same id may have been let in and finished,
    and the failure's record takes the place of the finished one. *)
Definition route_overwritten : option world :=
  route_run [Serve "results"; Foreign route_request; Foreign route_request; Read 0; Enter 0 (PInt 0); Store 0 (Clean Unwritten);
    Read 1; Enter 1 (PInt 0); Store 1 (Clean Written); Dispatch 1; Complete 1 (Ok "answer") (Clean Written); Respond 1;
    Recover 0 "OSError" (PInt 0) (Clean Written)] no_world.
Example failure_overwrites_record :
  match route_overwritten with
  | Some w => match files w !! ("results", "job-t1"), at_ <$> messages w !! 1%nat with
              | Some (Whole rec), Some (Replied r) => is_str (get_none "status" rec) "uncertain" && (status r =? 200)
              | _, _ => false
              end
  | None => false
  end = true.
Proof. vm_compute. reflexivity. Qed.

(** A relay that is started again has no records of the earlier one, so that it
    lets a foreign request in again. *)
Definition route_restarted : option world :=
  route_run ([Serve "results"; Foreign route_request; Read 0; Enter 0 (PInt 0); Store 0 (Clean Written); Dispatch 0; RelayDies; Serve "results"; Serve "again";
    Foreign route_request; Read 1; Enter 1 (PInt 0); Store 1 (Clean Written); Dispatch 1]) no_world.
Example restarted_relay_forgets : upstream <$> route_restarted = Some [0%nat; 1%nat].
Proof. vm_compute. reflexivity. Qed.

Lemma request_dispatched_once_witness : exists w m, route_lost = Some w /\ upstream w = [0%nat] /\ messages w !! 0%nat = Some m
  /\ exists d id, granted m = Some (d, id) /\ is_Some (files w !! (d, id)).
Proof.
  destruct (lost_check_inv _ lost_checked) as (w & m & row & Hw & Hu & Hm & _). pose proof (route_run_reachable _ _ _ (reachable_start _ _ _ _ _ _ _ _ _) Hw) as Hr.
  destruct (request_dispatched_once _ _ _ _ _ _ _ _ _ _ Hr) as (_ & _ & Hgr & Hrec & _). destruct (Hgr 0%nat ltac:(rewrite Hu; left)) as (m' & Hm' & [d id] & Hg).
  rewrite Hm in Hm'. injection Hm' as <-. destruct (Hrec 0%nat m d id Hm Hg) as (_ & Hf & _).
  exists w, m. split; [exact Hw|]. split; [exact Hu|]. split; [exact Hm|]. exists d, id. split; [exact Hg|exact Hf].
Defined.

Lemma posted_request_accounted_witness : exists w row, route_lost = Some w /\ rows w !! "job-t1" = Some row /\ request_uncertain (PDict row) = Ok true.
Proof.
  destruct (lost_check_inv _ lost_checked) as (w & m & row & Hw & _ & Hm & Ho & Hrow & Hstate). pose proof (route_run_reachable _ _ _ (reachable_start _ _ _ _ _ _ _ _ _) Hw) as Hr.
  destruct (posted_request_accounted _ _ _ _ _ _ _ _ _ w 0%nat m "job-t1" Hr Hm Ho) as (row' & Hrow' & [Hu|[Hs _]]).
  - exists w, row'. split; [exact Hw|]. split; [exact Hrow'|exact Hu].
  - exfalso. rewrite Hrow in Hrow'. injection Hrow' as <-. unfold get_none in Hstate. rewrite Hs in Hstate. discriminate Hstate.
Defined.

Lemma traces_bind_records_witness : exists w b t, route_answered = Some w /\ bindings w !! "job" = Some b /\ t ∈ traces b
  /\ exists n m rec, messages w !! n = Some m /\ at_ m = Replied {| status := 200; content := PDict rec |} /\ dict_get "status" rec = Some (PStr "finished").
Proof.
  destruct (answered_check_inv _ answered_checked) as (w & b & t & Hw & Hb & Ht). pose proof (route_run_reachable _ _ _ (reachable_start _ _ _ _ _ _ _ _ _) Hw) as Hr.
  destruct (traces_bind_records _ _ _ _ _ _ _ _ _ w Hr) as [Hall _]. destruct (Hall "job" b t Hb Ht) as (id & v & n & m & rec & q & d & completion & turn & Hm & _ & _ & Ha & Hf & _).
  exists w, b, t. split; [exact Hw|]. split; [exact Hb|]. split; [exact Ht|]. exists n, m, rec. split; [exact Hm|]. split; [exact Ha|exact Hf].
Defined.
